(* ===== verification/_CoqProject ===== *)
-Q . S2P
Prelude.v
Errors.v
Text.v
Inflate.v
Base64.v
PackedDecimal.v
Float64.v
ClassicTemporal.v
DecimalFloat.v
Scramble.v
UnicodeScalar.v
XrfcNames.v
Rfcerr.v
Bxml.v
Wire.v
Ni.v
Conn.v
Saprouter.v
Appc.v
AppcRecords.v
AppcFragmentation.v
AppcConversation.v
Transport.v
Gateway.v
Socks5.v
Rfcpro.v
Cpic.v
CpicFunction.v
CpicLogon.v
ClassicRfc.v
Structure.v
ClassicXrfc.v
ServerRequest.v
ServerResponse.v
Metadata.v
Ddif.v
GraphComponents.v
RecursiveMetadata.v
RecursiveCounts.v
ParameterIndex.v
MetadataGet.v
ClientSession.v
ClientCalls.v
Pool.v
Lifecycle.v
Lz4.v
Fastser.v
