(* ===== verification/Prelude.v ===== *)
(** * A verification of open-rfc-go

    The program is a client for SAP's classic RFC protocol in Go, with a server side for
    its own tests and bridges.  A call travels down a stack of codecs and state machines:

    - rfc, pkg/adtbridge, cmd: the public API and the tools;
    - internal/client: one session (handshake, logon, exchange of a request and a reply),
      pooled by internal/lifecycle over internal/pool;
    - internal/cpic over internal/rfcpro: a request is a prefix, a chain of tagged fields
      and a trailer; its values come from internal/classicrfc, structure, value, xrfc,
      fastser, and the shapes of the values from internal/metadata;
    - internal/rfcerr: the outcome and the error facts of a response envelope;
    - internal/gateway and internal/appc: the gateway record that opens a connection, and
      the APPC records that carry a conversation, with fragmentation and reassembly;
    - internal/transport over ni (NI frames) and a TCP connection, which
      internal/saprouter or internal/socks5 may tunnel;
    - internal/rfcserver: the other end, which decodes requests and answers them;
    - wire: the bounds-checked reader and writer of all fixed-size records.

    The development models the path of a call through that stack, from the frame on the
    connection up to the logon and the calls of a session, the function request and response
    with the value codecs they use, the server that answers, and the parts beside that path:
    the pool and the shared session, the router and proxy handshakes, the metadata decoders, the binary
    XML codec and the fast serialisation.  The
    packages wire and ni exist twice in the repository, at the root and under internal/,
    with the same text; the map names the copy at the root, which appc imports.

    ** Files

    - [Prelude] (this file): bytes and machine integers, Go's slices and panics, the
      result and state monads, automation, lemmas shared by all files.
    - [Errors]: the sentinel errors of the modelled packages.
    - [Text]: UTF-8 and UTF-16 as Go's packages treat them, decimal printing and parsing.
    - [Inflate]: a DEFLATE decoder, for the compressed tables of classicrfc.
    - [PackedDecimal], [ClassicTemporal], [DecimalFloat], [UnicodeScalar]: internal/value,
      one file per source file.
    - [Scramble]: internal/scramble/scramble.go.
    - [Base64], [Float64]: the base64 and floating-point texts of Go's standard library.
    - [XrfcNames]: the escaping of names in internal/xrfc/recursive_xrfc.go; [ClassicXrfc]:
      its classic_xrfc.go, the XML documents of flat structures and tables.
    - [Rfcerr]: internal/rfcerr/rfcerr.go; [Bxml]: internal/bxml.
    - [Wire]: wire/wire.go.  Modules [Reader] and [Writer].
    - [Ni]: ni/frame.go.  [FrameDecoder] with its chunk queue, [Push], [Finish], [Reset].
    - [Conn]: the io.ReadWriter of a handshake; [Saprouter]: internal/saprouter;
      [Socks5]: internal/socks5.
    - [Appc], [AppcRecords], [AppcFragmentation], [AppcConversation]: internal/appc,
      one file per source file.  Module [ClientSetup] is ClientSetupStateMachine, module
      [ConversationDecoder] is the struct of that name.
    - [Transport]: internal/transport/transport.go, module [NiTransport], and the
      interface (classes [Transport] and [TransportSpec]) against which the session is
      verified, with [Traced], which adds the order of sends and receives to any transport.
    - [Gateway]: internal/gateway/gateway.go.
    - [Rfcpro]: internal/rfcpro/rfcpro.go.
    - [Cpic]: the field chain of internal/cpic/cpic.go; [CpicFunction]: the requests and
      responses of internal/cpic/function.go; [CpicLogon]: its logon.go, grammar.go, ticket.go.
    - [ClassicRfc]: internal/classicrfc/classicrfc.go.
    - [Structure]: internal/structure and internal/rfctypes; any values are the dynamic
      type [any].
    - [ServerRequest], [ServerResponse]: request.go, response.go, response_eclipse.go,
      dispatcher.go and niframe.go of internal/rfcserver.
    - [Metadata]: structure_definition.go and function_interface.go of internal/metadata;
      [Ddif]: its ddif.go; [RecursiveMetadata]: its recursive.go, over [GraphComponents], the
      graph algorithms in that file; [RecursiveCounts]: what its statistics count; [ParameterIndex]: its parameter_index.go;
      [MetadataGet]: its metadata_get.go.
    - [ClientSession]: internal/client/session.go up to [exchange]; [ClientCalls]: its logon,
      calls and callbacks.
    - [Pool]: internal/pool/pool.go as a step relation on interleaved goroutines;
      [Lifecycle]: internal/lifecycle/lifecycle.go, the same for a shared session, against
      the interface of the source (class [Session]), with its pool factory.
    - [Lz4]: internal/fastser/lz4.go; [Fastser]: the other files of internal/fastser.

    ** Correspondence

    Definitions keep the names of the source.  A Go [byte] is a [byte], a slice or string
    of them a list; an integer of a fixed width is a [Z] with the conversions [uint16],
    [int32] and so on written out, and [int] is a [Z] (64 bits wide in the source; the
    places where a bound matters, such as the NI decoder's conversion to uint64 and the
    exponents of packed decimals, either write the wrap-around or carry the hypothesis
    that the data fits).  A fallible function returns [res], with [Err] for a returned
    error and [Panic] for an out-of-range index or slice, so "no panic" is a statement
    that can be proved.  A method is a computation in the state monad [M] over its
    receiver.  A chain of writes with an early return is the list of its items
    ([encode_items]), in the order of the source.

    A loop whose recursion is not structural has fuel, and [EFuel] marks its exhaustion.
    The fuel is always computed from the input and proved sufficient: the NI loops take
    at least one buffered byte or chunk per round, the transport's loop one read, the
    field-chain decoder six bytes, the LZ4 decoder and search one byte, the session's
    receive loop one fragment of the decoder's limit of 65,536 ([receive_fuel]), the
    route reader two segments, the readers of binary and classic XML and the scans of fastser one byte; the graph
    passes one step per node and edge; the binary searches of the temporal codec halve their
    interval, and DEFLATE consumes at least one bit per symbol.  The one
    exception is the loop that serves callbacks ([call_loop]): the server decides how often
    it calls back, so its bound is an argument, and the theorem says that any bound above
    the number of callbacks gives the same result.  [total] says of a result that it neither
    panics nor ran out of fuel.

    ** What the theorems show

    - Framing: the incremental frame decoder refines a reference deframer on the whole
      stream, so chunking is irrelevant; frames and payloads round-trip.
    - Codecs: every fixed-size record of wire, appc, rfcpro, cpic and gateway round-trips,
      with the exact condition where a text field cannot; DecodeHeader, the field-chain
      decoder, the acknowledgement decoder and the IPv4 text codec are characterised
      exactly, errors included.
    - Messages: a plan carries exactly its message, is accepted exactly under the stated
      conditions, encodes, and keeps the synchronisation distance; the conversation
      decoder loses and invents nothing and stays within its limits on any input.
    - Setup: on every run of the state machine the successful calls are in protocol order, the
      optional program name included, and a refused call has a defined effect.
    - Session: opening, writing a plan, receiving a reply and one whole exchange, proved
      against the transport interface and therefore for the NI transport, which is shown
      to implement it.
    - Logon and calls: a logon authenticates a session exactly when the response says so, and
      is read by the receiver as it was meant; nothing is sent for a call before that; a call
      returns what the handler of the server returned, through both codecs and the records
      of both ends; callbacks are answered in order, each before anything further is read.
    - Sharing: any interleaving of goroutines on one session equals one call after the other,
      nothing is called after Close, and every operation returns unless a call of the session
      hangs or a callback handler calls the session it serves, which then hold up all others.
    - Values: the decimal, packed and temporal codecs accept exactly the representable
      values, keep them, and are total; day ordinals count the days of the calendar;
      structures round-trip through their definitions and decode to values of their types.
    - Calls: requests and responses are framed as specified, the server reads what the
      client wrote and the client reads what the server answered; a dispatched call runs
      the handler on the decoded arguments; decoders of hostile input are total, and the
      tables of a result stay within their budget.
    - Metadata: rows read back, the decoders are total, and an accepted definition meets
      the precondition of the structure codec; its rows make the codec panic
      when the end of a field overflows its int32 bounds check and never otherwise, and the
      DDIC lookup is shown not to have this fault.  The
      normaliser of recursive types ends on every input; an accepted graph is closed, its
      statistics count its input, types and references and are within the limits of the caller, its cycles and its depth are the mathematical ones, its fields are
      laid out in order unless a 64-bit sum wraps, and it can be indexed by parameter.
      RFC_METADATA_GET: its hard-coded interface initialises and describes its tables; a
      timestamp batch, a structure and a recursive answer are accepted exactly as their rows
      say, and the recursive view of a function agrees with the flat one.
    - Documents: a classic xRFC document reads back to the normal form of every cell, floats
      to the bit; its decoder is total without packed fields, and a packed cell can stop it.
    - Router: the accepted routes are exactly the printed good ones, passwords do not
      reach the printed form, and the handshake sends and consumes exactly one frame.
      Proxy: the SOCKS handshake is characterised exactly, and so are the accepted targets.
    - Pool: slot conservation, no lost wake-up, exclusive ownership and complete draining
      as invariants of all interleavings; a Close that gives up leaks every idle resource, and
      a waiter can be served after Close, both against its documentation.
    - Binary XML: what the writer accepts is read back, the reader is total, and lengths wrap
      at 2 MiB.  Fast serialisation: records, items and fields are found exactly where their
      forms are.
    - LZ4: the decoder is total and exact, decodes every valid block to its expansion, and
      the search reports only real, disjoint blocks.

    ** Not modelled

    Dialling, deadlines and context plumbing (the environment of [Transport] stands for
    them); logging; error texts, except in wire where they are the contract; the XML
    documents of recursive types in xrfc, the parts of rfcserver
    about ADT and the S/4 envelope, the sniffer and the bridge, the public API and
    the commands. *)
From stdpp Require Import base list numbers strings option countable.
From Stdlib Require Import ZArith Lia Strings.Byte.

Open Scope Z_scope.

(** ** Bytes, strings and machine integers

    A Go [byte] is an [Init.Byte.byte]; a [[]byte] and a Go [string] are both
    [list byte].  A Go integer of a given width is a [Z]; the conversions
    [uint8(x)], [uint16(x)], ... are the truncations below.  [int] is a [Z]. *)

Abbreviation bytes := (list byte).

#[global] Instance byte_eqdec : EqDecision byte := byte_eq_dec.
#[global] Instance byte_inhabited : Inhabited byte := populate x00.

Definition b2z (b : byte) : Z := Z.of_N (Byte.to_N b).
Definition z2b (z : Z) : byte := default x00 (Byte.of_N (Z.to_N (z mod 256))).

Definition uint8 (z : Z) : Z := z mod 2 ^ 8.
Definition uint16 (z : Z) : Z := z mod 2 ^ 16.
Definition uint32 (z : Z) : Z := z mod 2 ^ 32.
Definition uint64 (z : Z) : Z := z mod 2 ^ 64.
Definition int32 (z : Z) : Z := (z + 2 ^ 31) mod 2 ^ 32 - 2 ^ 31.

Definition int64 (z : Z) : Z := (z + 2 ^ 63) mod 2 ^ 64 - 2 ^ 63.

Definition is_u8 (z : Z) : Prop := 0 <= z < 2 ^ 8.
Definition is_u16 (z : Z) : Prop := 0 <= z < 2 ^ 16.
Definition is_u32 (z : Z) : Prop := 0 <= z < 2 ^ 32.
Definition is_i32 (z : Z) : Prop := - 2 ^ 31 <= z < 2 ^ 31.
Definition is_i64 (z : Z) : Prop := - 2 ^ 63 <= z < 2 ^ 63.

(** [len], and the raw slice and index expressions, which panic out of range. *)
Definition zlen {A} (l : list A) : Z := Z.of_nat (length l).

(** The Go string literal as its bytes. *)
Definition lit (s : string) : bytes := String.list_byte_of_string s.

Definition bytes_eqb (a b : bytes) : bool := bool_decide (a = b).

(** ** Outcomes

    A Go call returns a value, returns an error, or panics.  The error type is a
    parameter here; [Errors.error] instantiates it. *)
Inductive outcome (E A : Type) : Type :=
| Ok (a : A)
| Err (e : E)
| Panic.
Arguments Ok {E A} a.
Arguments Err {E A} e.
Arguments Panic {E A}.

#[global] Instance outcome_ret E : MRet (outcome E) := fun A a => Ok a.
#[global] Instance outcome_bind E : MBind (outcome E) := fun A B k m =>
  match m with Ok a => k a | Err e => Err e | Panic => Panic end.
#[global] Instance outcome_fmap E : FMap (outcome E) := fun A B f m =>
  match m with Ok a => Ok (f a) | Err e => Err e | Panic => Panic end.

Definition is_Ok {E A} (m : outcome E A) : Prop := exists a, m = Ok a.

(** ** Stateful computations

    A method of a mutable receiver: the receiver before, the outcome, and the
    receiver after.  The receiver after an error is kept, since Go code can go on
    using it. *)
Definition stm (E S A : Type) : Type := S -> outcome E A * S.

#[global] Instance stm_ret E S : MRet (stm E S) := fun A a s => (Ok a, s).
#[global] Instance stm_bind E S : MBind (stm E S) := fun A B k m s =>
  match m s with
  | (Ok a, s') => k a s'
  | (Err e, s') => (Err e, s')
  | (Panic, s') => (Panic, s')
  end.

Definition get {E S} : stm E S S := fun s => (Ok s, s).
Definition put {E S} (s : S) : stm E S unit := fun _ => (Ok tt, s).
Definition lift {E S A} (m : outcome E A) : stm E S A := fun s => (m, s).
Definition fail {E S A} (e : E) : stm E S A := fun s => (Err e, s).
Definition run {E S A} (m : stm E S A) (s : S) : outcome E A := fst (m s).

(** [if cond { return err }] *)
Definition guard {E} (c : bool) (e : E) : outcome E unit := if c then Err e else Ok tt.

(** ** Raw indexing, slicing and encoding/binary *)
Section Raw.
Context {E : Type}.

(** [l[i]] *)
Definition go_index {A} (l : list A) (i : Z) : outcome E A :=
  if i <? 0 then Panic
  else match l !! Z.to_nat i with Some a => Ok a | None => Panic end.

(** [l[a:b]] *)
Definition go_slice {A} (l : list A) (a b : Z) : outcome E (list A) :=
  if (a <? 0) || (b <? a) || (zlen l <? b) then Panic
  else Ok (take (Z.to_nat (b - a)) (drop (Z.to_nat a) l)).

(** [l[a:]] *)
Definition go_from {A} (l : list A) (a : Z) : outcome E (list A) := go_slice l a (zlen l).

Definition be_combine (l : bytes) : Z := fold_left (fun acc b => acc * 256 + b2z b) l 0.
Definition le_combine (l : bytes) : Z := be_combine (rev l).

Fixpoint be_split (n : nat) (v : Z) : bytes :=
  match n with
  | O => []
  | S n => be_split n (v / 256) ++ [z2b v]
  end.
Definition le_split (n : nat) (v : Z) : bytes := rev (be_split n v).

(** [binary.BigEndian.UintN] and [binary.LittleEndian.UintN]: a panic on a
    short slice. *)
Definition be_uint (n : nat) (l : bytes) : outcome E Z :=
  if (length l <? n)%nat then Panic else Ok (be_combine (take n l)).
Definition le_uint (n : nat) (l : bytes) : outcome E Z :=
  if (length l <? n)%nat then Panic else Ok (le_combine (take n l)).
End Raw.

(** [copy(dst[at:], src)] on a buffer that [at] lies inside. *)
Definition go_copy (dst : bytes) (at_ : Z) (src : bytes) : bytes :=
  let room := Nat.sub (length dst) (Z.to_nat at_) in
  take (Z.to_nat at_) dst ++ take room src ++ drop (Z.to_nat at_ + Nat.min room (length src)) dst.

(** [make([]byte, n)] *)
Definition zeros (n : Z) : bytes := replicate (Z.to_nat n) x00.

(** ** Automation *)
Create HintDb orfc.
Create Rewrite HintDb orfc.

(** Solve goals on lengths and offsets. *)
Ltac len_simpl :=
  unfold zlen, zeros in *;
  repeat rewrite ?length_app, ?length_replicate, ?length_take, ?length_drop, ?length_cons,
    ?length_nil, ?length_rev in *.

(** Name the elements of a list of known length. *)
Ltac explode l :=
  match goal with
  | H : length l = S _ |- _ =>
      let b := fresh "b" in let l' := fresh "l" in
      destruct l as [|b l']; [discriminate H|]; cbn [length] in H; apply Nat.succ_inj in H; explode l'
  | H : length l = O |- _ => destruct l; [clear H|discriminate H]
  end.
Ltac len_lia := len_simpl; simpl length in *; lia.

(** Case on every boolean test of the goal's head match, with the arithmetic fact. *)
Ltac case_tests :=
  repeat match goal with
  | |- context [Z.ltb ?a ?b] => destruct (Z.ltb_spec a b)
  | |- context [Z.leb ?a ?b] => destruct (Z.leb_spec a b)
  | |- context [Z.eqb ?a ?b] => destruct (Z.eqb_spec a b)
  | |- context [Nat.ltb ?a ?b] => destruct (Nat.ltb_spec a b)
  | |- context [Nat.leb ?a ?b] => destruct (Nat.leb_spec a b)
  | |- context [Nat.eqb ?a ?b] => destruct (Nat.eqb_spec a b)
  end; cbn [orb andb negb] in *.

(** Unfold one step of the monads. *)
Ltac msimpl :=
  cbn [mbind mret fmap outcome_bind outcome_ret outcome_fmap stm_bind stm_ret
       get put lift fail run guard fst snd] in *.

(** Open a stateful computation applied to a state. *)
Ltac munfold :=
  unfold mbind, stm_bind, outcome_bind, mret, stm_ret, outcome_ret, get, put, lift, fail;
  cbv beta iota zeta.

(** ** Bytes *)
Lemma b2z_range b : 0 <= b2z b < 256.
Proof. unfold b2z. pose proof (Byte.to_N_bounded b). lia. Qed.

Lemma b2z_z2b z : b2z (z2b z) = z mod 256.
Proof.
  unfold b2z, z2b.
  assert (H : 0 <= z mod 256 < 256) by (apply Z.mod_pos_bound; lia).
  destruct (Byte.of_N (Z.to_N (z mod 256))) eqn:E; simpl.
  - apply Byte.to_of_N in E. rewrite E. lia.
  - apply Byte.of_N_None_iff in E. lia.
Qed.

Lemma b2z_inj a b : b2z a = b2z b -> a = b.
Proof.
  unfold b2z. intros H. apply N2Z.inj in H.
  pose proof (Byte.of_to_N a) as Ha. pose proof (Byte.of_to_N b) as Hb. congruence.
Qed.

Lemma z2b_b2z b : z2b (b2z b) = b.
Proof. apply b2z_inj. rewrite b2z_z2b. apply Z.mod_small, b2z_range. Qed.

#[global] Instance byte_countable : Countable byte := inj_countable' b2z z2b z2b_b2z.

Lemma b2z_z2b_small z : is_u8 z -> b2z (z2b z) = z.
Proof. intros H. rewrite b2z_z2b. apply Z.mod_small, H. Qed.

(** ** Big- and little-endian integers *)
Lemma be_combine_acc l a :
  fold_left (fun acc b => acc * 256 + b2z b) l a = a * 256 ^ zlen l + be_combine l.
Proof.
  unfold be_combine. revert a. induction l as [|b l IH]; intros a.
  - change (zlen (@nil byte)) with 0. cbn [fold_left]. rewrite Z.pow_0_r. lia.
  - cbn [fold_left]. rewrite IH, (IH (0 * 256 + b2z b)).
    unfold zlen. cbn [length]. rewrite Nat2Z.inj_succ, Z.pow_succ_r by lia. ring.
Qed.

Lemma be_combine_app l1 l2 :
  be_combine (l1 ++ l2) = be_combine l1 * 256 ^ zlen l2 + be_combine l2.
Proof. unfold be_combine at 1. rewrite fold_left_app. apply be_combine_acc. Qed.

Lemma be_combine_cons b l : be_combine (b :: l) = b2z b * 256 ^ zlen l + be_combine l.
Proof. apply (be_combine_app [b] l). Qed.

Lemma be_combine_range l : 0 <= be_combine l < 256 ^ zlen l.
Proof.
  induction l as [|b l IH]; [done|].
  rewrite be_combine_cons. pose proof (b2z_range b) as Hb.
  unfold zlen in *. cbn [length]. rewrite Nat2Z.inj_succ, Z.pow_succ_r by lia. nia.
Qed.

Lemma length_be_split n v : length (be_split n v) = n.
Proof. revert v. induction n; intros v; simpl; [done|]. rewrite length_app, IHn. simpl. lia. Qed.

Lemma be_combine_split n v : be_combine (be_split n v) = v mod 256 ^ Z.of_nat n.
Proof.
  revert v. induction n as [|n IH]; intros v.
  - cbn. symmetry. apply Z.mod_1_r.
  - cbn [be_split]. rewrite be_combine_app, IH, be_combine_cons, b2z_z2b.
    change (zlen [z2b v]) with 1. change (zlen (@nil byte)) with 0.
    change (be_combine []) with 0.
    rewrite Nat2Z.inj_succ, Z.pow_succ_r by lia.
    rewrite (Z.rem_mul_r v 256 (256 ^ Z.of_nat n)) by lia. lia.
Qed.

Lemma be_split_combine l : be_split (length l) (be_combine l) = l.
Proof.
  induction l as [|b l IH] using rev_ind; [done|].
  rewrite length_app. simpl length. rewrite Nat.add_1_r. cbn [be_split].
  rewrite be_combine_app, be_combine_cons.
  change (zlen [b]) with 1. change (zlen (@nil byte)) with 0. change (be_combine []) with 0.
  pose proof (b2z_range b) as Hb.
  replace (be_combine l * 256 ^ 1 + (b2z b * 256 ^ 0 + 0)) with (b2z b + be_combine l * 256) by ring.
  rewrite Z.div_add by lia. rewrite (Z.div_small (b2z b)) by lia. rewrite Z.add_0_l, IH.
  f_equal. f_equal. rewrite <- (z2b_b2z b) at 2. apply b2z_inj. rewrite !b2z_z2b.
  rewrite Z.mod_add by lia. done.
Qed.

Lemma be_split_mod n v : be_split n (v mod 256 ^ Z.of_nat n) = be_split n v.
Proof. rewrite <- be_combine_split. rewrite <- (length_be_split n v) at 1. apply be_split_combine. Qed.

Lemma be_split_2 a b : be_split 2 (be_combine [a; b]) = [a; b].
Proof. apply (be_split_combine [a; b]). Qed.

Lemma be_split_4 a b c d : be_split 4 (be_combine [a; b; c; d]) = [a; b; c; d].
Proof. apply (be_split_combine [a; b; c; d]). Qed.

Lemma be_split_uint32 v : be_split 4 (uint32 v) = be_split 4 v.
Proof. apply (be_split_mod 4 v). Qed.

Lemma length_le_split n v : length (le_split n v) = n.
Proof. unfold le_split. rewrite length_rev. apply length_be_split. Qed.

Lemma le_combine_split n v : le_combine (le_split n v) = v mod 256 ^ Z.of_nat n.
Proof. unfold le_combine, le_split. rewrite rev_involutive. apply be_combine_split. Qed.

Lemma le_combine_range l : 0 <= le_combine l < 256 ^ zlen l.
Proof.
  unfold le_combine. pose proof (be_combine_range (rev l)) as H.
  unfold zlen in *. rewrite length_rev in H. done.
Qed.

Lemma int32_uint32 z : is_i32 z -> int32 (uint32 z) = z.
Proof.
  unfold is_i32, int32, uint32. intros H.
  rewrite Z.add_mod_idemp_l by lia. rewrite Z.mod_small by lia. lia.
Qed.

Lemma uint32_int32 z : uint32 (int32 z) = uint32 z.
Proof.
  unfold int32, uint32.
  replace ((z + 2 ^ 31) mod 2 ^ 32 - 2 ^ 31) with ((z + 2 ^ 31) mod 2 ^ 32 + - 2 ^ 31) by lia.
  rewrite Z.add_mod_idemp_l by lia. f_equal. lia.
Qed.

Lemma int32_range z : is_i32 (int32 z).
Proof. unfold is_i32, int32. pose proof (Z.mod_pos_bound (z + 2 ^ 31) (2 ^ 32)). lia. Qed.

Lemma int32_small z : is_i32 z -> int32 z = z.
Proof. unfold is_i32, int32. intros H. rewrite Z.mod_small by lia. lia. Qed.

Lemma int64_small z : is_i64 z -> int64 z = z.
Proof. unfold is_i64, int64. intros H. rewrite Z.mod_small by lia. lia. Qed.

Lemma int64_range z : is_i64 (int64 z).
Proof. unfold is_i64, int64. pose proof (Z.mod_pos_bound (z + 2 ^ 63) (2 ^ 64)). lia. Qed.

Lemma be_split_int32 v : be_split 4 (uint32 (int32 v)) = be_split 4 v.
Proof. rewrite uint32_int32. apply be_split_uint32. Qed.

(** [v<<8 | b] is [256 * v + b]. *)
Lemma lor_shiftl8 v b : Z.lor (Z.shiftl v 8) (b2z b) = v * 256 + b2z b.
Proof.
  pose proof (b2z_range b) as Hb.
  rewrite <- Z.lxor_lor, <- Z.add_nocarry_lxor, Z.shiftl_mul_pow2 by
    (lia || (apply Z.bits_inj'; intros i Hi; rewrite Z.land_spec, Z.bits_0;
             destruct (Z.ltb_spec i 8);
             [rewrite Z.shiftl_spec_low by lia; done
             |replace (b2z b) with (b2z b mod 2 ^ 8) by (apply Z.mod_small; lia);
              rewrite Z.mod_pow2_bits_high by lia; apply andb_false_r])).
  done.
Qed.

(** ** Lists *)
Lemma zlen_nonneg {A} (l : list A) : 0 <= zlen l.
Proof. unfold zlen. lia. Qed.

Lemma zlen_app {A} (l1 l2 : list A) : zlen (l1 ++ l2) = zlen l1 + zlen l2.
Proof. len_lia. Qed.

Lemma to_nat_zlen {A} (l : list A) : Z.to_nat (zlen l) = length l.
Proof. unfold zlen. lia. Qed.

Lemma zlen_zeros n : 0 <= n -> zlen (zeros n) = n.
Proof. intros. len_lia. Qed.

Lemma bytes_eqb_eq a b : bytes_eqb a b = true <-> a = b.
Proof. apply bool_decide_eq_true. Qed.

Lemma bytes_eqb_refl a : bytes_eqb a a = true.
Proof. by apply bytes_eqb_eq. Qed.

(** A slice that lies inside [pre ++ mid ++ post] and covers exactly [mid]. *)
Lemma go_slice_mid {E A} (pre mid post : list A) a b :
  a = zlen pre -> b = zlen pre + zlen mid ->
  go_slice (E := E) (pre ++ mid ++ post) a b = Ok mid.
Proof.
  intros -> ->. unfold go_slice. case_tests; try len_lia.
  replace (zlen pre + zlen mid - zlen pre) with (zlen mid) by lia.
  rewrite !to_nat_zlen, drop_app_length, take_app_length. done.
Qed.

Lemma go_slice_ok {E A} (l : list A) a b :
  0 <= a <= b -> b <= zlen l ->
  go_slice (E := E) l a b = Ok (take (Z.to_nat (b - a)) (drop (Z.to_nat a) l)).
Proof. intros. unfold go_slice. case_tests; try lia. done. Qed.

Lemma go_index_mid {E A} (pre : list A) x post i :
  i = zlen pre -> go_index (E := E) (pre ++ x :: post) i = Ok x.
Proof.
  intros ->. unfold go_index. case_tests; [len_lia|].
  rewrite to_nat_zlen, lookup_app_r, Nat.sub_diag by lia. done.
Qed.

Lemma go_index_ok {E A} (l : list A) i :
  0 <= i < zlen l -> exists x, go_index (E := E) l i = Ok x.
Proof.
  intros H. unfold go_index. case_tests; [lia|].
  destruct (lookup_lt_is_Some_2 l (Z.to_nat i)) as [x ->]; [len_lia|]. by exists x.
Qed.

Lemma go_copy_exact done_ room src :
  (length src <= room)%nat ->
  go_copy (done_ ++ replicate room x00) (zlen done_) src
  = (done_ ++ src) ++ replicate (room - length src) x00.
Proof.
  intros H. unfold go_copy. rewrite to_nat_zlen, take_app_length.
  rewrite length_app, length_replicate.
  replace (Nat.sub (length done_ + room) (length done_)) with room by lia.
  rewrite take_ge by lia. rewrite Nat.min_r by lia.
  rewrite drop_app_ge by lia.
  replace (length done_ + length src - length done_)%nat with (length src) by lia.
  rewrite drop_replicate. by rewrite app_assoc.
Qed.

Lemma go_copy_pad n p src :
  (length src <= n)%nat -> go_copy (replicate n p) 0 src = src ++ replicate (n - length src) p.
Proof.
  intros H. unfold go_copy. change (Z.to_nat 0) with O. rewrite Nat.sub_0_r, length_replicate.
  rewrite take_0, (take_ge src) by lia. rewrite Nat.min_r by lia. cbn [app].
  by rewrite drop_replicate.
Qed.

(** One step of a stateful computation whose first action is known to succeed. *)
Lemma bind_ok {E S A B} (m : stm E S A) (k : A -> stm E S B) s a s' :
  m s = (Ok a, s') -> (m ≫= k) s = k a s'.
Proof. intros H. unfold mbind, stm_bind. by rewrite H. Qed.

Lemma bind_err {E S A B} (m : stm E S A) (k : A -> stm E S B) s e s' :
  m s = (Err e, s') -> (m ≫= k) s = (Err e, s').
Proof. intros H. unfold mbind, stm_bind. by rewrite H. Qed.

(** Consecutive slices of [k] elements put a list back together. *)
Lemma concat_slices {A} (k n : nat) (l : list A) :
  concat (map (fun i => take k (drop (i * k) l)) (seq 0 n)) = take (n * k) l.
Proof.
  induction n as [|n IH]; [done|]. rewrite seq_S, map_app, concat_app, IH. cbn [map concat].
  rewrite app_nil_r, Nat.add_0_l, (take_take_drop l (n * k) k). f_equal. lia.
Qed.

Lemma mapM_all_ok {E A B} (f : A -> outcome E B) (g : A -> B) l :
  Forall (fun x => f x = Ok (g x)) l -> mapM f l = Ok (map g l).
Proof. induction 1 as [|x l Hx _ IH]; [done|]. cbn. rewrite Hx. cbn. by rewrite IH. Qed.

Lemma Ok_inj {E A} (a b : A) : @Ok E A a = Ok b -> a = b.
Proof. by intros [=]. Qed.

(** An outcome that is a value came through each step. *)
Lemma ok_bind {E A B} (a : A) (k : A -> outcome E B) : (Ok a ≫= k) = k a.
Proof. done. Qed.

Lemma obind_ok {E A B} (m : outcome E A) (k : A -> outcome E B) b :
  (m ≫= k) = Ok b -> exists a, m = Ok a /\ k a = Ok b.
Proof. destruct m as [a| |]; [|discriminate..]. intros H. by exists a. Qed.

Lemma obind_panic {E A B} (m : outcome E A) (k : A -> outcome E B) :
  m <> Panic -> (forall a, m = Ok a -> k a <> Panic) -> (m ≫= k) <> Panic.
Proof. intros H1 H2. destruct m as [a| |]; [by apply H2|done|done]. Qed.

(** Split a successful sequence into its steps: [ok_step H as a Ha] takes the first. *)
Tactic Notation "ok_step" ident(H) "as" ident(a) ident(Ha) :=
  apply obind_ok in H as (a & Ha & H).

#[export] Hint Resolve zlen_nonneg b2z_range int32_range be_combine_range le_combine_range : orfc.
#[export] Hint Rewrite @zlen_app length_be_split length_le_split be_combine_split le_combine_split
  z2b_b2z b2z_z2b : orfc.

(** A stateful sequence that succeeds has succeeded at each step. *)
Lemma bind_inv {E S A B} (m : stm E S A) (k : A -> stm E S B) s b s' :
  (m ≫= k) s = (Ok b, s') -> exists a s1, m s = (Ok a, s1) /\ k a s1 = (Ok b, s').
Proof. unfold mbind, stm_bind. destruct (m s) as [[a| |] s1]; intros H; try discriminate. by exists a, s1. Qed.

(** ** Reading at a known place *)
Lemma be_uint_app {E} n (l rest : bytes) : length l = n -> be_uint (E := E) n (l ++ rest) = Ok (be_combine l).
Proof. intros <-. unfold be_uint. case_tests; [len_lia|]. by rewrite take_app_length. Qed.

Lemma go_from_app {E A} (l rest : list A) a : a = zlen l -> go_from (E := E) (l ++ rest) a = Ok rest.
Proof.
  intros ->. unfold go_from. rewrite <- (app_nil_r rest) at 1. rewrite go_slice_mid; [done|done|by rewrite zlen_app].
Qed.

Lemma be_round n v : 0 <= v < 256 ^ Z.of_nat n -> be_combine (be_split n v) = v.
Proof. intros H. rewrite be_combine_split. by apply Z.mod_small. Qed.

(** A list of known prefix length, cut. *)
Lemma cut_prefix {A} (n : nat) (l : list A) : (n <= length l)%nat -> exists p r, l = p ++ r /\ length p = n.
Proof. intros H. exists (take n l), (drop n l). split; [by rewrite take_drop|]. rewrite length_take. lia. Qed.

Lemma be_split_bytes n (l : bytes) : length l = n -> be_split n (be_combine l) = l.
Proof. intros <-. apply be_split_combine. Qed.
