(* ===== verification/Errors.v ===== *)
(** The [error] values of the modelled packages.

    Every package declares sentinel errors and wraps them with [fmt.Errorf]; a
    caller tests them with [errors.Is].  The model keeps the sentinel and drops the
    text around it, except in [wire], where the text is the documented contract:
    the context, the field, the bytes needed, the offset and the bytes that remain. *)
From stdpp Require Import base list numbers strings.
From Stdlib Require Import ZArith.
From S2P Require Import Prelude.

(** Package wire. *)
Inductive wire_error : Type :=
| ErrShortRead (context field : string) (need offset remain : Z)
| ErrTrailingBytes (context : string) (remain : Z)
| ErrNegativeLength (context field : string) (length : Z).

(** Package ni. *)
Inductive ni_error : Type :=
| ErrPayloadTooLong (length : Z)
| ErrPayloadTooLarge (advertised limit : Z)
| ErrTruncatedStream (remain : Z)
| ErrNegativeLimit (limit : Z)
| ErrInconsistentQueue.

(** Package gateway. *)
Inductive gateway_error : Type :=
| GW_ErrRange
| GW_ErrUnsupported
| GW_ErrMalformed.

(** Package appc; [PeerReturnCodeError] is the error struct of that name. *)
Inductive appc_error : Type :=
| APPC_ErrRange
| APPC_ErrProtocol
| APPC_ErrUnsupported
| APPC_ErrState
| APPC_ErrNormalDeallocationWithoutData
| PeerReturnCodeError (FunctionName : string) (AppcReturnCode SapReturnCode : Z).

(** Package fastser. *)
Inductive fastser_error : Type :=
| ErrCorruptBlock.

(** What a connection reports: package io and package net. *)
Inductive io_error : Type :=
| EOF
| ErrDeadlineExceeded
| ErrNetClosed
| ErrBroken.

(** Package transport; the read and write errors wrap the connection's, the error of
    [Close] is the connection's own. *)
Inductive transport_error : Type :=
| TR_ErrClosed
| TR_Read (e : io_error)
| TR_Write (e : io_error)
| TR_Close (e : io_error).

(** Package client; a refused logon wraps [ErrSession] with the server's text or status. *)
Inductive logon_refusal : Type :=
| RefusedWithText (text : bytes)
| RefusedWithStatus (status : Z)
| Refused.
Inductive client_error : Type :=
| ErrSession
| ErrLogonRefused (why : logon_refusal).

(** Package rfcpro. *)
Inductive rfcpro_error : Type :=
| RFCPRO_ErrRange
| RFCPRO_ErrShortHeader
| RFCPRO_ErrNegativeLength
| RFCPRO_ErrLimitExceeded.

(** Package cpic; [StructureError] and [ParseError] are the error structs of these names. *)
Inductive cpic_error : Type :=
| CPIC_ErrRange
| CPIC_ErrChain
| CPIC_ErrProtocol
| StructureError (Rule : string)
| ParseError (Stage : string).

(** Package scramble; [ErrRandom] is the failure of the random source. *)
Inductive scramble_error : Type :=
| ErrPasswordTooLong
| ErrPasswordNotASCII
| ErrRandom.

(** Package value. *)
Inductive value_error : Type :=
| ErrPackedRange
| ErrPackedDecode
| ErrScalarText
| ErrXMLEntity
| ErrTemporal
| ErrDecimalFloat.

(** Package rfcerr: [ProtocolError] is the error struct of that name, [OptionRange] the error
    of an option out of range. *)
Inductive rfcerr_error : Type :=
| ProtocolError (ReasonCode : string)
| OptionRange (field : string).

(** Package xrfc. *)
Inductive xrfc_error : Type :=
| XRFC_ErrRange
| XRFC_ErrProtocol
| XRFC_ErrType.

(** Package rfcserver. *)
Inductive rfcserver_error : Type :=
| ErrRequest.

(** Package classicrfc. *)
Inductive classicrfc_error : Type :=
| CRFC_ErrRange
| CRFC_ErrProtocol.

(** Package structure. *)
Inductive structure_error : Type :=
| ErrStructure.

(** Package socks5; [ErrConnectReply] is the failure the proxy reports in its reply, [ErrIO]
    the failure of a read or a write on the connection. *)
Inductive socks5_error : Type :=
| SOCKS_ErrProtocol
| SOCKS_ErrAuthRejected
| SOCKS_ErrNoAcceptableMethods
| SOCKS_ErrConnectReply (code : Z)
| SOCKS_ErrRead
| SOCKS_ErrWrite.

(** Package saprouter. *)
Inductive saprouter_error : Type :=
| ErrInvalidRoute
| ErrInvalidResponse
| SR_ErrRange.

(** Package lifecycle. *)
Inductive lifecycle_error : Type :=
| LC_ErrClosed
| LC_ErrNilOpen.

(** Package bxml. *)
Inductive bxml_error : Type :=
| ErrBXML.

(** Package metadata; [RecursiveMetadataError] is the error struct of that name, with its
    code and without the path. *)
Inductive metadata_error : Type :=
| RecursiveMetadataError (Code : string)
| ErrDdif
| ErrFunctionInterface
| ErrMetadataGet
| ErrParameterIndex
| ErrStructureDefinition.

(** The open sum of Go's [error] interface.  [EContext] is the error of an ended context.
    [EFuel] is not a Go error: it marks a bounded loop that ran out of its bound, and is
    proved unreachable. *)
Inductive error : Type :=
| EWire (e : wire_error)
| ENi (e : ni_error)
| EGateway (e : gateway_error)
| EAppc (e : appc_error)
| EFastser (e : fastser_error)
| ETransport (e : transport_error)
| EClient (e : client_error)
| ERfcpro (e : rfcpro_error)
| ECpic (e : cpic_error)
| EScramble (e : scramble_error)
| EValue (e : value_error)
| ERfcerr (e : rfcerr_error)
| EXrfc (e : xrfc_error)
| ERfcserver (e : rfcserver_error)
| EClassicrfc (e : classicrfc_error)
| EStructure (e : structure_error)
| ESocks5 (e : socks5_error)
| ESaprouter (e : saprouter_error)
| ELifecycle (e : lifecycle_error)
| EBxml (e : bxml_error)
| EMetadata (e : metadata_error)
| EFlate
| EContext
| EFuel.

Abbreviation res := (outcome error).
Abbreviation M := (stm error).

(** A computation that ends on its own: without a panic, and without running out of the
    fuel its definition was given. *)
Definition total {A} (m : res A) : Prop := m <> Panic /\ m <> Err EFuel.

Lemma total_ok {A} (a : A) : total (Ok a).
Proof. done. Qed.

Lemma total_err {A} (e : error) : e <> EFuel -> total (Err e : res A).
Proof. intros H. split; [done|congruence]. Qed.

Lemma total_bind {A B} (m : res A) (k : A -> res B) :
  total m -> (forall a, m = Ok a -> total (k a)) -> total (m ≫= k).
Proof. intros [H1 H2] Hk. destruct m as [a|e|]; [by apply Hk| |done]. split; [done|]. cbn. congruence. Qed.

Lemma total_slice {A} (l : list A) a b : 0 <= a <= b -> b <= zlen l -> total (go_slice l a b).
Proof. intros H1 H2. by rewrite go_slice_ok. Qed.

Lemma total_from {A} (l : list A) a : 0 <= a <= zlen l -> total (go_from l a).
Proof. intros H. apply total_slice; lia. Qed.

#[export] Hint Resolve total_ok : orfc.

Lemma from_length {A} (l t : list A) k : go_from l k = (Ok t : res (list A)) -> zlen t = zlen l - k.
Proof. unfold go_from, go_slice. destruct (_ || _) eqn:E; [done|]. intros <-%Ok_inj. apply orb_false_iff in E as [E _]. len_lia. Qed.

Lemma index_total {A} (l : list A) i : 0 <= i < zlen l -> total (go_index l i : res A).
Proof. intros H. destruct (go_index_ok (E := error) l i H) as [x ->]. done. Qed.

(** [m] is total and its results satisfy [P]. *)
Definition sure {A} (m : res A) (P : A -> Prop) : Prop := total m /\ forall a, m = Ok a -> P a.

Lemma sure_bind {A B} (m : res A) (k : A -> res B) (Q : A -> Prop) (P : B -> Prop) :
  sure m Q -> (forall a, Q a -> sure (k a) P) -> sure (m ≫= k) P.
Proof.
  intros [Ht Hq] Hk. split; [apply total_bind; [done|]; intros a Ha; apply Hk; auto|]. intros b H. ok_step H as a Ha. by apply (Hk a (Hq a Ha)).
Qed.

Lemma sure_ok {A} (a : A) (P : A -> Prop) : P a -> sure (Ok a) P.
Proof. intros H. split; [done|]. by intros b <-%Ok_inj. Qed.

Lemma sure_err {A} (e : error) (P : A -> Prop) : e <> EFuel -> sure (Err e) P.
Proof. intros H. split; [by apply total_err|done]. Qed.

Lemma sure_from {A} (l : list A) k : 0 <= k <= zlen l -> sure (go_from l k) (fun t => zlen t = zlen l - k).
Proof. intros H. split; [by apply total_from|]. intros t. apply from_length. Qed.

Lemma sure_index {A} (l : list A) i : 0 <= i < zlen l -> sure (go_index l i) (fun _ => True).
Proof. intros H. split; [by apply index_total|done]. Qed.

Lemma sure_impl {A} (m : res A) (P Q : A -> Prop) : sure m P -> (forall a, P a -> Q a) -> sure m Q.
Proof. intros [H1 H2] HI. split; [done|]. auto. Qed.
