(* ===== verification/Text.v ===== *)
(** Text as Go has it: a string is a list of bytes that is UTF-8 only by convention.

    The functions of the standard library that the packages of the program share:
    unicode/utf8 ([DecodeRune], [ValidString], the conversion [[]rune(s)] and its inverse),
    unicode/utf16, the decimal and hexadecimal conversions of strconv and encoding/hex, and
    the trimming and searching functions of package strings.  They follow the documented
    behaviour of the standard library, invalid input included.

    The lemmas: the two encodings are inverse to their decodings on Unicode scalar values,
    and a string is valid exactly when it is the encoding of some. *)
From stdpp Require Import base list numbers strings pretty.
From Stdlib Require Import ZArith Lia Strings.Byte.
From S2P Require Import Prelude.

Open Scope Z_scope.

#[local] Ltac Zify.zify_post_hook ::= Z.div_mod_to_equations.

(** ** Package unicode/utf8 *)
Definition RuneError : Z := 0xfffd.
Definition MaxRune : Z := 0x10ffff.

(** A Unicode scalar value: a code point that is not a surrogate. *)
Definition is_scalarb (r : Z) : bool :=
  ((0 <=? r) && (r <? 0xd800)) || ((0xe000 <=? r) && (r <=? MaxRune)).
Definition is_scalar (r : Z) : Prop := 0 <= r < 0xd800 \/ 0xe000 <= r <= MaxRune.

Definition in_range (lo hi z : Z) : bool := (lo <=? z) && (z <=? hi).
Definition cont (b : byte) : bool := in_range 0x80 0xbf (b2z b).

(** The range of the second byte behind a first byte of three or four. *)
Definition second_ok (b0 b1 : byte) : bool :=
  let z := b2z b0 in
  let lo := if z =? 0xe0 then 0xa0 else if z =? 0xf0 then 0x90 else 0x80 in
  let hi := if z =? 0xed then 0x9f else if z =? 0xf4 then 0x8f else 0xbf in
  in_range lo hi (b2z b1).

(** [utf8.DecodeRuneInString]: the rune and its width; an invalid byte is [RuneError] of
    width 1. *)
Definition DecodeRune (s : bytes) : Z * nat :=
  match s with
  | [] => (RuneError, 0%nat)
  | b0 :: s =>
      let z := b2z b0 in
      if z <? 0x80 then (z, 1%nat)
      else if in_range 0xc2 0xdf z then
        match s with
        | b1 :: _ => if cont b1 then ((z - 0xc0) * 64 + (b2z b1 - 0x80), 2%nat) else (RuneError, 1%nat)
        | _ => (RuneError, 1%nat)
        end
      else if in_range 0xe0 0xef z then
        match s with
        | b1 :: b2 :: _ =>
            if second_ok b0 b1 && cont b2
            then ((z - 0xe0) * 4096 + (b2z b1 - 0x80) * 64 + (b2z b2 - 0x80), 3%nat)
            else (RuneError, 1%nat)
        | _ => (RuneError, 1%nat)
        end
      else if in_range 0xf0 0xf4 z then
        match s with
        | b1 :: b2 :: b3 :: _ =>
            if second_ok b0 b1 && cont b2 && cont b3
            then ((z - 0xf0) * 262144 + (b2z b1 - 0x80) * 4096 + (b2z b2 - 0x80) * 64 + (b2z b3 - 0x80), 4%nat)
            else (RuneError, 1%nat)
        | _ => (RuneError, 1%nat)
        end
      else (RuneError, 1%nat)
  end.

(** [[]rune(s)] and [utf8.ValidString(s)]. *)
Fixpoint runes_loop (fuel : nat) (s : bytes) : list Z :=
  match fuel, s with
  | S fuel, _ :: _ => let '(r, n) := DecodeRune s in r :: runes_loop fuel (drop n s)
  | _, _ => []
  end.
Definition runes (s : bytes) : list Z := runes_loop (length s) s.

Fixpoint valid_loop (fuel : nat) (s : bytes) : bool :=
  match fuel, s with
  | S fuel, _ :: _ =>
      let '(r, n) := DecodeRune s in
      negb ((r =? RuneError) && (n =? 1)%nat) && valid_loop fuel (drop n s)
  | _, _ => true
  end.
Definition ValidString (s : bytes) : bool := valid_loop (length s) s.

(** [utf8.AppendRune] to an empty slice, and [string(runes)]: what is not a scalar becomes
    [RuneError]. *)
Definition EncodeRune (r : Z) : bytes :=
  let r := if is_scalarb r then r else RuneError in
  if r <? 0x80 then [z2b r]
  else if r <? 0x800 then [z2b (0xc0 + r / 64); z2b (0x80 + r mod 64)]
  else if r <? 0x10000 then [z2b (0xe0 + r / 4096); z2b (0x80 + r / 64 mod 64); z2b (0x80 + r mod 64)]
  else [z2b (0xf0 + r / 262144); z2b (0x80 + r / 4096 mod 64); z2b (0x80 + r / 64 mod 64); z2b (0x80 + r mod 64)].

Definition utf8_string (rs : list Z) : bytes := rs ≫= EncodeRune.

(** ** Package unicode/utf16 *)
Definition utf16_encode_rune (r : Z) : list Z :=
  if is_scalarb r then
    if r <? 0x10000 then [r]
    else [0xd800 + (r - 0x10000) / 1024; 0xdc00 + (r - 0x10000) mod 1024]
  else [RuneError].

(** [utf16.Encode] *)
Definition utf16_encode (rs : list Z) : list Z := rs ≫= utf16_encode_rune.

Definition is_high (u : Z) : bool := in_range 0xd800 0xdbff u.
Definition is_low (u : Z) : bool := in_range 0xdc00 0xdfff u.

(** [utf16.Decode]: an unpaired surrogate becomes [RuneError]. *)
Fixpoint utf16_decode (us : list Z) : list Z :=
  match us with
  | [] => []
  | u :: us' =>
      if is_high u then
        match us' with
        | v :: us'' => if is_low v then (u - 0xd800) * 1024 + (v - 0xdc00) + 0x10000 :: utf16_decode us''
                       else RuneError :: utf16_decode us'
        | [] => [RuneError]
        end
      else if is_low u then RuneError :: utf16_decode us'
      else u :: utf16_decode us'
  end.

(** Code units as little-endian bytes, and back; an odd byte at the end is dropped. *)
Definition units_bytes (us : list Z) : bytes := us ≫= le_split 2.

Fixpoint bytes_units (b : bytes) : list Z :=
  match b with
  | lo :: hi :: b => b2z lo + b2z hi * 256 :: bytes_units b
  | _ => []
  end.

(** ** Packages strings, strconv and encoding/hex *)
Definition is_digit (b : byte) : bool := in_range 0x30 0x39 (b2z b).
Definition digit_value (b : byte) : Z := b2z b - 0x30.
Definition digit_char (d : Z) : byte := z2b (0x30 + d).

(** The value of a run of decimal digits. *)
Definition dec_value (s : bytes) : Z := fold_left (fun acc b => acc * 10 + digit_value b) s 0.

Definition nonzero_digit (b : byte) : bool := in_range 0x31 0x39 (b2z b).
(** [strings.ContainsAny(s, "123456789")] *)
Definition contains_nonzero (s : bytes) : bool := existsb nonzero_digit s.

Definition is_hex (b : byte) : bool :=
  is_digit b || in_range 0x41 0x46 (b2z b) || in_range 0x61 0x66 (b2z b).
Definition hex_digit_value (b : byte) : Z :=
  let z := b2z b in
  if z <=? 0x39 then z - 0x30 else if z <=? 0x46 then z - 0x37 else z - 0x57.

(** [strings.TrimLeft(s, "0")] *)
Fixpoint trim_left_zeros (s : bytes) : bytes :=
  match s with
  | b :: s' => if bool_decide (b = x30) then trim_left_zeros s' else s
  | [] => []
  end.

(** [strings.IndexByte] *)
Fixpoint index_byte (s : bytes) (c : byte) : option nat :=
  match s with
  | [] => None
  | b :: s => if bool_decide (b = c) then Some 0%nat else S <$> index_byte s c
  end.

(** The longest prefix whose bytes satisfy [p], and the rest. *)
Fixpoint span (p : byte -> bool) (s : bytes) : bytes * bytes :=
  match s with
  | b :: s' => if p b then let '(x, y) := span p s' in (b :: x, y) else ([], s)
  | [] => ([], [])
  end.

(** The bytes from space to tilde: the class [[\x20-\x7e]]. *)
Definition is_printable (b : byte) : bool := in_range 0x20 0x7e (b2z b).

(** ** Facts about the byte classes *)
Lemma in_range_spec lo hi z : in_range lo hi z = true <-> lo <= z <= hi.
Proof. unfold in_range. rewrite andb_true_iff, !Z.leb_le. done. Qed.

Lemma in_range_false lo hi z : in_range lo hi z = false <-> z < lo \/ hi < z.
Proof. unfold in_range. rewrite andb_false_iff, !Z.leb_gt. done. Qed.

Lemma is_scalarb_spec r : is_scalarb r = true <-> is_scalar r.
Proof.
  unfold is_scalarb, is_scalar, MaxRune.
  rewrite orb_true_iff, !andb_true_iff, !Z.leb_le, Z.ltb_lt. lia.
Qed.

(** Case on the range tests of the goal, with their arithmetic content. *)
Ltac case_ranges :=
  repeat match goal with
  | |- context [in_range ?lo ?hi ?z] =>
      let H := fresh "Hr" in
      destruct (in_range lo hi z) eqn:H; [apply in_range_spec in H|apply in_range_false in H]
  end.

Lemma b2z_z2b_id z : 0 <= z < 256 -> b2z (z2b z) = z.
Proof. intros H. rewrite b2z_z2b. by apply Z.mod_small. Qed.

(** ** UTF-8 *)
Lemma length_EncodeRune r : is_scalar r ->
  length (EncodeRune r) = if r <? 0x80 then 1%nat else if r <? 0x800 then 2%nat else if r <? 0x10000 then 3%nat else 4%nat.
Proof. intros H. apply is_scalarb_spec in H. unfold EncodeRune. rewrite H. by repeat case_match. Qed.

Lemma decode_encode_rune r rest :
  is_scalar r -> DecodeRune (EncodeRune r ++ rest) = (r, length (EncodeRune r)).
Proof.
  intros H. rewrite length_EncodeRune by done. unfold is_scalar, MaxRune in H.
  unfold EncodeRune. rewrite (proj2 (is_scalarb_spec r) H).
  unfold DecodeRune, second_ok, cont. case_tests; cbn [app];
    rewrite ?b2z_z2b_id by lia; case_tests; case_ranges; cbn [andb]; try lia; f_equal; lia.
Qed.

(** What decodes as valid is the encoding of the rune. *)
Lemma decode_rune_inv s r n :
  DecodeRune s = (r, n) -> s <> [] -> negb ((r =? RuneError) && (n =? 1)%nat) = true ->
  is_scalar r /\ exists rest, s = EncodeRune r ++ rest /\ n = length (EncodeRune r).
Proof.
  intros Hd Hne Hv. destruct s as [|b0 s]; [done|]. clear Hne. pose proof (b2z_range b0).
  assert (forall r', is_scalar r' -> forall pre rest, b0 :: s = pre ++ rest -> EncodeRune r' = pre ->
    (r, n) = (r', length pre) -> is_scalar r /\ exists rest, b0 :: s = EncodeRune r ++ rest /\ n = length (EncodeRune r)) as Hend.
  { intros r' Hr' pre rest -> <- [= -> ->]. split; [done|]. by exists rest. }
  assert (forall b z, z = b2z b -> z2b z = b) as Hb by (intros b z ->; apply z2b_b2z).
  unfold DecodeRune, second_ok, cont in Hd. revert Hd.
  destruct (Z.ltb_spec (b2z b0) 0x80).
  { intros [= <- <-]. apply (Hend (b2z b0) ltac:(unfold is_scalar, MaxRune; lia) [b0] s); [done| |done].
    unfold EncodeRune. rewrite (proj2 (is_scalarb_spec _)) by (unfold is_scalar, MaxRune; lia).
    case_tests; try lia. by rewrite z2b_b2z. }
  destruct (in_range 0xc2 0xdf (b2z b0)) eqn:E2; [apply in_range_spec in E2|apply in_range_false in E2].
  { destruct s as [|b1 s]; [by intros [= <- <-]|].
    case_ranges; [|by intros [= <- <-]]. intros Hp%eq_sym.
    set (v := (b2z b0 - 0xc0) * 64 + (b2z b1 - 0x80)) in *.
    assert (is_scalar v /\ 0x80 <= v < 0x800) as [Hs Hm] by (unfold is_scalar, MaxRune, v; lia).
    eapply (Hend _ Hs [b0; b1] s); [done| |done].
    unfold EncodeRune. rewrite (proj2 (is_scalarb_spec _)) by done.
    case_tests; try lia. unfold v. f_equal; [|f_equal]; apply Hb; lia. }
  destruct (in_range 0xe0 0xef (b2z b0)) eqn:E3; [apply in_range_spec in E3|apply in_range_false in E3].
  { destruct s as [|b1 [|b2 s]]; [by intros [= <- <-]..|].
    destruct (in_range _ _ (b2z b1) && _) eqn:Ec; [|by intros [= <- <-]]. intros Hp%eq_sym.
    apply andb_true_iff in Ec as [Ec1%in_range_spec Ec2%in_range_spec].
    set (v := (b2z b0 - 0xe0) * 4096 + (b2z b1 - 0x80) * 64 + (b2z b2 - 0x80)) in *.
    assert (is_scalar v /\ 0x800 <= v < 0x10000 /\ 0x80 <= b2z b1 <= 0xbf) as (Hs & Hm & H1)
      by (unfold is_scalar, MaxRune, v; revert Ec1; case_tests; lia).
    eapply (Hend _ Hs [b0; b1; b2] s); [done| |done].
    unfold EncodeRune. rewrite (proj2 (is_scalarb_spec _)) by done.
    case_tests; try lia. unfold v. f_equal; [|f_equal; [|f_equal]]; apply Hb; lia. }
  destruct (in_range 0xf0 0xf4 (b2z b0)) eqn:E4; [apply in_range_spec in E4|by intros [= <- <-]].
  destruct s as [|b1 [|b2 [|b3 s]]]; [by intros [= <- <-]..|].
  destruct (in_range _ _ (b2z b1) && _ && _) eqn:Ec; [|by intros [= <- <-]]. intros Hp%eq_sym.
  apply andb_true_iff in Ec as [[Ec1%in_range_spec Ec2%in_range_spec]%andb_true_iff Ec3%in_range_spec].
  set (v := (b2z b0 - 0xf0) * 262144 + (b2z b1 - 0x80) * 4096 + (b2z b2 - 0x80) * 64 + (b2z b3 - 0x80)) in *.
  assert (is_scalar v /\ 0x10000 <= v /\ 0x80 <= b2z b1 <= 0xbf) as (Hs & Hm & H1)
    by (unfold is_scalar, MaxRune, v; revert Ec1; case_tests; lia).
  eapply (Hend _ Hs [b0; b1; b2; b3] s); [done| |done].
  unfold EncodeRune. rewrite (proj2 (is_scalarb_spec _)) by done.
  case_tests; try lia. unfold v. f_equal; [|f_equal; [|f_equal; [|f_equal]]]; apply Hb; lia.
Qed.

Lemma EncodeRune_nonempty r : EncodeRune r <> [].
Proof. unfold EncodeRune. by repeat case_match. Qed.

Lemma encode_rune_cons r : exists b t, EncodeRune r = b :: t.
Proof. pose proof (EncodeRune_nonempty r). destruct (EncodeRune r) as [|b t]; [done|]. by exists b, t. Qed.

(** [[]rune(string(rs)) == rs] for scalar values, and that string is valid. *)
Lemma runes_utf8_string rs : Forall is_scalar rs -> runes (utf8_string rs) = rs /\ ValidString (utf8_string rs) = true.
Proof.
  intros H. unfold runes, ValidString.
  assert (forall fuel, (length (utf8_string rs) <= fuel)%nat ->
    runes_loop fuel (utf8_string rs) = rs /\ valid_loop fuel (utf8_string rs) = true) as Hg; [|by apply Hg].
  induction H as [|r rs Hr Hrs IH]; intros fuel Hf; [by destruct fuel|].
  change (utf8_string (r :: rs)) with (EncodeRune r ++ utf8_string rs) in *.
  destruct (encode_rune_cons r) as (b & t & E). rewrite length_app in Hf.
  destruct fuel as [|fuel]; [rewrite E in Hf; cbn in Hf; lia|].
  pose proof (decode_encode_rune r (utf8_string rs) Hr) as Hd.
  rewrite E in *. cbn [app] in *. cbn [runes_loop valid_loop]. rewrite Hd.
  change (b :: t ++ utf8_string rs) with ((b :: t) ++ utf8_string rs). rewrite drop_app_length.
  destruct (IH fuel) as [-> ->]; [cbn in Hf; lia|]. split; [done|]. rewrite andb_true_r.
  rewrite <- E, length_EncodeRune by done. destruct (Z.eqb_spec r RuneError) as [->|]; done.
Qed.

(** A valid string is the encoding of its runes, and they are scalar values. *)
Lemma valid_string_runes s :
  ValidString s = true -> utf8_string (runes s) = s /\ Forall is_scalar (runes s).
Proof.
  unfold ValidString, runes.
  assert (forall fuel s, (length s <= fuel)%nat -> valid_loop fuel s = true ->
    utf8_string (runes_loop fuel s) = s /\ Forall is_scalar (runes_loop fuel s)) as Hg; [|by apply Hg].
  clear s. induction fuel as [|fuel IH]; intros s Hf Hv; [destruct s; [done|cbn in Hf; lia]|].
  destruct s as [|b s]; [done|]. cbn [runes_loop valid_loop] in *.
  destruct (DecodeRune (b :: s)) as [r n] eqn:Ed. apply andb_true_iff in Hv as [Hr Hv].
  destruct (decode_rune_inv _ _ _ Ed ltac:(done) Hr) as (Hs & rest & Es & ->).
  rewrite Es, drop_app_length in *. destruct (encode_rune_cons r) as (b' & t & E).
  assert (length rest <= fuel)%nat.
  { rewrite length_app, E in Hf. cbn in Hf. lia. }
  destruct (IH rest) as [IH1 IH2]; [done..|]. split; [|by constructor].
  change (utf8_string (r :: runes_loop fuel rest)) with (EncodeRune r ++ utf8_string (runes_loop fuel rest)).
  by rewrite IH1.
Qed.

(** A string is valid exactly when it encodes scalar values. *)
Lemma valid_string_iff s : ValidString s = true <-> exists rs, Forall is_scalar rs /\ s = utf8_string rs.
Proof.
  split.
  - intros H. exists (runes s). by destruct (valid_string_runes s H) as [-> ?].
  - intros (rs & H & ->). by apply runes_utf8_string.
Qed.

(** ASCII text is its own runes. *)
Lemma ascii_string s : Forall (fun b => b2z b < 0x80) s -> utf8_string (map b2z s) = s.
Proof.
  induction 1 as [|b s Hb _ IH]; [done|]. cbn [map].
  change (utf8_string (b2z b :: map b2z s)) with (EncodeRune (b2z b) ++ utf8_string (map b2z s)). rewrite IH.
  unfold EncodeRune. pose proof (b2z_range b).
  rewrite (proj2 (is_scalarb_spec _)) by (unfold is_scalar, MaxRune; lia).
  case_tests; [|lia..]. by rewrite z2b_b2z.
Qed.

Lemma ascii_runes s :
  Forall (fun b => b2z b < 0x80) s -> runes s = map b2z s /\ ValidString s = true.
Proof.
  intros H. rewrite <- (ascii_string s) at 1 3 by done. apply runes_utf8_string.
  apply Forall_map. eapply Forall_impl; [exact H|]. intros b Hb. pose proof (b2z_range b).
  unfold is_scalar, MaxRune. cbn. lia.
Qed.

(** ** UTF-16 *)
Definition is_unit (u : Z) : Prop := 0 <= u < 0x10000.

Lemma utf16_encode_units rs : Forall is_unit (utf16_encode rs).
Proof.
  unfold utf16_encode. induction rs as [|r rs IH]; [constructor|]. cbn [mbind list_bind].
  apply Forall_app. split; [|done]. unfold utf16_encode_rune, is_unit, RuneError.
  destruct (is_scalarb r) eqn:E; [apply is_scalarb_spec in E|by repeat constructor].
  unfold is_scalar, MaxRune in E. case_tests; repeat constructor; lia.
Qed.

(** The surrogate pairs decode to what they encode, in front of any other units. *)
Lemma utf16_decode_rune r us : is_scalar r -> utf16_decode (utf16_encode_rune r ++ us) = r :: utf16_decode us.
Proof.
  intros H. unfold utf16_encode_rune. rewrite (proj2 (is_scalarb_spec r) H). unfold is_scalar, MaxRune in H.
  destruct (Z.ltb_spec r 0x10000); cbn [app utf16_decode]; unfold is_high, is_low; case_ranges; try lia; [done|].
  f_equal. lia.
Qed.

Lemma utf16_roundtrip rs : Forall is_scalar rs -> utf16_decode (utf16_encode rs) = rs.
Proof.
  induction 1 as [|r rs Hr _ IH]; [done|].
  change (utf16_encode (r :: rs)) with (utf16_encode_rune r ++ utf16_encode rs).
  by rewrite utf16_decode_rune, IH.
Qed.

Lemma utf16_encode_app rs1 rs2 : utf16_encode (rs1 ++ rs2) = utf16_encode rs1 ++ utf16_encode rs2.
Proof. unfold utf16_encode. apply bind_app. Qed.

Lemma le_split_2 u : exists lo hi, le_split 2 u = [lo; hi] /\ (is_unit u -> b2z lo + b2z hi * 256 = u).
Proof.
  exists (z2b u), (z2b (u / 256)). split; [done|]. unfold is_unit. intros H. rewrite !b2z_z2b. lia.
Qed.

Lemma bytes_units_app us b : Forall is_unit us -> bytes_units (units_bytes us ++ b) = us ++ bytes_units b.
Proof.
  induction 1 as [|u us Hu _ IH]; [done|].
  change (units_bytes (u :: us)) with (le_split 2 u ++ units_bytes us).
  destruct (le_split_2 u) as (lo & hi & -> & E). cbn [app bytes_units]. by rewrite E, IH.
Qed.

Lemma bytes_units_bytes us : Forall is_unit us -> bytes_units (units_bytes us) = us.
Proof. intros H. rewrite <- (app_nil_r (units_bytes us)), bytes_units_app by done. apply app_nil_r. Qed.

Lemma length_units_bytes us : length (units_bytes us) = (2 * length us)%nat.
Proof.
  induction us as [|u us IH]; [done|].
  change (units_bytes (u :: us)) with (le_split 2 u ++ units_bytes us).
  rewrite length_app, length_le_split, IH. cbn. lia.
Qed.

(** UTF-16LE text of a valid string, read back. *)
Lemma utf16le_roundtrip s :
  ValidString s = true -> utf8_string (utf16_decode (bytes_units (units_bytes (utf16_encode (runes s))))) = s.
Proof.
  intros H. destruct (valid_string_runes s H) as [Hs Hr].
  rewrite bytes_units_bytes by apply utf16_encode_units. by rewrite utf16_roundtrip.
Qed.

(** ** Decimal digits *)
Abbreviation all_digits := (Forall (fun b => is_digit b = true)).

Lemma digit_range b : is_digit b = true -> 0 <= digit_value b <= 9.
Proof. unfold is_digit, digit_value. rewrite in_range_spec. lia. Qed.

Lemma digit_inj a b : digit_value a = digit_value b -> a = b.
Proof. unfold digit_value. intros H. apply b2z_inj. lia. Qed.

Lemma digit_char_value b : is_digit b = true -> digit_char (digit_value b) = b.
Proof.
  intros _. unfold digit_char, digit_value. replace (0x30 + (b2z b - 0x30)) with (b2z b) by lia. apply z2b_b2z.
Qed.

Lemma digit_char_digit d : 0 <= d <= 9 -> is_digit (digit_char d) = true /\ digit_value (digit_char d) = d.
Proof.
  intros H. unfold is_digit, digit_value, digit_char. rewrite b2z_z2b_id by lia.
  split; [apply in_range_spec|]; lia.
Qed.

Lemma dec_value_acc s a :
  fold_left (fun acc b => acc * 10 + digit_value b) s a = a * 10 ^ zlen s + dec_value s.
Proof.
  unfold dec_value. revert a. induction s as [|b s IH]; intros a.
  - cbn. change (zlen (@nil byte)) with 0. rewrite Z.pow_0_r. lia.
  - cbn [fold_left]. rewrite IH, (IH (0 * 10 + digit_value b)).
    unfold zlen. cbn [length]. rewrite Nat2Z.inj_succ, Z.pow_succ_r by lia. ring.
Qed.

Lemma dec_value_app s t : dec_value (s ++ t) = dec_value s * 10 ^ zlen t + dec_value t.
Proof. unfold dec_value at 1. rewrite fold_left_app. apply dec_value_acc. Qed.

Lemma dec_value_cons b s : dec_value (b :: s) = digit_value b * 10 ^ zlen s + dec_value s.
Proof. apply (dec_value_app [b] s). Qed.

Lemma pow10_pos n : 0 <= n -> 0 < 10 ^ n.
Proof. intros H. apply Z.pow_pos_nonneg; lia. Qed.

Lemma pow10_succ {A} (x : A) l : 10 ^ zlen (x :: l) = 10 * 10 ^ zlen l.
Proof. unfold zlen. cbn [length]. rewrite Nat2Z.inj_succ, Z.pow_succ_r by lia. done. Qed.

Lemma dec_value_range s : all_digits s -> 0 <= dec_value s < 10 ^ zlen s.
Proof.
  induction 1 as [|b s Hb _ IH]; [done|]. rewrite dec_value_cons, pow10_succ.
  apply digit_range in Hb. nia.
Qed.

Lemma dec_value_zeros n : dec_value (replicate n x30) = 0.
Proof.
  induction n as [|n IH]; [done|]. cbn [replicate]. rewrite dec_value_cons, IH. by change (digit_value x30) with 0.
Qed.

(** Two runs of the same length and value are the same. *)
Lemma dec_value_inj s t :
  all_digits s -> all_digits t -> length s = length t -> dec_value s = dec_value t -> s = t.
Proof.
  intros Hs. revert t. induction Hs as [|b s Hb Hs IH]; intros t Ht Hl Hv; [by destruct t|].
  destruct Ht as [|c t Hc Ht]; [done|]. injection Hl as Hl. rewrite !dec_value_cons in Hv.
  pose proof (dec_value_range s Hs) as R1. pose proof (dec_value_range t Ht) as R2.
  unfold zlen in *. rewrite Hl in *. set (p := 10 ^ Z.of_nat (length t)) in *.
  assert (digit_value b = digit_value c) as E.
  { apply digit_range in Hb, Hc. assert (digit_value b * p - digit_value c * p = dec_value t - dec_value s) by lia.
    assert (- p < (digit_value b - digit_value c) * p < p) by lia. nia. }
  f_equal; [by apply digit_inj|]. apply IH; try done. rewrite E in Hv. lia.
Qed.

Lemma contains_nonzero_value s : all_digits s -> contains_nonzero s = negb (dec_value s =? 0).
Proof.
  induction 1 as [|b s Hb Hs IH]; [done|]. unfold contains_nonzero in *. cbn [existsb]. rewrite IH, dec_value_cons.
  pose proof (dec_value_range s Hs). pose proof (pow10_pos (zlen s) (zlen_nonneg s)).
  pose proof (digit_range b Hb) as Hd. unfold nonzero_digit, digit_value, in_range in *.
  case_tests; try nia; reflexivity.
Qed.

Lemma contains_nonzero_false s : all_digits s -> contains_nonzero s = false -> dec_value s = 0.
Proof.
  intros Hs. rewrite contains_nonzero_value by done. destruct (Z.eqb_spec (dec_value s) 0); done.
Qed.

Lemma trim_left_zeros_spec s :
  exists n, s = replicate n x30 ++ trim_left_zeros s /\
    match trim_left_zeros s with [] => True | b :: _ => b <> x30 end.
Proof.
  induction s as [|b s (n & E & Hh)]; [by exists 0%nat|]. cbn [trim_left_zeros].
  destruct (bool_decide (b = x30)) eqn:Eb; [apply bool_decide_eq_true in Eb|apply bool_decide_eq_false in Eb].
  - exists (S n). subst b. split; [|done]. cbn. by rewrite <- E.
  - by exists 0%nat.
Qed.

(** A run without leading zeros has as many digits as its value needs. *)
Lemma leading_digit_bound b s :
  all_digits (b :: s) -> b <> x30 -> 10 ^ zlen s <= dec_value (b :: s).
Proof.
  intros H Hb. apply Forall_cons in H as [Hd Hs]. rewrite dec_value_cons.
  pose proof (dec_value_range s Hs). pose proof (digit_range b Hd).
  assert (digit_value b <> 0) by (intros E; apply Hb, digit_inj; by rewrite E). nia.
Qed.

Lemma forallb_digits s : forallb is_digit s = true <-> all_digits s.
Proof. split; intros H; [|by induction H as [|b s Hb _ IH]; cbn; rewrite ?Hb, ?IH].
  induction s as [|b s IH]; [constructor|]. cbn in H. apply andb_true_iff in H as [? ?]. constructor; auto.
Qed.

(** [span] on a run followed by something else. *)
Lemma span_app p s t :
  Forall (fun b => p b = true) s -> match t with [] => True | b :: _ => p b = false end ->
  span p (s ++ t) = (s, t).
Proof.
  intros Hs Ht. induction Hs as [|b s Hb _ IH].
  - destruct t as [|b t]; [done|]. cbn. by rewrite Ht.
  - cbn. by rewrite Hb, IH.
Qed.

Lemma span_inv p s x y :
  span p s = (x, y) -> s = x ++ y /\ Forall (fun b => p b = true) x /\ match y with [] => True | b :: _ => p b = false end.
Proof.
  revert x y. induction s as [|b s IH]; intros x y; cbn; [by intros [= <- <-]|].
  destruct (p b) eqn:Eb.
  - destruct (span p s) as [x' y'] eqn:Es. intros [= <- <-]. destruct (IH x' y' eq_refl) as (-> & ? & ?).
    split_and!; try done. by constructor.
  - intros [= <- <-]. by split_and!.
Qed.

(** ** Searching for a byte *)
Lemma index_byte_spec s c :
  match index_byte s c with
  | Some i => exists t, s = take i s ++ c :: t /\ (c ∉ take i s) /\ (i < length s)%nat
  | None => c ∉ s
  end.
Proof.
  induction s as [|b s IH]; cbn [index_byte]; [apply not_elem_of_nil|].
  destruct (bool_decide (b = c)) eqn:E; [apply bool_decide_eq_true in E; subst b|apply bool_decide_eq_false in E].
  - exists s. split_and!; [done|apply not_elem_of_nil|cbn; lia].
  - destruct (index_byte s c) as [i|]; cbn [fmap option_fmap option_map].
    + destruct IH as (t & Ht & Hn & Hl). exists t. cbn [take app]. split_and!; [by f_equal| |cbn; lia].
      rewrite not_elem_of_cons. split; [congruence|done].
    + rewrite not_elem_of_cons. split; [congruence|done].
Qed.

Lemma index_byte_app s c t : (c ∉ s) -> index_byte (s ++ c :: t) c = Some (length s).
Proof.
  induction s as [|b s IH]; intros Hn; cbn [app index_byte length].
  - by rewrite bool_decide_eq_true_2.
  - rewrite not_elem_of_cons in Hn. destruct Hn as [H1 H2].
    rewrite bool_decide_eq_false_2 by congruence. by rewrite IH.
Qed.

(** A multi-byte encoding has no NUL. *)
Lemma nul_rune r : is_scalar r -> (x00 ∈ EncodeRune r) <-> r = 0.
Proof.
  intros H. unfold EncodeRune. rewrite (proj2 (is_scalarb_spec r) H). unfold is_scalar, MaxRune in H.
  assert (forall z, x00 = z2b z <-> z mod 256 = 0) as Hz.
  { intros z. rewrite <- b2z_z2b. split; [by intros <-|]. intros E. apply b2z_inj. by rewrite E. }
  case_tests; rewrite !elem_of_cons, !Hz, elem_of_nil; split; intros; intuition lia.
Qed.

Lemma nul_free_utf8 rs : Forall is_scalar rs -> (x00 ∉ utf8_string rs) <-> Forall (fun r => r <> 0) rs.
Proof.
  induction 1 as [|r rs Hr _ IH]; [split; [done|by intros _ ?%elem_of_nil]|].
  change (utf8_string (r :: rs)) with (EncodeRune r ++ utf8_string rs).
  rewrite not_elem_of_app, IH, Forall_cons, nul_rune by done. done.
Qed.

(** ** [strconv.Itoa] *)
Lemma lit_pretty_char d s : (d < 10)%N -> lit (String (pretty_N_char d) s) = digit_char (Z.of_N d) :: lit s.
Proof.
  intros Hd. assert (d = 0 \/ d = 1 \/ d = 2 \/ d = 3 \/ d = 4 \/ d = 5 \/ d = 6 \/ d = 7 \/ d = 8 \/ d = 9)%N as Hc by lia.
  by repeat (destruct Hc as [->|Hc]; [reflexivity|]); subst.
Qed.

Lemma pretty_go_digits x s :
  exists ds, lit (pretty_N_go x s) = ds ++ lit s /\ all_digits ds /\ dec_value ds = Z.of_N x /\
    match ds with [] => x = 0%N | b :: _ => b <> x30 end.
Proof.
  revert s. induction (N.lt_wf_0 x) as [x _ IH]; intros s.
  assert (x = 0 \/ 0 < x)%N as [->|Hx] by lia; [exists []; by rewrite pretty_N_go_0|].
  assert (x `mod` 10 < 10)%N as Hm by (by apply N.mod_lt).
  rewrite pretty_N_go_step by done. destruct (IH (x `div` 10)%N ltac:(by apply N.div_lt) (String (pretty_N_char (x `mod` 10)) s)) as (ds & Hl & Hd & Hv & Hh).
  rewrite lit_pretty_char in Hl by done. exists (ds ++ [digit_char (Z.of_N (x `mod` 10))]).
  assert (0 <= Z.of_N (x `mod` 10) <= 9) as Hr by (clear -Hm; revert Hm; generalize (x `mod` 10)%N; intros y Hy; lia).
  destruct (digit_char_digit _ Hr) as [Hdig Hval]. split; [by rewrite <- app_assoc|]. split; [|split].
  - apply Forall_app. split; [done|]. by constructor; [|constructor].
  - rewrite dec_value_app, Hv. change (10 ^ zlen _) with 10. change (dec_value [?b]) with (0 * 10 + digit_value b). rewrite Hval.
    pose proof (N.div_mod x 10 ltac:(lia)). lia.
  - destruct ds as [|b ds]; [|done]. cbn [app]. intros E. rewrite E in Hval. change (digit_value x30) with 0 in Hval.
    pose proof (N.div_mod x 10 ltac:(lia)). lia.
Qed.

(** A number that is not negative is its digits, without a zero in front. *)
Lemma itoa_digits z :
  0 <= z ->
  all_digits (lit (pretty z)) /\ dec_value (lit (pretty z)) = z /\ lit (pretty z) <> [] /\ (z = 0 \/ 10 ^ (zlen (lit (pretty z)) - 1) <= z).
Proof.
  intros Hz. destruct z as [|p|p]; [|clear Hz|lia].
  { split; [by constructor|]. split; [done|]. split; [done|by left]. }
  change (lit (pretty (Z.pos p))) with (lit (pretty_N_go (N.pos p) "")).
  destruct (pretty_go_digits (N.pos p) "") as (ds & -> & Hd & Hv & Hh). rewrite app_nil_r. change (Z.of_N (N.pos p)) with (Z.pos p) in Hv.
  split; [done|]. split; [done|]. destruct ds as [|b ds]; [done|]. split; [done|]. right.
  replace (zlen (b :: ds) - 1) with (zlen ds) by (unfold zlen; cbn [length]; lia). rewrite <- Hv. by apply leading_digit_bound.
Qed.

Lemma itoa_negative z : z < 0 -> lit (pretty z) = x2d :: lit (pretty (- z)).
Proof. intros Hz. destruct z as [|p|p]; [lia|lia|]. done. Qed.
