(* ===== verification/Inflate.v ===== *)
(** The reader of Go's package compress/flate, which package [rfcserver] uses for the
    compressed parameters of a call: raw DEFLATE, without a zlib or gzip frame.

    The definitions follow Go's [flate.NewReader]: the canonical Huffman codes with its test
    that a code is complete, the limits of a dynamic block, and its errors.

    The theorems: the reader ends on every input; and a stored block gives its bytes back. *)
From stdpp Require Import base list numbers.
From Stdlib Require Import ZArith Lia Strings.Byte.
From S2P Require Import Prelude Errors.

Open Scope Z_scope.

(** The bits of the stream, the low bit of each byte first. *)
Definition byte_bits (b : byte) : list bool := map (Z.testbit (b2z b)) [0; 1; 2; 3; 4; 5; 6; 7].
Definition bits_of (data : bytes) : list bool := data ≫= byte_bits.

Fixpoint bits_value (l : list bool) : Z :=
  match l with [] => 0 | b :: l => Z.b2z b + 2 * bits_value l end.

(** The next [n] bits as a number, low bit first. *)
Definition take_bits (n : nat) (bs : list bool) : res (Z * list bool) :=
  if (length bs <? n)%nat then Err EFlate else Ok (bits_value (take n bs), drop n bs).

(** ** Huffman codes *)
Definition maxCodeLen : nat := 15.
Definition maxNumLit : Z := 286.
Definition maxNumDist : Z := 30.

Definition count_len (lengths : list Z) (n : nat) : Z := zlen (filter (fun l => l = Z.of_nat n) lengths).

(** The symbols of a code, by length and then by number. *)
Definition symbols (lengths : list Z) : list Z :=
  seq 1 maxCodeLen ≫= fun n => map fst (filter (fun p : Z * Z => snd p = Z.of_nat n) (zip (seqZ 0 (zlen lengths)) lengths)).

Record code : Type := mkCode { code_counts : list Z; code_symbols : list Z }.

(** The test of [huffmanDecoder.init]: a code is complete, or it is one bit long, or empty. *)
Definition code_sum (lengths : list Z) (max : nat) : Z :=
  fold_left (fun acc n => acc * 2 + count_len lengths n) (seq 1 max) 0.
Definition max_len (lengths : list Z) : nat := Z.to_nat (fold_left Z.max lengths 0).

Definition code_init (lengths : list Z) : res code :=
  let max := max_len lengths in
  let sum := code_sum lengths max in
  if (max =? 0)%nat || (sum =? 2 ^ Z.of_nat max) || ((sum =? 1) && (max =? 1)%nat)
  then Ok (mkCode (map (count_len lengths) (seq 1 maxCodeLen)) (symbols lengths))
  else Err EFlate.

(** One symbol: a bit at a time until the code is one of this length. *)
Fixpoint decode_symbol (counts : list Z) (syms : list Z) (c first : Z) (bs : list bool) : res (Z * list bool) :=
  match counts with
  | [] => Err EFlate
  | n :: counts =>
      match bs with
      | [] => Err EFlate
      | b :: bs =>
          let c := c * 2 + Z.b2z b in
          let first := first * 2 in
          if c <? first + n
          then match syms !! Z.to_nat (c - first) with Some s => Ok (s, bs) | None => Err EFlate end
          else decode_symbol counts (drop (Z.to_nat n) syms) c (first + n) bs
      end
  end.

Definition huffSym (h : code) (bs : list bool) : res (Z * list bool) :=
  decode_symbol (code_counts h) (code_symbols h) 0 0 bs.

(** ** The body of a block *)
(** The base and the extra bits of the length codes 257..285 and of the distance codes. *)
Definition length_codes : list (Z * Z) :=
  [(3,0); (4,0); (5,0); (6,0); (7,0); (8,0); (9,0); (10,0); (11,1); (13,1); (15,1); (17,1); (19,2); (23,2); (27,2); (31,2);
   (35,3); (43,3); (51,3); (59,3); (67,4); (83,4); (99,4); (115,4); (131,5); (163,5); (195,5); (227,5); (258,0)].
Definition dist_codes : list (Z * Z) :=
  [(1,0); (2,0); (3,0); (4,0); (5,1); (7,1); (9,2); (13,2); (17,3); (25,3); (33,4); (49,4); (65,5); (97,5); (129,6); (193,6);
   (257,7); (385,7); (513,8); (769,8); (1025,9); (1537,9); (2049,10); (3073,10); (4097,11); (6145,11); (8193,12); (12289,12);
   (16385,13); (24577,13)].

Definition with_extra (table : list (Z * Z)) (i : Z) (bs : list bool) : res (Z * list bool) :=
  match table !! Z.to_nat i with
  | None => Err EFlate
  | Some (base, extra) => '(e, bs) ← take_bits (Z.to_nat extra) bs; Ok (base + e, bs)
  end.

(** The output so far, the last byte first; [n] bytes from [dist] back. *)
Fixpoint copy_back (n : nat) (dist : nat) (out : bytes) : bytes :=
  match n with
  | O => out
  | S n => match out !! (dist - 1)%nat with Some b => copy_back n dist (b :: out) | None => out end
  end.

Definition windowSize : Z := 32768.

(** The distance code is Huffman coded, or five bits with the high bit first in a block of
    fixed codes. *)
Definition dist_symbol (hd : option code) (bs : list bool) : res (Z * list bool) :=
  match hd with
  | Some h => huffSym h bs
  | None => if (length bs <? 5)%nat then Err EFlate else Ok (bits_value (rev (take 5 bs)), drop 5 bs)
  end.

Fixpoint huffmanBlock (fuel : nat) (hl : code) (hd : option code) (bs : list bool) (out : bytes) : res (list bool * bytes) :=
  match fuel with
  | O => Err EFuel
  | S fuel =>
      '(v, bs) ← huffSym hl bs;
      if v <? 256 then huffmanBlock fuel hl hd bs (z2b v :: out)
      else if v =? 256 then Ok (bs, out)
      else if maxNumLit <=? v then Err EFlate
      else
        '(len, bs) ← with_extra length_codes (v - 257) bs;
        '(d, bs) ← dist_symbol hd bs;
        '(dist, bs) ← with_extra dist_codes d bs;
        if Z.min (zlen out) windowSize <? dist then Err EFlate
        else huffmanBlock fuel hl hd bs (copy_back (Z.to_nat len) (Z.to_nat dist) out)
  end.

(** ** The header of a dynamic block *)
Definition codeOrder : list nat := [16; 17; 18; 0; 8; 7; 9; 6; 10; 5; 11; 4; 12; 3; 13; 2; 14; 1; 15]%nat.

Fixpoint read_code_lengths (order : list nat) (bs : list bool) (lens : list Z) : res (list Z * list bool) :=
  match order with
  | [] => Ok (lens, bs)
  | i :: order => '(l, bs) ← take_bits 3 bs; read_code_lengths order bs (<[i := l]> lens)
  end.

(** The code lengths of both codes, in one run; [lens] holds them in reverse. *)
Fixpoint read_lengths (fuel : nat) (h : code) (n : Z) (bs : list bool) (lens : list Z) : res (list Z * list bool) :=
  match fuel with
  | O => Err EFuel
  | S fuel =>
      if n <=? zlen lens then Ok (rev lens, bs)
      else
        '(x, bs) ← huffSym h bs;
        if x <? 16 then read_lengths fuel h n bs (x :: lens)
        else
          '(rep, value, bs) ← (if x =? 16 then
              match lens with
              | [] => Err EFlate
              | l :: _ => '(e, bs) ← take_bits 2 bs; Ok (3 + e, l, bs)
              end
            else if x =? 17 then '(e, bs) ← take_bits 3 bs; Ok (3 + e, 0, bs)
            else '(e, bs) ← take_bits 7 bs; Ok (11 + e, 0, bs));
          if n <? zlen lens + rep then Err EFlate
          else read_lengths fuel h n bs (replicate (Z.to_nat rep) value ++ lens)
  end.

Definition readHuffman (bs : list bool) : res (code * code * list bool) :=
  '(hlit, bs) ← take_bits 5 bs;
  if maxNumLit <? hlit + 257 then Err EFlate
  else
    '(hdist, bs) ← take_bits 5 bs;
    if maxNumDist <? hdist + 1 then Err EFlate
    else
      '(hclen, bs) ← take_bits 4 bs;
      '(lens, bs) ← read_code_lengths (take (Z.to_nat hclen + 4) codeOrder) bs (replicate 19 0);
      h ← code_init lens;
      '(lens, bs) ← read_lengths (S (length bs)) h (hlit + 257 + hdist + 1) bs [];
      hl ← code_init (take (Z.to_nat (hlit + 257)) lens);
      hd ← code_init (drop (Z.to_nat (hlit + 257)) lens);
      Ok (hl, hd, bs).

Definition fixed_lengths : list Z := replicate 144 8 ++ replicate 112 9 ++ replicate 24 7 ++ replicate 8 8.
Definition fixed_code : code := mkCode (map (count_len fixed_lengths) (seq 1 maxCodeLen)) (symbols fixed_lengths).

(** A stored block: the rest of the byte is dropped, the length and its complement, the
    bytes. *)
Fixpoint bits_bytes (fuel : nat) (bs : list bool) : bytes :=
  match fuel with
  | O => []
  | S fuel => match bs with [] => [] | _ => z2b (bits_value (take 8 bs)) :: bits_bytes fuel (drop 8 bs) end
  end.

Definition dataBlock (bs : list bool) (out : bytes) : res (list bool * bytes) :=
  let bs := drop (length bs mod 8) bs in
  '(n, bs) ← take_bits 16 bs;
  '(nn, bs) ← take_bits 16 bs;
  if negb (n =? 0xffff - nn) then Err EFlate
  else if Z.of_nat (length bs) <? 8 * n then Err EFlate
  else
    let k := Z.to_nat (8 * n) in
    Ok (drop k bs, rev (bits_bytes (Z.to_nat n) (take k bs)) ++ out).

(** ** The stream *)
Fixpoint blocks (fuel : nat) (bs : list bool) (out : bytes) : res bytes :=
  match fuel with
  | O => Err EFuel
  | S fuel =>
      '(final, bs) ← take_bits 1 bs;
      '(typ, bs) ← take_bits 2 bs;
      '(bs, out) ← (if typ =? 0 then dataBlock bs out
        else if typ =? 1 then huffmanBlock (S (length bs)) fixed_code None bs out
        else if typ =? 2 then
          '(hl, hd, bs) ← readHuffman bs; huffmanBlock (S (length bs)) hl (Some hd) bs out
        else Err EFlate);
      if final =? 1 then Ok (rev out) else blocks fuel bs out
  end.

(** Everything [io.ReadAll(flate.NewReader(data))] reads. *)
Definition inflate (data : bytes) : res bytes := blocks (S (8 * length data)) (bits_of data) [].

(** ** The reader ends *)
(** A reader of at least [k] bits. *)
Definition reads {A} (k : nat) (bs : list bool) (m : res (A * list bool)) : Prop :=
  total m /\ forall a rest, m = Ok (a, rest) -> (length rest + k <= length bs)%nat.

Lemma reads_err {A} k bs : reads k bs (Err EFlate : res (A * list bool)).
Proof. split; [done|]. done. Qed.

Lemma reads_ok {A} k bs (a : A) rest : (length rest + k <= length bs)%nat -> reads k bs (Ok (a, rest)).
Proof. intros H. split; [done|]. by intros a' rest' [= <- <-]. Qed.

Lemma reads_bind {A B} j k bs (m : res (A * list bool)) (f : A * list bool -> res (B * list bool)) :
  reads j bs m -> (forall a rest, (length rest + j <= length bs)%nat -> reads k rest (f (a, rest))) ->
  reads (j + k) bs (m ≫= f).
Proof.
  intros [Ht Hm] Hf. destruct m as [[a rest]|e|]; [| |by destruct Ht].
  - specialize (Hm a rest eq_refl). destruct (Hf a rest Hm) as [Ht' Hf']. split; [done|].
    intros b r Hr. specialize (Hf' b r Hr). lia.
  - split; [|done]. apply total_err. intros ->. by destruct Ht.
Qed.

Lemma reads_weaken {A} j k bs (m : res (A * list bool)) : reads j bs m -> (k <= j)%nat -> reads k bs m.
Proof. intros [Ht Hm] H. split; [done|]. intros a rest E. specialize (Hm a rest E). lia. Qed.

Lemma take_bits_reads n bs : reads n bs (take_bits n bs).
Proof.
  unfold take_bits. destruct (Nat.ltb_spec (length bs) n); [apply reads_err|]. apply reads_ok. rewrite length_drop. lia.
Qed.

Lemma bits_bind {B} n bs (f : Z * list bool -> res (B * list bool)) :
  (forall a rest, (length rest + n <= length bs)%nat -> reads 0 rest (f (a, rest))) -> reads 0 bs (take_bits n bs ≫= f).
Proof. intros H. apply (reads_weaken (n + 0)); [|lia]. apply reads_bind; [apply take_bits_reads|exact H]. Qed.

Lemma symbol_reads counts syms c first bs : reads 1 bs (decode_symbol counts syms c first bs).
Proof.
  revert syms c first bs. induction counts as [|n counts IH]; intros syms c first bs; cbn [decode_symbol]; [apply reads_err|].
  destruct bs as [|b bs]; [apply reads_err|]. destruct (_ <? _).
  - destruct (_ !! _); [|apply reads_err]. apply reads_ok. cbn. lia.
  - destruct (IH (drop (Z.to_nat n) syms) (c * 2 + Z.b2z b) (first * 2 + n) bs) as [Ht H]. split; [done|].
    intros a rest E. specialize (H a rest E). cbn. lia.
Qed.

Lemma extra_reads table i bs : reads 0 bs (with_extra table i bs).
Proof.
  unfold with_extra. destruct (table !! Z.to_nat i) as [[base extra]|]; [|apply reads_err].
  apply bits_bind. intros e rest _. apply reads_ok. lia.
Qed.

Lemma dist_reads hd bs : reads 0 bs (dist_symbol hd bs).
Proof.
  unfold dist_symbol. destruct hd as [h|]; [eapply reads_weaken; [apply symbol_reads|lia]|].
  destruct (Nat.ltb_spec (length bs) 5); [apply reads_err|]. apply reads_ok. rewrite length_drop. lia.
Qed.

(** The same for a block, whose first result is the rest of the bits. *)
Definition block_reads (k : nat) (bs : list bool) (m : res (list bool * bytes)) : Prop :=
  total m /\ forall rest out, m = Ok (rest, out) -> (length rest + k <= length bs)%nat.

Lemma block_bind {A} j k bs (m : res (A * list bool)) (f : A * list bool -> res (list bool * bytes)) :
  reads j bs m -> (forall a rest, (length rest + j <= length bs)%nat -> block_reads k rest (f (a, rest))) ->
  block_reads k bs (m ≫= f).
Proof.
  intros [Ht Hm] Hf. destruct m as [[a rest]|e|]; [| |by destruct Ht].
  - specialize (Hm a rest eq_refl). destruct (Hf a rest Hm) as [Ht' Hf']. split; [done|].
    intros r o Hr. specialize (Hf' r o Hr). lia.
  - split; [|done]. apply total_err. intros ->. by destruct Ht.
Qed.

Lemma huffman_reads fuel hl hd bs out : (length bs < fuel)%nat -> block_reads 0 bs (huffmanBlock fuel hl hd bs out).
Proof.
  revert bs out. induction fuel as [|fuel IH]; intros bs out Hf; [lia|]. cbn [huffmanBlock].
  eapply block_bind; [apply symbol_reads|]. intros v bs1 H1. cbv beta iota.
  destruct (v <? 256); [apply IH; lia|]. destruct (v =? 256); [split; [done|]; intros r o [= <- <-]; lia|].
  destruct (maxNumLit <=? v); [by split|].
  eapply block_bind; [apply extra_reads|]. intros len bs2 H2. cbv beta iota.
  eapply block_bind; [apply dist_reads|]. intros d bs3 H3. cbv beta iota.
  eapply block_bind; [apply extra_reads|]. intros dist bs4 H4. cbv beta iota.
  destruct (_ <? dist); [by split|]. apply IH. lia.
Qed.

Lemma lengths_reads fuel h n bs lens : (length bs < fuel)%nat -> reads 0 bs (read_lengths fuel h n bs lens).
Proof.
  revert bs lens. induction fuel as [|fuel IH]; intros bs lens Hf; [lia|]. cbn [read_lengths].
  destruct (n <=? zlen lens); [apply reads_ok; lia|].
  eapply (reads_weaken 1); [|lia]. apply (reads_bind 1 0); [apply symbol_reads|]. intros x bs1 H1. cbv beta iota.
  destruct (x <? 16); [apply IH; lia|].
  apply (reads_bind (A := Z * Z) 0 0).
  - destruct (x =? 16); [destruct lens as [|l lens]; [apply reads_err|]|destruct (x =? 17)].
    all: apply bits_bind; intros e rest _; apply reads_ok; lia.
  - intros [rep value] bs2 H2. cbv beta iota. destruct (n <? _); [apply reads_err|]. apply IH. lia.
Qed.

Lemma code_lengths_reads order bs lens : reads 0 bs (read_code_lengths order bs lens).
Proof.
  revert bs lens. induction order as [|i order IH]; intros bs lens; cbn [read_code_lengths]; [apply reads_ok; lia|].
  apply bits_bind. intros l rest _. apply IH.
Qed.

Lemma code_init_total lens : code_init lens <> Panic /\ code_init lens <> Err EFuel.
Proof. unfold code_init. by destruct (_ || _). Qed.

Lemma header_reads bs : reads 0 bs (readHuffman bs).
Proof.
  unfold readHuffman.
  apply bits_bind. intros hlit b1 _. cbv beta iota.
  destruct (_ <? hlit + 257); [apply reads_err|].
  apply bits_bind. intros hdist b2 _. cbv beta iota.
  destruct (_ <? hdist + 1); [apply reads_err|].
  apply bits_bind. intros hclen b3 _. cbv beta iota.
  apply (reads_bind 0 0); [apply code_lengths_reads|]. intros lens b4 _. cbv beta iota.
  pose proof (code_init_total lens) as [H1 H2]. destruct (code_init lens) as [h|e|]; [|by split; [apply total_err; congruence|]|done].
  cbn [mbind outcome_bind]. apply (reads_bind 0 0); [apply lengths_reads; lia|]. intros ls b5 _. cbv beta iota.
  clear H1 H2. pose proof (code_init_total (take (Z.to_nat (hlit + 257)) ls)) as [H1 H2].
  destruct (code_init (take _ ls)) as [hl|e|]; [|by split; [apply total_err; congruence|]|done]. cbn [mbind outcome_bind].
  clear H1 H2. pose proof (code_init_total (drop (Z.to_nat (hlit + 257)) ls)) as [H1 H2].
  destruct (code_init (drop _ ls)) as [hd|e|]; [|by split; [apply total_err; congruence|]|done]. apply reads_ok. lia.
Qed.

Lemma data_reads bs out : block_reads 0 bs (dataBlock bs out).
Proof.
  unfold dataBlock. set (b0 := drop (length bs mod 8) bs).
  assert (length b0 <= length bs)%nat as H0 by (unfold b0; rewrite length_drop; lia).
  enough (block_reads 0 b0 (dataBlock bs out)) as [Ht H].
  { split; [exact Ht|]. intros r o E. specialize (H r o E). lia. }
  unfold dataBlock. fold b0. eapply block_bind; [apply take_bits_reads|]. intros n b1 _. cbv beta iota.
  eapply block_bind; [apply take_bits_reads|]. intros nn b2 _. cbv beta iota.
  destruct (negb _); [by split|]. destruct (_ <? 8 * n); [by split|]. split; [done|]. intros r o [= <- <-].
  rewrite length_drop. lia.
Qed.

Lemma blocks_total fuel bs out : (length bs < fuel)%nat -> total (blocks fuel bs out).
Proof.
  revert bs out. induction fuel as [|fuel IH]; intros bs out Hf; [lia|]. cbn [blocks].
  destruct (take_bits_reads 1 bs) as [T1 R1]. apply total_bind; [done|]. intros [final b1] E1. specialize (R1 _ _ E1).
  destruct (take_bits_reads 2 b1) as [T2 R2]. apply total_bind; [done|]. intros [typ b2] E2. specialize (R2 _ _ E2).
  match goal with |- total (?m ≫= _) => assert (block_reads 0 b2 m) as [T3 R3] end.
  { destruct (typ =? 0); [apply data_reads|]. destruct (typ =? 1); [apply huffman_reads; lia|].
    destruct (typ =? 2); [|by split]. eapply block_bind; [apply header_reads|]. intros [hl hd] b3 H3. cbv beta iota.
    apply huffman_reads. lia. }
  apply total_bind; [done|]. intros [b3 out'] E3. specialize (R3 _ _ E3). destruct (final =? 1); [done|]. apply IH. lia.
Qed.

Lemma length_bits_of data : length (bits_of data) = (8 * length data)%nat.
Proof.
  induction data as [|b data IH]; [done|]. change (bits_of (b :: data)) with (byte_bits b ++ bits_of data).
  rewrite length_app, IH. cbn. lia.
Qed.

Lemma inflate_total data : total (inflate data).
Proof. apply blocks_total. rewrite length_bits_of. lia. Qed.

(** ** Stored blocks *)
(** A stored block of at most 65535 bytes. *)
Definition stored_block (final : bool) (chunk : bytes) : bytes :=
  (if final then x01 else x00) :: le_split 2 (zlen chunk) ++ le_split 2 (0xffff - zlen chunk) ++ chunk.

Lemma byte_bits_value b : bits_value (byte_bits b) = b2z b.
Proof. by destruct b. Qed.

Lemma length_byte_bits b : length (byte_bits b) = 8%nat.
Proof. done. Qed.

Lemma bits_value_app l1 l2 : bits_value (l1 ++ l2) = bits_value l1 + 2 ^ zlen l1 * bits_value l2.
Proof.
  induction l1 as [|b l1 IH]; [change (zlen (@nil bool)) with 0; cbn; lia|]. cbn [app bits_value]. rewrite IH.
  unfold zlen. cbn [length]. rewrite Nat2Z.inj_succ, Z.pow_succ_r by lia. fold (zlen l1). ring.
Qed.

Lemma take_bits_app l rest : take_bits (length l) (l ++ rest) = Ok (bits_value l, rest).
Proof.
  unfold take_bits. destruct (Nat.ltb_spec (length (l ++ rest)) (length l)) as [H|]; [rewrite length_app in H; lia|].
  by rewrite take_app_length, drop_app_length.
Qed.

Lemma take_16 v rest : is_u16 v -> take_bits 16 (bits_of (le_split 2 v) ++ rest) = Ok (v, rest).
Proof.
  intros Hv. change 16%nat with (length (bits_of (le_split 2 v))). rewrite take_bits_app.
  change (bits_of (le_split 2 v)) with (byte_bits (z2b v) ++ byte_bits (z2b (v / 256))).
  rewrite bits_value_app, !byte_bits_value, !b2z_z2b. change (2 ^ zlen (byte_bits (z2b v))) with 256. unfold is_u16 in Hv.
  do 2 f_equal. rewrite (Z.mod_small (v / 256)) by (split; [apply Z.div_pos; lia|apply Z.div_lt_upper_bound; lia]).
  pose proof (Z.div_mod v 256). lia.
Qed.

Lemma bits_of_app a b : bits_of (a ++ b) = bits_of a ++ bits_of b.
Proof. apply bind_app. Qed.

Lemma bits_bytes_of data : bits_bytes (length data) (bits_of data) = data.
Proof.
  induction data as [|b data IH]; [done|]. change (bits_of (b :: data)) with (byte_bits b ++ bits_of data).
  cbn [length bits_bytes]. destruct (byte_bits b ++ bits_of data) eqn:E; [done|]. rewrite <- E.
  rewrite (take_app_length' (byte_bits b)) by done. rewrite (drop_app_length' (byte_bits b)) by done.
  by rewrite byte_bits_value, z2b_b2z, IH.
Qed.

Lemma stored_step fuel final chunk rest out :
  zlen chunk <= 0xffff ->
  blocks (S fuel) (bits_of (stored_block final chunk ++ rest)) out
  = if final then Ok (rev (rev chunk ++ out)) else blocks fuel (bits_of rest) (rev chunk ++ out).
Proof.
  intros Hc. pose proof (zlen_nonneg chunk) as H0. cbn [blocks].
  assert (exists pad, length pad = 5%nat /\ bits_of (stored_block final chunk ++ rest)
    = [final] ++ [false; false] ++ pad ++ bits_of (le_split 2 (zlen chunk)) ++ bits_of (le_split 2 (0xffff - zlen chunk))
      ++ bits_of chunk ++ bits_of rest) as (pad & Hp & ->).
  { exists [false; false; false; false; false]. split; [done|]. unfold stored_block.
    rewrite <- app_comm_cons, <- !app_assoc, <- !bits_of_app. by destruct final. }
  match goal with |- context [take_bits 1 ([final] ++ ?r)] => rewrite (take_bits_app [final] r : take_bits 1 _ = _) end.
  cbn [mbind outcome_bind].
  match goal with |- context [take_bits 2 ([false; false] ++ ?r)] => rewrite (take_bits_app [false; false] r : take_bits 2 _ = _) end.
  cbn [mbind outcome_bind].
  change (bits_value [false; false]) with 0. cbn [Z.eqb]. unfold dataBlock.
  set (body := bits_of (le_split 2 (zlen chunk)) ++ bits_of (le_split 2 (0xffff - zlen chunk)) ++ bits_of chunk ++ bits_of rest).
  assert (length (pad ++ body) mod 8 = 5)%nat as ->.
  { rewrite length_app, Hp. unfold body. rewrite !length_app, !length_bits_of.
    replace (5 + _)%nat with (5 + (length (le_split 2 (zlen chunk)) + (length (le_split 2 (0xffff - zlen chunk)) + (length chunk + length rest))) * 8)%nat by lia.
    by rewrite Nat.Div0.mod_add. }
  rewrite (drop_app_length' pad) by lia. unfold body. rewrite take_16 by (unfold is_u16; lia). cbn [mbind outcome_bind].
  rewrite take_16 by (unfold is_u16; lia). cbn [mbind outcome_bind].
  replace (0xffff - (0xffff - zlen chunk)) with (zlen chunk) by lia. rewrite Z.eqb_refl. cbn [negb].
  destruct (Z.ltb_spec (Z.of_nat (length (bits_of chunk ++ bits_of rest))) (8 * zlen chunk)) as [H|_].
  { rewrite length_app, !length_bits_of in H. unfold zlen in H. lia. }
  assert (Z.to_nat (8 * zlen chunk) = length (bits_of chunk)) as -> by (rewrite length_bits_of; unfold zlen; lia).
  rewrite take_app_length, drop_app_length, to_nat_zlen, bits_bytes_of. cbn [mbind outcome_bind].
  destruct final; [|reflexivity]. reflexivity.
Qed.

(** A stream of stored blocks, one for each chunk and a last empty one. *)
Definition stored_stream (chunks : list bytes) : bytes := (chunks ≫= stored_block false) ++ stored_block true [].

Lemma inflate_stored chunks :
  Forall (fun c => zlen c <= 0xffff) chunks -> inflate (stored_stream chunks) = Ok (concat chunks).
Proof.
  intros H. unfold inflate.
  assert (forall fuel out, (length chunks < fuel)%nat ->
    blocks fuel (bits_of (stored_stream chunks)) out = Ok (rev out ++ concat chunks)) as Hg.
  { induction H as [|c chunks Hc _ IH]; intros fuel out Hf; (destruct fuel as [|fuel]; [cbn in Hf; lia|]).
    - unfold stored_stream. cbn [mbind list_bind]. rewrite <- (app_nil_r (stored_block true [])), app_nil_l.
      rewrite stored_step by done. by rewrite app_nil_r.
    - change (stored_stream (c :: chunks)) with ((stored_block false c ++ chunks ≫= stored_block false) ++ stored_block true []).
      rewrite <- app_assoc, stored_step by done. rewrite IH by (cbn in Hf; lia). cbn [concat].
      by rewrite rev_app_distr, rev_involutive, <- app_assoc. }
  rewrite Hg; [done|]. unfold stored_stream. rewrite length_app. clear Hg H.
  assert (length chunks <= length (chunks ≫= stored_block false))%nat as Hl; [|cbn; lia].
  induction chunks as [|c chunks IH]; [done|]. cbn [mbind list_bind length]. rewrite length_app. cbn. lia.
Qed.
