(* ===== verification/Base64.v ===== *)
(** Package encoding/base64, the standard encoding with padding, as internal/socks5 and
    internal/xrfc use it.

    [DecodeString] is for texts without line breaks, which the code has removed.  It ignores
    the unused bits of a padded group; [canonicalBase64] is the pattern xrfc tests before.
    The theorem: encoding and decoding are inverse on the canonical texts. *)
From stdpp Require Import base list numbers strings.
From Stdlib Require Import ZArith Lia Strings.Byte.
From S2P Require Import Prelude Errors Text.

Open Scope Z_scope.

Definition base64_char (v : Z) : byte :=
  if v <? 26 then z2b (0x41 + v)
  else if v <? 52 then z2b (0x61 + (v - 26))
  else if v <? 62 then z2b (0x30 + (v - 52))
  else if v =? 62 then x2b else x2f.

Fixpoint EncodeToString (s : bytes) : bytes :=
  match s with
  | [] => []
  | [a] => let v := b2z a * 2 ^ 16 in
      [base64_char (v / 2 ^ 18 mod 64); base64_char (v / 2 ^ 12 mod 64); x3d; x3d]
  | [a; b] => let v := b2z a * 2 ^ 16 + b2z b * 2 ^ 8 in
      [base64_char (v / 2 ^ 18 mod 64); base64_char (v / 2 ^ 12 mod 64); base64_char (v / 2 ^ 6 mod 64); x3d]
  | a :: b :: c :: rest => let v := b2z a * 2 ^ 16 + b2z b * 2 ^ 8 + b2z c in
      [base64_char (v / 2 ^ 18 mod 64); base64_char (v / 2 ^ 12 mod 64); base64_char (v / 2 ^ 6 mod 64); base64_char (v mod 64)]
      ++ EncodeToString rest
  end.

Definition base64_value (b : byte) : option Z :=
  let z := b2z b in
  if in_range 0x41 0x5a z then Some (z - 0x41)
  else if in_range 0x61 0x7a z then Some (z - 0x61 + 26)
  else if in_range 0x30 0x39 z then Some (z - 0x30 + 52)
  else if z =? 0x2b then Some 62
  else if z =? 0x2f then Some 63 else None.

Definition is_pad (b : byte) : bool := bool_decide (b = x3d).

(** The bytes of a number of 24 bits. *)
Definition group_bytes (v : Z) : bytes := [z2b (v / 2 ^ 16); z2b (v / 2 ^ 8 mod 256); z2b (v mod 256)].

Fixpoint DecodeString (s : bytes) : option bytes :=
  match s with
  | [] => Some []
  | a :: b :: c :: d :: rest =>
      va ← base64_value a;
      vb ← base64_value b;
      if is_pad c && is_pad d && bool_decide (rest = []) then Some (take 1 (group_bytes (va * 2 ^ 18 + vb * 2 ^ 12)))
      else
        vc ← base64_value c;
        if is_pad d && bool_decide (rest = []) then Some (take 2 (group_bytes (va * 2 ^ 18 + vb * 2 ^ 12 + vc * 2 ^ 6)))
        else
          vd ← base64_value d;
          out ← DecodeString rest;
          Some (group_bytes (va * 2 ^ 18 + vb * 2 ^ 12 + vc * 2 ^ 6 + vd) ++ out)
  | _ => None
  end.

Definition is_alphabet (b : byte) : bool := match base64_value b with Some _ => true | None => false end.

(** [^(?:[A-Za-z0-9+/]{4})*(?:[A-Za-z0-9+/]{2}==|[A-Za-z0-9+/]{3}=)?$] *)
Fixpoint canonicalBase64 (s : bytes) : bool :=
  match s with
  | [] => true
  | a :: b :: c :: d :: rest =>
      is_alphabet a && is_alphabet b &&
      ((is_alphabet c && is_alphabet d && canonicalBase64 rest) ||
       (bool_decide (rest = []) && is_pad d && (is_pad c || is_alphabet c)))
  | _ => false
  end.

(** ** Round trip *)
Lemma base64_char_value v : 0 <= v < 64 -> base64_value (base64_char v) = Some v /\ is_pad (base64_char v) = false.
Proof.
  intros H. assert (E : forallb (fun n => bool_decide (base64_value (base64_char (Z.of_nat n)) = Some (Z.of_nat n)) && negb (is_pad (base64_char (Z.of_nat n)))) (seq 0 64) = true)
    by (vm_compute; reflexivity).
  rewrite forallb_forall in E. specialize (E (Z.to_nat v)). rewrite Z2Nat.id in E by lia.
  apply andb_true_iff in E as [E1%bool_decide_eq_true E2%negb_true_iff]; [done|]. apply in_seq. lia.
Qed.

Lemma base64_char_alphabet v : 0 <= v < 64 -> is_alphabet (base64_char v) = true.
Proof. intros H. unfold is_alphabet. by destruct (base64_char_value v H) as [-> _]. Qed.

(** Induction on the groups of three bytes. *)
Lemma group_ind (P : bytes -> Prop) :
  P [] -> (forall a, P [a]) -> (forall a b, P [a; b]) -> (forall a b c rest, P rest -> P (a :: b :: c :: rest)) -> forall s, P s.
Proof.
  intros H0 H1 H2 H3 s. assert (H : forall n s, (length s <= n)%nat -> P s); [|by apply (H (length s))].
  induction n as [|n IH]; intros [|a [|b [|c rest]]] Hl; cbn in Hl; auto; try lia. apply H3, IH. lia.
Qed.

Lemma encode_group v :
  0 <= v < 2 ^ 24 ->
  v / 2 ^ 18 mod 64 * 2 ^ 18 + v / 2 ^ 12 mod 64 * 2 ^ 12 + v / 2 ^ 6 mod 64 * 2 ^ 6 + v mod 64 = v.
Proof.
  intros H. rewrite (Z.mod_small (v / 2 ^ 18)) by (split; [apply Z.div_pos; lia|apply Z.div_lt_upper_bound; lia]).
  pose proof (Z.div_mod v 64 ltac:(lia)). change (2 ^ 12) with (64 * 64). change (2 ^ 18) with (64 * 64 * 64). change (2 ^ 6) with 64.
  rewrite <- !Z.div_div by lia. pose proof (Z.div_mod (v / 64) 64 ltac:(lia)). pose proof (Z.div_mod (v / 64 / 64) 64 ltac:(lia)). lia.
Qed.

Lemma group_bytes_of a b c : group_bytes (b2z a * 2 ^ 16 + b2z b * 2 ^ 8 + b2z c) = [a; b; c].
Proof.
  unfold group_bytes. pose proof (b2z_range a). pose proof (b2z_range b). pose proof (b2z_range c).
  set (v := b2z a * 2 ^ 16 + b2z b * 2 ^ 8 + b2z c).
  assert (v / 2 ^ 16 = b2z a) as -> by (symmetry; apply (Z.div_unique v (2 ^ 16) (b2z a) (b2z b * 2 ^ 8 + b2z c)); lia).
  assert (v / 2 ^ 8 mod 256 = b2z b) as ->.
  { assert (v / 2 ^ 8 = b2z a * 256 + b2z b) as -> by (symmetry; apply (Z.div_unique v (2 ^ 8) _ (b2z c)); lia).
    rewrite Z.add_comm, Z.mod_add by lia. apply Z.mod_small. lia. }
  assert (v mod 256 = b2z c) as -> by (symmetry; apply (Z.mod_unique v 256 (b2z a * 256 + b2z b)); lia).
  by rewrite !z2b_b2z.
Qed.

Lemma encode_decode s :
  DecodeString (EncodeToString s) = Some s /\ canonicalBase64 (EncodeToString s) = true /\ zlen (EncodeToString s) = (zlen s + 2) / 3 * 4.
Proof.
  pattern s. apply group_ind; clear s; [done| | |].
  - intros a. pose proof (b2z_range a) as Ha. cbn [EncodeToString]. cbv zeta. set (v := b2z a * 2 ^ 16). pose proof (encode_group v ltac:(lia)) as Eg.
    assert (v / 2 ^ 6 mod 64 = 0 /\ v mod 64 = 0) as [E6 E0].
    { unfold v. split; [change (2 ^ 16) with (1024 * 2 ^ 6); rewrite Z.mul_assoc, Z.div_mul by lia; change 1024 with (16 * 64); rewrite Z.mul_assoc; apply Z.mod_mul; lia|].
      change (2 ^ 16) with (1024 * 64). rewrite Z.mul_assoc. apply Z.mod_mul. lia. }
    rewrite E6, E0 in Eg. pose proof (Z.mod_pos_bound (v / 2 ^ 18) 64 ltac:(lia)) as R1. pose proof (Z.mod_pos_bound (v / 2 ^ 12) 64 ltac:(lia)) as R2.
    destruct (base64_char_value _ R1) as [E1 _]. destruct (base64_char_value _ R2) as [E2 _]. split; [|split; [|done]].
    + cbn [DecodeString]. rewrite E1. cbn [mbind option_bind]. rewrite E2. cbn [mbind option_bind]. change (is_pad x3d && is_pad x3d && bool_decide ([] = [])) with true. cbv iota.
      replace (_ + _) with (b2z a * 2 ^ 16 + b2z x00 * 2 ^ 8 + b2z x00) by (change (b2z x00) with 0; lia). by rewrite group_bytes_of.
    + cbn [canonicalBase64]. rewrite !base64_char_alphabet by done. done.
  - intros a b. pose proof (b2z_range a) as Ha. pose proof (b2z_range b) as Hb. cbn [EncodeToString]. cbv zeta. set (v := b2z a * 2 ^ 16 + b2z b * 2 ^ 8).
    pose proof (encode_group v ltac:(lia)) as Eg.
    assert (v mod 64 = 0) as E0. { unfold v. change (2 ^ 16) with (1024 * 64). change (2 ^ 8) with (4 * 64). rewrite !Z.mul_assoc, <- Z.mul_add_distr_r. apply Z.mod_mul. lia. }
    rewrite E0 in Eg. pose proof (Z.mod_pos_bound (v / 2 ^ 18) 64 ltac:(lia)) as R1. pose proof (Z.mod_pos_bound (v / 2 ^ 12) 64 ltac:(lia)) as R2.
    pose proof (Z.mod_pos_bound (v / 2 ^ 6) 64 ltac:(lia)) as R3.
    destruct (base64_char_value _ R1) as [E1 _]. destruct (base64_char_value _ R2) as [E2 _]. destruct (base64_char_value _ R3) as [E3 P3]. split; [|split; [|done]].
    + cbn [DecodeString]. rewrite E1. cbn [mbind option_bind]. rewrite E2. cbn [mbind option_bind]. rewrite P3. cbn [andb]. rewrite E3. cbn [mbind option_bind].
      change (is_pad x3d && bool_decide ([] = [])) with true. cbv iota.
      replace (_ + _ + _) with (b2z a * 2 ^ 16 + b2z b * 2 ^ 8 + b2z x00) by (change (b2z x00) with 0; lia). by rewrite group_bytes_of.
    + cbn [canonicalBase64]. rewrite !base64_char_alphabet by done. rewrite P3. reflexivity.
  - intros a b c rest (IH1 & IH2 & IH3). pose proof (b2z_range a) as Ha. pose proof (b2z_range b) as Hb. pose proof (b2z_range c) as Hc. cbn [EncodeToString]. cbv zeta.
    set (v := b2z a * 2 ^ 16 + b2z b * 2 ^ 8 + b2z c). pose proof (encode_group v ltac:(lia)) as Eg.
    pose proof (Z.mod_pos_bound (v / 2 ^ 18) 64 ltac:(lia)) as R1. pose proof (Z.mod_pos_bound (v / 2 ^ 12) 64 ltac:(lia)) as R2.
    pose proof (Z.mod_pos_bound (v / 2 ^ 6) 64 ltac:(lia)) as R3. pose proof (Z.mod_pos_bound v 64 ltac:(lia)) as R4.
    destruct (base64_char_value _ R1) as [E1 _]. destruct (base64_char_value _ R2) as [E2 _]. destruct (base64_char_value _ R3) as [E3 P3].
    destruct (base64_char_value _ R4) as [E4 P4]. cbn [app]. split; [|split].
    + cbn [DecodeString]. rewrite E1. cbn [mbind option_bind]. rewrite E2. cbn [mbind option_bind]. rewrite P3, P4. cbn [andb]. rewrite E3. cbn [mbind option_bind].
      rewrite E4. cbn [mbind option_bind]. rewrite IH1. cbn [mbind option_bind]. rewrite Eg. unfold v. by rewrite group_bytes_of.
    + cbn [canonicalBase64]. rewrite !base64_char_alphabet by done. by rewrite IH2.
    + assert (zlen (a :: b :: c :: rest) = zlen rest + 3) as -> by (unfold zlen; cbn [length]; lia).
      replace (zlen rest + 3 + 2) with (zlen rest + 2 + 1 * 3) by lia. rewrite Z.div_add by lia. unfold zlen in *. cbn [length]. lia.
Qed.
