(* ===== verification/PackedDecimal.v ===== *)
(** Package [value], internal/value/packed_decimal.go: ABAP packed decimals (TYPE P), a
    binary-coded decimal with two digits per byte and the sign in the last nibble.

    The theorems: the encoder accepts a decimal text exactly when its value, scaled by the
    number of decimals, is an integer that fits, and the bytes then hold that integer; every
    packed value that decodes encodes back to itself up to the choice of sign nibble; and an
    exponent close to the largest [int] makes the encoder panic. *)
From stdpp Require Import base list numbers strings.
From Stdlib Require Import ZArith Lia Strings.Byte.
From S2P Require Import Prelude Errors Text.

Open Scope Z_scope.

Definition errPackedRange : error := EValue ErrPackedRange.
Definition errPackedDecode : error := EValue ErrPackedDecode.

Definition maxPackedDecimalTextLength : Z := 4096.

(** ** The decimal pattern

    An optional sign (group 1); digits (2) with an optional point and further digits (3), or
    a point and digits (4); an optional [e] or [E] with a signed exponent (5); the end of the
    text.  The pattern is deterministic: where a group can end is decided by the next byte. *)
Record submatch : Type := mkSubmatch { m1 : bytes; m2 : bytes; m3 : bytes; m4 : bytes; m5 : bytes }.

Definition is_sign (b : byte) : bool := bool_decide (b = x2b) || bool_decide (b = x2d).
Definition is_exp (b : byte) : bool := bool_decide (b = x65) || bool_decide (b = x45).

(** An optional sign in front. *)
Definition take_sign (s : bytes) : bytes * bytes :=
  match s with
  | b :: s' => if is_sign b then ([b], s') else ([], s)
  | [] => ([], [])
  end.

(** Groups 2, 3 and 4, and what follows them. *)
Definition match_mantissa (s : bytes) : option (bytes * bytes * bytes * bytes) :=
  match span is_digit s with
  | ([], x2e :: s) =>
      match span is_digit s with
      | ([], _) => None
      | (frac, s) => Some ([], [], frac, s)
      end
  | ([], _) => None
  | (int, x2e :: s) => let '(frac, s) := span is_digit s in Some (int, frac, [], s)
  | (int, s) => Some (int, [], [], s)
  end.

(** Group 5, up to the end of the text. *)
Definition match_exponent (s : bytes) : option bytes :=
  match s with
  | [] => Some []
  | b :: s =>
      if is_exp b then
        let '(sign, s) := take_sign s in
        match span is_digit s with
        | ((_ :: _) as ds, []) => Some (sign ++ ds)
        | _ => None
        end
      else None
  end.

Definition decimalPattern (text : bytes) : option submatch :=
  let '(sign, s) := take_sign text in
  match match_mantissa s with
  | Some (a, b, c, s) => match match_exponent s with Some e => Some (mkSubmatch sign a b c e) | None => None end
  | None => None
  end.

(** [strconv.Atoi] *)
Definition Atoi (s : bytes) : option Z :=
  let '(sign, ds) := take_sign s in
  match ds with
  | [] => None
  | _ =>
      if forallb is_digit ds then
        let v := if bool_decide (sign = [x2d]) then - dec_value ds else dec_value ds in
        if (- 2 ^ 63 <=? v) && (v <? 2 ^ 63) then Some v else None
      else None
  end.

(** [strings.Repeat("0", n)]; the allocation fails above the address space. *)
Definition maxAlloc : Z := 2 ^ 48.
Definition repeat_zero (n : Z) : res bytes :=
  if (n <? 0) || (maxAlloc <? n) then Panic else Ok (replicate (Z.to_nat n) x30).

(** ** The digits of a value *)
Record scaled : Type := mkScaled { s_digits : bytes; s_negative : bool }.

(** Leading zeros go, one digit stays. *)
Fixpoint trimLeadingZeros (s : bytes) : bytes :=
  match s with
  | b :: ((_ :: _) as s') => if bool_decide (b = x30) then trimLeadingZeros s' else s
  | _ => s
  end.

(** The exponent, and whether it was in range; an exponent out of range leaves its sign. *)
Definition exponent_of (e : bytes) : Z * bool :=
  match e with
  | [] => (0, true)
  | _ => match Atoi e with
         | Some v => (v, true)
         | None => (if bool_decide (head e = Some x2d) then -1 else 1, false)
         end
  end.

Definition fraction_of (m : submatch) : bytes := match m3 m with [] => m4 m | f => f end.

(** The coefficient shifted by a power of ten, as text. *)
Definition scaled_text (coefficient : bytes) (shift capacity : Z) : res bytes :=
  if 0 <=? shift then
    let significantLength := zlen (trim_left_zeros coefficient) in
    if capacity <? int64 (significantLength + shift) then Err errPackedRange
    else zs ← repeat_zero shift; Ok (coefficient ++ zs)
  else
    let removed := int64 (- shift) in
    let split := int64 (zlen coefficient - removed) in
    let split := if split <? 0 then 0 else split in
    lost ← go_from coefficient split;
    if contains_nonzero lost then Err errPackedRange
    else
      text ← go_slice coefficient 0 split;
      Ok (match text with [] => [x30] | _ => text end).

Definition scaledDigits (text : bytes) (decimals capacity : Z) : res scaled :=
  match decimalPattern text with
  | None => Err errPackedRange
  | Some m =>
      let fraction := fraction_of m in
      let coefficient := m2 m ++ fraction in
      let '(exponent, exponentOK) := exponent_of (m5 m) in
      if negb exponentOK then
        if negb (contains_nonzero coefficient) then Ok (mkScaled [x30] false)
        else Err errPackedRange
      else
        let shift := int64 (int64 (exponent + decimals) - zlen fraction) in
        scaledText ← scaled_text coefficient shift capacity;
        let significant := trimLeadingZeros scaledText in
        if capacity <? zlen significant then Err errPackedRange
        else Ok (mkScaled significant (bool_decide (m1 m = [x2d]) && contains_nonzero significant))
  end.

Definition packedGeometry (byteLength decimals : Z) : res Z :=
  if (byteLength <? 1) || (16 <? byteLength) then Err errPackedRange
  else
    let digits := byteLength * 2 - 1 in
    let maximumDecimals := if digits <? 14 then digits else 14 in
    if (decimals <? 0) || (maximumDecimals <? decimals) then Err errPackedRange
    else Ok digits.

Definition padStartZeros (s : bytes) (width : Z) : bytes :=
  if width <=? zlen s then s else replicate (Z.to_nat (width - zlen s)) x30 ++ s.

(** [strconv.ParseUint(s, 16, 8)] on a slice of two characters. *)
Definition ParseUint_hex (s : bytes) : option Z :=
  if (0 <? zlen s) && forallb is_hex s then
    let v := fold_left (fun acc b => acc * 16 + hex_digit_value b) s 0 in
    if v <? 256 then Some v else None
  else None.

(** The loop that packs two characters into a byte. *)
Fixpoint pack_loop (n : nat) (i : Z) (nibbles : bytes) : res bytes :=
  match n with
  | O => Ok []
  | S n =>
      two ← go_slice nibbles (i * 2) (i * 2 + 2);
      match ParseUint_hex two with
      | None => Err errPackedRange
      | Some b => out ← pack_loop n (i + 1) nibbles; Ok (z2b b :: out)
      end
  end.

Definition EncodePackedDecimal (value : bytes) (byteLength decimals : Z) : res bytes :=
  capacity ← packedGeometry byteLength decimals;
  let value := match value with [] => [x30] | _ => value end in
  if maxPackedDecimalTextLength <? zlen value then Err errPackedRange
  else
    s ← scaledDigits value decimals capacity;
    let digits := padStartZeros (s_digits s) capacity in
    let sign := if s_negative s then x44 else x43 in
    pack_loop (Z.to_nat byteLength) 0 (digits ++ [sign]).

(** [strings.ToUpper(hex.EncodeToString(value))] *)
Definition hex_char (d : Z) : byte := if d <? 10 then z2b (0x30 + d) else z2b (0x37 + d).
Definition hex_upper (value : bytes) : bytes :=
  value ≫= fun b => [hex_char (b2z b / 16); hex_char (b2z b mod 16)].

Definition positive_sign (c : byte) : bool :=
  bool_decide (c = x41) || bool_decide (c = x43) || bool_decide (c = x45) || bool_decide (c = x46).
Definition negative_sign (c : byte) : bool := bool_decide (c = x42) || bool_decide (c = x44).

Definition DecodePackedDecimal (value : bytes) (decimals : Z) : res bytes :=
  capacity ← packedGeometry (zlen value) decimals;
  let h := hex_upper value in
  digits ← go_slice h 0 capacity;
  if negb ((0 <? zlen digits) && forallb is_digit digits) then Err errPackedDecode
  else
    sign ← go_index h (zlen h - 1);
    if negb (positive_sign sign) && negb (negative_sign sign) then Err errPackedDecode
    else
      integerDigits ← (if decimals =? 0 then Ok digits
                       else if decimals <? zlen digits then go_slice digits 0 (zlen digits - decimals)
                       else Ok [x30]);
      let integer := trimLeadingZeros integerDigits in
      fraction ← (if decimals =? 0 then Ok [] else go_from digits (zlen digits - decimals));
      let prefix := if negative_sign sign && contains_nonzero digits then [x2d] else [] in
      Ok (prefix ++ integer ++ (if decimals =? 0 then [] else x2e :: fraction)).

(** ** What the bytes mean *)
Definition nibbles (b : bytes) : list Z := b ≫= fun x => [b2z x / 16; b2z x mod 16].

Definition nibble_value (ds : list Z) : Z := fold_left (fun acc d => acc * 10 + d) ds 0.

(** The sign nibbles: A, C, E and F are positive, B and D negative. *)
Definition pos_nibble (s : Z) : bool := bool_decide (s ∈ [10; 12; 14; 15]).
Definition neg_nibble (s : Z) : bool := bool_decide (s ∈ [11; 13]).

(** The integer a packed field holds: its digits, and the sign of its last nibble. *)
Definition packed_int (b : bytes) : option Z :=
  match rev (nibbles b) with
  | s :: ds =>
      if forallb (fun d => d <? 10) ds then
        let v := nibble_value (rev ds) in
        if pos_nibble s then Some v
        else if neg_nibble s then Some (- v) else None
      else None
  | [] => None
  end.

(** The sign nibble the encoder writes: C, and D for a negative value. *)
Definition canonical (b : bytes) : Prop :=
  exists v, packed_int b = Some v /\ last (nibbles b) = Some (if v <? 0 then 13 else 12).

(** The value of a decimal text scaled by [decimals], as an equation over the integers. *)
Definition scaled_value (m : submatch) (e decimals v : Z) : Prop :=
  let sh := e + decimals - zlen (fraction_of m) in
  let n := dec_value (m2 m ++ fraction_of m) in
  v * 10 ^ Z.max 0 (- sh) = (if bool_decide (m1 m = [x2d]) then - n else n) * 10 ^ Z.max 0 sh.

(** ** Leading zeros *)
Lemma trim_spec s : s <> [] ->
  exists n, s = replicate n x30 ++ trimLeadingZeros s /\ trimLeadingZeros s <> [] /\
    (2 <= zlen (trimLeadingZeros s) -> head (trimLeadingZeros s) <> Some x30).
Proof.
  induction s as [|b [|c s] IH]; [done| |]; intros _.
  - exists 0%nat. split_and!; [done|done|]. unfold zlen. cbn. lia.
  - change (trimLeadingZeros (b :: c :: s)) with (if bool_decide (b = x30) then trimLeadingZeros (c :: s) else b :: c :: s).
    destruct (bool_decide (b = x30)) eqn:Eb;
      [apply bool_decide_eq_true in Eb|apply bool_decide_eq_false in Eb].
    + destruct (IH ltac:(done)) as (n & E & H). exists (S n). subst b. split; [|exact H].
      cbn [replicate app]. by rewrite <- E.
    + exists 0%nat. split_and!; [done|done|]. intros _ [= ->]. done.
Qed.

Lemma all_digits_app s t : all_digits (s ++ t) <-> all_digits s /\ all_digits t.
Proof. apply Forall_app. Qed.

Lemma trim_digits s : all_digits s -> s <> [] ->
  all_digits (trimLeadingZeros s) /\ dec_value (trimLeadingZeros s) = dec_value s /\ zlen (trimLeadingZeros s) <= zlen s.
Proof.
  intros Hs Hne. destruct (trim_spec s Hne) as (n & E & _). rewrite E in Hs. apply all_digits_app in Hs as [_ Hs].
  split_and!; [done| |].
  - rewrite E at 2. rewrite dec_value_app, dec_value_zeros. lia.
  - rewrite E at 2. rewrite zlen_app. pose proof (zlen_nonneg (replicate n x30)). lia.
Qed.

(** The trimmed text fits in [k] digits exactly when the value does. *)
Lemma trim_fits s k : all_digits s -> s <> [] -> 1 <= k -> zlen (trimLeadingZeros s) <= k <-> dec_value s < 10 ^ k.
Proof.
  intros Hs Hne Hk. destruct (trim_spec s Hne) as (n & _ & Hn & Hh). destruct (trim_digits s Hs Hne) as (Ht & <- & _).
  destruct (trimLeadingZeros s) as [|b t] eqn:E; [done|]. split.
  - intros Hl. pose proof (dec_value_range _ Ht).
    assert (10 ^ zlen (b :: t) <= 10 ^ k) by (apply Z.pow_le_mono_r; lia). lia.
  - intros Hv. destruct (Z.le_gt_cases (zlen (b :: t)) k) as [|Hgt]; [done|]. exfalso.
    pose proof (leading_digit_bound b t Ht) as Hb. cbn [head] in Hh.
    assert (10 ^ k <= 10 ^ zlen t) by (apply Z.pow_le_mono_r; [lia|]; unfold zlen in *; cbn [length] in *; lia).
    enough (b <> x30) by (specialize (Hb H0); lia). intros ->. apply Hh; [lia|done].
Qed.

(** [strings.TrimLeft] leaves at most [k] digits when the value is below [10^k]. *)
Lemma trim_left_fits s k : all_digits s -> 0 <= k -> zlen (trim_left_zeros s) <= k <-> dec_value s < 10 ^ k.
Proof.
  intros Hs Hk. destruct (trim_left_zeros_spec s) as (n & E & Hh). rewrite E in Hs.
  apply all_digits_app in Hs as [_ Hs]. rewrite E at 2. rewrite dec_value_app, dec_value_zeros, Z.mul_0_l, Z.add_0_l.
  destruct (trim_left_zeros s) as [|b t]; [split; [intros _; by apply pow10_pos|done]|].
  pose proof (leading_digit_bound b t Hs Hh). pose proof (dec_value_range _ Hs). split.
  - intros Hl. assert (10 ^ zlen (b :: t) <= 10 ^ k) by (apply Z.pow_le_mono_r; lia). lia.
  - intros Hv. destruct (Z.le_gt_cases (zlen (b :: t)) k) as [|Hgt]; [done|]. exfalso.
    assert (10 ^ k <= 10 ^ zlen t) by (apply Z.pow_le_mono_r; [lia|]; unfold zlen in *; cbn [length] in *; lia). lia.
Qed.

Lemma pad_digits s k : all_digits s -> zlen s <= k ->
  all_digits (padStartZeros s k) /\ zlen (padStartZeros s k) = k /\ dec_value (padStartZeros s k) = dec_value s.
Proof.
  intros Hs Hk. unfold padStartZeros. destruct (Z.leb_spec k (zlen s)).
  - split_and!; [done|lia|done].
  - split_and!.
    + apply all_digits_app. split; [|done]. apply Forall_replicate. done.
    + len_lia.
    + rewrite dec_value_app, dec_value_zeros. lia.
Qed.

(** ** Nibbles and characters *)
Lemma hex_char_digit d : 0 <= d < 16 -> is_digit (hex_char d) = (d <? 10) /\ (d < 10 -> digit_value (hex_char d) = d).
Proof.
  intros H. unfold hex_char, is_digit, digit_value.
  destruct (Z.ltb_spec d 10); rewrite b2z_z2b_id by lia; (split; [|lia]).
  - apply in_range_spec. lia.
  - apply in_range_false. lia.
Qed.

Lemma hex_char_hex d : 0 <= d < 16 -> is_hex (hex_char d) = true /\ hex_digit_value (hex_char d) = d.
Proof.
  intros H. unfold is_hex, is_digit, hex_digit_value, hex_char.
  destruct (Z.ltb_spec d 10); rewrite b2z_z2b_id by lia;
    (split; [unfold in_range; case_tests; first [done|lia]|case_tests; lia]).
Qed.

Lemma nibble_range b : 0 <= b2z b / 16 < 16 /\ 0 <= b2z b mod 16 < 16.
Proof. pose proof (b2z_range b). split; [|apply Z.mod_pos_bound; lia]. split; [apply Z.div_pos; lia|apply Z.div_lt_upper_bound; lia]. Qed.

Lemma hex_upper_nibbles b : hex_upper b = map hex_char (nibbles b) /\ Forall (fun d => 0 <= d < 16) (nibbles b).
Proof.
  induction b as [|x b [IH1 IH2]]; [done|]. cbn. unfold hex_upper, nibbles in *. rewrite IH1.
  destruct (nibble_range x). split; [done|]. by apply Forall_cons; split; [|apply Forall_cons; split].
Qed.

Lemma zlen_hex_upper b : zlen (hex_upper b) = 2 * zlen b.
Proof. induction b as [|x b IH]; [done|]. unfold zlen, hex_upper in *. cbn in *. lia. Qed.

(** Packing the characters of a byte string gives it back. *)
Lemma pack_hex_upper b pre i :
  zlen pre = i * 2 -> pack_loop (length b) i (pre ++ hex_upper b) = Ok b.
Proof.
  revert pre i. induction b as [|x b IH]; intros pre i Hi; [done|]. cbn [length pack_loop].
  destruct (nibble_range x) as [Hh Hl].
  change (hex_upper (x :: b)) with ([hex_char (b2z x / 16); hex_char (b2z x mod 16)] ++ hex_upper b).
  rewrite go_slice_mid; [|lia|unfold zlen in *; cbn; lia]. cbn [mbind outcome_bind].
  destruct (hex_char_hex _ Hh) as [E1 E2]. destruct (hex_char_hex _ Hl) as [E3 E4].
  unfold ParseUint_hex. change (0 <? zlen [hex_char (b2z x / 16); hex_char (b2z x mod 16)]) with true.
  cbn [forallb fold_left]. rewrite E1, E2, E3, E4. cbn [andb].
  replace ((0 * 16 + b2z x / 16) * 16 + b2z x mod 16) with (b2z x) by (pose proof (Z.div_mod (b2z x) 16); lia).
  pose proof (b2z_range x). destruct (Z.ltb_spec (b2z x) 256); [|lia].
  rewrite app_assoc, IH by (unfold zlen in *; rewrite length_app; cbn; lia). cbn [mbind outcome_bind]. by rewrite z2b_b2z.
Qed.

(** Digits and a sign character are the text of some bytes. *)
Lemma hex_upper_onto n cs :
  length cs = (2 * n)%nat -> Forall (fun c => exists d, 0 <= d < 16 /\ c = hex_char d) cs ->
  exists b, length b = n /\ hex_upper b = cs.
Proof.
  revert cs. induction n as [|n IH]; intros cs Hl Hc; [exists []; by destruct cs|].
  destruct cs as [|c1 [|c2 cs]]; [cbn in Hl; lia..|].
  apply Forall_cons in Hc as [(d1 & H1 & ->) Hc]. apply Forall_cons in Hc as [(d2 & H2 & ->) Hc].
  destruct (IH cs) as (b & Hb & <-); [cbn in Hl; lia|done|]. exists (z2b (d1 * 16 + d2) :: b).
  split; [by cbn; rewrite Hb|]. cbn. rewrite b2z_z2b_id by lia.
  rewrite Z.div_add_l, (Z.div_small d2), Z.add_0_r by lia.
  replace ((d1 * 16 + d2) mod 16) with d2; [done|]. rewrite Z.add_comm, Z.mod_add by lia. by rewrite Z.mod_small.
Qed.

(** Every nibble, by enumeration. *)
Ltac nibble_cases s :=
  let H := fresh in
  assert (s = 0 \/ s = 1 \/ s = 2 \/ s = 3 \/ s = 4 \/ s = 5 \/ s = 6 \/ s = 7 \/ s = 8 \/ s = 9 \/
    s = 10 \/ s = 11 \/ s = 12 \/ s = 13 \/ s = 14 \/ s = 15) as H by lia;
  repeat destruct H as [H|H]; subst s.

Lemma sign_chars s : 0 <= s < 16 ->
  positive_sign (hex_char s) = pos_nibble s /\
  negative_sign (hex_char s) = neg_nibble s.
Proof. intros H. nibble_cases s; by vm_compute. Qed.

Lemma nibble_text ns :
  Forall (fun d => 0 <= d < 16) ns ->
  forallb is_digit (map hex_char ns) = forallb (fun d => d <? 10) ns /\
  (forallb (fun d => d <? 10) ns = true -> dec_value (map hex_char ns) = nibble_value ns).
Proof.
  intros H. split.
  - induction H as [|d ns Hd _ IH]; [done|]. cbn. rewrite IH. f_equal. by apply hex_char_digit.
  - unfold dec_value, nibble_value. generalize 0. induction H as [|d ns Hd _ IH]; intros a; [done|]. cbn.
    intros [H1%Z.ltb_lt H2]%andb_true_iff. destruct (hex_char_digit d Hd) as [_ ->]; [|done]. by apply IH.
Qed.

(** The text of a packed field and the integer it holds. *)
Lemma packed_parts b :
  b <> [] -> exists ns s,
    nibbles b = ns ++ [s] /\ 0 <= s < 16 /\ Forall (fun d => 0 <= d < 16) ns /\
    hex_upper b = map hex_char ns ++ [hex_char s] /\ zlen ns = 2 * zlen b - 1 /\
    packed_int b = if forallb (fun d => d <? 10) ns then
        if pos_nibble s then Some (nibble_value ns)
        else if neg_nibble s then Some (- nibble_value ns) else None
      else None.
Proof.
  intros Hne. destruct (hex_upper_nibbles b) as [Hu Hr]. pose proof (zlen_hex_upper b) as Hl.
  assert (nibbles b <> []) as Hnn by (by destruct b). destruct (exists_last Hnn) as (ns & s & E). rewrite E in Hu, Hr.
  apply Forall_app in Hr as [Hr Hs]. rewrite Forall_singleton in Hs. exists ns, s. split; [done|]. split; [exact Hs|]. split; [done|]. split; [by rewrite Hu, map_app|]. split.
  - rewrite Hu in Hl. unfold zlen in *. rewrite length_map, length_app in Hl. cbn in Hl. lia.
  - unfold packed_int. rewrite E, rev_unit, rev_involutive.
    assert (forallb (fun d => d <? 10) (rev ns) = forallb (fun d => d <? 10) ns) as ->; [|done].
    apply eq_true_iff_eq. rewrite !forallb_forall. by setoid_rewrite <- in_rev.
Qed.

(** Digits and a sign pack to the integer they spell. *)
Lemma pack_int n ds s :
  length ds = (2 * n - 1)%nat -> (1 <= n)%nat -> all_digits ds -> s = 12 \/ s = 13 ->
  exists out, pack_loop n 0 (ds ++ [hex_char s]) = Ok out /\ length out = n /\ last (nibbles out) = Some s /\
    packed_int out = Some (if s =? 13 then - dec_value ds else dec_value ds).
Proof.
  intros Hl Hn Hd Hs. destruct (hex_upper_onto n (ds ++ [hex_char s])) as (out & Ho & E).
  - rewrite length_app. cbn. lia.
  - apply Forall_app. split; [|apply Forall_singleton; exists s; split; [lia|done]].
    eapply Forall_impl; [exact Hd|]. intros c Hc. cbn in Hc. pose proof (digit_range c Hc). exists (digit_value c).
    split; [lia|]. unfold hex_char. destruct (Z.ltb_spec (digit_value c) 10); [|lia].
    symmetry. by apply digit_char_value.
  - exists out. rewrite <- E. split_and!; [|done| |].
    + rewrite <- Ho. by apply (pack_hex_upper out []).
    + destruct (packed_parts out) as (ns & s' & -> & Hs' & _ & Eu & _); [by destruct out; [cbn in Ho; lia|]|].
      rewrite last_snoc. f_equal. rewrite E in Eu. apply app_inj_tail in Eu as [_ Ec].
      destruct (hex_char_hex s ltac:(lia)) as [_ <-]. rewrite Ec. by destruct (hex_char_hex s' Hs') as [_ ->].
    + destruct (packed_parts out) as (ns & s' & _ & Hs' & Hr & Eu & _ & ->); [by destruct out; [cbn in Ho; lia|]|].
      rewrite E in Eu. apply app_inj_tail in Eu as [-> Ec]. destruct (nibble_text ns Hr) as [H1 H2].
      apply forallb_digits in Hd. rewrite <- H1, Hd. rewrite <- H2 by congruence.
      assert (s' = s) as -> by (destruct (hex_char_hex s ltac:(lia)) as [_ <-]; rewrite Ec; by destruct (hex_char_hex s' Hs') as [_ ->]).
      by destruct Hs as [->| ->].
Qed.

(** ** The coefficient, shifted *)
Definition shift_outcome (coefficient : bytes) (sh capacity : Z) : Prop :=
  (exists t, scaled_text coefficient sh capacity = Ok t /\ all_digits t /\ t <> [] /\
     dec_value t * 10 ^ Z.max 0 (- sh) = dec_value coefficient * 10 ^ Z.max 0 sh) \/
  (scaled_text coefficient sh capacity = Err errPackedRange /\
     forall v, v * 10 ^ Z.max 0 (- sh) = dec_value coefficient * 10 ^ Z.max 0 sh -> v < 10 ^ capacity ->
       dec_value coefficient = 0 /\ capacity < sh).

Lemma shift_up coefficient sh capacity :
  all_digits coefficient -> coefficient <> [] -> zlen coefficient <= 4096 ->
  0 <= sh <= 2 ^ 62 + 5000 -> 1 <= capacity <= 31 -> shift_outcome coefficient sh capacity.
Proof.
  intros Hc Hne Hl Hsh Hcap. unfold shift_outcome, scaled_text. destruct (Z.leb_spec 0 sh) as [H0|H0]; [|lia].
  destruct (trim_left_zeros_spec coefficient) as (n & E & _).
  assert (zlen (trim_left_zeros coefficient) <= zlen coefficient) as Ht.
  { rewrite E at 2. rewrite zlen_app. pose proof (zlen_nonneg (replicate n x30)). lia. }
  pose proof (zlen_nonneg (trim_left_zeros coefficient)). rewrite int64_small by (unfold is_i64; lia).
  replace (Z.max 0 (- sh)) with 0 by lia. replace (Z.max 0 sh) with sh by lia.
  destruct (Z.ltb_spec capacity (zlen (trim_left_zeros coefficient) + sh)) as [Hg|Hle].
  - right. split; [done|]. intros v Hv Hlt. rewrite Z.pow_0_r, Z.mul_1_r in Hv.
    destruct (Z.le_gt_cases sh capacity) as [Hs|Hs].
    + exfalso. enough (dec_value coefficient < 10 ^ (capacity - sh)) as Hk
        by (apply trim_left_fits in Hk; [lia|done|lia]).
      replace capacity with (capacity - sh + sh) in Hlt by lia. rewrite Z.pow_add_r in Hlt by lia.
      pose proof (pow10_pos sh H0). subst v. apply Z.mul_lt_mono_pos_r in Hlt; done.
    + split; [|lia]. destruct (dec_value_range _ Hc) as [Hp _]. apply Z.le_antisymm; [|done].
      assert (10 ^ capacity <= 10 ^ sh) by (apply Z.pow_le_mono_r; lia). pose proof (pow10_pos sh H0). nia.
  - left. exists (coefficient ++ replicate (Z.to_nat sh) x30). unfold repeat_zero, maxAlloc.
    destruct (Z.ltb_spec sh 0); [lia|]. destruct (Z.ltb_spec (2 ^ 48) sh); [lia|]. cbn [orb mbind outcome_bind].
    split_and!; [done| | |].
    + apply all_digits_app. split; [done|]. by apply Forall_replicate.
    + by destruct coefficient.
    + rewrite dec_value_app, dec_value_zeros, Z.pow_0_r. unfold zlen. rewrite length_replicate, Z2Nat.id by lia. lia.
Qed.

Lemma shift_down coefficient sh capacity :
  all_digits coefficient -> coefficient <> [] -> zlen coefficient <= 4096 ->
  - 2 ^ 62 - 5000 <= sh < 0 -> 1 <= capacity <= 31 -> shift_outcome coefficient sh capacity.
Proof.
  intros Hc Hne Hl Hsh Hcap. unfold shift_outcome, scaled_text. destruct (Z.leb_spec 0 sh) as [H0|H0]; [lia|].
  rewrite (int64_small (- sh)) by (unfold is_i64; lia). pose proof (zlen_nonneg coefficient).
  rewrite int64_small by (unfold is_i64; lia). replace (Z.max 0 sh) with 0 by lia. replace (Z.max 0 (- sh)) with (- sh) by lia.
  set (k := if zlen coefficient - - sh <? 0 then 0 else zlen coefficient - - sh).
  assert (0 <= k <= zlen coefficient /\ (k = zlen coefficient + sh \/ k = 0 /\ zlen coefficient < - sh)) as [Hk1 Hk2]
    by (subst k; case_tests; lia).
  clearbody k.
  destruct (cut_prefix (Z.to_nat k) coefficient) as (p & q & -> & Hp); [unfold zlen in *; lia|].
  assert (zlen p = k) as Hpk by (unfold zlen; lia). apply all_digits_app in Hc as [Hdp Hdq].
  rewrite go_from_app by done. cbn [mbind outcome_bind]. rewrite Z.pow_0_r, Z.mul_1_r.
  rewrite dec_value_app, contains_nonzero_value by done. destruct (Z.eqb_spec (dec_value q) 0) as [Eq|Nq]; cbn [negb].
  - left. replace (go_slice (p ++ q) 0 k) with (Ok p : res bytes).
    2: { symmetry. apply (go_slice_mid [] p q); [done|by change (zlen (@nil byte)) with 0]. }
    cbn [mbind outcome_bind]. rewrite zlen_app in *.
    destruct p as [|c p].
    + exists [x30]. split_and!; [done|by repeat constructor|done|]. rewrite Eq. by vm_compute.
    + exists (c :: p). split_and!; [done..|]. rewrite Eq, Z.add_0_r. do 2 f_equal.
      assert (0 < zlen (c :: p)) by (unfold zlen; cbn; lia). lia.
  - right. split; [done|]. intros v Hv Hlt. exfalso. destruct (dec_value_range q Hdq) as [R1 R2]. rewrite zlen_app in *.
    replace (- sh) with (- sh - zlen q + zlen q) in Hv by lia. rewrite Z.pow_add_r in Hv by (pose proof (zlen_nonneg q); lia).
    assert (dec_value q = (v * 10 ^ (- sh - zlen q) - dec_value p) * 10 ^ zlen q) as E
      by (rewrite Z.mul_sub_distr_r, <- Z.mul_assoc; lia).
  assert (dec_value q mod 10 ^ zlen q = 0) as Em by (rewrite E; apply Z.mod_mul; lia). by rewrite Z.mod_small in Em.
Qed.

Lemma shifted_digits coefficient sh capacity :
  all_digits coefficient -> coefficient <> [] -> zlen coefficient <= 4096 ->
  - 2 ^ 62 - 5000 <= sh <= 2 ^ 62 + 5000 -> 1 <= capacity <= 31 -> shift_outcome coefficient sh capacity.
Proof. intros. destruct (Z.le_gt_cases 0 sh); [apply shift_up|apply shift_down]; first [done|lia]. Qed.

(** ** The pattern *)
Lemma take_sign_inv s sign rest : take_sign s = (sign, rest) -> s = sign ++ rest.
Proof. unfold take_sign. destruct s as [|b s]; [by intros [= <- <-]|]. destruct (is_sign b); by intros [= <- <-]. Qed.

Lemma mantissa_inv s a b c rest :
  match_mantissa s = Some (a, b, c, rest) ->
  all_digits a /\ all_digits b /\ all_digits c /\ (b = [] \/ c = []) /\ a ++ b ++ c <> [] /\ zlen a + zlen b + zlen c <= zlen s.
Proof.
  unfold match_mantissa. destruct (span is_digit s) as [int s1] eqn:E1. apply span_inv in E1 as (-> & Hd & _).
  destruct int as [|i int].
  - destruct s1 as [|p s1]; [done|]. destruct p; try done.
    destruct (span is_digit s1) as [fr s2] eqn:E2. apply span_inv in E2 as (-> & Hf & _).
    destruct fr as [|f fr]; [done|]. intros [= <- <- <- <-]. split_and!; try done; [by left|len_lia].
  - destruct s1 as [|p s1].
    + intros [= <- <- <- <-].  split_and!; try done; [by left|len_lia].
    + destruct (decide (p = x2e)) as [->|Hp].
      * destruct (span is_digit s1) as [fr s2] eqn:E2. apply span_inv in E2 as (-> & Hf & _). intros [= <- <- <- <-].
        split_and!; try done; [by right|len_lia].
      * intros Hm. assert (Some (i :: int, @nil byte, @nil byte, p :: s1) = Some (a, b, c, rest)) as [= <- <- <- <-]
          by (rewrite <- Hm; by destruct p).
        split_and!; try done; [by left|len_lia].
Qed.

(** The groups of a match: digits, with at least one in the coefficient. *)
Lemma pattern_groups text m :
  decimalPattern text = Some m ->
  all_digits (m2 m) /\ all_digits (fraction_of m) /\ m2 m ++ fraction_of m <> [] /\
  zlen (m2 m ++ fraction_of m) <= zlen text.
Proof.
  unfold decimalPattern. destruct (take_sign text) as [sign s] eqn:Es. apply take_sign_inv in Es as ->.
  destruct (match_mantissa s) as [[[[a b] c] s1]|] eqn:Em; [|done].
  destruct (match_exponent s1) as [e|]; [|done]. intros [= <-].
  destruct (mantissa_inv _ _ _ _ _ Em) as (Ha & Hb & Hc & Hbc & Hne & Hl).
  assert (fraction_of (mkSubmatch sign a b c e) = b ++ c) as ->.
  { unfold fraction_of. cbn. destruct b; [done|]. destruct Hbc as [Hbc|Hbc]; [done|]. by rewrite Hbc, app_nil_r. }
  cbn. rewrite !zlen_app. pose proof (zlen_nonneg sign). split_and!; try done; [by apply all_digits_app|lia].
Qed.

Lemma geometry_inv bl dec cap :
  packedGeometry bl dec = Ok cap -> 1 <= bl <= 16 /\ cap = 2 * bl - 1 /\ 0 <= dec <= 14 /\ dec <= cap.
Proof.
  unfold packedGeometry. cbv zeta. destruct (Z.ltb_spec bl 1); [done|]. destruct (Z.ltb_spec 16 bl); [done|]. cbn [orb].
  destruct (Z.ltb_spec dec 0); [done|]. destruct (Z.ltb_spec (bl * 2 - 1) 14); cbn [orb];
    match goal with |- context [?a <? dec] => destruct (Z.ltb_spec a dec) end; intros [= <-]; lia.
Qed.

(** From the shifted text to the packed bytes. *)
Lemma pack_scaled neg t bl :
  1 <= bl <= 16 -> all_digits t -> t <> [] -> dec_value t < 10 ^ (2 * bl - 1) ->
  let sig := trimLeadingZeros t in
  let v := if neg : bool then - dec_value t else dec_value t in
  zlen sig <= 2 * bl - 1 /\
  exists out,
    pack_loop (Z.to_nat bl) 0 (padStartZeros sig (2 * bl - 1) ++ [if neg && contains_nonzero sig then x44 else x43]) = Ok out /\
    zlen out = bl /\ packed_int out = Some v /\ canonical out.
Proof.
  intros Hbl Ht Hne Hv sig v. assert (zlen sig <= 2 * bl - 1) as Hl by (apply trim_fits; first [done|lia]).
  split; [done|]. destruct (trim_digits t Ht Hne) as (Hs & Hsv & _). fold sig in Hs, Hsv.
  destruct (pad_digits sig (2 * bl - 1) Hs Hl) as (Hd & Hdl & Hdv).
  rewrite contains_nonzero_value, Hsv by done. pose proof (dec_value_range t Ht) as [Hp _].
  set (s := if neg && negb (dec_value t =? 0) then 13 else 12).
  replace (if neg && negb (dec_value t =? 0) then x44 else x43) with (hex_char s)
    by (subst s; by destruct (neg && negb (dec_value t =? 0))).
  destruct (pack_int (Z.to_nat bl) (padStartZeros sig (2 * bl - 1)) s) as (out & E1 & E2 & E3 & E4);
    [unfold zlen in Hdl; lia|lia|done|subst s; destruct (_ && _); auto|].
  rewrite Hdv, Hsv in E4. assert ((if s =? 13 then - dec_value t else dec_value t) = v) as Ev.
  { subst s v. destruct neg; [|done]. destruct (Z.eqb_spec (dec_value t) 0) as [->|]; done. }
  exists out. split_and!; [done|unfold zlen; lia|by rewrite E4, Ev|]. exists v. rewrite E4, Ev, E3. split; [done|]. f_equal.
  subst s v. destruct neg; cbn [andb].
  - destruct (Z.eqb_spec (dec_value t) 0) as [->|]; [done|]. by destruct (Z.ltb_spec (- dec_value t) 0); [|lia].
  - by destruct (Z.ltb_spec (dec_value t) 0); [lia|].
Qed.

(** The encoder on a text that matches the pattern. *)
Lemma encode_exact text bl dec m e :
  text <> [] -> zlen text <= maxPackedDecimalTextLength -> is_Ok (packedGeometry bl dec) ->
  decimalPattern text = Some m -> exponent_of (m5 m) = (e, true) -> - 2 ^ 62 <= e <= 2 ^ 62 ->
  EncodePackedDecimal text bl dec <> Panic /\
  (forall out, EncodePackedDecimal text bl dec = Ok out ->
     zlen out = bl /\ canonical out /\ exists v, packed_int out = Some v /\ scaled_value m e dec v) /\
  (forall v, scaled_value m e dec v -> Z.abs v < 10 ^ (2 * bl - 1) ->
     v <> 0 \/ e + dec - zlen (fraction_of m) <= 2 * bl - 1 ->
     exists out, EncodePackedDecimal text bl dec = Ok out /\ packed_int out = Some v).
Proof.
  intros Hne Hlen [cap Hg] Hm He Hb. pose proof (geometry_inv _ _ _ Hg) as (Hbl & -> & Hdec & _).
  destruct (pattern_groups _ _ Hm) as (H2 & Hf & Hc & Hcl). unfold maxPackedDecimalTextLength in Hlen.
  assert (zlen (fraction_of m) <= 4096) as Hfl by (rewrite zlen_app in Hcl; pose proof (zlen_nonneg (m2 m)); lia).
  pose proof (zlen_nonneg (fraction_of m)).
  unfold EncodePackedDecimal. rewrite Hg. cbn [mbind outcome_bind]. destruct text as [|b0 text0] eqn:Et; [done|]. rewrite <- Et in *.
  destruct (Z.ltb_spec maxPackedDecimalTextLength (zlen text)) as [Hx|_]; [unfold maxPackedDecimalTextLength in Hx; lia|].
  unfold scaledDigits. rewrite Hm, He. cbn [negb]. rewrite (int64_small (e + dec)) by (unfold is_i64; lia).
  rewrite int64_small by (unfold is_i64; lia). unfold scaled_value. cbv zeta.
  set (sh := e + dec - zlen (fraction_of m)). set (neg := bool_decide (m1 m = [x2d])). set (co := m2 m ++ fraction_of m) in *.
  destruct (dec_value_range co ltac:(by apply all_digits_app)) as [Hco _].
  pose proof (pow10_pos (Z.max 0 (- sh)) ltac:(lia)). pose proof (pow10_pos (Z.max 0 sh) ltac:(lia)).
  destruct (shifted_digits co sh (2 * bl - 1)) as [(t & -> & Ht & Htn & Htv)|[-> Hno]]; [by apply all_digits_app|done|lia|lia|lia| |].
  - cbn [mbind outcome_bind]. destruct (dec_value_range t Ht) as [Hp _].
    destruct (Z.ltb_spec (2 * bl - 1) (zlen (trimLeadingZeros t))) as [Hbig|Hfit]; cbn [mbind outcome_bind s_digits s_negative].
    + split_and!; [done|done|]. intros v Hv Hab _. exfalso. assert (10 ^ (2 * bl - 1) <= dec_value t) as Hge.
      { apply Z.nlt_ge. intros Hlt. apply trim_fits in Hlt; [lia|done|done|lia]. }
      assert (v = dec_value t \/ v = - dec_value t) as Hvv; [|lia].
      destruct neg; [right|left]; apply (Z.mul_cancel_r _ _ (10 ^ Z.max 0 (- sh))); lia.
    + assert (dec_value t < 10 ^ (2 * bl - 1)) as Hlt by (apply trim_fits; first [done|lia]).
      destruct (pack_scaled neg t bl Hbl Ht Htn Hlt) as (_ & out & Ho & Hol & Hoi & Hoc). rewrite Ho.
      split_and!; [done| |].
      * intros out' [= <-]. split_and!; try done. exists (if neg then - dec_value t else dec_value t). split; [done|]. destruct neg; lia.
      * intros v Hv _ _. exists out. split; [done|]. rewrite Hoi. f_equal.
        apply (Z.mul_cancel_r _ _ (10 ^ Z.max 0 (- sh))); [lia|]. destruct neg; lia.
  - cbn [mbind outcome_bind]. split_and!; [done|done|]. intros v Hv Hab Hz. exfalso.
    destruct (Hno (Z.abs v)) as [Hz0 Hsh]; [|lia|].
    + rewrite <- (Z.abs_eq (10 ^ Z.max 0 (- sh))), <- Z.abs_mul, Hv by lia. destruct neg; lia.
    + rewrite Hz0 in Hv. destruct Hz as [Hz|Hz]; [|lia]. destruct neg; lia.
Qed.

(** ** Decoding *)
Definition decoded_text (neg : bool) (ds : bytes) (dec : Z) : bytes :=
  let k := Z.to_nat (zlen ds - dec) in
  let int := if dec =? 0 then ds else if dec <? zlen ds then take k ds else [x30] in
  (if neg && contains_nonzero ds then [x2d] else []) ++ trimLeadingZeros int ++
  (if dec =? 0 then [] else x2e :: drop k ds).

Lemma neg_not_pos s : neg_nibble s = true -> pos_nibble s = false.
Proof.
  unfold neg_nibble, pos_nibble. intros H%bool_decide_eq_true.
  apply list_elem_of_In in H. destruct H as [<-|[<-|[]]]; by vm_compute.
Qed.

Lemma decode_parts b dec ns s :
  is_Ok (packedGeometry (zlen b) dec) -> 0 <= s < 16 -> Forall (fun d => 0 <= d < 16) ns ->
  hex_upper b = map hex_char ns ++ [hex_char s] -> zlen ns = 2 * zlen b - 1 ->
  DecodePackedDecimal b dec
  = if forallb (fun d => d <? 10) ns && (pos_nibble s || neg_nibble s)
    then Ok (decoded_text (neg_nibble s) (map hex_char ns) dec) else Err errPackedDecode.
Proof.
  intros [cap Hg] Hs Hr Hu Hl. unfold DecodePackedDecimal. rewrite Hg. cbn [mbind outcome_bind].
  destruct (geometry_inv _ _ _ Hg) as (Hb & -> & Hd & Hdc). rewrite Hu. set (ds := map hex_char ns).
  assert (zlen ds = 2 * zlen b - 1) as Hds by (unfold ds, zlen in *; rewrite length_map; lia).
  assert (go_slice (ds ++ [hex_char s]) 0 (2 * zlen b - 1) = (Ok ds : res bytes)) as ->
    by (apply (go_slice_mid [] ds); [done|change (zlen (@nil byte)) with 0; lia]).
  cbn [mbind outcome_bind]. destruct (nibble_text ns Hr) as [Hnt _]. fold ds in Hnt. rewrite Hnt.
  destruct (Z.ltb_spec 0 (zlen ds)); [|lia]. destruct (forallb (fun d => d <? 10) ns); cbn [andb negb]; [|done].
  rewrite (go_index_mid ds) by (rewrite zlen_app; change (zlen [hex_char s]) with 1; lia). cbn [mbind outcome_bind].
  destruct (sign_chars s Hs) as [-> ->]. rewrite <- negb_orb.
  destruct (pos_nibble s || neg_nibble s); cbn [negb]; [|done]. unfold decoded_text.
  destruct (Z.eqb_spec dec 0) as [->|Hnz]; [done|].
  assert (go_from ds (zlen ds - dec) = (Ok (drop (Z.to_nat (zlen ds - dec)) ds) : res bytes)) as Hf.
  { unfold go_from. rewrite go_slice_ok by lia. f_equal. apply take_ge. unfold zlen in *. rewrite length_drop. lia. }
  destruct (Z.ltb_spec dec (zlen ds)) as [Hlt|Hge].
  - rewrite go_slice_ok by lia. cbn [mbind outcome_bind]. rewrite Hf. cbn [mbind outcome_bind].
    rewrite Z.sub_0_r. by change (Z.to_nat 0) with O.
  - cbn [mbind outcome_bind]. rewrite Hf. done.
Qed.

(** What the decoder writes matches the pattern and has the value of the digits. *)
Lemma decoded_text_pattern neg ds dec :
  all_digits ds -> 0 <= dec <= zlen ds -> 1 <= zlen ds <= 31 ->
  let neg' := neg && contains_nonzero ds in
  exists m, decimalPattern (decoded_text neg ds dec) = Some m /\ m5 m = [] /\
    m1 m = (if neg' then [x2d] else []) /\ zlen (fraction_of m) = dec /\
    dec_value (m2 m ++ fraction_of m) = dec_value ds /\ decoded_text neg ds dec <> [] /\ zlen (decoded_text neg ds dec) <= 64.
Proof.
  intros Hd Hdec Hl neg'. unfold decoded_text. fold neg'. set (k := Z.to_nat (zlen ds - dec)).
  set (int := if dec =? 0 then ds else if dec <? zlen ds then take k ds else [x30]).
  set (fr := drop k ds).
  assert (all_digits int /\ int <> [] /\ zlen int <= 31) as (Hi & Hin & Hil).
  { subst int k. destruct (Z.eqb_spec dec 0); [split_and!; [done| |lia]; intros E; rewrite E in Hl; len_lia|].
    destruct (Z.ltb_spec dec (zlen ds)); [|split_and!; [by repeat constructor|done|len_lia]].
    split_and!; [by apply Forall_take| |len_lia]. intros E%(f_equal length). unfold zlen in *. rewrite length_take in E. cbn in E. lia. }
  assert (all_digits fr /\ zlen fr = dec) as [Hf Hfl].
  { subst fr k. split; [by apply Forall_drop|len_lia]. }
  assert (dec_value int * 10 ^ dec + dec_value fr = dec_value ds) as Hv.
  { subst int fr. destruct (Z.eqb_spec dec 0) as [->|].
    { unfold k. rewrite drop_ge by (unfold zlen; lia). cbn. lia. }
    pose proof (dec_value_app (take k ds) (drop k ds)) as E. rewrite take_drop, Hfl in E. rewrite E.
    destruct (Z.ltb_spec dec (zlen ds)); [done|]. replace k with O by lia. rewrite take_0. by change (dec_value [x30]) with 0. }
  destruct (trim_digits int Hi Hin) as (Ht & Htv & Htl). destruct (trim_spec int Hin) as (_ & _ & Htn & _).
  set (t := trimLeadingZeros int) in *. destruct t as [|t0 t'] eqn:Et; [done|]. rewrite <- Et in *. clearbody t.
  assert (is_sign t0 = false) as Hts.
  { rewrite Et in Ht. apply Forall_cons in Ht as [H0 _]. unfold is_digit in H0. apply in_range_spec in H0.
    unfold is_sign. do 2 (case_bool_decide; [subst t0; change (b2z x2b) with 43 in H0; change (b2z x2d) with 45 in H0; lia|]). done. }
  assert (forall rest, take_sign ((if neg' then [x2d] else []) ++ t ++ rest) = (if neg' then [x2d] else [], t ++ rest)) as Hsign.
  { intros rest. rewrite Et. destruct neg'; [done|]. cbn. by rewrite Hts. }
  destruct (Z.eqb_spec dec 0) as [Ez|Ez].
  - exists (mkSubmatch (if neg' then [x2d] else []) t [] [] []). unfold decimalPattern, match_mantissa. rewrite Hsign.
    rewrite span_app by done. rewrite Et. cbn [app]. rewrite <- Et.
    assert (fr = []) as Hfr by (apply length_zero_iff_nil; unfold zlen in Hfl; lia).
    rewrite Hfr, Ez, Z.pow_0_r in Hv. cbn [m1 m2 m5 fraction_of m3 m4]. rewrite !app_nil_r. cbn in Hv.
    split_and!; try done; [by destruct neg'|]. rewrite Et in Htl. clearbody int. destruct neg'; len_lia.
  - exists (mkSubmatch (if neg' then [x2d] else []) t fr [] []). unfold decimalPattern, match_mantissa. rewrite Hsign.
    rewrite span_app by done. rewrite Et. cbn [app]. rewrite <- Et.
    assert (span is_digit fr = (fr, [])) as -> by (rewrite <- (app_nil_r fr) at 1; by apply span_app).
    assert (fr <> []) as Hfn by (intros E; rewrite E in Hfl; len_lia).
    assert (fraction_of (mkSubmatch (if neg' then [x2d] else []) t fr [] []) = fr) as -> by (unfold fraction_of; cbn; by destruct fr).
    cbn [match_exponent m1 m2 m5].
    split_and!; try done; [rewrite dec_value_app; by rewrite Hfl, Htv|by destruct neg'|]. rewrite Et in Htl. clearbody int fr. destruct neg'; len_lia.
Qed.

(** ** The codec *)
Lemma sign_nibbles : pos_nibble 12 = true /\ pos_nibble 13 = false /\ neg_nibble 13 = true /\ neg_nibble 12 = false.
Proof. by vm_compute. Qed.

Lemma canonical_inj b c :
  canonical b -> canonical c -> length b = length c -> packed_int b = packed_int c -> b = c.
Proof.
  intros (v & Hb & Lb) (w & Hc & Lc) Hl E. rewrite Hb, Hc in E. injection E as <-.
  destruct b as [|b0 b']; [by destruct c|]. destruct c as [|c0 c']; [done|].
  set (b := b0 :: b') in *. set (c := c0 :: c') in *.
  destruct (packed_parts b ltac:(done)) as (nb & sb & Eb & Rb & Nb & Ub & Zb & Pb).
  destruct (packed_parts c ltac:(done)) as (nc & sc & Ec & Rc & Nc & Uc & Zc & Pc).
  rewrite Eb, last_snoc in Lb. rewrite Ec, last_snoc in Lc. injection Lb as Lb. injection Lc as Lc.
  rewrite Hb in Pb. rewrite Hc in Pc.
  destruct (forallb (fun d => d <? 10) nb) eqn:Fb; [|done]. destruct (forallb (fun d => d <? 10) nc) eqn:Fc; [|done].
  destruct (nibble_text nb Nb) as [Db Vb]. destruct (nibble_text nc Nc) as [Dc Vc]. rewrite Fb in Db. rewrite Fc in Dc.
  apply forallb_digits in Db, Dc.
  assert (map hex_char nb = map hex_char nc) as Em.
  { apply dec_value_inj; [done|done| |].
    - rewrite !length_map. unfold zlen in *. lia.
    - rewrite Vb, Vc by done. rewrite Lb in Pb. rewrite Lc in Pc.
      destruct sign_nibbles as (S1 & S2 & S3 & _). destruct (v <? 0); rewrite ?S1, ?S2, ?S3 in Pb, Pc;
        injection Pb as Pb; injection Pc as Pc; lia. }
  assert (hex_upper b = hex_upper c) as Eu by (rewrite Ub, Uc, Em, Lb, Lc; done).
  apply (Ok_inj (E := error)). rewrite <- (pack_hex_upper b [] 0), <- (pack_hex_upper c [] 0) by done. by rewrite Eu, Hl.
Qed.

(** C19: A decimal text whose exponent is moderate never panics the packed encoder; what it
    returns has the width asked for and holds exactly the scaled value; and every
    representable value of moderate shift is encoded. *)
Theorem packed_encode_value text bl dec m e :
  text <> [] -> zlen text <= maxPackedDecimalTextLength -> is_Ok (packedGeometry bl dec) ->
  decimalPattern text = Some m -> exponent_of (m5 m) = (e, true) -> - 2 ^ 62 <= e <= 2 ^ 62 ->
  EncodePackedDecimal text bl dec <> Panic /\
  (forall out, EncodePackedDecimal text bl dec = Ok out ->
     zlen out = bl /\ canonical out /\ exists v, packed_int out = Some v /\ scaled_value m e dec v) /\
  (forall v, scaled_value m e dec v -> Z.abs v < 10 ^ (2 * bl - 1) ->
     v <> 0 \/ e + dec - zlen (fraction_of m) <= 2 * bl - 1 ->
     exists out, EncodePackedDecimal text bl dec = Ok out /\ packed_int out = Some v).
Proof. apply encode_exact. Qed.

(** The integer of a sign and digits. *)
Definition signed (neg : bool) (ds : bytes) : Z := if neg && contains_nonzero ds then - dec_value ds else dec_value ds.

(** A field either decodes to the text of its integer or is refused. *)
Lemma decode_signed b dec :
  is_Ok (packedGeometry (zlen b) dec) ->
  (DecodePackedDecimal b dec = Err errPackedDecode /\ packed_int b = None) \/
  exists neg ds, all_digits ds /\ zlen ds = 2 * zlen b - 1 /\
    DecodePackedDecimal b dec = Ok (decoded_text neg ds dec) /\ packed_int b = Some (signed neg ds).
Proof.
  intros Hok. pose proof Hok as [cap Hg]. destruct (geometry_inv _ _ _ Hg) as (Hbl & -> & _).
  destruct (packed_parts b) as (ns & sg & _ & Hsg & Hns & Hu & Hz & Hp); [by destruct b|].
  rewrite (decode_parts b dec ns sg Hok Hsg Hns Hu Hz), Hp. destruct (nibble_text ns Hns) as [Hdig Hval].
  destruct (forallb (fun d => d <? 10) ns) eqn:Ef; cbn [andb]; [|by left].
  apply forallb_digits in Hdig. specialize (Hval eq_refl).
  destruct (pos_nibble sg || neg_nibble sg) eqn:Es; [|left; by apply orb_false_iff in Es as [-> ->]].
  right. exists (neg_nibble sg), (map hex_char ns). split_and!; try done; [unfold zlen in *; by rewrite length_map|].
  unfold signed. rewrite <- Hval, contains_nonzero_value by done. destruct (neg_nibble sg) eqn:En1.
  - rewrite (neg_not_pos _ En1). by destruct (Z.eqb_spec (dec_value (map hex_char ns)) 0) as [->|].
  - rewrite orb_false_r in Es. by rewrite Es.
Qed.

(** The text depends on the integer and the width only. *)
Lemma decoded_text_signed neg ds neg' ds' dec :
  all_digits ds -> all_digits ds' -> zlen ds = zlen ds' -> signed neg ds = signed neg' ds' ->
  decoded_text neg ds dec = decoded_text neg' ds' dec.
Proof.
  intros Hd Hd' Hl Hs. pose proof (dec_value_range ds Hd) as [H0 _]. pose proof (dec_value_range ds' Hd') as [H1 _].
  unfold signed in Hs. rewrite !contains_nonzero_value in Hs by done.
  assert (ds = ds') as <-.
  { apply dec_value_inj; [done|done|unfold zlen in Hl; lia|]. revert Hs.
    destruct neg, neg', (Z.eqb_spec (dec_value ds) 0), (Z.eqb_spec (dec_value ds') 0); cbn [andb negb]; lia. }
  unfold decoded_text. rewrite contains_nonzero_value by done. revert Hs.
  destruct neg, neg', (Z.eqb_spec (dec_value ds) 0); cbn [andb negb]; intros Hs; first [lia|done].
Qed.

(** The encoder on what the decoder writes. *)
Lemma encode_decoded neg ds bl dec :
  is_Ok (packedGeometry bl dec) -> all_digits ds -> zlen ds = 2 * bl - 1 ->
  exists c, EncodePackedDecimal (decoded_text neg ds dec) bl dec = Ok c /\ zlen c = bl /\ canonical c /\
    packed_int c = Some (signed neg ds).
Proof.
  intros Hok Hd Hl. pose proof Hok as [cap Hg]. destruct (geometry_inv _ _ _ Hg) as (Hbl & -> & Hdec & Hdc).
  destruct (decoded_text_pattern neg ds dec) as (m & Hm & H5 & H1 & Hf & Hmv & Hne & Hl64); [done|lia|lia|].
  destruct (encode_exact _ bl dec m 0 Hne ltac:(unfold maxPackedDecimalTextLength; lia) Hok Hm
              ltac:(by rewrite H5) ltac:(lia)) as (_ & Hs & Hc).
  destruct (dec_value_range ds Hd) as [Hv0 Hv1]. rewrite Hl in Hv1. set (v := signed neg ds).
  assert (scaled_value m 0 dec v) as Hsv.
  { unfold scaled_value, v, signed. rewrite Hf, Hmv, H1. replace (0 + dec - dec) with 0 by lia. cbn.
    by destruct (neg && contains_nonzero ds). }
  destruct (Hc v Hsv) as (c & Hec & Hpc); [unfold v, signed; destruct (neg && contains_nonzero ds); lia|rewrite Hf; lia|].
  destruct (Hs c Hec) as (Hcl & Hcan & _). by exists c.
Qed.

Lemma packed_reencode b dec :
  is_Ok (packedGeometry (zlen b) dec) ->
  DecodePackedDecimal b dec <> Panic /\
  (is_Ok (DecodePackedDecimal b dec) <-> packed_int b <> None) /\
  forall s, DecodePackedDecimal b dec = Ok s ->
    exists c, EncodePackedDecimal s (zlen b) dec = Ok c /\ canonical c /\ packed_int c = packed_int b /\
      DecodePackedDecimal c dec = Ok s /\ (canonical b -> c = b).
Proof.
  intros Hok. destruct (decode_signed b dec Hok) as [[-> ->]|(neg & ds & Hd & Hl & -> & Hp)].
  { split_and!; [done| |done]. split; [by intros [? ?]|done]. }
  rewrite Hp. split_and!; [done|split; [done|by eexists]|]. intros s [= <-].
  destruct (encode_decoded neg ds (zlen b) dec Hok Hd Hl) as (c & Hec & Hcl & Hcan & Hpc).
  exists c. split_and!; try done.
  - destruct (decode_signed c dec ltac:(by rewrite Hcl)) as [[_ Hn]|(neg' & ds' & Hd' & Hl' & -> & Hp')]; [congruence|].
    f_equal. apply decoded_text_signed; [done|done|lia|congruence].
  - intros Hb. apply canonical_inj; [done|done|unfold zlen in *; lia|congruence].
Qed.

(** A packed field decodes exactly when its nibbles spell a signed integer, and its text
    encodes to the canonical field of the same integer. *)
Theorem packed_decode_encode b dec :
  is_Ok (packedGeometry (zlen b) dec) ->
  DecodePackedDecimal b dec <> Panic /\
  (is_Ok (DecodePackedDecimal b dec) <-> packed_int b <> None) /\
  forall s, DecodePackedDecimal b dec = Ok s ->
    exists c, EncodePackedDecimal s (zlen b) dec = Ok c /\ canonical c /\ packed_int c = packed_int b /\
      DecodePackedDecimal c dec = Ok s /\ (canonical b -> c = b).
Proof. apply packed_reencode. Qed.

(** Whatever the encoder returns is a canonical field of the width asked for. *)
Lemma scaled_text_digits co sh cap t :
  all_digits co -> co <> [] -> scaled_text co sh cap = Ok t -> all_digits t /\ t <> [].
Proof.
  intros Hd Hne. unfold scaled_text. destruct (0 <=? sh).
  - destruct (_ <? _); [done|]. unfold repeat_zero. destruct ((sh <? 0) || _); [done|]. cbn [mbind outcome_bind].
    intros H%Ok_inj. subst t. split; [|by destruct co]. apply Forall_app. split; [done|]. by apply Forall_replicate.
  - cbv zeta. intros H. ok_step H as lost Hl. destruct (contains_nonzero lost); [done|]. ok_step H as text Ht. apply Ok_inj in H.
    unfold go_slice in Ht. destruct ((_ <? _) || _ || _); [done|]. apply Ok_inj in Ht.
    assert (all_digits text) as Hx by (subst text; by apply Forall_take, Forall_drop).
    subst t. destruct text; [split; [by repeat constructor|done]|done].
Qed.

Lemma encode_canonical text bl dec out :
  EncodePackedDecimal text bl dec = Ok out -> is_Ok (packedGeometry bl dec) /\ zlen out = bl /\ canonical out.
Proof.
  unfold EncodePackedDecimal. intros H. ok_step H as cap Hg. split; [by eexists|]. destruct (geometry_inv _ _ _ Hg) as (Hbl & -> & _).
  set (v := match text with [] => [x30] | _ => text end) in H. destruct (_ <? zlen v); [done|]. ok_step H as s Hs.
  assert (exists t neg, all_digits t /\ t <> [] /\ zlen (trimLeadingZeros t) <= 2 * bl - 1 /\
    s = mkScaled (trimLeadingZeros t) (neg && contains_nonzero (trimLeadingZeros t))) as (t & neg & Ht & Htn & Hl & ->).
  { unfold scaledDigits in Hs. destruct (decimalPattern v) as [m|] eqn:Em; [|done]. cbv zeta in Hs.
    destruct (pattern_groups _ _ Em) as (H2 & Hf & Hc & _). destruct (exponent_of (m5 m)) as [e ok]. destruct ok; cbn [negb] in Hs.
    - ok_step Hs as t Ht. apply scaled_text_digits in Ht as [Ht Htn]; [|by apply all_digits_app|done].
      destruct (Z.ltb_spec (2 * bl - 1) (zlen (trimLeadingZeros t))); [done|]. apply Ok_inj in Hs. subst s. by exists t, (bool_decide (m1 m = [x2d])).
    - destruct (contains_nonzero _) in Hs; [done|]. apply Ok_inj in Hs. subst s. exists [x30], false.
      split; [by apply Forall_singleton|]. split; [done|]. split; [change (zlen (trimLeadingZeros [x30])) with 1; lia|done]. }
  cbn [s_digits s_negative] in H. destruct (trim_digits t Ht Htn) as (Hd & Hv & _).
  assert (dec_value t < 10 ^ (2 * bl - 1)) as Hlt.
  { rewrite <- Hv. destruct (dec_value_range _ Hd) as [_ Hr]. eapply Z.lt_le_trans; [exact Hr|]. apply Z.pow_le_mono_r; lia. }
  destruct (pack_scaled neg t bl Hbl Ht Htn Hlt) as (_ & out' & Ho & Hol & _ & Hoc). rewrite Ho in H. apply Ok_inj in H. by subst out'.
Qed.

(** The text of what the encoder returned encodes to the same bytes. *)
Lemma packed_text_of text bl dec out :
  EncodePackedDecimal text bl dec = Ok out ->
  exists t, DecodePackedDecimal out dec = Ok t /\ EncodePackedDecimal t bl dec = Ok out.
Proof.
  intros H. destruct (encode_canonical _ _ _ _ H) as (Hg & <- & Hc). destruct (packed_reencode out dec Hg) as (_ & [_ Hok] & Hs).
  destruct Hok as [t Ht]; [by destruct Hc as (v & -> & _)|]. destruct (Hs t Ht) as (c & He & _ & _ & _ & Heq).
  exists t. split; [done|]. by rewrite He, Heq.
Qed.

(** A text with an exponent near the largest integer makes the packed encoder panic: the sum
    of the digits and the shift wraps and the check lets a huge repeat count through. *)
Theorem packed_exponent_panics :
  EncodePackedDecimal (lit "1e9223372036854775807") 5 0 = Panic.
Proof. vm_compute. reflexivity. Qed.

(** ** Instances *)
Lemma packed_encode_value_witness :
  exists m out, decimalPattern (lit "-12.5e1") = Some m /\ EncodePackedDecimal (lit "-12.5e1") 4 2 = Ok out /\
    packed_int out = Some (-12500) /\ scaled_value m 1 2 (-12500).
Proof.
  destruct (decimalPattern (lit "-12.5e1")) as [m|] eqn:Em; [|vm_compute in Em; discriminate].
  destruct (packed_encode_value (lit "-12.5e1") 4 2 m 1) as (_ & _ & H).
  - discriminate.
  - vm_compute. discriminate.
  - exists 7. reflexivity.
  - exact Em.
  - vm_compute in Em. injection Em as <-. reflexivity.
  - lia.
  - exists m. assert (scaled_value m 1 2 (-12500)) as Hs by (vm_compute in Em; injection Em as <-; reflexivity).
    destruct (H (-12500) Hs) as (out & Ho & Hp); [vm_compute; reflexivity|left; lia|].
    exists out. split_and!; [reflexivity|exact Ho|exact Hp|exact Hs].
Defined.

(** A negative field with the sign nibble B: it decodes, and encodes with D. *)
Lemma packed_decode_encode_witness :
  exists c, DecodePackedDecimal [x01; x25; x0b] 2 = Ok (lit "-12.50") /\
    EncodePackedDecimal (lit "-12.50") 3 2 = Ok c /\ DecodePackedDecimal c 2 = Ok (lit "-12.50").
Proof.
  destruct (packed_decode_encode [x01; x25; x0b] 2) as (_ & _ & H); [by exists 5|].
  destruct (H (lit "-12.50")) as (c & Hc & _ & _ & Hd & _); [vm_compute; reflexivity|].
  exists c. split_and!; [vm_compute; reflexivity|exact Hc|exact Hd].
Defined.
