(* ===== verification/Float64.v ===== *)
(** The 64-bit floating-point numbers of packages math and strconv, as internal/xrfc uses
    them: the text of a finite number and the number of a text.

    A number is its bits.  [ParseFloat] of a text that the decimal pattern accepts is the
    exact value rounded to the nearest number, ties to even; it fails when that is infinite.
    [FormatFloat] with format g and precision -1 writes the shortest decimal that reads back
    as the number, the closest to it among those.  The search tries one to seventeen digits.

    The theorem: seventeen digits are always enough, so every finite number reads back from
    its text; its sign too, for the zeros. *)
From stdpp Require Import base list numbers strings pretty.
From Stdlib Require Import ZArith Lia Strings.Byte.
From S2P Require Import Prelude Errors Text PackedDecimal.

Open Scope Z_scope.

(** ** Rounding *)
(** The quotient of two numbers rounded to the nearest integer, ties to even. *)
Definition round_even (a b : Z) : Z :=
  let q := a / b in
  let r := a mod b in
  if 2 * r <? b then q else if b <? 2 * r then q + 1 else if Z.even q then q else q + 1.

(** The bits of the number nearest to [a / b]: the exponent field and the significand added,
    so that a carry of the rounding goes into the exponent.  All numbers are multiples of
    [2 ^ -1074]. *)
Definition round64 (a b : Z) : Z :=
  let y := a * 2 ^ 1074 in
  let e := Z.max 0 (Z.log2 (y / b) - 52) in
  e * 2 ^ 52 + round_even y (b * 2 ^ e).

Definition infinite : Z := 2047 * 2 ^ 52.

(** The exponent and significand of bits without the sign: the value is
    [significand * 2 ^ exponent / 2 ^ 1074]. *)
Definition exponent64 (bits : Z) : Z := Z.max 0 (bits / 2 ^ 52 - 1).
Definition significand64 (bits : Z) : Z := bits - exponent64 bits * 2 ^ 52.
Definition scaled64 (bits : Z) : Z := significand64 bits * 2 ^ exponent64 bits.

(** ** Texts *)
(** The exponent stops growing at 10000. *)
Definition read_exponent (e : bytes) : Z :=
  let '(sign, ds) := take_sign e in
  let v := fold_left (fun acc b => if acc <? 10000 then acc * 10 + digit_value b else acc) ds 0 in
  if bool_decide (sign = [x2d]) then - v else v.

Definition signed_bits (sign : bytes) (bits : Z) : Z := if bool_decide (sign = [x2d]) then 2 ^ 63 + bits else bits.

(** [strconv.ParseFloat(s, 64)] of a text that the pattern accepts. *)
Definition ParseFloat (m : submatch) : option Z :=
  let frac := fraction_of m in
  let c := dec_value (m2 m ++ frac) in
  let t := read_exponent (m5 m) - zlen frac in
  let bits := if 0 <=? t then round64 (c * 10 ^ t) 1 else round64 c (10 ^ (- t)) in
  if infinite <=? bits then None else Some (signed_bits (m1 m) bits).

(** The decimals [c * 10 ^ (s - 400)] next to a number; one of those that read back. *)
Definition pick (bits s : Z) : option Z :=
  let a := scaled64 bits * 10 ^ 400 in
  let d := 2 ^ 1074 * 10 ^ s in
  let q := a / d in
  let reads c := round64 (c * 10 ^ s) (10 ^ 400) =? bits in
  let below := reads q in
  let above := reads (q + 1) in
  if below && above then Some (round_even a d) else if below then Some q else if above then Some (q + 1) else None.

(** The number of decimal digits of a positive number below [10 ^ (n + fuel)], from [pow = 10 ^ n]. *)
Fixpoint count_digits (fuel : nat) (pow n z : Z) : Z :=
  match fuel with
  | O => n
  | S fuel => if z <? pow then n else count_digits fuel (10 * pow) (n + 1) z
  end.

(** The digits before the decimal point of the number times [10 ^ 400], which is below [10 ^ 710]. *)
Definition digits400 (bits : Z) : Z := count_digits 720 10 1 (scaled64 bits * 10 ^ 400 / 2 ^ 1074).

Fixpoint shortest_from (bits n : Z) (tries : nat) : option (Z * Z) :=
  match tries with
  | O => None
  | S tries =>
      let s := digits400 bits - n in
      match pick bits s with
      | Some c => Some (c, s)
      | None => shortest_from bits (n + 1) tries
      end
  end.

Definition shortest (bits : Z) : option (Z * Z) := shortest_from bits 1 17.

(** Digits without the zeros at their end. *)
Fixpoint trim_right_zeros (s : bytes) : bytes :=
  match s with
  | [] => []
  | b :: s => match trim_right_zeros s with [] => if bool_decide (b = x30) then [] else [b] | t => b :: t end
  end.

(** The exponent has at least two digits. *)
Definition exponent_text (exp : Z) : bytes :=
  let ds := lit (pretty (Z.abs exp)) in
  (if exp <? 0 then x2d else x2b) :: (if zlen ds <? 2 then x30 :: ds else ds).

(** Formats e and f with all the digits; the decimal point is behind [dp] of them. *)
Definition fmtE (digs : bytes) (dp : Z) : bytes :=
  match digs with
  | [] => []
  | d :: rest => d :: (match rest with [] => [] | _ => x2e :: rest end) ++ x65 :: exponent_text (dp - 1)
  end.

Definition fmtF (digs : bytes) (dp : Z) : bytes :=
  if dp <=? 0 then x30 :: x2e :: replicate (Z.to_nat (- dp)) x30 ++ digs
  else if zlen digs <=? dp then digs ++ replicate (Z.to_nat (dp - zlen digs)) x30
  else take (Z.to_nat dp) digs ++ x2e :: drop (Z.to_nat dp) digs.

Definition fmtG (digs : bytes) (dp : Z) : bytes :=
  let exp := dp - 1 in
  if (exp <? -4) || (6 <=? exp) then fmtE digs dp else fmtF digs dp.

Definition is_negative (bits : Z) : bool := 2 ^ 63 <=? bits.
Definition magnitude (bits : Z) : Z := if is_negative bits then bits - 2 ^ 63 else bits.

(** [strconv.FormatFloat(f, 'g', -1, 64)] of a finite number that is not zero. *)
Definition FormatFloat (bits : Z) : bytes :=
  let sign := if is_negative bits then [x2d] else [] in
  match shortest (magnitude bits) with
  | Some (c, s) =>
      let ds := lit (pretty c) in
      sign ++ fmtG (trim_right_zeros ds) (zlen ds + s - 400)
  | None => []
  end.

(** ** Runs *)
Definition float_text (s : string) : option Z := m ← decimalPattern (lit s); ParseFloat m.

Example floats_run :
  map float_text ["1"; "0.1"; "1e308"; "-2.5"; "5e-324"; "2e308"; "0.30000000000000004"; "1e-400"]%string
  = [Some 0x3ff0000000000000; Some 0x3fb999999999999a; Some 0x7fe1ccf385ebc8a0; Some 0xc004000000000000; Some 1; None;
     Some 0x3fd3333333333334; Some 0].
Proof. vm_compute. reflexivity. Qed.

Example texts_run :
  map FormatFloat [0x3fb999999999999a; 0xc004000000000000; 0x412e848000000000]
  = map lit ["0.1"; "-2.5"; "1e+06"]%string.
Proof. vm_compute. reflexivity. Qed.

(** ** Rounding to nearest *)
Lemma round_even_exact a b m : 0 < b -> b * (2 * m - 1) < 2 * a < b * (2 * m + 1) -> round_even a b = m.
Proof.
  intros Hb H. unfold round_even. cbv zeta. pose proof (Z.div_mod a b ltac:(lia)) as E. pose proof (Z.mod_pos_bound a b Hb) as Hr.
  set (q := a / b) in *. set (r := a mod b) in *. assert (Hq : q = m \/ q = m - 1) by nia.
  destruct Hq as [->|Hq].
  - destruct (Z.ltb_spec (2 * r) b); [done|]. nia.
  - destruct (Z.ltb_spec (2 * r) b); [nia|]. destruct (Z.ltb_spec b (2 * r)); [lia|]. nia.
Qed.

(** The rounding of a quotient depends on the quotient only. *)
Lemma div_ratio a b a' b' : 0 < b -> 0 < b' -> a * b' = a' * b -> a / b = a' / b'.
Proof. intros Hb Hb' E. rewrite <- (Z.div_mul_cancel_r a b b') by lia. rewrite E, (Z.mul_comm b b'). by rewrite Z.div_mul_cancel_r by lia. Qed.

Lemma mod_ratio a b a' b' : 0 < b -> 0 < b' -> a * b' = a' * b -> (a mod b) * b' = (a' mod b') * b.
Proof.
  intros Hb Hb' E. pose proof (div_ratio a b a' b' Hb Hb' E) as Hq. rewrite (Z.mod_eq a b), (Z.mod_eq a' b') by lia. rewrite Hq. nia.
Qed.

Lemma round_even_ratio a b a' b' : 0 < b -> 0 < b' -> a * b' = a' * b -> round_even a b = round_even a' b'.
Proof.
  intros Hb Hb' E. unfold round_even. cbv zeta. rewrite (div_ratio a b a' b') by done. pose proof (mod_ratio a b a' b' Hb Hb' E) as Hr.
  set (q := a' / b'). set (r := a mod b) in *. set (r' := a' mod b') in *.
  destruct (Z.ltb_spec (2 * r) b), (Z.ltb_spec (2 * r') b'); try done; [nia|nia|].
  destruct (Z.ltb_spec b (2 * r)), (Z.ltb_spec b' (2 * r')); try done; nia.
Qed.

Lemma round64_ratio a b a' b' : 0 < b -> 0 < b' -> a * b' = a' * b -> round64 a b = round64 a' b'.
Proof.
  intros Hb Hb' E. unfold round64. cbv zeta. rewrite (div_ratio (a * 2 ^ 1074) b (a' * 2 ^ 1074) b') by (try done; nia).
  set (e := Z.max 0 _). assert (He : 0 <= e) by lia. clearbody e. f_equal. pose proof (Z.pow_pos_nonneg 2 e ltac:(lia) He).
  apply round_even_ratio; [nia|nia|]. nia.
Qed.

(** ** Canonical numbers *)
(** A positive finite number: its significand is full unless its exponent is the least. *)
Lemma canonical bits :
  0 < bits < infinite ->
  bits = exponent64 bits * 2 ^ 52 + significand64 bits /\ 0 <= exponent64 bits <= 2045 /\ 0 < significand64 bits < 2 ^ 53 /\
  (exponent64 bits = 0 \/ 2 ^ 52 <= significand64 bits).
Proof.
  unfold infinite, significand64, exponent64. intros H. pose proof (Z.div_mod bits (2 ^ 52) ltac:(lia)) as E.
  pose proof (Z.mod_pos_bound bits (2 ^ 52) ltac:(lia)). assert (0 <= bits / 2 ^ 52 < 2047) by lia. set (f := bits / 2 ^ 52) in *. lia.
Qed.

(** A value close enough to a number rounds to it. *)
Lemma round64_near a b e m :
  0 < b -> 0 <= e -> 0 < m < 2 ^ 53 -> (e = 0 \/ 2 ^ 52 <= m) ->
  2 ^ e * b * (2 * m - 1) < 2 * (a * 2 ^ 1074) < 2 ^ e * b * (2 * m + 1) ->
  (m = 2 ^ 52 -> 0 < e -> 2 ^ e * b * (4 * m - 1) < 4 * (a * 2 ^ 1074)) ->
  round64 a b = e * 2 ^ 52 + m.
Proof.
  intros Hb He Hm Hc Hnear Hlow. unfold round64. cbv zeta. set (y := a * 2 ^ 1074) in *. clearbody y.
  pose proof (Z.pow_pos_nonneg 2 e ltac:(lia) He) as Hp.
  destruct (Z.le_gt_cases (2 ^ 52 * 2 ^ e * b) y) as [Hge|Hlt].
  - assert (Hlog : Z.log2 (y / b) = 52 + e).
    { apply Z.log2_unique; [lia|]. rewrite Z.pow_succ_r, Z.pow_add_r by lia. split; [apply Z.div_le_lower_bound; lia|apply Z.div_lt_upper_bound; nia]. }
    rewrite Hlog. replace (Z.max 0 (52 + e - 52)) with e by lia. f_equal. apply round_even_exact; nia.
  - destruct (Z.eq_dec e 0) as [->|Hne].
    + assert (Hlog : Z.log2 (y / b) <= 52).
      { destruct (Z.le_gt_cases (y / b) 0) as [Hn|Hp']; [rewrite Z.log2_nonpos by done; lia|].
        apply Z.lt_succ_r. apply Z.log2_lt_pow2; [done|]. apply Z.div_lt_upper_bound; nia. }
      rewrite Z.max_l by lia. f_equal. apply round_even_exact; nia.
    + destruct Hc as [|Hc]; [done|]. assert (m = 2 ^ 52) as -> by nia. specialize (Hlow eq_refl ltac:(lia)).
      assert (Hpe : 2 ^ e = 2 * 2 ^ (e - 1)) by (rewrite <- Z.pow_succ_r by lia; f_equal; lia).
      pose proof (Z.pow_pos_nonneg 2 (e - 1) ltac:(lia) ltac:(lia)) as Hp'.
      assert (Hlog : Z.log2 (y / b) = 51 + e).
      { apply Z.log2_unique; [lia|]. replace (51 + e) with (52 + (e - 1)) by lia. rewrite Z.pow_succ_r, Z.pow_add_r by lia.
        split; [apply Z.div_le_lower_bound; nia|apply Z.div_lt_upper_bound; nia]. }
      rewrite Hlog. replace (Z.max 0 (51 + e - 52)) with (e - 1) by lia.
      rewrite (round_even_exact y (b * 2 ^ (e - 1)) (2 ^ 53)) by nia. lia.
Qed.

(** ** Seventeen digits *)
Lemma count_digits_spec fuel n z :
  1 <= n -> 10 ^ (n - 1) <= z < 10 ^ (n + Z.of_nat fuel) ->
  10 ^ (count_digits fuel (10 ^ n) n z - 1) <= z < 10 ^ count_digits fuel (10 ^ n) n z /\ n <= count_digits fuel (10 ^ n) n z.
Proof.
  revert n. induction fuel as [|fuel IH]; intros n Hn Hz; cbn [count_digits].
  { rewrite Z.add_0_r in Hz. lia. }
  destruct (Z.ltb_spec z (10 ^ n)); [lia|]. rewrite <- Z.pow_succ_r by lia. change (Z.succ n) with (n + 1).
  destruct (IH (n + 1)) as [H1 H2]; [lia| |].
  - replace (n + 1 - 1) with n by lia. replace (n + 1 + Z.of_nat fuel) with (n + Z.of_nat (S fuel)) by lia. lia.
  - split; [done|lia].
Qed.

Lemma scaled_range bits : 0 < bits < infinite -> 0 < scaled64 bits < 2 ^ 2098.
Proof.
  intros H. destruct (canonical bits H) as (_ & He & Hm & _). unfold scaled64.
  pose proof (Z.pow_pos_nonneg 2 (exponent64 bits) ltac:(lia) ltac:(lia)).
  pose proof (Z.pow_le_mono_r 2 (exponent64 bits) 2045 ltac:(lia) ltac:(lia)). split; [nia|].
  change (2 ^ 2098) with (2 ^ 53 * 2 ^ 2045). nia.
Qed.

Lemma digits400_spec bits :
  0 < bits < infinite ->
  17 <= digits400 bits /\
  10 ^ (digits400 bits - 1) * 2 ^ 1074 <= scaled64 bits * 10 ^ 400 < 10 ^ digits400 bits * 2 ^ 1074.
Proof.
  intros H. pose proof (scaled_range bits H) as Hs. unfold digits400. set (v := scaled64 bits) in *. clearbody v.
  set (i := v * 10 ^ 400 / 2 ^ 1074).
  assert (Hlow : 10 ^ 20 <= i).
  { apply Z.div_le_lower_bound; [lia|]. assert (2 ^ 1074 * 10 ^ 20 <= 10 ^ 400) by (apply Z.leb_le; vm_compute; reflexivity). lia. }
  assert (Hhigh : i < 10 ^ (1 + Z.of_nat 720)).
  { apply Z.div_lt_upper_bound; [lia|]. assert (2 ^ 2098 * 10 ^ 400 <= 2 ^ 1074 * 10 ^ (1 + Z.of_nat 720)) by (apply Z.leb_le; vm_compute; reflexivity). lia. }
  destruct (count_digits_spec 720 1 i ltac:(lia)) as [Hc Hn]; [split; [change (10 ^ (1 - 1)) with 1; lia|exact Hhigh]|].
  change (10 ^ 1) with 10 in Hc, Hn. set (k := count_digits 720 10 1 i) in *. clearbody k.
  assert (Hk : 17 <= k). { destruct (Z.le_gt_cases 17 k); [done|]. pose proof (Z.pow_le_mono_r 10 k 17 ltac:(lia) ltac:(lia)). lia. }
  split; [done|]. pose proof (Z.mul_div_le (v * 10 ^ 400) (2 ^ 1074) ltac:(lia)) as H1. pose proof (Z.mul_succ_div_gt (v * 10 ^ 400) (2 ^ 1074) ltac:(lia)) as H2.
  fold i in H1, H2. clearbody i. set (p := 2 ^ 1074) in *. assert (0 < p) by lia. clearbody p. set (x := v * 10 ^ 400) in *. clearbody x. nia.
Qed.

Lemma pick_reads bits s c : pick bits s = Some c -> round64 (c * 10 ^ s) (10 ^ 400) = bits.
Proof.
  unfold pick. cbv zeta. set (a := scaled64 bits * 10 ^ 400). set (d := 2 ^ 1074 * 10 ^ s). intros H.
  destruct (round64 (a / d * 10 ^ s) (10 ^ 400) =? bits) eqn:E1, (round64 ((a / d + 1) * 10 ^ s) (10 ^ 400) =? bits) eqn:E2; cbn [andb] in H; try done;
    injection H as <-; try apply Z.eqb_eq in E1; try apply Z.eqb_eq in E2; try done.
  unfold round_even. cbv zeta. destruct (_ <? d); [done|]. destruct (d <? _); [done|]. by destruct (Z.even _).
Qed.

(** The nearer of the two decimals reads back when they are closer than the numbers. *)
Lemma pick_near bits s :
  0 < bits < infinite -> 0 <= s -> 10 ^ 16 * (2 ^ 1074 * 10 ^ s) <= scaled64 bits * 10 ^ 400 -> pick bits s <> None.
Proof.
  intros H Hs Hd. destruct (canonical bits H) as (Eb & He & Hm & Hc). unfold pick. cbv zeta. unfold scaled64 in *.
  set (e := exponent64 bits) in *. set (m := significand64 bits) in *. set (a := m * 2 ^ e * 10 ^ 400) in *. set (d := 2 ^ 1074 * 10 ^ s) in *.
  pose proof (pow10_pos s Hs) as Hps. assert (Hdpos : 0 < d) by lia. pose proof (Z.div_mod a d ltac:(lia)) as Ea. pose proof (Z.mod_pos_bound a d Hdpos) as Hr.
  pose proof (Z.pow_pos_nonneg 2 e ltac:(lia) ltac:(lia)) as Hpe. set (w := 2 ^ e * 10 ^ 400) in *.
  assert (Haw : a = m * w) by (unfold a, w; ring). assert (Hw : 0 < w) by (unfold w; lia). set (q := a / d) in *. set (r := a mod d) in *.
  assert (Hreads : forall c, 2 * (c * d - a) <= d -> 2 * (a - c * d) <= d -> round64 (c * 10 ^ s) (10 ^ 400) = bits).
  { intros c H1 H2. rewrite Eb. assert (Ec : c * 10 ^ s * 2 ^ 1074 = c * d) by (unfold d; ring).
    apply round64_near; [lia|lia|done|done| |]; rewrite Ec; fold w; clearbody a d w q r m e.
    - assert (d < w) by nia. nia.
    - intros -> Hepos. assert (2 * d < w) by nia. nia. }
  assert (Hor : 2 * r <= d \/ 2 * r > d) by lia. intros HN.
  destruct (round64 (q * 10 ^ s) (10 ^ 400) =? bits) eqn:E1; [by destruct (_ =? _) in HN|].
  destruct (round64 ((q + 1) * 10 ^ s) (10 ^ 400) =? bits) eqn:E2; [done|]. apply Z.eqb_neq in E1, E2.
  destruct Hor; [apply E1, Hreads; nia|apply E2, Hreads; nia].
Qed.

Lemma shortest_from_found bits n tries :
  (exists k, 0 <= k < Z.of_nat tries /\ pick bits (digits400 bits - (n + k)) <> None) ->
  exists c s, shortest_from bits n tries = Some (c, s) /\ digits400 bits - (n + Z.of_nat tries) < s <= digits400 bits - n /\ pick bits s = Some c.
Proof.
  revert n. induction tries as [|tries IH]; intros n (k & Hk & Hp); [lia|]. cbn [shortest_from]. cbv zeta.
  destruct (pick bits (digits400 bits - n)) as [c|] eqn:E.
  - exists c, (digits400 bits - n). split; [done|]. split; [lia|done].
  - destruct (IH (n + 1)) as (c & s & H1 & H2 & H3).
    + exists (k - 1). assert (k <> 0) by (intros ->; apply Hp; by rewrite Z.add_0_r). split; [lia|]. by replace (n + 1 + (k - 1)) with (n + k) by lia.
    + exists c, s. split; [done|]. split; [lia|done].
Qed.

(** Every positive finite number has a decimal of at most seventeen digits that reads back. *)
Lemma shortest_reads bits :
  0 < bits < infinite ->
  exists c s, shortest bits = Some (c, s) /\ 0 <= s <= digits400 bits - 1 /\ pick bits s = Some c.
Proof.
  intros H. destruct (digits400_spec bits H) as (H17 & Hlow & _).
  destruct (shortest_from_found bits 1 17) as (c & s & H1 & H2 & H3).
  - exists 16. split; [lia|]. apply pick_near; [done|lia|]. replace (digits400 bits - 1) with (16 + (digits400 bits - 17)) in Hlow by lia.
    rewrite Z.pow_add_r in Hlow by lia. replace (digits400 bits - (1 + 16)) with (digits400 bits - 17) by lia. lia.
  - exists c, s. split; [done|]. split; [lia|done].
Qed.

(** ** The text *)
Lemma trim_right_zeros_spec s : exists z, s = trim_right_zeros s ++ replicate z x30.
Proof.
  induction s as [|b s [z IH]]; [by exists 0%nat|]. cbn [trim_right_zeros]. destruct (trim_right_zeros s) as [|c t] eqn:E.
  - destruct (bool_decide (b = x30)) eqn:Eb; [apply bool_decide_eq_true in Eb; subst b; exists (S z); cbn; by rewrite IH at 1|].
    exists z. cbn. by rewrite IH at 1.
  - exists z. cbn. f_equal. by rewrite IH at 1.
Qed.

Lemma float_digit_not_sign b : is_digit b = true -> is_sign b = false /\ is_exp b = false /\ b <> x2e.
Proof.
  intros H. unfold is_sign, is_exp. assert (Hb : forall c, is_digit c = false -> b <> c) by (intros c Hc ->; congruence).
  rewrite !bool_decide_eq_false_2 by (apply Hb; reflexivity). split; [done|]. split; [done|]. by apply Hb.
Qed.

(** Digits, a point and digits, an exponent. *)
Lemma pattern_read sign int frac (dot : bool) tail e :
  (sign = [] \/ sign = [x2d]) -> int <> [] -> all_digits int -> all_digits frac -> (dot = false -> frac = []) ->
  match_exponent tail = Some e -> match tail with [] => True | b :: _ => is_exp b = true end ->
  decimalPattern (sign ++ int ++ (if dot then x2e :: frac else []) ++ tail) = Some (mkSubmatch sign int frac [] e).
Proof.
  intros Hs Hi Hint Hfrac Hdot He Ht. destruct int as [|b int]; [done|]. pose proof (Forall_inv Hint) as Hb. destruct (float_digit_not_sign b Hb) as (Hns & _ & _).
  unfold decimalPattern. assert (Hsg : take_sign (sign ++ (b :: int) ++ (if dot then x2e :: frac else []) ++ tail) = (sign, (b :: int) ++ (if dot then x2e :: frac else []) ++ tail)).
  { destruct Hs as [->| ->]; cbn; [by rewrite Hns|done]. }
  rewrite Hsg. assert (Htail : forall x, x ∈ tail -> True) by done. clear Hsg Htail.
  assert (Hend : match tail with [] => True | c :: _ => is_digit c = false /\ c <> x2e end).
  { destruct tail as [|c tail]; [done|]. unfold is_exp in Ht. apply orb_true_iff in Ht as [Ht|Ht]; apply bool_decide_eq_true in Ht; by subst c. }
  unfold match_mantissa. destruct dot.
  - rewrite (span_app is_digit (b :: int)) by done. cbn [app]. rewrite span_app by (done || (destruct tail; [done|]; by destruct Hend)). by rewrite He.
  - rewrite (Hdot eq_refl). cbn [app]. rewrite (app_comm_cons int tail b), (span_app is_digit (b :: int)) by (done || (destruct tail; [done|]; by destruct Hend)).
    destruct tail as [|c tail]; [by rewrite He|].
    unfold is_exp in Ht. apply orb_true_iff in Ht as [Ht|Ht]; apply bool_decide_eq_true in Ht; subst c; by rewrite He.
Qed.

Lemma read_exponent_small ds a :
  0 <= a -> all_digits ds -> a * 10 ^ zlen ds + dec_value ds < 10000 ->
  fold_left (fun acc b => if acc <? 10000 then acc * 10 + digit_value b else acc) ds a = a * 10 ^ zlen ds + dec_value ds.
Proof.
  intros Ha Hd. revert a Ha. induction Hd as [|b ds Hb Hds IH]; intros a Ha Hlt; cbn [fold_left].
  { change (zlen (@nil byte)) with 0. change (dec_value []) with 0. lia. }
  rewrite dec_value_cons, pow10_succ in *. pose proof (dec_value_range ds Hds) as Hr. pose proof (pow10_pos (zlen ds) (zlen_nonneg ds)). apply digit_range in Hb.
  destruct (Z.ltb_spec a 10000); [|nia]. rewrite IH by nia. ring.
Qed.

(** The exponent of the text. *)
Lemma float_exponent_read exp :
  -9999 <= exp <= 9999 -> match_exponent (x65 :: exponent_text exp) = Some (exponent_text exp) /\ read_exponent (exponent_text exp) = exp.
Proof.
  intros H. unfold exponent_text. destruct (itoa_digits (Z.abs exp) ltac:(lia)) as (Hd & Hv & Hne & _). set (ds := lit (pretty (Z.abs exp))) in *. clearbody ds.
  set (out := if zlen ds <? 2 then x30 :: ds else ds).
  assert (Ho : all_digits out /\ dec_value out = Z.abs exp /\ out <> []).
  { unfold out. destruct (_ <? 2); [|done]. split; [by constructor|]. split; [|done]. rewrite dec_value_cons. change (digit_value x30) with 0. lia. }
  destruct Ho as (Hod & Hov & Hone). clearbody out. split.
  - cbn [match_exponent]. change (is_exp x65) with true. cbv iota. destruct (exp <? 0); cbn [take_sign].
    + change (is_sign x2d) with true. cbv iota. rewrite <- (app_nil_r out) at 1. rewrite (span_app is_digit out []) by done. by destruct out.
    + change (is_sign x2b) with true. cbv iota. rewrite <- (app_nil_r out) at 1. rewrite (span_app is_digit out []) by done. by destruct out.
  - unfold read_exponent. destruct (Z.ltb_spec exp 0); cbn [take_sign].
    + change (is_sign x2d) with true. cbv iota. rewrite read_exponent_small, Hov by (done || lia). rewrite bool_decide_eq_true_2 by done. lia.
    + change (is_sign x2b) with true. cbv iota. rewrite read_exponent_small, Hov by (done || lia). rewrite bool_decide_eq_false_2 by done. lia.
Qed.

(** A text of these digits and this exponent reads as the number they round to. *)
Lemma parse_value m c s sign :
  m1 m = sign -> 0 <= s ->
  (let t := read_exponent (m5 m) - zlen (fraction_of m) in
   if 0 <=? t then dec_value (m2 m ++ fraction_of m) * 10 ^ t * 10 ^ 400 = c * 10 ^ s
   else dec_value (m2 m ++ fraction_of m) * 10 ^ 400 = c * 10 ^ s * 10 ^ (- t)) ->
  ParseFloat m = let bits := round64 (c * 10 ^ s) (10 ^ 400) in if infinite <=? bits then None else Some (signed_bits sign bits).
Proof.
  intros Hm Hs Hv. unfold ParseFloat. cbv zeta in *. rewrite Hm. set (t := read_exponent (m5 m) - zlen (fraction_of m)) in *.
  destruct (Z.leb_spec 0 t).
  - rewrite (round64_ratio _ 1 (c * 10 ^ s) (10 ^ 400)) by lia. done.
  - pose proof (pow10_pos (- t) ltac:(lia)). rewrite (round64_ratio _ (10 ^ (- t)) (c * 10 ^ s) (10 ^ 400)) by lia. done.
Qed.

(** The digits and exponent of a formatted text. *)
Lemma fmt_read sign digs dp :
  (sign = [] \/ sign = [x2d]) -> digs <> [] -> all_digits digs -> -9000 <= dp <= 9000 ->
  exists m, decimalPattern (sign ++ fmtG digs dp) = Some m /\ m1 m = sign /\
    let t := read_exponent (m5 m) - zlen (fraction_of m) in
    let c := dec_value (m2 m ++ fraction_of m) in
    (t = dp - zlen digs /\ c = dec_value digs) \/ (t = 0 /\ 0 <= dp - zlen digs /\ c = dec_value digs * 10 ^ (dp - zlen digs)).
Proof.
  intros Hs Hne Hd Hdp. assert (Hfr : forall f e i, fraction_of (mkSubmatch sign i f [] e) = f) by (by intros [|x f] e i). unfold fmtG. cbv zeta.
  destruct (_ || _); [|unfold fmtF; destruct (Z.leb_spec dp 0); [|destruct (Z.leb_spec (zlen digs) dp)]].
  - destruct digs as [|d rest]; [done|]. apply Forall_cons in Hd as [Hd1 Hd2]. destruct (float_exponent_read (dp - 1) ltac:(lia)) as [He Hv].
    exists (mkSubmatch sign [d] rest [] (exponent_text (dp - 1))). split.
    { unfold fmtE. rewrite <- (pattern_read sign [d] rest (match rest with [] => false | _ => true end) (x65 :: exponent_text (dp - 1))); try done.
      - by destruct rest.
      - by constructor.
      - by destruct rest. }
    split; [done|]. cbn [m5 m2]. rewrite Hfr, Hv. left. split; [unfold zlen; cbn [length]; lia|done].
  - exists (mkSubmatch sign [x30] (replicate (Z.to_nat (- dp)) x30 ++ digs) [] []). split.
    { rewrite <- (pattern_read sign [x30] (replicate (Z.to_nat (- dp)) x30 ++ digs) true []); try done; [by rewrite app_nil_r|by constructor|].
      apply Forall_app. split; [by apply Forall_replicate|done]. }
    split; [done|]. cbn [m5 m2]. rewrite Hfr. left. change (read_exponent []) with 0. split.
    + unfold zlen. rewrite length_app, length_replicate. lia.
    + rewrite !dec_value_app, dec_value_zeros. change (dec_value [x30]) with 0. lia.
  - exists (mkSubmatch sign (digs ++ replicate (Z.to_nat (dp - zlen digs)) x30) [] [] []). split.
    { rewrite <- (pattern_read sign (digs ++ replicate (Z.to_nat (dp - zlen digs)) x30) [] false []); try done; [by rewrite !app_nil_r| |].
      - by destruct digs.
      - apply Forall_app. split; [done|by apply Forall_replicate]. }
    split; [done|]. cbn [m5 m2]. rewrite Hfr, app_nil_r. right. split; [done|]. split; [lia|]. rewrite dec_value_app, dec_value_zeros.
    unfold zlen at 1. rewrite length_replicate, Z2Nat.id by lia. lia.
  - exists (mkSubmatch sign (take (Z.to_nat dp) digs) (drop (Z.to_nat dp) digs) [] []). split.
    { rewrite <- (pattern_read sign (take (Z.to_nat dp) digs) (drop (Z.to_nat dp) digs) true []); try done; [by rewrite app_nil_r| | |].
      - destruct digs as [|d digs]; [done|]. destruct (Z.to_nat dp) eqn:E; [lia|done].
      - by apply Forall_take.
      - by apply Forall_drop. }
    split; [done|]. cbn [m5 m2]. rewrite Hfr, take_drop. left. change (read_exponent []) with 0. split; [|done].
    unfold zlen. rewrite length_drop. unfold zlen in *. lia.
Qed.

Lemma count_digits_bound fuel pow n z : count_digits fuel pow n z <= n + Z.of_nat fuel.
Proof. revert pow n. induction fuel as [|fuel IH]; intros pow n; cbn [count_digits]; [lia|]. destruct (z <? pow); [lia|]. specialize (IH (10 * pow) (n + 1)). lia. Qed.

(** The decimal that is picked is positive and has few digits. *)
Lemma pick_range bits s c :
  0 < bits < infinite -> 0 <= s <= digits400 bits - 1 -> pick bits s = Some c -> 1 <= c /\ zlen (lit (pretty c)) <= 723 /\ s <= 720.
Proof.
  intros H Hs Hp. destruct (digits400_spec bits H) as (H17 & Hlow & Hhigh). pose proof (count_digits_bound 720 10 1 (scaled64 bits * 10 ^ 400 / 2 ^ 1074)) as Hk.
  fold (digits400 bits) in Hk. change (1 + Z.of_nat 720) with 721 in Hk. set (nd := digits400 bits) in *. set (a := scaled64 bits * 10 ^ 400) in *. set (d := 2 ^ 1074 * 10 ^ s).
  assert (Hq : 1 <= a / d < 10 ^ nd).
  { pose proof (Z.pow_le_mono_r 10 s (nd - 1) ltac:(lia) ltac:(lia)). pose proof (pow10_pos s ltac:(lia)). pose proof (pow10_pos nd ltac:(lia)).
    assert (Hd : 0 < d) by (unfold d; lia). split; [apply Z.div_le_lower_bound; unfold d; nia|apply Z.div_lt_upper_bound; [done|]; unfold d; nia]. }
  assert (Hc : a / d <= c <= a / d + 1).
  { unfold pick in Hp. cbv zeta in Hp. fold a d in Hp. destruct (_ && _) in Hp.
    - injection Hp as <-. unfold round_even. cbv zeta. destruct (_ <? d); [lia|]. destruct (d <? _); [lia|]. destruct (Z.even _); lia.
    - destruct (_ =? _) in Hp; [injection Hp as <-; lia|]. destruct (_ =? _) in Hp; [injection Hp as <-; lia|done]. }
  split; [lia|]. split; [|lia]. destruct (itoa_digits c ltac:(lia)) as (_ & _ & _ & [|Hl]); [lia|].
  set (L := zlen (lit (pretty c))) in *. clearbody L. destruct (Z.le_gt_cases L 723) as [|Hgt]; [done|].
  clear Hlow Hhigh Hp. clearbody a d nd. assert (10 ^ nd < 10 ^ (L - 1)) by (apply Z.pow_lt_mono_r; lia). lia.
Qed.

(** Every finite number but zero reads back from its text. *)
Lemma format_read bits :
  0 < magnitude bits < infinite -> 0 <= bits < 2 ^ 64 -> exists m, decimalPattern (FormatFloat bits) = Some m /\ ParseFloat m = Some bits.
Proof.
  intros H Hb. destruct (shortest_reads _ H) as (c & s & Hsh & Hs & Hp). destruct (pick_range _ s c H Hs Hp) as (Hc & Hl & Hs2).
  unfold FormatFloat. rewrite Hsh. set (sign := if is_negative bits then [x2d] else []). destruct (itoa_digits c ltac:(lia)) as (Hd & Hv & Hne & _).
  set (ds := lit (pretty c)) in *. destruct (trim_right_zeros_spec ds) as [z Ez]. set (D := trim_right_zeros ds) in *.
  assert (HD : all_digits D) by (rewrite Ez in Hd; by apply Forall_app in Hd as [? _]).
  assert (Hval : c = dec_value D * 10 ^ Z.of_nat z).
  { rewrite <- Hv, Ez, dec_value_app, dec_value_zeros. unfold zlen. rewrite length_replicate. lia. }
  assert (HDne : D <> []) by (intros E; rewrite E in Hval; change (dec_value []) with 0 in Hval; lia).
  assert (Hlen : zlen ds = zlen D + Z.of_nat z) by (rewrite Ez; unfold zlen; rewrite length_app, length_replicate; lia).
  pose proof (zlen_nonneg D). destruct (fmt_read sign D (zlen ds + s - 400)) as (m & Hm & Hm1 & Ht); [unfold sign; destruct (is_negative bits); auto|done|done|lia|].
  exists m. split; [exact Hm|]. assert (Hpow : 10 ^ Z.of_nat z * 10 ^ s = 10 ^ (Z.of_nat z + s)) by (rewrite Z.pow_add_r by lia; done).
  rewrite (parse_value m c s sign Hm1 ltac:(lia)).
  - cbv zeta. rewrite (pick_reads _ _ _ Hp). destruct (Z.leb_spec infinite (magnitude bits)); [lia|]. unfold signed_bits, sign, magnitude in *. f_equal.
    destruct (is_negative bits); [rewrite bool_decide_eq_true_2 by done; lia|by rewrite bool_decide_eq_false_2].
  - cbv zeta in *. replace (c * 10 ^ s) with (dec_value D * 10 ^ (Z.of_nat z + s)) by (rewrite Hval, <- Hpow; ring).
    destruct Ht as [[-> ->]|(-> & Hge & ->)].
    + destruct (Z.leb_spec 0 (zlen ds + s - 400 - zlen D)).
      * rewrite <- Z.mul_assoc, <- Z.pow_add_r by lia. do 2 f_equal. lia.
      * rewrite <- Z.mul_assoc, <- Z.pow_add_r by lia. do 2 f_equal. lia.
    + change (0 <=? 0) with true. cbv iota. rewrite Z.pow_0_r, Z.mul_1_r, <- Z.mul_assoc, <- Z.pow_add_r by lia. do 2 f_equal. lia.
Qed.
