(* ===== verification/ClassicTemporal.v ===== *)
(** Package [value], internal/value/classic_temporal.go: the compact temporal types of
    classic RFC.  A text such as [2024-02-29T10:00:00] is stored as a raw integer that counts
    seconds, minutes, days, weeks or months from the year 1, in a calendar that is Julian up
    to 1582-10-04 and Gregorian from 1582-10-15 on.

    The theorems: the encoder and the decoder are inverse to one another, between the texts
    the encoder accepts and all the raw values in range; the decoder is total; and the day
    number of a date is the number of days of that calendar before it. *)
From stdpp Require Import base list numbers strings pretty sets.
From Stdlib Require Import ZArith Lia Strings.Byte.
From S2P Require Import Prelude Errors Text PackedDecimal.

Open Scope Z_scope.

#[local] Ltac Zify.zify_post_hook ::= Z.div_mod_to_equations.

Definition errTemporal : error := EValue ErrTemporal.

(** ** Fixed-width date and time texts *)
Definition spaces (n : nat) : bytes := replicate n x20.

(** [^\d{n}$] and [^ {n}$] *)
Definition is_digits (n : nat) (s : bytes) : bool := bool_decide (length s = n) && forallb is_digit s.
Definition is_spaces (n : nat) (s : bytes) : bool := bool_decide (s = spaces n).

Definition classicDateWirePattern (s : bytes) : bool := is_digits 8 s || is_spaces 8 s.
Definition classicTimeWirePattern (s : bytes) : bool := is_digits 6 s || is_spaces 6 s.
Definition classicDatePattern (s : bytes) : bool := classicDateWirePattern s || bool_decide (s = []).
Definition classicTimePattern (s : bytes) : bool := classicTimeWirePattern s || bool_decide (s = []).

Definition AssertClassicDate (value : bytes) : res unit :=
  if negb (classicDatePattern value) then Err errTemporal else Ok tt.

Definition AssertClassicTime (value : bytes) : res unit :=
  if negb (classicTimePattern value) then Err errTemporal else Ok tt.

Definition ClassicDateWireText (value : bytes) : res bytes :=
  _ ← AssertClassicDate value; Ok (if bool_decide (value = []) then spaces 8 else value).

Definition ClassicDatePublicText (value : bytes) : res bytes :=
  if negb (classicDateWirePattern value) then Err errTemporal
  else Ok (if bool_decide (value = spaces 8) then [] else value).

Definition ClassicTimeWireText (value : bytes) : res bytes :=
  _ ← AssertClassicTime value; Ok (if bool_decide (value = []) then spaces 6 else value).

Definition ClassicTimePublicText (value : bytes) : res bytes :=
  if negb (classicTimeWirePattern value) then Err errTemporal
  else Ok (if bool_decide (value = spaces 6) then [] else value).

(** ** The compact types *)
Record temporalSpec : Type := mkSpec { ts_byteLength : Z; ts_maximumRaw : Z }.

Definition temporalSpecs (exid : bytes) : option temporalSpec :=
  match exid with
  | [b] =>
      if bool_decide (b = "p"%byte) then Some (mkSpec 8 3155380704000000000)
      else if bool_decide (b = "n"%byte) then Some (mkSpec 8 315538070400)
      else if bool_decide (b = "w"%byte) then Some (mkSpec 8 5258967840)
      else if bool_decide (b = "d"%byte) then Some (mkSpec 4 3652061)
      else if bool_decide (b = "7"%byte) then Some (mkSpec 4 521725)
      else if bool_decide (b = "x"%byte) then Some (mkSpec 4 119988)
      else if bool_decide (b = "t"%byte) then Some (mkSpec 4 86401)
      else if bool_decide (b = "i"%byte) then Some (mkSpec 2 1441)
      else if bool_decide (b = "c"%byte) then Some (mkSpec 2 366)
      else None
  | _ => None
  end.

Definition daysByMonth : list Z := [31; 29; 31; 30; 31; 30; 31; 31; 30; 31; 30; 31].

Definition utclongInitial : bytes := lit "0000-00-00T00:00:00.0000000".
Definition secondsPerDay : Z := 86400.
Definition minutesPerDay : Z := 1440.
Definition fractionsPerSecond : Z := 10000000.
Definition fractionsPerDay : Z := 864000000000.

Definition IsClassicTemporalExid (value : bytes) : bool := bool_decide (is_Some (temporalSpecs value)).

Definition specification (exid : bytes) : res temporalSpec :=
  match temporalSpecs exid with Some spec => Ok spec | None => Err errTemporal end.

Definition ClassicTemporalByteLength (exid : bytes) : res Z :=
  spec ← specification exid; Ok (ts_byteLength spec).

Definition ClassicTemporalInitialValue (exid : bytes) : res bytes :=
  _ ← specification exid; Ok (if bool_decide (exid = lit "p") then utclongInitial else []).

(** ** The calendar *)
Definition isLeapYear (year : Z) : bool :=
  if year <? 1582 then Z.rem year 4 =? 0
  else (Z.rem year 4 =? 0) && (negb (Z.rem year 100 =? 0) || (Z.rem year 400 =? 0)).

(** Indexing the array of twelve months panics outside of it. *)
Definition daysInMonth (year month : Z) : res Z :=
  if month =? 2 then Ok (if isLeapYear year then 29 else 28)
  else if (year =? 1582) && (month =? 10) then Ok 21
  else go_index daysByMonth (month - 1).

Record calendarDate : Type := mkDate { cd_year : Z; cd_month : Z; cd_day : Z }.

Definition parseDateParts (year month day : Z) : res calendarDate :=
  if (year <? 1) || (9999 <? year) then Err errTemporal
  else if (month <? 1) || (12 <? month) then Err errTemporal
  else
    conventionalMax ← go_index daysByMonth (month - 1);
    let conventionalMax := if month =? 2 then if isLeapYear year then 29 else 28 else conventionalMax in
    if (day <? 1) || (conventionalMax <? day) then Err errTemporal
    else if (year =? 1582) && (month =? 10) && (5 <=? day) && (day <=? 14) then Err errTemporal
    else Ok (mkDate year month day).

Definition daysInPreviousYears (year : Z) : Z :=
  let previousYears := year - 1 in
  let through1600 := if 1600 <? previousYears then 1600 else previousYears in
  let withinCentury := Z.rem through1600 100 in
  let days := Z.quot through1600 100 * 36525 + Z.quot withinCentury 4 * 1461 + Z.rem withinCentury 4 * 365 in
  let days := if 1582 <? year then days - 10 else days in
  if previousYears <=? 1600 then days
  else
    let after1600 := previousYears - 1600 in
    let days := days + Z.quot after1600 400 * 146097 in
    let after1600 := Z.rem after1600 400 in
    let finalCentury := Z.rem after1600 100 in
    days + Z.quot after1600 100 * 36524 + Z.quot finalCentury 4 * 1461 + Z.rem finalCentury 4 * 365.

(** The months before [date.month]: the loop of [dateOrdinal], [n] months from [month] on. *)
Fixpoint months_before (n : nat) (year month result : Z) : res Z :=
  match n with
  | O => Ok result
  | S n => d ← daysInMonth year month; months_before n year (month + 1) (result + d)
  end.

Definition dateOrdinal (date : calendarDate) : res Z :=
  result ← months_before (Z.to_nat (cd_month date - 1)) (cd_year date) 1 (daysInPreviousYears (cd_year date));
  let adjustedDay :=
    if (cd_year date =? 1582) && (cd_month date =? 10) && (15 <=? cd_day date) then cd_day date - 10 else cd_day date in
  Ok (result + adjustedDay - 1).

(** More rounds than any of the searches takes: each removes at least one candidate. *)
Definition search_fuel : nat := Z.to_nat 10000.

(** The search for the year. *)
Fixpoint year_search (fuel : nat) (lower upper ordinal : Z) : res Z :=
  match fuel with
  | O => Err EFuel
  | S fuel =>
      if lower <=? upper then
        let candidate := Z.quot (lower + upper) 2 in
        if daysInPreviousYears candidate <=? ordinal then year_search fuel (candidate + 1) upper ordinal
        else year_search fuel lower (candidate - 1) ordinal
      else Ok upper
  end.

(** The loop over the months, [n] of them from [month] on; the month and what remains. *)
Fixpoint month_search (n : nat) (year month remaining : Z) : res (Z * Z) :=
  match n with
  | O => Ok (month, remaining)
  | S n =>
      monthLength ← daysInMonth year month;
      if remaining <? monthLength then Ok (month, remaining)
      else month_search n year (month + 1) (remaining - monthLength)
  end.

Definition dateFromOrdinal (ordinal : Z) : res calendarDate :=
  year ← year_search search_fuel 1 9999 ordinal;
  '(month, remaining) ← month_search 12 year 1 (ordinal - daysInPreviousYears year);
  let day := remaining + 1 in
  let day := if (year =? 1582) && (month =? 10) && (4 <? day) then day + 10 else day in
  Ok (mkDate year month day).

(** ** Formatting *)

(** The last [w] decimal digits of [v]. *)
Fixpoint fixed_digits (w : nat) (v : Z) : bytes :=
  match w with
  | O => []
  | S w => fixed_digits w (v / 10) ++ [digit_char (v mod 10)]
  end.

(** [fmt.Sprintf("%0wd", v)] *)
Definition padded (w : nat) (v : Z) : bytes :=
  if (0 <=? v) && (v <? 10 ^ Z.of_nat w) then fixed_digits w v
  else if (v <? 0) && (- v <? 10 ^ (Z.of_nat w - 1)) then x2d :: fixed_digits (w - 1) (- v)
  else lit (pretty v).

Definition twoDigits (v : Z) : bytes := padded 2 v.
Definition fourDigits (v : Z) : bytes := padded 4 v.

Definition formatDate (d : calendarDate) : bytes :=
  padded 4 (cd_year d) ++ lit "-" ++ padded 2 (cd_month d) ++ lit "-" ++ padded 2 (cd_day d).

Record clockTime : Type := mkClock { ck_hour : Z; ck_minute : Z; ck_second : Z }.

Definition parseClock (hour minute second : Z) (allowEndOfDay : bool) : res clockTime :=
  let maxHour := if allowEndOfDay then 24 else 23 in
  if (hour <? 0) || (maxHour <? hour) then Err errTemporal
  else if (minute <? 0) || (59 <? minute) then Err errTemporal
  else if (second <? 0) || (59 <? second) then Err errTemporal
  else if (hour =? 24) && (negb (minute =? 0) || negb (second =? 0)) then Err errTemporal
  else Ok (mkClock hour minute second).

Definition clockSeconds (c : clockTime) : Z := ck_hour c * 3600 + ck_minute c * 60 + ck_second c.

Definition formatClock (seconds : Z) (includeSeconds : bool) : bytes :=
  let hour := Z.quot seconds 3600 in
  let afterHours := Z.rem seconds 3600 in
  let minute := Z.quot afterHours 60 in
  if negb includeSeconds then padded 2 hour ++ lit ":" ++ padded 2 minute
  else padded 2 hour ++ lit ":" ++ padded 2 minute ++ lit ":" ++ padded 2 (Z.rem afterHours 60).

(** ** Weeks *)
Definition calendarYearHasWeek53 (year : Z) : bool :=
  let januaryFirst := Z.rem (5 + daysInPreviousYears year) 7 in
  (januaryFirst =? 3) || ((januaryFirst =? 2) && isLeapYear year).

(** The loop that fills [yearsWithWeek53]: [n] years from [year] on. *)
Fixpoint week53_years (n : nat) (year : Z) : list Z :=
  match n with
  | O => []
  | S n => if calendarYearHasWeek53 year then year :: week53_years n (year + 1) else week53_years n (year + 1)
  end.

Definition yearsWithWeek53 : list Z := week53_years (Z.to_nat 9999) 1.

(** The binary search for the number of long years before [year]. *)
Fixpoint week53_search (years : list Z) (fuel : nat) (lower upper year : Z) : res Z :=
  match fuel with
  | O => Err EFuel
  | S fuel =>
      if lower <? upper then
        let middle := Z.quot (lower + upper) 2 in
        y ← go_index years middle;
        if y <? year then week53_search years fuel (middle + 1) upper year
        else week53_search years fuel lower middle year
      else Ok lower
  end.

Definition priorWeek53Count (year : Z) : res Z :=
  week53_search yearsWithWeek53 search_fuel 0 (zlen yearsWithWeek53) year.

Definition weekOrdinal (year week : Z) : res Z :=
  if year =? 0 then if week =? 53 then Ok 0 else Err errTemporal
  else
    priorLongYears ← priorWeek53Count year;
    lacks ← (if week =? 53 then
               if zlen yearsWithWeek53 <=? priorLongYears then Ok true
               else y ← go_index yearsWithWeek53 priorLongYears; Ok (negb (y =? year))
             else Ok false);
    if (lacks : bool) then Err errTemporal
    else Ok (priorLongYears * 53 + (year - 1 - priorLongYears) * 52 + week).

Fixpoint week_search (fuel : nat) (lower upper ordinal : Z) : res Z :=
  match fuel with
  | O => Err EFuel
  | S fuel =>
      if lower <? upper then
        let year := Z.quot (lower + upper) 2 in
        c ← priorWeek53Count (year + 1);
        if ordinal <=? year * 52 + c then week_search fuel lower year ordinal
        else week_search fuel (year + 1) upper ordinal
      else Ok lower
  end.

Definition weekFromOrdinal (ordinal : Z) : res (Z * Z) :=
  if ordinal =? 0 then Ok (0, 53)
  else
    year ← week_search search_fuel 1 9999 ordinal;
    c ← priorWeek53Count year;
    Ok (year, ordinal - ((year - 1) * 52 + c)).

(** ** Raw values *)
Definition int16 (z : Z) : Z := (z + 2 ^ 15) mod 2 ^ 16 - 2 ^ 15.

(** [temporalSpecs[exid]], the zero value where there is none *)
Definition spec_of (exid : bytes) : temporalSpec := default (mkSpec 0 0) (temporalSpecs exid).

Definition encodeRaw (exid : bytes) (raw : Z) : res bytes :=
  let spec := spec_of exid in
  if (raw <? 0) || (ts_maximumRaw spec <? raw) then Err errTemporal
  else if ts_byteLength spec =? 8 then Ok (le_split 8 (uint64 raw))
  else if ts_byteLength spec =? 4 then Ok (le_split 4 (uint32 (int32 raw)))
  else if ts_byteLength spec <? 2 then Panic
  else Ok (le_split 2 (uint16 (int16 raw))).

Definition rawValue (exid : bytes) (value : bytes) : res Z :=
  let spec := spec_of exid in
  if negb (zlen value =? ts_byteLength spec) then Err errTemporal
  else
    raw ← (if ts_byteLength spec =? 8 then u ← le_uint 8 value; Ok (int64 u)
           else if ts_byteLength spec =? 4 then u ← le_uint 4 value; Ok (int32 u)
           else u ← le_uint 2 value; Ok (int16 u));
    if (raw <? 0) || (ts_maximumRaw spec <? raw) then Err errTemporal else Ok raw.

(** ** The forms: groups of digits and literal bytes, up to the end of the text *)
Inductive piece : Type := Digits (n : nat) | Byte_ (b : byte).

Fixpoint matchForm (form : list piece) (value : bytes) : option (list bytes) :=
  match form with
  | [] => match value with [] => Some [] | _ => None end
  | Digits n :: form =>
      if is_digits n (take n value) then gs ← matchForm form (drop n value); Some (take n value :: gs) else None
  | Byte_ b :: form =>
      match value with
      | c :: value => if bool_decide (c = b) then matchForm form value else None
      | [] => None
      end
  end.

Definition dForm : list piece := [Digits 4; Byte_ "-"; Digits 2; Byte_ "-"; Digits 2].
Definition iForm : list piece := [Digits 2; Byte_ ":"; Digits 2].
Definition tForm : list piece := iForm ++ [Byte_ ":"; Digits 2].
Definition wForm : list piece := dForm ++ Byte_ "T" :: iForm.
Definition nForm : list piece := dForm ++ Byte_ "T" :: tForm.
Definition pForm : list piece := nForm ++ [Byte_ "."; Digits 7].
Definition weekF : list piece := [Digits 4; Byte_ "-"; Byte_ "W"; Digits 2].
Definition xForm : list piece := [Digits 4; Byte_ "-"; Digits 2].
Definition cForm : list piece := [Digits 2; Byte_ "-"; Digits 2].

(** [n, _ := strconv.Atoi(s)], on digits *)
Definition atoi (s : bytes) : Z := default 0 (Atoi s).

(** The sum of the months before [month] in a year with a leap day. *)
Fixpoint cday_before (n : nat) (candidate ordinal : Z) : res Z :=
  match n with
  | O => Ok ordinal
  | S n => d ← go_index daysByMonth (candidate - 1); cday_before n (candidate + 1) (ordinal + d)
  end.

(** The cases of [EncodeClassicTemporal]: the raw value of a text that is not initial. *)
Definition raw_utclong (value : bytes) : res Z :=
  match matchForm pForm value with
  | Some [y; mo; d; h; mi; s; f] =>
      date ← parseDateParts (atoi y) (atoi mo) (atoi d);
      clock ← parseClock (atoi h) (atoi mi) (atoi s) false;
      o ← dateOrdinal date;
      Ok (int64 (int64 (int64 (o * secondsPerDay + clockSeconds clock) * fractionsPerSecond) + atoi f + 1))
  | _ => Err errTemporal
  end.

Definition raw_utcsecond (value : bytes) : res Z :=
  match matchForm nForm value with
  | Some [y; mo; d; h; mi; s] =>
      date ← parseDateParts (atoi y) (atoi mo) (atoi d);
      clock ← parseClock (atoi h) (atoi mi) (atoi s) false;
      o ← dateOrdinal date;
      Ok (int64 (o * secondsPerDay + clockSeconds clock) + 1)
  | _ => Err errTemporal
  end.

Definition raw_utcminute (value : bytes) : res Z :=
  match matchForm wForm value with
  | Some [y; mo; d; h; mi] =>
      date ← parseDateParts (atoi y) (atoi mo) (atoi d);
      clock ← parseClock (atoi h) (atoi mi) 0 false;
      o ← dateOrdinal date;
      Ok (int64 (o * minutesPerDay + ck_hour clock * 60 + ck_minute clock) + 1)
  | _ => Err errTemporal
  end.

Definition raw_dtday (value : bytes) : res Z :=
  match matchForm dForm value with
  | Some [y; mo; d] =>
      date ← parseDateParts (atoi y) (atoi mo) (atoi d);
      o ← dateOrdinal date;
      Ok (o + 1)
  | _ => Err errTemporal
  end.

Definition raw_dtweek (value : bytes) : res Z :=
  match matchForm weekF value with
  | Some [y; w] =>
      if (atoi w <? 1) || (53 <? atoi w) then Err errTemporal
      else o ← weekOrdinal (atoi y) (atoi w); Ok (o + 1)
  | _ => Err errTemporal
  end.

Definition raw_dtmonth (value : bytes) : res Z :=
  match matchForm xForm value with
  | Some [y; mo] =>
      if (atoi y <? 1) || (9999 <? atoi y) then Err errTemporal
      else if (atoi mo <? 1) || (12 <? atoi mo) then Err errTemporal
      else Ok ((atoi y - 1) * 12 + atoi mo)
  | _ => Err errTemporal
  end.

Definition raw_tsecond (value : bytes) : res Z :=
  match matchForm tForm value with
  | Some [h; mi; s] =>
      clock ← parseClock (atoi h) (atoi mi) (atoi s) true;
      Ok (clockSeconds clock + 1)
  | _ => Err errTemporal
  end.

Definition raw_tminute (value : bytes) : res Z :=
  match matchForm iForm value with
  | Some [h; mi] =>
      clock ← parseClock (atoi h) (atoi mi) 0 true;
      Ok (ck_hour clock * 60 + ck_minute clock + 1)
  | _ => Err errTemporal
  end.

Definition raw_cday (value : bytes) : res Z :=
  match matchForm cForm value with
  | Some [mo; d] =>
      if (atoi mo <? 1) || (12 <? atoi mo) then Err errTemporal
      else
        longest ← go_index daysByMonth (atoi mo - 1);
        if (atoi d <? 1) || (longest <? atoi d) then Err errTemporal
        else cday_before (Z.to_nat (atoi mo - 1)) 1 (atoi d)
  | _ => Err errTemporal
  end.

Definition temporal_raw (exid value : bytes) : res Z :=
  if bool_decide (exid = lit "p") then raw_utclong value
  else if bool_decide (exid = lit "n") then raw_utcsecond value
  else if bool_decide (exid = lit "w") then raw_utcminute value
  else if bool_decide (exid = lit "d") then raw_dtday value
  else if bool_decide (exid = lit "7") then raw_dtweek value
  else if bool_decide (exid = lit "x") then raw_dtmonth value
  else if bool_decide (exid = lit "t") then raw_tsecond value
  else if bool_decide (exid = lit "i") then raw_tminute value
  else raw_cday value.

Definition EncodeClassicTemporal (exid value : bytes) : res bytes :=
  _ ← specification exid;
  if bool_decide (value = []) || (bool_decide (exid = lit "p") && bool_decide (value = utclongInitial))
  then encodeRaw exid 0
  else raw ← temporal_raw exid value; encodeRaw exid raw.

(** The loop over the months of a CDAY; twelve rounds are more than a value in range takes. *)
Fixpoint cday_search (fuel : nat) (month remaining : Z) : res (Z * Z) :=
  match fuel with
  | O => Err EFuel
  | S fuel =>
      longest ← go_index daysByMonth (month - 1);
      if longest <=? remaining then cday_search fuel (month + 1) (remaining - longest)
      else Ok (month, remaining)
  end.

(** The cases of [DecodeClassicTemporal]: the text of an ordinal. *)
Definition text_utclong (ordinal : Z) : res bytes :=
  let withinDay := Z.rem ordinal fractionsPerDay in
  d ← dateFromOrdinal (Z.quot ordinal fractionsPerDay);
  Ok (formatDate d ++ lit "T" ++ formatClock (Z.quot withinDay fractionsPerSecond) true
      ++ lit "." ++ padded 7 (Z.rem withinDay fractionsPerSecond)).

Definition text_utcsecond (ordinal : Z) : res bytes :=
  d ← dateFromOrdinal (Z.quot ordinal secondsPerDay);
  Ok (formatDate d ++ lit "T" ++ formatClock (Z.rem ordinal secondsPerDay) true).

Definition text_utcminute (ordinal : Z) : res bytes :=
  let minutes := Z.rem ordinal minutesPerDay in
  d ← dateFromOrdinal (Z.quot ordinal minutesPerDay);
  Ok (formatDate d ++ lit "T" ++ padded 2 (Z.quot minutes 60) ++ lit ":" ++ padded 2 (Z.rem minutes 60)).

Definition text_dtday (ordinal : Z) : res bytes :=
  d ← dateFromOrdinal ordinal; Ok (formatDate d).

Definition text_dtweek (ordinal : Z) : res bytes :=
  '(year, week) ← weekFromOrdinal ordinal; Ok (padded 4 year ++ lit "-W" ++ padded 2 week).

Definition text_dtmonth (ordinal : Z) : res bytes :=
  Ok (padded 4 (Z.quot ordinal 12 + 1) ++ lit "-" ++ padded 2 (Z.rem ordinal 12 + 1)).

Definition text_tsecond (ordinal : Z) : res bytes :=
  Ok (formatClock ordinal true).

Definition text_tminute (ordinal : Z) : res bytes :=
  Ok (padded 2 (Z.quot ordinal 60) ++ lit ":" ++ padded 2 (Z.rem ordinal 60)).

Definition text_cday (ordinal : Z) : res bytes :=
  '(month, remaining) ← cday_search 13 1 ordinal;
  Ok (padded 2 month ++ lit "-" ++ padded 2 (remaining + 1)).

Definition temporal_text (exid : bytes) (ordinal : Z) : res bytes :=
  if bool_decide (exid = lit "p") then text_utclong ordinal
  else if bool_decide (exid = lit "n") then text_utcsecond ordinal
  else if bool_decide (exid = lit "w") then text_utcminute ordinal
  else if bool_decide (exid = lit "d") then text_dtday ordinal
  else if bool_decide (exid = lit "7") then text_dtweek ordinal
  else if bool_decide (exid = lit "x") then text_dtmonth ordinal
  else if bool_decide (exid = lit "t") then text_tsecond ordinal
  else if bool_decide (exid = lit "i") then text_tminute ordinal
  else text_cday ordinal.

Definition DecodeClassicTemporal (exid value : bytes) : res bytes :=
  _ ← specification exid;
  raw ← rawValue exid value;
  if raw =? 0 then ClassicTemporalInitialValue exid else temporal_text exid (raw - 1).

(** ** The calendar, as a sum of month lengths *)
#[local] Ltac Zify.zify_post_hook ::= Z.to_euclidean_division_equations.

(** The twelve months. *)
Ltac month_cases m :=
  let Hc := fresh in
  assert (m = 1 \/ m = 2 \/ m = 3 \/ m = 4 \/ m = 5 \/ m = 6 \/ m = 7 \/ m = 8 \/ m = 9 \/ m = 10 \/ m = 11 \/ m = 12)
    as Hc by lia;
  repeat destruct Hc as [Hc|Hc]; subst m.

(** The length of a month between 1 and 12. *)
Definition month_len (y m : Z) : Z :=
  if m =? 2 then if isLeapYear y then 29 else 28
  else if (y =? 1582) && (m =? 10) then 21
  else nth (Z.to_nat (m - 1)) daysByMonth 0.

Lemma daysInMonth_ok y m : 1 <= m <= 12 -> daysInMonth y m = Ok (month_len y m).
Proof.
  intros Hm. unfold daysInMonth, month_len. case_match; [done|]. case_match; [done|].
  month_cases m; reflexivity.
Qed.

(** The days before month [n + 1]. *)
Fixpoint cum (y : Z) (n : nat) : Z :=
  match n with O => 0 | S n => cum y n + month_len y (Z.of_nat n + 1) end.

Lemma cum_S y n : cum y (S n) = cum y n + month_len y (Z.of_nat n + 1).
Proof. done. Qed.

Lemma month_len_pos y m : 1 <= m <= 12 -> 21 <= month_len y m <= 31.
Proof.
  intros Hm. unfold month_len. case_match; [case_match; lia|]. case_match; [lia|].
  month_cases m; split; vm_compute; discriminate.
Qed.

Lemma cum_mono y i j : (i <= j <= 12)%nat -> cum y i <= cum y j.
Proof.
  induction j as [|j IH]; intros Hij; [by replace i with 0%nat by lia|].
  destruct (decide (i = S j)) as [->|]; [done|]. cbn [cum].
  assert (cum y i <= cum y j) by (apply IH; lia). pose proof (month_len_pos y (Z.of_nat j + 1) ltac:(lia)). lia.
Qed.

Lemma months_before_ok n y k acc :
  (k + n <= 12)%nat -> months_before n y (Z.of_nat k + 1) acc = Ok (acc + (cum y (k + n) - cum y k)).
Proof.
  revert k acc. induction n as [|n IH]; intros k acc Hk; cbn [months_before].
  { rewrite Nat.add_0_r. f_equal. lia. }
  rewrite daysInMonth_ok by lia. cbn [mbind outcome_bind].
  replace (Z.of_nat k + 1 + 1) with (Z.of_nat (S k) + 1) by lia. rewrite IH by lia.
  f_equal. replace (k + S n)%nat with (S k + n)%nat by lia. cbn [cum]. lia.
Qed.

(** Where a day of the year falls: the month search finds the month it is in. *)
Lemma month_search_at n y k j r :
  (k + n = 12)%nat -> (k <= j < 12)%nat -> 0 <= r < month_len y (Z.of_nat j + 1) ->
  month_search n y (Z.of_nat k + 1) (cum y j - cum y k + r) = Ok (Z.of_nat j + 1, r).
Proof.
  revert k. induction n as [|n IH]; intros k Hn Hj Hr; [lia|]. cbn [month_search].
  rewrite daysInMonth_ok by lia. cbn [mbind outcome_bind].
  destruct (decide (j = k)) as [->|Hne].
  { replace (cum y k - cum y k + r) with r by lia. by rewrite (proj2 (Z.ltb_lt r _)) by lia. }
  pose proof (cum_mono y (S k) j ltac:(lia)) as Hc. cbn [cum] in Hc.
  rewrite (proj2 (Z.ltb_ge _ _)) by lia.
  replace (Z.of_nat k + 1 + 1) with (Z.of_nat (S k) + 1) by lia.
  rewrite <- (IH (S k)) by lia. f_equal. cbn [cum]. lia.
Qed.

Lemma month_locate n y k r :
  (k + n = 12)%nat -> 0 <= r < cum y 12 - cum y k ->
  exists j r', (k <= j < 12)%nat /\ 0 <= r' < month_len y (Z.of_nat j + 1) /\ r = cum y j - cum y k + r'.
Proof.
  revert k r. induction n as [|n IH]; intros k r Hn Hr; [replace k with 12%nat in Hr by lia; lia|].
  destruct (decide (r < month_len y (Z.of_nat k + 1))) as [Hlt|Hge]; [exists k, r; lia|].
  destruct (IH (S k) (r - month_len y (Z.of_nat k + 1))) as (j & r' & Hj & Hr' & He); [lia|rewrite (cum_S y k); lia|].
  exists j, r'. rewrite (cum_S y k) in He. lia.
Qed.

(** The days before a year, with the leap days counted at once. *)
Lemma previous_years p :
  0 <= p ->
  daysInPreviousYears (p + 1) =
    365 * p + p / 4 + (if p <=? 1600 then 0 else 12 - p / 100 + p / 400) - (if p <? 1582 then 0 else 10).
Proof.
  intros Hp. unfold daysInPreviousYears. replace (p + 1 - 1) with p by lia.
  assert (exists a b c d, p = 400 * a + 100 * b + 4 * c + d /\ 0 <= a /\ 0 <= b < 4 /\ 0 <= c < 25 /\ 0 <= d < 4)
    as (a & b & c & d & -> & Ha & Hb & Hc & Hd).
  { exists (p / 400), (p mod 400 / 100), (p mod 100 / 4), (p mod 4). lia. }
  set (p := 400 * a + 100 * b + 4 * c + d) in *.
  assert (p / 4 = 100 * a + 25 * b + c) as -> by (subst p; lia).
  assert (p / 100 = 4 * a + b) as -> by (subst p; lia).
  assert (p / 400 = a) as -> by (subst p; lia).
  destruct (p <=? 1600) eqn:E2.
  - rewrite (proj2 (Z.ltb_ge 1600 p)) by lia.
    assert (Z.quot p 100 = 4 * a + b) as -> by (subst p; lia).
    assert (Z.rem p 100 = 4 * c + d) as -> by (subst p; lia).
    assert (Z.quot (4 * c + d) 4 = c) as -> by lia. assert (Z.rem (4 * c + d) 4 = d) as -> by lia.
    destruct (1582 <? p + 1) eqn:E3; destruct (p <? 1582) eqn:E4; subst p; lia.
  - rewrite (proj2 (Z.ltb_lt 1600 p)) by lia. rewrite (proj2 (Z.ltb_lt 1582 (p + 1))), (proj2 (Z.ltb_ge p 1582)) by lia.
    assert (Z.quot (p - 1600) 400 = a - 4) as -> by (subst p; lia).
    assert (Z.rem (p - 1600) 400 = 100 * b + 4 * c + d) as -> by (subst p; lia).
    assert (Z.rem (100 * b + 4 * c + d) 100 = 4 * c + d) as -> by lia.
    assert (Z.quot (100 * b + 4 * c + d) 100 = b) as -> by lia.
    assert (Z.quot (4 * c + d) 4 = c) as -> by lia. assert (Z.rem (4 * c + d) 4 = d) as -> by lia.
    change (Z.quot 1600 100) with 16. change (Z.rem 1600 100) with 0. change (Z.quot 0 4) with 0. change (Z.rem 0 4) with 0.
    subst p. lia.
Qed.

Lemma year_length y : 1 <= y -> daysInPreviousYears (y + 1) = daysInPreviousYears y + cum y 12.
Proof.
  intros Hy. rewrite previous_years by lia.
  replace (daysInPreviousYears y) with (daysInPreviousYears (y - 1 + 1)) by (f_equal; lia). rewrite previous_years by lia.
  assert (cum y 12 = (if isLeapYear y then 366 else 365) - (if y =? 1582 then 10 else 0)) as ->.
  { unfold cum, month_len. destruct (isLeapYear y), (y =? 1582); reflexivity. }
  unfold isLeapYear. repeat case_match; lia.
Qed.

Lemma previous_years_lt y z : 1 <= y -> y < z -> daysInPreviousYears y < daysInPreviousYears z.
Proof.
  intros Hy Hz. replace z with (y + (z - y - 1) + 1) by lia.
  assert (0 <= z - y - 1) as Hn by lia. revert Hn. generalize (z - y - 1) as n. clear z Hz.
  assert (forall z, 1 <= z -> daysInPreviousYears z < daysInPreviousYears (z + 1)) as Hs.
  { intros z Hz. rewrite year_length by lia. pose proof (cum_mono z 1 12 ltac:(lia)) as Hc.
    change (cum z 1) with (month_len z 1) in Hc. pose proof (month_len_pos z 1 ltac:(lia)). lia. }
  apply natlike_ind; [rewrite Z.add_0_r; by apply Hs|].
  intros n Hn IH. replace (y + Z.succ n + 1) with (y + n + 1 + 1) by lia.
  specialize (Hs (y + n + 1) ltac:(lia)). lia.
Qed.

Lemma year_search_ok fuel lower upper o :
  1 <= lower -> upper <= 9999 -> lower <= upper + 1 -> upper - lower + 1 < Z.of_nat fuel ->
  daysInPreviousYears (lower - 1) <= o < daysInPreviousYears (upper + 1) -> 0 <= o ->
  exists y, year_search fuel lower upper o = Ok y /\ 1 <= y <= 9999 /\
    daysInPreviousYears y <= o < daysInPreviousYears (y + 1).
Proof.
  revert lower upper. induction fuel as [|fuel IH]; intros lower upper Hl Hu Hlu Hf Hd Ho; [lia|].
  cbn [year_search]. destruct (lower <=? upper) eqn:E.
  - assert (lower <= Z.quot (lower + upper) 2 <= upper) as Hq by lia. set (c := Z.quot (lower + upper) 2) in *.
    destruct (daysInPreviousYears c <=? o) eqn:Ec; apply IH; try lia.
    + replace (c + 1 - 1) with c by lia. lia.
    + replace (c - 1 + 1) with c by lia. lia.
  - assert (lower = upper + 1) as -> by lia. replace (upper + 1 - 1) with upper in Hd by lia.
    exists upper. split; [done|]. split; [|lia].
    destruct (decide (upper = 0)) as [->|]; [|lia]. change (daysInPreviousYears (0 + 1)) with 0 in Hd. lia.
Qed.

(** ** Dates and their day numbers *)

(** The position of a day in its month, and the day at a position. *)
Definition day_index (y m d : Z) : Z := (if (y =? 1582) && (m =? 10) && (15 <=? d) then d - 10 else d) - 1.
Definition day_at (y m r : Z) : Z := if (y =? 1582) && (m =? 10) && (4 <? r + 1) then r + 1 + 10 else r + 1.

Record valid_date (d : calendarDate) : Prop := {
  vd_year : 1 <= cd_year d <= 9999;
  vd_month : 1 <= cd_month d <= 12;
  vd_day : 0 <= day_index (cd_year d) (cd_month d) (cd_day d) < month_len (cd_year d) (cd_month d);
  vd_at : day_at (cd_year d) (cd_month d) (day_index (cd_year d) (cd_month d) (cd_day d)) = cd_day d;
}.

Definition max_day : Z := 3652061.

Lemma day_index_at y m r : 0 <= r -> day_index y m (day_at y m r) = r.
Proof. intros Hr. unfold day_index, day_at. destruct ((y =? 1582) && (m =? 10)); cbn [andb]; repeat case_match; lia. Qed.

Lemma month_table m : 1 <= m <= 12 -> go_index (E := error) daysByMonth (m - 1) = Ok (nth (Z.to_nat (m - 1)) daysByMonth 0).
Proof. intros Hm. month_cases m; reflexivity. Qed.

Lemma parse_date_valid y m d : valid_date (mkDate y m d) -> parseDateParts y m d = Ok (mkDate y m d).
Proof.
  intros [Hy Hm Hd Ha]; cbn [cd_year cd_month cd_day] in *. unfold parseDateParts.
  rewrite (proj2 (Z.ltb_ge y 1)), (proj2 (Z.ltb_ge 9999 y)), (proj2 (Z.ltb_ge m 1)), (proj2 (Z.ltb_ge 12 m)) by lia.
  cbn [orb]. rewrite month_table by lia. cbn [mbind outcome_bind].
  unfold day_index, day_at, month_len in *.
  destruct (m =? 2) eqn:E2; [assert ((m =? 10) = false) as E10 by lia; rewrite E10, andb_false_r in *; cbn [andb] in *|
    destruct ((y =? 1582) && (m =? 10)) eqn:E1; cbn [andb] in *].
  - rewrite (proj2 (Z.ltb_ge d 1)), (proj2 (Z.ltb_ge _ d)) by lia. done.
  - apply andb_true_iff in E1 as [_ E1%Z.eqb_eq]. subst m. change (nth _ daysByMonth 0) with 31.
    destruct (15 <=? d) eqn:E15; destruct (4 <? _) eqn:E4 in Ha;
      rewrite (proj2 (Z.ltb_ge d 1)), (proj2 (Z.ltb_ge 31 d)) by lia; cbn [orb];
      destruct (5 <=? d) eqn:E5; destruct (d <=? 14) eqn:E14; cbn [andb]; try reflexivity; lia.
  - rewrite (proj2 (Z.ltb_ge d 1)), (proj2 (Z.ltb_ge _ d)) by lia. done.
Qed.

Lemma parse_date_inv y m d date : parseDateParts y m d = Ok date -> date = mkDate y m d /\ valid_date date.
Proof.
  unfold parseDateParts. destruct ((y <? 1) || (9999 <? y)) eqn:Ey; [done|]. destruct ((m <? 1) || (12 <? m)) eqn:Em; [done|].
  assert (1 <= y <= 9999 /\ 1 <= m <= 12) as [Hy Hm] by lia. rewrite month_table by done. cbn [mbind outcome_bind].
  destruct ((d <? 1) || _) eqn:Ed; [done|]. destruct (_ && (d <=? 14)) eqn:Eg; [done|]. intros H. apply Ok_inj in H. subst date.
  split; [done|]. split; cbn [cd_year cd_month cd_day]; [done..| |]; unfold day_index, day_at, month_len;
    destruct (m =? 2) eqn:E2.
  all: try (assert ((m =? 10) = false) as E10 by lia; rewrite E10, andb_false_r in *; cbn [andb] in *; lia).
  all: destruct ((y =? 1582) && (m =? 10)) eqn:E1; cbn [andb] in *; [|lia].
  all: apply andb_true_iff in E1 as [_ E1%Z.eqb_eq]; subst m; change (nth _ daysByMonth 0) with 31 in *.
  all: repeat case_match; lia.
Qed.

Lemma ordinal_of_valid d :
  valid_date d ->
  dateOrdinal d = Ok (daysInPreviousYears (cd_year d) + cum (cd_year d) (Z.to_nat (cd_month d - 1))
                      + day_index (cd_year d) (cd_month d) (cd_day d)).
Proof.
  intros [Hy Hm Hd Ha]. unfold dateOrdinal.
  pose proof (months_before_ok (Z.to_nat (cd_month d - 1)) (cd_year d) 0 (daysInPreviousYears (cd_year d)) ltac:(lia)) as H.
  change (Z.of_nat 0 + 1) with 1 in H. rewrite H. cbn [mbind outcome_bind cum Nat.add]. unfold day_index. f_equal. lia.
Qed.

(** The date on a day: the searches find the year and the month. *)
Lemma from_ordinal_at y m r :
  1 <= y <= 9999 -> 1 <= m <= 12 -> 0 <= r < month_len y m ->
  dateFromOrdinal (daysInPreviousYears y + cum y (Z.to_nat (m - 1)) + r) = Ok (mkDate y m (day_at y m r)).
Proof.
  intros Hy Hm Hr. assert (exists k, m = Z.of_nat k + 1 /\ (k < 12)%nat) as (k & -> & Hk) by (exists (Z.to_nat (m - 1)); lia).
  replace (Z.to_nat (Z.of_nat k + 1 - 1)) with k by lia.
  set (o := daysInPreviousYears y + cum y k + r).
  assert (daysInPreviousYears y <= o < daysInPreviousYears (y + 1)) as Ho.
  { rewrite year_length by lia. pose proof (cum_mono y 0 k ltac:(lia)). pose proof (cum_mono y (S k) 12 ltac:(lia)) as Hc.
    rewrite cum_S in Hc. change (cum y 0) with 0 in *. lia. }
  assert (daysInPreviousYears 1 <= daysInPreviousYears y) as H1.
  { destruct (decide (y = 1)) as [->|]; [done|]. pose proof (previous_years_lt 1 y). lia. }
  assert (daysInPreviousYears (y + 1) <= daysInPreviousYears 10000) as H2.
  { destruct (decide (y = 9999)) as [->|]; [done|]. pose proof (previous_years_lt (y + 1) 10000). lia. }
  change (daysInPreviousYears 1) with 0 in H1.
  destruct (year_search_ok search_fuel 1 9999 o) as (y' & Hs & Hy' & Hd); try (unfold search_fuel; lia).
  { change (daysInPreviousYears (1 - 1)) with (-365). change (9999 + 1) with 10000. lia. }
  assert (y' = y) as ->.
  { destruct (Z.lt_trichotomy y y') as [Hl|[->|Hl]]; [|done|].
    - destruct (decide (y + 1 = y')) as [<-|]; [lia|]. pose proof (previous_years_lt (y + 1) y'). lia.
    - destruct (decide (y' + 1 = y)) as [<-|]; [lia|]. pose proof (previous_years_lt (y' + 1) y). lia. }
  unfold dateFromOrdinal. rewrite Hs. cbn [mbind outcome_bind].
  pose proof (month_search_at 12 y 0 k r ltac:(lia) ltac:(lia) Hr) as Hm'. change (cum y 0) with 0 in Hm'.
  change (Z.of_nat 0 + 1) with 1 in Hm'. replace (o - daysInPreviousYears y) with (cum y k - 0 + r) by lia.
  rewrite Hm'. done.
Qed.

Lemma date_to_ordinal d :
  valid_date d -> exists o, dateOrdinal d = Ok o /\ 0 <= o < max_day /\ dateFromOrdinal o = Ok d.
Proof.
  intros H. pose proof (ordinal_of_valid d H) as Ho. destruct d as [y m d]. destruct H as [Hy Hm Hd Ha]; cbn [cd_year cd_month cd_day] in *.
  eexists. split; [exact Ho|]. split; [|rewrite from_ordinal_at by done; by rewrite Ha].
  assert (exists k, m = Z.of_nat k + 1 /\ (k < 12)%nat) as (k & -> & Hk) by (exists (Z.to_nat (m - 1)); lia).
  replace (Z.to_nat (Z.of_nat k + 1 - 1)) with k in * by lia.
  pose proof (cum_mono y 0 k ltac:(lia)) as H0. pose proof (cum_mono y (S k) 12 ltac:(lia)) as Hc. rewrite cum_S in Hc.
  change (cum y 0) with 0 in H0. pose proof (year_length y ltac:(lia)).
  assert (0 <= daysInPreviousYears y).
  { destruct (decide (y = 1)) as [->|]; [done|]. change 0 with (daysInPreviousYears 1). pose proof (previous_years_lt 1 y). lia. }
  assert (daysInPreviousYears (y + 1) <= max_day); [|lia].
  change max_day with (daysInPreviousYears 10000).
  destruct (decide (y = 9999)) as [->|]; [done|]. pose proof (previous_years_lt (y + 1) 10000). lia.
Qed.

Lemma date_of_ordinal o :
  0 <= o < max_day -> exists d, dateFromOrdinal o = Ok d /\ valid_date d /\ dateOrdinal d = Ok o.
Proof.
  intros Ho. destruct (year_search_ok search_fuel 1 9999 o) as (y & _ & Hy & Hd); try (unfold search_fuel; lia).
  { change (daysInPreviousYears (1 - 1)) with (-365). change (daysInPreviousYears (9999 + 1)) with max_day. lia. }
  rewrite year_length in Hd by lia.
  destruct (month_locate 12 y 0 (o - daysInPreviousYears y)) as (k & r & Hk & Hr & He); [done|change (cum y 0) with 0; lia|].
  change (cum y 0) with 0 in He. set (m := Z.of_nat k + 1) in *. assert (k = Z.to_nat (m - 1)) as Hkm by lia.
  assert (valid_date (mkDate y m (day_at y m r))) as Hv.
  { split; cbn [cd_year cd_month cd_day]; [lia|lia| |]; rewrite day_index_at by lia; [lia|done]. }
  exists (mkDate y m (day_at y m r)). split; [|split; [done|]].
  - rewrite <- (from_ordinal_at y m r) by lia. f_equal. rewrite <- Hkm. lia.
  - rewrite ordinal_of_valid by done. cbn [cd_year cd_month cd_day]. rewrite day_index_at, <- Hkm by lia. f_equal. lia.
Qed.

(** ** The calendar as a succession of days *)

(** The last day of a month; October 1582 ends on the 31st as every October does. *)
Definition last_day (y m : Z) : Z :=
  if m =? 2 then if isLeapYear y then 29 else 28 else nth (Z.to_nat (m - 1)) daysByMonth 0.

(** The day after a date: Thursday 1582-10-04 was followed by Friday 1582-10-15. *)
Definition next_day (d : calendarDate) : calendarDate :=
  if (cd_year d =? 1582) && (cd_month d =? 10) && (cd_day d =? 4) then mkDate 1582 10 15
  else if cd_day d <? last_day (cd_year d) (cd_month d) then mkDate (cd_year d) (cd_month d) (cd_day d + 1)
  else if cd_month d <? 12 then mkDate (cd_year d) (cd_month d + 1) 1
  else mkDate (cd_year d + 1) 1 1.

Lemma last_index y m : 1 <= m <= 12 -> day_index y m (last_day y m) = month_len y m - 1.
Proof.
  intros Hm. unfold day_index, last_day, month_len. destruct (m =? 2) eqn:E2.
  { assert ((m =? 10) = false) as E10 by lia. rewrite E10, andb_false_r. done. }
  destruct ((y =? 1582) && (m =? 10)) eqn:E; cbn [andb]; [|done].
  apply andb_true_iff in E as [_ E%Z.eqb_eq]. by subst m.
Qed.

Lemma first_of_month y m : 1 <= y <= 9999 -> 1 <= m <= 12 -> valid_date (mkDate y m 1) /\ day_index y m 1 = 0.
Proof.
  intros Hy Hm. pose proof (month_len_pos y m Hm).
  assert (day_index y m 1 = 0) as Hi by (unfold day_index; rewrite andb_false_r; done).
  split; [|done]. split; cbn [cd_year cd_month cd_day]; rewrite ?Hi; try lia. unfold day_at. by rewrite andb_false_r.
Qed.

Lemma valid_day_bounds d : valid_date d -> 1 <= cd_day d <= last_day (cd_year d) (cd_month d).
Proof.
  destruct d as [y m d]. intros [Hy Hm Hd Ha]; cbn [cd_year cd_month cd_day] in *.
  unfold day_index, day_at, last_day, month_len in *. destruct (m =? 2) eqn:E2.
  { assert ((m =? 10) = false) as E10 by lia. rewrite E10, !andb_false_r in *. cbn [andb] in *. lia. }
  destruct ((y =? 1582) && (m =? 10)) eqn:E; cbn [andb] in *; [|lia].
  apply andb_true_iff in E as [_ E%Z.eqb_eq]. subst m. change (nth _ daysByMonth 0) with 31. repeat case_match; lia.
Qed.

(** The day after, inside a month. *)
Lemma next_inside y m d :
  valid_date (mkDate y m d) -> (y =? 1582) && (m =? 10) && (d =? 4) = false -> d < last_day y m ->
  valid_date (mkDate y m (d + 1)) /\ day_index y m (d + 1) = day_index y m d + 1.
Proof.
  intros Hv Hg Hl. pose proof (valid_day_bounds _ Hv) as Hb. destruct Hv as [Hy Hm Hd Ha]; cbn [cd_year cd_month cd_day] in *.
  assert (day_index y m (d + 1) = day_index y m d + 1 /\ day_at y m (day_index y m (d + 1)) = d + 1
    /\ day_index y m (d + 1) < month_len y m) as (H1 & H2 & H3).
  { unfold day_index, day_at, last_day, month_len in *. destruct (m =? 2) eqn:E2.
    { assert ((m =? 10) = false) as E10 by lia. rewrite E10, !andb_false_r in *. cbn [andb] in *. lia. }
    destruct ((y =? 1582) && (m =? 10)) eqn:E; cbn [andb] in *; [|lia].
    apply andb_true_iff in E as [_ E%Z.eqb_eq]. subst m. change (nth _ daysByMonth 0) with 31 in *. repeat case_match; lia. }
  split; [|done]. split; cbn [cd_year cd_month cd_day]; [lia|lia|lia|done].
Qed.

(** dateOrdinal counts days: on every valid date but the last the next day of the calendar,
    with its leap years and the ten days dropped in October 1582, has the next ordinal. *)
Theorem ordinal_counts_days d :
  valid_date d -> d <> mkDate 9999 12 31 ->
  valid_date (next_day d) /\ exists o, dateOrdinal d = Ok o /\ dateOrdinal (next_day d) = Ok (o + 1).
Proof.
  intros Hv Hne. pose proof (valid_day_bounds d Hv) as Hb. destruct d as [y m d].
  pose proof Hv as [Hy Hm Hd Ha]; cbn [cd_year cd_month cd_day] in *. unfold next_day; cbn [cd_year cd_month cd_day].
  destruct (_ && (d =? 4)) eqn:Eg.
  { apply andb_true_iff in Eg as [Eg ->%Z.eqb_eq]. apply andb_true_iff in Eg as [->%Z.eqb_eq ->%Z.eqb_eq].
    assert (valid_date (mkDate 1582 10 15)) as Hv'
      by (split; [by cbn|by cbn|by split; vm_compute|by vm_compute]).
    split; [done|]. rewrite !ordinal_of_valid by done. eexists. split; [reflexivity|]. by vm_compute. }
  assert (forall d', valid_date d' -> forall o o', dateOrdinal d' = Ok o' -> o' = o + 1 ->
    valid_date d' /\ (exists p, (Ok o : res Z) = Ok p /\ dateOrdinal d' = Ok (p + 1))) as Hclose.
  { intros d' Hv' o o' Ho ->. split; [done|]. by exists o. }
  rewrite (ordinal_of_valid _ Hv). cbn [cd_year cd_month cd_day].
  destruct (d <? last_day y m) eqn:El.
  { destruct (next_inside y m d Hv Eg) as [Hv' Hi]; [lia|]. eapply Hclose; [done|by apply ordinal_of_valid|]. cbn [cd_year cd_month cd_day]. lia. }
  assert (d = last_day y m) as -> by lia. rewrite last_index by done.
  assert (cum y (Z.to_nat (m - 1)) + month_len y m = cum y (Z.to_nat m)) as Hc.
  { replace (Z.to_nat m) with (S (Z.to_nat (m - 1))) by lia. rewrite cum_S. do 2 f_equal. lia. }
  destruct (m <? 12) eqn:E12.
  - destruct (first_of_month y (m + 1)) as [Hv' Hi]; [lia..|]. eapply Hclose; [done|by apply ordinal_of_valid|].
    cbn [cd_year cd_month cd_day]. rewrite Hi. replace (m + 1 - 1) with m by lia. lia.
  - assert (m = 12) as -> by lia. change (last_day y 12) with 31 in *.
    assert (y <> 9999) by (intros ->; done). destruct (first_of_month (y + 1) 1) as [Hv' Hi]; [lia..|].
    eapply Hclose; [done|by apply ordinal_of_valid|]. cbn [cd_year cd_month cd_day]. rewrite Hi, year_length by lia.
    change (Z.to_nat (1 - 1)) with 0%nat. change (cum (y + 1) 0) with 0. change (Z.to_nat 12) with 12%nat in Hc. lia.
Qed.

Lemma ordinal_counts_days_witness :
  valid_date (mkDate 1582 10 15) /\ exists o, dateOrdinal (mkDate 1582 10 4) = Ok o /\ dateOrdinal (mkDate 1582 10 15) = Ok (o + 1).
Proof.
  assert (valid_date (mkDate 1582 10 4)) as Hv by (split; [by cbn|by cbn|by split; vm_compute|by vm_compute]).
  exact (ordinal_counts_days (mkDate 1582 10 4) Hv ltac:(discriminate)).
Defined.

(** ** Long years *)
Lemma go_index_lookup {A} (l : list A) i : 0 <= i ->
  go_index (E := error) l i = match l !! Z.to_nat i with Some a => Ok a | None => Panic end.
Proof. intros Hi. unfold go_index. by rewrite (proj2 (Z.ltb_ge i 0)) by lia. Qed.

(** The number of elements below [y] in an increasing list. *)
Definition rank (l : list Z) (y : Z) : Z := zlen (filter (fun x => x < y) l).

Definition increasing (l : list Z) : Prop := forall i j x z, l !! i = Some x -> l !! j = Some z -> (i < j)%nat -> x < z.

Lemma increasing_cons x l : increasing (x :: l) <-> Forall (Z.lt x) l /\ increasing l.
Proof.
  split.
  - intros H. split; [|intros i j a b Ha Hb Hij; apply (H (S i) (S j)); [done|done|lia]].
    apply Forall_lookup. intros i z Hz. apply (H 0%nat (S i) x z); [done|done|lia].
  - intros [Hf Hi] [|i] [|j] a b Ha Hb Hij; try lia; cbn in Ha, Hb; [|by eapply Hi; [..|apply Nat.succ_lt_mono]].
    simplify_eq. by eapply Forall_lookup_1 in Hf.
Qed.

Lemma rank_cons x l y : rank (x :: l) y = (if decide (x < y) then 1 else 0) + rank l y.
Proof. unfold rank. rewrite filter_cons. case_decide; unfold zlen; cbn [length]; lia. Qed.

Lemma rank_bounds l y : 0 <= rank l y <= zlen l.
Proof.
  unfold rank, zlen. pose proof (length_filter (fun x => x < y) l). lia.
Qed.

Lemma rank_zero l y : Forall (Z.le y) l -> rank l y = 0.
Proof.
  induction 1 as [|x l Hx _ IH]; [done|]. rewrite rank_cons, decide_False by lia. lia.
Qed.

(** In an increasing list the elements below [y] are those in front of position [rank l y]. *)
Lemma rank_lookup l y i x : increasing l -> l !! i = Some x -> (x < y <-> Z.of_nat i < rank l y).
Proof.
  revert i. induction l as [|a l IH]; intros i Hl Hi; [done|].
  apply increasing_cons in Hl as [Hf Hl]. rewrite rank_cons. pose proof (rank_bounds l y) as Hb. case_decide as Ha.
  - destruct i as [|i]; cbn in Hi; [simplify_eq; lia|]. rewrite (IH i Hl Hi). lia.
  - rewrite (rank_zero l y) by (eapply Forall_impl; [exact Hf|]; intros; cbn in *; lia).
    destruct i as [|i]; cbn in Hi; [simplify_eq; lia|]. pose proof (Forall_lookup_1 _ _ _ _ Hf Hi). cbn in *. lia.
Qed.

Lemma rank_succ l y : increasing l -> rank l (y + 1) = rank l y + (if decide (y ∈ l) then 1 else 0).
Proof.
  induction l as [|a l IH]; intros Hl; [by rewrite decide_False by set_solver|].
  apply increasing_cons in Hl as [Hf Hl]. specialize (IH Hl). rewrite !rank_cons, IH.
  destruct (decide (a = y)) as [->|Hne].
  - rewrite (decide_True _ _ (proj2 (elem_of_cons l y y) (or_introl eq_refl))).
    rewrite (decide_False (P := y ∈ l)) by (intros Hin; rewrite Forall_forall in Hf; specialize (Hf y Hin); lia).
    rewrite !decide_True, decide_False by lia. lia.
  - destruct (decide (y ∈ a :: l)) as [Hin|Hin]; destruct (decide (y ∈ l)) as [Hin'|Hin']; rewrite elem_of_cons in Hin;
      [|exfalso; destruct Hin; congruence|exfalso; tauto|]; repeat case_decide; lia.
Qed.

Lemma rank_member l y : increasing l -> y ∈ l <-> l !! Z.to_nat (rank l y) = Some y.
Proof.
  intros Hl. split.
  - intros [i Hi]%list_elem_of_lookup_1. pose proof (rank_lookup l y i y Hl Hi) as H1.
    pose proof (rank_lookup l (y + 1) i y Hl Hi) as H2. pose proof (rank_succ l y Hl) as H3.
    pose proof (rank_bounds l y). rewrite decide_True in H3 by (by eapply list_elem_of_lookup_2).
    by replace (Z.to_nat (rank l y)) with i by lia.
  - apply list_elem_of_lookup_2.
Qed.

Lemma week53_years_in n y x : x ∈ week53_years n y <-> y <= x < y + Z.of_nat n /\ calendarYearHasWeek53 x = true.
Proof.
  revert y. induction n as [|n IH]; intros y; cbn [week53_years]; [split; [set_solver|lia]|].
  destruct (calendarYearHasWeek53 y) eqn:E; rewrite ?elem_of_cons, IH; split.
  - intros [->|H]; [split; [lia|done]|split; [lia|tauto]].
  - intros [H1 H2]. destruct (decide (x = y)); [by left|right; split; [lia|done]].
  - intros [H1 H2]. split; [lia|done].
  - intros [H1 H2]. destruct (decide (x = y)); [congruence|]. split; [lia|done].
Qed.

Lemma week53_years_increasing n y : increasing (week53_years n y).
Proof.
  revert y. induction n as [|n IH]; intros y; cbn [week53_years]; [intros i j ? ? H; done|].
  case_match; [|done]. apply increasing_cons. split; [|done].
  apply Forall_forall. intros x Hx. apply week53_years_in in Hx. lia.
Qed.

Lemma long_years_count : zlen yearsWithWeek53 = 1776.
Proof. by vm_compute. Qed.

Lemma long_increasing : increasing yearsWithWeek53.
Proof. apply week53_years_increasing. Qed.

Lemma long_bounds y : y ∈ yearsWithWeek53 -> 1 <= y <= 9999.
Proof. intros [H _]%week53_years_in. lia. Qed.

#[local] Opaque yearsWithWeek53.

Lemma week53_search_ok l fuel lower upper year :
  increasing l -> 0 <= lower <= rank l year -> rank l year <= upper <= zlen l ->
  upper - lower < Z.of_nat fuel -> week53_search l fuel lower upper year = Ok (rank l year).
Proof.
  intros Hi. revert lower upper. induction fuel as [|fuel IH]; intros lower upper Hl Hu Hf; [lia|]. cbn [week53_search].
  destruct (lower <? upper) eqn:E; [|f_equal; lia].
  assert (lower <= Z.quot (lower + upper) 2 < upper) as Hq by lia. set (c := Z.quot (lower + upper) 2) in *.
  destruct (lookup_lt_is_Some_2 l (Z.to_nat c)) as [y Hy]; [unfold zlen in *; lia|].
  rewrite go_index_lookup, Hy by lia. cbn [mbind outcome_bind]. pose proof (rank_lookup _ year _ _ Hi Hy) as Hr.
  destruct (y <? year) eqn:Ey; apply IH; lia.
Qed.

Definition W (y : Z) : Z := rank yearsWithWeek53 y.

Lemma prior_ok y : priorWeek53Count y = Ok (W y).
Proof.
  unfold priorWeek53Count. pose proof (rank_bounds yearsWithWeek53 y). apply week53_search_ok; [exact long_increasing|lia|lia|].
  rewrite long_years_count. unfold search_fuel. lia.
Qed.

Lemma W_succ y : W (y + 1) = W y + (if decide (y ∈ yearsWithWeek53) then 1 else 0).
Proof. apply rank_succ, long_increasing. Qed.

Lemma W_first : W 1 = 0.
Proof. apply rank_zero. apply Forall_forall. intros x Hx%long_bounds. lia. Qed.

Lemma W_last : W 10000 = 1776.
Proof.
  assert (forall l, Forall (fun x => x < 10000) l -> rank l 10000 = zlen l) as H.
  { induction 1 as [|x l Hx _ IH]; [done|]. rewrite rank_cons, decide_True, IH by done. unfold zlen. cbn [length]. lia. }
  unfold W. rewrite H; [exact long_years_count|]. apply Forall_forall. intros x Hx%long_bounds. lia.
Qed.

(** ** Weeks and their numbers *)

(** The weeks up to the end of a year. *)
Definition weeks_through (y : Z) : Z := y * 52 + W (y + 1).

Lemma weeks_succ y :
  weeks_through y = weeks_through (y - 1) + (if decide (y ∈ yearsWithWeek53) then 53 else 52).
Proof. unfold weeks_through. replace (y - 1 + 1) with y by lia. rewrite W_succ. case_decide; lia. Qed.

Lemma weeks_lt y z : y < z -> weeks_through y < weeks_through z.
Proof.
  intros Hz. replace z with (y + 1 + (z - y - 1)) by lia. assert (0 <= z - y - 1) as Hn by lia.
  revert Hn. generalize (z - y - 1) as n. clear z Hz. apply natlike_ind.
  - rewrite Z.add_0_r, (weeks_succ (y + 1)). replace (y + 1 - 1) with y by lia. case_decide; lia.
  - intros n Hn IH. rewrite (weeks_succ (y + 1 + Z.succ n)). replace (y + 1 + Z.succ n - 1) with (y + 1 + n) by lia.
    case_decide; lia.
Qed.

Lemma weeks_zero : weeks_through 0 = 0.
Proof. unfold weeks_through. change (0 + 1) with 1. by rewrite W_first. Qed.

Definition valid_week (y w : Z) : Prop :=
  (y = 0 /\ w = 53) \/ (1 <= y <= 9999 /\ 1 <= w <= 53 /\ (w = 53 -> y ∈ yearsWithWeek53)).

Definition week_number (y w : Z) : Z := if y =? 0 then 0 else weeks_through (y - 1) + w.

(** The number of a week, and what [weekOrdinal] accepts. *)
Lemma weekOrdinal_spec y w :
  0 <= y <= 9999 -> 1 <= w <= 53 ->
  weekOrdinal y w = Ok (week_number y w) /\ valid_week y w \/ weekOrdinal y w = Err errTemporal /\ ~ valid_week y w.
Proof.
  intros Hy Hw. unfold weekOrdinal, week_number, valid_week. destruct (y =? 0) eqn:E0.
  { destruct (w =? 53) eqn:E; [left; split; [done|lia]|right; split; [done|lia]]. }
  rewrite (prior_ok y). cbn [mbind outcome_bind]. pose proof (rank_member yearsWithWeek53 y long_increasing) as Hm.
  pose proof (rank_bounds yearsWithWeek53 y) as Hb. fold (W y) in *.
  assert (W y * 53 + (y - 1 - W y) * 52 + w = weeks_through (y - 1) + w) as Hn.
  { unfold weeks_through. replace (y - 1 + 1) with y by lia. lia. }
  destruct (w =? 53) eqn:E53; cbn [mbind outcome_bind]; [|rewrite Hn; left; split; [done|lia]].
  destruct (zlen yearsWithWeek53 <=? W y) eqn:El; cbn [mbind outcome_bind].
  { right. split; [done|]. intros [H|(_ & _ & H)]; [lia|]. specialize (H ltac:(lia)). apply Hm, lookup_lt_Some in H.
    unfold zlen in *. lia. }
  rewrite go_index_lookup by lia. destruct (yearsWithWeek53 !! Z.to_nat (W y)) as [x|] eqn:Ex.
  - cbn [mbind outcome_bind]. destruct (x =? y) eqn:Exy; cbn [negb].
    + left. rewrite Hn. split; [done|]. right. split; [lia|]. split; [lia|]. intros _. apply Hm. f_equal. lia.
    + right. split; [done|]. intros [H|(_ & _ & H)]; [lia|]. specialize (H ltac:(lia)). apply Hm in H. simplify_eq. lia.
  - apply lookup_ge_None in Ex. unfold zlen in *. lia.
Qed.

Lemma week_search_ok fuel lower upper o :
  1 <= lower <= upper -> upper <= 9999 -> weeks_through (lower - 1) < o <= weeks_through upper ->
  upper - lower < Z.of_nat fuel ->
  exists y, week_search fuel lower upper o = Ok y /\ 1 <= y <= 9999 /\ weeks_through (y - 1) < o <= weeks_through y.
Proof.
  revert lower upper. induction fuel as [|fuel IH]; intros lower upper Hl Hu Ho Hf; [lia|]. cbn [week_search].
  destruct (lower <? upper) eqn:E.
  - assert (lower <= Z.quot (lower + upper) 2 < upper) as Hq by lia. set (c := Z.quot (lower + upper) 2) in *.
    rewrite (prior_ok (c + 1)). cbn [mbind outcome_bind]. fold (weeks_through c).
    destruct (o <=? weeks_through c) eqn:Ec; apply IH; try lia. replace (c + 1 - 1) with c by lia. lia.
  - assert (upper = lower) as -> by lia. exists lower. split; [done|]. lia.
Qed.

Definition max_week : Z := 521724.

Lemma weeks_last : weeks_through 9999 = max_week.
Proof. unfold weeks_through. change (9999 + 1) with 10000. by rewrite W_last. Qed.

Lemma weeks_le y z : y <= z -> weeks_through y <= weeks_through z.
Proof. intros H. destruct (decide (y = z)) as [->|]; [done|]. pose proof (weeks_lt y z). lia. Qed.

Lemma week_year o y :
  1 <= y <= 9999 -> weeks_through (y - 1) < o <= weeks_through y -> week_search search_fuel 1 9999 o = Ok y.
Proof.
  intros Hy Ho. pose proof (weeks_le 0 (y - 1) ltac:(lia)) as H0. pose proof (weeks_le y 9999 ltac:(lia)) as H1.
  destruct (week_search_ok search_fuel 1 9999 o) as (z & Hs & Hz & Hw); [lia|lia| |unfold search_fuel; lia|].
  { replace (1 - 1) with 0 by lia. lia. }
  rewrite Hs. f_equal. destruct (Z.lt_trichotomy y z) as [H|[H|H]]; [|done|].
  - pose proof (weeks_le y (z - 1)). lia.
  - pose proof (weeks_le z (y - 1)). lia.
Qed.

(** The week with a number in a year. *)
Lemma week_at o y :
  1 <= y <= 9999 -> weeks_through (y - 1) < o <= weeks_through y -> 0 < o ->
  weekFromOrdinal o = Ok (y, o - weeks_through (y - 1)).
Proof.
  intros Hy Ho Hpos. unfold weekFromOrdinal. rewrite (proj2 (Z.eqb_neq o 0)) by lia. rewrite (week_year o y Hy Ho), ok_bind, (prior_ok y), ok_bind.
  assert ((y - 1) * 52 + W y = weeks_through (y - 1)) as -> by (unfold weeks_through; by replace (y - 1 + 1) with y by lia).
  reflexivity.
Qed.

Lemma week_to_number y w :
  valid_week y w -> 0 <= week_number y w <= max_week /\ weekFromOrdinal (week_number y w) = Ok (y, w).
Proof.
  intros [[-> ->]|(Hy & Hw & Hl)]; [by split|]. unfold week_number. rewrite (proj2 (Z.eqb_neq y 0)) by lia.
  pose proof (weeks_le 0 (y - 1) ltac:(lia)) as H0. rewrite weeks_zero in H0.
  pose proof (weeks_le y 9999 ltac:(lia)) as H1. rewrite weeks_last in H1. pose proof (weeks_succ y) as Hs.
  assert (weeks_through (y - 1) + w <= weeks_through y) as Hle.
  { case_decide as Hin; [lia|]. assert (w <> 53) by (intros ->; by apply Hin, Hl). lia. }
  split; [lia|]. rewrite (week_at _ y) by lia. do 2 f_equal. lia.
Qed.

Lemma week_of_number o :
  0 <= o <= max_week ->
  exists y w, weekFromOrdinal o = Ok (y, w) /\ valid_week y w /\ week_number y w = o /\ 0 <= y <= 9999 /\ 1 <= w <= 53.
Proof.
  intros Ho. destruct (decide (o = 0)) as [->|].
  { exists 0, 53. split; [done|]. split; [by left|]. split; [done|lia]. }
  destruct (week_search_ok search_fuel 1 9999 o) as (y & Hs & Hy & Hw); [lia|lia| |unfold search_fuel; lia|].
  { replace (1 - 1) with 0 by lia. rewrite weeks_zero, weeks_last. lia. }
  rewrite (week_at o y) by lia. pose proof (weeks_succ y) as Hsucc.
  exists y, (o - weeks_through (y - 1)). split; [done|]. split; [|split; [|case_decide; lia]].
  - right. split; [lia|]. case_decide; [split; [lia|done]|]. split; [lia|]. lia.
  - unfold week_number. rewrite (proj2 (Z.eqb_neq y 0)) by lia. lia.
Qed.

(** ** Digits, formatted and read *)
Lemma length_fixed_digits w v : length (fixed_digits w v) = w.
Proof. revert v. induction w as [|w IH]; intros v; [done|]. cbn. rewrite length_app, IH. cbn. lia. Qed.

Lemma fixed_digits_digits w v : all_digits (fixed_digits w v).
Proof.
  revert v. induction w as [|w IH]; intros v; cbn [fixed_digits]; [by constructor|].
  apply Forall_app. split; [apply IH|]. constructor; [|constructor]. apply digit_char_digit. lia.
Qed.

Lemma dec_value_fixed w v : 0 <= v < 10 ^ Z.of_nat w -> dec_value (fixed_digits w v) = v.
Proof.
  revert v. induction w as [|w IH]; intros v Hv; [change (10 ^ Z.of_nat 0) with 1 in Hv; cbn; lia|].
  cbn [fixed_digits]. rewrite dec_value_app. rewrite Nat2Z.inj_succ, Z.pow_succ_r in Hv by lia.
  rewrite IH by lia. change (10 ^ zlen [digit_char (v mod 10)]) with 10.
  change (dec_value [digit_char (v mod 10)]) with (0 * 10 + digit_value (digit_char (v mod 10))).
  rewrite (proj2 (digit_char_digit (v mod 10) ltac:(lia))). lia.
Qed.

Lemma is_digits_spec n s : is_digits n s = true <-> length s = n /\ all_digits s.
Proof. unfold is_digits. rewrite andb_true_iff, bool_decide_eq_true. by rewrite forallb_digits. Qed.

Lemma atoi_digits n s : is_digits n s = true -> (1 <= n <= 7)%nat -> atoi s = dec_value s /\ 0 <= dec_value s < 10 ^ Z.of_nat n.
Proof.
  intros [Hl Hd]%is_digits_spec Hn. pose proof (dec_value_range s Hd) as Hr. unfold zlen in Hr. rewrite Hl in Hr.
  split; [|done]. unfold atoi, Atoi. destruct s as [|b s]; [cbn in Hl; lia|].
  assert (take_sign (b :: s) = ([], b :: s)) as ->.
  { unfold take_sign. assert (is_sign b = false) as ->; [|done]. apply Forall_cons in Hd as [Hb _].
    unfold is_sign. destruct b; try reflexivity; vm_compute in Hb; discriminate. }
  rewrite (proj2 (forallb_digits (b :: s)) Hd). rewrite bool_decide_false by done.
  assert (10 ^ Z.of_nat n <= 10 ^ 7) by (apply Z.pow_le_mono_r; lia). change (10 ^ 7) with 10000000 in *.
  rewrite (proj2 (Z.leb_le (- 2 ^ 63) _)), (proj2 (Z.ltb_lt _ (2 ^ 63))) by lia. done.
Qed.

Lemma padded_ok w v : 0 <= v < 10 ^ Z.of_nat w -> padded w v = fixed_digits w v.
Proof. intros Hv. unfold padded. by rewrite (proj2 (Z.leb_le 0 v)), (proj2 (Z.ltb_lt v _)) by lia. Qed.

(** A group of digits is the formatted number it denotes. *)
Lemma padded_atoi w s : is_digits w s = true -> (1 <= w <= 7)%nat -> padded w (atoi s) = s.
Proof.
  intros Hs Hw. destruct (atoi_digits w s Hs Hw) as [-> Hr]. rewrite padded_ok by done.
  apply is_digits_spec in Hs as [Hl Hd]. apply dec_value_inj; [apply fixed_digits_digits|done| |by rewrite dec_value_fixed].
  by rewrite length_fixed_digits.
Qed.

Lemma atoi_padded w v : 0 <= v < 10 ^ Z.of_nat w -> (1 <= w <= 7)%nat -> atoi (padded w v) = v /\ is_digits w (padded w v) = true.
Proof.
  intros Hv Hw. rewrite padded_ok by done.
  assert (is_digits w (fixed_digits w v) = true) as Hd
    by (apply is_digits_spec; split; [apply length_fixed_digits|apply fixed_digits_digits]).
  split; [|done]. destruct (atoi_digits w _ Hd Hw) as [-> _]. by apply dec_value_fixed.
Qed.

(** ** Forms, matched and rendered *)
Fixpoint render (form : list piece) (gs : list bytes) : bytes :=
  match form with
  | [] => []
  | Byte_ b :: form => b :: render form gs
  | Digits _ :: form => match gs with g :: gs => g ++ render form gs | [] => [] end
  end.

Fixpoint fits (form : list piece) (gs : list bytes) : bool :=
  match form, gs with
  | [], [] => true
  | Byte_ _ :: form, _ => fits form gs
  | Digits n :: form, g :: gs => is_digits n g && fits form gs
  | _, _ => false
  end.

Lemma match_inv form v gs : matchForm form v = Some gs -> fits form gs = true /\ render form gs = v.
Proof.
  revert v gs. induction form as [|[n|b] form IH]; intros v gs H; cbn [matchForm] in H.
  - destruct v; by simplify_eq.
  - destruct (is_digits n (take n v)) eqn:Ed; [|done].
    destruct (matchForm form (drop n v)) as [gs'|] eqn:Em; [|done]. cbn in H. simplify_eq.
    destruct (IH _ _ Em) as [Hf Hr]. cbn [fits render]. rewrite Ed, Hf, Hr, take_drop. done.
  - destruct v as [|c v]; [done|]. case_bool_decide; [|done]. subst c. destruct (IH _ _ H) as [Hf Hr]. cbn [fits render].
    by rewrite Hf, Hr.
Qed.

Lemma match_render form gs : fits form gs = true -> matchForm form (render form gs) = Some gs.
Proof.
  revert gs. induction form as [|[n|b] form IH]; intros gs H; cbn [fits] in H.
  - by destruct gs.
  - destruct gs as [|g gs]; [done|]. apply andb_true_iff in H as [Hd Hf]. cbn [render matchForm].
    pose proof (proj1 (is_digits_spec n g) Hd) as [Hl _].
    rewrite take_app_length', drop_app_length', Hd by done. by rewrite (IH gs Hf).
  - cbn [render matchForm]. rewrite bool_decide_true by done. by apply IH.
Qed.

(** ** Clocks *)
Lemma parse_clock_inv h m s e c :
  parseClock h m s e = Ok c ->
  c = mkClock h m s /\ 0 <= h /\ 0 <= m <= 59 /\ 0 <= s <= 59 /\ (h <= 23 \/ e = true /\ h = 24 /\ m = 0 /\ s = 0).
Proof.
  unfold parseClock. intros H. repeat (match type of H with context [if ?b then _ else _] => destruct b eqn:? end; try done).
  all: apply Ok_inj in H; subst c; split; [done|]; destruct e; lia.
Qed.

Lemma parse_clock_ok h m s e :
  0 <= h -> 0 <= m <= 59 -> 0 <= s <= 59 -> (h <= 23 \/ e = true /\ h = 24 /\ m = 0 /\ s = 0) ->
  parseClock h m s e = Ok (mkClock h m s).
Proof.
  intros Hh Hm Hs He. unfold parseClock.
  assert (h <= if e then 24 else 23) as Hle by (destruct e; lia).
  rewrite (proj2 (Z.ltb_ge h 0)), (proj2 (Z.ltb_ge _ h)), (proj2 (Z.ltb_ge m 0)), (proj2 (Z.ltb_ge 59 m)),
    (proj2 (Z.ltb_ge s 0)), (proj2 (Z.ltb_ge 59 s)) by lia.
  destruct ((h =? 24) && _) eqn:E; [|done]. lia.
Qed.

Lemma format_clock_parts h m s :
  0 <= h -> 0 <= m <= 59 -> 0 <= s <= 59 ->
  formatClock (h * 3600 + m * 60 + s) true = padded 2 h ++ lit ":" ++ padded 2 m ++ lit ":" ++ padded 2 s.
Proof.
  intros Hh Hm Hs. unfold formatClock. cbn [negb].
  assert (Z.quot (h * 3600 + m * 60 + s) 3600 = h) as -> by lia.
  assert (Z.rem (h * 3600 + m * 60 + s) 3600 = m * 60 + s) as -> by lia.
  assert (Z.quot (m * 60 + s) 60 = m) as -> by lia. assert (Z.rem (m * 60 + s) 60 = s) as -> by lia. done.
Qed.

(** ** The day of a leap year *)
Definition valid_cday (m d : Z) : Prop := 1 <= m <= 12 /\ 1 <= d <= nth (Z.to_nat (m - 1)) daysByMonth 0.

(** The days of a leap year are few enough to check each one. *)
Definition cday_day_ok (m d : Z) : bool :=
  match cday_before (Z.to_nat (m - 1)) 1 d with
  | Ok o => bool_decide (1 <= o <= 366)
            && match cday_search 13 1 (o - 1) with Ok (m', r) => (m' =? m) && (r =? d - 1) | _ => false end
  | _ => false
  end.

Definition cday_number_ok (o : Z) : bool :=
  match cday_search 13 1 o with
  | Ok (m, r) => bool_decide (1 <= m <= 12) && bool_decide (1 <= r + 1 <= nth (Z.to_nat (m - 1)) daysByMonth 0)
                 && match cday_before (Z.to_nat (m - 1)) 1 (r + 1) with Ok o' => o' =? o + 1 | _ => false end
  | _ => false
  end.

Lemma cday_to_number m d :
  valid_cday m d ->
  exists o, cday_before (Z.to_nat (m - 1)) 1 d = Ok o /\ 1 <= o <= 366 /\ cday_search 13 1 (o - 1) = Ok (m, d - 1).
Proof.
  intros [Hm Hd].
  assert (forallb (fun m => forallb (fun d => implb (d <=? nth (Z.to_nat (m - 1)) daysByMonth 0) (cday_day_ok m d)) (seqZ 1 31)) (seqZ 1 12) = true)
    as Hall by by vm_compute.
  rewrite forallb_forall in Hall. specialize (Hall m ltac:(apply list_elem_of_In, elem_of_seqZ; lia)).
  rewrite forallb_forall in Hall.
  assert (d <= 31) by (assert (nth (Z.to_nat (m - 1)) daysByMonth 0 <= 31); [month_cases m; vm_compute; discriminate|lia]).
  specialize (Hall d ltac:(apply list_elem_of_In, elem_of_seqZ; lia)).
  rewrite (proj2 (Z.leb_le d _)) in Hall by lia. cbn [implb] in Hall. unfold cday_day_ok in Hall.
  destruct (cday_before _ 1 d) as [o| |]; [|done..]. apply andb_true_iff in Hall as [H1%bool_decide_eq_true H2].
  exists o. split; [done|]. split; [done|]. destruct (cday_search 13 1 (o - 1)) as [[m' r]| |]; [|done..].
  do 2 f_equal; lia.
Qed.

Lemma cday_of_number o :
  0 <= o < 366 ->
  exists m r, cday_search 13 1 o = Ok (m, r) /\ valid_cday m (r + 1) /\ cday_before (Z.to_nat (m - 1)) 1 (r + 1) = Ok (o + 1).
Proof.
  intros Ho. assert (forallb cday_number_ok (seqZ 0 366) = true) as Hall by by vm_compute.
  rewrite forallb_forall in Hall. specialize (Hall o ltac:(apply list_elem_of_In, elem_of_seqZ; lia)).
  unfold cday_number_ok in Hall. destruct (cday_search 13 1 o) as [[m r]| |]; [|done..].
  apply andb_true_iff in Hall as [Hall H3].
  apply andb_true_iff in Hall as [H1%bool_decide_eq_true H2%bool_decide_eq_true].
  exists m, r. split; [done|]. split; [done|]. destruct (cday_before _ 1 (r + 1)) as [o'| |]; [|done..]. f_equal. lia.
Qed.

(** ** The nine types *)

(** What a pair of cases owes the codec: the raw values of the texts it accepts are in range
    and have these texts, and every ordinal in range has a text with that raw value. *)
Class TemporalCase (raw : bytes -> res Z) (text : Z -> res bytes) (max : Z) : Prop := {
  case_total : forall v, total (raw v);
  case_raw : forall v r, raw v = Ok r -> 1 <= r <= max /\ text (r - 1) = Ok v;
  case_text : forall o, 0 <= o < max -> exists v, text o = Ok v /\ raw v = Ok (o + 1);
}.

(** Reading the groups of a form off a text. *)
Ltac form_inv H Hf Hr :=
  match type of H with context [matchForm ?f ?v] =>
    let Em := fresh in
    destruct (matchForm f v) as [?gs|] eqn:Em; [|done];
    repeat match type of H with context [match ?l with [] => _ | _ :: _ => _ end] => destruct l as [|?g ?gs]; try done end;
    apply match_inv in Em as [Hf Hr]; cbn [fits render app dForm iForm tForm wForm nForm pForm weekF xForm cForm] in Hf, Hr;
    rewrite ?andb_true_iff in Hf; symmetry in Hr; subst v
  end.

Lemma total_date y m d : total (parseDateParts y m d).
Proof.
  unfold parseDateParts. destruct (_ || (9999 <? y)); [done|]. destruct ((m <? 1) || (12 <? m)) eqn:Em; [done|].
  rewrite month_table, ok_bind by lia. by repeat case_match.
Qed.

Lemma total_ordinal date : valid_date date -> total (dateOrdinal date).
Proof. intros H. destruct (date_to_ordinal date H) as (o & -> & _). done. Qed.

Lemma total_clock h m s e : total (parseClock h m s e).
Proof. unfold parseClock. by repeat case_match. Qed.

(** The three groups of a date. *)
Lemma date_groups y mo d date o :
  is_digits 4 y = true -> is_digits 2 mo = true -> is_digits 2 d = true ->
  parseDateParts (atoi y) (atoi mo) (atoi d) = Ok date -> dateOrdinal date = Ok o ->
  0 <= o < max_day /\ dateFromOrdinal o = Ok date /\ formatDate date = y ++ x2d :: mo ++ x2d :: d.
Proof.
  intros Hy Hm Hd [-> Hv]%parse_date_inv Ho. destruct (date_to_ordinal _ Hv) as (o' & Ho' & Hr & Hf).
  rewrite Ho in Ho'. apply Ok_inj in Ho'. subst o'. split; [done|]. split; [done|].
  unfold formatDate. cbn [cd_year cd_month cd_day]. by rewrite !padded_atoi by (done || lia).
Qed.

Lemma date_text o :
  0 <= o < max_day ->
  exists date y mo d, dateFromOrdinal o = Ok date /\ dateOrdinal date = Ok o /\
    is_digits 4 y = true /\ is_digits 2 mo = true /\ is_digits 2 d = true /\
    parseDateParts (atoi y) (atoi mo) (atoi d) = Ok date /\ formatDate date = y ++ x2d :: mo ++ x2d :: d.
Proof.
  intros Ho. destruct (date_of_ordinal o Ho) as ([y m d] & Hd & Hv & Hd'). pose proof (valid_day_bounds _ Hv) as Hb.
  pose proof Hv as [Hy Hm _ _]; cbn [cd_year cd_month cd_day] in *.
  assert (last_day y m <= 31) by (unfold last_day; case_match; [case_match; lia|]; month_cases m; vm_compute; discriminate).
  destruct (atoi_padded 4 y) as [Ay Dy]; [change (10 ^ Z.of_nat 4) with 10000; lia|lia|].
  destruct (atoi_padded 2 m) as [Am Dm]; [change (10 ^ Z.of_nat 2) with 100; lia|lia|].
  destruct (atoi_padded 2 d) as [Ad Dd]; [change (10 ^ Z.of_nat 2) with 100; lia|lia|].
  exists (mkDate y m d), (padded 4 y), (padded 2 m), (padded 2 d). rewrite Ay, Am, Ad. rewrite parse_date_valid by done.
  by repeat split.
Qed.

(** The three groups of a clock. *)
Lemma clock_groups h m s e c :
  is_digits 2 h = true -> is_digits 2 m = true -> is_digits 2 s = true ->
  parseClock (atoi h) (atoi m) (atoi s) e = Ok c ->
  0 <= clockSeconds c <= (if e then secondsPerDay else secondsPerDay - 1) /\
  formatClock (clockSeconds c) true = h ++ x3a :: m ++ x3a :: s.
Proof.
  intros Hh Hm Hs (-> & H1 & H2 & H3 & H4)%parse_clock_inv. unfold clockSeconds, secondsPerDay. cbn [ck_hour ck_minute ck_second].
  split; [destruct e; lia|]. rewrite format_clock_parts by lia. by rewrite !padded_atoi by (done || lia).
Qed.

Lemma clock_text o e :
  0 <= o <= (if (e : bool) then secondsPerDay else secondsPerDay - 1) ->
  exists h m s, is_digits 2 h = true /\ is_digits 2 m = true /\ is_digits 2 s = true /\
    (exists c, parseClock (atoi h) (atoi m) (atoi s) e = Ok c /\ clockSeconds c = o) /\
    formatClock o true = h ++ x3a :: m ++ x3a :: s.
Proof.
  unfold secondsPerDay. intros Ho. set (h := o / 3600). set (m := o mod 3600 / 60). set (s := o mod 60).
  assert (o = h * 3600 + m * 60 + s /\ 0 <= m <= 59 /\ 0 <= s <= 59 /\ 0 <= h) as (Heq & Hm & Hs & Hh) by (subst h m s; lia).
  assert (h <= 23 \/ e = true /\ h = 24 /\ m = 0 /\ s = 0) as He by (destruct e; lia).
  clearbody h m s.
  destruct (atoi_padded 2 h) as [Ah Dh]; [change (10 ^ Z.of_nat 2) with 100; lia|lia|].
  destruct (atoi_padded 2 m) as [Am Dm]; [change (10 ^ Z.of_nat 2) with 100; lia|lia|].
  destruct (atoi_padded 2 s) as [As Ds]; [change (10 ^ Z.of_nat 2) with 100; lia|lia|].
  exists (padded 2 h), (padded 2 m), (padded 2 s). rewrite Ah, Am, As.
  split; [done|]. split; [done|]. split; [done|]. split.
  - exists (mkClock h m s). split; [by apply parse_clock_ok|]. unfold clockSeconds. cbn [ck_hour ck_minute ck_second]. lia.
  - rewrite Heq. by apply format_clock_parts.
Qed.

#[export] Instance dtday_case : TemporalCase raw_dtday text_dtday max_day.
Proof.
  split.
  - intros v. unfold raw_dtday. repeat case_match; try done. apply total_bind; [apply total_date|].
    intros date [-> Hv]%parse_date_inv. apply total_bind; [by apply total_ordinal|done].
  - intros v r H. unfold raw_dtday in H. form_inv H Hf Hr. destruct Hf as (Dy & Dm & Dd & _).
    ok_step H as date Hd. ok_step H as o Ho. apply Ok_inj in H. subst r.
    destruct (date_groups _ _ _ _ _ Dy Dm Dd Hd Ho) as (Hr' & Hd' & Hf).
    split; [lia|]. unfold text_dtday. replace (o + 1 - 1) with o by lia. rewrite Hd', ok_bind, Hf. by rewrite app_nil_r.
  - intros o Ho. destruct (date_text o Ho) as (date & y & mo & d & Hd & Hd' & Dy & Dm & Dd & Hp & Hf).
    unfold text_dtday. rewrite Hd, ok_bind. eexists. split; [reflexivity|]. unfold raw_dtday.
    rewrite Hf. rewrite <- (app_nil_r d) at 1. change (y ++ _) with (render dForm [y; mo; d]).
    rewrite match_render by (cbn; by rewrite Dy, Dm, Dd). by rewrite Hp, ok_bind, Hd', ok_bind.
Qed.

(** Two texts made of the same pieces. *)
Ltac app_eq := repeat progress (cbn; rewrite <- ?app_assoc); rewrite ?app_nil_r; reflexivity.

Lemma no_wrap z : 0 <= z < 2 ^ 63 -> int64 z = z.
Proof. intros H. apply int64_small. unfold is_i64. lia. Qed.

(** Both halves of an instant: the day and what is left of it. *)
Lemma day_parts o per r : 0 <= o -> 0 <= r < per -> Z.quot (o * per + r) per = o /\ Z.rem (o * per + r) per = r.
Proof.
  intros Ho Hr. assert (0 <= o * per) by (apply Z.mul_nonneg_nonneg; lia).
  rewrite Z.quot_div_nonneg, Z.rem_mod_nonneg by lia. rewrite Z.div_add_l, Z.div_small by lia.
  rewrite (Z.add_comm (o * per) r), Z.mod_add, Z.mod_small by lia. lia.
Qed.

Lemma split_day o per : 0 < per -> 0 <= o < max_day * per ->
  exists d r, o = d * per + r /\ 0 <= d < max_day /\ 0 <= r < per.
Proof.
  intros Hp Ho. exists (Z.quot o per), (Z.rem o per). pose proof (Z.quot_rem' o per). pose proof (Z.rem_bound_pos o per ltac:(lia) ltac:(lia)).
  split; [lia|]. split; [|lia].
  rewrite Z.quot_div_nonneg by lia. split; [apply Z.div_pos; lia|apply Z.div_lt_upper_bound; lia].
Qed.

Lemma total_instant y m d h mi s (k : Z -> clockTime -> res Z) :
  (forall o c, total (k o c)) ->
  total (date ← parseDateParts y m d; clock ← parseClock h mi s false; o ← dateOrdinal date; k o clock).
Proof.
  intros Hk. apply total_bind; [apply total_date|]. intros date [-> Hv]%parse_date_inv.
  apply total_bind; [apply total_clock|]. intros c _. apply total_bind; [by apply total_ordinal|]. intros o _. apply Hk.
Qed.

#[export] Instance utcsecond_case : TemporalCase raw_utcsecond text_utcsecond 315538070400.
Proof.
  split.
  - intros v. unfold raw_utcsecond. repeat case_match; try done. by apply (total_instant _ _ _ _ _ _ (fun o c => Ok _)).
  - intros v r H. unfold raw_utcsecond in H. form_inv H Hf Hr. destruct Hf as (Dy & Dm & Dd & Dh & Di & Ds & _).
    ok_step H as date Hd. ok_step H as c Hc. ok_step H as o Ho. apply Ok_inj in H. subst r.
    destruct (date_groups _ _ _ _ _ Dy Dm Dd Hd Ho) as (Hr' & Hd' & Hf).
    destruct (clock_groups _ _ _ _ _ Dh Di Ds Hc) as [Hs Hfc]. unfold max_day, secondsPerDay in *.
    rewrite no_wrap by lia. split; [lia|]. unfold text_utcsecond, secondsPerDay.
    destruct (day_parts o 86400 (clockSeconds c)) as [Hq Hm]; [lia..|].
    replace (o * 86400 + clockSeconds c + 1 - 1) with (o * 86400 + clockSeconds c) by lia.
    rewrite Hq, Hm, Hd', ok_bind, Hf, Hfc. app_eq.
  - intros n Hn. destruct (split_day n 86400) as (o & s & -> & Ho & Hs); [lia|unfold max_day; lia|].
    destruct (date_text o Ho) as (date & y & mo & d & Hd & Hd' & Dy & Dm & Dd & Hp & Hf).
    destruct (clock_text s false) as (h & m & sec & Dh & Di & Ds & (c & Hc & Hcs) & Hfc); [unfold secondsPerDay; lia|].
    destruct (day_parts o 86400 s) as [Hq Hm]; [lia..|].
    unfold text_utcsecond, secondsPerDay. rewrite Hq, Hm, Hd, ok_bind. eexists. split; [reflexivity|].
    assert (formatDate date ++ lit "T" ++ formatClock s true = render nForm [y; mo; d; h; m; sec]) as ->.
    { rewrite Hf, Hfc. app_eq. }
    unfold raw_utcsecond. rewrite match_render by (cbn; by rewrite Dy, Dm, Dd, Dh, Di, Ds).
    rewrite Hp, ok_bind, Hc, ok_bind, Hd', ok_bind, Hcs. unfold secondsPerDay, max_day in *. by rewrite no_wrap by lia.
Qed.

#[export] Instance utclong_case : TemporalCase raw_utclong text_utclong 3155380704000000000.
Proof.
  split.
  - intros v. unfold raw_utclong. repeat case_match; try done. by apply (total_instant _ _ _ _ _ _ (fun o c => Ok _)).
  - intros v r H. unfold raw_utclong in H. form_inv H Hf Hr. destruct Hf as (Dy & Dm & Dd & Dh & Di & Ds & Df & _).
    ok_step H as date Hd. ok_step H as c Hc. ok_step H as o Ho. apply Ok_inj in H. subst r.
    destruct (date_groups _ _ _ _ _ Dy Dm Dd Hd Ho) as (Hr' & Hd' & Hf).
    destruct (clock_groups _ _ _ _ _ Dh Di Ds Hc) as [Hs Hfc].
    destruct (atoi_digits 7 g5 Df ltac:(lia)) as [Ha Hfr]. rewrite <- Ha in Hfr. change (10 ^ Z.of_nat 7) with 10000000 in Hfr.
    unfold max_day, secondsPerDay, fractionsPerSecond in *. rewrite (no_wrap (o * 86400 + clockSeconds c)) by lia.
    rewrite (no_wrap ((o * 86400 + clockSeconds c) * 10000000)), no_wrap by lia.
    split; [lia|]. unfold text_utclong, fractionsPerDay, fractionsPerSecond.
    replace ((o * 86400 + clockSeconds c) * 10000000 + atoi g5 + 1 - 1)
      with (o * 864000000000 + (clockSeconds c * 10000000 + atoi g5)) by lia.
    destruct (day_parts o 864000000000 (clockSeconds c * 10000000 + atoi g5)) as [Hq Hm]; [lia..|].
    destruct (day_parts (clockSeconds c) 10000000 (atoi g5)) as [Hq2 Hm2]; [lia..|].
    rewrite Hq, Hm, Hq2, Hm2, Hd', ok_bind, Hf, Hfc, padded_atoi by (done || lia).
    app_eq.
  - intros n Hn. destruct (split_day n 864000000000) as (o & w & -> & Ho & Hw); [lia|unfold max_day; lia|].
    destruct (day_parts o 864000000000 w) as [Hq Hm]; [lia..|].
    assert (exists s f, w = s * 10000000 + f /\ 0 <= s < 86400 /\ 0 <= f < 10000000) as (s & f & -> & Hs & Hf)
      by (exists (w / 10000000), (w mod 10000000); lia).
    destruct (day_parts s 10000000 f) as [Hq2 Hm2]; [lia..|].
    destruct (date_text o Ho) as (date & y & mo & d & Hd & Hd' & Dy & Dm & Dd & Hp & Hfd).
    destruct (clock_text s false) as (h & m & sec & Dh & Di & Ds & (c & Hc & Hcs) & Hfc); [unfold secondsPerDay; lia|].
    destruct (atoi_padded 7 f) as [Af Df]; [change (10 ^ Z.of_nat 7) with 10000000; lia|lia|].
    unfold text_utclong, fractionsPerDay, fractionsPerSecond. rewrite Hq, Hm, Hq2, Hm2, Hd, ok_bind.
    eexists. split; [reflexivity|].
    assert (formatDate date ++ lit "T" ++ formatClock s true ++ lit "." ++ padded 7 f = render pForm [y; mo; d; h; m; sec; padded 7 f]) as ->.
    { rewrite Hfd, Hfc. app_eq. }
    unfold raw_utclong. rewrite match_render by (cbn [fits pForm nForm dForm tForm iForm app]; by rewrite Dy, Dm, Dd, Dh, Di, Ds, Df).
    rewrite Hp, ok_bind, Hc, ok_bind, Hd', ok_bind, Hcs, Af. unfold secondsPerDay, fractionsPerSecond, max_day in *.
    rewrite (no_wrap (o * 86400 + s)), (no_wrap ((o * 86400 + s) * 10000000)), no_wrap by lia. f_equal. lia.
Qed.

#[export] Instance utcminute_case : TemporalCase raw_utcminute text_utcminute 5258967840.
Proof.
  split.
  - intros v. unfold raw_utcminute. repeat case_match; try done. by apply (total_instant _ _ _ _ _ _ (fun o c => Ok _)).
  - intros v r H. unfold raw_utcminute in H. form_inv H Hf Hr. destruct Hf as (Dy & Dm & Dd & Dh & Di & _).
    ok_step H as date Hd. ok_step H as c Hc. ok_step H as o Ho. apply Ok_inj in H. subst r.
    destruct (date_groups _ _ _ _ _ Dy Dm Dd Hd Ho) as (Hr' & Hd' & Hf).
    apply parse_clock_inv in Hc as (-> & H1 & H2 & _ & H4). cbn [ck_hour ck_minute]. unfold max_day, minutesPerDay in *.
    rewrite no_wrap by lia. split; [lia|]. unfold text_utcminute, minutesPerDay.
    replace (o * 1440 + atoi g2 * 60 + atoi g3 + 1 - 1) with (o * 1440 + (atoi g2 * 60 + atoi g3)) by lia.
    destruct (day_parts o 1440 (atoi g2 * 60 + atoi g3)) as [Hq Hm]; [lia..|].
    destruct (day_parts (atoi g2) 60 (atoi g3)) as [Hq2 Hm2]; [lia..|].
    rewrite Hq, Hm, Hq2, Hm2, Hd', ok_bind, Hf, !padded_atoi by (done || lia).
    app_eq.
  - intros n Hn. destruct (split_day n 1440) as (o & w & -> & Ho & Hw); [lia|unfold max_day; lia|].
    destruct (day_parts o 1440 w) as [Hq Hm]; [lia..|].
    assert (exists h m, w = h * 60 + m /\ 0 <= h < 24 /\ 0 <= m < 60) as (h & m & -> & Hh & Hmi)
      by (exists (w / 60), (w mod 60); lia).
    destruct (day_parts h 60 m) as [Hq2 Hm2]; [lia..|].
    destruct (date_text o Ho) as (date & y & mo & d & Hd & Hd' & Dy & Dm & Dd & Hp & Hfd).
    destruct (atoi_padded 2 h) as [Ah Dh]; [change (10 ^ Z.of_nat 2) with 100; lia|lia|].
    destruct (atoi_padded 2 m) as [Am Di]; [change (10 ^ Z.of_nat 2) with 100; lia|lia|].
    unfold text_utcminute, minutesPerDay. rewrite Hq, Hm, Hq2, Hm2, Hd, ok_bind. eexists. split; [reflexivity|].
    assert (formatDate date ++ lit "T" ++ padded 2 h ++ lit ":" ++ padded 2 m = render wForm [y; mo; d; padded 2 h; padded 2 m]) as ->.
    { rewrite Hfd. app_eq. }
    unfold raw_utcminute. rewrite match_render by (cbn [fits wForm dForm iForm app]; by rewrite Dy, Dm, Dd, Dh, Di).
    rewrite Hp, ok_bind, Ah, Am, parse_clock_ok, ok_bind, Hd', ok_bind by lia. cbn [ck_hour ck_minute].
    unfold minutesPerDay, max_day in *. rewrite no_wrap by lia. f_equal. lia.
Qed.

#[export] Instance dtweek_case : TemporalCase raw_dtweek text_dtweek 521725.
Proof.
  assert (forall y w, is_digits 4 y = true -> ~ (atoi w < 1 \/ 53 < atoi w) -> 0 <= atoi y <= 9999 /\ 1 <= atoi w <= 53) as Hb.
  { intros y w Dy Hw. destruct (atoi_digits 4 y Dy ltac:(lia)) as [-> Hr]. change (10 ^ Z.of_nat 4) with 10000 in Hr. lia. }
  split.
  - intros v. unfold raw_dtweek. destruct (matchForm weekF v) as [gs|] eqn:Em; [|done].
    destruct gs as [|y [|w [|]]]; try done. apply match_inv in Em as [Hf _]. cbn [fits weekF] in Hf. rewrite !andb_true_iff in Hf.
    destruct Hf as (Dy & Dw & _). destruct (_ || _) eqn:Ew; [done|]. destruct (Hb y w Dy) as [H1 H2]; [lia|].
    destruct (weekOrdinal_spec _ _ H1 H2) as [[-> _]|[-> _]]; done.
  - intros v r H. unfold raw_dtweek in H. form_inv H Hf Hr. destruct Hf as (Dy & Dw & _). destruct (_ || _) eqn:Ew; [done|].
    destruct (Hb g g0 Dy) as [H1 H2]; [lia|].
    destruct (weekOrdinal_spec _ _ H1 H2) as [[Ho Hv]|[Ho _]]; rewrite Ho in H; [|done].
    rewrite ok_bind in H. apply Ok_inj in H. subst r. destruct (week_to_number _ _ Hv) as [Hn Hw]. unfold max_week in Hn.
    split; [lia|]. unfold text_dtweek. replace (week_number (atoi g) (atoi g0) + 1 - 1) with (week_number (atoi g) (atoi g0)) by lia.
    rewrite Hw, ok_bind, !padded_atoi by (done || lia). by rewrite app_nil_r.
  - intros o Ho. destruct (week_of_number o) as (y & w & Hw & Hv & Hn & Hy & Hww); [unfold max_week; lia|].
    destruct (atoi_padded 4 y) as [Ay Dy]; [change (10 ^ Z.of_nat 4) with 10000; lia|lia|].
    destruct (atoi_padded 2 w) as [Aw Dw]; [change (10 ^ Z.of_nat 2) with 100; lia|lia|].
    unfold text_dtweek. rewrite Hw, ok_bind. eexists. split; [reflexivity|].
    assert (padded 4 y ++ lit "-W" ++ padded 2 w = render weekF [padded 4 y; padded 2 w]) as ->
      by (cbn; by rewrite app_nil_r).
    unfold raw_dtweek. rewrite match_render by (cbn [fits weekF]; by rewrite Dy, Dw). rewrite Ay, Aw.
    rewrite (proj2 (Z.ltb_ge w 1)), (proj2 (Z.ltb_ge 53 w)) by lia. cbn [orb].
    destruct (weekOrdinal_spec y w Hy Hww) as [[-> _]|[_ Hn']]; [|done]. by rewrite ok_bind, Hn.
Qed.

#[export] Instance dtmonth_case : TemporalCase raw_dtmonth text_dtmonth 119988.
Proof.
  split.
  - intros v. unfold raw_dtmonth. by repeat case_match.
  - intros v r H. unfold raw_dtmonth in H. form_inv H Hf Hr. destruct Hf as (Dy & Dm & _).
    destruct (_ || (9999 <? _)) eqn:Ey; [done|]. destruct (_ || (12 <? _)) eqn:Em; [done|]. apply Ok_inj in H. subst r.
    split; [lia|]. unfold text_dtmonth. replace ((atoi g - 1) * 12 + atoi g0 - 1) with ((atoi g - 1) * 12 + (atoi g0 - 1)) by lia.
    destruct (day_parts (atoi g - 1) 12 (atoi g0 - 1)) as [Hq Hm]; [lia..|]. rewrite Hq, Hm.
    replace (atoi g - 1 + 1) with (atoi g) by lia. replace (atoi g0 - 1 + 1) with (atoi g0) by lia.
    rewrite !padded_atoi by (done || lia). app_eq.
  - intros o Ho. assert (exists y m, o = (y - 1) * 12 + (m - 1) /\ 1 <= y <= 9999 /\ 1 <= m <= 12) as (y & m & -> & Hy & Hm)
      by (exists (o / 12 + 1), (o mod 12 + 1); lia).
    destruct (day_parts (y - 1) 12 (m - 1)) as [Hq Hr]; [lia..|].
    destruct (atoi_padded 4 y) as [Ay Dy]; [change (10 ^ Z.of_nat 4) with 10000; lia|lia|].
    destruct (atoi_padded 2 m) as [Am Dm]; [change (10 ^ Z.of_nat 2) with 100; lia|lia|].
    unfold text_dtmonth. rewrite Hq, Hr. replace (y - 1 + 1) with y by lia. replace (m - 1 + 1) with m by lia.
    eexists. split; [reflexivity|].
    assert (padded 4 y ++ lit "-" ++ padded 2 m = render xForm [padded 4 y; padded 2 m]) as -> by app_eq.
    unfold raw_dtmonth. rewrite match_render by (cbn [fits xForm]; by rewrite Dy, Dm). rewrite Ay, Am.
    rewrite (proj2 (Z.ltb_ge y 1)), (proj2 (Z.ltb_ge 9999 y)), (proj2 (Z.ltb_ge m 1)), (proj2 (Z.ltb_ge 12 m)) by lia.
    cbn [orb]. f_equal. lia.
Qed.

#[export] Instance tsecond_case : TemporalCase raw_tsecond text_tsecond 86401.
Proof.
  split.
  - intros v. unfold raw_tsecond. repeat case_match; try done. by apply total_bind; [apply total_clock|].
  - intros v r H. unfold raw_tsecond in H. form_inv H Hf Hr. destruct Hf as (Dh & Di & Ds & _).
    ok_step H as c Hc. apply Ok_inj in H. subst r. destruct (clock_groups _ _ _ _ _ Dh Di Ds Hc) as [Hs Hfc].
    unfold secondsPerDay in Hs. split; [lia|]. unfold text_tsecond. replace (clockSeconds c + 1 - 1) with (clockSeconds c) by lia.
    rewrite Hfc. app_eq.
  - intros o Ho. destruct (clock_text o true) as (h & m & s & Dh & Di & Ds & (c & Hc & Hcs) & Hfc); [unfold secondsPerDay; lia|].
    eexists. split; [reflexivity|]. rewrite Hfc.
    assert (h ++ x3a :: m ++ x3a :: s = render tForm [h; m; s]) as -> by app_eq.
    unfold raw_tsecond. rewrite match_render by (cbn [fits tForm iForm app]; by rewrite Dh, Di, Ds). by rewrite Hc, ok_bind, Hcs.
Qed.

#[export] Instance tminute_case : TemporalCase raw_tminute text_tminute 1441.
Proof.
  split.
  - intros v. unfold raw_tminute. repeat case_match; try done. by apply total_bind; [apply total_clock|].
  - intros v r H. unfold raw_tminute in H. form_inv H Hf Hr. destruct Hf as (Dh & Di & _).
    ok_step H as c Hc. apply Ok_inj in H. subst r. apply parse_clock_inv in Hc as (-> & H1 & H2 & _ & H4). cbn [ck_hour ck_minute].
    split; [lia|]. unfold text_tminute. replace (atoi g * 60 + atoi g0 + 1 - 1) with (atoi g * 60 + atoi g0) by lia.
    destruct (day_parts (atoi g) 60 (atoi g0)) as [Hq Hm]; [lia..|]. rewrite Hq, Hm, !padded_atoi by (done || lia). app_eq.
  - intros o Ho. assert (exists h m, o = h * 60 + m /\ 0 <= h /\ 0 <= m <= 59 /\ (h <= 23 \/ h = 24 /\ m = 0)) as (h & m & -> & Hh & Hm & He)
      by (exists (o / 60), (o mod 60); lia).
    destruct (day_parts h 60 m) as [Hq Hr]; [lia..|].
    destruct (atoi_padded 2 h) as [Ah Dh]; [change (10 ^ Z.of_nat 2) with 100; lia|lia|].
    destruct (atoi_padded 2 m) as [Am Dm]; [change (10 ^ Z.of_nat 2) with 100; lia|lia|].
    unfold text_tminute. rewrite Hq, Hr. eexists. split; [reflexivity|].
    assert (padded 2 h ++ lit ":" ++ padded 2 m = render iForm [padded 2 h; padded 2 m]) as -> by app_eq.
    unfold raw_tminute. rewrite match_render by (cbn [fits iForm]; by rewrite Dh, Dm). rewrite Ah, Am.
    rewrite parse_clock_ok by (lia || (destruct He as [|[]]; [by left|right; by repeat split])). done.
Qed.

#[export] Instance cday_case : TemporalCase raw_cday text_cday 366.
Proof.
  split.
  - intros v. unfold raw_cday. destruct (matchForm cForm v) as [gs|]; [|done]. destruct gs as [|mo [|d [|]]]; try done.
    destruct ((atoi mo <? 1) || (12 <? atoi mo)) eqn:Em; [done|]. rewrite month_table, ok_bind by lia.
    destruct ((atoi d <? 1) || _) eqn:Ed; [done|].
    destruct (cday_to_number (atoi mo) (atoi d)) as (o & -> & _); [split; lia|done].
  - intros v r H. unfold raw_cday in H. form_inv H Hf Hr. destruct Hf as (Dm & Dd & _).
    destruct ((atoi g <? 1) || (12 <? atoi g)) eqn:Em; [done|]. rewrite month_table, ok_bind in H by lia.
    destruct ((atoi g0 <? 1) || _) eqn:Ed; [done|].
    destruct (cday_to_number (atoi g) (atoi g0)) as (o & Ho & Hb & Hs); [split; lia|]. rewrite Ho in H. apply Ok_inj in H. subst r.
    split; [lia|]. unfold text_cday. rewrite Hs, ok_bind. replace (atoi g0 - 1 + 1) with (atoi g0) by lia.
    rewrite !padded_atoi by (done || lia). app_eq.
  - intros o Ho. destruct (cday_of_number o Ho) as (m & r & Hs & [Hm Hd] & Hb).
    assert (nth (Z.to_nat (m - 1)) daysByMonth 0 <= 31) by (clear -Hm; month_cases m; vm_compute; discriminate).
    destruct (atoi_padded 2 m) as [Am Dm]; [change (10 ^ Z.of_nat 2) with 100; lia|lia|].
    destruct (atoi_padded 2 (r + 1)) as [Ad Dd]; [change (10 ^ Z.of_nat 2) with 100; lia|lia|].
    unfold text_cday. rewrite Hs, ok_bind. eexists. split; [reflexivity|].
    assert (padded 2 m ++ lit "-" ++ padded 2 (r + 1) = render cForm [padded 2 m; padded 2 (r + 1)]) as -> by app_eq.
    unfold raw_cday. rewrite match_render by (cbn [fits cForm]; by rewrite Dm, Dd). rewrite Am, Ad.
    rewrite (proj2 (Z.ltb_ge m 1)), (proj2 (Z.ltb_ge 12 m)) by lia. cbn [orb]. rewrite month_table, ok_bind by lia.
    rewrite (proj2 (Z.ltb_ge (r + 1) 1)), (proj2 (Z.ltb_ge _ (r + 1))) by lia. cbn [orb]. done.
Qed.

(** ** The codec *)

(** Every type is one of the nine, with its cases. *)
Lemma spec_case exid spec :
  temporalSpecs exid = Some spec ->
  TemporalCase (temporal_raw exid) (temporal_text exid) (ts_maximumRaw spec) /\
  (ts_byteLength spec = 8 \/ ts_byteLength spec = 4 /\ ts_maximumRaw spec < 2 ^ 31 \/ ts_byteLength spec = 2 /\ ts_maximumRaw spec < 2 ^ 15) /\
  0 < ts_maximumRaw spec < 2 ^ 63.
Proof.
  destruct exid as [|b [|]]; [done| |done]. cbn [temporalSpecs]. intros H.
  repeat (match type of H with context [bool_decide (b = ?c)] => destruct (bool_decide_reflect (b = c)) as [->|?] end;
    [apply Some_inj in H; subst spec; cbn [ts_maximumRaw ts_byteLength]; split; [|lia];
     (exact utclong_case || exact utcsecond_case || exact utcminute_case || exact dtday_case || exact dtweek_case
      || exact dtmonth_case || exact tsecond_case || exact tminute_case || exact cday_case)|]).
  done.
Qed.

Lemma le_uint_exact {E} n (l : bytes) : length l = n -> le_uint (E := E) n l = Ok (le_combine l).
Proof. intros Hl. unfold le_uint. rewrite (proj2 (Nat.ltb_ge _ n)), take_ge by lia. done. Qed.

Lemma le_split_combine n (l : bytes) : length l = n -> le_split n (le_combine l) = l.
Proof.
  intros Hl. unfold le_split, le_combine. rewrite <- (rev_involutive l) at 2. f_equal.
  apply be_split_bytes. by rewrite length_rev.
Qed.

(** A signed number read back from the bytes of an unsigned one. *)
Lemma signed_read n z : 0 <= z < 256 ^ Z.of_nat n -> le_combine (le_split n z) = z.
Proof. intros Hz. rewrite le_combine_split. by apply Z.mod_small. Qed.

Lemma encode_raw_read exid spec raw :
  temporalSpecs exid = Some spec -> 0 <= raw <= ts_maximumRaw spec ->
  exists b, encodeRaw exid raw = Ok b /\ rawValue exid b = Ok raw.
Proof.
  intros Hs Hr. destruct (spec_case exid spec Hs) as (_ & Hw & Hm). unfold encodeRaw, rawValue, spec_of. rewrite Hs.
  cbn [default from_option id]. rewrite (proj2 (Z.ltb_ge raw 0)), (proj2 (Z.ltb_ge _ raw)) by lia. cbn [orb].
  destruct Hw as [->|[[-> Hb]|[-> Hb]]]; cbn [Z.eqb Z.ltb Z.compare Pos.eqb Pos.compare Pos.compare_cont]; eexists; (split; [reflexivity|]).
  - unfold uint64. rewrite Z.mod_small by lia. unfold zlen. rewrite length_le_split. cbn [Z.eqb Z.of_nat Pos.of_succ_nat Pos.succ Pos.eqb negb].
    rewrite le_uint_exact, ok_bind, signed_read by (rewrite ?length_le_split; done || lia). rewrite ok_bind, no_wrap by lia.
    by rewrite (proj2 (Z.ltb_ge raw 0)), (proj2 (Z.ltb_ge _ raw)) by lia.
  - rewrite int32_small by (unfold is_i32; lia). unfold uint32. rewrite Z.mod_small by lia. unfold zlen. rewrite length_le_split.
    cbn [Z.eqb Z.of_nat Pos.of_succ_nat Pos.succ Pos.eqb negb].
    rewrite le_uint_exact, ok_bind, signed_read by (rewrite ?length_le_split; done || (cbn; lia)).
    rewrite ok_bind, int32_small by (unfold is_i32; lia). by rewrite (proj2 (Z.ltb_ge raw 0)), (proj2 (Z.ltb_ge _ raw)) by lia.
  - assert (int16 raw = raw) as Hi by (unfold int16; rewrite Z.mod_small; lia). rewrite Hi. unfold uint16. rewrite Z.mod_small by lia.
    unfold zlen. rewrite length_le_split. cbn [Z.eqb Z.of_nat Pos.of_succ_nat Pos.succ Pos.eqb negb].
    rewrite le_uint_exact, ok_bind, signed_read by (rewrite ?length_le_split; done || (cbn; lia)).
    rewrite ok_bind, Hi. by rewrite (proj2 (Z.ltb_ge raw 0)), (proj2 (Z.ltb_ge _ raw)) by lia.
Qed.

Lemma raw_read_encode exid spec b raw :
  temporalSpecs exid = Some spec -> rawValue exid b = Ok raw -> 0 <= raw <= ts_maximumRaw spec /\ encodeRaw exid raw = Ok b.
Proof.
  intros Hs H. destruct (spec_case exid spec Hs) as (_ & Hw & Hm). unfold encodeRaw, rawValue, spec_of in *. rewrite Hs in *.
  cbn [default from_option id] in *. destruct (zlen b =? ts_byteLength spec) eqn:El; [|done]. cbn [negb] in H.
  apply Z.eqb_eq in El. unfold zlen in El. ok_step H as r Hr. destruct (_ || _) eqn:E; [done|]. apply Ok_inj in H. subst r.
  assert (0 <= raw <= ts_maximumRaw spec) as Hb by lia. split; [done|]. rewrite E.
  pose proof (le_combine_range b) as Hc. unfold zlen in Hc.
  destruct Hw as [H8|[[H4 Hx]|[H2 Hx]]].
  - rewrite H8 in *. cbn [Z.eqb Pos.eqb] in *. rewrite El in Hc. change (256 ^ 8) with (2 ^ 64) in Hc.
    rewrite le_uint_exact, ok_bind in Hr by lia. apply Ok_inj in Hr. unfold int64 in Hr.
    assert (uint64 raw = le_combine b) as -> by (unfold uint64; lia). f_equal. apply le_split_combine. lia.
  - rewrite H4 in *. cbn [Z.eqb Pos.eqb] in *. rewrite El in Hc. change (256 ^ 4) with (2 ^ 32) in Hc.
    rewrite le_uint_exact, ok_bind in Hr by lia. apply Ok_inj in Hr. unfold int32 in Hr.
    rewrite int32_small by (unfold is_i32; lia).
    assert (uint32 raw = le_combine b) as -> by (unfold uint32; lia). f_equal. apply le_split_combine. lia.
  - rewrite H2 in *. cbn [Z.eqb Pos.eqb Z.ltb Z.compare Pos.compare Pos.compare_cont] in *. rewrite El in Hc. change (256 ^ 2) with (2 ^ 16) in Hc.
    rewrite le_uint_exact, ok_bind in Hr by lia. apply Ok_inj in Hr. unfold int16 in Hr.
    assert (uint16 (int16 raw) = le_combine b) as -> by (unfold uint16, int16; lia). f_equal. apply le_split_combine. lia.
Qed.

Lemma raw_value_total exid spec b : temporalSpecs exid = Some spec -> total (rawValue exid b).
Proof.
  intros Hs. destruct (spec_case exid spec Hs) as (_ & Hw & _). unfold rawValue, spec_of. rewrite Hs. cbn [default from_option id].
  destruct (zlen b =? _) eqn:El; [|done]. cbn [negb]. apply Z.eqb_eq in El. unfold zlen in El.
  apply total_bind; [|intros r _; by destruct ((r <? 0) || _)].
  destruct Hw as [H8|[[H4 _]|[H2 _]]]; rewrite ?H8, ?H4, ?H2 in *; cbn [Z.eqb Pos.eqb]; by rewrite le_uint_exact by lia.
Qed.

(** The codec of a known type. *)
Lemma encode_known exid spec value :
  temporalSpecs exid = Some spec ->
  EncodeClassicTemporal exid value =
    if bool_decide (value = []) || (bool_decide (exid = lit "p") && bool_decide (value = utclongInitial))
    then encodeRaw exid 0 else raw ← temporal_raw exid value; encodeRaw exid raw.
Proof. intros Hs. unfold EncodeClassicTemporal, specification. by rewrite Hs. Qed.

Lemma decode_known exid spec value :
  temporalSpecs exid = Some spec ->
  DecodeClassicTemporal exid value =
    (raw ← rawValue exid value; if raw =? 0 then ClassicTemporalInitialValue exid else temporal_text exid (raw - 1)).
Proof. intros Hs. unfold DecodeClassicTemporal, specification. by rewrite Hs. Qed.

Lemma initial_known exid spec :
  temporalSpecs exid = Some spec ->
  ClassicTemporalInitialValue exid = Ok (if bool_decide (exid = lit "p") then utclongInitial else []).
Proof. intros Hs. unfold ClassicTemporalInitialValue, specification. by rewrite Hs. Qed.

Lemma temporal_exact exid :
  (forall value b, EncodeClassicTemporal exid value = Ok b ->
     DecodeClassicTemporal exid b = if bool_decide (value = []) then ClassicTemporalInitialValue exid else Ok value) /\
  (forall b text, DecodeClassicTemporal exid b = Ok text -> EncodeClassicTemporal exid text = Ok b).
Proof.
  destruct (temporalSpecs exid) as [spec|] eqn:Hs; [|by unfold EncodeClassicTemporal, DecodeClassicTemporal, specification; rewrite Hs].
  destruct (spec_case exid spec Hs) as (Hcase & _ & Hm). rewrite (initial_known exid spec Hs). split.
  - intros value b H. rewrite (encode_known exid spec) in H by done. rewrite (decode_known exid spec) by done. destruct (_ || _) eqn:Einit.
    + destruct (encode_raw_read exid spec 0 Hs) as (b' & Hb & Hr); [lia|]. rewrite Hb in H. apply Ok_inj in H. subst b'.
      rewrite Hr, ok_bind, (initial_known exid spec Hs). cbn [Z.eqb]. destruct (bool_decide (value = [])) eqn:Ev; [done|]. cbn [orb] in Einit.
      apply andb_true_iff in Einit as [->%bool_decide_eq_true ->%bool_decide_eq_true]. done.
    + apply orb_false_iff in Einit as [-> _]. ok_step H as raw Hraw. apply case_raw in Hraw as [Hr Ht].
      destruct (encode_raw_read exid spec raw Hs) as (b' & Hb & Hrv); [lia|]. rewrite Hb in H. apply Ok_inj in H. subst b'.
      rewrite Hrv, ok_bind, (proj2 (Z.eqb_neq raw 0)) by lia. done.
  - intros b text H. rewrite (decode_known exid spec) in H by done. rewrite (encode_known exid spec) by done. ok_step H as raw Hraw. destruct (raw_read_encode exid spec b raw Hs Hraw) as [Hr He].
    destruct (raw =? 0) eqn:E0.
    + apply Z.eqb_eq in E0. subst raw. rewrite (initial_known exid spec Hs) in H. apply Ok_inj in H. subst text. by destruct (bool_decide (exid = lit "p")).
    + destruct (case_text (raw - 1)) as (v & Hv & Hraw'); [lia|]. rewrite Hv in H. apply Ok_inj in H. subst v.
      replace (raw - 1 + 1) with raw in Hraw' by lia. destruct (_ || _) eqn:Einit; [exfalso|by rewrite Hraw', ok_bind].
      apply orb_true_iff in Einit as [->%bool_decide_eq_true|Einit].
      * clear -Hraw' Hs. destruct exid as [|x [|]]; [done| |done]. cbn [temporalSpecs] in Hs.
        repeat (match type of Hs with context [bool_decide (x = ?c)] => destruct (bool_decide_reflect (x = c)) as [->|?] end; [done|]). done.
      * apply andb_true_iff in Einit as [->%bool_decide_eq_true ->%bool_decide_eq_true]. by vm_compute in Hraw'.
Qed.

(** C11: For each of the nine temporal types, decoding what was encoded gives the text back
    (the initial value for the empty text), and encoding what was decoded gives the same
    bytes. *)
Theorem temporal_codec_exact exid :
  (forall value b, EncodeClassicTemporal exid value = Ok b ->
     DecodeClassicTemporal exid b = if bool_decide (value = []) then ClassicTemporalInitialValue exid else Ok value) /\
  (forall b text, DecodeClassicTemporal exid b = Ok text -> EncodeClassicTemporal exid text = Ok b).
Proof. apply temporal_exact. Qed.

Lemma temporal_ends exid v : total (EncodeClassicTemporal exid v) /\ total (DecodeClassicTemporal exid v).
Proof.
  destruct (temporalSpecs exid) as [spec|] eqn:Hs; [|by unfold EncodeClassicTemporal, DecodeClassicTemporal, specification; rewrite Hs].
  rewrite (encode_known exid spec), (decode_known exid spec), (initial_known exid spec) by done.
  destruct (spec_case exid spec Hs) as (Hcase & _ & Hm). split.
  - case_match.
    + destruct (encode_raw_read exid spec 0 Hs) as (b & -> & _); [lia|done].
    + apply total_bind; [apply case_total|]. intros raw [Hr _]%case_raw.
      destruct (encode_raw_read exid spec raw Hs) as (b & -> & _); [lia|done].
  - apply total_bind; [by eapply raw_value_total|]. intros raw Hraw.
    destruct (raw_read_encode exid spec v raw Hs Hraw) as [Hr _]. case_match; [done|].
    destruct (case_text (raw - 1)) as (t & -> & _); [lia|done].
Qed.

(** The temporal encoder and decoder never panic and their searches end, on any type code
    and any text or bytes. *)
Theorem temporal_total exid v : total (EncodeClassicTemporal exid v) /\ total (DecodeClassicTemporal exid v).
Proof. apply temporal_ends. Qed.

(** The fixed-width texts: what goes to the wire comes back, an initial value as the empty text. *)
Lemma date_text_returns value wire :
  ClassicDateWireText value = Ok wire ->
  ClassicDatePublicText wire = Ok (if bool_decide (value = spaces 8) then [] else value).
Proof.
  unfold ClassicDateWireText, AssertClassicDate, classicDatePattern, ClassicDatePublicText. intros H.
  destruct (bool_decide_reflect (value = [])) as [->|Hne].
  { apply Ok_inj in H. by subst wire. }
  rewrite orb_false_r in H. destruct (classicDateWirePattern value) eqn:E; [|done]. apply Ok_inj in H. subst wire. by rewrite E.
Qed.

Lemma time_text_returns value wire :
  ClassicTimeWireText value = Ok wire ->
  ClassicTimePublicText wire = Ok (if bool_decide (value = spaces 6) then [] else value).
Proof.
  unfold ClassicTimeWireText, AssertClassicTime, classicTimePattern, ClassicTimePublicText. intros H.
  destruct (bool_decide_reflect (value = [])) as [->|Hne].
  { apply Ok_inj in H. by subst wire. }
  rewrite orb_false_r in H. destruct (classicTimeWirePattern value) eqn:E; [|done]. apply Ok_inj in H. subst wire. by rewrite E.
Qed.
