(* ===== verification/DecimalFloat.v ===== *)
(** Package [value], internal/value/decimal_float.go: the decimal floating-point types DECF16
    and DECF34, IEEE 754 decimal64 and decimal128 in the densely packed encoding, stored
    little-endian.

    [math/big.Int] is [Z].  The theorems: three digits survive the packing of a declet; a
    finite text is accepted exactly when its value is representable without rounding, and
    keeps that value; what the encoder wrote, the decoder reads back; and every decoded text
    encodes again to a value with the same text. *)
From stdpp Require Import base list numbers strings pretty sets.
From Stdlib Require Import ZArith Lia Strings.Byte.
From S2P Require Import Prelude Errors Text PackedDecimal ClassicTemporal.

Open Scope Z_scope.

Definition errDecimalFloat : error := EValue ErrDecimalFloat.

Record decimalFloatFormat : Type := mkFormat {
  df_byteLength : Z;
  df_precision : Z;
  df_exponentContinuationBits : Z;
  df_coefficientContinuationBits : Z;
  df_exponentBias : Z;
}.

Definition decf16 : decimalFloatFormat := mkFormat 8 16 8 50 398.
Definition decf34 : decimalFloatFormat := mkFormat 16 34 12 110 6176.

Definition maxDecimalFloatTextLength : Z := 4096.

(** ** Declets *)
Definition encodeDpdDeclet (value : Z) : res Z :=
  let left := Z.quot value 100 in
  let middle := Z.rem (Z.quot value 10) 10 in
  let right := Z.rem value 10 in
  let largePattern := 0 in
  let largePattern := if 8 <=? left then Z.lor largePattern 4 else largePattern in
  let largePattern := if 8 <=? middle then Z.lor largePattern 2 else largePattern in
  let largePattern := if 8 <=? right then Z.lor largePattern 1 else largePattern in
  let r1 := Z.land right 1 in
  let m1 := Z.land middle 1 in
  let l1 := Z.land left 1 in
  let r6 := Z.land right 6 in
  if largePattern =? 0 then Ok (Z.lor (Z.lor (Z.shiftl left 7) (Z.shiftl middle 4)) right)
  else if largePattern =? 1 then Ok (Z.lor (Z.lor (Z.lor (Z.shiftl left 7) (Z.shiftl middle 4)) 8) r1)
  else if largePattern =? 2 then
    Ok (Z.lor (Z.lor (Z.lor (Z.shiftl left 7) (Z.shiftl (Z.lor r6 m1) 4)) 10) r1)
  else if largePattern =? 4 then
    Ok (Z.lor (Z.lor (Z.lor (Z.shiftl (Z.lor r6 l1) 7) (Z.shiftl middle 4)) 12) r1)
  else if largePattern =? 6 then
    Ok (Z.lor (Z.lor (Z.lor (Z.shiftl (Z.lor r6 l1) 7) (Z.shiftl m1 4)) 14) r1)
  else if largePattern =? 5 then
    Ok (Z.lor (Z.lor (Z.lor (Z.shiftl (Z.lor (Z.land middle 6) l1) 7) (Z.shiftl (Z.lor 2 m1) 4)) 14) r1)
  else if largePattern =? 3 then
    Ok (Z.lor (Z.lor (Z.lor (Z.shiftl left 7) (Z.shiftl (Z.lor 4 m1) 4)) 14) r1)
  else if largePattern =? 7 then
    Ok (Z.lor (Z.lor (Z.lor (Z.shiftl l1 7) (Z.shiftl (Z.lor 6 m1) 4)) 14) r1)
  else Panic.

Definition bit_at (code i : Z) : Z := Z.land (Z.shiftr code i) 1.

Definition decodeDpdDeclet (code : Z) : Z :=
  let pqr := Z.land (Z.shiftr code 7) 7 in
  let stu := Z.land (Z.shiftr code 4) 7 in
  let v := bit_at code 3 in
  let w := bit_at code 2 in
  let x := bit_at code 1 in
  let y := Z.land code 1 in
  let pq := Z.lor (Z.shiftl (bit_at code 9) 2) (Z.shiftl (bit_at code 8) 1) in
  let '(left_, middle, right_) :=
    if v =? 0 then (pqr, stu, Z.land code 7)
    else if (w =? 0) && (x =? 0) then (pqr, stu, 8 + y)
    else if (w =? 0) && (x =? 1) then
      (pqr, 8 + bit_at code 4, Z.lor (Z.lor (Z.shiftl (bit_at code 6) 2) (Z.shiftl (bit_at code 5) 1)) y)
    else if (w =? 1) && (x =? 0) then (8 + bit_at code 7, stu, Z.lor pq y)
    else
      let st := Z.land (Z.shiftr code 5) 3 in
      if st =? 0 then (8 + bit_at code 7, 8 + bit_at code 4, Z.lor pq y)
      else if st =? 1 then (8 + bit_at code 7, Z.lor pq (bit_at code 4), 8 + y)
      else if st =? 2 then (pqr, 8 + bit_at code 4, 8 + y)
      else (8 + bit_at code 7, 8 + bit_at code 4, 8 + y) in
  left_ * 100 + middle * 10 + right_.

(** ** The coefficient, three digits to ten bits *)

(** The loop of [encodeCoefficientContinuation]; a slice past the end panics. *)
Fixpoint continuation_loop (digits : bytes) (encoded : Z) : res Z :=
  match digits with
  | [] => Ok encoded
  | a :: b :: c :: digits =>
      code ← encodeDpdDeclet (atoi [a; b; c]);
      continuation_loop digits (Z.lor (Z.shiftl encoded 10) code)
  | _ => Panic
  end.

Definition encodeCoefficientContinuation (digits : bytes) : res Z := continuation_loop digits 0.

Definition leftPad (s : bytes) (width : Z) : bytes :=
  if width <=? zlen s then s else replicate (Z.to_nat (width - zlen s)) x30 ++ s.

(** The loop of [decodeCoefficientContinuation]: [n] declets, the last one first. *)
Fixpoint declet_groups (n : nat) (remainder : Z) : bytes :=
  match n with
  | O => []
  | S n => declet_groups n (Z.shiftr remainder 10)
           ++ leftPad (lit (pretty (decodeDpdDeclet (Z.land remainder 0x3ff)))) 3
  end.

Definition decodeCoefficientContinuation (bits digitCount : Z) : bytes :=
  declet_groups (Z.to_nat (Z.quot digitCount 3)) bits.

(** The loop runs back over the zeros at the end. *)
Fixpoint leading_zeros (s : bytes) : Z :=
  match s with
  | b :: s => if bool_decide (b = x30) then 1 + leading_zeros s else 0
  | [] => 0
  end.

Definition trailingZeroCount (digits : bytes) : Z := leading_zeros (rev digits).

(** ** Infinity and NaN *)

(** A byte of the text against a lower-case letter, ignoring the case. *)
Definition fold_eq (c b : byte) : bool := bool_decide (b = c) || bool_decide (b2z b = b2z c - 0x20).

Fixpoint fold_prefix (letters s : bytes) : option bytes :=
  match letters with
  | [] => Some s
  | c :: letters => match s with b :: s => if fold_eq c b then fold_prefix letters s else None | [] => None end
  end.

(** The sign, when the text matches. *)
Definition infinityPattern (text : bytes) : option bytes :=
  let '(sign, s) := take_sign text in
  if bool_decide (fold_prefix (lit "inf") s = Some []) || bool_decide (fold_prefix (lit "infinity") s = Some [])
  then Some sign else None.

(** The optional [s]; folding case it is also the long s, U+017F. *)
Definition take_s (s : bytes) : bytes * bytes :=
  match s with
  | b :: rest =>
      if fold_eq x73 b then ([b], rest)
      else match s with xc5 :: xbf :: rest => ([xc5; xbf], rest) | _ => ([], s) end
  | [] => ([], [])
  end.

(** The sign, the [s] of group 2 and the digits. *)
Definition nanPattern (text : bytes) : option (bytes * bytes * bytes) :=
  let '(sign, s) := take_sign text in
  let '(signaling, s) := take_s s in
  match fold_prefix (lit "nan") s with
  | Some ds => if forallb is_digit ds then Some (sign, signaling, ds) else None
  | None => None
  end.

Definition finitePattern : bytes -> option submatch := decimalPattern.

Inductive special_kind : Type := Infinity | NaN | SNaN.

Record specialDecimal : Type := mkSpecial { sp_negative : bool; sp_kind : special_kind; sp_diagnostic : bytes }.

Definition is_minus (sign : bytes) : bool := bool_decide (sign = [x2d]).

Definition parseSpecial (text : bytes) (format : decimalFloatFormat) : res (option specialDecimal) :=
  match infinityPattern text with
  | Some sign => Ok (Some (mkSpecial (is_minus sign) Infinity []))
  | None =>
      match nanPattern text with
      | None => Ok None
      | Some (sign, signaling, ds) =>
          let diagnostic := trim_left_zeros ds in
          let capacity := df_precision format - 1 in
          if capacity <? zlen diagnostic then Err errDecimalFloat
          else
            let kind := match signaling with [_] => SNaN | _ => NaN end in
            Ok (Some (mkSpecial (is_minus sign) kind diagnostic))
      end
  end.

(** ** Finite values *)
Record finiteDecimal : Type := mkFinite { fd_negative : bool; fd_coefficient : bytes; fd_exponent : Z }.

(** [SetString(s, 10)] on an optional sign and digits *)
Definition big_value (s : bytes) : Z :=
  let '(sign, ds) := take_sign s in if is_minus sign then - dec_value ds else dec_value ds.

Definition minExp (format : decimalFloatFormat) : Z := - df_exponentBias format.
Definition maxExp (format : decimalFloatFormat) : Z :=
  3 * Z.shiftl 1 (df_exponentContinuationBits format) - 1 - df_exponentBias format.

(** The coefficient without zeros in front. *)
Definition significant_digits (m : submatch) : bytes :=
  let fraction := match m2 m with [] => m4 m | _ => m3 m end in
  match trim_left_zeros (m2 m ++ fraction) with [] => [x30] | s => s end.

Definition text_exponent (m : submatch) : Z :=
  let fraction := match m2 m with [] => m4 m | _ => m3 m end in
  let explicit := match m5 m with [] => 0 | e => big_value e end in
  explicit - zlen fraction.

(** A coefficient that is too long gives up zeros at its end. *)
Definition fit_precision (format : decimalFloatFormat) (coefficient : bytes) (exponent : Z) : res (bytes * Z) :=
  if negb (bool_decide (coefficient = [x30])) && (df_precision format <? zlen coefficient) then
    let excess := zlen coefficient - df_precision format in
    if trailingZeroCount coefficient <? excess then Err errDecimalFloat
    else c ← go_slice coefficient 0 (zlen coefficient - excess); Ok (c, exponent + excess)
  else Ok (coefficient, exponent).

(** An exponent out of range is traded for zeros of the coefficient. *)
Definition fit_exponent (format : decimalFloatFormat) (coefficient : bytes) (exponent : Z) : res (bytes * Z) :=
  if bool_decide (coefficient = [x30]) then
    let exponent := if exponent <? minExp format then minExp format else exponent in
    let exponent := if maxExp format <? exponent then maxExp format else exponent in
    Ok (coefficient, exponent)
  else if maxExp format <? exponent then
    let requiredZeros := exponent - maxExp format in
    let availableDigits := df_precision format - zlen coefficient in
    if availableDigits <? requiredZeros then Err errDecimalFloat
    else zs ← repeat_zero requiredZeros; Ok (coefficient ++ zs, maxExp format)
  else if exponent <? minExp format then
    let requiredZeros := minExp format - exponent in
    if trailingZeroCount coefficient <? requiredZeros then Err errDecimalFloat
    else c ← go_slice coefficient 0 (zlen coefficient - requiredZeros); Ok (c, minExp format)
  else Ok (coefficient, exponent).

Definition parseFinite (text : bytes) (format : decimalFloatFormat) : res finiteDecimal :=
  match finitePattern text with
  | None => Err errDecimalFloat
  | Some m =>
      '(coefficient, exponent) ← fit_precision format (significant_digits m) (text_exponent m);
      '(coefficient, exponent) ← fit_exponent format coefficient exponent;
      Ok (mkFinite (is_minus (m1 m)) coefficient exponent)
  end.

(** ** Bytes *)
Fixpoint writeLittleEndian (byteLength : nat) (value : Z) : bytes :=
  match byteLength with
  | O => []
  | S n => z2b (Z.land value 0xff) :: writeLittleEndian n (Z.shiftr value 8)
  end.

Definition readLittleEndian (value : bytes) : Z :=
  fold_left (fun result b => Z.lor (Z.shiftl result 8) (b2z b)) (rev value) 0.

Definition totalBits (format : decimalFloatFormat) : Z := df_byteLength format * 8.

Definition sign_bit (negative : bool) (format : decimalFloatFormat) : Z :=
  if negative then Z.shiftl 1 (totalBits format - 1) else 0.

Definition encodeSpecial (value : specialDecimal) (format : decimalFloatFormat) : res bytes :=
  let sign := sign_bit (sp_negative value) format in
  let combShift := totalBits format - 6 in
  let write := writeLittleEndian (Z.to_nat (df_byteLength format)) in
  match sp_kind value with
  | Infinity => Ok (write (Z.lor sign (Z.shiftl 30 combShift)))
  | kind =>
      diagnostic ← encodeCoefficientContinuation (leftPad (sp_diagnostic value) (df_precision format - 1));
      let signaling := match kind with
        | SNaN => Z.shiftl 1 (df_coefficientContinuationBits format + df_exponentContinuationBits format - 1)
        | _ => 0
        end in
      Ok (write (Z.lor (Z.lor (Z.lor sign (Z.shiftl 31 combShift)) signaling) diagnostic))
  end.

Definition encodeFinite (finite : finiteDecimal) (format : decimalFloatFormat) : res bytes :=
  let digits := leftPad (fd_coefficient finite) (df_precision format) in
  d0 ← go_index digits 0;
  let msd := digit_value d0 in
  rest ← go_from digits 1;
  coeffCont ← encodeCoefficientContinuation rest;
  let encodedExponent := fd_exponent finite + df_exponentBias format in
  let exponentMSB := Z.shiftr encodedExponent (df_exponentContinuationBits format) in
  let exponentCont := Z.land encodedExponent (Z.shiftl 1 (df_exponentContinuationBits format) - 1) in
  let combination :=
    if msd <=? 7 then Z.lor (Z.shiftl exponentMSB 3) msd
    else Z.lor (Z.lor 24 (Z.shiftl exponentMSB 1)) (msd - 8) in
  let encoded := Z.lor (sign_bit (fd_negative finite) format) (Z.shiftl combination (totalBits format - 6)) in
  let encoded := Z.lor encoded (Z.shiftl exponentCont (df_coefficientContinuationBits format)) in
  Ok (writeLittleEndian (Z.to_nat (df_byteLength format)) (Z.lor encoded coeffCont)).

Definition encodeDecimalFloat (value : bytes) (format : decimalFloatFormat) : res bytes :=
  if maxDecimalFloatTextLength <? zlen value then Err errDecimalFloat
  else
    special ← parseSpecial value format;
    match special with
    | Some special => encodeSpecial special format
    | None => finite ← parseFinite value format; encodeFinite finite format
    end.

(** ** Texts *)
Definition digits_or_zero (coefficient : bytes) : bytes :=
  match trim_left_zeros coefficient with [] => [x30] | s => s end.

Definition formatFinite (negative : bool) (coefficient : bytes) (exponent : Z) : res bytes :=
  let digits := digits_or_zero coefficient in
  let adjustedExponent := exponent + zlen digits - 1 in
  body ← (if (exponent <=? 0) && (-6 <=? adjustedExponent) then
            if exponent =? 0 then Ok digits
            else
              let point := zlen digits + exponent in
              if 0 <? point then
                a ← go_slice digits 0 point; b ← go_from digits point; Ok (a ++ lit "." ++ b)
              else zs ← repeat_zero (- point); Ok (lit "0." ++ zs ++ digits)
          else
            significand ← (if zlen digits =? 1 then Ok digits
                           else a ← go_slice digits 0 1; b ← go_from digits 1; Ok (a ++ lit "." ++ b));
            let exp := lit (pretty adjustedExponent) in
            let exp := if 0 <=? adjustedExponent then lit "+" ++ exp else exp in
            Ok (significand ++ lit "E" ++ exp));
  Ok (if negative then lit "-" ++ body else body).

Definition decodeDecimalFloat (value : bytes) (format : decimalFloatFormat) : res bytes :=
  if negb (zlen value =? df_byteLength format) then Err errDecimalFloat
  else
    let k := df_coefficientContinuationBits format in
    let w := df_exponentContinuationBits format in
    let encoded := readLittleEndian value in
    let negative := Z.testbit encoded (totalBits format - 1) in
    let combination := Z.land (Z.shiftr encoded (totalBits format - 6)) 31 in
    let coeffCont := Z.land encoded (Z.shiftl 1 k - 1) in
    let sign := if negative then lit "-" else [] in
    if combination =? 30 then Ok (sign ++ lit "Infinity")
    else if combination =? 31 then
      let signaling := Z.testbit encoded (k + w - 1) in
      let diagnostic := trim_left_zeros (decodeCoefficientContinuation coeffCont (df_precision format - 1)) in
      Ok (sign ++ (if signaling then lit "sNaN" else lit "NaN") ++ diagnostic)
    else
      let '(exponentMSB, msd) :=
        if combination <? 24 then (Z.shiftr combination 3, Z.land combination 7)
        else (Z.land (Z.shiftr combination 1) 3, 8 + Z.land combination 1) in
      let exponentCont := Z.land (Z.shiftr encoded k) (Z.shiftl 1 w - 1) in
      let exponent := Z.lor (Z.shiftl exponentMSB w) exponentCont in
      let coefficient := lit (pretty msd) ++ decodeCoefficientContinuation coeffCont (df_precision format - 1) in
      formatFinite negative coefficient (exponent - df_exponentBias format).

Definition EncodeDecimalFloat16 (value : bytes) : res bytes := encodeDecimalFloat value decf16.
Definition DecodeDecimalFloat16 (value : bytes) : res bytes := decodeDecimalFloat value decf16.
Definition EncodeDecimalFloat34 (value : bytes) : res bytes := encodeDecimalFloat value decf34.
Definition DecodeDecimalFloat34 (value : bytes) : res bytes := decodeDecimalFloat value decf34.

(** ** Declets, one by one *)
#[local] Ltac Zify.zify_post_hook ::= Z.to_euclidean_division_equations.

Definition declet_ok (v : Z) : bool :=
  match encodeDpdDeclet v with
  | Ok c => (0 <=? c) && (c <? 1024) && (decodeDpdDeclet c =? v) && bool_decide (leftPad (lit (pretty v)) 3 = fixed_digits 3 v)
  | _ => false
  end.

Lemma in_table (p : Z -> bool) (n : Z) : forallb p (seqZ 0 n) = true -> forall v, 0 <= v < n -> p v = true.
Proof. intros H v Hv. rewrite forallb_forall in H. apply H, list_elem_of_In, elem_of_seqZ. lia. Qed.

(** Three digits fit in ten bits and come back. *)
Lemma declet_inverse v :
  0 <= v < 1000 ->
  exists c, encodeDpdDeclet v = Ok c /\ 0 <= c < 1024 /\ decodeDpdDeclet c = v /\ leftPad (lit (pretty v)) 3 = fixed_digits 3 v.
Proof.
  intros Hv. assert (forallb declet_ok (seqZ 0 1000) = true) as Hall by by vm_compute.
  pose proof (in_table _ _ Hall v Hv) as H. unfold declet_ok in H. destruct (encodeDpdDeclet v) as [c| |]; [|done..].
  apply andb_true_iff in H as [H H4%bool_decide_eq_true]. exists c. split; [done|]. split; [lia|]. split; [lia|done].
Qed.

Lemma declet_range c : 0 <= c < 1024 -> 0 <= decodeDpdDeclet c < 1000.
Proof.
  intros Hc. assert (forallb (fun c => (0 <=? decodeDpdDeclet c) && (decodeDpdDeclet c <? 1000)) (seqZ 0 1024) = true) as Hall by by vm_compute.
  pose proof (in_table _ _ Hall c Hc) as H. cbn beta in H. lia.
Qed.

(** ** Bit fields *)
Lemma lor_shiftl n v a : 0 <= n -> 0 <= a < 2 ^ n -> Z.lor (Z.shiftl v n) a = v * 2 ^ n + a.
Proof.
  intros Hn Ha.
  rewrite <- Z.lxor_lor, <- Z.add_nocarry_lxor, Z.shiftl_mul_pow2 by
    (lia || (apply Z.bits_inj'; intros i Hi; rewrite Z.land_spec, Z.bits_0;
             destruct (Z.ltb_spec i n);
             [rewrite Z.shiftl_spec_low by lia; done
             |replace a with (a mod 2 ^ n) by (apply Z.mod_small; lia);
              rewrite Z.mod_pow2_bits_high by lia; apply andb_false_r])).
  done.
Qed.

Lemma land_mask v n : 0 <= n -> Z.land v (Z.shiftl 1 n - 1) = v mod 2 ^ n.
Proof. intros Hn. rewrite Z.shiftl_1_l. rewrite <- Z.land_ones by done. f_equal. rewrite Z.ones_equiv. lia. Qed.

Lemma land_1023 v : Z.land v 0x3ff = v mod 1024.
Proof. change 0x3ff with (Z.ones 10). by rewrite Z.land_ones by lia. Qed.

Lemma write_le n v : writeLittleEndian n v = le_split n v.
Proof.
  revert v. induction n as [|n IH]; intros v; [done|]. cbn [writeLittleEndian]. unfold le_split in *. cbn [be_split].
  rewrite rev_app_distr. cbn [rev app]. rewrite IH, Z.shiftr_div_pow2 by lia.
  assert (z2b (Z.land v 0xff) = z2b v) as ->; [|done].
  change 0xff with (Z.ones 8). rewrite Z.land_ones by lia. unfold z2b. by rewrite Z.mod_mod by lia.
Qed.

Lemma read_le b : readLittleEndian b = le_combine b.
Proof.
  unfold readLittleEndian, le_combine, be_combine. generalize 0 as acc. induction (rev b) as [|x l IH]; intros acc; [done|].
  cbn [fold_left]. rewrite IH. f_equal. apply lor_shiftl8.
Qed.

(** ** The coefficient *)
Lemma declet_groups_cons n code c :
  0 <= code < 1024 -> 0 <= c < 1024 ^ Z.of_nat n ->
  declet_groups (S n) (code * 1024 ^ Z.of_nat n + c) = leftPad (lit (pretty (decodeDpdDeclet code))) 3 ++ declet_groups n c.
Proof.
  revert c. induction n as [|n IH]; intros c Hcode Hc.
  - change (1024 ^ Z.of_nat 0) with 1 in *. replace (code * 1 + c) with code by lia. cbn [declet_groups].
    rewrite land_1023, Z.mod_small by lia. by rewrite app_nil_r.
  - rewrite Nat2Z.inj_succ, Z.pow_succ_r in * by lia. set (p := 1024 ^ Z.of_nat n) in *.
    change (declet_groups (S (S n)) ?x) with (declet_groups (S n) (Z.shiftr x 10) ++ leftPad (lit (pretty (decodeDpdDeclet (Z.land x 0x3ff)))) 3).
    rewrite Z.shiftr_div_pow2, land_1023 by lia. change (2 ^ 10) with 1024.
    replace (code * (1024 * p) + c) with (code * p * 1024 + c) by lia.
    rewrite Z.div_add_l, (Z.add_comm _ c), Z.mod_add by lia.
    rewrite IH; [|done|subst p; split; [apply Z.div_pos; lia|apply Z.div_lt_upper_bound; lia]].
    cbn [declet_groups]. rewrite Z.shiftr_div_pow2, land_1023 by lia. by rewrite <- app_assoc.
Qed.

Lemma group_digits a b c : all_digits [a; b; c] ->
  0 <= atoi [a; b; c] < 1000 /\ fixed_digits 3 (atoi [a; b; c]) = [a; b; c].
Proof.
  intros Hd. assert (is_digits 3 [a; b; c] = true) as H by (by apply is_digits_spec).
  destruct (atoi_digits 3 _ H ltac:(lia)) as [Ha Hr]. change (10 ^ Z.of_nat 3) with 1000 in Hr.
  split; [lia|]. rewrite <- padded_ok by (rewrite Ha; done). by apply padded_atoi; [|lia].
Qed.

(** The continuation of any digits decodes to these digits. *)
Lemma continuation_roundtrip n digits acc :
  0 <= acc -> length digits = (3 * n)%nat -> all_digits digits ->
  exists c, continuation_loop digits acc = Ok (acc * 1024 ^ Z.of_nat n + c) /\ 0 <= c < 1024 ^ Z.of_nat n /\ declet_groups n c = digits.
Proof.
  revert digits acc. induction n as [|n IH]; intros digits acc Hacc Hl Hd.
  { destruct digits; [|done]. exists 0. split; [cbn [continuation_loop]; f_equal; lia|]. split; [lia|done]. }
  destruct digits as [|a [|b [|c digits]]]; cbn in Hl; try lia. cbn [continuation_loop].
  assert (all_digits [a; b; c] /\ all_digits digits) as [Hg Hd'].
  { apply (all_digits_app [a; b; c] digits). exact Hd. }
  destruct (group_digits a b c Hg) as [Hr Hf]. destruct (declet_inverse _ Hr) as (code & -> & Hcode & Hdec & Hpad).
  rewrite ok_bind, lor_shiftl by (change (2 ^ 10) with 1024; lia). change (2 ^ 10) with 1024.
  destruct (IH digits (acc * 1024 + code)) as (c' & -> & Hc' & Hg'); [lia|lia|done|].
  exists (code * 1024 ^ Z.of_nat n + c'). rewrite Nat2Z.inj_succ, Z.pow_succ_r by lia.
  assert (0 < 1024 ^ Z.of_nat n) by (apply Z.pow_pos_nonneg; lia).
  split; [f_equal; lia|]. split; [nia|]. rewrite declet_groups_cons by done. by rewrite Hdec, Hpad, Hf, Hg'.
Qed.

(** Any continuation decodes to digits. *)
Lemma declet_groups_digits n c : length (declet_groups n c) = (3 * n)%nat /\ all_digits (declet_groups n c).
Proof.
  revert c. induction n as [|n IH]; intros c; [by split; [|constructor]|]. cbn [declet_groups].
  assert (0 <= decodeDpdDeclet (Z.land c 0x3ff) < 1000) as Hr by (apply declet_range; rewrite land_1023; lia).
  destruct (declet_inverse _ Hr) as (_ & _ & _ & _ & ->). destruct (IH (Z.shiftr c 10)) as [Hl Hd].
  split; [rewrite length_app, Hl, length_fixed_digits; lia|]. apply all_digits_app. split; [done|apply fixed_digits_digits].
Qed.

(** ** The fields of an encoded value *)

(** The formats: [n] declets after the leading digit, and six bits for the sign and the
    combination. *)
Record format_ok (f : decimalFloatFormat) (n : nat) : Prop := {
  ok_precision : df_precision f = 3 * Z.of_nat n + 1;
  ok_coefficient : df_coefficientContinuationBits f = 10 * Z.of_nat n;
  ok_exponent : 4 <= df_exponentContinuationBits f <= 12;
  ok_total : totalBits f = df_coefficientContinuationBits f + df_exponentContinuationBits f + 6;
  ok_bias : 0 < df_exponentBias f < 3 * 2 ^ df_exponentContinuationBits f - 40;
  ok_digits : (1 <= n <= 11)%nat;
}.

Lemma decf16_ok : format_ok decf16 5.
Proof. split; try done; lia. Qed.
Lemma decf34_ok : format_ok decf34 11.
Proof. split; try done; lia. Qed.

Section Fields.
Context (f : decimalFloatFormat) (n : nat) (Hf : format_ok f n).

Let k := df_coefficientContinuationBits f.
Let w := df_exponentContinuationBits f.

Definition word (neg : bool) (comb e c : Z) : Z :=
  (((if neg then 1 else 0) * 32 + comb) * 2 ^ df_exponentContinuationBits f + e) * 2 ^ df_coefficientContinuationBits f + c.

Record field_ranges (comb e c : Z) : Prop := {
  fr_comb : 0 <= comb < 32;
  fr_e : 0 <= e < 2 ^ df_exponentContinuationBits f;
  fr_c : 0 <= c < 2 ^ df_coefficientContinuationBits f;
}.

Lemma k_w_pos : 10 <= k /\ 4 <= w /\ totalBits f = k + w + 6 /\ 0 < 2 ^ k /\ 0 < 2 ^ w.
Proof.
  pose proof (ok_coefficient f n Hf). pose proof (ok_exponent f n Hf). pose proof (ok_total f n Hf). pose proof (ok_digits f n Hf).
  subst k w. repeat split; try lia; apply Z.pow_pos_nonneg; lia.
Qed.

Lemma word_of_fields neg comb e c :
  field_ranges comb e c ->
  Z.lor (Z.lor (Z.lor (sign_bit neg f) (Z.shiftl comb (totalBits f - 6))) (Z.shiftl e k)) c = word neg comb e c.
Proof.
  intros [H1 H2 H3]. destruct k_w_pos as (Hk & Hw & Ht & Pk & Pw). fold k in H3. fold w in H2. unfold word, sign_bit. fold k w. rewrite Ht.
  rewrite <- !Z.lor_assoc. rewrite (lor_shiftl k e c) by lia.
  replace (k + w + 6 - 6) with (w + k) by lia. replace (k + w + 6 - 1) with (w + k + 5) by lia.
  assert (2 ^ (w + k) = 2 ^ w * 2 ^ k) as Pwk by (apply Z.pow_add_r; lia).
  assert (2 ^ (w + k + 5) = 2 ^ (w + k) * 32) as P5 by (by rewrite Z.pow_add_r by lia).
  assert (0 <= e * 2 ^ k + c < 2 ^ w * 2 ^ k) as He by nia. set (x := e * 2 ^ k + c) in *. set (p := 2 ^ w * 2 ^ k) in *.
  rewrite (lor_shiftl (w + k) comb x) by (rewrite ?Pwk; lia). rewrite Pwk in *.
  replace ((((if neg then 1 else 0) * 32 + comb) * 2 ^ w + e) * 2 ^ k + c) with (((if neg then 1 else 0) * 32 + comb) * p + x) by (subst p x; lia).
  assert (0 <= comb * p + x < p * 32) by nia.
  destruct neg; [rewrite lor_shiftl by (rewrite ?P5; lia); rewrite P5; lia|rewrite Z.lor_0_l; lia].
Qed.

Lemma word_range neg comb e c : field_ranges comb e c -> 0 <= word neg comb e c < 2 ^ totalBits f.
Proof.
  intros [H1 H2 H3]. destruct k_w_pos as (Hk & Hw & Ht & Pk & Pw). fold k in H3. fold w in H2. unfold word. fold k w. rewrite Ht.
  rewrite !Z.pow_add_r by lia. change (2 ^ 6) with 64. destruct neg; nia.
Qed.

(** The fields read back. *)
Lemma word_fields neg comb e c :
  field_ranges comb e c ->
  Z.testbit (word neg comb e c) (totalBits f - 1) = neg /\
  Z.land (Z.shiftr (word neg comb e c) (totalBits f - 6)) 31 = comb /\
  Z.land (word neg comb e c) (Z.shiftl 1 k - 1) = c /\
  Z.land (Z.shiftr (word neg comb e c) k) (Z.shiftl 1 w - 1) = e /\
  Z.testbit (word neg comb e c) (k + w - 1) = Z.testbit e (w - 1).
Proof.
  intros [H1 H2 H3]. destruct k_w_pos as (Hk & Hw & Ht & Pk & Pw). fold k in H3. fold w in H2. unfold word. fold k w. rewrite Ht.
  set (s := if neg then 1 else 0). assert (0 <= s <= 1) as Hs by (subst s; destruct neg; lia).
  set (hi := s * 32 + comb). assert ((hi * 2 ^ w + e) * 2 ^ k + c = hi * 2 ^ (w + k) + (e * 2 ^ k + c)) as Hv
    by (rewrite Z.pow_add_r by lia; lia).
  assert (((hi * 2 ^ w + e) * 2 ^ k + c) / 2 ^ (w + k) = hi) as Hdiv.
  { rewrite Hv, Z.div_add_l by (apply Z.pow_nonzero; lia). rewrite Z.div_small; [lia|]. rewrite Z.pow_add_r by lia. nia. }
  assert (((hi * 2 ^ w + e) * 2 ^ k + c) / 2 ^ k = hi * 2 ^ w + e) as Hdk by (rewrite Z.div_add_l, Z.div_small by lia; lia).
  replace (k + w + 6 - 6) with (w + k) by lia. split; [|split; [|split; [|split]]].
  - replace (k + w + 6 - 1) with (5 + (w + k)) by lia. rewrite <- Z.shiftr_spec, Z.shiftr_div_pow2, Hdiv by lia.
    rewrite Z.testbit_odd, Z.shiftr_div_pow2 by lia. change (2 ^ 5) with 32. subst hi. rewrite Z.div_add_l, Z.div_small by lia.
    subst s. by destruct neg.
  - rewrite Z.shiftr_div_pow2, Hdiv by lia. change 31 with (Z.ones 5). rewrite Z.land_ones by lia. change (2 ^ 5) with 32. subst hi.
    rewrite Z.add_comm, Z.mod_add, Z.mod_small by lia. done.
  - rewrite land_mask by lia. rewrite Z.add_comm, Z.mod_add, Z.mod_small by lia. done.
  - rewrite Z.shiftr_div_pow2, Hdk, land_mask by lia. rewrite Z.add_comm, Z.mod_add, Z.mod_small by lia. done.
  - replace (k + w - 1) with (w - 1 + k) by lia. rewrite <- Z.shiftr_spec, Z.shiftr_div_pow2, Hdk by lia.
    rewrite <- (Z.mod_pow2_bits_low (hi * 2 ^ w + e) w) by lia. f_equal. rewrite Z.add_comm, Z.mod_add, Z.mod_small by lia. done.
Qed.

(** What the decoder makes of the fields. *)
Definition text_of (neg : bool) (comb e c : Z) : res bytes :=
  let sign := if neg then lit "-" else [] in
  if comb =? 30 then Ok (sign ++ lit "Infinity")
  else if comb =? 31 then
    Ok (sign ++ (if Z.testbit e (df_exponentContinuationBits f - 1) then lit "sNaN" else lit "NaN")
        ++ trim_left_zeros (declet_groups n c))
  else
    let '(exponentMSB, msd) :=
      if comb <? 24 then (Z.shiftr comb 3, Z.land comb 7) else (Z.land (Z.shiftr comb 1) 3, 8 + Z.land comb 1) in
    formatFinite neg (lit (pretty msd) ++ declet_groups n c)
      (Z.lor (Z.shiftl exponentMSB (df_exponentContinuationBits f)) e - df_exponentBias f).

Definition write (v : Z) : bytes := writeLittleEndian (Z.to_nat (df_byteLength f)) v.

Lemma bytes_bits : 0 < df_byteLength f /\ 256 ^ df_byteLength f = 2 ^ totalBits f.
Proof.
  destruct k_w_pos as (Hk & Hw & Ht & _). unfold totalBits in *. split; [lia|].
  replace (df_byteLength f * 8) with (8 * df_byteLength f) by lia. by rewrite Z.pow_mul_r by lia.
Qed.

Lemma decode_word neg comb e c :
  field_ranges comb e c -> decodeDecimalFloat (write (word neg comb e c)) f = text_of neg comb e c.
Proof.
  intros Hr. destruct bytes_bits as [Hb Hp]. unfold decodeDecimalFloat, write. rewrite write_le, read_le.
  unfold zlen. rewrite length_le_split. rewrite Z2Nat.id, Z.eqb_refl by lia. cbn [negb].
  rewrite le_combine_split, Z2Nat.id, Hp by lia. rewrite Z.mod_small by (by apply word_range).
  destruct (word_fields neg comb e c Hr) as (H1 & H2 & H3 & H4 & H5). fold k w. rewrite H1, H2, H3, H4, H5.
  unfold decodeCoefficientContinuation. rewrite (ok_precision f n Hf).
  replace (Z.to_nat (Z.quot (3 * Z.of_nat n + 1 - 1) 3)) with n by lia. done.
Qed.

(** Every value of the right length is written by its fields. *)
Lemma fields_of b :
  zlen b = df_byteLength f -> exists neg comb e c, field_ranges comb e c /\ b = write (word neg comb e c).
Proof.
  intros Hl. destruct k_w_pos as (Hk & Hw & Ht & Pk & Pw). destruct bytes_bits as [Hb Hp].
  pose proof (le_combine_range b) as Hr. rewrite Hl, Hp, Ht in Hr. set (v := le_combine b) in *.
  set (c := v mod 2 ^ k). set (e := v / 2 ^ k mod 2 ^ w). set (hi := v / 2 ^ k / 2 ^ w).
  assert (0 <= hi < 64) as Hhi.
  { subst hi. rewrite Z.div_div by lia. split; [apply Z.div_pos; nia|]. apply Z.div_lt_upper_bound; [nia|].
    rewrite !Z.pow_add_r in Hr by lia. change (2 ^ 6) with 64 in Hr. lia. }
  assert (v = (hi * 2 ^ w + e) * 2 ^ k + c) as Hv.
  { subst c e hi. pose proof (Z.div_mod v (2 ^ k) ltac:(lia)). pose proof (Z.div_mod (v / 2 ^ k) (2 ^ w) ltac:(lia)). lia. }
  exists (32 <=? hi), (hi mod 32), e, c. split.
  - split; [lia|apply Z.mod_pos_bound; lia|apply Z.mod_pos_bound; lia].
  - unfold write. rewrite write_le. unfold word. fold k w.
    replace ((if 32 <=? hi then 1 else 0) * 32 + hi mod 32) with hi by (destruct (32 <=? hi) eqn:E; lia).
    rewrite <- Hv. symmetry. apply le_split_combine. unfold zlen in Hl. lia.
Qed.
End Fields.

(** ** Encoding finite values *)

(** The combination field of a leading digit and the top of the exponent. *)
Definition comb_of (msb msd : Z) : Z :=
  if msd <=? 7 then Z.lor (Z.shiftl msb 3) msd else Z.lor (Z.lor 24 (Z.shiftl msb 1)) (msd - 8).

Definition comb_ok (i : Z) : bool :=
  let msb := i / 10 in let msd := i mod 10 in let comb := comb_of msb msd in
  (0 <=? comb) && (comb <? 30) && bool_decide (lit (pretty msd) = [digit_char msd]) &&
  bool_decide ((if comb <? 24 then (Z.shiftr comb 3, Z.land comb 7) else (Z.land (Z.shiftr comb 1) 3, 8 + Z.land comb 1)) = (msb, msd)).

Lemma comb_fields msb msd :
  0 <= msb <= 2 -> 0 <= msd <= 9 ->
  0 <= comb_of msb msd < 30 /\ lit (pretty msd) = [digit_char msd] /\
  (if comb_of msb msd <? 24 then (Z.shiftr (comb_of msb msd) 3, Z.land (comb_of msb msd) 7)
   else (Z.land (Z.shiftr (comb_of msb msd) 1) 3, 8 + Z.land (comb_of msb msd) 1)) = (msb, msd).
Proof.
  intros H1 H2. assert (forallb comb_ok (seqZ 0 30) = true) as Hall by by vm_compute.
  pose proof (in_table _ _ Hall (msb * 10 + msd) ltac:(lia)) as H. unfold comb_ok in H.
  replace ((msb * 10 + msd) / 10) with msb in H by lia. replace ((msb * 10 + msd) mod 10) with msd in H by lia. cbv zeta in H.
  apply andb_true_iff in H as [H Hp%bool_decide_eq_true]. apply andb_true_iff in H as [H Hd%bool_decide_eq_true]. split; [lia|done].
Qed.

Lemma leftPad_digits s k : all_digits s -> zlen s <= k -> zlen (leftPad s k) = k /\ all_digits (leftPad s k).
Proof.
  intros Hd Hl. unfold leftPad. destruct (k <=? zlen s) eqn:E; [split; [lia|done]|]. split.
  - rewrite zlen_app. unfold zlen at 1. rewrite length_replicate. lia.
  - apply all_digits_app. split; [|done]. by apply Forall_replicate.
Qed.

Lemma trim_zeros_app j s : trim_left_zeros (replicate j x30 ++ s) = trim_left_zeros s.
Proof. induction j as [|j IH]; [done|]. cbn [replicate app trim_left_zeros]. by rewrite bool_decide_true. Qed.

Lemma trim_leftPad s k : trim_left_zeros (leftPad s k) = trim_left_zeros s.
Proof. unfold leftPad. case_match; [done|apply trim_zeros_app]. Qed.

Record finite_ok (f : decimalFloatFormat) (d : finiteDecimal) : Prop := {
  fo_digits : all_digits (fd_coefficient d);
  fo_length : 1 <= zlen (fd_coefficient d) <= df_precision f;
  fo_exponent : minExp f <= fd_exponent d <= maxExp f;
}.

Lemma encode_finite f n d :
  format_ok f n -> finite_ok f d ->
  exists b, encodeFinite d f = Ok b /\ decodeDecimalFloat b f = formatFinite (fd_negative d) (fd_coefficient d) (fd_exponent d).
Proof.
  intros Hf [Hd Hl He]. pose proof (ok_precision f n Hf) as Hp. pose proof (ok_exponent f n Hf) as Hw.
  pose proof (ok_coefficient f n Hf) as Hk.
  destruct (leftPad_digits (fd_coefficient d) (df_precision f) Hd ltac:(lia)) as [Hlp Hdp].
  pose proof (trim_leftPad (fd_coefficient d) (df_precision f)) as Ht.
  unfold encodeFinite. set (digits := leftPad (fd_coefficient d) (df_precision f)) in *.
  destruct digits as [|d0 rest] eqn:Ed; [exfalso; change (zlen (@nil byte)) with 0 in Hlp; lia|]. clear Ed.
  unfold zlen in Hlp. cbn [length] in Hlp.
  apply Forall_cons in Hdp as [Hd0 Hdr].
  change (go_index (E := error) (d0 :: rest) 0) with (@Ok error _ d0). rewrite ok_bind.
  assert (go_from (E := error) (d0 :: rest) 1 = Ok rest) as -> by (by apply (go_from_app [d0] rest)). rewrite ok_bind.
  destruct (continuation_roundtrip n rest 0) as (c & Hc & Hcr & Hg); [lia|lia|done|].
  unfold encodeCoefficientContinuation. rewrite Hc, ok_bind. replace (0 * 1024 ^ Z.of_nat n + c) with c by lia.
  assert (1024 ^ Z.of_nat n = 2 ^ df_coefficientContinuationBits f) as Hpow
    by (rewrite Hk; change 1024 with (2 ^ 10); by rewrite <- Z.pow_mul_r by lia).
  set (x := fd_exponent d + df_exponentBias f). set (w := df_exponentContinuationBits f) in *.
  assert (0 < 2 ^ w) as Pw by (apply Z.pow_pos_nonneg; lia).
  assert (0 <= x < 3 * 2 ^ w) as Hx.
  { subst x. unfold minExp, maxExp in He. fold w in He. rewrite Z.shiftl_1_l in He. lia. }
  rewrite Z.shiftr_div_pow2, land_mask by lia.
  assert (0 <= x / 2 ^ w <= 2) as Hmsb by (split; [apply Z.div_pos; lia|]; assert (x / 2 ^ w < 3) by (apply Z.div_lt_upper_bound; lia); lia).
  pose proof (digit_range d0 Hd0) as Hmsd. destruct (comb_fields (x / 2 ^ w) (digit_value d0) Hmsb Hmsd) as (Hcr' & Hpr & Hsplit).
  assert (field_ranges f (comb_of (x / 2 ^ w) (digit_value d0)) (x mod 2 ^ w) c) as Hr
    by (split; [lia|fold w; apply Z.mod_pos_bound; lia|lia]).
  eexists. split; [reflexivity|]. fold (comb_of (x / 2 ^ w) (digit_value d0)).
  rewrite (word_of_fields f n Hf) by done. fold (write f (word f (fd_negative d) (comb_of (x / 2 ^ w) (digit_value d0)) (x mod 2 ^ w) c)).
  rewrite (decode_word f n Hf) by done. unfold text_of. rewrite (proj2 (Z.eqb_neq _ 30)), (proj2 (Z.eqb_neq _ 31)) by lia.
  rewrite Hsplit, Hpr, Hg, digit_char_value by done. rewrite lor_shiftl; [|lia|fold w; apply Z.mod_pos_bound; lia].
  fold w. replace (x / 2 ^ w * 2 ^ w + x mod 2 ^ w) with x by (pose proof (Z.div_mod x (2 ^ w) ltac:(lia)); lia).
  replace (x - df_exponentBias f) with (fd_exponent d) by (subst x; lia). cbn [app].
  unfold formatFinite, digits_or_zero. by rewrite Ht.
Qed.

(** ** Encoding infinities and NaNs *)
Definition special_text (s : specialDecimal) : bytes :=
  (if sp_negative s then lit "-" else []) ++
  match sp_kind s with
  | Infinity => lit "Infinity"
  | NaN => lit "NaN" ++ sp_diagnostic s
  | SNaN => lit "sNaN" ++ sp_diagnostic s
  end.

Record special_ok (f : decimalFloatFormat) (s : specialDecimal) : Prop := {
  so_digits : all_digits (sp_diagnostic s);
  so_trimmed : trim_left_zeros (sp_diagnostic s) = sp_diagnostic s;
  so_length : zlen (sp_diagnostic s) <= df_precision f - 1;
}.

Lemma encode_nan f n s neg signaling :
  format_ok f n -> special_ok f s ->
  let k := df_coefficientContinuationBits f in
  let w := df_exponentContinuationBits f in
  exists c, encodeCoefficientContinuation (leftPad (sp_diagnostic s) (df_precision f - 1)) = Ok c /\
    decodeDecimalFloat
      (writeLittleEndian (Z.to_nat (df_byteLength f))
        (Z.lor (Z.lor (Z.lor (sign_bit neg f) (Z.shiftl 31 (totalBits f - 6)))
                 (if (signaling : bool) then Z.shiftl 1 (k + w - 1) else 0)) c)) f
    = Ok ((if neg then lit "-" else []) ++ (if signaling then lit "sNaN" else lit "NaN") ++ sp_diagnostic s).
Proof.
  intros Hf [Hd Ht Hl] k w. pose proof (ok_precision f n Hf) as Hp. pose proof (ok_exponent f n Hf) as Hw.
  pose proof (ok_coefficient f n Hf) as Hk. fold k in Hk. fold w in Hw.
  destruct (leftPad_digits (sp_diagnostic s) (df_precision f - 1) Hd Hl) as [Hlp Hdp].
  destruct (continuation_roundtrip n (leftPad (sp_diagnostic s) (df_precision f - 1)) 0) as (c & Hc & Hcr & Hg);
    [lia|unfold zlen in Hlp; lia|done|].
  assert (1024 ^ Z.of_nat n = 2 ^ k) as Hpow by (rewrite Hk; change 1024 with (2 ^ 10); by rewrite <- Z.pow_mul_r by lia).
  exists c. unfold encodeCoefficientContinuation. rewrite Hc. replace (0 * 1024 ^ Z.of_nat n + c) with c by lia. split; [done|].
  assert ((if signaling then Z.shiftl 1 (k + w - 1) else 0) = Z.shiftl (if signaling then 2 ^ (w - 1) else 0) k) as ->.
  { destruct signaling; [|by rewrite Z.shiftl_0_l]. rewrite Z.shiftl_1_l, Z.shiftl_mul_pow2 by lia.
    rewrite <- Z.pow_add_r by lia. f_equal. lia. }
  assert (0 <= (if signaling then 2 ^ (w - 1) else 0) < 2 ^ w) as He.
  { assert (2 ^ w = 2 * 2 ^ (w - 1)) as -> by (rewrite <- Z.pow_succ_r by lia; f_equal; lia).
    assert (0 < 2 ^ (w - 1)) by (apply Z.pow_pos_nonneg; lia). destruct signaling; lia. }
  assert (field_ranges f 31 (if signaling then 2 ^ (w - 1) else 0) c) as Hr by (split; [lia|done|fold k; lia]).
  rewrite (word_of_fields f n Hf) by done.
  fold (write f (word f neg 31 (if signaling then 2 ^ (w - 1) else 0) c)). rewrite (decode_word f n Hf) by done.
  unfold text_of. cbn [Z.eqb Pos.eqb]. fold w. rewrite Hg, trim_leftPad, Ht. do 3 f_equal.
  destruct signaling; [by rewrite Z.pow2_bits_true by lia|by rewrite Z.bits_0].
Qed.

Lemma encode_special f n s :
  format_ok f n -> special_ok f s -> exists b, encodeSpecial s f = Ok b /\ decodeDecimalFloat b f = Ok (special_text s).
Proof.
  intros Hf Hs. unfold encodeSpecial, special_text. destruct (sp_kind s).
  - eexists. split; [reflexivity|].
    assert (field_ranges f 30 0 0) as Hr
      by (pose proof (ok_exponent f n Hf); pose proof (ok_coefficient f n Hf); split; [lia|split; [lia|apply Z.pow_pos_nonneg; lia]..]).
    pose proof (word_of_fields f n Hf (sp_negative s) 30 0 0 Hr) as Hw. rewrite Z.shiftl_0_l, !Z.lor_0_r in Hw. rewrite Hw.
    fold (write f (word f (sp_negative s) 30 0 0)). by rewrite (decode_word f n Hf).
  - destruct (encode_nan f n s (sp_negative s) false Hf Hs) as (c & -> & Hd). rewrite ok_bind. eexists. split; [reflexivity|]. exact Hd.
  - destruct (encode_nan f n s (sp_negative s) true Hf Hs) as (c & -> & Hd). rewrite ok_bind. eexists. split; [reflexivity|]. exact Hd.
Qed.

Lemma trim_digits_ok s : all_digits s -> all_digits (trim_left_zeros s) /\ trim_left_zeros (trim_left_zeros s) = trim_left_zeros s.
Proof.
  induction 1 as [|b s Hb Hs IH]; [by split; [constructor|]|]. cbn [trim_left_zeros]. case_bool_decide; [done|].
  split; [by constructor|]. cbn [trim_left_zeros]. by rewrite bool_decide_false.
Qed.

Lemma parse_special_ok f text s : parseSpecial text f = Ok (Some s) -> 1 <= df_precision f -> special_ok f s.
Proof.
  unfold parseSpecial. intros H Hp. destruct (infinityPattern text) as [sign|].
  { apply Ok_inj, Some_inj in H. subst s. split; cbn [sp_diagnostic]; [by apply Forall_nil|done|change (zlen (@nil byte)) with 0; lia]. }
  unfold nanPattern in H. destruct (take_sign text) as [sign s0]. destruct (take_s s0) as [sg s1].
  destruct (fold_prefix _ s1) as [ds|]; [|done]. destruct (forallb is_digit ds) eqn:Ed; [|done].
  destruct (_ <? _) eqn:El; [done|]. apply Ok_inj, Some_inj in H. subst s. apply forallb_digits in Ed.
  destruct (trim_digits_ok ds Ed) as [H1 H2]. split; cbn [sp_diagnostic]; [done|done|lia].
Qed.

Lemma parse_special_total f text : total (parseSpecial text f).
Proof.
  unfold parseSpecial. destruct (infinityPattern text); [done|]. destruct (nanPattern text) as [[[? ?] ?]|]; [|done]. by case_match.
Qed.

(** ** Trading zeros for the exponent *)

(** Digits that end with a digit other than zero. *)
Definition ends_nonzero (s0 : bytes) : Prop := exists s1 b, s0 = s1 ++ [b] /\ b <> x30.

Definition with_zeros (s0 : bytes) (t : Z) : bytes := s0 ++ replicate (Z.to_nat t) x30.

Lemma leading_zeros_app j r : leading_zeros (replicate j x30 ++ r) = Z.of_nat j + leading_zeros r.
Proof. induction j as [|j IH]; [done|]. cbn [replicate app leading_zeros]. rewrite bool_decide_true by done. lia. Qed.

Lemma rev_zeros j : rev (replicate j x30) = replicate j x30.
Proof. induction j as [|j IH]; [done|]. cbn [replicate rev]. rewrite IH. by rewrite <- replicate_cons_app. Qed.

Lemma trailing_with_zeros s0 t : ends_nonzero s0 -> 0 <= t -> trailingZeroCount (with_zeros s0 t) = t.
Proof.
  intros (s1 & b & -> & Hb) Ht. unfold trailingZeroCount, with_zeros. rewrite rev_app_distr, rev_zeros, rev_app_distr.
  cbn [rev app]. rewrite leading_zeros_app. cbn [leading_zeros]. rewrite bool_decide_false by done. lia.
Qed.

Lemma zlen_with_zeros s0 t : 0 <= t -> zlen (with_zeros s0 t) = zlen s0 + t.
Proof. intros Ht. unfold with_zeros. rewrite zlen_app. unfold zlen at 2. rewrite length_replicate. lia. Qed.

Lemma cut_with_zeros s0 t j :
  0 <= j <= t -> go_slice (E := error) (with_zeros s0 t) 0 (zlen (with_zeros s0 t) - j) = Ok (with_zeros s0 (t - j)).
Proof.
  intros Hj. rewrite zlen_with_zeros by lia. unfold with_zeros.
  replace (Z.to_nat t) with (Z.to_nat (t - j) + Z.to_nat j)%nat by lia. rewrite replicate_add, app_assoc.
  apply (go_slice_mid [] _ _); [done|]. rewrite !zlen_app. unfold zlen. rewrite !length_replicate. cbn [length]. lia.
Qed.

Lemma with_zeros_not_zero s0 t : ends_nonzero s0 -> bool_decide (with_zeros s0 t = [x30]) = false.
Proof.
  intros (s1 & b & -> & Hb). apply bool_decide_eq_false. unfold with_zeros. intros H.
  assert (b ∈ [x30]) as Hin by (rewrite <- H; set_solver). apply list_elem_of_singleton in Hin. done.
Qed.

Lemma append_zeros s0 t j : 0 <= t -> 0 <= j -> with_zeros s0 t ++ replicate (Z.to_nat j) x30 = with_zeros s0 (t + j).
Proof. intros Ht Hj. unfold with_zeros. rewrite <- app_assoc, <- replicate_add. do 2 f_equal. lia. Qed.

(** The two adjustments find a coefficient and an exponent in range whenever there is one. *)
Lemma fit_both f s0 t E :
  ends_nonzero s0 -> 0 <= t -> 1 <= df_precision f < 40 -> minExp f <= maxExp f ->
  let fit := '(c, e) ← fit_precision f (with_zeros s0 t) E; fit_exponent f c e in
  (exists t', fit = Ok (with_zeros s0 t', E + t - t') /\ 0 <= t' /\ zlen s0 + t' <= df_precision f /\ minExp f <= E + t - t' <= maxExp f) \/
  (fit = Err errDecimalFloat /\
   forall t', 0 <= t' -> zlen s0 + t' <= df_precision f -> minExp f <= E + t - t' <= maxExp f -> False).
Proof.
  intros Hs Ht Hp Hmm fit. pose proof (zlen_nonneg s0) as Hz.
  assert (forall t1 E1, 0 <= t1 -> zlen s0 + t1 <= df_precision f -> E1 + t1 = E + t ->
    (exists t', fit_exponent f (with_zeros s0 t1) E1 = Ok (with_zeros s0 t', E + t - t') /\ 0 <= t' /\
       zlen s0 + t' <= df_precision f /\ minExp f <= E + t - t' <= maxExp f) \/
    (fit_exponent f (with_zeros s0 t1) E1 = Err errDecimalFloat /\
     forall t', 0 <= t' -> zlen s0 + t' <= df_precision f -> minExp f <= E + t - t' <= maxExp f -> False)) as Hexp.
  { intros t1 E1 Ht1 Hl1 Heq. unfold fit_exponent. rewrite with_zeros_not_zero by done. rewrite zlen_with_zeros by done.
    rewrite trailing_with_zeros by done. destruct (maxExp f <? E1) eqn:Emax; [|destruct (E1 <? minExp f) eqn:Emin].
    - destruct (df_precision f - (zlen s0 + t1) <? E1 - maxExp f) eqn:El; [right; split; [done|]; intros; lia|]. left. exists (t1 + (E1 - maxExp f)).
      unfold repeat_zero. assert (maxAlloc = 2 ^ 48) as -> by done.
      rewrite (proj2 (Z.ltb_ge _ 0)), (proj2 (Z.ltb_ge (2 ^ 48) _)) by lia. cbn [orb]. rewrite ok_bind, append_zeros by lia.
      split; [do 2 f_equal; lia|]. lia.
    - destruct (t1 <? minExp f - E1) eqn:El; [right; split; [done|]; intros; lia|]. left. exists (t1 - (minExp f - E1)).
      pose proof (cut_with_zeros s0 t1 (minExp f - E1) ltac:(lia)) as Hcut. rewrite zlen_with_zeros in Hcut by done.
      rewrite Hcut, ok_bind. split; [do 2 f_equal; lia|]. lia.
    - left. exists t1. split; [do 2 f_equal; lia|]. lia. }
  subst fit. unfold fit_precision. rewrite with_zeros_not_zero, zlen_with_zeros, trailing_with_zeros by done. cbn [negb andb].
  destruct (df_precision f <? zlen s0 + t) eqn:El; [|rewrite ok_bind; apply Hexp; lia].
  destruct (t <? zlen s0 + t - df_precision f) eqn:Et; [right; split; [done|]; intros; lia|].
  pose proof (cut_with_zeros s0 t (zlen s0 + t - df_precision f) ltac:(lia)) as Hcut. rewrite zlen_with_zeros in Hcut by done.
  rewrite Hcut, ok_bind. apply Hexp; lia.
Qed.

(** ** The value of a decimal *)

(** [c1 * 10 ^ e1] and [c2 * 10 ^ e2] are the same number. *)
Definition same_value (c1 e1 c2 e2 : Z) : Prop :=
  exists m, m <= e1 /\ m <= e2 /\ c1 * 10 ^ (e1 - m) = c2 * 10 ^ (e2 - m).

Lemma pow10_split a b : 0 <= a -> 0 <= b -> 10 ^ (a + b) = 10 ^ a * 10 ^ b.
Proof. intros. by apply Z.pow_add_r. Qed.

Lemma value_with_zeros s0 t : 0 <= t -> dec_value (with_zeros s0 t) = dec_value s0 * 10 ^ t.
Proof.
  intros Ht. unfold with_zeros. rewrite dec_value_app, dec_value_zeros. unfold zlen. rewrite length_replicate, Z2Nat.id by lia. lia.
Qed.

(** Digits with a nonzero value are some digits that end with a nonzero one, and zeros. *)
Lemma digits_tail s : dec_value s <> 0 -> exists s0 t, ends_nonzero s0 /\ 0 <= t /\ s = with_zeros s0 t.
Proof.
  induction s as [|b s IH] using rev_ind; intros Hv; [by cbn in Hv|]. destruct (decide (b = x30)) as [->|Hb].
  - rewrite dec_value_app in Hv. change (dec_value [x30]) with 0 in Hv. change (10 ^ zlen [x30]) with 10 in Hv.
    destruct IH as (s0 & t & H0 & Ht & ->); [lia|]. exists s0, (t + 1). split; [done|]. split; [lia|].
    rewrite <- append_zeros by lia. done.
  - exists (s ++ [b]), 0. split; [by exists s, b|]. split; [lia|]. unfold with_zeros. by rewrite app_nil_r.
Qed.

Lemma ends_nonzero_mod s0 : ends_nonzero s0 -> all_digits s0 -> dec_value s0 mod 10 <> 0.
Proof.
  intros (s1 & b & -> & Hb) Hd. apply all_digits_app in Hd as [_ Hd]. apply Forall_cons in Hd as [Hd _].
  rewrite dec_value_app. change (10 ^ zlen [b]) with 10. change (dec_value [b]) with (0 * 10 + digit_value b).
  pose proof (digit_range b Hd). assert (digit_value b <> 0) by (intros E; apply Hb, digit_inj; by rewrite E).
  rewrite Z.add_comm, Z.mod_add, Z.mod_small by lia. lia.
Qed.

(** The mantissa of a match. *)
Definition mantissa (m : submatch) : bytes := m2 m ++ match m2 m with [] => m4 m | _ => m3 m end.

Record pattern_digits (m : submatch) : Prop := {
  pd_mantissa : all_digits (mantissa m);
  pd_nonempty : mantissa m <> [];
}.

(** Zero, or digits in front and zeros behind, with the value of the mantissa. *)
Lemma significant_cases m :
  pattern_digits m ->
  dec_value (mantissa m) = 0 /\ significant_digits m = [x30] \/
  exists s0 t, significant_digits m = with_zeros s0 t /\ ends_nonzero s0 /\ 0 <= t /\ all_digits s0 /\
    10 ^ (zlen s0 - 1) <= dec_value s0 /\ dec_value (mantissa m) = dec_value s0 * 10 ^ t.
Proof.
  intros [Hd Hn]. change (significant_digits m) with (match trim_left_zeros (mantissa m) with [] => [x30] | s => s end).
  destruct (trim_left_zeros_spec (mantissa m)) as (z & Hz & Hh). destruct (trim_digits_ok _ Hd) as [Hdt _].
  assert (dec_value (mantissa m) = dec_value (trim_left_zeros (mantissa m))) as Hv
    by (rewrite Hz at 1; rewrite dec_value_app, dec_value_zeros; lia).
  rewrite Hv. destruct (trim_left_zeros (mantissa m)) as [|b s] eqn:Et; [by left|]. right.
  pose proof (leading_digit_bound b s Hdt Hh) as Hlead. assert (0 < 10 ^ zlen s) by (apply Z.pow_pos_nonneg; [lia|apply zlen_nonneg]).
  destruct (digits_tail (b :: s)) as (s0 & t & Hs0 & Ht & Heq); [lia|]. exists s0, t. split; [done|]. split; [done|]. split; [done|].
  assert (all_digits s0) as Hd0 by (rewrite Heq in Hdt; unfold with_zeros in Hdt; by apply all_digits_app in Hdt as [? _]).
  split; [done|]. split; [|rewrite Heq; by apply value_with_zeros].
  destruct s0 as [|c s0]; [destruct Hs0 as (s1 & x & He & _); by destruct s1|].
  unfold with_zeros in Heq. cbn [app] in Heq. injection Heq as -> _.
  replace (zlen (c :: s0) - 1) with (zlen s0) by (unfold zlen; cbn [length]; lia). by apply leading_digit_bound.
Qed.

Lemma coprime_shift v0 c a b :
  v0 mod 10 <> 0 -> 0 <= a -> 0 <= b -> c * 10 ^ a = v0 * 10 ^ b -> a <= b /\ c = v0 * 10 ^ (b - a).
Proof.
  intros Hv Ha Hb He. assert (0 < 10 ^ a) by (apply Z.pow_pos_nonneg; lia). assert (0 < 10 ^ b) by (apply Z.pow_pos_nonneg; lia).
  destruct (Z.le_gt_cases a b) as [Hle|Hgt].
  - split; [done|]. replace b with (b - a + a) in He by lia. rewrite pow10_split in He by lia. nia.
  - exfalso. replace a with (1 + (a - b - 1) + b) in He by lia. rewrite !pow10_split in He by lia.
    change (10 ^ 1) with 10 in He. apply Hv. assert (v0 = c * 10 ^ (a - b - 1) * 10) as -> by nia. apply Z.mod_mul. lia.
Qed.

Section Exact.
Context (f : decimalFloatFormat) (n : nat) (Hf : format_ok f n).

Lemma exponent_range : 1 <= df_precision f < 40 /\ minExp f <= maxExp f.
Proof.
  pose proof (ok_precision f n Hf). pose proof (ok_digits f n Hf). pose proof (ok_bias f n Hf). unfold minExp, maxExp.
  rewrite Z.shiftl_1_l. lia.
Qed.

(** A text that matches is accepted exactly when its value is representable. *)
Lemma parse_exact text m :
  finitePattern text = Some m -> pattern_digits m ->
  (exists d, parseFinite text f = Ok d /\ finite_ok f d /\ fd_negative d = is_minus (m1 m) /\
     same_value (dec_value (fd_coefficient d)) (fd_exponent d) (dec_value (mantissa m)) (text_exponent m)) \/
  (parseFinite text f = Err errDecimalFloat /\
   forall c e, 0 <= c < 10 ^ df_precision f -> minExp f <= e <= maxExp f ->
     ~ same_value c e (dec_value (mantissa m)) (text_exponent m)).
Proof.
  intros Hm Hpd. destruct exponent_range as [Hp Hmm]. unfold parseFinite. rewrite Hm. set (E := text_exponent m).
  destruct (significant_cases m Hpd) as [[Hz ->]|(s0 & t & -> & Hs0 & Ht & Hd0 & Hlead & Hval)].
  - left. unfold fit_precision. rewrite bool_decide_true by done. cbn [negb andb]. rewrite ok_bind. unfold fit_exponent.
    rewrite bool_decide_true by done. rewrite ok_bind. eexists. split; [reflexivity|]. split; [|split; [done|]].
    + split; cbn [fd_coefficient fd_exponent]; [by constructor|by change (zlen [x30]) with 1; lia|].
      destruct (E <? minExp f) eqn:E1; destruct (maxExp f <? _) eqn:E2; lia.
    + cbn [fd_coefficient]. rewrite Hz. change (dec_value [x30]) with 0. exists (Z.min E (minExp f)).
      split; [|split; [lia|lia]]. cbn [fd_exponent]. destruct (E <? minExp f) eqn:E1; destruct (maxExp f <? _) eqn:E2; lia.
  - destruct (fit_both f s0 t E Hs0 Ht Hp Hmm) as [(t' & Hfit & Ht' & Hl & He)|[Hfit Hno]].
    + left. destruct (fit_precision f (with_zeros s0 t) E) as [[c1 e1]| |]; [|done..].
      change (fit_exponent f c1 e1 = Ok (with_zeros s0 t', E + t - t')) in Hfit. rewrite ok_bind, Hfit, ok_bind.
      eexists. split; [reflexivity|]. split; [|split; [done|]].
      * split; cbn [fd_coefficient fd_exponent]; [|rewrite zlen_with_zeros by done; split; [|lia]|done].
        { unfold with_zeros. apply all_digits_app. split; [done|by apply Forall_replicate]. }
        { destruct Hs0 as (s1 & b & -> & _). rewrite zlen_app. change (zlen [b]) with 1. pose proof (zlen_nonneg s1). lia. }
      * cbn [fd_coefficient fd_exponent]. rewrite value_with_zeros, Hval by done. exists (Z.min E (E + t - t')).
        split; [lia|]. split; [lia|]. rewrite <- !Z.mul_assoc, <- !pow10_split by lia. do 2 f_equal. lia.
    + right. assert (0 <= zlen s0 - 1) as Hlen.
      { destruct Hs0 as (s1 & b & -> & _). rewrite zlen_app. change (zlen [b]) with 1. pose proof (zlen_nonneg s1). lia. }
      split.
      * destruct (fit_precision f (with_zeros s0 t) E) as [[c1 e1]|x|]; [|by injection Hfit as ->|done].
        change (fit_exponent f c1 e1 = Err errDecimalFloat) in Hfit. by rewrite ok_bind, Hfit.
      * intros c e Hc He (mm & H1 & H2 & Heq). fold E in H2, Heq. rewrite Hval, <- Z.mul_assoc, <- pow10_split in Heq by lia.
        destruct (coprime_shift (dec_value s0) c (e - mm) (t + (E - mm)) (ends_nonzero_mod s0 Hs0 Hd0) ltac:(lia) ltac:(lia) Heq) as [Hle Hce].
        set (t' := t + (E - mm) - (e - mm)) in *. apply (Hno t'); [lia| |lia].
        assert (zlen s0 - 1 + t' < df_precision f); [|lia]. apply (Z.pow_lt_mono_r_iff 10); [lia|lia|].
        rewrite pow10_split by lia. assert (0 < 10 ^ t') by (apply Z.pow_pos_nonneg; lia). nia.
Qed.
End Exact.

(** ** Texts and patterns *)
Definition sign_text (neg : bool) : bytes := if neg then lit "-" else [].

Lemma sign_text_minus neg : is_minus (sign_text neg) = neg.
Proof. by destruct neg. Qed.

Lemma take_sign_text neg b s : is_sign b = false -> take_sign (sign_text neg ++ b :: s) = (sign_text neg, b :: s).
Proof. intros Hb. destruct neg; [done|]. cbn. by rewrite Hb. Qed.

Lemma digit_not_sign b : is_digit b = true -> is_sign b = false.
Proof. intros H. unfold is_sign. destruct b; try reflexivity; vm_compute in H; discriminate. Qed.

Definition exponent_part (es : bytes) : Prop := match es with [] => True | b :: _ => b = "E"%byte end.

(** A sign, digits, a fraction and an exponent match as such. *)
Lemma pattern_integer neg int es e :
  all_digits int -> int <> [] -> exponent_part es -> match_exponent es = Some e ->
  decimalPattern (sign_text neg ++ int ++ es) = Some (mkSubmatch (sign_text neg) int [] [] e).
Proof.
  intros Hd Hn He Hm. destruct int as [|b int]; [done|]. unfold decimalPattern.
  pose proof Hd as Hd'. apply Forall_cons in Hd' as [Hb _]. cbn [app]. rewrite take_sign_text by (by apply digit_not_sign).
  change (b :: int ++ es) with ((b :: int) ++ es). unfold match_mantissa. rewrite span_app; [|done|destruct es; [done|by rewrite He]].
  destruct es as [|x es]; [by rewrite Hm|]. cbn in He. subst x. by rewrite Hm.
Qed.

Lemma pattern_fraction neg int frac es e :
  all_digits int -> int <> [] -> all_digits frac -> exponent_part es -> match_exponent es = Some e ->
  decimalPattern (sign_text neg ++ int ++ x2e :: frac ++ es) = Some (mkSubmatch (sign_text neg) int frac [] e).
Proof.
  intros Hd Hn Hf He Hm. destruct int as [|b int]; [done|]. unfold decimalPattern.
  pose proof Hd as Hd'. apply Forall_cons in Hd' as [Hb _]. cbn [app]. rewrite take_sign_text by (by apply digit_not_sign).
  change (b :: int ++ x2e :: frac ++ es) with ((b :: int) ++ x2e :: frac ++ es). unfold match_mantissa.
  rewrite span_app; [|done|done]. rewrite (span_app is_digit frac es); [|done|destruct es; [done|by rewrite He]]. by rewrite Hm.
Qed.

Lemma pattern_digits_ok text m : finitePattern text = Some m -> pattern_digits m.
Proof.
  unfold finitePattern, decimalPattern. destruct (take_sign text) as [sign s]. destruct (match_mantissa s) as [[[[a b] c] s1]|] eqn:Em; [|done].
  destruct (match_exponent s1) as [e|]; [|done]. intros [= <-]. pose proof (mantissa_inv _ _ _ _ _ Em) as (Ha & Hb & Hc & _).
  split; unfold mantissa; cbn [m2 m3 m4]; [apply all_digits_app; split; [done|by destruct a]|].
  destruct a as [|x a]; [|done]. cbn [app]. intros ->. unfold match_mantissa in Em. destruct (span is_digit s) as [[|i int] s2]; [|by repeat case_match].
  destruct s2 as [|p s2]; [done|]. destruct p; try done. destruct (span is_digit s2) as [[|x fr] s3]; [done|]. by injection Em.
Qed.

(** The exponent of a formatted value, as text. *)
Definition exponent_text (adjusted : Z) : bytes :=
  lit "E" ++ (if 0 <=? adjusted then lit "+" ++ lit (pretty adjusted) else lit (pretty adjusted)).

Lemma exponent_text_read a :
  -6300 <= a <= 6300 -> exists e, match_exponent (exponent_text a) = Some e /\ big_value e = a /\ e <> [] /\ zlen (exponent_text a) <= 6.
Proof.
  intros Ha. destruct (itoa_digits (Z.abs a)) as (Hd & Hv & Hn & Hl); [lia|]. set (ds := lit (pretty (Z.abs a))) in *.
  assert (exists s : byte, is_sign s = true /\ exponent_text a = "E"%byte :: s :: ds /\ (if is_minus [s] then - dec_value ds else dec_value ds) = a)
    as (s & Hs & Ht & Hval).
  { unfold exponent_text. destruct (0 <=? a) eqn:E.
    - exists "+"%byte. split; [done|]. rewrite Hv. split; [|change (is_minus ["+"%byte]) with false; cbv iota; lia]. subst ds. by replace (Z.abs a) with a by lia.
    - exists "-"%byte. split; [done|]. rewrite Hv. split; [|change (is_minus ["-"%byte]) with true; cbv iota; lia]. rewrite itoa_negative by lia. subst ds. by replace (- a) with (Z.abs a) by lia. }
  exists (s :: ds). rewrite Ht. split; [|split; [|split; [done|]]].
  - cbn [match_exponent]. change (is_exp "E") with true. cbv iota. unfold take_sign. rewrite Hs.
    rewrite <- (app_nil_r ds) at 1. rewrite span_app by done. destruct ds; [done|]. done.
  - unfold big_value, take_sign. rewrite Hs. exact Hval.
  - assert (zlen ds <= 4).
    { destruct Hl as [Hz|Hl]; [subst ds; rewrite Hz; vm_compute; discriminate|].
      assert (zlen ds - 1 < 4); [|lia]. apply (Z.pow_lt_mono_r_iff 10); [lia|lia|]. change (10 ^ 4) with 10000. lia. }
    unfold zlen in *. cbn [length]. lia.
Qed.

(** ** The text of a finite value denotes it *)
Lemma digits_or_zero_ok c :
  all_digits c -> c <> [] ->
  let d := digits_or_zero c in
  all_digits d /\ 1 <= zlen d <= zlen c /\ dec_value d = dec_value c /\ (d = [x30] \/ exists b s, d = b :: s /\ b <> x30).
Proof.
  intros Hd Hn d. subst d. unfold digits_or_zero. destruct (trim_left_zeros_spec c) as (z & Hz & Hh).
  destruct (trim_digits_ok c Hd) as [Hdt _].
  assert (dec_value c = dec_value (trim_left_zeros c)) as Hv by (rewrite Hz at 1; rewrite dec_value_app, dec_value_zeros; lia).
  assert (zlen c = Z.of_nat z + zlen (trim_left_zeros c)) as Hl.
  { rewrite Hz at 1. rewrite zlen_app. unfold zlen at 1. by rewrite length_replicate. }
  destruct (trim_left_zeros c) as [|b s] eqn:Et.
  - split; [by constructor|]. split; [|split; [by rewrite Hv|by left]]. change (zlen [x30]) with 1.
    destruct c; [done|]. unfold zlen. cbn [length]. lia.
  - split; [done|]. split; [unfold zlen in *; cbn [length] in *; lia|]. split; [done|]. right. by exists b, s.
Qed.

(** [significant_digits] undoes leading zeros. *)
Lemma significant_of_digits m d j :
  mantissa m = replicate j x30 ++ d -> (d = [x30] \/ exists b s, d = b :: s /\ b <> x30) -> significant_digits m = d.
Proof.
  intros Hm Hd. change (significant_digits m) with (match trim_left_zeros (mantissa m) with [] => [x30] | s => s end).
  rewrite Hm, trim_zeros_app. destruct Hd as [->|(b & s & -> & Hb)]; [done|]. cbn [trim_left_zeros]. by rewrite bool_decide_false.
Qed.

Record denotes_text (t : bytes) (neg : bool) (d : bytes) (e : Z) : Prop := {
  dt_match : exists m, finitePattern t = Some m /\ is_minus (m1 m) = neg /\ significant_digits m = d /\
    dec_value (mantissa m) = dec_value d /\ text_exponent m = e;
  dt_length : zlen t <= 4096;
}.

Lemma denotes_intro neg body m d e j :
  finitePattern (sign_text neg ++ body) = Some m -> m1 m = sign_text neg -> mantissa m = replicate j x30 ++ d ->
  (d = [x30] \/ exists b s, d = b :: s /\ b <> x30) -> text_exponent m = e -> zlen body <= 4000 ->
  exists t, (Ok (if neg then lit "-" ++ body else body) : res bytes) = Ok t /\ denotes_text t neg d e.
Proof.
  intros Hm H1 Hman Hd He Hl. exists (sign_text neg ++ body). split; [by destruct neg|]. split.
  - exists m. split; [done|]. split; [rewrite H1; apply sign_text_minus|]. split; [by eapply significant_of_digits|].
    split; [|done]. rewrite Hman, dec_value_app, dec_value_zeros. lia.
  - rewrite zlen_app. assert (zlen (sign_text neg) <= 1) by (destruct neg; vm_compute; discriminate). lia.
Qed.

(** Scientific notation. *)
Lemma scientific_denotes neg d e :
  all_digits d -> d <> [] -> zlen d <= 34 -> -6200 <= e <= 6200 -> (d = [x30] \/ exists b s, d = b :: s /\ b <> x30) ->
  let a := e + zlen d - 1 in
  exists t,
    (body ← (significand ← (if zlen d =? 1 then Ok d else x ← go_slice d 0 1; y ← go_from d 1; Ok (x ++ lit "." ++ y));
             Ok (significand ++ exponent_text a));
     Ok (if (neg : bool) then lit "-" ++ body else body) : res bytes) = Ok t /\ denotes_text t neg d e.
Proof.
  intros Hd Hdn Hld He Hshape a. pose proof (zlen_nonneg d) as Hz.
  destruct (exponent_text_read a) as (x & Hx & Hxv & Hxn & Hxl); [lia|].
  destruct d as [|b d]; [done|]. destruct (zlen (b :: d) =? 1) eqn:E1.
  + rewrite !ok_bind. eapply (denotes_intro _ _ _ _ _ 0%nat); [by apply (pattern_integer _ _ _ x)|done|..].
    * cbn. by rewrite app_nil_r.
    * done.
    * unfold text_exponent. cbn [m2 m3 m5]. destruct x; [done|]. rewrite Hxv. change (zlen (@nil byte)) with 0. lia.
    * rewrite zlen_app. lia.
  + rewrite (go_slice_mid [] [b] d) by done. rewrite ok_bind, (go_from_app [b] d) by done. rewrite !ok_bind.
    eapply (denotes_intro _ _ _ _ _ 0%nat); [change ((([b] ++ lit "." ++ d)) ++ exponent_text a) with ([b] ++ x2e :: (d ++ exponent_text a));
      apply (pattern_fraction _ [b] _ _ x)|done|..]; try done.
    * apply Forall_cons in Hd as [Hb _]. by constructor.
    * by apply Forall_cons in Hd as [_ Hd].
    * unfold text_exponent. cbn [m2 m3 m5]. destruct x; [done|]. rewrite Hxv. subst a. unfold zlen. cbn [length]. lia.
    * rewrite !zlen_app. change (zlen [b]) with 1. change (zlen (lit ".")) with 1. unfold zlen in *. cbn [length] in *. lia.
Qed.

Lemma format_denotes neg c e :
  all_digits c -> 1 <= zlen c <= 34 -> -6200 <= e <= 6200 ->
  exists t, formatFinite neg c e = Ok t /\ denotes_text t neg (digits_or_zero c) e.
Proof.
  intros Hc Hl He. assert (c <> []) as Hn by (intros ->; change (zlen (@nil byte)) with 0 in Hl; lia).
  destruct (digits_or_zero_ok c Hc Hn) as (Hd & Hld & _ & Hshape). unfold formatFinite. set (d := digits_or_zero c) in *. clearbody d.
  assert (d <> []) as Hdn by (destruct Hshape as [->|(b & s & -> & _)]; done).
  destruct ((e <=? 0) && (-6 <=? e + zlen d - 1)) eqn:Eplain.
  - destruct (e =? 0) eqn:E0; [|destruct (0 <? zlen d + e) eqn:Ep].
    + rewrite ok_bind. eapply (denotes_intro _ _ _ _ _ 0%nat); [rewrite <- (app_nil_r d) at 1; by apply (pattern_integer _ _ [] [])|done|..].
      * cbn. by destruct d; cbn; rewrite ?app_nil_r.
      * done.
      * unfold text_exponent. cbn [m2 m3 m5]. destruct d; [done|]. change (zlen (@nil byte)) with 0. lia.
      * lia.
    + destruct (cut_prefix (Z.to_nat (zlen d + e)) d) as (a & b & -> & Ha); [unfold zlen in *; lia|]. rewrite zlen_app in *.
      assert (zlen a = zlen a + zlen b + e) as Hpt by (unfold zlen in *; lia).
      apply all_digits_app in Hd as [Hda Hdb]. assert (a <> []) as Han by (intros ->; change (zlen (@nil byte)) with 0 in *; lia).
      rewrite (go_slice_mid [] a b) by (change (zlen (@nil byte)) with 0; lia). rewrite ok_bind, go_from_app, !ok_bind by lia.
      eapply (denotes_intro _ _ _ _ _ 0%nat); [change (a ++ lit "." ++ b) with (a ++ x2e :: b); rewrite <- (app_nil_r b) at 1;
        by apply (pattern_fraction _ _ _ [] [])|done|..].
      * unfold mantissa. cbn [m2 m3 m4 replicate app]. by destruct a.
      * done.
      * unfold text_exponent. cbn [m2 m3 m5]. destruct a; [done|]. lia.
      * rewrite !zlen_app. change (zlen (lit ".")) with 1. lia.
    + unfold repeat_zero. assert (maxAlloc = 2 ^ 48) as -> by done.
      rewrite (proj2 (Z.ltb_ge _ 0)), (proj2 (Z.ltb_ge (2 ^ 48) _)) by lia. cbn [orb]. rewrite !ok_bind.
      set (z := Z.to_nat (- (zlen d + e))). assert (Z.of_nat z = - (zlen d + e)) as Hz by lia. clearbody z.
      eapply (denotes_intro _ _ _ _ _ (S z)); [change (lit "0." ++ replicate z x30 ++ d) with ([x30] ++ x2e :: (replicate z x30 ++ d));
        rewrite <- (app_nil_r (replicate z x30 ++ d)) at 1; apply (pattern_fraction _ [x30] _ [] [])|done|..]; try done.
      * by constructor.
      * apply all_digits_app. split; [by apply Forall_replicate|done].
      * unfold text_exponent. cbn [m2 m3 m5]. rewrite zlen_app. unfold zlen at 1. rewrite length_replicate. lia.
      * rewrite !zlen_app. change (zlen (lit "0.")) with 2. unfold zlen at 1. rewrite length_replicate. lia.
  - apply (scientific_denotes neg d e); [done|done|lia|lia|done].
Qed.

(** ** The codec *)
Definition is_format (f : decimalFloatFormat) : Prop := f = decf16 \/ f = decf34.

Lemma format_facts f :
  is_format f -> exists n, format_ok f n /\ df_precision f <= 34 /\ -6200 <= minExp f /\ maxExp f <= 6200.
Proof. intros [->| ->]; [exists 5%nat|exists 11%nat]; (split; [by (apply decf16_ok || apply decf34_ok)|]); vm_compute; intuition discriminate. Qed.

Lemma finite_not_special text m f : finitePattern text = Some m -> parseSpecial text f = Ok None.
Proof.
  unfold finitePattern, decimalPattern, parseSpecial, infinityPattern, nanPattern. destruct (take_sign text) as [sign s].
  destruct (match_mantissa s) as [[[[a b] c] s1]|] eqn:Em; [|done]. intros _.
  assert (exists x rest, s = x :: rest /\ (is_digit x = true \/ x = x2e)) as (x & rest & -> & Hx).
  { unfold match_mantissa in Em. destruct (span is_digit s) as [[|i int] s2] eqn:E; apply span_inv in E as (-> & Hd & _).
    - destruct s2 as [|p s2]; [done|]. exists p, s2. split; [done|]. right. by destruct p.
    - exists i, (int ++ s2). split; [done|]. left. by apply Forall_cons in Hd as [? _]. }
  assert (fold_eq "i" x = false /\ fold_eq "n" x = false /\ fold_eq "s" x = false /\ x <> xc5) as (H1 & H2 & H3 & H4).
  { destruct Hx as [Hx| ->]; [|done]. destruct x; try (vm_compute in Hx; discriminate); done. }
  change (lit "inf") with ["i"; "n"; "f"]%byte. change (lit "infinity") with ["i"; "n"; "f"; "i"; "n"; "i"; "t"; "y"]%byte.
  change (lit "nan") with ["n"; "a"; "n"]%byte. cbn [fold_prefix take_s]. rewrite H1, H3. rewrite !bool_decide_false by done. cbn [orb].
  assert (match x :: rest with xc5 :: xbf :: r => ([xc5; xbf], r) | _ => ([], x :: rest) end = ([], x :: rest)) as -> by (by destruct x).
  cbn [fold_prefix]. by rewrite H2.
Qed.

(** A formatted value is read as the value it came from. *)
Lemma parse_denoted f t neg d e :
  denotes_text t neg d e -> zlen d <= df_precision f -> minExp f <= e <= maxExp f -> parseFinite t f = Ok (mkFinite neg d e).
Proof.
  intros [(m & Hm & Hs & Hd & _ & He) _] Hl Hr. unfold parseFinite. rewrite Hm, Hd, He. unfold fit_precision.
  rewrite (proj2 (Z.ltb_ge _ (zlen d))), andb_false_r, ok_bind by lia. unfold fit_exponent.
  rewrite !(proj2 (Z.ltb_ge e (minExp f))), !(proj2 (Z.ltb_ge (maxExp f) e)) by lia.
  case_bool_decide; rewrite ok_bind; by rewrite Hs.
Qed.

(** Encoding a finite value that was parsed, and reading it back. *)
Lemma finite_through f d :
  is_format f -> finite_ok f d ->
  exists b t, encodeFinite d f = Ok b /\ decodeDecimalFloat b f = Ok t /\
    denotes_text t (fd_negative d) (digits_or_zero (fd_coefficient d)) (fd_exponent d).
Proof.
  intros Hfm Hok. destruct (format_facts f Hfm) as (n & Hf & Hp & Hmin & Hmax).
  destruct (encode_finite f n d Hf Hok) as (b & Hb & Hdec). destruct Hok as [Hd Hl He].
  destruct (format_denotes (fd_negative d) (fd_coefficient d) (fd_exponent d) Hd ltac:(lia) ltac:(lia)) as (t & Ht & Hden).
  exists b, t. split; [done|]. by rewrite Hdec.
Qed.

Lemma encode_parsed f text m :
  finitePattern text = Some m -> zlen text <= maxDecimalFloatTextLength ->
  encodeDecimalFloat text f = (finite ← parseFinite text f; encodeFinite finite f).
Proof.
  intros Hm Hl. unfold encodeDecimalFloat. rewrite (proj2 (Z.ltb_ge _ (zlen text))) by lia. by rewrite (finite_not_special text m f Hm).
Qed.

Lemma decf_value f text m :
  is_format f -> finitePattern text = Some m -> zlen text <= maxDecimalFloatTextLength ->
  (exists b t m', encodeDecimalFloat text f = Ok b /\ decodeDecimalFloat b f = Ok t /\ finitePattern t = Some m' /\
     is_minus (m1 m') = is_minus (m1 m) /\
     same_value (dec_value (mantissa m')) (text_exponent m') (dec_value (mantissa m)) (text_exponent m)) \/
  (encodeDecimalFloat text f = Err errDecimalFloat /\
   forall c e, 0 <= c < 10 ^ df_precision f -> minExp f <= e <= maxExp f ->
     ~ same_value c e (dec_value (mantissa m)) (text_exponent m)).
Proof.
  intros Hfm Hm Hl. destruct (format_facts f Hfm) as (n & Hf & _). rewrite (encode_parsed f text m Hm Hl).
  destruct (parse_exact f n Hf text m Hm (pattern_digits_ok text m Hm)) as [(d & -> & Hok & Hneg & Hv)|[-> Hno]]; [|by right].
  left. rewrite ok_bind. destruct (finite_through f d Hfm Hok) as (b & t & Hb & Ht & [(m' & Hm' & Hs & _ & Hval & He) _]).
  exists b, t, m'. split; [done|]. split; [done|]. split; [done|]. split; [by rewrite Hs|]. rewrite Hval, He.
  destruct Hok as [Hd Hlen _]. destruct (digits_or_zero_ok (fd_coefficient d) Hd) as (_ & _ & -> & _); [|done].
  intros Hn. rewrite Hn in Hlen. change (zlen (@nil byte)) with 0 in Hlen. lia.
Qed.

(** C18: A decimal text within the input limit of the package (maxDecimalFloatTextLength) is
    encoded exactly when some coefficient and exponent of the format have its value, and
    then the text read back from the bytes has the same sign and value; otherwise it is
    refused. *)
Theorem decf_value_exact f text m :
  is_format f -> finitePattern text = Some m -> zlen text <= maxDecimalFloatTextLength ->
  (exists b t m', encodeDecimalFloat text f = Ok b /\ decodeDecimalFloat b f = Ok t /\ finitePattern t = Some m' /\
     is_minus (m1 m') = is_minus (m1 m) /\
     same_value (dec_value (mantissa m')) (text_exponent m') (dec_value (mantissa m)) (text_exponent m)) \/
  (encodeDecimalFloat text f = Err errDecimalFloat /\
   forall c e, 0 <= c < 10 ^ df_precision f -> minExp f <= e <= maxExp f ->
     ~ same_value c e (dec_value (mantissa m)) (text_exponent m)).
Proof. apply decf_value. Qed.

Lemma special_text_read f s :
  special_ok f s -> zlen (special_text s) <= maxDecimalFloatTextLength -> (sp_kind s = Infinity -> sp_diagnostic s = []) ->
  encodeDecimalFloat (special_text s) f = encodeSpecial s f.
Proof.
  intros [Hd Ht Hl] Hlen Hinf. unfold encodeDecimalFloat. rewrite (proj2 (Z.ltb_ge _ (zlen (special_text s)))) by lia.
  assert (parseSpecial (special_text s) f = Ok (Some s)) as ->; [|done].
  destruct s as [neg kind diag]; cbn [sp_negative sp_kind sp_diagnostic] in *. apply forallb_digits in Hd.
  destruct kind; [rewrite (Hinf eq_refl); by destruct neg|..].
  all: assert (nanPattern (special_text (mkSpecial neg NaN diag)) = (if forallb is_digit diag then Some (sign_text neg, [], diag) else None)
     /\ nanPattern (special_text (mkSpecial neg SNaN diag)) = (if forallb is_digit diag then Some (sign_text neg, ["s"%byte], diag) else None))
     as [H1 H2] by (by destruct neg).
  all: assert (infinityPattern (special_text (mkSpecial neg NaN diag)) = None /\ infinityPattern (special_text (mkSpecial neg SNaN diag)) = None)
     as [I1 I2] by (by destruct neg).
  all: unfold parseSpecial; rewrite ?H1, ?H2, ?I1, ?I2, Hd, Ht, sign_text_minus.
  all: by rewrite (proj2 (Z.ltb_ge _ (zlen diag))) by lia.
Qed.

(** The combination of a finite value. *)
Definition comb_pair (comb : Z) : Z * Z :=
  if comb <? 24 then (Z.shiftr comb 3, Z.land comb 7) else (Z.land (Z.shiftr comb 1) 3, 8 + Z.land comb 1).

Lemma comb_pair_range comb : 0 <= comb < 30 -> 0 <= fst (comb_pair comb) <= 2 /\ 0 <= snd (comb_pair comb) <= 9.
Proof.
  intros Hc.
  assert (forallb (fun c => (0 <=? fst (comb_pair c)) && (fst (comb_pair c) <=? 2) && (0 <=? snd (comb_pair c)) && (snd (comb_pair c) <=? 9))
            (seqZ 0 30) = true) as Hall by by vm_compute.
  pose proof (in_table _ _ Hall comb Hc) as H. cbn beta in H. lia.
Qed.

Lemma digits_or_zero_idem c : digits_or_zero (digits_or_zero c) = digits_or_zero c.
Proof.
  unfold digits_or_zero. destruct (trim_left_zeros_spec c) as (z & _ & Hh). destruct (trim_left_zeros c) as [|b s]; [done|].
  cbn [trim_left_zeros]. by rewrite bool_decide_false.
Qed.

(** The fields of a finite value decode to a text that encodes again. *)
Lemma finite_stable f n neg comb e c :
  is_format f -> format_ok f n -> field_ranges f comb e c -> comb < 30 ->
  exists t, text_of f n neg comb e c = Ok t /\ exists b, encodeDecimalFloat t f = Ok b /\ decodeDecimalFloat b f = Ok t.
Proof.
  intros Hfm Hf [Hc He Hcc] Hfin. destruct (format_facts f Hfm) as (n' & _ & Hp & Hmin & Hmax).
  pose proof (ok_exponent f n Hf) as Hw. pose proof (ok_precision f n Hf) as Hpr.
  unfold text_of. rewrite (proj2 (Z.eqb_neq comb 30)), (proj2 (Z.eqb_neq comb 31)) by lia. fold (comb_pair comb).
  destruct (comb_pair_range comb ltac:(lia)) as [Hmsb Hmsd]. destruct (comb_pair comb) as [msb msd]; cbn [fst snd] in *.
  destruct (comb_fields 0 msd ltac:(lia) Hmsd) as (_ & -> & _). rewrite lor_shiftl by lia.
  destruct (declet_groups_digits n c) as [Hgl Hgd]. destruct (digit_char_digit msd Hmsd) as [Hmd _].
  set (x := msb * 2 ^ df_exponentContinuationBits f + e - df_exponentBias f).
  assert (minExp f <= x <= maxExp f) as Hx by (subst x; unfold minExp, maxExp; rewrite Z.shiftl_1_l; nia).
  set (cf := [digit_char msd] ++ declet_groups n c).
  assert (all_digits cf /\ zlen cf = df_precision f) as [Hcd Hcl].
  { subst cf. split; [apply all_digits_app; split; [by constructor|done]|]. rewrite zlen_app. change (zlen [_]) with 1. unfold zlen. lia. }
  destruct (format_denotes neg cf x Hcd ltac:(lia) ltac:(lia)) as (t & Ht & Hden). exists t. split; [done|].
  assert (cf <> []) as Hn by done. destruct (digits_or_zero_ok cf Hcd Hn) as (Hdd & Hdl & _ & _).
  assert (finite_ok f (mkFinite neg (digits_or_zero cf) x)) as Hok by (split; cbn [fd_coefficient fd_exponent]; [done|lia|done]).
  destruct (encode_finite f n _ Hf Hok) as (b & Hb & Hdec). cbn [fd_negative fd_coefficient fd_exponent] in Hdec.
  exists b. split.
  - pose proof Hden as [(m & Hm & _) Hlen]. rewrite (encode_parsed f t m Hm Hlen). rewrite (parse_denoted f t _ _ _ Hden) by lia. done.
  - rewrite Hdec, <- Ht. unfold formatFinite. by rewrite digits_or_zero_idem.
Qed.

Lemma special_stable f n s :
  is_format f -> format_ok f n -> special_ok f s -> (sp_kind s = Infinity -> sp_diagnostic s = []) ->
  exists b, encodeDecimalFloat (special_text s) f = Ok b /\ decodeDecimalFloat b f = Ok (special_text s).
Proof.
  intros Hfm Hf Hs Hinf. destruct (format_facts f Hfm) as (_ & _ & Hp & _).
  rewrite special_text_read; [by apply (encode_special f n)|done| |done].
  destruct Hs as [_ _ Hl]. unfold special_text, maxDecimalFloatTextLength. rewrite zlen_app.
  assert (zlen (if sp_negative s then lit "-" else []) <= 1) by (destruct (sp_negative s); vm_compute; discriminate).
  destruct (sp_kind s); rewrite ?zlen_app; [change (zlen (lit "Infinity")) with 8|change (zlen (lit "NaN")) with 3|change (zlen (lit "sNaN")) with 4]; lia.
Qed.

Lemma decf_text f b :
  is_format f -> zlen b = df_byteLength f ->
  exists t, decodeDecimalFloat b f = Ok t /\ exists b', encodeDecimalFloat t f = Ok b' /\ decodeDecimalFloat b' f = Ok t.
Proof.
  intros Hfm Hl. destruct (format_facts f Hfm) as (n & Hf & _). destruct (fields_of f n Hf b Hl) as (neg & comb & e & c & Hr & ->).
  rewrite (decode_word f n Hf) by done. destruct (decide (comb < 30)) as [Hfin|Hsp]; [by apply finite_stable|].
  pose proof Hr as [Hc _ _]. unfold text_of. destruct (comb =? 30) eqn:E30.
  - exists (special_text (mkSpecial neg Infinity [])). split; [done|]. apply (special_stable f n); try done.
    pose proof (ok_precision f n Hf). split; cbn [sp_diagnostic]; [by apply Forall_nil|done|change (zlen (@nil byte)) with 0; lia].
  - rewrite (proj2 (Z.eqb_eq comb 31)) by lia. destruct (declet_groups_digits n c) as [Hgl Hgd].
    destruct (trim_digits_ok _ Hgd) as [Hd Ht]. set (sg := Z.testbit e (df_exponentContinuationBits f - 1)).
    set (s := mkSpecial neg (if sg then SNaN else NaN) (trim_left_zeros (declet_groups n c))). exists (special_text s).
    split; [by subst s; destruct sg|]. apply (special_stable f n); try done; [|by subst s; destruct sg].
    split; cbn [sp_diagnostic s]; [done|done|]. destruct (trim_left_zeros_spec (declet_groups n c)) as (z & Hz & _).
    pose proof (ok_precision f n Hf). apply (f_equal zlen) in Hz. rewrite zlen_app in Hz.
    pose proof (zlen_nonneg (replicate z x30)). unfold zlen in *. lia.
Qed.

(** The codec neither panics nor runs out of its bounds. *)
Lemma decf_total f v : is_format f -> total (encodeDecimalFloat v f) /\ total (decodeDecimalFloat v f).
Proof.
  intros Hfm. destruct (format_facts f Hfm) as (n & Hf & _). split.
  - unfold encodeDecimalFloat. destruct (_ <? _); [done|]. apply total_bind; [apply parse_special_total|]. intros [s|] Hs.
    + apply parse_special_ok in Hs; [|pose proof (ok_precision f n Hf); lia]. by destruct (encode_special f n s Hf Hs) as (b & -> & _).
    + destruct (finitePattern v) as [m|] eqn:Em; [|by unfold parseFinite; rewrite Em].
      destruct (parse_exact f n Hf v m Em (pattern_digits_ok v m Em)) as [(d & -> & Hok & _)|[-> _]]; [|done].
      rewrite ok_bind. by destruct (finite_through f d Hfm Hok) as (b & t & -> & _).
  - destruct (decide (zlen v = df_byteLength f)) as [Hl|Hl].
    + by destruct (decf_text f v Hfm Hl) as (t & -> & _).
    + unfold decodeDecimalFloat. by rewrite (proj2 (Z.eqb_neq _ _)) by done.
Qed.

(** What the encoder returns has the width of the format and decodes. *)
Lemma decf_encoded_length f s enc :
  is_format f -> encodeDecimalFloat s f = Ok enc -> zlen enc = df_byteLength f /\ exists t, decodeDecimalFloat enc f = Ok t.
Proof.
  intros Hfm He. enough (exists t, decodeDecimalFloat enc f = Ok t) as [t Ht].
  { split; [|by exists t]. unfold decodeDecimalFloat in Ht. by destruct (Z.eqb_spec (zlen enc) (df_byteLength f)). }
  destruct (format_facts f Hfm) as (n & Hf & _). unfold encodeDecimalFloat in He. destruct (_ <? _); [done|]. ok_step He as sp Hs. destruct sp as [sp|].
  - apply parse_special_ok in Hs; [|pose proof (ok_precision f n Hf); lia]. destruct (encode_special f n sp Hf Hs) as (b & Hb & Hd).
    rewrite Hb in He. apply Ok_inj in He. subst b. by eexists.
  - ok_step He as d Hd. destruct (finitePattern s) as [m|] eqn:Em; [|by unfold parseFinite in Hd; rewrite Em in Hd].
    destruct (parse_exact f n Hf s m Em (pattern_digits_ok s m Em)) as [(d' & Hd' & Hok & _)|[Hn _]]; [|congruence].
    rewrite Hd in Hd'. apply Ok_inj in Hd'. subst d'. destruct (finite_through f d Hfm Hok) as (b & t & Hb & Ht & _).
    rewrite Hb in He. apply Ok_inj in He. subst b. by eexists.
Qed.

(** Every byte string of the format's width decodes to a text that encodes, and the encoding
    decodes to the same text. *)
Theorem decf_text_stable f b :
  is_format f -> zlen b = df_byteLength f ->
  exists t, decodeDecimalFloat b f = Ok t /\ exists b', encodeDecimalFloat t f = Ok b' /\ decodeDecimalFloat b' f = Ok t.
Proof. apply decf_text. Qed.

Lemma decf_text_stable_witness :
  exists t, decodeDecimalFloat (replicate 8 xff) decf16 = Ok t /\ exists b', encodeDecimalFloat t decf16 = Ok b' /\ decodeDecimalFloat b' decf16 = Ok t.
Proof. apply (decf_text_stable decf16); [by left|reflexivity]. Defined.

Lemma decf_value_exact_witness :
  exists m, finitePattern (lit "-1.250E3") = Some m /\
  ((exists b t m', encodeDecimalFloat (lit "-1.250E3") decf34 = Ok b /\ decodeDecimalFloat b decf34 = Ok t /\ finitePattern t = Some m' /\
     is_minus (m1 m') = is_minus (m1 m) /\
     same_value (dec_value (mantissa m')) (text_exponent m') (dec_value (mantissa m)) (text_exponent m)) \/
  (encodeDecimalFloat (lit "-1.250E3") decf34 = Err errDecimalFloat /\
   forall c e, 0 <= c < 10 ^ df_precision decf34 -> minExp decf34 <= e <= maxExp decf34 ->
     ~ same_value c e (dec_value (mantissa m)) (text_exponent m))).
Proof.
  eexists. split; [reflexivity|]. apply decf_value_exact; [by right|reflexivity|vm_compute; discriminate].
Defined.
