(* ===== verification/Scramble.v ===== *)
(** Package [scramble], internal/scramble/scramble.go: the logon-password field.

    The field is the seed, little-endian, followed by the password combined byte by byte
    with a table the seed selects from.  The theorem: a password is accepted exactly when it
    is printable ASCII of at most 40 bytes, the arithmetic on [int64] does not overflow, and
    the receiver recovers seed and password from the field. *)
From stdpp Require Import base list numbers strings.
From Stdlib Require Import ZArith Lia Strings.Byte.
From S2P Require Import Prelude Errors Text.

Open Scope Z_scope.

Definition scrambleTable : list Z :=
  [0xf0; 0xed; 0x53; 0xb8; 0x32; 0x44; 0xf1; 0xf8; 0x76; 0xc6; 0x79; 0x59; 0xfd;
   0x4f; 0x13; 0xa2; 0xc1; 0x51; 0x95; 0xec; 0x54; 0x83; 0xc2; 0x34; 0x77; 0x49;
   0x43; 0xa2; 0x7d; 0xe2; 0x65; 0x96; 0x5e; 0x53; 0x98; 0x78; 0x9a; 0x17; 0xa3;
   0x3c; 0xd3; 0x83; 0xa8; 0xb8; 0x29; 0xfb; 0xdc; 0xa5; 0x55; 0xd7; 0x02; 0x77;
   0x84; 0x13; 0xac; 0xdd; 0xf9; 0xb8; 0x31; 0x16; 0x61; 0x0e; 0x6d; 0xfa].

Definition printableASCII (s : bytes) : bool := forallb is_printable s.

(** The index into the table where the password starts. *)
Definition startIndex (seed : Z) : Z :=
  let mixedSeed := Z.lxor seed (Z.shiftr seed 5) in
  Z.lxor mixedSeed (uint32 (Z.shiftl seed 1)).

(** [int64(seed)*int64(index)*int64(index) - int64(index)] *)
Definition term (seed index : Z) : Z :=
  int64 (int64 (int64 (seed * index) * index) - index).

(** What position [index] of the password is combined with, apart from the password. *)
Definition tableValue (seed index : Z) : res Z :=
  go_index scrambleTable (Z.land (uint32 (startIndex seed + uint32 index)) 0x3f).

Fixpoint scramble_loop (seed index : Z) (clear : bytes) : res bytes :=
  match clear with
  | [] => Ok []
  | c :: clear =>
      t ← tableValue seed index;
      out ← scramble_loop seed (index + 1) clear;
      Ok (z2b (Z.lxor (Z.lxor (b2z c) t) (Z.land (term seed index) 0xff)) :: out)
  end.

Definition ScrambleRfcPassword (password : bytes) (seed : Z) : res bytes :=
  if 40 <? zlen password then Err (EScramble ErrPasswordTooLong)
  else if negb (printableASCII password) then Err (EScramble ErrPasswordNotASCII)
  else
    body ← scramble_loop seed 0 password;
    Ok (le_split 4 seed ++ body).

(** [crypto/rand] gives four bytes or fails. *)
Definition ScrambleRfcPasswordRandomSeed (random : res bytes) (password : bytes) : res bytes :=
  match random with
  | Ok seedBytes => seed ← le_uint 4 seedBytes; ScrambleRfcPassword password seed
  | Err _ => Err (EScramble ErrRandom)
  | Panic => Panic
  end.

(** ** The receiver

    The seed is in clear, and the combination is its own inverse. *)
Fixpoint unscramble_loop (seed index : Z) (body : bytes) : res bytes :=
  match body with
  | [] => Ok []
  | c :: body =>
      t ← tableValue seed index;
      out ← unscramble_loop seed (index + 1) body;
      Ok (z2b (Z.lxor (b2z c) (Z.lxor t (Z.land (seed * index * index - index) 0xff))) :: out)
  end.

Definition unscramble (field : bytes) : res (Z * bytes) :=
  seed ← le_uint 4 field;
  body ← go_from field 4;
  password ← unscramble_loop seed 0 body;
  Ok (seed, password).

(** ** Proofs *)
Lemma table_range : Forall (fun t => 0 <= t < 256) scrambleTable.
Proof. apply (Forall_impl (fun t => (0 <=? t) && (t <? 256) = true)); [|intros t H; lia]. by repeat constructor. Qed.

Lemma table_total seed index : exists t, tableValue seed index = Ok t /\ 0 <= t < 256.
Proof.
  unfold tableValue. set (i := Z.land _ 0x3f).
  assert (0 <= i < 64) as Hi.
  { subst i. change 0x3f with (Z.ones 6). rewrite Z.land_ones by lia. apply Z.mod_pos_bound. lia. }
  destruct (go_index_ok (E := error) scrambleTable i) as [t Ht]; [done|]. exists t. split; [done|].
  unfold go_index in Ht. destruct (i <? 0); [done|].
  destruct (scrambleTable !! Z.to_nat i) as [t'|] eqn:El; [|done]. injection Ht as ->.
  exact (Forall_lookup_1 _ _ _ _ table_range El).
Qed.

Lemma lxor_range a b : 0 <= a < 256 -> 0 <= b < 256 -> 0 <= Z.lxor a b < 256.
Proof.
  intros Ha Hb. split; [apply Z.lxor_nonneg; lia|].
  destruct (Z.eq_dec (Z.lxor a b) 0) as [->|Hn]; [lia|].
  apply Z.log2_lt_pow2 with (b := 8); [pose proof (proj2 (Z.lxor_nonneg a b)); lia|].
  eapply Z.le_lt_trans; [apply Z.log2_lxor; lia|].
  apply Z.max_lub_lt; (destruct (Z.eq_dec a 0) as [->|]; destruct (Z.eq_dec b 0) as [->|];
    first [reflexivity|apply Z.log2_lt_pow2; lia]).
Qed.

(** Below forty positions the term does not leave [int64]. *)
Lemma term_exact seed index : is_u32 seed -> 0 <= index <= 40 -> term seed index = seed * index * index - index.
Proof.
  unfold is_u32, term. intros Hs Hi. rewrite (int64_small (seed * index)) by (unfold is_i64; nia).
  rewrite (int64_small (seed * index * index)) by (unfold is_i64; nia). rewrite int64_small by (unfold is_i64; nia). done.
Qed.

Lemma land_byte z : 0 <= Z.land z 0xff < 256.
Proof. change 0xff with (Z.ones 8). rewrite Z.land_ones by lia. apply Z.mod_pos_bound. lia. Qed.

Lemma scramble_inverse seed clear index :
  is_u32 seed -> 0 <= index -> index + zlen clear <= 40 ->
  exists body, scramble_loop seed index clear = Ok body /\ zlen body = zlen clear /\
    unscramble_loop seed index body = Ok clear.
Proof.
  intros Hs. revert index. induction clear as [|c clear IH]; intros index Hi Hl; [by exists []|].
  assert (zlen (c :: clear) = 1 + zlen clear) as Hz by (unfold zlen; cbn [length]; lia).
  pose proof (zlen_nonneg clear). destruct (IH (index + 1)) as (body & E1 & E2 & E3); [lia..|].
  destruct (table_total seed index) as (t & Ht & Hr). cbn [scramble_loop]. rewrite Ht. cbn [mbind outcome_bind].
  rewrite E1. cbn [mbind outcome_bind]. eexists. split; [done|]. split; [unfold zlen in *; cbn [length]; lia|].
  cbn [unscramble_loop]. rewrite Ht. cbn [mbind outcome_bind]. rewrite E3. cbn [mbind outcome_bind].
  rewrite term_exact by (done || lia). set (k := Z.land (seed * index * index - index) 0xff).
  pose proof (land_byte (seed * index * index - index)) as Hk. fold k in Hk. pose proof (b2z_range c) as Hc.
  rewrite b2z_z2b_id by (repeat apply lxor_range; done).
  rewrite (Z.lxor_assoc (b2z c) t k), Z.lxor_assoc, Z.lxor_nilpotent, Z.lxor_0_r. by rewrite z2b_b2z.
Qed.

Lemma scramble_field password seed :
  is_u32 seed ->
  (is_Ok (ScrambleRfcPassword password seed) <-> zlen password <= 40 /\ printableASCII password = true) /\
  ScrambleRfcPassword password seed <> Panic /\
  forall field, ScrambleRfcPassword password seed = Ok field ->
    zlen field = 4 + zlen password /\ unscramble field = Ok (seed, password).
Proof.
  intros Hs. unfold ScrambleRfcPassword.
  destruct (Z.ltb_spec 40 (zlen password)) as [Hl|Hl]; [split_and!; [split; [by intros [? ?]|lia]|done|done]|].
  destruct (printableASCII password); cbn [negb]; [|split_and!; [split; [by intros [? ?]|by intros [_ ?]]|done|done]].
  destruct (scramble_inverse seed password 0) as (body & -> & Hb & Hu); [done|lia|lia|]. cbn [mbind outcome_bind].
  split_and!; [split; [done|by eexists]|done|]. intros field <-%Ok_inj.
  rewrite zlen_app, Hb. split; [unfold zlen at 1; by rewrite length_le_split|]. unfold unscramble.
  assert (le_uint 4 (le_split 4 seed ++ body) = (Ok seed : res Z)) as ->.
  { unfold le_uint. rewrite length_app, length_le_split. case_tests; [lia|].
    rewrite take_app_le by (rewrite length_le_split; lia). rewrite take_ge by (rewrite length_le_split; lia).
    rewrite le_combine_split. f_equal. by apply Z.mod_small. }
  cbn [mbind outcome_bind]. rewrite go_from_app by (unfold zlen; by rewrite length_le_split).
  cbn [mbind outcome_bind]. by rewrite Hu.
Qed.

(** A password is scrambled exactly when it is printable ASCII of at most 40 bytes, and the
    field determines the seed and the password. *)
Theorem scramble_recovers password seed :
  is_u32 seed ->
  (is_Ok (ScrambleRfcPassword password seed) <-> zlen password <= 40 /\ printableASCII password = true) /\
  ScrambleRfcPassword password seed <> Panic /\
  forall field, ScrambleRfcPassword password seed = Ok field ->
    zlen field = 4 + zlen password /\ unscramble field = Ok (seed, password).
Proof. apply scramble_field. Qed.

(** ** Instances *)
Lemma scramble_recovers_witness :
  exists field, ScrambleRfcPassword (lit "secret") 0xdeadbeef = Ok field /\ unscramble field = Ok (0xdeadbeef, lit "secret").
Proof.
  destruct (scramble_recovers (lit "secret") 0xdeadbeef) as (H & _ & H'); [unfold is_u32; lia|].
  destruct (proj2 H) as [field Hf]; [split; [vm_compute; discriminate|reflexivity]|].
  exists field. split; [exact Hf|]. apply (H' field Hf).
Defined.
