(* ===== verification/UnicodeScalar.v ===== *)
(** Package [value], internal/value/unicode_scalar.go: the checks on text values, and the
    XML entity references of xRFC values.

    The theorems: the text check accepts exactly the encodings of Unicode scalar values
    without NUL, and an entity reference decodes exactly when it names one of the five
    entities or the number of a scalar value, however the number is padded. *)
From stdpp Require Import base list numbers strings.
From Stdlib Require Import ZArith Lia Strings.Byte.
From S2P Require Import Prelude Errors Text.

Open Scope Z_scope.

Definition errScalarText : error := EValue ErrScalarText.
Definition errXMLEntity : error := EValue ErrXMLEntity.

Definition AssertUnicodeScalarText (value : bytes) : res unit :=
  if negb (ValidString value) then Err errScalarText else Ok tt.

Definition AssertNulFreeUnicodeScalarText (value : bytes) : res unit :=
  AssertUnicodeScalarText value;;
  match index_byte value x00 with
  | Some _ => Err errScalarText
  | None => Ok tt
  end.

Definition namedXMLEntityCodePoints : list (bytes * Z) :=
  [(lit "amp", 0x26); (lit "lt", 0x3c); (lit "gt", 0x3e); (lit "quot", 0x22); (lit "apos", 0x27)].

Definition named_entity (body : bytes) : option Z :=
  snd <$> find (fun e => bytes_eqb (fst e) body) namedXMLEntityCodePoints.

Definition maximumCharacterReferenceRun : Z := 32.

(** The value of a run in a radix. *)
Definition run_value (radix : Z) (digit : byte -> Z) (s : bytes) : Z :=
  fold_left (fun acc b => acc * radix + digit b) s 0.

(** [strconv.ParseInt(s, radix, 64)] of a run of digits: [None] when it is out of range. *)
Definition parse_run (radix : Z) (digit : byte -> Z) (s : bytes) : option Z :=
  let v := run_value radix digit s in if v <? 2 ^ 63 then Some v else None.

Definition characterReferenceValue (digits : bytes) (radix : Z) (is_run_digit : byte -> bool) (digit : byte -> Z) : res Z :=
  if (maximumCharacterReferenceRun <? zlen digits) || negb ((0 <? zlen digits) && forallb is_run_digit digits)
  then Err errXMLEntity
  else
    let significant := trim_left_zeros digits in
    let significant := match significant with [] => [x30] | _ => significant end in
    match parse_run radix digit significant with
    | None => Ok 0x110000
    | Some v => Ok v
    end.

(** The code point of the text between [&] and [;]. *)
Definition entity_body (body : bytes) : res Z :=
  match body with
  | [] => Err errXMLEntity
  | c :: body' =>
      if negb (bool_decide (c = x23)) then
        match named_entity body with None => Err errXMLEntity | Some named => Ok named end
      else
        match body' with
        | x :: digits =>
            if bool_decide (x = x78) then characterReferenceValue digits 16 is_hex hex_digit_value
            else characterReferenceValue body' 10 is_digit digit_value
        | [] => characterReferenceValue body' 10 is_digit digit_value
        end
  end.

Definition DecodeXMLEntityReference (raw : bytes) (start : Z) : res (Z * Z) :=
  rest ← go_from raw (start + 1);
  match index_byte rest x3b with
  | None => Err errXMLEntity
  | Some i =>
      let semicolon := Z.of_nat i + start + 1 in
      body ← go_slice raw (start + 1) semicolon;
      codePoint ← entity_body body;
      if (0x10ffff <? codePoint) || ((0xd800 <=? codePoint) && (codePoint <=? 0xdfff)) then Err errXMLEntity
      else Ok (codePoint, semicolon + 1 - start)
  end.

(** ** What a reference denotes *)
Inductive denotes : bytes -> Z -> Prop :=
| denotes_amp : denotes (lit "amp") 0x26
| denotes_lt : denotes (lit "lt") 0x3c
| denotes_gt : denotes (lit "gt") 0x3e
| denotes_quot : denotes (lit "quot") 0x22
| denotes_apos : denotes (lit "apos") 0x27
| denotes_decimal ds : ds <> [] -> zlen ds <= 32 -> forallb is_digit ds = true ->
    denotes (x23 :: ds) (run_value 10 digit_value ds)
| denotes_hexadecimal ds : ds <> [] -> zlen ds <= 32 -> forallb is_hex ds = true ->
    denotes (x23 :: x78 :: ds) (run_value 16 hex_digit_value ds).

Lemma run_value_zeros radix digit n s :
  digit x30 = 0 -> run_value radix digit (replicate n x30 ++ s) = run_value radix digit s.
Proof.
  intros H. unfold run_value. induction n as [|n IH]; [done|]. cbn [replicate app fold_left]. by rewrite H.
Qed.

Lemma run_value_nonneg radix digit s : 0 <= radix -> Forall (fun b => 0 <= digit b) s -> 0 <= run_value radix digit s.
Proof.
  intros Hr H. unfold run_value. assert (0 <= 0) as H0 by lia. revert H0. generalize 0 at 2 4. 
  induction H as [|b s Hb _ IH]; intros a Ha; [done|]. cbn [fold_left]. apply IH. nia.
Qed.

(** The number of a run, or one that is no scalar value when it leaves [int64]. *)
Lemma reference_value digits radix is_run_digit digit :
  digit x30 = 0 ->
  characterReferenceValue digits radix is_run_digit digit
  = if (maximumCharacterReferenceRun <? zlen digits) || negb ((0 <? zlen digits) && forallb is_run_digit digits)
    then Err errXMLEntity
    else Ok (if run_value radix digit digits <? 2 ^ 63 then run_value radix digit digits else 0x110000).
Proof.
  intros H0. unfold characterReferenceValue. destruct (_ || _); [done|].
  destruct (trim_left_zeros_spec digits) as (n & E & _).
  assert (run_value radix digit (match trim_left_zeros digits with [] => [x30] | _ => trim_left_zeros digits end)
          = run_value radix digit digits) as Hv.
  { transitivity (run_value radix digit (trim_left_zeros digits)).
    - destruct (trim_left_zeros digits); [|done]. unfold run_value. cbn. by rewrite H0.
    - rewrite E at 2. by rewrite run_value_zeros. }
  unfold parse_run. rewrite Hv. by destruct (_ <? 2 ^ 63).
Qed.

Lemma digit_nonneg s : forallb is_digit s = true -> Forall (fun b => 0 <= digit_value b) s.
Proof.
  intros H%forallb_digits. eapply Forall_impl; [exact H|]. intros b Hb. by destruct (digit_range b Hb).
Qed.

Lemma hex_nonneg s : forallb is_hex s = true -> Forall (fun b => 0 <= hex_digit_value b) s.
Proof.
  induction s as [|b s IH]; [constructor|]. cbn. intros [Hb Hs]%andb_true_iff. constructor; [|by apply IH].
  unfold is_hex, is_digit, hex_digit_value in *. revert Hb. case_ranges; case_tests; lia.
Qed.

Definition is_codepoint_bad (c : Z) : bool := (0x10ffff <? c) || ((0xd800 <=? c) && (c <=? 0xdfff)).

Lemma bad_scalar c : 0 <= c -> is_codepoint_bad c = false <-> is_scalar c.
Proof. intros H. unfold is_codepoint_bad, is_scalar, MaxRune. case_tests; split; intros; first [done|lia]. Qed.

(** A reference by number. *)
Lemma reference_exact c radix run digit ds :
  digit x30 = 0 -> 0 <= radix -> (forallb run ds = true -> Forall (fun b => 0 <= digit b) ds) ->
  (characterReferenceValue ds radix run digit = Ok c /\ is_codepoint_bad c = false) <->
  (ds <> [] /\ zlen ds <= 32 /\ forallb run ds = true /\ c = run_value radix digit ds /\ is_scalar c).
Proof.
  intros H0 Hr Hd. rewrite reference_value by done. unfold maximumCharacterReferenceRun.
  destruct (Z.ltb_spec 32 (zlen ds)) as [|Hl]; cbn [orb]; [split; [by intros [? ?]|lia]|].
  destruct (Z.ltb_spec 0 (zlen ds)) as [Hz|Hz]; cbn [andb negb].
  2: { split; [by intros [? ?]|]. intros (Hn & _). destruct ds; [done|len_lia]. }
  destruct (forallb run ds) eqn:Ef; cbn [negb]; [|split; [by intros [? ?]|by intros (_ & _ & ? & _)]].
  pose proof (run_value_nonneg radix digit ds Hr (Hd eq_refl)) as Hp.
  assert (ds <> []) as Hne by (intros ->; len_lia).
  destruct (Z.ltb_spec (run_value radix digit ds) (2 ^ 63)) as [Hlt|Hge]; split.
  - intros [[= <-] Hb]. split_and!; try done. by apply bad_scalar.
  - intros (_ & _ & _ & -> & Hs). split; [done|]. by apply bad_scalar.
  - by intros [[= <-] Hb].
  - intros (_ & _ & _ & -> & Hs). unfold is_scalar, MaxRune in Hs. lia.
Qed.

(** A reference by name. *)
Lemma named_exact c b : head b <> Some x23 -> denotes b c <-> named_entity b = Some c.
Proof.
  intros Hc. unfold named_entity, namedXMLEntityCodePoints. cbn [find fst snd]. split.
  - intros H. by inversion H; subst.
  - intros H. repeat (destruct (bytes_eqb _ b) eqn:E in H;
      [apply bytes_eqb_eq in E; rewrite <- E; injection H as <-; constructor|clear E]). done.
Qed.

Lemma named_scalar b c : named_entity b = Some c -> is_codepoint_bad c = false /\ is_scalar c.
Proof.
  intros En. assert (0x22 <= c <= 0x3e) as Hc.
  { unfold named_entity, namedXMLEntityCodePoints in En. cbn [find fst snd] in En.
    repeat (destruct (bytes_eqb _ b) in En; [injection En as <-; lia|]). done. }
  split; [apply bad_scalar; [lia|]|]; unfold is_scalar; lia.
Qed.

(** A body that is accepted denotes its scalar value, and conversely. *)
Lemma entity_body_exact body c :
  (entity_body body = Ok c /\ is_codepoint_bad c = false) <-> denotes body c /\ is_scalar c.
Proof.
  destruct body as [|c0 b']; cbn [entity_body]; [split; [by intros [? ?]|intros [H _]; inversion H]|].
  destruct (bool_decide (c0 = x23)) eqn:Ec; cbn [negb]; [apply bool_decide_eq_true in Ec|apply bool_decide_eq_false in Ec].
  2: { rewrite named_exact by (cbn; congruence). destruct (named_entity (c0 :: b')) as [v|] eqn:En;
         [|split; by intros [? ?]].
       apply named_scalar in En as [H1 H2]. split; by intros [[= <-] _]. }
  subst c0. destruct b' as [|x ds].
  { split; [by intros [? ?]|intros [H _]; by inversion H]. }
  destruct (bool_decide (x = x78)) eqn:Ex; [apply bool_decide_eq_true in Ex; subst x|apply bool_decide_eq_false in Ex].
  - rewrite (reference_exact c 16 is_hex hex_digit_value ds eq_refl ltac:(lia) (hex_nonneg ds)). split.
    + intros (H1 & H2 & H3 & -> & H5). split; [by constructor|done].
    + intros [H Hs]. by inversion H; subst.
  - rewrite (reference_exact c 10 is_digit digit_value (x :: ds) eq_refl ltac:(lia) (digit_nonneg (x :: ds))). split.
    + intros (H1 & H2 & H3 & -> & H5). split; [by constructor|done].
    + intros [H Hs]. by inversion H; subst.
Qed.

Lemma entity_body_total body : entity_body body <> Panic.
Proof.
  assert (forall ds radix run digit, characterReferenceValue ds radix run digit <> Panic) as H.
  { intros. unfold characterReferenceValue. destruct (_ || _); [done|]. by destruct (parse_run _ _ _). }
  unfold entity_body. destruct body as [|c b]; [done|]. destruct (negb _); [by destruct (named_entity _)|].
  destruct b as [|x b]; [apply H|]. destruct (bool_decide _); apply H.
Qed.

(** A text is accepted exactly when it is the UTF-8 form of scalar values without NUL. *)
Theorem scalar_text_exact value :
  (AssertNulFreeUnicodeScalarText value = Ok tt <->
   exists rs, Forall is_scalar rs /\ Forall (fun r => r <> 0) rs /\ value = utf8_string rs) /\
  (AssertNulFreeUnicodeScalarText value = Ok tt \/ AssertNulFreeUnicodeScalarText value = Err errScalarText).
Proof.
  unfold AssertNulFreeUnicodeScalarText, AssertUnicodeScalarText. pose proof (valid_string_iff value) as Hv.
  destruct (ValidString value) eqn:Ev; cbn [negb mbind outcome_bind].
  2: { split; [|by right]. split; [done|]. intros (rs & H1 & _ & H2). assert (false = true); [|done]. apply Hv. by exists rs. }
  pose proof (index_byte_spec value x00) as Hi. destruct (index_byte value x00) as [i|].
  - split; [|by right]. split; [done|]. intros (rs & H1 & H2 & H3). exfalso.
    destruct Hi as (t & Ht & _). apply (nul_free_utf8 rs H1) in H2. apply H2. rewrite <- H3, Ht.
    apply elem_of_app. right. by left.
  - split; [|by left]. split; [|done]. intros _. destruct (proj1 Hv eq_refl) as (rs & H1 & ->).
    exists rs. split_and!; try done. by apply nul_free_utf8.
Qed.

(** An entity reference decodes exactly to the scalar value its body denotes, with its
    length, and never panics. *)
Theorem entity_exact raw start :
  0 <= start < zlen raw ->
  DecodeXMLEntityReference raw start <> Panic /\
  forall c n, DecodeXMLEntityReference raw start = Ok (c, n) <->
    exists body rest, drop (Z.to_nat (start + 1)) raw = body ++ x3b :: rest /\ (x3b ∉ body) /\
      denotes body c /\ is_scalar c /\ n = zlen body + 2.
Proof.
  intros Hs. unfold DecodeXMLEntityReference.
  destruct (cut_prefix (Z.to_nat (start + 1)) raw) as (pre & tl & -> & Hp); [len_lia|].
  assert (zlen pre = start + 1) as Hpz by (unfold zlen; lia).
  rewrite go_from_app by done. cbn [mbind outcome_bind]. rewrite <- Hp, drop_app_length.
  pose proof (index_byte_spec tl x3b) as Hi. destruct (index_byte tl x3b) as [i|] eqn:Ei.
  2: { split; [done|]. intros c n. split; [done|]. intros (body & rest & -> & Hn & _). exfalso. apply Hi.
       apply elem_of_app. right. by left. }
  destruct Hi as (t & Ht & Hn & Hl). set (body := take i tl) in *.
  assert (zlen body = Z.of_nat i) as Hbz by (unfold body, zlen; rewrite length_take; lia).
  assert (go_slice (pre ++ tl) (start + 1) (Z.of_nat i + start + 1) = (Ok body : res bytes)) as ->
    by (rewrite Ht; apply go_slice_mid; lia).
  cbn [mbind outcome_bind]. split.
  { destruct (entity_body body) as [c| |] eqn:Eb; cbn [mbind outcome_bind]; [by destruct (_ || _)|done|].
    by apply entity_body_total in Eb. }
  intros c n. split.
  - destruct (entity_body body) as [c'| |] eqn:Eb; cbn [mbind outcome_bind]; try done.
    fold (is_codepoint_bad c'). destruct (is_codepoint_bad c') eqn:Ebad; [done|]. intros [= -> <-].
    destruct (proj1 (entity_body_exact body c) (conj Eb Ebad)) as [Hd Hsc]. exists body, t. split_and!; try done. lia.
  - intros (body' & rest & Htl & Hn' & Hd & Hsc & ->).
    assert (i = length body') as -> by (rewrite Htl, index_byte_app in Ei by done; by injection Ei).
    assert (body = body') as Hbb by (unfold body; rewrite Htl; apply take_app_length).
    rewrite Hbb in *. destruct (proj2 (entity_body_exact body' c) (conj Hd Hsc)) as [-> Hbad].
    cbn [mbind outcome_bind]. fold (is_codepoint_bad c). rewrite Hbad. do 2 f_equal. unfold zlen. lia.
Qed.

(** ** Instances *)
Lemma entity_exact_witness :
  DecodeXMLEntityReference (lit "a&#x00041;b") 1 = Ok (0x41, 9) /\ DecodeXMLEntityReference (lit "a&#x00041;b") 1 <> Panic.
Proof.
  destruct (entity_exact (lit "a&#x00041;b") 1) as [H1 H2]; [vm_compute; split; [discriminate|reflexivity]|].
  split; [|exact H1]. apply H2. exists (lit "#x00041"), (lit "b").
  split_and!; [reflexivity|apply (bool_decide_unpack _); vm_compute; reflexivity| |unfold is_scalar; lia|reflexivity].
  apply (denotes_hexadecimal (lit "00041")); [discriminate|vm_compute; discriminate|reflexivity].
Defined.
