(* ===== verification/XrfcNames.v ===== *)
(** Package [xrfc], the tag names of internal/xrfc/recursive_xrfc.go: the escaping of ABAP
    names as XML tags, and the name of a parameter read from its XML.

    The theorem: an escaped name reads back exactly when none of its characters lies in
    U+0080..U+00FF; with such a character the reader refuses what the writer wrote. *)
From stdpp Require Import base list numbers strings.
From Stdlib Require Import ZArith Lia Strings.Byte.
From S2P Require Import Prelude Errors Text UnicodeScalar.

Open Scope Z_scope.

Definition errXProtocol : error := EXrfc XRFC_ErrProtocol.
Definition errXRange : error := EXrfc XRFC_ErrRange.
Definition errXType : error := EXrfc XRFC_ErrType.

Definition upper_hex (d : Z) : byte := if d <? 10 then z2b (0x30 + d) else z2b (0x37 + d).

(** The runes a tag keeps as they are. *)
Definition valid_rune (first : bool) (r : Z) : bool :=
  (r =? 0x5f) || in_range 0x41 0x5a r || in_range 0x61 0x7a r || (negb first && in_range 0x30 0x39 r) || (0xff <? r).

Definition escape_rune (first : bool) (r : Z) : res bytes :=
  if valid_rune first r then Ok (EncodeRune r)
  else if r =? 0x2f then Ok [x5f; x2d]
  else if r <=? 0xff then Ok [x5f; x2d; x2d; upper_hex (r / 16); upper_hex (r mod 16)]
  else Err errXProtocol.

Fixpoint escape_loop (first : bool) (rs : list Z) : res bytes :=
  match rs with
  | [] => Ok []
  | r :: rs => b ← escape_rune first r; out ← escape_loop false rs; Ok (b ++ out)
  end.

Definition EscapeTag (name : bytes) : res bytes :=
  match name with
  | [] => Err errXType
  | _ =>
      AssertUnicodeScalarText name;;
      escape_loop true (runes name)
  end.

Definition is_upper_hex (b : byte) : bool := is_digit b || in_range 0x41 0x46 (b2z b).
Definition isUpperHex (s : bytes) : bool := forallb is_upper_hex s.

(** The loop of [unescapeTag]. *)
Fixpoint unescape_loop (v : bytes) : res bytes :=
  match v with
  | [] => Ok []
  | b :: v1 =>
      if negb (bool_decide (b = x5f)) then out ← unescape_loop v1; Ok (b :: out)
      else match v1 with
      | c :: v2 =>
          if negb (bool_decide (c = x2d)) then out ← unescape_loop v1; Ok (x5f :: out)
          else match v2 with
          | d :: v3 =>
              if negb (bool_decide (d = x2d)) then out ← unescape_loop v2; Ok (x2f :: out)
              else match v3 with
              | h1 :: h2 :: v4 =>
                  if isUpperHex [h1; h2]
                  then out ← unescape_loop v4; Ok (z2b (hex_digit_value h1 * 16 + hex_digit_value h2) :: out)
                  else Err errXProtocol
              | _ => Err errXProtocol
              end
          | [] => out ← unescape_loop v2; Ok (x2f :: out)
          end
      | [] => out ← unescape_loop v1; Ok (x5f :: out)
      end
  end.

Definition unescapeTag (v : bytes) : res bytes :=
  result ← unescape_loop v;
  AssertUnicodeScalarText result;;
  match EscapeTag result with
  | Ok reEscaped => if bytes_eqb reEscaped v then Ok result else Err errXProtocol
  | Err _ => Err errXProtocol
  | Panic => Panic
  end.

Definition xrfc_max_bytes : Z := 256 * 1024 * 1024.

(** [DecodeRecursiveParameterName] with the default limits. *)
Definition DecodeRecursiveParameterName (v : bytes) : res bytes :=
  if (zlen v =? 0) || (xrfc_max_bytes <? zlen v) then Err errXRange
  else if bool_decide (take 3 v = [xef; xbb; xbf]) then Err errXProtocol
  else if negb (ValidString v) then Err errXProtocol
  else if negb (bool_decide (head v = Some x3c)) then Err errXProtocol
  else match index_byte v x3e with
  | None => Err errXProtocol
  | Some n =>
      let end_ := Z.of_nat n in
      if (end_ <? 2) || (256 <? end_) then Err errXProtocol
      else
        tag ← go_slice v 1 end_;
        if bool_decide (x3c ∈ tag) then Err errXProtocol
        else unescapeTag tag
  end.

(** ** What the reader makes of an escaped name *)
#[local] Ltac Zify.zify_post_hook ::= Z.div_mod_to_equations.

(** A rune read back: a hexadecimal escape becomes the one byte. *)
Definition reread (first : bool) (r : Z) : bytes :=
  if valid_rune first r || (r =? 0x2f) then EncodeRune r else [z2b r].

Lemma encode_high r b : is_scalar r -> 0x80 <= r -> b ∈ EncodeRune r -> 0x80 <= b2z b.
Proof.
  intros H Hr Hb. unfold EncodeRune in Hb. rewrite (proj2 (is_scalarb_spec r) H) in Hb. unfold is_scalar, MaxRune in H.
  revert Hb. destruct (Z.ltb_spec r 0x80); [lia|].
  case_tests; rewrite !elem_of_cons, elem_of_nil; intros Hb; repeat destruct Hb as [->|Hb]; try done;
    rewrite b2z_z2b_id by lia; lia.
Qed.

Lemma unescape_plain s rest :
  Forall (fun b => b <> x5f) s -> unescape_loop (s ++ rest) = (out ← unescape_loop rest; Ok (s ++ out)).
Proof.
  induction 1 as [|b s Hb _ IH]; cbn [app unescape_loop]; [by destruct (unescape_loop rest)|].
  rewrite bool_decide_eq_false_2 by done. cbn [negb]. rewrite IH. by destruct (unescape_loop rest).
Qed.

Lemma upper_hex_spec d : 0 <= d < 16 -> is_upper_hex (upper_hex d) = true /\ hex_digit_value (upper_hex d) = d.
Proof.
  intros H. unfold upper_hex, is_upper_hex, is_digit, hex_digit_value.
  destruct (Z.ltb_spec d 10); rewrite b2z_z2b_id by lia; split; unfold in_range; case_tests; first [done|lia].
Qed.

(** An escaped name never starts with a hyphen. *)
Lemma escape_no_hyphen first rs t : Forall is_scalar rs -> escape_loop first rs = Ok t -> head t <> Some x2d.
Proof.
  intros Hs. destruct rs as [|r rs]; cbn [escape_loop]; [by intros [= <-]|].
  destruct (escape_rune first r) as [b| |] eqn:Eb; [|done..]. cbn [mbind outcome_bind].
  destruct (escape_loop false rs) as [o| |]; [|done..]. cbn [mbind outcome_bind]. intros [= <-].
  apply Forall_cons in Hs as [Hr _]. revert Eb. unfold escape_rune.
  destruct (valid_rune first r) eqn:Ev.
  - intros [= <-]. pose proof (encode_rune_cons r) as (b & t & E). rewrite E. cbn. intros [= ->].
    destruct (Z.le_gt_cases 0x80 r) as [Hge|Hlt].
    + pose proof (encode_high r x2d Hr Hge) as Hh. rewrite E in Hh.
      assert (0x80 <= b2z x2d) as Hx by (apply Hh; by left). by vm_compute in Hx.
    + unfold EncodeRune in E. rewrite (proj2 (is_scalarb_spec r) Hr) in E. destruct (Z.ltb_spec r 0x80); [|lia].
      injection E as E _. apply (f_equal b2z) in E. unfold is_scalar in Hr. rewrite b2z_z2b_id in E by lia.
      change (b2z x2d) with 0x2d in E. subst r. by destruct first.
  - destruct (r =? 0x2f); [intros [= <-]; discriminate|]. destruct (r <=? 0xff); [intros [= <-]; discriminate|done].
Qed.

Lemma unescape_underscore rest :
  head rest <> Some x2d -> unescape_loop (x5f :: rest) = (out ← unescape_loop rest; Ok (x5f :: out)).
Proof.
  destruct rest as [|c rest]; [done|]. intros Hh.
  assert (exists other, unescape_loop (x5f :: c :: rest)
    = if negb (bool_decide (c = x2d)) then (out ← unescape_loop (c :: rest); Ok (x5f :: out)) else other) as [other ->]
    by (eexists; reflexivity).
  rewrite bool_decide_eq_false_2; [done|]. intros ->. by apply Hh.
Qed.

Lemma unescape_slash rest :
  head rest <> Some x2d -> unescape_loop (x5f :: x2d :: rest) = (out ← unescape_loop rest; Ok (x2f :: out)).
Proof.
  destruct rest as [|d rest]; [done|]. intros Hh.
  assert (exists other, unescape_loop (x5f :: x2d :: d :: rest)
    = if negb (bool_decide (d = x2d)) then (out ← unescape_loop (d :: rest); Ok (x2f :: out)) else other) as [other ->]
    by (eexists; reflexivity).
  rewrite bool_decide_eq_false_2; [done|]. intros ->. by apply Hh.
Qed.

(** One rune of an escaped name, in front of the rest. *)
Lemma unescape_rune first r b rest :
  is_scalar r -> escape_rune first r = Ok b -> head rest <> Some x2d ->
  unescape_loop (b ++ rest) = (out ← unescape_loop rest; Ok (reread first r ++ out)).
Proof.
  intros Hr. unfold escape_rune, reread. destruct (valid_rune first r) eqn:Ev; cbn [orb].
  - intros [= <-] Hh. destruct (Z.eq_dec r 0x5f) as [->|Hn].
    + by apply unescape_underscore.
    + apply unescape_plain, Forall_forall. intros b Hb ->.
      destruct (Z.le_gt_cases 0x80 r) as [Hge|Hlt].
      { pose proof (encode_high r x5f Hr Hge Hb) as Hx. by vm_compute in Hx. }
      unfold EncodeRune in Hb. rewrite (proj2 (is_scalarb_spec r) Hr) in Hb. destruct (Z.ltb_spec r 0x80); [|lia].
      apply list_elem_of_singleton in Hb. apply (f_equal b2z) in Hb. unfold is_scalar in Hr.
      rewrite b2z_z2b_id in Hb by lia. change (b2z x5f) with 0x5f in Hb. lia.
  - destruct (Z.eqb_spec r 0x2f) as [->|Hn].
    + intros [= <-] Hh. by apply unescape_slash.
    + destruct (Z.leb_spec r 0xff) as [Hle|]; [|done]. intros [= <-] _. cbn [app unescape_loop].
      rewrite !bool_decide_eq_true_2 by done. cbn [negb]. unfold is_scalar in Hr.
      destruct (upper_hex_spec (r / 16)) as [H1 H2]; [lia|]. destruct (upper_hex_spec (r mod 16)) as [H3 H4]; [lia|].
      unfold isUpperHex. cbn [forallb]. rewrite H1, H3. cbn [andb]. rewrite H2, H4.
      replace (r / 16 * 16 + r mod 16) with r by lia. done.
Qed.

Fixpoint reread_all (first : bool) (rs : list Z) : bytes :=
  match rs with [] => [] | r :: rs => reread first r ++ reread_all false rs end.

Lemma unescape_escape first rs t :
  Forall is_scalar rs -> escape_loop first rs = Ok t -> unescape_loop t = Ok (reread_all first rs).
Proof.
  intros H. revert first t. induction H as [|r rs Hr Hrs IH]; intros first t; cbn [escape_loop]; [by intros [= <-]|].
  destruct (escape_rune first r) as [b| |] eqn:Eb; [|done..]. cbn [mbind outcome_bind].
  destruct (escape_loop false rs) as [o| |] eqn:Eo; [|done..]. cbn [mbind outcome_bind]. intros [= <-].
  rewrite (unescape_rune first r b o Hr Eb (escape_no_hyphen _ _ _ Hrs Eo)). by rewrite (IH false o Eo).
Qed.

(** The characters whose escape does not read back. *)
Definition latin1_high (r : Z) : Prop := 0x80 <= r <= 0xff.

Lemma reread_length first r : is_scalar r ->
  (length (reread first r) <= length (EncodeRune r))%nat /\
  (latin1_high r -> (length (reread first r) < length (EncodeRune r))%nat) /\
  (~ latin1_high r -> reread first r = EncodeRune r).
Proof.
  intros Hr. unfold reread, latin1_high. rewrite length_EncodeRune by done.
  destruct (valid_rune first r) eqn:Ev; cbn [orb].
  - rewrite length_EncodeRune by done. split_and!; [done| |done]. intros H. exfalso.
    unfold valid_rune, in_range in Ev. revert Ev. destruct first; case_tests; lia || done.
  - destruct (Z.eqb_spec r 0x2f) as [->|Hn]; [by split_and!; [|lia|]|]. cbn [length]. split_and!.
    + case_tests; lia.
    + intros H. case_tests; lia.
    + intros H. unfold is_scalar in Hr.
      assert (r < 0x80) as Hlt.
      { unfold valid_rune, in_range in Ev. revert Ev. destruct first; case_tests; lia || done. }
      unfold EncodeRune. rewrite (proj2 (is_scalarb_spec r)) by done. by destruct (Z.ltb_spec r 0x80); [|lia].
Qed.

Lemma reread_all_exact first rs :
  Forall is_scalar rs -> reread_all first rs = utf8_string rs <-> Forall (fun r => ~ latin1_high r) rs.
Proof.
  intros H. assert (forall f rs, Forall is_scalar rs -> (length (reread_all f rs) <= length (utf8_string rs))%nat) as Hle.
  { clear. intros f rs H. revert f. induction H as [|r rs Hr _ IH]; intros f; [done|]. cbn [reread_all].
    change (utf8_string (r :: rs)) with (EncodeRune r ++ utf8_string rs). rewrite !length_app.
    destruct (reread_length f r Hr) as [? _]. specialize (IH false). lia. }
  revert first. induction H as [|r rs Hr Hrs IH]; intros first; [done|]. cbn [reread_all].
  change (utf8_string (r :: rs)) with (EncodeRune r ++ utf8_string rs). rewrite Forall_cons.
  destruct (reread_length first r Hr) as (L1 & L2 & L3). split.
  - intros E. pose proof (f_equal length E) as El. rewrite !length_app in El. pose proof (Hle false rs Hrs).
    assert (~ latin1_high r) as Hn by (intros Hl; specialize (L2 Hl); lia). split; [done|].
    rewrite (L3 Hn) in E. apply app_inv_head in E. by apply (IH false).
  - intros [Hn Hf]. rewrite (L3 Hn). f_equal. by apply (IH false).
Qed.

(** An escaped tag unescapes to the name exactly when the name has no character of U+0080 to
    U+00FF. *)
Theorem tag_roundtrip name t :
  EscapeTag name = Ok t -> unescapeTag t = Ok name <-> Forall (fun r => ~ latin1_high r) (runes name).
Proof.
  intros He. pose proof He as He0. unfold EscapeTag in He0. destruct name as [|c name'] eqn:En; [done|]. rewrite <- En in *.
  unfold AssertUnicodeScalarText in He0. destruct (ValidString name) eqn:Ev; [|done]. cbn [negb mbind outcome_bind] in He0.
  destruct (valid_string_runes name Ev) as [Hn Hs]. pose proof (unescape_escape true (runes name) t Hs He0) as Hu.
  rewrite <- (reread_all_exact true (runes name) Hs), Hn. unfold unescapeTag. rewrite Hu. cbn [mbind outcome_bind]. split.
  - unfold AssertUnicodeScalarText. destruct (ValidString (reread_all true (runes name))); [|done]. cbn [negb mbind outcome_bind].
    destruct (EscapeTag (reread_all true (runes name))) as [e| |]; [|done..]. destruct (bytes_eqb e t); [|done]. by intros [= ->].
  - intros ->. unfold AssertUnicodeScalarText. rewrite Ev. cbn [negb mbind outcome_bind]. rewrite He.
    by rewrite bytes_eqb_refl.
Qed.

(** ** Instances *)
Lemma tag_roundtrip_witness :
  unescapeTag (lit "_-BIC_-A__--2D1") = Ok (lit "/BIC/A_-1") /\
  EscapeTag [xc3; x89] = Ok (lit "_--C9") /\ unescapeTag (lit "_--C9") <> Ok [xc3; x89].
Proof.
  split; [|split; [vm_compute; reflexivity|]].
  - apply (tag_roundtrip (lit "/BIC/A_-1") (lit "_-BIC_-A__--2D1")); [vm_compute; reflexivity|].
    vm_compute (runes _). repeat apply Forall_cons_2; try apply Forall_nil_2; unfold latin1_high; lia.
  - intros H. apply (tag_roundtrip [xc3; x89] (lit "_--C9")) in H; [|vm_compute; reflexivity].
    vm_compute (runes _) in H. apply Forall_cons in H as [H _]. apply H. unfold latin1_high. lia.
Defined.
