(* ===== verification/Rfcerr.v ===== *)
(** Package [rfcerr], internal/rfcerr/rfcerr.go: the classification of a response envelope.

    A response is a list of tagged fields.  [Decode] reads the error facts among them, and
    decides between success, a declared ABAP exception, an ABAP runtime error and an ABAP
    message, or refuses the envelope with a stable reason.

    Go's [map[uint16]string] and [map[uint16]bool] are a [gmap] and a [gset].

    The theorems: the decoder is total, every fact is the text of the one field that carries
    it, and each outcome is reported exactly when the facts say so; success in particular
    means that no error field is there and the one control field is zero. *)
From stdpp Require Import base list numbers strings gmap.
From Stdlib Require Import ZArith Lia Strings.Byte.
From S2P Require Import Prelude Errors Text.

Open Scope Z_scope.

Definition TagExceptionKey : Z := 0x0401.
Definition TagErrorMessage : Z := 0x0402.
Definition TagRuntimeID : Z := 0x0403.
Definition TagT100Text : Z := 0x0404.
Definition TagMessageV1 : Z := 0x0411.
Definition TagMessageV2 : Z := 0x0412.
Definition TagMessageV3 : Z := 0x0413.
Definition TagMessageV4 : Z := 0x0414.
Definition TagMessageClass : Z := 0x0415.
Definition TagMessageType : Z := 0x0416.
Definition TagMessageNumber : Z := 0x0417.
Definition TagCallStack : Z := 0x0418.
Definition TagUnresolved0420 : Z := 0x0420.
Definition TagUseClassExceptions : Z := 0x0421.
Definition TagClassExceptionInfo : Z := 0x0422.
Definition TagClassException : Z := 0x0423.
Definition TagClassExceptionEnd : Z := 0x0424.
Definition EndTag : Z := 0xffff.

Definition DefaultMaxTextByteLength : Z := 1024 * 1024.
Definition DefaultMaxTotalTextByteLength : Z := 4 * 1024 * 1024.
Definition DefaultMaxControlByteLength : Z := 4 * 1024.
Definition DefaultMaxTotalControlByteLength : Z := 64 * 1024.
Definition DefaultMaxControlCount : Z := 64.
Definition DefaultMaxEnvelopeFieldCount : Z := 256.

Definition classicResponseDataTags : gset Z :=
  list_to_set [0x0102; 0x0201; 0x0203; 0x0205; 0x0301; 0x0302; 0x0303; 0x0304; 0x0502; 0x0503; 0x0512; 0x0514].

Definition textTags : gset Z :=
  list_to_set [TagExceptionKey; TagErrorMessage; TagRuntimeID; TagT100Text; TagMessageV1; TagMessageV2;
    TagMessageV3; TagMessageV4; TagMessageClass; TagMessageType; TagMessageNumber; TagCallStack].

Definition classExceptionTags : gset Z :=
  list_to_set [TagClassExceptionInfo; TagClassException; TagClassExceptionEnd].

Definition messageTextTags : list Z := [TagErrorMessage; TagT100Text].
Definition messageIdentityTags : list Z := [TagMessageClass; TagMessageType; TagMessageNumber].

Definition secondaryErrorTags : gset Z :=
  list_to_set [TagMessageV1; TagMessageV2; TagMessageV3; TagMessageV4; TagCallStack; TagErrorMessage; TagT100Text;
    TagMessageClass; TagMessageType; TagMessageNumber].

Record Field : Type := mkField { Tag : Z; Value : bytes }.

Record FactProvenance : Type := mkFactProvenance { fp_Tag : Z; fp_Ordinal : Z; fp_ByteLength : Z }.

Record UnresolvedControlFact : Type := mkUnresolvedControlFact {
  uc_Tag : Z; uc_Ordinal : Z; uc_ByteLength : Z; uc_ValueHex : bytes }.

Record RemoteErrorFacts : Type := mkRemoteErrorFacts {
  ExceptionKey : bytes; PlainText : bytes; RuntimeID : bytes; T100Text : bytes;
  MessageClass : bytes; MessageType : bytes; MessageNumber : bytes;
  MessageV1 : bytes; MessageV2 : bytes; MessageV3 : bytes; MessageV4 : bytes; CallStack : bytes;
  Provenance : list FactProvenance; Unresolved0420 : list UnresolvedControlFact }.

Inductive Outcome : Type := OutcomeSuccess | OutcomeAbapException | OutcomeAbapRuntime | OutcomeAbapMessage.
Inductive SuccessControl : Type := SuccessControlZero | SuccessControlNotApplicable.

Record Envelope : Type := mkEnvelope {
  env_Outcome : Outcome; env_SuccessControl : SuccessControl; env_Facts : RemoteErrorFacts }.

Record DecodeOptions : Type := mkDecodeOptions {
  MaxTextByteLength : option Z; MaxTotalTextByteLength : option Z;
  MaxControlByteLength : option Z; MaxTotalControlByteLength : option Z;
  MaxControlCount : option Z; MaxFieldCount : option Z;
  AdditionalAllowedTags : list Z }.

Definition protocolError (reasonCode : string) : error := ERfcerr (ProtocolError reasonCode).

Definition orInt (p : option Z) (d : Z) : Z := match p with Some v => v | None => d end.

Definition boundedInteger (value minimum maximum : Z) (field : string) : res unit :=
  guard ((value <? minimum) || (maximum <? value)) (ERfcerr (OptionRange field)).

(** ** Text facts

    The units of a text, or the first defect.  The length is even, so no index is out of
    range; a rest of one byte would be an index panic. *)
Fixpoint strict_units (value : bytes) : res (list Z) :=
  match value with
  | [] => Ok []
  | lo :: hi :: rest =>
      let unit := Z.lor (b2z lo) (uint16 (Z.shiftl (b2z hi) 8)) in
      if unit =? 0 then Err (protocolError "RFC_ERROR_ENVELOPE_EMBEDDED_NUL")
      else if (0xd800 <=? unit) && (unit <=? 0xdbff) then
        match rest with
        | [] => Err (protocolError "RFC_ERROR_ENVELOPE_UNPAIRED_SURROGATE")
        | lo2 :: hi2 :: rest =>
            let low := Z.lor (b2z lo2) (uint16 (Z.shiftl (b2z hi2) 8)) in
            if (low <? 0xdc00) || (0xdfff <? low) then Err (protocolError "RFC_ERROR_ENVELOPE_UNPAIRED_SURROGATE")
            else us ← strict_units rest; Ok (unit :: low :: us)
        | _ => Panic
        end
      else if (0xdc00 <=? unit) && (unit <=? 0xdfff) then Err (protocolError "RFC_ERROR_ENVELOPE_UNPAIRED_SURROGATE")
      else us ← strict_units rest; Ok (unit :: us)
  | _ => Panic
  end.

(** [strings.TrimRight(s, " ")] *)
Definition trim_right_spaces (s : bytes) : bytes :=
  rev (snd (span (fun b => bool_decide (b = x20)) (rev s))).

Definition decodeStrictUTF16LE (value : bytes) (maximumByteLength : Z) : res bytes :=
  if maximumByteLength <? zlen value then Err (protocolError "RFC_ERROR_ENVELOPE_TEXT_TOO_LARGE")
  else if negb (Z.land (zlen value) 1 =? 0) then Err (protocolError "RFC_ERROR_ENVELOPE_ODD_UTF16_LENGTH")
  else
    units ← strict_units value;
    Ok (trim_right_spaces (utf8_string (utf16_decode units))).

(** ** The facts seen so far *)
Record state : Type := mkState {
  values : gmap Z bytes;
  present : gset Z;
  provenance : list FactProvenance;
  unresolved0420 : list UnresolvedControlFact;
  totalTextByteLength : Z;
  totalControlByteLength : Z;
  controlCount : Z;
  sawUseClassExceptions : bool;
  sawSupplementalClassExceptionInfo : bool }.

Definition initial : state := mkState ∅ ∅ [] [] 0 0 0 false false.

(** [values[tag]], with Go's zero value for an absent key. *)
Definition value_of (values : gmap Z bytes) (tag : Z) : bytes := default [] (values !! tag).

Record limits : Type := mkLimits {
  maxTextByteLength : Z; maxTotalTextByteLength : Z; maxControlByteLength : Z;
  maxTotalControlByteLength : Z; maxControlCount : Z; maxFieldCount : Z }.

Definition hasNonEmptyFact (tags : list Z) (s : state) : bool :=
  existsb (fun tag => bool_decide (tag ∈ present s) && (0 <? zlen (value_of (values s) tag))) tags.

Definition hasCoherentMessageIdentity (s : state) : bool :=
  forallb (fun tag => bool_decide (tag ∈ present s) && negb (zlen (value_of (values s) tag) =? 0)) messageIdentityTags.

Definition hasAnyTag (tags : gset Z) (s : state) : bool :=
  existsb (fun tag => bool_decide (tag ∈ present s)) (elements tags).

(** The checks every control field passes, with its bytes and count added. *)
Definition count_control (l : limits) (value : bytes) (duplicate : bool) (s : state) : res state :=
  if maxControlCount l <=? controlCount s then Err (protocolError "RFC_ERROR_ENVELOPE_TOO_MANY_CONTROLS")
  else if duplicate then Err (protocolError "RFC_ERROR_ENVELOPE_DUPLICATE_FACT")
  else if maxControlByteLength l <? zlen value then Err (protocolError "RFC_ERROR_ENVELOPE_CONTROL_TOO_LARGE")
  else if maxTotalControlByteLength l - zlen value <? totalControlByteLength s
  then Err (protocolError "RFC_ERROR_ENVELOPE_TOTAL_CONTROL_TOO_LARGE")
  else Ok (mkState (values s) (present s) (provenance s) (unresolved0420 s) (totalTextByteLength s)
             (totalControlByteLength s + zlen value) (controlCount s + 1)
             (sawUseClassExceptions s) (sawSupplementalClassExceptionInfo s)).

Definition add_provenance (s : state) (tag ordinal : Z) (value : bytes) : list FactProvenance :=
  provenance s ++ [mkFactProvenance tag ordinal (zlen value)].

(** [hex.EncodeToString] *)
Definition hex_lower (value : bytes) : bytes :=
  let c d := if d <? 10 then z2b (0x30 + d) else z2b (0x57 + d) in
  value ≫= fun b => [c (b2z b / 16); c (b2z b mod 16)].

(** One field in front of the End field: the cases of the switch, in order. *)
Definition decode_field (l : limits) (allowedTags : gset Z) (ordinal : Z) (field : Field) (s : state) : res state :=
  let tag := Tag field in
  let value := Value field in
  if bool_decide (tag ∈ textTags) then
    if bool_decide (tag ∈ present s) then Err (protocolError "RFC_ERROR_ENVELOPE_DUPLICATE_FACT")
    else if maxTextByteLength l <? zlen value then Err (protocolError "RFC_ERROR_ENVELOPE_TEXT_TOO_LARGE")
    else if maxTotalTextByteLength l - zlen value <? totalTextByteLength s
    then Err (protocolError "RFC_ERROR_ENVELOPE_TOTAL_TEXT_TOO_LARGE")
    else
      decoded ← decodeStrictUTF16LE value (maxTextByteLength l);
      Ok (mkState (<[tag := decoded]> (values s)) ({[tag]} ∪ present s) (add_provenance s tag ordinal value)
            (unresolved0420 s) (totalTextByteLength s + zlen value) (totalControlByteLength s) (controlCount s)
            (sawUseClassExceptions s) (sawSupplementalClassExceptionInfo s))
  else if tag =? TagUnresolved0420 then
    s' ← count_control l value false s;
    Ok (mkState (values s') (present s') (add_provenance s tag ordinal value)
          (unresolved0420 s' ++ [mkUnresolvedControlFact TagUnresolved0420 ordinal (zlen value) (hex_lower value)])
          (totalTextByteLength s') (totalControlByteLength s') (controlCount s')
          (sawUseClassExceptions s') (sawSupplementalClassExceptionInfo s'))
  else if tag =? TagUseClassExceptions then
    s' ← count_control l value (sawUseClassExceptions s) s;
    Ok (mkState (values s') (present s') (add_provenance s tag ordinal value) (unresolved0420 s')
          (totalTextByteLength s') (totalControlByteLength s') (controlCount s')
          true (sawSupplementalClassExceptionInfo s'))
  else if tag =? TagClassExceptionInfo then
    s' ← count_control l value (sawSupplementalClassExceptionInfo s) s;
    Ok (mkState (values s') (present s') (add_provenance s tag ordinal value) (unresolved0420 s')
          (totalTextByteLength s') (totalControlByteLength s') (controlCount s')
          (sawUseClassExceptions s') true)
  else if bool_decide (tag ∈ classExceptionTags) then Err (protocolError "RFC_ERROR_ENVELOPE_CLASS_EXCEPTION_UNSUPPORTED")
  else if negb (bool_decide (tag ∈ allowedTags)) then Err (protocolError "RFC_ERROR_ENVELOPE_UNKNOWN_TAG")
  else Ok s.

Fixpoint decode_fields (l : limits) (allowedTags : gset Z) (ordinal : Z) (fields : list Field) (s : state) : res state :=
  match fields with
  | [] => Ok s
  | field :: fields =>
      s ← decode_field l allowedTags ordinal field s;
      decode_fields l allowedTags (ordinal + 1) fields s
  end.

(** The limits of the options, and their ranges. *)
Definition resolve_options (o : DecodeOptions) : res limits :=
  let l := mkLimits (orInt (MaxTextByteLength o) DefaultMaxTextByteLength)
             (orInt (MaxTotalTextByteLength o) DefaultMaxTotalTextByteLength)
             (orInt (MaxControlByteLength o) DefaultMaxControlByteLength)
             (orInt (MaxTotalControlByteLength o) DefaultMaxTotalControlByteLength)
             (orInt (MaxControlCount o) DefaultMaxControlCount)
             (orInt (MaxFieldCount o) DefaultMaxEnvelopeFieldCount) in
  boundedInteger (maxTextByteLength l) 0 0x7fffffff "maxTextByteLength";;
  boundedInteger (maxTotalTextByteLength l) 0 0x7fffffff "maxTotalTextByteLength";;
  boundedInteger (maxControlByteLength l) 0 0x7fffffff "maxControlByteLength";;
  boundedInteger (maxTotalControlByteLength l) 0 0x7fffffff "maxTotalControlByteLength";;
  boundedInteger (maxControlCount l) 0 0x7fffffff "maxControlCount";;
  boundedInteger (maxFieldCount l) 1 0x7fffffff "maxFieldCount";;
  Ok l.

(** The positions of the End fields. *)
Definition endIndices (fields : list Field) : list nat :=
  map fst (filter (fun p => Tag (snd p) = EndTag) (zip (seq 0 (length fields)) fields)).

(** The End field occurs once, last and empty; its index. *)
Definition end_index (fields : list Field) : res nat :=
  match endIndices fields with
  | [] => Err (protocolError "RFC_ERROR_ENVELOPE_MISSING_END")
  | endIndex :: more =>
      end_ ← go_index fields (Z.of_nat endIndex);
      if negb (bool_decide (more = [])) || negb (Z.of_nat endIndex =? zlen fields - 1) || negb (zlen (Value end_) =? 0)
      then Err (protocolError "RFC_ERROR_ENVELOPE_INVALID_END")
      else Ok endIndex
  end.

(** The outcome the facts add up to. *)
Definition classify (s : state) : res (Outcome * SuccessControl) :=
  if bool_decide (TagExceptionKey ∈ present s) then Ok (OutcomeAbapException, SuccessControlNotApplicable)
  else if bool_decide (TagRuntimeID ∈ present s) then Ok (OutcomeAbapRuntime, SuccessControlNotApplicable)
  else if hasNonEmptyFact messageTextTags s || hasCoherentMessageIdentity s
  then Ok (OutcomeAbapMessage, SuccessControlNotApplicable)
  else if hasAnyTag secondaryErrorTags s then Err (protocolError "RFC_ERROR_ENVELOPE_AMBIGUOUS_FACTS")
  else match unresolved0420 s with
       | [c] => if (uc_ByteLength c =? 4) && bytes_eqb (uc_ValueHex c) (lit "00000000")
                then Ok (OutcomeSuccess, SuccessControlZero)
                else Err (protocolError "RFC_ERROR_ENVELOPE_UNRESOLVED_SUCCESS_CONTROL")
       | _ => Err (protocolError "RFC_ERROR_ENVELOPE_UNRESOLVED_SUCCESS_CONTROL")
       end.

Definition facts_of (s : state) : RemoteErrorFacts :=
  let v := value_of (values s) in
  mkRemoteErrorFacts (v TagExceptionKey) (v TagErrorMessage) (v TagRuntimeID) (v TagT100Text)
    (v TagMessageClass) (v TagMessageType) (v TagMessageNumber)
    (v TagMessageV1) (v TagMessageV2) (v TagMessageV3) (v TagMessageV4) (v TagCallStack)
    (provenance s) (unresolved0420 s).

(** The checks on the discriminators, in order, then the classification. *)
Definition conclude (s : state) : res Envelope :=
  let has tag := bool_decide (tag ∈ present s) in
  if has TagExceptionKey && (zlen (value_of (values s) TagExceptionKey) =? 0)
  then Err (protocolError "RFC_ERROR_ENVELOPE_EMPTY_DISCRIMINATOR")
  else if has TagRuntimeID && (zlen (value_of (values s) TagRuntimeID) =? 0)
  then Err (protocolError "RFC_ERROR_ENVELOPE_EMPTY_DISCRIMINATOR")
  else if has TagExceptionKey && has TagRuntimeID
  then Err (protocolError "RFC_ERROR_ENVELOPE_CONFLICTING_DISCRIMINATORS")
  else if sawSupplementalClassExceptionInfo s && (negb (has TagExceptionKey) || sawUseClassExceptions s)
  then Err (protocolError "RFC_ERROR_ENVELOPE_CLASS_EXCEPTION_UNSUPPORTED")
  else
    o ← classify s;
    Ok (mkEnvelope (fst o) (snd o) (facts_of s)).

Definition Decode (fields : list Field) (options : DecodeOptions) : res Envelope :=
  l ← resolve_options options;
  let allowedTags := classicResponseDataTags ∪ list_to_set (AdditionalAllowedTags options) in
  if maxFieldCount l <? zlen fields then Err (protocolError "RFC_ERROR_ENVELOPE_TOO_MANY_FIELDS")
  else
    endIndex ← end_index fields;
    s ← decode_fields l allowedTags 0 (take endIndex fields) initial;
    conclude s.

#[local] Opaque textTags classExceptionTags secondaryErrorTags classicResponseDataTags.

(** ** Text *)
Lemma lor_unit lo hi : Z.lor (b2z lo) (uint16 (Z.shiftl (b2z hi) 8)) = b2z lo + b2z hi * 256.
Proof.
  pose proof (b2z_range lo). pose proof (b2z_range hi). unfold uint16.
  rewrite Z.shiftl_mul_pow2, Z.mod_small by lia. rewrite Z.lor_comm, <- Z.shiftl_mul_pow2, lor_shiftl8 by lia. lia.
Qed.

#[local] Ltac Zify.zify_post_hook ::= Z.div_mod_to_equations.

Lemma land_1 z : Z.land z 1 = z mod 2.
Proof. apply (Z.land_ones z 1). lia. Qed.

Lemma strict_units_total value : Z.land (zlen value) 1 = 0 -> total (strict_units value).
Proof.
  assert (forall n, (length value < n)%nat -> Z.land (zlen value) 1 = 0 -> total (strict_units value)) as Hg;
    [|by apply (Hg (S (length value))); lia].
  assert (forall k (l : bytes), Z.land (zlen (k :: l)) 1 = 0 -> Z.land (zlen l) 1 = 1) as Hodd.
  { intros k l. rewrite !land_1. unfold zlen. cbn [length]. lia. }
  assert (forall k (l : bytes), Z.land (zlen (k :: l)) 1 = 1 -> Z.land (zlen l) 1 = 0) as Heven.
  { intros k l. rewrite !land_1. unfold zlen. cbn [length]. lia. }
  intros n. revert value. induction n as [|n IH]; intros value Hn Hl; [lia|].
  destruct value as [|lo [|hi rest]]; [done| |].
  - by apply Hodd in Hl.
  - cbn [strict_units]. apply Hodd, Heven in Hl. cbn in Hn.
    assert (total (strict_units rest)) as Hr by (apply IH; [lia|done]).
    destruct (_ =? 0); [done|]. destruct (_ && _).
    + destruct rest as [|lo2 [|hi2 rest]]; [done|by apply Hodd in Hl|]. destruct (_ || _); [done|].
      assert (total (strict_units rest)) as Hr' by (apply IH; [cbn in *; lia|by apply Hodd, Heven in Hl]).
      by apply total_bind.
    + destruct (_ && _); [done|]. by apply total_bind.
Qed.

Lemma strict_text_total value max : total (decodeStrictUTF16LE value max).
Proof.
  unfold decodeStrictUTF16LE. destruct (_ <? _); [done|].
  destruct (Z.eqb_spec (Z.land (zlen value) 1) 0) as [E|]; cbn [negb]; [|done].
  by apply total_bind; [apply strict_units_total|].
Qed.

(** The units of a text without NUL are read as they are. *)
Lemma strict_units_encode rs :
  Forall is_scalar rs -> Forall (fun r => r <> 0) rs ->
  strict_units (units_bytes (utf16_encode rs)) = Ok (utf16_encode rs).
Proof.
  induction 1 as [|r rs Hr Hrs IH]; intros Hn; [done|]. apply Forall_cons in Hn as [Hn0 Hn]. specialize (IH Hn).
  change (utf16_encode (r :: rs)) with (utf16_encode_rune r ++ utf16_encode rs).
  unfold utf16_encode_rune. rewrite (proj2 (is_scalarb_spec r) Hr). unfold is_scalar, MaxRune in Hr.
  destruct (Z.ltb_spec r 0x10000) as [Hlt|Hge]; cbn [app].
  - change (units_bytes (r :: utf16_encode rs)) with (le_split 2 r ++ units_bytes (utf16_encode rs)).
    destruct (le_split_2 r) as (lo & hi & -> & Hu). cbn [app strict_units]. rewrite lor_unit, Hu by (unfold is_unit; lia).
    rewrite IH. case_tests; first [lia|done].
  - set (u := 0xd800 + (r - 0x10000) / 1024). set (v := 0xdc00 + (r - 0x10000) mod 1024).
    assert (0xd800 <= u <= 0xdbff /\ 0xdc00 <= v <= 0xdfff) as [Hu Hv].
    { subst u v. lia. }
    clearbody u v.
    change (units_bytes (u :: v :: utf16_encode rs)) with (le_split 2 u ++ le_split 2 v ++ units_bytes (utf16_encode rs)).
    destruct (le_split_2 u) as (lo & hi & -> & Eu). destruct (le_split_2 v) as (lo2 & hi2 & -> & Ev).
    cbn [app strict_units]. rewrite !lor_unit, Eu, Ev by (unfold is_unit; lia). rewrite IH.
    clear -Hu Hv. destruct (Z.eqb_spec u 0); [lia|].
    destruct (Z.leb_spec 0xd800 u); [|lia]. destruct (Z.leb_spec u 0xdbff); [|lia]. cbn [andb].
    destruct (Z.ltb_spec v 0xdc00); [lia|]. by destruct (Z.ltb_spec 0xdfff v); [lia|].
Qed.

(** A text sent as UTF-16LE is the fact, without the spaces at its end. *)
Lemma strict_text_roundtrip rs max :
  Forall is_scalar rs -> Forall (fun r => r <> 0) rs -> 2 * zlen (utf16_encode rs) <= max ->
  decodeStrictUTF16LE (units_bytes (utf16_encode rs)) max = Ok (trim_right_spaces (utf8_string rs)).
Proof.
  intros Hs Hn Hl. unfold decodeStrictUTF16LE.
  assert (zlen (units_bytes (utf16_encode rs)) = 2 * zlen (utf16_encode rs)) as Hz
    by (unfold zlen; rewrite length_units_bytes; lia).
  rewrite Hz. destruct (Z.ltb_spec max (2 * zlen (utf16_encode rs))); [lia|].
  assert (Z.land (2 * zlen (utf16_encode rs)) 1 = 0) as ->.
  { rewrite land_1. lia. }
  cbn [Z.eqb negb]. rewrite strict_units_encode by done. cbn [mbind outcome_bind]. by rewrite utf16_roundtrip.
Qed.

(** ** What the loop has seen *)
Definition with_tag (t : Z) (fs : list Field) : list Field := filter (fun f => Tag f = t) fs.

Record seen (max : Z) (allowed : gset Z) (fs : list Field) (s : state) : Prop := {
  seen_present t : t ∈ present s <-> t ∈ textTags /\ with_tag t fs <> [];
  seen_value t : t ∈ textTags ->
    match with_tag t fs with
    | [] => values s !! t = None
    | [f] => exists x, values s !! t = Some x /\ decodeStrictUTF16LE (Value f) max = Ok x
    | _ => False
    end;
  seen_control : Forall2 (fun c f => uc_ByteLength c = zlen (Value f) /\ uc_ValueHex c = hex_lower (Value f))
    (unresolved0420 s) (with_tag TagUnresolved0420 fs);
  seen_tags : Forall (fun f => Tag f ∈ textTags \/ Tag f ∈ [TagUnresolved0420; TagUseClassExceptions; TagClassExceptionInfo]
    \/ Tag f ∈ allowed) fs;
}.

Lemma with_tag_snoc t fs f : with_tag t (fs ++ [f]) = with_tag t fs ++ (if decide (Tag f = t) then [f] else []).
Proof. unfold with_tag. rewrite filter_app. f_equal. Qed.

Lemma seen_initial max allowed : seen max allowed [] initial.
Proof.
  split.
  - intros t. split; [by intros ?%not_elem_of_empty|by intros [_ ?]].
  - intros t _. apply lookup_empty.
  - constructor.
  - constructor.
Qed.

(** The three control fields change what they count, nothing else. *)
Lemma count_control_inv l value dup s s' :
  count_control l value dup s = Ok s' ->
  values s' = values s /\ present s' = present s /\ unresolved0420 s' = unresolved0420 s.
Proof.
  unfold count_control. destruct (_ <=? _); [done|]. destruct dup; [done|]. do 2 (destruct (_ <? _); [done|]).
  by intros [= <-].
Qed.

Lemma control_not_text t : t = TagUnresolved0420 \/ t = TagUseClassExceptions \/ t = TagClassExceptionInfo -> t ∉ textTags.
Proof. intros [->|[->| ->]]; apply (bool_decide_unpack _); by vm_compute. Qed.

(** A field that is no text and no 0x0420 control leaves the facts alone. *)
Lemma seen_other max allowed fs s s' f :
  seen max allowed fs s -> Tag f ∉ textTags -> Tag f <> TagUnresolved0420 ->
  Tag f ∈ [TagUnresolved0420; TagUseClassExceptions; TagClassExceptionInfo] \/ Tag f ∈ allowed ->
  values s' = values s -> present s' = present s -> unresolved0420 s' = unresolved0420 s ->
  seen max allowed (fs ++ [f]) s'.
Proof.
  intros [Hp Hv Hc Ht] Hn Hu Ha E1 E2 E3. split.
  - intros t. rewrite E2, Hp, with_tag_snoc. destruct (decide (Tag f = t)) as [<-|]; [|by rewrite app_nil_r].
    split; intros [? _]; by exfalso.
  - intros t Htx. rewrite E1, with_tag_snoc. destruct (decide (Tag f = t)) as [<-|]; [by exfalso|].
    rewrite app_nil_r. by apply Hv.
  - rewrite E3, with_tag_snoc, decide_False, app_nil_r by done. done.
  - apply Forall_app. split; [done|]. apply Forall_singleton. by right.
Qed.

Lemma seen_step l allowed ordinal f s s' fs :
  seen (maxTextByteLength l) allowed fs s -> decode_field l allowed ordinal f s = Ok s' ->
  seen (maxTextByteLength l) allowed (fs ++ [f]) s'.
Proof.
  intros Hs. unfold decode_field. cbv zeta.
  destruct (bool_decide (Tag f ∈ textTags)) eqn:Et; [apply bool_decide_eq_true in Et|apply bool_decide_eq_false in Et].
  { destruct (bool_decide (Tag f ∈ present s)) eqn:Ep; [done|apply bool_decide_eq_false in Ep].
    do 2 (destruct (_ <? _); [done|]).
    destruct (decodeStrictUTF16LE (Value f) (maxTextByteLength l)) as [x| |] eqn:Ed; [|done..]. intros [= <-].
    destruct Hs as [Hp Hv Hc Ht]. assert (with_tag (Tag f) fs = []) as Ew.
    { destruct (with_tag (Tag f) fs) eqn:E; [done|]. exfalso. apply Ep, Hp. by rewrite E. }
    split; cbn [present values unresolved0420].
    - intros t. rewrite elem_of_union, elem_of_singleton, Hp, with_tag_snoc.
      destruct (decide (Tag f = t)) as [<-|]; [|rewrite app_nil_r; split; [by intros [->|?]|by right]].
      split; [|by left]. intros _. split; [done|]. by destruct (with_tag (Tag f) fs).
    - intros t Htx. rewrite with_tag_snoc. destruct (decide (Tag f = t)) as [<-|Hne].
      + rewrite Ew. cbn [app]. exists x. by rewrite lookup_insert_eq.
      + rewrite app_nil_r, lookup_insert_ne by done. by apply Hv.
    - rewrite with_tag_snoc, decide_False, app_nil_r; [done|]. intros E. by apply (control_not_text (Tag f)); auto.
    - apply Forall_app. split; [done|]. apply Forall_singleton. by left. }
  destruct (Z.eqb_spec (Tag f) TagUnresolved0420) as [E0|E0].
  { destruct (count_control l (Value f) false s) as [s1| |] eqn:Ec; [|done..]. intros [= <-].
    apply count_control_inv in Ec as (E1 & E2 & E3). destruct Hs as [Hp Hv Hc Ht].
    split; cbn [present values unresolved0420].
    - intros t. rewrite E2, Hp, with_tag_snoc. destruct (decide (Tag f = t)) as [<-|]; [|by rewrite app_nil_r].
      split; intros [? _]; by exfalso.
    - intros t Htx. rewrite E1, with_tag_snoc. destruct (decide (Tag f = t)) as [<-|]; [by exfalso|].
      rewrite app_nil_r. by apply Hv.
    - rewrite E3, with_tag_snoc, decide_True by done. apply Forall2_app; [done|]. by repeat constructor.
    - apply Forall_app. split; [done|]. apply Forall_singleton. right. left. rewrite E0. by left. }
  assert (forall dup, (exists s1, count_control l (Value f) dup s = Ok s1 /\ values s' = values s1 /\ present s' = present s1 /\
    unresolved0420 s' = unresolved0420 s1) -> Tag f = TagUseClassExceptions \/ Tag f = TagClassExceptionInfo ->
    seen (maxTextByteLength l) allowed (fs ++ [f]) s') as Hctl.
  { intros dup (s1 & Ec & E1 & E2 & E3) Htag. apply count_control_inv in Ec as (F1 & F2 & F3).
    apply (seen_other _ _ _ s); try done; try congruence. left. destruct Htag as [->| ->]; [by right; left|by right; right; left]. }
  destruct (Z.eqb_spec (Tag f) TagUseClassExceptions) as [E1|E1].
  { destruct (count_control l (Value f) _ s) as [s1| |] eqn:Ec; [|done..]. intros [= <-].
    eapply Hctl; [by exists s1|auto]. }
  destruct (Z.eqb_spec (Tag f) TagClassExceptionInfo) as [E2|E2].
  { destruct (count_control l (Value f) _ s) as [s1| |] eqn:Ec; [|done..]. intros [= <-].
    eapply Hctl; [by exists s1|auto]. }
  destruct (bool_decide (Tag f ∈ classExceptionTags)); [done|].
  destruct (bool_decide (Tag f ∈ allowed)) eqn:Ea; cbn [negb]; [|done]. apply bool_decide_eq_true in Ea.
  intros [= <-]. apply (seen_other _ _ _ s); try done. by right.
Qed.

Lemma seen_fields l allowed fs ordinal pre s s' :
  seen (maxTextByteLength l) allowed pre s -> decode_fields l allowed ordinal fs s = Ok s' ->
  seen (maxTextByteLength l) allowed (pre ++ fs) s'.
Proof.
  revert ordinal pre s. induction fs as [|f fs IH]; intros ordinal pre s Hs; cbn [decode_fields].
  - intros [= <-]. by rewrite app_nil_r.
  - destruct (decode_field l allowed ordinal f s) as [s1| |] eqn:Ed; [|done..]. cbn [mbind outcome_bind]. intros H.
    rewrite (cons_middle f pre fs), app_assoc. eapply IH; [|exact H]. by eapply seen_step.
Qed.

(** ** The End field *)
Lemma end_indices_app fs f :
  endIndices (fs ++ [f]) = endIndices fs ++ (if decide (Tag f = EndTag) then [length fs] else []).
Proof.
  unfold endIndices. rewrite length_app, seq_app, zip_with_app by (by rewrite length_seq).
  rewrite filter_app, map_app. f_equal. cbn [seq length zip_with Nat.add].
  destruct (decide (Tag f = EndTag)); [rewrite filter_cons_True by done|rewrite filter_cons_False by done]; done.
Qed.

Lemma end_indices_nil fs : endIndices fs = [] -> Forall (fun f => Tag f <> EndTag) fs.
Proof.
  induction fs as [|f fs IH] using rev_ind; [constructor|]. rewrite end_indices_app. intros [H1 H2]%app_nil.
  apply Forall_app. split; [by apply IH|]. apply Forall_singleton. by destruct (decide (Tag f = EndTag)).
Qed.

Lemma end_indices_none fs : Forall (fun f => Tag f <> EndTag) fs -> endIndices fs = [].
Proof.
  induction fs as [|f fs IH] using rev_ind; [done|]. intros [H1 H2]%Forall_app.
  rewrite end_indices_app, IH by done. rewrite Forall_singleton in H2. by rewrite decide_False.
Qed.

Lemma end_indices_bound fs : Forall (fun i => (i < length fs)%nat) (endIndices fs).
Proof.
  induction fs as [|f fs IH] using rev_ind; [constructor|]. rewrite end_indices_app, length_app. apply Forall_app. split.
  - eapply Forall_impl; [exact IH|]. cbn. lia.
  - destruct (decide _); [|constructor]. apply Forall_singleton. cbn. lia.
Qed.

(** The End field is accepted exactly when it is the last one, the only one, and empty. *)
Lemma end_index_ok fs i :
  end_index fs = Ok i <-> exists body, fs = body ++ [mkField EndTag []] /\ i = length body /\ Forall (fun f => Tag f <> EndTag) body.
Proof.
  unfold end_index. split.
  - destruct fs as [|f body _] using rev_ind; [done|]. rewrite end_indices_app.
    pose proof (end_indices_bound body) as Hb.
    destruct (endIndices body) as [|j js] eqn:Ej; cbn [app].
    + destruct (decide (Tag f = EndTag)) as [Ef|]; [|done]. rewrite go_index_mid by done. cbn [mbind outcome_bind].
      rewrite bool_decide_eq_true_2 by done. cbn [negb orb].
      destruct (Z.eqb_spec (Z.of_nat (length body)) (zlen (body ++ [f]) - 1)) as [_|Hx]; [|exfalso; apply Hx; len_lia].
      destruct (Z.eqb_spec (zlen (Value f)) 0) as [Hz|]; cbn [negb orb]; [|done]. intros [= <-].
      exists body. split_and!; [|done|by apply end_indices_nil]. do 2 f_equal. destruct f as [t v]. cbn in *. subst t. f_equal.
      destruct v; [done|]. len_lia.
    + apply Forall_cons in Hb as [Hj _]. destruct (go_index_ok (E := error) (body ++ [f]) (Z.of_nat j)) as [e ->]; [len_lia|].
      cbn [mbind outcome_bind]. destruct (Z.eqb_spec (Z.of_nat j) (zlen (body ++ [f]) - 1)) as [Hx|]; [len_lia|].
      by rewrite orb_true_r.
  - intros (body & -> & -> & Hn). rewrite end_indices_app, end_indices_none, decide_True by done. cbn [app].
    rewrite go_index_mid by done. cbn [mbind outcome_bind]. rewrite bool_decide_eq_true_2 by done.
    destruct (Z.eqb_spec (Z.of_nat (length body)) (zlen (body ++ [mkField EndTag []]) - 1)) as [_|Hx]; [done|].
    exfalso. apply Hx. len_lia.
Qed.

Lemma end_index_total fs : total (end_index fs).
Proof.
  unfold end_index. pose proof (end_indices_bound fs) as Hb. destruct (endIndices fs) as [|j js]; [done|].
  apply Forall_cons in Hb as [Hj _]. destruct (go_index_ok (E := error) fs (Z.of_nat j)) as [e ->]; [len_lia|].
  cbn [mbind outcome_bind]. by destruct (_ || _).
Qed.

(** ** Totality *)
Lemma decode_field_total l allowed ordinal f s : total (decode_field l allowed ordinal f s).
Proof.
  assert (forall v d, total (count_control l v d s)) as Hc.
  { intros v d. unfold count_control. destruct (_ <=? _); [done|]. destruct d; [done|]. by do 2 (destruct (_ <? _); [done|]). }
  unfold decode_field. cbv zeta. destruct (bool_decide (Tag f ∈ textTags)).
  { destruct (bool_decide _); [done|]. do 2 (destruct (_ <? _); [done|]).
    by apply total_bind; [apply strict_text_total|]. }
  do 3 (destruct (_ =? _); [by apply total_bind; [apply Hc|]|]).
  destruct (bool_decide _); [done|]. by destruct (bool_decide _).
Qed.

Lemma decode_fields_total l allowed fs ordinal s : total (decode_fields l allowed ordinal fs s).
Proof.
  revert ordinal s. induction fs as [|f fs IH]; intros ordinal s; [done|]. cbn [decode_fields].
  apply total_bind; [apply decode_field_total|]. intros s' _. apply IH.
Qed.

Lemma conclude_total s : total (conclude s).
Proof.
  unfold conclude, classify. cbv zeta. do 4 (destruct (_ && _); [done|]).
  do 2 (destruct (bool_decide _); [done|]). destruct (_ || _); [done|]. destruct (hasAnyTag _ _); [done|].
  destruct (unresolved0420 s) as [|c [|]]; [done| |done]. by destruct (_ && _).
Qed.

Lemma bounded_cases v a b f :
  boundedInteger v a b f = Ok tt \/ boundedInteger v a b f = Err (ERfcerr (OptionRange f)).
Proof. unfold boundedInteger, guard. destruct (_ || _); auto. Qed.

Lemma options_total o : total (resolve_options o).
Proof.
  unfold resolve_options. cbv zeta.
  repeat (match goal with |- context [boundedInteger ?v ?a ?b ?f] =>
    destruct (bounded_cases v a b f) as [->| ->]; cbn [mbind outcome_bind]; [|done] end). done.
Qed.

(** ** The facts of an envelope *)
Definition fact_list (f : RemoteErrorFacts) : list (Z * bytes) :=
  [(TagExceptionKey, ExceptionKey f); (TagErrorMessage, PlainText f); (TagRuntimeID, RuntimeID f); (TagT100Text, T100Text f);
   (TagMessageV1, MessageV1 f); (TagMessageV2, MessageV2 f); (TagMessageV3, MessageV3 f); (TagMessageV4, MessageV4 f);
   (TagMessageClass, MessageClass f); (TagMessageType, MessageType f); (TagMessageNumber, MessageNumber f);
   (TagCallStack, CallStack f)].

(** A fact is the text of the one field with its tag, or empty without one. *)
Definition fact_of (max : Z) (body : list Field) (p : Z * bytes) : Prop :=
  match with_tag (fst p) body with
  | [] => snd p = []
  | [f] => decodeStrictUTF16LE (Value f) max = Ok (snd p)
  | _ => False
  end.

(** What each outcome says about the facts. *)
Definition outcome_of (body : list Field) (o : Outcome) (f : RemoteErrorFacts) : Prop :=
  match o with
  | OutcomeSuccess => Forall (fun g => Tag g ∉ textTags) body /\
      exists c, with_tag TagUnresolved0420 body = [c] /\ Value c = [x00; x00; x00; x00]
  | OutcomeAbapException => ExceptionKey f <> [] /\ with_tag TagRuntimeID body = []
  | OutcomeAbapRuntime => RuntimeID f <> [] /\ with_tag TagExceptionKey body = []
  | OutcomeAbapMessage => with_tag TagExceptionKey body = [] /\ with_tag TagRuntimeID body = [] /\
      (PlainText f <> [] \/ T100Text f <> [] \/ (MessageClass f <> [] /\ MessageType f <> [] /\ MessageNumber f <> []))
  end.

Lemma fact_list_values s : fact_list (facts_of s) = map (fun t => (t, value_of (values s) t)) (map fst (fact_list (facts_of s))).
Proof. reflexivity. Qed.

Lemma fact_tags s t : t ∈ map fst (fact_list (facts_of s)) <-> t ∈ textTags.
Proof.
  with_strategy transparent [textTags] (unfold textTags). rewrite elem_of_list_to_set.
  unfold fact_list, facts_of. cbn [map fst]. rewrite !elem_of_cons. tauto.
Qed.

Lemma seen_facts max allowed body s : seen max allowed body s -> Forall (fact_of max body) (fact_list (facts_of s)).
Proof.
  intros Hs. rewrite fact_list_values. apply Forall_map, Forall_forall. intros t Ht.
  apply fact_tags in Ht. unfold fact_of. cbn [fst snd].
  pose proof (seen_value _ _ _ _ Hs t Ht) as Hv. unfold value_of.
  destruct (with_tag t body) as [|f [|]]; [by rewrite Hv| |done]. by destruct Hv as (x & -> & Hx).
Qed.

(** Presence in the state is presence among the fields. *)
Lemma absent_with_tag max allowed body s t :
  seen max allowed body s -> t ∈ textTags -> t ∉ present s -> with_tag t body = [].
Proof.
  intros Hs Ht Hn. destruct (with_tag t body) eqn:E; [done|]. exfalso. apply Hn, (seen_present _ _ _ _ Hs). by rewrite E.
Qed.

Lemma text_split t : t ∈ textTags <-> t = TagExceptionKey \/ t = TagRuntimeID \/ t ∈ secondaryErrorTags.
Proof.
  with_strategy transparent [textTags] (unfold textTags). with_strategy transparent [secondaryErrorTags] (unfold secondaryErrorTags).
  rewrite !elem_of_list_to_set, !elem_of_cons. tauto.
Qed.

(** Eight zero characters are four zero bytes. *)
Lemma hex_zero v : zlen v = 4 -> hex_lower v = lit "00000000" -> v = [x00; x00; x00; x00].
Proof.
  assert (forall d, 0 <= d < 16 -> (if d <? 10 then z2b (0x30 + d) else z2b (0x57 + d)) = x30 -> d = 0) as Hc.
  { intros d Hd E%(f_equal b2z). change (b2z x30) with 0x30 in E.
    destruct (d <? 10); rewrite b2z_z2b_id in E by lia; lia. }
  assert (forall b, 0 <= b2z b / 16 < 16 /\ 0 <= b2z b mod 16 < 16) as Hn.
  { intros b. pose proof (b2z_range b). lia. }
  assert (forall b, b2z b / 16 = 0 -> b2z b mod 16 = 0 -> b = x00) as H0.
  { intros b E1 E2. apply b2z_inj. change (b2z x00) with 0. lia. }
  intros Hl Hh. destruct v as [|a [|b [|c [|d [|]]]]]; try (unfold zlen in Hl; cbn [length] in Hl; lia).
  unfold hex_lower in Hh. cbn [mbind list_bind app] in Hh. cbv zeta in Hh.
  change (lit "00000000") with [x30; x30; x30; x30; x30; x30; x30; x30] in Hh.
  injection Hh as E1 E2 E3 E4 E5 E6 E7 E8.
  repeat match goal with H : (if _ then _ else _) = x30 |- _ => apply Hc in H; [|apply Hn] end.
  f_equal; [by apply H0|]. f_equal; [by apply H0|]. f_equal; [by apply H0|]. f_equal. by apply H0.
Qed.

(** The classification, read off the fields. *)
Lemma classify_outcome max allowed body s o c :
  seen max allowed body s ->
  (TagExceptionKey ∈ present s -> ExceptionKey (facts_of s) <> []) -> (TagRuntimeID ∈ present s -> RuntimeID (facts_of s) <> []) ->
  ~ (TagExceptionKey ∈ present s /\ TagRuntimeID ∈ present s) ->
  classify s = Ok (o, c) -> outcome_of body o (facts_of s).
Proof.
  intros Hs Hk Hr Hkr. unfold classify.
  assert (TagExceptionKey ∈ textTags /\ TagRuntimeID ∈ textTags) as [Tk Tr] by (split; apply text_split; auto).
  destruct (bool_decide (TagExceptionKey ∈ present s)) eqn:Ek;
    [apply bool_decide_eq_true in Ek|apply bool_decide_eq_false in Ek; pose proof (absent_with_tag _ _ _ _ _ Hs Tk Ek) as Ak].
  { intros [= <- <-]. split; [by apply Hk|]. apply (absent_with_tag _ _ _ _ _ Hs Tr). intros Er. by apply Hkr. }
  destruct (bool_decide (TagRuntimeID ∈ present s)) eqn:Er;
    [apply bool_decide_eq_true in Er|apply bool_decide_eq_false in Er; pose proof (absent_with_tag _ _ _ _ _ Hs Tr Er) as Ar].
  { intros [= <- <-]. split; [by apply Hr|done]. }
  destruct (hasNonEmptyFact messageTextTags s) eqn:E1; cbn [orb].
  { intros [= <- <-]. split_and!; [done|done|]. unfold hasNonEmptyFact, messageTextTags in E1. cbn [existsb] in E1.
    apply orb_true_iff in E1 as [E1|E1]; [left|right; left]; [|rewrite orb_false_r in E1];
      apply andb_true_iff in E1 as [_ E1%Z.ltb_lt]; cbn [facts_of PlainText T100Text]; intros E; rewrite E in E1; by cbn in E1. }
  destruct (hasCoherentMessageIdentity s) eqn:E2.
  { intros [= <- <-]. split_and!; [done|done|]. unfold hasCoherentMessageIdentity, messageIdentityTags in E2. cbn [forallb] in E2.
    rewrite !andb_true_iff, !negb_true_iff, !Z.eqb_neq in E2. destruct E2 as ([_ H1] & [_ H2] & [_ H3] & _). right. right.
    cbn [facts_of MessageClass MessageType MessageNumber]. split_and!; intros E; first [rewrite E in H1; by apply H1|rewrite E in H2; by apply H2|rewrite E in H3; by apply H3]. }
  destruct (hasAnyTag secondaryErrorTags s) eqn:E3; [done|].
  pose proof (seen_control _ _ _ _ Hs) as Hc. destruct (unresolved0420 s) as [|u [|]]; [done| |done].
  destruct (_ && _) eqn:E4; [|done]. intros [= <- <-]. apply andb_true_iff in E4 as [E4%Z.eqb_eq E5%bytes_eqb_eq].
  inversion Hc as [|? f ? fs [H1 H2] H3 Hu Hf]; subst. inversion H3; subst. split.
  - apply Forall_forall. intros g Hg Ht. assert (with_tag (Tag g) body <> []) as Hw.
    { intros E. assert (g ∈ with_tag (Tag g) body) as Hin by (apply list_elem_of_filter; done). rewrite E in Hin. by apply not_elem_of_nil in Hin. }
    apply text_split in Ht as [Et|[Et|Et]]; [rewrite Et in Hw; done|rewrite Et in Hw; done|].
    enough (hasAnyTag secondaryErrorTags s = true) by congruence. unfold hasAnyTag. apply existsb_exists. exists (Tag g). split.
    + apply list_elem_of_In, elem_of_elements. done.
    + apply bool_decide_eq_true, (seen_present _ _ _ _ Hs). split; [by apply text_split; auto|done].
  - exists f. split; [done|]. apply hex_zero; [lia|congruence].
Qed.

(** The accepted state satisfies the conditions on its discriminators. *)
Lemma conclude_inv max allowed body s env :
  seen max allowed body s -> conclude s = Ok env ->
  env_Facts env = facts_of s /\ outcome_of body (env_Outcome env) (facts_of s).
Proof.
  intros Hs. unfold conclude. cbv zeta.
  match goal with |- (if ?c then _ else _) = _ -> _ => destruct c eqn:E1; [discriminate|] end.
  match goal with |- (if ?c then _ else _) = _ -> _ => destruct c eqn:E2; [discriminate|] end.
  match goal with |- (if ?c then _ else _) = _ -> _ => destruct c eqn:E3; [discriminate|] end.
  match goal with |- (if ?c then _ else _) = _ -> _ => destruct c; [discriminate|] end.
  destruct (classify s) as [[o c]| |] eqn:Ec; [|done..]. cbn [mbind outcome_bind]. intros [= <-]. cbn [env_Facts env_Outcome fst snd].
  split; [done|]. apply (classify_outcome max allowed body s o c); try done.
  - intros H. rewrite bool_decide_eq_true_2 in E1 by done. cbn [andb] in E1. apply Z.eqb_neq in E1.
    cbn [facts_of ExceptionKey]. intros E. apply E1. by rewrite E.
  - intros H. rewrite bool_decide_eq_true_2 in E2 by done. cbn [andb] in E2. apply Z.eqb_neq in E2.
    cbn [facts_of RuntimeID]. intros E. apply E2. by rewrite E.
  - intros [H1 H2]. by rewrite !bool_decide_eq_true_2 in E3 by done.
Qed.

Lemma options_limits o l :
  resolve_options o = Ok l -> maxTextByteLength l = orInt (MaxTextByteLength o) DefaultMaxTextByteLength.
Proof.
  unfold resolve_options. cbv zeta.
  repeat (match goal with |- context [boundedInteger ?v ?a ?b ?f] =>
    destruct (bounded_cases v a b f) as [E|E]; rewrite E; clear E; cbn [mbind outcome_bind]; [|discriminate] end).
  intros H%Ok_inj. by subst l.
Qed.

Lemma decode_total fields o : total (Decode fields o).
Proof.
  unfold Decode. apply total_bind; [apply options_total|]. intros l _. destruct (_ <? zlen fields); [done|].
  apply total_bind; [apply end_index_total|]. intros i _. apply total_bind; [apply decode_fields_total|].
  intros s _. apply conclude_total.
Qed.

Lemma decode_facts fields o env :
  Decode fields o = Ok env ->
  exists body, fields = body ++ [mkField EndTag []] /\ Forall (fun f => Tag f <> EndTag) body /\
    Forall (fact_of (orInt (MaxTextByteLength o) DefaultMaxTextByteLength) body) (fact_list (env_Facts env)) /\
    outcome_of body (env_Outcome env) (env_Facts env).
Proof.
  unfold Decode. intros He. ok_step He as l El. rewrite <- (options_limits o l El).
  destruct (_ <? zlen fields); [done|]. ok_step He as i Ei.
  apply end_index_ok in Ei as (body & -> & -> & Hn). rewrite take_app_length in He. ok_step He as s Es.
  pose proof (seen_fields l _ body 0 [] initial s (seen_initial _ _) Es) as Hs. cbn [app] in Hs.
  destruct (conclude_inv _ _ _ _ _ Hs He) as [-> Hout]. exists body. split_and!; try done. by eapply seen_facts.
Qed.

(** Decoding a response envelope never panics, and an accepted one ends with its only end
    tag, every reported fact is the text of a field of the body within the limit, and the
    outcome is the one the body's tags determine. *)
Theorem envelope_sound fields o :
  total (Decode fields o) /\
  forall env, Decode fields o = Ok env ->
    exists body, fields = body ++ [mkField EndTag []] /\ Forall (fun f => Tag f <> EndTag) body /\
      Forall (fact_of (orInt (MaxTextByteLength o) DefaultMaxTextByteLength) body) (fact_list (env_Facts env)) /\
      outcome_of body (env_Outcome env) (env_Facts env).
Proof. split; [apply decode_total|apply decode_facts]. Qed.

(** ** Success is recognised *)
Lemma decode_fields_data l allowed body ordinal s :
  Forall (fun f => (Tag f ∉ textTags) /\ (Tag f ∉ classExceptionTags) /\ (Tag f ∈ allowed) /\
    Tag f ∉ [TagUnresolved0420; TagUseClassExceptions; TagClassExceptionInfo]) body ->
  decode_fields l allowed ordinal body s = Ok s.
Proof.
  intros H. revert ordinal. induction H as [|f body (H1 & H2 & H3 & H4) _ IH]; intros ordinal; [done|]. cbn [decode_fields].
  unfold decode_field. cbv zeta. rewrite bool_decide_eq_false_2 by done.
  rewrite !not_elem_of_cons in H4. destruct H4 as (N1 & N2 & N3 & _).
  rewrite (proj2 (Z.eqb_neq _ _) N1), (proj2 (Z.eqb_neq _ _) N2), (proj2 (Z.eqb_neq _ _) N3).
  rewrite bool_decide_eq_false_2, bool_decide_eq_true_2 by done. cbn [negb mbind outcome_bind]. apply IH.
Qed.

Lemma decode_fields_app l allowed fs gs ordinal s :
  decode_fields l allowed ordinal (fs ++ gs) s
  = (s' ← decode_fields l allowed ordinal fs s; decode_fields l allowed (ordinal + zlen fs) gs s').
Proof.
  revert ordinal s. induction fs as [|f fs IH]; intros ordinal s; cbn [app decode_fields mbind outcome_bind].
  - change (zlen (@nil Field)) with 0. by rewrite Z.add_0_r.
  - destruct (decode_field l allowed ordinal f s) as [s1| |]; [|done..]. cbn [mbind outcome_bind]. rewrite IH.
    replace (ordinal + 1 + zlen fs) with (ordinal + zlen (f :: fs)); [done|]. unfold zlen. cbn [length]. lia.
Qed.

(** A data field: a tag of the classic response, or one the caller allows. *)
Definition data_field (extra : list Z) (f : Field) : Prop :=
  (Tag f ∉ textTags) /\ (Tag f ∉ classExceptionTags) /\ Tag f <> EndTag /\
  (Tag f ∉ [TagUnresolved0420; TagUseClassExceptions; TagClassExceptionInfo]) /\
  Tag f ∈ classicResponseDataTags ∪ list_to_set extra.

Definition default_options (maxFieldCount : option Z) (extra : list Z) : DecodeOptions :=
  mkDecodeOptions None None None None None maxFieldCount extra.

(** The zero control in the first place. *)
Lemma ctl_step l allowed ordinal :
  0 < maxControlCount l -> 4 <= maxControlByteLength l -> 4 <= maxTotalControlByteLength l ->
  decode_fields l allowed ordinal [mkField TagUnresolved0420 [x00; x00; x00; x00]] initial
  = Ok (mkState ∅ ∅ [mkFactProvenance TagUnresolved0420 ordinal 4]
          [mkUnresolvedControlFact TagUnresolved0420 ordinal 4 (lit "00000000")] 0 4 1 false false).
Proof.
  intros H1 H2 H3. cbn [decode_fields]. unfold decode_field. cbv zeta. cbn [Tag Value].
  rewrite bool_decide_eq_false_2 by (apply control_not_text; by left). rewrite Z.eqb_refl.
  unfold count_control. cbn [controlCount totalControlByteLength initial].
  change (zlen [x00; x00; x00; x00]) with 4.
  destruct (Z.leb_spec (maxControlCount l) 0); [lia|]. destruct (Z.ltb_spec (maxControlByteLength l) 4); [lia|].
  by destruct (Z.ltb_spec (maxTotalControlByteLength l - 4) 0); [lia|].
Qed.

Lemma resolve_default count extra :
  1 <= count <= 0x7fffffff ->
  resolve_options (default_options (Some count) extra)
  = Ok (mkLimits DefaultMaxTextByteLength DefaultMaxTotalTextByteLength DefaultMaxControlByteLength
          DefaultMaxTotalControlByteLength DefaultMaxControlCount count).
Proof.
  intros H. unfold resolve_options, default_options. cbv zeta.
  cbn [orInt MaxTextByteLength MaxTotalTextByteLength MaxControlByteLength MaxTotalControlByteLength MaxControlCount MaxFieldCount
       maxTextByteLength maxTotalTextByteLength maxControlByteLength maxTotalControlByteLength maxControlCount maxFieldCount].
  assert (boundedInteger count 1 0x7fffffff "maxFieldCount" = Ok tt) as ->; [|reflexivity].
  unfold boundedInteger, guard. destruct (Z.ltb_spec count 1); [lia|]. by destruct (Z.ltb_spec 0x7fffffff count); [lia|].
Qed.

Lemma decode_success before after extra count :
  Forall (data_field extra) before -> Forall (data_field extra) after ->
  1 <= count <= 0x7fffffff -> zlen before + zlen after + 2 <= count ->
  exists env,
    Decode (before ++ [mkField TagUnresolved0420 [x00; x00; x00; x00]] ++ after ++ [mkField EndTag []])
      (default_options (Some count) extra) = Ok env /\
    env_Outcome env = OutcomeSuccess /\ env_SuccessControl env = SuccessControlZero /\
    Unresolved0420 (env_Facts env) = [mkUnresolvedControlFact TagUnresolved0420 (zlen before) 4 (lit "00000000")].
Proof.
  intros Hb Ha Hc Hl. unfold Decode. rewrite resolve_default by done. cbn [mbind outcome_bind maxFieldCount].
  set (ctl := mkField TagUnresolved0420 [x00; x00; x00; x00]).
  assert (end_index (before ++ [ctl] ++ after ++ [mkField EndTag []]) = Ok (length (before ++ [ctl] ++ after))) as He.
  { apply end_index_ok. exists (before ++ [ctl] ++ after). split_and!; [by rewrite <- !app_assoc|done|].
    apply Forall_app. split; [eapply Forall_impl; [exact Hb|]; by intros f (_ & _ & ? & _)|].
    apply Forall_cons. split; [by vm_compute|]. eapply Forall_impl; [exact Ha|]. by intros f (_ & _ & ? & _). }
  rewrite He. cbn [mbind outcome_bind AdditionalAllowedTags default_options].
  assert (zlen (before ++ [ctl] ++ after ++ [mkField EndTag []]) = zlen before + zlen after + 2) as Hz by len_lia.
  rewrite Hz. destruct (Z.ltb_spec count (zlen before + zlen after + 2)); [lia|].
  assert (take (length (before ++ [ctl] ++ after)) (before ++ [ctl] ++ after ++ [mkField EndTag []]) = before ++ [ctl] ++ after) as ->.
  { replace (before ++ [ctl] ++ after ++ [mkField EndTag []]) with ((before ++ [ctl] ++ after) ++ [mkField EndTag []])
      by by rewrite <- !app_assoc.
    apply take_app_length. }
  assert (forall fs, Forall (data_field extra) fs -> Forall (fun f => (Tag f ∉ textTags) /\ (Tag f ∉ classExceptionTags) /\
    (Tag f ∈ classicResponseDataTags ∪ list_to_set extra) /\
    Tag f ∉ [TagUnresolved0420; TagUseClassExceptions; TagClassExceptionInfo]) fs) as Hd.
  { intros fs Hfs. eapply Forall_impl; [exact Hfs|]. by intros f (? & ? & _ & ? & ?). }
  rewrite decode_fields_app, decode_fields_data by (by apply Hd). cbn [mbind outcome_bind].
  change (ctl :: after) with ([ctl] ++ after). rewrite decode_fields_app, ctl_step by (by vm_compute). cbn [mbind outcome_bind]. rewrite decode_fields_data by (by apply Hd).
  cbn [mbind outcome_bind]. eexists. split; [vm_compute; reflexivity|]. split_and!; reflexivity.
Qed.

(** A response with an exception key alone is that exception. *)
Lemma decode_exception v key extra count :
  decodeStrictUTF16LE v DefaultMaxTextByteLength = Ok key -> key <> [] -> 2 <= count <= 0x7fffffff ->
  exists env,
    Decode [mkField TagExceptionKey v; mkField EndTag []] (default_options (Some count) extra) = Ok env /\
    env_Outcome env = OutcomeAbapException /\ ExceptionKey (env_Facts env) = key.
Proof.
  intros Hv Hk Hc. unfold Decode. rewrite resolve_default by lia. cbn [mbind outcome_bind maxFieldCount].
  change (zlen [mkField TagExceptionKey v; mkField EndTag []]) with 2. destruct (Z.ltb_spec count 2); [lia|].
  assert (end_index [mkField TagExceptionKey v; mkField EndTag []] = Ok 1%nat) as -> by reflexivity.
  cbn [mbind outcome_bind take AdditionalAllowedTags default_options decode_fields].
  assert (zlen v <= DefaultMaxTextByteLength) as Hl.
  { unfold decodeStrictUTF16LE in Hv. destruct (Z.ltb_spec DefaultMaxTextByteLength (zlen v)); [done|lia]. }
  unfold decode_field. cbv zeta. cbn [Tag Value].
  rewrite (bool_decide_eq_true_2 (TagExceptionKey ∈ textTags)) by (apply text_split; by left).
  rewrite (bool_decide_eq_false_2 (TagExceptionKey ∈ present initial)) by (apply not_elem_of_empty).
  cbn [maxTextByteLength maxTotalTextByteLength totalTextByteLength initial].
  destruct (Z.ltb_spec DefaultMaxTextByteLength (zlen v)); [lia|].
  destruct (Z.ltb_spec (DefaultMaxTotalTextByteLength - zlen v) 0);
    [unfold DefaultMaxTotalTextByteLength, DefaultMaxTextByteLength in *; lia|].
  rewrite Hv. cbn [mbind outcome_bind]. unfold conclude, classify. cbv zeta.
  cbn [present values sawSupplementalClassExceptionInfo].
  rewrite (bool_decide_eq_true_2 (TagExceptionKey ∈ _)) by (apply elem_of_union_l, elem_of_singleton; done).
  rewrite (bool_decide_eq_false_2 (TagRuntimeID ∈ _))
    by (rewrite elem_of_union, elem_of_singleton; intros [?|?%elem_of_empty]; done).
  assert (forall m : gmap Z bytes, value_of (<[TagExceptionKey := key]> m) TagExceptionKey = key) as Hval
    by (intros m; unfold value_of; by rewrite lookup_insert_eq).
  rewrite Hval. cbn [andb].
  assert ((zlen key =? 0) = false) as -> by (apply Z.eqb_neq; destruct key; [done|len_lia]).
  cbn [andb mbind outcome_bind fst snd]. eexists. split; [reflexivity|]. split; [done|]. apply Hval.
Qed.

(** A body of data fields around a zero success control, within the field limit, is decoded
    as a success. *)
Theorem envelope_success before after extra count :
  Forall (data_field extra) before -> Forall (data_field extra) after ->
  1 <= count <= 0x7fffffff -> zlen before + zlen after + 2 <= count ->
  exists env,
    Decode (before ++ [mkField TagUnresolved0420 [x00; x00; x00; x00]] ++ after ++ [mkField EndTag []])
      (default_options (Some count) extra) = Ok env /\
    env_Outcome env = OutcomeSuccess /\ env_SuccessControl env = SuccessControlZero.
Proof. intros Hb Ha Hc Hl. destruct (decode_success before after extra count Hb Ha Hc Hl) as (env & ? & ? & ? & _). by exists env. Qed.

(** ** Instances *)
Lemma envelope_success_witness :
  exists env, Decode [mkField 0x0503 []; mkField TagUnresolved0420 [x00; x00; x00; x00]; mkField 0x0201 [x41; x00]; mkField EndTag []]
      (default_options (Some 16) []) = Ok env /\ env_Outcome env = OutcomeSuccess.
Proof.
  destruct (envelope_success [mkField 0x0503 []] [mkField 0x0201 [x41; x00]] [] 16) as (env & H1 & H2 & _).
  - apply Forall_singleton. repeat split; apply (bool_decide_unpack _); vm_compute; reflexivity.
  - apply Forall_singleton. repeat split; apply (bool_decide_unpack _); vm_compute; reflexivity.
  - lia.
  - vm_compute. discriminate.
  - exists env. split; [exact H1|exact H2].
Defined.
