(* ===== verification/Bxml.v ===== *)
(** Package [bxml], internal/bxml/bxml.go and encode.go: SAP Binary XML 0.7.

    A document is a magic and a stream of tokens with a name table that both sides build as
    they go.  The reader's position [i] in the document is given by what is left of it,
    [doc[i:]]: an index [doc[i+k]] is then [go_index rest k], with its panic, and [i += k] is
    [go_from rest k].  The reader's stack of pointers is a stack of open elements: an element
    joins its parent's children when it closes, which gives the same tree, since nothing reads
    the tree before the end.

    The theorems: the reader is total; a length is read back modulo 2^21; a document is
    written exactly when it has few enough names; and the payload of a written document
    reads back, in the normal form the writer keeps. *)
From stdpp Require Import base list numbers strings gmap.
From Stdlib Require Import ZArith Lia Strings.Byte.
From S2P Require Import Prelude Errors.

Open Scope Z_scope.

Definition errBXML : error := EBxml ErrBXML.

Definition magic : bytes := lit "BXML".
Definition tokHeader : byte := x3f.
Definition tokName : byte := x2b.
Definition tokOpen : byte := x3c.
Definition tokClose : byte := x3e.
Definition tokAttr : byte := x40.
Definition tokAttrVal : byte := x41.
Definition tokBind : byte := x3a.
Definition tokXmlns : byte := x2a.
Definition tokText : byte := x54.
Definition tokBody : byte := x42.
Definition tokString : byte := x43.
Definition nameRefBias : Z := 2.

Record Attr : Type := mkAttr { a_Name : bytes; a_Value : bytes }.

#[local] Set Warnings "-register-all".

Inductive Element : Type := mkElement {
  Name : bytes;
  Attrs : list Attr;
  Children : list Element;
  Text : bytes;
  HasText : bool;
  Body : bytes;
  HasBody : bool }.

(** A method of a pointer receiver that may be nil. *)
Definition Child (e : option Element) (name : bytes) : option Element :=
  match e with None => None | Some e => List.find (fun c => bytes_eqb (Name c) name) (Children e) end.

Definition ChildText (e : option Element) (name : bytes) : bytes :=
  match Child e name with Some c => Text c | None => [] end.

(** ** Lengths and strings *)
Definition readLength (rest : bytes) : res (Z * bytes) :=
  if zlen rest <=? 0 then Err errBXML
  else
    b0 ← go_index rest 0;
    let c := b2z b0 in
    if c <? 0x80 then
      tail ← go_from rest 1; Ok (c, tail)
    else if c <? 0xe0 then
      if zlen rest <=? 1 then Err errBXML
      else
        b1 ← go_index rest 1;
        tail ← go_from rest 2;
        Ok (Z.lor (Z.shiftl (Z.land c 0x1f) 6) (Z.land (b2z b1) 0x3f), tail)
    else if c <? 0xf0 then
      if zlen rest <=? 2 then Err errBXML
      else
        b1 ← go_index rest 1;
        b2 ← go_index rest 2;
        tail ← go_from rest 3;
        Ok (Z.lor (Z.lor (Z.shiftl (Z.land c 0x0f) 12) (Z.shiftl (Z.land (b2z b1) 0x3f) 6)) (Z.land (b2z b2) 0x3f), tail)
    else
      if zlen rest <=? 3 then Err errBXML
      else
        b1 ← go_index rest 1;
        b2 ← go_index rest 2;
        b3 ← go_index rest 3;
        tail ← go_from rest 4;
        Ok (Z.lor (Z.lor (Z.lor (Z.shiftl (Z.land c 0x07) 18) (Z.shiftl (Z.land (b2z b1) 0x3f) 12))
                         (Z.shiftl (Z.land (b2z b2) 0x3f) 6)) (Z.land (b2z b3) 0x3f), tail).

Definition writeLength (out : bytes) (n : Z) : bytes :=
  let low k := z2b (Z.lor 0x80 (Z.land (Z.shiftr n k) 0x3f)) in
  if n <? 0x80 then out ++ [z2b n]
  else if n <? 0x800 then out ++ [z2b (Z.lor 0xc0 (Z.shiftr n 6)); low 0]
  else if n <? 0x10000 then out ++ [z2b (Z.lor 0xe0 (Z.shiftr n 12)); low 6; low 0]
  else out ++ [z2b (Z.lor 0xf0 (Z.shiftr n 18)); low 12; low 6; low 0].

Definition readString (rest : bytes) : res (bytes * bytes) :=
  '(n, rest) ← readLength rest;
  if zlen rest <? n then Err errBXML
  else
    s ← go_slice rest 0 n;
    tail ← go_from rest n;
    Ok (s, tail).

(** ** The reader *)
Record state : Type := mkState { names : list bytes; stack : list Element; rest : bytes }.

Definition nameByRef (names : list bytes) (ref : Z) : res bytes :=
  let idx := ref - nameRefBias in
  if (idx <? 0) || (zlen names <=? idx) then Err errBXML else go_index names idx.

Definition empty_element (name : bytes) : Element := mkElement name [] [] [] false [] false.
Definition add_attr (a : Attr) (e : Element) : Element :=
  mkElement (Name e) (Attrs e ++ [a]) (Children e) (Text e) (HasText e) (Body e) (HasBody e).
Definition add_child (c e : Element) : Element :=
  mkElement (Name e) (Attrs e) (Children e ++ [c]) (Text e) (HasText e) (Body e) (HasBody e).
Definition set_text (s : bytes) (e : Element) : Element :=
  mkElement (Name e) (Attrs e) (Children e) s true (Body e) (HasBody e).
Definition set_body (s : bytes) (e : Element) : Element :=
  mkElement (Name e) (Attrs e) (Children e) (Text e) (HasText e) s true.

(** [top()], updated; the innermost open element is first. *)
Definition on_top (f : Element -> Element) (stack : list Element) : res (list Element) :=
  match stack with [] => Panic | e :: stack => Ok (f e :: stack) end.

(** One round of the loop. *)
Definition step (st : state) : res state :=
  let '(mkState names stack rest) := st in
  tok ← go_index rest 0;
  if bool_decide (tok = tokHeader) then
    after ← go_from rest 1;
    '(_, after) ← readString after;
    '(_, after) ← readString after;
    Ok (mkState names stack after)
  else if bool_decide (tok = tokName) then
    after ← go_from rest 1;
    '(s, after) ← readString after;
    Ok (mkState (names ++ [s]) stack after)
  else if bool_decide (tok = tokOpen) then
    if zlen rest <=? 2 then Err errBXML
    else
      b ← go_index rest 1;
      name ← nameByRef names (b2z b);
      after ← go_from rest 3;
      Ok (mkState names (empty_element name :: stack) after)
  else if bool_decide (tok = tokClose) then
    match stack with
    | e :: parent :: stack => after ← go_from rest 1; Ok (mkState names (add_child e parent :: stack) after)
    | _ => Err errBXML
    end
  else if bool_decide (tok = tokAttr) then
    if zlen rest <=? 2 then Err errBXML
    else
      b ← go_index rest 1;
      name ← nameByRef names (b2z b);
      v ← (if zlen rest <=? 3 then Ok false else t ← go_index rest 3; Ok (bool_decide (t = tokAttrVal)));
      if negb v then Err errBXML
      else
        after ← go_from rest 4;
        '(v, after) ← readString after;
        stack ← on_top (add_attr (mkAttr name v)) stack;
        Ok (mkState names stack after)
  else if bool_decide (tok = tokAttrVal) then
    after ← go_from rest 1;
    '(_, after) ← readString after;
    Ok (mkState names stack after)
  else if bool_decide (tok = tokBind) then
    if zlen rest <=? 2 then Err errBXML else after ← go_from rest 3; Ok (mkState names stack after)
  else if bool_decide (tok = tokXmlns) then
    if zlen rest <=? 1 then Err errBXML else after ← go_from rest 2; Ok (mkState names stack after)
  else if bool_decide (tok = tokText) || bool_decide (tok = tokString) then
    after ← go_from rest 1;
    '(s, after) ← readString after;
    stack ← on_top (set_text s) stack;
    Ok (mkState names stack after)
  else if bool_decide (tok = tokBody) then
    after ← go_from rest 1;
    '(s, after) ← readString after;
    stack ← on_top (set_body s) stack;
    Ok (mkState names stack after)
  else Err errBXML.

Fixpoint decode_loop (fuel : nat) (st : state) : res state :=
  match fuel with
  | O => Err EFuel
  | S fuel => if zlen (rest st) <=? 0 then Ok st else st ← step st; decode_loop fuel st
  end.

(** What is left on the stack at the end. *)
Definition finish (st : state) : res Element :=
  match stack st with [root] => Ok root | _ => Err errBXML end.

Definition Decode (doc : bytes) : res Element :=
  if negb (bytes_eqb (take (length magic) doc) magic) then Err errBXML
  else
    after ← go_from doc (zlen magic);
    st ← decode_loop (S (length doc)) (mkState [] [empty_element (lit "#document")] after);
    finish st.

Definition PayloadRoot (document : Element) : res Element :=
  let abap := match Child (Some document) (lit "abap") with Some e => Some e | None => head (Children document) end in
  let values := match Child abap (lit "values") with
                | Some e => Some e
                | None => match abap with Some e => head (Children e) | None => None end
                end in
  match values with
  | None => Err errBXML
  | Some values => match Children values with [] => Err errBXML | c :: _ => Ok c end
  end.

(** ** The writer *)
Record encoder : Type := mkEncoder { out : bytes; e_names : gmap bytes Z; count : Z }.

Definition emit (b : bytes) (e : encoder) : encoder := mkEncoder (out e ++ b) (e_names e) (count e).

Definition ref (name : bytes) (e : encoder) : Z * encoder :=
  match e_names e !! name with
  | Some idx => (idx + nameRefBias, e)
  | None =>
      let idx := count e in
      let o := out e ++ [tokName] in
      let o := writeLength o (zlen name) in
      (idx + nameRefBias, mkEncoder (o ++ name) (<[name := idx]> (e_names e)) (count e + 1))
  end.

Definition header (key value : bytes) (e : encoder) : encoder :=
  let o := out e ++ [tokHeader] in
  let o := writeLength o (zlen key) ++ key in
  let o := writeLength o (zlen value) ++ value in
  mkEncoder o (e_names e) (count e).

Definition str (tok : byte) (s : bytes) (e : encoder) : encoder :=
  let o := out e ++ [tok] in
  mkEncoder (writeLength o (zlen s) ++ s) (e_names e) (count e).

Definition nsNone : byte := x01.
Definition nsAsx : byte := x02.
Definition nsAsxURL : byte := x03.

Definition envelope : encoder :=
  let e := mkEncoder magic ∅ 0 in
  let e := header (lit "VER") (lit "0.7") e in
  let e := header (lit "ENC") (lit "utf-8") e in
  let '(asx, e) := ref (lit "asx") e in
  let '(asxURL, e) := ref (lit "http://www.sap.com/abapxml") e in
  let e := emit [tokBind; z2b asx; z2b asxURL] e in
  let '(abap, e) := ref (lit "abap") e in
  let e := emit [tokOpen; z2b abap; nsAsx] e in
  let '(version, e) := ref (lit "version") e in
  let e := emit [tokAttr; z2b version; nsNone] e in
  let e := str tokAttrVal (lit "1.0") e in
  let '(hint, e) := ref (lit "asxhint") e in
  let '(hintURL, e) := ref (lit "http://www.sap.com/abapxml/hint") e in
  let e := emit [tokBind; z2b hint; z2b hintURL] e in
  let e := emit [tokXmlns; z2b asxURL] e in
  let '(values, e) := ref (lit "values") e in
  emit [tokOpen; z2b values; nsAsx] e.

Definition write_attr (e : encoder) (a : Attr) : encoder :=
  let '(aref, e) := ref (a_Name a) e in
  let ns := if bytes_eqb (a_Name a) (lit "lines") then nsAsxURL else nsNone in
  str tokAttrVal (a_Value a) (emit [tokAttr; z2b aref; ns] e).

Definition write_content (el : Element) (e : encoder) : encoder :=
  if HasBody el then str tokBody (Body el) e
  else if HasText el then str tokText (Text el) e
  else e.

Fixpoint element (el : Element) (e : encoder) : encoder :=
  let '(r, e) := ref (Name el) e in
  let e := emit [tokOpen; z2b r; nsNone] e in
  let e := fold_left write_attr (Attrs el) e in
  let e := write_content el e in
  let e := fold_left (fun e c => element c e) (Children el) e in
  emit [tokClose] e.

Definition Encode (root : Element) : res bytes :=
  let e := element root envelope in
  let e := emit [tokClose; tokClose] e in
  if 0xff <? count e + nameRefBias then Err errBXML else Ok (out e).

(** ** Lengths *)
Definition below (n : nat) (p : Z -> bool) : bool := forallb (fun k => p (Z.of_nat k)) (seq 0 n).

Lemma below_spec n p k : below n p = true -> 0 <= k < Z.of_nat n -> p k = true.
Proof.
  unfold below. rewrite forallb_forall. intros H Hk. specialize (H (Z.to_nat k)). rewrite Z2Nat.id in H by lia. apply H, in_seq. lia.
Qed.

Lemma lor_low_add v k x : 0 <= k -> 0 <= x < 2 ^ k -> Z.lor (Z.shiftl v k) x = v * 2 ^ k + x.
Proof.
  intros Hk Hx. rewrite <- Z.shiftl_mul_pow2 by lia. rewrite <- Z.lxor_lor, <- Z.add_nocarry_lxor; [done| |];
    apply Z.bits_inj'; intros i Hi; rewrite Z.land_spec, Z.bits_0; (destruct (Z.ltb_spec i k);
      [rewrite Z.shiftl_spec_low by lia; done|]; rewrite <- (Z.mod_small x (2 ^ k)), Z.mod_pow2_bits_high by lia; apply andb_false_r).
Qed.

Lemma land_3f m : 0 <= Z.land m 0x3f < 2 ^ 6.
Proof. change 0x3f with (Z.ones 6). rewrite Z.land_ones by lia. apply Z.mod_pos_bound. lia. Qed.

(** Four groups of six bits, the first of any size. *)
Lemma lor_groups a b c d :
  0 <= b < 2 ^ 6 -> 0 <= c < 2 ^ 6 -> 0 <= d < 2 ^ 6 ->
  Z.lor (Z.lor (Z.lor (Z.shiftl a 18) (Z.shiftl b 12)) (Z.shiftl c 6)) d = a * 262144 + b * 4096 + c * 64 + d.
Proof.
  intros Hb Hc Hd. assert (Z.shiftl a 18 = Z.shiftl (Z.shiftl (Z.shiftl a 6) 6) 6) as -> by by rewrite !Z.shiftl_shiftl by lia.
  assert (Z.shiftl b 12 = Z.shiftl (Z.shiftl b 6) 6) as -> by by rewrite !Z.shiftl_shiftl by lia.
  rewrite <- !Z.shiftl_lor, !lor_low_add by lia. lia.
Qed.

Lemma low_bits m : 0 <= m -> Z.land (b2z (z2b (Z.lor 0x80 (Z.land m 0x3f)))) 0x3f = m mod 64.
Proof.
  intros Hm. change 0x3f with (Z.ones 6) at 1. rewrite Z.land_ones by lia. change (2 ^ 6) with 64.
  apply Z.eqb_eq, (below_spec 64 (fun k => Z.land (b2z (z2b (Z.lor 0x80 k))) 0x3f =? k)); [by vm_compute|]. apply Z.mod_pos_bound. lia.
Qed.

Lemma lead_2 m : 0 <= m < 32 -> let c := b2z (z2b (Z.lor 0xc0 m)) in 0x80 <= c < 0xe0 /\ Z.land c 0x1f = m.
Proof.
  intros Hm c. pose proof (below_spec 32 (fun k => let c := b2z (z2b (Z.lor 0xc0 k)) in (0x80 <=? c) && (c <? 0xe0) && (Z.land c 0x1f =? k)) m
    ltac:(by vm_compute) ltac:(lia)) as H. cbv beta zeta in H. fold c in H. lia.
Qed.

Lemma lead_3 m : 0 <= m < 16 -> let c := b2z (z2b (Z.lor 0xe0 m)) in 0xe0 <= c < 0xf0 /\ Z.land c 0x0f = m.
Proof.
  intros Hm c. pose proof (below_spec 16 (fun k => let c := b2z (z2b (Z.lor 0xe0 k)) in (0xe0 <=? c) && (c <? 0xf0) && (Z.land c 0x0f =? k)) m
    ltac:(by vm_compute) ltac:(lia)) as H. cbv beta zeta in H. fold c in H. lia.
Qed.

Lemma lead_4 m : 0 <= m -> let c := b2z (z2b (Z.lor 0xf0 m)) in 0xf0 <= c /\ Z.land c 0x07 = m mod 8.
Proof.
  intros Hm c. assert (c = b2z (z2b (Z.lor 0xf0 (m mod 256)))) as ->.
  { unfold c. rewrite !b2z_z2b. change 256 with (2 ^ 8). rewrite <- !Z.land_ones by lia. rewrite !Z.land_lor_distr_l.
    by rewrite <- (Z.land_assoc m), Z.land_diag. }
  pose proof (below_spec 256 (fun k => let c := b2z (z2b (Z.lor 0xf0 k)) in (0xf0 <=? c) && (Z.land c 0x07 =? k mod 8)) (m mod 256)
    ltac:(by vm_compute) ltac:(apply Z.mod_pos_bound; lia)) as H. cbv beta zeta in H.
  replace (m mod 8) with (m mod 256 mod 8); [lia|]. apply Z.mod_mod_divide. by exists 32.
Qed.

Lemma write_length_app o n : writeLength o n = o ++ writeLength [] n.
Proof. unfold writeLength. by repeat destruct (_ <? _). Qed.

(** Reading each form. *)
Lemma read_length_1 b r : b2z b < 0x80 -> readLength (b :: r) = Ok (b2z b, r).
Proof.
  intros H. unfold readLength. rewrite (proj2 (Z.leb_gt _ _)) by len_lia. change (go_index (b :: r) 0) with (Ok b : res byte). rewrite ok_bind. cbv zeta.
  rewrite (proj2 (Z.ltb_lt _ _)) by lia. by rewrite (go_from_app [b] r 1).
Qed.

Lemma read_length_2 b0 b1 r :
  0x80 <= b2z b0 < 0xe0 -> readLength (b0 :: b1 :: r) = Ok (Z.land (b2z b0) 0x1f * 64 + Z.land (b2z b1) 0x3f, r).
Proof.
  intros H. unfold readLength. rewrite !(proj2 (Z.leb_gt _ _)) by len_lia. change (go_index (b0 :: b1 :: r) 0) with (Ok b0 : res byte).
  change (go_index (b0 :: b1 :: r) 1) with (Ok b1 : res byte). rewrite !ok_bind. cbv zeta.
  rewrite (proj2 (Z.ltb_ge (b2z b0) 0x80)), (proj2 (Z.ltb_lt (b2z b0) 0xe0)) by lia. rewrite (go_from_app [b0; b1] r 2), ok_bind by done.
  by rewrite lor_low_add by (try apply land_3f; lia).
Qed.

Lemma read_length_3 b0 b1 b2 r :
  0xe0 <= b2z b0 < 0xf0 ->
  readLength (b0 :: b1 :: b2 :: r) = Ok (Z.land (b2z b0) 0x0f * 4096 + Z.land (b2z b1) 0x3f * 64 + Z.land (b2z b2) 0x3f, r).
Proof.
  intros H. unfold readLength. rewrite !(proj2 (Z.leb_gt _ _)) by len_lia. change (go_index (b0 :: b1 :: b2 :: r) 0) with (Ok b0 : res byte).
  change (go_index (b0 :: b1 :: b2 :: r) 1) with (Ok b1 : res byte). change (go_index (b0 :: b1 :: b2 :: r) 2) with (Ok b2 : res byte). rewrite !ok_bind. cbv zeta.
  rewrite (proj2 (Z.ltb_ge (b2z b0) 0x80)), (proj2 (Z.ltb_ge (b2z b0) 0xe0)), (proj2 (Z.ltb_lt (b2z b0) 0xf0)) by lia.
  rewrite (go_from_app [b0; b1; b2] r 3), ok_bind by done. do 2 f_equal.
  apply (lor_groups 0 (Z.land (b2z b0) 0x0f)); try apply land_3f.
  pose proof (below_spec 256 (fun k => Z.land k 0x0f <? 64) (b2z b0) ltac:(by vm_compute) (b2z_range b0)) as Hb. cbv beta in Hb.
  pose proof (Z.land_nonneg (b2z b0) 0x0f). pose proof (b2z_range b0). lia.
Qed.

Lemma read_length_4 b0 b1 b2 b3 r :
  0xf0 <= b2z b0 ->
  readLength (b0 :: b1 :: b2 :: b3 :: r)
  = Ok (Z.land (b2z b0) 0x07 * 262144 + Z.land (b2z b1) 0x3f * 4096 + Z.land (b2z b2) 0x3f * 64 + Z.land (b2z b3) 0x3f, r).
Proof.
  intros H. unfold readLength. rewrite !(proj2 (Z.leb_gt _ _)) by len_lia. set (l := b0 :: b1 :: b2 :: b3 :: r).
  change (go_index l 0) with (Ok b0 : res byte). change (go_index l 1) with (Ok b1 : res byte). change (go_index l 2) with (Ok b2 : res byte).
  change (go_index l 3) with (Ok b3 : res byte). rewrite !ok_bind. cbv zeta.
  rewrite (proj2 (Z.ltb_ge (b2z b0) 0x80)), (proj2 (Z.ltb_ge (b2z b0) 0xe0)), (proj2 (Z.ltb_ge (b2z b0) 0xf0)) by lia.
  rewrite (go_from_app [b0; b1; b2; b3] r 4 eq_refl : go_from l 4 = _), ok_bind. do 2 f_equal.
  apply lor_groups; apply land_3f.
Qed.

(** What a length reads back as. *)
Lemma length_read_back n r : 0 <= n -> readLength (writeLength [] n ++ r) = Ok (n mod 2 ^ 21, r).
Proof.
  intros Hn. unfold writeLength. cbn [app]. cbv zeta. rewrite !Z.shiftr_div_pow2 by lia.
  assert (forall k, 0 <= k -> 0 <= n / 2 ^ k) as Hd by (intros; apply Z.div_pos; lia).
  destruct (Z.ltb_spec n 0x80) as [H1|H1]; [|destruct (Z.ltb_spec n 0x800) as [H2|H2]; [|destruct (Z.ltb_spec n 0x10000) as [H3|H3]]]; cbn [app].
  - rewrite read_length_1; rewrite b2z_z2b, Z.mod_small by lia; [|done]. by rewrite Z.mod_small by lia.
  - destruct (lead_2 (n / 2 ^ 6)) as [Hc Hl]; [split; [apply Hd; lia|apply Z.div_lt_upper_bound; lia]|].
    rewrite read_length_2 by done. rewrite Hl, low_bits by (apply Hd; lia). do 2 f_equal. Z.div_mod_to_equations; lia.
  - destruct (lead_3 (n / 2 ^ 12)) as [Hc Hl]; [split; [apply Hd; lia|apply Z.div_lt_upper_bound; lia]|].
    rewrite read_length_3 by done. rewrite Hl, !low_bits by (apply Hd; lia). do 2 f_equal. Z.div_mod_to_equations; lia.
  - destruct (lead_4 (n / 2 ^ 18)) as [Hc Hl]; [apply Hd; lia|].
    rewrite read_length_4 by done. rewrite Hl, !low_bits by (apply Hd; lia). do 2 f_equal. Z.div_mod_to_equations; lia.
Qed.

(** ** The reader is total *)
Lemma sure_bxml {A} (P : A -> Prop) : sure (Err errBXML) P.
Proof. by apply sure_err. Qed.

Lemma sure_read_length r : sure (readLength r) (fun '(n, t) => 0 <= n /\ zlen t < zlen r).
Proof.
  unfold readLength. destruct (Z.leb_spec (zlen r) 0); [apply sure_bxml|]. eapply sure_bind; [apply sure_index; lia|]. intros b0 _. cbv zeta.
  pose proof (b2z_range b0). assert (forall m k, 0 <= k -> 0 <= Z.land m k) as Hl by (intros m k Hk; apply Z.land_nonneg; auto).
  destruct (_ <? 0x80); [|destruct (_ <? 0xe0); [|destruct (_ <? 0xf0)]];
    try match goal with |- context [zlen r <=? ?k] => destruct (Z.leb_spec (zlen r) k); [apply sure_bxml|] end;
    repeat match goal with |- sure (go_index r ?i ≫= _) _ => eapply sure_bind; [apply sure_index; lia|]; intros ? _ end;
    (eapply sure_bind; [apply sure_from; lia|]); intros t Ht; cbv beta in Ht; apply sure_ok; (split; [|lia]); rewrite ?Z.lor_nonneg, ?Z.shiftl_nonneg;
    try lia; repeat split; apply Hl; lia.
Qed.

Lemma sure_read_string r : sure (readString r) (fun '(_, t) => zlen t < zlen r).
Proof.
  unfold readString. eapply sure_bind; [apply sure_read_length|]. intros [n t] [Hn Ht]. destruct (Z.ltb_spec (zlen t) n); [apply sure_bxml|].
  eapply sure_bind; [split; [apply total_slice; lia|by intros a _; instantiate (1 := fun _ => True)]|]. intros s _.
  eapply sure_bind; [apply sure_from; lia|]. intros t' Ht'. cbv beta in Ht'. apply sure_ok. lia.
Qed.

Lemma sure_name ns k : sure (nameByRef ns k) (fun _ => True).
Proof.
  unfold nameByRef. cbv zeta. destruct (_ || _) eqn:E; [apply sure_bxml|]. apply orb_false_iff in E as [E1 E2]. apply sure_index. lia.
Qed.

Lemma sure_top f stack : stack <> [] -> sure (on_top f stack) (fun s => s <> []).
Proof. intros H. destruct stack as [|e s]; [done|]. by apply sure_ok. Qed.

Lemma sure_value_follows r :
  sure (if zlen r <=? 3 then Ok false else t ← go_index r 3; Ok (bool_decide (t = tokAttrVal))) (fun b => b = true -> 3 < zlen r).
Proof.
  destruct (Z.leb_spec (zlen r) 3); [by apply sure_ok|]. eapply sure_bind; [apply sure_index; lia|]. intros t _. by apply sure_ok.
Qed.

(** Each round consumes input and keeps an element open. *)
Lemma sure_step st :
  0 < zlen (rest st) -> stack st <> [] -> sure (step st) (fun st' => zlen (rest st') < zlen (rest st) /\ stack st' <> []).
Proof.
  destruct st as [ns sk r]. cbn [rest stack]. intros Hr Hs. unfold step. eapply sure_bind; [apply sure_index; lia|]. intros tok _.
  repeat match goal with
    | |- sure (Err _) _ => apply sure_bxml
    | |- sure (if zlen r <=? ?k then _ else _) _ => destruct (Z.leb_spec (zlen r) k)
    | |- sure (if ?c then _ else _) _ => destruct c
    | |- sure (match sk with [] => _ | _ => _ end) _ => destruct sk as [|? [|? ?]]
    | |- sure (go_index r _ ≫= _) _ => eapply sure_bind; [apply sure_index; lia|]; intros ? _
    | |- sure (go_from r _ ≫= _) _ => eapply sure_bind; [apply sure_from; lia|]; intros ? ?; cbv beta in *
    | |- sure (nameByRef _ _ ≫= _) _ => eapply sure_bind; [apply sure_name|]; intros ? _
    | |- sure (readString _ ≫= _) _ => eapply sure_bind; [apply sure_read_string|]; intros [? ?] ?; cbv beta iota in *
    | |- sure (on_top _ _ ≫= _) _ => eapply sure_bind; [by apply sure_top|]; intros ? ?; cbv beta in *
    | |- sure ((if _ then Ok false else _) ≫= _) _ => eapply sure_bind;
        [apply (sure_value_follows r)|]; intros [] Hv; [specialize (Hv eq_refl)|]; cbn [negb]
    | |- sure (Ok _) _ => apply sure_ok; cbn [rest stack]; split; [lia|done]
    end.
Qed.

Lemma decode_loop_total fuel st : zlen (rest st) < Z.of_nat fuel -> stack st <> [] -> total (decode_loop fuel st).
Proof.
  revert st. induction fuel as [|fuel IH]; intros st Hf Hs; [pose proof (zlen_nonneg (rest st)); lia|]. cbn [decode_loop].
  destruct (Z.leb_spec (zlen (rest st)) 0); [done|]. destruct (sure_step st ltac:(lia) Hs) as [Ht Hn]. apply total_bind; [done|].
  intros st' Hst. destruct (Hn st' Hst) as [Hl Hk]. apply IH; [lia|done].
Qed.

(** Decode returns on every input, a tree or an error, without a panic, and so does
    PayloadRoot on the tree. *)
Theorem bxml_decode_total doc :
  total (Decode doc) /\ forall d, Decode doc = Ok d -> total (PayloadRoot d).
Proof.
  split.
  - unfold Decode. destruct (bytes_eqb _ _) eqn:E; cbn [negb]; [|done]. apply bytes_eqb_eq in E.
    assert (4 <= zlen doc) as Hl by (apply (f_equal length) in E; rewrite length_take in E; change (length magic) with 4%nat in E; unfold zlen; lia).
    change (zlen magic) with 4. apply total_bind; [apply total_from; lia|]. intros r Hr%from_length. apply total_bind.
    + apply decode_loop_total; [cbn [rest]; unfold zlen in *; lia|done].
    + intros st _. unfold finish. by destruct (stack st) as [|? [|]].
  - intros d _. unfold PayloadRoot. destruct (match Child _ (lit "values") with Some _ => _ | None => _ end) as [v|]; [|done]. by destruct (Children v).
Qed.

(** ** Reading what was written *)
Definition small (s : bytes) : bool := zlen s <? 2 ^ 21.
Definition enc_str (s : bytes) : bytes := writeLength [] (zlen s) ++ s.

Lemma read_string_ok s r : small s = true -> readString (enc_str s ++ r) = Ok (s, r).
Proof.
  intros Hs%Z.ltb_lt. pose proof (zlen_nonneg s). unfold readString, enc_str. rewrite <- app_assoc, length_read_back, ok_bind by done.
  rewrite Z.mod_small by lia. rewrite zlen_app. destruct (Z.ltb_spec (zlen s + zlen r) (zlen s)); [pose proof (zlen_nonneg r); lia|].
  rewrite (go_slice_mid [] s r 0 (zlen s)) by done. by rewrite ok_bind, (go_from_app s r (zlen s)), ok_bind.
Qed.

(** The rounds of the reader. *)
Definition round (st st' : state) : Prop := 0 < zlen (rest st) /\ step st = Ok st'.

Lemma round_cons {t ns sk l st} : step (mkState ns sk (t :: l)) = Ok st -> round (mkState ns sk (t :: l)) st.
Proof. intros H. split; [cbn [rest]; len_lia|done]. Qed.

Lemma index_0 {A} (t : A) l : go_index (t :: l) 0 = (Ok t : res A).
Proof. done. Qed.
Lemma index_1 {A} (t a : A) l : go_index (t :: a :: l) 1 = (Ok a : res A).
Proof. done. Qed.
Lemma index_3 {A} (t a b c : A) l : go_index (t :: a :: b :: c :: l) 3 = (Ok c : res A).
Proof. done. Qed.
Lemma from_1 {A} (t : A) l : go_from (t :: l) 1 = (Ok l : res (list A)).
Proof. by apply (go_from_app [t]). Qed.

Ltac token_is :=
  unfold step; rewrite index_0, ok_bind; repeat (rewrite (bool_decide_eq_false_2 _) by discriminate);
  rewrite (bool_decide_eq_true_2 _) by reflexivity; rewrite ?from_1, ?ok_bind.

Lemma step_header ns sk k v r :
  small k = true -> small v = true -> step (mkState ns sk (tokHeader :: enc_str k ++ enc_str v ++ r)) = Ok (mkState ns sk r).
Proof. intros Hk Hv. token_is. rewrite (read_string_ok k _ Hk), ok_bind. by rewrite (read_string_ok v _ Hv), ok_bind. Qed.

Lemma step_name ns sk s r :
  small s = true -> step (mkState ns sk (tokName :: enc_str s ++ r)) = Ok (mkState (ns ++ [s]) sk r).
Proof. intros Hs. token_is. by rewrite (read_string_ok s _ Hs), ok_bind. Qed.

Lemma step_open ns sk b x n r :
  nameByRef ns (b2z b) = Ok n -> step (mkState ns sk (tokOpen :: b :: x :: r)) = Ok (mkState ns (empty_element n :: sk) r).
Proof.
  intros Hn. token_is. rewrite (proj2 (Z.leb_gt _ _)) by len_lia. rewrite index_1, ok_bind, Hn, ok_bind.
  by rewrite (go_from_app [tokOpen; b; x] r 3), ok_bind.
Qed.

Lemma step_close ns e p sk r : step (mkState ns (e :: p :: sk) (tokClose :: r)) = Ok (mkState ns (add_child e p :: sk) r).
Proof. by token_is. Qed.

Lemma step_attr ns e sk b x n v r :
  nameByRef ns (b2z b) = Ok n -> small v = true ->
  step (mkState ns (e :: sk) (tokAttr :: b :: x :: tokAttrVal :: enc_str v ++ r)) = Ok (mkState ns (add_attr (mkAttr n v) e :: sk) r).
Proof.
  intros Hn Hv. token_is. rewrite !(proj2 (Z.leb_gt _ _)) by len_lia. rewrite index_1, ok_bind, Hn, ok_bind, index_3, !ok_bind.
  rewrite bool_decide_eq_true_2 by done. cbn [negb]. rewrite (go_from_app [tokAttr; b; x; tokAttrVal] (enc_str v ++ r) 4), ok_bind by done.
  by rewrite (read_string_ok v _ Hv), ok_bind.
Qed.

Lemma step_binding ns sk a b r : step (mkState ns sk (tokBind :: a :: b :: r)) = Ok (mkState ns sk r).
Proof. token_is. rewrite (proj2 (Z.leb_gt _ _)) by len_lia. by rewrite (go_from_app [tokBind; a; b] r 3). Qed.

Lemma step_xmlns ns sk a r : step (mkState ns sk (tokXmlns :: a :: r)) = Ok (mkState ns sk r).
Proof. token_is. rewrite (proj2 (Z.leb_gt _ _)) by len_lia. by rewrite (go_from_app [tokXmlns; a] r 2). Qed.

Lemma step_text ns e sk s r :
  small s = true -> step (mkState ns (e :: sk) (tokText :: enc_str s ++ r)) = Ok (mkState ns (set_text s e :: sk) r).
Proof.
  intros Hs. unfold step. rewrite index_0, ok_bind. repeat (rewrite (bool_decide_eq_false_2 (tokText = _)) by discriminate).
  rewrite (bool_decide_eq_true_2 (tokText = tokText)) by done. cbn [orb]. rewrite from_1, ok_bind. by rewrite (read_string_ok s _ Hs), ok_bind.
Qed.

Lemma step_body ns e sk s r :
  small s = true -> step (mkState ns (e :: sk) (tokBody :: enc_str s ++ r)) = Ok (mkState ns (set_body s e :: sk) r).
Proof. intros Hs. token_is. cbn [orb]. rewrite ?from_1, ?ok_bind. by rewrite (read_string_ok s _ Hs), ok_bind. Qed.

(** ** The writer's name table is the reader's *)
Record names_rel (e : encoder) (ns : list bytes) : Prop := {
  nr_count : count e = zlen ns;
  nr_lookup : forall n i, e_names e !! n = Some i <-> 0 <= i /\ ns !! Z.to_nat i = Some n }.

Lemma names_ref e ns n i :
  names_rel e ns -> count e <= 253 -> e_names e !! n = Some (i - nameRefBias) -> nameByRef ns (b2z (z2b i)) = Ok n.
Proof.
  intros [Hc Hl] Hm Hn. apply Hl in Hn as [Hi Hn]. unfold nameRefBias in *. pose proof (lookup_lt_Some _ _ _ Hn) as Hlt. rewrite Hc in Hm.
  rewrite b2z_z2b, Z.mod_small by (unfold zlen in *; lia). unfold nameByRef, nameRefBias. cbv zeta.
  destruct (Z.ltb_spec (i - 2) 0); [lia|]. destruct (Z.leb_spec (zlen ns) (i - 2)); [unfold zlen in *; lia|]. cbn [orb].
  unfold go_index. destruct (Z.ltb_spec (i - 2) 0); [lia|]. by rewrite Hn.
Qed.

Lemma names_rel_fresh e ns n o :
  names_rel e ns -> e_names e !! n = None -> names_rel (mkEncoder o (<[n := count e]> (e_names e)) (count e + 1)) (ns ++ [n]).
Proof.
  intros [Hc Hl] Hn. split; [cbn [count]; rewrite zlen_app, Hc; done|]. intros m i. cbn [e_names]. rewrite lookup_insert_Some, Hl, Hc. split.
  - intros [[<- <-]|[Hne [Hi H]]]; (split; [unfold zlen; lia|]).
    + by rewrite to_nat_zlen, lookup_app_r, Nat.sub_diag by lia.
    + by apply lookup_app_l_Some.
  - intros [Hi H]. apply lookup_app_Some in H as [H|[Hle H]].
    + right. split; [|done]. intros ->. assert (e_names e !! m = Some i) as E by by apply Hl. congruence.
    + left. apply list_lookup_singleton_Some in H as [H ->]. split; [done|]. unfold zlen. lia.
Qed.

(** [writes e e' s s']: what the writer adds between [e] and [e'] takes a reader whose
    innermost open element and whose outer ones are [s] to [s'], and keeps the tables
    in step, as long as the references fit in a byte. *)
Definition writes (e e' : encoder) (s s' : Element * list Element) : Prop :=
  exists w, out e' = out e ++ w /\ count e <= count e' /\
    forall ns, names_rel e ns -> count e' <= 253 ->
    exists ns', names_rel e' ns' /\ forall r, rtc round (mkState ns (s.1 :: s.2) (w ++ r)) (mkState ns' (s'.1 :: s'.2) r).

Lemma writes_refl e s : writes e e s s.
Proof. exists []. rewrite app_nil_r. split_and!; [done|lia|]. intros ns Hn _. by exists ns. Qed.

Lemma writes_trans e1 e2 e3 s1 s2 s3 : writes e1 e2 s1 s2 -> writes e2 e3 s2 s3 -> writes e1 e3 s1 s3.
Proof.
  intros (w1 & E1 & C1 & H1) (w2 & E2 & C2 & H2). exists (w1 ++ w2). rewrite E2, E1, app_assoc. split_and!; [done|lia|].
  intros ns Hn Hc. destruct (H1 ns Hn ltac:(lia)) as (ns2 & Hn2 & R1). destruct (H2 ns2 Hn2 Hc) as (ns3 & Hn3 & R2).
  exists ns3. split; [done|]. intros r. rewrite <- app_assoc. etrans; [apply R1|apply R2].
Qed.

(** One token that leaves the tables alone. *)
Lemma writes_token e t w s s' :
  (forall ns r, names_rel e ns -> count e <= 253 -> step (mkState ns (s.1 :: s.2) (t :: w ++ r)) = Ok (mkState ns (s'.1 :: s'.2) r)) ->
  writes e (emit (t :: w) e) s s'.
Proof.
  intros H. exists (t :: w). split_and!; [done|done|]. intros ns Hn Hc. exists ns. split; [by destruct Hn|]. intros r.
  apply rtc_once, round_cons. by apply H.
Qed.

Lemma write_str_app o t s : writeLength (o ++ [t]) (zlen s) ++ s = o ++ t :: enc_str s.
Proof. rewrite write_length_app. unfold enc_str. by rewrite <- !app_assoc. Qed.

Lemma str_emit t s e : str t s e = emit (t :: enc_str s) e.
Proof. unfold str, emit. cbv zeta. by rewrite write_str_app. Qed.

Lemma header_emit k v e : header k v e = emit (tokHeader :: enc_str k ++ enc_str v) e.
Proof.
  unfold header, emit. cbv zeta. rewrite write_str_app. rewrite write_length_app. unfold enc_str.
  repeat (rewrite <- ?app_assoc; cbn [app]). done.
Qed.

Lemma emit_emit a b e : emit b (emit a e) = emit (a ++ b) e.
Proof. unfold emit. cbn. by rewrite app_assoc. Qed.

Lemma ref_writes n e i e' s :
  small n = true -> ref n e = (i, e') -> writes e e' s s /\ e_names e' !! n = Some (i - nameRefBias).
Proof.
  intros Hs. unfold ref. destruct (e_names e !! n) as [idx|] eqn:En; intros [= <- <-].
  - split; [apply writes_refl|]. rewrite En. f_equal. lia.
  - split; [|cbn [e_names]; rewrite lookup_insert_eq; f_equal; lia]. exists (tokName :: enc_str n). cbn [out count]. rewrite write_str_app.
    split_and!; [done|lia|]. intros ns Hn Hc. exists (ns ++ [n]). split; [by apply names_rel_fresh|]. intros r.
    apply rtc_once, round_cons. by apply (step_name ns (s.1 :: s.2) n r).
Qed.

Lemma open_writes n e i x t sk :
  e_names e !! n = Some (i - nameRefBias) -> writes e (emit [tokOpen; z2b i; x] e) (t, sk) (empty_element n, t :: sk).
Proof. intros Hn. apply writes_token. intros ns r Hr Hc. apply step_open. by apply (names_ref e). Qed.

Lemma close_writes e t p sk : writes e (emit [tokClose] e) (t, p :: sk) (add_child t p, sk).
Proof. apply writes_token. intros ns r _ _. apply step_close. Qed.

Lemma bind_writes e a b s : writes e (emit [tokBind; a; b] e) s s.
Proof. apply writes_token. intros ns r _ _. apply step_binding. Qed.

Lemma xmlns_writes e a s : writes e (emit [tokXmlns; a] e) s s.
Proof. apply writes_token. intros ns r _ _. apply step_xmlns. Qed.

Lemma header_writes e k v s : small k = true -> small v = true -> writes e (header k v e) s s.
Proof. intros Hk Hv. rewrite header_emit. apply writes_token. intros ns r _ _. rewrite <- app_assoc. by apply step_header. Qed.

Lemma attr_value_writes n e i x v t sk :
  e_names e !! n = Some (i - nameRefBias) -> small v = true ->
  writes e (str tokAttrVal v (emit [tokAttr; z2b i; x] e)) (t, sk) (add_attr (mkAttr n v) t, sk).
Proof.
  intros Hn Hv. rewrite str_emit, emit_emit. apply writes_token. intros ns r Hr Hc. apply step_attr; [|done]. by apply (names_ref e).
Qed.

Definition small_attr (a : Attr) : bool := small (a_Name a) && small (a_Value a).

Lemma attr_writes e a t sk : small_attr a = true -> writes e (write_attr e a) (t, sk) (add_attr a t, sk).
Proof.
  intros [Hn Hv]%andb_true_iff. unfold write_attr. destruct (ref (a_Name a) e) as [i e'] eqn:Er.
  destruct (ref_writes _ _ _ _ (t, sk) Hn Er) as [H1 H2]. eapply writes_trans; [exact H1|]. destruct a as [n v]. by apply attr_value_writes.
Qed.

Definition add_attrs (l : list Attr) (e : Element) : Element :=
  mkElement (Name e) (Attrs e ++ l) (Children e) (Text e) (HasText e) (Body e) (HasBody e).
Definition add_children (l : list Element) (e : Element) : Element :=
  mkElement (Name e) (Attrs e) (Children e ++ l) (Text e) (HasText e) (Body e) (HasBody e).

Lemma attrs_writes l e t sk : forallb small_attr l = true -> writes e (fold_left write_attr l e) (t, sk) (add_attrs l t, sk).
Proof.
  revert e t. induction l as [|a l IH]; intros e t H; cbn [fold_left forallb] in *.
  - unfold add_attrs. rewrite app_nil_r. destruct t. apply writes_refl.
  - apply andb_true_iff in H as [Ha Hl]. eapply writes_trans; [by apply attr_writes|]. eapply eq_ind; [by apply IH|].
    unfold add_attrs, add_attr. cbn. by rewrite <- app_assoc.
Qed.

(** ** Elements *)
Lemma element_nested_ind (P : Element -> Prop) :
  (forall n l cs t ht b hb, Forall P cs -> P (mkElement n l cs t ht b hb)) -> forall e, P e.
Proof.
  intros H. fix IH 1. intros [n l cs t ht b hb]. apply H. induction cs as [|c cs IHcs]; [constructor|]. constructor; [apply IH|exact IHcs].
Qed.

(** What the writer keeps of an element: a body hides the text, and a content without its
    flag is not written. *)
Fixpoint normal (e : Element) : Element :=
  mkElement (Name e) (Attrs e) (map normal (Children e))
    (if HasBody e then [] else if HasText e then Text e else []) (negb (HasBody e) && HasText e)
    (if HasBody e then Body e else []) (HasBody e).

(** Every string that is written fits a length of four bytes. *)
Fixpoint fits (e : Element) : bool :=
  small (Name e) && forallb small_attr (Attrs e) && forallb fits (Children e) && (small (if HasBody e then Body e else if HasText e then Text e else [])).

Definition with_content (el t : Element) : Element :=
  if HasBody el then set_body (Body el) t else if HasText el then set_text (Text el) t else t.

Lemma content_writes el e t sk :
  small (if HasBody el then Body el else if HasText el then Text el else []) = true ->
  writes e (write_content el e) (t, sk) (with_content el t, sk).
Proof.
  unfold write_content, with_content. intros H. destruct (HasBody el).
  - rewrite str_emit. apply writes_token. intros ns r _ _. by apply step_body.
  - destruct (HasText el); [|apply writes_refl]. rewrite str_emit. apply writes_token. intros ns r _ _. by apply step_text.
Qed.

Lemma children_writes cs :
  Forall (fun c => fits c = true -> forall e p sk, writes e (element c e) (p, sk) (add_child (normal c) p, sk)) cs ->
  forallb fits cs = true -> forall e t sk,
  writes e (fold_left (fun e c => element c e) cs e) (t, sk) (add_children (map normal cs) t, sk).
Proof.
  induction 1 as [|c cs Hc _ IH]; intros Hf e t sk; cbn [fold_left forallb map] in *.
  - unfold add_children. rewrite app_nil_r. destruct t. apply writes_refl.
  - apply andb_true_iff in Hf as [Hf Hfs]. eapply writes_trans; [by apply Hc|]. eapply eq_ind; [by apply IH|].
    unfold add_children, add_child. cbn. by rewrite <- app_assoc.
Qed.

Lemma element_writes el : fits el = true -> forall e p sk, writes e (element el e) (p, sk) (add_child (normal el) p, sk).
Proof.
  induction el as [n l cs t ht b hb IH] using element_nested_ind. intros Hf e p sk. cbn [fits] in Hf. cbn [Name Attrs Children] in Hf.
  apply andb_true_iff in Hf as [[[Hn Hl]%andb_true_iff Hc]%andb_true_iff Hct]. cbn [element Name Attrs Children].
  destruct (ref n e) as [i e1] eqn:Er. destruct (ref_writes _ _ _ _ (p, sk) Hn Er) as [H1 H2]. eapply writes_trans; [exact H1|].
  eapply writes_trans; [by apply open_writes|]. eapply writes_trans; [by apply attrs_writes|]. eapply writes_trans; [by apply content_writes|].
  eapply writes_trans; [by apply children_writes|]. eapply eq_ind; [apply close_writes|]. f_equal. f_equal.
  unfold with_content. cbn [normal Name Attrs Children HasBody HasText Body Text]. by destruct hb, ht.
Qed.

(** ** The envelope *)
Definition abap_element : Element := mkElement (lit "abap") [mkAttr (lit "version") (lit "1.0")] [] [] false [] false.
Definition values_element : Element := empty_element (lit "values").
Definition document : Element := empty_element (lit "#document").

Lemma envelope_writes : writes (mkEncoder magic ∅ 0) envelope (document, []) (values_element, [abap_element; document]).
Proof.
  unfold envelope. set (e0 := mkEncoder magic ∅ 0).
  eapply writes_trans; [by apply (header_writes e0 (lit "VER") (lit "0.7"))|]. set (e1 := header _ _ e0). clearbody e1.
  eapply writes_trans; [by apply (header_writes e1 (lit "ENC") (lit "utf-8"))|]. set (e2 := header _ _ e1). clearbody e2.
  destruct (ref (lit "asx") e2) as [i1 e3] eqn:E3. eapply writes_trans; [by apply (ref_writes (lit "asx") _ _ _ _ eq_refl E3)|].
  destruct (ref (lit "http://www.sap.com/abapxml") e3) as [i2 e4] eqn:E4. eapply writes_trans; [by apply (ref_writes (lit "http://www.sap.com/abapxml") _ _ _ _ eq_refl E4)|].
  eapply writes_trans; [apply (bind_writes e4 (z2b i1) (z2b i2))|]. set (e5 := emit _ e4). clearbody e5.
  destruct (ref (lit "abap") e5) as [i3 e6] eqn:E6. destruct (ref_writes (lit "abap") _ _ _ (document, []) eq_refl E6) as [W6 N6]. eapply writes_trans; [exact W6|].
  eapply writes_trans; [by apply (open_writes (lit "abap") e6 i3 nsAsx)|]. set (e7 := emit _ e6). clearbody e7.
  destruct (ref (lit "version") e7) as [i4 e8] eqn:E8.
  destruct (ref_writes (lit "version") _ _ _ (empty_element (lit "abap"), [document]) eq_refl E8) as [W8 N8]. eapply writes_trans; [exact W8|].
  eapply writes_trans; [by apply (attr_value_writes (lit "version") e8 i4 nsNone (lit "1.0"))|]. set (e9 := str _ _ _). clearbody e9.
  destruct (ref (lit "asxhint") e9) as [i5 e10] eqn:E10. eapply writes_trans; [by apply (ref_writes (lit "asxhint") _ _ _ _ eq_refl E10)|].
  destruct (ref (lit "http://www.sap.com/abapxml/hint") e10) as [i6 e11] eqn:E11. eapply writes_trans; [by apply (ref_writes (lit "http://www.sap.com/abapxml/hint") _ _ _ _ eq_refl E11)|].
  eapply writes_trans; [apply (bind_writes e11 (z2b i5) (z2b i6))|]. eapply writes_trans; [apply (xmlns_writes _ (z2b i2))|].
  set (e12 := emit [tokXmlns; _] _). clearbody e12.
  destruct (ref (lit "values") e12) as [i7 e13] eqn:E13.
  destruct (ref_writes (lit "values") _ _ _ (add_attr (mkAttr (lit "version") (lit "1.0")) (empty_element (lit "abap")), [document]) eq_refl E13) as [W13 N13].
  eapply writes_trans; [exact W13|]. by apply (open_writes (lit "values")).
Qed.

(** A run of the reader to the end of the document. *)
Lemma run_decode fuel st st' :
  rtc round st st' -> rest st' = [] -> stack st <> [] -> zlen (rest st) < Z.of_nat fuel -> decode_loop fuel st = Ok st'.
Proof.
  intros H He. revert fuel. induction H as [st|st st1 st' [Hl Hs] _ IH]; intros fuel Hk Hf.
  - destruct fuel as [|fuel]; [pose proof (zlen_nonneg (rest st)); lia|]. cbn [decode_loop]. by rewrite He.
  - destruct fuel as [|fuel]; [lia|]. cbn [decode_loop]. destruct (Z.leb_spec (zlen (rest st)) 0); [lia|]. rewrite Hs, ok_bind.
    destruct (sure_step st Hl Hk) as [_ Hp]. destruct (Hp st1 Hs) as [Hlt Hk1]. apply IH; [done|done|lia].
Qed.

(** C37: A tree whose strings are shorter than 2 MiB that Encode accepts is read back:
    Decode returns a document whose payload root is the tree in the normal form the writer
    keeps. *)
Theorem bxml_roundtrip root doc :
  fits root = true -> Encode root = Ok doc ->
  exists tree, Decode doc = Ok tree /\ PayloadRoot tree = Ok (normal root).
Proof.
  intros Hf. unfold Encode. cbv zeta. set (e := element root envelope). destruct (Z.ltb_spec 0xff (count (emit [tokClose; tokClose] e) + nameRefBias)) as [|Hc]; [done|].
  intros <-%Ok_inj. unfold nameRefBias in Hc. rewrite <- (emit_emit [tokClose] [tokClose]) in *.
  assert (writes (mkEncoder magic ∅ 0) (emit [tokClose] (emit [tokClose] e)) (document, [])
    (add_child (add_child (add_child (normal root) values_element) abap_element) document, [])) as (w & Ew & _ & Hw).
  { eapply writes_trans; [apply envelope_writes|]. eapply writes_trans; [by apply element_writes|]. eapply writes_trans; apply close_writes. }
  destruct (Hw []) as (ns & _ & Hr); [by split; [|intros n i; cbn; rewrite lookup_empty; split; [done|by intros [_ ?]]]|lia|].
  specialize (Hr []). rewrite app_nil_r in Hr. exists (add_child (add_child (add_child (normal root) values_element) abap_element) document).
  cbn [fst snd] in Hr. rewrite Ew. cbn [out]. split; [|reflexivity]. unfold Decode. rewrite take_app_length, bytes_eqb_refl. cbn [negb].
  rewrite go_from_app, ok_bind by done. rewrite (run_decode _ _ _ Hr); [done|done|done|]. cbn [rest]. unfold zlen. rewrite length_app. lia.
Qed.

(** ** How many names fit *)
Fixpoint element_names (e : Element) : gset bytes :=
  {[Name e]} ∪ list_to_set (map a_Name (Attrs e)) ∪ ⋃ (map element_names (Children e)).

Definition envelope_names : list bytes :=
  [lit "asx"; lit "http://www.sap.com/abapxml"; lit "abap"; lit "version"; lit "asxhint"; lit "http://www.sap.com/abapxml/hint"; lit "values"].

(** [e'] has the names of [e] and those of [s], each counted once. *)
Definition tidy (e : encoder) : Prop := count e = Z.of_nat (size (e_names e)).
Definition adds (e e' : encoder) (s : gset bytes) : Prop := tidy e -> tidy e' /\ dom (e_names e') = dom (e_names e) ∪ s.

Lemma adds_none e e' : e_names e' = e_names e -> count e' = count e -> adds e e' ∅.
Proof. intros H1 H2 Ht. unfold tidy. rewrite H1, H2. split; [done|]. by rewrite (right_id_L ∅ (∪)). Qed.

Lemma adds_trans e1 e2 e3 s1 s2 : adds e1 e2 s1 -> adds e2 e3 s2 -> adds e1 e3 (s1 ∪ s2).
Proof. intros H1 H2 Ht. destruct (H1 Ht) as [T2 E2]. destruct (H2 T2) as [T3 E3]. split; [done|]. by rewrite E3, E2, (assoc_L (∪)). Qed.

Lemma adds_emit e e' b s : adds e e' s -> adds e (emit b e') s.
Proof. intros H Ht. exact (H Ht). Qed.

Lemma adds_str e e' t v s : adds e e' s -> adds e (str t v e') s.
Proof. intros H Ht. exact (H Ht). Qed.

Lemma ref_adds n e i e' : ref n e = (i, e') -> adds e e' {[n]}.
Proof.
  unfold ref. destruct (e_names e !! n) as [idx|] eqn:En; intros [= <- <-] Ht.
  - split; [done|]. symmetry. rewrite (comm_L (∪)). apply subseteq_union_1_L.
    apply singleton_subseteq_l, elem_of_dom. by exists idx.
  - unfold tidy in *. cbn [count e_names]. rewrite map_size_insert_None, dom_insert_L by done. split; [lia|]. by rewrite (comm_L (∪)).
Qed.

Lemma attrs_add l e : adds e (fold_left write_attr l e) (list_to_set (map a_Name l)).
Proof.
  revert e. induction l as [|a l IH]; intros e; cbn [fold_left map list_to_set]; [by apply adds_none|].
  eapply adds_trans; [|apply IH]. unfold write_attr. destruct (ref (a_Name a) e) as [i e'] eqn:Er. apply adds_str, adds_emit. by eapply ref_adds.
Qed.

Lemma content_names el e : e_names (write_content el e) = e_names e /\ count (write_content el e) = count e.
Proof. unfold write_content. destruct (HasBody el); [done|]. by destruct (HasText el). Qed.

Lemma element_adds el e : adds e (element el e) (element_names el).
Proof.
  revert e. induction el as [n l cs t ht b hb IH] using element_nested_ind. intros e. cbn [element Name Attrs Children].
  destruct (ref n e) as [i e1] eqn:Er. apply adds_emit. cbn [element_names Name Attrs Children].
  assert (forall e, adds e (fold_left (fun e c => element c e) cs e) (⋃ (map element_names cs))) as Hcs.
  { clear -IH. induction IH as [|c cs Hc _ IHcs]; intros e; cbn [fold_left map union_list foldr]; [by apply adds_none|].
    eapply adds_trans; [apply Hc|apply IHcs]. }
  eapply adds_trans; [|apply Hcs]. set (e2 := fold_left write_attr l _). 
  assert (adds e e2 ({[n]} ∪ list_to_set (map a_Name l))) as H2.
  { eapply adds_trans; [apply adds_emit; eapply ref_adds; exact Er|]. apply attrs_add. }
  intros Ht. destruct (content_names (mkElement n l cs t ht b hb) e2) as [E1 E2]. unfold tidy. rewrite E1, E2. by apply H2.
Qed.

Lemma envelope_tidy : tidy envelope /\ dom (e_names envelope) = list_to_set envelope_names.
Proof.
  split; [by vm_compute|]. apply (bool_decide_unpack _). by vm_compute.
Qed.

(** Encode accepts a tree exactly when the envelope and the tree have at most 253 distinct
    names, so every name reference fits its byte. *)
Theorem bxml_encode_exact root :
  let n := size (list_to_set envelope_names ∪ element_names root) in
  ((n <= 253)%nat -> is_Ok (Encode root)) /\ ((253 < n)%nat -> Encode root = Err errBXML).
Proof.
  intros n. destruct envelope_tidy as [Ht Hd]. destruct (element_adds root envelope Ht) as [Hc Hn]. rewrite Hd in Hn.
  assert (count (element root envelope) = Z.of_nat n) as Hk.
  { unfold n. rewrite <- Hn, size_dom. exact Hc. }
  unfold Encode. cbv zeta. cbn [emit count out]. rewrite Hk. unfold nameRefBias. destruct (Z.ltb_spec 0xff (Z.of_nat n + 2)); split; try lia; [done|by eexists].
Qed.

(** A length that is written reads back modulo 2^21: a string of 2 MiB or more is written
    with a length the reader misreads. *)
Theorem bxml_length_wraps n r : 0 <= n -> readLength (writeLength [] n ++ r) = Ok (n mod 2 ^ 21, r).
Proof. apply length_read_back. Qed.

(** ** Instances *)
Definition sample_element : Element :=
  mkElement (lit "REQUEST") [mkAttr (lit "lines") (lit "1")]
    [mkElement (lit "URI") [] [] (lit "/sap/bc/adt") true [] false; mkElement (lit "MESSAGE_BODY") [] [] [] false (lit "<a/>") true] [] false [] false.

Lemma bxml_roundtrip_witness :
  exists doc tree, Encode sample_element = Ok doc /\ Decode doc = Ok tree /\ PayloadRoot tree = Ok sample_element.
Proof.
  destruct (Encode sample_element) as [doc| |] eqn:E; [|vm_compute in E; discriminate..].
  destruct (bxml_roundtrip sample_element doc eq_refl E) as (tree & H1 & H2). exists doc, tree. split; [done|]. split; [exact H1|exact H2].
Defined.

Lemma bxml_length_wraps_witness : readLength (writeLength [] (2 ^ 21 + 5)) = Ok (5, []).
Proof. pose proof (bxml_length_wraps (2 ^ 21 + 5) [] ltac:(lia)) as H. rewrite app_nil_r in H. exact H. Defined.
