(* ===== verification/Wire.v ===== *)
(** Package [wire] (wire/wire.go): the bounds-checked reader and the fixed-size
    writer every binary record of the protocol goes through.

    [Reader] and [Writer] are the Go structs; each method is a stateful
    computation on its receiver.  The theorems show that no method panics on a
    receiver in its invariant, that an error leaves the receiver untouched and
    names the exact shortfall, and that reading a record back field by field gives
    the fields that were written. *)
From stdpp Require Import base list numbers strings.
From Stdlib Require Import ZArith Lia Strings.Byte.
From S2P Require Import Prelude Errors.

Open Scope Z_scope.

(** [if context == "" { context = "byte record" }] *)
Definition default_context (context : string) : string :=
  if String.eqb context "" then "byte record" else context.

(** ** Reader *)
Module Reader.

Record t : Type := mk { data : bytes; context : string; offset : Z }.

Definition NewReader (data : bytes) (context : string) : t :=
  mk data (default_context context) 0.

Definition Len (r : t) : Z := zlen (data r).
Definition Offset (r : t) : Z := offset r.
Definition Remaining (r : t) : Z := zlen (data r) - offset r.

Definition advance (n : Z) (r : t) : t := mk (data r) (context r) (offset r + n).

Definition ensure (length : Z) (field : string) : M t unit := fun r =>
  if length <? 0 then (Err (EWire (ErrNegativeLength (context r) field length)), r)
  else if Remaining r <? length then
    (Err (EWire (ErrShortRead (context r) field length (offset r) (Remaining r))), r)
  else (Ok tt, r).

Definition ReadUint8 (field : string) : M t Z :=
  ensure 1 field;;
  r ← get;
  v ← lift (go_index (data r) (offset r));
  put (advance 1 r);;
  mret (b2z v).

Definition ReadUint16BE (field : string) : M t Z :=
  ensure 2 field;;
  r ← get;
  b ← lift (go_from (data r) (offset r));
  v ← lift (be_uint 2 b);
  put (advance 2 r);;
  mret v.

Definition ReadUint32BE (field : string) : M t Z :=
  ensure 4 field;;
  r ← get;
  b ← lift (go_from (data r) (offset r));
  v ← lift (be_uint 4 b);
  put (advance 4 r);;
  mret v.

Definition ReadUint32LE (field : string) : M t Z :=
  ensure 4 field;;
  r ← get;
  b ← lift (go_from (data r) (offset r));
  v ← lift (le_uint 4 b);
  put (advance 4 r);;
  mret v.

Definition ReadInt32BE (field : string) : M t Z :=
  v ← ReadUint32BE field; mret (int32 v).

Definition ReadInt32LE (field : string) : M t Z :=
  v ← ReadUint32LE field; mret (int32 v).

Definition ReadBytes (length : Z) (field : string) : M t bytes :=
  ensure length field;;
  r ← get;
  v ← lift (go_slice (data r) (offset r) (offset r + length));
  put (advance length r);;
  mret v.

Definition Skip (length : Z) (field : string) : M t unit :=
  ensure length field;;
  r ← get;
  put (advance length r).

Definition Finish : M t unit := fun r =>
  if Remaining r =? 0 then (Ok tt, r)
  else (Err (EWire (ErrTrailingBytes (context r) (Remaining r))), r).

(** The receiver invariant: the offset is inside the record. *)
Definition inv (r : t) : Prop := 0 <= offset r <= zlen (data r).

(** [at_ ctx pre rest]: the reader that has consumed [pre] and still holds [rest]. *)
Definition at_ (ctx : string) (pre rest : bytes) : t := mk (pre ++ rest) ctx (zlen pre).

End Reader.

(** ** Writer *)
Module Writer.

Record t : Type := mk { data : bytes; context : string; offset : Z }.

Definition NewWriter (length : Z) (context : string) : res t :=
  let context := default_context context in
  if length <? 0 then Err (EWire (ErrNegativeLength context "" length))
  else Ok (mk (zeros length) context 0).

Definition Len (w : t) : Z := zlen (data w).
Definition Offset (w : t) : Z := offset w.
Definition Remaining (w : t) : Z := zlen (data w) - offset w.

Definition ensure (length : Z) (field : string) : M t unit := fun w =>
  if length <? 0 then (Err (EWire (ErrNegativeLength (context w) field length)), w)
  else if Remaining w <? length then
    (Err (EWire (ErrShortRead (context w) field length (offset w) (Remaining w))), w)
  else (Ok tt, w).

(** The stores [w.data[w.offset] = value], [PutUintN(w.data[w.offset:], value)]
    and [copy(w.data[w.offset:], value)], followed by [w.offset += n]. *)
Definition store (v : bytes) : M t unit :=
  w ← get;
  sub ← lift (go_from (data w) (offset w));
  if (length sub <? length v)%nat then lift Panic
  else put (mk (go_copy (data w) (offset w) v) (context w) (offset w + zlen v)).

Definition WriteUint8 (value : Z) (field : string) : M t unit :=
  ensure 1 field;; store [z2b value].

Definition WriteUint16BE (value : Z) (field : string) : M t unit :=
  ensure 2 field;; store (be_split 2 value).

Definition WriteUint32BE (value : Z) (field : string) : M t unit :=
  ensure 4 field;; store (be_split 4 value).

Definition WriteInt32BE (value : Z) (field : string) : M t unit :=
  WriteUint32BE (uint32 value) field.

Definition WriteBytes (value : bytes) (field : string) : M t unit :=
  ensure (zlen value) field;; store value.

Definition Finish : M t bytes := fun w =>
  if Remaining w =? 0 then (Ok (data w), w)
  else (Err (EWire (ErrTrailingBytes (context w) (Remaining w))), w).

Definition inv (w : t) : Prop := 0 <= offset w <= zlen (data w).

(** [at_ ctx done_ room]: the writer that has written [done_] and has [room] zero
    bytes left. *)
Definition at_ (ctx : string) (done_ : bytes) (room : nat) : t :=
  mk (done_ ++ replicate room x00) ctx (zlen done_).

End Writer.

(** ** Reader facts *)
Section ReaderFacts.
Context (ctx : string) (pre : bytes).
Implicit Types (rest mid : bytes) (field : string).

Lemma at_remaining rest : Reader.Remaining (Reader.at_ ctx pre rest) = zlen rest.
Proof. unfold Reader.Remaining, Reader.at_. simpl. len_lia. Qed.

Lemma at_advance mid rest :
  Reader.advance (zlen mid) (Reader.at_ ctx pre (mid ++ rest)) = Reader.at_ ctx (pre ++ mid) rest.
Proof. unfold Reader.advance, Reader.at_. simpl. rewrite app_assoc, zlen_app. done. Qed.

Lemma ensure_at n field rest :
  0 <= n <= zlen rest ->
  Reader.ensure n field (Reader.at_ ctx pre rest) = (Ok tt, Reader.at_ ctx pre rest).
Proof. intros H. unfold Reader.ensure. rewrite at_remaining. case_tests; [lia|lia|done]. Qed.

Lemma go_from_at rest :
  go_from (E := error) (Reader.data (Reader.at_ ctx pre rest)) (zlen pre) = Ok rest.
Proof.
  unfold go_from, Reader.at_. simpl. rewrite <- (app_nil_r rest) at 1. apply go_slice_mid; len_lia.
Qed.

Lemma le_uint_app {E} n mid rest :
  length mid = n -> le_uint (E := E) n (mid ++ rest) = Ok (le_combine mid).
Proof.
  intros <-. unfold le_uint. case_tests; [len_lia|]. by rewrite take_app_length.
Qed.

Lemma ReadUint8_at field b rest :
  Reader.ReadUint8 field (Reader.at_ ctx pre (b :: rest))
  = (Ok (b2z b), Reader.at_ ctx (pre ++ [b]) rest).
Proof.
  unfold Reader.ReadUint8, mbind, stm_bind. rewrite ensure_at by (len_lia). msimpl.
  change (Reader.data _) with (pre ++ b :: rest). change (Reader.offset _) with (zlen pre).
  rewrite go_index_mid by done. f_equal. apply (at_advance [b]).
Qed.

Lemma ReadUint16BE_at field mid rest :
  length mid = 2%nat ->
  Reader.ReadUint16BE field (Reader.at_ ctx pre (mid ++ rest))
  = (Ok (be_combine mid), Reader.at_ ctx (pre ++ mid) rest).
Proof.
  intros H. unfold Reader.ReadUint16BE, mbind, stm_bind. rewrite ensure_at by len_lia. msimpl.
  rewrite go_from_at. rewrite be_uint_app by done. f_equal.
  rewrite <- at_advance. f_equal. len_lia.
Qed.

Lemma ReadUint32BE_at field mid rest :
  length mid = 4%nat ->
  Reader.ReadUint32BE field (Reader.at_ ctx pre (mid ++ rest))
  = (Ok (be_combine mid), Reader.at_ ctx (pre ++ mid) rest).
Proof.
  intros H. unfold Reader.ReadUint32BE, mbind, stm_bind. rewrite ensure_at by len_lia. msimpl.
  rewrite go_from_at. rewrite be_uint_app by done. f_equal.
  rewrite <- at_advance. f_equal. len_lia.
Qed.

Lemma ReadUint32LE_at field mid rest :
  length mid = 4%nat ->
  Reader.ReadUint32LE field (Reader.at_ ctx pre (mid ++ rest))
  = (Ok (le_combine mid), Reader.at_ ctx (pre ++ mid) rest).
Proof.
  intros H. unfold Reader.ReadUint32LE, mbind, stm_bind. rewrite ensure_at by len_lia. msimpl.
  rewrite go_from_at. rewrite le_uint_app by done. f_equal.
  rewrite <- at_advance. f_equal. len_lia.
Qed.

Lemma ReadInt32BE_at field mid rest :
  length mid = 4%nat ->
  Reader.ReadInt32BE field (Reader.at_ ctx pre (mid ++ rest))
  = (Ok (int32 (be_combine mid)), Reader.at_ ctx (pre ++ mid) rest).
Proof. intros H. unfold Reader.ReadInt32BE, mbind, stm_bind. by rewrite ReadUint32BE_at. Qed.

Lemma ReadBytes_at field n mid rest :
  zlen mid = n ->
  Reader.ReadBytes n field (Reader.at_ ctx pre (mid ++ rest))
  = (Ok mid, Reader.at_ ctx (pre ++ mid) rest).
Proof.
  intros <-. unfold Reader.ReadBytes, mbind, stm_bind. rewrite ensure_at by len_lia. msimpl.
  change (Reader.data _) with (pre ++ mid ++ rest). change (Reader.offset _) with (zlen pre).
  rewrite go_slice_mid by done. f_equal. apply at_advance.
Qed.

Lemma Finish_at : Reader.Finish (Reader.at_ ctx pre []) = (Ok tt, Reader.at_ ctx pre []).
Proof. unfold Reader.Finish. rewrite at_remaining. done. Qed.
End ReaderFacts.

Lemma NewReader_at data ctx :
  Reader.NewReader data ctx = Reader.at_ (default_context ctx) [] data.
Proof. done. Qed.

(** ** Writer facts *)
Section WriterFacts.
Context (ctx : string) (done_ : bytes).
Implicit Types (field : string) (room : nat).

Lemma wat_remaining room : Writer.Remaining (Writer.at_ ctx done_ room) = Z.of_nat room.
Proof. unfold Writer.Remaining, Writer.at_. simpl. len_lia. Qed.

Lemma wensure_at n field room :
  0 <= n <= Z.of_nat room ->
  Writer.ensure n field (Writer.at_ ctx done_ room) = (Ok tt, Writer.at_ ctx done_ room).
Proof. intros H. unfold Writer.ensure. rewrite wat_remaining. case_tests; [lia|lia|done]. Qed.

Lemma store_at v room :
  (length v <= room)%nat ->
  Writer.store v (Writer.at_ ctx done_ room)
  = (Ok tt, Writer.at_ ctx (done_ ++ v) (room - length v)).
Proof.
  intros H. unfold Writer.store, mbind, stm_bind. msimpl.
  unfold go_from, Writer.at_. cbn [Writer.data Writer.offset Writer.context].
  rewrite go_slice_ok by len_lia.
  case_tests; [exfalso; len_lia|].
  unfold put. f_equal. cbn [Writer.data Writer.offset Writer.context]. rewrite go_copy_exact by done. f_equal. len_lia.
Qed.

Lemma WriteUint8_at v field room :
  Writer.WriteUint8 v field (Writer.at_ ctx done_ (1 + room))
  = (Ok tt, Writer.at_ ctx (done_ ++ [z2b v]) room).
Proof.
  unfold Writer.WriteUint8, mbind, stm_bind. rewrite wensure_at by lia.
  rewrite store_at by (simpl; lia). simpl. do 3 f_equal. lia.
Qed.

Lemma WriteUint16BE_at v field room :
  Writer.WriteUint16BE v field (Writer.at_ ctx done_ (2 + room))
  = (Ok tt, Writer.at_ ctx (done_ ++ be_split 2 v) room).
Proof.
  unfold Writer.WriteUint16BE, mbind, stm_bind. rewrite wensure_at by lia.
  rewrite store_at by (rewrite length_be_split; lia). rewrite length_be_split.
  do 2 f_equal. lia.
Qed.

Lemma WriteUint32BE_at v field room :
  Writer.WriteUint32BE v field (Writer.at_ ctx done_ (4 + room))
  = (Ok tt, Writer.at_ ctx (done_ ++ be_split 4 v) room).
Proof.
  unfold Writer.WriteUint32BE, mbind, stm_bind. rewrite wensure_at by lia.
  rewrite store_at by (rewrite length_be_split; lia). rewrite length_be_split.
  do 2 f_equal. lia.
Qed.

Lemma WriteInt32BE_at v field room :
  Writer.WriteInt32BE v field (Writer.at_ ctx done_ (4 + room))
  = (Ok tt, Writer.at_ ctx (done_ ++ be_split 4 (uint32 v)) room).
Proof. apply WriteUint32BE_at. Qed.

Lemma WriteBytes_at v field room :
  Writer.WriteBytes v field (Writer.at_ ctx done_ (length v + room))
  = (Ok tt, Writer.at_ ctx (done_ ++ v) room).
Proof.
  unfold Writer.WriteBytes, mbind, stm_bind. rewrite wensure_at by len_lia.
  rewrite store_at by lia. do 2 f_equal. lia.
Qed.

Lemma WFinish_at : Writer.Finish (Writer.at_ ctx done_ 0) = (Ok done_, Writer.at_ ctx done_ 0).
Proof.
  unfold Writer.Finish. rewrite wat_remaining. simpl. by rewrite app_nil_r.
Qed.
End WriterFacts.

Lemma NewWriter_at n ctx :
  0 <= n -> Writer.NewWriter n ctx = Ok (Writer.at_ (default_context ctx) [] (Z.to_nat n)).
Proof. intros H. unfold Writer.NewWriter. case_tests; [lia|]. done. Qed.

(** ** Every read, on every receiver *)
Inductive read_op : Type :=
| RUint8 | RUint16BE | RUint32BE | RUint32LE | RInt32BE | RInt32LE
| RBytes (n : Z) | RSkip (n : Z).

Inductive value : Type := VInt (z : Z) | VBytes (b : bytes) | VUnit.

Definition run_read (op : read_op) (field : string) : M Reader.t value :=
  match op with
  | RUint8 => v ← Reader.ReadUint8 field; mret (VInt v)
  | RUint16BE => v ← Reader.ReadUint16BE field; mret (VInt v)
  | RUint32BE => v ← Reader.ReadUint32BE field; mret (VInt v)
  | RUint32LE => v ← Reader.ReadUint32LE field; mret (VInt v)
  | RInt32BE => v ← Reader.ReadInt32BE field; mret (VInt v)
  | RInt32LE => v ← Reader.ReadInt32LE field; mret (VInt v)
  | RBytes n => v ← Reader.ReadBytes n field; mret (VBytes v)
  | RSkip n => Reader.Skip n field;; mret VUnit
  end.

Definition read_width (op : read_op) : Z :=
  match op with
  | RUint8 => 1
  | RUint16BE => 2
  | RUint32BE | RUint32LE | RInt32BE | RInt32LE => 4
  | RBytes n | RSkip n => n
  end.

(** What a read of [op] makes of the bytes it covers. *)
Definition read_value (op : read_op) (b : bytes) : value :=
  match op with
  | RUint8 | RUint16BE | RUint32BE => VInt (be_combine b)
  | RUint32LE => VInt (le_combine b)
  | RInt32BE => VInt (int32 (be_combine b))
  | RInt32LE => VInt (int32 (le_combine b))
  | RBytes _ => VBytes b
  | RSkip _ => VUnit
  end.

Definition read_spec (op : read_op) (field : string) (r : Reader.t) : res value * Reader.t :=
  let n := read_width op in
  if n <? 0 then (Err (EWire (ErrNegativeLength (Reader.context r) field n)), r)
  else if Reader.Remaining r <? n then
    (Err (EWire (ErrShortRead (Reader.context r) field n (Reader.offset r) (Reader.Remaining r))), r)
  else (Ok (read_value op (take (Z.to_nat n) (drop (Z.to_nat (Reader.offset r)) (Reader.data r)))),
        Reader.advance n r).

Lemma inv_at r :
  Reader.inv r ->
  r = Reader.at_ (Reader.context r) (take (Z.to_nat (Reader.offset r)) (Reader.data r))
        (drop (Z.to_nat (Reader.offset r)) (Reader.data r)).
Proof.
  intros H. unfold Reader.inv, Reader.at_ in *. destruct r as [d c o]. simpl in *.
  rewrite take_drop. f_equal. len_lia.
Qed.

Lemma read_at op field ctx pre mid rest :
  zlen mid = read_width op ->
  run_read op field (Reader.at_ ctx pre (mid ++ rest))
  = (Ok (read_value op mid), Reader.at_ ctx (pre ++ mid) rest).
Proof.
  intros H. destruct op; simpl in *; unfold mbind, stm_bind.
  - destruct mid as [|b [|]]; try (exfalso; len_lia). cbn [app]. rewrite ReadUint8_at.
    done.
  - rewrite ReadUint16BE_at by len_lia. done.
  - rewrite ReadUint32BE_at by len_lia. done.
  - rewrite ReadUint32LE_at by len_lia. done.
  - rewrite ReadInt32BE_at by len_lia. done.
  - unfold Reader.ReadInt32LE, mbind, stm_bind. rewrite ReadUint32LE_at by len_lia. done.
  - rewrite ReadBytes_at by done. done.
  - unfold Reader.Skip, mbind, stm_bind. rewrite ensure_at by len_lia. msimpl.
    rewrite <- H, at_advance. done.
Qed.

Lemma read_refused op field r e :
  Reader.ensure (read_width op) field r = (Err e, r) -> run_read op field r = (Err e, r).
Proof.
  intros H. destruct op; simpl in *;
    unfold mbind, stm_bind, Reader.ReadInt32BE, Reader.ReadInt32LE, Reader.ReadUint8,
      Reader.ReadUint16BE, Reader.ReadUint32BE, Reader.ReadUint32LE, Reader.ReadBytes, Reader.Skip,
      mbind, stm_bind; rewrite H; done.
Qed.

(** Every read of the wire reader behaves as specified on every branch: the value and the
    advanced offset, or the short-read or negative-length error with the documented numbers
    and an unchanged reader; the reader's invariant is kept. *)
Theorem reader_read_total op field r :
  Reader.inv r -> run_read op field r = read_spec op field r /\ Reader.inv (snd (run_read op field r)).
Proof.
  intros Hinv.
  assert (run_read op field r = read_spec op field r) as E.
  { unfold read_spec. case_tests.
    - apply read_refused. unfold Reader.ensure. case_tests; done || lia.
    - apply read_refused. unfold Reader.ensure. case_tests; done || lia.
    - assert (0 <= read_width op <= Reader.Remaining r) as Hw by lia. revert Hw.
      rewrite (inv_at r Hinv) at 1 2. rewrite at_remaining. intros Hw.
      rewrite <- (take_drop (Z.to_nat (read_width op)) (drop _ (Reader.data r))) at 1.
      rewrite read_at by len_lia. f_equal. unfold Reader.at_, Reader.advance.
      unfold Reader.inv in Hinv. rewrite <- app_assoc, !take_drop. f_equal. len_lia. }
  split; [done|]. rewrite E. unfold read_spec. unfold Reader.inv, Reader.Remaining in *.
  case_tests; simpl; lia.
Qed.

(** ** Every write, on every receiver *)
Inductive field_value : Type :=
| FUint8 (v : Z) | FUint16BE (v : Z) | FUint32BE (v : Z) | FInt32BE (v : Z) | FBytes (v : bytes).

Definition write_field (f : string * field_value) : M Writer.t unit :=
  match f.2 with
  | FUint8 v => Writer.WriteUint8 v f.1
  | FUint16BE v => Writer.WriteUint16BE v f.1
  | FUint32BE v => Writer.WriteUint32BE v f.1
  | FInt32BE v => Writer.WriteInt32BE v f.1
  | FBytes v => Writer.WriteBytes v f.1
  end.

Definition field_bytes (f : field_value) : bytes :=
  match f with
  | FUint8 v => [z2b v]
  | FUint16BE v => be_split 2 v
  | FUint32BE v => be_split 4 v
  | FInt32BE v => be_split 4 (uint32 v)
  | FBytes v => v
  end.

(** What Go's parameter types guarantee of a written value. *)
Definition field_typed (f : field_value) : Prop :=
  match f with
  | FUint8 v => is_u8 v
  | FUint16BE v => is_u16 v
  | FUint32BE v => is_u32 v
  | FInt32BE v => is_i32 v
  | FBytes _ => True
  end.

(** The read that matches a write. *)
Definition read_back (f : string * field_value) : M Reader.t field_value :=
  match f.2 with
  | FUint8 _ => v ← Reader.ReadUint8 f.1; mret (FUint8 v)
  | FUint16BE _ => v ← Reader.ReadUint16BE f.1; mret (FUint16BE v)
  | FUint32BE _ => v ← Reader.ReadUint32BE f.1; mret (FUint32BE v)
  | FInt32BE _ => v ← Reader.ReadInt32BE f.1; mret (FInt32BE v)
  | FBytes b => v ← Reader.ReadBytes (zlen b) f.1; mret (FBytes v)
  end.

Fixpoint write_fields (fs : list (string * field_value)) : M Writer.t unit :=
  match fs with
  | [] => mret tt
  | f :: fs => write_field f;; write_fields fs
  end.

Fixpoint read_fields (fs : list (string * field_value)) : M Reader.t (list field_value) :=
  match fs with
  | [] => mret []
  | f :: fs => v ← read_back f; vs ← read_fields fs; mret (v :: vs)
  end.

Definition fields_bytes (fs : list (string * field_value)) : bytes :=
  mjoin (field_bytes <$> fs.*2).

Lemma fields_bytes_cons f fs : fields_bytes (f :: fs) = field_bytes f.2 ++ fields_bytes fs.
Proof. done. Qed.

Lemma write_field_at f ctx done_ room :
  write_field f (Writer.at_ ctx done_ (length (field_bytes f.2) + room))
  = (Ok tt, Writer.at_ ctx (done_ ++ field_bytes f.2) room).
Proof.
  destruct f as [n [v|v|v|v|v]]; cbn [write_field field_bytes fst snd];
    rewrite ?length_be_split.
  - apply WriteUint8_at.
  - apply WriteUint16BE_at.
  - apply WriteUint32BE_at.
  - apply WriteInt32BE_at.
  - apply WriteBytes_at.
Qed.

Lemma write_fields_at fs ctx done_ room :
  write_fields fs (Writer.at_ ctx done_ (length (fields_bytes fs) + room))
  = (Ok tt, Writer.at_ ctx (done_ ++ fields_bytes fs) room).
Proof.
  revert done_. induction fs as [|f fs IH]; intros done_.
  - cbn. by rewrite app_nil_r.
  - rewrite fields_bytes_cons, length_app, <- Nat.add_assoc.
    cbn [write_fields]. unfold mbind, stm_bind. rewrite write_field_at, IH, app_assoc. done.
Qed.

Lemma read_back_at f ctx pre rest :
  field_typed f.2 ->
  read_back f (Reader.at_ ctx pre (field_bytes f.2 ++ rest))
  = (Ok f.2, Reader.at_ ctx (pre ++ field_bytes f.2) rest).
Proof.
  destruct f as [n [v|v|v|v|v]]; cbn [read_back field_bytes fst snd field_typed]; intros H;
    unfold mbind, stm_bind.
  - cbn [app]. rewrite ReadUint8_at. by rewrite b2z_z2b_small.
  - rewrite ReadUint16BE_at by apply length_be_split. rewrite be_combine_split.
    rewrite Z.mod_small by apply H. done.
  - rewrite ReadUint32BE_at by apply length_be_split. rewrite be_combine_split.
    rewrite Z.mod_small by apply H. done.
  - rewrite ReadInt32BE_at by apply length_be_split. rewrite be_combine_split.
    change (256 ^ Z.of_nat 4) with (2 ^ 32). change (uint32 v mod 2 ^ 32) with (uint32 (uint32 v)).
    unfold uint32 at 1. unfold uint32 at 1. rewrite Z.mod_mod by lia.
    change (v mod 2 ^ 32) with (uint32 v). rewrite int32_uint32 by done. done.
  - by rewrite ReadBytes_at.
Qed.

Lemma read_fields_at fs ctx pre rest :
  Forall (fun f => field_typed f.2) fs ->
  read_fields fs (Reader.at_ ctx pre (fields_bytes fs ++ rest))
  = (Ok (snd <$> fs), Reader.at_ ctx (pre ++ fields_bytes fs) rest).
Proof.
  intros H. revert pre. induction H as [|f fs Hf _ IH]; intros pre.
  - cbn. by rewrite app_nil_r.
  - rewrite fields_bytes_cons, <- app_assoc. cbn [read_fields]. unfold mbind, stm_bind.
    rewrite read_back_at by done. rewrite IH. rewrite <- app_assoc. done.
Qed.

(** Writing any list of well-typed fields into a writer of exactly their size and reading
    them back in order returns the values, with nothing left over on either side. *)
Theorem wire_fields_roundtrip ctx fs :
  Forall (fun f => field_typed f.2) fs ->
  exists w record,
    Writer.NewWriter (zlen (fields_bytes fs)) ctx = Ok w /\
    run (write_fields fs;; Writer.Finish) w = Ok record /\
    run (vs ← read_fields fs; Reader.Finish;; mret vs) (Reader.NewReader record ctx)
      = Ok (snd <$> fs).
Proof.
  intros H. eexists _, (fields_bytes fs). split; [apply NewWriter_at; auto with orfc|].
  unfold run, mbind, stm_bind. split.
  - rewrite to_nat_zlen, <- (Nat.add_0_r (length _)), write_fields_at, WFinish_at. done.
  - rewrite NewReader_at, <- (app_nil_r (fields_bytes fs)), read_fields_at by done.
    rewrite Finish_at. done.
Qed.

Lemma wire_fields_roundtrip_witness :
  exists w record,
    Writer.NewWriter 11 "r" = Ok w /\
    run (write_fields [("a", FUint8 255); ("b", FUint16BE 258); ("c", FInt32BE (-2));
                       ("d", FBytes (lit "CPIC"))];; Writer.Finish) w = Ok record /\
    run (vs ← read_fields [("a", FUint8 0); ("b", FUint16BE 0); ("c", FInt32BE 0);
                           ("d", FBytes (lit "xxxx"))]; Reader.Finish;; mret vs)
        (Reader.NewReader record "r")
      = Ok [FUint8 255; FUint16BE 258; FInt32BE (-2); FBytes (lit "CPIC")].
Proof.
  apply (wire_fields_roundtrip "r" [("a", FUint8 255); ("b", FUint16BE 258); ("c", FInt32BE (-2));
                                    ("d", FBytes (lit "CPIC"))]).
  repeat constructor; simpl; unfold is_u8, is_u16, is_i32; lia.
Defined.

(** The outcome of one write: the bytes appended in place, or a refusal that names
    the shortfall and leaves the record as it was. *)
Definition write_spec (f : string * field_value) (w : Writer.t) : res unit * Writer.t :=
  let n := zlen (field_bytes f.2) in
  if Writer.Remaining w <? n then
    (Err (EWire (ErrShortRead (Writer.context w) f.1 n (Writer.offset w) (Writer.Remaining w))), w)
  else (Ok tt, Writer.mk (go_copy (Writer.data w) (Writer.offset w) (field_bytes f.2))
                 (Writer.context w) (Writer.offset w + n)).

Lemma write_field_ensure f w :
  write_field f w = (Writer.ensure (zlen (field_bytes f.2)) f.1;; Writer.store (field_bytes f.2)) w.
Proof.
  destruct f as [n [v|v|v|v|v]]; cbn [write_field field_bytes fst snd]; try done;
    unfold zlen; rewrite length_be_split; done.
Qed.

Lemma store_ok v w :
  Writer.inv w -> zlen v <= Writer.Remaining w ->
  Writer.store v w = (Ok tt, Writer.mk (go_copy (Writer.data w) (Writer.offset w) v)
                               (Writer.context w) (Writer.offset w + zlen v)).
Proof.
  unfold Writer.inv, Writer.Remaining. intros Hi Hv.
  unfold Writer.store, mbind, stm_bind, go_from. msimpl. rewrite go_slice_ok by lia.
  case_tests; [exfalso; len_lia|]. done.
Qed.

(** Every write of the wire writer behaves as specified on every branch, keeps the invariant
    and never changes what was already written. *)
Theorem writer_write_total f w :
  Writer.inv w ->
  write_field f w = write_spec f w /\
  Writer.inv (snd (write_field f w)) /\
  zlen (Writer.data (snd (write_field f w))) = zlen (Writer.data w) /\
  take (Z.to_nat (Writer.offset w)) (Writer.data (snd (write_field f w)))
    = take (Z.to_nat (Writer.offset w)) (Writer.data w).
Proof.
  intros Hinv.
  assert (write_field f w = write_spec f w) as E.
  { rewrite write_field_ensure. unfold write_spec, mbind, stm_bind, Writer.ensure.
    pose proof (zlen_nonneg (field_bytes f.2)).
    case_tests; try lia; [done|]. rewrite store_ok; done. }
  split; [done|]. rewrite E. unfold write_spec. unfold Writer.inv, Writer.Remaining in *.
  case_tests; simpl; [done|].
  unfold go_copy. split_and!; try len_lia.
  rewrite take_app_le by len_lia. rewrite take_take. f_equal. lia.
Qed.

Lemma reader_read_total_witness :
  run_read RUint16BE "uid" (Reader.NewReader [x01] "APPC") =
  (Err (EWire (ErrShortRead "APPC" "uid" 2 0 1)), Reader.NewReader [x01] "APPC") /\
  run_read RUint16BE "uid" (Reader.NewReader [x01; x02] "APPC") =
  (Ok (VInt 258), Reader.advance 2 (Reader.NewReader [x01; x02] "APPC")).
Proof.
  split.
  - apply (reader_read_total RUint16BE "uid" (Reader.NewReader [x01] "APPC")).
    vm_compute; split; discriminate.
  - apply (reader_read_total RUint16BE "uid" (Reader.NewReader [x01; x02] "APPC")).
    vm_compute; split; discriminate.
Defined.

Lemma writer_write_total_witness :
  write_field ("uid", FUint16BE 258) (Writer.mk [x00] "APPC" 0) =
  (Err (EWire (ErrShortRead "APPC" "uid" 2 0 1)), Writer.mk [x00] "APPC" 0).
Proof.
  apply (writer_write_total ("uid", FUint16BE 258) (Writer.mk [x00] "APPC" 0)).
  vm_compute; split; discriminate.
Defined.

(** ** Stepping through a record

    One lemma per read, in the form a decoder proof rewrites with: the bytes are
    those of a written field.  [rstep] applies the one that fits. *)
Section Steps.
Context {B : Type} (ctx : string) (pre rest : bytes) (field : string).

Lemma step_u8 v (k : Z -> M Reader.t B) :
  is_u8 v ->
  (x ← Reader.ReadUint8 field; k x) (Reader.at_ ctx pre (field_bytes (FUint8 v) ++ rest))
  = k v (Reader.at_ ctx (pre ++ field_bytes (FUint8 v)) rest).
Proof. intros H. apply bind_ok. cbn [field_bytes app]. rewrite ReadUint8_at. by rewrite b2z_z2b_small. Qed.

Lemma step_u16 v (k : Z -> M Reader.t B) :
  is_u16 v ->
  (x ← Reader.ReadUint16BE field; k x) (Reader.at_ ctx pre (field_bytes (FUint16BE v) ++ rest))
  = k v (Reader.at_ ctx (pre ++ field_bytes (FUint16BE v)) rest).
Proof.
  intros H. apply bind_ok. cbn [field_bytes]. rewrite ReadUint16BE_at by apply length_be_split.
  rewrite be_combine_split, Z.mod_small by apply H. done.
Qed.

Lemma step_u32 v (k : Z -> M Reader.t B) :
  is_u32 v ->
  (x ← Reader.ReadUint32BE field; k x) (Reader.at_ ctx pre (field_bytes (FUint32BE v) ++ rest))
  = k v (Reader.at_ ctx (pre ++ field_bytes (FUint32BE v)) rest).
Proof.
  intros H. apply bind_ok. cbn [field_bytes]. rewrite ReadUint32BE_at by apply length_be_split.
  rewrite be_combine_split, Z.mod_small by apply H. done.
Qed.

Lemma step_i32 v (k : Z -> M Reader.t B) :
  is_i32 v ->
  (x ← Reader.ReadInt32BE field; k x) (Reader.at_ ctx pre (field_bytes (FInt32BE v) ++ rest))
  = k v (Reader.at_ ctx (pre ++ field_bytes (FInt32BE v)) rest).
Proof.
  intros H. pose proof (read_back_at (field, FInt32BE v) ctx pre rest H) as E.
  cbn [read_back fst snd] in E. unfold mbind, stm_bind in *.
  destruct (Reader.ReadInt32BE field _) as [[z| |] s]; cbn in E; try discriminate.
  injection E as -> ->. done.
Qed.

Lemma step_bytes n b (k : bytes -> M Reader.t B) :
  zlen b = n ->
  (x ← Reader.ReadBytes n field; k x) (Reader.at_ ctx pre (field_bytes (FBytes b) ++ rest))
  = k b (Reader.at_ ctx (pre ++ field_bytes (FBytes b)) rest).
Proof. intros H. apply bind_ok. cbn [field_bytes]. by apply ReadBytes_at. Qed.

Lemma step_lift {A} (m : res A) a (k : A -> M Reader.t B) s :
  m = Ok a -> (x ← lift m; k x) s = k a s.
Proof. intros ->. done. Qed.

Lemma step_finish (k : unit -> M Reader.t B) :
  (Reader.Finish ≫= k) (Reader.at_ ctx pre []) = k tt (Reader.at_ ctx pre []).
Proof. apply bind_ok. apply Finish_at. Qed.
End Steps.

Lemma zlen_field_u8 v : zlen (field_bytes (FUint8 v)) = 1.
Proof. done. Qed.
Lemma zlen_field_u16 v : zlen (field_bytes (FUint16BE v)) = 2.
Proof. unfold zlen. cbn [field_bytes]. by rewrite length_be_split. Qed.
Lemma zlen_field_u32 v : zlen (field_bytes (FUint32BE v)) = 4.
Proof. unfold zlen. cbn [field_bytes]. by rewrite length_be_split. Qed.
Lemma zlen_field_i32 v : zlen (field_bytes (FInt32BE v)) = 4.
Proof. unfold zlen. cbn [field_bytes]. by rewrite length_be_split. Qed.
Lemma zlen_field_bytes b : zlen (field_bytes (FBytes b)) = zlen b.
Proof. done. Qed.
Lemma zlen_fields_nil : zlen (fields_bytes []) = 0.
Proof. done. Qed.
#[export] Hint Rewrite zlen_field_u8 zlen_field_u16 zlen_field_u32 zlen_field_i32 zlen_field_bytes
  zlen_fields_nil : orfc.

(** The width of a field list whose byte fields have known widths. *)
Ltac fields_len :=
  rewrite ?fields_bytes_cons; cbn [snd]; autorewrite with orfc;
  rewrite ?zlen_zeros by lia; lia.

Ltac rstep := first
  [ rewrite step_u8 by done | rewrite step_u16 by done | rewrite step_u32 by done
  | rewrite step_i32 by done | rewrite step_bytes by done | rewrite step_finish ].

(** ** Sequences of writes

    The encoders write through closures [put] (one write) and [putField]/[putEnc]
    (encode a field, then write its bytes), each skipped once an error is set. *)
Inductive item : Type :=
| Put (f : string * field_value)
| PutEnc (field : string) (enc : res bytes).

Definition write_item (i : item) : M Writer.t unit :=
  match i with
  | Put f => write_field f
  | PutEnc field enc => b ← lift enc; Writer.WriteBytes b field
  end.

Fixpoint write_items (its : list item) : M Writer.t unit :=
  match its with
  | [] => mret tt
  | i :: its => write_item i;; write_items its
  end.

(** [NewWriter(n, context)], the writes, and [Finish]. *)
Definition encode_items (n : Z) (context : string) (its : list item) : res bytes :=
  w ← Writer.NewWriter n context;
  run (write_items its;; Writer.Finish) w.

(** The fields the items stand for, when every encoder succeeds. *)
Fixpoint resolve (its : list item) : res (list (string * field_value)) :=
  match its with
  | [] => Ok []
  | Put f :: its => fs ← resolve its; Ok (f :: fs)
  | PutEnc field enc :: its => b ← enc; fs ← resolve its; Ok ((field, FBytes b) :: fs)
  end.

Lemma write_items_resolve its fs :
  resolve its = Ok fs -> forall w, write_items its w = write_fields fs w.
Proof.
  revert fs. induction its as [|[f|field enc] its IH]; cbn [resolve write_items]; intros fs H w.
  - by apply Ok_inj in H as <-.
  - destruct (resolve its) as [fs'| |]; try discriminate. apply Ok_inj in H as <-.
    cbn [write_fields write_item]. unfold mbind, stm_bind.
    destruct (write_field f w) as [[[]| |] w']; try done. by apply IH.
  - destruct enc as [b| |]; try discriminate. destruct (resolve its) as [fs'| |]; try discriminate.
    apply Ok_inj in H as <-. cbn [write_fields write_item write_field fst snd].
    unfold mbind, stm_bind, lift. destruct (Writer.WriteBytes b field w) as [[[]| |] w']; try done.
    by apply IH.
Qed.

Lemma write_items_ok_resolves its w w' :
  write_items its w = (Ok tt, w') -> exists fs, resolve its = Ok fs.
Proof.
  revert w. induction its as [|[f|field enc] its IH]; cbn [resolve write_items]; intros w H.
  - by eexists.
  - cbn [write_item] in H. unfold mbind, stm_bind in H.
    destruct (write_field f w) as [[[]| |] w1]; try discriminate.
    destruct (IH w1 H) as [fs ->]. by eexists.
  - cbn [write_item] in H. unfold mbind, stm_bind, lift in H. destruct enc as [b| |]; try discriminate.
    destruct (Writer.WriteBytes b field w) as [[[]| |] w1]; try discriminate.
    destruct (IH w1 H) as [fs ->]. by eexists.
Qed.

Lemma encode_items_ok n context its fs :
  resolve its = Ok fs -> zlen (fields_bytes fs) = n -> encode_items n context its = Ok (fields_bytes fs).
Proof.
  intros Hr <-. unfold encode_items. rewrite NewWriter_at by apply zlen_nonneg.
  cbn [mbind outcome_bind]. unfold run. rewrite to_nat_zlen.
  erewrite bind_ok
    by (rewrite (write_items_resolve _ _ Hr), <- (Nat.add_0_r (length _)); apply write_fields_at).
  cbn [app]. by rewrite WFinish_at.
Qed.

Lemma encode_items_inv n context its b :
  encode_items n context its = Ok b ->
  exists fs, resolve its = Ok fs /\ (zlen (fields_bytes fs) = n -> b = fields_bytes fs).
Proof.
  intros H. assert (exists fs, resolve its = Ok fs) as [fs Hr].
  { unfold encode_items in H. destruct (Writer.NewWriter n context) as [w| |]; try discriminate.
    cbn [mbind outcome_bind] in H. unfold run, mbind, stm_bind in H.
    destruct (write_items its w) as [[[]| |] w'] eqn:E; try discriminate.
    by eapply write_items_ok_resolves. }
  exists fs. split; [done|]. intros Hl. rewrite (encode_items_ok n context its fs Hr Hl) in H.
  by apply Ok_inj in H.
Qed.

(** Invert a successful [resolve], one encoder at a time. *)
Lemma resolve_put_inv f its fs :
  resolve (Put f :: its) = Ok fs -> exists fs', resolve its = Ok fs' /\ fs = f :: fs'.
Proof.
  cbn. destruct (resolve its); try discriminate. intros H. apply Ok_inj in H as <-. eauto.
Qed.

Lemma resolve_enc_inv field enc its fs :
  resolve (PutEnc field enc :: its) = Ok fs ->
  exists b fs', enc = Ok b /\ resolve its = Ok fs' /\ fs = (field, FBytes b) :: fs'.
Proof.
  cbn. destruct enc; try discriminate. cbn. destruct (resolve its); try discriminate.
  intros H. apply Ok_inj in H as <-. eauto 6.
Qed.

Ltac resolve_inv H :=
  lazymatch type of H with
  | resolve (Put _ :: _) = Ok _ =>
      let fs := fresh "fs" in apply resolve_put_inv in H as (fs & H & ->); resolve_inv H
  | resolve (PutEnc _ _ :: _) = Ok _ =>
      let b := fresh "b" in let fs := fresh "fs" in let E := fresh "E" in
      apply resolve_enc_inv in H as (b & fs & E & H & ->); resolve_inv H
  | resolve [] = Ok _ => apply Ok_inj in H; subst
  | _ => idtac
  end.
