(* ===== verification/Ni.v ===== *)
(** Package [ni] (ni/frame.go): NI framing, a four-byte big-endian length before
    each payload, and the incremental decoder that separates frames from an
    arbitrarily chunked byte stream.

    [FrameDecoder] keeps the Go representation: a queue of retained chunks, the
    head position and the buffered count.  [stream] abstracts it to the bytes still
    to be consumed, and [deframe] is the reference that splits a whole byte string.
    [Push] is proved to compute [deframe] on the abstract stream, so what is decoded
    does not depend on how the stream was cut into chunks, and the
    [ErrInconsistentQueue] branches are unreachable. *)
From stdpp Require Import base list numbers strings.
From Stdlib Require Import ZArith Lia Strings.Byte.
From S2P Require Import Prelude Errors.

Open Scope Z_scope.

Definition lengthBytes : Z := 4.
Definition DefaultMaxPayloadLength : Z := 256 * 1024 * 1024.
Definition MaxUint32 : Z := 2 ^ 32 - 1.

Definition EncodeFrame (payload : bytes) : res bytes :=
  if MaxUint32 <? zlen payload then Err (ENi (ErrPayloadTooLong (zlen payload)))
  else
    let frame := zeros (lengthBytes + zlen payload) in
    let frame := go_copy frame 0 (be_split 4 (uint32 (zlen payload))) in
    Ok (go_copy frame lengthBytes payload).

Record FrameDecoder : Type := mkFrameDecoder {
  maxPayloadLength : Z;
  chunks : list bytes;
  headIndex : Z;
  headOffset : Z;
  buffered : Z;
}.

Definition NewFrameDecoder (maxPayloadLength : Z) : res FrameDecoder :=
  if maxPayloadLength <? 0 then Err (ENi (ErrNegativeLimit maxPayloadLength))
  else Ok (mkFrameDecoder maxPayloadLength [] 0 0 0).

Definition Buffered (d : FrameDecoder) : Z := buffered d.

(** [wipe(from, to)]: the chunks in the range are cleared and released (nil). *)
Definition wipe (from to : Z) (cs : list bytes) : list bytes :=
  imap (fun i c => if (from <=? Z.of_nat i) && (Z.of_nat i <? to) then [] else c) cs.

Definition compact (d : FrameDecoder) : FrameDecoder :=
  let n := zlen (chunks d) in
  if headIndex d =? n then
    (* d.wipe(0, len(d.chunks)); d.chunks = nil; d.headIndex = 0 *)
    mkFrameDecoder (maxPayloadLength d) [] 0 (headOffset d) (buffered d)
  else if (64 <=? headIndex d) && (n <=? headIndex d * 2) then
    let wiped := wipe 0 (headIndex d) (chunks d) in
    mkFrameDecoder (maxPayloadLength d) (drop (Z.to_nat (headIndex d)) wiped) 0
      (headOffset d) (buffered d)
  else d.

(** The loop of [peekPayloadLength], over the chunks from [chunkIndex] on. *)
Fixpoint peek_loop (cs : list bytes) (remaining chunkOffset value : Z) : res Z :=
  if remaining <=? 0 then Ok value
  else match cs with
  | [] => Err (ENi ErrInconsistentQueue)
  | current :: cs =>
      let take_ := Z.min remaining (zlen current - chunkOffset) in
      part ← go_slice current chunkOffset (chunkOffset + take_);
      peek_loop cs (remaining - take_) 0
        (fold_left (fun v b => uint32 (Z.lor (Z.shiftl v 8) (b2z b))) part value)
  end.

Definition peekPayloadLength (d : FrameDecoder) : res Z :=
  peek_loop (drop (Z.to_nat (headIndex d)) (chunks d)) lengthBytes (headOffset d) 0.

(** One iteration of [consume] moves the head [take] bytes into [current]. *)
Definition advance_head (current : bytes) (take_ : Z) (d : FrameDecoder) : FrameDecoder :=
  let off := headOffset d + take_ in
  if off =? zlen current
  then mkFrameDecoder (maxPayloadLength d) (chunks d) (headIndex d + 1) 0 (buffered d)
  else mkFrameDecoder (maxPayloadLength d) (chunks d) (headIndex d) off (buffered d).

(** The loop of [consume]; [result] holds the bytes written so far. *)
Fixpoint consume_loop (fuel : nat) (length : Z) (result : bytes) : M FrameDecoder bytes :=
  match fuel with
  | O => fail EFuel
  | S fuel =>
    d ← get;
    if zlen result <? length then
      if zlen (chunks d) <=? headIndex d then fail (ENi ErrInconsistentQueue)
      else
        current ← lift (go_index (chunks d) (headIndex d));
        let take_ := Z.min (length - zlen result) (zlen current - headOffset d) in
        part ← lift (go_slice current (headOffset d) (headOffset d + take_));
        put (advance_head current take_ d);;
        consume_loop fuel length (result ++ part)
    else mret result
  end.

Definition consume (length_ : Z) : M FrameDecoder bytes :=
  d ← get;
  if buffered d <? length_ then fail (ENi ErrInconsistentQueue)
  else
    result ← consume_loop (S (S (length (chunks d)))) length_ [];
    d ← get;
    put (compact (mkFrameDecoder (maxPayloadLength d) (chunks d) (headIndex d) (headOffset d)
                    (buffered d - length_)));;
    mret result.

(** The loop of [Push]; [payloads] holds the payloads completed so far. *)
Fixpoint push_loop (fuel : nat) (payloads : list bytes) : M FrameDecoder (list bytes) :=
  match fuel with
  | O => fail EFuel
  | S fuel =>
    d ← get;
    if lengthBytes <=? buffered d then
      advertised ← lift (peekPayloadLength d);
      if uint64 (maxPayloadLength d) <? uint64 advertised then
        fail (ENi (ErrPayloadTooLarge advertised (maxPayloadLength d)))
      else if uint64 (buffered d) <? uint64 (uint64 lengthBytes + uint64 advertised) then
        mret payloads
      else
        _ ← consume lengthBytes;
        payload ← consume advertised;
        push_loop fuel (payloads ++ [payload])
    else mret payloads
  end.

Definition Push (chunk : bytes) : M FrameDecoder (list bytes) :=
  d ← get;
  put (if 0 <? zlen chunk
       then mkFrameDecoder (maxPayloadLength d) (chunks d ++ [chunk]) (headIndex d) (headOffset d)
              (buffered d + zlen chunk)
       else d);;
  d ← get;
  push_loop (S (Z.to_nat (buffered d))) [].

Definition Finish (d : FrameDecoder) : res unit :=
  if buffered d =? 0 then Ok tt else Err (ENi (ErrTruncatedStream (buffered d))).

Definition Reset (d : FrameDecoder) : FrameDecoder :=
  mkFrameDecoder (maxPayloadLength d) [] 0 0 0.

(** ** Abstraction and invariant *)

(** The bytes received and not yet consumed. *)
Definition stream (d : FrameDecoder) : bytes :=
  drop (Z.to_nat (headOffset d)) (concat (drop (Z.to_nat (headIndex d)) (chunks d))).

(** The queue is well formed: the head is inside it, unless it is empty, and no
    unread chunk is empty. *)
Record queue_ok (d : FrameDecoder) : Prop := {
  qo_index : 0 <= headIndex d <= zlen (chunks d);
  qo_nonempty : Forall (fun c => c <> []) (drop (Z.to_nat (headIndex d)) (chunks d));
  qo_offset : 0 <= headOffset d;
  qo_head : match drop (Z.to_nat (headIndex d)) (chunks d) with
            | [] => headOffset d = 0
            | c :: _ => headOffset d < zlen c
            end;
}.

(** An upper bound on what one decoder retains, the width of Go's [int]. *)
Definition int_max : Z := 2 ^ 63 - 1.

Record decoder_ok (d : FrameDecoder) : Prop := {
  do_queue : queue_ok d;
  do_buffered : buffered d = zlen (stream d);
  do_max : 0 <= maxPayloadLength d <= int_max;
}.

(** ** The reference: splitting a whole byte string into frames *)
Fixpoint deframe_n (n : nat) (max : Z) (s : bytes) : res (list bytes * bytes) :=
  match n with
  | O => Ok ([], s)
  | S n =>
    if zlen s <? 4 then Ok ([], s)
    else
      let advertised := be_combine (take 4 s) in
      if max <? advertised then Err (ENi (ErrPayloadTooLarge advertised max))
      else if zlen s <? 4 + advertised then Ok ([], s)
      else
        let body := drop 4 s in
        '(ps, rest) ← deframe_n n max (drop (Z.to_nat advertised) body);
        Ok (take (Z.to_nat advertised) body :: ps, rest)
  end.

Definition deframe (max : Z) (s : bytes) : res (list bytes * bytes) := deframe_n (length s) max s.

(** ** The reference's own laws *)
Lemma deframe_n_enough n m max s :
  (length s <= n)%nat -> (length s <= m)%nat -> deframe_n n max s = deframe_n m max s.
Proof.
  revert m s. induction n as [|n IH]; intros m s Hn Hm.
  - destruct s; [|simpl in Hn; lia]. destruct m; done.
  - destruct m as [|m]; [destruct s; [done|simpl in Hm; lia]|].
    cbn [deframe_n]. case_tests; try done.
    rewrite (IH m); [done| |]; len_simpl; lia.
Qed.

Lemma deframe_unfold max s :
  deframe max s =
    if zlen s <? 4 then Ok ([], s)
    else
      let advertised := be_combine (take 4 s) in
      if max <? advertised then Err (ENi (ErrPayloadTooLarge advertised max))
      else if zlen s <? 4 + advertised then Ok ([], s)
      else
        '(ps, rest) ← deframe max (drop (Z.to_nat advertised) (drop 4 s));
        Ok (take (Z.to_nat advertised) (drop 4 s) :: ps, rest).
Proof.
  unfold deframe at 1. destruct s as [|b s]; [done|].
  cbn [length]. cbn [deframe_n]. case_tests; try done.
  unfold deframe. set (rest := drop (Z.to_nat _) _).
  rewrite (deframe_n_enough (length s) (length rest)); [done| |]; subst rest; len_simpl; simpl length; lia.
Qed.

(** Decoding a longer stream first decodes its prefix. *)
Lemma deframe_app max s1 s2 :
  deframe max (s1 ++ s2) =
    '(p1, r1) ← deframe max s1;
    '(p2, r2) ← deframe max (r1 ++ s2);
    Ok (p1 ++ p2, r2).
Proof.
  remember (length s1) as n eqn:Hn. assert (length s1 <= n)%nat as Hle by lia. clear Hn.
  revert s1 Hle. induction n as [n IH] using lt_wf_ind. intros s1 Hle.
  assert (forall x : res (list bytes * bytes), x = ('(p2, r2) ← x; Ok ([] ++ p2, r2))) as Hid
    by (intros [[]| |]; done).
  rewrite (deframe_unfold max s1). cbn zeta. destruct (Z.ltb_spec (zlen s1) 4) as [Hs|Hs]; [apply Hid|].
  destruct (Z.ltb_spec max (be_combine (take 4 s1))).
  2: destruct (Z.ltb_spec (zlen s1) (4 + be_combine (take 4 s1))); [apply Hid|].
  all: rewrite (deframe_unfold max (s1 ++ s2)), (take_app_le s1 s2 4), (drop_app_le s1 s2 4) by len_lia.
  all: pose proof (be_combine_range (take 4 s1)) as Hadv; set (adv := be_combine (take 4 s1)) in *.
  all: rewrite zlen_app; pose proof (zlen_nonneg s2); cbn zeta.
  { case_tests; done || lia. }
  case_tests; try lia.
  rewrite (take_app_le (drop 4 s1)), (drop_app_le (drop 4 s1)) by len_lia.
  rewrite (IH (length (drop (Z.to_nat adv) (drop 4 s1)))) by len_lia.
  destruct (deframe max (drop (Z.to_nat adv) (drop 4 s1))) as [[p1 r1]| |]; msimpl; [|done|done].
  by destruct (deframe max (r1 ++ s2)) as [[]| |].
Qed.

Lemma deframe_frame max payload s :
  zlen payload <= max -> zlen payload < 2 ^ 32 ->
  deframe max (be_split 4 (zlen payload) ++ payload ++ s) =
    '(ps, rest) ← deframe max s; Ok (payload :: ps, rest).
Proof.
  intros Hm Hl. rewrite deframe_unfold.
  assert (length (be_split 4 (zlen payload)) = 4%nat) as H4 by apply length_be_split.
  assert (take 4 (be_split 4 (zlen payload) ++ payload ++ s) = be_split 4 (zlen payload)) as ->
    by (rewrite <- H4 at 1; apply take_app_length).
  assert (drop 4 (be_split 4 (zlen payload) ++ payload ++ s) = payload ++ s) as ->
    by (rewrite <- H4 at 1; apply drop_app_length).
  rewrite be_combine_split.
  rewrite (Z.mod_small (zlen payload)) by (split; [apply zlen_nonneg|exact Hl]).
  cbn zeta. rewrite !zlen_app.
  assert (zlen (be_split 4 (zlen payload)) = 4) as -> by (unfold zlen at 1; by rewrite H4).
  pose proof (zlen_nonneg payload). pose proof (zlen_nonneg s).
  case_tests; try lia.
  rewrite to_nat_zlen, take_app_length, drop_app_length. done.
Qed.

(** ** The queue operations on the abstract stream *)
Lemma fold_shift part v :
  fold_left (fun v b => uint32 (Z.lor (Z.shiftl v 8) (b2z b))) part (uint32 v)
  = uint32 (v * 256 ^ zlen part + be_combine part).
Proof.
  revert v. induction part as [|b part IH]; intros v.
  - change (zlen (@nil byte)) with 0. change (be_combine []) with 0.
    cbn [fold_left]. f_equal. lia.
  - cbn [fold_left]. rewrite lor_shiftl8.
    replace (uint32 (uint32 v * 256 + b2z b)) with (uint32 (v * 256 + b2z b)).
    2: { unfold uint32. rewrite <- (Z.add_mod_idemp_l (v mod 2 ^ 32 * 256)), Z.mul_mod_idemp_l,
           Z.add_mod_idemp_l by lia. done. }
    rewrite IH, be_combine_cons. f_equal. unfold zlen. cbn [length].
    rewrite Nat2Z.inj_succ, Z.pow_succ_r by lia. ring.
Qed.

Lemma peek_loop_ok cs remaining off v :
  0 <= remaining -> 0 <= off ->
  match cs with [] => off = 0 | c :: _ => off <= zlen c end ->
  remaining <= zlen (drop (Z.to_nat off) (concat cs)) ->
  peek_loop cs remaining off (uint32 v)
  = Ok (uint32 (v * 256 ^ remaining
                + be_combine (take (Z.to_nat remaining) (drop (Z.to_nat off) (concat cs))))).
Proof.
  revert remaining off v. induction cs as [|c cs IH]; intros remaining off v Hr Ho Hh Hl; cbn [peek_loop].
  - assert (remaining = 0) as -> by (cbn in Hl; rewrite drop_nil in Hl; len_lia).
    cbn. rewrite Z.mul_1_r, Z.add_0_r. done.
  - case_tests.
    { assert (remaining = 0) as -> by lia. change (Z.to_nat 0) with O. cbn [take].
      change (be_combine []) with 0. rewrite Z.pow_0_r, Z.mul_1_r, Z.add_0_r. done. }
    cbn [concat] in *. rewrite drop_app_le in * by len_lia.
    set (take_ := Z.min remaining (zlen c - off)).
    rewrite go_slice_ok by lia. msimpl. rewrite fold_shift.
    replace (off + take_ - off) with take_ by lia.
    set (part := take (Z.to_nat take_) (drop (Z.to_nat off) c)).
    assert (zlen part = take_) as Hpart by (subst part; len_lia).
    rewrite IH; [|lia|lia|destruct cs; [done|len_lia]|].
    2: { change (Z.to_nat 0) with O. rewrite drop_0. revert Hl. rewrite zlen_app. len_lia. }
    change (Z.to_nat 0) with O. rewrite drop_0. do 2 f_equal.
    rewrite take_app. rewrite be_combine_app.
    replace (take (Z.to_nat remaining) (drop (Z.to_nat off) c)) with part.
    2: { subst part take_. destruct (Z.le_ge_cases remaining (zlen c - off)).
         - by rewrite Z.min_l.
         - rewrite Z.min_r by lia. rewrite !take_ge by len_lia. done. }
    replace (Z.to_nat remaining - length (drop (Z.to_nat off) c))%nat
      with (Z.to_nat (remaining - take_)) by len_lia.
    assert (zlen (take (Z.to_nat (remaining - take_)) (concat cs)) = remaining - take_) as ->.
    { revert Hl. rewrite zlen_app. len_lia. }
    rewrite Hpart. replace (256 ^ remaining) with (256 ^ take_ * 256 ^ (remaining - take_)).
    2: { rewrite <- Z.pow_add_r by lia. f_equal. lia. }
    ring.
Qed.

Lemma peek_ok d :
  queue_ok d -> 4 <= zlen (stream d) ->
  peekPayloadLength d = Ok (be_combine (take 4 (stream d))).
Proof.
  intros [Hi Hne Ho Hh] Hl. unfold peekPayloadLength, stream in *.
  pose proof (peek_loop_ok (drop (Z.to_nat (headIndex d)) (chunks d)) lengthBytes (headOffset d) 0) as P.
  change (uint32 0) with 0 in P. rewrite P; try done.
  - f_equal. unfold lengthBytes. change (Z.to_nat 4) with 4%nat.
    set (s := take 4 _). pose proof (be_combine_range s) as Hs.
    assert (256 ^ zlen s <= 256 ^ 4) by (apply Z.pow_le_mono_r; subst s; len_lia).
    rewrite Z.mul_0_l, Z.add_0_l. apply Z.mod_small. lia.
  - destruct (drop (Z.to_nat (headIndex d)) (chunks d)); [done|lia].
Qed.

Lemma stream_step d c cs :
  drop (Z.to_nat (headIndex d)) (chunks d) = c :: cs ->
  stream d = drop (Z.to_nat (headOffset d)) (c ++ concat cs).
Proof. intros H. unfold stream. by rewrite H. Qed.

Lemma drop_succ_cons {A} n (l : list A) c cs : drop n l = c :: cs -> drop (S n) l = cs.
Proof. intros H. rewrite <- Nat.add_1_r, <- drop_drop, H. done. Qed.

Lemma drop_lookup_head {A} n (l : list A) c cs : drop n l = c :: cs -> l !! n = Some c.
Proof. intros H. rewrite <- (Nat.add_0_r n), <- lookup_drop, H. done. Qed.

(** What [consume] leaves alone and what it removes. *)
Record consumed (n : Z) (d d' : FrameDecoder) : Prop := {
  cs_queue : queue_ok d';
  cs_stream : stream d' = drop (Z.to_nat n) (stream d);
  cs_max : maxPayloadLength d' = maxPayloadLength d;
}.

Lemma advance_head_ok d c cs take_ :
  queue_ok d -> drop (Z.to_nat (headIndex d)) (chunks d) = c :: cs ->
  0 < take_ <= zlen c - headOffset d ->
  consumed take_ d (advance_head c take_ d) /\ buffered (advance_head c take_ d) = buffered d.
Proof.
  intros [Hi Hne Ho Hh] Ed Ht. rewrite Ed in Hne, Hh. apply Forall_cons in Hne as [Hc Hcs].
  assert (length (c :: cs) = length (chunks d) - Z.to_nat (headIndex d))%nat as Hlen
    by (rewrite <- Ed; apply length_drop). cbn [length] in Hlen.
  unfold advance_head. destruct (Z.eqb_spec (headOffset d + take_) (zlen c)) as [E|E].
  - assert (drop (Z.to_nat (headIndex d + 1)) (chunks d) = cs) as Ed1.
    { rewrite Z2Nat.inj_add, Nat.add_comm by lia. by apply (drop_succ_cons _ _ c). }
    split; [|done]. split; [|unfold stream|done].
    + split; cbn; rewrite ?Ed1; try len_lia; try done.
      destruct cs as [|c' cs']; [done|]. apply Forall_cons in Hcs as [Hc' _].
      destruct c'; [done|len_lia].
    + cbn [headIndex headOffset chunks]. rewrite Ed1, Ed. change (Z.to_nat 0) with O.
      cbn [concat]. rewrite drop_0, drop_drop, drop_app_ge by len_lia.
      match goal with |- _ = drop ?k _ => replace k with O by len_lia end. done.
  - split; [|done]. split; [|unfold stream|done].
    + split; cbn; rewrite ?Ed; try lia. by constructor.
    + cbn [headIndex headOffset chunks]. rewrite Ed, drop_drop. f_equal. lia.
Qed.

Lemma consume_loop_ok fuel n acc d :
  queue_ok d ->
  (1 <= fuel)%nat ->
  (zlen acc < n -> (length (drop (Z.to_nat (headIndex d)) (chunks d)) + 1 <= fuel)%nat) ->
  0 <= n - zlen acc <= zlen (stream d) ->
  exists d',
    consume_loop fuel n acc d = (Ok (acc ++ take (Z.to_nat (n - zlen acc)) (stream d)), d') /\
    consumed (n - zlen acc) d d' /\ buffered d' = buffered d.
Proof.
  revert acc d. induction fuel as [|fuel IH]; intros acc d Hq Hf0 Hf Hn; [lia|].
  cbn [consume_loop]. unfold mbind, stm_bind, get. pose proof Hq as [Hi Hne Ho Hh].
  destruct (Z.ltb_spec (zlen acc) n) as [Hlt|Hge].
  2: { assert (n - zlen acc = 0) as -> by lia. change (Z.to_nat 0) with O.
       exists d. unfold mret, stm_ret. cbn [take]. rewrite app_nil_r. split_and!; try done. }
  specialize (Hf Hlt).
  destruct (drop (Z.to_nat (headIndex d)) (chunks d)) as [|c cs] eqn:Ed.
  { exfalso. revert Hn. unfold stream. rewrite Ed. cbn. rewrite drop_nil. len_lia. }
  pose proof (f_equal length Ed) as Hlen. rewrite length_drop in Hlen. cbn [length] in Hlen, Hf.
  destruct (Z.leb_spec (zlen (chunks d)) (headIndex d)); [exfalso; len_lia|].
  unfold go_index. destruct (Z.ltb_spec (headIndex d) 0); [lia|].
  rewrite (drop_lookup_head _ _ _ _ Ed). unfold lift, put.
  set (take_ := Z.min (n - zlen acc) (zlen c - headOffset d)).
  rewrite go_slice_ok by lia. replace (headOffset d + take_ - headOffset d) with take_ by lia.
  destruct (advance_head_ok d c cs take_ Hq Ed ltac:(lia)) as [[Hq1 Hs1 Hm1] Hb1].
  assert (take (Z.to_nat take_) (drop (Z.to_nat (headOffset d)) c) = take (Z.to_nat take_) (stream d)) as ->.
  { rewrite (stream_step _ _ _ Ed), drop_app_le by len_lia. by rewrite take_app_le by len_lia. }
  assert (take_ <= zlen (stream d)) by lia.
  assert (zlen (acc ++ take (Z.to_nat take_) (stream d)) = zlen acc + take_) as Hacc by len_lia.
  destruct (IH (acc ++ take (Z.to_nat take_) (stream d)) (advance_head c take_ d)) as (d' & E & [Hq2 Hs2 Hm2] & Hb2).
  - done.
  - lia.
  - rewrite Hacc. intros Hlt'. unfold advance_head. assert (take_ = zlen c - headOffset d) by lia.
    destruct (Z.eqb_spec (headOffset d + take_) (zlen c)); [|lia]. cbn [headIndex chunks].
    rewrite length_drop. lia.
  - rewrite Hacc, Hs1. len_lia.
  - exists d'. rewrite E, Hacc, Hs1. replace (n - (zlen acc + take_)) with (n - zlen acc - take_) by lia.
    split_and!; [|split|]; try congruence.
    + f_equal. f_equal. rewrite <- app_assoc. f_equal.
      replace (Z.to_nat (n - zlen acc)) with (Z.to_nat take_ + Z.to_nat (n - zlen acc - take_))%nat by lia.
      by rewrite take_take_drop.
    + rewrite Hs2, Hacc, Hs1, drop_drop. f_equal. lia.
Qed.

Lemma drop_wipe n cs : drop (Z.to_nat n) (wipe 0 n cs) = drop (Z.to_nat n) cs.
Proof.
  apply list_eq. intros i. rewrite !lookup_drop. unfold wipe. rewrite list_lookup_imap.
  destruct (cs !! (Z.to_nat n + i)%nat); [|done]. simpl.
  destruct (Z.ltb_spec (Z.of_nat (Z.to_nat n + i)) n); [lia|]. by rewrite andb_false_r.
Qed.

(** Compaction is invisible: same stream, same bound, queue still well formed. *)
Lemma compact_ok d :
  queue_ok d ->
  queue_ok (compact d) /\ stream (compact d) = stream d /\
  maxPayloadLength (compact d) = maxPayloadLength d /\ buffered (compact d) = buffered d.
Proof.
  intros Hq. pose proof Hq as [Hi Hne Ho Hh]. unfold compact.
  destruct (Z.eqb_spec (headIndex d) (zlen (chunks d))); [|destruct (_ && _); [|done]].
  - rewrite drop_ge in Hh by len_lia.
    split; [split; cbn; try len_lia; try done; constructor|].
    split; [|done]. unfold stream. cbn [headIndex headOffset chunks].
    rewrite (drop_ge (chunks d)) by len_lia. by rewrite drop_nil.
  - rewrite drop_wipe. split; [|done].
    split; cbn [headIndex headOffset chunks]; change (Z.to_nat 0) with O; rewrite ?drop_0; try done.
    len_lia.
Qed.

Lemma consume_ok n d :
  queue_ok d -> buffered d = zlen (stream d) -> 0 <= n <= buffered d ->
  exists d',
    consume n d = (Ok (take (Z.to_nat n) (stream d)), d') /\
    consumed n d d' /\ buffered d' = zlen (stream d').
Proof.
  intros Hq Hb Hn. unfold consume, mbind, stm_bind, get.
  destruct (Z.ltb_spec (buffered d) n); [lia|].
  destruct (consume_loop_ok (S (S (length (chunks d)))) n [] d Hq) as (d1 & E & [Hq1 Hs1 Hm1] & Hb1);
    [lia|intros; rewrite length_drop; lia|change (zlen (@nil byte)) with 0; lia|].
  change (zlen (@nil byte)) with 0 in *. rewrite Z.sub_0_r in *. rewrite E. cbn [app].
  set (d2 := mkFrameDecoder _ _ _ _ _).
  assert (queue_ok d2) as Hq2 by (destruct Hq1; by split).
  destruct (compact_ok d2 Hq2) as (Hq3 & Hs3 & Hm3 & Hb3).
  assert (stream d2 = stream d1) as Hs2 by done.
  eexists. unfold put, mret, stm_ret. split; [done|]. split.
  - split; [done|congruence|]. rewrite Hm3. done.
  - rewrite Hb3, Hs3, Hs2, Hs1. subst d2. cbn. rewrite Hb1. len_lia.
Qed.

Lemma uint64_small z : 0 <= z < 2 ^ 64 -> uint64 z = z.
Proof. apply Z.mod_small. Qed.

Lemma push_loop_ok fuel acc d :
  decoder_ok d -> (length (stream d) < fuel)%nat -> zlen (stream d) <= int_max ->
  exists d',
    push_loop fuel acc d =
      (match deframe (maxPayloadLength d) (stream d) with
       | Ok (ps, _) => Ok (acc ++ ps) | Err e => Err e | Panic => Panic end, d') /\
    forall ps rest, deframe (maxPayloadLength d) (stream d) = Ok (ps, rest) ->
      decoder_ok d' /\ stream d' = rest /\ maxPayloadLength d' = maxPayloadLength d.
Proof.
  revert acc d. induction fuel as [|fuel IH]; intros acc d [Hq Hb Hm] Hf Hmax; [lia|].
  cbn [push_loop]. unfold mbind, stm_bind, get, lift. rewrite deframe_unfold, Hb. unfold lengthBytes.
  unfold int_max in *. change (uint64 4) with 4. rewrite (Z.ltb_antisym 4).
  destruct (Z.leb_spec 4 (zlen (stream d))) as [H4|H4]; cbn [negb].
  2: { exists d. split; [unfold mret, stm_ret; by rewrite app_nil_r|]. intros ps rest [= <- <-]. done. }
  rewrite peek_ok by done. cbn zeta. set (adv := be_combine (take 4 (stream d))).
  assert (0 <= adv < 2 ^ 32) as Hadv.
  { pose proof (be_combine_range (take 4 (stream d))).
    assert (zlen (take 4 (stream d)) = 4) as E by len_lia. rewrite E in H. subst adv. lia. }
  rewrite !(uint64_small (maxPayloadLength d)), !(uint64_small adv), !(uint64_small (zlen (stream d))),
    !(uint64_small (4 + adv)) by lia.
  destruct (Z.ltb_spec (maxPayloadLength d) adv); [by exists d|].
  destruct (Z.ltb_spec (zlen (stream d)) (4 + adv)).
  { exists d. split; [unfold mret, stm_ret; by rewrite app_nil_r|]. intros ps rest [= <- <-]. done. }
  destruct (consume_ok 4 d Hq Hb ltac:(lia)) as (d1 & E1 & [Hq1 Hs1 Hm1] & Hb1). rewrite E1.
  change (Z.to_nat 4) with 4%nat in *.
  destruct (consume_ok adv d1 Hq1 Hb1 ltac:(rewrite Hb1, Hs1; len_lia)) as (d2 & E2 & [Hq2 Hs2 Hm2] & Hb2).
  rewrite E2, Hs1 in *.
  destruct (IH (acc ++ [take (Z.to_nat adv) (drop 4 (stream d))]) d2) as (d3 & E3 & H3).
  - split; [done|done|]. rewrite Hm2, Hm1. done.
  - rewrite Hs2. len_lia.
  - rewrite Hs2. len_lia.
  - exists d3. rewrite E3. rewrite Hm2, Hm1, Hs2 in *.
    destruct (deframe (maxPayloadLength d) (drop (Z.to_nat adv) (drop 4 (stream d)))) as [[ps rest]| |];
      unfold mbind, outcome_bind; (split; [by rewrite <- ?app_assoc|]); try discriminate.
    intros ps' rest' [= <- <-]. by eapply H3.
Qed.

Lemma append_chunk_ok d chunk :
  decoder_ok d -> chunk <> [] ->
  decoder_ok (mkFrameDecoder (maxPayloadLength d) (chunks d ++ [chunk]) (headIndex d) (headOffset d)
                (buffered d + zlen chunk)) /\
  stream (mkFrameDecoder (maxPayloadLength d) (chunks d ++ [chunk]) (headIndex d) (headOffset d)
            (buffered d + zlen chunk)) = stream d ++ chunk.
Proof.
  intros [[Hi Hne Ho Hh] Hb Hm] Hc. set (d1 := mkFrameDecoder _ _ _ _ _).
  assert (stream d1 = stream d ++ chunk) as Hs.
  { unfold stream. subst d1. cbn [headIndex headOffset chunks].
    rewrite drop_app_le by len_lia. rewrite concat_app. cbn [concat]. rewrite app_nil_r.
    destruct (drop (Z.to_nat (headIndex d)) (chunks d)) as [|c cs]; [by rewrite Hh|].
    cbn [concat]. rewrite (drop_app_le (c ++ _)) by len_lia. done. }
  split; [|done]. split; [|rewrite Hs; cbn; len_lia|done].
  split; subst d1; cbn [headIndex headOffset chunks].
  - len_lia.
  - rewrite drop_app_le by len_lia. apply Forall_app. split; [done|by repeat constructor].
  - done.
  - rewrite drop_app_le by len_lia. destruct (drop (Z.to_nat (headIndex d)) (chunks d)) as [|c cs]; [|done].
    cbn. rewrite Hh. destruct chunk; [done|len_lia].
Qed.

Lemma push_ok d chunk :
  decoder_ok d -> zlen (stream d ++ chunk) <= int_max ->
  run (Push chunk) d = fst <$> deframe (maxPayloadLength d) (stream d ++ chunk) /\
  forall ps rest,
    deframe (maxPayloadLength d) (stream d ++ chunk) = Ok (ps, rest) ->
    decoder_ok (snd (Push chunk d)) /\ stream (snd (Push chunk d)) = rest /\
    maxPayloadLength (snd (Push chunk d)) = maxPayloadLength d.
Proof.
  intros Hd Hmax. unfold run, Push, mbind, stm_bind, get, put.
  set (d1 := if 0 <? zlen chunk then _ else d).
  assert (decoder_ok d1 /\ stream d1 = stream d ++ chunk /\ maxPayloadLength d1 = maxPayloadLength d)
    as (Hd1 & Hs1 & Hm1).
  { subst d1. destruct chunk as [|b chunk]; [by rewrite app_nil_r|].
    destruct (append_chunk_ok d (b :: chunk) Hd ltac:(done)). case_tests; [done|len_lia]. }
  destruct (push_loop_ok (S (Z.to_nat (buffered d1))) [] d1) as (d2 & E & H).
  - done.
  - destruct Hd1 as [_ -> _]. len_lia.
  - by rewrite Hs1.
  - rewrite E. rewrite Hs1, Hm1 in *. cbn [fst snd]. split; [|exact H].
    by destruct (deframe (maxPayloadLength d) (stream d ++ chunk)) as [[]| |].
Qed.

(** C3: Pushing a chunk into the frame decoder, whatever its chunk queue and head offset,
    gives exactly the frames that the reference deframer finds in the buffered stream
    followed by the chunk, the same error on an oversized frame, and leaves a well-formed
    decoder that holds the rest of the stream. *)
Theorem push_refines_deframe d chunk :
  decoder_ok d -> zlen (stream d ++ chunk) <= int_max ->
  run (Push chunk) d = fst <$> deframe (maxPayloadLength d) (stream d ++ chunk) /\
  forall ps rest,
    deframe (maxPayloadLength d) (stream d ++ chunk) = Ok (ps, rest) ->
    decoder_ok (snd (Push chunk d)) /\ stream (snd (Push chunk d)) = rest /\
    maxPayloadLength (snd (Push chunk d)) = maxPayloadLength d.
Proof. apply push_ok. Qed.

(** ** Chunk independence and the round trip *)

(** A connection that pushes the chunks it reads, in order, and stops at an error. *)
Fixpoint push_all (cs : list bytes) : M FrameDecoder (list bytes) :=
  match cs with
  | [] => mret []
  | c :: cs => ps ← Push c; qs ← push_all cs; mret (ps ++ qs)
  end.

Lemma deframe_shrinks max s ps r : deframe max s = Ok (ps, r) -> zlen r <= zlen s.
Proof.
  remember (length s) as n eqn:Hn. revert s ps Hn. induction n as [n IH] using lt_wf_ind.
  intros s ps -> H. rewrite deframe_unfold in H. cbn zeta in H. revert H.
  set (adv := be_combine (take 4 s)). set (rest := drop (Z.to_nat adv) (drop 4 s)).
  destruct (Z.ltb_spec (zlen s) 4); [intros [= <- <-]; lia|].
  destruct (Z.ltb_spec max adv); [discriminate|].
  destruct (Z.ltb_spec (zlen s) (4 + adv)); [intros [= <- <-]; lia|].
  destruct (deframe max rest) as [[ps' r']| |] eqn:E; cbn; [|discriminate|discriminate].
  intros [= <- <-]. assert (length rest < length s)%nat by (subst rest; len_lia).
  pose proof (IH _ H2 rest ps' eq_refl E). len_lia.
Qed.

(** What is left over starts no complete frame. *)
Lemma deframe_idle max s ps r : deframe max s = Ok (ps, r) -> deframe max r = Ok ([], r).
Proof.
  intros H. pose proof (deframe_app max s []) as Happ. rewrite app_nil_r, H in Happ. cbn in Happ.
  rewrite app_nil_r in Happ. destruct (deframe max r) as [[p2 r2]| |] eqn:E; try done.
  cbn in Happ. injection Happ as Hp Hr. apply (f_equal length) in Hp. rewrite length_app in Hp.
  destruct p2; [congruence|simpl in Hp; lia].
Qed.

Lemma push_all_ok cs d :
  decoder_ok d -> zlen (stream d ++ concat cs) <= int_max ->
  deframe (maxPayloadLength d) (stream d) = Ok ([], stream d) ->
  run (push_all cs) d = fst <$> deframe (maxPayloadLength d) (stream d ++ concat cs) /\
  forall ps rest,
    deframe (maxPayloadLength d) (stream d ++ concat cs) = Ok (ps, rest) ->
    decoder_ok (snd (push_all cs d)) /\ stream (snd (push_all cs d)) = rest.
Proof.
  revert d. induction cs as [|c cs IH]; intros d Hd Hmax Hidle; cbn [push_all concat] in *.
  { rewrite app_nil_r, Hidle in *. split; [done|]. by intros ps rest [= <- <-]. }
  rewrite app_assoc in *. assert (zlen (stream d ++ c) <= int_max) as Hmax1
    by (revert Hmax; rewrite !zlen_app; pose proof (zlen_nonneg (concat cs)); lia).
  destruct (push_ok d c Hd Hmax1) as [E1 H1].
  unfold run, mbind, stm_bind in *. rewrite deframe_app.
  destruct (Push c d) as [o1 d1]. cbn [fst snd] in *.
  destruct (deframe (maxPayloadLength d) (stream d ++ c)) as [[p1 r1]|e|] eqn:Edef;
    cbn in E1; subst o1; cbn; [|done|done].
  destruct (H1 p1 r1 eq_refl) as (Hd1 & Hs1 & Hm1).
  destruct (IH d1 Hd1) as [E2 H2].
  { apply deframe_shrinks in Edef. rewrite Hs1. revert Hmax. rewrite !zlen_app in *. lia. }
  { rewrite Hs1, Hm1. by eapply deframe_idle. }
  rewrite Hs1, Hm1 in *. destruct (push_all cs d1) as [o2 d2]. cbn in *. subst o2.
  destruct (deframe (maxPayloadLength d) (r1 ++ concat cs)) as [[p2 r2]| |]; cbn; [|done|done].
  split; [done|]. intros ps rest [= <- <-]. by eapply H2.
Qed.

Lemma new_decoder_ok max d : max <= int_max -> NewFrameDecoder max = Ok d ->
  decoder_ok d /\ stream d = [] /\ maxPayloadLength d = max.
Proof.
  unfold NewFrameDecoder. case_tests; [discriminate|]. intros Hm [= <-].
  split; [|done]. split; [split|..]; cbn; done || lia.
Qed.

(** Two ways of cutting the same byte stream give the same frames or the same error, namely
    those of the reference deframer, and Finish reports a truncated frame exactly when bytes
    of one remain. *)
Theorem push_chunking_independent max d cs cs' :
  NewFrameDecoder max = Ok d -> max <= int_max ->
  concat cs = concat cs' -> zlen (concat cs) <= int_max ->
  run (push_all cs) d = run (push_all cs') d /\
  run (push_all cs) d = fst <$> deframe max (concat cs) /\
  forall ps rest, deframe max (concat cs) = Ok (ps, rest) ->
    Finish (snd (push_all cs d)) =
      if zlen rest =? 0 then Ok tt else Err (ENi (ErrTruncatedStream (zlen rest))).
Proof.
  intros Hnew Hm Heq Hmax. destruct (new_decoder_ok max d Hm Hnew) as (Hd & Hs & Hmx).
  destruct (push_all_ok cs d) as [E H]; rewrite ?Hs, ?app_nil_l; try done.
  destruct (push_all_ok cs' d) as [E' _]; rewrite ?Hs, ?app_nil_l; try done; [congruence|].
  rewrite Hs, Hmx, app_nil_l in *. split; [congruence|]. split; [done|].
  intros ps rest Hdef. destruct (H ps rest Hdef) as [[_ Hb _] Hst].
  unfold Finish. by rewrite Hb, Hst.
Qed.

Lemma push_chunking_independent_witness :
  run (push_all [[x00]; [x00; x00]; [x02; x41]; [x42; x00]])
      (mkFrameDecoder 100 [] 0 0 0) =
  run (push_all [[x00; x00; x00; x02; x41; x42; x00]]) (mkFrameDecoder 100 [] 0 0 0) /\
  run (push_all [[x00; x00; x00; x02; x41; x42; x00]]) (mkFrameDecoder 100 [] 0 0 0) = Ok [[x41; x42]].
Proof.
  destruct (push_chunking_independent 100 (mkFrameDecoder 100 [] 0 0 0)
    [[x00]; [x00; x00]; [x02; x41]; [x42; x00]] [[x00; x00; x00; x02; x41; x42; x00]]
    eq_refl) as (E & _ & _); [vm_compute; discriminate|reflexivity|vm_compute; discriminate|].
  split; [exact E|vm_compute; reflexivity].
Defined.

Lemma encode_frame_bytes payload :
  zlen payload <= MaxUint32 -> EncodeFrame payload = Ok (be_split 4 (zlen payload) ++ payload).
Proof.
  intros H. unfold EncodeFrame, lengthBytes. case_tests; [lia|]. f_equal.
  assert (uint32 (zlen payload) = zlen payload) as ->
    by (apply Z.mod_small; unfold MaxUint32 in *; split; [apply zlen_nonneg|lia]).
  pose proof (go_copy_exact [] (4 + length payload) (be_split 4 (zlen payload))) as E1.
  rewrite length_be_split in E1. cbn [app] in E1. unfold zeros, zlen at 1.
  replace (Z.to_nat (4 + Z.of_nat (length payload))) with (4 + length payload)%nat by lia.
  change 0 with (zlen (@nil byte)) at 1. rewrite E1 by lia.
  replace 4 with (zlen (be_split 4 (zlen payload))) at 1 by (unfold zlen at 1; by rewrite length_be_split).
  rewrite go_copy_exact by lia.
  match goal with |- context [replicate ?k _] => replace k with O by lia end. by rewrite app_nil_r.
Qed.

Lemma encode_frame_inv payload f :
  EncodeFrame payload = Ok f -> zlen payload <= MaxUint32 /\ f = be_split 4 (zlen payload) ++ payload.
Proof.
  intros H. destruct (Z.le_gt_cases (zlen payload) MaxUint32) as [Hle|Hgt].
  - rewrite encode_frame_bytes in H by done. injection H as <-. done.
  - unfold EncodeFrame in H. destruct (Z.ltb_spec MaxUint32 (zlen payload)); [discriminate|lia].
Qed.

(** The bytes a sender puts on the wire for a list of payloads. *)
Definition encode_all (ps : list bytes) : res bytes :=
  foldr (fun p acc => f ← EncodeFrame p; rest ← acc; Ok (f ++ rest)) (Ok []) ps.

Lemma deframe_encode_all max ps wire :
  Forall (fun p => zlen p <= max) ps -> encode_all ps = Ok wire -> deframe max wire = Ok (ps, []).
Proof.
  intros H. revert wire. induction H as [|p ps Hp _ IH]; cbn [encode_all foldr]; intros wire Hw.
  { injection Hw as <-. done. }
  destruct (EncodeFrame p) as [f| |] eqn:Ef; try discriminate. apply encode_frame_inv in Ef as [Hle ->].
  fold (encode_all ps) in Hw. destruct (encode_all ps) as [rest| |]; try discriminate.
  cbn [mbind outcome_bind] in Hw. apply Ok_inj in Hw as <-. rewrite <- app_assoc, deframe_frame; [|done|unfold MaxUint32 in *; lia].
  by rewrite (IH rest).
Qed.

(** Encoding payloads as frames and pushing the bytes in any chunks gives the payloads back
    and leaves nothing unfinished. *)
Theorem ni_roundtrip max d ps wire cs :
  NewFrameDecoder max = Ok d -> max <= int_max ->
  Forall (fun p => zlen p <= max) ps -> encode_all ps = Ok wire ->
  concat cs = wire -> zlen wire <= int_max ->
  run (push_all cs) d = Ok ps /\ Finish (snd (push_all cs d)) = Ok tt.
Proof.
  intros Hnew Hm Hps Henc <- Hmax.
  pose proof (deframe_encode_all max ps _ Hps Henc) as Hdef.
  destruct (new_decoder_ok max d Hm Hnew) as (Hd & Hs & Hmx).
  destruct (push_all_ok cs d) as [E H]; rewrite ?Hs, ?app_nil_l; try done.
  rewrite Hs, Hmx, app_nil_l, Hdef in *. split; [done|].
  destruct (H ps [] eq_refl) as [[_ Hb _] Hst]. unfold Finish. by rewrite Hb, Hst.
Qed.

Lemma ni_roundtrip_witness :
  run (push_all [[x00; x00]; [x00; x01; x41; x00; x00; x00]; [x00]])
      (mkFrameDecoder 10 [] 0 0 0) = Ok [[x41]; []].
Proof.
  apply (ni_roundtrip 10 (mkFrameDecoder 10 [] 0 0 0) [[x41]; []]
           [x00; x00; x00; x01; x41; x00; x00; x00; x00]
           [[x00; x00]; [x00; x01; x41; x00; x00; x00]; [x00]]);
    try reflexivity; try (vm_compute; discriminate).
  repeat constructor; vm_compute; discriminate.
Defined.

Lemma push_refines_deframe_witness :
  run (Push [x41; x42]) (mkFrameDecoder 9 [[x00; x00; x00]; [x02]] 0 0 4) = Ok [[x41; x42]].
Proof.
  rewrite (proj1 (push_refines_deframe (mkFrameDecoder 9 [[x00; x00; x00]; [x02]] 0 0 4) [x41; x42]
    ltac:(repeat split; cbn; try lia; repeat constructor; done) ltac:(vm_compute; discriminate))).
  vm_compute. reflexivity.
Defined.
