(* ===== verification/Conn.v ===== *)
(** A connection as the handshakes of packages [saprouter] and [socks5] use it: an
    [io.ReadWriter] on which a peer has sent, and will send, a given sequence of bytes.

    [conn_write] is one call of [Write]: it sends all of its argument or fails.  [conn_read]
    is [io.ReadFull] on a buffer of a given size: it takes that many bytes, however the peer's
    packets are cut, or fails when the stream ends before; what it took is then lost. *)
From stdpp Require Import base list numbers.
From Stdlib Require Import ZArith Lia Strings.Byte.
From S2P Require Import Prelude Errors.

Open Scope Z_scope.

Record conn : Type := mkConn {
  incoming : bytes;        (** still to be read *)
  outgoing : bytes;        (** written so far *)
  writes_left : nat }.     (** the writes that succeed before one fails *)

Definition conn_write (e : error) (b : bytes) : M conn unit := fun c =>
  match writes_left c with
  | O => (Err e, c)
  | S n => (Ok tt, mkConn (incoming c) (outgoing c ++ b) n)
  end.

Definition conn_read (e : error) (n : Z) : M conn bytes := fun c =>
  if zlen (incoming c) <? n then (Err e, mkConn [] (outgoing c) (writes_left c))
  else (Ok (take (Z.to_nat n) (incoming c)), mkConn (drop (Z.to_nat n) (incoming c)) (outgoing c) (writes_left c)).

Lemma conn_write_ok e b c n :
  writes_left c = S n -> conn_write e b c = (Ok tt, mkConn (incoming c) (outgoing c ++ b) n).
Proof. intros H. unfold conn_write. by rewrite H. Qed.

Lemma conn_read_ok e n c l rest :
  incoming c = l ++ rest -> zlen l = n -> conn_read e n c = (Ok l, mkConn rest (outgoing c) (writes_left c)).
Proof.
  intros H Hl. unfold conn_read. rewrite H. destruct (Z.ltb_spec (zlen (l ++ rest)) n); [rewrite zlen_app in *; pose proof (zlen_nonneg rest); lia|].
  by rewrite <- Hl, to_nat_zlen, take_app_length, drop_app_length.
Qed.

(** A read that succeeds took a prefix of the stream. *)
Lemma conn_read_inv e n c l c' :
  0 <= n -> conn_read e n c = (Ok l, c') ->
  incoming c = l ++ incoming c' /\ zlen l = n /\ outgoing c' = outgoing c /\ writes_left c' = writes_left c.
Proof.
  intros Hn. unfold conn_read. destruct (Z.ltb_spec (zlen (incoming c)) n); [done|]. intros [= <- <-]. cbn.
  split; [by rewrite take_drop|]. split; [|done]. unfold zlen in *. rewrite length_take. lia.
Qed.

Lemma conn_write_inv e b c u c' :
  conn_write e b c = (Ok u, c') -> incoming c' = incoming c /\ outgoing c' = outgoing c ++ b /\ writes_left c = S (writes_left c').
Proof. unfold conn_write. destruct (writes_left c); [done|]. by intros [= <- <-]. Qed.

Lemma conn_read_no_panic e n c : fst (conn_read e n c) <> Panic.
Proof. unfold conn_read. by destruct (_ <? _). Qed.

Lemma conn_write_no_panic e b c : fst (conn_write e b c) <> Panic.
Proof. unfold conn_write. by destruct (writes_left c). Qed.
