(* ===== verification/Saprouter.v ===== *)
(** Package [saprouter], internal/saprouter/saprouter.go: SAProuter route strings, the
    NI_ROUTE request, its response, and the handshake over a connection.

    [strings.Split] gives the parts between slashes; the loop over them by an index is a
    recursion on the parts from that index on.  The fuel of [admit_hops] is the number of
    parts: every round takes at least two.

    The theorems: [Admit] accepts exactly the printed routes of valid hops; a route's public
    text does not depend on its passwords; the request payload is the documented one and
    determines the hops; responses are decoded exactly; the handshake sends one NI frame and
    reads exactly one. *)
From stdpp Require Import base list numbers strings pretty.
From Stdlib Require Import ZArith Lia Strings.Byte.
From S2P Require Import Prelude Errors Text Ni Conn.

Open Scope Z_scope.

Definition errInvalidRoute : error := ESaprouter ErrInvalidRoute.
Definition errInvalidResponse : error := ESaprouter ErrInvalidResponse.
Definition errRouteRange : error := ESaprouter SR_ErrRange.

Definition DefaultService : bytes := lit "3299".
Definition RouteInformationVersion : Z := 2.
Definition DefaultNIVersion : Z := 40.
Definition RouteHeaderLength : Z := 0x18.
Definition MaxRouteBytes : Z := 2048.
Definition MaxRouteHops : Z := 255.
Definition MaxResponsePayloadBytes : Z := 2 ^ 20.

Definition routeEyecatcher : bytes := lit "NI_ROUTE" ++ [x00].
Definition pong : bytes := lit "NI_PONG" ++ [x00].
Definition errEyecatcher : bytes := lit "NI_RTERR" ++ [x00].

(** ** The patterns *)
Definition is_alnum (b : byte) : bool :=
  in_range 0x41 0x5a (b2z b) || in_range 0x61 0x7a (b2z b) || in_range 0x30 0x39 (b2z b).
Definition one_of (s : string) (b : byte) : bool := bool_decide (b ∈ lit s).

(** [^[...]+$] *)
Definition plus (p : byte -> bool) (s : bytes) : bool := negb (bool_decide (s = [])) && forallb p s.

Definition host_char (b : byte) : bool := is_alnum b || one_of "_.:%[]-" b.
Definition service_char (b : byte) : bool := is_alnum b || one_of "_.-" b.
Definition password_char (b : byte) : bool := in_range 0x20 0x2e (b2z b) || in_range 0x30 0x7e (b2z b).

Definition printableASCII : bytes -> bool := plus is_printable.
Definition hostPattern : bytes -> bool := plus host_char.
Definition servicePattern : bytes -> bool := plus service_char.
Definition passwordPattern : bytes -> bool := plus password_char.

Definition routePrefixSentinelHost : bytes := lit "open-rfc-target.invalid".
Definition routePrefixSentinelPort : bytes := lit "65535".
Definition redacted : bytes := lit "[REDACTED]".

(** ** Routes *)
Record internalHop : Type := mkHop { host : bytes; service : bytes; password : bytes }.

Definition byteLength (h : internalHop) : Z := zlen (host h) + 1 + zlen (service h) + 1 + zlen (password h) + 1.

Record Hop : Type := mkPublicHop {
  Host : bytes; Service : bytes; UsesDefaultService : bool; PasswordProtected : bool }.

Record FirstHop : Type := mkFirstHop { fh_Host : bytes; fh_Service : bytes; fh_UsesDefaultService : bool }.

Record Route : Type := mkRoute {
  HopCount : Z; ByteLength : Z; r_FirstHop : FirstHop; Hops : list Hop; RedactedRouteString : bytes; hops : list internalHop }.

Inductive field_kind : Type := KHost | KService | KPassword.

Definition routeField (value : bytes) (kind : field_kind) : res bytes :=
  if bool_decide (value = []) then Err errInvalidRoute
  else
    match kind with
    | KHost => if (zlen value <? 2) || (255 <? zlen value) || negb (hostPattern value) then Err errInvalidRoute else Ok value
    | KService => if (63 <? zlen value) || negb (servicePattern value) then Err errInvalidRoute else Ok value
    | KPassword => if (255 <? zlen value) || negb (passwordPattern value) then Err errInvalidRoute else Ok value
    end.

Definition redacted_hop (h : internalHop) : bytes :=
  lit "/H/" ++ host h ++
  (if bool_decide (service h = []) then [] else lit "/S/" ++ service h) ++
  (if bool_decide (password h = []) then [] else lit "/W/" ++ redacted).

Definition redactedRoute (hops : list internalHop) : bytes := concat (map redacted_hop hops).

(** [strings.Split(s, "/")] *)
Fixpoint split_slash (s : bytes) : list bytes :=
  match s with
  | [] => [[]]
  | b :: s' =>
      match split_slash s' with
      | [] => [[b]]
      | p :: ps => if bool_decide (b = x2f) then [] :: p :: ps else (b :: p) :: ps
      end
  end.

(** The tokens of one hop after its host; the parts from the next hop on. *)
Fixpoint hop_tokens (parts : list bytes) (service password : bytes) (passwordSeen : bool) : res (bytes * bytes * list bytes) :=
  match parts with
  | [] => Ok (service, password, [])
  | token :: rest =>
      if bool_decide (token = lit "H") then Ok (service, password, parts)
      else
        match rest with
        | [] => Err errInvalidRoute
        | rawValue :: rest' =>
            if bool_decide (token = lit "S") then
              if negb (bool_decide (service = [])) || passwordSeen then Err errInvalidRoute
              else service ← routeField rawValue KService; hop_tokens rest' service password passwordSeen
            else if bool_decide (token = lit "W") then
              if passwordSeen then Err errInvalidRoute
              else password ← routeField rawValue KPassword; hop_tokens rest' service password true
            else Err errInvalidRoute
        end
  end.

Fixpoint admit_hops (fuel : nat) (parts : list bytes) (hops : list internalHop) : res (list internalHop) :=
  match parts with
  | [] => Ok hops
  | token :: rest =>
      match fuel with
      | O => Err EFuel
      | S fuel =>
          match rest with
          | value :: rest' =>
              if bool_decide (token = lit "H") then
                host ← routeField value KHost;
                t ← hop_tokens rest' [] [] false;
                let '(service, password, parts) := t in
                let hops := hops ++ [mkHop host service password] in
                if MaxRouteHops <? zlen hops then Err errInvalidRoute
                else admit_hops fuel parts hops
              else Err errInvalidRoute
          | [] => Err errInvalidRoute
          end
      end
  end.

Definition serviceOrDefault (service : bytes) : bytes := if bool_decide (service = []) then DefaultService else service.

Definition public_hop (h : internalHop) : Hop :=
  mkPublicHop (host h) (serviceOrDefault (service h)) (bool_decide (service h = [])) (negb (bool_decide (password h = []))).

Definition total_length (hops : list internalHop) : Z := fold_left (fun n h => n + byteLength h) hops 0.

Definition Admit (input : bytes) : res Route :=
  if (MaxRouteBytes <? zlen input) || negb (printableASCII input) then Err errInvalidRoute
  else
    match split_slash input with
    | [] => Panic
    | first :: parts =>
        if (zlen (first :: parts) <? 5) || negb (bool_decide (first = [])) then Err errInvalidRoute
        else
          hops ← admit_hops (length parts) parts [];
          if zlen hops <? 2 then Err errInvalidRoute
          else
            last ← go_index hops (zlen hops - 1);
            if negb (bool_decide (password last = [])) then Err errInvalidRoute
            else
              let n := total_length hops in
              if MaxRouteBytes <? n then Err errInvalidRoute
              else
                first ← go_index hops 0;
                Ok (mkRoute (zlen hops) n
                      (mkFirstHop (host first) (serviceOrDefault (service first)) (bool_decide (service first = [])))
                      (map public_hop hops) (redactedRoute hops) hops)
    end.

Definition has_suffix (s suffix : bytes) : bool :=
  (zlen suffix <=? zlen s) && bool_decide (drop (length s - length suffix) s = suffix).

Definition AssertRoutePrefix (input : bytes) : res unit :=
  if negb (has_suffix input (lit "/H/")) || (MaxRouteBytes <? zlen input) || negb (printableASCII input) then Err errInvalidRoute
  else Admit (input ++ routePrefixSentinelHost ++ lit "/S/" ++ routePrefixSentinelPort);; Ok tt.

Definition CompleteRoute (prefix gatewayHost : bytes) (gatewayPort : Z) : res Route :=
  AssertRoutePrefix prefix;;
  host ← routeField gatewayHost KHost;
  if (gatewayPort <? 1) || (0xffff <? gatewayPort) then Err errInvalidRoute
  else Admit (prefix ++ host ++ lit "/S/" ++ lit (pretty gatewayPort)).

(** ** The request *)

(** [payload[i] = b] *)
Definition set_byte (l : bytes) (i : Z) (b : byte) : res bytes := go_index l i;; Ok (<[Z.to_nat i := b]> l).

(** [offset += copy(payload[offset:], field); payload[offset] = 0; offset++] *)
Definition put_field (st : bytes * Z) (field : bytes) : res (bytes * Z) :=
  let '(payload, offset) := st in
  room ← go_from payload offset;
  let payload := go_copy payload offset field in
  let offset := offset + Z.min (zlen room) (zlen field) in
  payload ← set_byte payload offset x00;
  Ok (payload, offset + 1).

Fixpoint put_fields (st : bytes * Z) (fields : list bytes) : res (bytes * Z) :=
  match fields with
  | [] => Ok st
  | f :: fields => st ← put_field st f; put_fields st fields
  end.

Definition hop_fields (h : internalHop) : list bytes := [host h; service h; password h].

(** The header of a payload: hop count, version, length of the route and of its first hop. *)
Definition fill_header (payload : bytes) (n v bl fl : Z) : res bytes :=
  let payload := go_copy payload 0 routeEyecatcher in
  payload ← set_byte payload 9 (z2b RouteInformationVersion);
  payload ← set_byte payload 10 (z2b v);
  payload ← set_byte payload 11 (z2b n);
  payload ← set_byte payload 12 x00;
  let payload := go_copy payload 13 (be_split 2 0) in
  payload ← set_byte payload 15 (z2b (n - 1));
  let payload := go_copy payload 16 (be_split 4 (uint32 bl)) in
  Ok (go_copy payload 20 (be_split 4 (uint32 fl))).

Definition EncodeRouteRequestPayload (route : Route) (niVersion : Z) : res bytes :=
  match hops route with
  | [] => Err errInvalidRoute
  | first :: _ =>
      let niVersion := if niVersion =? 0 then DefaultNIVersion else niVersion in
      if (niVersion <? 1) || (255 <? niVersion) then Err errRouteRange
      else
        let payload := zeros (RouteHeaderLength + ByteLength route) in
        payload ← fill_header payload (zlen (hops route)) niVersion (ByteLength route) (byteLength first);
        st ← put_fields (payload, RouteHeaderLength) (concat (map hop_fields (hops route)));
        let '(payload, offset) := st in
        if negb (offset =? zlen payload) then Err errInvalidRoute else Ok payload
  end.

(** ** The response *)
Inductive ResponseKind : Type := Accepted | Rejected.

Record Response : Type := mkResponse {
  rp_Kind : ResponseKind; rp_NIVersion : Z; rp_ReturnCode : Z; rp_ErrorTextByteLength : Z }.

Definition hasPrefix (value prefix : bytes) : bool :=
  (zlen prefix <=? zlen value) && bytes_eqb (take (length prefix) value) prefix.

Definition DecodeRouteResponse (input : bytes) : res Response :=
  if MaxResponsePayloadBytes <? zlen input then Err errInvalidResponse
  else if bytes_eqb input pong then Ok (mkResponse Accepted 0 0 0)
  else if negb (hasPrefix input errEyecatcher) then Err errInvalidResponse
  else if zlen input <? 20 then Err errInvalidResponse
  else
    niVersion ← go_index input 9;
    opcode ← go_index input 10;
    padding ← go_index input 11;
    tail12 ← go_from input 12;
    rc ← be_uint 4 tail12;
    let returnCode := int32 rc in
    tail16 ← go_from input 16;
    errorTextByteLength ← be_uint 4 tail16;
    if (b2z niVersion =? 0) || negb (b2z opcode =? 0) || negb (b2z padding =? 0) || (0 <=? returnCode) then Err errInvalidResponse
    else
      let documentedLength := 20 + errorTextByteLength in
      let modernLength := documentedLength + 4 in
      if negb (zlen input =? documentedLength) && negb (zlen input =? modernLength) then Err errInvalidResponse
      else
        trailer ← (if zlen input =? modernLength then t ← go_from input documentedLength; be_uint 4 t else Ok 0);
        if negb (trailer =? 0) then Err errInvalidResponse
        else Ok (mkResponse Rejected (b2z niVersion) returnCode errorTextByteLength).

(** ** The handshake *)
Definition PerformRoute (route : Route) (niVersion : Z) : M conn unit :=
  payload ← lift (EncodeRouteRequestPayload route niVersion);
  let frame := zeros (4 + zlen payload) in
  let frame := go_copy frame 0 (be_split 4 (uint32 (zlen payload))) in
  let frame := go_copy frame 4 payload in
  conn_write errInvalidResponse frame;;
  lengthPrefix ← conn_read errInvalidResponse 4;
  responseLength ← lift (be_uint 4 lengthPrefix);
  if MaxResponsePayloadBytes <? responseLength then fail errInvalidResponse
  else
    response ← conn_read errInvalidResponse responseLength;
    decoded ← lift (DecodeRouteResponse response);
    match rp_Kind decoded with
    | Accepted => mret tt
    | Rejected => fail errInvalidRoute
    end.

(** ** The parts between slashes *)
Definition slashed (parts : list bytes) : bytes := concat (map (cons x2f) parts).

Lemma split_slash_cons s : exists p ps, split_slash s = p :: ps.
Proof.
  induction s as [|b s (p & ps & IH)]; [by eexists _, _|]. cbn [split_slash]. rewrite IH. case_bool_decide; by eexists _, _.
Qed.

Lemma split_slash_inv s p ps : split_slash s = p :: ps -> s = p ++ slashed ps /\ Forall (fun q => x2f ∉ q) (p :: ps).
Proof.
  revert p ps. induction s as [|b s IH]; intros p ps; cbn [split_slash].
  { intros [= <- <-]. split; [done|]. repeat constructor. by apply not_elem_of_nil. }
  destruct (split_slash s) as [|q qs] eqn:E; [by destruct (split_slash_cons s) as (? & ? & ?); congruence|].
  destruct (IH q qs eq_refl) as [-> Hf]. case_bool_decide as Hb; intros [= <- <-].
  - subst b. split; [done|]. constructor; [by apply not_elem_of_nil|done].
  - split; [done|]. apply Forall_cons in Hf as [Hq Hqs]. constructor; [|done]. by apply not_elem_of_cons.
Qed.

Lemma split_slash_app p s : x2f ∉ p -> split_slash (p ++ x2f :: s) = p :: split_slash s.
Proof.
  intros Hp. destruct (split_slash_cons s) as (q & qs & E). induction p as [|b p IH]; cbn [app split_slash]; [rewrite E; by rewrite bool_decide_eq_true_2|].
  apply not_elem_of_cons in Hp as [Hb Hp]. rewrite IH by done. by rewrite bool_decide_eq_false_2.
Qed.

Lemma split_slash_word p : x2f ∉ p -> split_slash p = [p].
Proof.
  induction p as [|b p IH]; [done|]. intros [Hb Hp]%not_elem_of_cons. cbn [split_slash]. rewrite IH by done. by rewrite bool_decide_eq_false_2.
Qed.

Lemma split_slashed p parts : x2f ∉ p -> Forall (fun q => x2f ∉ q) parts -> split_slash (p ++ slashed parts) = p :: parts.
Proof.
  intros Hp Hf. revert p Hp. induction Hf as [|q parts Hq _ IH]; intros p Hp.
  - cbn. rewrite app_nil_r. by apply split_slash_word.
  - cbn [slashed map concat]. change ((x2f :: q) ++ concat (map (cons x2f) parts)) with (x2f :: q ++ slashed parts).
    rewrite split_slash_app by done. by rewrite IH.
Qed.

(** ** Hops *)
Definition field_ok (kind : field_kind) (s : bytes) : Prop := routeField s kind = Ok s.

Record valid_hop (h : internalHop) : Prop := {
  vh_host : field_ok KHost (host h);
  vh_service : service h = [] \/ field_ok KService (service h);
  vh_password : password h = [] \/ field_ok KPassword (password h) }.

Definition option_parts (token : string) (v : bytes) : list bytes := if bool_decide (v = []) then [] else [lit token; v].
Definition hop_parts (h : internalHop) : list bytes :=
  [lit "H"; host h] ++ option_parts "S" (service h) ++ option_parts "W" (password h).

Lemma option_parts_nil t : option_parts t [] = [].
Proof. done. Qed.

Lemma option_parts_some t v : v <> [] -> option_parts t v = [lit t; v].
Proof. intros H. unfold option_parts. by rewrite bool_decide_eq_false_2. Qed.

(** The parts of the next hop, or none. *)
Definition at_hop (parts : list bytes) : Prop := match parts with [] => True | t :: _ => t = lit "H" end.

Lemma route_field_inv v k w : routeField v k = Ok w -> w = v /\ v <> [] /\ field_ok k v.
Proof.
  unfold field_ok. intros H. assert (w = v /\ v <> []) as [-> Hn]; [|done].
  unfold routeField in H. case_bool_decide as Hv; [done|]. destruct k; (match type of H with (if ?c then _ else _) = _ => destruct c; [done|] end);
    apply Ok_inj in H; by subst w.
Qed.

Lemma tokens_done parts s p s' p' rest :
  hop_tokens parts s p true = Ok (s', p', rest) -> s' = s /\ p' = p /\ rest = parts /\ at_hop parts.
Proof.
  destruct parts as [|t parts]; cbn [hop_tokens]; [intros H; apply Ok_inj in H; by simplify_eq|].
  case_bool_decide as Ht; [intros H; apply Ok_inj in H; by simplify_eq|]. destruct parts as [|v parts]; [done|].
  rewrite orb_true_r. case_bool_decide; [done|]. by case_bool_decide.
Qed.

Lemma tokens_password parts s s' p' rest :
  s <> [] -> hop_tokens parts s [] false = Ok (s', p', rest) ->
  s' = s /\ parts = option_parts "W" p' ++ rest /\ at_hop rest /\ (p' = [] \/ field_ok KPassword p').
Proof.
  intros Hs. destruct parts as [|t parts]; cbn [hop_tokens]; [intros H; apply Ok_inj in H; simplify_eq; rewrite option_parts_nil; cbn; by auto|].
  case_bool_decide as Ht; [intros H; apply Ok_inj in H; simplify_eq; rewrite option_parts_nil; cbn; by auto|]. destruct parts as [|v parts]; [done|].
  rewrite (bool_decide_eq_false_2 (s = [])) by done. case_bool_decide as HS; [done|]. case_bool_decide as HW; [|done]. subst t.
  intros H. ok_step H as w Hw. apply route_field_inv in Hw as (-> & Hv & Hok). apply tokens_done in H as (-> & -> & -> & Ha).
  rewrite option_parts_some by done. auto.
Qed.

Lemma tokens_sound parts s p rest :
  hop_tokens parts [] [] false = Ok (s, p, rest) ->
  parts = option_parts "S" s ++ option_parts "W" p ++ rest /\ at_hop rest /\
  (s = [] \/ field_ok KService s) /\ (p = [] \/ field_ok KPassword p).
Proof.
  destruct parts as [|t parts]; cbn [hop_tokens]; [intros H; apply Ok_inj in H; simplify_eq; rewrite !option_parts_nil; cbn; by auto 6|].
  case_bool_decide as Ht; [intros H; apply Ok_inj in H; simplify_eq; rewrite !option_parts_nil; cbn; by auto 6|]. destruct parts as [|v parts]; [done|].
  rewrite (bool_decide_eq_true_2 (@nil byte = [])) by done. cbn [negb orb]. case_bool_decide as HS; [|case_bool_decide as HW; [|done]]; subst t;
    intros H; ok_step H as w Hw; apply route_field_inv in Hw as (-> & Hv & Hok).
  - apply tokens_password in H as (-> & -> & Ha & Hp); [|done]. rewrite (option_parts_some _ v) by done. auto 6.
  - apply tokens_done in H as (-> & -> & -> & Ha). rewrite (option_parts_some _ v) by done. cbn. auto 6.
Qed.

Lemma tokens_complete s p rest :
  (s = [] \/ field_ok KService s) -> (p = [] \/ field_ok KPassword p) -> at_hop rest ->
  hop_tokens (option_parts "S" s ++ option_parts "W" p ++ rest) [] [] false = Ok (s, p, rest).
Proof.
  intros Hs Hp Hr. assert (forall s p b, hop_tokens rest s p b = Ok (s, p, rest)) as Hend.
  { intros s0 p0 b. destruct rest as [|t rest]; [done|]. cbn in Hr. subst t. done. }
  assert (forall s0, hop_tokens (option_parts "W" p ++ rest) s0 [] false = Ok (s0, p, rest)) as Hw.
  { intros s0. unfold option_parts. case_bool_decide as Hp0; [subst p; apply Hend|]. destruct Hp as [?|Hp]; [done|].
    cbn [app hop_tokens]. unfold field_ok in Hp. rewrite Hp. cbn. apply Hend. }
  unfold option_parts at 1. case_bool_decide as Hs0; [subst s; apply Hw|]. destruct Hs as [?|Hs]; [done|].
  cbn [app hop_tokens]. unfold field_ok in Hs. rewrite Hs. cbn. apply Hw.
Qed.

Lemma admit_sound fuel parts acc out :
  admit_hops fuel parts acc = Ok out ->
  exists new, out = acc ++ new /\ parts = concat (map hop_parts new) /\ Forall valid_hop new /\ (new = [] \/ zlen out <= MaxRouteHops).
Proof.
  revert parts acc. induction fuel as [|fuel IH]; intros parts acc; (destruct parts as [|t parts]; cbn [admit_hops];
    [intros H; apply Ok_inj in H; subst out; exists []; rewrite app_nil_r; by auto 6|]); [done|].
  destruct parts as [|v parts]; [done|]. case_bool_decide as Ht; [|done]. subst t. intros H. ok_step H as h Hh.
  apply route_field_inv in Hh as (-> & _ & Hh). ok_step H as st Hst. destruct st as [[s p] rest].
  apply tokens_sound in Hst as (-> & _ & Hs & Hp). cbv zeta in H.
  destruct (Z.ltb_spec MaxRouteHops (zlen (acc ++ [mkHop v s p]))); [done|].
  destruct (IH _ _ H) as (new & -> & -> & Hv & Hl). exists (mkHop v s p :: new). rewrite <- app_assoc. split; [done|].
  split; [cbn [map concat]; unfold hop_parts at 2; cbn [host service password]; by rewrite <- !app_assoc|].
  split; [by constructor|]. right. destruct Hl as [->|Hl]; [by rewrite app_nil_r|by rewrite <- app_assoc in Hl].
Qed.

Lemma hops_at_hop new : at_hop (concat (map hop_parts new)).
Proof. by destruct new. Qed.

Lemma admit_complete fuel new acc :
  Forall valid_hop new -> zlen (acc ++ new) <= MaxRouteHops -> (length (concat (map hop_parts new)) <= fuel)%nat ->
  admit_hops fuel (concat (map hop_parts new)) acc = Ok (acc ++ new).
Proof.
  intros Hv. revert fuel acc. induction Hv as [|h new [Hh Hs Hp] _ IH]; intros fuel acc Hl Hf; [destruct fuel; by rewrite app_nil_r|].
  cbn [map concat] in *. unfold hop_parts at 1. rewrite <- !app_assoc. rewrite length_app in Hf.
  destruct fuel as [|fuel]; [cbn in Hf; lia|]. cbn [app admit_hops]. rewrite bool_decide_eq_true_2 by done.
  unfold field_ok in Hh. rewrite Hh, ok_bind. rewrite (tokens_complete (service h) (password h)), ok_bind by (done || apply hops_at_hop).
  replace (mkHop (host h) (service h) (password h)) with h by (by destruct h). cbv zeta.
  destruct (Z.ltb_spec MaxRouteHops (zlen (acc ++ [h]))) as [Hx|_].
  { rewrite !zlen_app in *. pose proof (zlen_nonneg new). change (zlen [h]) with 1 in Hx. len_lia. }
  rewrite IH; [by rewrite <- app_assoc|by rewrite <- app_assoc|]. cbn in Hf. lia.
Qed.

(** Induction two elements at a time. *)
Lemma pairs_ind {A} (P : list A -> Prop) :
  P [] -> (forall x, P [x]) -> (forall x y l, P l -> P (x :: y :: l)) -> forall l, P l.
Proof.
  intros H0 H1 H2 l. enough (P l /\ forall x, P (x :: l)) as [? _]; [done|].
  induction l as [|y l [IH1 IH2]]; [by split|]. split; [apply IH2|]. intros x. by apply H2.
Qed.

Lemma tokens_shorter parts s p b s' p' rest : hop_tokens parts s p b = Ok (s', p', rest) -> (length rest <= length parts)%nat.
Proof.
  revert s p b. induction parts as [|t|t v parts IH] using pairs_ind; intros s p b; cbn [hop_tokens].
  - intros H. apply Ok_inj in H. by simplify_eq.
  - case_bool_decide; [|done]. intros H'. apply Ok_inj in H'. by simplify_eq.
  - case_bool_decide; [intros H'; apply Ok_inj in H'; by simplify_eq|]. case_bool_decide; [|case_bool_decide; [|done]].
    + destruct (_ || b); [done|]. intros H'. ok_step H' as w Hw. apply IH in H'; cbn in *; lia.
    + destruct b; [done|]. intros H'. ok_step H' as w Hw. apply IH in H'; cbn in *; lia.
Qed.

(** An error of the route code is the one sentinel. *)
Definition refused {A} (m : res A) : Prop := m = Err errInvalidRoute.

Lemma route_field_cases v k : refused (routeField v k) \/ routeField v k = Ok v.
Proof.
  unfold refused, routeField. case_bool_decide; [by left|]. destruct k; (match goal with |- context [if ?c then Err _ else _] => destruct c end); auto.
Qed.

Lemma tokens_cases parts s p b : refused (hop_tokens parts s p b) \/ is_Ok (hop_tokens parts s p b).
Proof.
  revert s p b. induction parts as [|t|t v parts IH] using pairs_ind; intros s p b; cbn [hop_tokens].
  - right. by eexists.
  - case_bool_decide; [right; by eexists|by left].
  - case_bool_decide; [right; by eexists|]. case_bool_decide; [|case_bool_decide; [|by left]].
    + destruct (_ || b); [by left|]. destruct (route_field_cases v KService) as [Hr|Hr]; rewrite Hr; [by left|]. rewrite ok_bind. apply IH.
    + destruct b; [by left|]. destruct (route_field_cases v KPassword) as [Hr|Hr]; rewrite Hr; [by left|]. rewrite ok_bind. apply IH.
Qed.

Lemma admit_cases fuel parts acc :
  (length parts <= fuel)%nat -> refused (admit_hops fuel parts acc) \/ is_Ok (admit_hops fuel parts acc).
Proof.
  revert parts acc. induction fuel as [|fuel IH]; intros parts acc Hf; (destruct parts as [|t parts]; cbn [admit_hops]; [right; by eexists|]); [cbn in Hf; lia|].
  destruct parts as [|v parts]; [by left|]. case_bool_decide; [|by left].
  destruct (route_field_cases v KHost) as [Hr|Hr]; rewrite Hr; [by left|]. rewrite ok_bind.
  destruct (tokens_cases parts [] [] false) as [Ht|[[[s p] rest] Ht]]; rewrite Ht; [by left|]. rewrite ok_bind. cbv zeta.
  destruct (MaxRouteHops <? _); [by left|]. apply IH. apply tokens_shorter in Ht. cbn in Hf. lia.
Qed.

(** ** The text of a route *)
Definition hop_text (h : internalHop) : bytes :=
  lit "/H/" ++ host h ++
  (if bool_decide (service h = []) then [] else lit "/S/" ++ service h) ++
  (if bool_decide (password h = []) then [] else lit "/W/" ++ password h).

Definition route_text (hs : list internalHop) : bytes := concat (map hop_text hs).

(** The routes [Admit] is meant to admit. *)
Record good_route (hs : list internalHop) : Prop := {
  gr_hops : Forall valid_hop hs;
  gr_count : 2 <= zlen hs <= MaxRouteHops;
  gr_target : exists h, last hs = Some h /\ password h = [];
  gr_length : zlen (route_text hs) <= MaxRouteBytes }.

Definition route_of (hs : list internalHop) : Route :=
  let first := hd (mkHop [] [] []) hs in
  mkRoute (zlen hs) (total_length hs)
    (mkFirstHop (host first) (serviceOrDefault (service first)) (bool_decide (service first = [])))
    (map public_hop hs) (redactedRoute hs) hs.

Lemma slashed_app a b : slashed (a ++ b) = slashed a ++ slashed b.
Proof. unfold slashed. by rewrite map_app, concat_app. Qed.

Lemma hop_text_parts h : hop_text h = slashed (hop_parts h).
Proof.
  unfold hop_text, hop_parts, option_parts. rewrite !slashed_app.
  do 2 case_bool_decide; cbn; rewrite ?app_nil_r, <- ?app_assoc; done.
Qed.

Lemma route_text_parts hs : route_text hs = slashed (concat (map hop_parts hs)).
Proof.
  unfold route_text. induction hs as [|h hs IH]; [done|]. cbn [map concat]. by rewrite slashed_app, IH, hop_text_parts.
Qed.

Lemma plus_chars p q s : plus p s = true -> (forall b, p b = true -> q b = true) -> s <> [] /\ Forall (fun b => q b = true) s.
Proof.
  unfold plus. intros [Hn Hf]%andb_true_iff Hpq. split; [by intros ->|]. apply Forall_forall. intros b Hb. apply Hpq.
  by apply (proj1 (forallb_forall _ _) Hf), list_elem_of_In.
Qed.

(** Every character of a field is printable and not a slash. *)
Definition route_char (b : byte) : bool := is_printable b && negb (bool_decide (b = x2f)).

Lemma field_chars k s : field_ok k s -> s <> [] /\ Forall (fun b => route_char b = true) s.
Proof.
  unfold field_ok, routeField. case_bool_decide; [done|]. destruct k; (match goal with |- (if ?c then _ else _) = _ -> _ => destruct c eqn:E; [done|] end);
    intros _; apply orb_false_iff in E as [_ E%negb_false_iff]; (eapply plus_chars; [exact E|]);
    intros b; [unfold host_char|unfold service_char|unfold password_char]; revert b; by (intros []; vm_compute).
Qed.

Lemma field_no_slash k s : field_ok k s -> x2f ∉ s.
Proof. intros [_ Hf]%field_chars Hin. rewrite Forall_forall in Hf. specialize (Hf _ Hin). by vm_compute in Hf. Qed.

Lemma hop_parts_plain h : valid_hop h -> Forall (fun p => p <> [] /\ Forall (fun b => route_char b = true) p) (hop_parts h).
Proof.
  intros [Hh Hs Hp]. unfold hop_parts, option_parts. constructor; [split; [done|by repeat constructor]|].
  constructor; [by eapply field_chars|]. apply Forall_app. split; case_bool_decide; (repeat constructor; try done);
    destruct Hs, Hp; try done; by eapply field_chars.
Qed.

Lemma parts_plain hs : Forall valid_hop hs ->
  Forall (fun p => p <> [] /\ Forall (fun b => route_char b = true) p) (concat (map hop_parts hs)).
Proof.
  induction 1 as [|h hs Hh _ IH]; [constructor|]. cbn [map concat]. apply Forall_app. split; [by apply hop_parts_plain|done].
Qed.

Lemma slashed_printable parts :
  Forall (fun p => p <> [] /\ Forall (fun b => route_char b = true) p) parts -> forallb is_printable (slashed parts) = true.
Proof.
  induction 1 as [|p parts [_ Hp] _ IH]; [done|]. change (slashed (p :: parts)) with ((x2f :: p) ++ slashed parts).
  rewrite forallb_app, IH, andb_true_r. cbn [forallb]. apply forallb_forall. intros b Hb.
  rewrite Forall_forall in Hp. specialize (Hp b (proj2 (list_elem_of_In _ _) Hb)). unfold route_char in Hp. by apply andb_true_iff in Hp as [-> _].
Qed.

Lemma total_length_sum hs n : fold_left (fun n h => n + byteLength h) hs n = n + total_length hs.
Proof.
  unfold total_length. revert n. induction hs as [|h hs IH]; intros n; cbn [fold_left]; [lia|]. rewrite IH, (IH (0 + _)). lia.
Qed.

Lemma total_length_cons h hs : total_length (h :: hs) = byteLength h + total_length hs.
Proof. unfold total_length at 1. cbn [fold_left]. by rewrite total_length_sum. Qed.

(** The request is never longer than the route string. *)
Lemma length_bounded hs : 0 <= total_length hs <= zlen (route_text hs).
Proof.
  unfold route_text. induction hs as [|h hs IH]; [by cbn|]. rewrite total_length_cons. cbn [map concat]. rewrite zlen_app.
  assert (0 <= byteLength h <= zlen (hop_text h)) as Hb; [|lia]. unfold byteLength, hop_text. rewrite !zlen_app. change (zlen (lit "/H/")) with 3.
  pose proof (zlen_nonneg (host h)). pose proof (zlen_nonneg (service h)). pose proof (zlen_nonneg (password h)).
  destruct (bool_decide_reflect (service h = [])) as [E1|E1], (bool_decide_reflect (password h = [])) as [E2|E2];
    rewrite ?zlen_app, ?E1, ?E2; change (zlen (lit "/S/")) with 3; change (zlen (lit "/W/")) with 3; change (zlen (@nil byte)) with 0; lia.
Qed.

(** ** Admission *)
Lemma last_hop_index (hs : list internalHop) h : last hs = Some h -> go_index (E := error) hs (zlen hs - 1) = Ok h.
Proof. intros [l ->]%last_Some. apply go_index_mid. rewrite zlen_app. change (zlen [h]) with 1. lia. Qed.

Lemma first_index (hs : list internalHop) : hs <> [] -> go_index (E := error) hs 0 = Ok (hd (mkHop [] [] []) hs).
Proof. by destruct hs. Qed.

Lemma zlen_one_more {A} (l : list A) : l <> [] -> 1 <= zlen l.
Proof. destruct l; [done|]. intros _. len_lia. Qed.

Lemma hop_parts_length h : 2 <= zlen (hop_parts h).
Proof. unfold hop_parts. rewrite zlen_app. change (zlen [lit "H"; host h]) with 2. pose proof (zlen_nonneg (option_parts "S" (service h) ++ option_parts "W" (password h))). lia. Qed.

Lemma parts_length hs : 2 * zlen hs <= zlen (concat (map hop_parts hs)).
Proof.
  induction hs as [|h hs IH]; [by cbn|]. cbn [map concat]. rewrite zlen_app. pose proof (hop_parts_length h).
  change (zlen (h :: hs)) with (zlen ([h] ++ hs)). rewrite zlen_app. change (zlen [h]) with 1. lia.
Qed.

(** What happens once the hops are read. *)
Lemma admit_good hs : good_route hs -> Admit (route_text hs) = Ok (route_of hs).
Proof.
  intros [Hv Hc (t & Hlast & Ht) Hl]. unfold Admit. rewrite (proj2 (Z.ltb_ge MaxRouteBytes _)) by done.
  pose proof (parts_plain hs Hv) as Hp. pose proof (parts_length hs) as Hpl. set (parts := concat (map hop_parts hs)) in *.
  assert (route_text hs = slashed parts) as Et by apply route_text_parts.
  assert (printableASCII (route_text hs) = true) as ->.
  { unfold printableASCII, plus. rewrite Et, slashed_printable, andb_true_r by done. rewrite bool_decide_eq_false_2; [done|].
    intros E. assert (parts <> []) as Hne by (intros E0; rewrite E0 in Hpl; change (zlen (@nil bytes)) with 0 in Hpl; lia). by destruct parts. }
  cbn [negb orb]. assert (split_slash (route_text hs) = [] :: parts) as ->.
  { rewrite Et. change (slashed parts) with ([] ++ slashed parts). apply split_slashed; [by apply not_elem_of_nil|].
    eapply Forall_impl; [exact Hp|]. cbn. intros p [_ Hch] Hin. rewrite Forall_forall in Hch. specialize (Hch _ Hin). by vm_compute in Hch. }
  destruct (Z.ltb_spec (zlen ([] :: parts)) 5) as [Hx|_].
  { change (zlen ([] :: parts)) with (zlen ([[] : bytes] ++ parts)) in Hx. rewrite zlen_app in Hx. change (zlen [[] : bytes]) with 1 in Hx. lia. }
  rewrite bool_decide_eq_true_2 by done. cbn [negb orb]. unfold parts at 2.
  rewrite (admit_complete (length parts) hs []), ok_bind by first [done|apply (proj2 Hc)|fold parts; lia]. cbn [app].
  rewrite (proj2 (Z.ltb_ge (zlen hs) 2)) by lia. rewrite (last_hop_index _ _ Hlast), ok_bind.
  rewrite bool_decide_eq_true_2 by done. cbn [negb]. cbv zeta. pose proof (length_bounded hs).
  rewrite (proj2 (Z.ltb_ge MaxRouteBytes _)) by lia. rewrite first_index, ok_bind; [done|]. by destruct hs.
Qed.

Lemma admit_is_good s r : Admit s = Ok r -> exists hs, s = route_text hs /\ good_route hs /\ r = route_of hs.
Proof.
  intros H. assert (exists hs, s = route_text hs /\ good_route hs) as (hs & -> & Hg).
  2:{ exists hs. split; [done|]. split; [done|]. rewrite (admit_good hs Hg) in H. by apply Ok_inj in H. }
  unfold Admit in H. destruct (Z.ltb_spec MaxRouteBytes (zlen s)) as [|Hl]; [done|]. cbn [orb] in H. destruct (negb (printableASCII s)); [done|].
  destruct (split_slash s) as [|p parts] eqn:Es; [done|]. apply split_slash_inv in Es as [-> _].
  destruct (_ <? 5); [done|]. cbn [orb] in H. case_bool_decide as Hp; [|done]. subst p. cbn [negb app] in *.
  ok_step H as hs Hhs. apply admit_sound in Hhs as (new & Hnew & -> & Hv & Hc). cbn [app] in Hnew. subst new.
  destruct (Z.ltb_spec (zlen hs) 2); [done|]. ok_step H as t Ht. case_bool_decide as Hpw; [|done].
  exists hs. rewrite <- route_text_parts in *. split; [done|]. destruct Hc as [->|Hc]; [by cbn in *|]. split; [done|lia| |done].
  exists t. split; [|done]. unfold go_index in Ht. destruct (zlen hs - 1 <? 0); [done|]. rewrite last_lookup.
  replace (Init.Nat.pred (length hs)) with (Z.to_nat (zlen hs - 1)) by (unfold zlen; lia). destruct (hs !! _); [by apply Ok_inj in Ht as ->|done].
Qed.

(** Admit accepts a text exactly when it is the printed form of a good route (at least two
    hops with admissible fields, within the limits, no password on the last), and returns
    that route. *)
Theorem admit_exact s r : Admit s = Ok r <-> exists hs, s = route_text hs /\ good_route hs /\ r = route_of hs.
Proof. split; [apply admit_is_good|]. intros (hs & -> & Hg & ->). by apply admit_good. Qed.

Lemma admit_refuses s : refused (Admit s) \/ is_Ok (Admit s).
Proof.
  unfold Admit. destruct (_ || _); [by left|]. destruct (split_slash_cons s) as (p & parts & ->). destruct (_ || _); [by left|].
  destruct (admit_cases (length parts) parts [] ltac:(lia)) as [H|[hs H]]; rewrite H; [by left|]. rewrite ok_bind.
  destruct (Z.ltb_spec (zlen hs) 2); [by left|]. destruct (go_index_ok (E := error) hs (zlen hs - 1)) as [t ->]; [lia|]. rewrite ok_bind.
  destruct (negb _); [by left|]. cbv zeta. destruct (_ <? _); [by left|]. rewrite first_index by (by destruct hs). rewrite ok_bind. right. by eexists.
Qed.

(** Two hops that differ at most in a password they both have. *)
Definition same_hop (a b : internalHop) : Prop :=
  host a = host b /\ service a = service b /\ (password a = [] <-> password b = []).

(** Two admitted routes that differ only in what their passwords are have the same redacted
    text, public hops, first hop and hop count: nothing a route prints depends on a password
    (its length apart). *)
Theorem passwords_stay_secret s1 s2 r1 r2 :
  Admit s1 = Ok r1 -> Admit s2 = Ok r2 -> Forall2 same_hop (hops r1) (hops r2) ->
  RedactedRouteString r1 = RedactedRouteString r2 /\ Hops r1 = Hops r2 /\ r_FirstHop r1 = r_FirstHop r2 /\ HopCount r1 = HopCount r2.
Proof.
  intros (h1 & _ & _ & ->)%admit_is_good (h2 & _ & _ & ->)%admit_is_good. cbn [hops route_of]. intros H. unfold route_of.
  cbn [RedactedRouteString Hops r_FirstHop HopCount].
  assert (forall a b, same_hop a b -> bool_decide (password a = []) = bool_decide (password b = [])) as Hb
    by (intros a b (_ & _ & Hp); by apply bool_decide_ext).
  split; [|split; [|split]].
  - unfold redactedRoute. f_equal. induction H as [|a b l1 l2 Hab _ IH]; [done|]. cbn [map]. rewrite IH. f_equal.
    unfold redacted_hop. rewrite (Hb _ _ Hab). by destruct Hab as (-> & -> & _).
  - induction H as [|a b l1 l2 Hab _ IH]; [done|]. cbn [map]. rewrite IH. f_equal.
    unfold public_hop. rewrite (Hb _ _ Hab). by destruct Hab as (-> & -> & _).
  - destruct H as [|a b l1 l2 Hab _]; [done|]. cbn [hd]. by destruct Hab as (-> & -> & _).
  - unfold zlen. by rewrite (Forall2_length _ _ _ H).
Qed.

(** ** Completing a prefix *)
Lemma split_slash_mid a b : split_slash (a ++ x2f :: b) = split_slash a ++ split_slash b.
Proof.
  induction a as [|c a IH]; cbn [app split_slash].
  - destruct (split_slash_cons b) as (q & qs & ->). by rewrite bool_decide_eq_true_2.
  - rewrite IH. destruct (split_slash_cons a) as (p & ps & ->). cbn [app]. by case_bool_decide.
Qed.

Lemma good_route_split hs : good_route hs -> split_slash (route_text hs) = [] :: concat (map hop_parts hs).
Proof.
  intros [Hv _ _ _]. rewrite route_text_parts. change (slashed ?x) with ([] ++ slashed x). apply split_slashed; [by apply not_elem_of_nil|].
  eapply Forall_impl; [exact (parts_plain hs Hv)|]. cbn. intros p [_ Hch] Hin. rewrite Forall_forall in Hch. specialize (Hch _ Hin). by vm_compute in Hch.
Qed.

(** A route whose text ends with a host and a service ends with that hop. *)
Lemma last_hop hs pre h s :
  good_route hs -> route_text hs = pre ++ lit "/H/" ++ h ++ lit "/S/" ++ s -> x2f ∉ h -> x2f ∉ s -> s <> [] ->
  exists front, hs = front ++ [mkHop h s []].
Proof.
  intros Hg Ht Hh Hs Hne. pose proof (good_route_split hs Hg) as Hsp. rewrite Ht in Hsp.
  change (pre ++ lit "/H/" ++ h ++ lit "/S/" ++ s) with (pre ++ x2f :: lit "H" ++ x2f :: h ++ x2f :: lit "S" ++ x2f :: s) in Hsp.
  rewrite !split_slash_mid in Hsp. rewrite (split_slash_word h), (split_slash_word s) in Hsp by done.
  change (split_slash (lit "H")) with [lit "H"] in Hsp. change (split_slash (lit "S")) with [lit "S"] in Hsp.
  destruct Hg as [Hv _ (t & Hlast & Hpw) _]. apply last_Some in Hlast as [front ->]. exists front. do 2 f_equal.
  rewrite map_app, concat_app in Hsp. cbn [map concat] in Hsp. rewrite app_nil_r in Hsp. unfold hop_parts at 2 in Hsp.
  rewrite Hpw, option_parts_nil, app_nil_r in Hsp. destruct t as [th ts tp]. cbn [host service password] in *. subst tp.
  destruct (bool_decide_reflect (ts = [])) as [->|Hts].
  - rewrite option_parts_nil, app_nil_r in Hsp. apply (f_equal (@rev bytes)) in Hsp. change ([] :: ?l ++ ?r) with (([] :: l) ++ r) in Hsp.
    rewrite !rev_app_distr in Hsp. cbn in Hsp. by injection Hsp.
  - rewrite option_parts_some in Hsp by done. apply (f_equal (@rev bytes)) in Hsp. change ([] :: ?l ++ ?r) with (([] :: l) ++ r) in Hsp.
    rewrite !rev_app_distr in Hsp. cbn in Hsp. by injection Hsp as -> ->.
Qed.

Lemma suffix_inv s suffix : has_suffix s suffix = true -> exists pre, s = pre ++ suffix.
Proof.
  unfold has_suffix. intros [_ H%bool_decide_eq_true]%andb_true_iff. exists (take (length s - length suffix) s). revert H. set (n := (length s - length suffix)%nat). intros H.
  by rewrite <- H, take_drop.
Qed.

Lemma port_text_plain n : 1 <= n -> lit (pretty n) <> [] /\ x2f ∉ lit (pretty n).
Proof.
  intros Hn. destruct (itoa_digits n) as (Hd & _ & Hne & _); [lia|]. split; [done|]. intros Hin. rewrite Forall_forall in Hd. by specialize (Hd _ Hin).
Qed.

(** Completing a prefix with a gateway gives the hops of the prefix followed by exactly one
    hop to that host and port without a password. *)
Theorem complete_route_target prefix gatewayHost port r :
  CompleteRoute prefix gatewayHost port = Ok r ->
  exists hs, prefix = route_text hs ++ lit "/H/" /\ hops r = hs ++ [mkHop gatewayHost (lit (pretty port)) []].
Proof.
  unfold CompleteRoute. intros H. ok_step H as u Hu. ok_step H as h Hh. apply route_field_inv in Hh as (-> & _ & Hok).
  destruct (Z.ltb_spec port 1); [done|]. destruct (_ <? port); [done|]. cbn [orb] in H.
  unfold AssertRoutePrefix in Hu. destruct (has_suffix prefix (lit "/H/")) eqn:Es; [|done]. apply suffix_inv in Es as [pre ->].
  rewrite <- app_assoc in H. apply admit_is_good in H as (hs & Ht & Hg & ->). destruct (port_text_plain port ltac:(lia)) as [Hp1 Hp2].
  destruct (last_hop hs pre gatewayHost (lit (pretty port)) Hg (eq_sym Ht)) as [front ->]; [by eapply field_no_slash|done|done|].
  exists front. split; [|done]. unfold route_text in Ht. rewrite map_app, concat_app in Ht. cbn [map concat] in Ht. rewrite app_nil_r in Ht.
  unfold hop_text at 2 in Ht. cbn [host service password] in Ht. rewrite (bool_decide_eq_false_2 (lit (pretty port) = [])) in Ht by done.
  rewrite (bool_decide_eq_true_2 (@nil byte = [])) in Ht by done. rewrite app_nil_r, !app_assoc in Ht.
  do 3 (apply app_inv_tail in Ht). by rewrite Ht.
Qed.

(** ** The request payload *)
Definition terminated (f : bytes) : bytes := f ++ [x00].
Definition hop_bytes (hs : list internalHop) : bytes := concat (map terminated (concat (map hop_fields hs))).

Lemma zlen_hop_bytes hs : zlen (hop_bytes hs) = total_length hs.
Proof.
  unfold hop_bytes. induction hs as [|h hs IH]; [done|]. rewrite total_length_cons, <- IH. cbn [map concat]. rewrite map_app, concat_app, zlen_app.
  f_equal. unfold hop_fields, terminated, byteLength. cbn [map concat]. rewrite !zlen_app. change (zlen [x00]) with 1. change (zlen (@nil byte)) with 0. lia.
Qed.

Lemma put_field_zeros pre k f :
  (length f < k)%nat -> put_field (pre ++ replicate k x00, zlen pre) f
  = Ok ((pre ++ terminated f) ++ replicate (k - length f - 1) x00, zlen (pre ++ terminated f)).
Proof.
  intros Hk. unfold put_field. rewrite go_from_app, ok_bind by done. rewrite go_copy_exact by lia. rewrite Z.min_r by len_lia.
  unfold set_byte. destruct (k - length f)%nat as [|j] eqn:Ej; [lia|]. cbn [replicate].
  rewrite (go_index_mid (pre ++ f) x00) by (by rewrite zlen_app). rewrite ok_bind. cbn [mbind outcome_bind]. unfold terminated.
  rewrite (app_assoc pre f [x00]), <- (app_assoc (pre ++ f) [x00]). cbn [app]. replace (S j - 1)%nat with j by lia.
  rewrite <- zlen_app, to_nat_zlen. f_equal. f_equal; [|rewrite !zlen_app; change (zlen [x00]) with 1; lia].
  rewrite insert_app_r_alt by lia. by rewrite Nat.sub_diag.
Qed.

Lemma put_fields_zeros fields pre k :
  (length (concat (map terminated fields)) <= k)%nat ->
  put_fields (pre ++ replicate k x00, zlen pre) fields
  = Ok ((pre ++ concat (map terminated fields)) ++ replicate (k - length (concat (map terminated fields))) x00,
        zlen (pre ++ concat (map terminated fields))).
Proof.
  revert pre k. induction fields as [|f fields IH]; intros pre k Hk; cbn [put_fields map concat] in *.
  { by rewrite app_nil_r, Nat.sub_0_r. }
  rewrite length_app in Hk. unfold terminated at 1 in Hk. rewrite length_app in Hk. cbn [length] in Hk.
  rewrite put_field_zeros, ok_bind by lia. rewrite IH by lia. rewrite (app_assoc pre). do 3 f_equal. f_equal. rewrite length_app.
  unfold terminated at 2. rewrite length_app. cbn [length]. lia.
Qed.

(** The documented header of a request. *)
Definition route_header (n v bl fl : Z) : bytes :=
  routeEyecatcher ++ [z2b RouteInformationVersion; z2b v; z2b n; x00] ++ be_split 2 0 ++ [z2b (n - 1)] ++ be_split 4 (uint32 bl) ++ be_split 4 (uint32 fl).

Lemma four_bytes v : exists a b c d, be_split 4 v = [a; b; c; d].
Proof. by eexists _, _, _, _. Qed.

Lemma go_copy_app_l (h rest src : bytes) i :
  0 <= i -> i + zlen src <= zlen h -> go_copy (h ++ rest) i src = go_copy h i src ++ rest.
Proof.
  intros Hi Hl. unfold zlen in Hl. unfold go_copy. rewrite length_app.
  rewrite !(take_ge src) by lia. rewrite !Nat.min_r by lia. rewrite take_app_le, drop_app_le by lia. by rewrite <- !app_assoc.
Qed.

Lemma set_byte_app_l (h rest : bytes) i b : 0 <= i < zlen h -> set_byte (h ++ rest) i b = Ok (<[Z.to_nat i := b]> h ++ rest).
Proof.
  intros Hi. unfold zlen in Hi. unfold set_byte, go_index. destruct (Z.ltb_spec i 0); [lia|]. rewrite lookup_app_l by lia.
  destruct (lookup_lt_is_Some_2 h (Z.to_nat i)) as [x ->]; [lia|]. rewrite !ok_bind. by rewrite insert_app_l by lia.
Qed.

Lemma fill_header_zeros n v bl fl rest :
  fill_header (replicate 24 x00 ++ rest) n v bl fl = Ok (route_header n v bl fl ++ rest).
Proof.
  unfold fill_header, route_header. destruct (four_bytes (uint32 bl)) as (a & b & c & d & ->). destruct (four_bytes (uint32 fl)) as (e & f & g & h & ->).
  cbv zeta. rewrite go_copy_app_l by (vm_compute; discriminate). do 4 (rewrite set_byte_app_l, ok_bind by (split; [lia|reflexivity])).
  rewrite go_copy_app_l by (vm_compute; discriminate). rewrite set_byte_app_l, ok_bind by (split; [lia|reflexivity]).
  do 2 (rewrite go_copy_app_l by (vm_compute; discriminate)). reflexivity.
Qed.

Lemma zlen_route_header n v bl fl : zlen (route_header n v bl fl) = 24.
Proof. reflexivity. Qed.

(** The version the payload names. *)
Definition wire_version (v : Z) : Z := if v =? 0 then DefaultNIVersion else v.

Lemma encode_route hs v :
  good_route hs -> 0 <= v <= 255 ->
  EncodeRouteRequestPayload (route_of hs) v
  = Ok (route_header (zlen hs) (wire_version v) (total_length hs) (byteLength (hd (mkHop [] [] []) hs)) ++ hop_bytes hs).
Proof.
  intros [_ Hc _ Hl] Hv. unfold EncodeRouteRequestPayload. cbn [hops route_of ByteLength]. destruct hs as [|first hs]; [change (zlen (@nil internalHop)) with 0 in Hc; lia|].
  set (all := first :: hs) in *. cbn [hd]. fold (wire_version v). unfold all at 1. cbv zeta.
  assert (1 <= wire_version v <= 255) as Hw by (unfold wire_version, DefaultNIVersion; destruct (Z.eqb_spec v 0); lia).
  rewrite (proj2 (Z.ltb_ge (wire_version v) 1)), (proj2 (Z.ltb_ge 255 (wire_version v))) by lia. cbn [orb].
  pose proof (length_bounded all) as Hb. pose proof (zlen_hop_bytes all) as Hz. set (n := total_length all) in *.
  assert (zeros (RouteHeaderLength + n) = replicate 24 x00 ++ replicate (Z.to_nat n) x00) as ->.
  { unfold zeros, RouteHeaderLength. rewrite <- replicate_add. f_equal. lia. }
  rewrite fill_header_zeros, ok_bind. set (hdr := route_header _ _ _ _). change RouteHeaderLength with (zlen hdr).
  unfold hop_bytes in *. fold all. rewrite put_fields_zeros, ok_bind by (unfold zlen in Hz; lia).
  replace (Z.to_nat n - length (concat (map terminated (concat (map hop_fields all)))))%nat with O by (unfold zlen in Hz; lia).
  rewrite app_nil_r, Z.eqb_refl. done.
Qed.

(** Reading NUL-terminated fields three at a time. *)
Fixpoint nul_fields (b : bytes) (acc : bytes) : list bytes :=
  match b with
  | [] => []
  | x :: b => if bool_decide (x = x00) then acc :: nul_fields b [] else nul_fields b (acc ++ [x])
  end.

Fixpoint as_hops (l : list bytes) : list internalHop :=
  match l with
  | h :: s :: p :: l => mkHop h s p :: as_hops l
  | _ => []
  end.

Lemma nul_fields_word f acc rest : x00 ∉ f -> nul_fields (terminated f ++ rest) acc = (acc ++ f) :: nul_fields rest [].
Proof.
  unfold terminated. revert acc. induction f as [|b f IH]; intros acc Hf; cbn [app nul_fields]; [by rewrite bool_decide_eq_true_2, app_nil_r|].
  apply not_elem_of_cons in Hf as [Hb Hf]. rewrite bool_decide_eq_false_2 by done. rewrite IH by done. by rewrite <- app_assoc.
Qed.

Lemma field_no_nul k s : s = [] \/ field_ok k s -> x00 ∉ s.
Proof.
  intros [->|[_ Hf]%field_chars]; [by apply not_elem_of_nil|]. intros Hin. rewrite Forall_forall in Hf. specialize (Hf _ Hin). by vm_compute in Hf.
Qed.

Lemma hop_bytes_read hs : Forall valid_hop hs -> as_hops (nul_fields (hop_bytes hs) []) = hs.
Proof.
  unfold hop_bytes. induction 1 as [|h hs [Hh Hs Hp] _ IH]; [done|]. cbn [map concat hop_fields app].
  rewrite !nul_fields_word by (eapply field_no_nul; first [by right|eassumption]). cbn [app as_hops]. rewrite IH. by destruct h.
Qed.

(** The NI_ROUTE payload of an admitted route is its header followed by the NUL-terminated
    fields of its hops, and the hops are read back from it. *)
Theorem route_request_exact s r v :
  Admit s = Ok r -> 0 <= v <= 255 ->
  exists payload, EncodeRouteRequestPayload r v = Ok payload /\
    payload = route_header (HopCount r) (wire_version v) (ByteLength r) (byteLength (hd (mkHop [] [] []) (hops r))) ++ hop_bytes (hops r) /\
    zlen payload = RouteHeaderLength + ByteLength r /\ as_hops (nul_fields (drop 24 payload) []) = hops r.
Proof.
  intros (hs & -> & Hg & ->)%admit_is_good Hv. eexists. split; [by apply encode_route|]. split; [done|]. cbn [hops route_of ByteLength].
  split; [by rewrite zlen_app, zlen_route_header, zlen_hop_bytes|].
  change 24%nat with (length (route_header (zlen hs) (wire_version v) (total_length hs) (byteLength (hd (mkHop [] [] []) hs)))).
  rewrite drop_app_length. apply hop_bytes_read. by destruct Hg.
Qed.

(** ** The response, exactly *)
Definition rejection (v rc : Z) (text : bytes) (modern : bool) : bytes :=
  errEyecatcher ++ [z2b v; x00; x00] ++ be_split 4 (uint32 rc) ++ be_split 4 (zlen text) ++ text ++ (if modern then zeros 4 else []).

Lemma rejection_parts v rc text modern :
  let input := rejection v rc text modern in
  zlen input = 20 + zlen text + (if modern then 4 else 0) /\ hasPrefix input errEyecatcher = true /\ bytes_eqb input pong = false /\
  go_index (E := error) input 9 = Ok (z2b v) /\ go_index (E := error) input 10 = Ok x00 /\ go_index (E := error) input 11 = Ok x00 /\
  go_from (E := error) input 12 = Ok (be_split 4 (uint32 rc) ++ be_split 4 (zlen text) ++ text ++ (if modern then zeros 4 else [])) /\
  go_from (E := error) input 16 = Ok (be_split 4 (zlen text) ++ text ++ (if modern then zeros 4 else [])).
Proof.
  cbv zeta. unfold rejection. destruct (four_bytes (uint32 rc)) as (a & b & c & d & ->). destruct (four_bytes (zlen text)) as (e & f & g & h & ->).
  split_and!; try reflexivity.
  - rewrite !zlen_app. change (zlen errEyecatcher) with 9. change (zlen [z2b v; x00; x00]) with 3. change (zlen [a; b; c; d]) with 4. change (zlen [e; f; g; h]) with 4.
    destruct modern; [change (zlen (zeros 4)) with 4|change (zlen (@nil byte)) with 0]; lia.
  - unfold hasPrefix. rewrite take_app_length, bytes_eqb_refl, andb_true_r. apply Z.leb_le. rewrite zlen_app.
    pose proof (zlen_nonneg ([z2b v; x00; x00] ++ [a; b; c; d] ++ [e; f; g; h] ++ text ++ (if modern then zeros 4 else []))). lia.
  - apply (go_from_app (errEyecatcher ++ [z2b v; x00; x00])). reflexivity.
  - apply (go_from_app (errEyecatcher ++ [z2b v; x00; x00] ++ [a; b; c; d])). reflexivity.
Qed.

Lemma rejection_decodes v rc text modern :
  1 <= v <= 255 -> - 2 ^ 31 <= rc < 0 -> zlen (rejection v rc text modern) <= MaxResponsePayloadBytes ->
  DecodeRouteResponse (rejection v rc text modern) = Ok (mkResponse Rejected v rc (zlen text)).
Proof.
  intros Hv Hrc Hl. unfold DecodeRouteResponse. rewrite (proj2 (Z.ltb_ge MaxResponsePayloadBytes _)) by done.
  destruct (rejection_parts v rc text modern) as (Hz & -> & -> & -> & -> & -> & -> & ->). cbn [negb]. pose proof (zlen_nonneg text).
  rewrite (proj2 (Z.ltb_ge _ 20)) by (rewrite Hz; destruct modern; lia). rewrite !ok_bind.
  do 2 (rewrite be_uint_app, !ok_bind by apply length_be_split). unfold MaxResponsePayloadBytes in Hl.
  rewrite (be_round 4 (uint32 rc)) by (unfold uint32; apply Z.mod_pos_bound; lia).
  rewrite (be_round 4 (zlen text)) by (destruct modern; lia). cbv zeta. rewrite int32_uint32 by (unfold is_i32; lia).
  rewrite b2z_z2b_small by (unfold is_u8; lia). change (b2z x00) with 0. rewrite (proj2 (Z.eqb_neq v 0)), (proj2 (Z.leb_gt 0 rc)) by lia.
  cbn [Z.eqb negb orb]. rewrite Hz. destruct modern.
  - rewrite (proj2 (Z.eqb_neq (20 + zlen text + 4) (20 + zlen text))) by lia. rewrite Z.eqb_refl. cbn [negb andb].
    unfold rejection. assert (go_from (E := error) (errEyecatcher ++ [z2b v; x00; x00] ++ be_split 4 (uint32 rc) ++ be_split 4 (zlen text) ++ text ++ zeros 4)
      (20 + zlen text) = Ok (zeros 4)) as ->; [|done].
    rewrite !app_assoc. apply go_from_app. rewrite !zlen_app. unfold zlen at 4 5. rewrite !length_be_split. change (zlen errEyecatcher) with 9.
    change (zlen [z2b v; x00; x00]) with 3. lia.
  - rewrite Z.add_0_r, Z.eqb_refl, (proj2 (Z.eqb_neq (20 + zlen text) (20 + zlen text + 4))) by lia. done.
Qed.

Lemma prefix_inv v p : hasPrefix v p = true -> exists rest, v = p ++ rest.
Proof.
  unfold hasPrefix. intros [_ H%bytes_eqb_eq]%andb_true_iff. exists (drop (length p) v). rewrite <- H at 1. by rewrite take_drop.
Qed.

Lemma response_is_rejection input v rc n :
  DecodeRouteResponse input = Ok (mkResponse Rejected v rc n) ->
  exists text modern, input = rejection v rc text modern /\ n = zlen text /\ 1 <= v <= 255 /\ - 2 ^ 31 <= rc < 0.
Proof.
  unfold DecodeRouteResponse. destruct (_ <? zlen input); [done|]. destruct (bytes_eqb input pong); [done|].
  destruct (hasPrefix input errEyecatcher) eqn:Ep; [|done]. apply prefix_inv in Ep as [rest ->]. cbn [negb].
  destruct (Z.ltb_spec (zlen (errEyecatcher ++ rest)) 20) as [|Hl]; [done|]. rewrite zlen_app in Hl. change (zlen errEyecatcher) with 9 in Hl.
  destruct (cut_prefix 11 rest) as (p & tail & -> & Hp); [unfold zlen in Hl; lia|]. explode p.
  change (go_index (E := error) (errEyecatcher ++ [b; b0; b1; b2; b3; b4; b5; b6; b7; b8; b9] ++ tail) 9) with (Ok (E := error) b).
  change (go_index (E := error) (errEyecatcher ++ [b; b0; b1; b2; b3; b4; b5; b6; b7; b8; b9] ++ tail) 10) with (Ok (E := error) b0).
  change (go_index (E := error) (errEyecatcher ++ [b; b0; b1; b2; b3; b4; b5; b6; b7; b8; b9] ++ tail) 11) with (Ok (E := error) b1).
  rewrite !ok_bind. rewrite (go_from_app (errEyecatcher ++ [b; b0; b1]) ([b2; b3; b4; b5] ++ [b6; b7; b8; b9] ++ tail) 12), ok_bind by reflexivity.
  rewrite (go_from_app (errEyecatcher ++ [b; b0; b1] ++ [b2; b3; b4; b5]) ([b6; b7; b8; b9] ++ tail) 16) by reflexivity.
  rewrite be_uint_app, !ok_bind by reflexivity. rewrite be_uint_app, ok_bind by reflexivity. cbv zeta.
  set (n' := be_combine [b6; b7; b8; b9]). pose proof (be_combine_range [b6; b7; b8; b9]) as Hn. fold n' in Hn. change (256 ^ zlen [b6; b7; b8; b9]) with (2 ^ 32) in Hn.
  destruct (Z.eqb_spec (b2z b) 0) as [|Hv]; [done|]. destruct (Z.eqb_spec (b2z b0) 0) as [H0|]; [|done]. destruct (Z.eqb_spec (b2z b1) 0) as [H1|]; [|done].
  cbn [negb orb]. destruct (Z.leb_spec 0 (int32 (be_combine [b2; b3; b4; b5]))) as [|Hrc]; [done|].
  rewrite zlen_app. change (zlen errEyecatcher) with 9. rewrite zlen_app. change (zlen [b; b0; b1; b2; b3; b4; b5; b6; b7; b8; b9]) with 11.
  assert (b0 = x00 /\ b1 = x00) as [-> ->] by (split; by apply b2z_inj). pose proof (b2z_range b) as Hbr.
  pose proof (int32_range (be_combine [b2; b3; b4; b5])) as Hir. unfold is_i32 in Hir.
  assert (forall text, zlen text = n' -> errEyecatcher ++ [b; x00; x00; b2; b3; b4; b5; b6; b7; b8; b9] ++ text
    = errEyecatcher ++ [z2b (b2z b); x00; x00] ++ be_split 4 (uint32 (int32 (be_combine [b2; b3; b4; b5]))) ++ be_split 4 (zlen text) ++ text) as Hr.
  { intros text ->. rewrite z2b_b2z, be_split_int32, be_split_4. unfold n'. by rewrite be_split_4. }
  set (rc' := int32 (be_combine [b2; b3; b4; b5])) in *. clearbody n' rc'.
  intros H. destruct (Z.eqb_spec (9 + (11 + zlen tail)) (20 + n')) as [Hd|Hd].
  - rewrite (proj2 (Z.eqb_neq (9 + (11 + zlen tail)) (20 + n' + 4))) in H by lia. cbn in H. apply Ok_inj in H. simplify_eq.
    exists tail, false. unfold rejection. rewrite app_nil_r. split; [apply Hr; lia|]. split_and!; lia.
  - cbn [negb andb] in H. destruct (Z.eqb_spec (9 + (11 + zlen tail)) (20 + n' + 4)) as [Hm|]; [|done]. cbn [negb] in H.
    destruct (cut_prefix (Z.to_nat n') tail) as (text & tr & -> & Ht); [unfold zlen in Hm; lia|].
    assert (zlen text = n') as Htl by (unfold zlen; lia). rewrite zlen_app in Hm. assert (length tr = 4%nat) as Htr by (unfold zlen in Hm, Htl; lia).
    rewrite (app_assoc [b; x00; x00; b2; b3; b4; b5; b6; b7; b8; b9] text tr), (app_assoc errEyecatcher) in H.
    rewrite (go_from_app (errEyecatcher ++ [b; x00; x00; b2; b3; b4; b5; b6; b7; b8; b9] ++ text) tr), ok_bind in H
      by (rewrite !zlen_app; change (zlen errEyecatcher) with 9; change (zlen [b; x00; x00; b2; b3; b4; b5; b6; b7; b8; b9]) with 11; lia).
    unfold be_uint in H. rewrite Htr in H. cbn [Nat.ltb Nat.leb] in H. rewrite ok_bind, take_ge in H by lia.
    destruct (Z.eqb_spec (be_combine tr) 0) as [Hz|]; [|done]. apply Ok_inj in H. simplify_eq.
    exists text, true. unfold rejection. split; [|split_and!; lia].
    assert (tr = zeros 4) as -> by (rewrite <- (be_split_bytes 4 tr Htr), Hz; reflexivity). rewrite !app_assoc. f_equal. rewrite <- !app_assoc. by apply Hr.
Qed.

Lemma route_response_accepted input r : DecodeRouteResponse input = Ok r -> rp_Kind r = Accepted -> input = pong.
Proof.
  intros H Hk. unfold DecodeRouteResponse in H. destruct (_ <? zlen input); [done|]. destruct (bytes_eqb input pong) eqn:E; [by apply bytes_eqb_eq in E|].
  exfalso. repeat (cbv zeta in H; match type of H with
    | (if ?c then _ else _) = _ => destruct c; [done|]
    | (_ ≫= _) = _ => let a := fresh in let Ha := fresh in apply obind_ok in H as (a & Ha & H)
    end). apply Ok_inj in H. by subst r.
Qed.

(** A response is accepted exactly when it is NI_PONG, and rejected with a code exactly when
    it is a well-formed NI_RTERR record. *)
Theorem route_response_exact input r :
  DecodeRouteResponse input = Ok r <->
  zlen input <= MaxResponsePayloadBytes /\
  ((input = pong /\ r = mkResponse Accepted 0 0 0) \/
   exists v rc text modern, input = rejection v rc text modern /\ 1 <= v <= 255 /\ - 2 ^ 31 <= rc < 0 /\ r = mkResponse Rejected v rc (zlen text)).
Proof.
  split.
  - intros H. destruct (Z.ltb_spec MaxResponsePayloadBytes (zlen input)) as [Hl|Hl].
    { unfold DecodeRouteResponse in H. by rewrite (proj2 (Z.ltb_lt _ _) Hl) in H. }
    split; [done|]. destruct r as [[] v rc n].
    + left. pose proof (route_response_accepted _ _ H eq_refl) as ->. split; [done|]. vm_compute in H. congruence.
    + right. apply response_is_rejection in H as (text & modern & -> & -> & Hv & Hrc). by exists v, rc, text, modern.
  - intros [Hl [[-> ->]|(v & rc & text & modern & -> & Hv & Hrc & ->)]]; [reflexivity|by apply rejection_decodes].
Qed.

Lemma response_no_panic input : DecodeRouteResponse input <> Panic.
Proof.
  unfold DecodeRouteResponse. destruct (_ <? zlen input); [done|]. destruct (bytes_eqb input pong); [done|]. destruct (negb _); [done|].
  destruct (Z.ltb_spec (zlen input) 20); [done|].
  do 3 (apply obind_panic; [match goal with |- go_index input ?i <> _ => destruct (go_index_ok (E := error) input i) as [? ->]; [lia|done] end|intros ? _]).
  assert (forall n, n <= 16 -> 0 <= n -> go_from (E := error) input n = Ok (drop (Z.to_nat n) input)) as Hf.
  { intros n H1 H2. unfold go_from. rewrite go_slice_ok by lia. f_equal. apply take_ge. len_lia. }
  assert (forall n, n <= 16 -> 0 <= n -> be_uint (E := error) 4 (drop (Z.to_nat n) input) <> Panic) as Hb.
  { intros n H1 H2. unfold be_uint. rewrite length_drop. by destruct (Nat.ltb_spec (length input - Z.to_nat n) 4); [unfold zlen in *; lia|]. }
  rewrite !Hf, ok_bind by lia. apply obind_panic; [apply Hb; lia|]. intros rc _. cbv zeta. rewrite ok_bind.
  apply obind_panic; [apply Hb; lia|]. intros n Hn. assert (0 <= n) as Hn0.
  { unfold be_uint in Hn. destruct (_ <? _)%nat; [done|]. apply Ok_inj in Hn. subst n. apply be_combine_range. }
  destruct (_ || _); [done|]. destruct (_ && _); [done|].
  apply obind_panic; [|intros t _; by destruct (negb _)]. destruct (Z.eqb_spec (zlen input) (20 + n + 4)) as [Hm|]; [|done].
  unfold go_from. rewrite go_slice_ok, ok_bind by lia. unfold be_uint. rewrite length_take, length_drop.
  by destruct (Nat.ltb_spec (Nat.min (Z.to_nat (zlen input - (20 + n))) (length input - Z.to_nat (20 + n))) 4); [unfold zlen in *; lia|].
Qed.

(** ** The handshake *)

(** The frame of a request: one NI record. *)
Lemma route_frame payload :
  zlen payload < 2 ^ 32 ->
  go_copy (go_copy (zeros (4 + zlen payload)) 0 (be_split 4 (uint32 (zlen payload)))) 4 payload = be_split 4 (zlen payload) ++ payload /\
  EncodeFrame payload = Ok (be_split 4 (zlen payload) ++ payload).
Proof.
  intros Hl. pose proof (zlen_nonneg payload). assert (go_copy (go_copy (zeros (4 + zlen payload)) 0 (be_split 4 (uint32 (zlen payload)))) 4 payload
    = be_split 4 (zlen payload) ++ payload) as E.
  { unfold zeros. rewrite go_copy_pad by (rewrite length_be_split; lia). rewrite be_split_uint32, length_be_split.
    replace 4 with (zlen (be_split 4 (zlen payload))) at 3 by (unfold zlen; by rewrite length_be_split).
    rewrite go_copy_exact by (unfold zlen; lia). replace (Z.to_nat (4 + zlen payload) - 4 - length payload)%nat with O by (unfold zlen; lia). apply app_nil_r. }
  split; [done|]. unfold EncodeFrame, MaxUint32. rewrite (proj2 (Z.ltb_ge _ _)) by lia. by rewrite <- E.
Qed.

(** The answer of the router decides the outcome. *)
Definition route_outcome (response : bytes) : res unit :=
  d ← DecodeRouteResponse response; match rp_Kind d with Accepted => Ok tt | Rejected => Err errInvalidRoute end.

Lemma perform_route_steps s r v payload c n response rest :
  Admit s = Ok r -> EncodeRouteRequestPayload r v = Ok payload -> zlen payload < 2 ^ 32 -> writes_left c = S n ->
  incoming c = be_split 4 (zlen response) ++ response ++ rest -> zlen response <= MaxResponsePayloadBytes ->
  PerformRoute r v c = (route_outcome response, mkConn rest (outgoing c ++ be_split 4 (zlen payload) ++ payload) n).
Proof.
  intros _ Hp Hl Hw Hi Hr. unfold PerformRoute. munfold. rewrite Hp. cbv beta iota. rewrite (proj1 (route_frame payload Hl)).
  rewrite (conn_write_ok _ _ _ _ Hw). unfold MaxResponsePayloadBytes in Hr. pose proof (zlen_nonneg response).
  erewrite conn_read_ok; [|cbn; exact Hi|unfold zlen; by rewrite length_be_split]. cbn [incoming outgoing writes_left].
  rewrite <- (app_nil_r (be_split 4 (zlen response))), be_uint_app by apply length_be_split. rewrite be_round by lia.
  rewrite (proj2 (Z.ltb_ge MaxResponsePayloadBytes _)) by (unfold MaxResponsePayloadBytes; lia).
  erewrite conn_read_ok; [|cbn; reflexivity|done]. cbn [incoming outgoing writes_left]. unfold route_outcome. munfold.
  destruct (DecodeRouteResponse response) as [d| |]; [|done..]. by destruct (rp_Kind d).
Qed.

Lemma payload_short s r v payload : Admit s = Ok r -> 0 <= v <= 255 -> EncodeRouteRequestPayload r v = Ok payload -> zlen payload < 2 ^ 32.
Proof.
  intros (hs & -> & Hg & ->)%admit_is_good Hv H. rewrite (encode_route hs v Hg Hv) in H. apply Ok_inj in H. subst payload.
  rewrite zlen_app, zlen_route_header, zlen_hop_bytes. pose proof (length_bounded hs). destruct Hg as [_ _ _ Hl]. unfold MaxRouteBytes in Hl. lia.
Qed.

Lemma perform_no_panic s r v c : Admit s = Ok r -> 0 <= v <= 255 -> fst (PerformRoute r v c) <> Panic.
Proof.
  intros (hs & _ & Hg & ->)%admit_is_good Hv. unfold PerformRoute. munfold. rewrite (encode_route hs v Hg Hv). cbv beta iota.
  match goal with |- context [conn_write ?e ?f c] => pose proof (conn_write_no_panic e f c) as Hw; destruct (conn_write e f c) as [[u| |] c2]; [|done..] end.
  destruct (conn_read errInvalidResponse 4 c2) as [[lp| |] c3] eqn:Er; [|done|by pose proof (conn_read_no_panic errInvalidResponse 4 c2) as Hx; rewrite Er in Hx].
  apply conn_read_inv in Er as (_ & Hlp & _); [|lia]. assert (length lp = 4%nat) as Hl4 by (unfold zlen in Hlp; lia).
  rewrite <- (app_nil_r lp), be_uint_app by done. destruct (_ <? be_combine lp); [done|].
  destruct (conn_read errInvalidResponse (be_combine lp) c3) as [[rs| |] c4] eqn:Er; [|done|by pose proof (conn_read_no_panic errInvalidResponse (be_combine lp) c3) as Hx; rewrite Er in Hx].
  pose proof (response_no_panic rs) as Hp. destruct (DecodeRouteResponse rs) as [d| |]; [by destruct (rp_Kind d)|done|done].
Qed.

(** C36: PerformRoute on an admitted route, with a version from 0 to 255, never panics; when
    it succeeds it has written one NI frame that carries the route request and consumed
    exactly one NI_PONG frame, leaving the tunnelled bytes; and when the write succeeds and
    the router sends NI_PONG it succeeds. *)
Theorem route_handshake s r v c :
  Admit s = Ok r -> 0 <= v <= 255 ->
  exists payload frame, EncodeRouteRequestPayload r v = Ok payload /\ EncodeFrame payload = Ok frame /\
    fst (PerformRoute r v c) <> Panic /\
    forall c', PerformRoute r v c = (Ok tt, c') <->
      exists n, writes_left c = S n /\ incoming c = be_split 4 (zlen pong) ++ pong ++ incoming c' /\
        c' = mkConn (incoming c') (outgoing c ++ frame) n.
Proof.
  intros Ha Hv. pose proof (perform_no_panic s r v c Ha Hv) as Hnp. pose proof Ha as (hs & -> & Hg & ->)%admit_is_good.
  pose proof (encode_route hs v Hg Hv) as Hp. set (payload := _ ++ hop_bytes hs) in Hp. pose proof (payload_short _ _ _ _ Ha Hv Hp) as Hl.
  destruct (route_frame payload Hl) as [Hfr Hf]. exists payload, (be_split 4 (zlen payload) ++ payload). do 3 (split; [done|]). intros c'. split.
  - intros H. unfold PerformRoute in H. apply bind_inv in H as (pl & c1 & H1 & H). unfold lift in H1. rewrite Hp in H1. simplify_eq.
    cbv zeta in H. rewrite Hfr in H. apply bind_inv in H as (u & c2 & H2 & H). apply conn_write_inv in H2 as (Hi2 & Ho2 & Hw2).
    apply bind_inv in H as (lp & c3 & H3 & H). apply conn_read_inv in H3 as (Hi3 & Hlp & Ho3 & Hw3); [|lia].
    apply bind_inv in H as (n & c4 & H4 & H). unfold lift in H4. assert (length lp = 4%nat) as Hlp4 by (unfold zlen in Hlp; lia).
    rewrite <- (app_nil_r lp), be_uint_app in H4 by done. simplify_eq. destruct (_ <? be_combine lp); [done|].
    apply bind_inv in H as (rs & c5 & H5 & H). apply conn_read_inv in H5 as (Hi5 & Hrs & Ho5 & Hw5); [|apply be_combine_range].
    apply bind_inv in H as (d & c6 & H6 & H). unfold lift in H6. destruct (DecodeRouteResponse rs) as [d'| |] eqn:Ed; simplify_eq.
    destruct (rp_Kind d) eqn:Ek; [|done]. unfold mret, stm_ret in H. simplify_eq. apply route_response_accepted in Ed; [|done]. subst rs.
    exists (writes_left c'). split; [congruence|]. rewrite <- Hi2, Hi3, Hi5.
    split; [f_equal; rewrite Hrs; symmetry; by apply be_split_bytes|]. destruct c' as [i o w]. cbn in *. congruence.
  - intros (n & Hw & Hi & ->). cbn [incoming]. rewrite (perform_route_steps _ _ _ _ _ _ pong (incoming c') Ha Hp Hl Hw Hi) by done. reflexivity.
Qed.

(** ** Instances *)
Definition sample_route : bytes := lit "/H/ab/S/3299/W/pw/H/cd/S/sapgw00".
Definition sample_hops : list internalHop := [mkHop (lit "ab") (lit "3299") (lit "pw"); mkHop (lit "cd") (lit "sapgw00") []].

Lemma sample_admitted : Admit sample_route = Ok (route_of sample_hops).
Proof. vm_compute. reflexivity. Qed.

Lemma passwords_stay_secret_witness :
  exists r1 r2, Admit sample_route = Ok r1 /\ Admit (lit "/H/ab/S/3299/W/secret/H/cd/S/sapgw00") = Ok r2 /\
    RedactedRouteString r1 = RedactedRouteString r2 /\ Hops r1 = Hops r2 /\ r_FirstHop r1 = r_FirstHop r2 /\ HopCount r1 = HopCount r2.
Proof.
  set (h2 := [mkHop (lit "ab") (lit "3299") (lit "secret"); mkHop (lit "cd") (lit "sapgw00") []]).
  assert (Admit (lit "/H/ab/S/3299/W/secret/H/cd/S/sapgw00") = Ok (route_of h2)) as H2 by (vm_compute; reflexivity).
  exists (route_of sample_hops), (route_of h2). split; [exact sample_admitted|]. split; [exact H2|].
  apply (passwords_stay_secret _ _ _ _ sample_admitted H2). repeat constructor; vm_compute; congruence.
Defined.

Lemma complete_route_target_witness :
  exists r, CompleteRoute (lit "/H/ab/S/3299/W/pw/H/") (lit "gw") 3300 = Ok r /\
    exists hs, lit "/H/ab/S/3299/W/pw/H/" = route_text hs ++ lit "/H/" /\ hops r = hs ++ [mkHop (lit "gw") (lit (pretty 3300)) []].
Proof.
  destruct (CompleteRoute (lit "/H/ab/S/3299/W/pw/H/") (lit "gw") 3300) as [r|e|] eqn:E; [|vm_compute in E; discriminate..].
  exists r. split; [reflexivity|]. exact (complete_route_target _ _ _ _ E).
Defined.

Lemma route_request_exact_witness :
  exists payload, EncodeRouteRequestPayload (route_of sample_hops) 0 = Ok payload /\
    payload = route_header 2 (wire_version 0) 23 11 ++ hop_bytes sample_hops /\
    zlen payload = RouteHeaderLength + 23 /\ as_hops (nul_fields (drop 24 payload) []) = sample_hops.
Proof. apply (route_request_exact sample_route (route_of sample_hops) 0 sample_admitted). lia. Defined.

Lemma route_handshake_witness :
  exists payload frame, EncodeRouteRequestPayload (route_of sample_hops) 0 = Ok payload /\ EncodeFrame payload = Ok frame /\
    fst (PerformRoute (route_of sample_hops) 0 (mkConn (be_split 4 8 ++ pong) [] 1)) <> Panic /\
    forall c', PerformRoute (route_of sample_hops) 0 (mkConn (be_split 4 8 ++ pong) [] 1) = (Ok tt, c') <->
      exists n, writes_left (mkConn (be_split 4 8 ++ pong) [] 1) = S n /\
        incoming (mkConn (be_split 4 8 ++ pong) [] 1) = be_split 4 (zlen pong) ++ pong ++ incoming c' /\
        c' = mkConn (incoming c') (outgoing (mkConn (be_split 4 8 ++ pong) [] 1) ++ frame) n.
Proof. apply (route_handshake sample_route (route_of sample_hops) 0 _ sample_admitted). lia. Defined.
