(* ===== verification/Appc.v ===== *)
(** Package [appc], internal/appc/appc.go: the constants, the function table, the
    fixed-field ASCII helpers and the 48-byte common header of the version-6
    APPC/CPI-C records.

    A Go [string] field is its bytes.  The theorems give the exact round trip of
    each fixed-field text codec: which bytes come back, and for which values the
    decoder accepts what the encoder produced. *)
From stdpp Require Import base list numbers strings.
From Stdlib Require Import ZArith Lia Strings.Byte.
From S2P Require Import Prelude Errors Wire.

Open Scope Z_scope.

Definition ProtocolVersion : Z := 0x06.
Definition CommonHeaderLength : Z := 48.
Definition RecordHeaderLength : Z := 80.
Definition ExtendedInitializeOptionsLength : Z := 341.
Definition InitializeParametersLength : Z := 373.
Definition PartnerParametersLength : Z := 144.
Definition VectorEndOfMessage : Z := 0x04.
Definition FinalSapParameterLength : Z := 8.
Definition MaxApplicationDataFragmentLength : Z := 28000.
Definition MaxAsyncSendsBeforeSync : Z := 21.
Definition MaxOutgoingMessageLength : Z := 0x7fffffff.
Definition DefaultMaxOutgoingMessageLength : Z := 1400000.
Definition DefaultMaxMessageLength : Z := 256 * 1024 * 1024.
Definition DefaultMaxMessageFragments : Z := 65536.
Definition returnCodeDeallocatedNormal : Z := 18.

(** [type Function uint8] *)
Abbreviation Function_ := Z.
Definition FuncInitialize : Function_ := 0x01.
Definition FuncAllocate : Function_ := 0x05.
Definition FuncSendData : Function_ := 0x07.
Definition FuncAsyncSendData : Function_ := 0x08.
Definition FuncReceive : Function_ := 0x09.
Definition FuncAsyncReceive : Function_ := 0x0a.
Definition FuncDeallocate : Function_ := 0x0b.
Definition FuncSetTpName : Function_ := 0x0d.
Definition FuncSetPartnerLuName : Function_ := 0x0f.
Definition FuncFlush : Function_ := 0x1b.
Definition FuncSapSend : Function_ := 0xcb.

Record PayloadInfo : Type := mkPayloadInfo {
  pi_ProtocolVersion : Z;
  pi_FunctionCode : Function_;
  pi_FunctionName : string;
}.

(** The decoded common header; the embedded [PayloadInfo] is its first field. *)
Record Header : Type := mkHeader {
  h_PayloadInfo : PayloadInfo;
  h_Protocol : Z;
  h_Mode : Z;
  h_UID : Z;
  h_GatewayID : Z;
  h_ErrorLength : Z;
  h_Info2 : Z;
  h_TraceLevel : Z;
  h_Time : Z;
  h_Info3 : Z;
  h_Timeout : Z;
  h_Info4 : Z;
  h_SequenceNumber : Z;
  h_SapParameterLen : Z;
  h_Padding : Z;
  h_Info : Z;
  h_Vector : Z;
  h_AppcReturnCode : Z;
  h_SapReturnCode : Z;
  h_ConversationID : bytes;
}.

Definition h_FunctionCode (h : Header) : Function_ := pi_FunctionCode (h_PayloadInfo h).
Definition h_FunctionName (h : Header) : string := pi_FunctionName (h_PayloadInfo h).

Definition functionNames : list (Function_ * string) :=
  [(FuncInitialize, "F_INITIALIZE");
   (FuncAllocate, "F_ALLOCATE");
   (FuncSendData, "F_SEND_DATA");
   (FuncAsyncSendData, "F_ASEND_DATA");
   (FuncReceive, "F_RECEIVE");
   (FuncAsyncReceive, "F_ARECEIVE");
   (FuncDeallocate, "F_DEALLOCATE");
   (FuncSetTpName, "F_SET_TP_NAME");
   (FuncSetPartnerLuName, "F_SET_PARTNER_LU_NAME");
   (FuncFlush, "F_FLUSH");
   (FuncSapSend, "F_SAP_SEND")].

Definition controlFunctions (code : Function_) : bool :=
  existsb (Z.eqb code)
    [FuncInitialize; FuncAllocate; FuncDeallocate; FuncSetTpName; FuncSetPartnerLuName; FuncFlush].

(** ["%02x"] of a byte. *)
Definition hex_digit (z : Z) : string :=
  default "?" (["0"; "1"; "2"; "3"; "4"; "5"; "6"; "7"; "8"; "9"; "a"; "b"; "c"; "d"; "e"; "f"]%string
               !! Z.to_nat z).

Definition FunctionName (code : Function_) : string :=
  match find (fun e => Z.eqb (fst e) code) functionNames with
  | Some e => snd e
  | None => "UNKNOWN_0x" +:+ hex_digit (code / 16) +:+ hex_digit (code mod 16)
  end.

Definition InspectPayload (payload : bytes) : res PayloadInfo :=
  if zlen payload <? 2 then Err (EAppc APPC_ErrRange)
  else
    b0 ← go_index payload 0;
    b1 ← go_index payload 1;
    let protocolVersion := b2z b0 in
    let functionCode := b2z b1 in
    if negb (protocolVersion =? ProtocolVersion) then Err (EAppc APPC_ErrUnsupported)
    else Ok (mkPayloadInfo protocolVersion functionCode (FunctionName functionCode)).

(** [printableASCII]: [^[\x20-\x7e]*$]. *)
Definition printable_byte (b : byte) : bool := (0x20 <=? b2z b) && (b2z b <=? 0x7e).
Definition printableASCII (s : bytes) : bool := forallb printable_byte s.

(** [hexIDPattern]: [^[0-9A-F]{16}$]. *)
Definition hex_upper_byte (b : byte) : bool :=
  ((0x30 <=? b2z b) && (b2z b <=? 0x39)) || ((0x41 <=? b2z b) && (b2z b <=? 0x46)).
Definition hexIDPattern (s : bytes) : bool := (zlen s =? 16) && forallb hex_upper_byte s.

Definition encodeFixedAscii (value : bytes) (field : string) : res bytes :=
  if negb (printableASCII value) || (8 <? zlen value) then Err (EAppc APPC_ErrRange)
  else
    let pad := if zlen value =? 0 then x00 else x20 in
    Ok (go_copy (replicate 8 pad) 0 value).

(** The loop of [trimRightBytes], on the reversed string. *)
Fixpoint trim_loop (cutset rs : bytes) : bytes :=
  match rs with
  | [] => []
  | b :: rs' => if bool_decide (b ∈ cutset) then trim_loop cutset rs' else rs
  end.
Definition trimRightBytes (s cutset : bytes) : bytes := rev (trim_loop cutset (rev s)).

Definition nul_space : bytes := [x00; x20].

Definition decodeFixedAscii (value : bytes) (field : string) : res bytes :=
  if existsb (fun b => negb (b2z b =? 0) && ((b2z b <? 0x20) || (0x7e <? b2z b))) value
  then Err (EAppc APPC_ErrProtocol)
  else Ok (trimRightBytes value nul_space).

Definition encodePaddedAscii (value : bytes) (width : Z) (padding : byte) (field : string) : res bytes :=
  if negb (printableASCII value) || (width <? zlen value) then Err (EAppc APPC_ErrRange)
  else Ok (go_copy (replicate (Z.to_nat width) padding) 0 value).

(** [bytes.IndexByte], with [len(encoded)] for a byte that does not occur. *)
Fixpoint index_byte (l : bytes) (p : byte) : nat :=
  match l with
  | [] => 0
  | b :: l => if bool_decide (b = p) then 0 else S (index_byte l p)
  end.

Definition decodePaddedAscii (encoded : bytes) (padding : byte) (field : string) : res bytes :=
  let end_ := index_byte encoded padding in
  if existsb (fun b => negb (printable_byte b)) (take end_ encoded) then Err (EAppc APPC_ErrProtocol)
  else if existsb (fun b => negb (bool_decide (b = padding))) (drop end_ encoded)
  then Err (EAppc APPC_ErrProtocol)
  else Ok (take end_ encoded).

Definition exactBytes (value : bytes) (length : Z) (field : string) : res bytes :=
  if negb (zlen value =? length) then Err (EAppc APPC_ErrRange) else Ok value.

Definition fixedHexID (value : bytes) (field : string) : res bytes :=
  if negb (hexIDPattern value) then Err (EAppc APPC_ErrRange) else Ok value.

Definition decode_header_fields : M Reader.t Header :=
  protocolVersion ← Reader.ReadUint8 "protocolVersion";
  functionCode ← Reader.ReadUint8 "functionCode";
  info ← lift (InspectPayload [z2b protocolVersion; z2b functionCode]);
  protocol ← Reader.ReadUint8 "protocol";
  mode ← Reader.ReadUint8 "mode";
  uid ← Reader.ReadUint16BE "uid";
  gatewayID ← Reader.ReadUint16BE "gatewayId";
  errorLength ← Reader.ReadUint16BE "errorLength";
  info2 ← Reader.ReadUint8 "info2";
  traceLevel ← Reader.ReadUint8 "traceLevel";
  time ← Reader.ReadUint32BE "time";
  info3 ← Reader.ReadUint8 "info3";
  timeout ← Reader.ReadInt32BE "timeout";
  info4 ← Reader.ReadUint8 "info4";
  sequenceNumber ← Reader.ReadUint32BE "sequenceNumber";
  sapParameterLen ← Reader.ReadUint16BE "sapParameterLength";
  padding ← Reader.ReadUint16BE "padding";
  info_ ← Reader.ReadUint8 "info";
  vector ← Reader.ReadUint8 "vector";
  appcReturnCode ← Reader.ReadUint32BE "appcReturnCode";
  sapReturnCode ← Reader.ReadUint32BE "sapReturnCode";
  conversationID ← Reader.ReadBytes 8 "conversationId";
  Reader.Finish;;
  mret (mkHeader info protocol mode uid gatewayID errorLength info2 traceLevel time info3 timeout
          info4 sequenceNumber sapParameterLen padding info_ vector appcReturnCode sapReturnCode
          conversationID).

Definition DecodeHeader (payload : bytes) : res Header :=
  if zlen payload <? CommonHeaderLength then Err (EAppc APPC_ErrRange)
  else
    header ← go_slice payload 0 CommonHeaderLength;
    run decode_header_fields (Reader.NewReader header "APPC common header").

(** ** The fixed-field text codecs *)
Lemma trim_loop_pad cut n p rs : p ∈ cut -> trim_loop cut (replicate n p ++ rs) = trim_loop cut rs.
Proof. intros H. induction n; [done|]. cbn. rewrite bool_decide_true by done. done. Qed.

Lemma trimRight_pad s cut n p : p ∈ cut -> trimRightBytes (s ++ replicate n p) cut = trimRightBytes s cut.
Proof.
  intros H. unfold trimRightBytes. rewrite rev_app_distr, (rev_alt (replicate n p)).
  change (rev_append (replicate n p) []) with (reverse (replicate n p)). rewrite reverse_replicate.
  by rewrite trim_loop_pad.
Qed.

Lemma trimRight_id s cut : (forall b, last s = Some b -> b ∉ cut) -> trimRightBytes s cut = s.
Proof.
  destruct s as [|b s _] using rev_ind; [done|]. rewrite last_snoc. intros H.
  unfold trimRightBytes. rewrite rev_app_distr. cbn. rewrite bool_decide_false by (by apply H).
  cbn. by rewrite rev_involutive.
Qed.

Lemma existsb_app_false {A} (f : A -> bool) l1 l2 :
  existsb f l1 = false -> existsb f l2 = false -> existsb f (l1 ++ l2) = false.
Proof. rewrite existsb_app. by intros -> ->. Qed.

Lemma existsb_replicate_false {A} (f : A -> bool) n x : f x = false -> existsb f (replicate n x) = false.
Proof. intros H. induction n; [done|]. cbn. by rewrite H. Qed.

Lemma existsb_forallb_false {A} (f g : A -> bool) l :
  (forall x, g x = true -> f x = false) -> forallb g l = true -> existsb f l = false.
Proof.
  intros H. induction l as [|x l IH]; [done|]. cbn. intros [Hx Hl]%andb_prop.
  rewrite (H x Hx). by apply IH.
Qed.

Lemma printable_bounds b : printable_byte b = true -> 0x20 <= b2z b <= 0x7e.
Proof. unfold printable_byte. intros [?%Z.leb_le ?%Z.leb_le]%andb_prop. lia. Qed.

Lemma encodeFixedAscii_inv value field encoded :
  encodeFixedAscii value field = Ok encoded ->
  printableASCII value = true /\ zlen encoded = 8 /\
  exists n pad, encoded = value ++ replicate n pad /\ pad ∈ nul_space.
Proof.
  unfold encodeFixedAscii. destruct (printableASCII value) eqn:Hp; [|discriminate].
  destruct (Z.ltb_spec 8 (zlen value)) as [|Hl]; [discriminate|]. cbn [negb orb].
  set (pad := if zlen value =? 0 then x00 else x20). intros H. apply Ok_inj in H as <-.
  rewrite go_copy_pad by len_lia. split_and!; [done|len_lia|]. exists (8 - length value)%nat, pad.
  split; [done|]. subst pad; destruct (_ =? _); repeat constructor.
Qed.

Lemma decode_fixed value field encoded :
  encodeFixedAscii value field = Ok encoded ->
  forall field', decodeFixedAscii encoded field' = Ok (trimRightBytes value nul_space).
Proof.
  intros (Hp & _ & n & pad & -> & Hpad)%encodeFixedAscii_inv field'.
  unfold decodeFixedAscii. rewrite existsb_app_false; [by rewrite trimRight_pad| |].
  - eapply existsb_forallb_false; [|exact Hp]. intros b ?%printable_bounds. case_tests; lia || done.
  - apply existsb_replicate_false. apply list_elem_of_In in Hpad as [<-|[<-|[]]]; done.
Qed.

(** A value that does not end in a blank survives the trim. *)
Lemma trim_printable value :
  printableASCII value = true -> (forall b, last value = Some b -> b <> x20) ->
  trimRightBytes value nul_space = value.
Proof.
  intros Hp Hlast. apply trimRight_id. intros b Hb. specialize (Hlast b Hb).
  intros Hin. apply list_elem_of_In in Hin. destruct Hin as [<-|[<-|[]]]; [|done].
  apply last_Some_elem_of, list_elem_of_In in Hb. unfold printableASCII in Hp.
  rewrite forallb_forall in Hp. apply Hp in Hb. discriminate.
Qed.

(** A fixed eight-byte text field decodes to the value without its trailing blanks, and to
    the value itself when it has none. *)
Theorem fixed_ascii_roundtrip value field encoded :
  encodeFixedAscii value field = Ok encoded ->
  zlen encoded = 8 /\
  decodeFixedAscii encoded field = Ok (trimRightBytes value nul_space) /\
  ((forall b, last value = Some b -> b <> x20) -> decodeFixedAscii encoded field = Ok value).
Proof.
  intros E. pose proof (decode_fixed value field encoded E field) as D.
  apply encodeFixedAscii_inv in E as (Hp & Hl & _). split; [done|]. split; [done|].
  intros Hlast. by rewrite D, trim_printable.
Qed.

Lemma fixed_ascii_roundtrip_witness :
  decodeFixedAscii (lit "sapgw00 ") "f" = Ok (lit "sapgw00") /\ zlen (lit "sapgw00 ") = 8.
Proof.
  destruct (fixed_ascii_roundtrip (lit "sapgw00") "f" (lit "sapgw00 ") eq_refl) as (H1 & H2 & H3).
  split; [|exact H1]. apply H3. cbn. intros b [= <-]. discriminate.
Defined.

Lemma index_byte_absent l p rest : p ∉ l -> index_byte (l ++ p :: rest) p = length l.
Proof.
  induction l as [|b l IH]; cbn.
  - intros _. by rewrite bool_decide_true.
  - intros H. apply not_elem_of_cons in H as [Hb Hl].
    rewrite bool_decide_false by congruence. by rewrite IH.
Qed.

Lemma index_byte_absent_nil l p : p ∉ l -> index_byte l p = length l.
Proof.
  induction l as [|b l IH]; cbn; [done|].
  intros H. apply not_elem_of_cons in H as [Hb Hl].
  rewrite bool_decide_false by congruence. by rewrite IH.
Qed.

Lemma take_index_byte l p : p ∉ take (index_byte l p) l.
Proof.
  induction l as [|b l IH]; cbn; [apply not_elem_of_nil|].
  case_bool_decide; cbn; [apply not_elem_of_nil|]. apply not_elem_of_cons. split; [congruence|done].
Qed.

Lemma decode_padded v n p :
  printableASCII v = true -> p ∉ v ->
  forall field, decodePaddedAscii (v ++ replicate n p) p field = Ok v.
Proof.
  intros Hp Hv field. unfold decodePaddedAscii.
  assert (index_byte (v ++ replicate n p) p = length v) as ->.
  { destruct n; cbn; [rewrite app_nil_r; by apply index_byte_absent_nil|by apply index_byte_absent]. }
  rewrite take_app_length, drop_app_length.
  rewrite (existsb_forallb_false _ printable_byte) by (done || (intros b ->; done)).
  rewrite existsb_replicate_false; [done|]. by rewrite bool_decide_true.
Qed.

(** A padded text field has the width it was given and decodes to the encoded value exactly
    when the value does not contain the padding byte. *)
Theorem padded_ascii_roundtrip value width padding field encoded :
  encodePaddedAscii value width padding field = Ok encoded ->
  zlen encoded = width /\
  (decodePaddedAscii encoded padding field = Ok value <-> padding ∉ value).
Proof.
  unfold encodePaddedAscii. destruct (printableASCII value) eqn:Hp; [|discriminate].
  destruct (Z.ltb_spec width (zlen value)) as [|Hl]; [discriminate|]. cbn [negb orb].
  pose proof (zlen_nonneg value). intros E. apply Ok_inj in E as <-.
  rewrite go_copy_pad by len_lia. split; [len_lia|]. split; [|intros; by apply decode_padded].
  unfold decodePaddedAscii. destruct (existsb _ _); [discriminate|]. destruct (existsb _ _); [discriminate|].
  intros E. apply Ok_inj in E. rewrite <- E. apply take_index_byte.
Qed.

Lemma padded_ascii_roundtrip_witness :
  encodePaddedAscii (lit "A B") 8 x20 "clientIdentifier" = Ok (lit "A B     ") /\
  decodePaddedAscii (lit "A B     ") x20 "clientIdentifier" <> Ok (lit "A B").
Proof.
  split; [reflexivity|]. intros H.
  apply (padded_ascii_roundtrip (lit "A B") 8 x20 "clientIdentifier" (lit "A B     ") eq_refl) in H.
  apply H. apply list_elem_of_In. right. left. reflexivity.
Defined.

(** ** The common header *)

(** The header's fields in wire order. *)
Definition header_fields (h : Header) : list (string * field_value) :=
  [("protocolVersion", FUint8 (pi_ProtocolVersion (h_PayloadInfo h)));
   ("functionCode", FUint8 (h_FunctionCode h));
   ("protocol", FUint8 (h_Protocol h));
   ("mode", FUint8 (h_Mode h));
   ("uid", FUint16BE (h_UID h));
   ("gatewayId", FUint16BE (h_GatewayID h));
   ("errorLength", FUint16BE (h_ErrorLength h));
   ("info2", FUint8 (h_Info2 h));
   ("traceLevel", FUint8 (h_TraceLevel h));
   ("time", FUint32BE (h_Time h));
   ("info3", FUint8 (h_Info3 h));
   ("timeout", FInt32BE (h_Timeout h));
   ("info4", FUint8 (h_Info4 h));
   ("sequenceNumber", FUint32BE (h_SequenceNumber h));
   ("sapParameterLength", FUint16BE (h_SapParameterLen h));
   ("padding", FUint16BE (h_Padding h));
   ("info", FUint8 (h_Info h));
   ("vector", FUint8 (h_Vector h));
   ("appcReturnCode", FUint32BE (h_AppcReturnCode h));
   ("sapReturnCode", FUint32BE (h_SapReturnCode h));
   ("conversationId", FBytes (h_ConversationID h))].

(** The values Go's field types and [DecodeHeader] allow. *)
Record header_ok (h : Header) : Prop := {
  ho_info : h_PayloadInfo h = mkPayloadInfo ProtocolVersion (h_FunctionCode h) (FunctionName (h_FunctionCode h));
  ho_typed : Forall (fun f => field_typed f.2) (header_fields h);
  ho_conv : zlen (h_ConversationID h) = 8;
}.

Lemma header_bytes_length h : zlen (h_ConversationID h) = 8 -> zlen (fields_bytes (header_fields h)) = 48.
Proof.
  intros H. unfold header_fields. fields_len.
Qed.

Lemma inspect_ok fc :
  is_u8 fc ->
  InspectPayload [z2b ProtocolVersion; z2b fc] = Ok (mkPayloadInfo ProtocolVersion fc (FunctionName fc)).
Proof.
  intros H. unfold InspectPayload.
  change (zlen [z2b ProtocolVersion; z2b fc] <? 2) with false. cbv iota.
  change (go_index [z2b ProtocolVersion; z2b fc] 0) with (@Ok error byte (z2b ProtocolVersion)).
  change (go_index [z2b ProtocolVersion; z2b fc] 1) with (@Ok error byte (z2b fc)).
  cbn [mbind outcome_bind]. rewrite (b2z_z2b_small fc) by done. done.
Qed.

Lemma decode_header_bytes h rest :
  header_ok h -> DecodeHeader (fields_bytes (header_fields h) ++ rest) = Ok h.
Proof.
  intros [Hi Ht Hc]. pose proof (header_bytes_length h Hc) as Hl. unfold DecodeHeader, CommonHeaderLength.
  rewrite zlen_app, Hl. pose proof (zlen_nonneg rest). case_tests; [lia|].
  rewrite (go_slice_mid [] (fields_bytes (header_fields h)) rest) by (done || (rewrite Hl; done)).
  cbn [mbind outcome_bind]. rewrite NewReader_at. unfold run, decode_header_fields.
  unfold header_fields in Ht. repeat (apply Forall_cons in Ht as [? Ht]). cbn [snd field_typed] in *.
  unfold header_fields. rewrite !fields_bytes_cons. cbn [snd]. change (fields_bytes []) with (@nil byte).
  do 2 rstep. rewrite Hi. cbn [pi_ProtocolVersion].
  erewrite step_lift by (by apply inspect_ok). do 20 rstep.
  cbn [mret stm_ret fst]. rewrite <- Hi. by destruct h.
Qed.

(** The header a 48-byte string spells. *)
Definition header_of (l : bytes) : Header :=
  let u8 i := b2z (nth i l x00) in
  let u16 i := be_combine [nth i l x00; nth (i + 1) l x00] in
  let u32 i := be_combine [nth i l x00; nth (i + 1) l x00; nth (i + 2) l x00; nth (i + 3) l x00] in
  mkHeader (mkPayloadInfo (u8 0%nat) (u8 1%nat) (FunctionName (u8 1%nat)))
    (u8 2%nat) (u8 3%nat) (u16 4%nat) (u16 6%nat) (u16 8%nat) (u8 10%nat) (u8 11%nat) (u32 12%nat)
    (u8 16%nat) (int32 (u32 17%nat)) (u8 21%nat) (u32 22%nat) (u16 26%nat) (u16 28%nat) (u8 30%nat)
    (u8 31%nat) (u32 32%nat) (u32 36%nat) (drop 40 l).

Lemma header_of_bytes l : length l = 48%nat -> fields_bytes (header_fields (header_of l)) = l.
Proof.
  intros H. explode l.
  cbn -[be_split be_combine z2b b2z int32 uint32].
  rewrite be_split_int32, !be_split_2, !be_split_4, !z2b_b2z. done.
Qed.

Lemma header_of_typed l : length l = 48%nat -> Forall (fun f => field_typed f.2) (header_fields (header_of l)).
Proof.
  intros H.
  assert (forall b, is_u8 (b2z b)) as H8 by (intros b; apply b2z_range).
  assert (forall a b, is_u16 (be_combine [a; b])) as H16 by (intros a b; apply (be_combine_range [a; b])).
  assert (forall a b c d, is_u32 (be_combine [a; b; c; d])) as H32
    by (intros a b c d; apply (be_combine_range [a; b; c; d])).
  unfold header_fields. repeat (apply Forall_cons; split); try apply Forall_nil;
    cbn [snd field_typed]; first [apply H8|apply H16|apply H32|apply int32_range|done].
Qed.

Lemma decode_header_spec payload :
  DecodeHeader payload =
    (if zlen payload <? CommonHeaderLength then Err (EAppc APPC_ErrRange)
     else if b2z (nth 0 payload x00) =? ProtocolVersion then Ok (header_of (take 48 payload))
     else Err (EAppc APPC_ErrUnsupported)) /\
  forall h, DecodeHeader payload = Ok h ->
    header_ok h /\ fields_bytes (header_fields h) = take 48 payload.
Proof.
  unfold CommonHeaderLength.
  destruct (Z.ltb_spec (zlen payload) 48) as [Hl|Hl].
  { unfold DecodeHeader, CommonHeaderLength. case_tests; [|lia]. by split. }
  set (l := take 48 payload). assert (length l = 48%nat) as H48 by (subst l; len_lia).
  assert (nth 0 payload x00 = nth 0 l x00) as -> by (subst l; destruct payload; done).
  pose proof (header_of_bytes l H48) as Hb. pose proof (header_of_typed l H48) as Ht.
  destruct (Z.eqb_spec (b2z (nth 0 l x00)) ProtocolVersion) as [Hv|Hv].
  - assert (header_ok (header_of l)) as Hok.
    { split; [|done|cbn; len_lia]. unfold header_of, h_FunctionCode. cbn [h_PayloadInfo pi_FunctionCode].
      by rewrite Hv. }
    assert (DecodeHeader payload = Ok (header_of l)) as E.
    { rewrite <- (take_drop 48 payload). fold l. rewrite <- Hb at 1. by apply decode_header_bytes. }
    split; [done|]. intros h Hh. rewrite E in Hh. apply Ok_inj in Hh as <-. by split.
  - assert (DecodeHeader payload = Err (EAppc APPC_ErrUnsupported)) as E; [|by rewrite E].
    unfold DecodeHeader, CommonHeaderLength. case_tests; [lia|].
    rewrite go_slice_ok by lia. change (take (Z.to_nat (48 - 0)) (drop (Z.to_nat 0) payload)) with l.
    cbn [mbind outcome_bind]. rewrite NewReader_at. unfold run, decode_header_fields.
    destruct l as [|b0 [|b1 l]]; [done|done|]. cbn [nth] in Hv.
    erewrite bind_ok by apply ReadUint8_at. erewrite bind_ok by apply ReadUint8_at.
    erewrite bind_err; [done|]. unfold lift, InspectPayload. rewrite !z2b_b2z.
    change (zlen [b0; b1] <? 2) with false. cbv iota.
    change (go_index [b0; b1] 0) with (@Ok error byte b0).
    change (go_index [b0; b1] 1) with (@Ok error byte b1). cbn [mbind outcome_bind].
    case_tests; [done|]. done.
Qed.

(** DecodeHeader is total: a short payload and a foreign version are errors, every other
    payload decodes to the header its first 48 bytes spell, and the header's fields encode
    to these bytes. *)
Theorem decode_header_total payload :
  DecodeHeader payload =
    (if zlen payload <? CommonHeaderLength then Err (EAppc APPC_ErrRange)
     else if b2z (nth 0 payload x00) =? ProtocolVersion then Ok (header_of (take 48 payload))
     else Err (EAppc APPC_ErrUnsupported)) /\
  forall h, DecodeHeader payload = Ok h ->
    header_ok h /\ fields_bytes (header_fields h) = take 48 payload.
Proof. apply decode_header_spec. Qed.

Lemma decode_header_ok payload h :
  DecodeHeader payload = Ok h -> header_ok h /\ take 48 payload = fields_bytes (header_fields h) /\ 48 <= zlen payload.
Proof.
  intros H. destruct (decode_header_spec payload) as [E Hh]. destruct (Hh h H) as [H1 H2].
  split_and!; [done|done|]. rewrite H in E. revert E. unfold CommonHeaderLength. case_tests; [done|lia|lia].
Qed.

Lemma decode_header_no_panic payload : DecodeHeader payload <> Panic.
Proof.
  destruct (decode_header_spec payload) as [-> _].
  destruct (_ <? _); [discriminate|]. destruct (_ =? _); discriminate.
Qed.

Lemma decode_header_total_example :
  DecodeHeader (repeat x07 80) = Err (EAppc APPC_ErrUnsupported).
Proof. vm_compute. reflexivity. Qed.
