(* ===== verification/AppcRecords.v ===== *)
(** Package [appc], internal/appc/records.go: the semantic structures of the
    version-6 records and their fixed-size encodings (extended info, partner
    info, initialization options and parameters, control and data records).

    Each fixed-size structure is an instance of [BlockCodec], the interface that
    the record encoder and its clients rely on: the encoding has the declared
    width, and decoding it gives back the structure up to the trailing blanks a
    fixed text field cannot carry. *)
From stdpp Require Import base list numbers strings pretty.
From Stdlib Require Import ZArith Lia Strings.Byte.
From S2P Require Import Prelude Errors Wire Appc.

Open Scope Z_scope.

(** A nil field takes the wire default. *)
Record RecordHeaderInput : Type := mkRecordHeaderInput {
  in_Protocol : option Z;
  in_Mode : option Z;
  in_UID : option Z;
  in_GatewayID : option Z;
  in_ErrorLength : option Z;
  in_Info2 : option Z;
  in_TraceLevel : option Z;
  in_Time : option Z;
  in_Info3 : option Z;
  in_Timeout : option Z;
  in_Info4 : option Z;
  in_SequenceNumber : option Z;
  in_Padding : option Z;
  in_Info : option Z;
  in_Vector : option Z;
  in_AppcReturnCode : option Z;
  in_SapReturnCode : option Z;
  in_ConversationID : option bytes;
}.

Definition u8or (p : option Z) (d : Z) : Z := match p with Some v => v | None => d end.
Definition u16or (p : option Z) (d : Z) : Z := match p with Some v => v | None => d end.
Definition u32or (p : option Z) (d : Z) : Z := match p with Some v => v | None => d end.
Definition i32or (p : option Z) (d : Z) : Z := match p with Some v => v | None => d end.

Record ExtendedInfo : Type := mkExtendedInfo {
  ShortDestinationName : bytes;
  LogicalUnitName : bytes;
  TransactionProgramName : bytes;
  ConnectionType : Z;
  ClientInfo : Z;
  ei_CommunicationIndex : Z;
  ei_ConnectionIndex : Z;
}.

Definition defaultExtendedInfo : ExtendedInfo := mkExtendedInfo [] [] [] 0 0 0 0.

Definition EncodeExtendedInfo (info : ExtendedInfo) : res bytes :=
  encode_items 32 "APPC extended info"
    [PutEnc "shortDestinationName" (encodeFixedAscii (ShortDestinationName info) "shortDestinationName");
     PutEnc "logicalUnitName" (encodeFixedAscii (LogicalUnitName info) "logicalUnitName");
     PutEnc "transactionProgramName" (encodeFixedAscii (TransactionProgramName info) "transactionProgramName");
     Put ("connectionType", FUint8 (ConnectionType info));
     Put ("clientInfo", FUint8 (ClientInfo info));
     Put ("reserved", FUint16BE 0);
     Put ("communicationIndex", FUint16BE (ei_CommunicationIndex info));
     Put ("connectionIndex", FUint16BE (ei_ConnectionIndex info))].

Definition DecodeExtendedInfo (data : bytes) : res ExtendedInfo :=
  if negb (zlen data =? 32) then Err (EAppc APPC_ErrRange)
  else run (
    b ← Reader.ReadBytes 8 "shortDestinationName";
    shortDestinationName ← lift (decodeFixedAscii b "shortDestinationName");
    b ← Reader.ReadBytes 8 "logicalUnitName";
    logicalUnitName ← lift (decodeFixedAscii b "logicalUnitName");
    b ← Reader.ReadBytes 8 "transactionProgramName";
    transactionProgramName ← lift (decodeFixedAscii b "transactionProgramName");
    connectionType ← Reader.ReadUint8 "connectionType";
    clientInfo ← Reader.ReadUint8 "clientInfo";
    reserved ← Reader.ReadUint16BE "reserved";
    lift (guard (negb (reserved =? 0)) (EAppc APPC_ErrProtocol));;
    communicationIndex ← Reader.ReadUint16BE "communicationIndex";
    connectionIndex ← Reader.ReadUint16BE "connectionIndex";
    Reader.Finish;;
    mret (mkExtendedInfo shortDestinationName logicalUnitName transactionProgramName connectionType
            clientInfo communicationIndex connectionIndex))
    (Reader.NewReader data "APPC extended info").

Record PartnerLogicalUnitInfoInput : Type := mkPartnerLogicalUnitInfoInput {
  pl_LogicalUnitName : bytes;
  pl_PartnerHostAddress : bytes;
  pl_CommunicationIndex : Z;
  pl_ConnectionIndex : Z;
}.

Record PartnerLogicalUnitInfo : Type := mkPartnerLogicalUnitInfo {
  LogicalUnitNamePrefix : bytes;
  LogicalUnitNameLength : Z;
  pi_PartnerHostAddress : bytes;
  pi_CommunicationIndex : Z;
  pi_ConnectionIndex : Z;
}.

Definition EncodePartnerLogicalUnitInfo (info : PartnerLogicalUnitInfoInput) : res bytes :=
  let lu := pl_LogicalUnitName info in
  if negb (printableASCII lu) || (128 <? zlen lu) then Err (EAppc APPC_ErrRange)
  else
    name ← (if 8 <? zlen lu then go_slice lu 0 8 else Ok lu);
    prefix ← encodeFixedAscii name "logicalUnitNamePrefix";
    if negb (zlen (pl_PartnerHostAddress info) =? 16) then Err (EAppc APPC_ErrRange)
    else encode_items 32 "APPC partner logical-unit info"
      [Put ("logicalUnitNamePrefix", FBytes prefix);
       Put ("logicalUnitNameLength", FUint32BE (uint32 (zlen lu)));
       Put ("partnerHostAddress", FBytes (pl_PartnerHostAddress info));
       Put ("communicationIndex", FUint16BE (pl_CommunicationIndex info));
       Put ("connectionIndex", FUint16BE (pl_ConnectionIndex info))].

Definition DecodePartnerLogicalUnitInfo (data : bytes) : res PartnerLogicalUnitInfo :=
  if negb (zlen data =? 32) then Err (EAppc APPC_ErrRange)
  else run (
    encodedName ← Reader.ReadBytes 8 "logicalUnitNamePrefix";
    nameLength ← Reader.ReadUint32BE "logicalUnitNameLength";
    lift (guard (128 <? nameLength) (EAppc APPC_ErrProtocol));;
    prefix ← lift (decodeFixedAscii encodedName "logicalUnitNamePrefix");
    let expected := if 8 <? nameLength then 8 else nameLength in
    lift (guard (negb (zlen prefix =? expected)) (EAppc APPC_ErrProtocol));;
    host ← Reader.ReadBytes 16 "partnerHostAddress";
    commIdx ← Reader.ReadUint16BE "communicationIndex";
    connIdx ← Reader.ReadUint16BE "connectionIndex";
    Reader.Finish;;
    mret (mkPartnerLogicalUnitInfo prefix nameLength host commIdx connIdx))
    (Reader.NewReader data "APPC partner logical-unit info").

Record ExtendedInitializeOptions : Type := mkExtendedInitializeOptions {
  OptionFlags : Z;
  RootID : bytes;
  ConnectionID : bytes;
  ConnectionIDSuffix : Z;
  Timeout : Z;
  KeepaliveTimeout : Z;
  ExportTrace : Z;
  StartType : Z;
  NetworkProtocol : Z;
  LocalAddressV6 : bytes;
  LongLogicalUnitName : bytes;
  OperatingSystemUser : bytes;
  LocalAddressV4 : bytes;
  LongTransactionProgramName : bytes;
}.

Definition EncodeExtendedInitializeOptions (o : ExtendedInitializeOptions) : res bytes :=
  encode_items ExtendedInitializeOptionsLength "APPC extended initialize options"
    [Put ("version", FUint8 1);
     Put ("optionFlags", FUint8 (OptionFlags o));
     PutEnc "protocolName" (encodePaddedAscii (lit "CPIC") 8 x00 "protocolName");
     PutEnc "rootId" (fixedHexID (RootID o) "rootId");
     PutEnc "connectionId" (fixedHexID (ConnectionID o) "connectionId");
     Put ("connectionIdSuffix", FUint32BE (ConnectionIDSuffix o));
     Put ("timeout", FInt32BE (Timeout o));
     Put ("keepaliveTimeout", FInt32BE (KeepaliveTimeout o));
     Put ("exportTrace", FUint8 (ExportTrace o));
     Put ("startType", FUint8 (StartType o));
     Put ("networkProtocol", FUint8 (NetworkProtocol o));
     PutEnc "localAddressV6" (exactBytes (LocalAddressV6 o) 16 "localAddressV6");
     PutEnc "longLogicalUnitName" (encodePaddedAscii (LongLogicalUnitName o) 128 x00 "longLogicalUnitName");
     Put ("reserved1", FBytes (zeros 16));
     PutEnc "operatingSystemUser" (encodePaddedAscii (OperatingSystemUser o) 12 x20 "operatingSystemUser");
     Put ("reserved2", FBytes (zeros 8));
     Put ("reserved3", FBytes (zeros 4));
     Put ("reserved4", FBytes (zeros 12));
     Put ("reserved5", FBytes (zeros 16));
     PutEnc "localAddressV4" (exactBytes (LocalAddressV4 o) 4 "localAddressV4");
     Put ("reserved6", FBytes (zeros 4));
     PutEnc "longTransactionProgramName"
       (encodePaddedAscii (LongTransactionProgramName o) 64 x00 "longTransactionProgramName")].

Definition readZeroReserved (field : string) (length : Z) : M Reader.t unit :=
  b ← Reader.ReadBytes length field;
  lift (guard (existsb (fun x => negb (b2z x =? 0)) b) (EAppc APPC_ErrProtocol)).

Definition DecodeExtendedInitializeOptions (data : bytes) : res ExtendedInitializeOptions :=
  if negb (zlen data =? ExtendedInitializeOptionsLength) then Err (EAppc APPC_ErrRange)
  else run (
    version ← Reader.ReadUint8 "version";
    lift (guard (negb (version =? 1)) (EAppc APPC_ErrUnsupported));;
    optionFlags ← Reader.ReadUint8 "optionFlags";
    protocolNameBytes ← Reader.ReadBytes 8 "protocolName";
    protocolName ← lift (decodePaddedAscii protocolNameBytes x00 "protocolName");
    lift (guard (negb (bytes_eqb protocolName (lit "CPIC"))) (EAppc APPC_ErrUnsupported));;
    rootID ← Reader.ReadBytes 16 "rootId";
    lift (fixedHexID rootID "rootId");;
    connectionID ← Reader.ReadBytes 16 "connectionId";
    lift (fixedHexID connectionID "connectionId");;
    connectionIDSuffix ← Reader.ReadUint32BE "connectionIdSuffix";
    timeout ← Reader.ReadInt32BE "timeout";
    keepaliveTimeout ← Reader.ReadInt32BE "keepaliveTimeout";
    exportTrace ← Reader.ReadUint8 "exportTrace";
    startType ← Reader.ReadUint8 "startType";
    networkProtocol ← Reader.ReadUint8 "networkProtocol";
    localAddressV6 ← Reader.ReadBytes 16 "localAddressV6";
    longLuBytes ← Reader.ReadBytes 128 "longLogicalUnitName";
    longLogicalUnitName ← lift (decodePaddedAscii longLuBytes x00 "longLogicalUnitName");
    readZeroReserved "reserved1" 16;;
    osUserBytes ← Reader.ReadBytes 12 "operatingSystemUser";
    operatingSystemUser ← lift (decodePaddedAscii osUserBytes x20 "operatingSystemUser");
    readZeroReserved "reserved2" 8;;
    readZeroReserved "reserved3" 4;;
    readZeroReserved "reserved4" 12;;
    readZeroReserved "reserved5" 16;;
    localAddressV4 ← Reader.ReadBytes 4 "localAddressV4";
    readZeroReserved "reserved6" 4;;
    longTpBytes ← Reader.ReadBytes 64 "longTransactionProgramName";
    longTransactionProgramName ← lift (decodePaddedAscii longTpBytes x00 "longTransactionProgramName");
    Reader.Finish;;
    mret (mkExtendedInitializeOptions optionFlags rootID connectionID connectionIDSuffix timeout
            keepaliveTimeout exportTrace startType networkProtocol localAddressV6 longLogicalUnitName
            operatingSystemUser localAddressV4 longTransactionProgramName))
    (Reader.NewReader data "APPC extended initialize options").

Record InitializeParameters : Type := mkInitializeParameters {
  ClientIdentifier : bytes;
  Options : ExtendedInitializeOptions;
}.

Definition EncodeInitializeParameters (p : InitializeParameters) : res bytes :=
  clientID ← encodePaddedAscii (ClientIdentifier p) 32 x20 "clientIdentifier";
  options ← EncodeExtendedInitializeOptions (Options p);
  encode_items InitializeParametersLength "APPC initialize parameters"
    [Put ("clientIdentifier", FBytes clientID);
     Put ("extendedOptions", FBytes options)].

Definition DecodeInitializeParameters (data : bytes) : res InitializeParameters :=
  if negb (zlen data =? InitializeParametersLength) then Err (EAppc APPC_ErrRange)
  else run (
    clientIDBytes ← Reader.ReadBytes 32 "clientIdentifier";
    clientID ← lift (decodePaddedAscii clientIDBytes x20 "clientIdentifier");
    optionsBytes ← Reader.ReadBytes ExtendedInitializeOptionsLength "extendedOptions";
    options ← lift (DecodeExtendedInitializeOptions optionsBytes);
    Reader.Finish;;
    mret (mkInitializeParameters clientID options))
    (Reader.NewReader data "APPC initialize parameters").

Record PartnerLogicalUnitParameters : Type := mkPartnerLogicalUnitParameters {
  pp_LongLogicalUnitName : bytes;
  pp_PartnerHostAddress : bytes;
}.

Definition EncodePartnerLogicalUnitParameters (p : PartnerLogicalUnitParameters) : res bytes :=
  name ← encodePaddedAscii (pp_LongLogicalUnitName p) 128 x20 "longLogicalUnitName";
  host ← exactBytes (pp_PartnerHostAddress p) 16 "partnerHostAddress";
  encode_items PartnerParametersLength "APPC partner logical-unit parameters"
    [Put ("longLogicalUnitName", FBytes name);
     Put ("partnerHostAddress", FBytes host)].

Definition DecodePartnerLogicalUnitParameters (data : bytes) : res PartnerLogicalUnitParameters :=
  if negb (zlen data =? PartnerParametersLength) then Err (EAppc APPC_ErrRange)
  else run (
    nameBytes ← Reader.ReadBytes 128 "longLogicalUnitName";
    name ← lift (decodePaddedAscii nameBytes x20 "longLogicalUnitName");
    host ← Reader.ReadBytes 16 "partnerHostAddress";
    Reader.Finish;;
    mret (mkPartnerLogicalUnitParameters name host))
    (Reader.NewReader data "APPC partner logical-unit parameters").

(** The 80-byte record header and the trailing data parts. *)
Definition encodeRecord (functionCode : Function_) (in_ : RecordHeaderInput) (operationInfo : bytes)
    (sapParameterLength : Z) (trailing : list bytes) (context : string) : res bytes :=
  let conversationID := match in_ConversationID in_ with Some id => id | None => zeros 8 end in
  if negb (zlen conversationID =? 8) then Err (EAppc APPC_ErrRange)
  else
    encodedOperationInfo ← exactBytes operationInfo 32 "operationInfo";
    if (sapParameterLength <? 0) || (0xffff <? sapParameterLength) then Err (EAppc APPC_ErrRange)
    else
      let trailingDataLength := fold_left (fun n part => n + zlen part) trailing 0 in
      encode_items (RecordHeaderLength + trailingDataLength) context
        ([Put ("protocolVersion", FUint8 ProtocolVersion);
          Put ("functionCode", FUint8 functionCode);
          Put ("protocol", FUint8 (u8or (in_Protocol in_) 2));
          Put ("mode", FUint8 (u8or (in_Mode in_) 0));
          Put ("uid", FUint16BE (u16or (in_UID in_) 0xffff));
          Put ("gatewayId", FUint16BE (u16or (in_GatewayID in_) 0));
          Put ("errorLength", FUint16BE (u16or (in_ErrorLength in_) 0));
          Put ("info2", FUint8 (u8or (in_Info2 in_) 0));
          Put ("traceLevel", FUint8 (u8or (in_TraceLevel in_) 0));
          Put ("time", FUint32BE (u32or (in_Time in_) 0));
          Put ("info3", FUint8 (u8or (in_Info3 in_) 0));
          Put ("timeout", FInt32BE (i32or (in_Timeout in_) 0));
          Put ("info4", FUint8 (u8or (in_Info4 in_) 0));
          Put ("sequenceNumber", FUint32BE (u32or (in_SequenceNumber in_) 0));
          Put ("sapParameterLength", FUint16BE (uint16 sapParameterLength));
          Put ("padding", FUint16BE (u16or (in_Padding in_) 0));
          Put ("info", FUint8 (u8or (in_Info in_) 0));
          Put ("vector", FUint8 (u8or (in_Vector in_) 0));
          Put ("appcReturnCode", FUint32BE (u32or (in_AppcReturnCode in_) 0));
          Put ("sapReturnCode", FUint32BE (u32or (in_SapReturnCode in_) 0));
          Put ("conversationId", FBytes conversationID);
          Put ("operationInfo", FBytes encodedOperationInfo)]
         ++ imap (fun i part => Put ("trailingData[" +:+ pretty i +:+ "]", FBytes part)) trailing).

Record ControlRecordInput : Type := mkControlRecordInput {
  cr_Header : RecordHeaderInput;
  cr_FunctionCode : Function_;
  cr_ExtendedInfo : option ExtendedInfo;
  cr_PartnerLogicalUnitInfo : option PartnerLogicalUnitInfoInput;
  cr_Parameters : bytes;
}.

(** [p != nil] *)
Definition not_nil {A} (p : option A) : bool := match p with Some _ => true | None => false end.

Definition EncodeControlRecord (in_ : ControlRecordInput) : res bytes :=
  let fc := cr_FunctionCode in_ in
  let parameters := cr_Parameters in_ in
  if negb (controlFunctions fc) then Err (EAppc APPC_ErrProtocol)
  else if 0xffff <? zlen parameters then Err (EAppc APPC_ErrRange)
  else match cr_ExtendedInfo in_, cr_PartnerLogicalUnitInfo in_ with
  | Some _, Some _ => Err (EAppc APPC_ErrProtocol)
  | ei, pl =>
    if not_nil pl && negb (fc =? FuncSetPartnerLuName) then Err (EAppc APPC_ErrProtocol)
    else if (fc =? FuncSetPartnerLuName) && negb (not_nil pl) then Err (EAppc APPC_ErrProtocol)
    else
      operationInfo ← match pl with
                      | Some p => EncodePartnerLogicalUnitInfo p
                      | None => EncodeExtendedInfo (default defaultExtendedInfo ei)
                      end;
      encodeRecord fc (cr_Header in_) operationInfo (zlen parameters) [parameters] "APPC control record"
  end.

Record DataRecordInput : Type := mkDataRecordInput {
  dr_Header : RecordHeaderInput;
  dr_FunctionCode : option Function_;
  dr_Data : bytes;
  dr_CommunicationIndex : Z;
  dr_ConnectionIndex : Z;
  dr_IsFinal : option bool;
}.

(** [header.Info = &v] and [header.Vector = &v] on a copy of the header. *)
Definition set_info (v : Z) (h : RecordHeaderInput) : RecordHeaderInput :=
  mkRecordHeaderInput (in_Protocol h) (in_Mode h) (in_UID h) (in_GatewayID h) (in_ErrorLength h)
    (in_Info2 h) (in_TraceLevel h) (in_Time h) (in_Info3 h) (in_Timeout h) (in_Info4 h)
    (in_SequenceNumber h) (in_Padding h) (Some v) (in_Vector h) (in_AppcReturnCode h)
    (in_SapReturnCode h) (in_ConversationID h).
Definition set_vector (v : Z) (h : RecordHeaderInput) : RecordHeaderInput :=
  mkRecordHeaderInput (in_Protocol h) (in_Mode h) (in_UID h) (in_GatewayID h) (in_ErrorLength h)
    (in_Info2 h) (in_TraceLevel h) (in_Time h) (in_Info3 h) (in_Timeout h) (in_Info4 h)
    (in_SequenceNumber h) (in_Padding h) (in_Info h) (Some v) (in_AppcReturnCode h)
    (in_SapReturnCode h) (in_ConversationID h).

Definition EncodeDataRecord (in_ : DataRecordInput) : res bytes :=
  let isFinal := match dr_IsFinal in_ with None => true | Some b => b end in
  let functionCode := match dr_FunctionCode in_ with Some fc => fc | None => FuncSapSend end in
  operationInfo ← EncodeExtendedInfo
    (mkExtendedInfo [] [] [] 0 0 (dr_CommunicationIndex in_) (dr_ConnectionIndex in_));
  let header := dr_Header in_ in
  let header := match in_Info header with
                | None => set_info (if isFinal then 5 else 1) header
                | Some _ => header end in
  let header := match in_Vector header with
                | None => set_vector (if isFinal then 0x0c
                                      else if functionCode =? FuncSapSend then 0x08 else 0) header
                | Some _ => header end in
  let sapParameterLength := if isFinal then 8 else 0 in
  encodeRecord functionCode header operationInfo sapParameterLength [dr_Data in_] "APPC data record".

(** ** The interface of a fixed-size structure *)
Class BlockCodec (A : Type) : Type := {
  blk_width : Z;
  blk_encode : A -> res bytes;
  blk_decode : bytes -> res A;
  (** the values Go's field types admit, less those a padded field cannot carry *)
  blk_typed : A -> Prop;
  (** what is left of a value after a trip over the wire *)
  blk_norm : A -> A;
}.

Class BlockCodecLaws (A : Type) {B : BlockCodec A} : Prop := {
  blk_encode_width a b : blk_encode a = Ok b -> zlen b = blk_width;
  blk_roundtrip a b : blk_typed a -> blk_encode a = Ok b -> blk_decode b = Ok (blk_norm a);
}.

Lemma encodeFixedAscii_len v f b : encodeFixedAscii v f = Ok b -> zlen b = 8.
Proof. by intros (_ & ? & _)%encodeFixedAscii_inv. Qed.

Lemma encodePaddedAscii_inv v w p f b :
  encodePaddedAscii v w p f = Ok b ->
  printableASCII v = true /\ zlen b = w /\ exists n, b = v ++ replicate n p.
Proof.
  unfold encodePaddedAscii. destruct (printableASCII v); [|discriminate].
  destruct (Z.ltb_spec w (zlen v)); [discriminate|]. cbn [negb orb]. intros E. apply Ok_inj in E as <-.
  pose proof (zlen_nonneg v). rewrite go_copy_pad by len_lia. split_and!; [done|len_lia|by eexists].
Qed.

Lemma printable_no_nul v : printableASCII v = true -> x00 ∉ v.
Proof.
  unfold printableASCII. rewrite forallb_forall. intros H Hin. apply list_elem_of_In, H in Hin. done.
Qed.

Lemma exactBytes_inv v n f b : exactBytes v n f = Ok b -> b = v /\ zlen v = n.
Proof. unfold exactBytes. case_tests; [|discriminate]. by intros E%Ok_inj. Qed.

Lemma fixedHexID_inv v f b : fixedHexID v f = Ok b -> b = v /\ zlen v = 16 /\ fixedHexID v f = Ok v.
Proof.
  unfold fixedHexID, hexIDPattern. destruct (Z.eqb_spec (zlen v) 16); [|discriminate].
  destruct (forallb _ _); [|discriminate]. by intros E%Ok_inj.
Qed.

Lemma step_guard {B S} c e (k : unit -> M S B) s : c = false -> (lift (guard c e) ≫= k) s = k tt s.
Proof. by intros ->. Qed.

Lemma step_zero_reserved {B} ctx pre rest field n (k : unit -> M Reader.t B) :
  0 <= n ->
  (readZeroReserved field n ≫= k) (Reader.at_ ctx pre (field_bytes (FBytes (zeros n)) ++ rest))
  = k tt (Reader.at_ ctx (pre ++ field_bytes (FBytes (zeros n))) rest).
Proof.
  intros H. apply bind_ok. unfold readZeroReserved. rewrite step_bytes by (by apply zlen_zeros).
  unfold zeros. by rewrite existsb_replicate_false.
Qed.

(** Start reading a record made of known fields. *)
Ltac open_record :=
  rewrite NewReader_at; unfold run; rewrite !fields_bytes_cons; cbn [snd];
  change (fields_bytes []) with (@nil byte).

Lemma decode_padded_inv v w p f b :
  encodePaddedAscii v w p f = Ok b -> p ∉ v -> forall f', decodePaddedAscii b p f' = Ok v.
Proof. intros (Hp & _ & n & ->)%encodePaddedAscii_inv Hv f'. by apply decode_padded. Qed.

#[local] Opaque encode_items.

(** [EncodeExtendedInfo]/[DecodeExtendedInfo]. *)
Definition trim_info (i : ExtendedInfo) : ExtendedInfo :=
  mkExtendedInfo (trimRightBytes (ShortDestinationName i) nul_space)
    (trimRightBytes (LogicalUnitName i) nul_space) (trimRightBytes (TransactionProgramName i) nul_space)
    (ConnectionType i) (ClientInfo i) (ei_CommunicationIndex i) (ei_ConnectionIndex i).

Definition extended_info_typed (i : ExtendedInfo) : Prop :=
  is_u8 (ConnectionType i) /\ is_u8 (ClientInfo i) /\
  is_u16 (ei_CommunicationIndex i) /\ is_u16 (ei_ConnectionIndex i).

#[export] Instance extended_info_codec : BlockCodec ExtendedInfo := {
  blk_width := 32;
  blk_encode := EncodeExtendedInfo;
  blk_decode := DecodeExtendedInfo;
  blk_typed := extended_info_typed;
  blk_norm := trim_info;
}.

Lemma encode_extended_info_inv i b :
  EncodeExtendedInfo i = Ok b ->
  exists b1 b2 b3,
    encodeFixedAscii (ShortDestinationName i) "shortDestinationName" = Ok b1 /\
    encodeFixedAscii (LogicalUnitName i) "logicalUnitName" = Ok b2 /\
    encodeFixedAscii (TransactionProgramName i) "transactionProgramName" = Ok b3 /\
    b = fields_bytes [("shortDestinationName", FBytes b1); ("logicalUnitName", FBytes b2);
          ("transactionProgramName", FBytes b3); ("connectionType", FUint8 (ConnectionType i));
          ("clientInfo", FUint8 (ClientInfo i)); ("reserved", FUint16BE 0);
          ("communicationIndex", FUint16BE (ei_CommunicationIndex i));
          ("connectionIndex", FUint16BE (ei_ConnectionIndex i))].
Proof.
  intros H. unfold EncodeExtendedInfo in H. apply encode_items_inv in H as (fs & Hr & Hb).
  resolve_inv Hr. pose proof (encodeFixedAscii_len _ _ _ E). pose proof (encodeFixedAscii_len _ _ _ E0).
  pose proof (encodeFixedAscii_len _ _ _ E1). exists b0, b1, b2. split_and!; try done.
  apply Hb. fields_len.
Qed.

#[export] Instance extended_info_laws : BlockCodecLaws ExtendedInfo.
Proof.
  split; intros i b; cbn [blk_encode blk_decode blk_typed blk_norm blk_width extended_info_codec].
  - intros (b1 & b2 & b3 & E1%encodeFixedAscii_len & E2%encodeFixedAscii_len &
      E3%encodeFixedAscii_len & ->)%encode_extended_info_inv. fields_len.
  - intros (? & ? & ? & ?) (b1 & b2 & b3 & E1 & E2 & E3 & ->)%encode_extended_info_inv.
    pose proof (encodeFixedAscii_len _ _ _ E1). pose proof (encodeFixedAscii_len _ _ _ E2).
    pose proof (encodeFixedAscii_len _ _ _ E3).
    unfold DecodeExtendedInfo. rewrite (proj2 (Z.eqb_eq _ 32)) by fields_len. cbn [negb].
    open_record.
    rstep. erewrite step_lift by (by eapply decode_fixed).
    rstep. erewrite step_lift by (by eapply decode_fixed).
    rstep. erewrite step_lift by (by eapply decode_fixed).
    do 3 rstep. rewrite step_guard by done. do 3 rstep. done.
Qed.

(** [EncodeExtendedInitializeOptions]/[DecodeExtendedInitializeOptions]. *)
Record init_options_typed (o : ExtendedInitializeOptions) : Prop := {
  iot_flags : is_u8 (OptionFlags o);
  iot_suffix : is_u32 (ConnectionIDSuffix o);
  iot_timeout : is_i32 (Timeout o);
  iot_keepalive : is_i32 (KeepaliveTimeout o);
  iot_trace : is_u8 (ExportTrace o);
  iot_start : is_u8 (StartType o);
  iot_proto : is_u8 (NetworkProtocol o);
  iot_user : x20 ∉ OperatingSystemUser o;
}.

#[export] Instance init_options_codec : BlockCodec ExtendedInitializeOptions := {
  blk_width := ExtendedInitializeOptionsLength;
  blk_encode := EncodeExtendedInitializeOptions;
  blk_decode := DecodeExtendedInitializeOptions;
  blk_typed := init_options_typed;
  blk_norm := id;
}.

(** The protocol name as the block carries it. *)
Definition cpic_name : bytes := lit "CPIC" ++ replicate 4 x00.

Lemma cpic_name_encoded : encodePaddedAscii (lit "CPIC") 8 x00 "protocolName" = Ok cpic_name.
Proof. done. Qed.

Lemma zlen_cpic_name : zlen cpic_name = 8.
Proof. done. Qed.

(** The fields of the 341-byte block, given its encoded texts. *)
Definition init_options_fields (o : ExtendedInitializeOptions) (proto lu user tp : bytes)
    : list (string * field_value) :=
  [("version", FUint8 1); ("optionFlags", FUint8 (OptionFlags o)); ("protocolName", FBytes proto);
   ("rootId", FBytes (RootID o)); ("connectionId", FBytes (ConnectionID o));
   ("connectionIdSuffix", FUint32BE (ConnectionIDSuffix o)); ("timeout", FInt32BE (Timeout o));
   ("keepaliveTimeout", FInt32BE (KeepaliveTimeout o)); ("exportTrace", FUint8 (ExportTrace o));
   ("startType", FUint8 (StartType o)); ("networkProtocol", FUint8 (NetworkProtocol o));
   ("localAddressV6", FBytes (LocalAddressV6 o)); ("longLogicalUnitName", FBytes lu);
   ("reserved1", FBytes (zeros 16)); ("operatingSystemUser", FBytes user);
   ("reserved2", FBytes (zeros 8)); ("reserved3", FBytes (zeros 4)); ("reserved4", FBytes (zeros 12));
   ("reserved5", FBytes (zeros 16)); ("localAddressV4", FBytes (LocalAddressV4 o));
   ("reserved6", FBytes (zeros 4)); ("longTransactionProgramName", FBytes tp)].

Record init_options_encoded (o : ExtendedInitializeOptions) (b : bytes) : Prop := {
  ioe_root : fixedHexID (RootID o) "rootId" = Ok (RootID o);
  ioe_root_len : zlen (RootID o) = 16;
  ioe_conn : fixedHexID (ConnectionID o) "connectionId" = Ok (ConnectionID o);
  ioe_conn_len : zlen (ConnectionID o) = 16;
  ioe_v6 : zlen (LocalAddressV6 o) = 16;
  ioe_v4 : zlen (LocalAddressV4 o) = 4;
  ioe_bytes : exists lu user tp,
    encodePaddedAscii (LongLogicalUnitName o) 128 x00 "longLogicalUnitName" = Ok lu /\
    encodePaddedAscii (OperatingSystemUser o) 12 x20 "operatingSystemUser" = Ok user /\
    encodePaddedAscii (LongTransactionProgramName o) 64 x00 "longTransactionProgramName" = Ok tp /\
    b = fields_bytes (init_options_fields o cpic_name lu user tp) /\
    zlen b = ExtendedInitializeOptionsLength;
}.

Lemma encode_init_options_inv o b :
  EncodeExtendedInitializeOptions o = Ok b -> init_options_encoded o b.
Proof.
  intros H. unfold EncodeExtendedInitializeOptions in H. apply encode_items_inv in H as (fs & Hr & Hb).
  resolve_inv Hr.
  repeat match goal with
  | E : fixedHexID _ _ = Ok _ |- _ => apply fixedHexID_inv in E as (-> & ? & ?)
  | E : exactBytes _ _ _ = Ok _ |- _ => apply exactBytes_inv in E as (-> & ?)
  | E : encodePaddedAscii (lit "CPIC") _ _ _ = Ok _ |- _ =>
      rewrite cpic_name_encoded in E; apply Ok_inj in E as <-
  end.
  match goal with
  | E1 : encodePaddedAscii (LongLogicalUnitName o) _ _ _ = Ok ?lu,
    E2 : encodePaddedAscii (OperatingSystemUser o) _ _ _ = Ok ?user,
    E3 : encodePaddedAscii (LongTransactionProgramName o) _ _ _ = Ok ?tp |- _ =>
      pose proof (encodePaddedAscii_inv _ _ _ _ _ E1) as (_ & L1 & _);
      pose proof (encodePaddedAscii_inv _ _ _ _ _ E2) as (_ & L2 & _);
      pose proof (encodePaddedAscii_inv _ _ _ _ _ E3) as (_ & L3 & _);
      split; try done; exists lu, user, tp
  end.
  pose proof zlen_cpic_name. unfold ExtendedInitializeOptionsLength in *.
  specialize (Hb ltac:(fields_len)). subst b. split_and!; try done. fields_len.
Qed.

#[export] Instance init_options_laws : BlockCodecLaws ExtendedInitializeOptions.
Proof.
  split; intros o b; cbn [blk_encode blk_decode blk_typed blk_norm blk_width init_options_codec].
  - intros H%encode_init_options_inv. destruct (ioe_bytes _ _ H) as (? & ? & ? & _ & _ & _ & _ & ?). done.
  - intros [] [? ? ? ? ? ? (lu & user & tp & E1 & E2 & E3 & -> & Hl)]%encode_init_options_inv.
    pose proof (encodePaddedAscii_inv _ _ _ _ _ E1) as (P1 & L1 & _).
    pose proof (encodePaddedAscii_inv _ _ _ _ _ E2) as (P2 & L2 & _).
    pose proof (encodePaddedAscii_inv _ _ _ _ _ E3) as (P3 & L3 & _).
    pose proof (decode_padded_inv _ _ _ _ _ E1 (printable_no_nul _ P1)) as D1.
    pose proof (decode_padded_inv _ _ _ _ _ E2 ltac:(done)) as D2.
    pose proof (decode_padded_inv _ _ _ _ _ E3 (printable_no_nul _ P3)) as D3.
    unfold DecodeExtendedInitializeOptions. rewrite Hl, Z.eqb_refl. cbn [negb].
    unfold init_options_fields. open_record.
    rstep. rewrite step_guard by done. do 2 rstep. erewrite step_lift by reflexivity.
    rewrite step_guard by done. rstep. erewrite step_lift by done.
    rstep. erewrite step_lift by done. do 8 rstep. erewrite step_lift by apply D1.
    rewrite step_zero_reserved by lia. rstep. erewrite step_lift by apply D2.
    do 4 (rewrite step_zero_reserved by lia). rstep. rewrite step_zero_reserved by lia.
    rstep. erewrite step_lift by apply D3. rstep. by destruct o.
Qed.

(** [EncodeInitializeParameters]/[DecodeInitializeParameters]. *)
#[export] Instance init_params_codec : BlockCodec InitializeParameters := {
  blk_width := InitializeParametersLength;
  blk_encode := EncodeInitializeParameters;
  blk_decode := DecodeInitializeParameters;
  blk_typed p := (x20 ∉ ClientIdentifier p) /\ init_options_typed (Options p);
  blk_norm := id;
}.

Lemma encode_init_params_inv p b :
  EncodeInitializeParameters p = Ok b ->
  exists id_ opts,
    encodePaddedAscii (ClientIdentifier p) 32 x20 "clientIdentifier" = Ok id_ /\
    EncodeExtendedInitializeOptions (Options p) = Ok opts /\
    b = fields_bytes [("clientIdentifier", FBytes id_); ("extendedOptions", FBytes opts)] /\
    zlen id_ = 32 /\ zlen opts = 341.
Proof.
  unfold EncodeInitializeParameters.
  destruct (encodePaddedAscii _ _ _ _) as [id_| |] eqn:E1; try discriminate.
  destruct (EncodeExtendedInitializeOptions _) as [opts| |] eqn:E2; try discriminate.
  cbn [mbind outcome_bind]. intros (fs & Hr & Hb)%encode_items_inv. resolve_inv Hr.
  pose proof (encodePaddedAscii_inv _ _ _ _ _ E1) as (_ & L1 & _).
  pose proof (blk_encode_width _ _ E2) as L2. cbn in L2. unfold ExtendedInitializeOptionsLength in L2.
  exists id_, opts. split_and!; try done. apply Hb. unfold InitializeParametersLength. fields_len.
Qed.

#[export] Instance init_params_laws : BlockCodecLaws InitializeParameters.
Proof.
  split; intros p b; cbn [blk_encode blk_decode blk_typed blk_norm blk_width init_params_codec].
  - intros (? & ? & _ & _ & -> & ? & ?)%encode_init_params_inv. unfold InitializeParametersLength. fields_len.
  - intros [Hid Hty] (id_ & opts & E1 & E2 & -> & L1 & L2)%encode_init_params_inv.
    pose proof (decode_padded_inv _ _ _ _ _ E1 Hid) as D1.
    pose proof (blk_roundtrip _ _ Hty E2) as D2. cbn in D2.
    unfold DecodeInitializeParameters, InitializeParametersLength.
    rewrite (proj2 (Z.eqb_eq _ 373)) by fields_len. cbn [negb]. open_record.
    rstep. erewrite step_lift by apply D1. rstep. erewrite step_lift by apply D2. rstep. by destruct p.
Qed.

(** [EncodePartnerLogicalUnitParameters]/[DecodePartnerLogicalUnitParameters]. *)
#[export] Instance partner_params_codec : BlockCodec PartnerLogicalUnitParameters := {
  blk_width := PartnerParametersLength;
  blk_encode := EncodePartnerLogicalUnitParameters;
  blk_decode := DecodePartnerLogicalUnitParameters;
  blk_typed p := x20 ∉ pp_LongLogicalUnitName p;
  blk_norm := id;
}.

Lemma encode_partner_params_inv p b :
  EncodePartnerLogicalUnitParameters p = Ok b ->
  exists name,
    encodePaddedAscii (pp_LongLogicalUnitName p) 128 x20 "longLogicalUnitName" = Ok name /\
    b = fields_bytes [("longLogicalUnitName", FBytes name);
                      ("partnerHostAddress", FBytes (pp_PartnerHostAddress p))] /\
    zlen name = 128 /\ zlen (pp_PartnerHostAddress p) = 16.
Proof.
  unfold EncodePartnerLogicalUnitParameters.
  destruct (encodePaddedAscii _ _ _ _) as [name| |] eqn:E1; try discriminate.
  destruct (exactBytes _ _ _) as [host| |] eqn:E2; try discriminate.
  apply exactBytes_inv in E2 as [-> L2]. pose proof (encodePaddedAscii_inv _ _ _ _ _ E1) as (_ & L1 & _).
  cbn [mbind outcome_bind]. intros (fs & Hr & Hb)%encode_items_inv. resolve_inv Hr.
  exists name. split_and!; try done. apply Hb. unfold PartnerParametersLength. fields_len.
Qed.

#[export] Instance partner_params_laws : BlockCodecLaws PartnerLogicalUnitParameters.
Proof.
  split; intros p b; cbn [blk_encode blk_decode blk_typed blk_norm blk_width partner_params_codec].
  - intros (? & _ & -> & ? & ?)%encode_partner_params_inv. unfold PartnerParametersLength. fields_len.
  - intros Hn (name & E1 & -> & L1 & L2)%encode_partner_params_inv.
    pose proof (decode_padded_inv _ _ _ _ _ E1 Hn) as D1.
    unfold DecodePartnerLogicalUnitParameters, PartnerParametersLength.
    rewrite (proj2 (Z.eqb_eq _ 144)) by fields_len. cbn [negb]. open_record.
    rstep. erewrite step_lift by apply D1. do 2 rstep. by destruct p.
Qed.

(** ** Records *)

(** The header a record carries: the input's overrides or the wire defaults. *)
Definition record_header (fc : Function_) (in_ : RecordHeaderInput) (sapParameterLength : Z) : Header :=
  mkHeader (mkPayloadInfo ProtocolVersion fc (FunctionName fc))
    (u8or (in_Protocol in_) 2) (u8or (in_Mode in_) 0) (u16or (in_UID in_) 0xffff)
    (u16or (in_GatewayID in_) 0) (u16or (in_ErrorLength in_) 0) (u8or (in_Info2 in_) 0)
    (u8or (in_TraceLevel in_) 0) (u32or (in_Time in_) 0) (u8or (in_Info3 in_) 0)
    (i32or (in_Timeout in_) 0) (u8or (in_Info4 in_) 0) (u32or (in_SequenceNumber in_) 0)
    sapParameterLength (u16or (in_Padding in_) 0) (u8or (in_Info in_) 0) (u8or (in_Vector in_) 0)
    (u32or (in_AppcReturnCode in_) 0) (u32or (in_SapReturnCode in_) 0)
    (default (zeros 8) (in_ConversationID in_)).

Definition opt_all (P : Z -> Prop) (o : option Z) : Prop := forall v, o = Some v -> P v.

(** Go's pointer types on the overrides. *)
Record header_input_typed (in_ : RecordHeaderInput) : Prop := {
  hit_u8 : Forall (opt_all is_u8)
    [in_Protocol in_; in_Mode in_; in_Info2 in_; in_TraceLevel in_; in_Info3 in_; in_Info4 in_;
     in_Info in_; in_Vector in_];
  hit_u16 : Forall (opt_all is_u16) [in_UID in_; in_GatewayID in_; in_ErrorLength in_; in_Padding in_];
  hit_u32 : Forall (opt_all is_u32)
    [in_Time in_; in_SequenceNumber in_; in_AppcReturnCode in_; in_SapReturnCode in_];
  hit_i32 : opt_all is_i32 (in_Timeout in_);
}.

Lemma opt_all_or (P : Z -> Prop) o d : opt_all P o -> P d -> P (match o with Some v => v | None => d end).
Proof. destruct o; [intros H _; by apply H|done]. Qed.

Lemma record_header_ok fc in_ sap :
  is_u8 fc -> header_input_typed in_ -> 0 <= sap <= 0xffff ->
  zlen (default (zeros 8) (in_ConversationID in_)) = 8 ->
  header_ok (record_header fc in_ sap).
Proof.
  intros Hf [H8 H16 H32 Hi] Hs Hc.
  repeat (apply Forall_cons in H8 as [? H8]). repeat (apply Forall_cons in H16 as [? H16]).
  repeat (apply Forall_cons in H32 as [? H32]).
  split; [done| |done]. unfold header_fields, record_header, u8or, u16or, u32or, i32or.
  repeat (apply Forall_cons; split); try apply Forall_nil; cbn [snd field_typed h_PayloadInfo
    h_FunctionCode pi_ProtocolVersion pi_FunctionCode h_Protocol h_Mode h_UID h_GatewayID h_ErrorLength
    h_Info2 h_TraceLevel h_Time h_Info3 h_Timeout h_Info4 h_SequenceNumber h_SapParameterLen h_Padding
    h_Info h_Vector h_AppcReturnCode h_SapReturnCode];
    first [apply opt_all_or; [done|done]|done|unfold is_u16; lia].
Qed.

Lemma fold_left_zlen (ls : list bytes) n : fold_left (fun n l => n + zlen l) ls n = n + zlen (concat ls).
Proof.
  revert n. induction ls as [|l ls IH]; intros n; cbn [fold_left concat].
  - change (zlen (@nil byte)) with 0. lia.
  - rewrite IH, zlen_app. lia.
Qed.

Lemma resolve_app its1 its2 fs1 fs2 :
  resolve its1 = Ok fs1 -> resolve its2 = Ok fs2 -> resolve (its1 ++ its2) = Ok (fs1 ++ fs2).
Proof.
  revert fs1. induction its1 as [|[f|n e] its IH]; cbn [resolve app]; intros fs1 H1 H2.
  - by apply Ok_inj in H1 as <-.
  - destruct (resolve its) as [fs| |]; try discriminate. apply Ok_inj in H1 as <-. by rewrite (IH fs).
  - destruct e; try discriminate. destruct (resolve its) as [fs| |]; try discriminate.
    apply Ok_inj in H1 as <-. cbn. by rewrite (IH fs).
Qed.

Lemma fields_bytes_app fs1 fs2 : fields_bytes (fs1 ++ fs2) = fields_bytes fs1 ++ fields_bytes fs2.
Proof. unfold fields_bytes. rewrite !fmap_app. apply join_app. Qed.

Lemma resolve_trailing (name : nat -> string) (parts : list bytes) :
  exists fs, resolve (imap (fun i part => Put (name i, FBytes part)) parts) = Ok fs /\
             fields_bytes fs = concat parts.
Proof.
  revert name. induction parts as [|p ps IH]; intros name; [by exists []|].
  destruct (IH (fun i => name (S i))) as (fs & Hr & Hb).
  exists ((name 0%nat, FBytes p) :: fs). cbn [imap resolve]. unfold compose. rewrite Hr. split; [done|].
  rewrite fields_bytes_cons. cbn. by rewrite Hb.
Qed.

Lemma encodeRecord_ok fc in_ op sap trailing ctx :
  zlen (default (zeros 8) (in_ConversationID in_)) = 8 -> zlen op = 32 -> 0 <= sap <= 0xffff ->
  encodeRecord fc in_ op sap trailing ctx
  = Ok (fields_bytes (header_fields (record_header fc in_ sap)) ++ op ++ concat trailing).
Proof.
  intros Hc Ho Hs. unfold encodeRecord, exactBytes.
  change (match in_ConversationID in_ with Some id => id | None => zeros 8 end)
    with (default (zeros 8) (in_ConversationID in_)).
  rewrite Hc, Ho. cbn [Z.eqb Pos.eqb negb mbind outcome_bind]. case_tests; try lia.
  rewrite fold_left_zlen. unfold uint16. rewrite (Z.mod_small sap) by lia.
  destruct (resolve_trailing (fun i => "trailingData[" +:+ pretty i +:+ "]") trailing) as (fs & Hr & Hb).
  erewrite encode_items_ok; [|apply resolve_app; [reflexivity|exact Hr]|].
  - f_equal. rewrite fields_bytes_app, Hb. unfold header_fields, record_header.
    rewrite !fields_bytes_cons. change (fields_bytes []) with (@nil byte). cbn [snd field_bytes].
    rewrite <- !app_assoc. done.
  - rewrite fields_bytes_app, zlen_app, Hb. unfold RecordHeaderLength. cbn [app].
    fields_len.
Qed.

Lemma encodeRecord_inv fc in_ op sap trailing ctx b :
  encodeRecord fc in_ op sap trailing ctx = Ok b ->
  zlen (default (zeros 8) (in_ConversationID in_)) = 8 /\ zlen op = 32 /\ 0 <= sap <= 0xffff /\
  b = fields_bytes (header_fields (record_header fc in_ sap)) ++ op ++ concat trailing.
Proof.
  intros H.
  assert (zlen (default (zeros 8) (in_ConversationID in_)) = 8 /\ zlen op = 32 /\ 0 <= sap <= 0xffff)
    as (Hc & Ho & Hs).
  { revert H. unfold encodeRecord, exactBytes.
    change (match in_ConversationID in_ with Some id => id | None => zeros 8 end)
      with (default (zeros 8) (in_ConversationID in_)).
    destruct (Z.eqb_spec (zlen (default (zeros 8) (in_ConversationID in_))) 8); [|discriminate].
    destruct (Z.eqb_spec (zlen op) 32); [|discriminate]. cbn [negb mbind outcome_bind].
    destruct (Z.ltb_spec sap 0); [discriminate|]. destruct (Z.ltb_spec 0xffff sap); [discriminate|]. done. }
  rewrite encodeRecord_ok in H by done. by apply Ok_inj in H as <-.
Qed.

(** What a receiver finds in an encoded record. *)
Lemma record_parts fc in_ op sap trailing ctx b :
  is_u8 fc -> header_input_typed in_ ->
  encodeRecord fc in_ op sap trailing ctx = Ok b ->
  DecodeHeader b = Ok (record_header fc in_ sap) /\
  go_slice (E := error) b CommonHeaderLength RecordHeaderLength = Ok op /\
  go_from (E := error) b RecordHeaderLength = Ok (concat trailing) /\
  zlen b = RecordHeaderLength + zlen (concat trailing).
Proof.
  intros Hf Hi (Hc & Ho & Hs & ->)%encodeRecord_inv.
  pose proof (record_header_ok fc in_ sap Hf Hi Hs Hc) as Hok.
  pose proof (header_bytes_length _ (ho_conv _ Hok)) as Hl. unfold CommonHeaderLength, RecordHeaderLength.
  split_and!.
  - by apply decode_header_bytes.
  - apply go_slice_mid; rewrite Hl; lia.
  - unfold go_from. rewrite !zlen_app, Hl, Ho. rewrite app_assoc.
    rewrite <- (app_nil_r (concat trailing)) at 1. apply go_slice_mid; rewrite zlen_app, Hl, Ho; lia.
  - rewrite !zlen_app, Hl, Ho. lia.
Qed.

(** For every operation-information block with a lawful codec, an encoded record decodes to
    the header it was given, to the block up to its normal form, and to the trailing data. *)
Theorem record_roundtrip {A : Type} {B : BlockCodec A} {L : BlockCodecLaws A}
    (a : A) fc in_ op sap trailing ctx b :
  blk_typed a -> blk_encode a = Ok op -> is_u8 fc -> header_input_typed in_ ->
  encodeRecord fc in_ op sap trailing ctx = Ok b ->
  DecodeHeader b = Ok (record_header fc in_ sap) /\
  (block ← go_slice b CommonHeaderLength RecordHeaderLength; blk_decode block) = Ok (blk_norm a) /\
  go_from (E := error) b RecordHeaderLength = Ok (concat trailing).
Proof.
  intros Ht He Hf Hi Hr. destruct (record_parts _ _ _ _ _ _ _ Hf Hi Hr) as (H1 & H2 & H3 & _).
  split_and!; [done| |done]. rewrite H2. cbn [mbind outcome_bind]. by apply blk_roundtrip.
Qed.

Definition no_overrides : RecordHeaderInput :=
  mkRecordHeaderInput None None None None None None None None None None None None None None None None
    None None.

Lemma no_overrides_typed : header_input_typed no_overrides.
Proof. split; repeat constructor; discriminate. Qed.

Lemma record_roundtrip_witness :
  exists op b,
    EncodeExtendedInfo (mkExtendedInfo (lit "DEST") [] [] 0x49 1 2 3) = Ok op /\
    encodeRecord FuncInitialize no_overrides op 4 [lit "DATA"] "r" = Ok b /\
    (block ← go_slice b CommonHeaderLength RecordHeaderLength; DecodeExtendedInfo block)
      = Ok (mkExtendedInfo (lit "DEST") [] [] 0x49 1 2 3).
Proof.
  set (info := mkExtendedInfo (lit "DEST") [] [] 0x49 1 2 3).
  destruct (EncodeExtendedInfo info) as [op| |] eqn:E; [|vm_compute in E; discriminate..].
  destruct (encodeRecord FuncInitialize no_overrides op 4 [lit "DATA"] "r") as [b| |] eqn:E2;
    [|vm_compute in E; apply Ok_inj in E; subst op; vm_compute in E2; discriminate..].
  exists op, b. split; [done|]. split; [done|].
  assert (blk_typed info) as Ht by (vm_compute; repeat split; discriminate).
  assert (is_u8 FuncInitialize) as Hf by (vm_compute; split; [discriminate|reflexivity]).
  destruct (record_roundtrip info FuncInitialize no_overrides op 4 [lit "DATA"] "r" b
              Ht E Hf no_overrides_typed E2) as (_ & H & _).
  exact H.
Defined.

(** Initialize parameters whose client identifier has no space and whose fields have their
    widths decode to themselves from an encoding of the documented length. *)
Theorem init_params_roundtrip p b :
  (x20 ∉ ClientIdentifier p) -> init_options_typed (Options p) ->
  EncodeInitializeParameters p = Ok b ->
  zlen b = InitializeParametersLength /\ DecodeInitializeParameters b = Ok p.
Proof.
  intros Hc Ho H. split; [exact (blk_encode_width p b H)|]. exact (blk_roundtrip p b (conj Hc Ho) H).
Qed.

Definition sample_options : ExtendedInitializeOptions :=
  mkExtendedInitializeOptions 1 (lit "0123456789ABCDEF") (lit "FEDCBA9876543210") 7 (-1) 300 0 0 2
    (zeros 16) (lit "sapgw00") (lit "alice") [x7f; x00; x00; x01] (lit "sapdp00").

Lemma init_params_roundtrip_witness :
  exists b, EncodeInitializeParameters (mkInitializeParameters (lit "client") sample_options) = Ok b /\
    DecodeInitializeParameters b = Ok (mkInitializeParameters (lit "client") sample_options).
Proof.
  eexists. split; [vm_compute; reflexivity|].
  apply (init_params_roundtrip (mkInitializeParameters (lit "client") sample_options)).
  - apply (bool_decide_eq_false_1 (x20 ∈ lit "client")). vm_compute. reflexivity.
  - split; try (vm_compute; split; [discriminate|reflexivity]).
    apply (bool_decide_eq_false_1 (x20 ∈ lit "alice")). vm_compute. reflexivity.
  - vm_compute. reflexivity.
Defined.

Lemma take8_slice lu :
  (name ← (if 8 <? zlen lu then go_slice lu 0 8 else Ok lu); Ok name) = @Ok error bytes (take 8 lu).
Proof.
  case_tests; [rewrite go_slice_ok by lia; done|]. cbn. by rewrite take_ge by len_lia.
Qed.

(** Partner information decodes to the first eight bytes of the name, its full length, the
    address and the indices, unless the cut name ends with a space. *)
Theorem partner_info_roundtrip info b :
  is_u16 (pl_CommunicationIndex info) -> is_u16 (pl_ConnectionIndex info) ->
  EncodePartnerLogicalUnitInfo info = Ok b ->
  let name := pl_LogicalUnitName info in
  zlen b = 32 /\ zlen name <= 128 /\
  ((forall c, last (take 8 name) = Some c -> c <> x20) ->
   DecodePartnerLogicalUnitInfo b =
     Ok (mkPartnerLogicalUnitInfo (take 8 name) (zlen name) (pl_PartnerHostAddress info)
           (pl_CommunicationIndex info) (pl_ConnectionIndex info))).
Proof.
  intros Hc1 Hc2. unfold EncodePartnerLogicalUnitInfo. set (name := pl_LogicalUnitName info).
  destruct (printableASCII name) eqn:Hp; [|discriminate].
  destruct (Z.ltb_spec 128 (zlen name)) as [|Hl]; [discriminate|]. cbn [negb orb].
  pose proof (take8_slice name) as T. pose proof (zlen_nonneg name).
  destruct (if 8 <? zlen name then go_slice name 0 8 else Ok name) as [n| |]; try discriminate.
  cbn [mbind outcome_bind] in *. apply Ok_inj in T as ->.
  destruct (encodeFixedAscii _ _) as [prefix| |] eqn:E; try discriminate. cbn [mbind outcome_bind].
  destruct (Z.eqb_spec (zlen (pl_PartnerHostAddress info)) 16) as [Hh|]; [|discriminate]. cbn [negb].
  pose proof (encodeFixedAscii_len _ _ _ E). pose proof (encodeFixedAscii_inv _ _ _ E) as (Hp8 & _).
  assert (is_u32 (zlen name)) by (unfold is_u32; lia).
  intros (fs & Hr & Hb)%encode_items_inv. resolve_inv Hr. specialize (Hb ltac:(fields_len)). subst b.
  unfold uint32. rewrite (Z.mod_small (zlen name)) by done.
  split; [fields_len|]. split; [done|]. intros Hlast.
  pose proof (decode_fixed _ _ _ E) as D. rewrite trim_printable in D by done.
  unfold DecodePartnerLogicalUnitInfo. rewrite (proj2 (Z.eqb_eq _ 32)) by fields_len. cbn [negb].
  open_record. do 2 rstep. rewrite step_guard by (apply Z.ltb_ge; lia).
  erewrite step_lift by apply D. rewrite step_guard by (case_tests; try done; exfalso; len_lia).
  do 4 rstep. done.
Qed.

Lemma partner_info_roundtrip_witness :
  exists b, EncodePartnerLogicalUnitInfo
      (mkPartnerLogicalUnitInfoInput (lit "host.example.com") (zeros 16) 1 2) = Ok b /\
    DecodePartnerLogicalUnitInfo b = Ok (mkPartnerLogicalUnitInfo (lit "host.exa") 16 (zeros 16) 1 2).
Proof.
  eexists. split; [vm_compute; reflexivity|].
  apply (partner_info_roundtrip
           (mkPartnerLogicalUnitInfoInput (lit "host.example.com") (zeros 16) 1 2)).
  - vm_compute. split; [discriminate|reflexivity].
  - vm_compute. split; [discriminate|reflexivity].
  - vm_compute. reflexivity.
  - cbn. intros c [= <-]. discriminate.
Defined.

Lemma control_tail (m : res bytes) fc h params ctx b :
  header_input_typed h -> is_u8 fc ->
  (op ← m; encodeRecord fc h op (zlen params) [params] ctx) = Ok b ->
  DecodeHeader b = Ok (record_header fc h (zlen params)) /\
  go_from (E := error) b RecordHeaderLength = Ok params.
Proof.
  intros Hi Hf. destruct m as [op| |]; cbn [mbind outcome_bind]; [|done..]. intros Hr.
  destruct (record_parts _ _ _ _ _ _ _ Hf Hi Hr) as (H1 & _ & H3 & _).
  cbn [concat] in H3. by rewrite app_nil_r in H3.
Qed.

(** A control record is only encoded for a control function, with partner information
    exactly for SetPartnerLuName and never with both kinds of information, and it decodes to
    its header and parameters. *)
Theorem control_record_sound in_ b :
  header_input_typed (cr_Header in_) -> is_u8 (cr_FunctionCode in_) ->
  EncodeControlRecord in_ = Ok b ->
  controlFunctions (cr_FunctionCode in_) = true /\
  (cr_FunctionCode in_ = FuncSetPartnerLuName <-> is_Some (cr_PartnerLogicalUnitInfo in_)) /\
  ~ (is_Some (cr_PartnerLogicalUnitInfo in_) /\ is_Some (cr_ExtendedInfo in_)) /\
  DecodeHeader b =
    Ok (record_header (cr_FunctionCode in_) (cr_Header in_) (zlen (cr_Parameters in_))) /\
  go_from (E := error) b RecordHeaderLength = Ok (cr_Parameters in_).
Proof.
  intros Hi Hf. unfold EncodeControlRecord.
  destruct (controlFunctions (cr_FunctionCode in_)) eqn:Hcf; [|discriminate]. cbn [negb].
  destruct (Z.ltb_spec 0xffff (zlen (cr_Parameters in_))); [discriminate|].
  destruct (cr_ExtendedInfo in_) as [ei|], (cr_PartnerLogicalUnitInfo in_) as [pl|];
    [discriminate|..].
  all: destruct (Z.eqb_spec (cr_FunctionCode in_) FuncSetPartnerLuName) as [Heq|Hne].
  all: cbn [not_nil andb negb].
  all: lazymatch goal with |- Err _ = Ok _ -> _ => discriminate | _ => idtac end.
  all: intros Hr; destruct (control_tail _ _ _ _ _ _ Hi Hf Hr) as [H1 H3].
  all: split; [reflexivity|]; split; [|split; [|exact (conj H1 H3)]]; clear Hr H1 H3.
  - split; [by intros|by intros [? ?]].
  - by intros [[? ?] _].
  - split; [intros _; by exists pl|by intros _].
  - by intros [_ [? ?]].
  - split; [by intros|by intros [? ?]].
  - by intros [[? ?] _].
Qed.

Lemma control_record_sound_witness :
  exists b, EncodeControlRecord (mkControlRecordInput no_overrides FuncSetTpName None None (lit "TP")) = Ok b /\
    go_from (E := error) b RecordHeaderLength = Ok (lit "TP").
Proof.
  destruct (EncodeControlRecord (mkControlRecordInput no_overrides FuncSetTpName None None (lit "TP")))
    as [b| |] eqn:E; [|vm_compute in E; discriminate..].
  exists b. split; [reflexivity|].
  assert (is_u8 FuncSetTpName) as Hf by (vm_compute; split; [discriminate|reflexivity]).
  destruct (control_record_sound (mkControlRecordInput no_overrides FuncSetTpName None None (lit "TP")) b
              no_overrides_typed Hf E) as (_ & _ & _ & _ & H).
  exact H.
Defined.
