(* ===== verification/AppcFragmentation.v ===== *)
(** Package [appc], internal/appc/fragmentation.go: planning one logical outgoing
    message as APPC records (one compact F_SAP_SEND, or bounded F_ASEND_DATA
    slices with synchronous barriers and an F_RECEIVE terminator) and encoding
    each planned step.

    The theorems: a plan carries exactly the message, in order and within the slice
    bound; every step of a plan encodes; the encoded records carry the message; and
    the barriers come often enough that no more than 21 asynchronous slices follow
    one another. *)
From stdpp Require Import base list numbers strings pretty.
From Stdlib Require Import ZArith Lia Strings.Byte.
From S2P Require Import Prelude Errors Wire Appc AppcRecords.

Open Scope Z_scope.

Record DataOperationInfo : Type := mkDataOperationInfo {
  do_DataLength : Z;
  do_CommunicationIndex : Z;
  do_ConnectionIndex : Z;
}.

Record IncomingDataOperationInfo : Type := mkIncomingDataOperationInfo {
  io_DataLength : Z;
  io_CommunicationIndex : Z;
  io_ConnectionIndex : Z;
}.

Definition encodeAsyncDataInfo (dataLength communicationIndex connectionIndex : Z) : res bytes :=
  if (dataLength <? 1) || (MaxApplicationDataFragmentLength <? dataLength) then Err (EAppc APPC_ErrRange)
  else encode_items 32 "APPC async-send info"
    [Put ("reserved", FUint16BE 0);
     Put ("dataLength", FUint16BE (uint16 dataLength));
     Put ("reserved2", FBytes (zeros 24));
     Put ("communicationIndex", FUint16BE communicationIndex);
     Put ("connectionIndex", FUint16BE connectionIndex)].

Definition DecodeDataOperationInfo (data : bytes) : res DataOperationInfo :=
  if negb (zlen data =? 32) then Err (EAppc APPC_ErrRange)
  else run (
    reserved ← Reader.ReadUint16BE "reserved";
    lift (guard (negb (reserved =? 0)) (EAppc APPC_ErrRange));;
    dataLength ← Reader.ReadUint16BE "dataLength";
    reserved2 ← Reader.ReadBytes 24 "reserved2";
    lift (guard (existsb (fun b => negb (b2z b =? 0)) reserved2) (EAppc APPC_ErrRange));;
    commIdx ← Reader.ReadUint16BE "communicationIndex";
    connIdx ← Reader.ReadUint16BE "connectionIndex";
    Reader.Finish;;
    mret (mkDataOperationInfo dataLength commIdx connIdx))
    (Reader.NewReader data "APPC data operation info").

Definition DecodeIncomingDataOperationInfo (data : bytes) : res IncomingDataOperationInfo :=
  if negb (zlen data =? 32) then Err (EAppc APPC_ErrRange)
  else
    a ← go_from data 10; dataLength ← be_uint 2 a;
    b ← go_from data 28; communicationIndex ← be_uint 2 b;
    c ← go_from data 30; connectionIndex ← be_uint 2 c;
    Ok (mkIncomingDataOperationInfo dataLength communicationIndex connectionIndex).

Definition DecodeAsyncDataInfo (data : bytes) : res DataOperationInfo :=
  decoded ← DecodeDataOperationInfo data;
  if (do_DataLength decoded <? 1) || (MaxApplicationDataFragmentLength <? do_DataLength decoded)
  then Err (EAppc APPC_ErrRange)
  else Ok decoded.

Definition outgoingOperationInfo (functionCode : Function_)
    (dataLength communicationIndex connectionIndex : Z) : res bytes :=
  if (functionCode =? FuncAsyncSendData) || (functionCode =? FuncSendData)
  then encodeAsyncDataInfo dataLength communicationIndex connectionIndex
  else EncodeExtendedInfo (mkExtendedInfo [] [] [] 0 0 communicationIndex connectionIndex).

Definition validateFinalSapParameters (parameters : bytes) (applicationDataLength : Z) : res unit :=
  if negb (zlen parameters =? FinalSapParameterLength) then Err (EAppc APPC_ErrRange)
  else
    a ← go_from parameters 0; reserved ← be_uint 2 a;
    if negb (reserved =? 0) then Err (EAppc APPC_ErrRange)
    else
      b ← go_from parameters 2; declaredPacketLength ← be_uint 2 b;
      if negb (declaredPacketLength =? applicationDataLength) then Err (EAppc APPC_ErrRange)
      else Ok tt.

Record fragmentSemantics : Type := mkFragmentSemantics {
  fs_functionCode : Function_;
  fs_isFinal : bool;
  fs_info : Z;
  fs_vector : Z;
  fs_sapParameterLength : Z;
}.

Definition outgoingFragmentSemantics (fragmentIndex fragmentCount : Z) : fragmentSemantics :=
  let isSingle := fragmentCount =? 1 in
  let isFinal := isSingle || (fragmentIndex =? fragmentCount - 1) in
  let isSyncStreaming := negb isSingle && negb isFinal &&
    (MaxAsyncSendsBeforeSync <=? fragmentIndex) &&
    (Z.rem (fragmentIndex - MaxAsyncSendsBeforeSync) MaxAsyncSendsBeforeSync =? 0) in
  let fc := if isSingle then FuncSapSend
            else if isFinal then FuncReceive
            else if isSyncStreaming then FuncSendData
            else FuncAsyncSendData in
  let info := if isSingle then 5 else if isFinal || isSyncStreaming then 1 else 0 in
  let vector := if isSingle then 0x0c else 0 in
  let sap := if isSingle then 8 else 0 in
  mkFragmentSemantics fc isFinal info vector sap.

Record OutgoingDataPlanInput : Type := mkOutgoingDataPlanInput {
  op_Header : RecordHeaderInput;
  op_ApplicationData : bytes;
  op_FinalSapParameters : option bytes;
  op_CommunicationIndex : Z;
  op_ConnectionIndex : Z;
}.

(** [CpicStreamingPolicy] is a string; "" selects the default. *)
Definition StreamingDisabled : string := "disabled".
Definition StreamingEnabled : string := "enabled".

Record OutgoingDataPlannerOptions : Type := mkOutgoingDataPlannerOptions {
  MaxApplicationDataLength : option Z;
  MaxFragments : option Z;
  CpicStreaming : string;
}.

Record OutgoingDataFragment : Type := mkOutgoingDataFragment {
  of_Header : RecordHeaderInput;
  of_FunctionCode : Function_;
  of_FragmentIndex : Z;
  of_FragmentCount : Z;
  of_ConversationID : bytes;
  of_SequenceNumber : Z;
  of_ApplicationData : bytes;
  of_FinalSapParameters : bytes;
  of_MessageApplicationDataLength : Z;
  of_CommunicationIndex : Z;
  of_ConnectionIndex : Z;
  of_IsFinal : bool;
  of_Info : Z;
  of_Vector : Z;
  of_SapParameterLength : Z;
}.

Definition headerInput (f : OutgoingDataFragment) : RecordHeaderInput :=
  let h := of_Header f in
  mkRecordHeaderInput (in_Protocol h) (in_Mode h) (in_UID h) (in_GatewayID h) (in_ErrorLength h)
    (in_Info2 h) (in_TraceLevel h) (in_Time h) (in_Info3 h) (in_Timeout h) (in_Info4 h)
    (Some (of_SequenceNumber f)) (in_Padding h) (Some (of_Info f)) (Some (of_Vector f))
    (in_AppcReturnCode h) (in_SapReturnCode h) (Some (of_ConversationID f)).

(** One iteration of the planning loop. *)
Definition plan_fragment (input : OutgoingDataPlanInput) (useSingleRecord : bool)
    (fragmentCount : Z) (conversationID finalSapParameters : bytes) (i : Z) : res OutgoingDataFragment :=
  let msgLen := zlen (op_ApplicationData input) in
  let sem := outgoingFragmentSemantics i fragmentCount in
  let start := i * MaxApplicationDataFragmentLength in
  let start := if msgLen <? start then msgLen else start in
  let end_ :=
    if negb (fs_functionCode sem =? FuncReceive) then
      let e := start + MaxApplicationDataFragmentLength in
      if msgLen <? e then msgLen else e
    else start in
  data ← go_slice (op_ApplicationData input) start end_;
  Ok (mkOutgoingDataFragment (op_Header input) (fs_functionCode sem) i fragmentCount conversationID
        (u32or (in_SequenceNumber (op_Header input)) 0) data
        (if useSingleRecord then finalSapParameters else []) msgLen
        (op_CommunicationIndex input) (op_ConnectionIndex input) (fs_isFinal sem) (fs_info sem)
        (fs_vector sem) (fs_sapParameterLength sem)).

(** The checks on the final SAP parameters; the parameters a compact message keeps. *)
Definition plan_final_sap (input : OutgoingDataPlanInput) : res bytes :=
  let msgLen := zlen (op_ApplicationData input) in
  match op_FinalSapParameters input with
  | Some p =>
      if negb (zlen p =? FinalSapParameterLength) then Err (EAppc APPC_ErrRange)
      else
        validateFinalSapParameters p msgLen;;
        if MaxApplicationDataFragmentLength <? msgLen then Err (EAppc APPC_ErrRange) else Ok p
  | None =>
      if msgLen <=? MaxApplicationDataFragmentLength then Err (EAppc APPC_ErrRange) else Ok []
  end.

(** The checks on the planner's options. *)
Definition plan_limits (options : OutgoingDataPlannerOptions) : res (Z * Z * string) :=
  let maxApplicationDataLength :=
    match MaxApplicationDataLength options with
    | Some v => v | None => DefaultMaxOutgoingMessageLength end in
  let maxFragments := match MaxFragments options with Some v => v | None => DefaultMaxMessageFragments end in
  let cpicStreaming := if String.eqb (CpicStreaming options) "" then StreamingDisabled
                       else CpicStreaming options in
  if (maxApplicationDataLength <? 0) || (MaxOutgoingMessageLength <? maxApplicationDataLength)
  then Err (EAppc APPC_ErrRange)
  else if maxFragments <? 1 then Err (EAppc APPC_ErrRange)
  else if negb (String.eqb cpicStreaming StreamingDisabled) && negb (String.eqb cpicStreaming StreamingEnabled)
  then Err (EAppc APPC_ErrRange)
  else Ok (maxApplicationDataLength, maxFragments, cpicStreaming).

Definition PlanOutgoingDataFragments (input : OutgoingDataPlanInput)
    (options : OutgoingDataPlannerOptions) : res (list OutgoingDataFragment) :=
  '(maxApplicationDataLength, maxFragments, cpicStreaming) ← plan_limits options;
  let msgLen := zlen (op_ApplicationData input) in
  if maxApplicationDataLength <? msgLen then Err (EAppc APPC_ErrRange)
  else
    finalSapParameters ← plan_final_sap input;
    let hasFinalSap := not_nil (op_FinalSapParameters input) in
    let useSingleRecord := hasFinalSap && (msgLen <=? MaxApplicationDataFragmentLength) in
    if negb useSingleRecord && negb (String.eqb cpicStreaming StreamingEnabled)
    then Err (EAppc APPC_ErrState)
    else
      let dataFragmentCount :=
        if negb useSingleRecord
        then Z.quot (msgLen + MaxApplicationDataFragmentLength - 1) MaxApplicationDataFragmentLength
        else 1 in
      let fragmentCount := if negb useSingleRecord then dataFragmentCount + 1 else 1 in
      if maxFragments <? fragmentCount then Err (EAppc APPC_ErrRange)
      else
        let conversationID :=
          match in_ConversationID (op_Header input) with Some id => id | None => zeros 8 end in
        if negb (zlen conversationID =? 8) then Err (EAppc APPC_ErrRange)
        else
          let preflightFunc := if negb useSingleRecord then FuncAsyncSendData else FuncSapSend in
          let preflightDataLen :=
            if negb useSingleRecord
            then (if MaxApplicationDataFragmentLength <? msgLen
                  then MaxApplicationDataFragmentLength else msgLen)
            else msgLen + zlen finalSapParameters in
          let preflightSap := if negb useSingleRecord then 0 else FinalSapParameterLength in
          preflightOpInfo ← outgoingOperationInfo preflightFunc preflightDataLen
                              (op_CommunicationIndex input) (op_ConnectionIndex input);
          _ ← encodeRecord preflightFunc (op_Header input) preflightOpInfo preflightSap [[]]
                "outgoing APPC plan";
          mapM (plan_fragment input useSingleRecord fragmentCount conversationID finalSapParameters)
            (seqZ 0 fragmentCount).

Definition invalidOutgoingFragment : error := EAppc APPC_ErrRange.

Definition SnapshotOutgoingDataFragment (in_ : OutgoingDataFragment) : res OutgoingDataFragment :=
  if negb (zlen (of_ConversationID in_) =? 8) then Err invalidOutgoingFragment
  else if MaxApplicationDataFragmentLength <? zlen (of_ApplicationData in_) then Err invalidOutgoingFragment
  else if FinalSapParameterLength <? zlen (of_FinalSapParameters in_) then Err invalidOutgoingFragment
  else Ok in_.

(** The switch of [EncodeOutgoingDataFragment] on the kind of step. *)
Definition check_fragment_data (fragment : OutgoingDataFragment) : res unit :=
  let fc := of_FunctionCode fragment in
  if of_FragmentCount fragment =? 1 then
    if MaxApplicationDataFragmentLength <? zlen (of_ApplicationData fragment)
    then Err invalidOutgoingFragment
    else match validateFinalSapParameters (of_FinalSapParameters fragment)
                 (of_MessageApplicationDataLength fragment) with
         | Err _ => Err invalidOutgoingFragment
         | o => o
         end
  else if (fc =? FuncAsyncSendData) || (fc =? FuncSendData) then
    if (zlen (of_ApplicationData fragment) <? 1)
       || (MaxApplicationDataFragmentLength <? zlen (of_ApplicationData fragment))
    then Err invalidOutgoingFragment
    else guard (negb (zlen (of_FinalSapParameters fragment) =? 0)) invalidOutgoingFragment
  else guard (negb (zlen (of_ApplicationData fragment) =? 0)
              || negb (zlen (of_FinalSapParameters fragment) =? 0)) invalidOutgoingFragment.

Definition EncodeOutgoingDataFragment (in_ : OutgoingDataFragment) : res bytes :=
  fragment ← SnapshotOutgoingDataFragment in_;
  if of_FragmentCount fragment <? 1 then Err invalidOutgoingFragment
  else if (of_FragmentIndex fragment <? 0) || (of_FragmentCount fragment <=? of_FragmentIndex fragment)
  then Err invalidOutgoingFragment
  else if (of_MessageApplicationDataLength fragment <? 0)
          || (MaxOutgoingMessageLength <? of_MessageApplicationDataLength fragment)
  then Err invalidOutgoingFragment
  else
    let expected := outgoingFragmentSemantics (of_FragmentIndex fragment) (of_FragmentCount fragment) in
    if negb (of_FunctionCode fragment =? fs_functionCode expected)
       || negb (Bool.eqb (of_IsFinal fragment) (fs_isFinal expected))
       || negb (of_Info fragment =? fs_info expected)
       || negb (of_Vector fragment =? fs_vector expected)
       || negb (of_SapParameterLength fragment =? fs_sapParameterLength expected)
    then Err invalidOutgoingFragment
    else
      check_fragment_data fragment;;
      operationInfo ←
        (if (of_FunctionCode fragment =? FuncReceive) && (1 <? of_FragmentCount fragment)
         then encodeAsyncDataInfo MaxApplicationDataFragmentLength
                (of_CommunicationIndex fragment) (of_ConnectionIndex fragment)
         else outgoingOperationInfo (of_FunctionCode fragment) (zlen (of_ApplicationData fragment))
                (of_CommunicationIndex fragment) (of_ConnectionIndex fragment));
      encodeRecord (of_FunctionCode fragment) (headerInput fragment) operationInfo
        (of_SapParameterLength fragment)
        [of_ApplicationData fragment; of_FinalSapParameters fragment] "outgoing APPC data fragment".

(** ** Operation information *)
#[local] Opaque encode_items.

Lemma encode_async_info_ok n ci xi :
  1 <= n <= MaxApplicationDataFragmentLength ->
  encodeAsyncDataInfo n ci xi =
    Ok (fields_bytes [("reserved", FUint16BE 0); ("dataLength", FUint16BE n);
          ("reserved2", FBytes (zeros 24)); ("communicationIndex", FUint16BE ci);
          ("connectionIndex", FUint16BE xi)]).
Proof.
  unfold MaxApplicationDataFragmentLength. intros H. unfold encodeAsyncDataInfo, MaxApplicationDataFragmentLength.
  case_tests; try lia. unfold uint16. rewrite (Z.mod_small n) by lia.
  apply encode_items_ok; [done|]. fields_len.
Qed.

Lemma encode_async_info_range n ci xi b :
  encodeAsyncDataInfo n ci xi = Ok b -> 1 <= n <= MaxApplicationDataFragmentLength.
Proof.
  unfold encodeAsyncDataInfo. destruct (Z.ltb_spec n 1); [discriminate|].
  destruct (Z.ltb_spec MaxApplicationDataFragmentLength n); [discriminate|]. lia.
Qed.

(** Streamed records carry [DataOperationInfo] as their 32-byte block. *)
#[export] Instance data_op_codec : BlockCodec DataOperationInfo := {
  blk_width := 32;
  blk_encode i := encodeAsyncDataInfo (do_DataLength i) (do_CommunicationIndex i) (do_ConnectionIndex i);
  blk_decode := DecodeAsyncDataInfo;
  blk_typed i := is_u16 (do_CommunicationIndex i) /\ is_u16 (do_ConnectionIndex i);
  blk_norm := id;
}.

#[export] Instance data_op_laws : BlockCodecLaws DataOperationInfo.
Proof.
  split; intros i b; cbn [blk_encode blk_decode blk_typed blk_norm blk_width data_op_codec].
  - intros H. pose proof (encode_async_info_range _ _ _ _ H) as Hr. rewrite encode_async_info_ok in H by done.
    apply Ok_inj in H as <-. fields_len.
  - intros [H1 H2] H. pose proof (encode_async_info_range _ _ _ _ H) as Hr.
    rewrite encode_async_info_ok in H by done. apply Ok_inj in H as <-.
    unfold MaxApplicationDataFragmentLength in Hr.
    assert (is_u16 (do_DataLength i)) by (unfold is_u16; lia).
    assert (is_u16 0) by (unfold is_u16; lia).
    unfold DecodeAsyncDataInfo, DecodeDataOperationInfo.
    rewrite (proj2 (Z.eqb_eq _ 32)) by fields_len. cbn [negb].
    match goal with |- mbind _ (run ?m ?s) = _ =>
      assert (run m s = Ok i) as -> end.
    { open_record. rstep. rewrite step_guard by done. do 2 rstep.
      rewrite step_guard by (unfold zeros; by apply existsb_replicate_false). do 3 rstep. by destruct i. }
    cbn [mbind outcome_bind]. unfold MaxApplicationDataFragmentLength. case_tests; try lia. done.
Qed.

Lemma extended_indices_ok ci xi :
  exists op, EncodeExtendedInfo (mkExtendedInfo [] [] [] 0 0 ci xi) = Ok op.
Proof.
  eexists. unfold EncodeExtendedInfo. apply encode_items_ok; reflexivity.
Qed.

Lemma outgoing_info_ok fc n ci xi :
  (fc = FuncAsyncSendData \/ fc = FuncSendData -> 1 <= n <= MaxApplicationDataFragmentLength) ->
  exists op, outgoingOperationInfo fc n ci xi = Ok op /\ zlen op = 32.
Proof.
  intros H. unfold outgoingOperationInfo. case_tests.
  1-3: rewrite encode_async_info_ok by (apply H; lia); eexists; split; [done|fields_len].
  destruct (extended_indices_ok ci xi) as [op E]. exists op. split; [done|].
  exact (blk_encode_width (A := ExtendedInfo) _ _ E).
Qed.

(** ** Plans *)

(** [fragmentIndex] is a synchronous barrier of a streamed message. *)
Definition sync_index (i : Z) : bool := (21 <=? i) && (i mod 21 =? 0).

Lemma semantics_cases i n :
  0 <= i < n ->
  outgoingFragmentSemantics i n =
    if n =? 1 then mkFragmentSemantics FuncSapSend true 5 0x0c 8
    else if i =? n - 1 then mkFragmentSemantics FuncReceive true 1 0 0
    else if sync_index i then mkFragmentSemantics FuncSendData false 1 0 0
    else mkFragmentSemantics FuncAsyncSendData false 0 0 0.
Proof.
  intros H. unfold outgoingFragmentSemantics, sync_index, MaxAsyncSendsBeforeSync.
  destruct (Z.eqb_spec n 1) as [->|Hn]; [done|]. destruct (Z.eqb_spec i (n - 1)); [done|].
  cbn [negb orb andb]. destruct (Z.leb_spec 21 i); [|done]. cbn [andb].
  rewrite Z.rem_mod_nonneg by lia. replace (i - 21) with (i + (-1) * 21) by lia.
  rewrite Z.mod_add by lia. by destruct (i mod 21 =? 0).
Qed.

(** The fragment a successful plan holds at index [i]. *)
Definition planned (input : OutgoingDataPlanInput) (n : Z) (conv sap : bytes) (i : Z) : OutgoingDataFragment :=
  let sem := outgoingFragmentSemantics i n in
  mkOutgoingDataFragment (op_Header input) (fs_functionCode sem) i n conv
    (u32or (in_SequenceNumber (op_Header input)) 0)
    (take (Z.to_nat 28000) (drop (Z.to_nat (i * 28000)) (op_ApplicationData input)))
    sap (zlen (op_ApplicationData input)) (op_CommunicationIndex input) (op_ConnectionIndex input)
    (fs_isFinal sem) (fs_info sem) (fs_vector sem) (fs_sapParameterLength sem).

(** The two shapes of plan. *)
Inductive plan_shape (input : OutgoingDataPlanInput) : Z -> bytes -> Prop :=
| compact_plan sap :
    op_FinalSapParameters input = Some sap -> zlen sap = 8 ->
    validateFinalSapParameters sap (zlen (op_ApplicationData input)) = Ok tt ->
    zlen (op_ApplicationData input) <= 28000 -> plan_shape input 1 sap
| streamed_plan n :
    op_FinalSapParameters input = None -> 28000 < zlen (op_ApplicationData input) ->
    (n - 2) * 28000 < zlen (op_ApplicationData input) <= (n - 1) * 28000 -> 3 <= n ->
    plan_shape input n [].

Lemma plan_fragment_ok input single n conv sap i :
  plan_shape input n sap -> single = not_nil (op_FinalSapParameters input) -> 0 <= i < n ->
  plan_fragment input single n conv sap i = Ok (planned input n conv sap i).
Proof.
  intros Hs -> Hi. unfold plan_fragment, planned. pose proof (zlen_nonneg (op_ApplicationData input)).
  unfold MaxApplicationDataFragmentLength.
  set (L := zlen (op_ApplicationData input)) in *.
  set (sem := outgoingFragmentSemantics i n).
  set (start := if L <? i * 28000 then L else i * 28000).
  set (end_ := if negb (fs_functionCode sem =? FuncReceive) then _ else start).
  assert (0 <= start <= end_ /\ end_ <= L /\
          take (Z.to_nat (end_ - start)) (drop (Z.to_nat start) (op_ApplicationData input))
          = take (Z.to_nat 28000) (drop (Z.to_nat (i * 28000)) (op_ApplicationData input))) as (H1 & H2 & H3).
  { assert ((fs_functionCode sem =? FuncReceive) = true -> L <= i * 28000) as Hrecv.
    { subst sem. rewrite semantics_cases by lia. inversion Hs; subst; cbn; [done|].
      destruct (Z.eqb_spec n 1); [lia|]. destruct (Z.eqb_spec i (n - 1)); [intros; subst L; lia|].
      by destruct (sync_index i). }
    destruct (fs_functionCode sem =? FuncReceive); cbn [negb] in end_.
    - specialize (Hrecv eq_refl). subst start end_. split; [case_tests; lia|]. split; [case_tests; lia|].
      rewrite Z.sub_diag. rewrite (drop_ge _ (Z.to_nat (i * 28000))) by (subst L; len_lia). done.
    - subst end_ start. destruct (Z.ltb_spec L (i * 28000)).
      + destruct (Z.ltb_spec L (L + 28000)); [|lia]. split_and!; try lia.
        rewrite Z.sub_diag, (drop_ge _ (Z.to_nat (i * 28000))) by (subst L; len_lia). done.
      + destruct (Z.ltb_spec L (i * 28000 + 28000)); (split_and!; [lia|lia|lia|]).
        * rewrite !take_ge; [done|subst L; len_lia|subst L; len_lia].
        * f_equal. lia. }
  rewrite go_slice_ok by done. rewrite H3. cbn [mbind outcome_bind]. do 2 f_equal.
  inversion Hs as [sap' E|n' E]; subst; rewrite E; done.
Qed.

Definition plan_conversation (input : OutgoingDataPlanInput) : bytes :=
  default (zeros 8) (in_ConversationID (op_Header input)).

Lemma plan_final_sap_inv input sap :
  plan_final_sap input = Ok sap ->
  (op_FinalSapParameters input = Some sap /\ zlen sap = 8 /\
   validateFinalSapParameters sap (zlen (op_ApplicationData input)) = Ok tt /\
   zlen (op_ApplicationData input) <= 28000) \/
  (op_FinalSapParameters input = None /\ sap = [] /\ 28000 < zlen (op_ApplicationData input)).
Proof.
  unfold plan_final_sap, FinalSapParameterLength, MaxApplicationDataFragmentLength.
  destruct (op_FinalSapParameters input) as [p|].
  - destruct (Z.eqb_spec (zlen p) 8); [|discriminate]. cbn [negb].
    destruct (validateFinalSapParameters p _) as [[]| |] eqn:E; try discriminate. cbn [mbind outcome_bind].
    destruct (Z.ltb_spec 28000 (zlen (op_ApplicationData input))); [discriminate|].
    intros Hp%Ok_inj. subst p. left. done.
  - destruct (Z.leb_spec (zlen (op_ApplicationData input)) 28000); [discriminate|].
    intros <-%Ok_inj. right. done.
Qed.

Lemma streamed_count L :
  28000 < L -> let n := Z.quot (L + 28000 - 1) 28000 + 1 in
  (n - 2) * 28000 < L <= (n - 1) * 28000 /\ 3 <= n.
Proof.
  intros HL n. subst n. rewrite Z.quot_div_nonneg by lia.
  assert (28000 <> 0) as Hnz by lia. assert (0 < 28000) as Hp by lia.
  pose proof (Z.div_mod (L + 28000 - 1) 28000 Hnz) as Hd.
  pose proof (Z.mod_pos_bound (L + 28000 - 1) 28000 Hp) as Hb. lia.
Qed.

Lemma plan_limits_inv options a f c :
  plan_limits options = Ok (a, f, c) -> 0 <= a <= MaxOutgoingMessageLength.
Proof.
  unfold plan_limits. set (m := match MaxApplicationDataLength options with Some v => v | None => _ end).
  destruct (Z.ltb_spec m 0); [discriminate|]. destruct (Z.ltb_spec MaxOutgoingMessageLength m); [discriminate|].
  cbn [orb]. destruct (_ <? 1); [discriminate|]. destruct (negb _ && negb _); [discriminate|].
  intros [= <- _ _]. lia.
Qed.

(** What the planner requires: the limits, a shape, the streaming policy and the
    width of the conversation identifier. *)
Record plannable (input : OutgoingDataPlanInput) (options : OutgoingDataPlannerOptions)
    (n : Z) (sap : bytes) : Prop := {
  pl_shape : plan_shape input n sap;
  pl_conversation : zlen (plan_conversation input) = 8;
  pl_limits : exists a f c,
    plan_limits options = Ok (a, f, c) /\ zlen (op_ApplicationData input) <= a /\ n <= f /\
    (op_FinalSapParameters input = None -> c = StreamingEnabled);
}.

Lemma plan_sound input options frs :
  PlanOutgoingDataFragments input options = Ok frs ->
  exists n sap, plannable input options n sap /\
    frs = map (planned input n (plan_conversation input) sap) (seqZ 0 n).
Proof.
  unfold PlanOutgoingDataFragments.
  destruct (plan_limits options) as [[[a f] c]| |] eqn:El; try discriminate.
  cbn [mbind outcome_bind]. set (L := zlen (op_ApplicationData input)).
  destruct (Z.ltb_spec a L); [discriminate|].
  destruct (plan_final_sap input) as [sap| |] eqn:Es; try discriminate. apply plan_final_sap_inv in Es.
  cbn [mbind outcome_bind]. unfold MaxApplicationDataFragmentLength.
  set (single := not_nil (op_FinalSapParameters input) && (L <=? 28000)).
  destruct (negb single && negb _) eqn:Est; [discriminate|].
  set (n := if negb single then _ else 1). destruct (Z.ltb_spec f n); [discriminate|].
  change (match in_ConversationID (op_Header input) with Some id => id | None => zeros 8 end)
    with (plan_conversation input).
  destruct (Z.eqb_spec (zlen (plan_conversation input)) 8); [|discriminate]. cbn [negb].
  destruct (outgoingOperationInfo _ _ _ _) as [pre| |]; try discriminate. cbn [mbind outcome_bind].
  destruct (encodeRecord _ _ _ _ _ _) as [rec| |]; try discriminate. cbn [mbind outcome_bind].
  assert (plan_shape input n sap /\ single = not_nil (op_FinalSapParameters input)) as [Hshape Hsingle].
  { subst n single. fold L in Es. destruct Es as [(E & H8 & Hv & Hle)|(E & -> & Hlt)]; rewrite E; cbn [not_nil andb].
    - destruct (Z.leb_spec L 28000); [|lia]. split; [|done]. by apply compact_plan.
    - split; [|done]. cbn [negb]. destruct (streamed_count L Hlt). by apply streamed_plan. }
  rewrite (mapM_all_ok _ (planned input n (plan_conversation input) sap)).
  - intros <-%Ok_inj. exists n, sap. split; [|done]. split; [done|done|].
    exists a, f, c. split_and!; [done|done|done|]. intros En. revert Est. rewrite Hsingle, En. cbn [not_nil negb andb].
    intros Hne%negb_false_iff. by apply String.eqb_eq in Hne.
  - apply Forall_forall. intros i Hi. apply elem_of_seqZ in Hi. apply plan_fragment_ok; [done|done|lia].
Qed.

Lemma plan_inv input options frs :
  PlanOutgoingDataFragments input options = Ok frs ->
  exists n sap,
    plan_shape input n sap /\ zlen (plan_conversation input) = 8 /\
    zlen (op_ApplicationData input) <= MaxOutgoingMessageLength /\
    frs = map (planned input n (plan_conversation input) sap) (seqZ 0 n).
Proof.
  intros (n & sap & [Hs H8 (a & f & c & Hl & Ha & _)] & ->)%plan_sound. apply plan_limits_inv in Hl.
  exists n, sap. split_and!; [done|done|lia|done].
Qed.

(** The converse: a message of one of the two shapes, within the limits, is planned. *)
Lemma plan_complete input options a f c n sap :
  plan_limits options = Ok (a, f, c) -> zlen (op_ApplicationData input) <= a ->
  plan_shape input n sap -> n <= f -> (op_FinalSapParameters input = None -> c = StreamingEnabled) ->
  zlen (plan_conversation input) = 8 ->
  PlanOutgoingDataFragments input options
  = Ok (map (planned input n (plan_conversation input) sap) (seqZ 0 n)).
Proof.
  intros El Ha Hs Hf Hc H8. unfold PlanOutgoingDataFragments. rewrite El. cbn [mbind outcome_bind].
  unfold MaxApplicationDataFragmentLength, plan_final_sap, FinalSapParameterLength.
  destruct (Z.ltb_spec a (zlen (op_ApplicationData input))); [lia|].
  change (match in_ConversationID (op_Header input) with Some id => id | None => zeros 8 end)
    with (plan_conversation input). rewrite H8.
  assert (forall single, single = not_nil (op_FinalSapParameters input) ->
    mapM (plan_fragment input single n (plan_conversation input) sap) (seqZ 0 n)
    = Ok (map (planned input n (plan_conversation input) sap) (seqZ 0 n))) as Hmap.
  { intros single Hsg. apply mapM_all_ok, Forall_forall. intros i Hi. apply elem_of_seqZ in Hi.
    apply plan_fragment_ok; [done|done|lia]. }
  inversion Hs as [sap' E Hl8 Hv Hle|n' E Hlt Hb Hn]; subst; rewrite E in *.
  - rewrite Hl8. cbn [Z.eqb Pos.eqb negb]. rewrite Hv. cbn [mbind outcome_bind].
    unfold MaxApplicationDataFragmentLength.
    destruct (Z.ltb_spec 28000 (zlen (op_ApplicationData input))); [lia|]. cbn [mbind outcome_bind not_nil andb].
    destruct (Z.leb_spec (zlen (op_ApplicationData input)) 28000); [|lia]. cbn [negb andb].
    destruct (Z.ltb_spec f 1); [lia|].
    destruct (outgoing_info_ok FuncSapSend (zlen (op_ApplicationData input) + zlen sap)
      (op_CommunicationIndex input) (op_ConnectionIndex input)) as (op & -> & Hop); [intros [?|?]; discriminate|].
    cbn [mbind outcome_bind]. rewrite encodeRecord_ok by (done || lia). cbn [mbind outcome_bind].
    by apply Hmap.
  - unfold MaxApplicationDataFragmentLength.
    destruct (Z.leb_spec (zlen (op_ApplicationData input)) 28000); [lia|]. cbn [mbind outcome_bind not_nil andb negb].
    rewrite (Hc eq_refl). cbn [String.eqb negb]. change (String.eqb StreamingEnabled StreamingEnabled) with true.
    cbn [negb]. destruct (streamed_count _ Hlt) as [Hb' Hn'].
    assert (Z.quot (zlen (op_ApplicationData input) + 28000 - 1) 28000 + 1 = n) as -> by lia.
    destruct (Z.ltb_spec f n); [lia|]. cbn [Z.eqb Pos.eqb negb].
    destruct (Z.ltb_spec 28000 (zlen (op_ApplicationData input))); [|lia].
    destruct (outgoing_info_ok FuncAsyncSendData 28000
      (op_CommunicationIndex input) (op_ConnectionIndex input)) as (op & -> & Hop);
      [unfold MaxApplicationDataFragmentLength; lia|].
    cbn [mbind outcome_bind]. rewrite encodeRecord_ok by (done || lia). cbn [mbind outcome_bind].
    by apply Hmap.
Qed.

(** A message is planned exactly when it is a compact message with valid final parameters or
    a longer one with streaming enabled, within the limits of the options and with an eight-
    byte conversation identifier. *)
Theorem plan_accepts input options :
  (exists frs, PlanOutgoingDataFragments input options = Ok frs) <->
  exists n sap, plannable input options n sap.
Proof.
  split.
  - intros (frs & (n & sap & H & _)%plan_sound). by exists n, sap.
  - intros (n & sap & [Hs H8 (a & f & c & Hl & Ha & Hn & Hc)]). eexists. by eapply plan_complete.
Qed.


Lemma plan_shape_covers input n sap :
  plan_shape input n sap -> 1 <= n /\ zlen (op_ApplicationData input) <= n * 28000.
Proof. intros []; lia. Qed.

Lemma seqZ_0 n : seqZ 0 n = map Z.of_nat (seq 0 (Z.to_nat n)).
Proof. unfold seqZ. apply map_ext. intros i. lia. Qed.

Lemma planned_data input n sap :
  plan_shape input n sap ->
  concat (map (fun i => take (Z.to_nat 28000) (drop (Z.to_nat (i * 28000)) (op_ApplicationData input)))
            (seqZ 0 n)) = op_ApplicationData input.
Proof.
  intros [Hn Hl]%plan_shape_covers. rewrite seqZ_0, map_map.
  rewrite (map_ext _ (fun i => take (Z.to_nat 28000) (drop (i * Z.to_nat 28000) (op_ApplicationData input)))).
  - rewrite concat_slices. apply take_ge. rewrite <- Z2Nat.inj_mul by lia. len_lia.
  - intros i. do 2 f_equal. rewrite Z2Nat.inj_mul by lia. by rewrite Nat2Z.id.
Qed.

(** The steps of a plan carry exactly the message in order, each at most 28,000 bytes, are
    numbered from zero with the right total, and only the last one is final. *)
Theorem plan_carries_message input options frs :
  PlanOutgoingDataFragments input options = Ok frs ->
  concat (map of_ApplicationData frs) = op_ApplicationData input /\
  Forall (fun f => zlen (of_ApplicationData f) <= MaxApplicationDataFragmentLength /\
                   of_FragmentCount f = zlen frs /\
                   of_MessageApplicationDataLength f = zlen (op_ApplicationData input)) frs /\
  (forall i f, frs !! i = Some f -> of_FragmentIndex f = Z.of_nat i /\
     (of_IsFinal f = true <-> Z.of_nat i = zlen frs - 1)).
Proof.
  intros (n & sap & Hs & Hc & Hm & ->)%plan_inv. pose proof (plan_shape_covers _ _ _ Hs) as [Hn Hl].
  assert (zlen (map (planned input n (plan_conversation input) sap) (seqZ 0 n)) = n) as Hlen.
  { unfold zlen. rewrite length_map, length_seqZ. lia. }
  split_and!.
  - rewrite map_map. by apply planned_data with (sap := sap).
  - rewrite Hlen. apply Forall_forall. intros f (i & -> & Hi)%list_elem_of_fmap. cbn. split_and!; try done.
    unfold MaxApplicationDataFragmentLength. len_lia.
  - rewrite Hlen. intros i f H. apply list_lookup_fmap_Some in H as (j & -> & H).
    apply lookup_seqZ in H as [-> Hi]. unfold planned. cbn [of_FragmentIndex of_IsFinal].
    split; [done|]. rewrite semantics_cases by lia.
    destruct (Z.eqb_spec n 1) as [->|]; cbn [fs_isFinal]; [split; [lia|done]|].
    destruct (Z.eqb_spec (0 + Z.of_nat i) (n - 1)); cbn [fs_isFinal]; [split; [lia|done]|].
    destruct (sync_index _); cbn [fs_isFinal]; split; (discriminate || lia).
Qed.

Definition sample_message : bytes := replicate (Z.to_nat 28001) x41.
Definition sample_plan_input : OutgoingDataPlanInput :=
  mkOutgoingDataPlanInput no_overrides sample_message None 0 1.
Definition sample_plan_options : OutgoingDataPlannerOptions :=
  mkOutgoingDataPlannerOptions None None StreamingEnabled.

(** ** Encoding the steps of a plan *)

(** The record of a step, given its operation-information block. *)
Definition step_record (f : OutgoingDataFragment) (op : bytes) : bytes :=
  fields_bytes (header_fields (record_header (of_FunctionCode f) (headerInput f) (of_SapParameterLength f)))
  ++ op ++ of_ApplicationData f ++ of_FinalSapParameters f.

(** The lengths of the slice a planned step carries. *)
Lemma planned_slice_len input n sap i :
  plan_shape input n sap -> 0 <= i < n ->
  let d := take (Z.to_nat 28000) (drop (Z.to_nat (i * 28000)) (op_ApplicationData input)) in
  zlen d <= 28000 /\ (1 < n -> i < n - 1 -> 1 <= zlen d) /\ (1 < n -> i = n - 1 -> d = []).
Proof.
  intros Hs Hi d. split; [subst d; len_lia|].
  split; intros Hn Hl; inversion Hs as [|n' E Hlt Hb]; subst; try lia.
  - subst d. len_lia.
  - subst d. rewrite drop_ge by len_lia. apply take_nil.
Qed.

(** Every planned step passes the encoder's check of its data. *)
Lemma planned_data_ok input n conv sap i :
  plan_shape input n sap -> 0 <= i < n -> check_fragment_data (planned input n conv sap i) = Ok tt.
Proof.
  intros Hs Hi. destruct (planned_slice_len _ _ _ _ Hs Hi) as (H1 & H2 & H3).
  unfold check_fragment_data, planned, MaxApplicationDataFragmentLength.
  cbn [of_FunctionCode of_FragmentCount of_ApplicationData of_FinalSapParameters
       of_MessageApplicationDataLength].
  set (d := take _ _) in *. rewrite semantics_cases by lia.
  inversion Hs as [sap' E H8 Hv Hle|n' E Hlt Hb Hn]; subst.
  - cbn [Z.eqb Pos.eqb]. destruct (Z.ltb_spec 28000 (zlen d)); [lia|]. by rewrite Hv.
  - destruct (Z.eqb_spec n 1); [lia|]. destruct (Z.eqb_spec i (n - 1)); cbn [fs_functionCode].
    + rewrite H3 by lia. reflexivity.
    + assert (1 <= zlen d) by (apply H2; lia).
      destruct (sync_index i); cbn [fs_functionCode]; unfold FuncSendData, FuncAsyncSendData;
        cbn [Z.eqb Pos.eqb orb]; destruct (Z.ltb_spec (zlen d) 1); [lia| |lia|];
        (destruct (Z.ltb_spec 28000 (zlen d)); [lia|reflexivity]).
Qed.

(** The operation-information block of a planned step. *)
Lemma planned_op_info input n conv sap i :
  plan_shape input n sap -> 0 <= i < n ->
  let f := planned input n conv sap i in
  exists op,
    (if (of_FunctionCode f =? FuncReceive) && (1 <? n)
     then encodeAsyncDataInfo 28000 (of_CommunicationIndex f) (of_ConnectionIndex f)
     else outgoingOperationInfo (of_FunctionCode f) (zlen (of_ApplicationData f))
            (of_CommunicationIndex f) (of_ConnectionIndex f)) = Ok op /\ zlen op = 32.
Proof.
  intros Hs Hi f. destruct (planned_slice_len _ _ _ _ Hs Hi) as (H1 & H2 & H3).
  assert (of_FunctionCode f = fs_functionCode (outgoingFragmentSemantics i n)) as -> by done.
  rewrite semantics_cases by lia. destruct ((_ =? FuncReceive) && (1 <? n)) eqn:E.
  - rewrite encode_async_info_ok by (unfold MaxApplicationDataFragmentLength; lia).
    eexists. split; [done|fields_len].
  - apply outgoing_info_ok. unfold MaxApplicationDataFragmentLength.
    change (of_ApplicationData f)
      with (take (Z.to_nat 28000) (drop (Z.to_nat (i * 28000)) (op_ApplicationData input))).
    intros Hf. split; [|done]. revert Hf E. inversion Hs as [|n' En Hlt Hb Hn]; subst; [intros [?|?]; discriminate|].
    destruct (Z.eqb_spec n 1); [lia|]. destruct (Z.ltb_spec 1 n); [|lia].
    destruct (Z.eqb_spec i (n - 1)); [done|]. intros _ _. apply H2; lia.
Qed.

Lemma planned_encodes input n conv sap i :
  plan_shape input n sap -> zlen conv = 8 -> 0 <= i < n ->
  zlen (op_ApplicationData input) <= MaxOutgoingMessageLength ->
  exists op, zlen op = 32 /\
    EncodeOutgoingDataFragment (planned input n conv sap i) = Ok (step_record (planned input n conv sap i) op).
Proof.
  intros Hs Hc Hi HL. destruct (planned_slice_len _ _ _ _ Hs Hi) as (H1 & H2 & H3).
  pose proof (planned_data_ok input n conv sap i Hs Hi) as Hd.
  assert (zlen sap <= 8) as Hsap by (inversion Hs; subst; [lia|done]).
  unfold EncodeOutgoingDataFragment, SnapshotOutgoingDataFragment, FinalSapParameterLength,
    MaxApplicationDataFragmentLength.
  set (f := planned input n conv sap i) in *.
  assert (of_ConversationID f = conv) as -> by done. rewrite Hc. cbn [Z.eqb Pos.eqb negb].
  destruct (Z.ltb_spec 28000 (zlen (of_ApplicationData f))) as [Hx|_];
    [exfalso; cbn [of_ApplicationData planned f] in Hx; lia|].
  destruct (Z.ltb_spec 8 (zlen (of_FinalSapParameters f))) as [Hx|_];
    [exfalso; cbn [of_FinalSapParameters planned f] in Hx; lia|].
  cbn [mbind outcome_bind].
  assert (of_FragmentCount f = n) as -> by done. assert (of_FragmentIndex f = i) as -> by done.
  assert (of_MessageApplicationDataLength f = zlen (op_ApplicationData input)) as -> by done.
  pose proof (zlen_nonneg (op_ApplicationData input)) as H0.
  destruct (Z.ltb_spec n 1); [lia|]. destruct (Z.ltb_spec i 0); [lia|]. destruct (Z.leb_spec n i); [lia|].
  destruct (Z.ltb_spec (zlen (op_ApplicationData input)) 0); [lia|].
  destruct (Z.ltb_spec MaxOutgoingMessageLength (zlen (op_ApplicationData input))); [lia|]. cbn [orb].
  assert (of_FunctionCode f = fs_functionCode (outgoingFragmentSemantics i n)) as Ef by done.
  assert (of_IsFinal f = fs_isFinal (outgoingFragmentSemantics i n)) as -> by done.
  assert (of_Info f = fs_info (outgoingFragmentSemantics i n)) as -> by done.
  assert (of_Vector f = fs_vector (outgoingFragmentSemantics i n)) as -> by done.
  assert (of_SapParameterLength f = fs_sapParameterLength (outgoingFragmentSemantics i n)) as -> by done.
  rewrite (proj2 (Z.eqb_eq _ _) Ef), !Z.eqb_refl, Bool.eqb_reflx. cbn [negb orb]. rewrite Hd. cbn [mbind outcome_bind].
  destruct (planned_op_info input n conv sap i Hs Hi) as (op & Eop & Hop). fold f in Eop.
  rewrite Eop. cbn [mbind outcome_bind]. exists op. split; [done|]. unfold step_record.
  rewrite encodeRecord_ok; [|done|done|].
  - cbn [concat]. by rewrite app_nil_r.
  - rewrite semantics_cases by lia. destruct (n =? 1); [cbn; lia|].
    destruct (i =? n - 1); [cbn; lia|]. destruct (sync_index i); cbn; lia.
Qed.

Lemma planned_header_typed input n conv sap i :
  header_input_typed (op_Header input) -> 0 <= i < n ->
  is_u8 (fs_functionCode (outgoingFragmentSemantics i n)) /\
  header_input_typed (headerInput (planned input n conv sap i)).
Proof.
  intros [H8 H16 H32 Hi32] Hi.
  assert (let s := outgoingFragmentSemantics i n in
          is_u8 (fs_functionCode s) /\ is_u8 (fs_info s) /\ is_u8 (fs_vector s)) as (Hf & H1 & H2).
  { cbv zeta. rewrite semantics_cases by lia.
    destruct (n =? 1), (i =? n - 1), (sync_index i); vm_compute; repeat split; discriminate. }
  split; [done|]. repeat (apply Forall_cons in H8 as [? H8]). repeat (apply Forall_cons in H32 as [? H32]).
  split; cbn; [| |repeat apply Forall_cons_2; try done|done]; try done.
  - repeat apply Forall_cons_2; try done; intros v [= <-]; done.
  - intros v [= <-]. by apply (opt_all_or is_u32).
Qed.

Lemma mapM_exists {A B E} (f : A -> outcome E B) (R : A -> B -> Prop) l :
  (forall x, x ∈ l -> exists y, f x = Ok y /\ R x y) -> exists ys, mapM f l = Ok ys /\ Forall2 R l ys.
Proof.
  induction l as [|x l IH]; intros H; [by exists []|].
  destruct (H x) as (y & Ey & Ry); [left|]. destruct IH as (ys & Es & Rs); [intros; apply H; by right|].
  exists (y :: ys). cbn. rewrite Ey. cbn. rewrite Es. by split; [|constructor].
Qed.

(** Every step of a plan encodes: the records decode to the header of their step, and their
    data concatenates to the message followed by its final parameters. *)
Theorem plan_encodes input options frs :
  PlanOutgoingDataFragments input options = Ok frs -> header_input_typed (op_Header input) ->
  exists recs,
    mapM EncodeOutgoingDataFragment frs = Ok recs /\
    concat (map (drop (Z.to_nat RecordHeaderLength)) recs)
      = op_ApplicationData input ++ default [] (op_FinalSapParameters input) /\
    Forall2 (fun f r => DecodeHeader r
      = Ok (record_header (of_FunctionCode f) (headerInput f) (of_SapParameterLength f))) frs recs.
Proof.
  intros (n & sap & Hs & Hc & Hm & ->)%plan_inv Ht.
  set (conv := plan_conversation input) in *. set (frs := map (planned input n conv sap) (seqZ 0 n)).
  destruct (mapM_exists EncodeOutgoingDataFragment
    (fun f r => DecodeHeader r
                = Ok (record_header (of_FunctionCode f) (headerInput f) (of_SapParameterLength f)) /\
       drop (Z.to_nat RecordHeaderLength) r = of_ApplicationData f ++ of_FinalSapParameters f) frs)
    as (recs & Er & HR).
  { intros f (i & -> & Hi%elem_of_seqZ)%list_elem_of_fmap.
    destruct (planned_encodes input n conv sap i Hs Hc ltac:(lia) Hm) as (op & Hop & E).
    eexists. split; [exact E|]. destruct (planned_header_typed input n conv sap i Ht ltac:(lia)) as [Hf Hh].
    assert (header_ok (record_header (fs_functionCode (outgoingFragmentSemantics i n))
      (headerInput (planned input n conv sap i)) (fs_sapParameterLength (outgoingFragmentSemantics i n)))) as Hok.
    { apply record_header_ok; [done|done| |done]. rewrite semantics_cases by lia.
      destruct (n =? 1), (i =? n - 1), (sync_index i); cbn; lia. }
    split; [by apply decode_header_bytes|]. unfold step_record. rewrite app_assoc.
    rewrite drop_app_length'; [done|]. pose proof (header_bytes_length _ (ho_conv _ Hok)) as Hl.
    change (of_FunctionCode (planned input n conv sap i)) with (fs_functionCode (outgoingFragmentSemantics i n)).
    change (of_SapParameterLength (planned input n conv sap i))
      with (fs_sapParameterLength (outgoingFragmentSemantics i n)).
    rewrite length_app. unfold zlen in Hl, Hop. unfold RecordHeaderLength. lia. }
  exists recs. split; [done|]. split; [|by eapply Forall2_impl; [exact HR|intros ?? [? _]]].
  transitivity (concat (map (fun f => of_ApplicationData f ++ of_FinalSapParameters f) frs)).
  { clear -HR. induction HR as [|f r l l' [_ H] _ IH]; [done|]. cbn. by rewrite H, IH. }
  pose proof (planned_data input n sap Hs) as Hdata. subst frs. rewrite map_map.
  inversion Hs as [sap' E H8 Hv Hle|n' E Hlt Hb Hn]; subst; rewrite E; cbn [default].
  - change (seqZ 0 1) with [0] in Hdata |- *. cbn [map concat] in Hdata |- *.
    rewrite app_nil_r in Hdata. rewrite app_nil_r. cbn [of_ApplicationData of_FinalSapParameters planned].
    by rewrite Hdata.
  - rewrite app_nil_r. etransitivity; [|exact Hdata]. f_equal. apply map_ext. intros i. apply app_nil_r.
Qed.

(** Among any 22 consecutive steps of a plan one is not an asynchronous send: a stream never
    runs more than 21 sends ahead of a synchronisation. *)
Theorem plan_pacing input options frs k :
  PlanOutgoingDataFragments input options = Ok frs ->
  (k + 22 <= length frs)%nat ->
  exists j f, (k <= j < k + 22)%nat /\ frs !! j = Some f /\ of_FunctionCode f <> FuncAsyncSendData.
Proof.
  intros (n & sap & Hs & Hc & Hm & ->)%plan_inv Hk. rewrite length_map, length_seqZ in Hk.
  set (j := (k + 21 - Z.to_nat (Z.of_nat k mod 21))%nat).
  pose proof (Z.mod_pos_bound (Z.of_nat k) 21 ltac:(lia)) as Hmod.
  pose proof (Z.div_mod (Z.of_nat k) 21 ltac:(lia)) as Hdiv.
  exists j, (planned input n (plan_conversation input) sap (Z.of_nat j)).
  assert (k <= j < k + 22)%nat as Hj by lia. split; [done|]. split.
  - apply list_lookup_fmap_Some. exists (Z.of_nat j). split; [done|]. apply lookup_seqZ. lia.
  - cbn [of_FunctionCode planned]. rewrite semantics_cases by lia.
    assert (sync_index (Z.of_nat j) = true) as ->.
    { unfold sync_index. apply andb_true_intro. split; [apply Z.leb_le; lia|]. apply Z.eqb_eq.
      replace (Z.of_nat j) with ((Z.of_nat k / 21 + 1) * 21) by lia. apply Z.mod_mul. lia. }
    destruct (n =? 1), (Z.of_nat j =? n - 1); cbn; discriminate.
Qed.

Lemma plan_carries_message_witness :
  exists frs, PlanOutgoingDataFragments sample_plan_input sample_plan_options = Ok frs /\
    concat (map of_ApplicationData frs) = sample_message.
Proof.
  destruct (PlanOutgoingDataFragments sample_plan_input sample_plan_options) as [frs| |] eqn:E;
    [|vm_compute in E; discriminate..].
  exists frs. split; [reflexivity|]. apply (plan_carries_message sample_plan_input sample_plan_options frs E).
Defined.

Lemma plan_encodes_witness :
  exists frs recs, PlanOutgoingDataFragments sample_plan_input sample_plan_options = Ok frs /\
    mapM EncodeOutgoingDataFragment frs = Ok recs /\
    concat (map (drop (Z.to_nat RecordHeaderLength)) recs) = sample_message ++ [].
Proof.
  destruct (PlanOutgoingDataFragments sample_plan_input sample_plan_options) as [frs| |] eqn:E;
    [|vm_compute in E; discriminate..].
  destruct (plan_encodes sample_plan_input sample_plan_options frs E no_overrides_typed)
    as (recs & H1 & H2 & _).
  exists frs, recs. split; [reflexivity|]. split; [exact H1|exact H2].
Defined.

(** A message of 22 slices: its plan has 23 steps. *)
Definition long_plan_input : OutgoingDataPlanInput :=
  mkOutgoingDataPlanInput no_overrides (replicate (Z.to_nat 588001) x41) None 0 1.

Lemma long_plan_ok :
  PlanOutgoingDataFragments long_plan_input sample_plan_options
  = Ok (map (planned long_plan_input 23 (zeros 8) []) (seqZ 0 23)).
Proof.
  assert (zlen (op_ApplicationData long_plan_input) = 588001) as HL by (cbn [op_ApplicationData long_plan_input]; len_lia).
  apply (plan_complete long_plan_input sample_plan_options 1400000 65536 StreamingEnabled);
    [reflexivity|lia| |lia|done|done]. apply streamed_plan; [done|lia|lia|lia].
Qed.

Lemma plan_pacing_witness :
  exists j f, map (planned long_plan_input 23 (zeros 8) []) (seqZ 0 23) !! j = Some f /\ (j < 22)%nat /\
    of_FunctionCode f <> FuncAsyncSendData.
Proof.
  set (frs := map (planned long_plan_input 23 (zeros 8) []) (seqZ 0 23)).
  assert (0 + 22 <= length frs)%nat as Hl by (subst frs; rewrite length_map, length_seqZ; lia).
  destruct (plan_pacing long_plan_input sample_plan_options frs 0 long_plan_ok Hl) as (j & f & Hj & H1 & H2).
  exists j, f. split; [exact H1|]. split; [lia|exact H2].
Defined.
