(* ===== verification/AppcConversation.v ===== *)
(** Package [appc], internal/appc/conversation.go: decoding data records and
    acknowledgements, the client-side setup state machine, and the decoder that
    reassembles RFC application messages from F_SAP_SEND/F_RECEIVE records.

    The theorems: the decoder's invariant over every sequence of pushes, with its
    limits on what it buffers; reassembly of an encoded record sequence; the canonical
    acknowledgement; the order of the setup events on every run of the state machine,
    and the effect of a refused call. *)
From stdpp Require Import base list numbers strings relations.
From Stdlib Require Import ZArith Lia Strings.Byte.
From S2P Require Import Prelude Errors Wire Appc AppcRecords AppcFragmentation.

Open Scope Z_scope.

Record DataFragment : Type := mkDataFragment {
  df_Header : Header;
  df_Data : bytes;
  df_IsFinal : bool;
}.

Definition DecodeDataFragment (payload : bytes) : res DataFragment :=
  if zlen payload <? RecordHeaderLength then Err (EAppc APPC_ErrRange)
  else
    header ← DecodeHeader payload;
    if negb (h_FunctionCode header =? FuncSapSend) && negb (h_FunctionCode header =? FuncReceive)
    then Err (EAppc APPC_ErrProtocol)
    else
      data ← go_from payload RecordHeaderLength;
      Ok (mkDataFragment header data (negb (Z.land (h_Vector header) VectorEndOfMessage =? 0))).

Record SynchronousSendAcknowledgement : Type := mkSynchronousSendAcknowledgement {
  ack_Header : Header;
  ack_ConnectionIndex : Z;
}.

Definition canonical_ack_header (header : Header) : bool :=
  negb (negb (h_FunctionCode header =? FuncSendData)
    || negb (h_Protocol header =? 2)
    || negb (h_Mode header =? 0)
    || negb (h_UID header =? 0xffff)
    || negb (h_GatewayID header =? 0)
    || negb (h_ErrorLength header =? 0)
    || negb (h_Info2 header =? 0)
    || negb (h_TraceLevel header =? 0)
    || negb (h_Time header =? 0)
    || negb (h_Info3 header =? 0)
    || negb (h_Timeout header =? 0)
    || negb (h_Info4 header =? 2)
    || negb (h_SequenceNumber header =? 0)
    || negb (h_Info header =? 1)
    || negb (h_Vector header =? 0)
    || negb (h_SapParameterLen header =? 0)
    || negb (h_Padding header =? 0)
    || negb (h_AppcReturnCode header =? 0)
    || negb (h_SapReturnCode header =? 0)).

Definition DecodeSynchronousSendAcknowledgement (payload : bytes) : res SynchronousSendAcknowledgement :=
  if negb (zlen payload =? RecordHeaderLength) then Err (EAppc APPC_ErrRange)
  else
    header ← DecodeHeader payload;
    if negb (canonical_ack_header header) then Err (EAppc APPC_ErrProtocol)
    else
      encodedOperationInfo ← go_slice payload CommonHeaderLength RecordHeaderLength;
      operationInfo ← DecodeIncomingDataOperationInfo encodedOperationInfo;
      head ← go_slice encodedOperationInfo 0 30;
      if existsb (fun b => negb (b2z b =? 0)) head then Err (EAppc APPC_ErrProtocol)
      else if negb (io_DataLength operationInfo =? 0) || negb (io_CommunicationIndex operationInfo =? 0)
      then Err (EAppc APPC_ErrProtocol)
      else Ok (mkSynchronousSendAcknowledgement header (io_ConnectionIndex operationInfo)).

(** ** The setup state machine *)
Inductive ClientSetupState : Type :=
| StateNew
| StateInitializePending
| StateInitialized
| StateTpSet
| StatePartnerSet
| StateAllocatePending
| StateSendContinuation
| StateSendBarrierPending
| StateResponsePending
| StateReady
| StateClosed.

#[export] Instance setup_state_eqdec : EqDecision ClientSetupState.
Proof. solve_decision. Defined.

Definition state_eqb (a b : ClientSetupState) : bool := bool_decide (a = b).

Inductive ReceiveDisposition : Type :=
| DispositionAccepted
| DispositionNormalDeallocation.

Module ClientSetup.
(** The machine is its [state] field. *)
Definition NewClientSetupStateMachine : ClientSetupState := StateNew.

Definition ResponseComplete : M ClientSetupState unit :=
  state ← get;
  if negb (state_eqb state StateResponsePending)
  then put StateClosed;; fail (EAppc APPC_ErrState)
  else put StateReady.

Definition sent_allowed (state : ClientSetupState) (functionCode : Function_) : bool :=
  (state_eqb state StateNew && (functionCode =? FuncInitialize))
  || (state_eqb state StateInitialized
      && ((functionCode =? FuncSetTpName) || (functionCode =? FuncSetPartnerLuName)))
  || (state_eqb state StateTpSet && (functionCode =? FuncSetPartnerLuName))
  || (state_eqb state StatePartnerSet && (functionCode =? FuncAllocate))
  || (state_eqb state StateReady
      && ((functionCode =? FuncSapSend) || (functionCode =? FuncAsyncSendData)
          || (functionCode =? FuncDeallocate)))
  || (state_eqb state StateSendContinuation
      && ((functionCode =? FuncAsyncSendData) || (functionCode =? FuncSendData)
          || (functionCode =? FuncReceive))).

(** The switch at the end of [Sent]. *)
Definition sent_next (state : ClientSetupState) (functionCode : Function_) (isFinalDataRecord : bool)
    : ClientSetupState :=
  if functionCode =? FuncInitialize then StateInitializePending
  else if functionCode =? FuncSetTpName then StateTpSet
  else if functionCode =? FuncSetPartnerLuName then StatePartnerSet
  else if functionCode =? FuncAllocate then StateAllocatePending
  else if functionCode =? FuncAsyncSendData then StateSendContinuation
  else if functionCode =? FuncSapSend then StateResponsePending
  else if functionCode =? FuncSendData then StateSendBarrierPending
  else if functionCode =? FuncReceive then
    if isFinalDataRecord then StateResponsePending else state
  else if functionCode =? FuncDeallocate then StateClosed
  else state.

Definition Sent (functionCode : Function_) (isFinalDataRecord : bool) : M ClientSetupState unit :=
  state ← get;
  if (functionCode =? FuncSapSend) && negb isFinalDataRecord then fail (EAppc APPC_ErrState)
  else if (functionCode =? FuncAsyncSendData) && isFinalDataRecord then fail (EAppc APPC_ErrState)
  else if (functionCode =? FuncSendData) && isFinalDataRecord then fail (EAppc APPC_ErrState)
  else if (functionCode =? FuncReceive) && state_eqb state StateSendContinuation
          && negb isFinalDataRecord then fail (EAppc APPC_ErrState)
  else if negb (sent_allowed state functionCode) then fail (EAppc APPC_ErrState)
  else put (sent_next state functionCode isFinalDataRecord).

Definition received_allowed (state : ClientSetupState) (functionCode : Function_) : bool :=
  (state_eqb state StateInitializePending && (functionCode =? FuncInitialize))
  || (state_eqb state StateAllocatePending && (functionCode =? FuncAllocate))
  || (state_eqb state StateSendBarrierPending && (functionCode =? FuncSendData))
  || (state_eqb state StateResponsePending
      && ((functionCode =? FuncSapSend) || (functionCode =? FuncReceive))).

Definition received_next (state : ClientSetupState) : ClientSetupState :=
  match state with
  | StateInitializePending => StateInitialized
  | StateAllocatePending => StateReady
  | StateSendBarrierPending => StateSendContinuation
  | s => s
  end.

Definition Received (payload : bytes) : M ClientSetupState ReceiveDisposition :=
  if zlen payload <? RecordHeaderLength
  then put StateClosed;; fail (EAppc APPC_ErrRange)
  else
    match DecodeHeader payload with
    | Panic => lift Panic
    | Err err => put StateClosed;; fail err
    | Ok header =>
        state ← get;
        let normalDeallocation :=
          (h_AppcReturnCode header =? returnCodeDeallocatedNormal)
          && (h_SapReturnCode header =? 0)
          && state_eqb state StateResponsePending
          && ((h_FunctionCode header =? FuncSapSend) || (h_FunctionCode header =? FuncReceive)) in
        if normalDeallocation then put StateClosed;; mret DispositionNormalDeallocation
        else if negb (h_AppcReturnCode header =? 0) || negb (h_SapReturnCode header =? 0)
        then put StateClosed;;
             fail (EAppc (PeerReturnCodeError (h_FunctionName header) (h_AppcReturnCode header)
                            (h_SapReturnCode header)))
        else if negb (received_allowed state (h_FunctionCode header))
        then put StateClosed;; fail (EAppc APPC_ErrState)
        else put (received_next state);; mret DispositionAccepted
    end.
End ClientSetup.

(** ** The conversation decoder *)
Record Message : Type := mkMessage {
  m_Data : bytes;
  m_ConversationID : bytes;
  m_SequenceNumber : Z;
  m_FragmentCount : Z;
  m_CommunicationIndex : Z;
  m_ConnectionIndex : Z;
}.

Record ConversationDecoderOptions : Type := mkConversationDecoderOptions {
  co_MaxMessageLength : option Z;
  co_MaxFragments : option Z;
  co_AllowInitialReceive : bool;
  co_ValidateIncomingDataOperationInfo : bool;
}.

Record pendingMessage : Type := mkPendingMessage {
  p_chunks : list bytes;
  p_conversationID : bytes;
  p_sequenceNumber : Z;
  p_byteLength : Z;
  p_fragmentCount : Z;
  p_communicationIndex : Z;
  p_connectionIndex : Z;
}.

Module ConversationDecoder.
Record t : Type := mk {
  maxMessageLength : Z;
  maxFragments : Z;
  allowInitialReceive : bool;
  validateIncomingDataOperationInfo : bool;
  pending : option pendingMessage;
}.

(** [d.pending = p] *)
Definition set_pending (p : option pendingMessage) (d : t) : t :=
  mk (maxMessageLength d) (maxFragments d) (allowInitialReceive d)
    (validateIncomingDataOperationInfo d) p.

Definition NewConversationDecoder (options : ConversationDecoderOptions) : res t :=
  let maxMessageLength := match co_MaxMessageLength options with
                          | Some v => v | None => DefaultMaxMessageLength end in
  let maxFragments := match co_MaxFragments options with
                      | Some v => v | None => DefaultMaxMessageFragments end in
  if maxMessageLength <? 0 then Err (EAppc APPC_ErrRange)
  else if maxFragments <? 1 then Err (EAppc APPC_ErrRange)
  else Ok (mk maxMessageLength maxFragments (co_AllowInitialReceive options)
             (co_ValidateIncomingDataOperationInfo options) None).

Definition BufferedByteLength (d : t) : Z :=
  match pending d with None => 0 | Some p => p_byteLength p end.

Definition FragmentCount (d : t) : Z :=
  match pending d with None => 0 | Some p => p_fragmentCount p end.

Definition concatChunks (chunks : list bytes) : bytes := fold_left (fun out c => out ++ c) chunks [].

Definition singleMessage (header : Header) (data : bytes) (operationInfo : IncomingDataOperationInfo) : Message :=
  mkMessage data (h_ConversationID header) (h_SequenceNumber header) 1
    (io_CommunicationIndex operationInfo) (io_ConnectionIndex operationInfo).

Definition newPending (header : Header) (data : bytes) (operationInfo : IncomingDataOperationInfo)
    : pendingMessage :=
  mkPendingMessage [data] (h_ConversationID header) (h_SequenceNumber header) (zlen data) 1
    (io_CommunicationIndex operationInfo) (io_ConnectionIndex operationInfo).

Definition checkLimits (d : t) (byteLength fragmentCount : Z) : res unit :=
  if maxMessageLength d <? byteLength then Err (EAppc APPC_ErrRange)
  else if maxFragments d <? fragmentCount then Err (EAppc APPC_ErrRange)
  else Ok tt.

Definition matchPending (p : pendingMessage) (header : Header)
    (operationInfo : IncomingDataOperationInfo) : res unit :=
  if negb (bytes_eqb (p_conversationID p) (h_ConversationID header)) then Err (EAppc APPC_ErrProtocol)
  else if negb (p_sequenceNumber p =? h_SequenceNumber header) then Err (EAppc APPC_ErrProtocol)
  else if negb (p_communicationIndex p =? io_CommunicationIndex operationInfo)
          || negb (p_connectionIndex p =? io_ConnectionIndex operationInfo)
  then Err (EAppc APPC_ErrProtocol)
  else Ok tt.

Definition assemblePending (p : pendingMessage) (finalData : bytes) (fragmentCount : Z) : Message :=
  mkMessage (concatChunks (p_chunks p ++ [finalData])) (p_conversationID p) (p_sequenceNumber p)
    fragmentCount (p_communicationIndex p) (p_connectionIndex p).

(** The return-code checks at the head of [push]. *)
Definition check_return_codes (header : Header) (terminalDeallocation : bool) : res unit :=
  if terminalDeallocation then
    guard (negb (h_AppcReturnCode header =? returnCodeDeallocatedNormal)
           || negb (h_SapReturnCode header =? 0)) (EAppc APPC_ErrProtocol)
  else if (h_AppcReturnCode header =? returnCodeDeallocatedNormal) && (h_SapReturnCode header =? 0)
  then Err (EAppc APPC_ErrProtocol)
  else guard (negb (h_AppcReturnCode header =? 0) || negb (h_SapReturnCode header =? 0))
         (EAppc APPC_ErrProtocol).

(** The branch of [push] for data returned with a normal deallocation. *)
Definition push_terminal (header : Header) (data : bytes) (operationInfo : IncomingDataOperationInfo)
    : M t (list Message) :=
  d ← get;
  if zlen data =? 0 then fail (EAppc APPC_ErrNormalDeallocationWithoutData)
  else
    match pending d with
    | None =>
        if (h_FunctionCode header =? FuncReceive) && negb (allowInitialReceive d)
        then fail (EAppc APPC_ErrProtocol)
        else
          lift (checkLimits d (zlen data) 1);;
          mret [singleMessage header data operationInfo]
    | Some p =>
        if negb (h_FunctionCode header =? FuncReceive) then fail (EAppc APPC_ErrProtocol)
        else
          lift (matchPending p header operationInfo);;
          let byteLength := p_byteLength p + zlen data in
          let fragmentCount := p_fragmentCount p + 1 in
          lift (checkLimits d byteLength fragmentCount);;
          put (set_pending None d);;
          mret [assemblePending p data fragmentCount]
    end.

(** A first fragment: a whole message, or the start of a pending one. *)
Definition push_first (header : Header) (fragment : DataFragment)
    (operationInfo : IncomingDataOperationInfo) : M t (list Message) :=
  d ← get;
  lift (checkLimits d (zlen (df_Data fragment)) 1);;
  if df_IsFinal fragment then mret [singleMessage header (df_Data fragment) operationInfo]
  else
    put (set_pending (Some (newPending header (df_Data fragment) operationInfo)) d);;
    mret [].

(** A continuation of the pending message. *)
Definition push_next (p : pendingMessage) (header : Header) (fragment : DataFragment)
    (operationInfo : IncomingDataOperationInfo) : M t (list Message) :=
  d ← get;
  lift (matchPending p header operationInfo);;
  let byteLength := p_byteLength p + zlen (df_Data fragment) in
  let fragmentCount := p_fragmentCount p + 1 in
  lift (checkLimits d byteLength fragmentCount);;
  let p' := mkPendingMessage (p_chunks p ++ [df_Data fragment]) (p_conversationID p)
              (p_sequenceNumber p) byteLength fragmentCount (p_communicationIndex p)
              (p_connectionIndex p) in
  put (set_pending (Some p') d);;
  if negb (df_IsFinal fragment) then mret []
  else
    put (set_pending None d);;
    mret [mkMessage (concatChunks (p_chunks p')) (p_conversationID p') (p_sequenceNumber p')
            (p_fragmentCount p') (p_communicationIndex p') (p_connectionIndex p')].

Definition push (payload : bytes) (terminalDeallocation : bool) : M t (list Message) :=
  d ← get;
  header ← lift (DecodeHeader payload);
  lift (check_return_codes header terminalDeallocation);;
  let isData := (h_FunctionCode header =? FuncSapSend) || (h_FunctionCode header =? FuncReceive) in
  if negb isData then
    match pending d with
    | Some _ => fail (EAppc APPC_ErrProtocol)
    | None =>
        if terminalDeallocation then fail (EAppc APPC_ErrNormalDeallocationWithoutData)
        else mret []
    end
  else
    lift (if RecordHeaderLength <=? zlen payload then
            let incomingDataLength := zlen payload - RecordHeaderLength in
            checkLimits d (BufferedByteLength d + incomingDataLength) (FragmentCount d + 1)
          else Ok tt);;
    fragment ← lift (DecodeDataFragment payload);
    opBytes ← lift (go_slice payload CommonHeaderLength RecordHeaderLength);
    operationInfo ← lift (DecodeIncomingDataOperationInfo opBytes);
    if validateIncomingDataOperationInfo d
       && negb (io_DataLength operationInfo =? zlen (df_Data fragment))
    then fail (EAppc APPC_ErrProtocol)
    else if terminalDeallocation then push_terminal header (df_Data fragment) operationInfo
    else if h_FunctionCode header =? FuncSapSend then
      match pending d with
      | Some _ => fail (EAppc APPC_ErrProtocol)
      | None => push_first header fragment operationInfo
      end
    else
      match pending d with
      | None =>
          if negb (allowInitialReceive d) then fail (EAppc APPC_ErrProtocol)
          else push_first header fragment operationInfo
      | Some p => push_next p header fragment operationInfo
      end.

Definition Push (payload : bytes) : M t (list Message) := push payload false.

Definition PushTerminalDeallocation (payload : bytes) : M t (list Message) := push payload true.

Definition Finish (d : t) : res unit :=
  match pending d with
  | Some _ => Err (EAppc APPC_ErrProtocol)
  | None => Ok tt
  end.
End ConversationDecoder.

(** ** The decoder's invariant *)
Section Decoder.
Import ConversationDecoder.

Record decoder_inv (d : t) : Prop := {
  di_length : 0 <= maxMessageLength d;
  di_fragments : 1 <= maxFragments d;
  di_pending p : pending d = Some p ->
    p_byteLength p = zlen (concat (p_chunks p)) /\ p_fragmentCount p = zlen (p_chunks p) /\
    p_byteLength p <= maxMessageLength d /\ 1 <= p_fragmentCount p <= maxFragments d;
}.

(** The application bytes the decoder holds. *)
Definition held (d : t) : bytes :=
  match pending d with None => [] | Some p => concat (p_chunks p) end.

(** The application bytes a record brings. *)
Definition application_data (payload : bytes) : bytes :=
  match DecodeDataFragment payload with Ok f => df_Data f | _ => [] end.

Definition same_config (d d' : t) : Prop := d' = set_pending (pending d') d.

Definition message_within (d : t) (m : Message) : Prop :=
  zlen (m_Data m) <= maxMessageLength d /\ 1 <= m_FragmentCount m <= maxFragments d.

(** What one push does: on success the bytes held before, followed by the record's,
    are the message's bytes followed by those held after. *)
Definition push_post (d : t) (data : bytes) (r : res (list Message)) (d' : t) : Prop :=
  match r with
  | Ok ms =>
      decoder_inv d' /\ same_config d d' /\ Forall (message_within d) ms /\
      (length ms <= 1)%nat /\ (ms <> [] -> pending d' = None) /\
      held d ++ data = concat (map m_Data ms) ++ held d'
  | Err _ => d' = d
  | Panic => False
  end.

Lemma concat_chunks l : concatChunks l = concat l.
Proof.
  unfold concatChunks. rewrite <- (app_nil_l (concat l)). generalize (@nil byte) as acc.
  induction l as [|c l IH]; intros acc; cbn; [by rewrite app_nil_r|]. by rewrite IH, app_assoc.
Qed.

Lemma incoming_op_eq l :
  zlen l = 32 ->
  DecodeIncomingDataOperationInfo l
  = Ok (mkIncomingDataOperationInfo (be_combine (take 2 (drop 10 l))) (be_combine (take 2 (drop 28 l)))
          (be_combine (take 2 (drop 30 l)))).
Proof.
  intros H. unfold DecodeIncomingDataOperationInfo. rewrite H. cbn [Z.eqb Pos.eqb negb].
  unfold go_from. rewrite H. rewrite !go_slice_ok by lia. cbn [mbind outcome_bind].
  unfold be_uint. rewrite !take_take. case_tests; try len_lia. reflexivity.
Qed.

Lemma incoming_op_ok l : zlen l = 32 -> exists op, DecodeIncomingDataOperationInfo l = Ok op.
Proof. intros H. eexists. by apply incoming_op_eq. Qed.

(** A data record that decodes is at least a record header long and is its header's. *)
Lemma data_fragment_inv payload f :
  DecodeDataFragment payload = Ok f ->
  80 <= zlen payload /\ df_Data f = drop 80 payload /\ DecodeHeader payload = Ok (df_Header f) /\
  df_IsFinal f = negb (Z.land (h_Vector (df_Header f)) VectorEndOfMessage =? 0).
Proof.
  unfold DecodeDataFragment, RecordHeaderLength. destruct (Z.ltb_spec (zlen payload) 80); [discriminate|].
  destruct (DecodeHeader payload) as [h| |]; try discriminate. cbn [mbind outcome_bind].
  destruct (negb _ && negb _); [discriminate|]. unfold go_from. rewrite go_slice_ok by lia.
  cbn [mbind outcome_bind]. intros <-%Ok_inj. cbn. split_and!; try done.
  apply take_ge. len_lia.
Qed.

Lemma data_fragment_no_panic payload : DecodeDataFragment payload <> Panic.
Proof.
  unfold DecodeDataFragment, RecordHeaderLength. destruct (Z.ltb_spec (zlen payload) 80); [discriminate|].
  pose proof (decode_header_no_panic payload). destruct (DecodeHeader payload) as [h| |]; try done.
  cbn [mbind outcome_bind]. destruct (negb _ && negb _); [discriminate|]. unfold go_from.
  rewrite go_slice_ok by lia. discriminate.
Qed.

Lemma check_limits_inv d a b r :
  checkLimits d a b = r -> (r = Ok tt /\ a <= maxMessageLength d /\ b <= maxFragments d) \/ exists e, r = Err e.
Proof. unfold checkLimits. intros <-. case_tests; eauto. Qed.

Lemma match_pending_cases p h op r :
  matchPending p h op = r -> r = Ok tt \/ exists e, r = Err e.
Proof.
  unfold matchPending. intros <-. destruct (negb (bytes_eqb _ _)); [eauto|].
  destruct (negb (_ =? _)); [eauto|]. destruct (_ || _); eauto.
Qed.

(** Step through a lifted check: an error ends the push, success goes on. *)
Ltac limits := match goal with |- context [checkLimits ?d ?a ?b] =>
  let E := fresh "E" in destruct (checkLimits d a b) as [[]| |] eqn:E; apply check_limits_inv in E as [(?&?&?)|[??]];
  try discriminate; [|reflexivity] end.

Lemma inv_clear d : decoder_inv d -> decoder_inv (set_pending None d).
Proof. intros [H1 H2 _]. by split. Qed.

Lemma inv_set d p :
  decoder_inv d -> p_byteLength p = zlen (concat (p_chunks p)) -> p_fragmentCount p = zlen (p_chunks p) ->
  p_byteLength p <= maxMessageLength d -> 1 <= p_fragmentCount p <= maxFragments d ->
  decoder_inv (set_pending (Some p) d).
Proof. intros [H1 H2 _] ????. split; [done|done|]. intros p' [= <-]. done. Qed.

Lemma set_pending_id d : pending d = None -> d = set_pending None d.
Proof. by destruct d; cbn; intros ->. Qed.

Lemma push_first_sound header f op d :
  decoder_inv d -> pending d = None ->
  let '(r, d') := push_first header f op d in push_post d (df_Data f) r d'.
Proof.
  intros Hi Hp. pose proof (di_fragments _ Hi). unfold push_first. munfold.
  limits. destruct (df_IsFinal f); cbv beta iota; unfold push_post, held, same_config.
  - rewrite Hp. cbn. rewrite !app_nil_r.
    split_and!; try done; [by apply set_pending_id|apply Forall_singleton; split; cbn; lia].
  - rewrite Hp. cbn. rewrite !app_nil_r.
    split_and!; try done; try apply Forall_nil_2; try (cbn; lia). apply inv_set; cbn; rewrite ?app_nil_r; (done || lia).
Qed.

Lemma pending_grow p data d :
  decoder_inv d -> pending d = Some p ->
  zlen (concat (p_chunks p) ++ data) = p_byteLength p + zlen data /\
  zlen (p_chunks p ++ [data]) = p_fragmentCount p + 1 /\ 1 <= p_fragmentCount p.
Proof.
  intros Hi Hp. destruct (di_pending _ Hi p Hp) as (-> & -> & _ & H).
  rewrite !zlen_app. split_and!; [done|done|lia].
Qed.

Lemma push_next_sound p header f op d :
  decoder_inv d -> pending d = Some p ->
  let '(r, d') := push_next p header f op d in push_post d (df_Data f) r d'.
Proof.
  intros Hi Hp. destruct (pending_grow p (df_Data f) d Hi Hp) as (Hb & Hc & H1).
  unfold push_next. munfold.
  destruct (matchPending p header op) as [[]| |] eqn:Em;
    apply match_pending_cases in Em as [?|[??]]; try discriminate; [|reflexivity].
  limits. destruct (df_IsFinal f); cbn [negb]; cbv beta iota; unfold push_post, held, same_config; rewrite Hp;
    cbn [pending set_pending map concat m_Data p_chunks p_fragmentCount].
  - rewrite concat_chunks, concat_app. cbn [concat]. rewrite !app_nil_r.
    split_and!; try done; [by apply inv_clear|]. apply Forall_singleton; split; cbn [m_Data m_FragmentCount assemblePending]; [|lia].
    rewrite Hb. lia.
  - rewrite concat_app. cbn [concat]. rewrite !app_nil_r.
    split_and!; try done; try apply Forall_nil_2; try (cbn; lia). apply inv_set; cbn [p_byteLength p_chunks p_fragmentCount];
      rewrite ?concat_app; cbn [concat]; rewrite ?app_nil_r; (done || lia).
Qed.

Lemma push_terminal_sound header data op d :
  decoder_inv d -> let '(r, d') := push_terminal header data op d in push_post d data r d'.
Proof.
  intros Hi. pose proof (di_fragments _ Hi). unfold push_terminal. munfold.
  destruct (zlen data =? 0); [reflexivity|]. destruct (pending d) as [p|] eqn:Hp.
  - destruct (pending_grow p data d Hi Hp) as (Hb & Hc & H1). destruct (negb _); [reflexivity|].
    destruct (matchPending p header op) as [[]| |] eqn:Em;
      apply match_pending_cases in Em as [?|[??]]; try discriminate; [|reflexivity].
    limits. unfold push_post, held, same_config. rewrite Hp.
    cbn [pending set_pending map concat m_Data assemblePending]. unfold assemblePending.
    rewrite concat_chunks, concat_app. cbn [concat].
    rewrite !app_nil_r. split_and!; try done; [by apply inv_clear|]. apply Forall_singleton; split; cbn [m_Data m_FragmentCount assemblePending]; [|lia].
    rewrite Hb. lia.
  - destruct (_ && _); [reflexivity|]. limits. unfold push_post, held, same_config. rewrite Hp. cbn.
    rewrite !app_nil_r. split_and!; try done; [by apply set_pending_id|apply Forall_singleton; split; cbn; lia].
Qed.

Lemma push_sound payload term d :
  decoder_inv d ->
  let '(r, d') := push payload term d in push_post d (application_data payload) r d'.
Proof.
  intros Hi. unfold push. munfold. pose proof (decode_header_no_panic payload) as Hnp.
  destruct (DecodeHeader payload) as [h| |] eqn:Eh; [|reflexivity|done].
  destruct (check_return_codes h term) as [[]| |] eqn:Erc; [|reflexivity|].
  2: { exfalso. revert Erc. unfold check_return_codes, guard.
       destruct term; [destruct (_ || _); discriminate|]. destruct (_ && _); [discriminate|].
       destruct (_ || _); discriminate. }
  destruct ((h_FunctionCode h =? FuncSapSend) || (h_FunctionCode h =? FuncReceive)) eqn:Ed; cbn [negb].
  - destruct (if RecordHeaderLength <=? zlen payload then _ else _) as [[]| |] eqn:El; [|reflexivity|].
    2: { exfalso. revert El. destruct (_ <=? _); [|discriminate]. unfold checkLimits. case_tests; discriminate. }
    unfold application_data. pose proof (data_fragment_no_panic payload) as Hnf.
    destruct (DecodeDataFragment payload) as [f| |] eqn:Ef; [|reflexivity|done].
    destruct (data_fragment_inv _ _ Ef) as (Hlen & _ & _ & _).
    unfold CommonHeaderLength, RecordHeaderLength. rewrite go_slice_ok by lia.
    destruct (incoming_op_ok (take (Z.to_nat (80 - 48)) (drop (Z.to_nat 48) payload))) as [op ->]; [len_lia|].
    destruct (_ && _); [reflexivity|]. destruct term; [by apply push_terminal_sound|].
    destruct (pending d) as [p|] eqn:Hp.
    + destruct (h_FunctionCode h =? FuncSapSend); [reflexivity|]. by apply push_next_sound.
    + destruct (h_FunctionCode h =? FuncSapSend); [by apply push_first_sound|].
      destruct (allowInitialReceive d); cbn [negb]; [by apply push_first_sound|reflexivity].
  - assert (application_data payload = []) as ->.
    { unfold application_data, DecodeDataFragment. rewrite Eh. destruct (_ <? _); [done|]. cbn [mbind outcome_bind].
      rewrite <- negb_orb, Ed. done. }
    destruct (pending d) as [p|] eqn:Hp; [reflexivity|]. destruct term; [reflexivity|].
    unfold push_post, held, same_config. rewrite Hp. cbn. split_and!; try done; [by apply set_pending_id|lia].
Qed.

(** Any sequence of pushes on one decoder, errors included: Go code may go on using
    the decoder after an error. *)
Fixpoint run_pushes (evs : list (bytes * bool)) (d : t) : list (res (list Message)) * t :=
  match evs with
  | [] => ([], d)
  | (payload, term) :: evs =>
      let '(r, d1) := push payload term d in
      let '(rs, d2) := run_pushes evs d1 in
      (r :: rs, d2)
  end.

Definition delivered_by (r : res (list Message)) : list Message := match r with Ok ms => ms | _ => [] end.

(** The bytes of the records that were accepted. *)
Fixpoint accepted (evs : list (bytes * bool)) (rs : list (res (list Message))) : bytes :=
  match evs, rs with
  | (payload, _) :: evs, Ok _ :: rs => application_data payload ++ accepted evs rs
  | _ :: evs, _ :: rs => accepted evs rs
  | _, _ => []
  end.

Lemma same_config_trans d d1 d2 : same_config d d1 -> same_config d1 d2 -> same_config d d2.
Proof. unfold same_config. intros -> H. rewrite H. reflexivity. Qed.

Lemma same_config_within d d' m : same_config d d' -> message_within d' m -> message_within d m.
Proof. intros ->. done. Qed.

Lemma run_pushes_sound evs d :
  decoder_inv d ->
  let '(rs, d') := run_pushes evs d in
  decoder_inv d' /\ same_config d d' /\ Forall (fun r => r <> Panic) rs /\
  Forall (message_within d) (concat (map delivered_by rs)) /\
  held d ++ accepted evs rs = concat (map m_Data (concat (map delivered_by rs))) ++ held d'.
Proof.
  revert d. induction evs as [|[payload term] evs IH]; intros d Hi; cbn [run_pushes].
  { split_and!; [done|by destruct d|apply Forall_nil_2|apply Forall_nil_2|apply app_nil_r]. }
  pose proof (push_sound payload term d Hi) as Hp. destruct (push payload term d) as [r d1].
  assert (decoder_inv d1 /\ same_config d d1) as [Hi1 Hc1].
  { destruct r; cbn in Hp; [by destruct Hp as (?&?&_)|subst d1; split; [done|by destruct d]|done]. }
  specialize (IH d1 Hi1). destruct (run_pushes evs d1) as [rs d2].
  destruct IH as (Hi2 & Hc2 & Hnp & Hw & Hb).
  assert (Forall (message_within d) (concat (map delivered_by rs))) as Hw'
    by (eapply Forall_impl; [exact Hw|intros m; by apply same_config_within]).
  split_and!; [done|by eapply same_config_trans| | |].
  - constructor; [by intros ->|done].
  - cbn [map concat]. apply Forall_app. split; [|done].
    destruct r; cbn in Hp |- *; [by destruct Hp as (_&_&?&_)|constructor|done].
  - destruct r as [ms|e|]; cbn [accepted map concat delivered_by app push_post] in *; [|subst d1; done|done].
    destruct Hp as (_&_&_&_&_&Hp). rewrite map_app, concat_app, app_assoc, Hp, <- !app_assoc. by rewrite Hb.
Qed.

(** C4: Over any sequence of records, accepted or refused, terminal or not, the conversation
    decoder never panics, the data of the delivered messages followed by the data still held
    is exactly the application data of the accepted records in order, and neither a message
    nor the buffer ever exceeds the configured byte and fragment limits. *)
Theorem decoder_conserves_bytes options d0 evs :
  NewConversationDecoder options = Ok d0 ->
  let '(rs, d) := run_pushes evs d0 in
  Forall (fun r => r <> Panic) rs /\
  concat (map m_Data (concat (map delivered_by rs))) ++ held d = accepted evs rs /\
  Forall (message_within d0) (concat (map delivered_by rs)) /\
  BufferedByteLength d = zlen (held d) /\ BufferedByteLength d <= maxMessageLength d0 /\
  FragmentCount d <= maxFragments d0.
Proof.
  intros H.
  assert (decoder_inv d0 /\ pending d0 = None) as [Hi Hp].
  { revert H. unfold NewConversationDecoder. case_tests; try discriminate. intros <-%Ok_inj. by split. }
  pose proof (run_pushes_sound evs d0 Hi) as Hs. destruct (run_pushes evs d0) as [rs d].
  destruct Hs as (Hi' & Hc & Hnp & Hw & Hb). unfold held at 1 in Hb. rewrite Hp in Hb.
  assert (maxMessageLength d = maxMessageLength d0 /\ maxFragments d = maxFragments d0) as [Hm Hf] by (by rewrite Hc).
  pose proof (di_length _ Hi). pose proof (di_fragments _ Hi).
  split_and!; try done; unfold BufferedByteLength, FragmentCount, held.
  - destruct (pending d) as [p|] eqn:E; [|done]. by destruct (di_pending _ Hi' p E).
  - destruct (pending d) as [p|] eqn:E; [|done]. destruct (di_pending _ Hi' p E). lia.
  - destruct (pending d) as [p|] eqn:E; [|lia]. destruct (di_pending _ Hi' p E). lia.
Qed.
End Decoder.

(** ** Reassembly of an encoded sequence *)
Section Reassembly.
#[local] Opaque encode_items.
Import ConversationDecoder.

(** Push a sequence of records, stopping at the first error. *)
Fixpoint push_all (recs : list bytes) : M t (list Message) :=
  match recs with
  | [] => mret []
  | r :: recs => ms ← Push r; rest ← push_all recs; mret (ms ++ rest)
  end.

(** The records of a message cut into [chunks]: F_SAP_SEND first, F_RECEIVE after it,
    the last one final. *)
Fixpoint data_inputs (first : bool) (h : RecordHeaderInput) (ci xi : Z) (chunks : list bytes)
    : list DataRecordInput :=
  match chunks with
  | [] => []
  | c :: cs =>
      mkDataRecordInput h (Some (if first then FuncSapSend else FuncReceive)) c ci xi
        (Some (match cs with [] => true | _ => false end))
      :: data_inputs false h ci xi cs
  end.

Context (h : RecordHeaderInput) (ci xi : Z).
Hypothesis Htyped : header_input_typed h.
Hypothesis Hinfo : in_Info h = None.
Hypothesis Hvector : in_Vector h = None.
Hypothesis Happc : u32or (in_AppcReturnCode h) 0 = 0.
Hypothesis Hsap : u32or (in_SapReturnCode h) 0 = 0.
Hypothesis Hci : is_u16 ci.
Hypothesis Hxi : is_u16 xi.

Definition conversation : bytes := default (zeros 8) (in_ConversationID h).
Definition sequence : Z := u32or (in_SequenceNumber h) 0.

(** What the decoder finds in such a record. *)
Record arrives (r : bytes) (fc : Function_) (data : bytes) (final : bool) (n : Z) : Prop := {
  ar_header : exists hd, DecodeHeader r = Ok hd /\ h_FunctionCode hd = fc /\
    h_AppcReturnCode hd = 0 /\ h_SapReturnCode hd = 0 /\ h_ConversationID hd = conversation /\
    h_SequenceNumber hd = sequence /\ negb (Z.land (h_Vector hd) VectorEndOfMessage =? 0) = final;
  ar_length : zlen r = 80 + zlen data;
  ar_data : go_from (E := error) r RecordHeaderLength = Ok data;
  ar_op : exists op, go_slice (E := error) r CommonHeaderLength RecordHeaderLength = Ok op /\
    DecodeIncomingDataOperationInfo op = Ok (mkIncomingDataOperationInfo n ci xi);
}.

Lemma extended_indices_incoming op :
  EncodeExtendedInfo (mkExtendedInfo [] [] [] 0 0 ci xi) = Ok op ->
  exists n, DecodeIncomingDataOperationInfo op = Ok (mkIncomingDataOperationInfo n ci xi).
Proof.
  intros (b1 & b2 & b3 & E1 & E2 & E3 & ->)%encode_extended_info_inv.
  vm_compute in E1, E2, E3. apply Ok_inj in E1, E2, E3. subst b1 b2 b3.
  assert (forall v, is_u16 v -> exists a b, be_split 2 v = [a; b] /\ be_combine [a; b] = v) as Hsplit.
  { intros v Hv. pose proof (length_be_split 2 v) as Hl. pose proof (be_combine_split 2 v) as Hb.
    destruct (be_split 2 v) as [|a [|b [|]]]; try discriminate. exists a, b. split; [done|].
    rewrite Hb. apply Z.mod_small. done. }
  destruct (Hsplit ci Hci) as (a & b & Eab & Hab). destruct (Hsplit xi Hxi) as (c & d & Ecd & Hcd).
  rewrite !fields_bytes_cons. cbn [snd field_bytes ei_CommunicationIndex ei_ConnectionIndex].
  rewrite Eab, Ecd, incoming_op_eq by done. rewrite <- Hab, <- Hcd. eexists. reflexivity.
Qed.

Lemma data_code_u8 fc : fc = FuncSapSend \/ fc = FuncReceive -> is_u8 fc.
Proof. unfold is_u8, FuncSapSend, FuncReceive. lia. Qed.

(** The header of a data record with its [Info] and [Vector] defaults. *)
Definition data_header (fc : Function_) (final : bool) : RecordHeaderInput :=
  set_vector (if final then 0x0c else if fc =? FuncSapSend then 0x08 else 0)
    (set_info (if final then 5 else 1) h).

Lemma data_header_typed fc final : header_input_typed (data_header fc final).
Proof.
  destruct Htyped as [H8 H16 H32 Hi]. split; cbn; try done.
  repeat (apply Forall_cons in H8 as [? H8]). repeat apply Forall_cons_2; try done; intros v [= <-];
    destruct final, (fc =? FuncSapSend); unfold is_u8; lia.
Qed.

Lemma data_record_arrives fc data final r :
  (fc = FuncSapSend \/ fc = FuncReceive) ->
  EncodeDataRecord (mkDataRecordInput h (Some fc) data ci xi (Some final)) = Ok r ->
  exists n, arrives r fc data final n.
Proof.
  intros Hfc. unfold EncodeDataRecord. cbn [dr_IsFinal dr_FunctionCode dr_CommunicationIndex dr_ConnectionIndex
    dr_Header dr_Data].
  destruct (EncodeExtendedInfo _) as [op| |] eqn:Eop; [|discriminate..]. cbn [mbind outcome_bind].
  rewrite Hinfo. cbn [in_Vector set_info]. rewrite Hvector. intros Hr.
  destruct (record_parts _ _ _ _ _ _ _ (data_code_u8 _ Hfc) (data_header_typed fc final) Hr) as (H1 & H2 & H3 & H4).
  cbn [concat] in H3, H4. rewrite app_nil_r in H3, H4.
  clear Hr. destruct (extended_indices_incoming op Eop) as [n Hn]. exists n. split; [|exact H4|exact H3|].
  2: { exists op. split; [exact H2|exact Hn]. }
  eexists. split; [exact H1|]. clear H1 H2 H3 H4 Eop.
  split; [done|]. split; [done|]. split; [done|]. split; [done|]. split; [done|].
  cbn. destruct final; [done|]. by destruct (fc =? FuncSapSend).
Qed.

Lemma arrives_fragment r fc data final n :
  (fc = FuncSapSend \/ fc = FuncReceive) -> arrives r fc data final n ->
  exists hd op, DecodeHeader r = Ok hd /\ DecodeDataFragment r = Ok (mkDataFragment hd data final) /\
    h_FunctionCode hd = fc /\ check_return_codes hd false = Ok tt /\
    h_ConversationID hd = conversation /\ h_SequenceNumber hd = sequence /\
    80 <= zlen r /\ zlen r - 80 = zlen data /\
    (b ← go_slice r CommonHeaderLength RecordHeaderLength; DecodeIncomingDataOperationInfo b) = Ok op /\
    io_CommunicationIndex op = ci /\ io_ConnectionIndex op = xi /\ io_DataLength op = n.
Proof.
  intros Hfc [(hd & Eh & Ef & Ea & Es & Ec & Eq & Ev) Hl Hd (ob & Eo & En)].
  exists hd, (mkIncomingDataOperationInfo n ci xi). pose proof (zlen_nonneg data).
  split_and!; try done; [|unfold check_return_codes; by rewrite Ea, Es|lia|lia|rewrite Eo; exact En].
  unfold DecodeDataFragment, RecordHeaderLength. destruct (Z.ltb_spec (zlen r) 80); [lia|].
  rewrite Eh. cbn [mbind outcome_bind]. rewrite Ef. fold RecordHeaderLength. rewrite Hd, Ev.
  destruct Hfc as [-> | ->]; reflexivity.
Qed.

Definition pending_of (chunks : list bytes) : pendingMessage :=
  mkPendingMessage chunks conversation sequence (zlen (concat chunks)) (zlen chunks) ci xi.

Definition message_of (chunks : list bytes) : Message :=
  mkMessage (concat chunks) conversation sequence (zlen chunks) ci xi.

Lemma check_limits_ok d a b :
  a <= maxMessageLength d -> b <= maxFragments d -> checkLimits d a b = Ok tt.
Proof. intros. unfold checkLimits. case_tests; lia || done. Qed.

Lemma concat_snoc (l : list bytes) c : concat (l ++ [c]) = concat l ++ c.
Proof. rewrite concat_app. cbn. by rewrite app_nil_r. Qed.

(** The chunks the decoder holds, none when nothing is pending. *)
Definition state_of (d : t) (chunks : list bytes) : t :=
  set_pending (match chunks with [] => None | _ => Some (pending_of chunks) end) d.

Lemma state_of_counts d chunks :
  BufferedByteLength (state_of d chunks) = zlen (concat chunks) /\
  FragmentCount (state_of d chunks) = zlen chunks.
Proof. by destruct chunks. Qed.

Lemma match_pending_of hd op chunks :
  h_ConversationID hd = conversation -> h_SequenceNumber hd = sequence ->
  io_CommunicationIndex op = ci -> io_ConnectionIndex op = xi ->
  matchPending (pending_of chunks) hd op = Ok tt.
Proof.
  intros E1 E2 E3 E4. unfold matchPending, pending_of. cbn. rewrite E1, E2, E3, E4.
  by rewrite bytes_eqb_refl, !Z.eqb_refl.
Qed.

Lemma push_arrival d chunks data final r n :
  (validateIncomingDataOperationInfo d = true -> n = zlen data) ->
  arrives r (match chunks with [] => FuncSapSend | _ => FuncReceive end) data final n ->
  zlen (concat (chunks ++ [data])) <= maxMessageLength d -> zlen (chunks ++ [data]) <= maxFragments d ->
  Push r (state_of d chunks)
  = if final then (Ok [message_of (chunks ++ [data])], state_of d [])
    else (Ok [], state_of d (chunks ++ [data])).
Proof.
  intros Hv Hr Hlen Hcnt. set (fc := match chunks with [] => _ | _ => _ end) in Hr.
  assert (fc = FuncSapSend \/ fc = FuncReceive) as Hfc by (subst fc; destruct chunks; auto).
  destruct (arrives_fragment r fc data final n Hfc Hr)
    as (hd & op & Eh & Ef & Efc & Erc & Ec & Es & Hr80 & Hrd & Eop & E1 & E2 & En).
  rewrite concat_snoc in Hlen. rewrite zlen_app in Hlen. rewrite zlen_app in Hcnt. change (zlen [data]) with 1 in Hcnt.
  destruct (state_of_counts d chunks) as [Hb Hc].
  unfold Push, push. munfold. rewrite Eh, Erc, Efc.
  replace ((fc =? FuncSapSend) || (fc =? FuncReceive)) with true by (destruct Hfc as [-> | ->]; done).
  cbn [negb]. destruct (Z.leb_spec RecordHeaderLength (zlen r)) as [_|]; [|unfold RecordHeaderLength in *; lia].
  rewrite check_limits_ok by (rewrite ?Hb, ?Hc; cbn [maxMessageLength maxFragments set_pending state_of];
                              unfold RecordHeaderLength; lia).
  rewrite Ef. cbn [df_Data]. revert Eop.
  destruct (go_slice r CommonHeaderLength RecordHeaderLength) as [ob| |]; [|discriminate..].
  cbn [mbind outcome_bind]. intros Eop. rewrite Eop.
  change (validateIncomingDataOperationInfo (state_of d chunks)) with (validateIncomingDataOperationInfo d).
  replace (validateIncomingDataOperationInfo d && negb (io_DataLength op =? zlen data)) with false
    by (rewrite En; destruct (validateIncomingDataOperationInfo d); [rewrite (Hv eq_refl), Z.eqb_refl|]; done).
  destruct chunks as [|c cs]; cbn [state_of pending set_pending].
  - change (fc =? FuncSapSend) with true. cbv iota. unfold push_first. munfold. cbn [df_Data df_IsFinal].
    rewrite check_limits_ok by (cbn in *; lia). destruct final; cbv beta iota.
    + unfold singleMessage, message_of. cbn [app concat zlen length]. rewrite app_nil_r, Ec, Es, E1, E2. done.
    + unfold state_of, newPending, pending_of. cbn [app concat zlen length set_pending].
      rewrite app_nil_r, Ec, Es, E1, E2. done.
  - change (fc =? FuncSapSend) with false. cbv iota. unfold push_next. munfold. cbn [df_Data df_IsFinal].
    rewrite match_pending_of by done.
    rewrite check_limits_ok by (cbn [p_byteLength p_fragmentCount pending_of maxMessageLength maxFragments
                                     set_pending state_of] in *; lia).
    unfold message_of, state_of, pending_of. rewrite concat_snoc, zlen_app.
    destruct final; cbn [negb]; cbv beta iota; cbn [p_chunks p_conversationID p_sequenceNumber p_byteLength
      p_fragmentCount p_communicationIndex p_connectionIndex]; rewrite ?concat_chunks, ?concat_snoc, ?zlen_app; done.
Qed.

(** The records of a message cut into chunks, whoever wrote them: F_SAP_SEND first, F_RECEIVE
    after it, the end of the message in the last one only, and, where the lengths are
    [checked], each with the length of its data in the operation information. *)
Inductive carries (checked : bool) : bool -> list bytes -> list bytes -> Prop :=
| carries_last (first : bool) r c n :
    arrives r (if first then FuncSapSend else FuncReceive) c true n -> (checked = true -> n = zlen c) ->
    carries checked first [r] [c]
| carries_more (first : bool) r c n recs chunks :
    arrives r (if first then FuncSapSend else FuncReceive) c false n -> (checked = true -> n = zlen c) ->
    carries checked false recs chunks -> carries checked first (r :: recs) (c :: chunks).

Lemma push_sequence d first recs cs :
  carries (validateIncomingDataOperationInfo d) first recs cs ->
  forall chunks, first = match chunks with [] => true | _ => false end ->
  zlen (concat (chunks ++ cs)) <= maxMessageLength d -> zlen (chunks ++ cs) <= maxFragments d ->
  push_all recs (state_of d chunks) = (Ok [message_of (chunks ++ cs)], state_of d []).
Proof.
  induction 1 as [first r c n Ha Hn|first r c n recs cs Ha Hn _ IH]; intros chunks -> Hlen Hcnt; cbn [push_all].
  - assert (arrives r (match chunks with [] => FuncSapSend | _ => FuncReceive end) c true n) as Ha' by (by destruct chunks).
    by erewrite bind_ok by exact (push_arrival d chunks c true r n Hn Ha' Hlen Hcnt).
  - assert (arrives r (match chunks with [] => FuncSapSend | _ => FuncReceive end) c false n) as Ha' by (by destruct chunks).
    rewrite cons_middle, app_assoc in Hlen, Hcnt.
    assert (zlen (concat (chunks ++ [c])) <= maxMessageLength d /\ zlen (chunks ++ [c]) <= maxFragments d) as [H1 H2].
    { rewrite concat_app, zlen_app in Hlen. rewrite zlen_app in Hcnt. pose proof (zlen_nonneg (concat cs)). pose proof (zlen_nonneg cs). lia. }
    erewrite bind_ok by exact (push_arrival d chunks c false r n Hn Ha' H1 H2).
    erewrite bind_ok by (apply IH; [by destruct chunks|done|done]). by rewrite <- app_assoc.
Qed.

(** The encoded records of a message carry it; they do not state the length of their data. *)
Lemma data_records_carry first chunks recs :
  chunks <> [] -> mapM EncodeDataRecord (data_inputs first h ci xi chunks) = Ok recs -> carries false first recs chunks.
Proof.
  revert first recs. induction chunks as [|c cs IH]; intros first recs Hne Hrec; [done|]. revert Hrec. cbn [data_inputs mapM].
  destruct (EncodeDataRecord _) as [r| |] eqn:Er; [|discriminate..]. cbn [mbind outcome_bind].
  destruct (mapM _ _) as [rs| |] eqn:Ers; [|discriminate..]. cbn [mbind outcome_bind mret outcome_ret]. intros <-%Ok_inj.
  apply data_record_arrives in Er as [n Er]; [|destruct first; auto]. destruct cs as [|c' cs].
  - cbn in Ers. apply Ok_inj in Ers as <-. by eapply carries_last.
  - eapply carries_more; [exact Er|done|]. by apply IH.
Qed.

(** C30: A decoder without a pending message, given the records of a message that is within
    its limits, with zero return codes and one conversation, sequence number and pair of
    indices, yields exactly one message with the concatenated data and the fragment count,
    and is left as it was: for records of any origin, with the lengths they announce when
    the decoder checks these, and for the output of EncodeDataRecord, which announces none,
    when it does not. *)
Theorem reassembly_roundtrip d chunks recs :
  pending d = None -> zlen (concat chunks) <= maxMessageLength d -> zlen chunks <= maxFragments d ->
  carries (validateIncomingDataOperationInfo d) true recs chunks \/
  (validateIncomingDataOperationInfo d = false /\ chunks <> [] /\ mapM EncodeDataRecord (data_inputs true h ci xi chunks) = Ok recs) ->
  push_all recs d = (Ok [mkMessage (concat chunks) conversation sequence (zlen chunks) ci xi], d).
Proof.
  intros Hp Hl Hc Hr. assert (carries (validateIncomingDataOperationInfo d) true recs chunks) as Hcar.
  { destruct Hr as [|(-> & Hne & Hr)]; [done|by apply data_records_carry]. }
  pose proof (push_sequence d true recs chunks Hcar [] eq_refl Hl Hc) as H.
  unfold state_of in H. rewrite <- set_pending_id in H by done. exact H.
Qed.
End Reassembly.

(** ** The canonical acknowledgement *)
Section Acknowledgement.
#[local] Opaque encode_items.

Definition ack_input (conv : bytes) : RecordHeaderInput :=
  mkRecordHeaderInput None None None None None None None None None None (Some 2) None None (Some 1) None
    None None (Some conv).

(** The one encoding of an acknowledgement of conversation [conv] on connection [xi]. *)
Definition encode_ack (conv : bytes) (xi : Z) : res bytes :=
  op ← EncodeExtendedInfo (mkExtendedInfo [] [] [] 0 0 0 xi);
  encodeRecord FuncSendData (ack_input conv) op 0 [] "acknowledgement".

Lemma extended_zero_bytes xi :
  EncodeExtendedInfo (mkExtendedInfo [] [] [] 0 0 0 xi) = Ok (zeros 30 ++ be_split 2 xi).
Proof.
  unfold EncodeExtendedInfo. erewrite encode_items_ok; [|reflexivity|reflexivity]. reflexivity.
Qed.

Lemma encode_ack_eq conv xi payload :
  encode_ack conv xi = Ok payload <->
  zlen conv = 8 /\
  payload = fields_bytes (header_fields (record_header FuncSendData (ack_input conv) 0))
            ++ zeros 30 ++ be_split 2 xi.
Proof.
  unfold encode_ack. rewrite extended_zero_bytes. cbn [mbind outcome_bind].
  assert (zlen (zeros 30 ++ be_split 2 xi) = 32) as Hl by (rewrite zlen_app; reflexivity).
  split.
  - intros (Hc & _ & _ & ->)%encodeRecord_inv. split; [exact Hc|]. cbn [concat]. by rewrite app_nil_r.
  - intros [Hc ->]. rewrite encodeRecord_ok; [|exact Hc|exact Hl|lia]. cbn [concat]. by rewrite app_nil_r.
Qed.

Lemma canonical_ack_inv h :
  header_ok h -> canonical_ack_header h = true <-> h = record_header FuncSendData (ack_input (h_ConversationID h)) 0.
Proof.
  intros [Hi _ _]. split; [|intros ->; reflexivity].
  unfold canonical_ack_header. intros Hc. apply negb_true_iff in Hc.
  repeat (apply orb_false_iff in Hc as [Hc ?]).
  repeat match goal with H : negb _ = false |- _ => apply negb_false_iff, Z.eqb_eq in H end.
  destruct h. cbn in *. subst. unfold record_header, ack_input. cbn. f_equal. by rewrite Hi, Hc.
Qed.

Lemma existsb_zero_take l n :
  existsb (fun b => negb (b2z b =? 0)) l = false -> zlen l = n -> l = zeros n.
Proof.
  intros H <-. unfold zeros. rewrite to_nat_zlen. induction l as [|b l IH]; [done|].
  cbn in H |- *. apply orb_false_iff in H as [Hb H]. f_equal; [|by apply IH].
  apply negb_false_iff, Z.eqb_eq in Hb. by apply b2z_inj.
Qed.

Lemma decode_ack_sound payload a :
  DecodeSynchronousSendAcknowledgement payload = Ok a ->
  exists conv xi, is_u16 xi /\ encode_ack conv xi = Ok payload /\
    a = mkSynchronousSendAcknowledgement (record_header FuncSendData (ack_input conv) 0) xi.
Proof.
  unfold DecodeSynchronousSendAcknowledgement, RecordHeaderLength, CommonHeaderLength.
  destruct (Z.eqb_spec (zlen payload) 80) as [Hl|]; [|discriminate]. cbn [negb].
  destruct (DecodeHeader payload) as [h| |] eqn:Eh; try discriminate. cbn [mbind outcome_bind].
  apply decode_header_ok in Eh as (Hok & Hb & _).
  destruct (canonical_ack_header h) eqn:Ec; [|discriminate]. cbn [negb].
  apply canonical_ack_inv in Ec; [|done].
  rewrite go_slice_ok by lia. cbn [mbind outcome_bind]. set (l := take _ (drop _ payload)).
  assert (zlen l = 32) as Hl32 by (subst l; len_lia). rewrite incoming_op_eq by done. cbn [mbind outcome_bind].
  rewrite go_slice_ok by lia. cbn [mbind outcome_bind]. change (drop (Z.to_nat 0) l) with l.
  change (Z.to_nat (30 - 0)) with 30%nat.
  destruct (existsb _ _) eqn:Ez; [discriminate|].
  apply existsb_zero_take with (n := 30) in Ez; [|len_lia]. cbn [io_DataLength io_CommunicationIndex io_ConnectionIndex].
  destruct (_ || _); [discriminate|]. intros <-%Ok_inj.
  assert (length (drop 30 l) = 2%nat) as H2 by len_lia. rewrite (take_ge (drop 30 l)) by lia.
  exists (h_ConversationID h), (be_combine (drop 30 l)). split_and!; [| |by rewrite <- Ec].
  + pose proof (be_combine_range (drop 30 l)) as Hr. unfold zlen in Hr. rewrite H2 in Hr. exact Hr.
  + apply encode_ack_eq. split; [apply Hok|]. rewrite <- Ec, <- Hb, <- Ez.
    pose proof (be_split_combine (drop 30 l)) as Hbs. rewrite H2 in Hbs. rewrite Hbs, take_drop.
    rewrite <- (take_drop 48 payload) at 1. f_equal. subst l.
    symmetry. apply take_ge. len_lia.
Qed.

Lemma decode_ack_complete conv xi payload :
  is_u16 xi -> encode_ack conv xi = Ok payload ->
  DecodeSynchronousSendAcknowledgement payload
  = Ok (mkSynchronousSendAcknowledgement (record_header FuncSendData (ack_input conv) 0) xi).
Proof.
  unfold DecodeSynchronousSendAcknowledgement, RecordHeaderLength, CommonHeaderLength.
  intros Hxi (Hc & ->)%encode_ack_eq.
  assert (header_ok (record_header FuncSendData (ack_input conv) 0)) as Hok.
  { apply record_header_ok; [unfold is_u8, FuncSendData; lia| |lia|exact Hc].
    split; repeat apply Forall_cons_2; try apply Forall_nil_2; intros v [= <-]; unfold is_u8; lia. }
  pose proof (header_bytes_length _ (ho_conv _ Hok)) as Hl.
  rewrite !zlen_app, Hl. change (zlen (zeros 30)) with 30. change (zlen (be_split 2 xi)) with 2.
  cbn [Z.add Pos.add Z.eqb Pos.eqb negb Pos.succ Pos.add_carry].
  rewrite decode_header_bytes by done. cbn [mbind outcome_bind].
  rewrite (proj2 (canonical_ack_inv _ Hok)) by done. cbn [negb].
  rewrite <- (app_nil_r (zeros 30 ++ be_split 2 xi)), go_slice_mid
    by (rewrite ?zlen_app, Hl; change (zlen (zeros 30)) with 30; change (zlen (be_split 2 xi)) with 2; lia).
  cbn [mbind outcome_bind]. rewrite incoming_op_eq by (rewrite zlen_app; reflexivity). cbn [mbind outcome_bind].
  rewrite go_slice_ok by (rewrite ?zlen_app; change (zlen (zeros 30)) with 30; change (zlen (be_split 2 xi)) with 2; lia).
  cbn [mbind outcome_bind]. change (drop (Z.to_nat 0) (zeros 30 ++ be_split 2 xi)) with (zeros 30 ++ be_split 2 xi).
  change (Z.to_nat (30 - 0)) with (length (zeros 30)). rewrite take_app_length.
  change (existsb _ (zeros 30)) with false. cbv iota.
  change (take 2 (drop 10 _)) with [x00; x00]. change (take 2 (drop 28 _)) with [x00; x00].
  change (take 2 (drop 30 (zeros 30 ++ be_split 2 xi))) with (be_split 2 xi).
  cbn [io_DataLength io_CommunicationIndex io_ConnectionIndex]. change (be_combine [x00; x00]) with 0.
  cbn [Z.eqb negb orb]. rewrite be_combine_split, Z.mod_small by exact Hxi. reflexivity.
Qed.

(** A payload is accepted as a synchronous acknowledgement exactly when it is the 80-byte
    encoding of the canonical acknowledgement header for some conversation and connection
    index, which it returns. *)
Theorem ack_canonical payload a :
  DecodeSynchronousSendAcknowledgement payload = Ok a <->
  exists conv xi, is_u16 xi /\ encode_ack conv xi = Ok payload /\
    a = mkSynchronousSendAcknowledgement (record_header FuncSendData (ack_input conv) 0) xi.
Proof.
  split; [apply decode_ack_sound|]. intros (conv & xi & Hxi & He & ->). by apply decode_ack_complete.
Qed.
End Acknowledgement.

(** ** Runs of the setup state machine *)
Section Setup.
Import ClientSetup.

Inductive setup_event : Type :=
| EvSent (functionCode : Function_) (isFinalDataRecord : bool)
| EvReceived (payload : bytes)
| EvResponseComplete.

Definition apply_event (ev : setup_event) : M ClientSetupState unit :=
  match ev with
  | EvSent fc final => Sent fc final
  | EvReceived payload => Received payload;; mret tt
  | EvResponseComplete => ResponseComplete
  end.

(** One call on the machine, with whether it succeeded. *)
Inductive setup_step (s : ClientSetupState) : setup_event * bool -> ClientSetupState -> Prop :=
| step_ok ev s' : apply_event ev s = (Ok tt, s') -> setup_step s (ev, true) s'
| step_err ev e s' : apply_event ev s = (Err e, s') -> setup_step s (ev, false) s'.

(** The states a machine reaches, with the calls that led there. *)
Inductive setup_run : list (setup_event * bool) -> ClientSetupState -> Prop :=
| run_new : setup_run [] NewClientSetupStateMachine
| run_step tr s ev s' : setup_run tr s -> setup_step s ev s' -> setup_run (tr ++ [ev]) s'.

(** The exchanges that establish a conversation. *)
Inductive milestone : Type :=
| InitializeSent | InitializeReplied | ProgramNameSent | PartnerSent | AllocateSent | AllocateReplied.

Definition sent_milestone (fc : Function_) : option milestone :=
  if fc =? FuncInitialize then Some InitializeSent
  else if fc =? FuncSetTpName then Some ProgramNameSent
  else if fc =? FuncSetPartnerLuName then Some PartnerSent
  else if fc =? FuncAllocate then Some AllocateSent
  else None.

Definition received_milestone (fc : Function_) : option milestone :=
  if fc =? FuncInitialize then Some InitializeReplied
  else if fc =? FuncAllocate then Some AllocateReplied
  else None.

Definition milestone_of (ev : setup_event * bool) : option milestone :=
  match ev with
  | (EvSent fc _, true) => sent_milestone fc
  | (EvReceived payload, true) =>
      match DecodeHeader payload with Ok h => received_milestone (h_FunctionCode h) | _ => None end
  | _ => None
  end.

(** The milestones up to the program name, if there was one. *)
Definition opening (named : bool) : list milestone :=
  [InitializeSent; InitializeReplied] ++ if named then [ProgramNameSent] else [].

(** The milestones behind a state that is not closed. *)
Definition history (named : bool) (s : ClientSetupState) : list milestone :=
  match s with
  | StateNew | StateClosed => []
  | StateInitializePending => [InitializeSent]
  | StateInitialized => opening false
  | StateTpSet => opening true
  | StatePartnerSet => opening named ++ [PartnerSent]
  | StateAllocatePending => opening named ++ [PartnerSent; AllocateSent]
  | StateSendContinuation | StateSendBarrierPending | StateResponsePending | StateReady =>
      opening named ++ [PartnerSent; AllocateSent; AllocateReplied]
  end.

(** The function codes [Sent] knows, and every other one. *)
Lemma sent_cases s fc final :
  (exists e, Sent fc final s = (Err e, s)) \/
  (Sent fc final s = (Ok tt, sent_next s fc final) /\ sent_allowed s fc = true).
Proof.
  unfold Sent. munfold.
  destruct (_ && negb final); [left; eauto|]. destruct (_ && final); [left; eauto|].
  destruct (_ && final); [left; eauto|]. destruct (_ && negb final); [left; eauto|].
  destruct (sent_allowed s fc); cbn [negb]; [right; done|left; eauto].
Qed.

(** [allowed] pins down the state and the code together. *)
Lemma sent_allowed_inv s fc :
  sent_allowed s fc = true ->
  (s, fc) ∈ [(StateNew, FuncInitialize); (StateInitialized, FuncSetTpName);
             (StateInitialized, FuncSetPartnerLuName); (StateTpSet, FuncSetPartnerLuName);
             (StatePartnerSet, FuncAllocate); (StateReady, FuncSapSend); (StateReady, FuncAsyncSendData);
             (StateReady, FuncDeallocate); (StateSendContinuation, FuncAsyncSendData);
             (StateSendContinuation, FuncSendData); (StateSendContinuation, FuncReceive)].
Proof.
  unfold sent_allowed, state_eqb. rewrite !orb_true_iff, !andb_true_iff, !orb_true_iff.
  rewrite !bool_decide_eq_true, !Z.eqb_eq. intros H. rewrite !elem_of_cons.
  destruct_or?; destruct_and?; destruct_or?; subst; repeat first [left; reflexivity|right].
Qed.

Lemma received_allowed_inv s fc :
  received_allowed s fc = true ->
  (s, fc) ∈ [(StateInitializePending, FuncInitialize); (StateAllocatePending, FuncAllocate);
             (StateSendBarrierPending, FuncSendData); (StateResponsePending, FuncSapSend);
             (StateResponsePending, FuncReceive)].
Proof.
  unfold received_allowed, state_eqb. rewrite !orb_true_iff, !andb_true_iff, !orb_true_iff.
  rewrite !bool_decide_eq_true, !Z.eqb_eq. intros H. rewrite !elem_of_cons.
  destruct_or?; destruct_and?; destruct_or?; subst; repeat first [left; reflexivity|right].
Qed.

(** A reply is accepted, ends the conversation, or closes the machine with an error. *)
Lemma received_cases s payload :
  (exists e, Received payload s = (Err e, StateClosed)) \/
  (exists h, DecodeHeader payload = Ok h /\
    ((Received payload s = (Ok DispositionNormalDeallocation, StateClosed) /\ s = StateResponsePending) \/
     (Received payload s = (Ok DispositionAccepted, received_next s) /\
      received_allowed s (h_FunctionCode h) = true))).
Proof.
  unfold Received. munfold. destruct (_ <? _); [left; eauto|].
  pose proof (decode_header_no_panic payload). destruct (DecodeHeader payload) as [h|e|]; [|left; eauto|done].
  destruct (_ && (_ || _)) eqn:En.
  - right. exists h. split; [done|]. left. split; [done|]. apply andb_true_iff in En as [En _].
    apply andb_true_iff in En as [_ En]. by apply bool_decide_eq_true in En.
  - clear En. destruct (_ || _); [left; eauto|].
    destruct (received_allowed s (h_FunctionCode h)) eqn:Ea; cbn [negb]; [|left; eauto].
    right. exists h. split; [done|]. right. by split.
Qed.

(** A successful call adds its milestone to the history. *)
Lemma sent_history named s fc final :
  sent_allowed s fc = true -> sent_next s fc final <> StateClosed ->
  exists named', history named s ++ option_list (sent_milestone fc) = history named' (sent_next s fc final).
Proof.
  intros Ha%sent_allowed_inv Hc.
  repeat (apply elem_of_cons in Ha as [[= -> ->]|Ha]; [|]); [..|by apply elem_of_nil in Ha];
    first [by exists named; destruct named, final|by exists false; destruct final|by exists true; destruct final|done].
Qed.

Lemma received_history named s fc :
  received_allowed s fc = true -> history named s ++ option_list (received_milestone fc) = history named (received_next s).
Proof.
  intros Ha%received_allowed_inv.
  repeat (apply elem_of_cons in Ha as [[= -> ->]|Ha]; [by destruct named|]). by apply elem_of_nil in Ha.
Qed.

Lemma setup_run_history tr s : setup_run tr s -> s <> StateClosed -> exists named, omap milestone_of tr = history named s.
Proof.
  induction 1 as [|tr s ev s' _ IH Hs]; [by exists false|]. intros Hc. rewrite omap_app.
  assert (Hlog : s <> StateClosed -> milestone_of ev = None -> (forall named, history named s = history named s') -> exists named, omap milestone_of tr ++ omap milestone_of [ev] = history named s').
  { intros Hs0 Hn Hh. destruct (IH Hs0) as [named Hm]. exists named. cbn. by rewrite Hn, app_nil_r, Hm. }
  destruct Hs as [[fc final|payload|] s' E|[fc final|payload|] e s' E]; cbn [apply_event] in E.
  - destruct (sent_cases s fc final) as [[e E']|[E' Ha]]; rewrite E' in E; [discriminate|]. injection E as <-.
    destruct (decide (s = StateClosed)) as [->|Hne]; [done|]. destruct (IH Hne) as [named ->].
    destruct (sent_history named s fc final Ha Hc) as [named' Hn]. exists named'. rewrite <- Hn. f_equal.
  - destruct (received_cases s payload) as [[e E']|(h & Eh & [[E' _]|[E' Ha]])].
    + erewrite bind_err in E by exact E'. discriminate.
    + erewrite bind_ok in E by exact E'. injection E as <-. done.
    + erewrite bind_ok in E by exact E'. injection E as <-. destruct (decide (s = StateClosed)) as [->|Hne]; [done|].
      destruct (IH Hne) as [named ->]. exists named. rewrite <- (received_history named s _ Ha). f_equal. cbn. rewrite Eh. by destruct (received_milestone _).
  - revert E. unfold ResponseComplete. munfold. unfold state_eqb. case_bool_decide as Hr; cbn; [|discriminate].
    subst s. intros [= <-]. by apply Hlog.
  - destruct (sent_cases s fc final) as [[e' E']|[E' Ha]]; rewrite E' in E; [|discriminate]. injection E as _ <-. by apply Hlog.
  - destruct (received_cases s payload) as [[e' E']|(h & Eh & [[E' _]|[E' Ha]])].
    + erewrite bind_err in E by exact E'. injection E as _ <-. done.
    + erewrite bind_ok in E by exact E'. discriminate.
    + erewrite bind_ok in E by exact E'. discriminate.
  - revert E. unfold ResponseComplete. munfold. destruct (state_eqb _ _); cbn; [discriminate|]. intros [= _ <-]. done.
Qed.

(** C31: However the setup machine is driven, as long as it is not closed the successful
    calls that set up the conversation form exactly a history its state stands for:
    Initialize and its reply, then at most one program name, the partner, Allocate and its
    reply, each once and in this order. *)
Theorem setup_run_ordered tr s :
  setup_run tr s -> s <> StateClosed -> exists named, omap milestone_of tr = history named s.
Proof. apply setup_run_history. Qed.

Lemma setup_run_ordered_witness :
  exists payload named, setup_run [(EvSent FuncInitialize true, true); (EvReceived payload, true)] StateInitialized /\
    omap milestone_of [(EvSent FuncInitialize true, true); (EvReceived payload, true)] = history named StateInitialized.
Proof.
  set (payload := x06 :: x01 :: zeros 78). exists payload.
  assert (setup_run [(EvSent FuncInitialize true, true); (EvReceived payload, true)] StateInitialized) as H.
  { apply (run_step [(EvSent FuncInitialize true, true)] StateInitializePending).
    - apply (run_step [] StateNew); [exact run_new|]. apply step_ok. vm_compute. reflexivity.
    - apply step_ok. vm_compute. reflexivity. }
  destruct (setup_run_ordered _ _ H) as [named Hn]; [discriminate|]. exists named. split; [exact H|exact Hn].
Defined.

Lemma response_complete_cases s :
  (ResponseComplete s = (Ok tt, StateReady) /\ s = StateResponsePending) \/
  (exists e, ResponseComplete s = (Err e, StateClosed)).
Proof.
  unfold ResponseComplete. munfold. unfold state_eqb. case_bool_decide as H; cbn; [left; by subst|right; eauto].
Qed.

(** C32: No call of the setup machine panics or succeeds when it is closed; a refused Sent
    leaves the state unchanged, and a refused Received or ResponseComplete closes the
    machine. *)
Theorem setup_call_effect s ev :
  match apply_event ev s with
  | (Ok _, _) => s <> StateClosed
  | (Err _, s') => s' = match ev with EvSent _ _ => s | _ => StateClosed end
  | (Panic, _) => False
  end.
Proof.
  destruct ev as [fc final|payload|]; cbn [apply_event].
  - destruct (sent_cases s fc final) as [[e ->]|[-> Ha]]; [done|]. intros ->. discriminate Ha.
  - destruct (received_cases s payload) as [[e E']|(h & Eh & [[E' Hs]|[E' Ha]])].
    + by erewrite bind_err by exact E'.
    + erewrite bind_ok by exact E'. cbn. by subst s.
    + erewrite bind_ok by exact E'. cbn. intros ->. discriminate Ha.
  - destruct (response_complete_cases s) as [[-> ->]|[e ->]]; done.
Qed.
End Setup.

(** ** Instances of the decoder's theorems *)
Definition sample_decoder : ConversationDecoder.t := ConversationDecoder.mk 1000 10 false false None.

Definition checking_decoder : ConversationDecoder.t := ConversationDecoder.mk 1000 10 false true None.

(** A record that announces its data, as a server writes it. *)
Definition announcing (fc : Function_) (final : bool) (data : bytes) : res bytes :=
  encodeRecord fc (data_header no_overrides fc final) (zeros 10 ++ be_split 2 (zlen data) ++ zeros 16 ++ [x00; x00; x00; x07]) (if final then 8 else 0) [data] "data".

Definition announced : list bytes :=
  match mapM (fun x => announcing x.1.1 x.1.2 x.2) [(FuncSapSend, false, lit "first "); (FuncReceive, true, lit "second")] with Ok l => l | _ => [] end.

Lemma announced_carry : carries no_overrides 0 7 true true announced [lit "first "; lit "second"].
Proof.
  let l := eval vm_compute in announced in replace announced with l by (vm_compute; reflexivity).
  let l := eval vm_compute in [lit "first "; lit "second"] in change [lit "first "; lit "second"] with l.
  eapply (carries_more _ _ _ _ _ _ _ 6); [|done|eapply (carries_last _ _ _ _ _ _ _ 6); [|done]];
    (split; [eexists; split_and!; vm_compute; reflexivity|vm_compute; reflexivity..|eexists; split; vm_compute; reflexivity]).
Qed.

Lemma reassembly_roundtrip_witness :
  push_all announced checking_decoder = (Ok [mkMessage (lit "first second") (zeros 8) 0 2 0 7], checking_decoder) /\
  exists recs,
    mapM EncodeDataRecord (data_inputs true no_overrides 0 7 [lit "first "; lit "second"]) = Ok recs /\
    push_all recs sample_decoder
    = (Ok [mkMessage (lit "first second") (zeros 8) 0 2 0 7], sample_decoder).
Proof.
  pose proof (reassembly_roundtrip no_overrides 0 7 no_overrides_typed eq_refl eq_refl eq_refl eq_refl
    ltac:(unfold is_u16; lia) ltac:(unfold is_u16; lia)) as H. split.
  - apply (H checking_decoder [lit "first "; lit "second"]); [reflexivity|vm_compute; discriminate|vm_compute; discriminate|].
    left. exact announced_carry.
  - destruct (mapM EncodeDataRecord (data_inputs true no_overrides 0 7 [lit "first "; lit "second"]))
      as [recs| |] eqn:E; [|vm_compute in E; discriminate..].
    exists recs. split; [reflexivity|].
    apply (H sample_decoder [lit "first "; lit "second"]); [reflexivity|vm_compute; discriminate|vm_compute; discriminate|].
    right. split; [reflexivity|]. split; [discriminate|exact E].
Defined.

(** A record, a foreign version, and the truncated record again: two of the three are
    refused and the decoder goes on. *)
Lemma decoder_conserves_bytes_witness :
  exists d0 r,
    ConversationDecoder.NewConversationDecoder (mkConversationDecoderOptions (Some 5) None false false) = Ok d0 /\
    EncodeDataRecord (mkDataRecordInput no_overrides None (lit "abc") 0 1 (Some false)) = Ok r /\
    let '(rs, d) := run_pushes [(r, false); (x07 :: r, false); (r, false)] d0 in
    held d = lit "abc" /\ Forall (fun r => r <> Panic) rs.
Proof.
  destruct (ConversationDecoder.NewConversationDecoder (mkConversationDecoderOptions (Some 5) None false false))
    as [d0| |] eqn:E0; [|vm_compute in E0; discriminate..].
  destruct (EncodeDataRecord (mkDataRecordInput no_overrides None (lit "abc") 0 1 (Some false)))
    as [r| |] eqn:Er; [|vm_compute in Er; discriminate..].
  exists d0, r. split; [reflexivity|]. split; [reflexivity|].
  pose proof (decoder_conserves_bytes _ d0 [(r, false); (x07 :: r, false); (r, false)] E0) as H.
  destruct (run_pushes [(r, false); (x07 :: r, false); (r, false)] d0) as [rs d] eqn:Ep.
  split; [|apply H]. vm_compute in E0, Er. apply Ok_inj in E0, Er. subst d0 r.
  vm_compute in Ep. injection Ep as <- <-. reflexivity.
Defined.
