(* ===== verification/Transport.v ===== *)
(** Package [transport], internal/transport/transport.go: NI records over one TCP
    connection, and the interface the layers above rely on.

    The connection is the environment: the results of its successive reads (a chunk and
    possibly an error), whether it still accepts writes, and the bytes written to it.
    [Dial] and [DialWith] only obtain a connection and are not modelled; deadlines
    appear as the read error they cause.

    The class [Transport] has the three operations a session uses; [TransportSpec] is what
    they promise: sent payloads reach the peer in order, and payloads arrive in the order
    they were sent, however the stream was cut.  The NI transport satisfies it.  [Traced]
    adds to any transport the order in which it was used. *)
From stdpp Require Import base list numbers strings.
From Stdlib Require Import ZArith Lia Strings.Byte.
From S2P Require Import Prelude Errors Ni.

Open Scope Z_scope.

(** What a session needs of its transport. *)
Class Transport (Tr : Type) : Type := {
  Send : bytes -> M Tr unit;
  Receive : M Tr bytes;
  CloseTransport : M Tr unit;
}.

(** What it may expect: [inbox] is what the peer has sent and was not yet received,
    [outbox] what the peer will find. *)
Class TransportSpec (Tr : Type) `{Transport Tr} : Type := {
  tr_ok : Tr -> Prop;
  inbox : Tr -> list bytes;
  outbox : Tr -> list bytes;
  send_spec payload tr :
    tr_ok tr -> zlen payload <= MaxUint32 ->
    exists tr', Send payload tr = (Ok tt, tr') /\ tr_ok tr' /\ inbox tr' = inbox tr /\
      outbox tr' = outbox tr ++ [payload];
  receive_spec tr payload rest :
    tr_ok tr -> inbox tr = payload :: rest ->
    exists tr', Receive tr = (Ok payload, tr') /\ tr_ok tr' /\ inbox tr' = rest /\ outbox tr' = outbox tr;
}.

Module NiTransport.
(** The connection: results of its reads to come, the bytes written, a write failure, and
    whether this end has closed it. *)
Record Conn : Type := mkConn {
  reads : list (bytes * option io_error);
  written : bytes;
  writeError : option io_error;
  connClosed : bool;
}.

(** [conn.Read]; a connection with nothing more to say runs into the read deadline. *)
Definition conn_read (c : Conn) : bytes * option io_error * Conn :=
  if connClosed c then ([], Some ErrNetClosed, c)
  else
    match reads c with
    | [] => ([], Some ErrDeadlineExceeded, c)
    | (chunk, err) :: rest => (chunk, err, mkConn rest (written c) (writeError c) (connClosed c))
    end.

(** [conn.Write], and [conn.Close]. *)
Definition conn_write (b : bytes) (c : Conn) : option io_error * Conn :=
  if connClosed c then (Some ErrNetClosed, c)
  else
    match writeError c with
    | Some e => (Some e, c)
    | None => (None, mkConn (reads c) (written c ++ b) (writeError c) (connClosed c))
    end.
Definition conn_close (c : Conn) : option io_error * Conn :=
  if connClosed c then (Some ErrNetClosed, c)
  else (None, mkConn (reads c) (written c) (writeError c) true).

(** The options: the payload limit, zero for the default. *)
Definition maxPayload (MaxPayloadLength : Z) : Z :=
  if 0 <? MaxPayloadLength then MaxPayloadLength else DefaultMaxPayloadLength.

Record t : Type := mk {
  conn : Conn;
  dec : FrameDecoder;
  queue : list bytes;
  ctxErr : bool;
}.

Definition New (c : Conn) (MaxPayloadLength : Z) : res t :=
  dec ← NewFrameDecoder (maxPayload MaxPayloadLength);
  Ok (mk c dec [] false).

Definition send (payload : bytes) : M t unit := fun s =>
  match EncodeFrame payload with
  | Panic => (Panic, s)
  | Err e => (Err e, s)
  | Ok frame =>
      match conn_write frame (conn s) with
      | (Some e, _) => (Err (ETransport (TR_Write e)), s)
      | (None, c) => (Ok tt, mk c (dec s) (queue s) (ctxErr s))
      end
  end.

(** The loop of [Receive]: read until a record is queued.  Each round uses one read. *)
Fixpoint fill (fuel : nat) : M t unit := fun s =>
  match fuel with
  | O => (Err EFuel, s)
  | S fuel =>
      if negb (zlen (queue s) =? 0) then (Ok tt, s)
      else if ctxErr s then (Err EContext, s)
      else
        let '(chunk, err, c) := conn_read (conn s) in
        let '(r, s) :=
          if 0 <? zlen chunk then
            match Push chunk (dec s) with
            | (Ok frames, d) => (Ok tt, mk c d (queue s ++ frames) (ctxErr s))
            | (Err derr, d) => (Err derr, mk c d (queue s) (ctxErr s))
            | (Panic, d) => (Panic, mk c d (queue s) (ctxErr s))
            end
          else (Ok tt, mk c (dec s) (queue s) (ctxErr s)) in
        match r with
        | Err derr => (Err derr, s)
        | Panic => (Panic, s)
        | Ok _ =>
            match err with
            | Some e =>
                if 0 <? zlen (queue s) then (Ok tt, s)
                else (Err (ETransport match e with EOF => TR_ErrClosed | _ => TR_Read e end), s)
            | None => fill fuel s
            end
        end
  end.

Definition receive : M t bytes := fun s =>
  match fill (S (S (length (reads (conn s))))) s with
  | (Ok _, s) =>
      match queue s with
      | [] => (Panic, s)
      | frame :: rest => (Ok frame, mk (conn s) (dec s) rest (ctxErr s))
      end
  | (Err e, s) => (Err e, s)
  | (Panic, s) => (Panic, s)
  end.

Definition close : M t unit := fun s =>
  match conn_close (conn s) with
  | (Some e, _) => (Err (ETransport (TR_Close e)), s)
  | (None, c) => (Ok tt, mk c (dec s) (queue s) (ctxErr s))
  end.
End NiTransport.

#[export] Instance ni_transport : Transport NiTransport.t := {
  Send := NiTransport.send;
  Receive := NiTransport.receive;
  CloseTransport := NiTransport.close;
}.

(** ** The NI transport keeps the promise *)
Section NiSpec.
Import NiTransport.

(** The bytes still to be framed: buffered in the decoder, then to be read. *)
Definition incoming (s : t) : bytes := stream (dec s) ++ concat (map fst (reads (conn s))).

Record ni_ok (s : t) : Prop := {
  no_decoder : decoder_ok (dec s);
  no_idle : deframe (maxPayloadLength (dec s)) (stream (dec s)) = Ok ([], stream (dec s));
  no_reads : Forall (fun r => r.2 = None) (reads (conn s));
  no_frames : exists ps rest, deframe (maxPayloadLength (dec s)) (incoming s) = Ok (ps, rest);
  no_bound : zlen (incoming s) <= int_max;
  no_write : writeError (conn s) = None;
  no_ctx : ctxErr s = false;
  no_closed : connClosed (conn s) = false;
  no_written : exists ps, deframe MaxUint32 (written (conn s)) = Ok (ps, []);
}.

Definition frames_of (max : Z) (s : bytes) : list bytes :=
  match deframe max s with Ok (ps, _) => ps | _ => [] end.

Definition ni_inbox (s : t) : list bytes := queue s ++ frames_of (maxPayloadLength (dec s)) (incoming s).
Definition ni_outbox (s : t) : list bytes := frames_of MaxUint32 (written (conn s)).

Lemma ni_send payload s :
  ni_ok s -> zlen payload <= MaxUint32 ->
  exists s', send payload s = (Ok tt, s') /\ ni_ok s' /\ ni_inbox s' = ni_inbox s /\
    ni_outbox s' = ni_outbox s ++ [payload].
Proof.
  intros Hs Hl. unfold send. rewrite encode_frame_bytes by done. unfold conn_write. rewrite (no_closed _ Hs), (no_write _ Hs).
  destruct (no_written _ Hs) as [out Hout].
  assert (deframe MaxUint32 (written (conn s) ++ be_split 4 (zlen payload) ++ payload) = Ok (out ++ [payload], [])) as Hw.
  { rewrite deframe_app, Hout. cbn [mbind outcome_bind app].
    rewrite <- (app_nil_r payload) at 2. rewrite deframe_frame; [|done|unfold MaxUint32 in Hl; lia]. done. }
  eexists. split; [reflexivity|]. split; [|split; [done|]].
  - destruct Hs. split; try done. by exists (out ++ [payload]).
  - unfold ni_outbox, frames_of. cbn [written conn]. by rewrite Hw, Hout.
Qed.

(** One read brings the queue and the decoder forward without changing the inbox. *)
Lemma push_chunk s chunk rest :
  ni_ok s -> reads (conn s) = (chunk, None) :: rest ->
  exists frames d, Push chunk (dec s) = (Ok frames, d) /\
    let s' := mk (mkConn rest (written (conn s)) (writeError (conn s)) (connClosed (conn s))) d (queue s ++ frames) (ctxErr s) in
    ni_ok s' /\ ni_inbox s' = ni_inbox s /\ ni_outbox s' = ni_outbox s.
Proof.
  intros Hs Hr. destruct (no_frames _ Hs) as (ps & left & Hd). pose proof (no_bound _ Hs) as Hb.
  unfold incoming in Hd, Hb. rewrite Hr in Hd, Hb. cbn [map fst concat] in Hd, Hb. rewrite app_assoc in Hd, Hb.
  pose proof (zlen_nonneg (concat (map fst rest))).
  assert (zlen (stream (dec s) ++ chunk) <= int_max) as Hb1 by (rewrite zlen_app in Hb; lia).
  destruct (push_ok (dec s) chunk (no_decoder _ Hs) Hb1) as [E Hok].
  rewrite deframe_app in Hd.
  destruct (deframe (maxPayloadLength (dec s)) (stream (dec s) ++ chunk)) as [[p1 r1]| |] eqn:E1; try discriminate.
  cbn [mbind outcome_bind] in Hd. destruct (Hok p1 r1 eq_refl) as (Hd1 & Hs1 & Hm1).
  destruct (deframe _ (r1 ++ _)) as [[p2 r2]| |] eqn:E2; try discriminate.
  cbn [mbind outcome_bind] in Hd. injection Hd as <- <-.
  unfold run in E. destruct (Push chunk (dec s)) as [o d]. cbn in E. subst o. cbn [snd] in *.
  exists p1, d. split; [done|]. cbv zeta. set (s' := mk _ _ _ _).
  assert (incoming s' = r1 ++ concat (map fst rest)) as Hin by (unfold incoming; cbn; by rewrite Hs1).
  split; [|split].
  - destruct Hs as [H1 H2 H3 H4 H5 H6 H7 H7' H8]. rewrite Hr in H3. apply Forall_cons in H3 as [_ H3].
    split; try done; cbn; rewrite ?Hin, ?Hm1, ?Hs1; try done.
    + by eapply deframe_idle.
    + by exists p2, r2.
    + apply deframe_shrinks in E1. rewrite zlen_app in Hb |- *. lia.
  - unfold ni_inbox, frames_of. rewrite Hin. cbn [queue dec s']. rewrite Hm1, E2. unfold incoming. rewrite Hr.
    cbn [map fst concat]. rewrite app_assoc, deframe_app, E1. cbn [mbind outcome_bind]. rewrite E2.
    cbn [mbind outcome_bind]. by rewrite app_assoc.
  - done.
Qed.

Lemma skip_empty s rest :
  ni_ok s -> reads (conn s) = ([], None) :: rest ->
  let s' := mk (mkConn rest (written (conn s)) (writeError (conn s)) (connClosed (conn s))) (dec s) (queue s) (ctxErr s) in
  ni_ok s' /\ ni_inbox s' = ni_inbox s /\ ni_outbox s' = ni_outbox s.
Proof.
  intros Hs Hr s'. assert (incoming s' = incoming s) as Hin by (unfold incoming; cbn; by rewrite Hr).
  split; [|split; [|done]].
  - destruct Hs as [H1 H2 H3 H4 H5 H6 H7 H7' H8]. rewrite Hr in H3. apply Forall_cons in H3 as [_ H3].
    split; try done; by rewrite Hin.
  - unfold ni_inbox. by rewrite Hin.
Qed.

Lemma queued_of s : (zlen (queue s) =? 0) = false -> queue s <> [].
Proof. by destruct (queue s). Qed.

Lemma fill_ok fuel s :
  ni_ok s -> ni_inbox s <> [] -> (length (reads (conn s)) < fuel)%nat ->
  exists s', fill fuel s = (Ok tt, s') /\ ni_ok s' /\ ni_inbox s' = ni_inbox s /\
    ni_outbox s' = ni_outbox s /\ queue s' <> [].
Proof.
  revert s. induction fuel as [|fuel IH]; intros s Hs Hne Hf; [lia|]. cbn [fill].
  destruct (zlen (queue s) =? 0) eqn:Eq; cbn [negb].
  2: { exists s. split_and!; try done. by apply queued_of. }
  rewrite (no_ctx _ Hs). assert (queue s = []) as Hq by (apply Z.eqb_eq in Eq; by destruct (queue s)).
  unfold conn_read. rewrite (no_closed _ Hs). destruct (reads (conn s)) as [|[chunk err] rest] eqn:Er.
  { exfalso. apply Hne. unfold ni_inbox, frames_of, incoming. rewrite Hq, Er. cbn. rewrite app_nil_r.
    by rewrite (no_idle _ Hs). }
  assert (err = None) as -> by (pose proof (no_reads _ Hs) as H; rewrite Er in H; by apply Forall_cons in H as [? _]).
  destruct (Z.ltb_spec 0 (zlen chunk)) as [Hc|Hc].
  - destruct (push_chunk s chunk rest Hs Er) as (frames & d & -> & Hok & Hin & Hout).
    rewrite (no_ctx _ Hs), (no_closed _ Hs) in Hok, Hin, Hout. destruct (IH _ Hok) as (s' & -> & H1 & H2 & H3 & H4); [by rewrite Hin|cbn in Hf |- *; lia|].
    exists s'. split_and!; try done; congruence.
  - assert (chunk = []) as -> by (destruct chunk; [done|len_lia]).
    destruct (skip_empty s rest Hs Er) as (Hok & Hin & Hout).
    rewrite (no_ctx _ Hs), (no_closed _ Hs) in Hok, Hin, Hout. destruct (IH _ Hok) as (s' & -> & H1 & H2 & H3 & H4); [by rewrite Hin|cbn in Hf |- *; lia|].
    exists s'. split_and!; try done; congruence.
Qed.

Lemma ni_receive s payload rest :
  ni_ok s -> ni_inbox s = payload :: rest ->
  exists s', receive s = (Ok payload, s') /\ ni_ok s' /\ ni_inbox s' = rest /\ ni_outbox s' = ni_outbox s.
Proof.
  intros Hs Hi. unfold receive.
  destruct (fill_ok (S (S (length (reads (conn s))))) s Hs) as (s' & -> & Hok & Hin & Hout & Hq);
    [by rewrite Hi|lia|].
  destruct (queue s') as [|frame q] eqn:Eq; [done|].
  rewrite Hi in Hin. unfold ni_inbox in Hin. rewrite Eq in Hin. cbn [app] in Hin. injection Hin as -> Hin.
  eexists. split; [reflexivity|]. split; [|split; [exact Hin|exact Hout]]. by destruct Hok.
Qed.
End NiSpec.

#[export] Instance ni_transport_spec : TransportSpec NiTransport.t := {
  tr_ok := ni_ok;
  inbox := ni_inbox;
  outbox := ni_outbox;
  send_spec := ni_send;
  receive_spec := ni_receive;
}.

(** ** A scripted peer: the payloads it will send, and those it was sent *)
Record Script : Type := mkScript { sc_in : list bytes; sc_out : list bytes }.

#[export] Instance script_transport : Transport Script := {
  Send payload := fun s =>
    if MaxUint32 <? zlen payload then (Err (ENi (ErrPayloadTooLong (zlen payload))), s)
    else (Ok tt, mkScript (sc_in s) (sc_out s ++ [payload]));
  Receive := fun s =>
    match sc_in s with
    | [] => (Err (ETransport TR_ErrClosed), s)
    | payload :: rest => (Ok payload, mkScript rest (sc_out s))
    end;
  CloseTransport := fun s => (Ok tt, mkScript [] (sc_out s));
}.

#[export] Instance script_spec : TransportSpec Script.
Proof.
  refine {| tr_ok := fun _ => True; inbox := sc_in; outbox := sc_out |}.
  - intros payload tr _ H. cbn. destruct (Z.ltb_spec MaxUint32 (zlen payload)); [lia|]. by eexists.
  - intros tr payload rest _ H. cbn in *. rewrite H. by eexists.
Defined.

(** ** The order of sends and receives

    A transport that also writes down, in one list, what it has sent and received.  It does
    what the transport below it does, and a session, which uses its transport only through
    the interface, cannot tell the two apart; but the list has the order in which the
    session used it. *)
Inductive event : Type := Sent (payload : bytes) | Got (payload : bytes).

Record Traced (Tr : Type) : Type := mkTraced { below : Tr; events : list event }.
Arguments mkTraced {Tr}.
Arguments below {Tr}.
Arguments events {Tr}.

(** The two lists of a trace. *)
Definition sends (l : list event) : list bytes := omap (fun e => match e with Sent p => Some p | Got _ => None end) l.
Definition gots (l : list event) : list bytes := omap (fun e => match e with Got p => Some p | Sent _ => None end) l.

Section Traced.
Context {Tr : Type} `{TransportSpec Tr}.

#[export] Instance traced_transport : Transport (Traced Tr) := {
  Send payload := fun t =>
    let '(r, tr) := Send payload (below t) in
    (r, mkTraced tr (match r with Ok _ => events t ++ [Sent payload] | _ => events t end));
  Receive := fun t =>
    let '(r, tr) := Receive (below t) in
    (r, mkTraced tr (match r with Ok payload => events t ++ [Got payload] | _ => events t end));
  CloseTransport := fun t => let '(r, tr) := CloseTransport (below t) in (r, mkTraced tr (events t));
}.

#[export] Instance traced_spec : TransportSpec (Traced Tr).
Proof.
  refine {| tr_ok := fun t => tr_ok (below t); inbox := fun t => inbox (below t); outbox := fun t => outbox (below t) |}.
  - intros payload t Hok Hl. destruct (send_spec payload (below t) Hok Hl) as (tr & E & H1). cbn. rewrite E. by eexists.
  - intros t payload rest Hok Hi. destruct (receive_spec (below t) payload rest Hok Hi) as (tr & E & H1). cbn. rewrite E. by eexists.
Defined.

(** What has happened since [t0]: the events are those of the list [d]. *)
Definition since (t0 : Traced Tr) (d : list event) (t : Traced Tr) : Prop :=
  events t = events t0 ++ d /\ outbox (below t) = outbox (below t0) ++ sends d /\ inbox (below t0) = gots d ++ inbox (below t).

(** A computation that keeps the promises of the interface from [t0] on keeps this one, so
    its specification says what it did since [t0]. *)
Definition since_spec (t0 : Traced Tr) : TransportSpec (Traced Tr).
Proof.
  refine {| tr_ok := fun t => tr_ok (below t) /\ exists d, since t0 d t; inbox := fun t => inbox (below t); outbox := fun t => outbox (below t) |}.
  - intros payload t [Hok (d & H1 & H2 & H3)] Hl. destruct (send_spec payload (below t) Hok Hl) as (tr & E & Hok' & Hi & Ho). cbn. rewrite E.
    eexists. split; [done|]. cbn. split_and!; try done. exists (d ++ [Sent payload]). unfold since, sends, gots. cbn [below events].
    rewrite !omap_app, H1, Ho, H2, H3, Hi. cbn. by rewrite app_nil_r, <- !app_assoc.
  - intros t payload rest [Hok (d & H1 & H2 & H3)] Hi. destruct (receive_spec (below t) payload rest Hok Hi) as (tr & E & Hok' & Hi' & Ho).
    cbn. rewrite E. eexists. split; [done|]. cbn. split_and!; try done. exists (d ++ [Got payload]). unfold since, sends, gots. cbn [below events].
    rewrite !omap_app, H1, Ho, H2, H3, Hi, Hi'. cbn. by rewrite app_nil_r, <- !app_assoc.
Defined.

Lemma since_refl t : since t [] t.
Proof. unfold since. cbn. by rewrite !app_nil_r. Qed.

(** Only sends, or only receives. *)
Lemma since_sent t0 t d ps :
  since t0 d t -> inbox (below t) = inbox (below t0) -> outbox (below t) = outbox (below t0) ++ ps -> events t = events t0 ++ map Sent ps.
Proof.
  intros (-> & H2 & H3) Hi Ho. f_equal. rewrite Ho in H2. apply app_inv_head in H2. rewrite Hi in H3.
  assert (gots d = []) as Hg by (apply length_zero_iff_nil; apply (f_equal length) in H3; rewrite length_app in H3; lia).
  subst ps. clear -Hg. induction d as [|[p|p] d IH]; cbn in *; [done| |done]. f_equal. by apply IH.
Qed.

Lemma since_got t0 t d ps rest :
  since t0 d t -> inbox (below t0) = ps ++ rest -> inbox (below t) = rest -> outbox (below t) = outbox (below t0) -> events t = events t0 ++ map Got ps.
Proof.
  intros (-> & H2 & H3) Hi0 Hi Ho. f_equal. rewrite Hi0, Hi in H3. apply app_inv_tail in H3. subst ps. rewrite Ho in H2.
  assert (sends d = []) as Hs by (apply length_zero_iff_nil; apply (f_equal length) in H2; rewrite length_app in H2; lia).
  clear -Hs. induction d as [|[p|p] d IH]; cbn in *; [done|done|]. f_equal. by apply IH.
Qed.
End Traced.

(** Receive [n] payloads. *)
Fixpoint receive_n {Tr} `{Transport Tr} (n : nat) : M Tr (list bytes) :=
  match n with
  | O => mret []
  | S n => p ← Receive; ps ← receive_n n; mret (p :: ps)
  end.

Lemma receive_all {Tr} `{TransportSpec Tr} tr ps :
  tr_ok tr -> inbox tr = ps ->
  exists tr', receive_n (length ps) tr = (Ok ps, tr') /\ tr_ok tr' /\ inbox tr' = [] /\ outbox tr' = outbox tr.
Proof.
  revert tr. induction ps as [|p ps IH]; intros tr Hok Hi; [by exists tr|]. cbn [length receive_n].
  destruct (receive_spec tr p ps Hok Hi) as (tr1 & E & Hok1 & Hi1 & Ho1).
  destruct (IH tr1 Hok1 Hi1) as (tr2 & E2 & Hok2 & Hi2 & Ho2).
  exists tr2. rewrite (bind_ok _ _ _ _ _ E), (bind_ok _ _ _ _ _ E2). split_and!; [done|done|done|congruence].
Qed.

(** However a connection cuts the encoding of a list of payloads into reads, a transport
    over it receives exactly these payloads in order and then has nothing left. *)
Theorem transport_delivers ps wire chunks :
  encode_all ps = Ok wire -> concat chunks = wire -> zlen wire <= int_max ->
  Forall (fun p => zlen p <= DefaultMaxPayloadLength) ps ->
  exists s s',
    NiTransport.New (NiTransport.mkConn (map (fun c => (c, None)) chunks) [] None false) 0 = Ok s /\
    receive_n (length ps) s = (Ok ps, s') /\ tr_ok s' /\ inbox s' = [].
Proof.
  intros He Hc Hb Hp. subst wire.
  assert (exists d, NewFrameDecoder (NiTransport.maxPayload 0) = Ok d) as [d Hd] by (eexists; reflexivity).
  assert (NiTransport.maxPayload 0 <= int_max) as Hmax
    by (unfold NiTransport.maxPayload, DefaultMaxPayloadLength, int_max; cbn; lia).
  destruct (new_decoder_ok _ d Hmax Hd) as (Hok & Hs & Hm). change (NiTransport.maxPayload 0) with DefaultMaxPayloadLength in Hm.
  unfold NiTransport.New. rewrite Hd. cbn [mbind outcome_bind].
  set (s := NiTransport.mk _ _ _ _). exists s.
  assert (incoming s = concat chunks) as Hin.
  { unfold incoming. cbn. rewrite Hs, map_map. cbn. by rewrite map_id. }
  pose proof (deframe_encode_all DefaultMaxPayloadLength ps _ Hp He) as Hdef.
  assert (ni_ok s) as Hso.
  { split; rewrite ?Hin; try done.
    - cbn. by rewrite Hs.
    - apply Forall_forall. intros r (c & -> & _)%list_elem_of_fmap. done.
    - cbn [NiTransport.dec s]. rewrite Hm. by exists ps, [].
    - by exists []. }
  assert (ni_inbox s = ps) as Hib.
  { unfold ni_inbox, frames_of. rewrite Hin. cbn [NiTransport.dec NiTransport.queue s]. rewrite Hm.
    by rewrite Hdef. }
  destruct (@receive_all _ _ ni_transport_spec s ps Hso Hib) as (s' & E & H1 & H2 & _). exists s'. by split_and!.
Qed.

Lemma transport_delivers_witness :
  exists s s',
    NiTransport.New (NiTransport.mkConn [([x00; x00], None); ([x00; x01; x41; x00], None);
                                         ([x00; x00; x00], None)] [] None false) 0 = Ok s /\
    receive_n 2 s = (Ok [[x41]; []], s').
Proof.
  destruct (transport_delivers [[x41]; []] [x00; x00; x00; x01; x41; x00; x00; x00; x00]
    [[x00; x00]; [x00; x01; x41; x00]; [x00; x00; x00]] eq_refl eq_refl) as (s & s' & H1 & H2 & _).
  - vm_compute. discriminate.
  - repeat constructor; vm_compute; discriminate.
  - exists s, s'. split; [exact H1|exact H2].
Defined.
