(* ===== verification/Gateway.v ===== *)
(** Package [gateway], internal/gateway/gateway.go: the fixed 64-byte
    GW_NORMAL_CLIENT record exchanged before the APPC conversation, with the IPv4
    text form [net.ParseIP] accepts.

    The theorems: the IPv4 codec is a bijection between the strings it accepts and
    four bytes; a record that encodes decodes to itself up to trailing blanks. *)
From stdpp Require Import base list numbers strings.
From Stdlib Require Import ZArith Lia Strings.Byte.
From S2P Require Import Prelude Errors Wire Appc AppcRecords.

Open Scope Z_scope.

Module Gateway.
Definition NormalClientLength : Z := 64.
Definition ProtocolVersion : Z := 2.
Definition NormalClientRequest : Z := 3.

Definition AcceptInfoErrorInfo : Z := 0x01.
Definition AcceptInfoPing : Z := 0x02.
Definition AcceptInfoSnc : Z := 0x04.
Definition AcceptInfoConnectionExtended : Z := 0x08.
Definition AcceptInfoCodePage : Z := 0x10.
Definition AcceptInfoNiPing : Z := 0x20.
Definition AcceptInfoExtendedInitOptions : Z := 0x40.
Definition AcceptInfoDistributedTrace : Z := 0x80.

Record NormalClientRecord : Type := mkNormalClientRecord {
  Address : bytes;
  Service : bytes;
  CodePage : bytes;
  GatewayOptionLevel : Z;
  LogicalUnit : bytes;
  TransactionProgram : bytes;
  ConversationID : bytes;
  AppcHeaderVersion : Z;
  AcceptInfo : Z;
  Index : Z;
  ReturnCode : Z;
  EchoData : Z;
}.

Definition is_digit (b : byte) : bool := (48 <=? b2z b) && (b2z b <=? 57).

(** [codePagePattern]: [^\d{4}$]. *)
Definition codePagePattern (s : bytes) : bool := (zlen s =? 4) && forallb is_digit s.

Definition isPrintableASCII (s : bytes) : bool :=
  forallb (fun b => negb ((b2z b <? 0x20) || (0x7e <? b2z b))) s.

Definition encodeASCII (value : bytes) (length : Z) (field : string) (padding : byte) : res bytes :=
  if (length <? zlen value) || negb (isPrintableASCII value) then Err (EGateway GW_ErrRange)
  else Ok (go_copy (replicate (Z.to_nat length) padding) 0 value).

(** [strings.TrimRight(string(data), "\x00 ")] on ASCII data. *)
Definition decodeASCII (data : bytes) (field : string) : res bytes :=
  if existsb (fun b => negb (b2z b =? 0) && ((b2z b <? 0x20) || (0x7e <? b2z b))) data
  then Err (EGateway GW_ErrMalformed)
  else Ok (trimRightBytes data nul_space).

(** The loop of the standard library's IPv4 parser ([net.ParseIP] on a string without
    a colon): [prev] is [s[i-1]], [fields] the octets before the current one. *)
Fixpoint parse_ipv4_loop (s : bytes) (prev : option byte) (val digLen : Z) (fields : bytes) : option bytes :=
  match s with
  | [] => if zlen fields <? 3 then None else Some (fields ++ [z2b val])
  | c :: rest =>
      if is_digit c then
        if (digLen =? 1) && (val =? 0) then None
        else
          let val := val * 10 + (b2z c - 48) in
          if 255 <? val then None
          else parse_ipv4_loop rest (Some c) val (digLen + 1) fields
      else if bool_decide (c = x2e) then
        match prev with
        | None => None
        | Some p =>
            if bool_decide (rest = []) || bool_decide (p = x2e) then None
            else if zlen fields =? 3 then None
            else parse_ipv4_loop rest (Some c) 0 0 (fields ++ [z2b val])
        end
      else None
  end.

Definition ParseIPv4 (s : bytes) : option bytes := parse_ipv4_loop s None 0 0 [].

Definition encodeIPv4 (address : bytes) : res bytes :=
  if bool_decide (x3a ∈ address) then Err (EGateway GW_ErrRange)
  else match ParseIPv4 address with
       | None => Err (EGateway GW_ErrRange)
       | Some ip => Ok ip
       end.

Definition digit (v : Z) : byte := z2b (48 + v).

(** [fmt.Sprintf("%d", b)] of a byte. *)
Definition dec (b : byte) : bytes :=
  let v := b2z b in
  if v <? 10 then [digit v]
  else if v <? 100 then [digit (v / 10); digit (v mod 10)]
  else [digit (v / 100); digit (v / 10 mod 10); digit (v mod 10)].

Definition decodeIPv4 (data : bytes) : res bytes :=
  d0 ← go_index data 0;
  d1 ← go_index data 1;
  d2 ← go_index data 2;
  d3 ← go_index data 3;
  Ok (dec d0 ++ [x2e] ++ dec d1 ++ [x2e] ++ dec d2 ++ [x2e] ++ dec d3).

Definition EncodeNormalClient (record : NormalClientRecord) : res bytes :=
  if (Index record <? -0x8000) || (0x7fff <? Index record) then Err (EGateway GW_ErrRange)
  else if negb (codePagePattern (CodePage record)) then Err (EGateway GW_ErrRange)
  else
    address ← encodeIPv4 (Address record);
    service ← encodeASCII (Service record) 10 "service" x00;
    logicalUnit ← encodeASCII (LogicalUnit record) 8 "logicalUnit" x20;
    transactionProgram ← encodeASCII (TransactionProgram record) 8 "transactionProgram" x20;
    conversationID ← encodeASCII (ConversationID record) 8 "conversationId" x20;
    encode_items NormalClientLength "gateway normal-client record"
      [Put ("version", FUint8 ProtocolVersion);
       Put ("requestType", FUint8 NormalClientRequest);
       Put ("address", FBytes address);
       Put ("reserved1", FUint32BE 0);
       Put ("service", FBytes service);
       Put ("codePage", FBytes (CodePage record));
       Put ("reserved2", FBytes (zeros 5));
       Put ("gatewayOptionLevel", FUint8 (GatewayOptionLevel record));
       Put ("logicalUnit", FBytes logicalUnit);
       Put ("transactionProgram", FBytes transactionProgram);
       Put ("conversationId", FBytes conversationID);
       Put ("appcHeaderVersion", FUint8 (AppcHeaderVersion record));
       Put ("acceptInfo", FUint8 (AcceptInfo record));
       Put ("index", FUint16BE (uint16 (Z.land (Index record) 0xffff)));
       Put ("returnCode", FUint32BE (ReturnCode record));
       Put ("echoData", FUint8 (EchoData record));
       Put ("filler", FUint8 0)].

Definition readASCII (length : Z) (field : string) : M Reader.t bytes :=
  raw ← Reader.ReadBytes length field;
  lift (decodeASCII raw field).

Definition decode_record : M Reader.t NormalClientRecord :=
  Reader.ReadUint8 "version";;
  requestType ← Reader.ReadUint8 "requestType";
  lift (guard (negb (requestType =? NormalClientRequest)) (EGateway GW_ErrMalformed));;
  addr ← Reader.ReadBytes 4 "address";
  address ← lift (decodeIPv4 addr);
  reserved1 ← Reader.ReadUint32BE "reserved1";
  lift (guard (negb (reserved1 =? 0)) (EGateway GW_ErrMalformed));;
  service ← readASCII 10 "service";
  codePage ← readASCII 4 "codePage";
  reserved2 ← Reader.ReadBytes 5 "reserved2";
  lift (guard (negb (bytes_eqb reserved2 (zeros 5))) (EGateway GW_ErrMalformed));;
  gatewayOptionLevel ← Reader.ReadUint8 "gatewayOptionLevel";
  logicalUnit ← readASCII 8 "logicalUnit";
  transactionProgram ← readASCII 8 "transactionProgram";
  conversationID ← readASCII 8 "conversationId";
  appcHeaderVersion ← Reader.ReadUint8 "appcHeaderVersion";
  acceptInfo ← Reader.ReadUint8 "acceptInfo";
  v ← Reader.ReadUint16BE "index";
  returnCode ← Reader.ReadUint32BE "returnCode";
  echoData ← Reader.ReadUint8 "echoData";
  filler ← Reader.ReadUint8 "filler";
  lift (guard (negb (filler =? 0)) (EGateway GW_ErrMalformed));;
  Reader.Finish;;
  mret (mkNormalClientRecord address service codePage gatewayOptionLevel logicalUnit
          transactionProgram conversationID appcHeaderVersion acceptInfo
          (if 0x7fff <? v then v - 0x10000 else v) returnCode echoData).

Definition DecodeNormalClient (data : bytes) : res NormalClientRecord :=
  if zlen data <? 2 then Err (EGateway GW_ErrMalformed)
  else
    version ← go_index data 0;
    if b2z version =? 3 then Err (EGateway GW_ErrUnsupported)
    else if negb (b2z version =? ProtocolVersion) then Err (EGateway GW_ErrUnsupported)
    else if negb (zlen data =? NormalClientLength) then Err (EGateway GW_ErrMalformed)
    else run decode_record (Reader.NewReader data "gateway normal-client record").
End Gateway.

Import Gateway.

(** ** The IPv4 text form *)

(** Every statement about one octet is checked on all 256 of them. *)
Definition all_bytes : bytes := map (fun i => z2b (Z.of_nat i)) (seq 0 256).

Lemma all_bytes_spec (P : byte -> bool) : forallb P all_bytes = true -> forall b, P b = true.
Proof.
  intros H b. rewrite forallb_forall in H. apply H. unfold all_bytes. apply in_map_iff.
  exists (Z.to_nat (b2z b)). pose proof (b2z_range b). split; [|apply in_seq; lia].
  rewrite Z2Nat.id by lia. apply z2b_b2z.
Qed.

(** The parser on one printed octet: it reaches the octet's value, and its last
    character is a digit. *)
Fixpoint digits_run (s : bytes) (val digLen : Z) : option (Z * Z) :=
  match s with
  | [] => Some (val, digLen)
  | c :: rest =>
      if is_digit c && negb ((digLen =? 1) && (val =? 0)) && negb (255 <? val * 10 + (b2z c - 48))
      then digits_run rest (val * 10 + (b2z c - 48)) (digLen + 1)
      else None
  end.

Definition octet_check (b : byte) : bool :=
  match digits_run (dec b) 0 0 with
  | Some (v, n) => (v =? b2z b) && negb (n =? 0) && forallb is_digit (dec b)
  | None => false
  end.

Lemma octet_checked b : octet_check b = true.
Proof. revert b. apply all_bytes_spec. vm_compute. reflexivity. Qed.

Lemma loop_digits s rest prev val digLen fields v n :
  digits_run s val digLen = Some (v, n) ->
  parse_ipv4_loop (s ++ rest) prev val digLen fields
  = parse_ipv4_loop rest (match last s with Some c => Some c | None => prev end) v n fields.
Proof.
  revert prev val digLen. induction s as [|c s IH]; intros prev val digLen H; cbn [digits_run] in H.
  - injection H as -> ->. done.
  - cbn [app parse_ipv4_loop].
    destruct (is_digit c) eqn:Ed; [|discriminate]. destruct ((digLen =? 1) && (val =? 0)); [discriminate|].
    destruct (255 <? val * 10 + (b2z c - 48)); [discriminate|]. cbn [negb andb] in H.
    rewrite (IH (Some c) _ _ H), last_cons. by destruct (last s).
Qed.

Lemma dec_nonempty b : exists c, last (dec b) = Some c /\ c <> x2e.
Proof.
  pose proof (octet_checked b) as H. unfold octet_check in H.
  destruct (digits_run (dec b) 0 0) as [[v n]|] eqn:E; [|discriminate].
  apply andb_true_iff in H as [H1 H2]. apply andb_true_iff in H1 as [H0 H1].
  destruct (dec b) as [|c s _] using rev_ind; [cbn in E; injection E as <- <-; discriminate H1|].
  exists c. rewrite last_snoc. split; [done|]. intros ->. rewrite forallb_app in H2.
  apply andb_true_iff in H2 as [_ H2]. discriminate H2.
Qed.

(** The parser on a printed octet, up to the next character. *)
Lemma loop_octet b rest prev fields :
  exists c n, c <> x2e /\
    parse_ipv4_loop (dec b ++ rest) prev 0 0 fields = parse_ipv4_loop rest (Some c) (b2z b) n fields.
Proof.
  destruct (dec_nonempty b) as (c & Hc & Hne). pose proof (octet_checked b) as H. unfold octet_check in H.
  destruct (digits_run (dec b) 0 0) as [[v n]|] eqn:E; [|discriminate].
  apply andb_true_iff in H as [H _]. apply andb_true_iff in H as [H _]. apply Z.eqb_eq in H. subst v.
  exists c, n. split; [done|]. by rewrite (loop_digits _ _ _ _ _ _ _ _ E), Hc.
Qed.

Lemma loop_dot_octet b rest c v n fields :
  c <> x2e -> zlen fields < 3 ->
  exists c' n', c' <> x2e /\
    parse_ipv4_loop ([x2e] ++ dec b ++ rest) (Some c) v n fields
    = parse_ipv4_loop rest (Some c') (b2z b) n' (fields ++ [z2b v]).
Proof.
  intros Hc Hf. destruct (loop_octet b rest (Some x2e) (fields ++ [z2b v])) as (c' & n' & Hc' & E).
  exists c', n'. split; [done|]. rewrite <- E. cbn [app parse_ipv4_loop].
  change (is_digit x2e) with false. rewrite bool_decide_true by done. cbv iota.
  rewrite (bool_decide_false (dec b ++ rest = [])).
  2: { intros [H _]%app_nil. destruct (dec_nonempty b) as (c0 & H0 & _). by rewrite H in H0. }
  rewrite bool_decide_false by done. cbn [orb]. destruct (Z.eqb_spec (zlen fields) 3); [lia|]. done.
Qed.

Definition dotted (a b c d : byte) : bytes := dec a ++ [x2e] ++ dec b ++ [x2e] ++ dec c ++ [x2e] ++ dec d.

Lemma parse_dotted a b c d : ParseIPv4 (dotted a b c d) = Some [a; b; c; d].
Proof.
  unfold ParseIPv4, dotted.
  destruct (loop_octet a ([x2e] ++ dec b ++ [x2e] ++ dec c ++ [x2e] ++ dec d) None []) as (c1 & n1 & H1 & ->).
  destruct (loop_dot_octet b ([x2e] ++ dec c ++ [x2e] ++ dec d) c1 (b2z a) n1 []) as (c2 & n2 & H2 & ->);
    [done|done|].
  destruct (loop_dot_octet c ([x2e] ++ dec d) c2 (b2z b) n2 ([] ++ [z2b (b2z a)])) as (c3 & n3 & H3 & ->);
    [done|done|].
  rewrite <- (app_nil_r (dec d)).
  destruct (loop_dot_octet d [] c3 (b2z c) n3 (([] ++ [z2b (b2z a)]) ++ [z2b (b2z b)])) as (c4 & n4 & H4 & ->);
    [done|done|].
  cbn. by rewrite !z2b_b2z.
Qed.

(** The text consumed before the current octet, and the digits of the current one. *)
Definition consumed (fields : bytes) : bytes := concat (map (fun b => dec b ++ [x2e]) fields).
Definition partial (val digLen : Z) : bytes := if digLen =? 0 then [] else dec (z2b val).

Definition grow_check (v : byte) : bool :=
  forallb (fun d => let w := b2z v * 10 + Z.of_nat d in
    (255 <? w) || (b2z v =? 0) || bool_decide (dec (z2b w) = dec v ++ [digit (Z.of_nat d)])) (seq 0 10).

Lemma grow_checked v : grow_check v = true.
Proof. revert v. apply all_bytes_spec. vm_compute. reflexivity. Qed.

(** A further digit extends the printed octet, unless it would follow a lone zero. *)
Lemma dec_grow val c :
  0 <= val -> is_digit c = true -> val <> 0 -> val * 10 + (b2z c - 48) <= 255 ->
  dec (z2b (val * 10 + (b2z c - 48))) = dec (z2b val) ++ [c].
Proof.
  intros Hv Hc Hz Hle. apply andb_true_iff in Hc as [H1%Z.leb_le H2%Z.leb_le].
  pose proof (grow_checked (z2b val)) as Hg. unfold grow_check in Hg. rewrite forallb_forall in Hg.
  specialize (Hg (Z.to_nat (b2z c - 48)) ltac:(apply in_seq; lia)). cbv zeta in Hg.
  rewrite b2z_z2b_small, Z2Nat.id in Hg by (unfold is_u8; lia).
  destruct (Z.ltb_spec 255 (val * 10 + (b2z c - 48))); [lia|]. destruct (Z.eqb_spec val 0); [done|].
  cbn [orb] in Hg. apply bool_decide_eq_true in Hg. rewrite Hg. f_equal. f_equal. unfold digit.
  replace (48 + (b2z c - 48)) with (b2z c) by lia. apply z2b_b2z.
Qed.

Lemma dec_single c : is_digit c = true -> dec (z2b (b2z c - 48)) = [c].
Proof.
  intros [H1%Z.leb_le H2%Z.leb_le]%andb_true_iff. unfold dec. rewrite b2z_z2b_small by (unfold is_u8; lia).
  destruct (Z.ltb_spec (b2z c - 48) 10); [|lia]. unfold digit.
  replace (48 + (b2z c - 48)) with (b2z c) by lia. by rewrite z2b_b2z.
Qed.

(** The parser between two characters. *)
Record loop_inv (s : bytes) (prev : option byte) (val digLen : Z) (fields : bytes) : Prop := {
  li_val : 0 <= val <= 255;
  li_len : 0 <= digLen;
  li_zero : val = 0 -> digLen <= 1;
  li_fresh : digLen = 0 -> val = 0 /\ s <> [] /\ (prev = None \/ prev = Some x2e);
  li_fields : zlen fields <= 3;
}.

(** What the parser has accepted is the dotted form of the octets it returns. *)
Lemma loop_sound s prev val digLen fields ip :
  loop_inv s prev val digLen fields ->
  parse_ipv4_loop s prev val digLen fields = Some ip ->
  exists octets last_, ip = octets ++ [last_] /\ zlen octets = 3 /\
    consumed fields ++ partial val digLen ++ s = consumed octets ++ dec last_.
Proof.
  revert prev val digLen fields. induction s as [|c s IH]; intros prev val digLen fields [Hv Hd Hz H0 Hf].
  - cbn. destruct (Z.ltb_spec (zlen fields) 3); [discriminate|]. intros [= <-].
    exists fields, (z2b val). split; [done|]. split; [lia|]. unfold partial.
    destruct (Z.eqb_spec digLen 0) as [->|]; [destruct H0 as (_ & Hne & _); done|]. by rewrite app_nil_r.
  - cbn [parse_ipv4_loop]. destruct (is_digit c) eqn:Ec.
    + pose proof Ec as Hcd. apply andb_true_iff in Hcd as [H1%Z.leb_le H2%Z.leb_le].
      destruct ((digLen =? 1) && (val =? 0)) eqn:Ez; [discriminate|].
      destruct (Z.ltb_spec 255 (val * 10 + (b2z c - 48))); [discriminate|]. intros HH.
      assert (val = 0 -> digLen = 0) as Hz0.
      { intros ->. specialize (Hz eq_refl). revert Ez. destruct (Z.eqb_spec digLen 1); [done|]. lia. }
      apply IH in HH; [|split; lia].
      destruct HH as (octets & last_ & E & Hl & Heq). exists octets, last_. split; [done|]. split; [done|].
      rewrite <- Heq. f_equal. unfold partial. destruct (Z.eqb_spec (digLen + 1) 0); [lia|].
      destruct (Z.eqb_spec digLen 0) as [->|].
      * destruct (H0 eq_refl) as (-> & _). rewrite Z.mul_0_l, Z.add_0_l, dec_single by done. done.
      * rewrite dec_grow by (done || lia). by rewrite <- app_assoc.
    + case_bool_decide as Hdot; [|discriminate]. subst c. destruct prev as [p|]; [|discriminate].
      destruct (bool_decide (s = [])) eqn:Es; [discriminate|]. apply bool_decide_eq_false in Es.
      destruct (bool_decide (p = x2e)) eqn:Ep; [discriminate|]. apply bool_decide_eq_false in Ep. cbn [orb].
      destruct (Z.eqb_spec (zlen fields) 3); [discriminate|]. intros HH.
      apply IH in HH; [|split; (lia || (rewrite ?zlen_app; change (zlen [z2b val]) with 1; lia)
        || (intros _; split_and!; auto))].
      destruct HH as (octets & last_ & E & Hl & Heq). exists octets, last_. split; [done|]. split; [done|].
      rewrite <- Heq. unfold consumed, partial. rewrite map_app, concat_app. cbn [map concat Z.eqb].
      rewrite app_nil_r, <- !app_assoc. f_equal.
      destruct (Z.eqb_spec digLen 0) as [->|]; [|done]. destruct (H0 eq_refl) as (_ & _ & [?|[= ?]]); done.
Qed.

Lemma parse_sound s ip : ParseIPv4 s = Some ip -> exists a b c d, ip = [a; b; c; d] /\ s = dotted a b c d.
Proof.
  destruct s as [|c0 s]; [discriminate|]. intros H. apply loop_sound in H; [|split; [lia|lia|lia|intros _; split_and!; auto; done|done]].
  destruct H as (octets & d & -> & Hl & Heq). assert (length octets = 3%nat) as H3 by (unfold zlen in Hl; lia).
  explode octets. exists b, b0, b1, d. split; [done|]. cbn in Heq. unfold dotted.
  rewrite app_nil_r, <- !app_assoc in Heq. exact Heq.
Qed.

Lemma dotted_no_colon a b c d : x3a ∉ dotted a b c d.
Proof.
  assert (forall o, x3a ∉ dec o) as H.
  { intros o Hin. pose proof (octet_checked o) as Ho. unfold octet_check in Ho.
    destruct (digits_run (dec o) 0 0) as [[v n]|]; [|discriminate]. apply andb_true_iff in Ho as [_ Ho].
    rewrite forallb_forall in Ho. apply list_elem_of_In, Ho in Hin. discriminate. }
  unfold dotted. rewrite !elem_of_app, !list_elem_of_singleton.
  intros [?|[?|[?|[?|[?|[?|?]]]]]]; (discriminate || by eapply H).
Qed.

Lemma ipv4_exact address ip :
  encodeIPv4 address = Ok ip <-> zlen ip = 4 /\ decodeIPv4 ip = Ok address.
Proof.
  unfold encodeIPv4. split.
  - destruct (bool_decide _); [discriminate|]. destruct (ParseIPv4 address) as [ip'|] eqn:E; [|discriminate].
    intros <-%Ok_inj. apply parse_sound in E as (a & b & c & d & -> & ->). by split.
  - intros [Hl Hd]. assert (length ip = 4%nat) as H4 by (unfold zlen in Hl; lia). explode ip.
    cbn in Hd. apply Ok_inj in Hd as <-. change (_ ++ _) with (dotted b b0 b1 b2).
    rewrite bool_decide_false by apply dotted_no_colon. by rewrite parse_dotted.
Qed.

(** An address text encodes to four bytes exactly when these bytes print as that text: the
    parser accepts only the canonical dotted form. *)
Theorem ipv4_codec_exact address ip :
  encodeIPv4 address = Ok ip <-> zlen ip = 4 /\ decodeIPv4 ip = Ok address.
Proof. apply ipv4_exact. Qed.

(** ** The record *)
Record record_typed (r : NormalClientRecord) : Prop := {
  rt_u8 : Forall is_u8 [GatewayOptionLevel r; AppcHeaderVersion r; AcceptInfo r; EchoData r];
  rt_u32 : is_u32 (ReturnCode r);
}.

(** What survives the trip: text fields lose their trailing blanks. *)
Definition trim_record (r : NormalClientRecord) : NormalClientRecord :=
  let t s := trimRightBytes s nul_space in
  mkNormalClientRecord (Address r) (t (Service r)) (CodePage r) (GatewayOptionLevel r) (t (LogicalUnit r))
    (t (TransactionProgram r)) (t (ConversationID r)) (AppcHeaderVersion r) (AcceptInfo r) (Index r)
    (ReturnCode r) (EchoData r).

Lemma encodeASCII_inv value n field pad b :
  0 <= n -> pad ∈ nul_space -> encodeASCII value n field pad = Ok b ->
  zlen b = n /\ forall field', decodeASCII b field' = Ok (trimRightBytes value nul_space).
Proof.
  intros Hn Hpad. unfold encodeASCII. destruct (Z.ltb_spec n (zlen value)); [discriminate|].
  destruct (isPrintableASCII value) eqn:Hp; [|discriminate]. cbn [negb orb]. intros <-%Ok_inj.
  rewrite go_copy_pad by len_lia. split; [len_lia|]. intros field'. unfold decodeASCII.
  rewrite existsb_app_false; [by rewrite trimRight_pad| |].
  - eapply existsb_forallb_false; [|exact Hp]. intros c Hc. cbv beta in Hc |- *. apply negb_true_iff in Hc.
    rewrite Hc. apply andb_false_r.
  - apply existsb_replicate_false. apply list_elem_of_In in Hpad as [<-|[<-|[]]]; done.
Qed.

Lemma step_ascii {B} v n b ctx pre rest field (k : bytes -> M Reader.t B) :
  zlen b = n -> (forall f, decodeASCII b f = Ok v) ->
  (readASCII n field ≫= k) (Reader.at_ ctx pre (field_bytes (FBytes b) ++ rest))
  = k v (Reader.at_ ctx (pre ++ field_bytes (FBytes b)) rest).
Proof.
  intros Hn Hd. unfold readASCII. rewrite (bind_ok _ _ _ v (Reader.at_ ctx (pre ++ field_bytes (FBytes b)) rest)); [done|].
  rewrite step_bytes by done. unfold lift. by rewrite Hd.
Qed.

Lemma digits_ascii s field : zlen s = 4 -> forallb is_digit s = true -> decodeASCII s field = Ok s.
Proof.
  intros Hl Hd. unfold decodeASCII. rewrite (existsb_forallb_false _ is_digit); [|
    intros b [H1%Z.leb_le H2%Z.leb_le]%andb_true_iff; case_tests; lia || done|done].
  f_equal. apply trimRight_id. intros b Hb Hin. apply last_Some_elem_of, list_elem_of_In in Hb.
  rewrite forallb_forall in Hd. apply Hd in Hb. apply list_elem_of_In in Hin as [<-|[<-|[]]]; discriminate.
Qed.

Lemma index_roundtrip i :
  -0x8000 <= i <= 0x7fff ->
  let v := uint16 (Z.land i 0xffff) in is_u16 v /\ (if 0x7fff <? v then v - 0x10000 else v) = i.
Proof.
  intros H. cbv zeta. change 0xffff with (Z.ones 16). unfold uint16. rewrite Z.land_ones, Z.mod_mod by lia.
  split; [apply Z.mod_pos_bound; lia|]. destruct (Z.ltb_spec i 0).
  - replace (i mod 2 ^ 16) with (i + 2 ^ 16); [case_tests; lia|].
    rewrite <- (Z.mod_add i 1) by lia. rewrite Z.mul_1_l. symmetry. apply Z.mod_small. lia.
  - rewrite Z.mod_small by lia. case_tests; lia.
Qed.

Section Roundtrip.
#[local] Opaque encode_items.

Lemma encode_normal_inv r b :
  EncodeNormalClient r = Ok b ->
  exists address service lu tp conv,
    -0x8000 <= Index r <= 0x7fff /\ codePagePattern (CodePage r) = true /\
    encodeIPv4 (Address r) = Ok address /\ encodeASCII (Service r) 10 "service" x00 = Ok service /\
    encodeASCII (LogicalUnit r) 8 "logicalUnit" x20 = Ok lu /\
    encodeASCII (TransactionProgram r) 8 "transactionProgram" x20 = Ok tp /\
    encodeASCII (ConversationID r) 8 "conversationId" x20 = Ok conv /\
    encode_items NormalClientLength "gateway normal-client record"
      [Put ("version", FUint8 ProtocolVersion); Put ("requestType", FUint8 NormalClientRequest);
       Put ("address", FBytes address); Put ("reserved1", FUint32BE 0); Put ("service", FBytes service);
       Put ("codePage", FBytes (CodePage r)); Put ("reserved2", FBytes (zeros 5));
       Put ("gatewayOptionLevel", FUint8 (GatewayOptionLevel r)); Put ("logicalUnit", FBytes lu);
       Put ("transactionProgram", FBytes tp); Put ("conversationId", FBytes conv);
       Put ("appcHeaderVersion", FUint8 (AppcHeaderVersion r)); Put ("acceptInfo", FUint8 (AcceptInfo r));
       Put ("index", FUint16BE (uint16 (Z.land (Index r) 0xffff))); Put ("returnCode", FUint32BE (ReturnCode r));
       Put ("echoData", FUint8 (EchoData r)); Put ("filler", FUint8 0)] = Ok b.
Proof.
  unfold EncodeNormalClient. destruct (Z.ltb_spec (Index r) (-0x8000)); [discriminate|].
  destruct (Z.ltb_spec 0x7fff (Index r)); [discriminate|]. cbn [orb].
  destruct (codePagePattern (CodePage r)) eqn:Ec; [|discriminate]. cbn [negb].
  destruct (encodeIPv4 _) as [address| |] eqn:E1; [|discriminate..]. cbn [mbind outcome_bind].
  destruct (encodeASCII (Service r) _ _ _) as [service| |] eqn:E2; [|discriminate..]. cbn [mbind outcome_bind].
  destruct (encodeASCII (LogicalUnit r) _ _ _) as [lu| |] eqn:E3; [|discriminate..]. cbn [mbind outcome_bind].
  destruct (encodeASCII (TransactionProgram r) _ _ _) as [tp| |] eqn:E4; [|discriminate..]. cbn [mbind outcome_bind].
  destruct (encodeASCII (ConversationID r) _ _ _) as [conv| |] eqn:E5; [|discriminate..]. cbn [mbind outcome_bind].
  intros E. exists address, service, lu, tp, conv. split_and!; (lia || reflexivity || exact E).
Qed.

(** An encoded gateway record has 64 bytes and decodes to the record with the trailing
    blanks of its text fields removed. *)
Theorem normal_client_roundtrip r b :
  record_typed r -> EncodeNormalClient r = Ok b ->
  zlen b = NormalClientLength /\ DecodeNormalClient b = Ok (trim_record r).
Proof.
  intros [H8 H32] (ad & sv & lu & tp & cv & Hi & Hcp & Ea & Es & El & Et & Ec & E)%encode_normal_inv.
  repeat (apply Forall_cons in H8 as [? H8]).
  assert (zlen ad = 4 /\ decodeIPv4 ad = Ok (Address r)) as [Ha4 Had] by (revert Ea; apply ipv4_exact).
  apply encodeASCII_inv in Es as [Hs1 Hs2]; [|lia|repeat constructor].
  apply encodeASCII_inv in El as [Hl1 Hl2]; [|lia|repeat constructor].
  apply encodeASCII_inv in Et as [Ht1 Ht2]; [|lia|repeat constructor].
  apply encodeASCII_inv in Ec as [Hc1 Hc2]; [|lia|repeat constructor].
  apply andb_true_iff in Hcp as [Hcl%Z.eqb_eq Hcd].
  destruct (index_roundtrip (Index r) Hi) as [Hu Hx].
  apply encode_items_inv in E as (fs & Hr & Hb). apply Ok_inj in Hr. subst fs.
  match type of Hb with zlen (fields_bytes ?fs) = _ -> _ =>
    assert (zlen (fields_bytes fs) = 64) as Hlen by fields_len; specialize (Hb Hlen) end.
  subst b. split; [exact Hlen|]. unfold DecodeNormalClient. rewrite Hlen.
  cbn [Z.ltb Z.compare Pos.compare Pos.compare_cont]. 
  match goal with |- context [go_index ?l 0] =>
    change (go_index l 0) with (@Ok error byte (z2b ProtocolVersion)) end.
  cbn [mbind outcome_bind]. change (b2z (z2b ProtocolVersion)) with 2.
  cbn [Z.eqb Pos.eqb negb ProtocolVersion NormalClientLength].
  clear Hlen.
  assert (is_u8 ProtocolVersion /\ is_u8 NormalClientRequest /\ is_u8 0 /\ is_u32 0) as (? & ? & ? & ?)
    by (unfold is_u8, is_u32, ProtocolVersion, NormalClientRequest; lia).
  open_record. unfold decode_record.
  do 2 rstep. rewrite step_guard by done. rstep. erewrite step_lift by exact Had. rstep.
  rewrite step_guard by done. erewrite step_ascii by eassumption.
  erewrite step_ascii by (exact Hcl || (intros f; by apply digits_ascii)).
  rstep. rewrite step_guard by done. rstep. do 3 (erewrite step_ascii by eassumption). do 6 rstep.
  rewrite step_guard by done. rstep. unfold mret, stm_ret, fst, trim_record. rewrite Hx. done.
Qed.
End Roundtrip.

Lemma normal_client_roundtrip_witness :
  exists r b, EncodeNormalClient r = Ok b /\ DecodeNormalClient b = Ok r.
Proof.
  set (r := mkNormalClientRecord (lit "10.0.0.255") (lit "sapgw00") (lit "1100") 6 (lit "host") (lit "prog") []
              6 0xcb (-1) 0 0).
  exists r. destruct (EncodeNormalClient r) as [b| |] eqn:E; [|vm_compute in E; discriminate..].
  exists b. split; [reflexivity|].
  assert (record_typed r) as Ht by (split; [repeat constructor; cbn; lia|cbn; unfold is_u32; lia]).
  destruct (normal_client_roundtrip r b Ht E) as [_ H]. exact H.
Defined.
