(* ===== verification/Socks5.v ===== *)
(** Package [socks5], internal/socks5/socks5.go: the handshake with a SOCKS5 proxy.

    The connection to the proxy is a [Conn.conn]; dialling it is an argument of [Dial], and
    the deadlines are left out.  The parts of packages net, strconv and base64 that the code
    calls are written out: [ParseIP] with its IPv6 forms, [SplitHostPort], [ParseUint16],
    [EncodeToString].  The interface [Auth] is a sum of its three implementations.

    The theorems: the handshake succeeds exactly on the proxy's answers the protocol allows,
    sends exactly the messages it prescribes and leaves the tunnelled bytes unread; the
    targets that are accepted are exactly the well-formed ones; a proxy reads the target of a
    request back; IPv6 texts parse to their bytes; and a failed dial closes its connection. *)
From stdpp Require Import base list numbers strings.
From Stdlib Require Import ZArith Lia Strings.Byte.
From S2P Require Import Prelude Errors Text Base64 Conn Gateway.

Open Scope Z_scope.

(** ** Addresses: package net *)

(** One group of hexadecimal digits, at most four. *)
Definition hex_group (s : bytes) : option (Z * bytes) :=
  let '(ds, rest) := span is_hex s in
  if (zlen ds =? 0) || (4 <? zlen ds) then None
  else Some (fold_left (fun acc b => acc * 16 + hex_digit_value b) ds 0, rest).

(** The loop over the groups: the bytes so far, where the ellipsis was, what is left.  Each
    round adds two bytes, so eight rounds fill the address. *)
Fixpoint groups_loop (fuel : nat) (s ip : bytes) (ellipsis : option Z) : option (bytes * option Z * bytes) :=
  match fuel with
  | O => Some (ip, ellipsis, s)
  | S fuel =>
      match hex_group s with
      | None => None
      | Some (acc, rest) =>
          let next := fun rest =>
            let ip := ip ++ be_split 2 acc in
            match rest with
            | [] => Some (ip, ellipsis, [])
            | c :: s1 =>
                if negb (bool_decide (c = x3a)) then None
                else match s1 with
                     | [] => None
                     | d :: s2 =>
                         if bool_decide (d = x3a) then
                           match ellipsis with
                           | Some _ => None
                           | None =>
                               match s2 with
                               | [] => Some (ip, Some (zlen ip), [])
                               | _ => groups_loop fuel s2 ip (Some (zlen ip))
                               end
                           end
                         else groups_loop fuel s1 ip ellipsis
                     end
            end in
          match rest with
          | c :: _ =>
              if bool_decide (c = x2e) then
                if bool_decide (ellipsis = None) && negb (zlen ip =? 12) then None
                else if 16 <? zlen ip + 4 then None
                else match Gateway.ParseIPv4 s with
                     | None => None
                     | Some v4 => Some (ip ++ v4, ellipsis, [])
                     end
              else next rest
          | [] => next rest
          end
      end
  end.

(** The end of the IPv6 parser: nothing left over, the ellipsis expanded. *)
Definition expand_ellipsis (ip : bytes) (ellipsis : option Z) (s : bytes) : option bytes :=
  if negb (bool_decide (s = [])) then None
  else if zlen ip <? 16 then
    match ellipsis with
    | None => None
    | Some e => Some (take (Z.to_nat e) ip ++ zeros (16 - zlen ip) ++ drop (Z.to_nat e) ip)
    end
  else match ellipsis with Some _ => None | None => Some ip end.

(** A zone makes [net.ParseIP] refuse the address, so a percent sign ends the parse. *)
Definition parseIPv6 (s : bytes) : option bytes :=
  if bool_decide (x25 ∈ s) then None
  else
    match s with
    | a :: b :: rest =>
        if bool_decide (a = x3a) && bool_decide (b = x3a) then
          match rest with
          | [] => Some (zeros 16)
          | _ => '(ip, e, s) ← groups_loop 8 rest [] (Some 0); expand_ellipsis ip e s
          end
        else '(ip, e, s) ← groups_loop 8 s [] None; expand_ellipsis ip e s
    | _ => '(ip, e, s) ← groups_loop 8 s [] None; expand_ellipsis ip e s
    end.

(** The first dot, colon or percent sign decides. *)
Definition ParseIP (s : bytes) : option bytes :=
  match List.find (fun c => bool_decide (c ∈ [x2e; x3a; x25])) s with
  | Some c =>
      if bool_decide (c = x2e) then v4 ← Gateway.ParseIPv4 s; Some (zeros 10 ++ [xff; xff] ++ v4)
      else if bool_decide (c = x3a) then parseIPv6 s
      else None
  | None => None
  end.

Definition To4 (ip : bytes) : option bytes :=
  if bytes_eqb (take 12 ip) (zeros 10 ++ [xff; xff]) then Some (drop 12 ip) else None.

(** [strings.LastIndexByte], cutting there: what is before and after the last [c]. *)
Definition cut_last (c : byte) (s : bytes) : option (bytes * bytes) :=
  match span (fun b => negb (bool_decide (b = c))) (rev s) with
  | (_, []) => None
  | (after, _ :: before) => Some (rev before, rev after)
  end.

Definition SplitHostPort (hostport : bytes) : option (bytes * bytes) :=
  match cut_last x3a hostport with
  | None => None
  | Some (before, port) =>
      let finish (host : bytes) (j k : nat) :=
        if bool_decide (x5b ∈ drop j hostport) then None
        else if bool_decide (x5d ∈ drop k hostport) then None
        else Some (host, port) in
      match hostport with
      | c :: _ =>
          if bool_decide (c = x5b) then
            match index_byte hostport x5d with
            | None => None
            | Some e => if Nat.eqb (e + 1) (length before) then finish (take (e - 1) (drop 1 hostport)) 1%nat (e + 1)%nat else None
            end
          else if bool_decide (x3a ∈ before) then None else finish before 0%nat 0%nat
      | [] => None
      end
  end.

(** [strconv.ParseUint(s, 10, 16)] *)
Definition ParseUint16 (s : bytes) : option Z :=
  if (0 <? zlen s) && forallb is_digit s && (dec_value s <? 2 ^ 16) then Some (dec_value s) else None.

(** ** The client *)
Definition socksVersion : byte := x05.
Definition jwtAuthVersion : byte := x01.
Definition userPassAuthVersion : byte := x01.
Definition cmdConnect : byte := x01.
Definition atypIPv4 : byte := x01.
Definition atypDomain : byte := x03.
Definition atypIPv6 : byte := x04.
Definition methodNoAuth : byte := x00.
Definition methodUserPass : byte := x02.
Definition methodSAPJWT : byte := x80.
Definition methodNone : byte := xff.

Definition errProtocol : error := ESocks5 SOCKS_ErrProtocol.
Definition errRejected : error := ESocks5 SOCKS_ErrAuthRejected.
Definition errRead : error := ESocks5 SOCKS_ErrRead.
Definition errWrite : error := ESocks5 SOCKS_ErrWrite.

Inductive Auth : Type :=
| NoAuth
| UserPass (Username Password : bytes)
| SAPJWT (Token LocationID : bytes).

Definition method (a : Auth) : byte :=
  match a with NoAuth => methodNoAuth | UserPass _ _ => methodUserPass | SAPJWT _ _ => methodSAPJWT end.

(** The two bytes of a reply: a version and a status. *)
Definition read_status (version : byte) : M conn unit :=
  resp ← conn_read errRead 2;
  v ← lift (go_index resp 0);
  st ← lift (go_index resp 1);
  if negb (bool_decide (v = version)) then fail errProtocol
  else if negb (bool_decide (st = x00)) then fail errRejected
  else mret tt.

Definition userPassRequest (username password : bytes) : bytes :=
  [userPassAuthVersion; z2b (zlen username)] ++ username ++ [z2b (zlen password)] ++ password.

Definition jwtLocation (locationID : bytes) : bytes :=
  if bool_decide (locationID = []) then [] else EncodeToString locationID.

Definition jwtRequest (token location : bytes) : bytes :=
  [jwtAuthVersion] ++ be_split 4 (uint32 (zlen token)) ++ token ++ [z2b (zlen location)] ++ location.

Definition authenticate (a : Auth) : M conn unit :=
  match a with
  | NoAuth => mret tt
  | UserPass username password =>
      if (255 <? zlen username) || (255 <? zlen password) then fail errProtocol
      else
        conn_write errWrite (userPassRequest username password);;
        read_status userPassAuthVersion
  | SAPJWT token locationID =>
      if 0xffffffff <? zlen token then fail errProtocol
      else
        let location := jwtLocation locationID in
        if 255 <? zlen location then fail errProtocol
        else
          conn_write errWrite (jwtRequest token location);;
          read_status jwtAuthVersion
  end.

Definition connectRequest (host : bytes) (port : Z) : bytes :=
  match ParseIP host with
  | Some ip =>
      match To4 ip with
      | Some v4 => [socksVersion; cmdConnect; x00; atypIPv4] ++ v4
      | None => [socksVersion; cmdConnect; x00; atypIPv6] ++ ip
      end
  | None => [socksVersion; cmdConnect; x00; atypDomain; z2b (zlen host)] ++ host
  end ++ be_split 2 port.

Definition readConnectReply : M conn unit :=
  head ← conn_read errRead 4;
  v ← lift (go_index head 0);
  code ← lift (go_index head 1);
  reserved ← lift (go_index head 2);
  atyp ← lift (go_index head 3);
  if negb (bool_decide (v = socksVersion)) || negb (bool_decide (reserved = x00)) then fail errProtocol
  else if negb (bool_decide (code = x00)) then fail (ESocks5 (SOCKS_ErrConnectReply (b2z code)))
  else
    addrLen ← (if bool_decide (atyp = atypIPv4) then mret 4
               else if bool_decide (atyp = atypIPv6) then mret 16
               else if bool_decide (atyp = atypDomain) then
                 l ← conn_read errRead 1; n ← lift (go_index l 0); mret (b2z n)
               else fail errProtocol);
    conn_read errRead (addrLen + 2);;
    mret tt.

Definition handshake (auth : Auth) (host : bytes) (port : Z) : M conn unit :=
  conn_write errWrite [socksVersion; x01; method auth];;
  selection ← conn_read errRead 2;
  v ← lift (go_index selection 0);
  chosen ← lift (go_index selection 1);
  if negb (bool_decide (v = socksVersion)) then fail errProtocol
  else if bool_decide (chosen = methodNone) then fail (ESocks5 SOCKS_ErrNoAcceptableMethods)
  else if negb (bool_decide (chosen = method auth)) then fail errProtocol
  else
    authenticate auth;;
    conn_write errWrite (connectRequest host port);;
    readConnectReply.

Definition splitTarget (addr : bytes) : res (bytes * Z) :=
  match SplitHostPort addr with
  | None => Err errProtocol
  | Some (host, portStr) =>
      match ParseUint16 portStr with
      | None => Err errProtocol
      | Some port => if bool_decide (host = []) || (255 <? zlen host) then Err errProtocol else Ok (host, port)
      end
  end.

(** [Dial]: [dialed] is what dialling the proxy gives; the second result are the connections
    that were closed. *)
Definition Dial (auth : option Auth) (dialed : res conn) (network addr : bytes) : res conn * list conn :=
  if negb (bytes_eqb network (lit "tcp")) then (Err errProtocol, [])
  else
    match splitTarget addr with
    | Err e => (Err e, [])
    | Panic => (Panic, [])
    | Ok (host, port) =>
        match dialed with
        | Err e => (Err e, [])
        | Panic => (Panic, [])
        | Ok c =>
            match handshake (default NoAuth auth) host port c with
            | (Ok _, c) => (Ok c, [])
            | (Err e, c) => (Err e, [c])
            | (Panic, c) => (Panic, [])
            end
        end
    end.

(** ** What an exchange takes from the connection and adds to it *)
Record moves (c c' : conn) (taken sent : bytes) (writes : nat) : Prop := {
  mv_in : incoming c = taken ++ incoming c';
  mv_out : outgoing c' = outgoing c ++ sent;
  mv_writes : writes_left c = (writes + writes_left c')%nat }.

Lemma moves_none c : moves c c [] [] 0.
Proof. split; [done|by rewrite app_nil_r|done]. Qed.

Lemma moves_nothing c c' : moves c c' [] [] 0 -> c' = c.
Proof. intros [H1 H2 H3]. destruct c, c'. cbn in *. rewrite app_nil_r in H2. by subst. Qed.

Lemma moves_trans c c1 c' t1 t2 s1 s2 w1 w2 :
  moves c c1 t1 s1 w1 -> moves c1 c' t2 s2 w2 -> moves c c' (t1 ++ t2) (s1 ++ s2) (w1 + w2).
Proof.
  intros [A1 A2 A3] [B1 B2 B3]. split; [by rewrite A1, B1, app_assoc|by rewrite B2, A2, app_assoc|lia].
Qed.

(** What comes first of the two parts can be taken first. *)
Lemma moves_split c c' t1 t2 s1 s2 w1 w2 :
  moves c c' (t1 ++ t2) (s1 ++ s2) (w1 + w2) -> exists c1, moves c c1 t1 s1 w1 /\ moves c1 c' t2 s2 w2.
Proof.
  intros [H1 H2 H3]. exists (mkConn (t2 ++ incoming c') (outgoing c ++ s1) (w2 + writes_left c')).
  split; split; cbn; [by rewrite H1, app_assoc|done|lia|done|by rewrite H2, app_assoc|done].
Qed.

Lemma read_moves e n c l c' : 0 <= n -> conn_read e n c = (Ok l, c') <-> zlen l = n /\ moves c c' l [] 0.
Proof.
  intros Hn. split.
  - intros (H1 & H2 & H3 & H4)%conn_read_inv; [|done]. split; [done|]. split; [done|by rewrite app_nil_r|done].
  - intros [Hl [H1 H2 H3]]. rewrite (conn_read_ok _ _ _ l (incoming c')) by done. rewrite app_nil_r in H2.
    destruct c'. cbn in *. by rewrite H3, H2.
Qed.

Lemma write_moves e b c c' : conn_write e b c = (Ok tt, c') <-> moves c c' [] b 1.
Proof.
  split.
  - intros (H1 & H2 & H3)%conn_write_inv. by split.
  - intros [H1 H2 H3]. rewrite (conn_write_ok _ _ _ (writes_left c')) by done. destruct c'. cbn in *. by rewrite <- H1, H2.
Qed.

Lemma bind_moves {A B} (m : M conn A) (k : A -> M conn B) c b c' :
  (m ≫= k) c = (Ok b, c') <-> exists a c1, m c = (Ok a, c1) /\ k a c1 = (Ok b, c').
Proof.
  split; [apply bind_inv|]. intros (a & c1 & H1 & H2). by rewrite (bind_ok _ _ _ _ _ H1).
Qed.

(** Reading the bytes [l], whose number is known, and going on. *)
Lemma read_then {B} e n (k : bytes -> M conn B) c b c' :
  0 <= n ->
  (conn_read e n ≫= k) c = (Ok b, c') <-> exists l c1, zlen l = n /\ moves c c1 l [] 0 /\ k l c1 = (Ok b, c').
Proof.
  intros Hn. rewrite bind_moves. split; intros (l & c1 & H).
  - destruct H as [H1 H2]. apply read_moves in H1 as [Hl Hm]; [|done]. by exists l, c1.
  - destruct H as (Hl & Hm & H2). exists l, c1. split; [|done]. by apply read_moves.
Qed.

Lemma write_then {B} e x (k : unit -> M conn B) c b c' :
  (conn_write e x ≫= k) c = (Ok b, c') <-> exists c1, moves c c1 [] x 1 /\ k tt c1 = (Ok b, c').
Proof.
  rewrite bind_moves. split.
  - intros ([] & c1 & H1%write_moves & H2). by exists c1.
  - intros (c1 & H1%(write_moves e) & H2). by exists tt, c1.
Qed.

Lemma pair_cases (l : bytes) : zlen l = 2 -> exists a b, l = [a; b].
Proof. destruct l as [|a [|b [|]]]; intros H; try (unfold zlen in H; cbn in H; lia). by exists a, b. Qed.

Lemma quad_cases (l : bytes) : zlen l = 4 -> exists a b c d, l = [a; b; c; d].
Proof. destruct l as [|a [|b [|c [|d [|]]]]]; intros H; try (unfold zlen in H; cbn in H; lia). by exists a, b, c, d. Qed.

(** ** Each part of the handshake *)
Lemma status_exact v c c' : read_status v c = (Ok tt, c') <-> moves c c' [v; x00] [] 0.
Proof.
  unfold read_status. rewrite read_then by lia. split.
  - intros (l & c1 & (a & b & ->)%pair_cases & Hm & H). change (go_index [a; b] 0) with (Ok a : res byte) in H.
    change (go_index [a; b] 1) with (Ok b : res byte) in H. unfold lift, mbind, stm_bind in H.
    destruct (bool_decide_reflect (a = v)) as [->|]; [|done]. destruct (bool_decide_reflect (b = x00)) as [->|]; [|done].
    cbn in H. by injection H as <-.
  - intros Hm. exists [v; x00], c'. split; [done|]. split; [done|].
    change (go_index [v; x00] 0) with (Ok v : res byte). change (go_index [v; x00] 1) with (Ok x00 : res byte).
    unfold lift, mbind, stm_bind. rewrite !bool_decide_eq_true_2 by done. done.
Qed.

(** What an authentication sends, what the proxy answers, and when it fits the formats. *)
Definition auth_request (a : Auth) : bytes :=
  match a with
  | NoAuth => []
  | UserPass u p => userPassRequest u p
  | SAPJWT t l => jwtRequest t (jwtLocation l)
  end.
Definition auth_reply (a : Auth) : bytes := match a with NoAuth => [] | _ => [x01; x00] end.
Definition auth_writes (a : Auth) : nat := match a with NoAuth => 0 | _ => 1 end.
Definition auth_fits (a : Auth) : Prop :=
  match a with
  | NoAuth => True
  | UserPass u p => zlen u <= 255 /\ zlen p <= 255
  | SAPJWT t l => zlen t <= 0xffffffff /\ zlen (jwtLocation l) <= 255
  end.

Lemma authenticate_exact a c c' :
  authenticate a c = (Ok tt, c') <-> auth_fits a /\ moves c c' (auth_reply a) (auth_request a) (auth_writes a).
Proof.
  assert (forall v x, (conn_write errWrite x ;; read_status v) c = (Ok tt, c') <-> moves c c' [v; x00] x 1) as Hx.
  { intros v x. rewrite write_then. split.
    - intros (c1 & Hw & Hr%status_exact). rewrite <- (app_nil_r x). exact (moves_trans _ _ _ _ _ _ _ _ _ Hw Hr).
    - intros Hm. destruct (moves_split c c' [] [v; x00] x [] 1 0) as (c1 & H1 & H2); [by rewrite app_nil_r|].
      exists c1. split; [done|]. by apply status_exact. }
  destruct a as [|u p|t l]; cbn [authenticate auth_fits auth_reply auth_request auth_writes].
  - split; [intros [= <-]; split; [done|apply moves_none]|]. intros [_ ->%moves_nothing]. done.
  - destruct (Z.ltb_spec 255 (zlen u)); cbn [orb]; [split; [done|lia]|].
    destruct (Z.ltb_spec 255 (zlen p)); [split; [done|lia]|]. rewrite Hx. split; [by split|by intros [_ ?]].
  - destruct (Z.ltb_spec 0xffffffff (zlen t)); [split; [done|lia]|]. cbv zeta.
    destruct (Z.ltb_spec 255 (zlen (jwtLocation l))); [split; [done|lia]|]. rewrite Hx. split; [by split|by intros [_ ?]].
Qed.

(** A reply that accepts the connection, with the bound address. *)
Inductive accepts : bytes -> Prop :=
| accepts_v4 tail : zlen tail = 6 -> accepts ([socksVersion; x00; x00; atypIPv4] ++ tail)
| accepts_v6 tail : zlen tail = 18 -> accepts ([socksVersion; x00; x00; atypIPv6] ++ tail)
| accepts_domain n tail : zlen tail = b2z n + 2 -> accepts ([socksVersion; x00; x00; atypDomain] ++ [n] ++ tail).

(** The rest of a reply behind an address length that is known. *)
Lemma tail_exact n c c' :
  0 <= n -> (conn_read errRead (n + 2) ;; mret tt) c = (Ok tt, c') <-> exists tail, zlen tail = n + 2 /\ moves c c' tail [] 0.
Proof.
  intros Hn. rewrite read_then by lia. split.
  - intros (l & c1 & Hl & Hm & [= <-]). by exists l.
  - intros (l & Hl & Hm). by exists l, c'.
Qed.

Lemma no_writes c c1 c' t1 t2 : moves c c1 t1 [] 0 -> moves c1 c' t2 [] 0 -> moves c c' (t1 ++ t2) [] 0.
Proof. apply moves_trans. Qed.

Lemma no_writes_split c c' t1 t2 : moves c c' (t1 ++ t2) [] 0 -> exists c1, moves c c1 t1 [] 0 /\ moves c1 c' t2 [] 0.
Proof. apply (moves_split c c' t1 t2 [] [] 0 0). Qed.

Definition address_length (atyp : byte) : M conn Z :=
  if bool_decide (atyp = atypIPv4) then mret 4
  else if bool_decide (atyp = atypIPv6) then mret 16
  else if bool_decide (atyp = atypDomain) then l ← conn_read errRead 1; n ← lift (go_index l 0); mret (b2z n)
  else fail errProtocol.

Lemma single_cases (l : bytes) : zlen l = 1 -> exists a, l = [a].
Proof. destruct l as [|a [|]]; intros H; try (unfold zlen in H; cbn in H; lia). by exists a. Qed.

(** The length of the address, and what is taken to learn it. *)
Lemma address_exact atyp c n c' :
  address_length atyp c = (Ok n, c') <->
  (atyp = atypIPv4 /\ n = 4 /\ c' = c) \/ (atyp = atypIPv6 /\ n = 16 /\ c' = c) \/
  (exists m, atyp = atypDomain /\ n = b2z m /\ moves c c' [m] [] 0).
Proof.
  unfold address_length. destruct (bool_decide_reflect (atyp = atypIPv4)) as [->|H4].
  { split; [intros [= <- <-]; by left|]. by intros [(_ & -> & ->)|[(? & _)|(? & ? & _)]]. }
  destruct (bool_decide_reflect (atyp = atypIPv6)) as [->|H6].
  { split; [intros [= <- <-]; by right; left|]. by intros [(? & _)|[(_ & -> & ->)|(? & ? & _)]]. }
  destruct (bool_decide_reflect (atyp = atypDomain)) as [->|Hd].
  - rewrite read_then by lia. split.
    + intros (l & c1 & (m & ->)%single_cases & Hm & H). injection H as <- <-. right; right. by exists m.
    + intros [(? & _)|[(? & _)|(m & _ & -> & Hm)]]; [done|done|]. by exists [m], c'.
  - split; [done|]. intros [(? & _)|[(? & _)|(m & ? & _)]]; done.
Qed.

Lemma reply_exact c c' : readConnectReply c = (Ok tt, c') <-> exists r, accepts r /\ moves c c' r [] 0.
Proof.
  unfold readConnectReply. rewrite read_then by lia. split.
  - intros (l & c1 & (v & code & rsv & atyp & ->)%quad_cases & Hm & H).
    change (go_index [v; code; rsv; atyp] 0) with (Ok v : res byte) in H. change (go_index [v; code; rsv; atyp] 1) with (Ok code : res byte) in H.
    change (go_index [v; code; rsv; atyp] 2) with (Ok rsv : res byte) in H. change (go_index [v; code; rsv; atyp] 3) with (Ok atyp : res byte) in H.
    do 4 (rewrite (bind_ok (lift _) _ c1 _ c1) in H by reflexivity).
    destruct (bool_decide_reflect (v = socksVersion)) as [->|]; [|done]. destruct (bool_decide_reflect (rsv = x00)) as [->|]; [|done].
    destruct (bool_decide_reflect (code = x00)) as [->|]; [|done]. cbn [negb orb] in H.
    fold (address_length atyp) in H. apply bind_moves in H as (n & c2 & Ha & H).
    assert (0 <= n) as Hn by (apply address_exact in Ha as [(_ & -> & _)|[(_ & -> & _)|(m & _ & -> & _)]]; [lia|lia|apply b2z_range]).
    apply (tail_exact n c2 c' Hn) in H as (tail & Ht & Hm2).
    apply address_exact in Ha as [(-> & -> & ->)|[(-> & -> & ->)|(m & -> & -> & Hm1)]]; eexists;
      (split; [|eapply no_writes; [exact Hm|]]); [by apply accepts_v4|exact Hm2|by apply accepts_v6|exact Hm2|by apply accepts_domain|].
    by eapply no_writes.
  - intros (r & Hr & Hm). inversion Hr as [tail Ht|tail Ht|n tail Ht]; subst r;
      apply no_writes_split in Hm as (c1 & H1 & H2); eexists _, c1; (split; [|split; [exact H1|]]); try done;
      do 4 (rewrite (bind_ok (lift _) _ c1 _ c1) by reflexivity); rewrite !bool_decide_eq_true_2 by done; cbn [negb orb].
    + apply bind_moves. exists 4, c1. split; [done|]. apply tail_exact; [lia|]. by exists tail.
    + apply bind_moves. exists 16, c1. split; [done|]. apply tail_exact; [lia|]. by exists tail.
    + apply no_writes_split in H2 as (c2 & H2 & H3). fold (address_length atypDomain). apply bind_moves. exists (b2z n), c2.
      split; [apply address_exact; right; right; by exists n|]. apply tail_exact; [apply b2z_range|]. by exists tail.
Qed.

(** ** No panic *)
Definition calm {A} (m : M conn A) : Prop := forall c, fst (m c) <> Panic.

Lemma calm_bind {A B} (m : M conn A) (k : A -> M conn B) : calm m -> (forall a, calm (k a)) -> calm (m ≫= k).
Proof. intros Hm Hk c. unfold mbind, stm_bind. specialize (Hm c). destruct (m c) as [[a|e|] c1]; [apply Hk|done|done]. Qed.

Lemma calm_read {B} e n (k : bytes -> M conn B) : 0 <= n -> (forall l, zlen l = n -> calm (k l)) -> calm (conn_read e n ≫= k).
Proof.
  intros Hn Hk c. unfold mbind, stm_bind. pose proof (conn_read_no_panic e n c) as Hp.
  destruct (conn_read e n c) as [[l|x|] c1] eqn:E; [|done|done]. apply Hk. by apply conn_read_inv in E as (_ & ? & _).
Qed.

Lemma calm_status v : calm (read_status v).
Proof.
  apply calm_read; [lia|]. intros l (a & b & ->)%pair_cases c. change (go_index [a; b] 0) with (Ok a : res byte).
  change (go_index [a; b] 1) with (Ok b : res byte). do 2 (rewrite (bind_ok (lift _) _ c _ c) by reflexivity).
  destruct (negb _); [done|]. by destruct (negb _).
Qed.

Lemma calm_authenticate a : calm (authenticate a).
Proof.
  destruct a as [|u p|t l]; cbn [authenticate]; [done| |]; [destruct (_ || _)|destruct (_ <? _); [|cbv zeta; destruct (_ <? _)]]; try done;
    (apply calm_bind; [intros ?; apply conn_write_no_panic|intros _; apply calm_status]).
Qed.

Lemma calm_address atyp : calm (address_length atyp).
Proof.
  unfold address_length. destruct (bool_decide _); [done|]. destruct (bool_decide _); [done|]. destruct (bool_decide _); [|done].
  apply calm_read; [lia|]. intros l (a & ->)%single_cases. done.
Qed.

Lemma calm_reply : calm readConnectReply.
Proof.
  apply calm_read; [lia|]. intros l (v & code & rsv & atyp & ->)%quad_cases c.
  change (go_index [v; code; rsv; atyp] 0) with (Ok v : res byte). change (go_index [v; code; rsv; atyp] 1) with (Ok code : res byte).
  change (go_index [v; code; rsv; atyp] 2) with (Ok rsv : res byte). change (go_index [v; code; rsv; atyp] 3) with (Ok atyp : res byte).
  do 4 (rewrite (bind_ok (lift _) _ c _ c) by reflexivity). destruct (_ || _); [done|]. destruct (negb _); [done|].
  apply (calm_bind (address_length atyp)); [apply calm_address|]. intros n. apply calm_bind; [intros ?; apply conn_read_no_panic|done].
Qed.

Lemma calm_handshake a host port : calm (handshake a host port).
Proof.
  apply calm_bind; [intros ?; apply conn_write_no_panic|]. intros _. apply calm_read; [lia|]. intros l (v & m & ->)%pair_cases c.
  change (go_index [v; m] 0) with (Ok v : res byte). change (go_index [v; m] 1) with (Ok m : res byte).
  do 2 (rewrite (bind_ok (lift _) _ c _ c) by reflexivity). destruct (negb _); [done|]. destruct (bool_decide _); [done|]. destruct (negb _); [done|].
  apply calm_bind; [apply calm_authenticate|]. intros _. apply calm_bind; [intros ?; apply conn_write_no_panic|]. intros _. apply calm_reply.
Qed.

(** C28: The handshake never panics, and succeeds exactly when the credentials fit their
    formats, the connection takes every write and the proxy answers with the offered method,
    an accepted authentication and a well-formed success reply; it then has sent exactly the
    greeting, the authentication and the CONNECT request, and the tunnelled bytes behind the
    reply are still to be read. *)
Theorem socks_handshake_exact a host port c c' :
  fst (handshake a host port c) <> Panic /\
  (handshake a host port c = (Ok tt, c') <->
   auth_fits a /\ exists reply, accepts reply /\
    incoming c = [socksVersion; method a] ++ auth_reply a ++ reply ++ incoming c' /\
    outgoing c' = outgoing c ++ [socksVersion; x01; method a] ++ auth_request a ++ connectRequest host port /\
    writes_left c = (2 + auth_writes a + writes_left c')%nat).
Proof.
  split; [apply calm_handshake|].
  assert (method a <> methodNone) as Hne by by destruct a.
  unfold handshake. rewrite write_then. split.
  - intros (c1 & M1 & H). apply read_then in H as (l & c2 & (v & m & ->)%pair_cases & M2 & H); [|lia].
    change (go_index [v; m] 0) with (Ok v : res byte) in H. change (go_index [v; m] 1) with (Ok m : res byte) in H.
    do 2 (rewrite (bind_ok (lift _) _ c2 _ c2) in H by reflexivity).
    destruct (bool_decide_reflect (v = socksVersion)) as [->|]; [|done]. cbn [negb] in H.
    destruct (bool_decide_reflect (m = methodNone)); [done|]. destruct (bool_decide_reflect (m = method a)) as [->|]; [|done]. cbn [negb] in H.
    apply bind_moves in H as ([] & c3 & [Hf M3]%authenticate_exact & H). apply write_then in H as (c4 & M4 & (r & Hr & M5)%reply_exact).
    split; [done|]. exists r. split; [done|].
    destruct (moves_trans _ _ _ _ _ _ _ _ _ M1 (moves_trans _ _ _ _ _ _ _ _ _ M2 (moves_trans _ _ _ _ _ _ _ _ _ M3
      (moves_trans _ _ _ _ _ _ _ _ _ M4 M5)))) as [Hi Ho Hw].
    split; [rewrite Hi; by rewrite <- !app_assoc|]. split; [rewrite Ho; by rewrite app_nil_r|lia].
  - intros (Hf & r & Hr & Hi & Ho & Hw).
    assert (moves c c' ([] ++ [socksVersion; method a] ++ auth_reply a ++ [] ++ r)
      ([socksVersion; x01; method a] ++ [] ++ auth_request a ++ connectRequest host port ++ []) (1 + (0 + (auth_writes a + (1 + 0))))) as Hm.
    { split; [rewrite Hi; by rewrite <- !app_assoc|by rewrite app_nil_r|lia]. }
    apply moves_split in Hm as (c1 & M1 & Hm). apply moves_split in Hm as (c2 & M2 & Hm).
    apply moves_split in Hm as (c3 & M3 & Hm). apply moves_split in Hm as (c4 & M4 & M5).
    exists c1. split; [done|]. apply read_then; [lia|]. eexists _, c2. split; [|split; [exact M2|]]; [done|].
    do 2 (rewrite (bind_ok (lift _) _ c2 _ c2) by reflexivity). rewrite (bool_decide_eq_true_2 (socksVersion = socksVersion)) by done.
    rewrite bool_decide_eq_false_2, bool_decide_eq_true_2 by done. cbn [negb].
    apply bind_moves. exists tt, c3. split; [by apply authenticate_exact|]. apply write_then. exists c4. split; [done|].
    apply reply_exact. by exists r.
Qed.

(** ** Targets *)
Lemma cut_last_spec c s a b : cut_last c s = Some (a, b) <-> s = a ++ c :: b /\ (c ∉ b).
Proof.
  unfold cut_last. split.
  - destruct (span _ (rev s)) as [x y] eqn:E. apply span_inv in E as (Hs & Hx & Hy). destruct y as [|d y]; [done|]. intros [= <- <-].
    assert (d = c) as -> by (by destruct (bool_decide_reflect (d = c))).
    split; [rewrite <- (rev_involutive s), Hs, rev_app_distr; cbn [rev]; by rewrite <- app_assoc|].
    rewrite list_elem_of_In, <- in_rev, <- list_elem_of_In. intros Hin. rewrite Forall_forall in Hx. specialize (Hx c Hin).
    by rewrite bool_decide_eq_true_2 in Hx.
  - intros [-> Hb]. rewrite rev_app_distr. cbn [rev]. rewrite <- app_assoc. cbn [app]. rewrite span_app.
    + by rewrite !rev_involutive.
    + apply Forall_forall. intros d Hd. rewrite bool_decide_eq_false_2; [done|]. intros ->. apply Hb.
      by rewrite list_elem_of_In, <- (rev_involutive b), <- in_rev, <- list_elem_of_In.
    + by rewrite bool_decide_eq_true_2.
Qed.

(** The two forms of a host and a port. *)
Inductive target_form (host port : bytes) : bytes -> Prop :=
| form_bare : x3a ∉ host -> x5b ∉ host -> x5d ∉ host -> target_form host port (host ++ x3a :: port)
| form_brackets : x5b ∉ host -> x5d ∉ host -> target_form host port (x5b :: host ++ x5d :: x3a :: port).

Lemma not_in_app (c : byte) a b : (c ∉ a ++ b) <-> (c ∉ a) /\ (c ∉ b).
Proof. rewrite elem_of_app. tauto. Qed.

(** The bracketed form, as far as the first closing bracket and the last colon show it. *)
Lemma brackets_found s before port e :
  cut_last x3a (x5b :: s) = Some (before, port) -> index_byte (x5b :: s) x5d = Some e -> (e + 1)%nat = length before ->
  exists host, s = host ++ x5d :: x3a :: port /\ (x5d ∉ host) /\ e = S (length host).
Proof.
  intros [Hs _]%cut_last_spec Hi He. pose proof (index_byte_spec (x5b :: s) x5d) as H. rewrite Hi in H. destruct H as (t & Ht & Hn & Hl).
  destruct e as [|e]; [cbn in Ht; by injection Ht|]. cbn [take app] in Ht, Hn. injection Ht as Ht. apply not_elem_of_cons in Hn as [_ Hn].
  exists (take e s). assert (e <= length s)%nat as Hle by (cbn in Hl; lia).
  split; [|split; [done|by rewrite length_take, Nat.min_l]]. rewrite Ht at 1. do 2 f_equal.
  assert (x5b :: take e s ++ x5d :: t = before ++ x3a :: port) as E by by rewrite <- Ht.
  change (x5b :: take e s ++ x5d :: t) with ((x5b :: take e s) ++ [x5d] ++ t) in E. rewrite app_assoc in E.
  apply app_inj_1 in E as [_ ->]; [done|]. rewrite length_app. cbn [length]. rewrite length_take. lia.
Qed.

Lemma split_spec s host port :
  SplitHostPort s = Some (host, port) <->
  target_form host port s /\ (x3a ∉ port) /\ (x5b ∉ port) /\ (x5d ∉ port).
Proof.
  unfold SplitHostPort. split.
  - destruct (cut_last x3a s) as [[before p]|] eqn:E; [|done]. cbv zeta. destruct s as [|c s]; [done|].
    destruct (bool_decide_reflect (c = x5b)) as [->|Hc].
    + destruct (index_byte (x5b :: s) x5d) as [e|] eqn:Ei; [|done]. destruct (Nat.eqb_spec (e + 1) (length before)) as [He|]; [|done].
      destruct (brackets_found _ _ _ _ E Ei He) as (h & -> & Hh & ->). apply cut_last_spec in E as [_ Hp].
      destruct (bool_decide_reflect (x5b ∈ drop 1 (x5b :: h ++ x5d :: x3a :: p))) as [|H1]; [done|].
      destruct (bool_decide_reflect (x5d ∈ drop (S (length h) + 1) (x5b :: h ++ x5d :: x3a :: p))) as [|H2]; [done|].
      change (drop 1 (x5b :: h ++ x5d :: x3a :: p)) with (h ++ x5d :: x3a :: p) in H1. rewrite not_in_app, !not_elem_of_cons in H1. destruct H1 as (H1 & _ & _ & H3).
      rewrite Nat.add_1_r in H2. cbn [drop] in H2. change (x5d :: x3a :: p) with ([x5d] ++ x3a :: p) in H2.
      rewrite app_assoc, drop_app_length' in H2 by (rewrite length_app; cbn; lia). apply not_elem_of_cons in H2 as [_ H2].
      intros [= <- <-]. rewrite Nat.sub_0_r, drop_0, take_app_length. by split; [apply form_brackets|].
    + apply cut_last_spec in E as [-> Hp]. destruct (bool_decide_reflect (x3a ∈ before)) as [|Hb]; [done|].
      rewrite !drop_0. destruct (bool_decide_reflect (x5b ∈ before ++ x3a :: p)) as [|H1]; [done|].
      destruct (bool_decide_reflect (x5d ∈ before ++ x3a :: p)) as [|H2]; [done|].
      rewrite not_in_app, not_elem_of_cons in H1, H2. destruct H1 as (? & _ & ?), H2 as (? & _ & ?).
      intros [= <- <-]. by split; [apply form_bare|].
  - intros (Hf & H1 & H2 & H3). destruct Hf as [A B C|B C].
    + rewrite (proj2 (cut_last_spec x3a (host ++ x3a :: port) host port)) by done. cbv zeta. rewrite !drop_0.
      assert ((x5b ∉ host ++ x3a :: port) /\ (x5d ∉ host ++ x3a :: port)) as [D1 D2] by (rewrite !not_in_app, !not_elem_of_cons; done).
      rewrite !(bool_decide_eq_false_2 _ D1), !(bool_decide_eq_false_2 _ D2), (bool_decide_eq_false_2 _ A).
      destruct host as [|c host]; [done|]. cbn [app]. rewrite bool_decide_eq_false_2; [done|]. intros ->. apply B. left.
    + rewrite (proj2 (cut_last_spec x3a (x5b :: host ++ x5d :: x3a :: port) (x5b :: host ++ [x5d]) port))
        by (split; [cbn; by rewrite <- app_assoc|done]). cbv zeta.
      rewrite bool_decide_eq_true_2 by done. cbn [index_byte]. rewrite bool_decide_eq_false_2 by done.
      rewrite index_byte_app by done. cbn [fmap option_fmap option_map].
      rewrite (proj2 (Nat.eqb_eq _ _)) by (cbn; rewrite length_app; cbn; lia).
      rewrite Nat.add_1_r. cbn [drop Nat.sub]. rewrite Nat.sub_0_r, !drop_0, take_app_length.
      rewrite bool_decide_eq_false_2 by (rewrite not_in_app, !not_elem_of_cons; done).
      change (x5d :: x3a :: port) with ([x5d] ++ x3a :: port). rewrite app_assoc, drop_app_length' by (rewrite length_app; cbn; lia).
      by rewrite bool_decide_eq_false_2 by (rewrite not_elem_of_cons; done).
Qed.

(** A target is accepted exactly when it is a host of 1 to 255 bytes and a decimal port
    below 65,536, written host:port without colons and brackets in the host, or [host]:port
    without brackets in it. *)
Theorem target_exact addr host port :
  splitTarget addr = Ok (host, port) <->
  1 <= zlen host <= 255 /\ exists digits, digits <> [] /\ all_digits digits /\ dec_value digits = port /\ port < 65536 /\
    target_form host digits addr.
Proof.
  assert (forall ds, all_digits ds -> (x3a ∉ ds) /\ (x5b ∉ ds) /\ (x5d ∉ ds)) as Hno.
  { intros ds Hd. rewrite Forall_forall in Hd. split_and!; intros H%Hd; by vm_compute in H. }
  unfold splitTarget, ParseUint16. split.
  - destruct (SplitHostPort addr) as [[h ds]|] eqn:E; [|done]. apply split_spec in E as (Hf & _).
    destruct (Z.ltb_spec 0 (zlen ds)); [|done]. destruct (forallb is_digit ds) eqn:Ed; [|done].
    destruct (Z.ltb_spec (dec_value ds) (2 ^ 16)); [|done]. cbn [andb]. destruct (bool_decide_reflect (h = [])) as [|Hne]; [done|].
    destruct (Z.ltb_spec 255 (zlen h)); [done|]. cbn [orb]. intros [= <- <-].
    split; [destruct h; [done|]; len_lia|]. exists ds. apply forallb_digits in Ed. split_and!; try done. by intros ->.
  - intros (Hl & ds & Hne & Hd & Hv & Hp & Hf). destruct (Hno ds Hd) as (A & B & C).
    rewrite (proj2 (split_spec addr host ds)) by done. rewrite (proj2 (forallb_digits ds) Hd), Hv.
    rewrite (proj2 (Z.ltb_lt 0 (zlen ds))) by (destruct ds; [done|len_lia]). change (2 ^ 16) with 65536.
    rewrite (proj2 (Z.ltb_lt port 65536)) by lia. cbn [andb]. rewrite bool_decide_eq_false_2 by (intros ->; unfold zlen in Hl; cbn in Hl; lia).
    rewrite (proj2 (Z.ltb_ge 255 (zlen host))) by lia. done.
Qed.

(** ** What a proxy reads from a request *)
Inductive target : Type :=
| TargetIPv4 (ip : bytes)
| TargetIPv6 (ip : bytes)
| TargetDomain (name : bytes).

(** RFC 1928: version, command, a zero, the kind of address, the address, the port. *)
Definition read_connect (r : bytes) : option (target * Z) :=
  match r with
  | v :: cmd :: rsv :: atyp :: rest =>
      if negb (bool_decide ([v; cmd; rsv] = [x05; x01; x00])) then None
      else
        '(t, port) ← (if bool_decide (atyp = x01) then Some (TargetIPv4 (take 4 rest), drop 4 rest)
                      else if bool_decide (atyp = x04) then Some (TargetIPv6 (take 16 rest), drop 16 rest)
                      else if bool_decide (atyp = x03) then
                        match rest with
                        | n :: rest => let n := Z.to_nat (b2z n) in Some (TargetDomain (take n rest), drop n rest)
                        | [] => None
                        end
                      else None);
        if zlen port =? 2 then Some (t, be_combine port) else None
  | _ => None
  end.

(** The target a host names. *)
Definition target_of (host : bytes) : target :=
  match ParseIP host with
  | Some ip => match To4 ip with Some v4 => TargetIPv4 v4 | None => TargetIPv6 ip end
  | None => TargetDomain host
  end.

Lemma ipv4_length s v4 : Gateway.ParseIPv4 s = Some v4 -> zlen v4 = 4.
Proof. by intros (a & b & c & d & -> & _)%Gateway.parse_sound. Qed.

Lemma groups_bounds fuel s ip e ip' e' s' :
  groups_loop fuel s ip e = Some (ip', e', s') -> zlen ip + 2 * Z.of_nat fuel <= 16 ->
  match e with Some e => 0 <= e <= zlen ip | None => True end ->
  zlen ip' <= 16 /\ match e' with Some e => 0 <= e <= zlen ip' | None => True end.
Proof.
  revert s ip e. induction fuel as [|fuel IH]; intros s ip e; cbn [groups_loop]; [intros [= <- <- <-] ? ?; by split; [lia|]|].
  intros H Hb He. destruct (hex_group s) as [[acc rest]|]; [|done]. cbv zeta in H.
  assert (zlen (be_split 2 acc) = 2) as Hw by (unfold zlen; by rewrite length_be_split).
  revert H. generalize dependent (be_split 2 acc). intros w Hw H.
  assert (zlen (ip ++ w) = zlen ip + 2) as Hz by (rewrite zlen_app; lia).
  assert (match e with Some e => 0 <= e <= zlen (ip ++ w) | None => True end) as He2 by (destruct e; [lia|done]).
  destruct rest as [|c s1]; [injection H as <- <- <-; rewrite Hz; split; [lia|]; destruct e; [lia|done]|].
  destruct (bool_decide (c = x2e)).
  - destruct (_ && _); [done|]. destruct (Z.ltb_spec 16 (zlen ip + 4)); [done|].
    destruct (Gateway.ParseIPv4 s) as [v4|] eqn:E4; [|done]. apply ipv4_length in E4. injection H as <- <- <-.
    rewrite zlen_app, E4. split; [lia|]. destruct e; [lia|done].
  - destruct (negb _); [done|]. destruct s1 as [|d s2]; [done|]. destruct (bool_decide (d = x3a)).
    + destruct e; [done|]. pose proof (zlen_nonneg ip).
      destruct s2; [injection H as <- <- <-; rewrite !Hz; lia|]. eapply IH; [exact H|lia|]. rewrite !Hz. lia.
    + eapply IH; [exact H|lia|exact He2].
Qed.

Lemma parse_ip_length s ip : ParseIP s = Some ip -> zlen ip = 16.
Proof.
  assert (forall ip e s ip', zlen ip <= 16 -> match e with Some e => 0 <= e <= zlen ip | None => True end ->
    expand_ellipsis ip e s = Some ip' -> zlen ip' = 16) as Hx.
  { intros p e t ip' Hp He. unfold expand_ellipsis. destruct (negb _); [done|]. pose proof (zlen_nonneg p).
    destruct (Z.ltb_spec (zlen p) 16); [|destruct e; [done|]; intros [= <-]; lia]. destruct e as [e|]; [|done]. intros [= <-].
    unfold zlen, zeros in *. rewrite !length_app, length_take, length_drop, length_replicate. lia. }
  assert (forall t e, match e with Some e => 0 <= e <= 0 | None => True end ->
    ('(ip, e, s) ← groups_loop 8 t [] e; expand_ellipsis ip e s) = Some ip -> zlen ip = 16) as Hg.
  { intros t e He. destruct (groups_loop 8 t [] e) as [[[p e'] s']|] eqn:E; [|done].
    destruct (groups_bounds _ _ _ _ _ _ _ E ltac:(done) ltac:(destruct e; done)) as [H1 H2]. cbn. by apply Hx. }
  unfold ParseIP. destruct (List.find _ s) as [c|]; [|done]. destruct (bool_decide (c = x2e)).
  - destruct (Gateway.ParseIPv4 s) as [v4|] eqn:E; [|done]. cbn. intros [= <-]. apply ipv4_length in E.
    change (zlen (zeros 10 ++ [xff; xff] ++ v4) = 16). rewrite !zlen_app, E. done.
  - destruct (bool_decide (c = x3a)); [|done]. unfold parseIPv6. destruct (bool_decide _); [done|].
    destruct s as [|a [|b rest]]; [by apply (Hg [] None)|by apply (Hg [a] None)|].
    destruct (_ && _); [|by apply (Hg (a :: b :: rest) None)]. destruct rest as [|d rest]; [by intros [= <-]|]. by apply (Hg (d :: rest) (Some 0)).
Qed.

(** From the CONNECT request for an accepted target a proxy reads back the target and the
    port: the four or sixteen bytes of an address, or the name with its length. *)
Theorem connect_request_read addr host port :
  splitTarget addr = Ok (host, port) -> read_connect (connectRequest host port) = Some (target_of host, port).
Proof.
  intros Ht. assert (zlen host <= 255 /\ 0 <= port < 65536) as [Hh Hp].
  { unfold splitTarget, ParseUint16 in Ht. destruct (SplitHostPort addr) as [[h ds]|]; [|done]. destruct (_ && _ && _) eqn:E; [|done].
    destruct (_ || _) eqn:E2; [done|]. injection Ht as <- <-. apply andb_true_iff in E as [E E3%Z.ltb_lt]. apply andb_true_iff in E as [_ E].
    apply orb_false_iff in E2 as [_ E2%Z.ltb_ge]. apply forallb_digits, dec_value_range in E. change (2 ^ 16) with 65536 in E3. lia. }
  assert (zlen (be_split 2 port) = 2 /\ be_combine (be_split 2 port) = port) as [Z2 C2].
  { split; [unfold zlen; by rewrite length_be_split|]. rewrite be_combine_split. apply Z.mod_small. lia. }
  unfold connectRequest, target_of. destruct (ParseIP host) as [ip|] eqn:Ei.
  - apply parse_ip_length in Ei. unfold To4. destruct (bytes_eqb _ _).
    + cbn [app read_connect]. rewrite bool_decide_eq_true_2 by done. cbn [negb].
      change (bool_decide (atypIPv4 = x01)) with true. cbv iota. rewrite take_app_length', drop_app_length'
        by (rewrite length_drop; unfold zlen in Ei; lia). cbn [mbind option_bind]. by rewrite Z2, C2.
    + cbn [app read_connect]. rewrite bool_decide_eq_true_2 by done. cbn [negb].
      change (bool_decide (atypIPv6 = x01)) with false. change (bool_decide (atypIPv6 = x04)) with true. cbv iota.
      rewrite take_app_length', drop_app_length' by (unfold zlen in Ei; lia). cbn [mbind option_bind]. by rewrite Z2, C2.
  - cbn [app read_connect]. rewrite bool_decide_eq_true_2 by done. cbn [negb].
    change (bool_decide (atypDomain = x01)) with false. change (bool_decide (atypDomain = x04)) with false.
    change (bool_decide (atypDomain = x03)) with true. cbv iota zeta. pose proof (zlen_nonneg host).
    rewrite b2z_z2b_id, to_nat_zlen by lia. rewrite take_app_length, drop_app_length. cbn [mbind option_bind]. by rewrite Z2, C2.
Qed.

(** ** IPv6 texts *)
(** A group: one to four hexadecimal digits. *)
Definition group_text (t : bytes) : Prop := Forall (fun b => is_hex b = true) t /\ 1 <= zlen t <= 4.
Definition group_value (t : bytes) : Z := fold_left (fun acc b => acc * 16 + hex_digit_value b) t 0.
Definition group_bytes (ts : list bytes) : bytes := ts ≫= (fun t => be_split 2 (group_value t)).

(** The groups with colons between them. *)
Fixpoint colons (ts : list bytes) : bytes :=
  match ts with
  | [] => []
  | [t] => t
  | t :: ts => t ++ x3a :: colons ts
  end.

Lemma colons_cons t ts : ts <> [] -> colons (t :: ts) = t ++ x3a :: colons ts.
Proof. by destruct ts. Qed.

Lemma hex_not_sign b : is_hex b = true -> b <> x3a /\ b <> x2e /\ b <> x25.
Proof. intros H. split_and!; intros ->; by vm_compute in H. Qed.

Lemma group_read t rest :
  group_text t -> match rest with [] => True | b :: _ => is_hex b = false end -> hex_group (t ++ rest) = Some (group_value t, rest).
Proof.
  intros [Hh Hl] Hr. unfold hex_group. rewrite span_app by done.
  destruct (Z.eqb_spec (zlen t) 0); [lia|]. by destruct (Z.ltb_spec 4 (zlen t)); [lia|].
Qed.

(** The first byte of a group starts what follows a colon. *)
Lemma colons_start ts rest : Forall group_text ts -> ts <> [] -> exists b s, is_hex b = true /\ colons ts ++ rest = b :: s.
Proof.
  intros Ht Hne. destruct ts as [|t ts]; [done|]. apply Forall_cons in Ht as [[Hh Hl] _].
  destruct t as [|b t]; [unfold zlen in Hl; cbn in Hl; lia|]. apply Forall_cons in Hh as [Hb _].
  destruct ts as [|t' ts]; [by exists b, (t ++ rest)|]. exists b. eexists. split; [done|]. by rewrite colons_cons.
Qed.

(** A run of groups that ends the text, or that a double colon ends. *)
Lemma groups_end fuel ts ip e :
  Forall group_text ts -> ts <> [] -> (length ts <= fuel)%nat ->
  groups_loop fuel (colons ts) ip e = Some (ip ++ group_bytes ts, e, []).
Proof.
  revert ts ip. induction fuel as [|fuel IH]; intros ts ip Ht Hne Hf; [destruct ts; [done|cbn in Hf; lia]|].
  destruct ts as [|t ts]; [done|]. apply Forall_cons in Ht as [Hg Ht]. cbn [groups_loop]. destruct ts as [|t2 ts].
  - cbn [colons]. rewrite <- (app_nil_r t). rewrite group_read by done. cbv zeta. unfold group_bytes. cbn. by rewrite !app_nil_r.
  - rewrite colons_cons by done. rewrite group_read by done. cbv zeta. rewrite bool_decide_eq_false_2 by done.
    rewrite (bool_decide_eq_true_2 (x3a = x3a)) by done. cbn [negb].
    destruct (colons_start (t2 :: ts) [] Ht) as (b & s & Hb & E); [done|]. rewrite app_nil_r in E. rewrite E at 1.
    rewrite bool_decide_eq_false_2 by (by apply hex_not_sign). rewrite IH by (done || (cbn in Hf |- *; lia)).
    unfold group_bytes. cbn [mbind list_bind]. by rewrite <- app_assoc.
Qed.

Lemma groups_ellipsis fuel l r ip :
  Forall group_text l -> Forall group_text r -> l <> [] -> (length l + length r <= fuel)%nat ->
  groups_loop fuel (colons l ++ x3a :: x3a :: colons r) ip None
  = Some (ip ++ group_bytes l ++ group_bytes r, Some (zlen (ip ++ group_bytes l)), []).
Proof.
  revert l ip. induction fuel as [|fuel IH]; intros l ip Hl Hr Hne Hf; [destruct l; [done|cbn in Hf; lia]|].
  destruct l as [|t l]; [done|]. apply Forall_cons in Hl as [Hg Hl]. cbn [groups_loop]. destruct l as [|t2 l].
  - cbn [colons]. rewrite group_read by done. cbv zeta. rewrite bool_decide_eq_false_2 by done.
    rewrite !(bool_decide_eq_true_2 (x3a = x3a)) by done. cbn [negb].
    assert (group_bytes [t] = be_split 2 (group_value t)) as Eb by (unfold group_bytes; cbn [mbind list_bind]; by rewrite app_nil_r).
    rewrite Eb. destruct r as [|t2 r]; [cbn [colons]; unfold group_bytes; cbn [mbind list_bind]; by rewrite app_nil_r|].
    destruct (colons_start (t2 :: r) [] Hr) as (b & s & Hb & E); [done|]. rewrite app_nil_r in E. rewrite E at 1.
    rewrite groups_end by (done || (cbn in Hf |- *; lia)). by rewrite <- app_assoc.
  - rewrite colons_cons by done. rewrite <- app_assoc. cbn [app]. rewrite group_read by done. cbv zeta. rewrite bool_decide_eq_false_2 by done.
    rewrite (bool_decide_eq_true_2 (x3a = x3a)) by done. cbn [negb].
    destruct (colons_start (t2 :: l) (x3a :: x3a :: colons r) Hl) as (b & s & Hb & E); [done|]. rewrite E at 1.
    rewrite bool_decide_eq_false_2 by (by apply hex_not_sign). rewrite IH by (done || (cbn in Hf |- *; lia)).
    unfold group_bytes. cbn [mbind list_bind]. by rewrite <- !app_assoc.
Qed.

Lemma group_bytes_length ts : zlen (group_bytes ts) = 2 * zlen ts.
Proof.
  induction ts as [|t ts IH]; [done|]. unfold group_bytes in *. cbn [mbind list_bind]. rewrite zlen_app, IH.
  unfold zlen. rewrite length_be_split. cbn [length]. lia.
Qed.

Lemma group_signs t : group_text t -> Forall (fun b => b <> x2e /\ b <> x25) t.
Proof. intros [H _]. eapply Forall_impl; [exact H|]. by intros b (_ & ? & ?)%hex_not_sign. Qed.

Lemma colons_signs ts : Forall group_text ts -> Forall (fun b => b <> x2e /\ b <> x25) (colons ts).
Proof.
  induction ts as [|t ts IH]; intros H; [constructor|]. apply Forall_cons in H as [Hg H]. destruct ts as [|t2 ts]; [by apply group_signs|].
  rewrite colons_cons by done. apply Forall_app. split; [by apply group_signs|]. constructor; [done|]. by apply IH.
Qed.

(** A text with a colon and neither a dot nor a percent sign is left to the IPv6 parser. *)
Lemma parse_by_colon s : Forall (fun b => b <> x2e /\ b <> x25) s -> x3a ∈ s -> ParseIP s = parseIPv6 s.
Proof.
  intros Hs Hin. unfold ParseIP.
  assert (List.find (fun c => bool_decide (c ∈ [x2e; x3a; x25])) s = Some x3a) as ->.
  { induction Hs as [|b s [H1 H2] _ IH]; [by apply not_elem_of_nil in Hin|]. cbn [List.find].
    destruct (decide (b = x3a)) as [->|Hne]; [done|]. rewrite bool_decide_eq_false_2.
    - apply IH. apply elem_of_cons in Hin as [Hin|?]; [by subst b|done].
    - rewrite !elem_of_cons, elem_of_nil. intros [?|[?|[?|?]]]; done. }
  by rewrite bool_decide_eq_false_2, bool_decide_eq_true_2 by done.
Qed.

Lemma no_percent s : Forall (fun b => b <> x2e /\ b <> x25) s -> bool_decide (x25 ∈ s) = false.
Proof. intros Hs. apply bool_decide_eq_false_2. intros Hin. rewrite Forall_forall in Hs. by destruct (Hs x25 Hin). Qed.

(** IPv6 texts parse to their bytes: eight groups of one to four hexadecimal digits, or at
    most seven with a double colon anywhere among them, which stands for the zero bytes that
    are missing. *)
Theorem ipv6_texts l r :
  Forall group_text l -> Forall group_text r ->
  (length l = 8%nat -> ParseIP (colons l) = Some (group_bytes l)) /\
  ((length l + length r <= 7)%nat ->
   ParseIP (colons l ++ [x3a; x3a] ++ colons r)
   = Some (group_bytes l ++ zeros (16 - 2 * (zlen l + zlen r)) ++ group_bytes r)).
Proof.
  intros Hl Hr. split.
  - intros H8. pose proof (colons_signs l Hl) as Hs. destruct (colons_start l [] Hl) as (b & s & Hb & E); [by intros ->|]. rewrite app_nil_r in E.
    rewrite parse_by_colon; [|done|destruct l as [|t1 [|t2 l]]; [done|done|]; rewrite colons_cons by done; apply elem_of_app; right; left].
    unfold parseIPv6. rewrite no_percent by done. rewrite E at 1. destruct s as [|c s].
    + exfalso. destruct l as [|t1 [|t2 l]]; [done|done|]. rewrite colons_cons in E by done.
      apply Forall_cons in Hl as [[_ Ht] _]. apply (f_equal length) in E. rewrite length_app in E. unfold zlen in Ht. cbn in E. lia.
    + rewrite (bool_decide_eq_false_2 (b = x3a)) by (by apply hex_not_sign). cbn [andb].
      rewrite groups_end by (done || lia || by intros ->). cbn [mbind option_bind app]. unfold expand_ellipsis. cbn.
      rewrite group_bytes_length. unfold zlen. rewrite H8. done.
  - intros H7. assert (zlen l + zlen r <= 7) as Hz by (unfold zlen; lia).
    assert (Forall (fun b => b <> x2e /\ b <> x25) (colons l ++ [x3a; x3a] ++ colons r)) as Hs.
    { apply Forall_app. split; [by apply colons_signs|]. repeat (constructor; [done|]). by apply colons_signs. }
    rewrite parse_by_colon; [|done|apply elem_of_app; right; left]. unfold parseIPv6. rewrite no_percent by done.
    assert (forall a b, expand_ellipsis (group_bytes a ++ group_bytes b) (Some (zlen (group_bytes a))) []
      = if zlen (group_bytes a ++ group_bytes b) <? 16
        then Some (group_bytes a ++ zeros (16 - zlen (group_bytes a ++ group_bytes b)) ++ group_bytes b) else None) as Hx.
    { intros a b. unfold expand_ellipsis. cbn [negb]. rewrite bool_decide_eq_true_2 by done. cbn [negb]. destruct (_ <? _); [|done].
      by rewrite to_nat_zlen, take_app_length, drop_app_length. }
    assert (zlen (group_bytes l ++ group_bytes r) = 2 * (zlen l + zlen r)) as Hzl by (rewrite zlen_app, !group_bytes_length; lia).
    destruct l as [|t l].
    + cbn [colons app]. rewrite !(bool_decide_eq_true_2 (x3a = x3a)) by done. cbn [andb].
      destruct r as [|t r]; [done|]. destruct (colons_start (t :: r) [] Hr) as (b & s & Hb & E); [done|]. rewrite app_nil_r in E. rewrite E at 1.
      rewrite groups_end by (done || (cbn in H7 |- *; lia)). cbn [mbind option_bind app].
      etrans; [exact (Hx [] (t :: r))|]. rewrite Hzl. by rewrite (proj2 (Z.ltb_lt _ _)) by lia.
    + destruct (colons_start (t :: l) ([x3a; x3a] ++ colons r) Hl) as (b & s & Hb & E); [done|].
      pose proof (groups_ellipsis 8 (t :: l) r [] Hl Hr ltac:(done) ltac:(lia)) as Hg. cbn [app] in Hg, E. rewrite E in Hg |- * at 1.
      assert (exists c s', s = c :: s') as (c & s' & ->).
      { destruct s as [|c s']; [|by eauto]. exfalso. apply (f_equal length) in E. rewrite length_app in E. cbn in E. lia. }
      rewrite (bool_decide_eq_false_2 (b = x3a)) by (by apply hex_not_sign). cbn [andb]. cbn [app]. rewrite E, Hg. cbn [mbind option_bind].
      rewrite Hx, Hzl. by rewrite (proj2 (Z.ltb_lt _ _)) by lia.
Qed.

(** ** Dialling *)
(** A dial succeeds exactly on TCP with an accepted target, a connection to the proxy and a
    handshake that succeeds on it, and then nothing was closed; when the handshake fails the
    connection is closed, once. *)
Theorem dial_outcome auth dialed network addr c closed :
  (Dial auth dialed network addr = (Ok c, closed) <->
   network = lit "tcp" /\ closed = [] /\ exists host port c0,
     splitTarget addr = Ok (host, port) /\ dialed = Ok c0 /\ handshake (default NoAuth auth) host port c0 = (Ok tt, c)) /\
  (forall host port c0 e, network = lit "tcp" -> splitTarget addr = Ok (host, port) -> dialed = Ok c0 ->
   handshake (default NoAuth auth) host port c0 = (Err e, c) -> Dial auth dialed network addr = (Err e, [c])).
Proof.
  unfold Dial. destruct (bytes_eqb network (lit "tcp")) eqn:En; cbn [negb].
  2: { assert (network <> lit "tcp") by (intros ->; by rewrite bytes_eqb_refl in En).
       split; [split; [done|by intros [? _]]|by intros host port c0 e ?]. }
  apply bytes_eqb_eq in En. destruct (splitTarget addr) as [[h p]|e|].
  2-3: (split; [split; [done|by intros (_ & _ & ? & ? & ? & ? & _)]|by intros ? ? ? ? _ ?]).
  destruct dialed as [c0|e|]; [|split; [split; [done|by intros (_ & _ & ? & ? & ? & _ & ? & _)]|by intros ? ? ? ? _ _ ?]..].
  destruct (handshake (default NoAuth auth) h p c0) as [[[]|e|] c1] eqn:Eh; split.
  - split; [intros [= <- <-]; split; [done|]; split; [done|]; by exists h, p, c0|].
    intros (_ & -> & h' & p' & c0' & [= <- <-] & [= <-] & E). rewrite Eh in E. by injection E as ->.
  - intros h' p' c0' e' _ [= <- <-] [= <-]. by rewrite Eh.
  - split; [done|]. intros (_ & _ & h' & p' & c0' & [= <- <-] & [= <-] & E). by rewrite Eh in E.
  - intros h' p' c0' e' _ [= <- <-] [= <-]. rewrite Eh. by intros [= -> ->].
  - split; [done|]. intros (_ & _ & h' & p' & c0' & [= <- <-] & [= <-] & E). by rewrite Eh in E.
  - intros h' p' c0' e' _ [= <- <-] [= <-]. by rewrite Eh.
Qed.

(** ** Instances *)
Definition sample_proxy : conn :=
  mkConn ([x05; x02; x01; x00] ++ [x05; x00; x00; x01; x00; x00; x00; x00; x00; x00] ++ lit "tunnel") [] 3.

Lemma socks_handshake_exact_witness :
  exists c', handshake (UserPass (lit "u") (lit "p")) (lit "10.0.0.1") 3300 sample_proxy = (Ok tt, c') /\
    incoming c' = lit "tunnel" /\ zlen (outgoing c') = 18.
Proof.
  exists (mkConn (lit "tunnel") ([x05; x01; x02] ++ [x01; x01; x75; x01; x70] ++ connectRequest (lit "10.0.0.1") 3300) 0).
  split; [|split; vm_compute; reflexivity].
  apply (socks_handshake_exact (UserPass (lit "u") (lit "p")) (lit "10.0.0.1") 3300 sample_proxy).
  split; [split; vm_compute; discriminate|]. exists [x05; x00; x00; x01; x00; x00; x00; x00; x00; x00].
  split; [apply (accepts_v4 [x00; x00; x00; x00; x00; x00]); reflexivity|]. split; [reflexivity|]. split; reflexivity.
Defined.

Lemma target_exact_witness : splitTarget (lit "[::1]:3300") = Ok (lit "::1", 3300).
Proof.
  apply target_exact. split; [vm_compute; split; discriminate|]. exists (lit "3300"). split; [discriminate|].
  split; [repeat constructor|]. split; [reflexivity|]. split; [reflexivity|].
  apply (form_brackets (lit "::1") (lit "3300")); apply (bool_decide_unpack _); vm_compute; exact I.
Defined.

Lemma connect_request_read_witness :
  read_connect (connectRequest (lit "gateway.example") 3300) = Some (TargetDomain (lit "gateway.example"), 3300).
Proof. exact (connect_request_read (lit "gateway.example:3300") (lit "gateway.example") 3300 eq_refl). Defined.

Lemma ipv6_texts_witness :
  ParseIP (lit "2001:db8::1") = Some ([x20; x01; x0d; xb8] ++ zeros 10 ++ [x00; x01]).
Proof.
  destruct (ipv6_texts [lit "2001"; lit "db8"] [lit "1"]) as [_ H].
  - repeat constructor; vm_compute; discriminate.
  - repeat constructor; vm_compute; discriminate.
  - exact (H ltac:(cbn; lia)).
Defined.

Lemma base64_padded : map EncodeToString [lit "f"; lit "fo"; lit "foo"; lit "foob"] = [lit "Zg=="; lit "Zm8="; lit "Zm9v"; lit "Zm9vYg=="].
Proof. vm_compute. reflexivity. Qed.
