(* ===== verification/Rfcpro.v ===== *)
(** Package [rfcpro], internal/rfcpro/rfcpro.go: the tag and length header in front of
    every field of a CPIC chain, four bytes or, for a length that does not fit below the
    sentinel 0xffff, eight.

    The lemmas: the decoder reads back the canonical header in front of any rest; it
    accepts a header exactly when [header_bytes_of] holds, which also admits the extended
    form of a short length. *)
From stdpp Require Import base list numbers strings.
From Stdlib Require Import ZArith Lia Strings.Byte.
From S2P Require Import Prelude Errors.

Open Scope Z_scope.

Definition ExtendedLengthSentinel : Z := 0xffff.
Definition CompactLengthMax : Z := ExtendedLengthSentinel - 1.
Definition ValueLengthMax : Z := 0x7fffffff.

Inductive LengthEncoding : Type :=
| EncodingCompact
| EncodingExtended.

Record FieldHeader : Type := mkFieldHeader {
  fh_Tag : Z;
  fh_Length : Z;
  fh_Encoding : LengthEncoding;
  fh_BytesConsumed : Z;
}.

Definition validateValueLength (length : Z) (field : string) : res unit :=
  guard ((length <? 0) || (ValueLengthMax <? length)) (ERfcpro RFCPRO_ErrRange).

Definition FieldHeaderByteLength (length : Z) : res Z :=
  validateValueLength length "RFCPRO length";;
  Ok (if length <=? CompactLengthMax then 4 else 8).

Definition EncodeFieldHeader (tag length : Z) : res bytes :=
  byteLength ← FieldHeaderByteLength length;
  Ok (be_split 2 tag ++
      (if byteLength =? 4 then be_split 2 (uint16 length)
       else be_split 2 ExtendedLengthSentinel ++ be_split 4 (uint32 (int32 length)))).

Definition DecodeFieldHeaderLimited (data : bytes) (maxValueLength : Z) : res FieldHeader :=
  validateValueLength maxValueLength "maxValueLength";;
  let n := if 8 <? zlen data then 8 else zlen data in
  buf ← go_slice data 0 n;
  if zlen buf <? 2 then Err (ERfcpro RFCPRO_ErrShortHeader)
  else
    tag ← be_uint 2 buf;
    if zlen buf <? 4 then Err (ERfcpro RFCPRO_ErrShortHeader)
    else
      b ← go_from buf 2;
      compactLength ← be_uint 2 b;
      if negb (compactLength =? ExtendedLengthSentinel) then
        if maxValueLength <? compactLength then Err (ERfcpro RFCPRO_ErrLimitExceeded)
        else Ok (mkFieldHeader tag compactLength EncodingCompact 4)
      else if zlen buf <? 8 then Err (ERfcpro RFCPRO_ErrShortHeader)
      else
        b ← go_from buf 4;
        extended ← be_uint 4 b;
        let extendedLength := int32 extended in
        if extendedLength <? 0 then Err (ERfcpro RFCPRO_ErrNegativeLength)
        else if maxValueLength <? extendedLength then Err (ERfcpro RFCPRO_ErrLimitExceeded)
        else Ok (mkFieldHeader tag extendedLength EncodingExtended 8).

Definition DecodeFieldHeader (data : bytes) : res FieldHeader := DecodeFieldHeaderLimited data ValueLengthMax.

(** ** The two forms of a header *)

(** The bytes that announce [length] under [tag], with the form they have. *)
Inductive header_bytes_of (tag length : Z) : bytes -> LengthEncoding -> Prop :=
| compact_header :
    is_u16 tag -> 0 <= length <= CompactLengthMax ->
    header_bytes_of tag length (be_split 2 tag ++ be_split 2 length) EncodingCompact
| extended_header :
    is_u16 tag -> 0 <= length <= ValueLengthMax ->
    header_bytes_of tag length (be_split 2 tag ++ be_split 2 ExtendedLengthSentinel ++ be_split 4 length)
      EncodingExtended.

Definition header_width (e : LengthEncoding) : Z := match e with EncodingCompact => 4 | EncodingExtended => 8 end.

Lemma header_bytes_width tag length b e : header_bytes_of tag length b e -> zlen b = header_width e.
Proof. intros []; len_simpl; rewrite !length_be_split; done. Qed.

Lemma header_bytes_range tag length b e : header_bytes_of tag length b e -> is_u16 tag /\ 0 <= length <= ValueLengthMax.
Proof. intros [H1 H2|H1 H2]; (split; [done|]); unfold CompactLengthMax, ExtendedLengthSentinel, ValueLengthMax in *; lia. Qed.

Lemma valid_limit max : 0 <= max <= ValueLengthMax -> validateValueLength max "maxValueLength" = Ok tt.
Proof. intros H. unfold validateValueLength, guard. case_tests; lia || done. Qed.

(** The decoder's view of the first eight bytes. *)
Lemma header_view {E} (data : bytes) :
  go_slice (E := E) data 0 (if 8 <? zlen data then 8 else zlen data) = Ok (take 8 data).
Proof.
  pose proof (zlen_nonneg data). destruct (Z.ltb_spec 8 (zlen data)); rewrite go_slice_ok by lia;
    rewrite drop_0, Z.sub_0_r; [done|]. f_equal. rewrite !take_ge; [done|len_lia|len_lia].
Qed.

Lemma decode_field_header tag length b e rest max :
  header_bytes_of tag length b e -> length <= max <= ValueLengthMax ->
  DecodeFieldHeaderLimited (b ++ rest) max = Ok (mkFieldHeader tag length e (header_width e)).
Proof.
  intros Hb Hm. pose proof (header_bytes_range _ _ _ _ Hb) as [Ht Hl].
  unfold DecodeFieldHeaderLimited. rewrite valid_limit by lia. cbn [mbind outcome_bind].
  rewrite header_view. cbn [mbind outcome_bind].
  destruct Hb as [_ Hc|_ _].
  - assert (take 8 ((be_split 2 tag ++ be_split 2 length) ++ rest)
            = be_split 2 tag ++ be_split 2 length ++ take 4 rest) as ->.
    { rewrite take_app_ge by (rewrite length_app, !length_be_split; lia).
      by rewrite length_app, !length_be_split, <- app_assoc. }
    set (l := _ ++ _). assert (4 <= zlen l) as H4 by (subst l; len_simpl; rewrite !length_be_split; lia).
    destruct (Z.ltb_spec (zlen l) 2); [lia|]. destruct (Z.ltb_spec (zlen l) 4); [lia|]. subst l.
    rewrite be_uint_app by apply length_be_split. cbn [mbind outcome_bind].
    rewrite (go_from_app _ _ 2) by (unfold zlen; by rewrite length_be_split). cbn [mbind outcome_bind].
    rewrite be_uint_app by apply length_be_split. cbn [mbind outcome_bind].
    unfold CompactLengthMax, ExtendedLengthSentinel in *.
    rewrite !be_round by (change (256 ^ Z.of_nat 2) with 65536; unfold is_u16 in Ht; lia).
    destruct (Z.eqb_spec length 0xffff); [lia|]. cbn [negb]. by destruct (Z.ltb_spec max length); [lia|].
  - assert (take 8 ((be_split 2 tag ++ be_split 2 ExtendedLengthSentinel ++ be_split 4 length) ++ rest)
            = be_split 2 tag ++ be_split 2 ExtendedLengthSentinel ++ be_split 4 length ++ []) as ->.
    { rewrite take_app_le by (len_simpl; rewrite !length_be_split; lia). rewrite app_nil_r. apply take_ge.
      len_simpl. rewrite !length_be_split. lia. }
    set (l := _ ++ _). assert (zlen l = 8) as H8 by (subst l; len_simpl; rewrite !length_be_split; done).
    rewrite H8. cbn [Z.ltb Z.compare Pos.compare Pos.compare_cont]. subst l.
    rewrite be_uint_app by apply length_be_split. cbn [mbind outcome_bind].
    rewrite (go_from_app _ _ 2) by (unfold zlen; by rewrite length_be_split). cbn [mbind outcome_bind].
    rewrite be_uint_app by apply length_be_split. cbn [mbind outcome_bind].
    rewrite (app_assoc (be_split 2 tag)).
    rewrite (go_from_app _ _ 4) by (len_simpl; by rewrite !length_be_split). cbn [mbind outcome_bind].
    rewrite be_uint_app by apply length_be_split. cbn [mbind outcome_bind].
    unfold ExtendedLengthSentinel, ValueLengthMax in *.
    rewrite (be_round 2 0xffff) by lia. cbn [Z.eqb Pos.eqb negb].
    rewrite !be_round by (change (256 ^ Z.of_nat 2) with 65536; change (256 ^ Z.of_nat 4) with 4294967296;
                          unfold is_u16 in Ht; lia).
    replace (int32 length) with length by (unfold int32; rewrite Z.mod_small; lia).
    destruct (Z.ltb_spec length 0); [lia|]. by destruct (Z.ltb_spec max length); [lia|].
Qed.

(** An extended length that is not negative was written as it is. *)
Lemma int32_nonneg v : 0 <= v < 4294967296 -> 0 <= int32 v -> int32 v = v.
Proof.
  unfold int32. change (2 ^ 32) with 4294967296. change (2 ^ 31) with 2147483648. intros Hv Hn.
  destruct (Z_lt_ge_dec v 2147483648); [rewrite Z.mod_small; lia|].
  exfalso. replace (v + 2147483648) with (v - 2147483648 + 1 * 4294967296) in Hn by lia.
  rewrite Z.mod_add, Z.mod_small in Hn; lia.
Qed.

(** The decoder accepts nothing else, and never panics. *)
Lemma field_header_inv data max :
  DecodeFieldHeaderLimited data max <> Panic /\
  forall h, DecodeFieldHeaderLimited data max = Ok h ->
    exists b rest, data = b ++ rest /\ header_bytes_of (fh_Tag h) (fh_Length h) b (fh_Encoding h) /\
      fh_BytesConsumed h = header_width (fh_Encoding h) /\ fh_Length h <= max <= ValueLengthMax.
Proof.
  unfold DecodeFieldHeaderLimited, validateValueLength, guard.
  destruct (_ || _) eqn:Em; [done|]. cbn [mbind outcome_bind]. rewrite header_view. cbn [mbind outcome_bind].
  apply orb_false_iff in Em as [Em1 Em2]. apply Z.ltb_ge in Em1, Em2.
  destruct (Z.ltb_spec (zlen (take 8 data)) 2) as [|H2]; [done|].
  assert (be_uint (E := error) 2 (take 8 data) = Ok (be_combine (take 2 (take 8 data)))) as ->
    by (unfold be_uint; case_tests; [len_lia|done]).
  cbn [mbind outcome_bind].
  destruct (Z.ltb_spec (zlen (take 8 data)) 4) as [|H4]; [done|].
  destruct (cut_prefix 4 data) as (p & r & -> & Hp); [len_lia|].
  destruct p as [|t1 [|t2 [|c1 [|c2 [|]]]]]; try discriminate. clear Hp H2 H4.
  change (take 8 ([t1; t2; c1; c2] ++ r)) with ([t1; t2] ++ [c1; c2] ++ take 4 r).
  rewrite (go_from_app _ _ 2) by done. cbn [mbind outcome_bind]. rewrite be_uint_app by done. cbn [mbind outcome_bind].
  change (take 2 ([t1; t2] ++ [c1; c2] ++ take 4 r)) with [t1; t2].
  pose proof (be_combine_range [t1; t2]) as Ht. pose proof (be_combine_range [c1; c2]) as Hc.
  change (256 ^ zlen [t1; t2]) with 65536 in Ht. change (256 ^ zlen [c1; c2]) with 65536 in Hc.
  destruct (Z.eqb_spec (be_combine [c1; c2]) ExtendedLengthSentinel) as [Es|Es]; cbn [negb].
  - destruct (Z.ltb_spec (zlen ([t1; t2] ++ [c1; c2] ++ take 4 r)) 8) as [|H8]; [done|].
    destruct (cut_prefix 4 r) as (x & r' & -> & Hx); [len_lia|]. rewrite take_app_length' by done.
    rewrite app_assoc, (go_from_app _ _ 4) by done. cbn [mbind outcome_bind].
    assert (be_uint (E := error) 4 x = Ok (be_combine x)) as -> by (rewrite <- (app_nil_r x) at 1; by apply be_uint_app).
    cbn [mbind outcome_bind].
    destruct (Z.ltb_spec (int32 (be_combine x)) 0) as [|Hn]; [done|].
    destruct (Z.ltb_spec max (int32 (be_combine x))) as [|Hm]; [done|]. split; [done|].
    intros h [= <-]. cbn [fh_Tag fh_Length fh_Encoding fh_BytesConsumed].
    pose proof (be_combine_range x) as Hr. unfold zlen in Hr. rewrite Hx in Hr. change (256 ^ Z.of_nat 4) with 4294967296 in Hr.
    pose proof (int32_nonneg (be_combine x) ltac:(lia) Hn) as Hi.
    rewrite Hi in *. exists ([t1; t2] ++ [c1; c2] ++ x), r'.
    rewrite <- !app_assoc. split; [done|]. split; [|split; [done|unfold ValueLengthMax in *; lia]].
    replace ([t1; t2] ++ [c1; c2] ++ x) with (be_split 2 (be_combine [t1; t2]) ++
      be_split 2 ExtendedLengthSentinel ++ be_split 4 (be_combine x)) by (rewrite <- Es, !be_split_bytes; done).
    apply extended_header; [unfold is_u16; lia|unfold ValueLengthMax in *; lia].
  - destruct (Z.ltb_spec max (be_combine [c1; c2])) as [|Hm]; [done|]. split; [done|].
    intros h [= <-]. cbn [fh_Tag fh_Length fh_Encoding fh_BytesConsumed].
    exists ([t1; t2] ++ [c1; c2]), r. split; [done|]. split; [|split; [done|lia]].
    replace ([t1; t2] ++ [c1; c2]) with (be_split 2 (be_combine [t1; t2]) ++ be_split 2 (be_combine [c1; c2]))
      by (rewrite !be_split_bytes; done).
    apply compact_header; [unfold is_u16; lia|unfold CompactLengthMax, ExtendedLengthSentinel in *; lia].
Qed.
