(* ===== verification/Cpic.v ===== *)
(** Package [cpic], internal/cpic/cpic.go and the packet framing of
    internal/cpic/function.go: the chain of tagged fields that carries every RFC request
    and response, and the trailer that closes a packet.

    A record of the chain is the tag of the record before it, a header of package
    [rfcpro] and the value, so a decoder notices a dropped or reordered record.

    The theorems: decoding an encoded chain gives its fields back; the decoder accepts
    exactly the byte strings that are a chain within the limits, and ends without a
    panic on all others; a chain followed by anything decodes up to its terminal tag;
    every packet closed with [packetTrailer] is framed for APPC the way its size asks. *)
From stdpp Require Import base list numbers strings.
From Stdlib Require Import ZArith Lia Strings.Byte.
From S2P Require Import Prelude Errors Appc Rfcpro.

Open Scope Z_scope.

Definition DefaultMaxFieldLength : Z := 256 * 1024 * 1024.
Definition DefaultMaxFieldChainLength : Z := 256 * 1024 * 1024.
Definition DefaultMaxFieldCount : Z := 100000.
Definition TagEnd : Z := 0xffff.

Record Field : Type := mkField { f_Tag : Z; f_Value : bytes }.

Record FieldChainLimits : Type := mkFieldChainLimits {
  MaxFieldLength : option Z;
  MaxChainLength : option Z;
  MaxFieldCount : option Z;
}.

Record resolvedLimits : Type := mkResolvedLimits {
  maxFieldLength : Z;
  maxChainLength : Z;
  maxFieldCount : Z;
}.

Record DecodedFieldChainPrefix : Type := mkDecodedFieldChainPrefix {
  dp_Fields : list Field;
  dp_BytesConsumed : Z;
}.

Definition errRange : error := ECpic CPIC_ErrRange.
Definition errChain : error := ECpic CPIC_ErrChain.
Definition errProtocol : error := ECpic CPIC_ErrProtocol.

Definition orInt (p : option Z) (d : Z) : Z := match p with Some v => v | None => d end.

Definition resolveLimits (limits : FieldChainLimits) : res resolvedLimits :=
  let r := mkResolvedLimits (orInt (MaxFieldLength limits) DefaultMaxFieldLength)
             (orInt (MaxChainLength limits) DefaultMaxFieldChainLength)
             (orInt (MaxFieldCount limits) DefaultMaxFieldCount) in
  if (maxFieldLength r <? 0) || (ValueLengthMax <? maxFieldLength r) then Err errRange
  else if (maxChainLength r <? 0) || (ValueLengthMax <? maxChainLength r) then Err errRange
  else if maxFieldCount r <? 0 then Err errRange
  else Ok r.

(** ** Encoding *)
Fixpoint byte_length_loop (r : resolvedLimits) (fields : list Field) (byteLength : Z) : res Z :=
  match fields with
  | [] => Ok byteLength
  | field :: fields =>
      if maxFieldLength r <? zlen (f_Value field) then Err errRange
      else
        hl ← FieldHeaderByteLength (zlen (f_Value field));
        let byteLength := byteLength + (2 + hl + zlen (f_Value field)) in
        if maxChainLength r <? byteLength then Err errRange
        else byte_length_loop r fields byteLength
  end.

Definition FieldChainByteLength (initialPreviousTag : Z) (fields : list Field) (limits : FieldChainLimits) : res Z :=
  r ← resolveLimits limits;
  if maxFieldCount r <? zlen fields then Err errRange
  else byte_length_loop r fields 0.

(** [binary.BigEndian.PutUint16(buf[at:], v)] and [copy(buf[at:], src)]. *)
Definition put_uint16 (buf : bytes) (at_ v : Z) : res bytes :=
  rest ← go_from buf at_;
  if zlen rest <? 2 then Panic else Ok (go_copy buf at_ (be_split 2 v)).
Definition copy_at (buf : bytes) (at_ : Z) (src : bytes) : res bytes :=
  _ ← go_from buf at_;
  Ok (go_copy buf at_ src).

Fixpoint encode_loop (fields : list Field) (encoded : bytes) (offset previousTag : Z) : res bytes :=
  match fields with
  | [] => Ok encoded
  | field :: fields =>
      encoded ← put_uint16 encoded offset previousTag;
      let offset := offset + 2 in
      header ← EncodeFieldHeader (f_Tag field) (zlen (f_Value field));
      encoded ← copy_at encoded offset header;
      let offset := offset + zlen header in
      encoded ← copy_at encoded offset (f_Value field);
      let offset := offset + zlen (f_Value field) in
      encode_loop fields encoded offset (f_Tag field)
  end.

Definition EncodeFieldChain (initialPreviousTag : Z) (fields : list Field) (limits : FieldChainLimits) : res bytes :=
  byteLength ← FieldChainByteLength initialPreviousTag fields limits;
  encode_loop fields (zeros byteLength) 0 initialPreviousTag.

(** ** Decoding *)
Definition enforceChainLength (byteLength maximum : Z) : res unit := guard (maximum <? byteLength) errRange.

Definition requireInput (data : bytes) (offset byteLength : Z) (field : string) : res unit :=
  let remaining := zlen data - offset in
  let remaining := if remaining <? 0 then 0 else remaining in
  guard (remaining <? byteLength) errRange.

(** The header bytes of the record at [offset]: four, or eight behind the sentinel. *)
Definition header_snapshot (r : resolvedLimits) (data : bytes) (offset : Z) : res bytes :=
  short ← go_slice data (offset + 2) (offset + 6);
  b ← go_from data (offset + 4);
  compactLength ← be_uint 2 b;
  if compactLength =? ExtendedLengthSentinel then
    enforceChainLength (offset + 10) (maxChainLength r);;
    requireInput data (offset + 6) 4 "extendedLength";;
    long ← go_slice data (offset + 6) (offset + 10);
    Ok (short ++ long)
  else Ok short.

(** The loop of [decodeFieldChainRegion]; each round moves [offset] by at least six. *)
Fixpoint region_loop (fuel : nat) (r : resolvedLimits) (data : bytes) (terminalTag : Z)
    (fields : list Field) (expectedPreviousTag offset : Z) : res DecodedFieldChainPrefix :=
  match fuel with
  | O => Err EFuel
  | S fuel =>
      if offset <? zlen data then
        if maxFieldCount r <=? zlen fields then Err errRange
        else
          enforceChainLength (offset + 6) (maxChainLength r);;
          requireInput data offset 6 "fieldHeader";;
          b ← go_from data offset;
          previousTag ← be_uint 2 b;
          if negb (previousTag =? expectedPreviousTag) then Err errChain
          else
            headerSnapshot ← header_snapshot r data offset;
            header ← DecodeFieldHeaderLimited headerSnapshot (maxFieldLength r);
            let valueOffset := offset + 2 + fh_BytesConsumed header in
            let nextOffset := valueOffset + fh_Length header in
            enforceChainLength nextOffset (maxChainLength r);;
            requireInput data valueOffset (fh_Length header) "value";;
            value ← go_slice data valueOffset nextOffset;
            let fields := fields ++ [mkField (fh_Tag header) value] in
            if (0 <=? terminalTag) && (fh_Tag header =? terminalTag)
            then Ok (mkDecodedFieldChainPrefix fields nextOffset)
            else region_loop fuel r data terminalTag fields (fh_Tag header) nextOffset
      else if 0 <=? terminalTag then Err errChain
      else Ok (mkDecodedFieldChainPrefix fields offset)
  end.

Definition decodeFieldChainRegion (data : bytes) (initialPreviousTag terminalTag : Z) (limits : FieldChainLimits)
    : res DecodedFieldChainPrefix :=
  r ← resolveLimits limits;
  if (terminalTag <? 0) && (maxChainLength r <? zlen data) then Err errRange
  else region_loop (S (length data)) r data terminalTag [] initialPreviousTag 0.

Definition DecodeFieldChain (data : bytes) (initialPreviousTag : Z) (limits : FieldChainLimits) : res (list Field) :=
  decoded ← decodeFieldChainRegion data initialPreviousTag (-1) limits;
  if negb (dp_BytesConsumed decoded =? zlen data) then Err errChain
  else Ok (dp_Fields decoded).

Definition DecodeFieldChainPrefix (data : bytes) (initialPreviousTag terminalTag : Z) (limits : FieldChainLimits)
    : res DecodedFieldChainPrefix :=
  decodeFieldChainRegion data initialPreviousTag terminalTag limits.

(** ** Framing a packet for APPC *)
Record RequestAppcFraming : Type := mkRequestAppcFraming {
  rf_Mode : string;
  rf_ApplicationDataLength : Z;
  rf_FinalSapParameterLength : Z;
}.

(** [binary.BigEndian.Uint16(data[len(data)-n:])] *)
Definition uint16_from_end (data : bytes) (n : Z) : res Z :=
  tail ← go_from data (zlen data - n);
  be_uint 2 tail.

(** [a && b] over results: the right operand is evaluated only when it is needed. *)
Definition and_then (a : bool) (b : res bool) : res bool := if a then b else Ok false.

(** The trailer of a compact message, and of a streamed one. *)
Definition compact_trailer (data : bytes) : res bool :=
  e ← uint16_from_end data 10;
  and_then (e =? TagEnd) (
  z ← uint16_from_end data 8;
  and_then (z =? 0) (
  n ← uint16_from_end data 6;
  and_then (n =? zlen data - 8) (Ok (zlen data - 8 <=? MaxApplicationDataFragmentLength)))).

Definition streamed_trailer (data : bytes) : res bool :=
  e ← uint16_from_end data 6;
  and_then (e =? TagEnd) (
  z ← uint16_from_end data 4;
  and_then (z =? 0) (
  n ← uint16_from_end data 2;
  Ok (n =? 0xffff))).

Definition InspectRequestAppcFraming (data : bytes) : res RequestAppcFraming :=
  isCompact ← and_then (10 <=? zlen data) (compact_trailer data);
  if (isCompact : bool) then Ok (mkRequestAppcFraming "compact" (zlen data - 8) 8)
  else
    isStreamed ← and_then ((MaxApplicationDataFragmentLength <? zlen data) && (6 <=? zlen data))
                   (streamed_trailer data);
    if (isStreamed : bool) then Ok (mkRequestAppcFraming "streamed" (zlen data) 0)
    else Err errProtocol.

Definition packetTrailer (packetPrefixAndChainLength maximumRfcPacketSize : Z) : bytes :=
  let cpicPacketSize := packetPrefixAndChainLength + 2 in
  if MaxApplicationDataFragmentLength <? cpicPacketSize then [xff; xff]
  else be_split 2 TagEnd ++ be_split 2 0 ++ be_split 2 (uint16 cpicPacketSize) ++ be_split 4 maximumRfcPacketSize.

Definition default_limits : FieldChainLimits := mkFieldChainLimits None None None.

(** The end of [EncodeFunctionRequest] and [EncodeCutFunctionRequest]: the prefix, the
    chain of fields and the trailer. *)
Definition close_packet (prefix : bytes) (initialPreviousTag : Z) (fields : list Field)
    (maximumRfcPacketSize : Z) : res bytes :=
  chainByteLength ← FieldChainByteLength initialPreviousTag fields default_limits;
  let trailer := packetTrailer (zlen prefix + chainByteLength) maximumRfcPacketSize in
  chain ← EncodeFieldChain initialPreviousTag fields default_limits;
  Ok (prefix ++ chain ++ trailer).

(** ** What a chain is *)
Definition field_ok (f : Field) : Prop := is_u16 (f_Tag f).

(** The bytes of a chain that starts after a record with tag [prev]. *)
Inductive chain_records : Z -> list Field -> bytes -> Prop :=
| chain_nil prev : is_u16 prev -> chain_records prev [] []
| chain_cons prev f hb e fs b :
    is_u16 prev -> header_bytes_of (f_Tag f) (zlen (f_Value f)) hb e -> chain_records (f_Tag f) fs b ->
    chain_records prev (f :: fs) (be_split 2 prev ++ hb ++ f_Value f ++ b).

Record within (r : resolvedLimits) (fs : list Field) : Prop := {
  w_fields : Forall (fun f => zlen (f_Value f) <= maxFieldLength r) fs;
  w_count : zlen fs <= maxFieldCount r;
}.

Record limits_ok (r : resolvedLimits) : Prop := {
  lo_field : 0 <= maxFieldLength r <= ValueLengthMax;
  lo_chain : 0 <= maxChainLength r <= ValueLengthMax;
  lo_count : 0 <= maxFieldCount r;
}.

Lemma resolve_limits_ok limits r : resolveLimits limits = Ok r -> limits_ok r.
Proof.
  unfold resolveLimits. set (q := mkResolvedLimits _ _ _).
  destruct (_ || _) eqn:E1; [discriminate|]. destruct (_ || _) eqn:E2 in |- *; [discriminate|].
  destruct (maxFieldCount q <? 0) eqn:E3; [discriminate|]. intros [= <-].
  apply orb_false_iff in E1 as [H1 H2]. apply orb_false_iff in E2 as [H3 H4].
  apply Z.ltb_ge in H1, H2, H3, H4, E3. by split.
Qed.

Lemma width_cases e : header_width e = 4 \/ header_width e = 8.
Proof. destruct e; auto. Qed.

Lemma enforce_ok a m : a <= m -> enforceChainLength a m = Ok tt.
Proof. intros H. unfold enforceChainLength, guard. by destruct (Z.ltb_spec m a); [lia|]. Qed.

Lemma require_ok data offset n field : 0 <= n -> offset + n <= zlen data -> requireInput data offset n field = Ok tt.
Proof.
  intros H0 H. unfold requireInput, guard. cbv zeta. destruct (Z.ltb_spec (zlen data - offset) 0).
  - by destruct (Z.ltb_spec 0 n); [lia|].
  - by destruct (Z.ltb_spec (zlen data - offset) n); [lia|].
Qed.

(** The header bytes of a record that is there. *)
Lemma header_snapshot_ok r pre prev tag n hb e v post :
  header_bytes_of tag n hb e -> 0 <= zlen v -> zlen pre + 2 + zlen hb <= maxChainLength r ->
  header_snapshot r (pre ++ be_split 2 prev ++ hb ++ v ++ post) (zlen pre) = Ok hb.
Proof.
  intros Hh _ Hm. pose proof (header_bytes_width _ _ _ _ Hh) as Hw. unfold header_snapshot.
  assert (forall k u, zlen (be_split k u) = Z.of_nat k) as Hs by (intros; unfold zlen; by rewrite length_be_split).
  pose proof (Hs 2%nat prev) as Hp.
  destruct Hh as [Ht Hl|Ht Hl]; cbn [header_width] in Hw.
  - replace (pre ++ be_split 2 prev ++ (be_split 2 tag ++ be_split 2 n) ++ v ++ post)
      with ((pre ++ be_split 2 prev) ++ (be_split 2 tag ++ be_split 2 n) ++ v ++ post) by by rewrite <- !app_assoc.
    rewrite (go_slice_mid _ _ _ (zlen pre + 2) (zlen pre + 6)); [|rewrite zlen_app; lia|rewrite zlen_app; lia]. cbn [mbind outcome_bind].
    replace ((pre ++ be_split 2 prev) ++ (be_split 2 tag ++ be_split 2 n) ++ v ++ post)
      with ((pre ++ be_split 2 prev ++ be_split 2 tag) ++ be_split 2 n ++ v ++ post) by by rewrite <- !app_assoc.
    rewrite go_from_app by (rewrite !zlen_app, !Hs; lia).
    cbn [mbind outcome_bind]. rewrite be_uint_app by apply length_be_split. cbn [mbind outcome_bind].
    unfold CompactLengthMax, ExtendedLengthSentinel in *.
    rewrite be_round by (change (256 ^ Z.of_nat 2) with 65536; lia). by destruct (Z.eqb_spec n 0xffff); [lia|].
  - set (x := be_split 4 n). set (s := be_split 2 ExtendedLengthSentinel).
    assert (zlen (be_split 2 tag) = 2 /\ zlen s = 2 /\ zlen x = 4) as (H1 & H2 & H3)
      by (subst s x; by rewrite !Hs).
    replace (pre ++ be_split 2 prev ++ (be_split 2 tag ++ s ++ x) ++ v ++ post)
      with ((pre ++ be_split 2 prev) ++ (be_split 2 tag ++ s) ++ x ++ v ++ post) by by rewrite <- !app_assoc.
    rewrite (go_slice_mid _ _ _ (zlen pre + 2) (zlen pre + 6)); [|rewrite zlen_app; lia|rewrite !zlen_app; lia]. cbn [mbind outcome_bind].
    replace ((pre ++ be_split 2 prev) ++ (be_split 2 tag ++ s) ++ x ++ v ++ post)
      with ((pre ++ be_split 2 prev ++ be_split 2 tag) ++ s ++ x ++ v ++ post) by by rewrite <- !app_assoc.
    rewrite go_from_app by (rewrite !zlen_app; lia). cbn [mbind outcome_bind].
    rewrite be_uint_app by apply length_be_split. cbn [mbind outcome_bind].
    unfold s at 1. rewrite be_round by (unfold ExtendedLengthSentinel; lia). rewrite Z.eqb_refl.
    rewrite enforce_ok by lia. cbn [mbind outcome_bind].
    rewrite require_ok; [|lia|rewrite !zlen_app; pose proof (zlen_nonneg v); pose proof (zlen_nonneg post); lia].
    cbn [mbind outcome_bind].
    replace ((pre ++ be_split 2 prev ++ be_split 2 tag) ++ s ++ x ++ v ++ post)
      with ((pre ++ be_split 2 prev ++ be_split 2 tag ++ s) ++ x ++ v ++ post) by by rewrite <- !app_assoc.
    rewrite go_slice_mid; [|rewrite !zlen_app; lia|rewrite !zlen_app; lia]. cbn [mbind outcome_bind].
    by rewrite <- app_assoc.
Qed.

(** One round of the decoder on a record that is there. *)
Lemma region_step fuel r term acc prev pre tag v hb e post :
  limits_ok r -> is_u16 prev -> header_bytes_of tag (zlen v) hb e ->
  zlen v <= maxFieldLength r -> zlen acc < maxFieldCount r ->
  zlen pre + 2 + zlen hb + zlen v <= maxChainLength r ->
  let data := pre ++ be_split 2 prev ++ hb ++ v ++ post in
  let next := zlen pre + 2 + zlen hb + zlen v in
  region_loop (S fuel) r data term acc prev (zlen pre)
  = if (0 <=? term) && (tag =? term) then Ok (mkDecodedFieldChainPrefix (acc ++ [mkField tag v]) next)
    else region_loop fuel r data term (acc ++ [mkField tag v]) tag next.
Proof.
  intros Hr Hprev Hh Hv Hc Hm data next. pose proof (header_bytes_width _ _ _ _ Hh) as Hw.
  assert (zlen (be_split 2 prev) = 2) as Hp by (unfold zlen; by rewrite length_be_split).
  pose proof (zlen_nonneg v) as Hv0. pose proof (zlen_nonneg post) as Hq0.
  assert (zlen data = next + zlen post) as Hd by (subst data next; rewrite !zlen_app, Hp; lia).
  pose proof (width_cases e) as He. cbn [region_loop].
  destruct (Z.ltb_spec (zlen pre) (zlen data)); [|lia]. destruct (Z.leb_spec (maxFieldCount r) (zlen acc)); [lia|].
  rewrite enforce_ok by lia. cbn [mbind outcome_bind]. rewrite require_ok by lia. cbn [mbind outcome_bind].
  assert (go_from data (zlen pre) = (Ok (be_split 2 prev ++ hb ++ v ++ post) : res bytes)) as -> by by apply go_from_app.
  cbn [mbind outcome_bind].
  rewrite be_uint_app by apply length_be_split. cbn [mbind outcome_bind].
  rewrite be_round by exact Hprev. rewrite Z.eqb_refl. cbn [negb].
  assert (header_snapshot r data (zlen pre) = Ok hb) as -> by (apply (header_snapshot_ok r pre prev tag (zlen v) hb e v post Hh); lia).
  cbn [mbind outcome_bind].
  rewrite <- (app_nil_r hb) at 1. rewrite (decode_field_header _ _ _ _ [] _ Hh) by (destruct (lo_field _ Hr); lia).
  cbn [mbind outcome_bind fh_Tag fh_Length fh_BytesConsumed]. rewrite <- Hw. fold next.
  rewrite enforce_ok by lia. cbn [mbind outcome_bind]. rewrite require_ok by lia. cbn [mbind outcome_bind].
  replace (go_slice data (zlen pre + 2 + zlen hb) next) with (Ok v : res bytes); [done|].
  unfold data. replace (pre ++ be_split 2 prev ++ hb ++ v ++ post)
    with ((pre ++ be_split 2 prev ++ hb) ++ v ++ post) by by rewrite <- !app_assoc.
  symmetry. apply go_slice_mid; rewrite !zlen_app, Hp; lia.
Qed.

(** A chain that is there decodes, whole or up to its terminal tag. *)
Lemma region_whole r prev fs b :
  chain_records prev fs b -> limits_ok r -> forall fuel acc pre,
  (length fs < fuel)%nat -> Forall (fun f => zlen (f_Value f) <= maxFieldLength r) fs ->
  zlen acc + zlen fs <= maxFieldCount r -> zlen pre + zlen b <= maxChainLength r ->
  region_loop fuel r (pre ++ b) (-1) acc prev (zlen pre)
  = Ok (mkDecodedFieldChainPrefix (acc ++ fs) (zlen (pre ++ b))).
Proof.
  intros Hch Hr. induction Hch as [prev Hp|prev f hb e fs b Hp Hh Hch IH]; intros fuel acc pre Hf Hv Hc Hm.
  - destruct fuel; [lia|]. cbn [region_loop]. rewrite !app_nil_r, Z.ltb_irrefl. done.
  - destruct fuel as [|fuel]; [cbn in Hf; lia|]. apply Forall_cons in Hv as [Hv1 Hv].
    rewrite !zlen_app in Hm. assert (zlen (be_split 2 prev) = 2) as H2 by (unfold zlen; by rewrite length_be_split).
    pose proof (zlen_nonneg b). assert (zlen (f :: fs) = 1 + zlen fs) as H1 by (unfold zlen; cbn [length]; lia).
    pose proof (zlen_nonneg fs).
    rewrite (region_step fuel r (-1) acc prev pre (f_Tag f) (f_Value f) hb e b Hr Hp Hh Hv1) by lia.
    cbn [Z.leb Z.compare andb]. replace (mkField (f_Tag f) (f_Value f)) with f by (by destruct f).
    replace (pre ++ be_split 2 prev ++ hb ++ f_Value f ++ b)
      with ((pre ++ be_split 2 prev ++ hb ++ f_Value f) ++ b) by by rewrite <- !app_assoc.
    replace (zlen pre + 2 + zlen hb + zlen (f_Value f)) with (zlen (pre ++ be_split 2 prev ++ hb ++ f_Value f))
      by (rewrite !zlen_app; lia).
    rewrite (IH fuel (acc ++ [f])); [|cbn in Hf; lia|done|rewrite zlen_app; change (zlen [f]) with 1; lia|rewrite !zlen_app in *; lia].
    by rewrite <- app_assoc.
Qed.

Lemma region_prefix r term prev fs b :
  chain_records prev fs b -> limits_ok r -> forall fuel acc pre post fs0 f,
  fs = fs0 ++ [f] -> f_Tag f = term -> Forall (fun g => f_Tag g <> term) fs0 ->
  (length fs <= fuel)%nat -> Forall (fun f => zlen (f_Value f) <= maxFieldLength r) fs ->
  zlen acc + zlen fs <= maxFieldCount r -> zlen pre + zlen b <= maxChainLength r ->
  region_loop fuel r (pre ++ b ++ post) term acc prev (zlen pre)
  = Ok (mkDecodedFieldChainPrefix (acc ++ fs) (zlen pre + zlen b)).
Proof.
  intros Hch Hr. induction Hch as [prev Hp|prev g hb e fs b Hp Hh Hch IH];
    intros fuel acc pre post fs0 f Efs Ht Hn Hf Hv Hc Hm; [by destruct fs0|].
  destruct fuel as [|fuel]; [cbn in Hf; lia|]. apply Forall_cons in Hv as [Hv1 Hv].
  rewrite !zlen_app in Hm. assert (zlen (be_split 2 prev) = 2) as H2 by (unfold zlen; by rewrite length_be_split).
  pose proof (zlen_nonneg b). assert (zlen (g :: fs) = 1 + zlen fs) as H1 by (unfold zlen; cbn [length]; lia).
  pose proof (zlen_nonneg fs). pose proof (header_bytes_range _ _ _ _ Hh) as [Htag _].
  replace (pre ++ (be_split 2 prev ++ hb ++ f_Value g ++ b) ++ post)
    with (pre ++ be_split 2 prev ++ hb ++ f_Value g ++ b ++ post) by by rewrite <- !app_assoc.
  rewrite (region_step fuel r term acc prev pre (f_Tag g) (f_Value g) hb e (b ++ post) Hr Hp Hh Hv1) by lia.
  replace (mkField (f_Tag g) (f_Value g)) with g by (by destruct g).
  destruct fs0 as [|g0 fs0]; injection Efs as -> ->.
  - inversion Hch; subst. rewrite Z.eqb_refl. destruct (Z.leb_spec 0 (f_Tag f)); [|unfold is_u16 in Htag; lia].
    cbn [andb]. f_equal. f_equal. rewrite !zlen_app, H2. change (zlen (@nil byte)) with 0. lia.
  - apply Forall_cons in Hn as [Hg Hn]. rewrite (proj2 (Z.eqb_neq _ _) Hg), andb_false_r.
    replace (pre ++ be_split 2 prev ++ hb ++ f_Value g0 ++ b ++ post)
      with ((pre ++ be_split 2 prev ++ hb ++ f_Value g0) ++ b ++ post) by by rewrite <- !app_assoc.
    replace (zlen pre + 2 + zlen hb + zlen (f_Value g0)) with (zlen (pre ++ be_split 2 prev ++ hb ++ f_Value g0))
      by (rewrite !zlen_app; lia).
    rewrite (IH fuel (acc ++ [g0]) _ post fs0 f); try done;
      [|cbn in Hf; lia|rewrite zlen_app; change (zlen [g0]) with 1; lia|rewrite !zlen_app in *; lia].
    rewrite <- app_assoc. f_equal. f_equal. rewrite !zlen_app. lia.
Qed.

(** ** What the decoder accepts *)
Lemma enforce_cases a m :
  (m < a /\ enforceChainLength a m = Err errRange) \/ (a <= m /\ enforceChainLength a m = Ok tt).
Proof. unfold enforceChainLength, guard. destruct (Z.ltb_spec m a); auto. Qed.

Lemma require_cases data offset n field :
  0 <= n -> offset <= zlen data ->
  (zlen data < offset + n /\ requireInput data offset n field = Err errRange) \/
  (offset + n <= zlen data /\ requireInput data offset n field = Ok tt).
Proof.
  intros Hn Ho. unfold requireInput, guard. cbv zeta. destruct (Z.ltb_spec (zlen data - offset) 0); [lia|].
  destruct (Z.ltb_spec (zlen data - offset) n); [left|right]; (split; [lia|done]).
Qed.

Lemma header_snapshot_inv r pre p2 rest :
  length p2 = 2%nat -> 4 <= zlen rest ->
  header_snapshot r (pre ++ p2 ++ rest) (zlen pre) = Err errRange \/
  exists hb tail c1 c2 t1 t2 x,
    header_snapshot r (pre ++ p2 ++ rest) (zlen pre) = Ok hb /\ rest = hb ++ tail /\
    hb = t1 :: t2 :: c1 :: c2 :: x /\
    ((be_combine [c1; c2] <> ExtendedLengthSentinel /\ x = []) \/
     (be_combine [c1; c2] = ExtendedLengthSentinel /\ length x = 4%nat)).
Proof.
  intros Hp H4. destruct (cut_prefix 4 rest) as (h4 & tail & -> & Hh); [len_lia|].
  destruct h4 as [|t1 [|t2 [|c1 [|c2 [|]]]]]; try discriminate. clear H4 Hh.
  assert (zlen p2 = 2) as Hp2 by (unfold zlen; lia). unfold header_snapshot.
  set (data := pre ++ p2 ++ [t1; t2; c1; c2] ++ tail).
  assert (go_slice data (zlen pre + 2) (zlen pre + 6) = (Ok [t1; t2; c1; c2] : res bytes)) as ->.
  { unfold data. rewrite app_assoc. apply go_slice_mid; rewrite zlen_app, Hp2; [done|]. change (zlen [t1; t2; c1; c2]) with 4. lia. }
  assert (go_from data (zlen pre + 4) = (Ok ([c1; c2] ++ tail) : res bytes)) as ->.
  { unfold data. replace (pre ++ p2 ++ [t1; t2; c1; c2] ++ tail) with ((pre ++ p2 ++ [t1; t2]) ++ [c1; c2] ++ tail)
      by by rewrite <- !app_assoc.
    apply go_from_app. rewrite !zlen_app, Hp2. change (zlen [t1; t2]) with 2. lia. }
  cbn [mbind outcome_bind]. rewrite be_uint_app by done. cbn [mbind outcome_bind].
  destruct (Z.eqb_spec (be_combine [c1; c2]) ExtendedLengthSentinel) as [Es|Es].
  - destruct (enforce_cases (zlen pre + 10) (maxChainLength r)) as [[_ ->]|[_ ->]]; [by left|]. cbn [mbind outcome_bind].
    assert (zlen data = zlen pre + 6 + zlen tail) as Hd
      by (unfold data; rewrite !zlen_app, Hp2; change (zlen [t1; t2; c1; c2]) with 4; lia).
    pose proof (zlen_nonneg tail).
    destruct (require_cases data (zlen pre + 6) 4 "extendedLength") as [[_ ->]|[Hle ->]]; [lia|lia|by left|].
    cbn [mbind outcome_bind]. destruct (cut_prefix 4 tail) as (x & tail' & -> & Hx); [len_lia|].
    assert (go_slice data (zlen pre + 6) (zlen pre + 10) = (Ok x : res bytes)) as ->.
    { unfold data. replace (pre ++ p2 ++ [t1; t2; c1; c2] ++ x ++ tail') with ((pre ++ p2 ++ [t1; t2; c1; c2]) ++ x ++ tail')
        by by rewrite <- !app_assoc.
      apply go_slice_mid; rewrite !zlen_app, Hp2; change (zlen [t1; t2; c1; c2]) with 4; unfold zlen; lia. }
    right. exists ([t1; t2; c1; c2] ++ x), tail', c1, c2, t1, t2, x. split_and!; try done. by right.
  - right. exists [t1; t2; c1; c2], tail, c1, c2, t1, t2, []. split_and!; try done. by left.
Qed.

(** The header the decoder reads is the header's bytes. *)
Lemma snapshot_exact t1 t2 c1 c2 x h max :
  DecodeFieldHeaderLimited (t1 :: t2 :: c1 :: c2 :: x) max = Ok h ->
  (be_combine [c1; c2] <> ExtendedLengthSentinel /\ x = []) \/
  (be_combine [c1; c2] = ExtendedLengthSentinel /\ length x = 4%nat) ->
  header_bytes_of (fh_Tag h) (fh_Length h) (t1 :: t2 :: c1 :: c2 :: x) (fh_Encoding h) /\
  fh_BytesConsumed h = zlen (t1 :: t2 :: c1 :: c2 :: x) /\ fh_Length h <= max.
Proof.
  intros Hd Hx. destruct (field_header_inv (t1 :: t2 :: c1 :: c2 :: x) max) as [_ Hi].
  destruct (Hi h Hd) as (b & rest & Eb & Hb & Hc & Hm & _).
  pose proof (header_bytes_width _ _ _ _ Hb) as Hw.
  assert (rest = []) as ->.
  { destruct Hb as [Ht Hl|Ht Hl]; cbn [header_width] in Hw.
    - destruct Hx as [[_ ->]|[Es Hx]].
      + apply length_zero_iff_nil. apply (f_equal length) in Eb. rewrite length_app in Eb. unfold zlen in Hw. cbn in Eb. lia.
      + exfalso. pose proof (length_be_split 2 (fh_Tag h)) as L1. pose proof (length_be_split 2 (fh_Length h)) as L2.
        pose proof (be_round 2 (fh_Length h)) as Hr. unfold CompactLengthMax, ExtendedLengthSentinel in *.
        destruct (be_split 2 (fh_Tag h)) as [|? [|? [|]]]; try discriminate.
        destruct (be_split 2 (fh_Length h)) as [|? [|? [|]]]; try discriminate.
        cbn in Eb. injection Eb as -> -> -> -> _. rewrite Hr in Es; [lia|]. change (256 ^ Z.of_nat 2) with 65536. lia.
    - apply length_zero_iff_nil. apply (f_equal length) in Eb. rewrite length_app in Eb. unfold zlen in Hw.
      destruct Hx as [[_ ->]|[_ Hx]]; cbn in Eb; lia. }
  rewrite app_nil_r in Eb. subst b. split_and!; [done|lia|done].
Qed.

Lemma header_error_own data max : DecodeFieldHeaderLimited data max <> Err EFuel.
Proof.
  unfold DecodeFieldHeaderLimited, validateValueLength, guard. destruct (_ || _); [done|]. cbn [mbind outcome_bind].
  rewrite header_view. cbn [mbind outcome_bind]. destruct (_ <? 2); [done|].
  unfold be_uint, go_from, go_slice.
  repeat (match goal with |- context [if ?c then _ else _] => destruct c end; cbn [mbind outcome_bind]; try discriminate).
Qed.

(** A round on a rest either fails or meets the record at its head. *)
Lemma region_step_inv fuel r term acc prev pre rest :
  limits_ok r -> is_u16 prev -> rest <> [] ->
  (exists e, region_loop (S fuel) r (pre ++ rest) term acc prev (zlen pre) = Err e /\ e <> EFuel) \/
  (exists tag v hb e post,
    rest = be_split 2 prev ++ hb ++ v ++ post /\ header_bytes_of tag (zlen v) hb e /\
    zlen v <= maxFieldLength r /\ zlen acc < maxFieldCount r /\
    zlen pre + 2 + zlen hb + zlen v <= maxChainLength r).
Proof.
  intros Hr Hprev Hne. cbn [region_loop].
  assert (0 < zlen rest) as Hrest by (destruct rest; [done|unfold zlen; cbn [length]; lia]).
  assert (zlen (pre ++ rest) = zlen pre + zlen rest) as Hd by apply zlen_app.
  destruct (Z.ltb_spec (zlen pre) (zlen (pre ++ rest))); [|lia].
  destruct (Z.leb_spec (maxFieldCount r) (zlen acc)) as [|Hc]; [left; by eexists|].
  destruct (enforce_cases (zlen pre + 6) (maxChainLength r)) as [[_ ->]|[_ ->]]; [left; by eexists|].
  cbn [mbind outcome_bind].
  destruct (require_cases (pre ++ rest) (zlen pre) 6 "fieldHeader") as [[_ ->]|[H6 ->]]; [lia|lia|left; by eexists|].
  cbn [mbind outcome_bind]. rewrite go_from_app by done. cbn [mbind outcome_bind].
  destruct (cut_prefix 2 rest) as (p2 & rest1 & -> & Hp); [len_lia|].
  rewrite be_uint_app by done. cbn [mbind outcome_bind].
  destruct (Z.eqb_spec (be_combine p2) prev) as [Ep|]; cbn [negb]; [|left; by eexists].
  assert (zlen p2 = 2) as Hp2 by (unfold zlen; lia). rewrite !zlen_app in H6.
  destruct (header_snapshot_inv r pre p2 rest1 Hp) as [->|(hb & tail & c1 & c2 & t1 & t2 & x & -> & -> & -> & Hx)];
    [lia|left; by eexists|]. cbn [mbind outcome_bind].
  set (hb := t1 :: t2 :: c1 :: c2 :: x) in *.
  destruct (field_header_inv hb (maxFieldLength r)) as [Hnp _].
  destruct (DecodeFieldHeaderLimited hb (maxFieldLength r)) as [h|e|] eqn:Eh; [| |done].
  2: { left. exists e. split; [done|]. intros ->. by apply (header_error_own hb (maxFieldLength r)). }
  cbn [mbind outcome_bind]. destruct (snapshot_exact _ _ _ _ _ _ _ Eh Hx) as (Hh & Hbc & Hl). fold hb in Hh, Hbc.
  rewrite Hbc. destruct (header_bytes_range _ _ _ _ Hh) as [_ Hlen].
  destruct (enforce_cases (zlen pre + 2 + zlen hb + fh_Length h) (maxChainLength r)) as [[_ ->]|[Hm ->]]; [left; by eexists|].
  cbn [mbind outcome_bind]. rewrite zlen_app in H6. clear Hd.
  assert (zlen (pre ++ p2 ++ hb ++ tail) = zlen pre + 2 + zlen hb + zlen tail) as Hd by (rewrite !zlen_app; lia).
  pose proof (zlen_nonneg tail).
  destruct (require_cases (pre ++ p2 ++ hb ++ tail) (zlen pre + 2 + zlen hb) (fh_Length h) "value")
    as [[_ ->]|[Hv ->]]; [lia|lia|left; by eexists|]. cbn [mbind outcome_bind].
  right. destruct (cut_prefix (Z.to_nat (fh_Length h)) tail) as (v & post & -> & Hv'); [unfold zlen in *; lia|].
  assert (zlen v = fh_Length h) as Ev by (unfold zlen; lia).
  exists (fh_Tag h), v, hb, (fh_Encoding h), post. rewrite Ev. split_and!; try done.
  rewrite <- Ep, be_split_bytes by done. done.
Qed.

Record region_result (r : resolvedLimits) (term prev : Z) (acc : list Field) (pre rest : bytes)
    (d : DecodedFieldChainPrefix) : Prop := {
  rr_parts : exists fs b post,
    dp_Fields d = acc ++ fs /\ rest = b ++ post /\ chain_records prev fs b /\
    dp_BytesConsumed d = zlen pre + zlen b /\ Forall (fun f => zlen (f_Value f) <= maxFieldLength r) fs /\
    (fs <> [] -> zlen acc + zlen fs <= maxFieldCount r /\ zlen pre + zlen b <= maxChainLength r) /\
    (if 0 <=? term then exists fs0 f, fs = fs0 ++ [f] /\ f_Tag f = term /\ Forall (fun g => f_Tag g <> term) fs0
     else post = []);
}.

(** A result for the rest behind a record is one for the record and the rest. *)
Lemma region_result_cons r term prev acc pre tag v hb e post d :
  is_u16 prev -> header_bytes_of tag (zlen v) hb e -> zlen v <= maxFieldLength r -> zlen acc < maxFieldCount r ->
  zlen pre + 2 + zlen hb + zlen v <= maxChainLength r -> ((0 <=? term) && (tag =? term)) = false ->
  region_result r term tag (acc ++ [mkField tag v]) (pre ++ be_split 2 prev ++ hb ++ v) post d ->
  region_result r term prev acc pre (be_split 2 prev ++ hb ++ v ++ post) d.
Proof.
  intros Hp Hh Hv Hc Hm Et [(fs & b & post' & E1 & E2 & E3 & E4 & E5 & E6 & E7)].
  assert (zlen (be_split 2 prev) = 2) as H2 by (unfold zlen; by rewrite length_be_split).
  split. exists (mkField tag v :: fs), (be_split 2 prev ++ hb ++ v ++ b), post'. split_and!.
  - by rewrite E1, <- app_assoc.
  - rewrite E2. by rewrite <- !app_assoc.
  - by apply (chain_cons prev (mkField tag v) hb e).
  - rewrite E4, !zlen_app. lia.
  - by apply Forall_cons.
  - intros _. destruct fs as [|g fs].
    + inversion E3; subst. change (zlen [mkField tag v]) with 1. rewrite !zlen_app. change (zlen (@nil byte)) with 0. lia.
    + destruct (E6 ltac:(done)) as [E8 E9]. rewrite !zlen_app in *. change (zlen [mkField tag v]) with 1 in *.
      unfold zlen in *. cbn [length] in *. lia.
  - destruct (0 <=? term) eqn:E0; [|done]. destruct E7 as (fs0 & f & -> & Hf1 & Hf2).
    exists (mkField tag v :: fs0), f. split_and!; try done. apply Forall_cons. split; [|done].
    cbn [andb] in Et. by apply Z.eqb_neq in Et.
Qed.

(** A record with the terminal tag ends the prefix. *)
Lemma region_result_last r prev acc pre tag v hb e post :
  is_u16 prev -> header_bytes_of tag (zlen v) hb e -> zlen v <= maxFieldLength r -> zlen acc < maxFieldCount r ->
  zlen pre + 2 + zlen hb + zlen v <= maxChainLength r -> (0 <=? tag) = true ->
  region_result r tag prev acc pre (be_split 2 prev ++ hb ++ v ++ post)
    (mkDecodedFieldChainPrefix (acc ++ [mkField tag v]) (zlen pre + 2 + zlen hb + zlen v)).
Proof.
  intros Hp Hh Hv Hc Hm Et. pose proof (header_bytes_range _ _ _ _ Hh) as [Htag _].
  assert (zlen (be_split 2 prev) = 2) as H2 by (unfold zlen; by rewrite length_be_split).
  pose proof (chain_cons prev (mkField tag v) hb e [] [] Hp Hh (chain_nil tag Htag)) as H1.
  cbn [f_Value] in H1. rewrite app_nil_r in H1.
  split. exists [mkField tag v], (be_split 2 prev ++ hb ++ v), post. rewrite Et. cbn [dp_Fields dp_BytesConsumed].
  split_and!; try done.
  - by rewrite <- !app_assoc.
  - rewrite !zlen_app. lia.
  - by apply Forall_singleton.
  - intros _. rewrite !zlen_app. change (zlen [mkField tag v]) with 1. lia.
  - by exists [], (mkField tag v).
Qed.

Lemma region_inv fuel r term acc prev pre rest :
  limits_ok r -> is_u16 prev -> (length rest < fuel)%nat ->
  let m := region_loop fuel r (pre ++ rest) term acc prev (zlen pre) in
  m <> Panic /\ m <> Err EFuel /\ forall d, m = Ok d -> region_result r term prev acc pre rest d.
Proof.
  intros Hr. revert acc prev pre rest. induction fuel as [|fuel IH]; intros acc prev pre rest Hp Hf; [lia|].
  destruct (decide (rest = [])) as [->|Hne].
  { cbn [region_loop]. rewrite app_nil_r, Z.ltb_irrefl. destruct (0 <=? term) eqn:Et; [done|].
    split_and!; try done. intros d [= <-]. split. exists [], [], []. rewrite Et. cbn [dp_Fields dp_BytesConsumed].
    split_and!; try done; [by rewrite app_nil_r|by apply chain_nil|rewrite Z.add_0_r; done]. }
  destruct (region_step_inv fuel r term acc prev pre rest Hr Hp Hne) as
    [(e & -> & He)|(tag & v & hb & e & post & -> & Hh & Hv & Hc & Hm)].
  { split_and!; [done|congruence|done]. }
  rewrite (region_step fuel r term acc prev pre tag v hb e post Hr Hp Hh Hv Hc Hm).
  pose proof (header_bytes_range _ _ _ _ Hh) as [Htag _].
  destruct ((0 <=? term) && (tag =? term)) eqn:Et.
  - split_and!; try done. intros d [= <-]. apply andb_true_iff in Et as [Et1 Et2]. apply Z.eqb_eq in Et2 as <-.
    by apply (region_result_last r prev acc pre tag v hb e).
  - replace (pre ++ be_split 2 prev ++ hb ++ v ++ post) with ((pre ++ be_split 2 prev ++ hb ++ v) ++ post)
      by by rewrite <- !app_assoc.
    replace (zlen pre + 2 + zlen hb + zlen v) with (zlen (pre ++ be_split 2 prev ++ hb ++ v))
      by (rewrite !zlen_app; unfold zlen at 2; rewrite length_be_split; lia).
    destruct (IH (acc ++ [mkField tag v]) tag (pre ++ be_split 2 prev ++ hb ++ v) post Htag) as (I1 & I2 & I3).
    { pose proof (length_be_split 2 prev). rewrite !length_app in Hf. lia. }
    split_and!; try done. intros d Hd. by apply (region_result_cons r term prev acc pre tag v hb e); auto.
Qed.

(** ** The canonical chain *)
Definition field_header_bytes (f : Field) : bytes :=
  be_split 2 (f_Tag f) ++
  (if zlen (f_Value f) <=? CompactLengthMax then be_split 2 (zlen (f_Value f))
   else be_split 2 ExtendedLengthSentinel ++ be_split 4 (zlen (f_Value f))).

Definition field_record (prev : Z) (f : Field) : bytes := be_split 2 prev ++ field_header_bytes f ++ f_Value f.

Fixpoint chain_bytes (prev : Z) (fs : list Field) : bytes :=
  match fs with
  | [] => []
  | f :: fs => field_record prev f ++ chain_bytes (f_Tag f) fs
  end.

Lemma canonical_header f :
  field_ok f -> zlen (f_Value f) <= ValueLengthMax ->
  EncodeFieldHeader (f_Tag f) (zlen (f_Value f)) = Ok (field_header_bytes f) /\
  FieldHeaderByteLength (zlen (f_Value f)) = Ok (zlen (field_header_bytes f)) /\
  exists e, header_bytes_of (f_Tag f) (zlen (f_Value f)) (field_header_bytes f) e.
Proof.
  intros Ht Hl. pose proof (zlen_nonneg (f_Value f)) as H0.
  assert (forall k u, zlen (be_split k u) = Z.of_nat k) as Hs by (intros; unfold zlen; by rewrite length_be_split).
  unfold EncodeFieldHeader, FieldHeaderByteLength, validateValueLength, guard, field_header_bytes.
  destruct (Z.ltb_spec (zlen (f_Value f)) 0); [lia|]. destruct (Z.ltb_spec ValueLengthMax (zlen (f_Value f))); [lia|].
  cbn [orb mbind outcome_bind]. destruct (Z.leb_spec (zlen (f_Value f)) CompactLengthMax) as [Hc|Hc];
    cbn [Z.eqb Pos.eqb]; rewrite ?zlen_app, !Hs.
  - split_and!; [|done|].
    + do 2 f_equal. unfold CompactLengthMax, ExtendedLengthSentinel in Hc. f_equal. apply Z.mod_small. lia.
    + exists EncodingCompact. apply compact_header; [done|lia].
  - split_and!; [|done|].
    + do 3 f_equal. rewrite uint32_int32. f_equal. apply Z.mod_small. unfold ValueLengthMax in Hl. lia.
    + exists EncodingExtended. apply extended_header; [done|lia].
Qed.

Lemma chain_bytes_records prev fs :
  is_u16 prev -> Forall field_ok fs -> Forall (fun f => zlen (f_Value f) <= ValueLengthMax) fs ->
  chain_records prev fs (chain_bytes prev fs).
Proof.
  intros Hp Hf. revert prev Hp. induction Hf as [|f fs Hf Hfs IH]; intros prev Hp Hv; [by apply chain_nil|].
  apply Forall_cons in Hv as [Hv Hvs]. destruct (canonical_header f Hf Hv) as (_ & _ & e & Hh).
  cbn [chain_bytes]. unfold field_record. rewrite <- !app_assoc. by apply (chain_cons prev f _ e); [| |apply IH].
Qed.

Lemma field_record_length prev f : zlen (field_record prev f) = 2 + zlen (field_header_bytes f) + zlen (f_Value f).
Proof. unfold field_record. rewrite !zlen_app. unfold zlen at 1. rewrite length_be_split. lia. Qed.

(** The length the encoder computes is the length of what it writes. *)
Lemma byte_length_ok r prev fs n k :
  limits_ok r -> Forall field_ok fs -> byte_length_loop r fs k = Ok n ->
  n = k + zlen (chain_bytes prev fs) /\ Forall (fun f => zlen (f_Value f) <= maxFieldLength r) fs /\
  (fs <> [] -> n <= maxChainLength r).
Proof.
  intros Hr Hf. revert prev k. induction Hf as [|f fs Hf Hfs IH]; intros prev k; cbn [byte_length_loop chain_bytes].
  { intros [= <-]. split; [unfold zlen; cbn; lia|done]. }
  destruct (Z.ltb_spec (maxFieldLength r) (zlen (f_Value f))) as [|Hv]; [discriminate|].
  destruct (canonical_header f Hf) as (_ & -> & _); [destruct (lo_field _ Hr); lia|]. cbn [mbind outcome_bind].
  destruct (Z.ltb_spec (maxChainLength r) (k + (2 + zlen (field_header_bytes f) + zlen (f_Value f)))) as [|Hm]; [discriminate|].
  intros H. destruct (IH (f_Tag f) _ H) as (-> & H2 & H3). rewrite zlen_app, field_record_length.
  split; [lia|]. split; [by apply Forall_cons|]. intros _. destruct fs as [|g fs].
  - cbn [chain_bytes]. change (zlen (@nil byte)) with 0. lia.
  - apply H3. discriminate.
Qed.

(** Writing behind what is written, into room that is left. *)
Lemma copy_at_end done_ room src :
  (length src <= room)%nat ->
  copy_at (done_ ++ replicate room x00) (zlen done_) src
  = Ok ((done_ ++ src) ++ replicate (room - length src) x00).
Proof.
  intros H. unfold copy_at. rewrite go_from_app by done. cbn [mbind outcome_bind]. f_equal. by apply go_copy_exact.
Qed.

Lemma encode_loop_ok fs : forall prev done_ room,
  Forall field_ok fs -> Forall (fun f => zlen (f_Value f) <= ValueLengthMax) fs ->
  zlen (chain_bytes prev fs) = Z.of_nat room ->
  encode_loop fs (done_ ++ replicate room x00) (zlen done_) prev = Ok (done_ ++ chain_bytes prev fs).
Proof.
  induction fs as [|f fs IH]; intros prev done_ room Hf Hv Hroom; cbn [encode_loop chain_bytes] in *.
  { replace room with 0%nat by (unfold zlen in Hroom; cbn in Hroom; lia). done. }
  apply Forall_cons in Hf as [Hf Hfs]. apply Forall_cons in Hv as [Hv Hvs].
  rewrite zlen_app, field_record_length in Hroom. pose proof (zlen_nonneg (chain_bytes (f_Tag f) fs)).
  destruct (canonical_header f Hf Hv) as (Eh & _ & _). set (h := field_header_bytes f) in *. set (v := f_Value f) in *.
  assert (length (be_split 2 prev) = 2%nat) as L2 by apply length_be_split.
  pose proof (zlen_nonneg h). pose proof (zlen_nonneg v).
  unfold put_uint16. rewrite go_from_app by done. cbn [mbind outcome_bind].
  destruct (Z.ltb_spec (zlen (replicate room x00)) 2); [unfold zlen in *; rewrite length_replicate in *; lia|].
  rewrite go_copy_exact by (rewrite L2; unfold zlen in *; lia). cbn [mbind outcome_bind]. rewrite Eh. cbn [mbind outcome_bind].
  replace (zlen done_ + 2) with (zlen (done_ ++ be_split 2 prev)) by (rewrite zlen_app; unfold zlen; rewrite L2; lia).
  rewrite copy_at_end by (rewrite L2; unfold zlen in *; lia). cbn [mbind outcome_bind].
  replace (zlen (done_ ++ be_split 2 prev) + zlen h) with (zlen ((done_ ++ be_split 2 prev) ++ h)) by apply zlen_app.
  rewrite copy_at_end by (rewrite L2; unfold zlen in *; lia). cbn [mbind outcome_bind].
  replace (zlen ((done_ ++ be_split 2 prev) ++ h) + zlen v) with (zlen (((done_ ++ be_split 2 prev) ++ h) ++ v)) by apply zlen_app.
  rewrite IH; [|done|done|rewrite L2; unfold zlen in *; lia].
  f_equal. unfold field_record. by rewrite <- !app_assoc.
Qed.

(** The encoder writes the canonical chain, within its limits. *)
Lemma encode_chain_inv prev fs limits b :
  Forall field_ok fs -> EncodeFieldChain prev fs limits = Ok b ->
  exists r, resolveLimits limits = Ok r /\ b = chain_bytes prev fs /\ within r fs /\
    Forall (fun f => zlen (f_Value f) <= ValueLengthMax) fs /\ zlen b <= maxChainLength r.
Proof.
  intros Hf. unfold EncodeFieldChain, FieldChainByteLength.
  destruct (resolveLimits limits) as [r| |] eqn:El; [|discriminate..]. cbn [mbind outcome_bind].
  pose proof (resolve_limits_ok _ _ El) as Hr.
  destruct (Z.ltb_spec (maxFieldCount r) (zlen fs)) as [|Hc]; [discriminate|].
  destruct (byte_length_loop r fs 0) as [n| |] eqn:En; [|discriminate..]. cbn [mbind outcome_bind].
  destruct (byte_length_ok r prev fs n 0 Hr Hf En) as (-> & Hv & Hm). rewrite Z.add_0_l.
  assert (Forall (fun f => zlen (f_Value f) <= ValueLengthMax) fs) as Hvm.
  { eapply Forall_impl; [exact Hv|]. intros f Hle. cbv beta in *. destruct (lo_field _ Hr). lia. }
  unfold zeros. rewrite to_nat_zlen.
  pose proof (encode_loop_ok fs prev [] (length (chain_bytes prev fs)) Hf Hvm eq_refl) as He.
  cbn [app zlen length] in He. change (zlen (@nil byte)) with 0 in He. rewrite He. intros [= <-].
  exists r. split_and!; try done. destruct fs; [destruct (lo_chain _ Hr); done|]. rewrite Z.add_0_l in Hm. by apply Hm.
Qed.

(** With the default limits every chain that fits is encoded. *)
Lemma byte_length_fits r prev fs k :
  limits_ok r -> Forall field_ok fs -> Forall (fun f => zlen (f_Value f) <= maxFieldLength r) fs ->
  k + zlen (chain_bytes prev fs) <= maxChainLength r -> byte_length_loop r fs k = Ok (k + zlen (chain_bytes prev fs)).
Proof.
  intros Hr Hf. revert prev k. induction Hf as [|f fs Hf Hfs IH]; intros prev k Hv Hm; cbn [byte_length_loop chain_bytes] in *.
  { f_equal. unfold zlen. cbn. lia. }
  apply Forall_cons in Hv as [Hv Hvs]. rewrite zlen_app, field_record_length in Hm |- *. pose proof (zlen_nonneg (chain_bytes (f_Tag f) fs)).
  destruct (Z.ltb_spec (maxFieldLength r) (zlen (f_Value f))); [lia|].
  destruct (canonical_header f Hf) as (_ & -> & _); [destruct (lo_field _ Hr); lia|]. cbn [mbind outcome_bind].
  destruct (Z.ltb_spec (maxChainLength r) (k + (2 + zlen (field_header_bytes f) + zlen (f_Value f)))); [lia|].
  rewrite (IH (f_Tag f)) by (done || lia). f_equal. lia.
Qed.

Lemma encode_chain_ok prev fs :
  Forall field_ok fs -> zlen fs <= DefaultMaxFieldCount -> zlen (chain_bytes prev fs) <= DefaultMaxFieldChainLength ->
  EncodeFieldChain prev fs default_limits = Ok (chain_bytes prev fs).
Proof.
  intros Hf Hc Hm. set (r := mkResolvedLimits DefaultMaxFieldLength DefaultMaxFieldChainLength DefaultMaxFieldCount).
  assert (resolveLimits default_limits = Ok r) as Er by reflexivity. pose proof (resolve_limits_ok _ _ Er) as Hr.
  assert (Forall (fun f => zlen (f_Value f) <= DefaultMaxFieldLength) fs) as Hv.
  { clear Hc. revert prev Hm. induction Hf as [|f fs _ _ IH]; intros prev Hm; [constructor|]. cbn [chain_bytes] in Hm.
    rewrite zlen_app, field_record_length in Hm. pose proof (zlen_nonneg (chain_bytes (f_Tag f) fs)).
    pose proof (zlen_nonneg (field_header_bytes f)). pose proof (zlen_nonneg (f_Value f)).
    constructor; [unfold DefaultMaxFieldLength, DefaultMaxFieldChainLength in *; lia|]. apply (IH (f_Tag f)). lia. }
  unfold EncodeFieldChain, FieldChainByteLength. rewrite Er. cbn [mbind outcome_bind].
  destruct (Z.ltb_spec (maxFieldCount r) (zlen fs)) as [H|_]; [cbn in H; lia|].
  rewrite (byte_length_fits r prev) by (done || (cbn; lia)). cbn [mbind outcome_bind]. rewrite Z.add_0_l.
  unfold zeros. rewrite to_nat_zlen.
  apply (encode_loop_ok fs prev [] (length (chain_bytes prev fs)) Hf); [|done].
  eapply Forall_impl; [exact Hv|]. intros f H. cbn in *. unfold DefaultMaxFieldLength, ValueLengthMax in *. lia.
Qed.

Lemma chain_count prev fs b : chain_records prev fs b -> (length fs <= length b)%nat.
Proof.
  induction 1 as [|prev f hb e fs b Hp Hh Hch IH]; [done|]. cbn [length]. pose proof (length_be_split 2 prev).
  rewrite !length_app. lia.
Qed.

Lemma resolve_limits_own limits : resolveLimits limits <> Panic /\ resolveLimits limits <> Err EFuel.
Proof.
  unfold resolveLimits. destruct (_ || _); [done|]. destruct (_ || _); [done|]. by destruct (_ <? _).
Qed.

(** ** The theorems of the chain *)

(** Decoding what EncodeFieldChain wrote, with the same previous tag and limits, returns the
    fields. *)
Theorem chain_roundtrip prev fs limits b :
  is_u16 prev -> Forall field_ok fs -> EncodeFieldChain prev fs limits = Ok b ->
  DecodeFieldChain b prev limits = Ok fs.
Proof.
  intros Hp Hf He. destruct (encode_chain_inv _ _ _ _ Hf He) as (r & Er & -> & [Hv Hc] & Hvm & Hm).
  pose proof (resolve_limits_ok _ _ Er) as Hr. pose proof (chain_bytes_records prev fs Hp Hf Hvm) as Hch.
  unfold DecodeFieldChain, decodeFieldChainRegion. rewrite Er. cbn [mbind outcome_bind Z.ltb Z.compare andb].
  destruct (Z.ltb_spec (maxChainLength r) (zlen (chain_bytes prev fs))); [lia|].
  pose proof (chain_count _ _ _ Hch) as Hn.
  pose proof (region_whole r prev fs _ Hch Hr (S (length (chain_bytes prev fs))) [] [] ltac:(lia) Hv Hc Hm) as Hw.
  cbn [app] in Hw. change (zlen (@nil byte)) with 0 in Hw. rewrite Hw. cbn [mbind outcome_bind dp_BytesConsumed dp_Fields].
  by rewrite Z.eqb_refl.
Qed.

(** C10: The field-chain decoder returns fields exactly for the byte strings that are a
    chain of these fields after the given tag, each record naming the tag before it, within
    the limits; on every other input it returns an error, without a panic and without
    exhausting its loop bound. *)
Theorem chain_decode_exact data prev limits :
  is_u16 prev ->
  DecodeFieldChain data prev limits <> Panic /\ DecodeFieldChain data prev limits <> Err EFuel /\
  forall fs, DecodeFieldChain data prev limits = Ok fs <->
    exists r, resolveLimits limits = Ok r /\ within r fs /\ zlen data <= maxChainLength r /\
      chain_records prev fs data.
Proof.
  intros Hp. unfold DecodeFieldChain, decodeFieldChainRegion.
  destruct (resolve_limits_own limits) as [Hn1 Hn2]. destruct (resolveLimits limits) as [r|e|] eqn:Er; [| |done].
  2: { cbn [mbind outcome_bind]. split_and!; [done|congruence|]. intros fs. split; [done|]. by intros (? & ? & _). }
  pose proof (resolve_limits_ok _ _ Er) as Hr. cbn [mbind outcome_bind Z.ltb Z.compare andb].
  destruct (Z.ltb_spec (maxChainLength r) (zlen data)) as [Hgt|Hle].
  { split_and!; try done. intros fs. split; [done|]. intros (r' & [= <-] & _ & Hle & _). lia. }
  destruct (region_inv (S (length data)) r (-1) [] prev [] data Hr Hp ltac:(lia)) as (Hnp & Hnf & Hok).
  cbn [app] in *. change (zlen (@nil byte)) with 0 in *.
  destruct (region_loop (S (length data)) r data (-1) [] prev 0) as [d|e|] eqn:El; [| |done].
  2: { cbn [mbind outcome_bind]. split_and!; [done|congruence|]. intros fs. split; [done|].
       intros (r' & [= <-] & [Hv Hc] & _ & Hch). exfalso. pose proof (chain_count _ _ _ Hch) as Hn.
       pose proof (region_whole r prev fs data Hch Hr (S (length data)) [] [] ltac:(lia) Hv Hc Hle) as Hw.
       cbn [app] in Hw. change (zlen (@nil byte)) with 0 in Hw. congruence. }
  cbn [mbind outcome_bind]. destruct (Hok d eq_refl) as [(fs & b & post & E1 & E2 & Hch & E4 & Hv & Hlim & E7)].
  cbn in E7. subst post. rewrite app_nil_r in E2. subst b. rewrite Z.add_0_l in E4. rewrite E4, Z.eqb_refl. cbn [negb].
  split_and!; try done. cbn [app] in E1. rewrite E1. intros fs'. split.
  - intros [= <-]. exists r. split_and!; try done. split; [done|]. destruct fs; [destruct Hr; done|].
    rewrite Z.add_0_l in Hlim. by apply Hlim.
  - intros (r' & [= <-] & [Hv' Hc'] & _ & Hch'). pose proof (chain_count _ _ _ Hch') as Hn.
    pose proof (region_whole r prev fs' data Hch' Hr (S (length data)) [] [] ltac:(lia) Hv' Hc' Hle) as Hw.
    cbn [app] in Hw. change (zlen (@nil byte)) with 0 in Hw. rewrite El in Hw. injection Hw as ->. by rewrite <- E1.
Qed.

(** The decoder of a prefix is total, and what it consumes ends with the terminal tag. *)
Lemma chain_prefix_total data prev term limits :
  is_u16 prev -> 0 <= term ->
  DecodeFieldChainPrefix data prev term limits <> Panic /\ DecodeFieldChainPrefix data prev term limits <> Err EFuel /\
  forall d, DecodeFieldChainPrefix data prev term limits = Ok d ->
    0 <= dp_BytesConsumed d <= zlen data /\
    exists fs f, dp_Fields d = fs ++ [f] /\ f_Tag f = term /\ Forall (fun g => f_Tag g <> term) fs.
Proof.
  intros Hp Ht. unfold DecodeFieldChainPrefix, decodeFieldChainRegion.
  destruct (resolve_limits_own limits) as [Hn1 Hn2]. destruct (resolveLimits limits) as [r|e|] eqn:Er; [| |done].
  2: { cbn [mbind outcome_bind]. split_and!; [done|congruence|done]. }
  pose proof (resolve_limits_ok _ _ Er) as Hr. cbn [mbind outcome_bind].
  destruct (Z.ltb_spec term 0); [lia|]. cbn [andb].
  destruct (region_inv (S (length data)) r term [] prev [] data Hr Hp ltac:(lia)) as (Hnp & Hnf & Hok).
  cbn [app] in *. change (zlen (@nil byte)) with 0 in *. split_and!; [done|done|]. intros d Hd.
  destruct (Hok d Hd) as [(fs & b & post & E1 & E2 & _ & E4 & _ & _ & E7)].
  rewrite (proj2 (Z.leb_le 0 term) Ht) in E7. destruct E7 as (fs0 & f & -> & Hf1 & Hf2). split.
  - rewrite E4, E2, zlen_app. pose proof (zlen_nonneg b). pose proof (zlen_nonneg post).
    change (zlen (@nil byte)) with 0. lia.
  - exists fs0, f. by rewrite E1.
Qed.

(** A prefix that is accepted starts with the tag before it. *)
Lemma chain_prefix_starts data prev term limits d :
  is_u16 prev -> 0 <= term -> DecodeFieldChainPrefix data prev term limits = Ok d -> take 2 data = be_split 2 prev.
Proof.
  intros Hp Ht. unfold DecodeFieldChainPrefix, decodeFieldChainRegion. intros H. ok_step H as r Er.
  pose proof (resolve_limits_ok _ _ Er) as Hr. destruct (Z.ltb_spec term 0); [lia|]. cbn [andb] in H.
  destruct (region_inv (S (length data)) r term [] prev [] data Hr Hp ltac:(lia)) as (_ & _ & Hok).
  destruct (Hok d H) as [(fs & b & post & _ & -> & Hch & _ & _ & _ & E7)].
  rewrite (proj2 (Z.leb_le 0 term) Ht) in E7. destruct E7 as (fs0 & f & -> & _ & _).
  inversion Hch as [? ? E1 E2|? ? hb e fs b' _ _ _ E1 E2]; subst; [by destruct fs0|].
  rewrite <- app_assoc. apply take_app_length'. by rewrite length_be_split.
Qed.

(** A chain that ends with the first occurrence of the terminal tag decodes up to it
    whatever follows, and reports its length as consumed. *)
Theorem chain_prefix_roundtrip prev fs f limits b post :
  is_u16 prev -> Forall field_ok (fs ++ [f]) -> Forall (fun g => f_Tag g <> f_Tag f) fs ->
  EncodeFieldChain prev (fs ++ [f]) limits = Ok b ->
  DecodeFieldChainPrefix (b ++ post) prev (f_Tag f) limits = Ok (mkDecodedFieldChainPrefix (fs ++ [f]) (zlen b)).
Proof.
  intros Hp Hf Hn He. destruct (encode_chain_inv _ _ _ _ Hf He) as (r & Er & -> & [Hv Hc] & Hvm & Hm).
  pose proof (resolve_limits_ok _ _ Er) as Hr. pose proof (chain_bytes_records prev _ Hp Hf Hvm) as Hch.
  unfold DecodeFieldChainPrefix, decodeFieldChainRegion. rewrite Er. cbn [mbind outcome_bind].
  assert (is_u16 (f_Tag f)) as Ht by (apply Forall_app in Hf as [_ Hf]; exact (proj1 (Forall_singleton _ _) Hf)).
  destruct (Z.ltb_spec (f_Tag f) 0); [unfold is_u16 in Ht; lia|]. cbn [andb].
  pose proof (chain_count _ _ _ Hch) as Hl.
  set (cb := chain_bytes prev (fs ++ [f])) in *.
  pose proof (region_prefix r (f_Tag f) prev _ _ Hch Hr (S (length (cb ++ post))) [] [] post fs f eq_refl eq_refl Hn
                ltac:(rewrite (length_app cb); lia) Hv Hc Hm) as Hw.
  exact Hw.
Qed.

(** ** Framing *)
Lemma uint16_suffix pre a b post n :
  n = 2 + zlen post -> uint16_from_end (pre ++ a :: b :: post) n = Ok (be_combine [a; b]).
Proof.
  intros ->. unfold uint16_from_end.
  rewrite go_from_app by (rewrite zlen_app; unfold zlen; cbn [length]; lia).
  cbn [mbind outcome_bind]. by rewrite (be_uint_app 2 [a; b] post).
Qed.

Lemma uint16_end_total data n : 2 <= n <= zlen data -> exists v, uint16_from_end data n = Ok v.
Proof.
  intros H. unfold uint16_from_end, go_from. rewrite go_slice_ok by lia. cbn [mbind outcome_bind].
  unfold be_uint. case_tests; [len_lia|]. by eexists.
Qed.

Lemma split_2 v : is_u16 v -> exists a b, be_split 2 v = [a; b] /\ be_combine [a; b] = v.
Proof.
  intros Hv. pose proof (length_be_split 2 v) as Hl. pose proof (be_combine_split 2 v) as Hb.
  destruct (be_split 2 v) as [|a [|b [|]]]; try discriminate. exists a, b. split; [done|].
  rewrite Hb. by apply Z.mod_small.
Qed.

(** A message whose last ten bytes are the end tag and the eight-byte parameters. *)
Lemma compact_inspected front a b tail :
  let data := front ++ xff :: xff :: x00 :: x00 :: a :: b :: tail in
  zlen tail = 4 -> be_combine [a; b] = zlen front + 2 -> zlen front + 2 <= MaxApplicationDataFragmentLength ->
  InspectRequestAppcFraming data = Ok (mkRequestAppcFraming "compact" (zlen front + 2) 8).
Proof.
  intros data Ht Hn Hm. pose proof (zlen_nonneg front).
  assert (zlen data = zlen front + 10) as Hl by (subst data; unfold zlen in *; rewrite length_app; cbn [length]; lia).
  assert (uint16_from_end data 10 = Ok 0xffff) as E1 by (apply uint16_suffix; unfold zlen in *; cbn [length]; lia).
  assert (uint16_from_end data 8 = Ok 0) as E2.
  { subst data. replace (front ++ xff :: xff :: x00 :: x00 :: a :: b :: tail)
      with ((front ++ [xff; xff]) ++ x00 :: x00 :: a :: b :: tail) by by rewrite <- app_assoc.
    apply uint16_suffix. unfold zlen in *; cbn [length]; lia. }
  assert (uint16_from_end data 6 = Ok (zlen front + 2)) as E3.
  { subst data. replace (front ++ xff :: xff :: x00 :: x00 :: a :: b :: tail)
      with ((front ++ [xff; xff; x00; x00]) ++ a :: b :: tail) by by rewrite <- app_assoc.
    rewrite <- Hn. apply uint16_suffix. lia. }
  unfold InspectRequestAppcFraming, compact_trailer. rewrite E1, E2, E3, Hl. cbn [mbind outcome_bind].
  destruct (Z.leb_spec 10 (zlen front + 10)); [|lia]. replace (zlen front + 10 - 8) with (zlen front + 2) by lia.
  change (0xffff =? TagEnd) with true. cbn [and_then Z.eqb]. rewrite Z.eqb_refl. cbn [and_then mbind outcome_bind].
  by destruct (Z.leb_spec (zlen front + 2) MaxApplicationDataFragmentLength); [|lia].
Qed.

(** A long message that ends with an empty end field and the sentinel. *)
Lemma streamed_inspected front :
  let data := front ++ [xff; xff; x00; x00; xff; xff] in
  MaxApplicationDataFragmentLength < zlen data ->
  InspectRequestAppcFraming data = Ok (mkRequestAppcFraming "streamed" (zlen data) 0).
Proof.
  intros data Hm. unfold MaxApplicationDataFragmentLength in *.
  assert (uint16_from_end data 6 = Ok 0xffff) as E1 by (by apply uint16_suffix).
  assert (uint16_from_end data 4 = Ok 0) as E2.
  { subst data. replace (front ++ [xff; xff; x00; x00; xff; xff])
      with ((front ++ [xff; xff]) ++ [x00; x00; xff; xff]) by by rewrite <- app_assoc. by apply uint16_suffix. }
  assert (uint16_from_end data 2 = Ok 0xffff) as E3.
  { subst data. replace (front ++ [xff; xff; x00; x00; xff; xff])
      with ((front ++ [xff; xff; x00; x00]) ++ [xff; xff]) by by rewrite <- app_assoc. by apply uint16_suffix. }
  destruct (uint16_end_total data 10) as [v10 E10]; [lia|]. destruct (uint16_end_total data 8) as [v8 E8]; [lia|].
  assert (compact_trailer data = Ok false) as Hc.
  { unfold compact_trailer. rewrite E10, E8, E1. cbn [mbind outcome_bind].
    destruct (v10 =? TagEnd); [|done]. cbn [and_then]. destruct (v8 =? 0); [|done]. cbn [and_then].
    destruct (Z.eqb_spec 0xffff (zlen data - 8)) as [H|]; [|done]. cbn [and_then].
    unfold MaxApplicationDataFragmentLength. by destruct (Z.leb_spec (zlen data - 8) 28000); [lia|]. }
  unfold InspectRequestAppcFraming, streamed_trailer. rewrite Hc, E1, E2, E3.
  destruct (Z.leb_spec 10 (zlen data)); [|lia]. cbn [and_then mbind outcome_bind].
  unfold MaxApplicationDataFragmentLength. destruct (Z.ltb_spec 28000 (zlen data)); [|lia].
  destruct (Z.leb_spec 6 (zlen data)); [|lia]. reflexivity.
Qed.

(** The end field closes a chain with the end tag and an empty length. *)
Lemma chain_bytes_end prev fs : exists front, chain_bytes prev (fs ++ [mkField TagEnd []]) = front ++ [xff; xff; x00; x00].
Proof.
  revert prev. induction fs as [|f fs IH]; intros prev; cbn [app chain_bytes].
  - exists (be_split 2 prev). unfold field_record. by rewrite app_nil_r, app_nil_r.
  - destruct (IH (f_Tag f)) as [front ->]. exists (field_record prev f ++ front). by rewrite app_assoc.
Qed.

Lemma close_packet_inv prefix prev fields max p :
  Forall field_ok fields -> close_packet prefix prev fields max = Ok p ->
  p = prefix ++ chain_bytes prev fields ++ packetTrailer (zlen prefix + zlen (chain_bytes prev fields)) max.
Proof.
  intros Hf. unfold close_packet. destruct (FieldChainByteLength prev fields default_limits) as [n| |] eqn:En; [|discriminate..].
  cbn [mbind outcome_bind]. destruct (EncodeFieldChain prev fields default_limits) as [b| |] eqn:Eb; [|discriminate..].
  cbn [mbind outcome_bind]. destruct (encode_chain_inv _ _ _ _ Hf Eb) as (r & Er & -> & _). intros [= <-].
  revert En. unfold FieldChainByteLength. rewrite Er. cbn [mbind outcome_bind].
  destruct (maxFieldCount r <? zlen fields); [discriminate|]. intros En.
  destruct (byte_length_ok r prev fields n 0 (resolve_limits_ok _ _ Er) Hf En) as (-> & _). by rewrite Z.add_0_l.
Qed.

(** A packet closed with [packetTrailer] is framed the way its size asks. *)
Lemma packet_framing prefix prev fs max p :
  Forall field_ok fs -> close_packet prefix prev (fs ++ [mkField TagEnd []]) max = Ok p ->
  let size := zlen prefix + zlen (chain_bytes prev (fs ++ [mkField TagEnd []])) + 2 in
  InspectRequestAppcFraming p
  = Ok (if size <=? MaxApplicationDataFragmentLength
        then mkRequestAppcFraming "compact" size 8 else mkRequestAppcFraming "streamed" size 0).
Proof.
  intros Hf Hp size.
  assert (Forall field_ok (fs ++ [mkField TagEnd []])) as Hf'.
  { apply Forall_app. split; [done|]. apply Forall_singleton. unfold field_ok, is_u16, TagEnd. cbn. lia. }
  apply (close_packet_inv _ _ _ _ _ Hf') in Hp. destruct (chain_bytes_end prev fs) as [front Ec].
  unfold packetTrailer in Hp. fold size in Hp. pose proof (zlen_nonneg prefix).
  set (chain := chain_bytes prev (fs ++ [mkField TagEnd []])) in *. pose proof (zlen_nonneg chain).
  destruct (Z.leb_spec size MaxApplicationDataFragmentLength) as [Hc|Hc].
  - destruct (Z.ltb_spec MaxApplicationDataFragmentLength size); [lia|].
    assert (is_u16 size) as Hs by (unfold is_u16, MaxApplicationDataFragmentLength in *; lia).
    destruct (split_2 size Hs) as (a & b & Eab & Hab). subst p.
    replace (uint16 size) with size by (symmetry; by apply Z.mod_small). rewrite Eab.
    pose proof (compact_inspected (prefix ++ chain) a b (be_split 4 max)) as Hi. cbv zeta in Hi.
    rewrite zlen_app in Hi. fold size in Hi. rewrite <- app_assoc in Hi.
    apply Hi; [unfold zlen; by rewrite length_be_split|done|done].
  - destruct (Z.ltb_spec MaxApplicationDataFragmentLength size); [|lia]. subst p. rewrite Ec.
    pose proof (streamed_inspected (prefix ++ front)) as Hi. cbv zeta in Hi. rewrite <- !app_assoc in Hi |- *.
    change ([xff; xff; x00; x00] ++ [xff; xff]) with [xff; xff; x00; x00; xff; xff].
    assert (zlen (prefix ++ front ++ [xff; xff; x00; x00; xff; xff]) = size) as Hl.
    { unfold size. rewrite Ec, !zlen_app. unfold zlen. cbn [length]. lia. }
    rewrite Hl in Hi. by apply Hi.
Qed.

(** Every packet made of a prefix, a field chain that ends with the End field and
    packetTrailer is recognised by InspectRequestAppcFraming: as compact with eight bytes of
    final parameters when prefix, chain and end tag fit in 28,000 bytes, as streamed
    otherwise, with the application data length of the packet. *)
Theorem packet_framed prefix prev fs max p :
  Forall field_ok fs -> close_packet prefix prev (fs ++ [mkField TagEnd []]) max = Ok p ->
  let size := zlen prefix + zlen (chain_bytes prev (fs ++ [mkField TagEnd []])) + 2 in
  InspectRequestAppcFraming p
  = Ok (if size <=? MaxApplicationDataFragmentLength
        then mkRequestAppcFraming "compact" size 8 else mkRequestAppcFraming "streamed" size 0).
Proof. apply packet_framing. Qed.

(** ** Instances *)
Definition sample_fields : list Field :=
  [mkField 0x0102 (lit "STFC"); mkField 0x0201 []; mkField 0x0203 (lit "hello")].

Lemma sample_fields_ok : Forall field_ok sample_fields.
Proof. repeat apply Forall_cons_2; try apply Forall_nil_2; unfold field_ok, is_u16; cbn; lia. Qed.

Lemma chain_roundtrip_witness :
  exists b, EncodeFieldChain 0x0502 sample_fields default_limits = Ok b /\
    DecodeFieldChain b 0x0502 default_limits = Ok sample_fields.
Proof.
  destruct (EncodeFieldChain 0x0502 sample_fields default_limits) as [b| |] eqn:E; [|vm_compute in E; discriminate..].
  exists b. split; [reflexivity|].
  apply (chain_roundtrip 0x0502 sample_fields default_limits b ltac:(unfold is_u16; lia) sample_fields_ok E).
Defined.

(** The second record names the wrong tag before it: the decoder refuses the chain. *)
Lemma chain_decode_exact_witness :
  DecodeFieldChain [x05; x02; x01; x02; x00; x01; x41; x01; x03; xff; xff; x00; x00] 0x0502 default_limits <> Panic /\
  DecodeFieldChain [x05; x02; x01; x02; x00; x01; x41; x01; x03; xff; xff; x00; x00] 0x0502 default_limits = Err errChain /\
  exists r, resolveLimits default_limits = Ok r /\
    chain_records 0x0502 [mkField 0x0102 [x41]] [x05; x02; x01; x02; x00; x01; x41].
Proof.
  destruct (chain_decode_exact [x05; x02; x01; x02; x00; x01; x41; x01; x03; xff; xff; x00; x00] 0x0502 default_limits
              ltac:(unfold is_u16; lia)) as (H1 & _ & _).
  split; [exact H1|]. split; [vm_compute; reflexivity|].
  destruct (chain_decode_exact [x05; x02; x01; x02; x00; x01; x41] 0x0502 default_limits
              ltac:(unfold is_u16; lia)) as (_ & _ & H).
  destruct (proj1 (H [mkField 0x0102 [x41]]) ltac:(vm_compute; reflexivity)) as (r & Hr & _ & _ & Hc).
  exists r. split; [exact Hr|exact Hc].
Defined.

Lemma chain_prefix_roundtrip_witness :
  exists b, EncodeFieldChain 0x0502 (sample_fields ++ [mkField TagEnd []]) default_limits = Ok b /\
    DecodeFieldChainPrefix (b ++ [xff; xff]) 0x0502 TagEnd default_limits
    = Ok (mkDecodedFieldChainPrefix (sample_fields ++ [mkField TagEnd []]) (zlen b)).
Proof.
  destruct (EncodeFieldChain 0x0502 (sample_fields ++ [mkField TagEnd []]) default_limits) as [b| |] eqn:E;
    [|vm_compute in E; discriminate..].
  exists b. split; [reflexivity|].
  apply (chain_prefix_roundtrip 0x0502 sample_fields (mkField TagEnd []) default_limits b [xff; xff]
    ltac:(unfold is_u16; lia)).
  - apply Forall_app. split; [exact sample_fields_ok|]. apply Forall_singleton. unfold field_ok, is_u16, TagEnd. cbn. lia.
  - repeat apply Forall_cons_2; try apply Forall_nil_2; cbn; discriminate.
  - exact E.
Defined.

Lemma packet_framed_witness :
  exists p, close_packet [x05; x02; x00; x00] 0x0502 (sample_fields ++ [mkField TagEnd []]) 0x8500 = Ok p /\
    InspectRequestAppcFraming p = Ok (mkRequestAppcFraming "compact" 39 8).
Proof.
  destruct (close_packet [x05; x02; x00; x00] 0x0502 (sample_fields ++ [mkField TagEnd []]) 0x8500) as [p| |] eqn:E;
    [|vm_compute in E; discriminate..].
  exists p. split; [reflexivity|].
  rewrite (packet_framed [x05; x02; x00; x00] 0x0502 sample_fields 0x8500 p sample_fields_ok E). vm_compute. reflexivity.
Defined.
