(* ===== verification/CpicFunction.v ===== *)
(** Package [cpic], the text helpers of internal/cpic/cpic.go and the function envelopes of
    internal/cpic/function.go: the requests a client sends and the responses it reads.

    A request is a chain of fields between a prefix and a trailer ([Cpic.close_packet]); its
    names travel as UTF-16LE.  A response is a chain between a prefix and the End tag, which
    package [rfcerr] classifies.

    The theorems: what a name encodes to reads back as the name; a request that is encoded
    is framed for APPC and decodes to the fields it was built from; and every decoder of a
    response is total. *)
From stdpp Require Import base list numbers strings gmap.
From Stdlib Require Import ZArith Lia Strings.Byte.
From S2P Require Import Prelude Errors Text Appc Rfcpro Rfcerr Cpic.

Open Scope Z_scope.

(** Both packages have a type [Field] and a function [orInt]; here they are those of cpic. *)
Abbreviation Field := Cpic.Field.
Abbreviation mkField := Cpic.mkField.

(** ** Tags *)
Definition TagDestination : Z := 0x0006.
Definition TagClientAddress : Z := 0x0007.
Definition TagPartnerHost : Z := 0x0008.
Definition TagKernel : Z := 0x000b.
Definition TagConnectionType : Z := 0x0011.
Definition TagKernelRelease : Z := 0x0012.
Definition TagKernelPatch : Z := 0x0013.
Definition TagPartnerSystem : Z := 0x0018.
Definition TagSystemCodePage : Z := 0x0016.
Definition TagStart : Z := 0x0101.
Definition TagFunction : Z := 0x0102.
Definition TagProtocolVersion : Z := 0x0103.
Definition TagCapabilities : Z := 0x0106.
Definition TagUser : Z := 0x0111.
Definition TagClient : Z := 0x0114.
Definition TagLanguage : Z := 0x0115.
Definition TagPassword : Z := 0x0117.
Definition TagTicket : Z := 0x0670.
Definition TagProgram : Z := 0x0130.
Definition TagLogonStatus : Z := 0x0161.
Definition TagParameterName : Z := 0x0201.
Definition TagParameterValue : Z := 0x0203.
Definition TagRequestedOutput : Z := 0x0205.
Definition TagTableName : Z := 0x0301.
Definition TagTableHeader : Z := 0x0302.
Definition TagTableContent : Z := 0x0303.
Definition TagTableCompr : Z := 0x0304.
Definition TagUnresolved0420 : Z := 0x0420.
Definition TagLogonMarker : Z := 0x0337.
Definition TagUnicodeIndicator : Z := 0x0501.
Definition TagContextEnd : Z := 0x0502.
Definition TagResponseStart : Z := 0x0500.
Definition TagResponseContext : Z := 0x0503.
Definition TagCallContext : Z := 0x0512.
Definition TagSession : Z := 0x0514.
Definition TagRfcServerResetDn : Z := 0x0523.
Definition TagXRfcParameter : Z := 0x3c02.
Definition TagXRfcData : Z := 0x3c05.
Definition initialCpicUnresolved0450 : Z := 0x0450.

Definition ClassicXrfcXMLChunkLength : Z := 16 * 1024.

Definition initialProtocolVersion : bytes := [x00; x00; x0e; x09].
Definition initialCapabilities : bytes := [x04; x01; x00; x03; x00; x0a; x02; x00; x00; x00; x23].
Definition cpicFunctionRequestPrefix : bytes := [x01; x01; x00; x08; x03; x01; x01; x05; x04; x01; x00; x03].
Definition cpicFunctionResponsePrefix : bytes := [x05; x00; x00; x00].
Definition cpicCutFunctionRequestPrefix : bytes := [x05; x02; x00; x00].
Definition initialResponsePrefix : bytes := [x01; x01; x00; x08; x01; x01; x01; x05; x04; x01; x00; x03].

(** ** Text *)
(** [^\d{3}$], [^[A-Za-z]$] and [^[\x20-\x7e]*$] *)
Definition digits3 (s : bytes) : bool := (zlen s =? 3) && forallb is_digit s.
Definition is_letter (b : byte) : bool := in_range 0x41 0x5a (b2z b) || in_range 0x61 0x7a (b2z b).
Definition oneLetter (s : bytes) : bool := (zlen s =? 1) && forallb is_letter s.
Definition asciiRE (s : bytes) : bool := forallb is_printable s.

Definition asciiBytes (value : bytes) (minimum maximum : Z) : res bytes :=
  if negb (asciiRE value) || (zlen value <? minimum) || (maximum <? zlen value) then Err errRange else Ok value.

Definition exactBytes (value : bytes) (length : Z) : res bytes :=
  if negb (zlen value =? length) then Err errRange else Ok value.

Definition containsNUL (s : bytes) : bool := existsb (fun b => bool_decide (b = x00)) s.

Definition utf16leBytes (s : bytes) : bytes := units_bytes (utf16_encode (runes s)).

Definition unicodeBytes (value : bytes) (maximumCharacters : Z) : res bytes :=
  let units := utf16_encode (runes value) in
  if (zlen units <? 1) || (maximumCharacters <? zlen units) || negb (ValidString value) || containsNUL value
  then Err errRange
  else Ok (units_bytes units).

(** ** Requests *)
Record FunctionRequestInput : Type := mkFunctionRequestInput {
  fr_FunctionName : bytes; fr_SessionID : bytes; fr_KernelRelease : bytes; fr_MaximumRfcPacketSize : option Z }.

Record NamedValue : Type := mkNamedValue { nv_Name : bytes; nv_Value : bytes }.

Record Table : Type := mkTable { t_Name : bytes; t_RowByteLength : Z; t_Rows : list bytes }.

Record CutFunctionRequestInput : Type := mkCutFunctionRequestInput {
  FunctionName : bytes;
  RequestedOutputs : list bytes;
  Imports : list NamedValue;
  Tables : list Table;
  XrfcParameters : list NamedValue;
  KernelRelease : bytes;
  MaximumRfcPacketSize : option Z }.

Definition checkedMaximumRfcPacketSize (v : option Z) : Z := match v with Some v => v | None => 0x8500 end.

(** The kernel release of an input, with its default. *)
Definition kernel_release (k : bytes) : res bytes :=
  let k := match k with [] => lit "754" | _ => k end in
  if negb (digits3 k) then Err errRange else Ok k.

Definition EncodeFunctionRequest (input : FunctionRequestInput) : res bytes :=
  kernelRelease ← kernel_release (fr_KernelRelease input);
  let maximumRfcPacketSize := checkedMaximumRfcPacketSize (fr_MaximumRfcPacketSize input) in
  sessionID ← exactBytes (fr_SessionID input) 16;
  functionName ← unicodeBytes (fr_FunctionName input) 40;
  let fields := [
    mkField TagProtocolVersion initialProtocolVersion;
    mkField TagCapabilities initialCapabilities;
    mkField TagLogonMarker [];
    mkField TagSession sessionID;
    mkField TagContextEnd [];
    mkField TagKernel (utf16leBytes kernelRelease);
    mkField TagFunction functionName;
    mkField TagCallContext [];
    mkField TagEnd []] in
  close_packet cpicFunctionRequestPrefix TagStart fields maximumRfcPacketSize.

(** [rejectDuplicates], and [addNames] with the names of the parameters before. *)
Fixpoint reject_duplicates (seen : list bytes) (values : list bytes) : res (list bytes) :=
  match values with
  | [] => Ok seen
  | v :: values => if bool_decide (v ∈ seen) then Err errProtocol else reject_duplicates (v :: seen) values
  end.

Definition rejectDuplicates (values : list bytes) : res unit :=
  _ ← reject_duplicates [] values; Ok tt.

(** The checks on the names of an input, in order. *)
Definition check_names (input : CutFunctionRequestInput) : res unit :=
  let imports := map nv_Name (Imports input) in
  let tables := map t_Name (Tables input) in
  let xrfc := map nv_Name (XrfcParameters input) in
  rejectDuplicates (RequestedOutputs input);;
  rejectDuplicates imports;;
  rejectDuplicates tables;;
  rejectDuplicates xrfc;;
  seen ← reject_duplicates [] imports;
  seen ← reject_duplicates seen tables;
  seen ← reject_duplicates seen xrfc;
  Ok tt.

(** The fields of each part; an error of a later part is met after those before it. *)
Fixpoint output_fields (names : list bytes) : res (list Field) :=
  match names with
  | [] => Ok []
  | name :: names =>
      v ← unicodeBytes name 30;
      rest ← output_fields names;
      Ok (mkField TagRequestedOutput v :: rest)
  end.

Fixpoint import_fields (imports : list NamedValue) : res (list Field) :=
  match imports with
  | [] => Ok []
  | p :: imports =>
      v ← unicodeBytes (nv_Name p) 30;
      rest ← import_fields imports;
      Ok (mkField TagParameterName v :: mkField TagParameterValue (nv_Value p) :: rest)
  end.

Fixpoint row_fields (rowByteLength : Z) (rows : list bytes) : res (list Field) :=
  match rows with
  | [] => Ok []
  | row :: rows =>
      if negb (zlen row =? rowByteLength) then Err errRange
      else rest ← row_fields rowByteLength rows; Ok (mkField TagTableCompr row :: rest)
  end.

Fixpoint table_fields (tables : list Table) : res (list Field) :=
  match tables with
  | [] => Ok []
  | t :: tables =>
      if (t_RowByteLength t <? 0) || (2 ^ 32 - 1 <? uint64 (t_RowByteLength t)) then Err errRange
      else
        name ← unicodeBytes (t_Name t) 30;
        let header := be_split 4 (uint32 (t_RowByteLength t)) ++ be_split 4 (uint32 (zlen (t_Rows t))) in
        rows ← row_fields (t_RowByteLength t) (t_Rows t);
        rest ← table_fields tables;
        Ok (mkField TagTableName name :: mkField TagTableHeader header :: rows ++ rest)
  end.

(** The chunks of an XML value: the loop over [offset]. *)
Fixpoint xrfc_chunks (fuel : nat) (offset : Z) (value : bytes) : res (list Field) :=
  match fuel with
  | O => Err EFuel
  | S fuel =>
      if offset <? zlen value then
        let end_ := offset + ClassicXrfcXMLChunkLength in
        let end_ := if zlen value <? end_ then zlen value else end_ in
        chunk ← go_slice value offset end_;
        rest ← xrfc_chunks fuel (offset + ClassicXrfcXMLChunkLength) value;
        Ok (mkField TagXRfcData chunk :: rest)
      else Ok []
  end.

Fixpoint xrfc_fields (parameters : list NamedValue) : res (list Field) :=
  match parameters with
  | [] => Ok []
  | p :: parameters =>
      _ ← unicodeBytes (nv_Name p) 30;
      if zlen (nv_Value p) =? 0 then Err errRange
      else
        chunks ← xrfc_chunks (S (length (nv_Value p))) 0 (nv_Value p);
        rest ← xrfc_fields parameters;
        Ok (mkField TagXRfcParameter [] :: chunks ++ mkField TagXRfcParameter [] :: rest)
  end.

Definition cut_request_fields (kernelRelease : bytes) (input : CutFunctionRequestInput) : res (list Field) :=
  functionName ← unicodeBytes (FunctionName input) 40;
  outputs ← output_fields (RequestedOutputs input);
  imports ← import_fields (Imports input);
  tables ← table_fields (Tables input);
  xrfc ← xrfc_fields (XrfcParameters input);
  Ok ([mkField TagKernel (utf16leBytes kernelRelease); mkField TagFunction functionName; mkField TagCallContext []]
      ++ outputs ++ imports ++ tables ++ xrfc).

Definition EncodeCutFunctionRequest (input : CutFunctionRequestInput) : res bytes :=
  kernelRelease ← kernel_release (KernelRelease input);
  let maximumRfcPacketSize := checkedMaximumRfcPacketSize (MaximumRfcPacketSize input) in
  check_names input;;
  fields ← cut_request_fields kernelRelease input;
  close_packet cpicCutFunctionRequestPrefix TagContextEnd (fields ++ [mkField TagEnd []]) maximumRfcPacketSize.

(** ** Responses *)
Record TagLen : Type := mkTagLen { tl_Tag : Z; tl_ByteLength : Z }.

Record DecodedFunctionResultFields : Type := mkDecodedFunctionResultFields {
  rf_Success : bool; rf_Status : option Z; rf_Envelope : Envelope; rf_Fields : list Field }.

Record DecodedFunctionResponse : Type := mkDecodedFunctionResponse {
  fn_Success : bool; fn_Outcome : Outcome; fn_Status : option Z;
  fn_ExceptionKey : bytes; fn_HasException : bool; fn_Fields : list TagLen }.

Definition tagLens (fields : list Field) : list TagLen :=
  map (fun f => mkTagLen (f_Tag f) (zlen (f_Value f))) fields.

Definition toRfcErrFields (fields : list Field) : list Rfcerr.Field :=
  map (fun f => Rfcerr.mkField (f_Tag f) (f_Value f)) fields.

Definition countTag (fields : list Field) (tag : Z) : Z := zlen (filter (fun f => f_Tag f = tag) fields).
Definition anyTag (fields : list Field) (tag : Z) : bool := 0 <? countTag fields tag.
Definition filterTag (fields : list Field) (tag : Z) : list Field := filter (fun f => f_Tag f = tag) fields.

(** [strconv.ParseUint(s, 16, 32)] *)
Definition parse_hex32 (s : bytes) : option Z :=
  if (0 <? zlen s) && forallb is_hex s then
    let v := fold_left (fun acc b => acc * 16 + hex_digit_value b) s 0 in
    if v <? 2 ^ 32 then Some v else None
  else None.

Definition is_success (o : Outcome) : bool := match o with OutcomeSuccess => true | _ => false end.

Definition decodeFunctionResponseFields (fields : list Field) (additionalAllowedTags : list Z)
    : res DecodedFunctionResultFields :=
  let allowed := [TagProgram; 0x0667] ++ additionalAllowedTags in
  envelope ← Decode (toRfcErrFields fields)
    (mkDecodeOptions None None None None None (Some DefaultMaxFieldCount) allowed);
  let status :=
    match Unresolved0420 (env_Facts envelope) with
    | [c] => if is_success (env_Outcome envelope) && (uc_ByteLength c =? 4) then parse_hex32 (uc_ValueHex c) else None
    | _ => None
    end in
  Ok (mkDecodedFunctionResultFields (is_success (env_Outcome envelope)) status envelope fields).

(** [binary.BigEndian.Uint16(data[at:])] *)
Definition uint16_at (data : bytes) (at_ : Z) : res Z := tail ← go_from data at_; be_uint 2 tail.

Definition decodeFunctionResponseEnvelope (data : bytes) (additionalAllowedTags : list Z)
    : res DecodedFunctionResultFields :=
  if zlen data <? zlen cpicFunctionResponsePrefix + 8 then Err errRange
  else
    prefix ← go_slice data 0 (zlen cpicFunctionResponsePrefix);
    if negb (bytes_eqb prefix cpicFunctionResponsePrefix) then Err errProtocol
    else
      body ← go_from data (zlen cpicFunctionResponsePrefix);
      decoded ← DecodeFieldChainPrefix body TagResponseStart TagEnd default_limits;
      let trailerOffset := zlen cpicFunctionResponsePrefix + dp_BytesConsumed decoded in
      if negb (zlen data - trailerOffset =? 2) then Err errProtocol
      else
        trailer ← uint16_at data trailerOffset;
        if negb (trailer =? TagEnd) then Err errProtocol
        else decodeFunctionResponseFields (dp_Fields decoded) additionalAllowedTags.

Definition s4ClassicExtensionTags : list Z :=
  [TagXRfcParameter; TagXRfcData; 0x0104; 0x0331; 0x0333; 0x0334; 0x0335; 0x0336].

Definition DecodeFunctionResultFields (data : bytes) : res DecodedFunctionResultFields :=
  decodeFunctionResponseEnvelope data s4ClassicExtensionTags.

Definition DecodeResetServerContextResultFields (data : bytes) : res DecodedFunctionResultFields :=
  decoded ← decodeFunctionResponseEnvelope data [TagRfcServerResetDn];
  match filterTag (rf_Fields decoded) TagRfcServerResetDn with
  | [] => Ok decoded
  | [f] => if negb (zlen (f_Value f) =? 0) then Err errProtocol else Ok decoded
  | _ => Err errProtocol
  end.

Definition DecodeFunctionResponse (data : bytes) : res DecodedFunctionResponse :=
  decoded ← decodeFunctionResponseEnvelope data [TagXRfcParameter; TagXRfcData];
  let o := env_Outcome (rf_Envelope decoded) in
  let key := match o with OutcomeAbapException => ExceptionKey (env_Facts (rf_Envelope decoded)) | _ => [] end in
  let has := match o with OutcomeAbapException => true | _ => false end in
  Ok (mkDecodedFunctionResponse (rf_Success decoded) o (rf_Status decoded) key has (tagLens (rf_Fields decoded))).

(** ** The first response after a reset *)
Definition sessionRefreshPreambleTags : list Z :=
  [TagProtocolVersion; TagCapabilities; TagLogonStatus; TagSystemCodePage; TagClientAddress; TagPartnerSystem;
   TagPartnerHost; TagConnectionType; TagKernelRelease; TagKernelPatch; TagDestination; TagProgram;
   0x0020; 0x0021; initialCpicUnresolved0450; 0x0451; 0x0452; 0x0453].

Definition maxSessionRefreshPreambleFields : Z := 32.
Definition maxSessionRefreshPreambleBytes : Z := 16 * 1024.

(** The loop that looks for the embedded response marker: its first index and its count; a
    marker with a value ends it. *)
Fixpoint response_marker (i : Z) (fields : list Field) (index count : Z) : res (Z * Z) :=
  match fields with
  | [] => Ok (index, count)
  | f :: fields =>
      if f_Tag f =? TagResponseStart then
        let index := if index <? 0 then i else index in
        if negb (zlen (f_Value f) =? 0) then Err errProtocol
        else response_marker (i + 1) fields index (count + 1)
      else response_marker (i + 1) fields index count
  end.

(** The loop over the preamble: known tags, each once, in a byte budget. *)
Fixpoint preamble_loop (fields : list Field) (preambleBytes : Z) (seen : list Z) : res unit :=
  match fields with
  | [] => Ok tt
  | f :: fields =>
      if negb (bool_decide (f_Tag f ∈ sessionRefreshPreambleTags)) || bool_decide (f_Tag f ∈ seen) then Err errProtocol
      else
        let preambleBytes := preambleBytes + zlen (f_Value f) in
        if maxSessionRefreshPreambleBytes <? preambleBytes then Err errRange
        else preamble_loop fields preambleBytes (f_Tag f :: seen)
  end.

(** The first logon status of the preamble is one zero byte. *)
Definition preamble_status (fields : list Field) : res unit :=
  match filterTag fields TagLogonStatus with
  | [] => Ok tt
  | f :: _ => if bytes_eqb (f_Value f) [x00] then Ok tt else Err errProtocol
  end.

Definition DecodeSessionRefreshResultFields (data : bytes) : res DecodedFunctionResultFields :=
  if zlen data <? zlen initialResponsePrefix + 8 then Err errRange
  else
    prefix ← go_slice data 0 (zlen initialResponsePrefix);
    if negb (bytes_eqb prefix initialResponsePrefix) then Err errProtocol
    else
      body ← go_from data (zlen initialResponsePrefix);
      decoded ← DecodeFieldChainPrefix body TagStart TagEnd default_limits;
      let fields := dp_Fields decoded in
      let trailerOffset := zlen initialResponsePrefix + dp_BytesConsumed decoded in
      trailerOK ← and_then (zlen data - trailerOffset =? 2) (v ← uint16_at data trailerOffset; Ok (v =? TagEnd));
      if negb trailerOK then Err errProtocol
      else
        '(responseStartIndex, responseStartCount) ← response_marker 0 fields (-1) 0;
        if negb (responseStartCount =? 1) then Err errProtocol
        else if (responseStartIndex <? 2) || (maxSessionRefreshPreambleFields <? responseStartIndex) then Err errProtocol
        else
          preamble ← go_slice fields 0 responseStartIndex;
          preamble_loop preamble 0 [];;
          match fields with
          | f0 :: f1 :: _ =>
              if negb (f_Tag f0 =? TagProtocolVersion) || negb (zlen (f_Value f0) =? 4)
                 || negb (f_Tag f1 =? TagCapabilities) || negb (zlen (f_Value f1) =? zlen initialCapabilities)
              then Err errProtocol
              else
                preamble_status preamble;;
                rest ← go_from fields (responseStartIndex + 1);
                decodeFunctionResponseFields rest []
          | _ => Err errProtocol
          end.

(** ** What a request is made of *)
Lemma unicode_bytes_inv value m b :
  unicodeBytes value m = Ok b ->
  b = utf16leBytes value /\ ValidString value = true /\ containsNUL value = false /\
  1 <= zlen (utf16_encode (runes value)) <= m.
Proof.
  unfold unicodeBytes. destruct (Z.ltb_spec (zlen (utf16_encode (runes value))) 1); [done|].
  destruct (Z.ltb_spec m (zlen (utf16_encode (runes value)))); [done|]. cbn [orb].
  destruct (ValidString value) eqn:Ev; [|done]. destruct (containsNUL value) eqn:En; [done|].
  cbn [negb orb]. intros [= <-]. split_and!; try done; lia.
Qed.

(** The fields of an encoder: each tag a 16-bit number, none of them the end tag. *)
Definition inner (f : Field) : Prop := field_ok f /\ f_Tag f <> TagEnd.

Lemma inner_tag tag v : (0 <=? tag) && (tag <? 0xffff) = true -> inner (mkField tag v).
Proof.
  rewrite andb_true_iff, Z.leb_le, Z.ltb_lt. intros H. split; [|unfold TagEnd; cbn; lia].
  unfold field_ok, is_u16. cbn. lia.
Qed.

Ltac inner_tags :=
  repeat first [apply Forall_app; split | apply Forall_cons_2 | apply Forall_nil_2]; try assumption;
  try (apply inner_tag; reflexivity).

Lemma output_fields_inner names fs : output_fields names = Ok fs -> Forall inner fs.
Proof.
  revert fs. induction names as [|n names IH]; intros fs H; cbn [output_fields] in H; [by injection H as <-|].
  ok_step H as v Hv. ok_step H as rest Hr. injection H as <-. specialize (IH rest Hr). inner_tags.
Qed.

Lemma import_fields_inner imports fs : import_fields imports = Ok fs -> Forall inner fs.
Proof.
  revert fs. induction imports as [|p imports IH]; intros fs H; cbn [import_fields] in H; [by injection H as <-|].
  ok_step H as v Hv. ok_step H as rest Hr. injection H as <-. specialize (IH rest Hr). inner_tags.
Qed.

Lemma row_fields_ok n rows fs :
  row_fields n rows = Ok fs -> fs = map (mkField TagTableCompr) rows /\ Forall (fun r => zlen r = n) rows.
Proof.
  revert fs. induction rows as [|r rows IH]; intros fs H; cbn [row_fields] in H; [by injection H as <-|].
  destruct (Z.eqb_spec (zlen r) n); [|done]. cbn [negb] in H. ok_step H as rest Hr. injection H as <-.
  destruct (IH rest Hr) as [-> ?]. split; [done|]. by constructor.
Qed.

Lemma row_fields_inner n rows fs : row_fields n rows = Ok fs -> Forall inner fs.
Proof.
  intros [-> _]%row_fields_ok. apply Forall_map, Forall_true. intros r. by apply inner_tag.
Qed.

Lemma table_fields_inner tables fs : table_fields tables = Ok fs -> Forall inner fs.
Proof.
  revert fs. induction tables as [|t tables IH]; intros fs H; cbn [table_fields] in H; [by injection H as <-|].
  match type of H with (if ?c then _ else _) = _ => destruct c; [done|] end.
  ok_step H as name Hn. ok_step H as rows Hrows. ok_step H as rest Hr. injection H as <-.
  specialize (IH rest Hr). apply row_fields_inner in Hrows. inner_tags.
Qed.

(** The chunks of a value are its bytes, in pieces of at most 16 KiB. *)
Lemma xrfc_chunks_ok fuel pre rest :
  (length rest < fuel)%nat ->
  exists cs, xrfc_chunks fuel (zlen pre) (pre ++ rest) = Ok (map (mkField TagXRfcData) cs) /\ concat cs = rest /\
    Forall (fun c => c <> []) cs.
Proof.
  revert pre rest. induction fuel as [|fuel IH]; intros pre rest Hf; [lia|]. cbn [xrfc_chunks].
  rewrite zlen_app. destruct rest as [|b rest].
  { change (zlen (@nil byte)) with 0. rewrite Z.add_0_r, Z.ltb_irrefl. by exists []. }
  pose proof (zlen_nonneg pre) as Hp.
  assert (0 < zlen (b :: rest)) as Hl by len_lia.
  destruct (Z.ltb_spec (zlen pre) (zlen pre + zlen (b :: rest))); [|lia].
  unfold ClassicXrfcXMLChunkLength. change (16 * 1024) with 16384.
  destruct (Z.ltb_spec (zlen pre + zlen (b :: rest)) (zlen pre + 16384)) as [Hlt|Hge].
  - assert (forall E, @go_slice E byte (pre ++ b :: rest) (zlen pre) (zlen pre + zlen (b :: rest)) = Ok (b :: rest)) as Hs.
    { intros E. rewrite <- (go_slice_mid pre (b :: rest) [] _ _ eq_refl eq_refl). by rewrite app_nil_r. }
    rewrite Hs. cbn [mbind outcome_bind].
    exists [b :: rest]. split; [|split; [cbn; by rewrite app_nil_r|by constructor]].
    destruct fuel as [|fuel]; [cbn in Hf; lia|]. cbn [xrfc_chunks]. rewrite zlen_app.
    by destruct (Z.ltb_spec (zlen pre + 16384) (zlen pre + zlen (b :: rest))); [lia|].
  - destruct (cut_prefix (Z.to_nat 16384) (b :: rest)) as (c & r & E & Hc); [unfold zlen in Hge; lia|]. rewrite E in Hge, Hf |- *.
    assert (zlen c = 16384) as Hzc by (unfold zlen; lia).
    rewrite go_slice_mid by lia. cbn [mbind outcome_bind].
    destruct (IH (pre ++ c) r) as (cs & Ecs & Hcs & Hne); [rewrite length_app in Hf; lia|].
    rewrite zlen_app, Hzc, <- app_assoc in Ecs. rewrite Ecs. cbn [mbind outcome_bind].
    exists (c :: cs). split; [done|]. cbn [concat]. split; [by rewrite Hcs|]. constructor; [|done].
    intros ->. by rewrite length_nil in Hc.
Qed.

Lemma chunk_fields_ok value :
  exists cs, xrfc_chunks (S (length value)) 0 value = Ok (map (mkField TagXRfcData) cs) /\ concat cs = value /\
    Forall (fun c => c <> []) cs.
Proof. apply (xrfc_chunks_ok (S (length value)) [] value). lia. Qed.

Lemma xrfc_fields_inner ps fs : xrfc_fields ps = Ok fs -> Forall inner fs.
Proof.
  revert fs. induction ps as [|p ps IH]; intros fs H; cbn [xrfc_fields] in H; [by injection H as <-|].
  ok_step H as v Hv. destruct (zlen (nv_Value p) =? 0); [done|].
  destruct (chunk_fields_ok (nv_Value p)) as (cs & Ecs & _). rewrite Ecs in H. cbn [mbind outcome_bind] in H.
  ok_step H as rest Hr. injection H as <-. specialize (IH rest Hr). inner_tags.
  apply Forall_map, Forall_true. intros c. by apply inner_tag.
Qed.

Lemma cut_fields_inner k input fs : cut_request_fields k input = Ok fs -> Forall inner fs.
Proof.
  unfold cut_request_fields. intros H. ok_step H as fname Hf. ok_step H as outs Ho. ok_step H as imps Hi.
  ok_step H as tabs Ht. ok_step H as xs Hx. injection H as <-.
  apply output_fields_inner in Ho. apply import_fields_inner in Hi. apply table_fields_inner in Ht.
  apply xrfc_fields_inner in Hx. inner_tags.
Qed.

(** ** A packet that is closed *)
Record packet_of (prefix : bytes) (prev : Z) (fs : list Field) (max : Z) (p : bytes) : Prop := {
  po_bytes : exists trailer, p = prefix ++ chain_bytes prev (fs ++ [mkField TagEnd []]) ++ trailer;
  po_decode : DecodeFieldChainPrefix (drop (length prefix) p) prev TagEnd default_limits
    = Ok (mkDecodedFieldChainPrefix (fs ++ [mkField TagEnd []]) (zlen (chain_bytes prev (fs ++ [mkField TagEnd []]))));
  po_framing : let size := zlen prefix + zlen (chain_bytes prev (fs ++ [mkField TagEnd []])) + 2 in
    InspectRequestAppcFraming p
    = Ok (if size <=? MaxApplicationDataFragmentLength
          then mkRequestAppcFraming "compact" size 8 else mkRequestAppcFraming "streamed" size 0);
}.

Lemma inner_split fs : Forall inner fs ->
  Forall field_ok fs /\ Forall field_ok (fs ++ [mkField TagEnd []]) /\ Forall (fun g => f_Tag g <> f_Tag (mkField TagEnd [])) fs.
Proof.
  intros H. assert (Forall field_ok fs) as Hf by (eapply Forall_impl; [exact H|]; by intros f [? _]). split_and!; [done| |].
  - apply Forall_app. split; [done|]. apply Forall_singleton. unfold field_ok, is_u16, TagEnd. cbn. lia.
  - eapply Forall_impl; [exact H|]. by intros f [_ ?].
Qed.

Lemma closed_packet prefix prev fs max p :
  is_u16 prev -> Forall inner fs -> close_packet prefix prev (fs ++ [mkField TagEnd []]) max = Ok p ->
  packet_of prefix prev fs max p.
Proof.
  intros Hp Hi Hc. destruct (inner_split fs Hi) as (Hf & Hf' & Ht).
  pose proof Hc as Hi'. apply (close_packet_inv _ _ _ _ _ Hf') in Hi'. split.
  - eexists. exact Hi'.
  - rewrite Hi', drop_app_length. pose proof Hc as He. unfold close_packet in He. ok_step He as n Hn. ok_step He as b Hb.
    destruct (encode_chain_inv _ _ _ _ Hf' Hb) as (_ & _ & Eb & _). rewrite <- Eb.
    by apply (chain_prefix_roundtrip prev fs (mkField TagEnd []) default_limits b).
  - by apply (packet_framing prefix prev fs max p).
Qed.

Lemma cut_request_packet input p :
  EncodeCutFunctionRequest input = Ok p ->
  exists k fs, kernel_release (KernelRelease input) = Ok k /\ check_names input = Ok tt /\
    cut_request_fields k input = Ok fs /\
    packet_of cpicCutFunctionRequestPrefix TagContextEnd fs (checkedMaximumRfcPacketSize (MaximumRfcPacketSize input)) p.
Proof.
  unfold EncodeCutFunctionRequest. intros H. ok_step H as k Hk. cbv zeta in H. ok_step H as u Hu. ok_step H as fs Hfs.
  exists k, fs. destruct u. split_and!; try done.
  apply closed_packet; [by vm_compute|by eapply cut_fields_inner|exact H].
Qed.

(** A cut request starts with its prefix, its chain decodes to its fields up to the end tag,
    and it is framed as compact or streamed by its size. *)
Theorem cut_request_framed input p :
  EncodeCutFunctionRequest input = Ok p ->
  exists k fs, cut_request_fields k input = Ok fs /\
    let chain := chain_bytes TagContextEnd (fs ++ [mkField TagEnd []]) in
    let size := 4 + zlen chain + 2 in
    take 4 p = cpicCutFunctionRequestPrefix /\
    DecodeFieldChainPrefix (drop 4 p) TagContextEnd TagEnd default_limits
      = Ok (mkDecodedFieldChainPrefix (fs ++ [mkField TagEnd []]) (zlen chain)) /\
    InspectRequestAppcFraming p
      = Ok (if size <=? MaxApplicationDataFragmentLength
            then mkRequestAppcFraming "compact" size 8 else mkRequestAppcFraming "streamed" size 0).
Proof.
  intros H. destruct (cut_request_packet _ _ H) as (k & fs & _ & _ & Hfs & [[tr Ep] Hd Hf]). exists k, fs.
  split; [done|]. split_and!; [by rewrite Ep|exact Hd|exact Hf].
Qed.

(** ** Reading a response *)
Lemma uint16_at_total data at_ : 0 <= at_ -> at_ + 2 <= zlen data -> total (uint16_at data at_).
Proof.
  intros H1 H2. unfold uint16_at. apply total_bind; [apply total_from; lia|]. intros tl.
  unfold go_from, go_slice. destruct (_ || _); [done|]. intros [= <-]. unfold be_uint.
  destruct (Nat.ltb_spec (length (take (Z.to_nat (zlen data - at_)) (drop (Z.to_nat at_) data))) 2) as [H|]; [|done].
  exfalso. len_lia.
Qed.

(** The response of a server that writes its fields between the prefix and the end tag. *)
Lemma response_fields fs chain tags :
  Forall inner fs -> EncodeFieldChain TagResponseStart (fs ++ [mkField TagEnd []]) default_limits = Ok chain ->
  decodeFunctionResponseEnvelope (cpicFunctionResponsePrefix ++ chain ++ [xff; xff]) tags
  = decodeFunctionResponseFields (fs ++ [mkField TagEnd []]) tags.
Proof.
  intros Hi Hc. destruct (inner_split fs Hi) as (Hf & Hf' & Ht).
  pose proof (chain_prefix_roundtrip TagResponseStart fs (mkField TagEnd []) default_limits chain [xff; xff]
    ltac:(by vm_compute) Hf' Ht Hc) as Hd. cbn [f_Tag] in Hd.
  assert (6 <= zlen chain) as Hl6.
  { destruct (encode_chain_inv _ _ _ _ Hf' Hc) as (_ & _ & -> & _). destruct fs as [|f fs]; [by vm_compute|].
    cbn [app chain_bytes]. rewrite zlen_app, field_record_length. pose proof (zlen_nonneg (f_Value f)).
    destruct (chain_bytes_end (f_Tag f) fs) as [front ->]. rewrite zlen_app. pose proof (zlen_nonneg front).
    pose proof (zlen_nonneg (field_header_bytes f)). change (zlen [xff; xff; x00; x00]) with 4. lia. }
  unfold decodeFunctionResponseEnvelope. set (data := cpicFunctionResponsePrefix ++ chain ++ [xff; xff]).
  assert (zlen data = 6 + zlen chain) as Hz.
  { unfold data. rewrite !zlen_app. change (zlen cpicFunctionResponsePrefix) with 4. change (zlen [xff; xff]) with 2. lia. }
  change (zlen cpicFunctionResponsePrefix) with 4. rewrite Hz. destruct (Z.ltb_spec (6 + zlen chain) (4 + 8)); [lia|].
  rewrite (go_slice_mid [] cpicFunctionResponsePrefix (chain ++ [xff; xff])) by reflexivity. cbn [mbind outcome_bind].
  rewrite bytes_eqb_refl. cbn [negb]. 
  assert (go_from data 4 = (Ok (chain ++ [xff; xff]) : res bytes)) as -> by by apply go_from_app.
  cbn [mbind outcome_bind].
  rewrite Hd. cbn [mbind outcome_bind dp_BytesConsumed dp_Fields].
  replace (6 + zlen chain - (4 + zlen chain)) with 2 by lia. cbn [Z.eqb Pos.eqb negb].
  unfold uint16_at, data. rewrite app_assoc, go_from_app by (rewrite zlen_app; done). cbn [mbind outcome_bind].
  reflexivity.
Qed.

Lemma response_fields_total fs tags : total (decodeFunctionResponseFields fs tags).
Proof. unfold decodeFunctionResponseFields. apply total_bind; [apply decode_total|]. done. Qed.

Lemma response_envelope_total data tags : total (decodeFunctionResponseEnvelope data tags).
Proof.
  unfold decodeFunctionResponseEnvelope. change (zlen cpicFunctionResponsePrefix) with 4.
  destruct (Z.ltb_spec (zlen data) (4 + 8)); [done|]. apply total_bind; [apply total_slice; lia|].
  intros prefix _. destruct (negb _); [done|]. apply total_bind; [apply total_from; lia|]. intros body Hb.
  destruct (chain_prefix_total body TagResponseStart TagEnd default_limits ltac:(by vm_compute) ltac:(by vm_compute)) as (H1 & H2 & H3).
  apply total_bind; [by split|]. intros d Hd. destruct (H3 d Hd) as [Hr _]. cbv zeta.
  destruct (Z.eqb_spec (zlen data - (4 + dp_BytesConsumed d)) 2) as [E|]; cbn [negb]; [|done].
  apply total_bind; [apply uint16_at_total; lia|]. intros v _. destruct (negb _); [done|]. apply response_fields_total.
Qed.

Lemma marker_bound fields i index count i' c' :
  response_marker i fields index count = Ok (i', c') -> index < 0 \/ index < i ->
  (i' < 0 \/ i' < i + zlen fields).
Proof.
  revert i index count. induction fields as [|f fields IH]; intros i index count; cbn [response_marker].
  - intros [= <- <-]. change (zlen (@nil Field)) with 0. lia.
  - replace (i + zlen (f :: fields)) with (i + 1 + zlen fields) by len_lia.
    destruct (f_Tag f =? TagResponseStart); [|intros H ?; eapply IH; [exact H|lia]].
    destruct (negb _); [done|]. intros H Hi. eapply IH; [exact H|]. destruct (Z.ltb_spec index 0); lia.
Qed.

Lemma marker_total fields i index count : total (response_marker i fields index count).
Proof.
  revert i index count. induction fields as [|f fields IH]; intros i index count; cbn [response_marker]; [done|].
  destruct (_ =? _); [|apply IH]. destruct (negb _); [done|apply IH].
Qed.

Lemma preamble_total fields n seen : total (preamble_loop fields n seen).
Proof.
  revert n seen. induction fields as [|f fields IH]; intros n seen; cbn [preamble_loop]; [done|].
  destruct (_ || _); [done|]. destruct (_ <? _); [done|apply IH].
Qed.

(** The four decoders of responses never panic. *)
Theorem responses_total data :
  total (DecodeFunctionResultFields data) /\ total (DecodeFunctionResponse data) /\
  total (DecodeResetServerContextResultFields data) /\ total (DecodeSessionRefreshResultFields data).
Proof.
  split_and!.
  - apply response_envelope_total.
  - apply total_bind; [apply response_envelope_total|]. done.
  - apply total_bind; [apply response_envelope_total|]. intros d _.
    destruct (filterTag _ _) as [|f [|]]; [done| |done]. by destruct (negb _).
  - unfold DecodeSessionRefreshResultFields. change (zlen initialResponsePrefix) with 12.
    destruct (Z.ltb_spec (zlen data) (12 + 8)); [done|]. apply total_bind; [apply total_slice; lia|].
    intros prefix _. destruct (negb _); [done|]. apply total_bind; [apply total_from; lia|]. intros body Hb.
    destruct (chain_prefix_total body TagStart TagEnd default_limits ltac:(by vm_compute) ltac:(by vm_compute)) as (H1 & H2 & H3).
    apply total_bind; [by split|]. intros d Hd. destruct (H3 d Hd) as [Hr _]. cbv zeta.
    apply total_bind.
    { unfold and_then. destruct (Z.eqb_spec (zlen data - (12 + dp_BytesConsumed d)) 2) as [E|]; [|done].
      apply total_bind; [apply uint16_at_total; lia|done]. }
    intros ok _. destruct (negb ok); [done|]. apply total_bind; [apply marker_total|]. intros [i c] Hm.
    pose proof (marker_bound _ _ _ _ _ _ Hm ltac:(lia)) as Hi. rewrite Z.add_0_l in Hi. destruct (negb _); [done|].
    destruct (Z.ltb_spec i 2); [done|]. cbn [orb]. destruct (_ <? i); [done|].
    apply total_bind; [apply total_slice; lia|]. intros pre _. apply total_bind; [apply preamble_total|]. intros _ _.
    destruct (dp_Fields d) as [|f0 [|f1 fs]]; [done..|]. destruct (_ || _); [done|].
    apply total_bind.
    { unfold preamble_status. destruct (filterTag pre TagLogonStatus); [done|]. by destruct (bytes_eqb _ _). }
    intros _ _. apply total_bind; [apply total_from; lia|]. intros rest _. apply response_fields_total.
Qed.

(** ** Instances *)
Definition sample_request : CutFunctionRequestInput :=
  mkCutFunctionRequestInput (lit "STFC_CONNECTION") [lit "ECHOTEXT"] [mkNamedValue (lit "REQUTEXT") [x68; x00; x69; x00]]
    [mkTable (lit "ROWS") 2 [[x01; x02]; [x03; x04]]]
    [mkNamedValue (lit "/BIC/T") (lit "<_-BIC_-T></_-BIC_-T>")] [] None.

Lemma cut_request_framed_witness :
  exists p k fs, EncodeCutFunctionRequest sample_request = Ok p /\ cut_request_fields k sample_request = Ok fs /\
    zlen p = 211 /\ InspectRequestAppcFraming p = Ok (mkRequestAppcFraming "compact" 203 8) /\
    DecodeFieldChainPrefix (drop 4 p) TagContextEnd TagEnd default_limits
      = Ok (mkDecodedFieldChainPrefix (fs ++ [mkField TagEnd []]) (zlen (chain_bytes TagContextEnd (fs ++ [mkField TagEnd []])))).
Proof.
  destruct (EncodeCutFunctionRequest sample_request) as [p| |] eqn:E; [|vm_compute in E; discriminate..].
  destruct (cut_request_framed sample_request p E) as (k & fs & Hfs & _ & Hd & _).
  exists p, k, fs. split; [reflexivity|]. split; [exact Hfs|]. split; [|split; [|exact Hd]].
  - vm_compute in E. apply Ok_inj in E. subst p. vm_compute. reflexivity.
  - vm_compute in E. apply Ok_inj in E. subst p. vm_compute. reflexivity.
Defined.
