(* ===== verification/CpicLogon.v ===== *)
(** Package [cpic], the logon: internal/cpic/logon.go, grammar.go and ticket.go.

    The first message of a session is a signature, a prefix, a chain of twenty-two fields and
    a ten-byte trailer.  It carries a scrambled password or a logon ticket.  The first
    response is one of three shapes: an error envelope, a short status response, or the
    composite response of RFCPING, which a grammar with optional coordinates describes.

    The theorems: which inputs are encoded, what the receiver reads from the message, what
    becomes of a ticket on the wire, that the grammar matcher finds a match whenever there is
    one, and that a logon is reported successful only by a response that says so. *)
From stdpp Require Import base list numbers strings.
From Stdlib Require Import ZArith Lia Strings.Byte.
From S2P Require Import Prelude Errors Text Scramble Rfcpro Rfcerr Cpic CpicFunction.

Open Scope Z_scope.

Definition initialSignature : bytes := [xd9; xc6; xc3; xf0; xf0; xf0; xf0; xf0; xf0; xf0; xf0; xf0].
Definition initialPrefix : bytes := [x01; x01; x00; x08; x03; x01].
Definition initialErrorResponsePrefix : bytes := [x01; x01; x00; x08; x01; x01; x01; x01; x01; x01; x00; x00].

Definition initialErrorPreambleTags : list Z :=
  [TagProtocolVersion; TagCapabilities; TagSystemCodePage; TagClientAddress; TagPartnerSystem; TagPartnerHost;
   TagConnectionType; TagKernelPatch; TagKernelRelease; TagDestination; TagProgram; TagResponseStart].

Definition initialRegularResponseTags : list Z :=
  [TagStart; TagProtocolVersion; TagCapabilities; TagLogonStatus; TagUnresolved0420; initialCpicUnresolved0450;
   TagSystemCodePage; TagEnd].

(** ** Tickets *)
(** The UTF-8 forms of the characters [unicode.IsSpace] accepts. *)
Definition space_runes : list Z :=
  [0x09; 0x0a; 0x0b; 0x0c; 0x0d; 0x20; 0x85; 0xa0; 0x1680; 0x2000; 0x2001; 0x2002; 0x2003; 0x2004; 0x2005; 0x2006;
   0x2007; 0x2008; 0x2009; 0x200a; 0x2028; 0x2029; 0x202f; 0x205f; 0x3000].
Definition spaces : list bytes := map EncodeRune space_runes.

(** Drop pieces of [ps] from the front as long as one of them is there. *)
Fixpoint trim_front (ps : list bytes) (fuel : nat) (s : bytes) : bytes :=
  match fuel with
  | O => s
  | S fuel =>
      match List.find (fun p => bytes_eqb (take (length p) s) p) ps with
      | Some p => trim_front ps fuel (drop (length p) s)
      | None => s
      end
  end.

(** [strings.TrimSpace]: a trailing space is one whose UTF-8 form ends the string. *)
Definition TrimSpace (s : bytes) : bytes :=
  let s := trim_front spaces (length s) s in
  rev (trim_front (map (@rev byte) spaces) (length s) (rev s)).

(** [url.QueryUnescape]: [None] for an invalid escape. *)
Fixpoint QueryUnescape (s : bytes) : option bytes :=
  match s with
  | [] => Some []
  | c :: s' =>
      if bool_decide (c = x25) then
        match s' with
        | a :: b :: s'' =>
            if is_hex a && is_hex b
            then rest ← QueryUnescape s''; Some (z2b (hex_digit_value a * 16 + hex_digit_value b) :: rest)
            else None
        | _ => None
        end
      else
        rest ← QueryUnescape s';
        Some ((if bool_decide (c = x2b) then x20 else c) :: rest)
  end.

Definition bang_to_slash (b : byte) : byte := if bool_decide (b = x21) then x2f else b.

Definition NormalizeTicket (raw : bytes) : bytes :=
  let s := TrimSpace raw in
  let s := match QueryUnescape s with Some unescaped => unescaped | None => s end in
  map bang_to_slash s.

Definition encodeTicketField (raw : bytes) : bytes := NormalizeTicket raw ≫= (fun b => [b; x00]).

Fixpoint DecodeTicketField (value : bytes) : bytes :=
  match value with
  | lo :: hi :: value =>
      if bool_decide (hi = x00) && is_printable lo then lo :: DecodeTicketField value else DecodeTicketField value
  | _ => []
  end.

Fixpoint TicketFromLogonFields (fields : list Field) : bytes :=
  match fields with
  | [] => []
  | f :: fields => if f_Tag f =? TagTicket then DecodeTicketField (f_Value f) else TicketFromLogonFields fields
  end.

(** ** The request *)
Record InitialLogonRequestInput : Type := mkLogonInput {
  li_Client : bytes; li_User : bytes; li_Password : bytes; li_Ticket : bytes; li_Language : bytes;
  li_ClientAddress : bytes; li_PartnerSystem : bytes; li_PartnerHostName : bytes; li_Destination : bytes;
  li_ProgramName : bytes; li_FunctionName : bytes; li_KernelRelease : bytes;
  li_SessionID : option bytes; li_PasswordSeed : option Z; li_MaximumRfcPacketSize : option Z }.

Definition upper_byte (b : byte) : byte := if in_range 0x61 0x7a (b2z b) then z2b (b2z b - 32) else b.
Definition upperASCII (s : bytes) : bytes := map upper_byte s.

(** The checks and defaults, in order; [seed] and [session] are what [crypto/rand] gives
    when it is asked. *)
Definition logon_password (seed : res bytes) (input : InitialLogonRequestInput) : res bytes :=
  match li_PasswordSeed input with
  | Some s => ScrambleRfcPassword (li_Password input) s
  | None => ScrambleRfcPasswordRandomSeed seed (li_Password input)
  end.

Definition logon_session (session : res bytes) (input : InitialLogonRequestInput) : res bytes :=
  sessionID ← match li_SessionID input with Some s => Ok s | None => session end;
  exactBytes sessionID 16.

Definition or_default (s d : bytes) : bytes := match s with [] => d | _ => s end.

Definition credential (password : bytes) (input : InitialLogonRequestInput) : Field :=
  if bytes_eqb (li_Ticket input) [] then mkField TagPassword password
  else mkField TagTicket (encodeTicketField (li_Ticket input)).

Definition logon_fields (seed session : res bytes) (input : InitialLogonRequestInput) : res (list Field) :=
  guard (negb (digits3 (li_Client input))) errRange;;
  guard (negb (oneLetter (li_Language input))) errRange;;
  kernelRelease ← kernel_release (li_KernelRelease input);
  password ← logon_password seed input;
  sessionID ← logon_session session input;
  let partnerSystem := or_default (li_PartnerSystem input) (lit "::1") in
  let functionName := or_default (li_FunctionName input) (lit "RFCPING") in
  user ← asciiBytes (li_User input) 1 40;
  clientAddress ← asciiBytes (li_ClientAddress input) 1 64;
  partnerSystemBytes ← asciiBytes partnerSystem 1 64;
  partnerHost ← asciiBytes (li_PartnerHostName input) 1 120;
  destination ← asciiBytes (li_Destination input) 1 120;
  program ← asciiBytes (li_ProgramName input) 1 64;
  functionBytes ← asciiBytes functionName 1 40;
  Ok [
    mkField TagStart [];
    mkField TagProtocolVersion initialProtocolVersion;
    mkField TagCapabilities initialCapabilities;
    mkField TagLogonMarker [];
    mkField TagSession sessionID;
    mkField TagClient (li_Client input);
    mkField TagUser user;
    credential password input;
    mkField TagLanguage (upperASCII (li_Language input));
    mkField TagUnicodeIndicator [x01];
    mkField TagClientAddress clientAddress;
    mkField TagPartnerSystem partnerSystemBytes;
    mkField TagConnectionType (lit "E");
    mkField TagKernelRelease kernelRelease;
    mkField TagKernelPatch kernelRelease;
    mkField TagPartnerHost partnerHost;
    mkField TagDestination destination;
    mkField TagProgram program;
    mkField TagContextEnd [];
    mkField TagKernel kernelRelease;
    mkField TagFunction functionBytes;
    mkField TagEnd []].

Definition EncodeInitialLogonRequest (seed session : res bytes) (input : InitialLogonRequestInput) : res bytes :=
  fields ← logon_fields seed session input;
  chainByteLength ← FieldChainByteLength TagStart fields default_limits;
  let cpicPacketSize := zlen initialSignature + zlen initialPrefix + chainByteLength + 2 in
  if 0xffff <? cpicPacketSize then Err errRange
  else
    chain ← EncodeFieldChain TagStart fields default_limits;
    let trailer := be_split 2 TagEnd ++ be_split 2 0 ++ be_split 2 (uint16 cpicPacketSize)
                   ++ be_split 4 (checkedMaximumRfcPacketSize (li_MaximumRfcPacketSize input)) in
    Ok (initialSignature ++ initialPrefix ++ chain ++ trailer).

Definition initialTagOrder : list Z :=
  [TagStart; TagProtocolVersion; TagCapabilities; TagLogonMarker; TagSession; TagClient; TagUser; TagPassword; TagLanguage;
   TagUnicodeIndicator; TagClientAddress; TagPartnerSystem; TagConnectionType; TagKernelRelease; TagKernelPatch;
   TagPartnerHost; TagDestination; TagProgram; TagContextEnd; TagKernel; TagFunction; TagEnd].

Record DecodedInitialLogonRequest : Type := mkDecodedLogonRequest {
  dl_Fields : list TagLen; dl_CpicPacketSize : Z; dl_MaximumRfcPacketSize : Z }.

Definition DecodeInitialLogonRequest (data : bytes) : res DecodedInitialLogonRequest :=
  let prefixLength := zlen initialSignature + zlen initialPrefix in
  if zlen data <? prefixLength + 10 then Err errRange
  else
    signature ← go_slice data 0 12;
    guard (negb (bytes_eqb signature initialSignature)) errProtocol;;
    prefix ← go_slice data 12 prefixLength;
    guard (negb (bytes_eqb prefix initialPrefix)) errProtocol;;
    body ← go_from data prefixLength;
    decoded ← DecodeFieldChainPrefix body TagStart TagEnd default_limits;
    let fields := dp_Fields decoded in
    guard (negb (bool_decide (map f_Tag fields = initialTagOrder))) errProtocol;;
    f1 ← go_index fields 1;
    guard (negb (bytes_eqb (f_Value f1) initialProtocolVersion)) errProtocol;;
    f2 ← go_index fields 2;
    guard (negb (bytes_eqb (f_Value f2) initialCapabilities)) errProtocol;;
    let trailerOffset := prefixLength + dp_BytesConsumed decoded in
    guard (negb (zlen data - trailerOffset =? 10)) errProtocol;;
    trailer ← go_from data trailerOffset;
    marker ← uint16_at trailer 0;
    filler ← uint16_at trailer 2;
    guard (negb (marker =? TagEnd) || negb (filler =? 0)) errProtocol;;
    cpicPacketSize ← uint16_at trailer 4;
    guard (negb (cpicPacketSize =? trailerOffset + 2)) errProtocol;;
    rest ← go_from trailer 6;
    maximum ← be_uint 4 rest;
    Ok (mkDecodedLogonRequest (tagLens fields) cpicPacketSize maximum).

(** ** The grammar of the composite response *)
Record grammarCoordinate : Type := mkCoordinate {
  tag : Z; byteLength : Z; hasByteLength : bool; maxByteLength : Z; optional : bool }.

Definition initialMaxTextCoordinateByteLength : Z := 255.
Definition exact (tag n : Z) (optional : bool) : grammarCoordinate := mkCoordinate tag n true 0 optional.
Definition bounded (tag : Z) (optional : bool) : grammarCoordinate :=
  mkCoordinate tag 0 false initialMaxTextCoordinateByteLength optional.

Definition initialRichPreambleGrammar : list grammarCoordinate :=
  [exact TagProtocolVersion 4 false; exact TagCapabilities 11 false; exact TagLogonStatus 1 true;
   exact TagSystemCodePage 8 false; exact initialCpicUnresolved0450 6 true; exact 0x0451 20 true; exact 0x0452 4 true;
   bounded 0x0453 true; bounded TagClientAddress false; exact 0x0020 92 true; exact 0x0021 20 true;
   bounded TagPartnerSystem false; bounded TagPartnerHost false; exact TagConnectionType 2 false;
   exact TagKernelPatch 8 false; exact TagKernelRelease 8 false; bounded TagDestination true; bounded TagProgram false;
   exact 0x0150 24 false; exact 0x0151 6 false; exact 0x0152 2 false].

Definition initialRichResponseGrammar : list grammarCoordinate :=
  [exact TagResponseStart 0 false; exact TagResponseContext 0 false; exact TagSession 16 false;
   exact TagUnresolved0420 4 false; exact TagCallContext 0 false; bounded TagProgram false; exact 0x0667 8 false;
   exact 0x0126 4 true; exact TagEnd 0 false].

Definition initialRichGrammar : list grammarCoordinate := initialRichPreambleGrammar ++ initialRichResponseGrammar.

(** How often the grammar has a tag. *)
Definition initialRichTagLimits (t : Z) : Z := zlen (filter (fun c => tag c = t) initialRichGrammar).

Definition matchesCoordinate (field : Field) (c : grammarCoordinate) : bool :=
  if negb (f_Tag field =? tag c) then false
  else if hasByteLength c then zlen (f_Value field) =? byteLength c
  else (1 <=? zlen (f_Value field)) && (zlen (f_Value field) <=? maxByteLength c).

Record grammarMatch : Type := mkMatch { preambleFieldCount : Z; embeddedAllowedTags : list Z }.

(** The loop over the coordinates; [fields] is what follows [fieldIndex]. *)
Fixpoint match_loop (grammar : list grammarCoordinate) (fields : list Field) (fieldIndex : Z) (m : grammarMatch)
    : option grammarMatch :=
  match grammar with
  | [] => match fields with [] => if preambleFieldCount m <? 0 then None else Some m | _ => None end
  | c :: grammar =>
      let skip := if optional c then match_loop grammar fields fieldIndex m else None in
      match fields with
      | f :: fields =>
          if matchesCoordinate f c then
            match_loop grammar fields (fieldIndex + 1)
              (mkMatch (if tag c =? TagResponseStart then fieldIndex else preambleFieldCount m)
                       (embeddedAllowedTags m ++ (if tag c =? 0x0126 then [0x0126] else [])))
          else skip
      | [] => skip
      end
  end.

Definition matchInitialRichGrammar (fields : list Field) : option grammarMatch :=
  match_loop initialRichGrammar fields 0 (mkMatch (-1) []).

Definition hasInitialCompositeDuplicate (fields : list Field) : bool :=
  existsb (fun c => initialRichTagLimits (tag c) <? countTag fields (tag c)) initialRichGrammar.

(** ** The response *)
Record Rejection : Type := mkRejection {
  rj_Outcome : Outcome; rj_MessageClass : bytes; rj_MessageType : bytes; rj_MessageNumber : bytes;
  rj_ExceptionKey : bytes; rj_RuntimeID : bytes; rj_Text : bytes }.

Record DecodedInitialLogonResponse : Type := mkDecodedLogonResponse {
  lr_Success : bool; lr_Status : option Z; lr_Rejection : option Rejection;
  lr_NegotiatedProtocolVersion : Z; lr_Fields : list TagLen }.

Definition failParse (stage : string) : error := ECpic (ParseError stage).
Definition failStructure (rule : string) : error := ECpic (StructureError rule).

(** [wrapParse]: the error of a step under the name of its stage. *)
Definition wrapParse {A} (stage : string) (m : res A) : res A :=
  match m with Err EFuel => Err EFuel | Err _ => Err (failParse stage) | _ => m end.

(** The one End field, empty and last; the composite decoder makes the same test. *)
Definition validateEndField (fields : list Field) : res unit :=
  match filterTag fields TagEnd with
  | [e] =>
      l ← go_index fields (zlen fields - 1);
      guard (negb (f_Tag l =? TagEnd) || negb (zlen (f_Value e) =? 0)) (failStructure "invalid-end-field")
  | _ => Err (failStructure "invalid-end-field")
  end.

(** The one-byte status, at most once, and its value (0 without one). *)
Definition one_byte_status (fields : list Field) : res Z :=
  match filterTag fields TagLogonStatus with
  | [] => Ok 0
  | [f] => if negb (zlen (f_Value f) =? 1) then Err (failStructure "malformed-one-byte-status")
           else b ← go_index (f_Value f) 0; Ok (b2z b)
  | _ => Err (failStructure "malformed-one-byte-status")
  end.

Definition decodeRichInitialRfcPingResponse (fields : list Field) (negotiated : Z) : res DecodedInitialLogonResponse :=
  validateEndField fields;;
  status ← one_byte_status fields;
  match filterTag fields TagUnresolved0420 with
  | [call] =>
      if negb (zlen (f_Value call) =? 4) then Err (failStructure "malformed-call-status")
      else if hasInitialCompositeDuplicate fields then Err (failStructure "duplicate-control-field")
      else match matchInitialRichGrammar fields with
      | None =>
          Err (failStructure (if status =? 0 then "unsupported-field-zero-logon-status" else "unsupported-field"))
      | Some m =>
          if negb (status =? 0) then Ok (mkDecodedLogonResponse false (Some status) None negotiated (tagLens fields))
          else
            v ← be_uint 4 (f_Value call);
            if negb (v =? 0) then Err (failStructure "nonzero-call-status")
            else
              rest ← go_from fields (preambleFieldCount m + 1);
              embedded ← decodeFunctionResponseFields rest (embeddedAllowedTags m);
              if negb (rf_Success embedded) then Err (failStructure "nonzero-call-status")
              else Ok (mkDecodedLogonResponse true (Some status) None negotiated (tagLens fields))
      end
  | _ => Err (failStructure "malformed-call-status")
  end.

Fixpoint preambleMatches (fields : list Field) (tags : list Z) : bool :=
  match tags, fields with
  | [], _ => true
  | t :: tags, f :: fields => if negb (f_Tag f =? t) then false else preambleMatches fields tags
  | _, [] => false
  end.

(** A response with the error prefix. *)
Definition error_response (fields : list Field) (negotiated : Z) : res DecodedInitialLogonResponse :=
  let n := zlen initialErrorPreambleTags in
  if (zlen fields <=? n + 1) || negb (preambleMatches fields initialErrorPreambleTags)
  then Err (failParse "error-preamble")
  else
    marker ← go_index fields (n - 1);
    guard (negb (zlen (f_Value marker) =? 0)) (failParse "error-preamble");;
    guard (existsb (fun t => negb (countTag fields t =? 1)) initialErrorPreambleTags) (failParse "error-preamble");;
    envelope ← wrapParse "error-envelope" (Decode (toRfcErrFields fields)
      (mkDecodeOptions None None None None None None initialErrorPreambleTags));
    guard (is_success (env_Outcome envelope)) (failParse "error-envelope");;
    let facts := env_Facts envelope in
    Ok (mkDecodedLogonResponse false None
      (Some (mkRejection (env_Outcome envelope) (MessageClass facts) (MessageType facts) (MessageNumber facts)
                         (ExceptionKey facts) (RuntimeID facts) (PlainText facts)))
      negotiated (tagLens fields)).

(** The test of the 0x0450 control: [true] when it is malformed. *)
Definition s4_malformed (semantic : list Field) : res bool :=
  match filterTag semantic initialCpicUnresolved0450 with
  | [] => Ok false
  | [s4] =>
      let index := match list_find (fun f => f_Tag f = initialCpicUnresolved0450) semantic with
                   | Some (i, _) => Z.of_nat i | None => -1 end in
      if negb (zlen (f_Value s4) =? 6) || negb (index =? 4) || (zlen semantic <? 4) then Ok true
      else f ← go_index semantic 3; Ok (negb (f_Tag f =? TagUnresolved0420))
  | _ => Ok true
  end.

(** The call status, at most once; [None] without one. *)
Definition call_status (fields : list Field) : res (option Z) :=
  match filterTag fields TagUnresolved0420 with
  | [] => Ok None
  | [f] => if negb (zlen (f_Value f) =? 4) then Err (failStructure "malformed-call-status")
           else v ← be_uint 4 (f_Value f); Ok (Some v)
  | _ => Err (failStructure "malformed-call-status")
  end.

(** A response with the regular prefix and no composite part. *)
Definition regular_response (fields : list Field) (negotiated : Z) : res DecodedInitialLogonResponse :=
  guard (existsb (fun f => negb (bool_decide (f_Tag f ∈ initialRegularResponseTags))) fields) (failStructure "unsupported-field");;
  validateEndField fields;;
  let startCount := countTag fields TagStart in
  first ← (if startCount =? 1
           then f ← go_index fields 0; Ok (negb (f_Tag f =? TagStart) || negb (zlen (f_Value f) =? 0))
           else Ok false);
  guard ((1 <? startCount) || first) (failStructure "invalid-start-field");;
  semantic ← (if startCount =? 1 then go_from fields 1 else Ok fields);
  malformed ← s4_malformed semantic;
  guard malformed (failStructure "malformed-vendor-logon-control");;
  guard ((1 <? countTag fields TagCapabilities) || (1 <? countTag fields TagSystemCodePage))
        (failStructure "duplicate-control-field");;
  status ← one_byte_status fields;
  call ← call_status fields;
  guard (match filterTag fields TagLogonStatus, call with [], None => true | _, _ => false end)
        (failStructure "missing-logon-status");;
  guard (match call with Some v => negb (v =? 0) | None => false end) (failStructure "nonzero-call-status");;
  Ok (mkDecodedLogonResponse (status =? 0) (Some status) None negotiated (tagLens fields)).

Definition DecodeInitialLogonResponse (data : bytes) : res DecodedInitialLogonResponse :=
  if zlen data <? zlen initialResponsePrefix + 8 then Err (failParse "truncated")
  else
    prefix ← go_slice data 0 (zlen initialResponsePrefix);
    let isRegular := bytes_eqb prefix initialResponsePrefix in
    let isError := bytes_eqb prefix initialErrorResponsePrefix in
    if negb isRegular && negb isError then Err (failParse "prefix")
    else
      body ← go_from data (zlen initialResponsePrefix);
      decoded ← wrapParse "field-chain" (DecodeFieldChainPrefix body TagStart TagEnd default_limits);
      let fields := dp_Fields decoded in
      let trailerOffset := zlen initialResponsePrefix + dp_BytesConsumed decoded in
      trailerOK ← and_then (zlen data - trailerOffset =? 2) (v ← uint16_at data trailerOffset; Ok (v =? TagEnd));
      if negb trailerOK then Err (failParse "trailer")
      else
        match filterTag fields TagProtocolVersion with
        | [] => Err (failParse "protocol")
        | protocol :: more =>
            if negb (zlen (f_Value protocol) =? 4) then Err (failParse "protocol")
            else
              negotiated ← be_uint 4 (f_Value protocol);
              if isError then error_response fields negotiated
              else if negb (bool_decide (more = [])) then Err (failParse "protocol")
              else if anyTag fields TagResponseStart then decodeRichInitialRfcPingResponse fields negotiated
              else regular_response fields negotiated
        end.

(** ** Tickets on the wire *)
Definition is_base64 (b : byte) : bool := is_digit b || is_letter b || bool_decide (b ∈ [x2b; x2f; x3d]).
Definition plus_to_space (b : byte) : byte := if bool_decide (b = x2b) then x20 else b.

(** The form of a ticket in a cookie: ['!'] for ['/'], and the rest escaped. *)
Definition cookie_byte (b : byte) : bytes :=
  if bool_decide (b = x2f) then [x21]
  else if bool_decide (b = x2b) then lit "%2B"
  else if bool_decide (b = x3d) then lit "%3D"
  else [b].
Definition cookie_form (s : bytes) : bytes := s ≫= cookie_byte.

(** A property of every byte, by evaluation. *)
Definition every_byte (p : byte -> bool) : bool := forallb (fun n => p (z2b (Z.of_nat n))) (seq 0 256).

Lemma every_byte_spec p b : every_byte p = true -> p b = true.
Proof.
  intros H. unfold every_byte in H. rewrite forallb_forall in H. pose proof (b2z_range b).
  specialize (H (Z.to_nat (b2z b))). rewrite Z2Nat.id, z2b_b2z in H by lia. apply H, in_seq. lia.
Qed.

Definition starts_outside (good : byte -> bool) (p : bytes) : bool := match p with [] => false | b :: _ => negb (good b) end.

Lemma trim_front_stays good ps fuel s :
  forallb (starts_outside good) ps = true -> Forall (fun b => good b = true) s -> trim_front ps fuel s = s.
Proof.
  intros Hps Hs. destruct fuel as [|fuel]; [done|]. cbn [trim_front].
  destruct (List.find _ ps) as [p|] eqn:Ef; [|done]. apply find_some in Ef as [Hin Hp].
  apply bytes_eqb_eq in Hp. rewrite forallb_forall in Hps. specialize (Hps p Hin).
  destruct p as [|b p]; [done|]. destruct s as [|c s]; [done|]. injection Hp as -> _.
  apply Forall_cons in Hs as [Hs _]. cbn in Hps. by rewrite Hs in Hps.
Qed.

Definition ticket_char (b : byte) : bool := is_base64 b || bool_decide (b ∈ [x21; x25]).

Lemma trim_space_stays s : Forall (fun b => ticket_char b = true) s -> TrimSpace s = s.
Proof.
  intros H. unfold TrimSpace. rewrite (trim_front_stays ticket_char spaces) by done. cbv zeta.
  rewrite (trim_front_stays ticket_char) by (done || by apply Forall_rev). apply rev_involutive.
Qed.

Lemma base64_cases b : is_base64 b = true ->
  ticket_char b = true /\ b <> x21 /\ b <> x25 /\ bang_to_slash (plus_to_space b) = plus_to_space b /\
  is_printable b = true /\ is_printable (plus_to_space b) = true.
Proof.
  intros H. pose proof (every_byte_spec (fun b => implb (is_base64 b) (ticket_char b && negb (bool_decide (b = x21)) &&
    negb (bool_decide (b = x25)) && bool_decide (bang_to_slash (plus_to_space b) = plus_to_space b) &&
    is_printable b && is_printable (plus_to_space b))) b ltac:(by vm_compute)) as Hb. cbv beta in Hb. rewrite H in Hb. cbn [implb] in Hb.
  repeat apply andb_true_iff in Hb as [Hb ?]. repeat match goal with H : negb _ = true |- _ => apply negb_true_iff, bool_decide_eq_false in H end.
  match goal with H : bool_decide _ = true |- _ => apply bool_decide_eq_true in H end. done.
Qed.

Lemma unescape_base64 s : Forall (fun b => is_base64 b = true) s -> QueryUnescape s = Some (map plus_to_space s).
Proof.
  induction 1 as [|b s Hb _ IH]; [done|]. cbn [QueryUnescape map]. destruct (base64_cases b Hb) as (_ & _ & Hp & _).
  rewrite bool_decide_eq_false_2 by done. rewrite IH. done.
Qed.

Lemma cookie_chars s : Forall (fun b => is_base64 b = true) s -> Forall (fun b => ticket_char b = true) (cookie_form s).
Proof.
  induction 1 as [|b s Hb _ IH]; [constructor|]. unfold cookie_form in *. rewrite bind_cons. apply Forall_app. split; [|done].
  destruct (base64_cases b Hb) as (Ht & _). unfold cookie_byte.
  repeat case_bool_decide; repeat first [apply Forall_cons_2; [done|]|apply Forall_nil_2].
Qed.

Lemma unescape_cookie s :
  Forall (fun b => is_base64 b = true) s ->
  exists u, QueryUnescape (cookie_form s) = Some u /\ map bang_to_slash u = s.
Proof.
  induction 1 as [|b s Hb _ IH]; [by exists []|]. destruct IH as (u & Hu & Hs). unfold cookie_form in *. rewrite bind_cons.
  destruct (base64_cases b Hb) as (_ & Hn & Hp & _). set (r := s ≫= cookie_byte) in *. clearbody r. unfold cookie_byte.
  destruct (bool_decide_reflect (b = x2f)) as [->|H1]; [exists (x21 :: u); cbn; rewrite Hu, <- Hs; done|].
  destruct (bool_decide_reflect (b = x2b)) as [->|H2]; [exists (x2b :: u); cbn; rewrite Hu, <- Hs; done|].
  destruct (bool_decide_reflect (b = x3d)) as [->|H3]; [exists (x3d :: u); cbn; rewrite Hu, <- Hs; done|].
  exists (b :: u). cbn [app QueryUnescape]. rewrite bool_decide_eq_false_2 by done. rewrite Hu, bool_decide_eq_false_2 by done.
  split; [done|]. cbn [map]. rewrite Hs. unfold bang_to_slash. by rewrite bool_decide_eq_false_2.
Qed.

Lemma ticket_field_read s :
  Forall (fun b => is_printable b = true) s -> DecodeTicketField (s ≫= (fun b => [b; x00])) = s.
Proof. induction 1 as [|b s Hb _ IH]; [done|]. rewrite bind_cons. cbn [app DecodeTicketField]. rewrite Hb, IH. done. Qed.

Lemma ticket_sent s :
  Forall (fun b => is_base64 b = true) s -> DecodeTicketField (encodeTicketField s) = map plus_to_space s.
Proof.
  intros H. unfold encodeTicketField, NormalizeTicket.
  rewrite trim_space_stays by (eapply Forall_impl; [exact H|]; by intros b (? & _)%base64_cases).
  rewrite (unescape_base64 s H). rewrite map_map. 
  rewrite (map_ext_in _ plus_to_space s).
  - apply ticket_field_read, Forall_map. eapply Forall_impl; [exact H|]. by intros b (_ & _ & _ & _ & _ & ?)%base64_cases.
  - intros b Hb%list_elem_of_In. rewrite Forall_forall in H. by destruct (base64_cases b (H b Hb)) as (_ & _ & _ & ? & _).
Qed.

(** The cookie form of every base64 ticket reaches the wire as the ticket; the base64 form
    itself has its plus signs turned into blanks, and survives exactly when it has none. *)
Theorem ticket_on_wire s :
  Forall (fun b => is_base64 b = true) s ->
  DecodeTicketField (encodeTicketField (cookie_form s)) = s /\
  DecodeTicketField (encodeTicketField s) = map plus_to_space s /\
  (DecodeTicketField (encodeTicketField s) = s <-> x2b ∉ s).
Proof.
  intros H. split_and!; [|by apply ticket_sent|].
  - unfold encodeTicketField, NormalizeTicket. rewrite trim_space_stays by by apply cookie_chars.
    destruct (unescape_cookie s H) as (u & -> & ->). apply ticket_field_read.
    eapply Forall_impl; [exact H|]. by intros b (_ & _ & _ & _ & ? & _)%base64_cases.
  - rewrite (ticket_sent s H). clear H. induction s as [|b s IH]; [split; [by intros _ ?%elem_of_nil|done]|].
    cbn [map]. rewrite not_elem_of_cons, <- IH. unfold plus_to_space at 1. case_bool_decide as Hb.
    + split; [by intros [= E _]; subst|intros [E _]; by subst].
    + split; [by intros [= ->]|by intros [_ ->]].
Qed.

(** ** The grammar *)

(** The reference: a field for each coordinate in order, the optional ones possibly left out. *)
Inductive grammar_matches : list grammarCoordinate -> list Field -> Prop :=
| gm_nil : grammar_matches [] []
| gm_take c g f fs : matchesCoordinate f c = true -> grammar_matches g fs -> grammar_matches (c :: g) (f :: fs)
| gm_skip c g fs : optional c = true -> grammar_matches g fs -> grammar_matches (c :: g) fs.

(** An optional coordinate has a tag of its own among the coordinates that follow, so the
    first field decides whether it is there. *)
Fixpoint unambiguous (g : list grammarCoordinate) : bool :=
  match g with
  | [] => true
  | c :: g => implb (optional c) (negb (bool_decide (tag c ∈ map tag g))) && unambiguous g
  end.

Lemma coordinate_tag f c : matchesCoordinate f c = true -> f_Tag f = tag c.
Proof. unfold matchesCoordinate. by destruct (Z.eqb_spec (f_Tag f) (tag c)). Qed.

Lemma grammar_tags g fs : grammar_matches g fs -> Forall (fun f => f_Tag f ∈ map tag g) fs.
Proof.
  induction 1 as [|c g f fs Hm _ IH|c g fs _ _ IH]; cbn [map].
  - constructor.
  - constructor; [rewrite (coordinate_tag _ _ Hm); apply list_elem_of_here|].
    eapply Forall_impl; [exact IH|]. intros x. apply list_elem_of_further.
  - eapply Forall_impl; [exact IH|]. intros x. apply list_elem_of_further.
Qed.

Lemma grammar_absent g fs t : grammar_matches g fs -> t ∉ map tag g -> Forall (fun f => f_Tag f <> t) fs.
Proof. intros H%grammar_tags Ht. eapply Forall_impl; [exact H|]. intros f Hf <-. done. Qed.

(** What the matcher notes of the fields it has taken. *)
Fixpoint note_fields (fs : list Field) (i : Z) (m : grammarMatch) : grammarMatch :=
  match fs with
  | [] => m
  | f :: fs => note_fields fs (i + 1)
      (mkMatch (if f_Tag f =? TagResponseStart then i else preambleFieldCount m)
               (embeddedAllowedTags m ++ (if f_Tag f =? 0x0126 then [0x0126] else [])))
  end.

Lemma match_loop_inv g fs i m m' :
  match_loop g fs i m = Some m' -> grammar_matches g fs /\ m' = note_fields fs i m /\ 0 <= preambleFieldCount m'.
Proof.
  revert fs i m. induction g as [|c g IH]; intros fs i m H; cbn [match_loop] in H.
  - destruct fs; [|done]. destruct (Z.ltb_spec (preambleFieldCount m) 0); [done|]. injection H as <-. split; [constructor|done].
  - assert ((if optional c then match_loop g fs i m else None) = Some m' ->
      grammar_matches (c :: g) fs /\ m' = note_fields fs i m /\ 0 <= preambleFieldCount m') as Hskip.
    { destruct (optional c) eqn:Eo; [|done]. intros (Hg & Hm)%IH. split; [by apply gm_skip|done]. }
    destruct fs as [|f fs]; [by apply Hskip|]. destruct (matchesCoordinate f c) eqn:Em; [|by apply Hskip].
    apply IH in H as (Hg & Hm & Hc). split; [by apply gm_take|]. split; [|done]. cbn [note_fields]. by rewrite (coordinate_tag f c Em).
Qed.

(** Being greedy loses nothing on an unambiguous grammar. *)
Lemma match_loop_complete g fs i m :
  unambiguous g = true -> grammar_matches g fs -> 0 <= preambleFieldCount (note_fields fs i m) ->
  match_loop g fs i m = Some (note_fields fs i m).
Proof.
  intros Hu Hg. revert i m Hu. induction Hg as [|c g f fs Hm _ IH|c g fs Ho Hg IH]; intros i m Hu Hc; cbn [match_loop note_fields] in *.
  - by destruct (Z.ltb_spec (preambleFieldCount m) 0); [lia|].
  - cbn [unambiguous] in Hu. apply andb_true_iff in Hu as [_ Hu]. rewrite Hm. rewrite (coordinate_tag f c Hm) in *. by apply IH.
  - cbn [unambiguous] in Hu. apply andb_true_iff in Hu as [Ha Hu]. rewrite Ho in Ha |- *. cbn [implb] in Ha.
    apply negb_true_iff, bool_decide_eq_false in Ha. rewrite (IH i m Hu Hc).
    destruct fs as [|f fs]; [done|]. destruct (matchesCoordinate f c) eqn:Em; [|done].
    pose proof (grammar_absent _ _ _ Hg Ha) as Hf. apply Forall_cons in Hf as [Hf _]. by apply coordinate_tag in Em.
Qed.

Lemma note_app fs1 fs2 i m : note_fields (fs1 ++ fs2) i m = note_fields fs2 (i + zlen fs1) (note_fields fs1 i m).
Proof.
  revert i m. induction fs1 as [|f fs1 IH]; intros i m; cbn [app note_fields]; [by rewrite Z.add_0_r|]. rewrite IH.
  f_equal. len_lia.
Qed.

Lemma note_plain fs i m :
  Forall (fun f => f_Tag f <> TagResponseStart) fs ->
  note_fields fs i m = mkMatch (preambleFieldCount m) (embeddedAllowedTags m ++ map f_Tag (filterTag fs 0x0126)).
Proof.
  intros H. revert i m. induction H as [|f fs Hf _ IH]; intros i m; cbn [note_fields]; [destruct m; cbn; by rewrite app_nil_r|].
  rewrite IH. cbn [preambleFieldCount embeddedAllowedTags]. rewrite (proj2 (Z.eqb_neq _ _) Hf), <- app_assoc. do 2 f_equal.
  unfold filterTag. rewrite filter_cons. destruct (Z.eqb_spec (f_Tag f) 0x0126) as [E|E].
  - rewrite decide_True by done. cbn [map app]. by rewrite E.
  - by rewrite decide_False.
Qed.

Lemma grammar_app_inv g1 g2 fs :
  grammar_matches (g1 ++ g2) fs -> exists a b, fs = a ++ b /\ grammar_matches g1 a /\ grammar_matches g2 b.
Proof.
  revert fs. induction g1 as [|c g1 IH]; intros fs H; [by exists [], fs; split_and!; [|constructor|]|]. cbn [app] in H.
  inversion H as [|? ? f fs' Hm Hg|? ? ? Ho Hg]; subst.
  - destruct (IH _ Hg) as (a & b & -> & Ha & Hb). exists (f :: a), b. split_and!; [done|by apply gm_take|done].
  - destruct (IH _ Hg) as (a & b & -> & Ha & Hb). exists a, b. split_and!; [done|by apply gm_skip|done].
Qed.

Lemma grammar_app g1 g2 a b : grammar_matches g1 a -> grammar_matches g2 b -> grammar_matches (g1 ++ g2) (a ++ b).
Proof. intros H Hb. induction H; cbn [app]; [done|by apply gm_take|by apply gm_skip]. Qed.

Lemma filter_tag_none fs t : Forall (fun f => f_Tag f <> t) fs -> filterTag fs t = [].
Proof. unfold filterTag. induction 1 as [|f fs Hf _ IH]; [done|]. by rewrite filter_cons, decide_False. Qed.

Lemma note_composite pre post :
  grammar_matches initialRichPreambleGrammar pre -> grammar_matches (tail initialRichResponseGrammar) post ->
  note_fields (pre ++ mkField TagResponseStart [] :: post) 0 (mkMatch (-1) [])
  = mkMatch (zlen pre) (map f_Tag (filterTag post 0x0126)).
Proof.
  intros Ha Hb.
  assert (Forall (fun f => f_Tag f <> TagResponseStart) pre /\ Forall (fun f => f_Tag f <> 0x0126) pre) as [Ha1 Ha2].
  { split; apply (grammar_absent _ _ _ Ha), (bool_decide_unpack _); by vm_compute. }
  assert (Forall (fun f => f_Tag f <> TagResponseStart) post) as Hb1.
  { apply (grammar_absent _ _ _ Hb), (bool_decide_unpack _); by vm_compute. }
  rewrite note_app, (note_plain pre) by done. cbn [note_fields preambleFieldCount embeddedAllowedTags f_Tag app].
  rewrite (note_plain post) by done. cbn [preambleFieldCount embeddedAllowedTags Z.eqb]. rewrite Z.eqb_refl, Z.add_0_l. f_equal.
  change (TagResponseStart =? 0x0126) with false. rewrite app_nil_r.
  assert (filterTag pre 0x0126 = []) as ->; [by apply filter_tag_none|done].
Qed.

Lemma grammar_parts :
  initialRichGrammar = initialRichPreambleGrammar ++ exact TagResponseStart 0 false :: tail initialRichResponseGrammar.
Proof. reflexivity. Qed.

Lemma start_coordinate f : matchesCoordinate f (exact TagResponseStart 0 false) = true <-> f = mkField TagResponseStart [].
Proof.
  unfold matchesCoordinate. cbn [tag exact hasByteLength byteLength]. destruct f as [t v]. cbn [f_Tag f_Value].
  destruct (Z.eqb_spec t TagResponseStart) as [->|Ht]; cbn [negb]; [|split; [done|by intros [= -> _]]].
  destruct v as [|b v]; [done|]. destruct (Z.eqb_spec (zlen (b :: v)) 0) as [H|]; [|done]. exfalso. len_lia.
Qed.

Lemma grammar_result fields m :
  matchInitialRichGrammar fields = Some m <->
  exists pre post, fields = pre ++ mkField TagResponseStart [] :: post /\
    grammar_matches initialRichPreambleGrammar pre /\ grammar_matches (tail initialRichResponseGrammar) post /\
    m = mkMatch (zlen pre) (map f_Tag (filterTag post 0x0126)).
Proof.
  unfold matchInitialRichGrammar. rewrite grammar_parts. split.
  - intros (Hg & Hm & _)%match_loop_inv. apply grammar_app_inv in Hg as (pre & b & -> & Ha & Hb).
    inversion Hb as [|? ? f post Hf Hp|? ? ? Ho]; subst; [|discriminate Ho].
    apply start_coordinate in Hf. subst f. exists pre, post. split_and!; try done. by apply note_composite.
  - intros (pre & post & -> & Ha & Hb & ->). rewrite <- (note_composite pre post Ha Hb).
    apply match_loop_complete; [by vm_compute| |rewrite note_composite by done; apply zlen_nonneg].
    apply grammar_app; [exact Ha|]. apply gm_take; [by apply start_coordinate|exact Hb].
Qed.

(** The greedy matcher of the composite response finds a match exactly when the fields match
    the grammar in the declarative sense, with the preamble and the extra tag it reports. *)
Theorem grammar_exact fields m :
  matchInitialRichGrammar fields = Some m <->
  exists pre post, fields = pre ++ mkField TagResponseStart [] :: post /\
    grammar_matches initialRichPreambleGrammar pre /\ grammar_matches (tail initialRichResponseGrammar) post /\
    m = mkMatch (zlen pre) (map f_Tag (filterTag post 0x0126)).
Proof. apply grammar_result. Qed.

(** ** The request *)
(** The fields of a logon, the End field apart. *)
Definition logon_sent (k password sessionID : bytes) (input : InitialLogonRequestInput) : list Field := [
  mkField TagStart []; mkField TagProtocolVersion initialProtocolVersion; mkField TagCapabilities initialCapabilities;
  mkField TagLogonMarker []; mkField TagSession sessionID; mkField TagClient (li_Client input); mkField TagUser (li_User input);
  credential password input; mkField TagLanguage (upperASCII (li_Language input)); mkField TagUnicodeIndicator [x01];
  mkField TagClientAddress (li_ClientAddress input); mkField TagPartnerSystem (or_default (li_PartnerSystem input) (lit "::1"));
  mkField TagConnectionType (lit "E"); mkField TagKernelRelease k; mkField TagKernelPatch k;
  mkField TagPartnerHost (li_PartnerHostName input); mkField TagDestination (li_Destination input);
  mkField TagProgram (li_ProgramName input); mkField TagContextEnd []; mkField TagKernel k;
  mkField TagFunction (or_default (li_FunctionName input) (lit "RFCPING"))].

(** What the checks on the texts of an input ask. *)
Definition ascii_within (s : bytes) (m : Z) : Prop := asciiRE s = true /\ 1 <= zlen s <= m.

Record admissible (input : InitialLogonRequestInput) : Prop := {
  ad_client : digits3 (li_Client input) = true;
  ad_language : oneLetter (li_Language input) = true;
  ad_kernel : digits3 (or_default (li_KernelRelease input) (lit "754")) = true;
  ad_password : zlen (li_Password input) <= 40 /\ Scramble.printableASCII (li_Password input) = true;
  ad_session : match li_SessionID input with Some s => zlen s = 16 | None => True end;
  ad_user : ascii_within (li_User input) 40;
  ad_address : ascii_within (li_ClientAddress input) 64;
  ad_partner : ascii_within (or_default (li_PartnerSystem input) (lit "::1")) 64;
  ad_host : ascii_within (li_PartnerHostName input) 120;
  ad_destination : ascii_within (li_Destination input) 120;
  ad_program : ascii_within (li_ProgramName input) 64;
  ad_function : ascii_within (or_default (li_FunctionName input) (lit "RFCPING")) 40 }.

(** The types of the numeric options, and a random source that gives what it is asked for. *)
Definition option_u32 (o : option Z) : Prop := match o with Some v => is_u32 v | None => True end.
Definition gives (r : res bytes) (n : Z) : Prop := exists b, r = Ok b /\ zlen b = n.

Lemma ascii_bytes_ok s m b : asciiBytes s 1 m = Ok b -> b = s /\ ascii_within s m.
Proof.
  unfold asciiBytes, ascii_within. destruct (asciiRE s); cbn [negb orb]; [|done]. case_tests; try done. intros [= <-]. split; [done|]. split; [done|lia].
Qed.

Lemma ascii_bytes_within s m : ascii_within s m -> asciiBytes s 1 m = Ok s.
Proof. unfold ascii_within, asciiBytes. intros [-> H]. case_tests; done || lia. Qed.

Lemma password_scrambled seed input :
  gives seed 4 -> option_u32 (li_PasswordSeed input) ->
  (is_Ok (logon_password seed input) <-> zlen (li_Password input) <= 40 /\ Scramble.printableASCII (li_Password input) = true) /\
  forall pw, logon_password seed input = Ok pw ->
    zlen pw = 4 + zlen (li_Password input) /\ exists s, unscramble pw = Ok (s, li_Password input).
Proof.
  intros (b & -> & Hb) Hs.
  assert (exists s, is_u32 s /\ logon_password (Ok b) input = ScrambleRfcPassword (li_Password input) s) as (s & Hu & E).
  { unfold logon_password, option_u32 in *. destruct (li_PasswordSeed input) as [s|]; [by exists s|]. exists (le_combine b).
    split; [pose proof (le_combine_range b) as H; rewrite Hb in H; unfold is_u32; lia|].
    unfold ScrambleRfcPasswordRandomSeed, le_uint. case_tests; [unfold zlen in Hb; lia|]. rewrite take_ge by (unfold zlen in Hb; lia). done. }
  rewrite E. destruct (scramble_field (li_Password input) s Hu) as (H1 & _ & H2). split; [done|].
  intros pw Hp. destruct (H2 pw Hp) as [H3 H4]. split; [done|]. by exists s.
Qed.

Lemma session_16 session input :
  gives session 16 ->
  (is_Ok (logon_session session input) <-> match li_SessionID input with Some s => zlen s = 16 | None => True end).
Proof.
  intros (b & -> & Hb). unfold logon_session, exactBytes.
  destruct (li_SessionID input) as [s|]; rewrite ok_bind; case_tests; split; try done; try (by intros [? ?]); by eexists.
Qed.

Lemma logon_fields_inv seed session input fs :
  gives seed 4 -> gives session 16 -> option_u32 (li_PasswordSeed input) -> logon_fields seed session input = Ok fs ->
  exists pw sid, logon_password seed input = Ok pw /\ logon_session session input = Ok sid /\ admissible input /\
    fs = logon_sent (or_default (li_KernelRelease input) (lit "754")) pw sid input ++ [mkField TagEnd []].
Proof.
  intros Hseed Hses Hu. unfold logon_fields. intros H. destruct (digits3 (li_Client input)) eqn:Ec; [|done].
  destruct (oneLetter (li_Language input)) eqn:El; [|done]. cbn [negb guard] in H. rewrite !ok_bind in H.
  ok_step H as k Hk. ok_step H as pw Hp. ok_step H as sid Hs. cbv zeta in H.
  ok_step H as a1 H1. ok_step H as a2 H2. ok_step H as a3 H3. ok_step H as a4 H4. ok_step H as a5 H5. ok_step H as a6 H6. ok_step H as a7 H7.
  apply ascii_bytes_ok in H1 as [-> H1], H2 as [-> H2], H3 as [-> H3], H4 as [-> H4], H5 as [-> H5], H6 as [-> H6], H7 as [-> H7].
  apply Ok_inj in H. exists pw, sid. split; [done|]. split; [done|]. unfold kernel_release in Hk. cbv zeta in Hk.
  fold (or_default (li_KernelRelease input) (lit "754")) in Hk.
  destruct (digits3 (or_default (li_KernelRelease input) (lit "754"))) eqn:Ek; [|done]. apply Ok_inj in Hk. subst k.
  split; [|by rewrite <- H]. split; try done.
  - apply (password_scrambled seed input Hseed Hu). by exists pw.
  - apply (session_16 session input Hses). by exists sid.
Qed.

Lemma logon_fields_admissible seed session input :
  gives seed 4 -> gives session 16 -> option_u32 (li_PasswordSeed input) -> admissible input -> is_Ok (logon_fields seed session input).
Proof.
  intros Hseed Hses Hu [Hc Hl Hk Hp Hs H1 H2 H3 H4 H5 H6 H7]. unfold logon_fields. rewrite Hc, Hl. cbn [negb guard]. rewrite !ok_bind.
  unfold kernel_release. cbv zeta. fold (or_default (li_KernelRelease input) (lit "754")). rewrite Hk. cbn [negb]. rewrite ok_bind.
  destruct (proj2 (proj1 (password_scrambled seed input Hseed Hu)) Hp) as [pw ->]. rewrite ok_bind.
  destruct (proj2 (session_16 session input Hses) Hs) as [sid ->]. rewrite ok_bind.
  rewrite !ascii_bytes_within by done. rewrite !ok_bind. by eexists.
Qed.

Lemma sent_inner k pw sid input : Forall inner (logon_sent k pw sid input).
Proof. unfold logon_sent, credential. destruct (bytes_eqb _ _); inner_tags. Qed.

Lemma chain_bytes_short m prev fs :
  m <= CompactLengthMax -> Forall (fun f => zlen (f_Value f) <= m) fs -> zlen (chain_bytes prev fs) <= (6 + m) * zlen fs.
Proof.
  intros Hm H. revert prev. induction H as [|f fs Hf _ IH]; intros prev; cbn [chain_bytes]; [by rewrite Z.mul_0_r|].
  rewrite zlen_app, field_record_length. specialize (IH (f_Tag f)).
  assert (zlen (field_header_bytes f) = 4) as ->.
  { unfold field_header_bytes. rewrite zlen_app. destruct (Z.leb_spec (zlen (f_Value f)) CompactLengthMax); [|lia].
    unfold zlen. by rewrite !length_be_split. }
  replace (zlen (f :: fs)) with (1 + zlen fs) by len_lia. lia.
Qed.

Lemma session_length session input sid : logon_session session input = Ok sid -> zlen sid = 16.
Proof. unfold logon_session, exactBytes. intros H. ok_step H as s Hs. destruct (Z.eqb_spec (zlen s) 16); [|done]. by apply Ok_inj in H as <-. Qed.

Lemma sent_short pw sid input :
  admissible input -> li_Ticket input = [] -> zlen pw <= 44 -> zlen sid = 16 ->
  Forall (fun f => zlen (f_Value f) <= 120) (logon_sent (or_default (li_KernelRelease input) (lit "754")) pw sid input ++ [mkField TagEnd []]).
Proof.
  intros [Hc Hl Hk Hp Hs H1 H2 H3 H4 H5 H6 H7] Ht Hpw Hsid. unfold logon_sent, credential. rewrite Ht, bytes_eqb_refl.
  assert (forall s, digits3 s = true -> zlen s <= 120) as Hd.
  { intros s. unfold digits3. intros [E _]%andb_true_iff. lia. }
  assert (zlen (upperASCII (li_Language input)) <= 120) as Hlang.
  { unfold oneLetter in Hl. apply andb_true_iff in Hl as [E _]. unfold upperASCII, zlen in *. rewrite length_map. lia. }
  unfold ascii_within in *. cbn [app].
  repeat first [apply Forall_nil_2 | apply Forall_cons_2]; cbn [f_Value]; first [by apply Hd | by vm_compute | lia].
Qed.

Lemma zlen_be_split n v : zlen (be_split n v) = Z.of_nat n.
Proof. unfold zlen. by rewrite length_be_split. Qed.

(** The packet of a list of fields that fits. *)
Definition logon_packet (fields : list Field) (max : Z) : bytes :=
  let n := zlen (chain_bytes TagStart fields) in
  initialSignature ++ initialPrefix ++ chain_bytes TagStart fields ++ be_split 2 TagEnd ++ be_split 2 0 ++ be_split 2 (20 + n) ++ be_split 4 max.

Lemma encode_logon_inv seed session input p :
  EncodeInitialLogonRequest seed session input = Ok p ->
  exists fields, logon_fields seed session input = Ok fields /\
    (Forall field_ok fields -> zlen (chain_bytes TagStart fields) <= 65515 /\
     EncodeFieldChain TagStart fields default_limits = Ok (chain_bytes TagStart fields) /\
     p = logon_packet fields (checkedMaximumRfcPacketSize (li_MaximumRfcPacketSize input))).
Proof.
  unfold EncodeInitialLogonRequest. intros H. ok_step H as fields Hf. ok_step H as n Hn. cbv zeta in H.
  change (zlen initialSignature + zlen initialPrefix) with 18 in H.
  destruct (Z.ltb_spec 0xffff (18 + n + 2)) as [|Hle]; [done|]. ok_step H as chain Hc. apply Ok_inj in H. exists fields. split; [done|].
  intros Hok. destruct (encode_chain_inv _ _ _ _ Hok Hc) as (r & Er & -> & _).
  unfold FieldChainByteLength in Hn. rewrite Er, ok_bind in Hn. destruct (_ <? _) in Hn; [done|].
  destruct (byte_length_ok r TagStart fields n 0 (resolve_limits_ok _ _ Er) Hok Hn) as (-> & _). rewrite Z.add_0_l in *.
  split; [lia|]. split; [done|]. rewrite <- H. unfold logon_packet. cbv zeta. pose proof (zlen_nonneg (chain_bytes TagStart fields)).
  replace (uint16 (18 + zlen (chain_bytes TagStart fields) + 2)) with (20 + zlen (chain_bytes TagStart fields)); [done|].
  unfold uint16. rewrite Z.mod_small by lia. lia.
Qed.

Lemma encode_logon_ok seed session input fields :
  logon_fields seed session input = Ok fields -> Forall field_ok fields -> zlen fields <= 100 -> zlen (chain_bytes TagStart fields) <= 65515 ->
  is_Ok (EncodeInitialLogonRequest seed session input).
Proof.
  intros Hf Hok Hc Hn. unfold EncodeInitialLogonRequest. rewrite Hf, ok_bind.
  assert (zlen fields <= DefaultMaxFieldCount) as Hc' by (unfold DefaultMaxFieldCount; lia).
  assert (zlen (chain_bytes TagStart fields) <= DefaultMaxFieldChainLength) as Hn' by (unfold DefaultMaxFieldChainLength; lia).
  pose proof (encode_chain_ok TagStart fields Hok Hc' Hn') as He. pose proof He as Hl. unfold EncodeFieldChain in Hl. ok_step Hl as n En.
  destruct (encode_chain_inv _ _ _ _ Hok He) as (r & Er & _). pose proof En as Hb. unfold FieldChainByteLength in Hb. rewrite Er, ok_bind in Hb.
  destruct (_ <? _) in Hb; [done|]. destruct (byte_length_ok r TagStart fields n 0 (resolve_limits_ok _ _ Er) Hok Hb) as (-> & _).
  rewrite En, ok_bind. cbv zeta. change (zlen initialSignature + zlen initialPrefix) with 18.
  destruct (Z.ltb_spec 0xffff (18 + (0 + zlen (chain_bytes TagStart fields)) + 2)); [lia|]. rewrite He, ok_bind. by eexists.
Qed.

(** A password logon is encoded exactly when its texts are admissible, and its message has
    at most 2,800 bytes: the size limit never refuses one. *)
Theorem logon_accepts seed session input :
  gives seed 4 -> gives session 16 -> option_u32 (li_PasswordSeed input) -> li_Ticket input = [] ->
  (is_Ok (EncodeInitialLogonRequest seed session input) <-> admissible input) /\
  forall p, EncodeInitialLogonRequest seed session input = Ok p -> zlen p <= 2800.
Proof.
  intros Hseed Hses Hu Ht.
  assert (forall fs, logon_fields seed session input = Ok fs -> admissible input /\ Forall field_ok fs /\ zlen fs = 22 /\ zlen (chain_bytes TagStart fs) <= 2772) as Hfs.
  { intros fs H. destruct (logon_fields_inv _ _ _ _ Hseed Hses Hu H) as (pw & sid & Hp & Hs & Had & ->). split; [done|].
    split; [by apply (inner_split _ (sent_inner _ pw sid input))|]. split; [done|].
    destruct (proj2 (password_scrambled seed input Hseed Hu) pw Hp) as [Hl _]. pose proof (ad_password _ Had) as [Hl' _].
    pose proof (chain_bytes_short 120 TagStart _ ltac:(by vm_compute) (sent_short pw sid input Had Ht ltac:(lia) (session_length _ _ _ Hs))) as Hb.
    etransitivity; [exact Hb|]. by vm_compute. }
  split; [split|].
  - intros [p (fs & Hf & _)%encode_logon_inv]. by apply (Hfs fs).
  - intros Had. destruct (logon_fields_admissible _ _ _ Hseed Hses Hu Had) as [fs Hf]. destruct (Hfs fs Hf) as (_ & Hok & Hn & Hl).
    apply (encode_logon_ok _ _ _ fs); [done|done|lia|lia].
  - intros p (fs & Hf & H)%encode_logon_inv. destruct (Hfs fs Hf) as (_ & Hok & Hn & Hl). destruct (H Hok) as (_ & _ & ->).
    unfold logon_packet. cbv zeta. rewrite !zlen_app. rewrite !zlen_be_split.
    change (zlen initialSignature) with 12. change (zlen initialPrefix) with 6. lia.
Qed.

Lemma uint16_at_mid pre v post at_ : at_ = zlen pre -> is_u16 v -> uint16_at (pre ++ be_split 2 v ++ post) at_ = Ok v.
Proof.
  intros -> Hv. unfold uint16_at. rewrite go_from_app by done. rewrite ok_bind, be_uint_app by apply length_be_split.
  by rewrite be_combine_split, Z.mod_small.
Qed.

Lemma index_front (fs rest : list Field) j i f :
  j = Z.of_nat i -> fs !! i = Some f -> go_index (fs ++ rest) j = (Ok f : res Field).
Proof.
  intros -> H. unfold go_index. destruct (Z.ltb_spec (Z.of_nat i) 0); [lia|]. by rewrite Nat2Z.id, (lookup_app_l_Some _ _ _ _ H).
Qed.

(** What the decoder makes of a packet depends on the order of the tags and on two values. *)
Lemma read_packet fs max v c :
  let fields := fs ++ [mkField TagEnd []] in
  Forall inner fs -> zlen (chain_bytes TagStart fields) <= 65515 -> is_u32 max ->
  EncodeFieldChain TagStart fields default_limits = Ok (chain_bytes TagStart fields) ->
  fs !! 1%nat = Some (mkField v initialProtocolVersion) -> fs !! 2%nat = Some (mkField c initialCapabilities) ->
  DecodeInitialLogonRequest (logon_packet fields max)
  = if bool_decide (map f_Tag fields = initialTagOrder)
    then Ok (mkDecodedLogonRequest (tagLens fields) (20 + zlen (chain_bytes TagStart fields)) max) else Err errProtocol.
Proof.
  intros fields Hi Hl Hm He H1 H2. destruct (inner_split fs Hi) as (Hf & Hf' & Ht). unfold logon_packet. cbv zeta.
  set (chain := chain_bytes TagStart fields) in *. pose proof (zlen_nonneg chain) as Hn.
  set (trailer := be_split 2 TagEnd ++ be_split 2 0 ++ be_split 2 (20 + zlen chain) ++ be_split 4 max).
  assert (zlen trailer = 10) as Htr by (unfold trailer; by rewrite !zlen_app, !zlen_be_split).
  pose proof (chain_prefix_roundtrip TagStart fs (mkField TagEnd []) default_limits chain trailer ltac:(by vm_compute) Hf' Ht He) as Hd.
  cbn [f_Tag] in Hd. fold fields in Hd. unfold DecodeInitialLogonRequest. cbv zeta.
  change (zlen initialSignature + zlen initialPrefix) with 18.
  assert (zlen (initialSignature ++ initialPrefix ++ chain ++ trailer) = 28 + zlen chain) as ->.
  { rewrite !zlen_app, Htr. change (zlen initialSignature) with 12. change (zlen initialPrefix) with 6. lia. }
  destruct (Z.ltb_spec (28 + zlen chain) (18 + 10)); [lia|].
  rewrite (go_slice_mid [] initialSignature (initialPrefix ++ chain ++ trailer) 0 12) by reflexivity. rewrite ok_bind, bytes_eqb_refl. cbn [negb guard].
  rewrite ok_bind, (go_slice_mid initialSignature initialPrefix (chain ++ trailer) 12 18) by reflexivity. rewrite ok_bind, bytes_eqb_refl. cbn [negb guard].
  rewrite ok_bind. rewrite (app_assoc initialSignature). rewrite go_from_app by done. rewrite ok_bind, Hd, ok_bind. cbn [dp_Fields dp_BytesConsumed].
  case_bool_decide as Ho; cbn [negb guard]; [|done]. rewrite ok_bind.
  rewrite (index_front fs [mkField TagEnd []] 1 1%nat _ eq_refl H1 : go_index fields 1 = _), ok_bind. cbn [f_Value]. rewrite bytes_eqb_refl. cbn [negb guard].
  rewrite ok_bind, (index_front fs [mkField TagEnd []] 2 2%nat _ eq_refl H2 : go_index fields 2 = _), ok_bind. cbn [f_Value]. rewrite bytes_eqb_refl. cbn [negb guard]. rewrite ok_bind.
  replace (28 + zlen chain - (18 + zlen chain)) with 10 by lia. cbn [Z.eqb Pos.eqb negb guard]. rewrite ok_bind.
  rewrite (app_assoc _ chain), go_from_app by (rewrite zlen_app; done). rewrite ok_bind.
  assert (is_u16 (20 + zlen chain)) as Hu by (unfold is_u16; lia).
  set (rest := be_split 2 (20 + zlen chain) ++ be_split 4 max) in trailer.
  rewrite (uint16_at_mid [] TagEnd (be_split 2 0 ++ rest) 0 eq_refl ltac:(by vm_compute) : uint16_at trailer 0 = _), ok_bind.
  rewrite (uint16_at_mid (be_split 2 TagEnd) 0 rest 2 eq_refl ltac:(by vm_compute) : uint16_at trailer 2 = _), ok_bind.
  rewrite Z.eqb_refl. cbn [Z.eqb Pos.eqb negb orb guard]. rewrite ok_bind.
  rewrite (uint16_at_mid (be_split 2 TagEnd ++ be_split 2 0) _ (be_split 4 max) 4 eq_refl Hu : uint16_at trailer 4 = _), ok_bind.
  replace (18 + zlen chain + 2) with (20 + zlen chain) by lia. rewrite Z.eqb_refl. cbn [negb guard]. rewrite ok_bind.
  rewrite (go_from_app (be_split 2 TagEnd ++ be_split 2 0 ++ be_split 2 (20 + zlen chain)) (be_split 4 max) 6 eq_refl : go_from trailer 6 = _), ok_bind.
  rewrite <- (app_nil_r (be_split 4 max)).
  rewrite be_uint_app by apply length_be_split. rewrite ok_bind, be_combine_split, Z.mod_small by exact Hm. done.
Qed.

Lemma ticket_field_filters s : DecodeTicketField (s ≫= (fun b => [b; x00])) = filter (fun b => is_printable b = true) s.
Proof.
  induction s as [|b s IH]; [done|]. rewrite bind_cons, filter_cons. cbn [app DecodeTicketField]. rewrite IH, bool_decide_eq_true_2 by done.
  destruct (is_printable b); cbn [andb]; [by rewrite decide_True|by rewrite decide_False].
Qed.

Lemma tag_order_sent k pw sid input :
  map f_Tag (logon_sent k pw sid input ++ [mkField TagEnd []]) = initialTagOrder <-> li_Ticket input = [].
Proof.
  unfold logon_sent, credential. destruct (bytes_eqb (li_Ticket input) []) eqn:E.
  - apply bytes_eqb_eq in E. split; [done|]. by intros _.
  - split; [|intros Ht; by rewrite Ht, bytes_eqb_refl in E]. cbn [app map f_Tag]. unfold initialTagOrder. intros H. exfalso.
    apply (f_equal (fun l => nth 7 l 0)) in H. discriminate H.
Qed.

(** The receiver of an encoded logon reads exactly its fields, with the password recoverable
    from its scrambled field; the package's own decoder accepts a password logon with its
    sizes, and refuses every ticket logon, whose ticket is read from the fields. *)
Theorem logon_request_read seed session input p :
  gives seed 4 -> gives session 16 -> option_u32 (li_PasswordSeed input) -> option_u32 (li_MaximumRfcPacketSize input) ->
  EncodeInitialLogonRequest seed session input = Ok p ->
  exists k pw sid, let fields := logon_sent k pw sid input ++ [mkField TagEnd []] in
    (exists s, unscramble pw = Ok (s, li_Password input)) /\
    DecodeFieldChainPrefix (drop 18 p) TagStart TagEnd default_limits
      = Ok (mkDecodedFieldChainPrefix fields (zlen p - 28)) /\
    (li_Ticket input = [] -> DecodeInitialLogonRequest p
      = Ok (mkDecodedLogonRequest (tagLens fields) (zlen p - 8) (checkedMaximumRfcPacketSize (li_MaximumRfcPacketSize input)))) /\
    (li_Ticket input <> [] -> DecodeInitialLogonRequest p = Err errProtocol /\
      TicketFromLogonFields fields = filter (fun b => is_printable b = true) (NormalizeTicket (li_Ticket input))).
Proof.
  intros Hseed Hses Hu Hmax He. destruct (encode_logon_inv _ _ _ _ He) as (fields & Hf & H).
  destruct (logon_fields_inv _ _ _ _ Hseed Hses Hu Hf) as (pw & sid & Hp & Hs & Had & Efs).
  set (k := or_default (li_KernelRelease input) (lit "754")) in *. pose proof (sent_inner k pw sid input) as Hi. subst fields.
  destruct (inner_split _ Hi) as (Hok & Hok' & Ht). destruct (H Hok') as (Hl & Hc & ->). clear H.
  exists k, pw, sid. cbv zeta. split; [by apply (proj2 (password_scrambled seed input Hseed Hu) pw Hp)|].
  set (fs := logon_sent k pw sid input) in *. set (max := checkedMaximumRfcPacketSize _).
  assert (is_u32 max) as Hm by (unfold max; destruct (li_MaximumRfcPacketSize input); [done|by vm_compute]).
  assert (zlen (logon_packet (fs ++ [mkField TagEnd []]) max) = 28 + zlen (chain_bytes TagStart (fs ++ [mkField TagEnd []]))) as Hz.
  { unfold logon_packet. cbv zeta. rewrite !zlen_app, !zlen_be_split. change (zlen initialSignature) with 12. change (zlen initialPrefix) with 6. lia. }
  rewrite Hz, (read_packet fs max TagProtocolVersion TagCapabilities) by done. split; [|split].
  - unfold logon_packet. cbv zeta. rewrite app_assoc. rewrite (drop_app_length' _ _ 18) by done.
    rewrite (chain_prefix_roundtrip TagStart fs (mkField TagEnd []) default_limits) by (done || by vm_compute). do 2 f_equal. lia.
  - intros Htk. rewrite bool_decide_eq_true_2 by by apply tag_order_sent. do 2 f_equal. lia.
  - intros Htk. rewrite bool_decide_eq_false_2 by (intros Ho; by apply tag_order_sent in Ho). split; [done|].
    unfold fs, logon_sent, credential. destruct (bytes_eqb _ _) eqn:E; [by apply bytes_eqb_eq in E|]. by apply ticket_field_filters.
Qed.

(** ** The response *)
Lemma wrap_total {A} stage (m : res A) : total m -> total (wrapParse stage m).
Proof. intros [H1 H2]. unfold wrapParse. destruct m as [a|e|]; [done| |done]. by destruct e. Qed.

Lemma wrap_ok {A} stage (m : res A) a : wrapParse stage m = Ok a -> m = Ok a.
Proof. unfold wrapParse. destruct m as [b|e|]; [done| |done]. by destruct e. Qed.

Lemma guard_total c e : e <> EFuel -> total (guard c e : res unit).
Proof. intros H. unfold guard. destruct c; [by apply total_err|done]. Qed.

Lemma be_uint_total l n : (n <= length l)%nat -> total (be_uint n l : res Z).
Proof. intros H. unfold be_uint. case_tests; [lia|done]. Qed.

Lemma filter_tag_nonempty fs t f rest : filterTag fs t = f :: rest -> 1 <= zlen fs.
Proof. destruct fs; [done|]. intros _. len_lia. Qed.

Lemma end_field_total fs : total (validateEndField fs).
Proof.
  unfold validateEndField. destruct (filterTag fs TagEnd) as [|e [|]] eqn:E; [done| |done]. apply filter_tag_nonempty in E.
  apply total_bind; [apply index_total; lia|]. intros l _. by apply guard_total.
Qed.

Lemma status_total fs : total (one_byte_status fs).
Proof.
  unfold one_byte_status. destruct (filterTag fs TagLogonStatus) as [|f [|]]; [done| |done].
  destruct (Z.eqb_spec (zlen (f_Value f)) 1); cbn [negb]; [|done]. apply total_bind; [apply index_total; lia|]. done.
Qed.

Lemma call_total fs : total (call_status fs).
Proof.
  unfold call_status. destruct (filterTag fs TagUnresolved0420) as [|f [|]]; [done| |done].
  destruct (Z.eqb_spec (zlen (f_Value f)) 4); cbn [negb]; [|done]. apply total_bind; [apply be_uint_total; unfold zlen in *; lia|]. done.
Qed.

Lemma note_bound fs i m : preambleFieldCount m < i -> preambleFieldCount (note_fields fs i m) < i + zlen fs.
Proof.
  revert i m. induction fs as [|f fs IH]; intros i m H; cbn [note_fields]; [by rewrite Z.add_0_r|].
  replace (i + zlen (f :: fs)) with (i + 1 + zlen fs) by len_lia. apply IH. cbn. destruct (_ =? _); lia.
Qed.

Lemma match_bound fs m : matchInitialRichGrammar fs = Some m -> 0 <= preambleFieldCount m < zlen fs.
Proof.
  unfold matchInitialRichGrammar. generalize initialRichGrammar. intros g (_ & -> & Hc)%match_loop_inv.
  split; [done|]. apply (note_bound fs 0). cbn. lia.
Qed.

Lemma rich_total fs n : total (decodeRichInitialRfcPingResponse fs n).
Proof.
  unfold decodeRichInitialRfcPingResponse. apply total_bind; [apply end_field_total|]. intros _ _.
  apply total_bind; [apply status_total|]. intros st _. destruct (filterTag fs TagUnresolved0420) as [|c [|]]; [done| |done].
  destruct (Z.eqb_spec (zlen (f_Value c)) 4); cbn [negb]; [|done]. destruct (hasInitialCompositeDuplicate fs); [done|].
  destruct (matchInitialRichGrammar fs) as [m|] eqn:Em; [|done]. destruct (st =? 0); cbn [negb]; [|done].
  apply total_bind; [apply be_uint_total; unfold zlen in *; lia|]. intros v _. destruct (negb _); [done|].
  apply match_bound in Em.
  apply total_bind; [apply total_from; lia|]. intros rest _. apply total_bind; [apply response_fields_total|]. intros d _. by destruct (negb _).
Qed.

Lemma preamble_index fs tags n :
  preambleMatches fs tags = true -> 0 <= n < zlen tags -> total (go_index fs n : res Field).
Proof.
  intros H Hn. apply index_total. enough (zlen tags <= zlen fs) by lia. clear n Hn. revert tags H.
  induction fs as [|f fs IH]; intros [|t tags] H; cbn [preambleMatches] in H; try done; try len_lia.
  destruct (negb _); [done|]. apply IH in H. len_lia.
Qed.

Lemma error_total fs n : total (error_response fs n).
Proof.
  unfold error_response. cbv zeta. destruct (_ <=? _); cbn [orb]; [done|].
  destruct (preambleMatches fs initialErrorPreambleTags) eqn:Ep; cbn [negb]; [|done].
  apply total_bind; [apply (preamble_index _ _ _ Ep); by vm_compute|]. intros mk _. apply total_bind; [by apply guard_total|]. intros _ _.
  apply total_bind; [by apply guard_total|]. intros _ _. apply total_bind; [apply wrap_total, decode_total|]. intros env _.
  apply total_bind; [by apply guard_total|]. done.
Qed.

Lemma s4_total fs : total (s4_malformed fs).
Proof.
  unfold s4_malformed. destruct (filterTag fs initialCpicUnresolved0450) as [|f [|]]; [done| |done]. cbv zeta.
  destruct (negb (zlen _ =? 6)); [done|]. cbn [orb]. destruct (negb _); [done|]. cbn [orb].
  destruct (Z.ltb_spec (zlen fs) 4); [done|]. apply total_bind; [apply index_total; lia|]. done.
Qed.

Lemma count_nonempty fs t : (countTag fs t =? 1) = true -> 1 <= zlen fs.
Proof. unfold countTag. destruct fs as [|f fs]; [done|]. intros _. len_lia. Qed.

Lemma regular_total fs n : total (regular_response fs n).
Proof.
  unfold regular_response. cbv zeta. apply total_bind; [by apply guard_total|]. intros _ _. apply total_bind; [apply end_field_total|]. intros _ _.
  apply total_bind.
  { destruct (countTag fs TagStart =? 1) eqn:E; [|done]. apply count_nonempty in E. apply total_bind; [apply index_total; lia|]. done. }
  intros first _. apply total_bind; [by apply guard_total|]. intros _ _. apply total_bind.
  { destruct (countTag fs TagStart =? 1) eqn:E; [|done]. apply count_nonempty in E. apply total_from. lia. }
  intros sem _. apply total_bind; [apply s4_total|]. intros mal _. do 2 (apply total_bind; [by apply guard_total|]; intros _ _).
  apply total_bind; [apply status_total|]. intros st _. apply total_bind; [apply call_total|]. intros call _.
  do 2 (apply total_bind; [by apply guard_total|]; intros _ _). done.
Qed.

(** The decoder of the first response neither panics nor loops on any bytes. *)
Theorem logon_response_total data : total (DecodeInitialLogonResponse data).
Proof.
  unfold DecodeInitialLogonResponse. change (zlen initialResponsePrefix) with 12.
  destruct (Z.ltb_spec (zlen data) (12 + 8)); [done|]. apply total_bind; [apply total_slice; lia|]. intros prefix _. cbv zeta.
  destruct (_ && _); [done|]. apply total_bind; [apply total_from; lia|]. intros body Hb.
  destruct (chain_prefix_total body TagStart TagEnd default_limits ltac:(by vm_compute) ltac:(by vm_compute)) as (H1 & H2 & H3).
  apply total_bind; [by apply wrap_total|]. intros d Hd. apply wrap_ok in Hd. destruct (H3 d Hd) as [Hr _].
  apply total_bind.
  { unfold and_then. destruct (Z.eqb_spec (zlen data - (12 + dp_BytesConsumed d)) 2) as [E|]; [|done].
    apply total_bind; [apply uint16_at_total; lia|done]. }
  intros ok _. destruct (negb ok); [done|]. destruct (filterTag _ _) as [|f more]; [done|].
  destruct (Z.eqb_spec (zlen (f_Value f)) 4); cbn [negb]; [|done]. apply total_bind; [apply be_uint_total; unfold zlen in *; lia|]. intros v _.
  destruct (bytes_eqb _ _); [apply error_total|]. destruct (negb _); [done|]. destruct (anyTag _ _); [apply rich_total|apply regular_total].
Qed.

(** ** What an outcome rests on *)
Lemma filter_tag_all fs t P : Forall P (filterTag fs t) -> Forall (fun f => f_Tag f = t -> P f) fs.
Proof.
  unfold filterTag. rewrite !Forall_forall. intros H f Hf Ht. apply H. by apply list_elem_of_filter.
Qed.

Lemma filter_tag_in fs t f rest : filterTag fs t = f :: rest -> f ∈ fs /\ f_Tag f = t.
Proof. intros E. assert (f ∈ filterTag fs t) as H by (rewrite E; apply list_elem_of_here). unfold filterTag in H. by apply list_elem_of_filter in H as [? ?]. Qed.

Lemma status_inv fs st :
  one_byte_status fs = Ok st ->
  Forall (fun f => f_Tag f = TagLogonStatus -> f_Value f = [z2b st]) fs /\
  (st <> 0 -> mkField TagLogonStatus [z2b st] ∈ fs).
Proof.
  unfold one_byte_status. destruct (filterTag fs TagLogonStatus) as [|f [|]] eqn:E; [|destruct (Z.eqb_spec (zlen (f_Value f)) 1) as [Hl|]|]; try done.
  - intros <-%Ok_inj. split; [|done]. apply filter_tag_all. rewrite E. constructor.
  - cbn [negb]. destruct (f_Value f) as [|b [|]] eqn:Ev; [by vm_compute in Hl| |exfalso; len_lia]. cbn. intros <-%Ok_inj. rewrite z2b_b2z.
    split; [apply filter_tag_all; rewrite E; by repeat constructor|]. intros _. apply filter_tag_in in E as [Hin Ht].
    destruct f as [t v]. cbn in *. by subst.
Qed.

Lemma zero_word v : zlen v = 4 -> be_uint 4 v = (Ok 0 : res Z) -> v = [x00; x00; x00; x00].
Proof.
  intros Hl H. unfold be_uint in H. destruct (_ <? _)%nat in H; [done|]. rewrite take_ge in H by (unfold zlen in Hl; lia). apply Ok_inj in H.
  rewrite <- (be_split_combine v), H. replace (length v) with 4%nat by (unfold zlen in Hl; lia). done.
Qed.

Lemma call_inv fs call :
  call_status fs = Ok call ->
  match call with
  | None => filterTag fs TagUnresolved0420 = []
  | Some v => (exists f, f ∈ fs /\ f_Tag f = TagUnresolved0420) /\
      (v = 0 -> Forall (fun f => f_Tag f = TagUnresolved0420 -> f_Value f = [x00; x00; x00; x00]) fs)
  end.
Proof.
  unfold call_status. destruct (filterTag fs TagUnresolved0420) as [|f [|]] eqn:E; [by intros <-%Ok_inj| |done].
  destruct (Z.eqb_spec (zlen (f_Value f)) 4) as [Hl|]; [|done]. cbn [negb]. intros H. ok_step H as v Hv. apply Ok_inj in H. subst call.
  split; [exists f; by apply filter_tag_in in E|]. intros ->. apply filter_tag_all. rewrite E. repeat constructor. by apply zero_word.
Qed.

(** The fields of a response that says the logon succeeded. *)
Record says_success (fields : list Field) : Prop := {
  ss_status : Forall (fun f => f_Tag f = TagLogonStatus -> f_Value f = [x00]) fields;
  ss_call : Forall (fun f => f_Tag f = TagUnresolved0420 -> f_Value f = [x00; x00; x00; x00]) fields;
  ss_some : exists f, f ∈ fields /\ (f_Tag f = TagLogonStatus \/ f_Tag f = TagUnresolved0420);
  ss_composite : anyTag fields TagResponseStart = true ->
    exists pre post embedded, fields = pre ++ mkField TagResponseStart [] :: post /\
      grammar_matches initialRichPreambleGrammar pre /\ grammar_matches (tail initialRichResponseGrammar) post /\
      decodeFunctionResponseFields post (map f_Tag (filterTag post 0x0126)) = Ok embedded /\ rf_Success embedded = true }.

(** The fields of a response that says it failed, and why. *)
Definition says_failure (fields : list Field) (r : DecodedInitialLogonResponse) : Prop :=
  (exists reject, lr_Rejection r = Some reject /\ rj_Outcome reject <> OutcomeSuccess) \/
  (exists st, lr_Status r = Some st /\ st <> 0 /\ mkField TagLogonStatus [z2b st] ∈ fields).

Lemma regular_inv fs n r :
  anyTag fs TagResponseStart = false -> regular_response fs n = Ok r ->
  lr_Fields r = tagLens fs /\ (lr_Success r = true -> says_success fs) /\ (lr_Success r = false -> says_failure fs r).
Proof.
  intros Hany. unfold regular_response. cbv zeta. intros H. ok_step H as u0 Hu0. ok_step H as u1 Hu1. ok_step H as first Hf. ok_step H as u2 Hu2.
  ok_step H as sem Hsem. ok_step H as mal Hmal. ok_step H as u3 Hu3. ok_step H as u4 Hu4. ok_step H as st Hst. ok_step H as call Hcall.
  ok_step H as u5 Hmiss. ok_step H as u6 Hzero. apply Ok_inj in H. subst r. cbn [lr_Success lr_Status lr_Fields].
  pose proof (status_inv fs st Hst) as [Hs1 Hs2]. apply call_inv in Hcall. split; [done|]. split.
  - intros ->%Z.eqb_eq. split; [done| | |by rewrite Hany].
    + destruct call as [v|]; [|apply filter_tag_all; rewrite Hcall; constructor]. destruct Hcall as [_ Hc]. apply Hc.
      by destruct (Z.eqb_spec v 0).
    + destruct call as [v|]; [destruct Hcall as [(f & ? & ?) _]; exists f; auto|].
      destruct (filterTag fs TagLogonStatus) as [|f l] eqn:E; [done|]. apply filter_tag_in in E as [? ?]. exists f. auto.
  - intros Hn%Z.eqb_neq. right. exists st. auto.
Qed.

Lemma rich_inv fs n r :
  decodeRichInitialRfcPingResponse fs n = Ok r ->
  lr_Fields r = tagLens fs /\ (lr_Success r = true -> says_success fs) /\ (lr_Success r = false -> says_failure fs r).
Proof.
  unfold decodeRichInitialRfcPingResponse. intros H. ok_step H as u Hu. ok_step H as st Hst. pose proof (status_inv fs st Hst) as [Hs1 Hs2].
  destruct (filterTag fs TagUnresolved0420) as [|c [|]] eqn:Ec; [done| |done].
  destruct (Z.eqb_spec (zlen (f_Value c)) 4) as [Hl|]; [|done]. cbn [negb] in H. destruct (hasInitialCompositeDuplicate fs); [done|].
  destruct (matchInitialRichGrammar fs) as [m|] eqn:Em; [|done]. destruct (Z.eqb_spec st 0) as [->|Hn]; cbn [negb] in H.
  2: { apply Ok_inj in H. subst r. split; [done|]. split; [done|]. intros _. right. exists st. auto. }
  ok_step H as v Hv. destruct (Z.eqb_spec v 0) as [->|]; [|done]. cbn [negb] in H. ok_step H as rest Hrest. ok_step H as emb Hemb.
  destruct (rf_Success emb) eqn:Es; [|done]. cbn [negb] in H. apply Ok_inj in H. subst r. split; [done|]. split; [|done]. intros _.
  apply grammar_result in Em as (pre & post & -> & Ha & Hb & ->). cbn [preambleFieldCount embeddedAllowedTags] in *. split.
  - done.
  - apply filter_tag_all. rewrite Ec. repeat constructor. by apply zero_word.
  - exists c. apply filter_tag_in in Ec as [? ?]. auto.
  - intros _. exists pre, post, emb. replace (pre ++ mkField TagResponseStart [] :: post) with ((pre ++ [mkField TagResponseStart []]) ++ post) in Hrest
      by by rewrite <- app_assoc. rewrite go_from_app in Hrest by (rewrite zlen_app; done). apply Ok_inj in Hrest. by subst rest.
Qed.

Lemma error_inv fs n r : error_response fs n = Ok r -> lr_Fields r = tagLens fs /\ lr_Success r = false /\ says_failure fs r.
Proof.
  unfold error_response. cbv zeta. intros H. destruct (_ || _); [done|]. ok_step H as mk Hmk. ok_step H as u1 H1. ok_step H as u2 H2. ok_step H as env Henv.
  ok_step H as u3 H3. apply Ok_inj in H. subst r. split; [done|]. split; [done|]. left. eexists. split; [done|]. cbn. by destruct (env_Outcome env).
Qed.

Lemma trailer_read data at_ :
  and_then (zlen data - at_ =? 2) (v ← uint16_at data at_; Ok (v =? TagEnd)) = Ok true ->
  zlen data = at_ + 2 /\ drop (length data - 2) data = be_split 2 TagEnd.
Proof.
  unfold and_then. destruct (Z.eqb_spec (zlen data - at_) 2) as [E|]; [|done]. intros H. ok_step H as v Hv. apply Ok_inj, Z.eqb_eq in H. subst v.
  split; [lia|]. unfold uint16_at, go_from in Hv. ok_step Hv as tl Htl. unfold go_slice in Htl. destruct (_ || _) eqn:Eo; [done|]. apply Ok_inj in Htl.
  rewrite take_ge in Htl by len_lia. assert (Z.to_nat at_ = (length data - 2)%nat) as Ea by len_lia. rewrite Ea in Htl. subst tl.
  assert (length (drop (length data - 2) data) = 2%nat) as Hl.
  { rewrite length_drop. apply orb_false_iff in Eo as [[Eo _]%orb_false_iff _]. apply Z.ltb_ge in Eo. unfold zlen in *. lia. }
  unfold be_uint in Hv. rewrite Hl in Hv. cbn [Nat.ltb Nat.leb] in Hv. rewrite take_ge in Hv by lia. apply Ok_inj in Hv.
  rewrite <- Hv. pose proof (be_split_combine (drop (length data - 2) data)) as Hb. by rewrite Hl in Hb.
Qed.

(** C38: A response is reported as a successful logon only if it has the regular prefix,
    every status in it is zero, there is one, and an embedded response succeeded; a reported
    failure carries a rejection or a nonzero status of the response. *)
Theorem logon_outcome_sound data r :
  DecodeInitialLogonResponse data = Ok r ->
  exists fields n, DecodeFieldChainPrefix (drop 12 data) TagStart TagEnd default_limits = Ok (mkDecodedFieldChainPrefix fields n) /\
    zlen data = 14 + n /\ drop (length data - 2) data = be_split 2 TagEnd /\ lr_Fields r = tagLens fields /\
    (lr_Success r = true -> take 12 data = initialResponsePrefix /\ says_success fields) /\
    (lr_Success r = false -> says_failure fields r).
Proof.
  unfold DecodeInitialLogonResponse. change (zlen initialResponsePrefix) with 12. intros H.
  destruct (Z.ltb_spec (zlen data) (12 + 8)); [done|]. unfold go_from in H. rewrite !go_slice_ok, !ok_bind in H by lia. cbv zeta in H.
  change (take (Z.to_nat (12 - 0)) (drop (Z.to_nat 0) data)) with (take 12 data) in H.
  assert (take (Z.to_nat (zlen data - 12)) (drop (Z.to_nat 12) data) = drop 12 data) as Eb by (apply take_ge; len_lia). rewrite Eb in H. clear Eb.
  destruct (_ && _) eqn:Epre; [done|]. ok_step H as d Hd. apply wrap_ok in Hd. ok_step H as ok Hok. destruct ok; [|done]. cbn [negb] in H.
  exists (dp_Fields d), (dp_BytesConsumed d). split; [by destruct d|]. 
  destruct (trailer_read data (12 + dp_BytesConsumed d) Hok) as [Hz Htr]. split; [lia|]. split; [done|].
  destruct (filterTag _ _) as [|f more]; [done|]. destruct (negb (_ =? 4)); [done|]. ok_step H as v Hv.
  destruct (bytes_eqb (take 12 data) initialErrorResponsePrefix).
  - apply error_inv in H as (Hf & Hs & Hw). split; [done|]. by rewrite Hs.
  - destruct (bytes_eqb (take 12 data) initialResponsePrefix) eqn:Er; [|done]. apply bytes_eqb_eq in Er. destruct (negb (bool_decide (more = []))); [done|].
    destruct (anyTag (dp_Fields d) TagResponseStart) eqn:Ea.
    + apply rich_inv in H as (Hf & Hs & Hw). auto.
    + apply (regular_inv _ _ _ Ea) in H as (Hf & Hs & Hw). auto.
Qed.


(** ** Instances *)
Definition sample_logon : InitialLogonRequestInput :=
  mkLogonInput (lit "001") (lit "USER") (lit "secret") [] (lit "e") (lit "10.0.0.1") [] (lit "host") (lit "A4H") (lit "prog") [] []
    (Some (zeros 16)) (Some 7) None.

Definition sample_response : bytes :=
  initialResponsePrefix ++ chain_bytes TagStart [mkField TagProtocolVersion initialProtocolVersion;
    mkField TagCapabilities initialCapabilities; mkField TagLogonStatus [x00]; mkField TagEnd []] ++ [xff; xff].

Lemma ticket_on_wire_witness :
  DecodeTicketField (encodeTicketField (lit "AjEx!w%2Bz%3D")) = lit "AjEx/w+z=" /\
  DecodeTicketField (encodeTicketField (lit "AjEx/w+z=")) = lit "AjEx/w z=".
Proof.
  destruct (ticket_on_wire (lit "AjEx/w+z=")) as (H1 & H2 & _); [by repeat constructor|]. split; [exact H1|exact H2].
Defined.

Lemma source_4 : gives (Ok [x01; x02; x03; x04]) 4.
Proof. by eexists. Qed.
Lemma source_16 : gives (Ok (zeros 16)) 16.
Proof. by eexists. Qed.

Lemma sample_admissible : admissible sample_logon.
Proof. split; cbn; unfold ascii_within; try reflexivity; repeat split; by vm_compute. Qed.

Lemma logon_accepts_witness :
  exists p, EncodeInitialLogonRequest (Ok [x01; x02; x03; x04]) (Ok (zeros 16)) sample_logon = Ok p /\ zlen p <= 2800.
Proof.
  destruct (logon_accepts (Ok [x01; x02; x03; x04]) (Ok (zeros 16)) sample_logon source_4 source_16) as [H1 H2]; [by vm_compute|done|].
  destruct (proj2 H1 sample_admissible) as [p Hp]. exists p. split; [exact Hp|exact (H2 p Hp)].
Defined.

Lemma logon_request_read_witness :
  exists p, EncodeInitialLogonRequest (Ok [x01; x02; x03; x04]) (Ok (zeros 16)) sample_logon = Ok p /\ is_Ok (DecodeInitialLogonRequest p).
Proof.
  destruct (EncodeInitialLogonRequest (Ok [x01; x02; x03; x04]) (Ok (zeros 16)) sample_logon) as [p| |] eqn:E; [|vm_compute in E; discriminate..].
  assert (option_u32 (li_PasswordSeed sample_logon)) as Hu by (split; by vm_compute).
  pose proof (logon_request_read (Ok [x01; x02; x03; x04]) (Ok (zeros 16)) sample_logon p source_4 source_16 Hu I E) as (k & pw & sid & H).
  cbv zeta in H. destruct H as (_ & _ & H & _). exists p. split; [reflexivity|]. eexists. exact (H eq_refl).
Defined.

Lemma logon_outcome_sound_witness :
  exists r fields, DecodeInitialLogonResponse sample_response = Ok r /\ lr_Success r = true /\ says_success fields.
Proof.
  destruct (DecodeInitialLogonResponse sample_response) as [r| |] eqn:E; [|vm_compute in E; discriminate..].
  destruct (logon_outcome_sound sample_response r E) as (fields & n & _ & _ & _ & _ & H & _). vm_compute in E. apply Ok_inj in E. subst r.
  exists (mkDecodedLogonResponse true (Some 0) None 3593 [mkTagLen 259 4; mkTagLen 262 11; mkTagLen 353 1; mkTagLen 65535 0]), fields.
  split; [done|]. split; [done|]. exact (proj2 (H eq_refl)).
Defined.
