(* ===== verification/ClassicRfc.v ===== *)
(** Package [classicrfc], internal/classicrfc/classicrfc.go: ABAP CHAR values, table headers
    and rows, the grouped result of a function call, and RFC_FUNINT rows.

    The Go code walks the fields by index; the model walks the list of the fields from the
    index on.  [DecodeResult] and [DecodeOwnedResult] differ in whether the returned slices
    alias their argument, not in their values, so both are [decodeResult] here.

    The theorems: a CHAR value reads back; the decoder of a result is total; what it returns
    for a classic table stays within its byte budget, and the two S/4 table forms escape
    that budget; an RFC_FUNINT row is read from its first 402 bytes. *)
From stdpp Require Import base list numbers strings pretty.
From Stdlib Require Import ZArith Lia Strings.Byte.
From S2P Require Import Prelude Errors Text UnicodeScalar Rfcerr Cpic CpicFunction.

Open Scope Z_scope.

Abbreviation Field := Cpic.Field.
Abbreviation mkField := Cpic.mkField.

Definition RfcFunintUnicodeRowLength : Z := 402.
Definition defaultMaxTableDecodedBytes : Z := DefaultMaxFieldChainLength.
Definition defaultMaxResultTableDecodedBytes : Z := DefaultMaxFieldChainLength.

Definition errCRange : error := EClassicrfc CRFC_ErrRange.
Definition errCProtocol : error := EClassicrfc CRFC_ErrProtocol.

Record RfcTableHeader : Type := mkRfcTableHeader { DeclaredRowByteLength : Z; RowCount : Z }.
Record Scalar : Type := mkScalar { sc_Name : bytes; sc_Value : bytes }.

Inductive RowEncoding : Type := RowFlat | RowStructured | RowMixed | RowEmpty.
Inductive RowCompression : Type := CompressionNone | CompressionSimple | CompressionMixed | CompressionEmpty.

Record RTable : Type := mkRTable {
  rt_Name : bytes; rt_DeclaredRowByteLength : Z; rt_RowByteLength : Z;
  rt_RowEncoding : RowEncoding; rt_RowCompression : RowCompression; rt_Rows : list bytes }.

Record XrfcParameter : Type := mkXrfcParameter { xp_Value : bytes; xp_ChunkCount : Z }.

Record Result : Type := mkResult {
  res_RequestedOutputs : list bytes; res_Scalars : list Scalar; res_Tables : list RTable;
  res_XrfcParameters : list XrfcParameter }.

(** ** ABAP CHAR *)
Definition characterCount (v : Z) : res unit := guard ((v <? 0) || (0x7fff <? v)) errCRange.

Definition codeUnitLen (s : bytes) : Z := zlen (utf16_encode (runes s)).
Definition utf16leEncode (s : bytes) : bytes := units_bytes (utf16_encode (runes s)).
Definition utf16leDecode (b : bytes) : bytes := utf8_string (utf16_decode (bytes_units b)).

Definition EncodeAbapChar (value_ : bytes) (characters : Z) : res bytes :=
  characterCount characters;;
  AssertUnicodeScalarText value_;;
  if characters <? codeUnitLen value_ then Err errCRange
  else Ok (utf16leEncode (value_ ++ replicate (Z.to_nat (characters - codeUnitLen value_)) x20)).

Definition abapCharacterBytes (v : bytes) (expected : option Z) : res bytes :=
  if negb (Z.land (zlen v) 1 =? 0) then Err errCRange
  else
    match expected with
    | Some n => characterCount n;; guard (negb (zlen v =? n * 2)) errCRange
    | None => Ok tt
    end;;
    let decoded := utf16leDecode v in
    AssertUnicodeScalarText decoded;;
    Ok decoded.

Definition DecodeAbapChar (v : bytes) (expected : option Z) : res bytes :=
  s ← abapCharacterBytes v expected; Ok (trim_right_spaces s).

Definition DecodeAbapFixedChar (v : bytes) (expected : Z) : res bytes := abapCharacterBytes v (Some expected).

(** [[\x00-\x1f\x7f]] *)
Definition is_control (b : byte) : bool := in_range 0x00 0x1f (b2z b) || (b2z b =? 0x7f).

Definition decodeParameterName (v : bytes) : res bytes :=
  name ← DecodeAbapChar v None;
  if (zlen name =? 0) || existsb is_control name then Err errCProtocol else Ok name.

(** ** Tables *)
Definition DecodeRfcTableHeader (v : bytes) : res RfcTableHeader :=
  if negb (zlen v =? 8) then Err errCRange
  else
    d ← be_uint 4 v;
    tail ← go_from v 4;
    n ← be_uint 4 tail;
    Ok (mkRfcTableHeader d n).

Definition nonApplicationTags : list Z :=
  [TagResponseContext; TagSession; CpicFunction.TagUnresolved0420; TagCallContext; TagProgram; 0x0667; TagEnd].

Definition decodeSimpleCompressedTableRow (v : bytes) (declaredRowByteLength : Z) : res bytes :=
  match last v with
  | None => Err errCProtocol
  | Some fill =>
      if declaredRowByteLength <? uint32 (zlen v) then Err errCProtocol
      else if uint32 (zlen v) =? declaredRowByteLength then Ok v
      else if DefaultMaxFieldLength <? declaredRowByteLength then Err errCRange
      else Ok (go_copy (replicate (Z.to_nat declaredRowByteLength) fill) 0 v)
  end.

Definition is_row (f : Field) : bool := (f_Tag f =? TagTableContent) || (f_Tag f =? TagTableCompr).

(** ** The checks before decoding *)
Fixpoint value_bytes_loop (fields : list Field) (valueBytes : Z) : res unit :=
  match fields with
  | [] => Ok tt
  | f :: fields =>
      let valueBytes := valueBytes + zlen (f_Value f) in
      if DefaultMaxFieldChainLength <? valueBytes then Err errCRange else value_bytes_loop fields valueBytes
  end.

Definition preflightResultBytes (fields : list Field) : res unit :=
  if DefaultMaxFieldCount <? zlen fields then Err errCRange else value_bytes_loop fields 0.

(** The rows of one table: the bytes they decode to, their number and the fields behind
    them. *)
Fixpoint preflight_rows (header : RfcTableHeader) (fields : list Field) (tableDecodedBytes rowCount : Z)
    : res (Z * Z * list Field) :=
  match fields with
  | f :: rest =>
      if (rowCount <? RowCount header) && is_row f then
        let enc := zlen (f_Value f) in
        let compr := f_Tag f =? TagTableCompr in
        if enc =? 0 then Err errCProtocol
        else if DeclaredRowByteLength header <? uint32 enc then Err errCProtocol
        else if compr && (uint32 enc <? DeclaredRowByteLength header) && (DefaultMaxFieldLength <? DeclaredRowByteLength header)
        then Err errCRange
        else preflight_rows header rest
               (tableDecodedBytes + if compr then DeclaredRowByteLength header else enc) (rowCount + 1)
      else Ok (tableDecodedBytes, rowCount, fields)
  | [] => Ok (tableDecodedBytes, rowCount, fields)
  end.

(** The loop over the fields; each round drops at least one of them. *)
Fixpoint preflight_loop (fuel : nat) (fields : list Field) (resultDecodedBytes : Z) : res unit :=
  match fuel with
  | O => Err EFuel
  | S fuel =>
      match fields with
      | [] => Ok tt
      | f :: rest =>
          if negb (f_Tag f =? TagTableName) then preflight_loop fuel rest resultDecodedBytes
          else match rest with
          | h :: rows =>
              if negb (f_Tag h =? TagTableHeader) then preflight_loop fuel rest resultDecodedBytes
              else
                _ ← decodeParameterName (f_Value f);
                header ← DecodeRfcTableHeader (f_Value h);
                '(tableDecodedBytes, rowCount, behind) ← preflight_rows header rows 0 0;
                if negb (rowCount =? RowCount header) then Err errCProtocol
                else if defaultMaxTableDecodedBytes <? tableDecodedBytes then Err errCRange
                else
                  let resultDecodedBytes := resultDecodedBytes + tableDecodedBytes in
                  if defaultMaxResultTableDecodedBytes <? resultDecodedBytes then Err errCRange
                  else preflight_loop fuel behind resultDecodedBytes
          | [] => preflight_loop fuel rest resultDecodedBytes
          end
      end
  end.

Definition preflightTableBytes (fields : list Field) : res unit := preflight_loop (S (length fields)) fields 0.

(** ** The result *)
(** The row loop of a table; [checked] is the classic one, which refuses an empty or
    oversized uncompressed row. *)
Fixpoint read_rows (checked : bool) (header : RfcTableHeader) (fields : list Field) (rows : list bytes)
    (sawUncompressed sawSimpleCompressed : bool) : res (list bytes * bool * bool * list Field) :=
  match fields with
  | f :: rest =>
      if (uint32 (zlen rows) <? RowCount header) && is_row f then
        if f_Tag f =? TagTableCompr then
          row ← decodeSimpleCompressedTableRow (f_Value f) (DeclaredRowByteLength header);
          read_rows checked header rest (rows ++ [row]) sawUncompressed true
        else
          let row := f_Value f in
          if checked && (zlen row =? 0) then Err errCProtocol
          else if checked && (DeclaredRowByteLength header <? uint32 (zlen row)) then Err errCProtocol
          else read_rows checked header rest (rows ++ [row]) true sawSimpleCompressed
      else Ok (rows, sawUncompressed, sawSimpleCompressed, fields)
  | [] => Ok (rows, sawUncompressed, sawSimpleCompressed, fields)
  end.

(** The width of the first row, or the declared one. *)
Definition row_width (header : RfcTableHeader) (rows : list bytes) : Z :=
  match rows with r :: _ => zlen r | [] => DeclaredRowByteLength header end.

(** The header and the rows of a table, behind its name or descriptor. *)
Definition read_table (checked : bool) (name : bytes) (fields : list Field) : res (RTable * list Field) :=
  match fields with
  | h :: rest =>
      header ← DecodeRfcTableHeader (f_Value h);
      '(rows, u, c, behind) ← read_rows checked header rest [] false false;
      if negb (uint32 (zlen rows) =? RowCount header) then Err errCProtocol
      else
        let kinds :=
          if u && c then (RowMixed, CompressionMixed)
          else if c then (RowStructured, CompressionSimple)
          else if u || negb checked then (RowFlat, CompressionNone)
          else (RowEmpty, CompressionEmpty) in
        Ok (mkRTable name (DeclaredRowByteLength header) (row_width header rows) (fst kinds) (snd kinds) rows, behind)
  | [] => Err errCProtocol
  end.

(** The chunks behind an opening boundary, up to the first field that is not one. *)
Fixpoint xrfc_chunks (fields : list Field) (byteLength : Z) (chunks : list bytes) : res (list bytes * list Field) :=
  match fields with
  | f :: rest =>
      if f_Tag f =? TagXRfcData then
        if zlen (f_Value f) =? 0 then Err errCProtocol
        else
          let byteLength := byteLength + zlen (f_Value f) in
          if DefaultMaxFieldChainLength <? byteLength then Err errCRange
          else xrfc_chunks rest byteLength (chunks ++ [f_Value f])
      else Ok (chunks, fields)
  | [] => Ok (chunks, fields)
  end.

(** [fmt.Sprintf("S4TAB%d", binary.BigEndian.Uint32(value[4:8]))] and the count at 8. *)
Definition s4_descriptor (v : bytes) : res (bytes * Z) :=
  if zlen v <? 12 then Err errCProtocol
  else
    a ← go_slice v 4 8;
    id ← be_uint 4 a;
    b ← go_slice v 8 12;
    count ← be_uint 4 b;
    Ok (lit "S4TAB" ++ lit (pretty (Z.to_N id)), count).

(** The rows of a native table, cut from its data. *)
Fixpoint native_rows (n : nat) (data : bytes) (width : nat) : list bytes :=
  match n with
  | O => []
  | S n => take width data :: native_rows n (drop width data) width
  end.

Definition native_table (name : bytes) (count : Z) (data : bytes) : res RTable :=
  if (0 <? count) && negb (zlen data mod count =? 0) then Err errCProtocol
  else
    let width := if 0 <? count then zlen data / count else 0 in
    Ok (mkRTable name (uint32 width) width RowFlat CompressionNone (native_rows (Z.to_nat count) data (Z.to_nat width))).

Definition next_tag (fields : list Field) (tag : Z) : bool :=
  match fields with f :: _ => f_Tag f =? tag | [] => false end.

Definition add_output (r : Result) (v : bytes) : Result :=
  mkResult (res_RequestedOutputs r ++ [v]) (res_Scalars r) (res_Tables r) (res_XrfcParameters r).
Definition add_scalar (r : Result) (v : Scalar) : Result :=
  mkResult (res_RequestedOutputs r) (res_Scalars r ++ [v]) (res_Tables r) (res_XrfcParameters r).
Definition add_table (r : Result) (v : RTable) : Result :=
  mkResult (res_RequestedOutputs r) (res_Scalars r) (res_Tables r ++ [v]) (res_XrfcParameters r).
Definition add_xrfc (r : Result) (v : XrfcParameter) : Result :=
  mkResult (res_RequestedOutputs r) (res_Scalars r) (res_Tables r) (res_XrfcParameters r ++ [v]).

(** One round of the loop: the fields left, the result and the names seen. *)
Definition result_step (f : Field) (rest : list Field) (r : Result) (names : list bytes)
    : res (list Field * Result * list bytes) :=
  let tag := f_Tag f in
  if bool_decide (tag ∈ nonApplicationTags) then Ok (rest, r, names)
  else if tag =? TagRequestedOutput then
    name ← decodeParameterName (f_Value f); Ok (rest, add_output r name, names)
  else if tag =? TagXRfcData then Err errCProtocol
  else if tag =? TagXRfcParameter then
    if negb (zlen (f_Value f) =? 0) then Err errCProtocol
    else
      '(chunks, behind) ← xrfc_chunks rest 0 [];
      if zlen chunks =? 0 then Err errCProtocol
      else match behind with
      | c :: behind =>
          if negb (f_Tag c =? TagXRfcParameter) then Err errCProtocol
          else if negb (zlen (f_Value c) =? 0) then Err errCProtocol
          else Ok (behind, add_xrfc r (mkXrfcParameter (concat chunks) (zlen chunks)), names)
      | [] => Err errCProtocol
      end
  else if tag =? TagParameterValue then Err errCProtocol
  else if (tag =? TagTableHeader) || is_row f then Err errCProtocol
  else if tag =? TagParameterName then
    name ← decodeParameterName (f_Value f);
    match rest with
    | v :: behind =>
        if negb (f_Tag v =? TagParameterValue) then Err errCProtocol
        else if bool_decide (name ∈ names) then Err errCProtocol
        else Ok (behind, add_scalar r (mkScalar name (f_Value v)), name :: names)
    | [] => Err errCProtocol
    end
  else if tag =? TagTableName then
    name ← decodeParameterName (f_Value f);
    if negb (next_tag rest TagTableHeader) then Err errCProtocol
    else if bool_decide (name ∈ names) then Err errCProtocol
    else
      '(t, behind) ← read_table true name rest;
      Ok (behind, add_table r t, name :: names)
  else if bool_decide (tag ∈ [0x0331; 0x0336; 0x0104]) then Ok (rest, r, names)
  else if tag =? 0x0335 then
    '(name, _) ← s4_descriptor (f_Value f);
    if negb (next_tag rest TagTableHeader) then Err errCProtocol
    else
      '(t, behind) ← read_table false name rest;
      Ok (behind, add_table r t, names)
  else if tag =? 0x0333 then
    '(name, count) ← s4_descriptor (f_Value f);
    match rest with
    | d :: behind =>
        if negb (f_Tag d =? 0x0334) then Err errCProtocol
        else t ← native_table name count (f_Value d); Ok (behind, add_table r t, names)
    | [] => Err errCProtocol
    end
  else Err errCProtocol.

Fixpoint result_loop (fuel : nat) (fields : list Field) (r : Result) (names : list bytes) : res Result :=
  match fuel with
  | O => Err EFuel
  | S fuel =>
      match fields with
      | [] => Ok r
      | f :: rest => '(rest, r, names) ← result_step f rest r names; result_loop fuel rest r names
      end
  end.

Definition decodeResult (fields : list Field) : res Result :=
  preflightResultBytes fields;;
  preflightTableBytes fields;;
  result_loop (S (length fields)) fields (mkResult [] [] [] []) [].

(** ** RFC_FUNINT *)
Record FunintParameter : Type := mkFunintParameter {
  ParameterClass : bytes; ParameterName : bytes; TableName : bytes; FieldName : bytes; Exid : bytes;
  Position : Z; Offset : Z; InternalLength : Z; Decimals : Z;
  DefaultValue : bytes; ParameterText : bytes; Optional : bool }.

Definition funint_text (prefix : bytes) (off chars : Z) : res bytes :=
  b ← go_slice prefix off (off + chars * 2); DecodeAbapChar b (Some chars).
Definition funint_int (prefix : bytes) (off : Z) : res Z :=
  b ← go_slice prefix off (off + 4); n ← le_uint 4 b; Ok (int32 n).

Definition DecodeFunintRow (v : bytes) : res FunintParameter :=
  if zlen v <? RfcFunintUnicodeRowLength then Err errCRange
  else
    prefix ← go_slice v 0 RfcFunintUnicodeRowLength;
    parameterClass ← funint_text prefix 0 1;
    parameterName ← funint_text prefix 2 30;
    tableName ← funint_text prefix 62 30;
    fieldName ← funint_text prefix 122 30;
    exid ← funint_text prefix 182 1;
    position ← funint_int prefix 184;
    offset ← funint_int prefix 188;
    internalLength ← funint_int prefix 192;
    decimals ← funint_int prefix 196;
    defaultValue ← funint_text prefix 200 21;
    parameterText ← funint_text prefix 242 79;
    optionalText ← funint_text prefix 400 1;
    if negb (bool_decide (optionalText = [])) && negb (bytes_eqb optionalText (lit "X")) then Err errCProtocol
    else Ok (mkFunintParameter parameterClass parameterName tableName fieldName exid position offset internalLength
               decimals defaultValue parameterText (bytes_eqb optionalText (lit "X"))).

(** ** CHAR values *)
#[local] Ltac Zify.zify_post_hook ::= Z.div_mod_to_equations.

Lemma even_bytes us : Z.land (zlen (units_bytes us)) 1 = 0.
Proof. rewrite land_1. unfold zlen. rewrite length_units_bytes. lia. Qed.

Lemma runes_valid_app a b : ValidString a = true -> ValidString b = true ->
  runes (a ++ b) = runes a ++ runes b /\ ValidString (a ++ b) = true.
Proof.
  intros Ha Hb. destruct (valid_string_runes a Ha) as [Ea Ra]. destruct (valid_string_runes b Hb) as [Eb Rb].
  assert (a ++ b = utf8_string (runes a ++ runes b)) as E.
  { unfold utf8_string. rewrite bind_app. fold (utf8_string (runes a)) (utf8_string (runes b)). by rewrite Ea, Eb. }
  rewrite E. apply runes_utf8_string. by apply Forall_app.
Qed.

Lemma spaces_runes n : runes (replicate n x20) = replicate n 0x20 /\ ValidString (replicate n x20) = true.
Proof.
  destruct (ascii_runes (replicate n x20)) as [H1 H2]; [apply Forall_replicate; by vm_compute|].
  split; [|done]. rewrite H1. clear. induction n as [|n IH]; [done|]. cbn. by rewrite IH.
Qed.

Lemma spaces_units n : utf16_encode (replicate n 0x20) = replicate n 0x20.
Proof. unfold utf16_encode. induction n as [|n IH]; [done|]. cbn [replicate mbind list_bind]. by rewrite IH. Qed.

(** What a decoder of CHAR bytes makes of any units. *)
Lemma decoded_valid b : ValidString (utf16leDecode b) = true.
Proof.
  unfold utf16leDecode. generalize (utf16_decode (bytes_units b)) as us. intros us.
  apply valid_string_iff. exists (map (fun r => if is_scalarb r then r else RuneError) us). split.
  - apply Forall_map, Forall_true. intros r. destruct (is_scalarb r) eqn:E; [by apply is_scalarb_spec|].
    by vm_compute; right.
  - unfold utf8_string. induction us as [|r us IH]; [done|]. cbn [map mbind list_bind]. rewrite IH. f_equal.
    unfold EncodeRune. destruct (is_scalarb r) eqn:E; cbv iota; [by rewrite E|done].
Qed.

Lemma trim_spaces_app s n : trim_right_spaces (s ++ replicate n x20) = trim_right_spaces s.
Proof.
  unfold trim_right_spaces. rewrite rev_app_distr. f_equal. induction n as [|n IH]; [done|].
  replace (rev (replicate (S n) x20)) with (x20 :: rev (replicate n x20)).
  - cbn [app span]. rewrite bool_decide_eq_true_2 by done.
    destruct (span _ (rev (replicate n x20) ++ rev s)) as [x y]. exact IH.
  - rewrite replicate_S_end, rev_app_distr. done.
Qed.

Lemma trim_spaces_last s : last s <> Some x20 -> trim_right_spaces s = s.
Proof.
  intros H. unfold trim_right_spaces. rewrite <- (rev_involutive s) at 2. f_equal.
  destruct (rev s) as [|b r] eqn:E; [done|]. cbn [span]. rewrite bool_decide_eq_false_2; [done|]. intros ->. apply H.
  rewrite <- (rev_involutive s), E. cbn [rev]. apply last_snoc.
Qed.

(** The value a CHAR field holds: the text and its padding. *)
Lemma encode_char_inv v n b :
  EncodeAbapChar v n = Ok b ->
  0 <= n <= 0x7fff /\ ValidString v = true /\ codeUnitLen v <= n /\ zlen b = 2 * n /\
  utf16leDecode b = v ++ replicate (Z.to_nat (n - codeUnitLen v)) x20.
Proof.
  unfold EncodeAbapChar, characterCount, guard, AssertUnicodeScalarText.
  destruct (Z.ltb_spec n 0); [done|]. destruct (Z.ltb_spec 0x7fff n); [done|]. cbn [orb mbind outcome_bind].
  destruct (ValidString v) eqn:Ev; [|done]. cbn [negb mbind outcome_bind].
  destruct (Z.ltb_spec n (codeUnitLen v)); [done|]. intros [= <-]. set (k := Z.to_nat (n - codeUnitLen v)).
  destruct (spaces_runes k) as [Hs Hsv]. destruct (runes_valid_app v (replicate k x20) Ev Hsv) as [Hr Hv].
  split_and!; try done.
  - unfold utf16leEncode. rewrite Hr, utf16_encode_app, Hs, spaces_units. unfold zlen.
    rewrite length_units_bytes, length_app, length_replicate. unfold codeUnitLen, zlen in *. lia.
  - unfold utf16leDecode, utf16leEncode. by rewrite utf16le_roundtrip.
Qed.

Lemma char_bytes_ok b expected :
  Z.land (zlen b) 1 = 0 -> match expected with Some n => 0 <= n <= 0x7fff /\ zlen b = 2 * n | None => True end ->
  abapCharacterBytes b expected = Ok (utf16leDecode b).
Proof.
  intros He Hx. unfold abapCharacterBytes. rewrite He. cbn [Z.eqb negb].
  assert (AssertUnicodeScalarText (utf16leDecode b) = Ok tt) as Ha.
  { unfold AssertUnicodeScalarText. by rewrite decoded_valid. }
  destruct expected as [n|]; [|cbn [mbind outcome_bind]; by rewrite Ha].
  unfold characterCount, guard. destruct Hx as [Hn Hl]. destruct (Z.ltb_spec n 0); [lia|]. destruct (Z.ltb_spec 0x7fff n); [lia|].
  cbn [orb mbind outcome_bind]. destruct (Z.eqb_spec (zlen b) (n * 2)); [|lia]. cbn [negb mbind outcome_bind]. by rewrite Ha.
Qed.

Lemma encoded_char_read v n b :
  EncodeAbapChar v n = Ok b -> abapCharacterBytes b (Some n) = Ok (v ++ replicate (Z.to_nat (n - codeUnitLen v)) x20).
Proof.
  intros (Hn & _ & _ & Hl & <-)%encode_char_inv. apply char_bytes_ok; [|done]. rewrite land_1, Hl. lia.
Qed.

Lemma abap_char_read v n b :
  EncodeAbapChar v n = Ok b ->
  zlen b = 2 * n /\ DecodeAbapChar b (Some n) = Ok (trim_right_spaces v) /\
  (last v <> Some x20 -> DecodeAbapChar b (Some n) = Ok v) /\
  DecodeAbapFixedChar b n = Ok (v ++ replicate (Z.to_nat (n - codeUnitLen v)) x20).
Proof.
  intros H. destruct (encode_char_inv v n b H) as (_ & _ & _ & Hl & _). pose proof (encoded_char_read v n b H) as Hr.
  assert (DecodeAbapChar b (Some n) = Ok (trim_right_spaces v)) as Hd.
  { unfold DecodeAbapChar. rewrite Hr. cbn [mbind outcome_bind]. by rewrite trim_spaces_app. }
  split_and!; [done|done| |done]. intros Hx. by rewrite Hd, trim_spaces_last.
Qed.

(** A CHAR value reads back without its trailing blanks, and with its padding as a fixed
    value. *)
Theorem abap_char_roundtrip v n b :
  EncodeAbapChar v n = Ok b ->
  zlen b = 2 * n /\ DecodeAbapChar b (Some n) = Ok (trim_right_spaces v) /\
  (last v <> Some x20 -> DecodeAbapChar b (Some n) = Ok v) /\
  DecodeAbapFixedChar b n = Ok (v ++ replicate (Z.to_nat (n - codeUnitLen v)) x20).
Proof. apply abap_char_read. Qed.

(** Decoding a CHAR value of even length never refuses it: an unpaired surrogate is read as
    the replacement character. *)
Theorem abap_char_no_refusal b :
  DecodeAbapChar b None = (if Z.land (zlen b) 1 =? 0 then Ok (trim_right_spaces (utf16leDecode b)) else Err errCRange) /\
  DecodeAbapChar [x41; x00; x00; xd8] None = Ok (lit "A" ++ EncodeRune RuneError).
Proof.
  split; [|vm_compute; reflexivity]. unfold DecodeAbapChar. destruct (Z.eqb_spec (Z.land (zlen b) 1) 0) as [E|E].
  - by rewrite char_bytes_ok.
  - unfold abapCharacterBytes. by rewrite (proj2 (Z.eqb_neq _ _) E).
Qed.

(** ** The decoder of a result ends *)
Lemma char_total v e : total (DecodeAbapChar v e).
Proof.
  unfold DecodeAbapChar. apply total_bind; [|done]. unfold abapCharacterBytes. destruct (negb _); [done|].
  apply total_bind.
  - destruct e as [n|]; [|done]. apply total_bind; [|intros _ _; unfold guard; by destruct (negb _)].
    unfold characterCount, guard. by destruct (_ || _).
  - intros _ _. apply total_bind; [|done]. unfold AssertUnicodeScalarText. by destruct (negb _).
Qed.

Lemma name_total v : total (decodeParameterName v).
Proof. unfold decodeParameterName. apply total_bind; [apply char_total|]. intros n _. by destruct (_ || _). Qed.

(** The header of a table is two numbers of 32 bits. *)
Lemma header_ok v h :
  DecodeRfcTableHeader v = Ok h -> is_u32 (DeclaredRowByteLength h) /\ is_u32 (RowCount h) /\
    v = be_split 4 (DeclaredRowByteLength h) ++ be_split 4 (RowCount h).
Proof.
  unfold DecodeRfcTableHeader. destruct (Z.eqb_spec (zlen v) 8) as [Hl|]; [|done]. cbn [negb].
  destruct (cut_prefix 4 v) as (a & b & -> & Ha); [unfold zlen in Hl; lia|].
  assert (length b = 4%nat) as Hb by (rewrite zlen_app in Hl; unfold zlen in Hl; lia).
  rewrite be_uint_app by done. cbn [mbind outcome_bind]. rewrite go_from_app by (unfold zlen; lia). cbn [mbind outcome_bind].
  rewrite <- (app_nil_r b) at 1. rewrite be_uint_app by done. cbn [mbind outcome_bind]. intros [= <-].
  cbn [DeclaredRowByteLength RowCount]. rewrite !be_split_bytes by done.
  pose proof (be_combine_range a) as R1. pose proof (be_combine_range b) as R2. unfold zlen in R1, R2. rewrite Ha in R1.
  rewrite Hb in R2. split_and!; [exact R1|exact R2|done].
Qed.

Lemma header_encoded d n : is_u32 d -> is_u32 n -> DecodeRfcTableHeader (be_split 4 d ++ be_split 4 n) = Ok (mkRfcTableHeader d n).
Proof.
  intros Hd Hn. unfold DecodeRfcTableHeader.
  assert (zlen (be_split 4 d ++ be_split 4 n) = 8) as -> by (unfold zlen; by rewrite length_app, !length_be_split).
  cbn [Z.eqb Pos.eqb negb]. rewrite be_uint_app by apply length_be_split. cbn [mbind outcome_bind].
  rewrite go_from_app by (unfold zlen; by rewrite length_be_split). cbn [mbind outcome_bind].
  rewrite <- (app_nil_r (be_split 4 n)). rewrite be_uint_app by apply length_be_split. cbn [mbind outcome_bind].
  by rewrite !be_round.
Qed.

Lemma header_total v : total (DecodeRfcTableHeader v).
Proof.
  unfold DecodeRfcTableHeader. destruct (Z.eqb_spec (zlen v) 8) as [Hl|]; [|done]. cbn [negb].
  destruct (cut_prefix 4 v) as (a & b & -> & Ha); [unfold zlen in Hl; lia|].
  rewrite be_uint_app by done. cbn [mbind outcome_bind]. rewrite go_from_app by (unfold zlen; lia). cbn [mbind outcome_bind].
  assert (length b = 4%nat) as Hb by (rewrite zlen_app in Hl; unfold zlen in Hl; lia).
  rewrite <- (app_nil_r b). by rewrite be_uint_app.
Qed.

Lemma preflight_rows_total h fs b n : total (preflight_rows h fs b n) /\
  forall b' n' behind, preflight_rows h fs b n = Ok (b', n', behind) -> (length behind <= length fs)%nat.
Proof.
  revert b n. induction fs as [|f fs IH]; intros b n; cbn [preflight_rows].
  { split; [done|]. intros ? ? ? [= <- <- <-]. done. }
  destruct (_ && is_row f).
  - destruct (_ =? 0); [by split|]. destruct (_ <? uint32 _); [by split|].
    match goal with |- context [if ?c then Err _ else _] => destruct c; [by split|] end.
    match goal with |- context [preflight_rows h fs ?x ?y] => destruct (IH x y) as [H1 H2] end. split; [done|].
    intros b' n' behind E. specialize (H2 b' n' behind E). cbn. lia.
  - split; [done|]. intros ? ? ? [= <- <- <-]. done.
Qed.

Lemma preflight_loop_total fuel fs b : (length fs < fuel)%nat -> total (preflight_loop fuel fs b).
Proof.
  revert fs b. induction fuel as [|fuel IH]; intros fs b Hf; [lia|]. cbn [preflight_loop].
  destruct fs as [|f rest]; [done|]. cbn in Hf. destruct (negb _); [apply IH; lia|].
  destruct rest as [|h rows]; [apply IH; cbn in *; lia|]. destruct (negb _); [apply IH; lia|].
  apply total_bind; [apply name_total|]. intros _ _. apply total_bind; [apply header_total|]. intros header _.
  destruct (preflight_rows_total header rows 0 0) as [T H]. apply total_bind; [done|]. intros [[d n] behind] E.
  specialize (H d n behind E). destruct (negb _); [done|]. destruct (_ <? d); [done|]. cbv zeta.
  destruct (_ <? _); [done|]. apply IH. cbn in Hf. lia.
Qed.

Lemma compressed_total v d : total (decodeSimpleCompressedTableRow v d).
Proof. unfold decodeSimpleCompressedTableRow. destruct (last v); [|done]. destruct (_ <? _); [done|].
  destruct (_ =? _); [done|]. by destruct (_ <? _).
Qed.

Lemma read_rows_total checked h fs rows u c : total (read_rows checked h fs rows u c) /\
  forall rows' u' c' behind, read_rows checked h fs rows u c = Ok (rows', u', c', behind) -> (length behind <= length fs)%nat.
Proof.
  revert rows u c. induction fs as [|f fs IH]; intros rows u c; cbn [read_rows].
  { split; [done|]. intros ? ? ? ? [= <- <- <- <-]. done. }
  destruct (_ && is_row f); [|split; [done|]; by intros ? ? ? ? [= <- <- <- <-]]. destruct (_ =? TagTableCompr).
  - split.
    + apply total_bind; [apply compressed_total|]. intros row _. apply IH.
    + intros rows' u' c' behind H. ok_step H as row Hr.
      destruct (IH (rows ++ [row]) u true) as [_ Hl]. specialize (Hl _ _ _ _ H). cbn. lia.
  - cbv zeta. destruct (checked && (zlen (f_Value f) =? 0)); [by split|].
    destruct (checked && _); [by split|]. destruct (IH (rows ++ [f_Value f]) true c) as [T Hl]. split; [done|].
    intros rows' u' c' behind H. specialize (Hl _ _ _ _ H). cbn. lia.
Qed.

Lemma read_table_total checked name fs : total (read_table checked name fs) /\
  forall t behind, read_table checked name fs = Ok (t, behind) -> (length behind <= length fs)%nat.
Proof.
  destruct fs as [|h rest]; [by split|]. cbn [read_table]. split.
  - apply total_bind; [apply header_total|]. intros header _. apply total_bind; [apply read_rows_total|].
    intros [[[rows u] c] behind] _. by destruct (negb _).
  - intros t behind H. ok_step H as header Hh. ok_step H as q Hq. destruct q as [[[rows u] c] bh].
    destruct (read_rows_total checked header rest [] false false) as [_ Hl]. specialize (Hl _ _ _ _ Hq).
    destruct (negb _); [done|]. injection H as _ <-. cbn. lia.
Qed.

Lemma xrfc_chunks_total fs n cs : total (xrfc_chunks fs n cs) /\
  forall cs' behind, xrfc_chunks fs n cs = Ok (cs', behind) -> (length behind <= length fs)%nat.
Proof.
  revert n cs. induction fs as [|f fs IH]; intros n cs; cbn [xrfc_chunks]; [split; [done|]; by intros ? ? [= <- <-]|].
  destruct (_ =? TagXRfcData); [|split; [done|]; by intros ? ? [= <- <-]]. destruct (_ =? 0); [by split|]. cbv zeta.
  destruct (_ <? _); [by split|]. match goal with |- context [xrfc_chunks fs ?x ?y] => destruct (IH x y) as [T H] end.
  split; [done|]. intros cs' behind E. specialize (H _ _ E). cbn. lia.
Qed.

Lemma slice_uint_total v a : 0 <= a -> a + 4 <= zlen v -> exists n, (b ← go_slice v a (a + 4); be_uint 4 b) = (Ok n : res Z) /\ is_u32 n.
Proof.
  intros H1 H2. rewrite go_slice_ok by lia. cbn [mbind outcome_bind]. unfold be_uint.
  set (b := take _ _). assert (length b = 4%nat) as Hb by (unfold b; rewrite length_take, length_drop; unfold zlen in H2; lia).
  destruct (Nat.ltb_spec (length b) 4); [lia|]. eexists. split; [done|]. rewrite take_ge by lia.
  pose proof (be_combine_range b) as R. unfold zlen in R. rewrite Hb in R. exact R.
Qed.

Lemma descriptor_total v : total (s4_descriptor v).
Proof.
  unfold s4_descriptor. destruct (Z.ltb_spec (zlen v) 12); [done|].
  destruct (slice_uint_total v 4) as (n & H1 & _); [lia..|]. destruct (slice_uint_total v 8) as (m & H2 & _); [lia..|].
  ok_step H1 as a Ha. ok_step H2 as b Hb. change (4 + 4) with 8 in Ha. change (8 + 4) with 12 in Hb.
  rewrite Ha. cbn [mbind outcome_bind]. rewrite H1. cbn [mbind outcome_bind]. rewrite Hb. cbn [mbind outcome_bind].
  by rewrite H2.
Qed.

(** A round ends, and leaves no more fields than were behind its first. *)
Definition step_ok (rest : list Field) (m : res (list Field * Result * list bytes)) : Prop :=
  total m /\ forall rest' r' names', m = Ok (rest', r', names') -> (length rest' <= length rest)%nat.

Lemma step_err rest e : e <> EFuel -> step_ok rest (Err e).
Proof. intros H. split; [by apply total_err|done]. Qed.

Lemma step_value rest rest' r names : (length rest' <= length rest)%nat -> step_ok rest (Ok (rest', r, names)).
Proof. intros H. split; [done|]. by intros ? ? ? [= <- <- <-]. Qed.

Lemma step_bind {A} rest (m : res A) k :
  total m -> (forall a, m = Ok a -> step_ok rest (k a)) -> step_ok rest (m ≫= k).
Proof.
  intros Ht Hk. destruct m as [a|e|]; [by apply Hk| |by destruct Ht]. apply step_err. intros ->. by destruct Ht.
Qed.

Lemma result_step_ok f rest r names : step_ok rest (result_step f rest r names).
Proof.
  unfold result_step. cbv zeta.
  destruct (bool_decide (f_Tag f ∈ nonApplicationTags)); [by apply step_value|].
  destruct (_ =? TagRequestedOutput). { apply step_bind; [apply name_total|]. intros n _. by apply step_value. }
  destruct (_ =? TagXRfcData); [by apply step_err|]. destruct (_ =? TagXRfcParameter).
  { destruct (negb _); [by apply step_err|]. destruct (xrfc_chunks_total rest 0 []) as [T H].
    apply step_bind; [done|]. intros [cs behind] E. specialize (H _ _ E). destruct (_ =? 0); [by apply step_err|].
    destruct behind as [|c behind]; [by apply step_err|]. do 2 (destruct (negb _); [by apply step_err|]).
    apply step_value. cbn in H. lia. }
  destruct (_ =? TagParameterValue); [by apply step_err|]. destruct (_ || is_row f); [by apply step_err|].
  destruct (_ =? TagParameterName).
  { apply step_bind; [apply name_total|]. intros n _. destruct rest as [|v behind]; [by apply step_err|].
    destruct (negb _); [by apply step_err|]. destruct (bool_decide _); [by apply step_err|]. apply step_value. cbn. lia. }
  destruct (_ =? TagTableName).
  { apply step_bind; [apply name_total|]. intros n _. destruct (negb _); [by apply step_err|].
    destruct (bool_decide _); [by apply step_err|]. destruct (read_table_total true n rest) as [T H].
    apply step_bind; [done|]. intros [t behind] E. apply step_value. by apply (H _ _ E). }
  destruct (bool_decide _); [by apply step_value|]. destruct (_ =? 0x0335).
  { apply step_bind; [apply descriptor_total|]. intros [n k] _. destruct (negb _); [by apply step_err|].
    destruct (read_table_total false n rest) as [T H]. apply step_bind; [done|]. intros [t behind] E.
    apply step_value. by apply (H _ _ E). }
  destruct (_ =? 0x0333); [|by apply step_err].
  apply step_bind; [apply descriptor_total|]. intros [n k] _. destruct rest as [|d behind]; [by apply step_err|].
  destruct (negb _); [by apply step_err|]. apply step_bind; [unfold native_table; by destruct (_ && _)|].
  intros t _. apply step_value. cbn. lia.
Qed.

Lemma result_loop_total fuel fs r names : (length fs < fuel)%nat -> total (result_loop fuel fs r names).
Proof.
  revert fs r names. induction fuel as [|fuel IH]; intros fs r names Hf; [lia|]. cbn [result_loop].
  destruct fs as [|f rest]; [done|]. destruct (result_step_ok f rest r names) as [T H]. apply total_bind; [done|].
  intros [[rest' r'] names'] E. specialize (H _ _ _ E). apply IH. cbn in Hf. lia.
Qed.

Lemma value_bytes_total fs n : total (value_bytes_loop fs n).
Proof. revert n. induction fs as [|f fs IH]; intros n; cbn [value_bytes_loop]; [done|]. destruct (_ <? _); [done|apply IH]. Qed.

Lemma decode_result_total fields : total (decodeResult fields).
Proof.
  unfold decodeResult. apply total_bind; [unfold preflightResultBytes; destruct (_ <? _); [done|apply value_bytes_total]|].
  intros _ _. apply total_bind; [apply preflight_loop_total; lia|]. intros _ _. apply result_loop_total. lia.
Qed.

(** The decoder of a result never panics and ends. *)
Theorem result_total fields : total (decodeResult fields).
Proof. apply decode_result_total. Qed.

(** ** Rows *)
Lemma compressed_row v d row :
  is_u32 d -> zlen v < 2 ^ 32 -> decodeSimpleCompressedTableRow v d = Ok row ->
  exists fill n, last v = Some fill /\ row = v ++ replicate n fill /\ zlen row = d.
Proof.
  intros Hd Hv. unfold decodeSimpleCompressedTableRow. destruct (last v) as [fill|] eqn:El; [|done].
  unfold uint32. rewrite Z.mod_small by (pose proof (zlen_nonneg v); lia).
  destruct (Z.ltb_spec d (zlen v)); [done|]. destruct (Z.eqb_spec (zlen v) d) as [E|].
  - intros [= <-]. exists fill, 0%nat. split_and!; [done|by rewrite app_nil_r|done].
  - destruct (_ <? d); [done|]. intros [= <-]. exists fill, (Z.to_nat d - length v)%nat. split_and!; [done| |].
    + apply go_copy_pad. unfold zlen in *. lia.
    + rewrite go_copy_pad by (unfold zlen in *; lia). rewrite zlen_app. unfold zlen in *. rewrite length_replicate. lia.
Qed.

(** The bytes of the rows of a list of tables. *)
Definition rows_bytes (rows : list bytes) : Z := fold_right Z.add 0 (map zlen rows).
Definition tables_bytes (ts : list RTable) : Z := fold_right Z.add 0 (map (fun t => rows_bytes (rt_Rows t)) ts).

Lemma sum_app l1 l2 : fold_right Z.add 0 (l1 ++ l2) = fold_right Z.add 0 l1 + fold_right Z.add 0 l2.
Proof. induction l1 as [|x l1 IH]; [done|]. cbn [app fold_right]. rewrite IH. lia. Qed.

Lemma rows_bytes_snoc rows r : rows_bytes (rows ++ [r]) = rows_bytes rows + zlen r.
Proof. unfold rows_bytes. rewrite map_app, sum_app. cbn. lia. Qed.

Lemma tables_bytes_snoc ts t : tables_bytes (ts ++ [t]) = tables_bytes ts + rows_bytes (rt_Rows t).
Proof. unfold tables_bytes. rewrite map_app, sum_app. cbn. lia. Qed.

(** The rows that are read decode to what the check before counted. *)
Lemma rows_counted h fs rows b n u c b' n' behind rows' u' c' behind' :
  is_u32 (DeclaredRowByteLength h) -> is_u32 (RowCount h) -> Forall (fun f => zlen (f_Value f) < 2 ^ 32) fs ->
  zlen rows = n -> n <= RowCount h ->
  preflight_rows h fs b n = Ok (b', n', behind) -> read_rows true h fs rows u c = Ok (rows', u', c', behind') ->
  behind' = behind /\ zlen rows' = n' /\ rows_bytes rows' = rows_bytes rows + (b' - b).
Proof.
  intros Hd Hc Hv. revert rows b n u c. induction Hv as [|f fs Hf Hfs IH]; intros rows b n u c Hn Hle; cbn [preflight_rows read_rows].
  { intros [= <- <- <-] [= <- <- <- <-]. split_and!; [done|done|lia]. }
  assert (uint32 (zlen rows) = n) as ->.
  { rewrite Hn. apply Z.mod_small. unfold is_u32 in Hc. pose proof (zlen_nonneg rows). lia. }
  destruct (Z.ltb_spec n (RowCount h)) as [Hlt|]; cbn [andb].
  2: { intros [= <- <- <-] [= <- <- <- <-]. split_and!; [done|done|lia]. }
  destruct (is_row f); [|intros [= <- <- <-] [= <- <- <- <-]; split_and!; [done|done|lia]].
  destruct (zlen (f_Value f) =? 0); [done|]. destruct (DeclaredRowByteLength h <? uint32 (zlen (f_Value f))); [done|].
  match goal with |- (if ?x then _ else _) = _ -> _ => destruct x; [done|] end. cbn [andb].
  destruct (f_Tag f =? TagTableCompr).
  - intros Hp Hr. ok_step Hr as row Hrow. destruct (compressed_row _ _ _ Hd Hf Hrow) as (_ & _ & _ & _ & Hl).
    destruct (IH (rows ++ [row]) _ (n + 1) u true ltac:(rewrite zlen_app, Hn; done) ltac:(lia) Hp Hr) as (E1 & E2 & E3).
    split_and!; [done|done|]. rewrite rows_bytes_snoc in E3. lia.
  - intros Hp Hr.
    destruct (IH (rows ++ [f_Value f]) _ (n + 1) true c ltac:(rewrite zlen_app, Hn; done) ltac:(lia) Hp Hr) as (E1 & E2 & E3).
    split_and!; [done|done|]. rewrite rows_bytes_snoc in E3. lia.
Qed.

Lemma read_rows_suffix checked h fs rows u c rows' u' c' behind :
  read_rows checked h fs rows u c = Ok (rows', u', c', behind) -> exists pre, fs = pre ++ behind.
Proof.
  revert rows u c. induction fs as [|f fs IH]; intros rows u c; cbn [read_rows]; [intros [= <- <- <- <-]; by exists []|].
  destruct (_ && is_row f); [|intros [= <- <- <- <-]; by exists []]. destruct (_ =? TagTableCompr).
  - intros H. ok_step H as row Hr. destruct (IH _ _ _ H) as [pre ->]. by exists (f :: pre).
  - cbv zeta. do 2 (destruct (checked && _); [done|]). intros H. destruct (IH _ _ _ H) as [pre ->]. by exists (f :: pre).
Qed.

Lemma read_table_suffix checked name fs t behind :
  read_table checked name fs = Ok (t, behind) -> exists pre, fs = pre ++ behind.
Proof.
  destruct fs as [|h rest]; [done|]. cbn [read_table]. intros H. ok_step H as header Hh. ok_step H as q Hq.
  destruct q as [[[rows u] c] bh]. destruct (negb _); [done|]. injection H as _ <-.
  destruct (read_rows_suffix _ _ _ _ _ _ _ _ _ _ Hq) as [pre ->]. by exists (h :: pre).
Qed.

(** ** The byte budget *)
(** A round that reads no table leaves the tables, and skips no table name. *)
Definition plain_round (f : Field) (rest rest' : list Field) (r r' : Result) : Prop :=
  f_Tag f <> TagTableName /\ res_Tables r' = res_Tables r /\
  exists skipped, rest = skipped ++ rest' /\ Forall (fun g => f_Tag g <> TagTableName) skipped.

Definition table_round (f : Field) (rest rest' : list Field) (r r' : Result) : Prop :=
  f_Tag f = TagTableName /\ next_tag rest TagTableHeader = true /\
  exists name t, read_table true name rest = Ok (t, rest') /\ res_Tables r' = res_Tables r ++ [t].

Lemma chunks_skipped fs n cs cs' behind :
  xrfc_chunks fs n cs = Ok (cs', behind) -> exists sk, fs = sk ++ behind /\ Forall (fun g => f_Tag g <> TagTableName) sk.
Proof.
  revert n cs. induction fs as [|f fs IH]; intros n cs; cbn [xrfc_chunks]; [intros [= <- <-]; by exists []|].
  destruct (Z.eqb_spec (f_Tag f) TagXRfcData) as [E|]; [|intros [= <- <-]; by exists []].
  destruct (_ =? 0); [done|]. cbv zeta. destruct (_ <? _); [done|]. intros H. destruct (IH _ _ H) as (sk & -> & Hs).
  exists (f :: sk). split; [done|]. constructor; [|done]. by rewrite E.
Qed.

Lemma round_cases f rest r names rest' r' names' :
  (f_Tag f ∉ [0x0333; 0x0335]) -> result_step f rest r names = Ok (rest', r', names') ->
  plain_round f rest rest' r r' \/ table_round f rest rest' r r'.
Proof.
  intros Hn. unfold result_step. cbv zeta.
  destruct (bool_decide (f_Tag f ∈ nonApplicationTags)) eqn:Ena.
  { intros [= <- <- <-]. left. apply bool_decide_eq_true in Ena. split_and!; [|done|by exists []].
    intros E. rewrite E in Ena. by apply (bool_decide_pack _) in Ena. }
  clear Ena. destruct (Z.eqb_spec (f_Tag f) TagRequestedOutput) as [E|].
  { intros H. ok_step H as nm Hnm. injection H as <- <- <-. left. split_and!; [by rewrite E|done|by exists []]. }
  destruct (_ =? TagXRfcData); [done|]. destruct (Z.eqb_spec (f_Tag f) TagXRfcParameter) as [E|].
  { destruct (negb _); [done|]. intros H. ok_step H as q Hq. destruct q as [cs behind]. destruct (_ =? 0); [done|].
    destruct behind as [|c behind]; [done|]. destruct (Z.eqb_spec (f_Tag c) TagXRfcParameter) as [Ec|]; [|done]. cbn [negb] in H.
    destruct (negb _); [done|]. injection H as <- <- <-. destruct (chunks_skipped _ _ _ _ _ Hq) as (sk & -> & Hs).
    left. split_and!; [by rewrite E|done|]. exists (sk ++ [c]). split; [by rewrite <- app_assoc|].
    apply Forall_app. split; [done|]. apply Forall_singleton. by rewrite Ec. }
  destruct (_ =? TagParameterValue); [done|]. destruct (_ || is_row f); [done|].
  destruct (Z.eqb_spec (f_Tag f) TagParameterName) as [E|].
  { intros H. ok_step H as nm Hnm. destruct rest as [|v behind]; [done|].
    destruct (Z.eqb_spec (f_Tag v) TagParameterValue) as [Ev|]; [|done]. cbn [negb] in H. destruct (bool_decide _); [done|].
    injection H as <- <- <-. left. split_and!; [by rewrite E|done|]. exists [v]. split; [done|]. apply Forall_singleton. by rewrite Ev. }
  destruct (Z.eqb_spec (f_Tag f) TagTableName) as [E|].
  { intros H. ok_step H as nm Hnm. destruct (next_tag rest TagTableHeader) eqn:En; [|done]. cbn [negb] in H.
    destruct (bool_decide _); [done|]. ok_step H as q Hq. destruct q as [t behind]. injection H as <- <- <-.
    right. split_and!; [done|done|]. by exists nm, t. }
  destruct (bool_decide _) eqn:Em. { intros [= <- <- <-]. left. split_and!; [done|done|by exists []]. }
  rewrite !not_elem_of_cons in Hn. destruct Hn as (N1 & N2 & _).
  rewrite (proj2 (Z.eqb_neq _ _) N2), (proj2 (Z.eqb_neq _ _) N1). done.
Qed.

Lemma preflight_skip sk rest fuel b :
  Forall (fun g => f_Tag g <> TagTableName) sk -> preflight_loop fuel (sk ++ rest) b = Ok tt ->
  exists fuel', preflight_loop fuel' rest b = Ok tt.
Proof.
  intros H. revert fuel. induction H as [|f sk Hf _ IH]; intros fuel; [by exists fuel|].
  destruct fuel as [|fuel]; [done|]. cbn [app preflight_loop]. rewrite (proj2 (Z.eqb_neq _ _) Hf). apply IH.
Qed.

(** A table that the check before accepted, and its rows. *)
Lemma table_counted f rest fuel b name t behind :
  f_Tag f = TagTableName -> next_tag rest TagTableHeader = true -> Forall (fun g => zlen (f_Value g) < 2 ^ 32) rest ->
  preflight_loop fuel (f :: rest) b = Ok tt -> read_table true name rest = Ok (t, behind) ->
  exists fuel' b', preflight_loop fuel' behind b' = Ok tt /\ b' = b + rows_bytes (rt_Rows t) /\
    b' <= defaultMaxResultTableDecodedBytes /\ Forall (fun g => zlen (f_Value g) < 2 ^ 32) behind.
Proof.
  intros Ef Hh Hv Hp Ht. destruct fuel as [|fuel]; [done|]. cbn [preflight_loop] in Hp. rewrite Ef in Hp.
  change (negb (TagTableName =? TagTableName)) with false in Hp. cbv iota in Hp.
  destruct rest as [|h rows]; [done|]. cbn [next_tag] in Hh. rewrite Hh in Hp. cbn [negb] in Hp. ok_step Hp as nm Hnm.
  ok_step Hp as header Hhd. ok_step Hp as q Hq. destruct q as [[d n] bh]. cbn [read_table] in Ht. rewrite Hhd in Ht.
  cbn [mbind outcome_bind] in Ht. ok_step Ht as q' Hq'. destruct q' as [[[rws u] c] bh']. destruct (negb (n =? _)); [done|].
  destruct (_ <? d); [done|]. cbv zeta in Hp. destruct (Z.ltb_spec defaultMaxResultTableDecodedBytes (b + d)) as [|Hle]; [done|].
  apply header_ok in Hhd as (Hd & Hc & _). apply Forall_cons in Hv as [_ Hv].
  destruct (rows_counted header rows [] 0 0 false false d n bh rws u c bh' Hd Hc Hv eq_refl ltac:(unfold is_u32 in Hc; lia) Hq Hq')
    as (-> & _ & Eb). destruct (negb _) in Ht; [done|]. injection Ht as <- <-. cbn [rt_Rows].
  exists fuel, (b + d). change (rows_bytes []) with 0 in Eb. split_and!; [done|lia|lia|].
  destruct (read_rows_suffix _ _ _ _ _ _ _ _ _ _ Hq') as [pre ->]. by apply Forall_app in Hv as [_ Hv].
Qed.

Lemma loop_budget fuel2 fields r names r' :
  result_loop fuel2 fields r names = Ok r' ->
  Forall (fun f => f_Tag f ∉ [0x0333; 0x0335]) fields -> Forall (fun f => zlen (f_Value f) < 2 ^ 32) fields ->
  forall fuel1 b, preflight_loop fuel1 fields b = Ok tt -> b <= defaultMaxResultTableDecodedBytes ->
  tables_bytes (res_Tables r') <= tables_bytes (res_Tables r) + (defaultMaxResultTableDecodedBytes - b).
Proof.
  revert fields r names. induction fuel2 as [|fuel2 IH]; intros fields r names H Hn Hv fuel1 b Hp Hb; [done|].
  cbn [result_loop] in H. destruct fields as [|f rest]; [injection H as <-; lia|].
  ok_step H as q Hq. destruct q as [[rest' r1] names']. apply Forall_cons in Hn as [Hn0 Hn]. apply Forall_cons in Hv as [Hv0 Hv].
  destruct (round_cases f rest r names rest' r1 names' Hn0 Hq) as [(Ef & Et & sk & -> & Hs)|(Ef & Hh & name & t & Ht & Et)].
  - change (f :: sk ++ rest') with ((f :: sk) ++ rest') in Hp. destruct (preflight_skip (f :: sk) rest' fuel1 b ltac:(by constructor) Hp) as [fuel' Hp'].
    apply Forall_app in Hn as [_ Hn]. apply Forall_app in Hv as [_ Hv]. rewrite <- Et. eapply IH; eauto.
  - destruct (table_counted f rest fuel1 b name t rest' Ef Hh Hv Hp Ht) as (fuel' & b' & Hp' & Eb & Hle & Hv').
    assert (Forall (fun f => f_Tag f ∉ [0x0333; 0x0335]) rest') as Hn'.
    { destruct (read_table_suffix true name rest t rest' Ht) as [pre ->]. by apply Forall_app in Hn as [_ Hn]. }
    specialize (IH rest' r1 names' H Hn' Hv' fuel' b' Hp' Hle). rewrite Et, tables_bytes_snoc in IH. lia.
Qed.

Lemma value_bytes_bound fs n : value_bytes_loop fs n = Ok tt -> 0 <= n -> Forall (fun f => zlen (f_Value f) < 2 ^ 32) fs.
Proof.
  revert n. induction fs as [|f fs IH]; intros n H Hn; [constructor|]. cbn [value_bytes_loop] in H. cbv zeta in H.
  pose proof (zlen_nonneg (f_Value f)). destruct (Z.ltb_spec DefaultMaxFieldChainLength (n + zlen (f_Value f))); [done|].
  constructor; [unfold DefaultMaxFieldChainLength in *; lia|]. apply (IH _ H). lia.
Qed.

(** C34: The tables of a decoded result that uses only the classic table forms hold no more
    bytes than the budget. *)
Theorem result_within_budget fields r :
  decodeResult fields = Ok r -> Forall (fun f => f_Tag f ∉ [0x0333; 0x0335]) fields ->
  tables_bytes (res_Tables r) <= defaultMaxResultTableDecodedBytes.
Proof.
  unfold decodeResult. intros H Hn. ok_step H as u Hu. ok_step H as u2 Hu2. unfold preflightResultBytes in Hu.
  destruct (_ <? _); [done|]. destruct u, u2. pose proof (value_bytes_bound _ _ Hu ltac:(lia)) as Hv.
  pose proof (loop_budget _ _ _ _ _ H Hn Hv _ _ Hu2 ltac:(by vm_compute)) as Hb. cbn in Hb. lia.
Qed.

(** ** The S/4 tables are outside the budget *)
Definition s4_desc (id n : Z) : bytes := be_split 4 0x0a ++ be_split 4 id ++ be_split 4 n.

Lemma s4_desc_ok id n : is_u32 id -> is_u32 n ->
  s4_descriptor (s4_desc id n) = Ok (lit "S4TAB" ++ lit (pretty (Z.to_N id)), n).
Proof.
  intros Hi Hn. unfold s4_descriptor, s4_desc.
  assert (forall k v, zlen (be_split k v) = Z.of_nat k) as Hs by (intros; unfold zlen; by rewrite length_be_split).
  rewrite !zlen_app, !Hs. change (Z.of_nat 4 + (Z.of_nat 4 + Z.of_nat 4) <? 12) with false. cbv iota.
  rewrite (go_slice_mid _ _ _ 4 8) by (rewrite !Hs; lia). cbn [mbind outcome_bind].
  rewrite <- (app_nil_r (be_split 4 id)) at 1. rewrite be_uint_app by apply length_be_split. cbn [mbind outcome_bind].
  rewrite app_assoc, <- (app_nil_r (be_split 4 n)). rewrite (go_slice_mid _ _ _ 8 12) by (rewrite !zlen_app, !Hs; lia). cbn [mbind outcome_bind].
  rewrite <- (app_nil_r (be_split 4 n)) at 1. rewrite be_uint_app by apply length_be_split. cbn [mbind outcome_bind].
  by rewrite !be_round.
Qed.

Lemma native_rows_nil n w : native_rows n [] w = replicate n [].
Proof. induction n as [|n IH]; [done|]. cbn [native_rows replicate]. by rewrite take_nil, drop_nil, IH. Qed.

Lemma rows_replicated h k rows c :
  zlen rows + Z.of_nat k = RowCount h -> is_u32 (RowCount h) -> is_u32 (DeclaredRowByteLength h) ->
  1 < DeclaredRowByteLength h <= DefaultMaxFieldLength ->
  read_rows false h (replicate k (mkField TagTableCompr [x00])) rows false c
  = Ok (rows ++ replicate k (replicate (Z.to_nat (DeclaredRowByteLength h)) x00), false, bool_decide (0 < k)%nat || c, []).
Proof.
  intros Hk Hc Hd Hw. revert rows c Hk. induction k as [|k IH]; intros rows c Hk; cbn [replicate read_rows]; [by rewrite app_nil_r|].
  unfold uint32 at 1. rewrite Z.mod_small by (pose proof (zlen_nonneg rows); unfold is_u32 in Hc; lia).
  destruct (Z.ltb_spec (zlen rows) (RowCount h)); [|lia].
  assert (decodeSimpleCompressedTableRow [x00] (DeclaredRowByteLength h)
    = Ok (replicate (Z.to_nat (DeclaredRowByteLength h)) x00)) as Hr.
  { unfold decodeSimpleCompressedTableRow. cbn [last]. change (uint32 (zlen [x00])) with 1.
    destruct (Z.ltb_spec (DeclaredRowByteLength h) 1); [lia|]. destruct (Z.eqb_spec 1 (DeclaredRowByteLength h)); [lia|].
    destruct (Z.ltb_spec DefaultMaxFieldLength (DeclaredRowByteLength h)); [lia|]. rewrite go_copy_pad by (cbn [length]; lia).
    replace (Z.to_nat (DeclaredRowByteLength h)) with (S (Z.to_nat (DeclaredRowByteLength h) - 1)) at 2 by lia. done. }
  cbn [f_Value f_Tag]. change (is_row (mkField TagTableCompr [x00])) with true. change (TagTableCompr =? TagTableCompr) with true.
  cbn [andb]. rewrite Hr. cbn [mbind outcome_bind]. rewrite IH by (rewrite zlen_app; change (zlen [replicate (Z.to_nat (DeclaredRowByteLength h)) x00]) with 1; lia).
  rewrite <- app_assoc. cbn [app]. rewrite orb_true_r. by rewrite bool_decide_eq_true_2 by lia.
Qed.

Lemma rows_bytes_replicate k w : rows_bytes (replicate k (replicate w x00)) = Z.of_nat k * Z.of_nat w.
Proof.
  unfold rows_bytes. induction k as [|k IH]; [done|]. cbn [replicate map fold_right]. rewrite IH. unfold zlen. rewrite length_replicate. lia.
Qed.

Lemma preflight_none fs fuel b :
  Forall (fun f => f_Tag f <> TagTableName) fs -> (length fs < fuel)%nat -> preflight_loop fuel fs b = Ok tt.
Proof.
  intros H. revert fuel. induction H as [|f fs Hf _ IH]; intros [|fuel] Hl; [lia|done|lia|].
  cbn [preflight_loop]. rewrite (proj2 (Z.eqb_neq _ _) Hf). apply IH. cbn in Hl. lia.
Qed.

(** The fields of an S/4 table of [k] rows, one byte each, that expand to [w] bytes. *)
Definition mixed_table (k w : Z) : list Field :=
  mkField 0x0335 (s4_desc 1 k) :: mkField TagTableHeader (be_split 4 w ++ be_split 4 k)
  :: replicate (Z.to_nat k) (mkField TagTableCompr [x00]).

Lemma mixed_preflight k w : 0 <= k <= 90000 -> preflightResultBytes (mixed_table k w) = Ok tt /\ preflightTableBytes (mixed_table k w) = Ok tt.
Proof.
  intros Hk. unfold preflightResultBytes, preflightTableBytes, mixed_table. split.
  - destruct (Z.ltb_spec DefaultMaxFieldCount (zlen (mkField 0x0335 (s4_desc 1 k) :: mkField TagTableHeader (be_split 4 w ++ be_split 4 k)
      :: replicate (Z.to_nat k) (mkField TagTableCompr [x00])))) as [H|_].
    { unfold zlen in H. cbn [length] in H. rewrite length_replicate in H. unfold DefaultMaxFieldCount in H. lia. }
    cbn [value_bytes_loop f_Value]. cbv zeta. unfold s4_desc. rewrite !zlen_app. unfold zlen at 1 2 3 4 5 6 7 8 9 10. rewrite !length_be_split.
    change (DefaultMaxFieldChainLength <? 0 + (Z.of_nat 4 + (Z.of_nat 4 + Z.of_nat 4))) with false. cbv iota.
    match goal with |- context [if ?x <? ?y then _ else _] => change (x <? y) with false end. cbv iota.
    match goal with |- value_bytes_loop _ ?x = _ => change x with 20 end.
    assert (forall n b, b + Z.of_nat n <= 100000 -> value_bytes_loop (replicate n (mkField TagTableCompr [x00])) b = Ok tt) as Hg.
    { induction n as [|n IH]; intros b Hb; [done|]. cbn [replicate value_bytes_loop f_Value]. change (zlen [x00]) with 1. cbv zeta.
      destruct (Z.ltb_spec DefaultMaxFieldChainLength (b + 1)); [unfold DefaultMaxFieldChainLength in *; lia|]. apply IH. lia. }
    apply Hg. lia.
  - apply preflight_none; [|lia]. repeat apply Forall_cons_2; [done|done|]. by apply Forall_replicate.
Qed.

Lemma mixed_table_read k w : 0 <= k <= 90000 -> 1 < w <= DefaultMaxFieldLength ->
  exists t, read_table false (lit "S4TAB1")
      (mkField TagTableHeader (be_split 4 w ++ be_split 4 k) :: replicate (Z.to_nat k) (mkField TagTableCompr [x00]))
    = Ok (t, []) /\ rt_Rows t = replicate (Z.to_nat k) (replicate (Z.to_nat w) x00).
Proof.
  intros Hk Hw. assert (is_u32 k /\ is_u32 w) as [Hk32 Hw32] by (unfold is_u32, DefaultMaxFieldLength in *; lia).
  cbn [read_table f_Value]. rewrite header_encoded by done. cbn [mbind outcome_bind].
  rewrite (rows_replicated (mkRfcTableHeader w k) (Z.to_nat k) [] false);
    [|cbn [RowCount]; change (zlen (@nil bytes)) with 0; lia|done..].
  cbn [mbind outcome_bind app]. unfold zlen. rewrite length_replicate. cbn [RowCount DeclaredRowByteLength].
  unfold uint32. rewrite Z.mod_small by (unfold is_u32 in Hk32; lia).
  replace (Z.of_nat (Z.to_nat k) =? k) with true by (symmetry; apply Z.eqb_eq; lia). cbn [negb]. eexists. split; reflexivity.
Qed.

Lemma mixed_result k w : 0 <= k <= 90000 -> 1 < w <= DefaultMaxFieldLength ->
  exists t, decodeResult (mixed_table k w) = Ok (mkResult [] [] [t] []) /\ rows_bytes (rt_Rows t) = k * w.
Proof.
  intros Hk Hw. destruct (mixed_table_read k w Hk Hw) as (t & Ht & Hrows). exists t. split.
  - unfold decodeResult. destruct (mixed_preflight k w Hk) as [-> ->]. cbn [mbind outcome_bind].
    unfold mixed_table. cbn [length result_loop]. unfold result_step. cbv zeta. cbn [f_Tag f_Value].
    rewrite s4_desc_ok by (unfold is_u32; lia).
    change (lit "S4TAB" ++ lit (pretty (Z.to_N 1))) with (lit "S4TAB1").
    repeat match goal with
    | |- context [bool_decide ?P] => change (bool_decide P) with false; cbv iota
    | |- context [0x0335 =? ?x] => let b := eval vm_compute in (0x0335 =? x) in change (0x0335 =? x) with b; cbv iota
    end.
    unfold is_row at 1. cbn [f_Tag]. cbn [mbind outcome_bind].
    match goal with |- context [negb (next_tag ?l ?x)] => change (negb (next_tag l x)) with false; cbv iota end.
    rewrite Ht. cbn [mbind outcome_bind]. reflexivity.
  - by rewrite Hrows, rows_bytes_replicate, !Z2Nat.id by lia.
Qed.

Lemma native_result n : is_u32 n ->
  exists t, decodeResult [mkField 0x0333 (s4_desc 1 n); mkField 0x0334 []] = Ok (mkResult [] [] [t] []) /\
    rt_Rows t = replicate (Z.to_nat n) [].
Proof.
  intros Hn. unfold decodeResult.
  assert (zlen (s4_desc 1 n) = 12) as Hz by (unfold s4_desc, zlen; by rewrite !length_app, !length_be_split).
  unfold preflightResultBytes. cbn [value_bytes_loop f_Value]. rewrite Hz. cbn [mbind outcome_bind].
  set (d := s4_desc 1 n) in *.
  assert (s4_descriptor d = Ok (lit "S4TAB1", n)) as Hd by (subst d; rewrite s4_desc_ok; [done|by vm_compute|done]).
  assert (exists t, native_table (lit "S4TAB1") n [] = Ok t /\ rt_Rows t = replicate (Z.to_nat n) []) as (t & Ht & Hr).
  { unfold native_table. change (zlen (@nil byte)) with 0. replace (0 mod n) with 0 by (by rewrite Zmod_0_l).
    rewrite andb_false_r. eexists. split; [reflexivity|]. cbn [rt_Rows]. apply native_rows_nil. }
  exists t. split; [|done]. clearbody d.
  assert (preflightTableBytes [mkField 0x0333 d; mkField 0x0334 []] = Ok tt) as -> by reflexivity.
  change (DefaultMaxFieldCount <? zlen [mkField 0x0333 d; mkField 0x0334 []]) with false.
  change (DefaultMaxFieldChainLength <? 0 + 12) with false. cbn [mbind outcome_bind].
  cbn [length result_loop].
  assert (result_step (mkField 0x0333 d) [mkField 0x0334 []] (mkResult [] [] [] []) [] = Ok ([], mkResult [] [] [t] [], [])) as ->;
    [|done].
  change (result_step (mkField 0x0333 d) [mkField 0x0334 []] (mkResult [] [] [] []) []) with
    ('(name, count) ← s4_descriptor d; t ← native_table name count []; Ok (@nil Field, add_table (mkResult [] [] [] []) t, @nil bytes)).
  rewrite Hd. cbn [mbind outcome_bind]. by rewrite Ht.
Qed.

(** The two S/4 table forms escape the budget: a mixed table decodes to as many bytes as its
    rows hold, and an empty-row table to as many rows as its header announces, without a
    check. *)
Theorem s4_tables_escape_budget k w n :
  0 <= k <= 90000 -> 1 < w <= DefaultMaxFieldLength -> is_u32 n ->
  (exists t, decodeResult (mixed_table k w) = Ok (mkResult [] [] [t] []) /\ rows_bytes (rt_Rows t) = k * w) /\
  (exists t, decodeResult [mkField 0x0333 (s4_desc 1 n); mkField 0x0334 []] = Ok (mkResult [] [] [t] []) /\
    zlen (rt_Rows t) = n).
Proof.
  intros Hk Hw Hn. split; [by apply mixed_result|]. destruct (native_result n Hn) as (t & Ht & Hr). exists t. split; [done|].
  rewrite Hr. unfold zlen. rewrite length_replicate. unfold is_u32 in Hn. lia.
Qed.

(** ** RFC_FUNINT rows *)
(** The parts of a row: the reference the decoder is compared with. *)
Definition optional_text (b : bool) : bytes := if b then lit "X" else [].
Definition funint_texts (p : FunintParameter) : list (bytes * Z) :=
  [(ParameterClass p, 1); (ParameterName p, 30); (TableName p, 30); (FieldName p, 30); (Exid p, 1);
   (DefaultValue p, 21); (ParameterText p, 79); (optional_text (Optional p), 1)].
Definition funint_ints (p : FunintParameter) : list Z := [Position p; Offset p; InternalLength p; Decimals p].
Definition funint_parts (p : FunintParameter) : res (list bytes) :=
  ts ← mapM (fun t => EncodeAbapChar (fst t) (snd t)) (funint_texts p);
  Ok (take 5 ts ++ map (le_split 4) (funint_ints p) ++ drop 5 ts).

Definition funint_ok (p : FunintParameter) : Prop :=
  Forall (fun t => last (fst t) <> Some x20) (funint_texts p) /\ Forall is_i32 (funint_ints p).

Lemma concat_mid (segs : list bytes) k b :
  segs !! k = Some b -> concat segs = concat (take k segs) ++ b ++ concat (drop (S k) segs).
Proof. intros H. rewrite <- (take_drop_middle segs k b H) at 1. by rewrite concat_app. Qed.

Lemma text_read segs k b v off n :
  segs !! k = Some b -> EncodeAbapChar v n = Ok b -> last v <> Some x20 -> off = zlen (concat (take k segs)) ->
  funint_text (concat segs) off n = Ok v.
Proof.
  intros Hk He Hl ->. destruct (encode_char_inv v n b He) as (_ & _ & _ & Hz & _). unfold funint_text.
  rewrite (concat_mid segs k b Hk). rewrite go_slice_mid by lia. cbn [mbind outcome_bind].
  unfold DecodeAbapChar. rewrite (encoded_char_read v n b He). cbn [mbind outcome_bind].
  by rewrite trim_spaces_app, trim_spaces_last.
Qed.

Lemma int_read segs k v off :
  segs !! k = Some (le_split 4 v) -> is_i32 v -> off = zlen (concat (take k segs)) -> funint_int (concat segs) off = Ok v.
Proof.
  intros Hk Hv ->. unfold funint_int. rewrite (concat_mid segs k _ Hk).
  assert (zlen (le_split 4 v) = 4) as Hz by (unfold zlen; by rewrite length_le_split).
  rewrite go_slice_mid by lia. cbn [mbind outcome_bind]. unfold le_uint. rewrite length_le_split. cbn [Nat.ltb Nat.leb].
  rewrite take_ge by (by rewrite length_le_split). cbn [mbind outcome_bind]. rewrite le_combine_split.
  change (256 ^ Z.of_nat 4) with (2 ^ 32). fold (uint32 v). by rewrite int32_uint32.
Qed.

Lemma mapM_ok {A B} (f : A -> res B) l bs : mapM f l = Ok bs -> Forall2 (fun a b => f a = Ok b) l bs.
Proof.
  revert bs. induction l as [|a l IH]; intros bs H; cbn in H; [by injection H as <-|].
  ok_step H as b Hb. ok_step H as r Hr. apply Ok_inj in H. subst bs. constructor; [done|by apply IH].
Qed.

#[local] Ltac seg_off segs Zi :=
  unfold segs; cbn [take concat]; rewrite ?zlen_app, ?Zi; change (zlen (@nil byte)) with 0; lia.

(** A row of RFC_FUNINT is read from its first 402 bytes. *)
Theorem funint_row_read p parts w :
  funint_ok p -> funint_parts p = Ok parts ->
  zlen (concat parts) = RfcFunintUnicodeRowLength /\ DecodeFunintRow (concat parts ++ w) = Ok p.
Proof.
  intros [Ht Hi] He. unfold funint_parts in He. ok_step He as ts Hts. apply mapM_ok in Hts. apply Ok_inj in He.
  unfold funint_texts, funint_ints in *.
  inversion Hts as [|? b1 ? l1 H1 K1]; subst; clear Hts. inversion K1 as [|? b2 ? l2 H2 K2]; subst; clear K1.
  inversion K2 as [|? b3 ? l3 H3 K3]; subst; clear K2. inversion K3 as [|? b4 ? l4 H4 K4]; subst; clear K3.
  inversion K4 as [|? b5 ? l5 H5 K5]; subst; clear K4. inversion K5 as [|? b6 ? l6 H6 K6]; subst; clear K5.
  inversion K6 as [|? b7 ? l7 H7 K7]; subst; clear K6. inversion K7 as [|? b8 ? l8 H8 K8]; subst; clear K7.
  inversion K8; subst; clear K8. cbn [take drop app map fst snd] in *.
  rewrite !Forall_cons in Ht. rewrite !Forall_cons in Hi. destruct Ht as (L1 & L2 & L3 & L4 & L5 & L6 & L7 & L8 & _).
  destruct Hi as (I1 & I2 & I3 & I4 & _). cbn [fst] in *.
  set (segs := [b1; b2; b3; b4; b5; le_split 4 (Position p); le_split 4 (Offset p); le_split 4 (InternalLength p); le_split 4 (Decimals p); b6; b7; b8]).
  assert (forall v, zlen (le_split 4 v) = 4) as Zi by (intros; unfold zlen; by rewrite length_le_split).
  assert (forall v n b, EncodeAbapChar v n = Ok b -> zlen b = 2 * n) as Zt by (intros v n b H; by destruct (encode_char_inv v n b H) as (_ & _ & _ & ? & _)).
  pose proof (Zt _ _ _ H1). pose proof (Zt _ _ _ H2). pose proof (Zt _ _ _ H3). pose proof (Zt _ _ _ H4). pose proof (Zt _ _ _ H5).
  pose proof (Zt _ _ _ H6). pose proof (Zt _ _ _ H7). pose proof (Zt _ _ _ H8).
  assert (zlen (concat segs) = 402) as Hz by (unfold segs; cbn [concat]; rewrite !zlen_app, !Zi; change (zlen (@nil byte)) with 0; lia).
  split; [exact Hz|]. unfold DecodeFunintRow, RfcFunintUnicodeRowLength. rewrite zlen_app, Hz. pose proof (zlen_nonneg w).
  destruct (Z.ltb_spec (402 + zlen w) 402); [lia|].
  rewrite (go_slice_mid [] (concat segs) w) by (done || (rewrite Hz; done)). cbn [mbind outcome_bind].
  rewrite (text_read segs 0 b1 _ 0 _ eq_refl H1 L1) by seg_off segs Zi. cbn [mbind outcome_bind].
  rewrite (text_read segs 1 b2 _ 2 _ eq_refl H2 L2) by seg_off segs Zi. cbn [mbind outcome_bind].
  rewrite (text_read segs 2 b3 _ 62 _ eq_refl H3 L3) by seg_off segs Zi. cbn [mbind outcome_bind].
  rewrite (text_read segs 3 b4 _ 122 _ eq_refl H4 L4) by seg_off segs Zi. cbn [mbind outcome_bind].
  rewrite (text_read segs 4 b5 _ 182 _ eq_refl H5 L5) by seg_off segs Zi. cbn [mbind outcome_bind].
  rewrite (int_read segs 5 (Position p) 184 eq_refl I1) by seg_off segs Zi. cbn [mbind outcome_bind].
  rewrite (int_read segs 6 (Offset p) 188 eq_refl I2) by seg_off segs Zi. cbn [mbind outcome_bind].
  rewrite (int_read segs 7 (InternalLength p) 192 eq_refl I3) by seg_off segs Zi. cbn [mbind outcome_bind].
  rewrite (int_read segs 8 (Decimals p) 196 eq_refl I4) by seg_off segs Zi. cbn [mbind outcome_bind].
  rewrite (text_read segs 9 b6 _ 200 _ eq_refl H6 L6) by seg_off segs Zi. cbn [mbind outcome_bind].
  rewrite (text_read segs 10 b7 _ 242 _ eq_refl H7 L7) by seg_off segs Zi. cbn [mbind outcome_bind].
  rewrite (text_read segs 11 b8 _ 400 _ eq_refl H8 L8) by seg_off segs Zi. cbn [mbind outcome_bind].
  destruct p as [? ? ? ? ? ? ? ? ? ? ? [|]]; reflexivity.
Qed.

(** ** Fuel does not matter *)
Lemma result_loop_more fuel k fs r names :
  result_loop fuel fs r names <> Err EFuel -> result_loop (fuel + k) fs r names = result_loop fuel fs r names.
Proof.
  revert fs r names. induction fuel as [|fuel IH]; intros fs r names H; [done|]. cbn [result_loop plus] in *.
  destruct fs as [|f rest]; [done|]. destruct (result_step f rest r names) as [[[rest' r'] names']| |]; [|done..].
  cbn [mbind outcome_bind] in *. by apply IH.
Qed.

Lemma preflight_more fuel k fs b : preflight_loop fuel fs b <> Err EFuel -> preflight_loop (fuel + k) fs b = preflight_loop fuel fs b.
Proof.
  revert fs b. induction fuel as [|fuel IH]; intros fs b H; [done|]. cbn [preflight_loop plus] in *.
  destruct fs as [|f rest]; [done|]. destruct (negb _); [by apply IH|]. destruct rest as [|h rows]; [by apply IH|].
  destruct (negb _); [by apply IH|]. destruct (decodeParameterName _); [|done..]. cbn [mbind outcome_bind] in *.
  destruct (DecodeRfcTableHeader _) as [hd| |]; [|done..]. cbn [mbind outcome_bind] in *.
  destruct (preflight_rows hd rows 0 0) as [[[d n] bh]| |]; [|done..]. cbn [mbind outcome_bind] in *.
  destruct (negb _); [done|]. destruct (_ <? d); [done|]. destruct (_ <? _); [done|]. by apply IH.
Qed.

(** The loops reach a result with some fuel; then they reach it with theirs. *)
Definition result_reaches (fs : list Field) (r : Result) (names : list bytes) (x : Result) : Prop :=
  exists fuel, result_loop fuel fs r names = Ok x.
Definition preflight_passes (fs : list Field) (b : Z) : Prop := exists fuel, preflight_loop fuel fs b = Ok tt.

Lemma reaches_loop fs r names x : result_reaches fs r names x -> result_loop (S (length fs)) fs r names = Ok x.
Proof.
  intros [fuel H]. destruct (result_loop_total (S (length fs)) fs r names ltac:(lia)) as [_ Ht].
  pose proof (result_loop_more (S (length fs)) fuel fs r names Ht) as E1.
  pose proof (result_loop_more fuel (S (length fs)) fs r names) as E2. rewrite H in E2.
  rewrite <- E1, Nat.add_comm, E2; done.
Qed.

Lemma passes_loop fs : preflight_passes fs 0 -> preflightTableBytes fs = Ok tt.
Proof.
  intros [fuel H]. unfold preflightTableBytes. destruct (preflight_loop_total (S (length fs)) fs 0 ltac:(lia)) as [_ Ht].
  pose proof (preflight_more (S (length fs)) fuel fs 0 Ht) as E1.
  pose proof (preflight_more fuel (S (length fs)) fs 0) as E2. rewrite H in E2.
  rewrite <- E1, Nat.add_comm, E2; done.
Qed.

Lemma reaches_nil r names : result_reaches [] r names r.
Proof. by exists 1%nat. Qed.

Lemma reaches_step f rest r names rest' r' names' x :
  result_step f rest r names = Ok (rest', r', names') -> result_reaches rest' r' names' x -> result_reaches (f :: rest) r names x.
Proof. intros H [fuel Hf]. exists (S fuel). cbn [result_loop]. rewrite H. done. Qed.

Lemma passes_nil b : preflight_passes [] b.
Proof. by exists 1%nat. Qed.

Lemma passes_skip f rest b : f_Tag f <> TagTableName -> preflight_passes rest b -> preflight_passes (f :: rest) b.
Proof. intros H [fuel Hf]. exists (S fuel). cbn [preflight_loop]. by rewrite (proj2 (Z.eqb_neq _ _) H). Qed.

(** ** Reading a well-formed answer *)
(** A parameter name: printable ASCII, not empty, without a blank at its end. *)
Definition param_name (n : bytes) : Prop := n <> [] /\ Forall (fun b => 0x20 <= b2z b < 0x7f) n /\ last n <> Some x20.

Lemma ascii_param_name n :
  n <> [] -> forallb (fun b => in_range 0x20 0x7e (b2z b)) n = true -> last n <> Some x20 -> param_name n.
Proof.
  intros H0 H1 H2. split; [done|]. split; [|done]. apply Forall_forall. intros b Hb. rewrite forallb_forall in H1.
  specialize (H1 b (proj1 (list_elem_of_In _ _) Hb)). apply in_range_spec in H1. lia.
Qed.

Lemma param_name_read n : param_name n -> decodeParameterName (utf16leBytes n) = Ok n.
Proof.
  intros (Hne & Ha & Hl). unfold decodeParameterName, DecodeAbapChar. unfold utf16leBytes.
  destruct (ascii_runes n) as [_ Hv]; [eapply Forall_impl; [exact Ha|]; cbn; lia|].
  rewrite char_bytes_ok by (done || apply even_bytes). cbn [mbind outcome_bind]. unfold utf16leDecode.
  rewrite utf16le_roundtrip, trim_spaces_last by done.
  assert ((zlen n =? 0) = false) as -> by (apply Z.eqb_neq; destruct n; [done|len_lia]). cbn [orb].
  assert (existsb is_control n = false) as ->; [|done].
  clear -Ha. induction Ha as [|b n Hb _ IH]; [done|]. cbn [existsb]. rewrite IH, orb_false_r. unfold is_control.
  rewrite orb_false_iff. split; [apply in_range_false; lia|apply Z.eqb_neq; lia].
Qed.

(** The rows of a table that are as wide as declared. *)
Lemma preflight_rows_exact h rows rest b n :
  is_u32 (DeclaredRowByteLength h) -> Forall (fun r => zlen r = DeclaredRowByteLength h) rows ->
  (rows = [] \/ 0 < DeclaredRowByteLength h) -> n + zlen rows = RowCount h ->
  preflight_rows h (map (mkField TagTableCompr) rows ++ rest) b n = Ok (b + rows_bytes rows, RowCount h, rest).
Proof.
  intros Hd Hr. revert b n. induction Hr as [|row rows Hrow Hrows IH]; intros b n Hw Hn; cbn [map app].
  - change (zlen (@nil bytes)) with 0 in Hn. change (rows_bytes []) with 0.
    destruct rest as [|f rest]; cbn [preflight_rows]; [do 3 f_equal; lia|].
    destruct (Z.ltb_spec n (RowCount h)); [lia|]. cbn [andb]. do 3 f_equal; lia.
  - destruct Hw as [|Hw]; [done|]. cbn [preflight_rows f_Value f_Tag].
    assert (zlen (row :: rows) = 1 + zlen rows) as Hz by len_lia. pose proof (zlen_nonneg rows).
    destruct (Z.ltb_spec n (RowCount h)); [|lia]. change (is_row (mkField TagTableCompr row)) with true.
    change (TagTableCompr =? TagTableCompr) with true. cbn [andb]. rewrite Hrow.
    assert (uint32 (DeclaredRowByteLength h) = DeclaredRowByteLength h) as -> by by apply Z.mod_small.
    destruct (Z.eqb_spec (DeclaredRowByteLength h) 0); [lia|]. rewrite Z.ltb_irrefl. cbn [andb].
    rewrite IH by (try (by right); lia).
    replace (rows_bytes (row :: rows)) with (zlen row + rows_bytes rows) by done. do 3 f_equal. lia.
Qed.

Lemma read_rows_exact h rows rest acc u c :
  is_u32 (DeclaredRowByteLength h) -> is_u32 (RowCount h) -> Forall (fun r => zlen r = DeclaredRowByteLength h) rows ->
  (rows = [] \/ 0 < DeclaredRowByteLength h) -> zlen acc + zlen rows = RowCount h ->
  read_rows true h (map (mkField TagTableCompr) rows ++ rest) acc u c
  = Ok (acc ++ rows, u, match rows with [] => c | _ => true end, rest).
Proof.
  intros Hd Hc Hr. revert acc c. induction Hr as [|row rows Hrow Hrows IH]; intros acc c Hw Hn; cbn [map app].
  - rewrite app_nil_r. change (zlen (@nil bytes)) with 0 in Hn. rewrite Z.add_0_r in Hn.
    destruct rest as [|f rest]; cbn [read_rows]; [done|]. rewrite Hn.
    unfold uint32. rewrite Z.mod_small by done. by rewrite Z.ltb_irrefl.
  - destruct Hw as [|Hw]; [done|]. cbn [read_rows f_Value f_Tag].
    assert (zlen (row :: rows) = 1 + zlen rows) as Hz by len_lia. pose proof (zlen_nonneg rows). pose proof (zlen_nonneg acc).
    assert (uint32 (zlen acc) = zlen acc) as -> by (apply Z.mod_small; unfold is_u32 in Hc; lia).
    destruct (Z.ltb_spec (zlen acc) (RowCount h)); [|lia]. change (is_row (mkField TagTableCompr row)) with true.
    change (TagTableCompr =? TagTableCompr) with true. cbn [andb].
    assert (decodeSimpleCompressedTableRow row (DeclaredRowByteLength h) = Ok row) as ->.
    { unfold decodeSimpleCompressedTableRow. assert (row <> []) as Hne by (intros ->; change (zlen (@nil byte)) with 0 in Hrow; lia).
      destruct (last row) as [l|] eqn:El; [|by apply last_None in El]. rewrite Hrow.
      assert (uint32 (DeclaredRowByteLength h) = DeclaredRowByteLength h) as -> by by apply Z.mod_small.
      by rewrite Z.ltb_irrefl, Z.eqb_refl. }
    cbn [mbind outcome_bind]. rewrite IH by (try (by right); rewrite zlen_app; change (zlen [row]) with 1; lia).
    rewrite <- app_assoc. by destruct rows.
Qed.

(** ** Instances *)
Lemma abap_char_roundtrip_witness :
  exists b, EncodeAbapChar [xc3; x84; x42] 4 = Ok b /\ zlen b = 8 /\ DecodeAbapChar b (Some 4) = Ok [xc3; x84; x42].
Proof.
  destruct (EncodeAbapChar [xc3; x84; x42] 4) as [b| |] eqn:E; [|vm_compute in E; discriminate..].
  destruct (abap_char_roundtrip [xc3; x84; x42] 4 b E) as (H1 & _ & H2 & _).
  exists b. split; [reflexivity|]. split; [exact H1|]. apply H2. discriminate.
Defined.

(** A table of two rows, the second sent as one byte and a fill. *)
Definition classic_table : list Field :=
  [mkField TagTableName (utf16leEncode (lit "T")); mkField TagTableHeader (be_split 4 3 ++ be_split 4 2);
   mkField TagTableContent [x01; x02; x03]; mkField TagTableCompr [x20]; mkField TagEnd []].

Lemma result_within_budget_witness :
  exists r, decodeResult classic_table = Ok r /\ map rt_Rows (res_Tables r) = [[[x01; x02; x03]; [x20; x20; x20]]] /\
    tables_bytes (res_Tables r) <= defaultMaxResultTableDecodedBytes.
Proof.
  destruct (decodeResult classic_table) as [r| |] eqn:E; [|vm_compute in E; discriminate..].
  exists r. split; [reflexivity|]. split; [vm_compute in E; injection E as <-; reflexivity|].
  apply (result_within_budget classic_table r E). repeat apply Forall_cons_2; try apply Forall_nil_2;
    apply (bool_decide_unpack _); vm_compute; reflexivity.
Defined.

(** Ten rows of one byte each decode to ten times the budget. *)
Lemma s4_tables_escape_budget_witness :
  exists t, decodeResult (mixed_table 10 DefaultMaxFieldLength) = Ok (mkResult [] [] [t] []) /\
    rows_bytes (rt_Rows t) = 10 * defaultMaxResultTableDecodedBytes.
Proof.
  destruct (s4_tables_escape_budget 10 DefaultMaxFieldLength 0 ltac:(lia) ltac:(unfold DefaultMaxFieldLength; lia)
    ltac:(unfold is_u32; lia)) as [(t & H1 & H2) _].
  exists t. split; [exact H1|exact H2].
Defined.

Definition sample_parameter : FunintParameter :=
  mkFunintParameter (lit "I") (lit "REQUTEXT") (lit "SYST") (lit "LISEL") (lit "C") 1 0 510 0 [] (lit "Text") true.

Lemma funint_row_read_witness :
  exists parts, funint_parts sample_parameter = Ok parts /\
    DecodeFunintRow (concat parts ++ [x01; x02]) = Ok sample_parameter.
Proof.
  destruct (funint_parts sample_parameter) as [parts| |] eqn:E; [|vm_compute in E; discriminate..].
  exists parts. split; [reflexivity|]. apply (funint_row_read sample_parameter parts [x01; x02]); [|exact E].
  split; repeat apply Forall_cons_2; try apply Forall_nil_2; first [discriminate|unfold is_i32; cbn; lia].
Defined.
