(* ===== verification/Structure.v ===== *)
(** Package [structure], internal/structure/structure.go, with the types of
    internal/rfctypes/rfctypes.go: fixed-layout classic Unicode structures.

    A Go [map[string]any] is a [gmap] from names to dynamic values, an [any] the type below:
    the dynamic types the package distinguishes, and [VOther] for all the rest.  A [float64]
    is its bit pattern.  The order in which Go ranges over a map is not defined; the one loop
    that does so ends with the same error whatever the order.

    The theorems: what [Encode] writes [Decode] reads back field by field, in the normal form
    of the field's type; neither panics on a definition whose field ends fit in 32 bits; and
    the definition check lets other definitions through, on which both panic. *)
From stdpp Require Import base list numbers strings gmap.
From Stdlib Require Import ZArith Lia Strings.Byte.
From S2P Require Import Prelude Errors Text PackedDecimal ClassicTemporal DecimalFloat UnicodeScalar Rfcerr Cpic ClassicRfc.

Open Scope Z_scope.


Definition errStructure : error := EStructure ErrStructure.

Definition maxClassicStructureFields : Z := 100000.
Definition maxClassicStructureByteLength : Z := DefaultMaxFieldLength.

Record RfcStructureField : Type := mkSField {
  TableName : bytes; FieldName : bytes; Position : Z; Offset : Z;
  InternalLength : Z; Decimals : Z; Exid : bytes }.

Record RfcStructureDefinition : Type := mkSDef {
  Name : bytes; ByteLength : Z; Fields : list RfcStructureField }.

(** ** Dynamic values *)
Inductive int_kind : Type := KInt | KInt8 | KInt16 | KInt32 | KInt64 | KUint8 | KUint16 | KUint32.

Inductive any : Type :=
| VString (s : bytes)
| VBytes (b : bytes)
| VFloat64 (bits : Z)
| VInt (k : int_kind) (n : Z)
| VOther.

(** ** The definition *)

(** [field.Offset + field.InternalLength], an [int32] *)
Definition field_end (f : RfcStructureField) : Z := int32 (Offset f + InternalLength f).

Fixpoint snapshot_fields (def : RfcStructureDefinition) (fields : list RfcStructureField) (index : Z)
    (names : gset bytes) (previousEnd : Z) : res (list RfcStructureField) :=
  match fields with
  | [] => Ok []
  | field :: rest =>
      if negb (bytes_eqb (TableName field) (Name def)) || bytes_eqb (FieldName field) [] ||
         bool_decide (FieldName field ∈ names) || negb (Position field =? int32 (index + 1)) ||
         (Offset field <? previousEnd) || (InternalLength field <? 0) || (Decimals field <? 0)
      then Err errStructure
      else
        let end_ := field_end field in
        if ByteLength def <? end_ then Err errStructure
        else
          fields ← snapshot_fields def rest (index + 1) ({[FieldName field]} ∪ names) end_;
          Ok (field :: fields)
  end.

Definition SnapshotDefinition (def : RfcStructureDefinition) (requestedName : bytes) : res RfcStructureDefinition :=
  let expectedName := match requestedName with [] => Name def | _ => requestedName end in
  if bytes_eqb (Name def) [] || negb (bytes_eqb (Name def) expectedName) then Err errStructure
  else if ByteLength def <? 0 then Err errStructure
  else if maxClassicStructureByteLength <? ByteLength def then Err errStructure
  else if maxClassicStructureFields <? zlen (Fields def) then Err errStructure
  else
    fields ← snapshot_fields def (Fields def) 0 ∅ 0;
    Ok (mkSDef (Name def) (ByteLength def) fields).

(** ** The type of a field *)

(** The cases of the [switch field.Exid] the package repeats, after the test for a compact
    temporal type. *)
Inductive exid_case : Type :=
| XTemporal | XChar | XNum | XDate | XTime | XRaw | XFloat | XInt4 | XInt2 | XInt1 | XInt8 | XPacked
| XDecf16 | XDecf34 | XString | XXString | XUnknown.

Definition exid_table : list (bytes * exid_case) :=
  [(lit "C", XChar); (lit "N", XNum); (lit "D", XDate); (lit "T", XTime); (lit "X", XRaw); (lit "F", XFloat);
   (lit "I", XInt4); (lit "s", XInt2); (lit "b", XInt1); (lit "8", XInt8); (lit "P", XPacked);
   (lit "a", XDecf16); (lit "e", XDecf34); (lit "g", XString); (lit "y", XXString)].

Definition exid_of (exid : bytes) : exid_case :=
  if IsClassicTemporalExid exid then XTemporal
  else match list_find (fun p => p.1 = exid) exid_table with Some (_, (_, c)) => c | None => XUnknown end.

Definition characterLength (field : RfcStructureField) : res Z :=
  if negb (Z.land (InternalLength field) 1 =? 0) then Err errStructure else Ok (Z.quot (InternalLength field) 2).

Definition exactLen (field : RfcStructureField) (n : Z) : res unit :=
  guard (negb (InternalLength field =? n)) errStructure.

(** A call whose error the code ignores leaves the zero value. *)
Definition or_zero (r : res Z) : res Z := match r with Err _ => Ok 0 | _ => r end.

Definition assertFieldCodec (field : RfcStructureField) : res unit :=
  match exid_of (Exid field) with
  | XTemporal => bl ← or_zero (ClassicTemporalByteLength (Exid field)); exactLen field bl
  | XChar | XNum => characterLength field;; Ok tt
  | XDate => exactLen field 16
  | XTime => exactLen field 12
  | XRaw => Ok tt
  | XFloat => exactLen field 8
  | XInt4 => exactLen field 4
  | XInt2 => exactLen field 2
  | XInt1 => exactLen field 1
  | XInt8 => exactLen field 8
  | XPacked => EncodePackedDecimal (lit "0") (InternalLength field) (Decimals field);; Ok tt
  | XDecf16 => exactLen field 8
  | XDecf34 => exactLen field 16
  | XString => exactLen field 8
  | XXString => exactLen field 8
  | XUnknown => Err errStructure
  end.

Fixpoint assert_fields (fields : list RfcStructureField) : res unit :=
  match fields with
  | [] => Ok tt
  | field :: rest => assertFieldCodec field;; assert_fields rest
  end.

Definition ValidateCodec (def : RfcStructureDefinition) (requestedName : bytes) : res RfcStructureDefinition :=
  normalized ← SnapshotDefinition def requestedName;
  assert_fields (Fields normalized);;
  Ok normalized.

Definition is_dynamic (f : RfcStructureField) : bool := bytes_eqb (Exid f) (lit "g") || bytes_eqb (Exid f) (lit "y").

Definition HasDynamicFields (def : RfcStructureDefinition) : res bool :=
  normalized ← ValidateCodec def [];
  Ok (existsb is_dynamic (Fields normalized)).

Definition assertFixed (def : RfcStructureDefinition) : res unit :=
  dynamic ← HasDynamicFields def; guard dynamic errStructure.

(** ** Values *)
Definition asInt (v : any) : option Z := match v with VInt _ n => Some n | _ => None end.

Definition requireInt (v : any) (min max : Z) : res Z :=
  match asInt v with
  | Some n => if (n <? min) || (max <? n) then Err errStructure else Ok n
  | None => Err errStructure
  end.

Definition utf16le (s : bytes) : bytes := units_bytes (utf16_encode (runes s)).

(** [!math.IsInf(f, 0) && !math.IsNaN(f)]: the exponent field is not all ones. *)
Definition is_finite (bits : Z) : bool := negb (Z.land (Z.shiftr bits 52) 0x7ff =? 0x7ff).

Definition numericDigits (s : bytes) : bool := forallb is_digit s.

Definition as_string (v : any) : res bytes := match v with VString s => Ok s | _ => Err errStructure end.

Definition initialValue (field : RfcStructureField) : res any :=
  match exid_of (Exid field) with
  | XTemporal => s ← ClassicTemporalInitialValue (Exid field); Ok (VString s)
  | XChar => Ok (VString [])
  | XNum => chars ← characterLength field; Ok (VString (replicate (Z.to_nat chars) x30))
  | XDate => Ok (VString (lit "00000000"))
  | XTime => Ok (VString (lit "000000"))
  | XRaw => Ok (VBytes [])
  | XFloat => Ok (VFloat64 0)
  | XInt4 | XInt2 | XInt1 => Ok (VInt KInt 0)
  | XInt8 => Ok (VInt KInt64 0)
  | XPacked => Ok (VString (lit "0"))
  | XDecf16 | XDecf34 => Ok (VString (lit "0"))
  | XString | XXString | XUnknown => Err errStructure
  end.

(** [copy(target[offset:], src)] *)
Definition copy_at (target : bytes) (offset : Z) (src : bytes) : res bytes :=
  go_from target offset;; Ok (go_copy target offset src).

(** [binary.LittleEndian.PutUint<n>(target[offset:], v)] *)
Definition put_le (n : nat) (target : bytes) (offset v : Z) : res bytes :=
  rest ← go_from target offset;
  if (length rest <? n)%nat then Panic else Ok (go_copy target offset (le_split n v)).

Definition writeValue (target : bytes) (field : RfcStructureField) (v : any) : res bytes :=
  let offset := Offset field in
  match exid_of (Exid field) with
  | XTemporal => s ← as_string v; enc ← EncodeClassicTemporal (Exid field) s; copy_at target offset enc
  | XChar =>
      s ← as_string v; chars ← characterLength field; enc ← EncodeAbapChar s chars; copy_at target offset enc
  | XNum =>
      chars ← characterLength field;
      s ← as_string v;
      if negb (numericDigits s) || (chars <? zlen s) then Err errStructure
      else enc ← EncodeAbapChar (replicate (Z.to_nat (chars - zlen s)) x30 ++ s) chars; copy_at target offset enc
  | XDate => s ← as_string v; wire ← ClassicDateWireText s; copy_at target offset (utf16le wire)
  | XTime => s ← as_string v; wire ← ClassicTimeWireText s; copy_at target offset (utf16le wire)
  | XRaw =>
      match v with
      | VBytes b => if InternalLength field <? zlen b then Err errStructure else copy_at target offset b
      | _ => Err errStructure
      end
  | XFloat =>
      match v with
      | VFloat64 bits => if is_finite bits then put_le 8 target offset bits else Err errStructure
      | _ => Err errStructure
      end
  | XInt4 => n ← requireInt v (- 2 ^ 31) (2 ^ 31 - 1); put_le 4 target offset (uint32 (int32 n))
  | XInt2 => n ← requireInt v (- 2 ^ 15) (2 ^ 15 - 1); put_le 2 target offset (uint16 (int16 n))
  | XInt1 =>
      n ← requireInt v 0 0xff;
      go_index target offset;; Ok (<[Z.to_nat offset := z2b n]> target)
  | XInt8 => n ← requireInt v (- 2 ^ 63) (2 ^ 63 - 1); put_le 8 target offset (uint64 n)
  | XPacked =>
      s ← as_string v; enc ← EncodePackedDecimal s (InternalLength field) (Decimals field); copy_at target offset enc
  | XDecf16 => s ← as_string v; enc ← EncodeDecimalFloat16 s; copy_at target offset enc
  | XDecf34 => s ← as_string v; enc ← EncodeDecimalFloat34 s; copy_at target offset enc
  | XString | XXString | XUnknown => Err errStructure
  end.

(** The switch of [readValue] on the segment of the field. *)
Definition read_segment (field : RfcStructureField) (seg : bytes) : res any :=
  match exid_of (Exid field) with
  | XTemporal => s ← DecodeClassicTemporal (Exid field) seg; Ok (VString s)
  | XChar | XNum => chars ← characterLength field; s ← DecodeAbapChar seg (Some chars); Ok (VString s)
  | XDate =>
      chars ← or_zero (characterLength field);
      decoded ← DecodeAbapFixedChar seg chars; s ← ClassicDatePublicText decoded; Ok (VString s)
  | XTime =>
      chars ← or_zero (characterLength field);
      decoded ← DecodeAbapFixedChar seg chars; s ← ClassicTimePublicText decoded; Ok (VString s)
  | XRaw => Ok (VBytes seg)
  | XFloat => bits ← le_uint 8 seg; if is_finite bits then Ok (VFloat64 bits) else Err errStructure
  | XInt4 => n ← le_uint 4 seg; Ok (VInt KInt32 (int32 n))
  | XInt2 => n ← le_uint 2 seg; Ok (VInt KInt16 (int16 n))
  | XInt1 => b ← go_index seg 0; Ok (VInt KUint8 (b2z b))
  | XInt8 => n ← le_uint 8 seg; Ok (VInt KInt64 (int64 n))
  | XPacked => s ← DecodePackedDecimal seg (Decimals field); Ok (VString s)
  | XDecf16 => s ← DecodeDecimalFloat16 seg; Ok (VString s)
  | XDecf34 => s ← DecodeDecimalFloat34 seg; Ok (VString s)
  | XString | XXString | XUnknown => Err errStructure
  end.

Definition readValue (source : bytes) (field : RfcStructureField) : res any :=
  seg ← go_slice source (Offset field) (field_end field); read_segment field seg.

(** ** The codec *)

(** The alignment tail of a CHAR or NUMC field, up to the next field or the end of the row. *)
Definition pad_tail (result : bytes) (field : RfcStructureField) (nextOffset : Z) : res bytes :=
  if bytes_eqb (Exid field) (lit "C") || bytes_eqb (Exid field) (lit "N") then
    let fieldEnd := field_end field in
    let paddingLength := nextOffset - fieldEnd in
    if negb (Z.land paddingLength 1 =? 0) then Err errStructure
    else if 0 <? paddingLength then
      let fill := if bytes_eqb (Exid field) (lit "N") then x30 else x20 in
      copy_at result fieldEnd (utf16le (replicate (Z.to_nat (Z.quot paddingLength 2)) fill))
    else Ok result
  else Ok result.

Fixpoint encode_fields (byteLength : Z) (input : gmap bytes any) (fields : list RfcStructureField) (result : bytes) : res bytes :=
  match fields with
  | [] => Ok result
  | field :: rest =>
      v ← match input !! FieldName field with Some v => Ok v | None => initialValue field end;
      result ← writeValue result field v;
      result ← pad_tail result field (match rest with next :: _ => Offset next | [] => byteLength end);
      encode_fields byteLength input rest result
  end.

Definition unknown_field (fields : gset bytes) (input : gmap bytes any) : bool :=
  existsb (fun p => negb (bool_decide (p.1 ∈ fields))) (map_to_list input).

Definition Encode (def : RfcStructureDefinition) (input : gmap bytes any) : res bytes :=
  normalized ← ValidateCodec def [];
  assertFixed normalized;;
  let fields := list_to_set (map FieldName (Fields normalized)) in
  if unknown_field fields input then Err errStructure
  else encode_fields (ByteLength normalized) input (Fields normalized) (zeros (ByteLength normalized)).

Fixpoint decode_fields (source : bytes) (fields : list RfcStructureField) (result : gmap bytes any) : res (gmap bytes any) :=
  match fields with
  | [] => Ok result
  | field :: rest =>
      v ← readValue source field;
      decode_fields source rest (<[FieldName field := v]> result)
  end.

Definition Decode (def : RfcStructureDefinition) (value_ : bytes) : res (gmap bytes any) :=
  normalized ← ValidateCodec def [];
  assertFixed normalized;;
  if negb (zlen value_ =? ByteLength normalized) then Err errStructure
  else decode_fields value_ (Fields normalized) ∅.

(** ** What an accepted definition is *)

(** The fields of a row of [bl] bytes from [prev] on: in order, disjoint and inside the row. *)
Fixpoint layout (bl prev : Z) (fields : list RfcStructureField) : Prop :=
  match fields with
  | [] => prev <= bl
  | f :: rest => prev <= Offset f /\ 0 <= InternalLength f /\ Offset f + InternalLength f <= bl /\
                 layout bl (Offset f + InternalLength f) rest
  end.

(** The end of every field fits in an [int32]. *)
Definition ends_fit (def : RfcStructureDefinition) : Prop :=
  Forall (fun f => Offset f + InternalLength f < 2 ^ 31) (Fields def).

#[global] Instance ends_fit_dec def : Decision (ends_fit def).
Proof. unfold ends_fit. apply _. Defined.

Lemma field_end_ok f : 0 <= Offset f -> 0 <= InternalLength f -> Offset f + InternalLength f < 2 ^ 31 ->
  field_end f = Offset f + InternalLength f.
Proof. intros. apply int32_small. unfold is_i32. lia. Qed.

(** What is checked of the fields: the layout, distinct names, and that they are returned. *)
Lemma snapshot_fields_inv def fields i names prev out :
  Forall (fun f => Offset f + InternalLength f < 2 ^ 31) fields -> 0 <= prev <= ByteLength def ->
  snapshot_fields def fields i names prev = Ok out ->
  out = fields /\ layout (ByteLength def) prev fields /\ NoDup (map FieldName fields) /\
  Forall (fun f => FieldName f ∉ names) fields.
Proof.
  intros Hfit. revert i names prev out. induction Hfit as [|f rest Hf _ IH]; intros i names prev out Hp H; cbn [snapshot_fields] in H.
  { apply Ok_inj in H. subst out. split; [done|]. split; [cbn [layout]; lia|]. by split; constructor. }
  match type of H with (if ?c then _ else _) = _ => destruct c eqn:E; [done|] end.
  apply orb_false_iff in E as [E _]. apply orb_false_iff in E as [E El%Z.ltb_ge]. apply orb_false_iff in E as [E Eo%Z.ltb_ge].
  apply orb_false_iff in E as [E _]. apply orb_false_iff in E as [_ En%bool_decide_eq_false].
  cbv zeta in H. rewrite field_end_ok in H by lia. destruct (Z.ltb_spec (ByteLength def) (Offset f + InternalLength f)); [done|].
  ok_step H as out' Ho. apply Ok_inj in H. subst out.
  destruct (IH _ _ (Offset f + InternalLength f) _ ltac:(lia) Ho) as (-> & Hl & Hnd & Hn). split; [done|]. split; [cbn [layout]; split_and!; [lia|lia|lia|done]|].
  rewrite Forall_forall in Hn. split.
  - cbn [map]. apply NoDup_cons. split; [|done]. intros (g & Eg & Hg)%list_elem_of_fmap. apply (Hn g Hg). rewrite <- Eg.
    apply elem_of_union. left. by apply elem_of_singleton.
  - apply Forall_cons. split; [done|]. apply Forall_forall. intros g Hg Hin. apply (Hn g Hg). apply elem_of_union. by right.
Qed.

Lemma assert_fields_inv fields : assert_fields fields = Ok tt -> Forall (fun f => assertFieldCodec f = Ok tt) fields.
Proof.
  induction fields as [|f rest IH]; [by constructor|]. cbn [assert_fields]. intros H. ok_step H as u Hu. destruct u.
  constructor; [done|by apply IH].
Qed.

(** A definition the codec accepts, whose field ends fit. *)
Record accepted (def : RfcStructureDefinition) : Prop := {
  acc_length : 0 <= ByteLength def <= maxClassicStructureByteLength;
  acc_layout : layout (ByteLength def) 0 (Fields def);
  acc_names : NoDup (map FieldName (Fields def));
  acc_codecs : Forall (fun f => assertFieldCodec f = Ok tt) (Fields def) }.

Lemma validate_accepted def name def' : ends_fit def -> ValidateCodec def name = Ok def' -> def' = def /\ accepted def.
Proof.
  unfold ValidateCodec, SnapshotDefinition. intros Hfit H. ok_step H as d Hd. cbv zeta in Hd.
  match type of Hd with (if ?c then _ else _) = _ => destruct c; [done|] end.
  destruct (Z.ltb_spec (ByteLength def) 0); [done|]. destruct (Z.ltb_spec maxClassicStructureByteLength (ByteLength def)); [done|].
  destruct (_ <? zlen (Fields def)); [done|]. ok_step Hd as fs Hfs. apply Ok_inj in Hd. subst d.
  destruct (snapshot_fields_inv def (Fields def) 0 ∅ 0 fs Hfit ltac:(lia) Hfs) as (-> & Hl & Hn & _). ok_step H as u Hu. destruct u. apply Ok_inj in H.
  split; [subst def'; by destruct def|]. split; [lia|done|done|by apply assert_fields_inv].
Qed.

(** The types the fixed codec reads and writes. *)
Definition fixed_type (f : RfcStructureField) : Prop :=
  match exid_of (Exid f) with XString | XXString | XUnknown => False | _ => True end.

Lemma exid_dynamic f : is_dynamic f = false -> assertFieldCodec f = Ok tt -> fixed_type f.
Proof.
  unfold is_dynamic, assertFieldCodec, fixed_type. intros [Hg Hy]%orb_false_iff Ha.
  destruct (exid_of (Exid f)) eqn:E; try done; unfold exid_of in E; destruct (IsClassicTemporalExid _); try done.
  all: destruct (list_find _ _) as [[i [e c]]|] eqn:Ef; [|done]; apply list_find_Some in Ef as (Hi & He & _); cbn in He; subst e c;
    do 15 (destruct i as [|i]; [first [by injection Hi as Hi; rewrite <- Hi in *|done]|cbn [lookup list_lookup exid_table] in Hi]); done.
Qed.

Lemma fixed_fields def : ends_fit def -> ValidateCodec def [] = Ok def -> assertFixed def = Ok tt -> Forall fixed_type (Fields def).
Proof.
  intros Hfit Hv. unfold assertFixed, HasDynamicFields, guard. rewrite Hv, !ok_bind. intros H.
  destruct (existsb is_dynamic (Fields def)) eqn:E; [done|]. destruct (validate_accepted _ _ _ Hfit Hv) as [_ Ha].
  apply Forall_forall. intros f Hf. apply exid_dynamic; [|by apply (proj1 (Forall_forall _ _) (acc_codecs _ Ha))].
  destruct (is_dynamic f) eqn:Ed; [|done]. exfalso. assert (existsb is_dynamic (Fields def) = true) as Ht; [|congruence].
  apply existsb_exists. exists f. split; [by apply list_elem_of_In|done].
Qed.

(** ** One field: its bytes, without their place *)
Definition field_bytes (f : RfcStructureField) (v : any) : res bytes :=
  match exid_of (Exid f) with
  | XTemporal => s ← as_string v; EncodeClassicTemporal (Exid f) s
  | XChar => s ← as_string v; chars ← characterLength f; EncodeAbapChar s chars
  | XNum =>
      chars ← characterLength f;
      s ← as_string v;
      if negb (numericDigits s) || (chars <? zlen s) then Err errStructure
      else EncodeAbapChar (replicate (Z.to_nat (chars - zlen s)) x30 ++ s) chars
  | XDate => s ← as_string v; wire ← ClassicDateWireText s; Ok (utf16le wire)
  | XTime => s ← as_string v; wire ← ClassicTimeWireText s; Ok (utf16le wire)
  | XRaw =>
      match v with
      | VBytes b => if InternalLength f <? zlen b then Err errStructure else Ok b
      | _ => Err errStructure
      end
  | XFloat =>
      match v with
      | VFloat64 bits => if is_finite bits then Ok (le_split 8 bits) else Err errStructure
      | _ => Err errStructure
      end
  | XInt4 => n ← requireInt v (- 2 ^ 31) (2 ^ 31 - 1); Ok (le_split 4 (uint32 (int32 n)))
  | XInt2 => n ← requireInt v (- 2 ^ 15) (2 ^ 15 - 1); Ok (le_split 2 (uint16 (int16 n)))
  | XInt1 => n ← requireInt v 0 0xff; Ok [z2b n]
  | XInt8 => n ← requireInt v (- 2 ^ 63) (2 ^ 63 - 1); Ok (le_split 8 (uint64 n))
  | XPacked => s ← as_string v; EncodePackedDecimal s (InternalLength f) (Decimals f)
  | XDecf16 => s ← as_string v; EncodeDecimalFloat16 s
  | XDecf34 => s ← as_string v; EncodeDecimalFloat34 s
  | XString | XXString | XUnknown => Err errStructure
  end.

Lemma bind_assoc {A B C} (m : res A) (k : A -> res B) (g : B -> res C) : (m ≫= k) ≫= g = m ≫= fun a => k a ≫= g.
Proof. by destruct m. Qed.

Lemma go_copy_index target i b : 0 <= i < zlen target -> <[Z.to_nat i := b]> target = go_copy target i [b].
Proof.
  intros Hi. unfold zlen in Hi. unfold go_copy. rewrite insert_take_drop by lia. f_equal.
  destruct (length target - Z.to_nat i)%nat as [|room] eqn:E; [lia|]. cbn [length].
  replace (Z.to_nat i + Nat.min (S room) 1)%nat with (S (Z.to_nat i)) by lia. by destruct room.
Qed.

Lemma exact_len_inv f n : exactLen f n = Ok tt -> InternalLength f = n.
Proof. unfold exactLen, guard. destruct (Z.eqb_spec (InternalLength f) n); done. Qed.

(** Writing a field is copying its bytes to its place. *)
Lemma write_bytes target f v :
  assertFieldCodec f = Ok tt -> 0 <= Offset f -> 0 <= InternalLength f -> Offset f + InternalLength f <= zlen target ->
  writeValue target f v = enc ← field_bytes f v; Ok (go_copy target (Offset f) enc).
Proof.
  intros Ha Ho Hl Ht. assert (go_from (E := error) target (Offset f) = Ok (drop (Z.to_nat (Offset f)) target)) as Hf.
  { unfold go_from. rewrite go_slice_ok by lia. f_equal. apply take_ge. len_lia. }
  assert (forall enc, copy_at target (Offset f) enc = Ok (go_copy target (Offset f) enc)) as Hc by (intros; unfold copy_at; by rewrite Hf).
  assert (forall n x, Z.of_nat n = InternalLength f -> put_le n target (Offset f) x = Ok (go_copy target (Offset f) (le_split n x))) as Hp.
  { intros n x Hn. unfold put_le. rewrite Hf, ok_bind, length_drop. unfold zlen in Ht.
    by destruct (Nat.ltb_spec (length target - Z.to_nat (Offset f)) n); [lia|]. }
  unfold writeValue, field_bytes, assertFieldCodec in *.
  destruct (exid_of (Exid f)); try apply exact_len_inv in Ha; rewrite ?bind_assoc; try reflexivity.
  all: try (destruct (as_string v); [rewrite !ok_bind, ?bind_assoc|reflexivity|reflexivity]).
  all: try (match goal with |- ?m ≫= _ = ?m ≫= _ => destruct m; [rewrite !ok_bind, ?bind_assoc|reflexivity|reflexivity] end).
  all: try (apply Hc || (apply Hp; lia)).
  - match goal with |- ?m ≫= _ = ?m ≫= _ => destruct m; [rewrite !ok_bind; apply Hc|reflexivity|reflexivity] end.
  - destruct (as_string v); [rewrite !ok_bind|reflexivity|reflexivity]. destruct (negb _ || _); [done|].
    destruct (EncodeAbapChar _ _); [rewrite !ok_bind; apply Hc|reflexivity|reflexivity].
  - destruct v; try reflexivity. destruct (_ <? _); [done|apply Hc].
  - destruct v; try reflexivity. destruct (is_finite _); [apply Hp; lia|done].
  - destruct (go_index_ok (E := error) target (Offset f)) as [x ->]; [lia|]. rewrite !ok_bind. f_equal. apply go_copy_index. lia.
Qed.

(** ** One field: what comes back *)

(** The text [t] a decimal float field gives back for [s]: the codec's own, and when [s] is a
    finite number one of the same sign and value. *)
Definition same_number (format : decimalFloatFormat) (s t : bytes) : Prop :=
  (b ← encodeDecimalFloat s format; decodeDecimalFloat b format) = Ok t /\
  forall m, finitePattern s = Some m ->
    exists m', finitePattern t = Some m' /\ is_minus (m1 m') = is_minus (m1 m) /\
      same_value (dec_value (mantissa m')) (text_exponent m') (dec_value (mantissa m)) (text_exponent m).

(** The value [v'] a field gives back for the value [v] it was given. *)
Definition normal_form (f : RfcStructureField) (v v' : any) : Prop :=
  match exid_of (Exid f), v, v' with
  | XTemporal, VString s, VString t =>
      if bool_decide (s = []) then ClassicTemporalInitialValue (Exid f) = Ok t else t = s
  | XChar, VString s, VString t => t = trim_right_spaces s
  | XNum, VString s, VString t => t = replicate (Z.to_nat (InternalLength f / 2 - zlen s)) x30 ++ s
  | XDate, VString s, VString t => t = if bool_decide (s = spaces 8) then [] else s
  | XTime, VString s, VString t => t = if bool_decide (s = spaces 6) then [] else s
  | XRaw, VBytes b, VBytes c => c = b ++ zeros (InternalLength f - zlen b)
  | XFloat, VFloat64 x, VFloat64 y => y = x
  | XInt4, VInt _ n, VInt KInt32 m => m = n
  | XInt2, VInt _ n, VInt KInt16 m => m = n
  | XInt1, VInt _ n, VInt KUint8 m => m = n
  | XInt8, VInt _ n, VInt KInt64 m => m = n
  | XPacked, VString s, VString t =>
      EncodePackedDecimal t (InternalLength f) (Decimals f) = EncodePackedDecimal s (InternalLength f) (Decimals f)
  | XDecf16, VString s, VString t => same_number decf16 s t
  | XDecf34, VString s, VString t => same_number decf34 s t
  | _, _, _ => False
  end.

(** A dynamic value within the range of its Go type. *)
Definition well_typed (v : any) : Prop :=
  match v with
  | VFloat64 bits => 0 <= bits < 2 ^ 64
  | _ => True
  end.

Lemma as_string_inv v s : as_string v = Ok s -> v = VString s.
Proof. destruct v; cbn; intros H; try done. by apply Ok_inj in H as ->. Qed.

Lemma require_int_inv v lo hi n : requireInt v lo hi = Ok n -> (exists k, v = VInt k n) /\ lo <= n <= hi.
Proof.
  unfold requireInt. destruct v as [| | |k m|]; try done. cbn [asInt]. destruct (Z.ltb_spec m lo); [done|]. destruct (Z.ltb_spec hi m); [done|].
  intros E. apply Ok_inj in E. subst m. split; [by exists k|lia].
Qed.

Lemma character_length_inv f n : characterLength f = Ok n -> 0 <= InternalLength f -> InternalLength f = 2 * n /\ InternalLength f / 2 = n.
Proof.
  unfold characterLength. rewrite land_1. destruct (Z.eqb_spec (InternalLength f mod 2) 0) as [E|E]; [|done]. cbn [negb].
  intros H Hl. apply Ok_inj in H. rewrite Z.quot_div_nonneg in H by lia. split; [|done]. subst n. Z.to_euclidean_division_equations. lia.
Qed.

Lemma temporal_length exid s b n :
  EncodeClassicTemporal exid s = Ok b -> ClassicTemporalByteLength exid = Ok n -> zlen b = n.
Proof.
  intros He Hn. unfold ClassicTemporalByteLength, specification in Hn. destruct (temporalSpecs exid) as [spec|] eqn:Hs; [|done].
  apply Ok_inj in Hn. subst n. pose proof (proj1 (temporal_exact exid) s b He) as Hd. rewrite (initial_known exid spec Hs) in Hd.
  unfold DecodeClassicTemporal, specification in Hd. rewrite Hs, ok_bind in Hd.
  assert (exists t, rawValue exid b = Ok t) as [raw Hr].
  { destruct (rawValue exid b) as [r|e|]; [by exists r|..]; by case_bool_decide. }
  unfold rawValue, spec_of in Hr. rewrite Hs in Hr. cbn [default from_option id] in Hr.
  destruct (Z.eqb_spec (zlen b) (ts_byteLength spec)); done.
Qed.

Lemma ascii_units w : Forall (fun b => b2z b < 0x80) w -> codeUnitLen w = zlen w.
Proof.
  intros H. unfold codeUnitLen. destruct (ascii_runes w H) as [-> _]. induction H as [|b w Hb _ IH]; [done|].
  cbn [map]. change (utf16_encode (b2z b :: map b2z w)) with (utf16_encode_rune (b2z b) ++ utf16_encode (map b2z w)).
  pose proof (b2z_range b). unfold utf16_encode_rune. rewrite (proj2 (is_scalarb_spec _)) by (unfold is_scalar; lia).
  destruct (Z.ltb_spec (b2z b) 0x10000); [|lia]. rewrite zlen_app, IH. len_lia.
Qed.

Lemma fixed_text_read w n :
  Forall (fun b => b2z b < 0x80) w -> zlen w = n -> n <= 0x7fff ->
  zlen (utf16le w) = 2 * n /\ DecodeAbapFixedChar (utf16le w) n = Ok w.
Proof.
  intros Ha Hl Hn. assert (EncodeAbapChar w n = Ok (utf16le w)) as He.
  { unfold EncodeAbapChar, characterCount, guard, AssertUnicodeScalarText. destruct (ascii_runes w Ha) as [_ ->]. rewrite (ascii_units w Ha).
    pose proof (zlen_nonneg w). rewrite (proj2 (Z.ltb_ge n 0)), (proj2 (Z.ltb_ge 0x7fff n)), (proj2 (Z.ltb_ge n (zlen w))) by lia.
    cbn [orb negb]. rewrite !ok_bind, Hl, Z.sub_diag, app_nil_r. done. }
  destruct (encode_char_inv w n _ He) as (_ & _ & _ & Hz & _). split; [done|]. unfold DecodeAbapFixedChar.
  by rewrite (encoded_char_read w n _ He), (ascii_units w Ha), Hl, Z.sub_diag, app_nil_r.
Qed.

Lemma digit_ascii b : is_digit b = true -> b2z b < 0x80.
Proof. unfold is_digit. intros H%in_range_spec. lia. Qed.

Lemma wire_pattern n w : is_digits n w || is_spaces n w = true -> Forall (fun b => b2z b < 0x80) w /\ zlen w = Z.of_nat n.
Proof.
  intros [H|H]%orb_true_iff.
  - unfold is_digits in H. apply andb_true_iff in H as [Hl%bool_decide_eq_true Hd%forallb_digits]. split; [|by unfold zlen; rewrite Hl].
    eapply Forall_impl; [exact Hd|]. intros b. apply digit_ascii.
  - unfold is_spaces in H. apply bool_decide_eq_true in H. subst w. split; [by apply Forall_replicate|].
    unfold zlen, spaces. by rewrite length_replicate.
Qed.

Lemma date_wire_ascii s w : ClassicDateWireText s = Ok w -> Forall (fun b => b2z b < 0x80) w /\ zlen w = 8.
Proof.
  unfold ClassicDateWireText, AssertClassicDate, classicDatePattern. intros H. ok_step H as u Hu.
  destruct (bool_decide (s = [])) eqn:E; [apply Ok_inj in H; subst w; by apply (wire_pattern 8)|]. apply Ok_inj in H. subst w.
  rewrite orb_false_r in Hu. destruct (classicDateWirePattern s) eqn:Ep; [|done]. by apply (wire_pattern 8).
Qed.

Lemma time_wire_ascii s w : ClassicTimeWireText s = Ok w -> Forall (fun b => b2z b < 0x80) w /\ zlen w = 6.
Proof.
  unfold ClassicTimeWireText, AssertClassicTime, classicTimePattern. intros H. ok_step H as u Hu.
  destruct (bool_decide (s = [])) eqn:E; [apply Ok_inj in H; subst w; by apply (wire_pattern 6)|]. apply Ok_inj in H. subst w.
  rewrite orb_false_r in Hu. destruct (classicTimeWirePattern s) eqn:Ep; [|done]. by apply (wire_pattern 6).
Qed.

(** The bytes of a field lie in its width, and read back, filled up with zeros, as a normal
    form of the value. *)
Definition reads_back (f : RfcStructureField) (v : any) (enc : bytes) : Prop :=
  zlen enc <= InternalLength f /\
  exists v', read_segment f (enc ++ zeros (InternalLength f - zlen enc)) = Ok v' /\ normal_form f v v'.

Lemma reads_back_full f v enc v' :
  zlen enc = InternalLength f -> read_segment f enc = Ok v' -> normal_form f v v' -> reads_back f v enc.
Proof. intros Hl Hr Hn. split; [lia|]. exists v'. by rewrite Hl, Z.sub_diag, app_nil_r. Qed.

Lemma date_reads_back f s enc :
  exid_of (Exid f) = XDate -> InternalLength f = 16 -> field_bytes f (VString s) = Ok enc -> reads_back f (VString s) enc.
Proof.
  intros E Hl. unfold field_bytes. rewrite E. cbn [as_string]. rewrite ok_bind. intros H. ok_step H as w Hw. apply Ok_inj in H. subst enc.
  destruct (date_wire_ascii s w Hw) as [Ha Hz]. destruct (fixed_text_read w 8 Ha Hz ltac:(lia)) as [Hb Hd].
  eapply reads_back_full; [lia| |].
  - assert (or_zero (characterLength f) = Ok 8) as Hc by (unfold characterLength; by rewrite Hl).
    unfold read_segment. rewrite E, Hc, ok_bind, Hd, ok_bind, (date_text_returns s w Hw), ok_bind. done.
  - unfold normal_form. by rewrite E.
Qed.

Lemma time_reads_back f s enc :
  exid_of (Exid f) = XTime -> InternalLength f = 12 -> field_bytes f (VString s) = Ok enc -> reads_back f (VString s) enc.
Proof.
  intros E Hl. unfold field_bytes. rewrite E. cbn [as_string]. rewrite ok_bind. intros H. ok_step H as w Hw. apply Ok_inj in H. subst enc.
  destruct (time_wire_ascii s w Hw) as [Ha Hz]. destruct (fixed_text_read w 6 Ha Hz ltac:(lia)) as [Hb Hd].
  eapply reads_back_full; [lia| |].
  - assert (or_zero (characterLength f) = Ok 6) as Hc by (unfold characterLength; by rewrite Hl).
    unfold read_segment. rewrite E, Hc, ok_bind, Hd, ok_bind, (time_text_returns s w Hw), ok_bind. done.
  - unfold normal_form. by rewrite E.
Qed.

Lemma temporal_reads_back f s enc :
  exid_of (Exid f) = XTemporal -> ClassicTemporalByteLength (Exid f) = Ok (InternalLength f) ->
  field_bytes f (VString s) = Ok enc -> reads_back f (VString s) enc.
Proof.
  intros E Hl. unfold field_bytes. rewrite E. cbn [as_string]. rewrite ok_bind. intros H.
  pose proof (proj1 (temporal_exact _) _ _ H) as Hd. pose proof (temporal_length _ _ _ _ H Hl) as Hz.
  destruct (DecodeClassicTemporal (Exid f) enc) as [t|e|] eqn:Et.
  - eapply (reads_back_full f _ enc (VString t)); [done|unfold read_segment; by rewrite E, Et, ok_bind|].
    unfold normal_form. rewrite E. case_bool_decide; [done|]. by apply Ok_inj in Hd.
  - case_bool_decide; [|done]. unfold ClassicTemporalInitialValue, ClassicTemporalByteLength, specification in *. by destruct (temporalSpecs _).
  - case_bool_decide; [|done]. unfold ClassicTemporalInitialValue, ClassicTemporalByteLength, specification in *. by destruct (temporalSpecs _).
Qed.

Lemma char_reads_back f s enc :
  exid_of (Exid f) = XChar -> 0 <= InternalLength f -> field_bytes f (VString s) = Ok enc -> reads_back f (VString s) enc.
Proof.
  intros E Hl. unfold field_bytes. rewrite E. cbn [as_string]. rewrite ok_bind. intros H. ok_step H as n Hn.
  destruct (character_length_inv f n Hn Hl) as [Hw _]. destruct (abap_char_read s n enc H) as (Hz & Hd & _).
  eapply reads_back_full; [lia| |].
  - unfold read_segment. by rewrite E, Hn, ok_bind, Hd, ok_bind.
  - unfold normal_form. by rewrite E.
Qed.

Lemma digits_last (s : bytes) : all_digits s -> last s <> Some x20.
Proof.
  intros Hd H. apply last_Some in H as [s' ->]. apply Forall_app in Hd as [_ Hd]. apply Forall_cons in Hd as [Hd _]. done.
Qed.

Lemma num_reads_back f s enc :
  exid_of (Exid f) = XNum -> 0 <= InternalLength f -> field_bytes f (VString s) = Ok enc -> reads_back f (VString s) enc.
Proof.
  intros E Hl. unfold field_bytes. rewrite E. cbn [as_string]. intros H. ok_step H as n Hn. rewrite ok_bind in H.
  destruct (numericDigits s) eqn:Hd; [|done]. apply forallb_digits in Hd. destruct (Z.ltb_spec n (zlen s)); [done|]. cbn [negb orb] in H.
  destruct (character_length_inv f n Hn Hl) as [Hw Hq]. destruct (abap_char_read _ n enc H) as (Hz & _ & Hr & _).
  eapply (reads_back_full f _ enc (VString (replicate (Z.to_nat (n - zlen s)) x30 ++ s))); [lia| |].
  - unfold read_segment. rewrite E, Hn, ok_bind, Hr, ok_bind; [done|]. apply digits_last, Forall_app. split; [by apply Forall_replicate|done].
  - unfold normal_form. by rewrite E, Hq.
Qed.

Lemma le_read n (x : Z) : 0 <= x < 256 ^ Z.of_nat n -> le_uint (E := error) n (le_split n x) = Ok x.
Proof. intros H. rewrite le_uint_exact by apply length_le_split. by rewrite le_combine_split, Z.mod_small. Qed.

Lemma zlen_le_split n x : zlen (le_split n x) = Z.of_nat n.
Proof. unfold zlen. by rewrite length_le_split. Qed.

Lemma int_reads_back f v enc :
  match exid_of (Exid f) with
  | XInt4 => InternalLength f = 4 | XInt2 => InternalLength f = 2 | XInt1 => InternalLength f = 1 | XInt8 => InternalLength f = 8
  | _ => False
  end -> field_bytes f v = Ok enc -> reads_back f v enc.
Proof.
  unfold field_bytes. destruct (exid_of (Exid f)) eqn:E; try done; intros Hl H; ok_step H as n Hn;
    apply require_int_inv in Hn as [[k ->] Hr]; apply Ok_inj in H; subst enc.
  - eapply (reads_back_full f _ _ (VInt KInt32 n)); [by rewrite zlen_le_split| |unfold normal_form; by rewrite E].
    unfold read_segment. rewrite E, le_read, ok_bind by (unfold uint32; apply Z.mod_pos_bound; lia).
    rewrite (int32_small n), int32_uint32 by (unfold is_i32; lia). done.
  - eapply (reads_back_full f _ _ (VInt KInt16 n)); [by rewrite zlen_le_split| |unfold normal_form; by rewrite E].
    unfold read_segment. rewrite E, le_read, ok_bind by (unfold uint16; apply Z.mod_pos_bound; lia).
    do 2 f_equal. unfold uint16, int16. Z.to_euclidean_division_equations. lia.
  - eapply (reads_back_full f _ _ (VInt KUint8 n)); [by rewrite Hl| |unfold normal_form; by rewrite E].
    unfold read_segment. rewrite E. change (go_index (E := error) [z2b n] 0) with (Ok (E := error) (z2b n)).
    rewrite ok_bind, b2z_z2b_small by (unfold is_u8; lia). done.
  - eapply (reads_back_full f _ _ (VInt KInt64 n)); [by rewrite zlen_le_split| |unfold normal_form; by rewrite E].
    unfold read_segment. rewrite E, le_read, ok_bind by (unfold uint64; apply Z.mod_pos_bound; lia).
    do 2 f_equal. unfold uint64, int64. Z.to_euclidean_division_equations. lia.
Qed.

Lemma float_reads_back f v enc :
  exid_of (Exid f) = XFloat -> InternalLength f = 8 -> well_typed v -> field_bytes f v = Ok enc -> reads_back f v enc.
Proof.
  intros E Hl Hv. unfold field_bytes. rewrite E. destruct v as [| |bits| |]; try done. destruct (is_finite bits) eqn:Hf; [|done].
  intros H. apply Ok_inj in H. subst enc. eapply (reads_back_full f _ _ (VFloat64 bits)); [by rewrite zlen_le_split| |unfold normal_form; by rewrite E].
  unfold read_segment. rewrite E, le_read, ok_bind by exact Hv. by rewrite Hf.
Qed.

Lemma raw_reads_back f v enc : exid_of (Exid f) = XRaw -> field_bytes f v = Ok enc -> reads_back f v enc.
Proof.
  intros E. unfold field_bytes. rewrite E. destruct v as [|b| | |]; try done. destruct (Z.ltb_spec (InternalLength f) (zlen b)); [done|].
  intros H'. apply Ok_inj in H'. subst enc. split; [lia|]. eexists. unfold read_segment, normal_form. rewrite E. by split.
Qed.

Lemma packed_reads_back f s enc :
  exid_of (Exid f) = XPacked -> field_bytes f (VString s) = Ok enc -> reads_back f (VString s) enc.
Proof.
  intros E. unfold field_bytes. rewrite E. cbn [as_string]. rewrite ok_bind. intros H.
  destruct (encode_canonical _ _ _ _ H) as (_ & Hz & _). destruct (packed_text_of _ _ _ _ H) as (t & Hd & He).
  eapply (reads_back_full f _ enc (VString t)); [done| |].
  - unfold read_segment. by rewrite E, Hd, ok_bind.
  - unfold normal_form. by rewrite E, H.
Qed.

Lemma decf_same_number format s enc :
  is_format format -> encodeDecimalFloat s format = Ok enc ->
  zlen enc = df_byteLength format /\ exists t, decodeDecimalFloat enc format = Ok t /\ same_number format s t.
Proof.
  intros Hf He. destruct (decf_encoded_length format s enc Hf He) as (Hz & t & Ht). split; [done|]. exists t. split; [done|].
  split; [by rewrite He, ok_bind|]. intros m Hm.
  destruct (decf_value format s m Hf Hm) as [(b & t' & m' & Hb & Ht' & Hm' & Hs & Hv)|[Hn _]]; [|..|congruence].
  - unfold encodeDecimalFloat in He. by destruct (Z.ltb_spec maxDecimalFloatTextLength (zlen s)).
  - exists m'. rewrite He in Hb. apply Ok_inj in Hb. subst b. rewrite Ht in Ht'. apply Ok_inj in Ht'. by subst t'.
Qed.

Lemma field_reads_back f v enc :
  assertFieldCodec f = Ok tt -> 0 <= InternalLength f -> well_typed v -> field_bytes f v = Ok enc -> reads_back f v enc.
Proof.
  intros Ha Hl Hv H. unfold assertFieldCodec in Ha. destruct (exid_of (Exid f)) eqn:E.
  all: try (assert (exists s, v = VString s) as [s ->]
    by (unfold field_bytes in H; rewrite E in H; try (ok_step H as n0 Hn0); destruct v; try done; by eexists)).
  - apply temporal_reads_back; [done| |done]. unfold ClassicTemporalByteLength, specification in *.
    unfold exid_of in E. destruct (IsClassicTemporalExid (Exid f)) eqn:Et; [|destruct (list_find _ _) as [[? [? []]]|] eqn:?; try done].
    + unfold IsClassicTemporalExid in Et. apply bool_decide_eq_true in Et as [spec Hs]. rewrite Hs in *. cbn in Ha. apply exact_len_inv in Ha. by rewrite Ha.
    + exfalso. apply list_find_Some in Heqo as (Hi & _). do 15 (destruct n as [|n]; [by injection Hi|cbn in Hi]). done.
  - by apply char_reads_back.
  - by apply num_reads_back.
  - apply date_reads_back; [done|by apply exact_len_inv|done].
  - apply time_reads_back; [done|by apply exact_len_inv|done].
  - by apply raw_reads_back.
  - apply float_reads_back; [done|by apply exact_len_inv|done|done].
  - apply int_reads_back; [rewrite E; by apply exact_len_inv|done].
  - apply int_reads_back; [rewrite E; by apply exact_len_inv|done].
  - apply int_reads_back; [rewrite E; by apply exact_len_inv|done].
  - apply int_reads_back; [rewrite E; by apply exact_len_inv|done].
  - by apply packed_reads_back.
  - unfold field_bytes in H. rewrite E in H. cbn [as_string] in H. rewrite ok_bind in H. apply exact_len_inv in Ha.
    destruct (decf_same_number decf16 s enc ltac:(by left) H) as (Hz & t & Ht & Hs).
    eapply (reads_back_full f _ enc (VString t)); [by rewrite Hz|unfold read_segment; rewrite E; unfold DecodeDecimalFloat16; by rewrite Ht, ok_bind|unfold normal_form; by rewrite E].
  - unfold field_bytes in H. rewrite E in H. cbn [as_string] in H. rewrite ok_bind in H. apply exact_len_inv in Ha.
    destruct (decf_same_number decf34 s enc ltac:(by right) H) as (Hz & t & Ht & Hs).
    eapply (reads_back_full f _ enc (VString t)); [by rewrite Hz|unfold read_segment; rewrite E; unfold DecodeDecimalFloat34; by rewrite Ht, ok_bind|unfold normal_form; by rewrite E].
  - unfold field_bytes in H. by rewrite E in H.
  - unfold field_bytes in H. by rewrite E in H.
  - done.
Qed.

(** ** Rows *)

(** The value of a field: the one supplied, or the initial value of its type. *)
Definition field_input (input : gmap bytes any) (f : RfcStructureField) : res any :=
  match input !! FieldName f with Some v => Ok v | None => initialValue f end.

Definition inputs_typed (input : gmap bytes any) : Prop := map_Forall (fun _ v => well_typed v) input.

Lemma field_input_typed input f v : inputs_typed input -> field_input input f = Ok v -> well_typed v.
Proof.
  intros Hi. unfold field_input. destruct (input !! FieldName f) as [w|] eqn:E.
  - intros H. apply Ok_inj in H. subst w. by apply (Hi _ _ E).
  - unfold initialValue. destruct (exid_of (Exid f)); intros H; try (ok_step H as s Hs); try (apply Ok_inj in H; subst v); try done; cbn; lia.
Qed.

(** A row under construction: what is written, and zeros up to its end. *)
Definition row (bl : Z) (pre : bytes) : bytes := pre ++ zeros (bl - zlen pre).

Lemma row_copy bl pre at_ src :
  zlen pre <= at_ -> at_ + zlen src <= bl ->
  go_copy (row bl pre) at_ src = row bl (pre ++ zeros (at_ - zlen pre) ++ src).
Proof.
  intros H1 H2. unfold row, zeros. pose proof (zlen_nonneg pre). pose proof (zlen_nonneg src).
  replace (Z.to_nat (bl - zlen pre)) with (Z.to_nat (at_ - zlen pre) + Z.to_nat (bl - at_))%nat by lia.
  rewrite replicate_add, (app_assoc pre). set (g := replicate (Z.to_nat (at_ - zlen pre)) x00).
  assert (zlen (pre ++ g) = at_) as Hg by (rewrite zlen_app; unfold g, zlen at 2; rewrite length_replicate; lia).
  rewrite <- Hg at 2. rewrite go_copy_exact by (unfold zlen in *; lia). rewrite (app_assoc pre g src), zlen_app, Hg.
  do 2 f_equal. unfold zlen. lia.
Qed.

Lemma row_extend bl pre n : 0 <= n -> zlen pre + n <= bl -> row bl pre = row bl (pre ++ zeros n).
Proof.
  intros H1 H2. unfold row. rewrite <- app_assoc, zlen_app, zlen_zeros by done. f_equal. unfold zeros. rewrite <- replicate_add. f_equal. lia.
Qed.

Lemma row_length bl pre : zlen pre <= bl -> zlen (row bl pre) = bl.
Proof. intros H. unfold row. rewrite zlen_app, zlen_zeros; lia. Qed.

Lemma padding_length n b : b2z b < 0x80 -> 0 <= n -> zlen (utf16le (replicate (Z.to_nat n) b)) = 2 * n.
Proof.
  intros Hb Hn. unfold utf16le, zlen. rewrite length_units_bytes. assert (Forall (fun b => b2z b < 0x80) (replicate (Z.to_nat n) b)) as Ha by (by apply Forall_replicate).
  pose proof (ascii_units _ Ha) as Hu. unfold codeUnitLen, zlen in Hu. rewrite length_replicate in Hu. lia.
Qed.

(** Padding only extends the row. *)
Lemma pad_tail_row bl pre f next out :
  field_end f = zlen pre -> zlen pre <= next <= bl -> pad_tail (row bl pre) f next = Ok out ->
  exists more, out = row bl (pre ++ more) /\ zlen (pre ++ more) <= next.
Proof.
  intros He Hn. unfold pad_tail. destruct (_ || _); [|intros H; apply Ok_inj in H; subst out; exists []; rewrite app_nil_r; split; [done|lia]].
  cbv zeta. rewrite He, land_1. destruct (Z.eqb_spec ((next - zlen pre) mod 2) 0) as [Em|]; [|done]. cbn [negb].
  destruct (Z.ltb_spec 0 (next - zlen pre)); [|intros H'; apply Ok_inj in H'; subst out; exists []; rewrite app_nil_r; split; [done|lia]].
  set (fill := if bytes_eqb (Exid f) (lit "N") then x30 else x20). assert (b2z fill < 0x80) as Hf by (unfold fill; by destruct (bytes_eqb _ _)).
  rewrite Z.quot_div_nonneg by lia. pose proof (padding_length ((next - zlen pre) / 2) fill Hf ltac:(Z.to_euclidean_division_equations; lia)) as Hp.
  set (pad := utf16le _) in *. assert (zlen pad = next - zlen pre) as Hz by (Z.to_euclidean_division_equations; lia).
  unfold copy_at, go_from. rewrite go_slice_ok, ok_bind by (rewrite row_length; pose proof (zlen_nonneg pre); lia).
  intros E. apply Ok_inj in E. subst out. exists pad. rewrite row_copy by lia. rewrite Z.sub_diag. split; [done|]. rewrite zlen_app. lia.
Qed.

(** What a row holds of a field: its bytes, filled up with zeros, at its place. *)
Definition returns (input : gmap bytes any) (b : bytes) (f : RfcStructureField) : Prop :=
  exists v v', field_input input f = Ok v /\ readValue b f = Ok v' /\ normal_form f v v'.

Lemma read_in_row f pre seg post :
  zlen pre = Offset f -> zlen seg = InternalLength f -> field_end f = Offset f + InternalLength f ->
  readValue (pre ++ seg ++ post) f = read_segment f seg.
Proof. intros H1 H2 H3. unfold readValue. rewrite H3. rewrite go_slice_mid by lia. by rewrite ok_bind. Qed.

Lemma encode_fields_row bl input fields prev pre b :
  inputs_typed input -> Forall (fun f => assertFieldCodec f = Ok tt) fields -> bl < 2 ^ 31 ->
  layout bl prev fields -> 0 <= prev -> zlen pre <= match fields with f :: _ => Offset f | [] => bl end ->
  encode_fields bl input fields (row bl pre) = Ok b ->
  zlen b = bl /\ (exists post, b = pre ++ post) /\ Forall (returns input b) fields.
Proof.
  intros Hi Hc Hbl. revert prev pre. induction Hc as [|f rest Hf _ IH]; intros prev pre Hl Hp Hz H; cbn [encode_fields] in H.
  { apply Ok_inj in H. subst b. split; [by apply row_length|]. split; [by eexists|constructor]. }
  destruct Hl as (Ho & Hlen & Hend & Hl). fold (field_input input f) in H. ok_step H as v Hv. ok_step H as r1 Hr1. ok_step H as r2 Hr2.
  pose proof (field_end_ok f ltac:(lia) Hlen ltac:(lia)) as Hfe. pose proof (zlen_nonneg pre).
  rewrite write_bytes in Hr1 by (done || lia || (rewrite row_length; lia)). ok_step Hr1 as enc He. apply Ok_inj in Hr1. subst r1.
  destruct (field_reads_back f v enc Hf Hlen (field_input_typed _ _ _ Hi Hv) He) as (Hw & v' & Hread & Hn). pose proof (zlen_nonneg enc).
  rewrite row_copy, (row_extend bl _ (InternalLength f - zlen enc)), <- !app_assoc in Hr2
    by (rewrite ?zlen_app, ?zlen_zeros; lia).
  set (seg := enc ++ zeros (InternalLength f - zlen enc)) in *. set (gap := zeros (Offset f - zlen pre)) in *.
  assert (zlen (pre ++ gap) = Offset f) as Hg by (unfold gap; rewrite zlen_app, zlen_zeros; lia).
  assert (zlen seg = InternalLength f) as Hs by (unfold seg; rewrite zlen_app, zlen_zeros; lia).
  assert (zlen (pre ++ gap ++ seg) = Offset f + InternalLength f) as Hg2 by (rewrite app_assoc, zlen_app; lia).
  set (next := match rest with g :: _ => Offset g | [] => bl end) in *.
  assert (zlen (pre ++ gap ++ seg) <= next <= bl) as Hnx.
  { unfold next. destruct rest as [|g rest']; [cbn in Hl; lia|]. destruct Hl as (? & ? & ? & _). lia. }
  apply pad_tail_row in Hr2 as (more & -> & Hm); [|lia|done].
  destruct (IH (Offset f + InternalLength f) ((pre ++ gap ++ seg) ++ more) Hl ltac:(lia) Hm H) as (Hbz & [post Hpost] & Hall).
  split; [done|]. split; [exists (gap ++ seg ++ more ++ post); rewrite Hpost, <- !app_assoc; done|].
  constructor; [|done]. exists v, v'. split; [done|]. split; [|done].
  rewrite Hpost, <- !app_assoc, (app_assoc pre). by rewrite (read_in_row f (pre ++ gap) seg).
Qed.

Lemma decode_fields_all b fields m :
  NoDup (map FieldName fields) -> Forall (fun f => is_Ok (readValue b f)) fields ->
  exists out, decode_fields b fields m = Ok out /\ dom out = list_to_set (map FieldName fields) ∪ dom m /\
    (forall k, k ∉ map FieldName fields -> out !! k = m !! k) /\
    Forall (fun f => exists v, out !! FieldName f = Some v /\ readValue b f = Ok v) fields.
Proof.
  revert m. induction fields as [|f rest IH]; intros m Hn Ha; cbn [map] in *.
  { exists m. split; [done|]. split; [cbn; by rewrite union_empty_l_L|]. by split. }
  apply NoDup_cons in Hn as [Hf Hn]. apply Forall_cons in Ha as [[v Hv] Ha]. cbn [decode_fields]. rewrite Hv, ok_bind.
  destruct (IH (<[FieldName f := v]> m) Hn Ha) as (out & Hd & Hdom & Hk & Hall). exists out. split; [done|].
  split; [rewrite Hdom, dom_insert_L; cbn; by rewrite assoc_L, (comm_L (∪) (list_to_set _)) by apply _|]. split.
  - intros k Hk'. apply not_elem_of_cons in Hk' as [Hne Hk']. by rewrite Hk, lookup_insert_ne.
  - constructor; [|done]. exists v. by rewrite Hk, lookup_insert_eq.
Qed.

(** C7: For a definition whose field ends fit in 32 bits, the row Encode writes has the
    declared length and Decode reads from it, for exactly the fields of the definition, the
    normal form of the value supplied or of the type's initial value: no field disturbs
    another, whatever the padding. *)
Theorem structure_roundtrip def input b :
  ends_fit def -> inputs_typed input -> Encode def input = Ok b ->
  zlen b = ByteLength def /\
  exists out, Decode def b = Ok out /\ dom out = list_to_set (map FieldName (Fields def)) /\
    Forall (fun f => exists v v', field_input input f = Ok v /\ out !! FieldName f = Some v' /\ normal_form f v v') (Fields def).
Proof.
  intros Hfit Hi H. unfold Encode, Decode in *. ok_step H as d Hd. pose proof (validate_accepted _ _ _ Hfit Hd) as [-> Hacc].
  ok_step H as u Hu. rewrite Hd, ok_bind, Hu, ok_bind. destruct (unknown_field _ _); [done|]. destruct Hacc as [Hbl Hl Hn Hc].
  assert (encode_fields (ByteLength def) input (Fields def) (row (ByteLength def) []) = Ok b) as H'.
  { unfold row. change (zlen (@nil byte)) with 0. by rewrite Z.sub_0_r. }
  assert (maxClassicStructureByteLength < 2 ^ 31) as Hmax by done.
  apply (encode_fields_row _ _ _ 0) in H' as (Hz & _ & Hall); [|done..|lia|done|lia|].
  2:{ change (zlen (@nil byte)) with 0. destruct (Fields def) as [|f fs]; [lia|by destruct Hl]. }
  split; [done|]. rewrite Hz, Z.eqb_refl. cbn [negb].
  destruct (decode_fields_all b (Fields def) ∅ Hn) as (out & Ho & Hdom & _ & Hout).
  { eapply Forall_impl; [exact Hall|]. intros f (v & v' & _ & Hr & _). by exists v'. }
  exists out. split; [done|]. split; [by rewrite Hdom, dom_empty_L, union_empty_r_L|]. apply Forall_forall. intros f Hf.
  destruct (proj1 (Forall_forall _ _) Hall f Hf) as (v & v' & Hv & Hr & Hnf).
  destruct (proj1 (Forall_forall _ _) Hout f Hf) as (w & Hw & Hr'). rewrite Hr in Hr'. apply Ok_inj in Hr'. subst w. by exists v, v'.
Qed.

(** ** Types *)

(** The Go type and the range of the value a field decodes to. *)
Definition has_type (f : RfcStructureField) (v : any) : Prop :=
  match exid_of (Exid f), v with
  | (XTemporal | XChar | XNum | XPacked | XDecf16 | XDecf34), VString _ => True
  | XDate, VString s => AssertClassicDate s = Ok tt
  | XTime, VString s => AssertClassicTime s = Ok tt
  | XRaw, VBytes _ => True
  | XFloat, VFloat64 bits => 0 <= bits < 2 ^ 64 /\ is_finite bits = true
  | XInt4, VInt KInt32 n => - 2 ^ 31 <= n < 2 ^ 31
  | XInt2, VInt KInt16 n => - 2 ^ 15 <= n < 2 ^ 15
  | XInt1, VInt KUint8 n => 0 <= n < 2 ^ 8
  | XInt8, VInt KInt64 n => - 2 ^ 63 <= n < 2 ^ 63
  | _, _ => False
  end.

Lemma le_uint_range n seg x : le_uint (E := error) n seg = Ok x -> 0 <= x < 256 ^ Z.of_nat n.
Proof.
  unfold le_uint. destruct (Nat.ltb_spec (length seg) n); [done|]. intros E. apply Ok_inj in E. subst x.
  pose proof (le_combine_range (take n seg)) as Hr. unfold zlen in Hr. by rewrite length_take, Nat.min_l in Hr by lia.
Qed.

Lemma date_public_ok s t : ClassicDatePublicText s = Ok t -> AssertClassicDate t = Ok tt.
Proof.
  unfold ClassicDatePublicText, AssertClassicDate, classicDatePattern. destruct (classicDateWirePattern s) eqn:E; [|done]. cbn [negb].
  case_bool_decide; intros H'; apply Ok_inj in H'; subst t; [done|]. by rewrite E.
Qed.

Lemma time_public_ok s t : ClassicTimePublicText s = Ok t -> AssertClassicTime t = Ok tt.
Proof.
  unfold ClassicTimePublicText, AssertClassicTime, classicTimePattern. destruct (classicTimeWirePattern s) eqn:E; [|done]. cbn [negb].
  case_bool_decide; intros H'; apply Ok_inj in H'; subst t; [done|]. by rewrite E.
Qed.

Lemma read_typed f seg v : read_segment f seg = Ok v -> has_type f v.
Proof.
  unfold read_segment, has_type. intros H. destruct (exid_of (Exid f)).
  all: try done.
  all: try (ok_step H as n Hn; ok_step H as s Hs; apply Ok_inj in H; by subst v).
  all: try (ok_step H as s Hs; apply Ok_inj in H; by subst v).
  - ok_step H as n Hn. ok_step H as s Hs. ok_step H as t Ht. apply Ok_inj in H. subst v. by apply date_public_ok in Ht.
  - ok_step H as n Hn. ok_step H as s Hs. ok_step H as t Ht. apply Ok_inj in H. subst v. by apply time_public_ok in Ht.
  - apply Ok_inj in H. by subst v.
  - ok_step H as x Hx. destruct (is_finite x) eqn:Ef; [|done]. apply Ok_inj in H. subst v. split; [by apply le_uint_range in Hx|done].
  - ok_step H as x Hx. apply Ok_inj in H. subst v. apply int32_range.
  - ok_step H as x Hx. apply Ok_inj in H. subst v. unfold int16. pose proof (Z.mod_pos_bound (x + 2 ^ 15) (2 ^ 16)). lia.
  - ok_step H as x Hx. apply Ok_inj in H. subst v. apply b2z_range.
  - ok_step H as x Hx. apply Ok_inj in H. subst v. apply int64_range.
Qed.

(** The fields and the distinct names, whatever the ends of the fields. *)
Lemma snapshot_names def fields i names prev out :
  snapshot_fields def fields i names prev = Ok out ->
  out = fields /\ NoDup (map FieldName fields) /\ Forall (fun f => FieldName f ∉ names) fields.
Proof.
  revert i names prev out. induction fields as [|f rest IH]; intros i names prev out H; cbn [snapshot_fields] in H.
  { apply Ok_inj in H. subst out. by split_and!; constructor. }
  match type of H with (if ?c then _ else _) = _ => destruct c eqn:E; [done|] end.
  do 4 (apply orb_false_iff in E as [E _]). apply orb_false_iff in E as [_ En%bool_decide_eq_false].
  cbv zeta in H. destruct (_ <? field_end f); [done|]. ok_step H as out' Ho. apply Ok_inj in H. subst out.
  destruct (IH _ _ _ _ Ho) as (-> & Hnd & Hn). split; [done|]. rewrite Forall_forall in Hn. split.
  - cbn [map]. apply NoDup_cons. split; [|done]. intros (g & Eg & Hg)%list_elem_of_fmap. apply (Hn g Hg). rewrite <- Eg.
    apply elem_of_union. left. by apply elem_of_singleton.
  - apply Forall_cons. split; [done|]. apply Forall_forall. intros g Hg Hin. apply (Hn g Hg). apply elem_of_union. by right.
Qed.

Lemma validate_fields def name d : ValidateCodec def name = Ok d -> d = def /\ NoDup (map FieldName (Fields def)).
Proof.
  unfold ValidateCodec, SnapshotDefinition. intros H. ok_step H as d' Hd. cbv zeta in Hd.
  match type of Hd with (if ?c then _ else _) = _ => destruct c; [done|] end.
  destruct (ByteLength def <? 0); [done|]. destruct (_ <? ByteLength def); [done|]. destruct (_ <? zlen (Fields def)); [done|].
  ok_step Hd as fs Hfs. apply Ok_inj in Hd. subst d'. ok_step H as u Hu. apply Ok_inj in H.
  destruct (snapshot_names _ _ _ _ _ _ Hfs) as (-> & Hn & _). split; [subst d; by destruct def|done].
Qed.

Lemma decode_fields_read b fields m out : decode_fields b fields m = Ok out -> Forall (fun f => is_Ok (readValue b f)) fields.
Proof.
  revert m. induction fields as [|f rest IH]; intros m H; [constructor|]. cbn [decode_fields] in H. ok_step H as v Hv.
  constructor; [by exists v|by eapply IH].
Qed.

(** C20: Whatever the row, a decoded structure has a value for exactly the fields of its
    definition, each of the Go type and within the range its field type promises. *)
Theorem decode_typed def b out :
  Decode def b = Ok out ->
  dom out = list_to_set (map FieldName (Fields def)) /\
  Forall (fun f => exists v, out !! FieldName f = Some v /\ has_type f v) (Fields def).
Proof.
  unfold Decode. intros H. ok_step H as d Hd. destruct (validate_fields _ _ _ Hd) as [-> Hn]. ok_step H as u Hu.
  destruct (negb _); [done|]. pose proof (decode_fields_read _ _ _ _ H) as Hr.
  destruct (decode_fields_all b (Fields def) ∅ Hn Hr) as (out' & Ho & Hdom & _ & Hall). rewrite H in Ho. apply Ok_inj in Ho. subst out'.
  split; [by rewrite Hdom, dom_empty_L, union_empty_r_L|]. eapply Forall_impl; [exact Hall|].
  intros f (v & Hv & Hread). exists v. split; [done|]. unfold readValue in Hread. ok_step Hread as seg Hs. by eapply read_typed.
Qed.

(** ** Totality *)
Lemma packed_zero_total bl dec : total (EncodePackedDecimal (lit "0") bl dec).
Proof.
  destruct (packedGeometry bl dec) as [cap|e|] eqn:E.
  - destruct (decimalPattern (lit "0")) as [m|] eqn:Em; [|done].
    assert (scaled_value m 0 dec 0 /\ exponent_of (m5 m) = (0, true) /\ zlen (fraction_of m) = 0) as (Hs & He & Hf).
    { assert (m = mkSubmatch [] [x30] [] [] []) as -> by (vm_compute in Em; congruence). split; [|done]. unfold scaled_value. cbv zeta.
      change (dec_value _) with 0. rewrite bool_decide_eq_false_2 by done. lia. }
    destruct (geometry_inv _ _ _ E) as (Hb & Hcap & Hd & Hdc). pose proof (pow10_pos (2 * bl - 1) ltac:(lia)).
    destruct (encode_exact (lit "0") bl dec m 0) as (_ & _ & Hx); try done; [by exists cap|].
    destruct (Hx 0 Hs) as (out & -> & _); [lia|right; rewrite Hf; lia|done].
  - unfold EncodePackedDecimal. rewrite E. unfold packedGeometry in E.
    destruct ((bl <? 1) || (16 <? bl)); [by injection E as <-|]. cbv zeta in E. by destruct ((dec <? 0) || _) in E; [injection E as <-|].
  - unfold packedGeometry in E. destruct ((bl <? 1) || (16 <? bl)); [done|]. cbv zeta in E. by destruct ((dec <? 0) || _) in E.
Qed.

Lemma abap_char_total s n : total (EncodeAbapChar s n).
Proof.
  unfold EncodeAbapChar, characterCount, guard, AssertUnicodeScalarText. destruct ((n <? 0) || (0x7fff <? n)); [done|].
  rewrite ok_bind. destruct (negb (ValidString s)); [done|]. rewrite ok_bind. by destruct (n <? codeUnitLen s).
Qed.

Lemma abap_bytes_total b n : total (abapCharacterBytes b (Some n)).
Proof.
  unfold abapCharacterBytes, characterCount, guard, AssertUnicodeScalarText. destruct (negb (Z.land (zlen b) 1 =? 0)); [done|].
  destruct ((n <? 0) || (0x7fff <? n)); [done|]. rewrite ok_bind. destruct (negb (zlen b =? n * 2)); [done|]. rewrite ok_bind.
  by rewrite decoded_valid.
Qed.

Lemma character_length_total f : total (characterLength f).
Proof. unfold characterLength. by destruct (negb _). Qed.

Lemma or_zero_total r : total r -> total (or_zero r).
Proof. by destruct r. Qed.

Lemma exact_len_total f n : total (exactLen f n).
Proof. unfold exactLen, guard. by destruct (negb _). Qed.

Lemma temporal_byte_length_total exid : total (ClassicTemporalByteLength exid).
Proof. unfold ClassicTemporalByteLength, specification. by destruct (temporalSpecs exid). Qed.

Lemma as_string_total v : total (as_string v).
Proof. by destruct v. Qed.

Lemma require_int_total v lo hi : total (requireInt v lo hi).
Proof. unfold requireInt. destruct (asInt v) as [n|]; [|done]. by destruct ((n <? lo) || (hi <? n)). Qed.

Lemma date_wire_total s : total (ClassicDateWireText s).
Proof. unfold ClassicDateWireText, AssertClassicDate. destruct (negb _); [done|]. rewrite ok_bind. by case_bool_decide. Qed.

Lemma time_wire_total s : total (ClassicTimeWireText s).
Proof. unfold ClassicTimeWireText, AssertClassicTime. destruct (negb _); [done|]. rewrite ok_bind. by case_bool_decide. Qed.

Lemma date_public_total s : total (ClassicDatePublicText s).
Proof. unfold ClassicDatePublicText. destruct (negb _); [done|]. by case_bool_decide. Qed.

Lemma time_public_total s : total (ClassicTimePublicText s).
Proof. unfold ClassicTimePublicText. destruct (negb _); [done|]. by case_bool_decide. Qed.

Create HintDb structure.
#[local] Hint Resolve abap_char_total abap_bytes_total character_length_total or_zero_total exact_len_total temporal_byte_length_total
  as_string_total require_int_total date_wire_total time_wire_total date_public_total time_public_total packed_zero_total total_ok : structure.

Ltac total_steps := repeat (apply total_bind; [by auto with structure|]; intros ? ?); by auto with structure.

Lemma codec_total f : total (assertFieldCodec f).
Proof. unfold assertFieldCodec. destruct (exid_of (Exid f)); first [done|total_steps]. Qed.

Lemma snapshot_total def fields i names prev : total (snapshot_fields def fields i names prev).
Proof.
  revert i names prev. induction fields as [|f rest IH]; intros i names prev; [done|]. cbn [snapshot_fields].
  match goal with |- context [if ?c then Err errStructure else _] => destruct c; [done|] end. cbv zeta.
  destruct (_ <? field_end f); [done|]. apply total_bind; [apply IH|]. intros fs _. done.
Qed.

Lemma validate_total def name : total (ValidateCodec def name).
Proof.
  unfold ValidateCodec, SnapshotDefinition. cbv zeta. apply total_bind.
  - match goal with |- context [if ?c then Err errStructure else _] => destruct c; [done|] end.
    destruct (ByteLength def <? 0); [done|]. destruct (_ <? ByteLength def); [done|]. destruct (_ <? zlen (Fields def)); [done|].
    apply total_bind; [apply snapshot_total|]. intros fs _. done.
  - intros d _. apply total_bind; [|intros; done]. induction (Fields d) as [|f rest IH]; [done|]. cbn [assert_fields].
    apply total_bind; [apply codec_total|]. intros _ _. exact IH.
Qed.

Lemma fixed_total def : total (assertFixed def).
Proof.
  unfold assertFixed, HasDynamicFields, guard. apply total_bind; [|by intros []]. apply total_bind; [apply validate_total|]. intros d _. done.
Qed.

Lemma packed_decode_total seg dec : total (DecodePackedDecimal seg dec).
Proof.
  destruct (packedGeometry (zlen seg) dec) as [cap|e|] eqn:E.
  - assert (is_Ok (packedGeometry (zlen seg) dec)) as Hg by (by exists cap).
    destruct (decode_signed seg dec Hg) as [[-> _]|(neg & ds & _ & _ & -> & _)]; done.
  - unfold DecodePackedDecimal. rewrite E. unfold packedGeometry in E.
    destruct ((_ <? 1) || _); [by injection E as <-|]. cbv zeta in E. by destruct ((dec <? 0) || _) in E; [injection E as <-|].
  - unfold packedGeometry in E. destruct ((_ <? 1) || _); [done|]. cbv zeta in E. by destruct ((dec <? 0) || _) in E.
Qed.

Lemma le_uint_total n seg : zlen seg = Z.of_nat n -> total (le_uint n seg).
Proof. intros H. rewrite le_uint_exact by (unfold zlen in H; lia). done. Qed.

Lemma read_total f seg :
  assertFieldCodec f = Ok tt -> zlen seg = InternalLength f -> total (read_segment f seg).
Proof.
  intros Ha Hz. unfold assertFieldCodec in Ha. unfold read_segment, DecodeAbapChar, DecodeAbapFixedChar. destruct (exid_of (Exid f)) eqn:E.
  all: try done; try apply exact_len_inv in Ha; rewrite ?bind_assoc.
  - apply total_bind; [apply temporal_ends|]. intros; done.
  - apply total_bind; [auto with structure|]. intros n _. rewrite bind_assoc. total_steps.
  - apply total_bind; [auto with structure|]. intros n _. rewrite bind_assoc. total_steps.
  - total_steps.
  - total_steps.
  - apply total_bind; [apply le_uint_total; lia|]. intros x _. by destruct (is_finite x).
  - apply total_bind; [apply le_uint_total; lia|]. intros; done.
  - apply total_bind; [apply le_uint_total; lia|]. intros; done.
  - destruct (go_index_ok (E := error) seg 0) as [x ->]; [lia|done].
  - apply total_bind; [apply le_uint_total; lia|]. intros; done.
  - apply total_bind; [apply packed_decode_total|]. intros; done.
  - apply total_bind; [apply decf_total; by left|]. intros; done.
  - apply total_bind; [apply decf_total; by right|]. intros; done.
Qed.

(** The packed values of an input do not meet the exponents on which the packed encoder panics. *)
Definition packed_inputs_ok (def : RfcStructureDefinition) (input : gmap bytes any) : Prop :=
  Forall (fun f => forall s, exid_of (Exid f) = XPacked -> field_input input f = Ok (VString s) ->
    total (EncodePackedDecimal s (InternalLength f) (Decimals f))) (Fields def).

Lemma bytes_total input f v :
  (forall s, exid_of (Exid f) = XPacked -> field_input input f = Ok (VString s) ->
    total (EncodePackedDecimal s (InternalLength f) (Decimals f))) ->
  field_input input f = Ok v -> total (field_bytes f v).
Proof.
  intros Hp Hv. unfold field_bytes. destruct (exid_of (Exid f)) eqn:E; try total_steps; try done.
  - apply total_bind; [auto with structure|]. intros s _. apply temporal_ends.
  - apply total_bind; [auto with structure|]. intros n _. apply total_bind; [auto with structure|]. intros s _.
    destruct (negb _ || _); [done|]. auto with structure.
  - destruct v; try done. by destruct (_ <? _).
  - destruct v; try done. by destruct (is_finite _).
  - destruct (as_string v) as [s| |] eqn:Es; [rewrite ok_bind|by destruct v; inversion Es|by destruct v].
    apply as_string_inv in Es. subst v. by apply Hp.
  - apply total_bind; [auto with structure|]. intros s _. apply decf_total. by left.
  - apply total_bind; [auto with structure|]. intros s _. apply decf_total. by right.
Qed.

Lemma initial_total f : assertFieldCodec f = Ok tt -> total (initialValue f).
Proof.
  unfold assertFieldCodec, initialValue, ClassicTemporalInitialValue, specification. destruct (exid_of (Exid f)); try done; intros _.
  - by destruct (temporalSpecs (Exid f)).
  - total_steps.
Qed.

Lemma pad_tail_total bl pre f next : field_end f = zlen pre -> zlen pre <= next <= bl -> total (pad_tail (row bl pre) f next).
Proof.
  intros He Hn. unfold pad_tail. destruct (_ || _); [|done]. cbv zeta. rewrite He. destruct (negb _); [done|]. destruct (0 <? _); [|done].
  unfold copy_at, go_from. by rewrite go_slice_ok by (rewrite row_length; pose proof (zlen_nonneg pre); lia).
Qed.

Lemma encode_fields_total bl input fields prev pre :
  Forall (fun f => assertFieldCodec f = Ok tt) fields -> bl < 2 ^ 31 ->
  Forall (fun f => forall s, exid_of (Exid f) = XPacked -> field_input input f = Ok (VString s) ->
    total (EncodePackedDecimal s (InternalLength f) (Decimals f))) fields -> inputs_typed input ->
  layout bl prev fields -> 0 <= prev -> zlen pre <= match fields with f :: _ => Offset f | [] => bl end ->
  total (encode_fields bl input fields (row bl pre)).
Proof.
  intros Hc Hbl Hp Hi. revert prev pre. induction Hc as [|f rest Hf _ IH]; intros prev pre Hl Hpv Hz; [done|]. cbn [encode_fields].
  apply Forall_cons in Hp as [Hpf Hp]. specialize (IH Hp). destruct Hl as (Ho & Hlen & Hend & Hl). fold (field_input input f).
  pose proof (field_end_ok f ltac:(lia) Hlen ltac:(lia)) as Hfe. pose proof (zlen_nonneg pre).
  apply total_bind; [unfold field_input; destruct (input !! _); [done|by apply initial_total]|]. intros v Hv.
  rewrite write_bytes by (done || lia || (rewrite row_length; lia)). rewrite bind_assoc. apply total_bind; [by eapply bytes_total|]. intros enc He.
  rewrite ok_bind. destruct (field_reads_back f v enc Hf Hlen (field_input_typed _ _ _ Hi Hv) He) as (Hw & _). pose proof (zlen_nonneg enc).
  rewrite row_copy, (row_extend bl _ (InternalLength f - zlen enc)) by (rewrite ?zlen_app, ?zlen_zeros; lia).
  set (pre1 := (pre ++ zeros (Offset f - zlen pre) ++ enc) ++ zeros (InternalLength f - zlen enc)).
  assert (zlen pre1 = Offset f + InternalLength f) as Hg by (unfold pre1; rewrite !zlen_app, !zlen_zeros; lia).
  set (next := match rest with g :: _ => Offset g | [] => bl end) in *.
  assert (zlen pre1 <= next <= bl) as Hnx.
  { unfold next. destruct rest as [|g rest']; [cbn in Hl; lia|]. destruct Hl as (? & ? & ? & _). lia. }
  apply total_bind; [apply pad_tail_total; [lia|done]|]. intros r Hr. apply pad_tail_row in Hr as (more & -> & Hm); [|lia|done].
  by apply (IH (Offset f + InternalLength f)); [|lia|].
Qed.

(** On a definition whose field ends fit in 32 bits, with packed inputs the packed encoder
    survives, neither Encode nor Decode panics, whatever the values and bytes. *)
Theorem structure_total def input b :
  ends_fit def -> inputs_typed input -> packed_inputs_ok def input -> total (Encode def input) /\ total (Decode def b).
Proof.
  intros Hfit Hi Hp. unfold Encode, Decode. assert (maxClassicStructureByteLength < 2 ^ 31) as Hmax by done.
  split; (apply total_bind; [apply validate_total|]); intros d Hd; destruct (validate_accepted _ _ _ Hfit Hd) as [-> [Hbl Hl Hn Hc]];
    (apply total_bind; [apply fixed_total|]); intros u Hu.
  - destruct (unknown_field _ _); [done|]. replace (zeros (ByteLength def)) with (row (ByteLength def) [])
      by (unfold row; change (zlen (@nil byte)) with 0; by rewrite Z.sub_0_r).
    apply (encode_fields_total _ _ _ 0); try done; [lia|]. change (zlen (@nil byte)) with 0. destruct (Fields def); [lia|by destruct Hl].
  - destruct (Z.eqb_spec (zlen b) (ByteLength def)) as [Hz|]; [|done]. cbn [negb].
    clear Hp Hn. generalize (∅ : gmap bytes any) as m. revert Hl. assert (0 <= 0) as H0 by lia. revert H0. generalize 0 at 2 3 as prev.
    induction Hc as [|f rest Hf _ IH]; intros prev H0 Hl m; [done|]. destruct Hl as (Ho & Hlen & Hend & Hl). cbn [decode_fields].
    apply total_bind; [|intros v _; by apply (IH (Offset f + InternalLength f)); [lia|]].
    unfold readValue. rewrite field_end_ok by lia. rewrite go_slice_ok, ok_bind by lia. apply read_total; [done|].
    unfold zlen in *. rewrite length_take, length_drop. lia.
Qed.

(** Values that no field of a definition takes for a packed decimal. *)
Definition raw_inputs (def : RfcStructureDefinition) : gmap bytes any :=
  list_to_map (map (fun f => (FieldName f, VBytes [])) (Fields def)).

Lemma raw_inputs_lookup def x v : raw_inputs def !! x = Some v -> v = VBytes [].
Proof.
  unfold raw_inputs. intros H%elem_of_list_to_map_2%list_elem_of_In. apply in_map_iff in H as (f & E & _). by injection E as _ <-.
Qed.

Lemma raw_inputs_field def f : f ∈ Fields def -> raw_inputs def !! FieldName f = Some (VBytes []).
Proof.
  intros Hf. destruct (raw_inputs def !! FieldName f) as [v|] eqn:E; [by apply raw_inputs_lookup in E; subst|].
  exfalso. unfold raw_inputs in E. apply not_elem_of_list_to_map_2 in E. apply E. rewrite <- list_fmap_compose.
  apply list_elem_of_fmap. by exists f.
Qed.

Lemma fitting_decodes def b : ends_fit def -> total (Decode def b).
Proof.
  intros Hfit. apply (structure_total def (raw_inputs def) b Hfit).
  - intros x v Hv. apply raw_inputs_lookup in Hv. by subst.
  - apply Forall_forall. intros f Hf s _ Hi. unfold field_input in Hi. rewrite raw_inputs_field in Hi by done. by apply Ok_inj in Hi.
Qed.

(** A definition whose one field ends beyond the range of [int32]. *)
Definition overflowing_definition : RfcStructureDefinition :=
  mkSDef (lit "T") 4 [mkSField (lit "T") (lit "A") 1 (2 ^ 31 - 2) (2 ^ 31 - 2) 0 (lit "X")].

(** The definition check adds offset and length in 32 bits, so it accepts a field that ends
    beyond the row, and both Encode and Decode panic on the accepted definition. *)
Theorem definition_overflow :
  ValidateCodec overflowing_definition [] = Ok overflowing_definition /\
  Decode overflowing_definition (zeros 4) = Panic /\ Encode overflowing_definition ∅ = Panic.
Proof. vm_compute. done. Qed.

(** ** Instances *)
Definition fld (name exid : string) (pos off len dec : Z) : RfcStructureField :=
  mkSField (lit "ZTEST") (lit name) pos off len dec (lit exid).

(** The row of the package's own tests, with a NUMC tail and a temporal field added. *)
Definition flatDef : RfcStructureDefinition :=
  mkSDef (lit "ZTEST") 52
    [fld "TEXT" "C" 1 0 8 0; fld "NUM" "N" 2 8 6 0; fld "COUNT" "I" 3 16 4 0; fld "SHORT" "s" 4 20 2 0; fld "BYTE" "b" 5 22 1 0;
     fld "AMOUNT" "P" 6 24 4 2; fld "DVAL" "D" 7 28 16 0; fld "DAY" "d" 8 44 4 0; fld "RAW" "X" 9 48 4 0].

Definition flatInput : gmap bytes any :=
  list_to_map [(lit "TEXT", VString (lit "hi")); (lit "NUM", VString (lit "42")); (lit "COUNT", VInt KInt32 1000); (lit "SHORT", VInt KInt16 (-7));
    (lit "BYTE", VInt KUint8 255); (lit "AMOUNT", VString (lit "12.34")); (lit "DVAL", VString (lit "20260716")); (lit "RAW", VBytes [x01; x02; x03])].

Definition flatRow : bytes := match Encode flatDef flatInput with Ok b => b | _ => [] end.

Lemma flat_encodes : Encode flatDef flatInput = Ok flatRow.
Proof. vm_compute. reflexivity. Qed.

Lemma flat_typed : inputs_typed flatInput.
Proof. intros k v H. apply elem_of_list_to_map_2 in H. repeat (apply elem_of_cons in H as [[= -> ->]|H]; [done|]). by apply elem_of_nil in H. Qed.

Lemma flat_fits : ends_fit flatDef.
Proof. apply (bool_decide_eq_true_1 (ends_fit flatDef)). vm_compute. reflexivity. Qed.

Lemma structure_roundtrip_witness :
  Encode flatDef flatInput = Ok flatRow /\ zlen flatRow = 52 /\
  exists out, Decode flatDef flatRow = Ok out /\ dom out = list_to_set (map FieldName (Fields flatDef)) /\
    Forall (fun f => exists v v', field_input flatInput f = Ok v /\ out !! FieldName f = Some v' /\ normal_form f v v') (Fields flatDef).
Proof. split; [exact flat_encodes|]. exact (structure_roundtrip flatDef flatInput flatRow flat_fits flat_typed flat_encodes). Defined.

Lemma decode_typed_witness :
  exists out, Decode flatDef flatRow = Ok out /\ dom out = list_to_set (map FieldName (Fields flatDef)) /\
  Forall (fun f => exists v, out !! FieldName f = Some v /\ has_type f v) (Fields flatDef).
Proof.
  assert (match Decode flatDef flatRow with Ok _ => true | _ => false end = true) as Hok by (vm_compute; reflexivity).
  destruct (Decode flatDef flatRow) as [out|e|] eqn:H; [|discriminate Hok..]. exists out. split; [reflexivity|]. exact (decode_typed _ _ _ H).
Defined.

Lemma flat_packed : packed_inputs_ok flatDef flatInput.
Proof.
  unfold packed_inputs_ok. repeat (apply Forall_cons; split; [intros s He Hs|]); [..|apply Forall_nil; done].
  all: try (vm_compute in He; discriminate). assert (s = lit "12.34") as -> by (vm_compute in Hs; by inversion Hs). vm_compute. done.
Qed.

Lemma structure_total_witness : total (Encode flatDef flatInput) /\ total (Decode flatDef flatRow).
Proof. exact (structure_total flatDef flatInput flatRow flat_fits flat_typed flat_packed). Defined.
