(* ===== verification/ClassicXrfc.v ===== *)
(** Package [xrfc], internal/xrfc/classic_xrfc.go: the XML subset that carries a flat
    structure or table with a STRING or XSTRING field.

    An [any] value is the dynamic type of file Structure; the value of a parameter is a row, a
    list of rows, or anything else.  The parser is the text it has not read yet: its offset is
    the length of what it has read, and only differences of offsets are used.  [strings.Builder]
    is the list of what was written.  The paths of error texts are left out.

    The theorems: what is encoded decodes, under the same limits, to the normal form of each
    cell; the decoder ends on every input without a panic when no field is packed; and a
    document with a packed cell can make it panic. *)
From stdpp Require Import base list numbers strings gmap pretty.
From Stdlib Require Import ZArith Lia Strings.Byte.
From S2P Require Import Prelude Errors Text Base64 PackedDecimal Float64 ClassicTemporal UnicodeScalar XrfcNames Cpic ClassicRfc Structure.

Open Scope Z_scope.

(** ** Limits and names *)
Definition maxUint32Limit : Z := 2 ^ 32 - 1.

(** Another string than the two kinds is refused. *)
Inductive Kind : Type := KindStructure | KindTable | KindOther.

Record Limits : Type := mkLimits {
  MaxCellBytes : option Z; MaxRowBytes : option Z; MaxParameterBytes : option Z; MaxRows : option Z
}.

Record NormalizedLimits : Type := mkNormalized { nl_MaxCellBytes : Z; nl_MaxRowBytes : Z; nl_MaxParameterBytes : Z; nl_MaxRows : Z }.

Definition boundedLimit (value : option Z) (fallback maximum : Z) : res Z :=
  let normalized := default fallback value in
  if (normalized <? 0) || (maximum <? normalized) then Err errXRange else Ok normalized.

Definition NormalizeLimits (limits : Limits) : res NormalizedLimits :=
  cell ← boundedLimit (MaxCellBytes limits) DefaultMaxFieldLength DefaultMaxFieldLength;
  row ← boundedLimit (MaxRowBytes limits) DefaultMaxFieldLength DefaultMaxFieldLength;
  parameter ← boundedLimit (MaxParameterBytes limits) DefaultMaxFieldChainLength DefaultMaxFieldChainLength;
  rows ← boundedLimit (MaxRows limits) DefaultMaxFieldCount maxUint32Limit;
  Ok (mkNormalized cell row parameter rows).

Definition is_name_start (b : byte) : bool := in_range 0x41 0x5a (b2z b) || in_range 0x61 0x7a (b2z b) || (b2z b =? 0x5f).
Definition is_name_char (b : byte) : bool := is_name_start b || is_digit b.

(** [^[A-Za-z_][A-Za-z0-9_]*$] *)
Definition simpleXMLName (v : bytes) : bool := match v with b :: rest => is_name_start b && forallb is_name_char rest | [] => false end.

Definition AssertXMLName (v : bytes) : res unit := if simpleXMLName v then Ok tt else Err errXProtocol.

Definition OpenTagByteLength (name : bytes) : Z := zlen name + 2.
Definition CloseTagByteLength (name : bytes) : Z := zlen name + 3.

Definition xml_code_point (codePoint : Z) : bool :=
  negb ((codePoint =? 0) || ((codePoint <? 0x20) && negb (codePoint =? 0x09) && negb (codePoint =? 0x0a) && negb (codePoint =? 0x0d)) ||
        (codePoint =? 0xfffe) || (codePoint =? 0xffff)).

Definition assertXMLCodePoint (codePoint : Z) : res unit := if xml_code_point codePoint then Ok tt else Err errXProtocol.

Definition is_markup (r : Z) : bool := (r =? 0x26) || (r =? 0x3c) || (r =? 0x3e).

(** The bytes of a rune in a text: five for the three characters of markup. *)
Fixpoint escaped_length (rs : list Z) (byteLength : Z) : res Z :=
  match rs with
  | [] => Ok byteLength
  | r :: rs => assertXMLCodePoint r;; escaped_length rs (byteLength + (if is_markup r then 5 else zlen (EncodeRune r)))
  end.

Definition EscapedXMLByteLength (v : bytes) : res Z :=
  AssertUnicodeScalarText v;; escaped_length (runes v) 0.

Definition characterCapacity (field : RfcStructureField) : res Z :=
  if negb (Z.land (InternalLength field) 1 =? 0) then Err errXRange else Ok (Z.quot (InternalLength field) 2).

Definition utf16Len (s : bytes) : Z := zlen (utf16_encode (runes s)).

Definition supportedFieldTypes : list bytes :=
  map lit ["I"; "C"; "N"; "D"; "T"; "X"; "P"; "F"; "8"; "g"; "y"]%string.

Fixpoint assert_xml_fields (fields : list RfcStructureField) : res unit :=
  match fields with
  | [] => Ok tt
  | field :: fields =>
      AssertXMLName (FieldName field);;
      if bool_decide (Exid field ∈ supportedFieldTypes) then assert_xml_fields fields else Err errXProtocol
  end.

Definition normalizeDefinition (def : RfcStructureDefinition) : res RfcStructureDefinition :=
  normalized ← ValidateCodec def [];
  dynamic ← HasDynamicFields normalized;
  if negb dynamic then Err errXProtocol else assert_xml_fields (Fields normalized);; Ok normalized.

Definition ValidateDefinition (def : RfcStructureDefinition) : res RfcStructureDefinition := normalizeDefinition def.

(** ** Values *)
Definition asInt64 (v : any) : option Z := match v with VInt (KInt | KInt32 | KInt64) n => Some n | _ => None end.

Definition format_int (n : Z) : bytes := lit (pretty n).

Definition integerCell (v : any) : res bytes :=
  match asInt64 v with
  | Some n => if (n <? -0x80000000) || (0x7fffffff <? n) then Err errXRange else Ok (format_int n)
  | None => Err errXRange
  end.

Definition jsFloatString (bits : Z) : bytes :=
  if magnitude bits =? 0 then (if is_negative bits then lit "-0" else lit "0") else FormatFloat bits.

Definition canonicalDateText (v : any) : res bytes :=
  match v with
  | VString s =>
      AssertClassicDate s;;
      if bytes_eqb s [] || bytes_eqb s (lit "        ") then Ok []
      else a ← go_slice s 0 4; b ← go_slice s 4 6; c ← go_slice s 6 8; Ok (a ++ lit "-" ++ b ++ lit "-" ++ c)
  | _ => Err errXType
  end.

Definition canonicalTimeText (v : any) : res bytes :=
  match v with
  | VString s =>
      AssertClassicTime s;;
      if bytes_eqb s [] || bytes_eqb s (lit "      ") then Ok []
      else a ← go_slice s 0 2; b ← go_slice s 2 4; c ← go_slice s 4 6; Ok (a ++ lit ":" ++ b ++ lit ":" ++ c)
  | _ => Err errXType
  end.

(** The cases of [switch field.Exid], by the codes this subset supports. *)
Inductive cell_type : Type := TInt | TChar | TNum | TDate | TTime | TRaw | TPacked | TFloat | TInt8 | TString | TXString | TUnsupported.

Definition cell_types : list (bytes * cell_type) :=
  [(lit "I", TInt); (lit "C", TChar); (lit "N", TNum); (lit "D", TDate); (lit "T", TTime); (lit "X", TRaw); (lit "P", TPacked); (lit "F", TFloat);
   (lit "8", TInt8); (lit "g", TString); (lit "y", TXString)].

Definition cell_type_of (exid : bytes) : cell_type :=
  match find (fun p => bytes_eqb (fst p) exid) cell_types with Some (_, t) => t | None => TUnsupported end.

Definition initialCell (field : RfcStructureField) : res any :=
  match cell_type_of (Exid field) with
  | TInt => Ok (VInt KInt32 0)
  | TChar | TString | TNum => Ok (VString [])
  | TDate => Ok (VString (lit "00000000"))
  | TTime => Ok (VString (lit "000000"))
  | TRaw | TXString => Ok (VBytes [])
  | TPacked => Ok (VString (lit "0"))
  | TFloat => Ok (VFloat64 0)
  | TInt8 => Ok (VInt KInt64 0)
  | TUnsupported => Err errXProtocol
  end.

(** ** Planning *)
Record plannedCell : Type := mkCell { pc_field : RfcStructureField; pc_isBytes : bool; pc_text : bytes; pc_bytes : bytes; pc_encodedByteLength : Z }.
Record plannedRow : Type := mkRow { pr_cells : list plannedCell; pr_encodedByteLength : Z }.

Definition base64_length (n : Z) : Z := Z.quot (n + 2) 3 * 4.

Definition plannedBytesCell (field : RfcStructureField) (v : bytes) (limits : NormalizedLimits) (exactLength : Z) (fixed : bool) : res plannedCell :=
  let byteLength := zlen v in
  if fixed && (exactLength <? byteLength) then Err errXRange
  else
    let plannedByteLength := if fixed then exactLength else byteLength in
    let encodedByteLength := base64_length plannedByteLength in
    if (nl_MaxCellBytes limits <? encodedByteLength) || (nl_MaxRowBytes limits <? encodedByteLength) || (nl_MaxParameterBytes limits <? encodedByteLength)
    then Err errXRange
    else
      let bytes := if fixed && negb (exactLength =? byteLength) then v ++ zeros (exactLength - byteLength) else v in
      Ok (mkCell field true [] bytes encodedByteLength).

Definition min3 (a b c : Z) : Z :=
  let m := a in
  let m := if b <? m then b else m in
  if c <? m then c else m.

(** The text of a cell that is not bytes. *)
Definition cell_text (field : RfcStructureField) (v : any) (limits : NormalizedLimits) : res bytes :=
  match cell_type_of (Exid field) with
  | TInt => integerCell v
  | TChar =>
      match v with
      | VString s =>
          AssertUnicodeScalarText s;;
          capacity ← characterCapacity field;
          if capacity <? utf16Len s then Err errXRange else Ok s
      | _ => Err errXType
      end
  | TNum =>
      capacity ← characterCapacity field;
      if min3 (nl_MaxCellBytes limits) (nl_MaxRowBytes limits) (nl_MaxParameterBytes limits) <? capacity then Err errXRange
      else
        match v with
        | VString s =>
            if negb (numericDigits s) || (capacity <? zlen s) then Err errXType
            else Ok (replicate (Z.to_nat (capacity - zlen s)) x30 ++ s)
        | _ => Err errXType
        end
  | TDate => canonicalDateText v
  | TTime => canonicalTimeText v
  | TPacked =>
      match v with
      | VString s => packed ← EncodePackedDecimal s (InternalLength field) (Decimals field); DecodePackedDecimal packed (Decimals field)
      | _ => Err errXType
      end
  | TFloat => match v with VFloat64 bits => if negb (is_finite bits) then Err errXType else Ok (jsFloatString bits) | _ => Err errXType end
  | TInt8 => match asInt64 v with Some n => Ok (format_int n) | None => Err errXType end
  | TString => match v with VString s => AssertNulFreeUnicodeScalarText s;; Ok s | _ => Err errXType end
  | TRaw | TXString | TUnsupported => Err errXProtocol
  end.

Definition planCell (field : RfcStructureField) (v : any) (limits : NormalizedLimits) : res plannedCell :=
  match cell_type_of (Exid field), v with
  | TRaw, VBytes b => plannedBytesCell field b limits (InternalLength field) true
  | TXString, VBytes b => plannedBytesCell field b limits 0 false
  | (TRaw | TXString), _ => Err errXType
  | _, _ =>
      text ← cell_text field v limits;
      encodedByteLength ← EscapedXMLByteLength text;
      if nl_MaxCellBytes limits <? encodedByteLength then Err errXRange else Ok (mkCell field false text [] encodedByteLength)
  end.

Abbreviation row := (gmap bytes any).

Definition cell_input (input : row) (field : RfcStructureField) : res any :=
  match input !! FieldName field with Some v => Ok v | None => initialCell field end.

Fixpoint plan_cells (fields : list RfcStructureField) (input : row) (limits : NormalizedLimits) (encodedByteLength : Z) (cells : list plannedCell) : res plannedRow :=
  match fields with
  | [] => Ok (mkRow cells encodedByteLength)
  | field :: fields =>
      v ← cell_input input field;
      cell ← planCell field v limits;
      let encodedByteLength := encodedByteLength + (OpenTagByteLength (FieldName field) + pc_encodedByteLength cell + CloseTagByteLength (FieldName field)) in
      if nl_MaxRowBytes limits <? encodedByteLength then Err errXRange
      else plan_cells fields input limits encodedByteLength (cells ++ [cell])
  end.

Definition planRow (def : RfcStructureDefinition) (input : row) (limits : NormalizedLimits) (itemWrapper : bool) : res plannedRow :=
  if unknown_field (list_to_set (map FieldName (Fields def))) input then Err errXProtocol
  else plan_cells (Fields def) input limits (if itemWrapper then 13 else 0) [].

(** ** Writing *)
Definition escape_rune_text (r : Z) : bytes :=
  if r =? 0x26 then lit "&#38;" else if r =? 0x3c then lit "&#60;" else if r =? 0x3e then lit "&#62;" else EncodeRune r.

Definition writeEscapedText (v : bytes) : bytes := runes v ≫= escape_rune_text.

Definition open_tag (name : bytes) : bytes := lit "<" ++ name ++ lit ">".
Definition close_tag (name : bytes) : bytes := lit "</" ++ name ++ lit ">".

Definition write_cell (cell : plannedCell) : bytes :=
  open_tag (FieldName (pc_field cell)) ++
  (if pc_isBytes cell then EncodeToString (pc_bytes cell) else writeEscapedText (pc_text cell)) ++
  close_tag (FieldName (pc_field cell)).

Definition writePlannedRow (r : plannedRow) (itemWrapper : bool) : bytes :=
  (if itemWrapper then lit "<item>" else []) ++ (pr_cells r ≫= write_cell) ++ (if itemWrapper then lit "</item>" else []).

Inductive pvalue : Type := PRow (r : row) | PTable (rows : list row) | POther.

Fixpoint plan_rows (def : RfcStructureDefinition) (table : list row) (limits : NormalizedLimits) (byteLength : Z) (rows : list plannedRow) : res (Z * list plannedRow) :=
  match table with
  | [] => Ok (byteLength, rows)
  | r :: table =>
      planned ← planRow def r limits true;
      let byteLength := byteLength + pr_encodedByteLength planned in
      if nl_MaxParameterBytes limits <? byteLength then Err errXRange else plan_rows def table limits byteLength (rows ++ [planned])
  end.

(** The rows of a parameter and the bytes they take. *)
Definition plan_value (def : RfcStructureDefinition) (kind : Kind) (v : pvalue) (limits : NormalizedLimits) (byteLength : Z) : res (Z * list plannedRow) :=
  match kind, v with
  | KindTable, PTable table =>
      if nl_MaxRows limits <? zlen table then Err errXRange else plan_rows def table limits byteLength []
  | KindTable, _ => Err errXType
  | _, PRow r =>
      planned ← planRow def r limits false;
      let byteLength := byteLength + pr_encodedByteLength planned in
      if nl_MaxParameterBytes limits <? byteLength then Err errXRange else Ok (byteLength, [planned])
  | _, _ => Err errXType
  end.

Definition is_table (kind : Kind) : bool := match kind with KindTable => true | _ => false end.

Definition EncodeParameter (parameterName : bytes) (def : RfcStructureDefinition) (kind : Kind) (v : pvalue) (limits : Limits) : res bytes :=
  AssertXMLName parameterName;;
  if match kind with KindOther => true | _ => false end then Err errXType
  else
    normalized ← normalizeDefinition def;
    normalizedLimits ← NormalizeLimits limits;
    let byteLength := OpenTagByteLength parameterName + CloseTagByteLength parameterName in
    if nl_MaxParameterBytes normalizedLimits <? byteLength then Err errXRange
    else
      '(byteLength, rows) ← plan_value normalized kind v normalizedLimits byteLength;
      let out := open_tag parameterName ++ (rows ≫= fun r => writePlannedRow r (is_table kind)) ++ close_tag parameterName in
      if negb (zlen out =? byteLength) then Err errXProtocol else Ok out.

(** ** Parsing *)
Fixpoint strip_prefix (token rest : bytes) : option bytes :=
  match token, rest with
  | [], _ => Some rest
  | b :: token, c :: rest => if bool_decide (b = c) then strip_prefix token rest else None
  | _ :: _, [] => None
  end.

(** The unread text and the bytes of the decoded values so far. *)
Record parser : Type := mkParser { p_rest : bytes; p_projectedBytes : Z }.

Definition set_rest (rest : bytes) (p : parser) : parser := mkParser rest (p_projectedBytes p).

Definition startsWithTag (name : bytes) (closing : bool) (p : parser) : bool :=
  match strip_prefix (if closing then close_tag name else open_tag name) (p_rest p) with Some _ => true | None => false end.

Definition token (t : bytes) : M parser unit := fun p =>
  match strip_prefix t (p_rest p) with
  | Some rest => (Ok tt, set_rest rest p)
  | None => (Err errXProtocol, p)
  end.

Definition open (name : bytes) : M parser unit := token (open_tag name).
Definition close (name : bytes) : M parser unit := token (close_tag name).

(** [strings.Contains(raw, "]]>")] *)
Fixpoint contains_cdata_end (s : bytes) : bool :=
  match s with
  | [] => false
  | _ :: rest => match strip_prefix (lit "]]>") s with Some _ => true | None => contains_cdata_end rest end
  end.

Fixpoint assert_code_points (rs : list Z) : res unit :=
  match rs with
  | [] => Ok tt
  | r :: rs => assertXMLCodePoint r;; assert_code_points rs
  end.

(** The loop over the references; every round takes at least one byte. *)
Fixpoint entities_loop (fuel : nat) (raw : bytes) (offset : Z) (b : bytes) : res bytes :=
  match fuel with
  | O => Err EFuel
  | S fuel =>
      if offset <? zlen raw then
        rest ← go_from raw offset;
        match index_byte rest x26 with
        | None => Ok (b ++ rest)
        | Some rel =>
            let amp := Z.of_nat rel + offset in
            '(codePoint, length) ← DecodeXMLEntityReference raw amp;
            assertXMLCodePoint codePoint;;
            entities_loop fuel raw (amp + length) (b ++ take rel rest ++ EncodeRune codePoint)
        end
      else Ok b
  end.

Definition decodeEntities (raw : bytes) : res bytes :=
  result ← entities_loop (S (length raw)) raw 0 [];
  AssertUnicodeScalarText result;;
  assert_code_points (runes result);;
  Ok result.

Definition cell (limits : NormalizedLimits) : M parser bytes := fun p =>
  match index_byte (p_rest p) x3c with
  | None => (Err errXProtocol, p)
  | Some rel =>
      let raw := take rel (p_rest p) in
      let p := set_rest (drop rel (p_rest p)) p in
      if contains_cdata_end raw then (Err errXProtocol, p)
      else if nl_MaxCellBytes limits <? zlen raw then (Err errXRange, p)
      else (decodeEntities raw, p)
  end.

Definition finish : M parser unit := fun p => (if bytes_eqb (p_rest p) [] then Ok tt else Err errXProtocol, p).

Definition is_break (b : byte) : bool := bool_decide (b = x0d) || bool_decide (b = x0a).
Definition unwrapBase64 (v : bytes) : bytes := if existsb is_break v then filter (fun b => is_break b = false) v else v.

(** The length that the padding announces. *)
Definition announced_length (v : bytes) : Z :=
  match rev v with
  | x3d :: x3d :: _ => zlen v / 4 * 3 - 2
  | x3d :: _ => zlen v / 4 * 3 - 1
  | _ => zlen v / 4 * 3
  end.

Definition DecodeBase64 (v : bytes) (maximum : Z) : res bytes :=
  let v := unwrapBase64 v in
  if zlen v =? 0 then Ok []
  else if negb (Z.land (zlen v) 3 =? 0) || negb (canonicalBase64 v) then Err errXProtocol
  else if maximum <? announced_length v then Err errXRange
  else
    match DecodeString v with
    | None => Err errXProtocol
    | Some decoded => if negb (bytes_eqb (EncodeToString decoded) v) then Err errXProtocol else Ok decoded
    end.

Definition consume (limits : NormalizedLimits) (byteLength : Z) : M parser unit := fun p =>
  if nl_MaxCellBytes limits <? byteLength then (Err errXRange, p)
  else
    let p := mkParser (p_rest p) (p_projectedBytes p + byteLength) in
    (if nl_MaxParameterBytes limits <? p_projectedBytes p then Err errXRange else Ok tt, p).

(** Zero, or a number without leading zeros and with an optional minus sign. *)
Definition canonicalInteger (v : bytes) : bool :=
  bytes_eqb v (lit "0") ||
  match (match v with x2d :: ds => ds | _ => v end) with
  | d :: ds => nonzero_digit d && forallb is_digit ds
  | [] => false
  end.

(** [strconv.ParseInt(v, 10, 64)] of a canonical integer *)
Definition ParseInt (v : bytes) : option Z :=
  let n := match v with x2d :: ds => - dec_value ds | _ => dec_value v end in
  if (- 2 ^ 63 <=? n) && (n <? 2 ^ 63) then Some n else None.

(** [^\d{4}-\d{2}-\d{2}$] and [^\d{2}:\d{2}:\d{2}$] *)
Definition xrfcDatePattern (v : bytes) : bool :=
  match v with
  | [a; b; c; d; x2d; e; f; x2d; g; h] => forallb is_digit [a; b; c; d; e; f; g; h]
  | _ => false
  end.
Definition xrfcTimePattern (v : bytes) : bool :=
  match v with
  | [a; b; x3a; c; d; x3a; e; f] => forallb is_digit [a; b; c; d; e; f]
  | _ => false
  end.

(** [strings.ReplaceAll(v, c, "")] for one byte *)
Definition remove_byte (c : byte) (v : bytes) : bytes := filter (fun b => b <> c) v.

Definition decodeCell (field : RfcStructureField) (v : bytes) (limits : NormalizedLimits) : M parser any :=
  match cell_type_of (Exid field) with
  | TInt =>
      if negb (canonicalInteger v) then lift (Err errXProtocol)
      else match ParseInt v with
           | Some n => if (n <? -0x80000000) || (0x7fffffff <? n) then lift (Err errXRange) else mret (VInt KInt32 n)
           | None => lift (Err errXRange)
           end
  | TChar =>
      lift (AssertUnicodeScalarText v);;
      capacity ← lift (characterCapacity field);
      if capacity <? utf16Len v then lift (Err errXRange) else mret (VString v)
  | TNum =>
      capacity ← lift (characterCapacity field);
      if negb (numericDigits v) || (capacity <? zlen v) then lift (Err errXProtocol)
      else consume limits capacity;; mret (VString (replicate (Z.to_nat (capacity - zlen v)) x30 ++ v))
  | TDate =>
      if zlen v =? 0 then mret (VString [])
      else if negb (xrfcDatePattern v) then lift (Err errXProtocol)
      else let date := remove_byte x2d v in lift (AssertClassicDate date);; mret (VString date)
  | TTime =>
      if zlen v =? 0 then mret (VString [])
      else if negb (xrfcTimePattern v) then lift (Err errXProtocol)
      else let t := remove_byte x3a v in lift (AssertClassicTime t);; mret (VString t)
  | TRaw =>
      consume limits (InternalLength field);;
      decoded ← lift (DecodeBase64 v (nl_MaxCellBytes limits));
      if negb (zlen decoded =? InternalLength field) then lift (Err errXRange) else mret (VBytes decoded)
  | TPacked =>
      packed ← lift (EncodePackedDecimal v (InternalLength field) (Decimals field));
      s ← lift (DecodePackedDecimal packed (Decimals field));
      mret (VString s)
  | TFloat =>
      match decimalPattern v with
      | None => lift (Err errXProtocol)
      | Some m => match ParseFloat m with Some bits => mret (VFloat64 bits) | None => lift (Err errXProtocol) end
      end
  | TInt8 =>
      if negb (canonicalInteger v) || (20 <? zlen v) then lift (Err errXProtocol)
      else match ParseInt v with Some n => mret (VInt KInt64 n) | None => lift (Err errXRange) end
  | TString => lift (AssertNulFreeUnicodeScalarText v);; mret (VString v)
  | TXString =>
      decoded ← lift (DecodeBase64 v (nl_MaxCellBytes limits));
      consume limits (zlen decoded);;
      mret (VBytes decoded)
  | TUnsupported => lift (Err errXProtocol)
  end.

Definition tag_item : bytes := lit "item".

Fixpoint parse_cells (fields : list RfcStructureField) (limits : NormalizedLimits) (result : row) : M parser row :=
  match fields with
  | [] => mret result
  | field :: fields =>
      open (FieldName field);;
      text ← cell limits;
      close (FieldName field);;
      decoded ← decodeCell field text limits;
      parse_cells fields limits (<[FieldName field := decoded]> result)
  end.

Definition parseRow (def : RfcStructureDefinition) (limits : NormalizedLimits) (itemWrapper : bool) : M parser row := fun p =>
  let start := zlen (p_rest p) in
  (_ ← (if itemWrapper then open tag_item else mret tt);
   result ← parse_cells (Fields def) limits ∅;
   _ ← (if itemWrapper then close tag_item else mret tt);
   (fun p : parser => if nl_MaxRowBytes limits <? start - zlen (p_rest p) then (Err errXRange, p) else (Ok result, p)) : M parser row) p.

Definition snapshotAndValidate (v : bytes) (limits : NormalizedLimits) : res bytes :=
  let byteLength := zlen v in
  if (byteLength =? 0) || (nl_MaxParameterBytes limits <? byteLength) then Err errXRange
  else if match strip_prefix [xef; xbb; xbf] v with Some _ => true | None => false end then Err errXProtocol
  else if negb (ValidString v) then Err errXProtocol else Ok v.

(** A simple name between angle brackets, at the start. *)
Definition topLevelTagPattern (text : bytes) : option bytes :=
  match text with
  | x3c :: rest =>
      let '(name, after) := span is_name_char rest in
      match after with
      | x3e :: _ => if simpleXMLName name then Some name else None
      | _ => None
      end
  | _ => None
  end.

Definition DecodeParameterName (v : bytes) (limits : Limits) : res bytes :=
  normalizedLimits ← NormalizeLimits limits;
  text ← snapshotAndValidate v normalizedLimits;
  match topLevelTagPattern text with None => Err errXProtocol | Some name => Ok name end.

(** The rows up to the closing tag; every round takes at least the tag of a row. *)
Fixpoint parse_rows (fuel : nat) (parameterName : bytes) (def : RfcStructureDefinition) (limits : NormalizedLimits) (rows : list row) : M parser (list row) := fun p =>
  match fuel with
  | O => (Err EFuel, p)
  | S fuel =>
      if startsWithTag parameterName true p then (Ok rows, p)
      else if nl_MaxRows limits <=? zlen rows then (Err errXRange, p)
      else (r ← parseRow def limits true; parse_rows fuel parameterName def limits (rows ++ [r])) p
  end.

Definition parse_value (parameterName : bytes) (def : RfcStructureDefinition) (kind : Kind) (limits : NormalizedLimits) (size : nat) : M parser pvalue :=
  open parameterName;;
  v ← (if is_table kind then rows ← parse_rows (S size) parameterName def limits []; mret (PTable rows)
       else r ← parseRow def limits false; mret (PRow r));
  close parameterName;;
  finish;;
  mret v.

Definition DecodeParameter (parameterName : bytes) (def : RfcStructureDefinition) (kind : Kind) (v : bytes) (limits : Limits) : res pvalue :=
  AssertXMLName parameterName;;
  if match kind with KindOther => true | _ => false end then Err errXType
  else
    normalized ← normalizeDefinition def;
    normalizedLimits ← NormalizeLimits limits;
    text ← snapshotAndValidate v normalizedLimits;
    fst (parse_value parameterName normalized kind normalizedLimits (length text) (mkParser text 0)).

(** ** A run *)
Definition xfield (name exid : string) (pos off len dec : Z) : RfcStructureField := mkSField (lit "T") (lit name) pos off len dec (lit exid).

Definition sample_def : RfcStructureDefinition :=
  mkSDef (lit "T") 60 [xfield "ID" "I" 1 0 4 0; xfield "TEXT" "g" 2 4 8 0; xfield "NUM" "N" 3 12 12 0; xfield "DAY" "D" 4 24 16 0;
    xfield "RAW" "X" 5 40 3 0; xfield "AMT" "P" 6 43 4 2].

Definition no_limits : Limits := mkLimits None None None None.

Definition sample_value : pvalue := PTable [list_to_map [(lit "ID", VInt KInt 7); (lit "TEXT", VString (lit "a<b&c")); (lit "NUM", VString (lit "42"));
  (lit "DAY", VString (lit "20240131")); (lit "RAW", VBytes [x01]); (lit "AMT", VString (lit "12.5"))]; ∅].

Definition sample_xml : bytes := match EncodeParameter (lit "P1") sample_def KindTable sample_value no_limits with Ok b => b | _ => [] end.

Example classic_run :
  sample_xml = lit "<P1><item><ID>7</ID><TEXT>a&#60;b&#38;c</TEXT><NUM>000042</NUM><DAY>2024-01-31</DAY><RAW>AQAA</RAW><AMT>12.50</AMT></item><item><ID>0</ID><TEXT></TEXT><NUM>000000</NUM><DAY>0000-00-00</DAY><RAW>AAAA</RAW><AMT>0.00</AMT></item></P1>" /\
  match DecodeParameter (lit "P1") sample_def KindTable sample_xml no_limits with
  | Ok (PTable [r; _]) => map_to_list r <> [] /\ r !! lit "TEXT" = Some (VString (lit "a<b&c")) /\ r !! lit "RAW" = Some (VBytes [x01; x00; x00]) /\
      r !! lit "DAY" = Some (VString (lit "20240131"))
  | _ => False
  end.
Proof. vm_compute. split; [reflexivity|]. repeat split; discriminate. Qed.

(** ** Text *)
Lemma strip_prefix_app t r : strip_prefix t (t ++ r) = Some r.
Proof. induction t as [|b t IH]; [done|]. cbn. by rewrite bool_decide_eq_true_2. Qed.

Lemma strip_prefix_inv t s r : strip_prefix t s = Some r -> s = t ++ r.
Proof.
  revert s. induction t as [|b t IH]; intros s H; cbn in H; [by injection H as ->|]. destruct s as [|c s]; [done|].
  destruct (bool_decide (b = c)) eqn:E; [|done]. apply bool_decide_eq_true in E. subst c. cbn. f_equal. by apply IH.
Qed.

Definition xml_text (rs : list Z) : Prop := Forall (fun r => xml_code_point r = true) rs.

Lemma escaped_length_inv rs n k : escaped_length rs n = Ok k -> xml_text rs /\ k = n + zlen (rs ≫= escape_rune_text).
Proof.
  revert n. induction rs as [|r rs IH]; intros n H; cbn [escaped_length] in H.
  { apply Ok_inj in H. subst k. split; [constructor|]. change (zlen _) with 0. lia. }
  ok_step H as u Hu. unfold assertXMLCodePoint in Hu. destruct (xml_code_point r) eqn:E; [|done]. apply IH in H as [Hx ->]. split; [by constructor|].
  cbn. unfold zlen. rewrite length_app. unfold is_markup, escape_rune_text.
  destruct (Z.eqb_spec r 0x26); [cbn; lia|]. destruct (Z.eqb_spec r 0x3c); [cbn; lia|]. destruct (Z.eqb_spec r 0x3e); cbn [orb]; [cbn; lia|]. unfold zlen. lia.
Qed.

(** The three characters of markup do not occur in the encoding of another rune. *)
Lemma encode_rune_bytes r b : is_scalar r -> b2z b < 0x80 -> (b ∈ EncodeRune r) -> b2z b = r.
Proof.
  intros Hs Hb. unfold EncodeRune. rewrite (proj2 (is_scalarb_spec r) Hs). unfold is_scalar, MaxRune in Hs. pose proof (b2z_range b).
  assert (Hm : forall z, b = z2b z -> b2z b = z mod 256) by (intros z ->; apply b2z_z2b).
  case_tests; rewrite ?elem_of_cons, elem_of_nil; intros Hin;
    repeat (destruct Hin as [Hin|Hin]); try done; apply Hm in Hin; Z.div_mod_to_equations; lia.
Qed.

Lemma escape_rune_plain r b : is_scalar r -> b2z b = 0x26 \/ b2z b = 0x3c \/ b2z b = 0x3e -> is_markup r = false -> (b ∉ EncodeRune r).
Proof.
  intros Hs Hb Hm Hin. apply encode_rune_bytes in Hin; [|done|lia]. unfold is_markup in Hm. rewrite <- Hin in Hm.
  destruct Hb as [Hb|[Hb|Hb]]; rewrite Hb in Hm; done.
Qed.

Lemma escape_rune_cases r : is_scalar r ->
  (is_markup r = false /\ escape_rune_text r = EncodeRune r) \/
  (exists ds, escape_rune_text r = x26 :: (x23 :: ds) ++ [x3b] /\ (x3b ∉ x23 :: ds) /\ denotes (x23 :: ds) r /\ EncodeRune r = [z2b r] /\ zlen ds = 2 /\
    (x3c ∉ x26 :: (x23 :: ds) ++ [x3b]) /\ (x3e ∉ x26 :: (x23 :: ds) ++ [x3b])).
Proof.
  intros Hs. unfold is_markup, escape_rune_text.
  assert (Hd : forall ds, forallb is_digit ds = true -> zlen ds = 2 -> denotes (x23 :: ds) (run_value 10 digit_value ds)).
  { intros ds H1 H2. apply denotes_decimal; [by destruct ds|lia|done]. }
  destruct (Z.eqb_spec r 0x26) as [->|]; [right; exists (lit "38")|destruct (Z.eqb_spec r 0x3c) as [->|]; [right; exists (lit "60")|
    destruct (Z.eqb_spec r 0x3e) as [->|]; [right; exists (lit "62")|by left]]].
  all: split; [reflexivity|]; split; [apply (bool_decide_unpack _); vm_compute; reflexivity|].
  all: split; [first [apply (Hd (lit "38") eq_refl eq_refl)|apply (Hd (lit "60") eq_refl eq_refl)|apply (Hd (lit "62") eq_refl eq_refl)]|].
  all: split; [reflexivity|]; split; [reflexivity|].
  all: split; apply (bool_decide_unpack _); vm_compute; reflexivity.
Qed.

(** Escaped text has no markup. *)
Lemma escaped_plain rs : Forall is_scalar rs -> (x3c ∉ rs ≫= escape_rune_text) /\ (x3e ∉ rs ≫= escape_rune_text).
Proof.
  induction 1 as [|r rs Hr _ [IH1 IH2]]; [split; apply not_elem_of_nil|]. cbn. rewrite !not_elem_of_app.
  destruct (escape_rune_cases r Hr) as [[Hm ->]|(ds & -> & _ & _ & _ & _ & H1 & H2)]; [|done].
  split; (split; [apply escape_rune_plain; auto|done]).
Qed.

Lemma cdata_end_absent s : (x3e ∉ s) -> contains_cdata_end s = false.
Proof.
  induction s as [|b s IH]; intros H; [done|]. cbn [contains_cdata_end]. destruct (strip_prefix (lit "]]>") (b :: s)) as [r|] eqn:E.
  - apply strip_prefix_inv in E. rewrite E in H. exfalso. apply H. apply elem_of_app. left. cbn. right. right. by left.
  - apply IH. by apply not_elem_of_cons in H as [_ ?].
Qed.

(** The references of escaped text decode to the text, whatever was decoded before. *)
Lemma entities_read rs pre plain b fuel :
  Forall is_scalar rs -> xml_text rs -> (x26 ∉ plain) -> (length (plain ++ (rs ≫= escape_rune_text)) < fuel)%nat ->
  entities_loop fuel (pre ++ plain ++ (rs ≫= escape_rune_text)) (zlen pre) b = Ok (b ++ plain ++ utf8_string rs).
Proof.
  intros Hs. revert pre plain b fuel. induction Hs as [|r rs Hr Hrs IH]; intros pre plain b fuel Hx Hp Hf.
  { cbn in *. rewrite !app_nil_r in *. destruct fuel as [|fuel]; [lia|]. cbn [entities_loop]. destruct plain as [|c plain].
    - rewrite app_nil_r. rewrite Z.ltb_irrefl. by rewrite app_nil_r.
    - destruct (Z.ltb_spec (zlen pre) (zlen (pre ++ c :: plain))) as [_|Hl]; [|unfold zlen in Hl; rewrite length_app in Hl; cbn [length] in Hl; lia].
      rewrite go_from_app by done. cbn [mbind outcome_bind]. pose proof (index_byte_spec (c :: plain) x26) as Hi.
      destruct (index_byte (c :: plain) x26) as [i|]; [|done]. destruct Hi as (t & Ht & _). exfalso. apply Hp. rewrite Ht. apply elem_of_app. right. by left. }
  apply Forall_cons in Hx as [Hx1 Hx2]. change (utf8_string (r :: rs)) with (EncodeRune r ++ utf8_string rs).
  cbn [mbind list_bind] in *. change (mbind escape_rune_text rs) with (rs ≫= escape_rune_text) in *.
  destruct (escape_rune_cases r Hr) as [[Hm E]|(ds & E & Hsemi & Hden & Eenc & Hds & _)]; rewrite E in *.
  - rewrite (app_assoc plain). rewrite IH; [by rewrite <- !app_assoc|done| |by rewrite <- app_assoc].
    rewrite not_elem_of_app. split; [done|]. apply escape_rune_plain; auto.
  - destruct fuel as [|fuel]; [lia|]. cbn [entities_loop]. rewrite !length_app in Hf. cbn [length] in Hf.
    destruct (Z.ltb_spec (zlen pre) (zlen (pre ++ plain ++ (x26 :: (x23 :: ds) ++ [x3b]) ++ (rs ≫= escape_rune_text)))) as [_|Hl];
      [|unfold zlen in Hl; rewrite !length_app in Hl; cbn [length] in Hl; lia].
    rewrite go_from_app by done. cbn [mbind outcome_bind]. cbn [app]. rewrite index_byte_app by done. cbv zeta.
    set (raw := pre ++ plain ++ x26 :: x23 :: (ds ++ [x3b]) ++ (rs ≫= escape_rune_text)).
    assert (Hdec : DecodeXMLEntityReference raw (Z.of_nat (length plain) + zlen pre) = Ok (r, 5)).
    { apply (entity_exact raw (Z.of_nat (length plain) + zlen pre)); [unfold raw, zlen; rewrite !length_app; cbn [length]; lia|].
      exists (x23 :: ds), (rs ≫= escape_rune_text). split; [|split; [done|]; split; [done|]; split; [done|]; unfold zlen in *; cbn [length]; lia].
      unfold raw. replace (Z.to_nat (Z.of_nat (length plain) + zlen pre + 1)) with (length (pre ++ plain ++ [x26])) by (rewrite !length_app; unfold zlen; cbn [length]; lia).
      replace (pre ++ plain ++ x26 :: x23 :: (ds ++ [x3b]) ++ (rs ≫= escape_rune_text)) with ((pre ++ plain ++ [x26]) ++ (x23 :: ds) ++ x3b :: (rs ≫= escape_rune_text))
        by (rewrite <- !app_assoc; done). apply drop_app_length. }
    rewrite Hdec. cbn [mbind outcome_bind]. unfold assertXMLCodePoint. rewrite Hx1. cbn [mbind outcome_bind].
    rewrite take_app_length. unfold raw. clear Hdec raw.
    replace (pre ++ plain ++ x26 :: x23 :: (ds ++ [x3b]) ++ (rs ≫= escape_rune_text)) with ((pre ++ plain ++ x26 :: x23 :: ds ++ [x3b]) ++ [] ++ (rs ≫= escape_rune_text))
      by (cbn; rewrite <- !app_assoc; cbn; by rewrite <- app_assoc).
    replace (Z.of_nat (length plain) + zlen pre + 5) with (zlen (pre ++ plain ++ x26 :: x23 :: ds ++ [x3b]))
      by (unfold zlen in *; rewrite !length_app; cbn [length]; rewrite length_app; cbn [length]; lia).
    rewrite IH; [by rewrite <- !app_assoc|done|apply not_elem_of_nil|rewrite app_nil_l; lia].
Qed.

(** A text that can be the content of a cell. *)
Record content_ok (v : bytes) : Prop := { co_valid : ValidString v = true; co_xml : xml_text (runes v) }.

Lemma assert_code_points_ok rs : xml_text rs -> assert_code_points rs = Ok tt.
Proof. induction 1 as [|r rs Hr _ IH]; [done|]. cbn [assert_code_points]. unfold assertXMLCodePoint. by rewrite Hr. Qed.

Lemma entities_escaped v : content_ok v -> decodeEntities (writeEscapedText v) = Ok v.
Proof.
  intros [Hv Hx]. destruct (valid_string_runes v Hv) as [Eu Hs]. unfold decodeEntities, writeEscapedText.
  pose proof (entities_read (runes v) [] [] [] (S (length (runes v ≫= escape_rune_text))) Hs Hx (not_elem_of_nil _) ltac:(cbn; lia)) as H.
  cbn [app] in H. change (zlen (@nil byte)) with 0 in H. rewrite H, Eu. cbn [mbind outcome_bind]. unfold AssertUnicodeScalarText. rewrite Hv. cbn [negb mbind outcome_bind].
  by rewrite assert_code_points_ok.
Qed.

Lemma escaped_no_markup v : content_ok v -> (x3c ∉ writeEscapedText v) /\ (x3e ∉ writeEscapedText v).
Proof. intros [Hv _]. destruct (valid_string_runes v Hv) as [_ Hs]. by apply escaped_plain. Qed.

Lemma length_inv v k : EscapedXMLByteLength v = Ok k -> content_ok v /\ k = zlen (writeEscapedText v).
Proof.
  unfold EscapedXMLByteLength, AssertUnicodeScalarText. destruct (ValidString v) eqn:E; [|done]. cbn [negb mbind outcome_bind].
  intros [Hx ->]%escaped_length_inv. split; [by split|done].
Qed.

(** ** Base64 cells *)
Definition base64_byte (b : byte) : bool := is_alphabet b || is_pad b.

Lemma base64_byte_cases b :
  base64_byte b = true -> b2z b < 0x80 /\ xml_code_point (b2z b) = true /\ is_markup (b2z b) = false /\ is_break b = false.
Proof.
  intros H. assert (E : (b2z b <? 0x80) && xml_code_point (b2z b) && negb (is_markup (b2z b)) && negb (is_break b) = true) by (destruct b; done || discriminate H).
  apply andb_true_iff in E as [E E4%negb_true_iff]. apply andb_true_iff in E as [E E3%negb_true_iff]. apply andb_true_iff in E as [E1%Z.ltb_lt E2]. done.
Qed.

Lemma encoded_bytes s : Forall (fun b => base64_byte b = true) (EncodeToString s).
Proof.
  assert (Hc : forall v, base64_byte (base64_char (v mod 64)) = true).
  { intros v. unfold base64_byte. rewrite base64_char_alphabet; [done|]. apply Z.mod_pos_bound. lia. }
  pattern s. apply group_ind; clear s; cbn [EncodeToString]; cbv zeta; intros; repeat (constructor || apply Forall_app || split); try apply Hc; done.
Qed.

Lemma base64_content s : content_ok (EncodeToString s) /\ writeEscapedText (EncodeToString s) = EncodeToString s.
Proof.
  pose proof (encoded_bytes s) as H. destruct (ascii_runes (EncodeToString s)) as [Hr Hv].
  { eapply Forall_impl; [exact H|]. intros b Hb. by apply base64_byte_cases. }
  split; [split; [done|]; rewrite Hr; apply Forall_map; eapply Forall_impl; [exact H|]; intros b Hb; by apply base64_byte_cases|].
  unfold writeEscapedText. rewrite Hr. clear Hv Hr. induction H as [|b l Hb _ IH]; [done|]. cbn. rewrite IH.
  destruct (base64_byte_cases b Hb) as (H1 & _ & H3 & _). pose proof (b2z_range b). unfold escape_rune_text, is_markup in *.
  destruct (_ =? 0x26); [done|]. destruct (_ =? 0x3c); [done|]. destruct (_ =? 0x3e); [done|].
  unfold EncodeRune. rewrite (proj2 (is_scalarb_spec _)) by (unfold is_scalar; lia). destruct (Z.ltb_spec (b2z b) 0x80); [|lia]. by rewrite z2b_b2z.
Qed.

Lemma unwrap_encoded s : unwrapBase64 (EncodeToString s) = EncodeToString s.
Proof.
  unfold unwrapBase64. assert (existsb is_break (EncodeToString s) = false) as ->; [|done]. induction (encoded_bytes s) as [|b l Hb _ IH]; [done|].
  cbn. rewrite IH. by destruct (base64_byte_cases b Hb) as (_ & _ & _ & ->).
Qed.

(** The suffix decides what the padding announces. *)
Lemma announced_cons a b c d l : (2 <= length l)%nat -> announced_length (a :: b :: c :: d :: l) = announced_length l + 3.
Proof.
  intros Hl. unfold announced_length. assert (zlen (a :: b :: c :: d :: l) / 4 * 3 = zlen l / 4 * 3 + 3) as ->.
  { assert (zlen (a :: b :: c :: d :: l) = zlen l + 1 * 4) as -> by (unfold zlen; cbn [length]; lia). rewrite Z.div_add by lia. lia. }
  cbn [rev]. rewrite <- !app_assoc. cbn [app]. destruct (rev l) as [|x [|y r]] eqn:E; apply (f_equal (@length byte)) in E; rewrite length_rev in E; cbn in E; [lia|lia|].
  cbn [app]. destruct (bool_decide (x = x3d)) eqn:Ex; [apply bool_decide_eq_true in Ex; subst x|apply bool_decide_eq_false in Ex; by destruct x].
  destruct (bool_decide (y = x3d)) eqn:Ey; [apply bool_decide_eq_true in Ey; subst y; lia|apply bool_decide_eq_false in Ey; destruct y; lia || done].
Qed.

Lemma announced_encoded s : announced_length (EncodeToString s) = zlen s.
Proof.
  pattern s. apply group_ind; clear s.
  - done.
  - intros a. done.
  - intros a b. cbn [EncodeToString]. cbv zeta. unfold announced_length. cbn [rev app].
    assert (H : forall v, base64_char (v mod 64) <> x3d).
    { intros v E. destruct (base64_char_value (v mod 64)) as [_ Hp]; [apply Z.mod_pos_bound; lia|]. by rewrite E in Hp. }
    specialize (H ((b2z a * 2 ^ 16 + b2z b * 2 ^ 8) / 2 ^ 6)). by destruct (base64_char _).
  - intros a b c rest IH. cbn [EncodeToString]. cbv zeta. cbn [app]. destruct rest as [|x rest].
    + change (EncodeToString []) with (@nil byte). unfold announced_length. cbn [rev app].
      assert (H : base64_char ((b2z a * 2 ^ 16 + b2z b * 2 ^ 8 + b2z c) mod 64) <> x3d).
      { intros E. destruct (base64_char_value ((b2z a * 2 ^ 16 + b2z b * 2 ^ 8 + b2z c) mod 64)) as [_ Hp]; [apply Z.mod_pos_bound; lia|]. by rewrite E in Hp. }
      by destruct (base64_char ((b2z a * 2 ^ 16 + b2z b * 2 ^ 8 + b2z c) mod 64)).
    + rewrite announced_cons, IH; [unfold zlen; cbn [length]; lia|].
      destruct (encode_decode (x :: rest)) as (_ & _ & Hz). unfold zlen in Hz. cbn [length] in Hz.
      assert (4 <= Z.of_nat (length (EncodeToString (x :: rest)))); [|lia]. rewrite Hz. pose proof (Z.div_le_mono 3 (Z.of_nat (S (length rest)) + 2) 3 ltac:(lia) ltac:(lia)) as Hm.
      change (3 / 3) with 1 in Hm. lia.
Qed.

Lemma decode_base64_encoded s maximum : zlen s <= maximum -> DecodeBase64 (EncodeToString s) maximum = Ok s.
Proof.
  intros Hm. unfold DecodeBase64. cbv zeta. rewrite unwrap_encoded. destruct (encode_decode s) as (Hd & Hc & Hz).
  destruct (Z.eqb_spec (zlen (EncodeToString s)) 0) as [E|_].
  { destruct s as [|a s]; [done|]. rewrite Hz in E. pose proof (Z.div_le_mono 3 (zlen (a :: s) + 2) 3 ltac:(lia) ltac:(unfold zlen; cbn [length]; lia)) as Hl. change (3 / 3) with 1 in Hl. lia. }
  assert (Z.land (zlen (EncodeToString s)) 3 = 0) as ->.
  { rewrite Hz. change 3 with (Z.ones 2) at 2. rewrite Z.land_ones by lia. change (2 ^ 2) with 4. apply Z.mod_mul. lia. }
  rewrite Hc. cbn [negb orb Z.eqb]. rewrite announced_encoded. destruct (Z.ltb_spec maximum (zlen s)); [lia|]. rewrite Hd, bytes_eqb_refl. done.
Qed.

(** ** Cells *)
Lemma ascii_escaped s : Forall (fun b => b2z b < 0x80 /\ is_markup (b2z b) = false) s -> writeEscapedText s = s.
Proof.
  intros H. destruct (ascii_runes s) as [Hr _]; [eapply Forall_impl; [exact H|]; by intros b [? _]|]. unfold writeEscapedText. rewrite Hr. clear Hr.
  induction H as [|b l [Hb Hm] _ IH]; [done|]. cbn. rewrite IH. pose proof (b2z_range b). unfold escape_rune_text, is_markup in *.
  destruct (_ =? 0x26); [done|]. destruct (_ =? 0x3c); [done|]. destruct (_ =? 0x3e); [done|].
  unfold EncodeRune. rewrite (proj2 (is_scalarb_spec _)) by (unfold is_scalar; lia). destruct (Z.ltb_spec (b2z b) 0x80); [|lia]. by rewrite z2b_b2z.
Qed.

Lemma digits_escaped s : all_digits s -> writeEscapedText s = s.
Proof.
  intros H. apply ascii_escaped. eapply Forall_impl; [exact H|]. intros b Hb. unfold is_digit, in_range in Hb. unfold is_markup. split; [lia|].
  destruct (Z.eqb_spec (b2z b) 0x26); [lia|]. destruct (Z.eqb_spec (b2z b) 0x3c); [lia|]. by destruct (Z.eqb_spec (b2z b) 0x3e); [lia|].
Qed.

Lemma digit_first d ds n : all_digits (d :: ds) -> 10 ^ zlen ds <= dec_value (d :: ds) -> n = dec_value (d :: ds) -> nonzero_digit d = true.
Proof.
  intros H Hl ->. apply Forall_cons in H as [Hd Hds]. rewrite dec_value_cons in Hl. pose proof (dec_value_range ds Hds). pose proof (digit_range d Hd).
  unfold nonzero_digit, digit_value, in_range in *. pose proof (pow10_pos (zlen ds) (zlen_nonneg ds)).
  destruct (Z.leb_spec 0x31 (b2z d)); [|nia]. destruct (Z.leb_spec (b2z d) 0x39); [done|lia].
Qed.

(** The text of a positive number. *)
Lemma positive_text n : 0 < n < 10 ^ 19 -> exists d ds, format_int n = d :: ds /\ nonzero_digit d = true /\ all_digits (d :: ds) /\ dec_value (d :: ds) = n /\ zlen (d :: ds) <= 19.
Proof.
  intros Hn. destruct (itoa_digits n ltac:(lia)) as (Hd & Hv & Hne & [|Hl]); [lia|]. unfold format_int. destruct (lit (pretty n)) as [|d ds] eqn:E; [done|].
  assert (Hz : zlen (d :: ds) - 1 = zlen ds) by (unfold zlen; cbn [length]; lia). rewrite Hz in Hl. exists d, ds.
  split; [done|]. split; [eapply digit_first; [done| |done]; lia|]. split; [done|]. split; [done|].
  destruct (Z.le_gt_cases (zlen (d :: ds)) 19) as [|Hgt]; [done|]. pose proof (Z.pow_le_mono_r 10 19 (zlen ds) ltac:(lia) ltac:(lia)). lia.
Qed.

Lemma nonzero_not_minus d : nonzero_digit d = true -> d <> x2d.
Proof. by intros H ->. Qed.

Lemma int_text n : - 2 ^ 63 <= n < 2 ^ 63 -> canonicalInteger (format_int n) = true /\ ParseInt (format_int n) = Some n /\ zlen (format_int n) <= 20.
Proof.
  intros Hn. destruct (Z.lt_trichotomy n 0) as [Hneg|[->|Hpos]]; [|done|].
  - destruct (positive_text (- n) ltac:(lia)) as (d & ds & E & Hnz & Hd & Hv & Hl). unfold format_int in *. rewrite (itoa_negative n Hneg), E.
    apply Forall_cons in Hd as [Hd1 Hds%forallb_digits]. split; [|split].
    + unfold canonicalInteger. cbn. rewrite Hnz, Hds. by destruct (bytes_eqb _ _).
    + unfold ParseInt. cbv iota. rewrite Hv. replace (- - n) with n by lia. destruct (Z.leb_spec (- 2 ^ 63) n); [|lia]. by destruct (Z.ltb_spec n (2 ^ 63)); [|lia].
    + unfold zlen in *. cbn [length] in *. lia.
  - destruct (positive_text n ltac:(lia)) as (d & ds & E & Hnz & Hd & Hv & Hl). rewrite E. pose proof (nonzero_not_minus d Hnz) as Hm.
    apply Forall_cons in Hd as [Hd1 Hds%forallb_digits]. split; [|split].
    + unfold canonicalInteger. assert ((match d :: ds with x2d :: ds => ds | _ => d :: ds end) = d :: ds) as -> by (by destruct d). rewrite Hnz, Hds. by destruct (bytes_eqb _ _).
    + unfold ParseInt. assert ((match d :: ds with x2d :: ds => - dec_value ds | _ => dec_value (d :: ds) end) = n) as -> by (by destruct d).
      destruct (Z.leb_spec (- 2 ^ 63) n); [|lia]. by destruct (Z.ltb_spec n (2 ^ 63)); [|lia].
    + lia.
Qed.

Lemma digit_not_punct d : is_digit d = true -> d <> x2d /\ d <> x3a.
Proof. intros H. split; by intros ->. Qed.

Lemma remove_digits c l : Forall (fun b => b <> c) l -> remove_byte c l = l.
Proof. unfold remove_byte. induction 1 as [|b l Hb _ IH]; [done|]. rewrite filter_cons_True by done. by rewrite IH. Qed.

(** A date and a time, as read back. *)
Definition date_value (blank s : bytes) : bytes := if bytes_eqb s blank then [] else s.

Lemma xrfc_date_text s t : canonicalDateText (VString s) = Ok t ->
  (t = [] /\ date_value (lit "        ") s = []) \/
  (t <> [] /\ xrfcDatePattern t = true /\ remove_byte x2d t = s /\ date_value (lit "        ") s = s /\ AssertClassicDate s = Ok tt).
Proof.
  unfold canonicalDateText, date_value. intros H. ok_step H as u Hu. destruct u. destruct (bytes_eqb s []) eqn:E1; [apply bytes_eqb_eq in E1; subst s; apply Ok_inj in H; subst t; by left|].
  destruct (bytes_eqb s (lit "        ")) eqn:E2; cbn [orb] in H; [apply Ok_inj in H; subst t; by left|]. right.
  assert (Hd : is_digits 8 s = true).
  { unfold AssertClassicDate, classicDatePattern, classicDateWirePattern in Hu. destruct (is_digits 8 s); [done|]. unfold is_spaces in Hu.
    change (spaces 8) with (lit "        ") in Hu. unfold bytes_eqb in E1, E2. apply bool_decide_eq_false in E1, E2. by rewrite !bool_decide_eq_false_2 in Hu. }
  unfold is_digits in Hd. apply andb_true_iff in Hd as [Hl%bool_decide_eq_true Hd]. destruct s as [|a [|b [|c [|d [|e [|f [|g [|h [|]]]]]]]]]; try done.
  assert (t = [a; b; c; d; x2d; e; f; x2d; g; h]) as -> by (apply Ok_inj in H; by rewrite <- H).
  cbn in Hd. repeat (apply andb_true_iff in Hd as [? Hd]). split; [done|]. split; [unfold xrfcDatePattern, xrfcTimePattern; cbn [forallb]; by rewrite !andb_true_iff|]. split; [|done].
  unfold remove_byte. rewrite !filter_cons, filter_nil. repeat first [rewrite decide_True by (by apply digit_not_punct)|rewrite decide_False by (intros Hn; by apply Hn)]. done.
Qed.

Lemma xrfc_time_text s t : canonicalTimeText (VString s) = Ok t ->
  (t = [] /\ date_value (lit "      ") s = []) \/
  (t <> [] /\ xrfcTimePattern t = true /\ remove_byte x3a t = s /\ date_value (lit "      ") s = s /\ AssertClassicTime s = Ok tt).
Proof.
  unfold canonicalTimeText, date_value. intros H. ok_step H as u Hu. destruct u. destruct (bytes_eqb s []) eqn:E1; [apply bytes_eqb_eq in E1; subst s; apply Ok_inj in H; subst t; by left|].
  destruct (bytes_eqb s (lit "      ")) eqn:E2; cbn [orb] in H; [apply Ok_inj in H; subst t; by left|]. right.
  assert (Hd : is_digits 6 s = true).
  { unfold AssertClassicTime, classicTimePattern, classicTimeWirePattern in Hu. destruct (is_digits 6 s); [done|]. unfold is_spaces in Hu.
    change (spaces 6) with (lit "      ") in Hu. unfold bytes_eqb in E1, E2. apply bool_decide_eq_false in E1, E2. by rewrite !bool_decide_eq_false_2 in Hu. }
  unfold is_digits in Hd. apply andb_true_iff in Hd as [Hl%bool_decide_eq_true Hd]. destruct s as [|a [|b [|c [|d [|e [|f [|]]]]]]]; try done.
  assert (t = [a; b; x3a; c; d; x3a; e; f]) as -> by (apply Ok_inj in H; by rewrite <- H).
  cbn in Hd. repeat (apply andb_true_iff in Hd as [? Hd]). split; [done|]. split; [unfold xrfcDatePattern, xrfcTimePattern; cbn [forallb]; by rewrite !andb_true_iff|]. split; [|done].
  unfold remove_byte. rewrite !filter_cons, filter_nil. repeat first [rewrite decide_True by (by apply digit_not_punct)|rewrite decide_False by (intros Hn; by apply Hn)]. done.
Qed.

Lemma finite_magnitude bits : 0 <= bits < 2 ^ 64 -> is_finite bits = true -> 0 <= magnitude bits < infinite.
Proof.
  intros Hb Hf. unfold is_finite in Hf. apply negb_true_iff, Z.eqb_neq in Hf. change 0x7ff with (Z.ones 11) in Hf.
  rewrite Z.land_ones, Z.shiftr_div_pow2 in Hf by lia. change (Z.ones 11) with 2047 in Hf. unfold magnitude, is_negative, infinite.
  destruct (Z.leb_spec (2 ^ 63) bits); [|change (2 ^ 11) with 2048 in Hf; Z.div_mod_to_equations; lia].
  change (2 ^ 11) with 2048 in Hf. Z.div_mod_to_equations. lia.
Qed.

Lemma float_text_read bits : 0 <= bits < 2 ^ 64 -> is_finite bits = true ->
  exists m, decimalPattern (jsFloatString bits) = Some m /\ ParseFloat m = Some bits.
Proof.
  intros Hb Hf. pose proof (finite_magnitude bits Hb Hf) as Hm. unfold jsFloatString. destruct (Z.eqb_spec (magnitude bits) 0) as [E|Hne].
  - unfold magnitude in E. destruct (is_negative bits) eqn:En.
    + assert (bits = 2 ^ 63) as -> by lia. eexists. split; [reflexivity|]. vm_compute. reflexivity.
    + subst bits. eexists. split; [reflexivity|]. vm_compute. reflexivity.
  - apply format_read; [lia|done].
Qed.

(** A value within the range of its Go type. *)
Definition in_type (v : any) : Prop :=
  match v with
  | VInt (KInt | KInt64) n => - 2 ^ 63 <= n < 2 ^ 63
  | VInt KInt32 n => - 2 ^ 31 <= n < 2 ^ 31
  | VFloat64 bits => 0 <= bits < 2 ^ 64
  | _ => True
  end.

(** The value of a cell and what it is read back as. *)
Definition cell_value (field : RfcStructureField) (v v' : any) : Prop :=
  match cell_type_of (Exid field), v, v' with
  | TInt, VInt _ n, VInt KInt32 n' | TInt8, VInt _ n, VInt KInt64 n' => n' = n
  | (TChar | TString), VString s, VString s' => s' = s
  | TNum, VString s, VString s' => s' = replicate (Z.to_nat (InternalLength field / 2 - zlen s)) x30 ++ s
  | TDate, VString s, VString s' => s' = date_value (lit "        ") s
  | TTime, VString s, VString s' => s' = date_value (lit "      ") s
  | TRaw, VBytes b, VBytes b' => b' = b ++ zeros (InternalLength field - zlen b)
  | TXString, VBytes b, VBytes b' => b' = b
  | TPacked, VString s, VString s' =>
      exists packed, EncodePackedDecimal s (InternalLength field) (Decimals field) = Ok packed /\ DecodePackedDecimal packed (Decimals field) = Ok s'
  | TFloat, VFloat64 bits, VFloat64 bits' => bits' = bits
  | _, _, _ => False
  end.

Lemma capacity_inv field n : characterCapacity field = Ok n -> 0 <= InternalLength field -> n = InternalLength field / 2 /\ 0 <= n.
Proof.
  unfold characterCapacity. destruct (negb _); [done|]. intros H Hl. apply Ok_inj in H. subst n. rewrite Z.quot_div_nonneg by lia. split; [done|]. apply Z.div_pos; lia.
Qed.

Lemma budget_ok limits n p :
  n <= nl_MaxCellBytes limits -> p_projectedBytes p + n <= nl_MaxParameterBytes limits ->
  consume limits n p = (Ok tt, mkParser (p_rest p) (p_projectedBytes p + n)).
Proof.
  intros H1 H2. unfold consume. destruct (Z.ltb_spec (nl_MaxCellBytes limits) n); [lia|]. cbn. by destruct (Z.ltb_spec (nl_MaxParameterBytes limits) (p_projectedBytes p + n)); [lia|].
Qed.

(** A step that reads the cell and adds to the decoded bytes. *)
Definition reads_cell (field : RfcStructureField) (limits : NormalizedLimits) (content : bytes) (v : any) (p : parser) : Prop :=
  exists v' k, decodeCell field content limits p = (Ok v', mkParser (p_rest p) (p_projectedBytes p + k)) /\
    0 <= k <= zlen (writeEscapedText content) /\ cell_value field v v'.

Lemma parser_eta p : mkParser (p_rest p) (p_projectedBytes p + 0) = p.
Proof. destruct p. cbn. by rewrite Z.add_0_r. Qed.

(** A cell that leaves the parser as it is. *)
Lemma reads_pure field limits content v v' p :
  decodeCell field content limits p = (Ok v', p) -> cell_value field v v' -> reads_cell field limits content v p.
Proof. intros H1 H2. exists v', 0. rewrite parser_eta. split; [done|]. split; [|done]. pose proof (zlen_nonneg (writeEscapedText content)). lia. Qed.

Lemma read_num field limits v text p :
  cell_type_of (Exid field) = TNum -> cell_text field v limits = Ok text -> 0 <= InternalLength field ->
  zlen (writeEscapedText text) <= nl_MaxCellBytes limits -> p_projectedBytes p + zlen (writeEscapedText text) <= nl_MaxParameterBytes limits ->
  reads_cell field limits text v p.
Proof.
  intros Ht H Hl Hc Hp. unfold cell_text in H. rewrite Ht in H. ok_step H as cap Hcap. destruct (_ <? cap); [done|]. destruct v as [s| | | |]; try done.
  destruct (numericDigits s) eqn:Hd; [|done]. destruct (Z.ltb_spec cap (zlen s)) as [|Hs]; [done|]. cbn [negb orb] in H. apply Ok_inj in H. subst text.
  assert (Hcap' := Hcap). apply capacity_inv in Hcap' as [Ecap Hcap0]; [|done]. apply forallb_digits in Hd.
  assert (Hall : all_digits (replicate (Z.to_nat (cap - zlen s)) x30 ++ s)) by (apply Forall_app; split; [by apply Forall_replicate|done]).
  rewrite digits_escaped in * by done.
  assert (Hz : zlen (replicate (Z.to_nat (cap - zlen s)) x30 ++ s) = cap) by (unfold zlen in *; rewrite length_app, length_replicate; lia). rewrite Hz in *.
  exists (VString (replicate (Z.to_nat (cap - zlen s)) x30 ++ s)), cap. rewrite digits_escaped, Hz by done. split; [|split; [lia|]].
  - unfold decodeCell. rewrite Ht. rewrite (bind_ok _ _ _ cap p); [|unfold lift; by rewrite Hcap]. unfold numericDigits. rewrite (proj2 (forallb_digits _) Hall), Hz, Z.ltb_irrefl.
    cbn [negb orb]. rewrite (bind_ok _ _ _ tt _ (budget_ok limits cap p Hc Hp)). by rewrite Z.sub_diag.
  - unfold cell_value. rewrite Ht. by rewrite Ecap.
Qed.

Lemma read_date field limits v text p :
  cell_type_of (Exid field) = TDate -> canonicalDateText v = Ok text -> reads_cell field limits text v p.
Proof.
  intros Ht H. destruct v as [s| | | |]; try done. destruct (xrfc_date_text s text H) as [[-> Hv]|(Hne & Hp & Hr & Hv & Ha)].
  - apply (reads_pure _ _ _ _ (VString [])); [unfold decodeCell; by rewrite Ht|unfold cell_value; by rewrite Ht].
  - apply (reads_pure _ _ _ _ (VString s)); [|unfold cell_value; by rewrite Ht]. unfold decodeCell. rewrite Ht.
    destruct (Z.eqb_spec (zlen text) 0); [by destruct text|]. rewrite Hp. cbn [negb]. cbv zeta. rewrite Hr. rewrite (bind_ok _ _ _ tt p); [done|unfold lift; by rewrite Ha].
Qed.

Lemma read_time field limits v text p :
  cell_type_of (Exid field) = TTime -> canonicalTimeText v = Ok text -> reads_cell field limits text v p.
Proof.
  intros Ht H. destruct v as [s| | | |]; try done. destruct (xrfc_time_text s text H) as [[-> Hv]|(Hne & Hp & Hr & Hv & Ha)].
  - apply (reads_pure _ _ _ _ (VString [])); [unfold decodeCell; by rewrite Ht|unfold cell_value; by rewrite Ht].
  - apply (reads_pure _ _ _ _ (VString s)); [|unfold cell_value; by rewrite Ht]. unfold decodeCell. rewrite Ht.
    destruct (Z.eqb_spec (zlen text) 0); [by destruct text|]. rewrite Hp. cbn [negb]. cbv zeta. rewrite Hr. rewrite (bind_ok _ _ _ tt p); [done|unfold lift; by rewrite Ha].
Qed.

Lemma lift_ok {S A} (m : res A) (s : S) a : m = Ok a -> lift m s = (Ok a, s).
Proof. intros ->. done. Qed.

Lemma read_packed field limits v text p :
  cell_type_of (Exid field) = TPacked -> cell_text field v limits = Ok text -> reads_cell field limits text v p.
Proof.
  intros Ht H. unfold cell_text in H. rewrite Ht in H. destruct v as [s| | | |]; try done. ok_step H as packed Hpk.
  destruct (packed_text_of _ _ _ _ Hpk) as (t & Hd & He). rewrite H in Hd. apply Ok_inj in Hd. subst t.
  apply (reads_pure _ _ _ _ (VString text)); [|unfold cell_value; rewrite Ht; by exists packed]. unfold decodeCell. rewrite Ht.
  rewrite (bind_ok _ _ _ packed p) by (by apply lift_ok). rewrite (bind_ok _ _ _ text p) by (by apply lift_ok). done.
Qed.


Lemma asInt64_value v n : asInt64 v = Some n -> in_type v -> (exists k, v = VInt k n) /\ - 2 ^ 63 <= n < 2 ^ 63.
Proof. destruct v as [|k m| | |]; try done. destruct k; cbn; intros [= ->] H; (split; [by eexists|lia]) || done. Qed.

Lemma read_int field limits v text p :
  cell_type_of (Exid field) = TInt -> integerCell v = Ok text -> in_type v -> reads_cell field limits text v p.
Proof.
  intros Ht H Hv. unfold integerCell in H. destruct (asInt64 v) as [n|] eqn:E; [|done]. destruct (asInt64_value v n E Hv) as [[k ->] Hn].
  destruct (Z.ltb_spec n (-0x80000000)) as [|H1]; [done|]. destruct (Z.ltb_spec 0x7fffffff n) as [|H2]; [done|]. cbn [orb] in H. apply Ok_inj in H. subst text.
  destruct (int_text n Hn) as (Hc & Hp & _). apply (reads_pure _ _ _ _ (VInt KInt32 n)); [|unfold cell_value; by rewrite Ht].
  unfold decodeCell. rewrite Ht, Hc, Hp. cbn [negb]. destruct (Z.ltb_spec n (-0x80000000)); [lia|]. by destruct (Z.ltb_spec 0x7fffffff n); [lia|].
Qed.

Lemma read_int8 field limits v text p :
  cell_type_of (Exid field) = TInt8 -> cell_text field v limits = Ok text -> in_type v -> reads_cell field limits text v p.
Proof.
  intros Ht H Hv. unfold cell_text in H. rewrite Ht in H. destruct (asInt64 v) as [n|] eqn:E; [|done]. destruct (asInt64_value v n E Hv) as [[k ->] Hn].
  apply Ok_inj in H. subst text. destruct (int_text n Hn) as (Hc & Hp & Hl). apply (reads_pure _ _ _ _ (VInt KInt64 n)); [|unfold cell_value; by rewrite Ht].
  unfold decodeCell. rewrite Ht, Hc, Hp. by destruct (Z.ltb_spec 20 (zlen (format_int n))); [lia|].
Qed.

Lemma read_char field limits v text p :
  cell_type_of (Exid field) = TChar -> cell_text field v limits = Ok text -> reads_cell field limits text v p.
Proof.
  intros Ht H. unfold cell_text in H. rewrite Ht in H. destruct v as [s| | | |]; try done. ok_step H as u Hu. destruct u. ok_step H as cap Hcap.
  destruct (cap <? utf16Len s) eqn:E; [done|]. apply Ok_inj in H. subst text. apply (reads_pure _ _ _ _ (VString s)); [|unfold cell_value; by rewrite Ht].
  unfold decodeCell. rewrite Ht. rewrite (bind_ok _ _ _ tt p) by (by apply lift_ok). rewrite (bind_ok _ _ _ cap p) by (by apply lift_ok). by rewrite E.
Qed.

Lemma read_string field limits v text p :
  cell_type_of (Exid field) = TString -> cell_text field v limits = Ok text -> reads_cell field limits text v p.
Proof.
  intros Ht H. unfold cell_text in H. rewrite Ht in H. destruct v as [s| | | |]; try done. ok_step H as u Hu. destruct u. apply Ok_inj in H. subst text.
  apply (reads_pure _ _ _ _ (VString s)); [|unfold cell_value; by rewrite Ht].
  unfold decodeCell. rewrite Ht. by rewrite (bind_ok _ _ _ tt p) by (by apply lift_ok).
Qed.

Lemma read_float field limits v text p :
  cell_type_of (Exid field) = TFloat -> cell_text field v limits = Ok text -> in_type v -> reads_cell field limits text v p.
Proof.
  intros Ht H Hv. unfold cell_text in H. rewrite Ht in H. destruct v as [| |bits| |]; try done. destruct (is_finite bits) eqn:Ef; [|done]. cbn [negb] in H. apply Ok_inj in H. subst text.
  destruct (float_text_read bits Hv Ef) as (m & Hm & Hr). apply (reads_pure _ _ _ _ (VFloat64 bits)); [|unfold cell_value; by rewrite Ht].
  unfold decodeCell. by rewrite Ht, Hm, Hr.
Qed.

(** Every cell of text is read back. *)
Lemma read_text field limits v text p :
  cell_text field v limits = Ok text -> in_type v -> 0 <= InternalLength field ->
  zlen (writeEscapedText text) <= nl_MaxCellBytes limits -> p_projectedBytes p + zlen (writeEscapedText text) <= nl_MaxParameterBytes limits ->
  reads_cell field limits text v p.
Proof.
  intros H Hv Hl Hc Hp. destruct (cell_type_of (Exid field)) eqn:Ht; try (unfold cell_text in H; rewrite Ht in H; done).
  - apply read_int; [done| |done]. unfold cell_text in H. by rewrite Ht in H.
  - by apply read_char.
  - by apply read_num.
  - apply read_date; [done|]. unfold cell_text in H. by rewrite Ht in H.
  - apply read_time; [done|]. unfold cell_text in H. by rewrite Ht in H.
  - by apply read_packed.
  - by apply read_float.
  - by apply read_int8.
  - by apply read_string.
Qed.

(** The text between the tags of a planned cell. *)
Definition cell_content (c : plannedCell) : bytes := if pc_isBytes c then EncodeToString (pc_bytes c) else pc_text c.

(** What a planned cell promises the writer and the reader. *)
Record planned_ok (field : RfcStructureField) (v : any) (limits : NormalizedLimits) (c : plannedCell) : Prop := {
  po_field : pc_field c = field;
  po_content : content_ok (cell_content c);
  po_written : write_cell c = open_tag (FieldName field) ++ writeEscapedText (cell_content c) ++ close_tag (FieldName field);
  po_length : pc_encodedByteLength c = zlen (writeEscapedText (cell_content c));
  po_limit : pc_encodedByteLength c <= nl_MaxCellBytes limits;
  po_read p : p_projectedBytes p + pc_encodedByteLength c <= nl_MaxParameterBytes limits -> reads_cell field limits (cell_content c) v p }.

Lemma base64_length_ge n : 0 <= n -> 0 <= n <= base64_length n /\ base64_length n = (n + 2) / 3 * 4.
Proof. intros Hn. unfold base64_length. rewrite Z.quot_div_nonneg by lia. pose proof (Z.div_mod (n + 2) 3 ltac:(lia)). pose proof (Z.mod_pos_bound (n + 2) 3). lia. Qed.

(** A cell of bytes, of the length planned. *)
Lemma bytes_cell_ok field v limits b k :
  base64_length (zlen b) = k -> k <= nl_MaxCellBytes limits ->
  (forall p, p_projectedBytes p + k <= nl_MaxParameterBytes limits -> reads_cell field limits (EncodeToString b) v p) ->
  planned_ok field v limits (mkCell field true [] b k).
Proof.
  intros Hk Hm Hr. destruct (base64_content b) as [Hc Hw]. split; unfold write_cell, cell_content; cbn [pc_isBytes pc_bytes pc_field pc_encodedByteLength]; rewrite ?Hw; try done.
  destruct (encode_decode b) as (_ & _ & ->). subst k. by apply base64_length_ge, zlen_nonneg.
Qed.

Lemma read_raw field limits b b' p :
  cell_type_of (Exid field) = TRaw -> b' = b ++ zeros (InternalLength field - zlen b) -> zlen b' = InternalLength field ->
  base64_length (zlen b') <= nl_MaxCellBytes limits -> p_projectedBytes p + base64_length (zlen b') <= nl_MaxParameterBytes limits ->
  reads_cell field limits (EncodeToString b') (VBytes b) p.
Proof.
  intros Ht Eb Hl Hm Hp. destruct (base64_length_ge (zlen b') (zlen_nonneg b')) as [Hge Ez]. exists (VBytes b'), (zlen b').
  destruct (base64_content b') as [_ ->]. destruct (encode_decode b') as (_ & _ & ->). split; [|split; [lia|unfold cell_value; by rewrite Ht]].
  unfold decodeCell. rewrite Ht, <- Hl. rewrite (bind_ok _ _ _ tt _ (budget_ok limits (zlen b') p ltac:(lia) ltac:(lia))).
  rewrite (bind_ok _ _ _ b' (mkParser (p_rest p) (p_projectedBytes p + zlen b'))) by (apply lift_ok, decode_base64_encoded; lia). by rewrite Z.eqb_refl.
Qed.

Lemma read_xstring field limits b p :
  cell_type_of (Exid field) = TXString ->
  base64_length (zlen b) <= nl_MaxCellBytes limits -> p_projectedBytes p + base64_length (zlen b) <= nl_MaxParameterBytes limits ->
  reads_cell field limits (EncodeToString b) (VBytes b) p.
Proof.
  intros Ht Hm Hp. destruct (base64_length_ge (zlen b) (zlen_nonneg b)) as [Hge Ez]. exists (VBytes b), (zlen b).
  destruct (base64_content b) as [_ ->]. destruct (encode_decode b) as (_ & _ & ->). split; [|split; [lia|unfold cell_value; by rewrite Ht]].
  unfold decodeCell. rewrite Ht. rewrite (bind_ok _ _ _ b p) by (apply lift_ok, decode_base64_encoded; lia).
  by rewrite (bind_ok _ _ _ tt _ (budget_ok limits (zlen b) p ltac:(lia) ltac:(lia))).
Qed.

Lemma plan_bytes_fixed field limits b c :
  cell_type_of (Exid field) = TRaw -> plannedBytesCell field b limits (InternalLength field) true = Ok c -> planned_ok field (VBytes b) limits c.
Proof.
  intros Ht H. unfold plannedBytesCell in H. cbv zeta in H. cbn [andb] in H. destruct (Z.ltb_spec (InternalLength field) (zlen b)) as [|Hb]; [done|].
  destruct (Z.ltb_spec (nl_MaxCellBytes limits) (base64_length (InternalLength field))) as [|Hm]; [done|]. cbn [orb] in H. destruct (_ || _); [done|].
  apply Ok_inj in H. subst c. set (b' := b ++ zeros (InternalLength field - zlen b)).
  assert (Hl : zlen b' = InternalLength field) by (unfold b'; unfold zlen in *; rewrite length_app; unfold zeros; rewrite length_replicate; lia).
  assert ((if negb (InternalLength field =? zlen b) then b' else b) = b') as ->.
  { destruct (Z.eqb_spec (InternalLength field) (zlen b)) as [E|]; [|done]. cbn. unfold b'. rewrite E, Z.sub_diag. change (zeros 0) with (@nil byte). by rewrite app_nil_r. }
  apply bytes_cell_ok; [by rewrite Hl|done|]. intros p Hp. apply read_raw; [done|done|done|by rewrite Hl|by rewrite Hl].
Qed.

Lemma plan_bytes_dynamic field limits b c :
  cell_type_of (Exid field) = TXString -> plannedBytesCell field b limits 0 false = Ok c -> planned_ok field (VBytes b) limits c.
Proof.
  intros Ht H. unfold plannedBytesCell in H. cbv zeta in H. cbn [andb] in H.
  destruct (Z.ltb_spec (nl_MaxCellBytes limits) (base64_length (zlen b))) as [|Hm]; [done|]. cbn [orb] in H. destruct (_ || _); [done|].
  apply Ok_inj in H. subst c. apply bytes_cell_ok; [done|done|]. intros p Hp. by apply read_xstring.
Qed.

Lemma plan_text_cell field v limits c :
  0 <= InternalLength field -> in_type v ->
  (text ← cell_text field v limits; encodedByteLength ← EscapedXMLByteLength text;
   if nl_MaxCellBytes limits <? encodedByteLength then Err errXRange else Ok (mkCell field false text [] encodedByteLength)) = Ok c ->
  planned_ok field v limits c.
Proof.
  intros Hl Hv H. ok_step H as text Ht. ok_step H as k Hk. destruct (Z.ltb_spec (nl_MaxCellBytes limits) k) as [|Hm]; [done|]. apply Ok_inj in H. subst c.
  destruct (length_inv _ _ Hk) as [Hc ->]. split; cbn; [done|done|done|done|done|]. intros p Hp. apply read_text; [done|done|done|lia|lia].
Qed.

Lemma plan_cell_ok field v limits c :
  0 <= InternalLength field -> in_type v -> planCell field v limits = Ok c -> planned_ok field v limits c.
Proof.
  intros Hl Hv H. unfold planCell in H. destruct (cell_type_of (Exid field)) eqn:Ht; try (by apply plan_text_cell).
  - destruct v as [| | |b|]; try done. by apply plan_bytes_fixed.
  - destruct v as [| | |b|]; try done. by apply plan_bytes_dynamic.
Qed.


(** ** Rows *)
Lemma token_ok t rest b : token t (mkParser (t ++ rest) b) = (Ok tt, mkParser rest b).
Proof. unfold token. cbn [p_rest]. by rewrite strip_prefix_app. Qed.

Lemma cell_ok limits content rest b :
  content_ok content -> zlen (writeEscapedText content) <= nl_MaxCellBytes limits ->
  cell limits (mkParser (writeEscapedText content ++ x3c :: rest) b) = (Ok content, mkParser (x3c :: rest) b).
Proof.
  intros Hc Hm. destruct (escaped_no_markup content Hc) as [H1 H2]. unfold cell. cbn [p_rest]. rewrite index_byte_app by done. cbv zeta.
  rewrite take_app_length, drop_app_length. rewrite cdata_end_absent by done. destruct (Z.ltb_spec (nl_MaxCellBytes limits) (zlen (writeEscapedText content))); [lia|].
  by rewrite entities_escaped.
Qed.

(** One cell of the writer, read by the loop over the fields. *)
Lemma parse_cells_step field fields v limits c acc rest b :
  planned_ok field v limits c -> b + zlen (write_cell c) <= nl_MaxParameterBytes limits ->
  exists v' k, parse_cells (field :: fields) limits acc (mkParser (write_cell c ++ rest) b) =
      parse_cells fields limits (<[FieldName field := v']> acc) (mkParser rest (b + k)) /\
    0 <= k <= zlen (write_cell c) /\ cell_value field v v'.
Proof.
  intros Hp Hb. destruct Hp as [_ Hc Hw Hl Hm Hr].
  assert (Hz : pc_encodedByteLength c <= zlen (write_cell c)) by (rewrite Hw, Hl; unfold zlen; rewrite !length_app; lia).
  set (p := mkParser rest b). destruct (Hr p) as (v' & k & Hd & Hk & Hv); [cbn; lia|]. cbn [p p_rest p_projectedBytes] in Hd.
  exists v', k. split; [|split; [lia|done]]. cbn [parse_cells]. unfold open, close. rewrite Hw, <- !app_assoc.
  rewrite (bind_ok _ _ _ tt _ (token_ok _ _ _)). rewrite (bind_ok _ _ _ (cell_content c) (mkParser (close_tag (FieldName field) ++ rest) b)) by (apply cell_ok; [done|lia]).
  rewrite (bind_ok _ _ _ tt _ (token_ok _ _ _)). by rewrite (bind_ok _ _ _ v' _ Hd).
Qed.

(** What the reader has of a row: the cells of the definition, and nothing else. *)
Definition row_read (fields : list RfcStructureField) (input acc r : row) : Prop :=
  Forall (fun f => exists v v', cell_input input f = Ok v /\ r !! FieldName f = Some v' /\ cell_value f v v') fields /\
  forall k, k ∉ map FieldName fields -> r !! k = acc !! k.

(** A field that the subset accepts. *)
Definition xml_field (f : RfcStructureField) : Prop := simpleXMLName (FieldName f) = true /\ 0 <= InternalLength f.

Lemma name_char_ascii b : is_name_char b = true -> b2z b < 0x80.
Proof. destruct b; done. Qed.

Lemma simple_name_valid v : simpleXMLName v = true -> ValidString v = true.
Proof.
  intros H. apply ascii_runes. destruct v as [|b v]; [done|]. apply andb_true_iff in H as [H1 H2]. constructor.
  - apply name_char_ascii. unfold is_name_char. by rewrite H1.
  - induction v as [|c v IH]; constructor; apply andb_true_iff in H2 as [H2 H3]; [by apply name_char_ascii|by apply IH].
Qed.

Lemma valid_app a b : ValidString a = true -> ValidString b = true -> ValidString (a ++ b) = true.
Proof. intros Ha Hb. by apply runes_valid_app. Qed.

Lemma tags_valid name : simpleXMLName name = true -> ValidString (open_tag name) = true /\ ValidString (close_tag name) = true.
Proof. intros H%simple_name_valid. unfold open_tag, close_tag. split; repeat apply valid_app; done. Qed.

Lemma escaped_valid v : content_ok v -> ValidString (writeEscapedText v) = true.
Proof.
  intros [Hv _]. destruct (valid_string_runes v Hv) as [_ Hs]. unfold writeEscapedText. induction Hs as [|r rs Hr _ IH]; [done|]. cbn. apply valid_app; [|done].
  unfold escape_rune_text. destruct (r =? 0x26); [done|]. destruct (r =? 0x3c); [done|]. destruct (r =? 0x3e); [done|].
  pose proof (runes_utf8_string [r] ltac:(by constructor)) as [_ H]. unfold utf8_string in H. cbn in H. by rewrite app_nil_r in H.
Qed.

Lemma written_valid field v limits c : planned_ok field v limits c -> xml_field field -> ValidString (write_cell c) = true.
Proof. intros [_ Hc Hw _ _ _] [Hn _]. rewrite Hw. destruct (tags_valid _ Hn). apply valid_app; [done|]. apply valid_app; [by apply escaped_valid|done]. Qed.

Lemma written_length field v limits c : planned_ok field v limits c ->
  zlen (write_cell c) = OpenTagByteLength (FieldName field) + pc_encodedByteLength c + CloseTagByteLength (FieldName field).
Proof. intros [_ _ -> -> _ _]. unfold zlen, OpenTagByteLength, CloseTagByteLength, open_tag, close_tag, zlen. rewrite !length_app. cbn [length lit]. cbn. lia. Qed.

Lemma initial_in_type field v : initialCell field = Ok v -> in_type v.
Proof. unfold initialCell. destruct (cell_type_of _); intros [= <-]; cbn; lia || done. Qed.

Lemma input_in_type (input : row) field v : map_Forall (fun _ => in_type) input -> cell_input input field = Ok v -> in_type v.
Proof. intros Hi. unfold cell_input. destruct (input !! _) as [w|] eqn:E; [|apply initial_in_type]. intros [= <-]. by apply (Hi _ _ E). Qed.


Lemma zlen_bind_cons {A} (f : A -> bytes) a l : zlen ((a :: l) ≫= f) = zlen (f a) + zlen (l ≫= f).
Proof. unfold zlen. cbn. rewrite length_app. lia. Qed.

(** What the writer has planned for some fields: its text, its length, and that the reader reads it. *)
Record cells_ok (fields : list RfcStructureField) (input : row) (limits : NormalizedLimits) (cs : list plannedCell) : Prop := {
  ck_valid : ValidString (cs ≫= write_cell) = true;
  ck_read acc rest b : NoDup (map FieldName fields) -> b + zlen (cs ≫= write_cell) <= nl_MaxParameterBytes limits ->
    exists r k, parse_cells fields limits acc (mkParser ((cs ≫= write_cell) ++ rest) b) = (Ok r, mkParser rest (b + k)) /\
      0 <= k <= zlen (cs ≫= write_cell) /\ row_read fields input acc r }.

Lemma cells_ok_nil input limits : cells_ok [] input limits [].
Proof.
  split; [done|]. intros acc rest b _ _. exists acc, 0. rewrite Z.add_0_r. split; [done|]. split; [by cbn|]. split; [constructor|done].
Qed.

Lemma cells_ok_cons (field : RfcStructureField) (fields : list RfcStructureField) (input : row) (limits : NormalizedLimits) (v : any) (c : plannedCell) (cs : list plannedCell) :
  cell_input input field = Ok v -> planned_ok field v limits c -> xml_field field -> cells_ok fields input limits cs ->
  cells_ok (field :: fields) input limits (c :: cs).
Proof.
  intros Hi Hp Hx [Hv Hr]. pose proof (zlen_bind_cons write_cell c cs) as Hz.
  split; [apply valid_app; [by eapply written_valid|done]|]. rewrite Hz. intros acc rest b Hnd Hb. apply NoDup_cons in Hnd as [Hnin Hnd].
  change ((c :: cs) ≫= write_cell) with (write_cell c ++ (cs ≫= write_cell)). rewrite <- app_assoc. pose proof (zlen_nonneg (cs ≫= write_cell)).
  destruct (parse_cells_step field fields v limits c acc ((cs ≫= write_cell) ++ rest) b Hp ltac:(lia)) as (v' & k & -> & Hk & Hcv).
  destruct (Hr (<[FieldName field := v']> acc) rest (b + k) Hnd ltac:(lia)) as (r & k' & -> & Hk' & Hall & Hrest).
  exists r, (k + k'). rewrite Z.add_assoc. split; [done|]. split; [lia|]. split.
  - constructor; [|done]. exists v, v'. split; [done|]. split; [|done]. rewrite Hrest by done. by rewrite lookup_insert_eq.
  - intros n Hn. cbn in Hn. apply not_elem_of_cons in Hn as [Hn1 Hn2]. rewrite Hrest by done. by rewrite lookup_insert_ne.
Qed.

Lemma plan_cells_ok (fields : list RfcStructureField) (input : row) (limits : NormalizedLimits) (n : Z) (cs : list plannedCell) (pr : plannedRow) :
  Forall xml_field fields -> map_Forall (fun _ => in_type) input ->
  plan_cells fields input limits n cs = Ok pr ->
  exists cs', pr_cells pr = cs ++ cs' /\ cells_ok fields input limits cs' /\
    pr_encodedByteLength pr = n + zlen (cs' ≫= write_cell) /\ (fields <> [] -> pr_encodedByteLength pr <= nl_MaxRowBytes limits).
Proof.
  intros Hf Hi. revert n cs. induction Hf as [|field fields Hx _ IH]; intros n cs H; cbn [plan_cells] in H.
  { apply Ok_inj in H. subst pr. exists []. cbn. rewrite app_nil_r. split; [done|]. split; [apply cells_ok_nil|]. split; [unfold zlen; cbn; lia|done]. }
  ok_step H as v Hv. ok_step H as c Hc. cbv zeta in H. apply plan_cell_ok in Hc; [|apply Hx|by eapply input_in_type]. rewrite <- (written_length _ _ _ _ Hc) in H.
  destruct (Z.ltb_spec (nl_MaxRowBytes limits) (n + zlen (write_cell c))) as [|Hm]; [done|].
  destruct (IH _ _ H) as (cs' & Hcs & Hck & Hl & Hlim). exists (c :: cs'). rewrite Hcs, <- app_assoc. split; [done|]. split; [by eapply cells_ok_cons|].
  rewrite Hl, zlen_bind_cons. split; [lia|]. intros _. destruct fields as [|f fields]; [|specialize (Hlim ltac:(done)); lia].
  cbn [plan_cells] in H. apply Ok_inj in H. subst pr. cbn [pr_encodedByteLength] in Hl. lia.
Qed.

(** The rows of a parameter and what the reader has of them. *)
Definition reads_row (def : RfcStructureDefinition) (input r : row) : Prop := row_read (Fields def) input ∅ r.

Record planned_row_ok (def : RfcStructureDefinition) (input : row) (limits : NormalizedLimits) (wrap : bool) (pr : plannedRow) : Prop := {
  pw_length : pr_encodedByteLength pr = zlen (writePlannedRow pr wrap);
  pw_valid : ValidString (writePlannedRow pr wrap) = true;
  pw_read rest b : b + pr_encodedByteLength pr <= nl_MaxParameterBytes limits ->
    exists r k, parseRow def limits wrap (mkParser (writePlannedRow pr wrap ++ rest) b) = (Ok r, mkParser rest (b + k)) /\
      0 <= k <= pr_encodedByteLength pr /\ reads_row def input r }.

(** A definition of the subset. *)
Definition xml_def (def : RfcStructureDefinition) : Prop := Forall xml_field (Fields def) /\ NoDup (map FieldName (Fields def)) /\ Fields def <> [].

Lemma wrap_step {A} (limits : NormalizedLimits) (wrap : bool) (t : bytes) (k : M parser A) rest b :
  ((if wrap then token t else mret tt) ;; k) (mkParser ((if wrap then t else []) ++ rest) b) = k (mkParser rest b).
Proof. destruct wrap; [by rewrite (bind_ok _ _ _ tt _ (token_ok _ _ _))|by rewrite (bind_ok _ _ _ tt (mkParser rest b))]. Qed.


Lemma plan_row_ok (def : RfcStructureDefinition) (input : row) (limits : NormalizedLimits) (wrap : bool) (pr : plannedRow) :
  xml_def def -> map_Forall (fun _ => in_type) input -> planRow def input limits wrap = Ok pr -> planned_row_ok def input limits wrap pr.
Proof.
  intros (Hf & Hnd & Hne) Hi H. unfold planRow in H. destruct (unknown_field _ _); [done|].
  destruct (plan_cells_ok _ _ _ _ _ _ Hf Hi H) as (cs & Hcs & [Hv Hr] & Hl & Hlim). specialize (Hlim Hne). cbn [app] in Hcs.
  assert (Hw : writePlannedRow pr wrap = (if wrap then open_tag tag_item else []) ++ (cs ≫= write_cell) ++ (if wrap then close_tag tag_item else [])).
  { unfold writePlannedRow. by rewrite Hcs. }
  assert (Hz : pr_encodedByteLength pr = zlen (writePlannedRow pr wrap)).
  { rewrite Hl, Hw. unfold zlen. rewrite !length_app. destruct wrap; cbn [length]; [change (length (open_tag tag_item)) with 6%nat; change (length (close_tag tag_item)) with 7%nat|]; lia. }
  split; [done|rewrite Hw; repeat apply valid_app; by destruct wrap|]. intros rest b Hb.
  destruct (Hr ∅ ((if wrap then close_tag tag_item else []) ++ rest) b Hnd) as (r & k & Hp & Hk & Hrow); [destruct wrap; lia|].
  exists r, k. split; [|split; [destruct wrap; lia|done]]. unfold parseRow, open, close. cbv zeta. cbn [p_rest].
  assert (Hstart : zlen (writePlannedRow pr wrap ++ rest) - zlen rest = pr_encodedByteLength pr) by (rewrite Hz; unfold zlen; rewrite length_app; lia).
  revert Hstart. generalize (zlen (writePlannedRow pr wrap ++ rest)) as start. intros start Hstart.
  rewrite Hw, <- !app_assoc. rewrite wrap_step by done. rewrite (bind_ok _ _ _ r _ Hp). rewrite wrap_step by done. cbn [p_rest].
  by destruct (Z.ltb_spec (nl_MaxRowBytes limits) (start - zlen rest)); [lia|].
Qed.

(** The rows of a table. *)
Record rows_ok (def : RfcStructureDefinition) (table : list row) (limits : NormalizedLimits) (name : bytes) (prs : list plannedRow) : Prop := {
  ro_valid : ValidString (prs ≫= fun pr => writePlannedRow pr true) = true;
  ro_read fuel rows rest b : (length table < fuel)%nat -> zlen rows + zlen table <= nl_MaxRows limits ->
    b + zlen (prs ≫= fun pr => writePlannedRow pr true) <= nl_MaxParameterBytes limits ->
    exists out k, parse_rows fuel name def limits rows (mkParser ((prs ≫= fun pr => writePlannedRow pr true) ++ close_tag name ++ rest) b) =
        (Ok (rows ++ out), mkParser (close_tag name ++ rest) (b + k)) /\
      0 <= k <= zlen (prs ≫= fun pr => writePlannedRow pr true) /\ Forall2 (reads_row def) table out }.

Lemma starts_close name rest b : startsWithTag name true (mkParser (close_tag name ++ rest) b) = true.
Proof. unfold startsWithTag. cbn [p_rest]. by rewrite strip_prefix_app. Qed.

Lemma starts_item name pr rest b : startsWithTag name true (mkParser (writePlannedRow pr true ++ rest) b) = false.
Proof. done. Qed.

Lemma rows_ok_nil def limits name : rows_ok def [] limits name [].
Proof.
  split; [done|]. intros [|fuel] rows rest b Hf Hr Hb; [cbn in Hf; lia|]. exists [], 0. rewrite app_nil_r, Z.add_0_r. cbn [mbind list_bind app parse_rows].
  rewrite starts_close. split; [done|]. split; [done|constructor].
Qed.

Lemma rows_ok_cons (def : RfcStructureDefinition) (input : row) (table : list row) (limits : NormalizedLimits) (name : bytes) (pr : plannedRow) (prs : list plannedRow) :
  planned_row_ok def input limits true pr -> rows_ok def table limits name prs -> rows_ok def (input :: table) limits name (pr :: prs).
Proof.
  intros [Hl Hv Hp] [Hvs Hr]. split; [by apply valid_app|]. intros fuel rows rest b Hf Hrows Hb.
  rewrite zlen_bind_cons in *. rewrite <- Hl in *. pose proof (zlen_nonneg (prs ≫= fun pr => writePlannedRow pr true)).
  change ((pr :: prs) ≫= fun pr => writePlannedRow pr true) with (writePlannedRow pr true ++ (prs ≫= fun pr => writePlannedRow pr true)). rewrite <- app_assoc.
  destruct fuel as [|fuel]; [cbn in Hf; lia|]. cbn [length] in Hf. cbn [parse_rows]. rewrite starts_item.
  assert (Hz : zlen (input :: table) = 1 + zlen table) by (unfold zlen; cbn [length]; lia). rewrite Hz in Hrows. pose proof (zlen_nonneg table).
  destruct (Z.leb_spec (nl_MaxRows limits) (zlen rows)); [lia|].
  destruct (Hp ((prs ≫= fun pr => writePlannedRow pr true) ++ close_tag name ++ rest) b ltac:(lia)) as (r & k & Hpr & Hk & Hrow). rewrite (bind_ok _ _ _ r _ Hpr).
  assert (Hr1 : zlen (rows ++ [r]) = zlen rows + 1) by (unfold zlen; rewrite length_app; cbn [length]; lia).
  destruct (Hr fuel (rows ++ [r]) rest (b + k) ltac:(lia) ltac:(lia) ltac:(lia)) as (out & k' & -> & Hk' & Hall).
  exists (r :: out), (k + k'). rewrite <- app_assoc, Z.add_assoc. split; [done|]. split; [lia|by constructor].
Qed.

Lemma plan_rows_ok (def : RfcStructureDefinition) (table : list row) (limits : NormalizedLimits) (name : bytes) (n : Z) (prs : list plannedRow) (n' : Z) (out : list plannedRow) :
  xml_def def -> Forall (map_Forall (fun _ => in_type)) table -> n <= nl_MaxParameterBytes limits ->
  plan_rows def table limits n prs = Ok (n', out) ->
  exists prs', out = prs ++ prs' /\ rows_ok def table limits name prs' /\
    n' = n + zlen (prs' ≫= fun pr => writePlannedRow pr true) /\ n' <= nl_MaxParameterBytes limits /\ length prs' = length table.
Proof.
  intros Hd Ht. revert n prs. induction Ht as [|input table Hi _ IH]; intros n prs Hn H; cbn [plan_rows] in H.
  { apply Ok_inj in H. injection H as -> ->. exists []. rewrite app_nil_r. split; [done|]. split; [apply rows_ok_nil|]. change (zlen _) with 0. split; [lia|]. by split; [lia|]. }
  ok_step H as pr Hpr. cbv zeta in H. apply plan_row_ok in Hpr; [|done|done]. destruct (Z.ltb_spec (nl_MaxParameterBytes limits) (n + pr_encodedByteLength pr)) as [|Hm]; [done|].
  destruct (IH _ _ Hm H) as (prs' & -> & Hok & Hl & Hlim & Hlen). exists (pr :: prs'). rewrite <- app_assoc. split; [done|]. split; [by apply rows_ok_cons|].
  rewrite zlen_bind_cons, <- (pw_length _ _ _ _ _ Hpr). split; [lia|]. split; [lia|]. cbn [length]. by rewrite Hlen.
Qed.

Lemma fields_length def fields i names prev out : snapshot_fields def fields i names prev = Ok out -> Forall (fun f => 0 <= InternalLength f) out.
Proof.
  revert i names prev out. induction fields as [|f rest IH]; intros i names prev out H; cbn [snapshot_fields] in H; [apply Ok_inj in H; by subst out|].
  match type of H with (if ?c then _ else _) = _ => destruct c eqn:E; [done|] end. apply orb_false_iff in E as [E _]. apply orb_false_iff in E as [_ El%Z.ltb_ge].
  cbv zeta in H. destruct (_ <? field_end f); [done|]. ok_step H as out' Ho. apply Ok_inj in H. subst out. constructor; [lia|by eapply IH].
Qed.

Lemma xml_fields_inv fields : assert_xml_fields fields = Ok tt -> Forall (fun f => simpleXMLName (FieldName f) = true) fields.
Proof.
  induction fields as [|f fields IH]; intros H; [constructor|]. cbn [assert_xml_fields] in H. ok_step H as u Hu. unfold AssertXMLName in Hu.
  destruct (simpleXMLName (FieldName f)) eqn:E; [|done]. destruct (bool_decide _); [|done]. constructor; [done|by apply IH].
Qed.

Lemma definition_ok def d : normalizeDefinition def = Ok d -> d = def /\ xml_def def.
Proof.
  unfold normalizeDefinition. intros H. ok_step H as d' Hv. pose proof (validate_fields _ _ _ Hv) as [-> Hnd]. ok_step H as dyn Hdyn. destruct dyn; [|done]. cbn [negb] in H.
  ok_step H as u Hx. destruct u. apply Ok_inj in H. subst d. split; [done|]. apply xml_fields_inv in Hx.
  assert (Hl : Forall (fun f => 0 <= InternalLength f) (Fields def)).
  { unfold ValidateCodec, SnapshotDefinition in Hv. ok_step Hv as d Hs. cbv zeta in Hs. destruct (_ || _); [done|]. destruct (ByteLength def <? 0); [done|].
    destruct (_ <? ByteLength def); [done|]. destruct (_ <? zlen (Fields def)); [done|]. ok_step Hs as fs Hfs. apply Ok_inj in Hs. subst d. ok_step Hv as u Hu. apply Ok_inj in Hv.
    apply fields_length in Hfs. rewrite <- Hv. done. }
  split; [|split; [done|]].
  - rewrite !Forall_forall in *. intros f Hf. split; auto.
  - unfold HasDynamicFields in Hdyn. rewrite Hv in Hdyn. cbn [mbind outcome_bind] in Hdyn. apply Ok_inj in Hdyn. by destruct (Fields def).
Qed.


Lemma rows_bytes prs : (length prs <= length (prs ≫= fun pr => writePlannedRow pr true))%nat.
Proof.
  induction prs as [|pr prs IH]; [done|]. pose proof (zlen_bind_cons (fun pr => writePlannedRow pr true) pr prs) as Hz. unfold zlen in Hz. cbn [length].
  assert (1 <= length (writePlannedRow pr true))%nat by (unfold writePlannedRow; rewrite length_app; cbn; lia). lia.
Qed.

(** The values of a parameter, and what the reader has of them. *)
Definition value_in_type (v : pvalue) : Prop :=
  match v with
  | PRow r => map_Forall (fun _ => in_type) r
  | PTable rows => Forall (map_Forall (fun _ => in_type)) rows
  | POther => True
  end.

Definition value_read (def : RfcStructureDefinition) (v v' : pvalue) : Prop :=
  match v, v' with
  | PRow r, PRow r' => reads_row def r r'
  | PTable rows, PTable rows' => Forall2 (reads_row def) rows rows'
  | _, _ => False
  end.

Definition body (kind : Kind) (rows : list plannedRow) : bytes := rows ≫= fun r => writePlannedRow r (is_table kind).

(** The rows of a value, between the tags of its parameter. *)
Lemma plan_value_ok def kind v limits name n n' rows :
  xml_def def -> value_in_type v -> kind <> KindOther -> 0 <= n <= nl_MaxParameterBytes limits -> plan_value def kind v limits n = Ok (n', rows) ->
  n' = n + zlen (body kind rows) /\ n' <= nl_MaxParameterBytes limits /\ ValidString (body kind rows) = true /\
  forall size rest, (length (body kind rows) <= size)%nat ->
    exists v' b, (if is_table kind then rows ← parse_rows (S size) name def limits []; mret (PTable rows) else r ← parseRow def limits false; mret (PRow r))
        (mkParser (body kind rows ++ close_tag name ++ rest) 0) = (Ok v', mkParser (close_tag name ++ rest) b) /\ value_read def v v'.
Proof.
  intros Hd Hv Hk Hn H. unfold body. destruct kind; [| |done]; cbn [is_table]; unfold plan_value in H; destruct v as [r|table|]; try done.
  - ok_step H as pr Hpr. cbv zeta in H. destruct (Z.ltb_spec (nl_MaxParameterBytes limits) (n + pr_encodedByteLength pr)) as [|Hm]; [done|]. apply Ok_inj in H. injection H as <- <-.
    apply plan_row_ok in Hpr as [Hl Hval Hread]; [|done|done]. cbn [mbind list_bind]. rewrite app_nil_r, <- Hl. split; [done|]. split; [done|]. split; [done|].
    intros size rest _. destruct (Hread (close_tag name ++ rest) 0 ltac:(lia)) as (r' & k & Hp & _ & Hr). exists (PRow r'), (0 + k). split; [by rewrite (bind_ok _ _ _ r' _ Hp)|done].
  - destruct (Z.ltb_spec (nl_MaxRows limits) (zlen table)) as [|Hrows]; [done|].
    destruct (plan_rows_ok def table limits name n [] n' rows Hd Hv ltac:(lia) H) as (prs & E & [Hval Hread] & Hl & Hlim & Hlen). cbn [app] in E. subst rows.
    split; [done|]. split; [done|]. split; [done|]. intros size rest Hsize. pose proof (rows_bytes prs).
    destruct (Hread (S size) [] rest 0 ltac:(lia) ltac:(unfold zlen in *; cbn [length]; lia) ltac:(lia)) as (out & k & Hp & _ & Hall).
    exists (PTable out), (0 + k). split; [by rewrite (bind_ok _ _ _ out _ Hp)|done].
Qed.

Lemma tag_length name : zlen (open_tag name) = OpenTagByteLength name /\ zlen (close_tag name) = CloseTagByteLength name.
Proof. unfold open_tag, close_tag, OpenTagByteLength, CloseTagByteLength, zlen. rewrite !length_app. cbn [length lit]. cbn. lia. Qed.

Lemma encode_decode_parameter name def kind v limits out :
  value_in_type v -> EncodeParameter name def kind v limits = Ok out ->
  exists v', DecodeParameter name def kind out limits = Ok v' /\ value_read def v v'.
Proof.
  intros Hv H. unfold EncodeParameter in H. ok_step H as u Hu. destruct u. destruct (match kind with KindOther => true | _ => false end) eqn:Ek; [done|].
  ok_step H as d Hd. destruct (definition_ok _ _ Hd) as [-> Hx]. ok_step H as lim Hlim. cbv zeta in H.
  destruct (Z.ltb_spec (nl_MaxParameterBytes lim) (OpenTagByteLength name + CloseTagByteLength name)) as [|Hm]; [done|].
  destruct (tag_length name) as [Ho Hc]. pose proof (zlen_nonneg (open_tag name)). pose proof (zlen_nonneg (close_tag name)).
  ok_step H as x Hp. destruct x as [n rows].
  destruct (plan_value_ok def kind v lim name (OpenTagByteLength name + CloseTagByteLength name) n rows Hx Hv ltac:(by intros ->) ltac:(lia) Hp) as (Hn & Hle & Hval & Hread). fold (body kind rows) in H.
  destruct (_ =? n) eqn:En; [|done]. apply Z.eqb_eq in En. apply Ok_inj in H. subst out.
  destruct (Hread (length (open_tag name ++ body kind rows ++ close_tag name)) [] ltac:(rewrite !length_app; lia)) as (v' & b & Hpv & Hrd).
  exists v'. split; [|done]. unfold DecodeParameter. rewrite Hu. cbn [mbind outcome_bind]. rewrite Ek, Hd. cbn [mbind outcome_bind]. rewrite Hlim. cbn [mbind outcome_bind].
  assert (snapshotAndValidate (open_tag name ++ body kind rows ++ close_tag name) lim = Ok (open_tag name ++ body kind rows ++ close_tag name)) as ->.
  { unfold AssertXMLName in Hu. destruct (simpleXMLName name) eqn:Es; [|done]. destruct (tags_valid name Es) as [V1 V2]. unfold snapshotAndValidate. cbv zeta. rewrite En.
    destruct (Z.eqb_spec n 0) as [E0|_]; [unfold OpenTagByteLength, CloseTagByteLength in *; pose proof (zlen_nonneg name); pose proof (zlen_nonneg (body kind rows)); lia|].
    destruct (Z.ltb_spec (nl_MaxParameterBytes lim) n); [lia|]. cbn [orb]. rewrite (valid_app _ _ V1 (valid_app _ _ Hval V2)). done. }
  cbn [mbind outcome_bind]. unfold parse_value, open, close. rewrite (bind_ok _ _ _ tt _ (token_ok _ _ _)). rewrite app_nil_r in Hpv. rewrite (bind_ok _ _ _ v' _ Hpv).
  pose proof (token_ok (close_tag name) [] b) as Hc'. rewrite app_nil_r in Hc'. by rewrite (bind_ok _ _ _ tt _ Hc').
Qed.


(** ** The reader ends *)
Lemma entity_ends raw start : 0 <= start < zlen raw -> total (DecodeXMLEntityReference raw start).
Proof.
  intros H. destruct (entity_exact raw start H) as [Hp _]. split; [done|]. unfold DecodeXMLEntityReference.
  destruct (go_from raw (start + 1)) as [rest| |] eqn:E; [|unfold go_from, go_slice in E; by destruct (_ || _) in E|done]. cbn [mbind outcome_bind].
  destruct (index_byte rest x3b) as [i|]; [|done]. cbv zeta.
  destruct (go_slice raw (start + 1) _) as [body| |] eqn:Eb; [|unfold go_slice in Eb; by destruct (_ || _) in Eb|done]. cbn [mbind outcome_bind].
  assert (Hc : forall ds radix run digit, characterReferenceValue ds radix run digit <> Err EFuel).
  { intros. unfold characterReferenceValue. destruct (_ || _); [done|]. by destruct (parse_run _ _ _). }
  assert (He : entity_body body <> Err EFuel).
  { unfold entity_body. destruct body as [|c b]; [done|]. destruct (negb _); [by destruct (named_entity _)|]. destruct b as [|x b]; [apply Hc|]. destruct (bool_decide _); apply Hc. }
  destruct (entity_body body) as [c|e|]; cbn [mbind outcome_bind]; [by destruct (_ || _)|congruence|done].
Qed.

Lemma entities_ends fuel raw offset b : 0 <= offset <= zlen raw -> zlen raw - offset < Z.of_nat fuel -> total (entities_loop fuel raw offset b).
Proof.
  revert offset b. induction fuel as [|fuel IH]; intros offset b Ho Hf; [lia|]. cbn [entities_loop]. destruct (Z.ltb_spec offset (zlen raw)); [|done].
  apply total_bind; [apply total_from; lia|]. intros rest Hr. pose proof (from_length _ _ _ Hr) as Hz. pose proof (index_byte_spec rest x26) as Hi.
  destruct (index_byte rest x26) as [rel|]; [|done]. destruct Hi as (t & Ht & _ & _). cbv zeta.
  assert (Hrel : Z.of_nat rel < zlen rest).
  { apply (f_equal (@length byte)) in Ht. rewrite length_app, length_take in Ht. cbn [length] in Ht. unfold zlen. lia. }
  apply total_bind; [apply entity_ends; lia|]. intros [cp len] Hd. apply entity_exact in Hd as (body & r & Hdrop & _ & _ & _ & ->); [|lia].
  apply (f_equal (@length byte)) in Hdrop. rewrite length_drop, length_app in Hdrop. cbn [length] in Hdrop. pose proof (zlen_nonneg body).
  apply total_bind; [unfold assertXMLCodePoint; by destruct (xml_code_point _)|]. intros _ _. apply IH; unfold zlen in *; lia.
Qed.

Lemma code_points_ends rs : total (assert_code_points rs).
Proof. induction rs as [|r rs IH]; [done|]. cbn [assert_code_points]. apply total_bind; [unfold assertXMLCodePoint; by destruct (xml_code_point _)|]. by intros _ _. Qed.

Lemma scalar_ends s : total (AssertUnicodeScalarText s) /\ total (AssertNulFreeUnicodeScalarText s).
Proof. unfold AssertNulFreeUnicodeScalarText, AssertUnicodeScalarText. destruct (ValidString s); cbn; [|done]. split; [done|]. by repeat case_match. Qed.

Lemma decode_entities_ends raw : total (decodeEntities raw).
Proof.
  unfold decodeEntities. apply total_bind; [apply entities_ends; unfold zlen; lia|]. intros r _. apply total_bind; [apply scalar_ends|]. intros _ _.
  apply total_bind; [apply code_points_ends|]. by intros _ _.
Qed.

(** A step of the parser that ends, and leaves no more text than it had. *)
Definition steps {A} (m : M parser A) : Prop :=
  forall p, total (fst (m p)) /\ forall a p', m p = (Ok a, p') -> (length (p_rest p') <= length (p_rest p))%nat.

Lemma steps_bind {A B} (m : M parser A) (k : A -> M parser B) : steps m -> (forall a, steps (k a)) -> steps (m ≫= k).
Proof.
  intros Hm Hk p. destruct (Hm p) as [[H1 H2] H3]. unfold mbind, stm_bind. destruct (m p) as [[a|e|] p1] eqn:E; cbn in *.
  - destruct (Hk a p1) as [H4 H5]. split; [done|]. intros b p' Hb. specialize (H3 a p1 eq_refl). specialize (H5 b p' Hb). lia.
  - split; [split; [done|congruence]|done].
  - done.
Qed.

Lemma steps_ret {A} (a : A) : steps (mret a).
Proof. intros p. split; [done|]. intros b p' [= _ ->]. done. Qed.

Lemma steps_lift {A} (m : res A) : total m -> steps (lift m : M parser A).
Proof. intros H p. split; [exact H|]. unfold lift. by intros a p' [= _ ->]. Qed.

Lemma token_shrinks t p a p' : token t p = (Ok a, p') -> (length (p_rest p') + length t = length (p_rest p))%nat.
Proof.
  unfold token. destruct (strip_prefix t (p_rest p)) as [r|] eqn:E; [|done]. intros [= _ <-]. apply strip_prefix_inv in E. cbn. rewrite E, length_app. lia.
Qed.

Lemma steps_token t : steps (token t).
Proof. intros p. split; [unfold token; by destruct (strip_prefix _ _)|]. intros a p' H%token_shrinks. lia. Qed.

Lemma steps_consume limits n : steps (consume limits n).
Proof. intros p. unfold consume. destruct (_ <? n); [done|]. cbv zeta. cbn. destruct (_ <? _); (split; [done|]); [done|]. by intros a p' [= _ <-]. Qed.

Lemma steps_cell limits : steps (cell limits).
Proof.
  intros p. unfold cell. destruct (index_byte (p_rest p) x3c) as [i|]; [|done]. cbv zeta. destruct (contains_cdata_end _); [done|]. destruct (_ <? zlen _); [done|].
  split; [apply decode_entities_ends|]. intros a p' [= _ <-]. cbn. rewrite length_drop. lia.
Qed.

Lemma base64_ends v maximum : total (DecodeBase64 v maximum).
Proof. unfold DecodeBase64. cbv zeta. destruct (_ =? 0); [done|]. destruct (_ || _); [done|]. destruct (_ <? _); [done|]. destruct (DecodeString _); [|done]. by destruct (negb _). Qed.

Lemma date_ends s : total (AssertClassicDate s) /\ total (AssertClassicTime s).
Proof. unfold AssertClassicDate, AssertClassicTime. split; by repeat case_match. Qed.

Lemma capacity_ends field : total (characterCapacity field).
Proof. unfold characterCapacity. by destruct (negb _). Qed.

Lemma steps_decode field v limits : cell_type_of (Exid field) <> TPacked -> steps (decodeCell field v limits).
Proof.
  intros Hp. pose proof (scalar_ends v) as [Hs1 Hs2]. pose proof (capacity_ends field) as Hc. pose proof (base64_ends v (nl_MaxCellBytes limits)) as Hb.
  unfold decodeCell. destruct (cell_type_of (Exid field)); cbv zeta;
    repeat first [apply steps_ret|apply steps_consume|apply steps_lift; (done || apply date_ends)|apply steps_bind; [|intros ?]|case_match]; done.
Qed.


Definition unpacked (def : RfcStructureDefinition) : Prop := Forall (fun f => cell_type_of (Exid f) <> TPacked) (Fields def).

#[global] Instance cell_type_eqdec : EqDecision cell_type.
Proof. solve_decision. Defined.

#[global] Instance unpacked_dec def : Decision (unpacked def).
Proof. unfold unpacked. apply _. Defined.

Lemma steps_cells (fields : list RfcStructureField) (limits : NormalizedLimits) (acc : row) :
  Forall (fun f => cell_type_of (Exid f) <> TPacked) fields -> steps (parse_cells fields limits acc).
Proof.
  intros H. revert acc. induction H as [|f fields Hf _ IH]; intros acc; cbn [parse_cells]; [apply steps_ret|].
  apply steps_bind; [apply steps_token|]. intros _. apply steps_bind; [apply steps_cell|]. intros text. apply steps_bind; [apply steps_token|]. intros _.
  apply steps_bind; [by apply steps_decode|]. intros v. apply IH.
Qed.

Lemma steps_row def limits wrap : unpacked def -> steps (parseRow def limits wrap).
Proof.
  intros Hd p. unfold parseRow. cbv zeta. generalize (zlen (p_rest p)) as start. intros start. revert p.
  assert (Hs : forall t, steps (if wrap then token t else mret tt)) by (intros t; destruct wrap; [apply steps_token|apply steps_ret]).
  apply steps_bind; [apply Hs|]. intros _. apply steps_bind; [by apply steps_cells|]. intros r. apply steps_bind; [apply Hs|]. intros _ p.
  destruct (_ <? _); (split; [done|]); [done|]. by intros a p' [= _ <-].
Qed.

(** A row of a table takes at least its tag. *)
Lemma row_shrinks def limits p r p' : unpacked def -> parseRow def limits true p = (Ok r, p') -> (length (p_rest p') < length (p_rest p))%nat.
Proof.
  intros Hd H. unfold parseRow, open, close in H. cbv zeta in H. apply bind_inv in H as (u & p1 & H1%token_shrinks & H).
  change (length (open_tag tag_item)) with 6%nat in H1. apply bind_inv in H as (r1 & p2 & H2 & H).
  destruct (steps_cells (Fields def) limits ∅ Hd p1) as [_ Hc]. specialize (Hc _ _ H2). apply bind_inv in H as (u' & p3 & H3%token_shrinks & H).
  destruct (_ <? _); [done|]. injection H as _ <-. lia.
Qed.

Lemma steps_rows def fuel name limits rows p :
  unpacked def -> (length (p_rest p) < fuel)%nat ->
  total (fst (parse_rows fuel name def limits rows p)) /\
  forall out p', parse_rows fuel name def limits rows p = (Ok out, p') -> (length (p_rest p') <= length (p_rest p))%nat.
Proof.
  intros Hd. revert rows p. induction fuel as [|fuel IH]; intros rows p Hf; [lia|]. cbn [parse_rows]. destruct (startsWithTag name true p); [split; [done|]; by intros out p' [= _ ->]|].
  destruct (_ <=? _); [done|]. destruct (steps_row def limits true Hd p) as [[H1 H2] _]. unfold mbind, stm_bind.
  destruct (parseRow def limits true p) as [[r|e|] p1] eqn:E; cbn in *; [|split; [split; [done|congruence]|done]|done].
  pose proof (row_shrinks _ _ _ _ _ Hd E). destruct (IH (rows ++ [r]) p1 ltac:(lia)) as [H3 H4]. split; [done|]. intros out p' Ho. specialize (H4 _ _ Ho). lia.
Qed.

Lemma ends_bind {A B} (m : M parser A) (k : A -> M parser B) p :
  total (fst (m p)) -> (forall a p', m p = (Ok a, p') -> total (fst (k a p'))) -> total (fst ((m ≫= k) p)).
Proof.
  intros [H1 H2] Hk. unfold mbind, stm_bind. destruct (m p) as [[a|e|] p1]; cbn in *; [by apply Hk|split; [done|congruence]|done].
Qed.

Lemma steps_finish {A} (v : A) : steps (_ ← finish; mret v).
Proof.
  apply steps_bind; [|intros _; apply steps_ret]. intros q. unfold finish. destruct (bytes_eqb _ _); (split; [done|]); [|done]. by intros a q' [= _ <-].
Qed.

Lemma parse_value_ends name def kind limits p : unpacked def -> total (fst (parse_value name def kind limits (length (p_rest p)) p)).
Proof.
  intros Hd. unfold parse_value, open, close. apply ends_bind; [apply steps_token|]. intros _ p1 H1%token_shrinks. apply ends_bind.
  - destruct (is_table kind); (apply ends_bind; [|done]); [apply steps_rows; [done|lia]|by apply steps_row].
  - intros v p2 _. apply ends_bind; [apply steps_token|]. intros _ p3 _. apply (steps_finish v).
Qed.

Lemma xml_fields_ends fields : total (assert_xml_fields fields).
Proof.
  induction fields as [|f fields IH]; [done|]. cbn [assert_xml_fields]. apply total_bind; [unfold AssertXMLName; by destruct (simpleXMLName _)|]. intros _ _. by destruct (bool_decide _).
Qed.

Lemma definition_ends def : total (normalizeDefinition def).
Proof.
  unfold normalizeDefinition. apply total_bind; [apply validate_total|]. intros d _. apply total_bind; [unfold HasDynamicFields; apply total_bind; [apply validate_total|]; by intros|].
  intros dyn _. destruct dyn; [|done]. cbn [negb]. apply total_bind; [apply xml_fields_ends|]. by intros.
Qed.

Lemma limits_end limits : total (NormalizeLimits limits).
Proof.
  assert (H : forall v f m, total (boundedLimit v f m)) by (intros; unfold boundedLimit; cbv zeta; by destruct (_ || _)). unfold NormalizeLimits.
  repeat (apply total_bind; [apply H|intros ? _]). done.
Qed.

Lemma decode_parameter_ends name def kind b limits : unpacked def -> total (DecodeParameter name def kind b limits).
Proof.
  intros Hd. unfold DecodeParameter. apply total_bind; [unfold AssertXMLName; by destruct (simpleXMLName _)|]. intros _ _. destruct (match kind with KindOther => true | _ => false end); [done|].
  apply total_bind; [apply definition_ends|]. intros d [-> _]%definition_ok. apply total_bind; [apply limits_end|]. intros lim _.
  apply total_bind; [unfold snapshotAndValidate; cbv zeta; destruct (_ || _); [done|]; destruct (strip_prefix _ _); [done|]; by destruct (negb _)|]. intros text _. apply (parse_value_ends _ _ _ _ (mkParser text 0)). done.
Qed.

#[global] Instance in_type_dec v : Decision (in_type v).
Proof. unfold in_type. repeat match goal with |- context [match ?x with _ => _ end] => is_var x; destruct x end; apply _. Defined.

#[global] Instance value_in_type_dec v : Decision (value_in_type v).
Proof. destruct v; cbn; apply _. Defined.

(** ** Results *)

(** C17: What the encoder of classic xRFC documents accepts, the decoder reads back under
    the same limits: every row with exactly the cells of its definition, each the normal
    form of the value supplied or of the initial value of its type (texts with markup,
    integers, packed decimals, floating-point numbers to the bit, dates, times, bytes). *)
Theorem classic_xrfc_roundtrip name def kind v limits out :
  value_in_type v -> EncodeParameter name def kind v limits = Ok out ->
  exists v', DecodeParameter name def kind out limits = Ok v' /\ value_read def v v'.
Proof. apply encode_decode_parameter. Qed.

Lemma classic_xrfc_roundtrip_witness :
  exists v', DecodeParameter (lit "P1") sample_def KindTable sample_xml no_limits = Ok v' /\ value_read sample_def sample_value v'.
Proof.
  apply (classic_xrfc_roundtrip (lit "P1") sample_def KindTable sample_value no_limits sample_xml).
  - apply (bool_decide_unpack _). vm_compute. reflexivity.
  - vm_compute. reflexivity.
Defined.

(** The sample without its packed field. *)
Definition plain_def : RfcStructureDefinition := mkSDef (lit "T") 60 (take 5 (Fields sample_def)).

(** On a definition without packed fields the decoder of classic xRFC documents ends on
    every text with a value or an error, and never panics. *)
Theorem classic_xrfc_decoder_total name def kind b limits : unpacked def -> total (DecodeParameter name def kind b limits).
Proof. apply decode_parameter_ends. Qed.

Lemma classic_xrfc_decoder_total_witness : unpacked plain_def /\ total (DecodeParameter (lit "P1") plain_def KindTable (lit "<P1><item><ID>&#;") no_limits).
Proof. split; [apply (bool_decide_unpack _); vm_compute; reflexivity|]. apply classic_xrfc_decoder_total. apply (bool_decide_unpack _). vm_compute. reflexivity. Defined.

(** A document whose packed cell has an exponent near the largest integer. *)
Definition hostile_xml : bytes :=
  lit "<P1><item><ID>7</ID><TEXT></TEXT><NUM>1</NUM><DAY></DAY><RAW>AAAA</RAW><AMT>1e9223372036854775805</AMT></item></P1>".

(** A document from the peer can stop the process: a packed cell with an exponent near the
    largest integer reaches the packed encoder, which panics. *)
Theorem hostile_document_panics : DecodeParameter (lit "P1") sample_def KindTable hostile_xml no_limits = Panic.
Proof. vm_compute. reflexivity. Qed.
