(* ===== verification/ServerRequest.v ===== *)
(** Package [rfcserver], internal/rfcserver/request.go, response.go, dispatcher.go and
    niframe.go: the server's half of a call.  A request is decoded from its field chain,
    a handler is found by name, and its answer is encoded the way a client reads it.

    The Go loop over the fields keeps a pointer [cur] to the table it fills; it is set when
    a table is appended and always points to the last one, so the model updates the last
    table and [s_haveCur] says that the pointer is not nil.  A handler is a function from a
    request to a response, an ABAP exception or another error.

    The theorems: the server reads exactly what a client's [EncodeCutFunctionRequest] wrote;
    a client reads a server's answer as the outcome it encodes; and a dispatched call reaches
    the handler of its name with the caller's parameters. *)
From stdpp Require Import base list numbers strings pretty gmap.
From Stdlib Require Import ZArith Lia Strings.Byte.
From S2P Require Import Prelude Errors Text Inflate UnicodeScalar XrfcNames Appc Rfcpro Rfcerr Cpic CpicFunction.

Open Scope Z_scope.

Abbreviation Field := Cpic.Field.
Abbreviation mkField := Cpic.mkField.

Definition errRequest : error := ERfcserver ErrRequest.

(** [fmt.Errorf("%w: %v", ErrRequest, err)] *)
Definition as_request_error {A} (m : res A) : res A :=
  match m with Ok a => Ok a | Err EFuel => Err EFuel | Err _ => Err errRequest | Panic => Panic end.

Definition cutRequestPrefix : bytes := [x05; x02; x00; x00].
Definition cutResponsePrefix : bytes := [x05; x00; x00; x00].

Definition tagCompactFlag : Z := 0x4000.
Definition tagCompactRequest : Z := 0x4001.
Definition tagCompactEnd : Z := 0x4004.
Definition tagTableID : Z := 0x0330.

Inductive ByteOrder : Type := LittleEndian | BigEndian.

Record STable : Type := mkSTable {
  st_Name : bytes; st_RowByteLength : Z; st_Rows : list bytes; st_ID : bytes }.

Record Request : Type := mkRequest {
  r_FunctionName : bytes;
  r_KernelRelease : bytes;
  r_RequestedOutputs : list bytes;
  r_Imports : list NamedValue;
  r_Tables : list STable;
  r_XrfcParameters : list NamedValue;
  r_Compact : bytes;
  r_Eclipse : bool;
  r_Order : option ByteOrder;
  r_SessionGUID : option bytes }.

(** ** Names *)
(** [utf16LooksBigEndian]: the loop over the pairs, with its two counts. *)
Fixpoint endian_counts (b : bytes) (low high : Z) : Z * Z :=
  match b with
  | x :: y :: b =>
      let high := if bool_decide (x = x00) && negb (bool_decide (y = x00)) then high + 1 else high in
      let low := if bool_decide (y = x00) && negb (bool_decide (x = x00)) then low + 1 else low in
      endian_counts b low high
  | _ => (low, high)
  end.
Definition utf16LooksBigEndian (b : bytes) : bool := let '(low, high) := endian_counts b 0 0 in low <? high.

(** [order.Uint16] of each pair; a byte without a partner is not read. *)
Fixpoint order_units (order : ByteOrder) (b : bytes) : list Z :=
  match b with
  | x :: y :: b =>
      (match order with LittleEndian => b2z x + b2z y * 256 | BigEndian => b2z x * 256 + b2z y end) :: order_units order b
  | _ => []
  end.

(** [strings.TrimRight(s, " \x00")] *)
Definition trim_blank (s : bytes) : bytes :=
  rev (snd (span (fun b => bool_decide (b = x20) || bool_decide (b = x00)) (rev s))).

Definition decodeUTF16 (b : bytes) (order : option ByteOrder) : bytes :=
  let order := match order with
    | Some o => o
    | None => if utf16LooksBigEndian (take (Nat.div (length b) 2 * 2) b) then BigEndian else LittleEndian
    end in
  match b with
  | [] => []
  | _ => trim_blank (utf8_string (utf16_decode (order_units order b)))
  end.

Definition decodeUTF16LE (b : bytes) : bytes :=
  match b with
  | [] => []
  | _ =>
      let order := if utf16LooksBigEndian (take (Nat.div (length b) 2 * 2) b) then BigEndian else LittleEndian in
      trim_blank (utf8_string (utf16_decode (order_units order b)))
  end.

(** The opening field with at least two bytes decides; another value leaves it open. *)
Fixpoint utf16Order (fields : list Field) : option ByteOrder :=
  match fields with
  | [] => None
  | f :: fields =>
      match f_Value f with
      | _ :: b1 :: _ =>
          if f_Tag f =? TagStart
          then (if bool_decide (b1 = x01) then Some LittleEndian else if bool_decide (b1 = x02) then Some BigEndian else None)
          else utf16Order fields
      | _ => utf16Order fields
      end
  end.

Definition ImportText (r : Request) (name : bytes) : option bytes :=
  match list_find (fun p => nv_Name p = name) (r_Imports r) with
  | Some (_, p) => Some (decodeUTF16 (nv_Value p) (r_Order r))
  | None => None
  end.

Definition ImportByte (r : Request) (name : bytes) : byte :=
  match list_find (fun p => nv_Name p = name /\ length (nv_Value p) = 1%nat) (r_Imports r) with
  | Some (_, p) => match nv_Value p with [b] => b | _ => x00 end
  | None => x00
  end.

(** ** The loop over the fields *)
Record loop_state : Type := mkLoop {
  s_req : Request;
  s_pendingParam : bytes; s_havePendingParam : bool;
  s_pendingXrfc : bytes; s_haveXrfc : bool;
  s_haveCur : bool;
  s_pendingXrfcData : bytes;
  s_compactCompressed : bool; s_compact : bytes; s_haveCompact : bool }.

Definition set_last (f : STable -> STable) (ts : list STable) : list STable :=
  match rev ts with [] => [] | t :: rest => rev (f t :: rest) end.

Definition with_req (s : loop_state) (r : Request) : loop_state :=
  mkLoop r (s_pendingParam s) (s_havePendingParam s) (s_pendingXrfc s) (s_haveXrfc s) (s_haveCur s) (s_pendingXrfcData s)
    (s_compactCompressed s) (s_compact s) (s_haveCompact s).

Definition set_kernel (r : Request) (v : bytes) : Request :=
  mkRequest (r_FunctionName r) v (r_RequestedOutputs r) (r_Imports r) (r_Tables r) (r_XrfcParameters r) (r_Compact r)
    (r_Eclipse r) (r_Order r) (r_SessionGUID r).
Definition set_function (r : Request) (v : bytes) : Request :=
  mkRequest v (r_KernelRelease r) (r_RequestedOutputs r) (r_Imports r) (r_Tables r) (r_XrfcParameters r) (r_Compact r)
    (r_Eclipse r) (r_Order r) (r_SessionGUID r).
Definition add_output (r : Request) (v : bytes) : Request :=
  mkRequest (r_FunctionName r) (r_KernelRelease r) (r_RequestedOutputs r ++ [v]) (r_Imports r) (r_Tables r)
    (r_XrfcParameters r) (r_Compact r) (r_Eclipse r) (r_Order r) (r_SessionGUID r).
Definition add_import (r : Request) (p : NamedValue) : Request :=
  mkRequest (r_FunctionName r) (r_KernelRelease r) (r_RequestedOutputs r) (r_Imports r ++ [p]) (r_Tables r)
    (r_XrfcParameters r) (r_Compact r) (r_Eclipse r) (r_Order r) (r_SessionGUID r).
Definition set_tables (r : Request) (ts : list STable) : Request :=
  mkRequest (r_FunctionName r) (r_KernelRelease r) (r_RequestedOutputs r) (r_Imports r) ts
    (r_XrfcParameters r) (r_Compact r) (r_Eclipse r) (r_Order r) (r_SessionGUID r).
Definition add_xrfc (r : Request) (p : NamedValue) : Request :=
  mkRequest (r_FunctionName r) (r_KernelRelease r) (r_RequestedOutputs r) (r_Imports r) (r_Tables r)
    (r_XrfcParameters r ++ [p]) (r_Compact r) (r_Eclipse r) (r_Order r) (r_SessionGUID r).
Definition set_session (r : Request) (v : bytes) : Request :=
  mkRequest (r_FunctionName r) (r_KernelRelease r) (r_RequestedOutputs r) (r_Imports r) (r_Tables r)
    (r_XrfcParameters r) (r_Compact r) (r_Eclipse r) (r_Order r) (Some v).
Definition set_compact (r : Request) (v : bytes) : Request :=
  mkRequest (r_FunctionName r) (r_KernelRelease r) (r_RequestedOutputs r) (r_Imports r) (r_Tables r)
    (r_XrfcParameters r) v (r_Eclipse r) (r_Order r) (r_SessionGUID r).
Definition set_eclipse (r : Request) : Request :=
  mkRequest (r_FunctionName r) (r_KernelRelease r) (r_RequestedOutputs r) (r_Imports r) (r_Tables r)
    (r_XrfcParameters r) (r_Compact r) true (r_Order r) (r_SessionGUID r).

(** The closing boundary of an xRFC parameter: its name is the root element of the XML. *)
Definition close_xrfc (s : loop_state) : res loop_state :=
  name ← as_request_error (DecodeRecursiveParameterName (s_pendingXrfcData s));
  if negb (bool_decide (s_pendingXrfc s = [])) && negb (bytes_eqb (s_pendingXrfc s) name) then Err errRequest
  else Ok (mkLoop (add_xrfc (s_req s) (mkNamedValue name (s_pendingXrfcData s))) (s_pendingParam s) (s_havePendingParam s)
             (s_pendingXrfc s) false (s_haveCur s) [] (s_compactCompressed s) (s_compact s) (s_haveCompact s)).

Definition request_field (names : option ByteOrder) (f : Field) (s : loop_state) : res loop_state :=
  let tag := f_Tag f in
  let v := f_Value f in
  let req := s_req s in
  if tag =? TagKernel then Ok (with_req s (set_kernel req (decodeUTF16 v names)))
  else if tag =? TagFunction then Ok (with_req s (set_function req (decodeUTF16 v names)))
  else if tag =? TagCallContext then Ok s
  else if tag =? TagRequestedOutput then Ok (with_req s (add_output req (decodeUTF16 v names)))
  else if tag =? TagParameterName then
    if s_havePendingParam s then Err errRequest
    else Ok (mkLoop req (decodeUTF16 v names) true (s_pendingXrfc s) (s_haveXrfc s) (s_haveCur s) (s_pendingXrfcData s)
               (s_compactCompressed s) (s_compact s) (s_haveCompact s))
  else if tag =? TagParameterValue then
    if negb (s_havePendingParam s) then Err errRequest
    else Ok (mkLoop (add_import req (mkNamedValue (s_pendingParam s) v)) (s_pendingParam s) false (s_pendingXrfc s)
               (s_haveXrfc s) (s_haveCur s) (s_pendingXrfcData s) (s_compactCompressed s) (s_compact s) (s_haveCompact s))
  else if tag =? TagTableName then
    Ok (mkLoop (set_tables req (r_Tables req ++ [mkSTable (decodeUTF16 v names) 0 [] []])) (s_pendingParam s)
          (s_havePendingParam s) (s_pendingXrfc s) (s_haveXrfc s) true (s_pendingXrfcData s)
          (s_compactCompressed s) (s_compact s) (s_haveCompact s))
  else if tag =? tagTableID then
    if s_haveCur s
    then Ok (with_req s (set_tables req (set_last (fun t => mkSTable (st_Name t) (st_RowByteLength t) (st_Rows t) v) (r_Tables req))))
    else Ok s
  else if tag =? TagSession then
    match r_SessionGUID req with
    | None => if zlen v =? 16 then Ok (with_req s (set_session req v)) else Ok s
    | Some _ => Ok s
    end
  else if tag =? tagCompactFlag then
    Ok (mkLoop req (s_pendingParam s) (s_havePendingParam s) (s_pendingXrfc s) (s_haveXrfc s) (s_haveCur s) (s_pendingXrfcData s)
          (match v with [_; b] => bool_decide (b = x01) | _ => false end) (s_compact s) true)
  else if tag =? tagCompactRequest then
    Ok (mkLoop req (s_pendingParam s) (s_havePendingParam s) (s_pendingXrfc s) (s_haveXrfc s) (s_haveCur s) (s_pendingXrfcData s)
          (s_compactCompressed s) (s_compact s ++ v) true)
  else if tag =? tagCompactEnd then Ok s
  else if tag =? TagTableHeader then
    if negb (s_haveCur s) || (zlen v <? 8) then Err errRequest
    else
      n ← be_uint 4 v;
      Ok (with_req s (set_tables req (set_last (fun t => mkSTable (st_Name t) n (st_Rows t) (st_ID t)) (r_Tables req))))
  else if tag =? TagTableCompr then
    if negb (s_haveCur s) then Err errRequest
    else Ok (with_req s (set_tables req
               (set_last (fun t => mkSTable (st_Name t) (st_RowByteLength t) (st_Rows t ++ [v]) (st_ID t)) (r_Tables req))))
  else if tag =? TagXRfcParameter then
    if s_haveXrfc s then close_xrfc s
    else Ok (mkLoop req (s_pendingParam s) (s_havePendingParam s) (decodeUTF16 v names) true (s_haveCur s) (s_pendingXrfcData s)
               (s_compactCompressed s) (s_compact s) (s_haveCompact s))
  else if tag =? TagXRfcData then
    Ok (mkLoop req (s_pendingParam s) (s_havePendingParam s) (s_pendingXrfc s) (s_haveXrfc s) (s_haveCur s)
          (s_pendingXrfcData s ++ v) (s_compactCompressed s) (s_compact s) (s_haveCompact s))
  else Ok s.

Fixpoint request_fields (names : option ByteOrder) (fields : list Field) (s : loop_state) : res loop_state :=
  match fields with
  | [] => Ok s
  | f :: fields => s ← request_field names f s; request_fields names fields s
  end.

Definition maxCompactBytes : Z := Z.shiftl 64 20.

Definition inflateBounded (data : bytes) (limit : Z) : res bytes :=
  out ← inflate data;
  if limit <? zlen out then Err errRequest else Ok out.

Definition initial_request (names : option ByteOrder) : Request := mkRequest [] [] [] [] [] [] [] false names None.
Definition initial_loop (names : option ByteOrder) : loop_state :=
  mkLoop (initial_request names) [] false [] false false [] false [] false.

(** What is checked after the loop. *)
Definition finish_request (s : loop_state) : res Request :=
  if s_havePendingParam s then Err errRequest
  else if bool_decide (r_FunctionName (s_req s) = []) then Err errRequest
  else if s_haveCompact s then
    compact ← (if s_compactCompressed s then as_request_error (inflateBounded (s_compact s) maxCompactBytes) else Ok (s_compact s));
    Ok (set_compact (s_req s) compact)
  else Ok (s_req s).

Definition decodeFunctionRequest (body : bytes) (initialPreviousTag : Z) : res Request :=
  decoded ← as_request_error (DecodeFieldChainPrefix body initialPreviousTag TagEnd default_limits);
  let names := utf16Order (dp_Fields decoded) in
  s ← request_fields names (dp_Fields decoded) (initial_loop names);
  finish_request s.

Definition hasCutRequestPrefix (payload : bytes) : bool :=
  (zlen cutRequestPrefix <=? zlen payload) && bytes_eqb (take 4 payload) cutRequestPrefix.

Definition eclipseLogonPrefix : bytes := [xd9; xc6; xc3].
Definition isEclipseLogon (payload : bytes) : bool :=
  (zlen eclipseLogonPrefix <=? zlen payload) && bytes_eqb (take 3 payload) eclipseLogonPrefix.

Definition DecodeCutFunctionRequest (payload : bytes) : res Request :=
  if negb (hasCutRequestPrefix payload) then Err errRequest
  else body ← go_from payload (zlen cutRequestPrefix); decodeFunctionRequest body TagContextEnd.

Definition DecodeFunctionRequest (payload : bytes) : res Request :=
  if hasCutRequestPrefix payload
  then body ← go_from payload (zlen cutRequestPrefix); decodeFunctionRequest body TagContextEnd
  else req ← decodeFunctionRequest ([x00; x00] ++ payload) 0x0000; Ok (set_eclipse req).

(** The decoding step of [DescribeChainTags]; [None] is its undecodable answer. *)
Definition describe_fields (payload : bytes) : option (list Field) :=
  let payload := if hasCutRequestPrefix payload then drop 4 payload else [x00; x00] ++ payload in
  match DecodeFieldChainPrefix payload 0x0000 TagEnd default_limits with
  | Ok decoded => Some (dp_Fields decoded)
  | _ => None
  end.

(** Its counts: each tag in the order it first occurs, with its number of fields and bytes. *)
Fixpoint count_tags (fields : list Field) (counts : list (Z * (Z * Z))) : list (Z * (Z * Z)) :=
  match fields with
  | [] => counts
  | f :: fields =>
      let bump := fix bump l := match l with
        | [] => [(f_Tag f, (1, zlen (f_Value f)))]
        | (t, (n, b)) :: l => if t =? f_Tag f then (t, (n + 1, b + zlen (f_Value f))) :: l else (t, (n, b)) :: bump l
        end in
      count_tags fields (bump counts)
  end.

(** [fmt.Sprintf("%04x", tag)] *)
Definition hex4 (tag : Z) : bytes := hex_lower (be_split 2 tag).

Definition describe_part (c : Z * (Z * Z)) : bytes :=
  let '(tag, (n, len)) := c in
  let times := if n =? 1 then [] else lit " x" ++ lit (pretty n) in
  hex4 tag ++ times ++ lit "[" ++ lit (pretty len) ++ lit "]".

(** [strings.Join(parts, " ")] *)
Fixpoint join_space (parts : list bytes) : bytes :=
  match parts with
  | [] => []
  | [p] => p
  | p :: parts => p ++ lit " " ++ join_space parts
  end.

(** The description, or [None] for the text that says the chain is undecodable. *)
Definition DescribeChainTags (payload : bytes) : option bytes :=
  fields ← describe_fields payload; Some (join_space (map describe_part (count_tags fields []))).

(** ** Names read back *)
(** A name the fallback on zero bytes reads right: ASCII, without NUL, and without a blank
    at its end. *)
Definition plain_name (n : bytes) : Prop := Forall (fun b => 1 <= b2z b < 0x80) n /\ last n <> Some x20.

Lemma ascii_plain_name n : forallb (fun b => in_range 1 0x7f (b2z b)) n = true -> last n <> Some x20 -> plain_name n.
Proof.
  intros H1 H2. split; [|done]. apply Forall_forall. intros b Hb. rewrite forallb_forall in H1.
  specialize (H1 b (proj1 (list_elem_of_In _ _) Hb)). apply in_range_spec in H1. lia.
Qed.

Lemma trim_blank_last s : last s <> Some x20 -> last s <> Some x00 -> trim_blank s = s.
Proof.
  intros H1 H2. unfold trim_blank. rewrite <- (rev_involutive s) at 2. f_equal.
  destruct (rev s) as [|b r] eqn:E; [done|]. cbn [span].
  assert (last s = Some b) as Hl by (rewrite <- (rev_involutive s), E; cbn [rev]; apply last_snoc).
  rewrite !bool_decide_eq_false_2 by congruence. done.
Qed.

Lemma order_units_le b : order_units LittleEndian b = bytes_units b.
Proof.
  assert (forall n b, (length b < n)%nat -> order_units LittleEndian b = bytes_units b) as Hg; [|by apply (Hg (S (length b))); lia].
  clear b. intros k. induction k as [|k IH]; intros b Hn; [lia|]. destruct b as [|x [|y b]]; [done|done|]. cbn [order_units bytes_units].
  rewrite IH by (cbn in Hn; lia). done.
Qed.

(** The UTF-16LE form of ASCII text. *)
Lemma ascii_utf16le n : Forall (fun b => 1 <= b2z b < 0x80) n -> utf16leBytes n = n ≫= fun b => [b; x00].
Proof.
  intros H. unfold utf16leBytes.
  destruct (ascii_runes n) as [-> _]; [eapply Forall_impl; [exact H|]; cbn; lia|].
  induction H as [|b n Hb _ IH]; [done|]. cbn [map]. change (utf16_encode (b2z b :: map b2z n)) with (utf16_encode_rune (b2z b) ++ utf16_encode (map b2z n)).
  unfold utf16_encode_rune. rewrite (proj2 (is_scalarb_spec _)) by (unfold is_scalar; lia).
  destruct (Z.ltb_spec (b2z b) 0x10000); [|lia].
  change (units_bytes ([b2z b] ++ utf16_encode (map b2z n))) with (le_split 2 (b2z b) ++ units_bytes (utf16_encode (map b2z n))).
  rewrite IH. cbn [mbind list_bind]. f_equal. change (le_split 2 (b2z b)) with [z2b (b2z b); z2b (b2z b / 256)].
  rewrite z2b_b2z, Z.div_small by lia. done.
Qed.

Lemma ascii_little n low high : Forall (fun b => 1 <= b2z b < 0x80) n ->
  endian_counts (n ≫= fun b => [b; x00]) low high = (low + zlen n, high).
Proof.
  intros H. revert low. induction H as [|b n Hb _ IH]; intros low; cbn [mbind list_bind app endian_counts].
  { change (zlen (@nil byte)) with 0. by rewrite Z.add_0_r. }
  assert (b <> x00) as Hn by (intros ->; by destruct Hb).
  rewrite (bool_decide_eq_false_2 (b = x00)), (bool_decide_eq_true_2 (x00 = x00)) by done. cbn [andb negb].
  rewrite IH. f_equal. len_lia.
Qed.

Lemma decode_little b k : length b = (2 * k)%nat -> utf16LooksBigEndian b = false ->
  decodeUTF16 b None = trim_blank (utf8_string (utf16_decode (bytes_units b))).
Proof.
  intros Hb Hl. unfold decodeUTF16. rewrite Hb, (Nat.mul_comm 2), Nat.div_mul, (take_ge b) by lia. rewrite Hl.
  destruct b as [|x b]; [done|]. by rewrite order_units_le.
Qed.

Lemma decode_name n : plain_name n -> decodeUTF16 (utf16leBytes n) None = n.
Proof.
  intros [Ha Hl]. rewrite (decode_little _ (length (utf16_encode (runes n)))); [|apply length_units_bytes|].
  - destruct (ascii_runes n) as [_ Hv]; [eapply Forall_impl; [exact Ha|]; cbn; lia|].
    unfold utf16leBytes. rewrite utf16le_roundtrip by done. apply trim_blank_last; [done|]. intros E.
    apply last_Some_elem_of in E. rewrite Forall_forall in Ha. specialize (Ha _ E). by destruct Ha.
  - rewrite ascii_utf16le by done. unfold utf16LooksBigEndian. rewrite ascii_little by done.
    apply Z.ltb_ge. pose proof (zlen_nonneg n). lia.
Qed.

Lemma decode_nothing o : decodeUTF16 [] o = [].
Proof. by destruct o. Qed.

(** ** The loop, group by group *)
(** Between groups nothing is pending. *)
Record idle (s : loop_state) (r : Request) : Prop := {
  id_req : s_req s = r; id_param : s_havePendingParam s = false; id_xrfc : s_haveXrfc s = false;
  id_data : s_pendingXrfcData s = []; id_compact : s_haveCompact s = false }.

Definition leads (names : option ByteOrder) (fs : list Field) (r r' : Request) : Prop :=
  forall s, idle s r -> exists s', request_fields names fs s = Ok s' /\ idle s' r'.

Lemma request_fields_app names fs gs s :
  request_fields names (fs ++ gs) s = (s' ← request_fields names fs s; request_fields names gs s').
Proof.
  revert s. induction fs as [|f fs IH]; intros s; cbn [app request_fields]; [done|].
  destruct (request_field names f s); [apply IH|done|done].
Qed.

Lemma leads_nil names r : leads names [] r r.
Proof. intros s H. by exists s. Qed.

Lemma leads_app names fs gs r1 r2 r3 : leads names fs r1 r2 -> leads names gs r2 r3 -> leads names (fs ++ gs) r1 r3.
Proof.
  intros H1 H2 s Hs. destruct (H1 s Hs) as (s1 & E1 & Hs1). destruct (H2 s1 Hs1) as (s2 & E2 & Hs2).
  exists s2. split; [|done]. rewrite request_fields_app, E1. done.
Qed.

Ltac lead_one := let s := fresh "s" in let H := fresh "H" in intros s [<- Hp Hx Hd Hc]; cbn [request_fields];
  unfold request_field; cbv zeta; cbn [f_Tag f_Value].

Lemma leads_kernel v r : leads None [mkField TagKernel v] r (set_kernel r (decodeUTF16 v None)).
Proof. lead_one. eexists. split; [reflexivity|]. by split. Qed.

Lemma leads_function v r : leads None [mkField TagFunction v] r (set_function r (decodeUTF16 v None)).
Proof. lead_one. eexists. split; [reflexivity|]. by split. Qed.

Lemma leads_context v r : leads None [mkField TagCallContext v] r r.
Proof. lead_one. eexists. split; [reflexivity|]. by split. Qed.

Lemma leads_end v r : leads None [mkField TagEnd v] r r.
Proof. lead_one. eexists. split; [reflexivity|]. by split. Qed.

Lemma leads_output v r : leads None [mkField TagRequestedOutput v] r (add_output r (decodeUTF16 v None)).
Proof. lead_one. eexists. split; [reflexivity|]. by split. Qed.

Lemma leads_import n v r :
  leads None [mkField TagParameterName n; mkField TagParameterValue v] r (add_import r (mkNamedValue (decodeUTF16 n None) v)).
Proof.
  lead_one. change (TagParameterName =? TagKernel) with false. cbn.
  rewrite Hp. cbn. eexists. split; [reflexivity|]. by split.
Qed.

(** ** The groups of a request *)
Definition NV (p : NamedValue) : NamedValue := mkNamedValue (decodeUTF16 (utf16leBytes (nv_Name p)) None) (nv_Value p).

(** Appending many at once. *)
Definition add_outputs (r : Request) (vs : list bytes) : Request :=
  mkRequest (r_FunctionName r) (r_KernelRelease r) (r_RequestedOutputs r ++ vs) (r_Imports r) (r_Tables r)
    (r_XrfcParameters r) (r_Compact r) (r_Eclipse r) (r_Order r) (r_SessionGUID r).
Definition add_imports (r : Request) (ps : list NamedValue) : Request :=
  mkRequest (r_FunctionName r) (r_KernelRelease r) (r_RequestedOutputs r) (r_Imports r ++ ps) (r_Tables r)
    (r_XrfcParameters r) (r_Compact r) (r_Eclipse r) (r_Order r) (r_SessionGUID r).
Definition add_xrfcs (r : Request) (ps : list NamedValue) : Request :=
  mkRequest (r_FunctionName r) (r_KernelRelease r) (r_RequestedOutputs r) (r_Imports r) (r_Tables r)
    (r_XrfcParameters r ++ ps) (r_Compact r) (r_Eclipse r) (r_Order r) (r_SessionGUID r).

Lemma leads_outputs names fs r :
  Forall plain_name names -> output_fields names = Ok fs -> leads None fs r (add_outputs r names).
Proof.
  intros Hn. revert fs r. induction Hn as [|n names Hn _ IH]; intros fs r H; cbn [output_fields] in H.
  - injection H as <-. unfold add_outputs. rewrite app_nil_r. destruct r. apply leads_nil.
  - ok_step H as v Hv. ok_step H as rest Hr. injection H as <-. apply unicode_bytes_inv in Hv as (-> & _).
    apply (leads_app None [mkField TagRequestedOutput (utf16leBytes n)] rest r (add_output r n)).
    + rewrite <- (decode_name n Hn) at 2. apply leads_output.
    + replace (add_outputs r (n :: names)) with (add_outputs (add_output r n) names); [by apply IH|].
      unfold add_outputs, add_output. cbn. by rewrite <- app_assoc.
Qed.

Lemma leads_imports ps fs r :
  Forall (fun p => plain_name (nv_Name p)) ps -> import_fields ps = Ok fs -> leads None fs r (add_imports r ps).
Proof.
  intros Hn. revert fs r. induction Hn as [|p ps Hp _ IH]; intros fs r H; cbn [import_fields] in H.
  - injection H as <-. unfold add_imports. rewrite app_nil_r. destruct r. apply leads_nil.
  - ok_step H as v Hv. ok_step H as rest Hr. injection H as <-. apply unicode_bytes_inv in Hv as (-> & _).
    apply (leads_app None [mkField TagParameterName (utf16leBytes (nv_Name p)); mkField TagParameterValue (nv_Value p)] rest r (add_import r p)).
    + destruct p as [n v]. cbn [nv_Name nv_Value] in *. rewrite <- (decode_name n Hp) at 2. apply leads_import.
    + replace (add_imports r (p :: ps)) with (add_imports (add_import r p) ps); [by apply IH|].
      unfold add_imports, add_import. cbn. by rewrite <- app_assoc.
Qed.

Definition served_table (t : Table) : STable := mkSTable (t_Name t) (t_RowByteLength t) (t_Rows t) [].
Definition add_tables (r : Request) (ts : list STable) : Request := set_tables r (r_Tables r ++ ts).

Lemma set_last_snoc f ts t : set_last f (ts ++ [t]) = ts ++ [f t].
Proof. unfold set_last. rewrite rev_app_distr. cbn [rev app]. by rewrite rev_involutive. Qed.

(** The rows of the last table. *)
Lemma leads_rows rows s r ts t :
  idle s (set_tables r (ts ++ [t])) -> s_haveCur s = true ->
  exists s', request_fields None (map (mkField TagTableCompr) rows) s = Ok s' /\
    idle s' (set_tables r (ts ++ [mkSTable (st_Name t) (st_RowByteLength t) (st_Rows t ++ rows) (st_ID t)])).
Proof.
  revert s t. induction rows as [|row rows IH]; intros s t Hs Hc; cbn [map request_fields].
  { exists s. split; [done|]. rewrite app_nil_r. by destruct t. }
  destruct Hs as [E1 E2 E3 E4 E5]. unfold request_field. cbv zeta. cbn [f_Tag f_Value]. cbn. rewrite Hc. cbn [negb mbind outcome_bind].
  rewrite E1. cbn [r_Tables set_tables]. rewrite set_last_snoc.
  edestruct (IH (with_req s (set_tables r (ts ++ [mkSTable (st_Name t) (st_RowByteLength t) (st_Rows t ++ [row]) (st_ID t)]))))
    as (s' & Hs' & Hi); [by split|done|]. exists s'. split; [exact Hs'|].
  cbn [st_Name st_RowByteLength st_Rows st_ID] in Hi. by rewrite <- app_assoc in Hi.
Qed.

Lemma name_step v s : request_field None (mkField TagTableName v) s
  = Ok (mkLoop (set_tables (s_req s) (r_Tables (s_req s) ++ [mkSTable (decodeUTF16 v None) 0 [] []])) (s_pendingParam s)
          (s_havePendingParam s) (s_pendingXrfc s) (s_haveXrfc s) true (s_pendingXrfcData s)
          (s_compactCompressed s) (s_compact s) (s_haveCompact s)).
Proof. reflexivity. Qed.

Lemma header_step w n s : s_haveCur s = true -> is_u32 w ->
  request_field None (mkField TagTableHeader (be_split 4 (uint32 w) ++ be_split 4 n)) s
  = Ok (with_req s (set_tables (s_req s) (set_last (fun t => mkSTable (st_Name t) w (st_Rows t) (st_ID t)) (r_Tables (s_req s))))).
Proof.
  intros Hc Hw. set (hb := be_split 4 (uint32 w) ++ be_split 4 n).
  assert (zlen hb = 8) as Hz by (unfold hb, zlen; by rewrite length_app, !length_be_split).
  assert (be_uint 4 hb = (Ok w : res Z)) as Hu.
  { unfold hb. rewrite be_uint_app by apply length_be_split. rewrite be_round; [|apply Z.mod_pos_bound; lia].
    f_equal. by apply Z.mod_small. }
  change (request_field None (mkField TagTableHeader hb) s) with
    (if negb (s_haveCur s) || (zlen hb <? 8) then Err errRequest
     else n ← be_uint 4 hb; Ok (with_req s (set_tables (s_req s) (set_last (fun t => mkSTable (st_Name t) n (st_Rows t) (st_ID t)) (r_Tables (s_req s)))))).
  rewrite Hc, Hz, Hu. done.
Qed.

Lemma leads_table t name rows r :
  plain_name (t_Name t) -> is_u32 (t_RowByteLength t) -> name = utf16leBytes (t_Name t) -> rows = map (mkField TagTableCompr) (t_Rows t) ->
  leads None (mkField TagTableName name :: mkField TagTableHeader (be_split 4 (uint32 (t_RowByteLength t)) ++ be_split 4 (uint32 (zlen (t_Rows t)))) :: rows)
    r (add_tables r [served_table t]).
Proof.
  intros Hn Hw -> ->. intros s [<- Hp Hx Hd Hc]. cbn [request_fields]. rewrite name_step, decode_name by done. cbn [mbind outcome_bind].
  rewrite header_step; [|reflexivity|done]. cbn [mbind outcome_bind s_req r_Tables set_tables]. rewrite set_last_snoc. cbn [st_Name st_Rows st_ID].
  set (t0 := mkSTable (t_Name t) (t_RowByteLength t) [] []).
  set (s0 := with_req _ _). destruct (leads_rows (t_Rows t) s0 (s_req s) (r_Tables (s_req s)) t0) as (s' & H1 & H2); [by split|done|].
  exists s'. split; [exact H1|exact H2].
Qed.

Lemma leads_tables ts fs r :
  Forall (fun t => plain_name (t_Name t) /\ is_i64 (t_RowByteLength t)) ts -> table_fields ts = Ok fs ->
  leads None fs r (add_tables r (map served_table ts)).
Proof.
  intros Hn. revert fs r. induction Hn as [|t ts [Hp Hw] _ IH]; intros fs r H; cbn [table_fields] in H.
  - injection H as <-. unfold add_tables. cbn [map]. rewrite app_nil_r. destruct r. apply leads_nil.
  - destruct (Z.ltb_spec (t_RowByteLength t) 0); [done|]. cbn [orb] in H.
    destruct (Z.ltb_spec (2 ^ 32 - 1) (uint64 (t_RowByteLength t))) as [|Hle]; [done|].
    assert (is_u32 (t_RowByteLength t)) as Hu.
    { unfold is_i64 in Hw. unfold uint64 in Hle. rewrite Z.mod_small in Hle by lia. unfold is_u32. lia. }
    ok_step H as name Hname. ok_step H as rows Hrows. ok_step H as rest Hr. apply Ok_inj in H. subst fs.
    apply unicode_bytes_inv in Hname as (Hname & _). apply row_fields_ok in Hrows as [Hrows _].
    rewrite app_comm_cons, app_comm_cons. eapply leads_app; [by apply leads_table|].
    replace (add_tables r (map served_table (t :: ts))) with (add_tables (add_tables r [served_table t]) (map served_table ts)); [by apply IH|].
    unfold add_tables, set_tables. cbn. by rewrite <- app_assoc.
Qed.

(** The XML of a parameter, and its name. *)
Definition xml_named (p : NamedValue) : Prop := DecodeRecursiveParameterName (nv_Value p) = Ok (nv_Name p).

Lemma chunks_collected cs s :
  exists s', request_fields None (map (mkField TagXRfcData) cs) s = Ok s' /\
    s' = mkLoop (s_req s) (s_pendingParam s) (s_havePendingParam s) (s_pendingXrfc s) (s_haveXrfc s) (s_haveCur s)
           (s_pendingXrfcData s ++ concat cs) (s_compactCompressed s) (s_compact s) (s_haveCompact s).
Proof.
  revert s. induction cs as [|c cs IH]; intros s; cbn [map request_fields concat].
  { exists s. split; [done|]. rewrite app_nil_r. by destruct s. }
  unfold request_field. cbv zeta. cbn [f_Tag f_Value]. cbn.
  match goal with |- context [request_fields None _ ?x] => destruct (IH x) as (s' & H1 & H2) end.
  exists s'. split; [exact H1|]. rewrite H2. cbn. by rewrite <- app_assoc.
Qed.

Lemma leads_xrfc p cs r :
  xml_named p -> concat cs = nv_Value p ->
  leads None (mkField TagXRfcParameter [] :: map (mkField TagXRfcData) cs ++ [mkField TagXRfcParameter []]) r (add_xrfcs r [p]).
Proof.
  intros Hx Hc s [<- Hp Hh Hd Hcm]. cbn [request_fields]. unfold request_field at 1. cbv zeta. cbn [f_Tag f_Value]. cbn.
  rewrite Hh. cbn [mbind outcome_bind]. rewrite request_fields_app.
  match goal with |- context [request_fields None (map _ cs) ?x] => destruct (chunks_collected cs x) as (s1 & E1 & E2) end.
  rewrite E1, E2. cbn [mbind outcome_bind request_fields]. unfold request_field. cbv zeta. cbn [f_Tag f_Value]. cbn.
  unfold close_xrfc. cbn [s_pendingXrfcData s_pendingXrfc s_req]. rewrite Hd. cbn [app]. rewrite Hc, Hx. cbn.
  eexists. split; [reflexivity|]. split; try done. cbn. destruct p. reflexivity.
Qed.

Lemma leads_xrfcs ps fs r :
  Forall xml_named ps -> xrfc_fields ps = Ok fs -> leads None fs r (add_xrfcs r ps).
Proof.
  intros Hn. revert fs r. induction Hn as [|p ps Hp _ IH]; intros fs r H; cbn [xrfc_fields] in H.
  - injection H as <-. unfold add_xrfcs. rewrite app_nil_r. destruct r. apply leads_nil.
  - ok_step H as v Hv. destruct (_ =? 0); [done|]. destruct (chunk_fields_ok (nv_Value p)) as (cs & Ecs & Hcs & _).
    rewrite Ecs in H. cbn [mbind outcome_bind] in H. ok_step H as rest Hr. apply Ok_inj in H. subst fs.
    replace (mkField TagXRfcParameter [] :: map (mkField TagXRfcData) cs ++ mkField TagXRfcParameter [] :: rest)
      with ((mkField TagXRfcParameter [] :: map (mkField TagXRfcData) cs ++ [mkField TagXRfcParameter []]) ++ rest)
      by (cbn; by rewrite <- app_assoc).
    eapply leads_app; [by apply leads_xrfc|].
    replace (add_xrfcs r (p :: ps)) with (add_xrfcs (add_xrfcs r [p]) ps); [by apply IH|].
    unfold add_xrfcs. cbn. by rewrite <- app_assoc.
Qed.

(** ** The server reads what the client wrote *)
(** The inputs whose names survive the wire. *)
Record readable (input : CutFunctionRequestInput) : Prop := {
  rd_function : plain_name (FunctionName input);
  rd_outputs : Forall plain_name (RequestedOutputs input);
  rd_imports : Forall (fun p => plain_name (nv_Name p)) (Imports input);
  rd_tables : Forall (fun t => plain_name (t_Name t) /\ is_i64 (t_RowByteLength t)) (Tables input);
  rd_xrfc : Forall xml_named (XrfcParameters input) }.

Definition request_of (input : CutFunctionRequestInput) (kernelRelease : bytes) : Request :=
  mkRequest (FunctionName input) kernelRelease (RequestedOutputs input) (Imports input) (map served_table (Tables input))
    (XrfcParameters input) [] false None None.

Lemma digits_plain k : digits3 k = true -> plain_name k.
Proof.
  unfold digits3. rewrite andb_true_iff, forallb_digits. intros [_ Hd].
  assert (forall b, is_digit b = true -> 0x30 <= b2z b <= 0x39) as Hb by (intros b; apply in_range_spec). split.
  - eapply Forall_impl; [exact Hd|]. intros b H%Hb. cbn. lia.
  - intros E%last_Some_elem_of. rewrite Forall_forall in Hd. specialize (Hb _ (Hd _ E)). change (b2z x20) with 0x20 in Hb. lia.
Qed.

Lemma kernel_release_inv k0 k : kernel_release k0 = Ok k -> digits3 k = true /\ k = match k0 with [] => lit "754" | _ => k0 end.
Proof.
  unfold kernel_release. set (d := match k0 with [] => _ | _ => _ end). destruct (digits3 d) eqn:E; [|done]. by intros [= <-].
Qed.

Lemma cut_fields_read k input fs :
  digits3 k = true -> readable input -> cut_request_fields k input = Ok fs ->
  leads None (fs ++ [mkField TagEnd []]) (initial_request None) (request_of input k).
Proof.
  intros Hk [Hf Ho Hi Ht Hx] H. unfold cut_request_fields in H. ok_step H as fname Hfn. ok_step H as outs Hout.
  ok_step H as imps Himp. ok_step H as tabs Htab. ok_step H as xs Hxs. apply Ok_inj in H. subst fs.
  apply unicode_bytes_inv in Hfn as (-> & _). rewrite <- !app_assoc.
  apply (leads_app None [mkField TagKernel (utf16leBytes k); mkField TagFunction (utf16leBytes (FunctionName input)); mkField TagCallContext []]
    _ _ (set_function (set_kernel (initial_request None) k) (FunctionName input))).
  { rewrite <- (decode_name k (digits_plain k Hk)) at 2. rewrite <- (decode_name _ Hf) at 2.
    apply (leads_app None [_] [_; _] _ _ _ (leads_kernel _ _)). apply (leads_app None [_] [_] _ _ _ (leads_function _ _)), leads_context. }
  eapply leads_app; [by apply leads_outputs|]. eapply leads_app; [by apply leads_imports|].
  eapply leads_app; [by apply leads_tables|]. eapply leads_app; [by apply leads_xrfcs|].
  replace (request_of input k) with
    (add_xrfcs (add_tables (add_imports (add_outputs (set_function (set_kernel (initial_request None) k) (FunctionName input)) (RequestedOutputs input)) (Imports input)) (map served_table (Tables input))) (XrfcParameters input))
    by reflexivity.
  apply leads_end.
Qed.

(** No field of a request is the opening field that declares a byte order. *)
Definition not_start (f : Field) : Prop := f_Tag f <> TagStart.

Lemma order_unknown fs : Forall not_start fs -> utf16Order fs = None.
Proof.
  induction 1 as [|f fs Hf _ IH]; [done|]. cbn [utf16Order]. destruct (f_Value f) as [|? [|? ?]]; [done|done|].
  by rewrite (proj2 (Z.eqb_neq _ _) Hf).
Qed.

Lemma cut_fields_start k input fs : cut_request_fields k input = Ok fs -> Forall not_start fs.
Proof.
  unfold cut_request_fields. intros H. ok_step H as fname Hfn. ok_step H as outs Hout.
  ok_step H as imps Himp. ok_step H as tabs Htab. ok_step H as xs Hxs. apply Ok_inj in H. subst fs.
  assert (Forall not_start outs) as H1.
  { clear -Hout. revert outs Hout. induction (RequestedOutputs input) as [|n l IH]; intros fs H; cbn [output_fields] in H; [by injection H as <-|].
    ok_step H as v Hv. ok_step H as rest Hr. injection H as <-. constructor; [done|]. by apply IH. }
  assert (Forall not_start imps) as H2.
  { clear -Himp. revert imps Himp. induction (Imports input) as [|n l IH]; intros fs H; cbn [import_fields] in H; [by injection H as <-|].
    ok_step H as v Hv. ok_step H as rest Hr. injection H as <-. repeat (constructor; [done|]). by apply IH. }
  assert (Forall not_start tabs) as H3.
  { clear -Htab. revert tabs Htab. induction (Tables input) as [|t l IH]; intros fs H; cbn [table_fields] in H; [by injection H as <-|].
    destruct (_ || _); [done|]. ok_step H as name Hn. ok_step H as rows Hrows. ok_step H as rest Hr. injection H as <-.
    apply row_fields_ok in Hrows as [-> _]. repeat (constructor; [done|]). apply Forall_app. split; [|by apply IH].
    by apply Forall_map, Forall_true. }
  assert (Forall not_start xs) as H4.
  { clear -Hxs. revert xs Hxs. induction (XrfcParameters input) as [|p l IH]; intros fs H; cbn [xrfc_fields] in H; [by injection H as <-|].
    ok_step H as v Hv. destruct (_ =? 0); [done|]. destruct (chunk_fields_ok (nv_Value p)) as (cs & Ecs & _). rewrite Ecs in H.
    cbn [mbind outcome_bind] in H. ok_step H as rest Hr. injection H as <-. constructor; [done|]. apply Forall_app. split; [by apply Forall_map, Forall_true|].
    constructor; [done|]. by apply IH. }
  repeat (constructor; [done|]). rewrite !Forall_app. done.
Qed.

Lemma request_decoded k input fs n b :
  digits3 k = true -> readable input -> FunctionName input <> [] -> cut_request_fields k input = Ok fs ->
  DecodeFieldChainPrefix b TagContextEnd TagEnd default_limits = Ok (mkDecodedFieldChainPrefix (fs ++ [mkField TagEnd []]) n) ->
  decodeFunctionRequest b TagContextEnd = Ok (request_of input k).
Proof.
  intros Hk Hr Hf Hfs Hd. unfold decodeFunctionRequest. rewrite Hd. cbn [as_request_error mbind outcome_bind dp_Fields].
  rewrite order_unknown.
  2: { apply Forall_app. split; [by eapply cut_fields_start|]. by apply Forall_singleton. }
  destruct (cut_fields_read k input fs Hk Hr Hfs (initial_loop None)) as (s & Es & [E1 E2 E3 E4 E5]); [done|].
  rewrite Es. cbn [mbind outcome_bind]. unfold finish_request. rewrite E2, E1, E5. cbn [request_of r_FunctionName].
  by rewrite bool_decide_eq_false_2.
Qed.

Lemma server_reads input p :
  EncodeCutFunctionRequest input = Ok p -> readable input ->
  exists k, kernel_release (KernelRelease input) = Ok k /\
    DecodeCutFunctionRequest p = Ok (request_of input k) /\ DecodeFunctionRequest p = Ok (request_of input k).
Proof.
  intros He Hr. destruct (cut_request_packet input p He) as (k & fs & Hk & _ & Hfs & [[tr Ep] Hd _]).
  exists k. split; [done|]. apply kernel_release_inv in Hk as [Hk _].
  assert (FunctionName input <> []) as Hf.
  { intros E. unfold cut_request_fields in Hfs. ok_step Hfs as fname Hfn. apply unicode_bytes_inv in Hfn as (_ & _ & _ & Hl).
    rewrite E in Hl. change (zlen (utf16_encode (runes []))) with 0 in Hl. lia. }
  assert (hasCutRequestPrefix p = true) as Hp.
  { unfold hasCutRequestPrefix. rewrite Ep. rewrite (take_app_length' cpicCutFunctionRequestPrefix) by done.
    rewrite zlen_app. change (zlen cutRequestPrefix) with 4. change (zlen cpicCutFunctionRequestPrefix) with 4.
    match goal with |- context [4 <=? 4 + ?x] => pose proof (zlen_nonneg (chain_bytes TagContextEnd (fs ++ [mkField TagEnd []]) ++ tr)); destruct (Z.leb_spec 4 (4 + x)); [done|lia] end. }
  assert (go_from p (zlen cutRequestPrefix) = (Ok (drop 4 p) : res bytes)) as Hg.
  { rewrite Ep. change (zlen cutRequestPrefix) with (zlen cpicCutFunctionRequestPrefix). by rewrite go_from_app. }
  unfold DecodeCutFunctionRequest, DecodeFunctionRequest. rewrite Hp. cbn [negb]. rewrite Hg. cbn [mbind outcome_bind].
  change (length cpicCutFunctionRequestPrefix) with 4%nat in Hd.
  by rewrite (request_decoded k input fs _ _ Hk Hr Hf Hfs Hd).
Qed.

(** Both server decoders read back from a cut request of the client the function name,
    kernel release, requested outputs, imports and tables it was built from. *)
Theorem server_reads_request input p :
  EncodeCutFunctionRequest input = Ok p -> readable input ->
  exists k, kernel_release (KernelRelease input) = Ok k /\
    DecodeCutFunctionRequest p = Ok (request_of input k) /\ DecodeFunctionRequest p = Ok (request_of input k).
Proof. apply server_reads. Qed.

(** ** The decoder ends *)
Lemma escape_total first rs : total (escape_loop first rs).
Proof.
  revert first. induction rs as [|r rs IH]; intros first; cbn [escape_loop]; [done|]. apply total_bind.
  - unfold escape_rune. destruct (valid_rune first r); [done|]. destruct (_ =? _); [done|]. by destruct (_ <=? _).
  - intros b _. apply total_bind; [apply IH|done].
Qed.

Lemma scalar_text_total v : total (AssertUnicodeScalarText v).
Proof. unfold AssertUnicodeScalarText. by destruct (negb _). Qed.

Lemma unescape_total v : total (unescape_loop v).
Proof.
  assert (forall n v, (length v < n)%nat -> total (unescape_loop v)) as Hg; [|by apply (Hg (S (length v))); lia].
  clear v. intros n. induction n as [|n IH]; intros v Hn; [lia|]. destruct v as [|b v1]; [done|]. cbn [unescape_loop].
  assert (forall x k, (length x < n)%nat -> total (out ← unescape_loop x; Ok (k :: out))) as Hs
    by (intros x k Hx; apply total_bind; [by apply IH|done]).
  cbn in Hn. destruct (negb _); [apply Hs; lia|]. destruct v1 as [|c v2]; [apply Hs; cbn in *; lia|].
  destruct (negb _); [apply Hs; lia|]. destruct v2 as [|d v3]; [apply Hs; cbn in *; lia|].
  destruct (negb _); [apply Hs; cbn in *; lia|]. destruct v3 as [|h1 [|h2 v4]]; [done|done|].
  destruct (isUpperHex _); [|done]. apply Hs. cbn in Hn. lia.
Qed.

Lemma parameter_name_total v : total (DecodeRecursiveParameterName v).
Proof.
  unfold DecodeRecursiveParameterName.
  do 4 (match goal with |- total (if ?c then _ else _) => destruct c; [done|] end).
  pose proof (Text.index_byte_spec v x3e) as Hi. destruct (Text.index_byte v x3e) as [i|]; [|done]. destruct Hi as (_ & _ & _ & Hl).
  destruct (Z.ltb_spec (Z.of_nat i) 2); [done|]. cbn [orb]. destruct (_ <? _); [done|].
  apply total_bind; [apply total_slice; [lia|unfold zlen; lia]|]. intros tag _. destruct (bool_decide _); [done|].
  unfold unescapeTag. apply total_bind; [apply unescape_total|]. intros r _. apply total_bind; [apply scalar_text_total|].
  intros _ _. assert (total (EscapeTag r)) as [H1 H2].
  { unfold EscapeTag. destruct r; [done|]. apply total_bind; [apply scalar_text_total|]. intros _ _. apply escape_total. }
  destruct (EscapeTag r) as [e| |]; [by destruct (bytes_eqb e tag)|done|done].
Qed.

Lemma request_error_total {A} (m : res A) : total m -> total (as_request_error m).
Proof. intros [H1 H2]. destruct m as [a|e|]; [done| |done]. cbn. by destruct e. Qed.

Lemma request_field_total names f s : total (request_field names f s).
Proof.
  unfold request_field. cbv zeta. do 4 (destruct (_ =? _); [done|]).
  destruct (_ =? _); [by destruct (s_havePendingParam s)|]. destruct (_ =? _); [by destruct (negb _)|].
  destruct (_ =? _); [done|]. destruct (_ =? _); [by destruct (s_haveCur s)|].
  destruct (_ =? _); [destruct (r_SessionGUID _); [done|]; by destruct (_ =? _)|]. do 3 (destruct (_ =? _); [done|]).
  destruct (_ =? _).
  { destruct (negb (s_haveCur s)); [done|]. cbn [orb]. destruct (Z.ltb_spec (zlen (f_Value f)) 8); [done|].
    apply total_bind; [|done]. unfold be_uint. destruct (Nat.ltb_spec (length (f_Value f)) 4); [|done]. unfold zlen in *. lia. }
  destruct (_ =? _); [by destruct (negb _)|]. destruct (_ =? _).
  { destruct (s_haveXrfc s); [|done]. unfold close_xrfc. apply total_bind; [apply request_error_total, parameter_name_total|].
    intros n _. by destruct (_ && _). }
  by destruct (_ =? _).
Qed.

Lemma request_fields_total names fs s : total (request_fields names fs s).
Proof.
  revert s. induction fs as [|f fs IH]; intros s; cbn [request_fields]; [done|]. apply total_bind; [apply request_field_total|].
  intros s' _. apply IH.
Qed.

Lemma function_request_total b prev : is_u16 prev -> total (decodeFunctionRequest b prev).
Proof.
  intros Hp. unfold decodeFunctionRequest.
  destruct (chain_prefix_total b prev TagEnd default_limits Hp ltac:(by vm_compute)) as (H1 & H2 & _).
  apply total_bind; [by apply request_error_total|]. intros d _. cbv zeta. apply total_bind; [apply request_fields_total|].
  intros s _. unfold finish_request. destruct (s_havePendingParam s); [done|]. destruct (bool_decide _); [done|].
  destruct (s_haveCompact s); [|done]. apply total_bind; [|done]. destruct (s_compactCompressed s); [|done].
  apply request_error_total. unfold inflateBounded. apply total_bind; [apply inflate_total|]. intros out _. by destruct (_ <? _).
Qed.

(** The server's request decoders never panic on any payload. *)
Theorem server_decoders_total payload :
  total (DecodeCutFunctionRequest payload) /\ total (DecodeFunctionRequest payload).
Proof.
  assert (hasCutRequestPrefix payload = true -> total (body ← go_from payload (zlen cutRequestPrefix); decodeFunctionRequest body TagContextEnd)) as H.
  { intros Hp. unfold hasCutRequestPrefix in Hp. apply andb_true_iff in Hp as [Hp%Z.leb_le _]. apply total_bind.
    - apply total_from. change (zlen cutRequestPrefix) with 4 in *. lia.
    - intros b _. by apply function_request_total. }
  unfold DecodeCutFunctionRequest, DecodeFunctionRequest. destruct (hasCutRequestPrefix payload); cbn [negb].
  - split; by apply H.
  - split; [done|]. apply total_bind; [by apply function_request_total|done].
Qed.

(** DescribeChainTags gives no description of any payload that is a cut request the decoder
    accepts. *)
Theorem describe_never_reads_cut payload :
  hasCutRequestPrefix payload = true -> is_Ok (DecodeCutFunctionRequest payload) -> DescribeChainTags payload = None.
Proof.
  intros Hp [req Hr]. unfold DescribeChainTags, describe_fields. rewrite Hp.
  destruct (DecodeFieldChainPrefix (drop 4 payload) 0x0000 TagEnd default_limits) as [d| |] eqn:Ed; [|done..]. exfalso.
  apply chain_prefix_starts in Ed; [|by vm_compute|by vm_compute].
  unfold DecodeCutFunctionRequest in Hr. rewrite Hp in Hr. cbn [negb] in Hr. ok_step Hr as body Hb.
  unfold decodeFunctionRequest in Hr. ok_step Hr as d' Hd'.
  destruct (DecodeFieldChainPrefix body TagContextEnd TagEnd default_limits) as [d2|e|] eqn:E2; [|by destruct e|done].
  apply chain_prefix_starts in E2; [|by vm_compute|by vm_compute].
  assert (body = drop 4 payload) as ->.
  { unfold hasCutRequestPrefix in Hp. apply andb_true_iff in Hp as [Hp%Z.leb_le _]. change (zlen cutRequestPrefix) with 4 in *.
    unfold go_from in Hb. rewrite go_slice_ok in Hb by lia. apply Ok_inj in Hb. subst body. change (Z.to_nat 4) with 4%nat.
    apply take_ge. rewrite length_drop. unfold zlen. lia. }
  rewrite E2 in Ed. by vm_compute in Ed.
Qed.

(** ** Instances *)
Lemma sample_readable : readable sample_request.
Proof.
  split; cbn; repeat apply Forall_cons_2; try apply Forall_nil_2; try (apply ascii_plain_name; [reflexivity|discriminate]).
  - split; [apply ascii_plain_name; [reflexivity|discriminate]|unfold is_i64; cbn; lia].
  - vm_compute. reflexivity.
Defined.

Lemma server_reads_request_witness :
  exists p, EncodeCutFunctionRequest sample_request = Ok p /\
    DecodeCutFunctionRequest p = Ok (request_of sample_request (lit "754")).
Proof.
  destruct (EncodeCutFunctionRequest sample_request) as [p| |] eqn:E; [|vm_compute in E; discriminate..].
  destruct (server_reads_request sample_request p E sample_readable) as (k & Hk & Hd & _).
  exists p. split; [reflexivity|]. vm_compute in Hk. injection Hk as <-. exact Hd.
Defined.

Lemma describe_never_reads_cut_witness :
  exists p, EncodeCutFunctionRequest sample_request = Ok p /\ DescribeChainTags p = None.
Proof.
  destruct (EncodeCutFunctionRequest sample_request) as [p| |] eqn:E; [|vm_compute in E; discriminate..].
  exists p. split; [reflexivity|]. destruct (server_reads sample_request p E sample_readable) as (k & _ & Hd & _).
  apply describe_never_reads_cut; [|by exists (request_of sample_request k)].
  vm_compute in E. apply Ok_inj in E. subst p. vm_compute. reflexivity.
Defined.
