(* ===== verification/ServerResponse.v ===== *)
(** Package [rfcserver], internal/rfcserver/response.go, response_eclipse.go, dispatcher.go
    and niframe.go: the answers of a server, the dispatch of a call to its handler, and the
    shapes of the frames a server receives.

    The compressor of Go's compress/flate is a parameter, [deflate_bytes]: what it writes is
    not fixed by its documentation, only that the reader of the same package reads it back.
    A handler is a function from a request to what it returns: a response, an ABAP exception
    or another error.

    The theorems: a client reads an answer as a success with exactly the exports, tables and
    XML parameters the server encoded; it reads an exception answer as that exception; and a
    dispatched call is the composition of the two with the handler in between. *)
From stdpp Require Import base list numbers strings.
From Stdlib Require Import ZArith Lia Strings.Byte.
From S2P Require Import Prelude Errors Text Inflate UnicodeScalar XrfcNames Appc Rfcpro Rfcerr Cpic CpicFunction ClassicRfc ServerRequest.

Open Scope Z_scope.

Abbreviation Field := Cpic.Field.
Abbreviation mkField := Cpic.mkField.

(** ** Names *)
Definition encodeUTF16LE (s : bytes) : bytes := units_bytes (map (fun r => if 0xffff <? r then 0xfffd else r) (runes s)).

Definition encodeName (name : bytes) : res bytes :=
  if (zlen name =? 0) || (30 <? zlen name) then Err errRequest else Ok (encodeUTF16LE name).

(** ** The answer of a successful call *)
Fixpoint response_exports (exports : list NamedValue) : res (list Field) :=
  match exports with
  | [] => Ok []
  | e :: exports =>
      name ← encodeName (nv_Name e);
      rest ← response_exports exports;
      Ok (mkField TagParameterName name :: mkField TagParameterValue (nv_Value e) :: rest)
  end.

Fixpoint response_rows (rowByteLength : Z) (rows : list bytes) : res (list Field) :=
  match rows with
  | [] => Ok []
  | row :: rows =>
      if negb (rowByteLength =? 0) && negb (zlen row =? rowByteLength) then Err errRequest
      else rest ← response_rows rowByteLength rows; Ok (mkField TagTableCompr row :: rest)
  end.

Definition table_geometry (t : STable) : bytes :=
  be_split 4 (uint32 (st_RowByteLength t)) ++ be_split 4 (uint32 (zlen (st_Rows t))).

Fixpoint response_tables (tables : list STable) : res (list Field) :=
  match tables with
  | [] => Ok []
  | t :: tables =>
      name ← encodeName (st_Name t);
      rows ← response_rows (st_RowByteLength t) (st_Rows t);
      rest ← response_tables tables;
      Ok (mkField TagTableName name :: mkField TagTableHeader (table_geometry t) :: rows ++ rest)
  end.

Fixpoint xrfcResponseFields (parameters : list NamedValue) : res (list Field) :=
  match parameters with
  | [] => Ok []
  | p :: parameters =>
      if zlen (nv_Value p) =? 0 then Err errRequest
      else
        chunks ← CpicFunction.xrfc_chunks (S (length (nv_Value p))) 0 (nv_Value p);
        rest ← xrfcResponseFields parameters;
        Ok (mkField TagXRfcParameter [] :: chunks ++ mkField TagXRfcParameter [] :: rest)
  end.

(** The end of each encoder: the chain between the prefix and the end tag. *)
Definition close_response (fields : list Field) : res bytes :=
  chain ← as_request_error (EncodeFieldChain TagResponseStart (fields ++ [mkField TagEnd []]) default_limits);
  Ok (cutResponsePrefix ++ chain ++ [xff; xff]).

Definition EncodeCutFunctionResponse (exports : list NamedValue) (tables : list STable) (xrfcParameters : list NamedValue) : res bytes :=
  es ← response_exports exports;
  ts ← response_tables tables;
  xs ← xrfcResponseFields xrfcParameters;
  close_response ([mkField 0x0420 [x00; x00; x00; x00]] ++ es ++ ts ++ xs).

Definition EncodeCutFunctionExceptionResponse (exceptionKey : bytes) : res bytes :=
  if bool_decide (exceptionKey = []) then Err errRequest
  else close_response [mkField 0x0401 (encodeUTF16LE exceptionKey)].

(** ** The S/4 envelope *)
Definition s4Metric0667 : bytes :=
  [x00; x00; x00; x00; x00; x20; x72; x40].
Definition s4Meta0104 : bytes :=
  [x10; x04; x02; x00; x0c; x00; x01; x87; x68; x00; x00; x04; x4c; x00; x00; x0b; xb8; x10; x04; x0b;
   x00; x20; xff; x7f; xfa; x0d; x78; xb7; x37; xde; xf6; x19; x6e; x93; x25; xbf; x15; x97; xef; x73;
   xfe; xeb; xdb; x51; xfd; x91; xc6; x34; x20; x40; x00; x00; x00; x00; x10; x04; x04; x00; x08; x00;
   x2c; x00; x10; x00; x1f; x00; x10; x10; x04; x0d; x00; x10; x00; x00; x00; x1f; x00; x00; x00; xb3;
   x00; x00; x00; x2c; x00; x00; x00; xb3; x10; x04; x16; x00; x02; x00; x22; x10; x04; x17; x00; x02;
   x00; x41; x10; x04; x19; x00; x02; x00; x00; x10; x04; x1e; x00; x08; x00; x00; x05; x7a; x00; x00;
   x0b; x30; x10; x04; x09; x00; x03; x38; x30; x30; x10; x04; x1d; x00; x01; x38; x10; x04; x24; x00;
   x08; x00; x00; x06; xf1; x00; x00; x0b; x97; x10; x04; x28; x00; x08; x00; x00; x06; x76; x00; x00;
   x0b; x7c; x10; x04; x13; x00; x45; x04; x6a; x85; xa8; xd6; x99; x60; x0b; x54; xe1; x00; x00; x00;
   xc0; x00; x02; x1e; x01; x6a; x85; x8b; x11; x99; x5f; x0b; x55; xe1; x00; x00; x00; xc0; x00; x02;
   x1e; x00; x6a; x85; x8b; x14; x99; x5f; x0b; x55; xe1; x00; x00; x00; xc0; x00; x02; x1e; x00; x6a;
   x85; x7e; x32; x9d; xc7; x0d; x31; xe1; x00; x00; x00; xc0; x00; x02; x1e; x01].

(** [swapRFCGUID]: the first three numbers of a GUID change their byte order. *)
Definition swapRFCGUID (g : bytes) : bytes :=
  match g with
  | g0 :: g1 :: g2 :: g3 :: g4 :: g5 :: g6 :: g7 :: rest =>
      if zlen g =? 16 then g3 :: g2 :: g1 :: g0 :: g5 :: g4 :: g7 :: g6 :: rest else g
  | _ => g
  end.

(** A table of the S/4 answer is not checked against its width. *)
Fixpoint s4_tables (tables : list STable) : res (list Field) :=
  match tables with
  | [] => Ok []
  | t :: tables =>
      name ← encodeName (st_Name t);
      rest ← s4_tables tables;
      Ok (mkField TagTableName name :: mkField TagTableHeader (table_geometry t)
          :: map (mkField TagTableCompr) (st_Rows t) ++ rest)
  end.

(** [meta0104[205] = swapRFCGUID(guid)[0] - 2], a byte that wraps around. *)
Definition meta_of (guid : bytes) : bytes :=
  if zlen guid =? 16
  then match swapRFCGUID guid with b :: _ => <[205%nat := z2b (b2z b - 2)]> s4Meta0104 | [] => s4Meta0104 end
  else s4Meta0104.

Definition program_name : bytes := lit "OPEN_RFC_GO".

Definition EncodeCutFunctionResponseS4 (exports : list NamedValue) (tables : list STable) (xrfcParameters : list NamedValue)
    (guid : bytes) (requestedOutputs : list bytes) : res bytes :=
  let context := [mkField TagResponseContext []]
    ++ (if zlen guid =? 16 then [mkField TagSession (swapRFCGUID guid)] else [])
    ++ [mkField 0x0420 [x00; x00; x00; x00]; mkField TagCallContext []]
    ++ map (fun e => mkField TagRequestedOutput (encodeUTF16LE (nv_Name e))) exports in
  es ← response_exports exports;
  ts ← s4_tables tables;
  xs ← xrfcResponseFields xrfcParameters;
  program ← EncodeAbapChar program_name 40;
  close_response (context ++ es ++ ts ++ xs
    ++ [mkField TagProgram program; mkField 0x0667 s4Metric0667; mkField 0x0104 (meta_of guid)]).

(** ** The answer to an Eclipse call *)
Definition tagCompactResponse : Z := 0x4002.
Definition compactChunkLength : Z := 16384.
Definition tagFirstTableID : Z := 0x0331.
Definition tagTableIDHeader : Z := 0x0335.
Definition tagTableRow : Z := 0x0303.
Definition tagTableIDEnd : Z := 0x0336.
Definition tagCompactClose : Z := 0x0523.

Record Output : Type := mkOutput { o_Name : bytes; o_XML : bool; o_Value : bytes }.

(** [nil] and an empty slice differ for [Compact] and [Outputs]. *)
Record Response : Type := mkResponse {
  rs_Exports : list NamedValue; rs_Tables : list STable; rs_XrfcParameters : list NamedValue;
  rs_Compact : option bytes; rs_CompactName : bytes; rs_Outputs : option (list Output) }.

(** The slices [v[off:min(off+size, len(v))]] of a loop with [off += size]. *)
Fixpoint slices (fuel : nat) (size : nat) (v : bytes) : list bytes :=
  match fuel with
  | O => []
  | S fuel => match v with [] => [] | _ => take size v :: slices fuel size (drop size v) end
  end.

Definition xrfcSystemChunks (x : NamedValue) : list Field :=
  let open_ := [x3c] ++ nv_Name x ++ [x3e] in
  let '(first, rest) :=
    if bytes_eqb (take (length open_) (nv_Value x)) open_
    then ([mkField TagXRfcData open_], drop (length open_) (nv_Value x))
    else ([], nv_Value x) in
  [mkField TagXRfcParameter []] ++ first ++ map (mkField TagXRfcData) (slices (length rest) 1024 rest)
  ++ [mkField TagXRfcParameter []].

Section Eclipse.
(** [deflate]: the bytes that the writer of compress/flate produces. *)
Context (deflate_bytes : bytes -> bytes).

Definition outputs_of (resp : Response) : list Output :=
  match rs_Outputs resp with
  | Some os => os
  | None => map (fun e => mkOutput (nv_Name e) false (nv_Value e)) (rs_Exports resp)
            ++ map (fun x => mkOutput (nv_Name x) true (nv_Value x)) (rs_XrfcParameters resp)
  end.

Fixpoint output_values (os : list Output) : res (list Field) :=
  match os with
  | [] => Ok []
  | o :: os =>
      fs ← (if o_XML o then Ok (xrfcSystemChunks (mkNamedValue (o_Name o) (o_Value o)))
            else name ← encodeName (o_Name o); Ok [mkField TagParameterName name; mkField TagParameterValue (o_Value o)]);
      rest ← output_values os;
      Ok (fs ++ rest)
  end.

Fixpoint numbered_rows (rowByteLength : Z) (rows : list bytes) : res (list Field) :=
  match rows with
  | [] => Ok []
  | row :: rows =>
      if negb (zlen row =? rowByteLength) then Err errRequest
      else rest ← numbered_rows rowByteLength rows; Ok (mkField tagTableRow row :: rest)
  end.

Fixpoint eclipse_tables (tables : list STable) : res (list Field) :=
  match tables with
  | [] => Ok []
  | t :: tables =>
      fs ← (if negb (zlen (st_ID t) =? 4) then
              name ← encodeName (st_Name t);
              Ok (mkField TagTableName name :: mkField TagTableHeader (table_geometry t) :: map (mkField tagTableRow) (st_Rows t))
            else
              rows ← numbered_rows (st_RowByteLength t) (st_Rows t);
              Ok (mkField tagTableIDHeader (be_split 4 0x0a ++ st_ID t ++ be_split 4 (uint32 (zlen (st_Rows t))))
                  :: mkField TagTableHeader (table_geometry t) :: rows ++ [mkField tagTableIDEnd (st_ID t)]));
      rest ← eclipse_tables tables;
      Ok (fs ++ rest)
  end.

Definition compact_fields (compact : option bytes) : list Field :=
  match compact with
  | None => []
  | Some doc =>
      let deflated := deflate_bytes doc in
      [mkField tagCompactFlag [x01; x01]]
      ++ map (mkField tagCompactResponse) (slices (length deflated) (Z.to_nat compactChunkLength) deflated)
      ++ [mkField tagCompactEnd []]
  end.

Definition EncodeEclipseResponse (resp : Response) (req : Request) : res bytes :=
  let first := match rs_Tables resp with
    | t :: _ => if zlen (st_ID t) =? 4 then [mkField tagFirstTableID (st_ID t)] else []
    | [] => []
    end in
  let session := match r_SessionGUID req with
    | Some g => if zlen g =? 16 then [mkField TagSession g] else []
    | None => []
    end in
  let outputs := outputs_of resp in
  let echoes := map (fun o => mkField TagRequestedOutput (encodeUTF16LE (o_Name o))) outputs
    ++ match rs_Compact resp with Some _ => [mkField TagRequestedOutput (encodeUTF16LE (rs_CompactName resp))] | None => [] end in
  values ← output_values outputs;
  program ← EncodeAbapChar program_name 40;
  tables ← eclipse_tables (rs_Tables resp);
  close_response (first ++ [mkField TagResponseContext []] ++ session
    ++ [mkField CpicFunction.TagUnresolved0420 [x00; x00; x00; x00]; mkField TagCallContext []] ++ echoes ++ values
    ++ compact_fields (rs_Compact resp) ++ [mkField TagProgram program] ++ tables
    ++ [mkField 0x0667 s4Metric0667]
    ++ match rs_Compact resp with Some _ => [mkField tagCompactClose []] | None => [] end).
End Eclipse.

(** ** The records of an answer *)
Definition appcProtocol : byte := x06.
Definition appcFSapSend : byte := xcb.
Definition appcFReceive : byte := x09.
Definition appcHeaderLen : nat := 80.
Definition maxRecordData : Z := 28000.

(** [binary.BigEndian.PutUint16(h[at:], v)] and [PutUint32] on the header. *)
Definition put_be (n : nat) (h : bytes) (at_ : Z) (v : Z) : bytes := go_copy h at_ (be_split n v).

Definition record_header (data convID : bytes) (uid : Z) (fn : byte) (final : bool) (commConn : bytes) : bytes :=
  let h := zeros 80 in
  let h := <[0%nat := appcProtocol]> h in
  let h := <[1%nat := fn]> h in
  let h := <[2%nat := x02]> h in
  let h := put_be 2 h 4 uid in
  let h := put_be 2 h 6 0x0007 in
  let h := put_be 4 h 12 0x00010000 in
  let h := <[16%nat := x01]> h in
  let h := put_be 4 h 17 0xffffffff in
  let h := <[21%nat := x02]> h in
  let h := put_be 4 h 22 1 in
  let h := if final then <[31%nat := x0c]> (<[30%nat := x05]> (put_be 2 h 26 8))
           else <[31%nat := x08]> (<[30%nat := x01]> h) in
  let h := go_copy h 40 (take 8 convID) in
  let h := put_be 4 h 48 0x00006d60 in
  let h := put_be 4 h 52 0x00000002 in
  let h := put_be 4 h 56 (uint32 (zlen data)) in
  let h := put_be 4 h 60 0x00000001 in
  let h := go_copy h 68 [x00; x34; x31; x30; x33] in
  if zlen commConn =? 4 then go_copy h 76 commConn else h.

Definition buildEclipseRecord (data convID : bytes) (uid : Z) (fn : byte) (final : bool) (commConn : bytes) : bytes :=
  record_header data convID uid fn final commConn ++ data.

(** A last piece shorter than the trailer is topped up from the one before it. *)
Definition top_up (pieces : list bytes) : list bytes :=
  match rev pieces with
  | last_ :: prev :: front =>
      if zlen last_ <? 8 then
        let k := (length prev - (8 - length last_))%nat in
        rev front ++ [take k prev; drop k prev ++ last_]
      else pieces
  | _ => pieces
  end.

Fixpoint number_records (first : bool) (pieces : list bytes) (convID : bytes) (uid : Z) (commConn : bytes) : list bytes :=
  match pieces with
  | [] => []
  | piece :: rest =>
      buildEclipseRecord piece convID uid (if first then appcFSapSend else appcFReceive)
        (match rest with [] => true | _ => false end) commConn
      :: number_records false rest convID uid commConn
  end.

Definition eclipseRecords (cut convID : bytes) (uid : Z) (commConn : bytes) : list bytes :=
  if zlen cut <=? maxRecordData then [buildEclipseRecord cut convID uid appcFSapSend true commConn]
  else number_records true (top_up (slices (length cut) (Z.to_nat maxRecordData) cut)) convID uid commConn.

Definition responseRecords (cut convID : bytes) (uid : Z) (callerInfo : bytes) : list bytes :=
  let commConn := if zlen callerInfo =? 4 then [x00; x00] ++ drop 2 callerInfo else [x00; x00; x00; x00] in
  eclipseRecords cut convID uid commConn.

(** ** Dispatch *)
Inductive handler_result : Type :=
| Returned (r : Response)
| Raised (key : bytes)
| Failed.

Definition Handler : Type := Request -> handler_result.

Record Dispatcher : Type := mkDispatcher { d_handlers : bytes -> option Handler }.

Definition NewDispatcher : Dispatcher := mkDispatcher (fun _ => None).
Definition Handle (d : Dispatcher) (functionName : bytes) (h : Handler) : Dispatcher :=
  mkDispatcher (fun n => if bool_decide (n = functionName) then Some h else d_handlers d n).

Definition UnknownFunctionKey : bytes := lit "FU_NOT_FOUND".
Definition SystemFailureKey : bytes := lit "SYSTEM_FAILURE".

(** The key an error of a handler raises. *)
Definition error_key (key : option bytes) : bytes :=
  match key with Some k => if bool_decide (k = []) then SystemFailureKey else k | None => SystemFailureKey end.

Definition Dispatch (d : Dispatcher) (requestPayload : bytes) : res bytes :=
  req ← DecodeCutFunctionRequest requestPayload;
  match d_handlers d (r_FunctionName req) with
  | None => EncodeCutFunctionExceptionResponse UnknownFunctionKey
  | Some h =>
      match h req with
      | Raised key => EncodeCutFunctionExceptionResponse (error_key (Some key))
      | Failed => EncodeCutFunctionExceptionResponse (error_key None)
      | Returned resp => EncodeCutFunctionResponse (rs_Exports resp) (rs_Tables resp) (rs_XrfcParameters resp)
      end
  end.

(** The response, or the exception key; the handler's own error goes to the log. *)
Definition Invoke (d : Dispatcher) (req : Request) : Response + bytes :=
  match d_handlers d (r_FunctionName req) with
  | None => inr UnknownFunctionKey
  | Some h =>
      match h req with
      | Raised key => inr (error_key (Some key))
      | Failed => inr (error_key None)
      | Returned resp => inl resp
      end
  end.

(** ** Frames *)
Inductive FrameKind : Type := FrameData | FrameGatewayRecord | FrameNIPing | FrameNIPong | FrameShortKeepalive.

Definition NIPing : bytes := lit "NI_PING" ++ [x00].
Definition NIPong : bytes := lit "NI_PONG" ++ [x00].
Definition gatewayRecordLen : Z := 64.

Definition Classify (frame : bytes) : FrameKind :=
  if zlen frame =? gatewayRecordLen then FrameGatewayRecord
  else if (zlen frame =? zlen NIPing) && bytes_eqb frame NIPing then FrameNIPing
  else if (zlen frame =? zlen NIPong) && bytes_eqb frame NIPong then FrameNIPong
  else if zlen frame =? 8 then FrameShortKeepalive
  else FrameData.

Definition IsNIRouteHello (frame : bytes) : bool :=
  (zlen frame =? gatewayRecordLen) && bytes_eqb (take 2 frame) [x02; x03].

(** ** What an answer is made of *)
Lemma bmp_encode n : Forall (fun b => b2z b < 0x80) n -> encodeUTF16LE n = utf16leBytes n.
Proof.
  intros H. unfold encodeUTF16LE, utf16leBytes. destruct (ascii_runes n H) as [-> _]. f_equal.
  induction H as [|b n Hb _ IH]; [done|]. cbn [map]. rewrite IH. pose proof (b2z_range b).
  change (utf16_encode (b2z b :: map b2z n)) with (utf16_encode_rune (b2z b) ++ utf16_encode (map b2z n)).
  unfold utf16_encode_rune. rewrite (proj2 (is_scalarb_spec _)) by (unfold is_scalar; lia).
  destruct (Z.ltb_spec 0xffff (b2z b)); [lia|]. by destruct (Z.ltb_spec (b2z b) 0x10000); [|lia].
Qed.

Lemma encode_name_read n v : param_name n -> encodeName n = Ok v -> v = utf16leBytes n /\ decodeParameterName v = Ok n.
Proof.
  intros Hn. unfold encodeName. destruct (_ || _); [done|]. intros [= <-].
  assert (encodeUTF16LE n = utf16leBytes n) as E.
  { apply bmp_encode. destruct Hn as (_ & Ha & _). eapply Forall_impl; [exact Ha|]. cbn. lia. }
  rewrite E. split; [done|]. by apply param_name_read.
Qed.

(** A table whose rows are as wide as it declares. *)
Record answer_table (t : STable) : Prop := {
  at_name : param_name (st_Name t);
  at_width : is_u32 (st_RowByteLength t);
  at_rows : st_Rows t = [] \/ 0 < st_RowByteLength t;
  at_count : is_u32 (zlen (st_Rows t)) }.

Definition client_table (t : STable) : RTable :=
  let kinds := match st_Rows t with [] => (RowEmpty, CompressionEmpty) | _ => (RowStructured, CompressionSimple) end in
  mkRTable (st_Name t) (st_RowByteLength t) (st_RowByteLength t) (fst kinds) (snd kinds) (st_Rows t).

Lemma response_rows_ok w rows fs :
  (rows = [] \/ 0 < w) -> response_rows w rows = Ok fs -> fs = map (mkField TagTableCompr) rows /\ Forall (fun r => zlen r = w) rows.
Proof.
  intros Hw. revert fs. induction rows as [|r rows IH]; intros fs H; cbn [response_rows] in H; [by injection H as <-|].
  destruct Hw as [|Hw]; [done|]. destruct (Z.eqb_spec w 0); [lia|]. cbn [negb andb] in H.
  destruct (Z.eqb_spec (zlen r) w); [|done]. cbn [negb] in H. ok_step H as rest Hr. injection H as <-.
  destruct (IH (or_intror Hw) rest Hr) as [-> ?]. split; [done|]. by constructor.
Qed.

Lemma client_reads_table t rows rest :
  answer_table t -> response_rows (st_RowByteLength t) (st_Rows t) = Ok rows ->
  read_table true (st_Name t) (mkField TagTableHeader (table_geometry t) :: rows ++ rest) = Ok (client_table t, rest).
Proof.
  intros [Hn Hw Hr Hc] H. apply response_rows_ok in H as [-> Hl]; [|done]. cbn [read_table f_Value].
  assert (table_geometry t = be_split 4 (st_RowByteLength t) ++ be_split 4 (zlen (st_Rows t))) as ->.
  { unfold table_geometry. by rewrite !be_split_uint32. }
  rewrite header_encoded by done. cbn [mbind outcome_bind].
  rewrite read_rows_exact; [|done|done|done|done|cbn [RowCount]; change (zlen (@nil bytes)) with 0; lia].
  cbn [mbind outcome_bind app RowCount DeclaredRowByteLength].
  assert (uint32 (zlen (st_Rows t)) = zlen (st_Rows t)) as -> by by apply Z.mod_small.
  rewrite Z.eqb_refl. cbn [negb]. unfold client_table. destruct (st_Rows t) as [|r rs] eqn:Er; [done|].
  cbn. do 3 f_equal. by apply Forall_cons in Hl as [-> _].
Qed.

(** ** The client's loop on an answer *)
Definition add_scalars (r : Result) (es : list NamedValue) : Result :=
  mkResult (res_RequestedOutputs r) (res_Scalars r ++ map (fun e => mkScalar (nv_Name e) (nv_Value e)) es) (res_Tables r) (res_XrfcParameters r).
Definition add_rtables (r : Result) (ts : list STable) : Result :=
  mkResult (res_RequestedOutputs r) (res_Scalars r) (res_Tables r ++ map client_table ts) (res_XrfcParameters r).

Lemma scalar_step n v rest r names name :
  decodeParameterName n = Ok name -> (name ∉ names) ->
  result_step (mkField TagParameterName n) (mkField TagParameterValue v :: rest) r names
  = Ok (rest, add_scalar r (mkScalar name v), name :: names).
Proof.
  intros Hn Hd.
  change (result_step (mkField TagParameterName n) (mkField TagParameterValue v :: rest) r names) with
    (name ← decodeParameterName n; if bool_decide (name ∈ names) then Err errCProtocol
     else Ok (rest, add_scalar r (mkScalar name v), name :: names)).
  rewrite Hn. cbn [mbind outcome_bind]. by rewrite bool_decide_eq_false_2.
Qed.

Lemma table_step n h rest r names name t behind :
  decodeParameterName n = Ok name -> (name ∉ names) -> read_table true name (mkField TagTableHeader h :: rest) = Ok (t, behind) ->
  result_step (mkField TagTableName n) (mkField TagTableHeader h :: rest) r names = Ok (behind, add_table r t, name :: names).
Proof.
  intros Hn Hd Ht.
  change (result_step (mkField TagTableName n) (mkField TagTableHeader h :: rest) r names) with
    (name ← decodeParameterName n; if bool_decide (name ∈ names) then Err errCProtocol
     else '(t, behind) ← read_table true name (mkField TagTableHeader h :: rest); Ok (behind, add_table r t, name :: names)).
  rewrite Hn. cbn [mbind outcome_bind]. rewrite bool_decide_eq_false_2, Ht by done. done.
Qed.

Lemma reaches_exports es fs rest r names x :
  Forall (fun e => param_name (nv_Name e)) es -> response_exports es = Ok fs ->
  NoDup (map nv_Name es) -> Forall (fun e => nv_Name e ∉ names) es ->
  result_reaches rest (add_scalars r es) (rev (map nv_Name es) ++ names) x -> result_reaches (fs ++ rest) r names x.
Proof.
  intros Hp. revert fs r names. induction Hp as [|e es He _ IH]; intros fs r names H Hd Hn Hx; cbn [response_exports] in H.
  - injection H as <-. unfold add_scalars in Hx. cbn in Hx. rewrite app_nil_r in Hx. by destruct r.
  - ok_step H as v Hv. ok_step H as more Hr. apply Ok_inj in H. subst fs. destruct (encode_name_read _ _ He Hv) as [_ Hname].
    apply Forall_cons in Hn as [Hn0 Hn]. cbn [map] in Hd. apply NoDup_cons in Hd as [Hd0 Hd]. cbn [app].
    eapply reaches_step; [by apply scalar_step|]. eapply IH; [exact Hr|exact Hd| |].
    + apply Forall_forall. intros e' He'. rewrite not_elem_of_cons. split; [|by eapply Forall_forall in Hn].
      intros E. apply Hd0. rewrite <- E. apply list_elem_of_In, in_map, list_elem_of_In, He'.
    + cbn [map rev] in Hx. rewrite <- app_assoc in Hx. cbn [app] in Hx.
      replace (add_scalars (add_scalar r (mkScalar (nv_Name e) (nv_Value e))) es) with (add_scalars r (e :: es)); [done|].
      unfold add_scalars, add_scalar. cbn. by rewrite <- app_assoc.
Qed.

Lemma reaches_tables ts fs rest r names x :
  Forall answer_table ts -> response_tables ts = Ok fs ->
  NoDup (map st_Name ts) -> Forall (fun t => st_Name t ∉ names) ts ->
  result_reaches rest (add_rtables r ts) (rev (map st_Name ts) ++ names) x -> result_reaches (fs ++ rest) r names x.
Proof.
  intros Hp. revert fs r names. induction Hp as [|t ts Ht _ IH]; intros fs r names H Hd Hn Hx; cbn [response_tables] in H.
  - injection H as <-. unfold add_rtables in Hx. cbn in Hx. rewrite app_nil_r in Hx. by destruct r.
  - ok_step H as v Hv. ok_step H as rows Hrows. ok_step H as more Hr. apply Ok_inj in H. subst fs.
    destruct (encode_name_read _ _ (at_name _ Ht) Hv) as [_ Hname].
    apply Forall_cons in Hn as [Hn0 Hn]. cbn [map] in Hd. apply NoDup_cons in Hd as [Hd0 Hd]. cbn [app]. rewrite <- app_assoc.
    eapply reaches_step; [apply table_step; [done|done|by apply client_reads_table]|]. eapply IH; [exact Hr|exact Hd| |].
    + apply Forall_forall. intros e' He'. rewrite not_elem_of_cons. split; [|by eapply Forall_forall in Hn].
      intros E. apply Hd0. rewrite <- E. apply list_elem_of_In, in_map, list_elem_of_In, He'.
    + cbn [map rev] in Hx. rewrite <- app_assoc in Hx. cbn [app] in Hx.
      replace (add_rtables (add_table r (client_table t)) ts) with (add_rtables r (t :: ts)); [done|].
      unfold add_rtables, add_table. cbn. by rewrite <- app_assoc.
Qed.

Lemma client_chunks cs f rest n acc :
  Forall (fun c => c <> []) cs -> f_Tag f <> TagXRfcData -> n + zlen (concat cs) <= DefaultMaxFieldChainLength ->
  ClassicRfc.xrfc_chunks (map (mkField TagXRfcData) cs ++ f :: rest) n acc = Ok (acc ++ cs, f :: rest).
Proof.
  intros Hc Hf. revert n acc. induction Hc as [|c cs Hc _ IH]; intros n acc Hn; cbn [map app ClassicRfc.xrfc_chunks].
  - rewrite (proj2 (Z.eqb_neq _ _) Hf). by rewrite app_nil_r.
  - change (f_Tag (mkField TagXRfcData c) =? TagXRfcData) with true. cbn [f_Value]. cbn [concat] in Hn. rewrite zlen_app in Hn.
    pose proof (zlen_nonneg (concat cs)). assert (0 < zlen c) by (destruct c; [done|len_lia]).
    destruct (Z.eqb_spec (zlen c) 0); [lia|]. cbv zeta. destruct (Z.ltb_spec DefaultMaxFieldChainLength (n + zlen c)); [lia|].
    rewrite IH by lia. by rewrite <- app_assoc.
Qed.

Lemma xrfc_step cs rest r names :
  cs <> [] -> Forall (fun c => c <> []) cs -> zlen (concat cs) <= DefaultMaxFieldChainLength ->
  result_step (mkField TagXRfcParameter []) (map (mkField TagXRfcData) cs ++ mkField TagXRfcParameter [] :: rest) r names
  = Ok (rest, ClassicRfc.add_xrfc r (mkXrfcParameter (concat cs) (zlen cs)), names).
Proof.
  intros Hne Hc Hl. set (fs := map (mkField TagXRfcData) cs ++ mkField TagXRfcParameter [] :: rest).
  change (result_step (mkField TagXRfcParameter []) fs r names) with
    ('(chunks, behind) ← ClassicRfc.xrfc_chunks fs 0 [];
      if zlen chunks =? 0 then Err errCProtocol
      else match behind with
      | c :: behind =>
          if negb (f_Tag c =? TagXRfcParameter) then Err errCProtocol
          else if negb (zlen (f_Value c) =? 0) then Err errCProtocol
          else Ok (behind, ClassicRfc.add_xrfc r (mkXrfcParameter (concat chunks) (zlen chunks)), names)
      | [] => Err errCProtocol
      end).
  subst fs. rewrite client_chunks by (done || lia). cbn [mbind outcome_bind app].
  destruct (Z.eqb_spec (zlen cs) 0) as [E|]; [|done]. destruct cs; [done|]. exfalso. unfold zlen in E. cbn [length] in E. lia.
Qed.

Definition add_xrfcs (r : Result) (xs : list XrfcParameter) : Result :=
  mkResult (res_RequestedOutputs r) (res_Scalars r) (res_Tables r) (res_XrfcParameters r ++ xs).

Lemma reaches_xrfcs ps fs :
  xrfcResponseFields ps = Ok fs -> Forall (fun p => zlen (nv_Value p) <= DefaultMaxFieldChainLength) ps ->
  exists xs, map xp_Value xs = map nv_Value ps /\
    forall rest r names x, result_reaches rest (add_xrfcs r xs) names x -> result_reaches (fs ++ rest) r names x.
Proof.
  intros H Hl. revert fs H. induction Hl as [|p ps Hp _ IH]; intros fs H; cbn [xrfcResponseFields] in H.
  - injection H as <-. exists []. split; [done|]. intros rest r names x. unfold add_xrfcs. rewrite app_nil_r. by destruct r.
  - destruct (Z.eqb_spec (zlen (nv_Value p)) 0) as [|Hz]; [done|].
    destruct (chunk_fields_ok (nv_Value p)) as (cs & Ecs & Hcs & Hne). rewrite Ecs in H. cbn [mbind outcome_bind] in H.
    ok_step H as more Hm. apply Ok_inj in H. subst fs. destruct (IH more Hm) as (xs & Hxs & Hr).
    exists (mkXrfcParameter (concat cs) (zlen cs) :: xs). split; [cbn; by rewrite Hxs, Hcs|].
    intros rest r names x Hx. cbn [app]. rewrite <- app_assoc. cbn [app].
    eapply reaches_step; [apply xrfc_step|].
    + intros ->. cbn in Hcs. rewrite <- Hcs in Hz. by apply Hz.
    + done.
    + by rewrite Hcs.
    + apply Hr. replace (add_xrfcs (ClassicRfc.add_xrfc r _) xs) with (add_xrfcs r (mkXrfcParameter (concat cs) (zlen cs) :: xs)); [done|].
      unfold add_xrfcs, ClassicRfc.add_xrfc. cbn. by rewrite <- app_assoc.
Qed.

(** ** The checks before it *)
Definition values_bytes (fs : list Field) : Z := fold_right Z.add 0 (map (fun f => zlen (f_Value f)) fs).

Lemma values_nonneg fs : 0 <= values_bytes fs.
Proof. unfold values_bytes. induction fs as [|f fs IH]; [done|]. cbn [map fold_right]. pose proof (zlen_nonneg (f_Value f)). lia. Qed.

Lemma values_app fs gs : values_bytes (fs ++ gs) = values_bytes fs + values_bytes gs.
Proof. unfold values_bytes. by rewrite map_app, sum_app. Qed.

Lemma values_in_chain prev fs : values_bytes fs <= zlen (chain_bytes prev fs).
Proof.
  revert prev. induction fs as [|f fs IH]; intros prev; [done|]. cbn [chain_bytes]. rewrite zlen_app, field_record_length.
  unfold values_bytes in *. cbn [map fold_right]. specialize (IH (f_Tag f)). pose proof (zlen_nonneg (field_header_bytes f)). lia.
Qed.

Lemma value_bytes_ok fs n : n + values_bytes fs <= DefaultMaxFieldChainLength -> value_bytes_loop fs n = Ok tt.
Proof.
  revert n. induction fs as [|f fs IH]; intros n H; [done|]. cbn [value_bytes_loop]. cbv zeta.
  unfold values_bytes in H. cbn [map fold_right] in H. fold (values_bytes fs) in H. pose proof (values_nonneg fs).
  destruct (Z.ltb_spec DefaultMaxFieldChainLength (n + zlen (f_Value f))); [lia|]. apply IH. lia.
Qed.

Lemma passes_others fs rest b : Forall (fun f => f_Tag f <> TagTableName) fs -> preflight_passes rest b -> preflight_passes (fs ++ rest) b.
Proof. induction 1 as [|f fs Hf _ IH]; intros Hr; [done|]. cbn [app]. apply passes_skip; [done|]. by apply IH. Qed.

Lemma rows_values rows : values_bytes (map (mkField TagTableCompr) rows) = rows_bytes rows.
Proof. unfold values_bytes, rows_bytes. rewrite map_map. done. Qed.

Lemma rows_bytes_nonneg rows : 0 <= rows_bytes rows.
Proof. rewrite <- rows_values. apply values_nonneg. Qed.

Lemma passes_table t v rows rest b :
  answer_table t -> decodeParameterName v = Ok (st_Name t) -> response_rows (st_RowByteLength t) (st_Rows t) = Ok rows ->
  0 <= b -> b + values_bytes rows <= defaultMaxResultTableDecodedBytes -> preflight_passes rest (b + values_bytes rows) ->
  preflight_passes (mkField TagTableName v :: mkField TagTableHeader (table_geometry t) :: rows ++ rest) b.
Proof.
  intros [Hn Hw Hr Hc] Hv H Hb0 Hb [fuel Hp]. apply response_rows_ok in H as [-> Hl]; [|done]. rewrite rows_values in *.
  exists (S fuel). cbn [preflight_loop f_Tag f_Value]. change (negb (TagTableName =? TagTableName)) with false.
  change (negb (TagTableHeader =? TagTableHeader)) with false. cbv iota. rewrite Hv. cbn [mbind outcome_bind].
  assert (table_geometry t = be_split 4 (st_RowByteLength t) ++ be_split 4 (zlen (st_Rows t))) as ->.
  { unfold table_geometry. by rewrite !be_split_uint32. }
  rewrite header_encoded by done. cbn [mbind outcome_bind].
  rewrite preflight_rows_exact; [|done|done|done|cbn [RowCount]; lia]. cbn [mbind outcome_bind RowCount]. rewrite Z.eqb_refl. cbn [negb].
  rewrite Z.add_0_l. unfold defaultMaxResultTableDecodedBytes, defaultMaxTableDecodedBytes in *.
  destruct (Z.ltb_spec DefaultMaxFieldChainLength (rows_bytes (st_Rows t))); [lia|]. cbv zeta.
  destruct (Z.ltb_spec DefaultMaxFieldChainLength (b + rows_bytes (st_Rows t))); [lia|]. done.
Qed.

Lemma passes_tables ts fs rest b :
  Forall answer_table ts -> response_tables ts = Ok fs -> 0 <= b -> b + values_bytes fs <= defaultMaxResultTableDecodedBytes ->
  (forall b', preflight_passes rest b') -> preflight_passes (fs ++ rest) b.
Proof.
  intros Hp. revert fs b. induction Hp as [|t ts Ht _ IH]; intros fs b H Hb0 Hb Hrest; cbn [response_tables] in H.
  - injection H as <-. apply Hrest.
  - ok_step H as v Hv. ok_step H as rows Hrows. ok_step H as more Hm. apply Ok_inj in H. subst fs.
    destruct (encode_name_read _ _ (at_name _ Ht) Hv) as [_ Hname].
    change (mkField TagTableName v :: mkField TagTableHeader (table_geometry t) :: rows ++ more) with
      ([mkField TagTableName v; mkField TagTableHeader (table_geometry t)] ++ rows ++ more) in Hb. rewrite !values_app in Hb.
    pose proof (values_nonneg [mkField TagTableName v; mkField TagTableHeader (table_geometry t)]).
    pose proof (values_nonneg more). pose proof (values_nonneg rows). cbn [app]. rewrite <- app_assoc.
    eapply passes_table; [done|done|exact Hrows|lia|lia|]. apply IH; [done|lia|lia|done].
Qed.

(** ** The tags of an answer *)
Definition answer_tags : list Z :=
  [TagParameterName; TagParameterValue; TagTableName; TagTableHeader; TagTableCompr; TagXRfcParameter; TagXRfcData].
Definition answer_field (f : Field) : Prop := f_Tag f ∈ answer_tags.

Lemma tag_answer tag v : bool_decide (tag ∈ answer_tags) = true -> answer_field (mkField tag v).
Proof. apply bool_decide_eq_true. Qed.

Lemma rows_answer w rows fs : response_rows w rows = Ok fs -> Forall answer_field fs.
Proof.
  revert fs. induction rows as [|r rows IH]; intros fs H; cbn [response_rows] in H; [by injection H as <-|].
  destruct (_ && _); [done|]. ok_step H as rest Hr. injection H as <-. constructor; [by apply tag_answer|]. by apply IH.
Qed.

Lemma exports_answer es fs : response_exports es = Ok fs -> Forall answer_field fs.
Proof.
  revert fs. induction es as [|e es IH]; intros fs H; cbn [response_exports] in H; [by injection H as <-|].
  ok_step H as v Hv. ok_step H as rest Hr. injection H as <-. do 2 (constructor; [by apply tag_answer|]). by apply IH.
Qed.

Lemma tables_answer ts fs : response_tables ts = Ok fs -> Forall answer_field fs.
Proof.
  revert fs. induction ts as [|t ts IH]; intros fs H; cbn [response_tables] in H; [by injection H as <-|].
  ok_step H as v Hv. ok_step H as rows Hrows. ok_step H as rest Hr. injection H as <-. do 2 (constructor; [by apply tag_answer|]).
  apply Forall_app. split; [by eapply rows_answer|]. by apply IH.
Qed.

Lemma xrfcs_answer ps fs : xrfcResponseFields ps = Ok fs -> Forall answer_field fs /\ Forall (fun f => f_Tag f <> TagTableName) fs.
Proof.
  revert fs. induction ps as [|p ps IH]; intros fs H; cbn [xrfcResponseFields] in H; [by injection H as <-|].
  destruct (_ =? 0); [done|]. destruct (chunk_fields_ok (nv_Value p)) as (cs & Ecs & _). rewrite Ecs in H. cbn [mbind outcome_bind] in H.
  ok_step H as rest Hr. injection H as <-. destruct (IH rest Hr) as [H1 H2]. split.
  - constructor; [by apply tag_answer|]. apply Forall_app. split; [apply Forall_map, Forall_true; intros c; by apply tag_answer|].
    constructor; [by apply tag_answer|done].
  - constructor; [done|]. apply Forall_app. split; [by apply Forall_map, Forall_true|]. by constructor.
Qed.

Lemma exports_no_table es fs : response_exports es = Ok fs -> Forall (fun f => f_Tag f <> TagTableName) fs.
Proof.
  revert fs. induction es as [|e es IH]; intros fs H; cbn [response_exports] in H; [by injection H as <-|].
  ok_step H as v Hv. ok_step H as rest Hr. injection H as <-. do 2 (constructor; [done|]). by apply IH.
Qed.

Lemma answer_inner f : answer_field f -> inner f.
Proof.
  destruct f as [tag v]. unfold answer_field, answer_tags. cbn [f_Tag]. rewrite !elem_of_cons, elem_of_nil.
  intros H. repeat destruct H as [->|H]; try done; by apply inner_tag.
Qed.

Definition response_extra : list Z := [TagProgram; 0x0667] ++ s4ClassicExtensionTags.

Lemma answer_data f : answer_field f -> data_field response_extra (Rfcerr.mkField (f_Tag f) (f_Value f)).
Proof.
  destruct f as [tag v]. unfold answer_field, answer_tags. cbn [f_Tag f_Value]. rewrite !elem_of_cons, elem_of_nil.
  assert (forall t, bool_decide ((t ∉ textTags) /\ (t ∉ classExceptionTags) /\ t <> EndTag /\
    (t ∉ [Rfcerr.TagUnresolved0420; TagUseClassExceptions; TagClassExceptionInfo]) /\
    (t ∈ classicResponseDataTags ∪ list_to_set response_extra)) = true -> data_field response_extra (Rfcerr.mkField t v)) as Hb.
  { intros t H%bool_decide_eq_true. exact H. }
  intros H. repeat destruct H as [->|H]; try done; apply Hb; vm_compute; reflexivity.
Qed.

(** ** The client reads the answer *)
Record readable_answer (exports : list NamedValue) (tables : list STable) : Prop := {
  ra_exports : Forall (fun e => param_name (nv_Name e)) exports;
  ra_tables : Forall answer_table tables;
  ra_distinct : NoDup (map nv_Name exports ++ map st_Name tables) }.

Definition success_fields (fs : list Field) : list Field := [mkField 0x0420 [x00; x00; x00; x00]] ++ fs.

Lemma success_decoded fs chain :
  Forall answer_field fs -> EncodeFieldChain TagResponseStart (success_fields fs ++ [mkField TagEnd []]) default_limits = Ok chain ->
  exists d, DecodeFunctionResultFields (cutResponsePrefix ++ chain ++ [xff; xff]) = Ok d /\
    rf_Success d = true /\ rf_Status d = Some 0 /\ rf_Fields d = success_fields fs ++ [mkField TagEnd []].
Proof.
  intros Ha Hc. unfold DecodeFunctionResultFields. change cutResponsePrefix with cpicFunctionResponsePrefix.
  assert (Forall inner (success_fields fs)) as Hi.
  { constructor; [by apply inner_tag|]. eapply Forall_impl; [exact Ha|]. apply answer_inner. }
  rewrite (response_fields (success_fields fs) chain s4ClassicExtensionTags Hi Hc). unfold decodeFunctionResponseFields.
  destruct (encode_chain_inv _ _ _ _ (proj1 (proj2 (inner_split _ Hi))) Hc) as (r & Er & _ & [_ Hcount] & _).
  unfold default_limits, resolveLimits in Er. injection Er as <-. cbn [maxFieldCount orInt MaxFieldCount] in Hcount.
  assert (zlen fs + 2 <= DefaultMaxFieldCount) as Hn.
  { unfold success_fields in Hcount. rewrite !zlen_app in Hcount. change (zlen [mkField 0x0420 [x00; x00; x00; x00]]) with 1 in Hcount.
    change (zlen [mkField TagEnd []]) with 1 in Hcount. lia. }
  pose proof (decode_success [] (toRfcErrFields fs) response_extra DefaultMaxFieldCount) as Hs.
  destruct Hs as (env & He & Ho & _ & Hu); [constructor| |unfold DefaultMaxFieldCount; lia| |].
  { apply Forall_map. eapply Forall_impl; [exact Ha|]. intros f. apply answer_data. }
  { unfold toRfcErrFields, zlen in *. rewrite length_map. change (length (@nil Rfcerr.Field)) with O. lia. }
  assert (toRfcErrFields (success_fields fs ++ [mkField TagEnd []])
    = [] ++ [Rfcerr.mkField Rfcerr.TagUnresolved0420 [x00; x00; x00; x00]] ++ toRfcErrFields fs ++ [Rfcerr.mkField EndTag []]) as ->.
  { unfold toRfcErrFields, success_fields. by rewrite !map_app. }
  unfold default_options, response_extra in He. rewrite He. cbn [mbind outcome_bind]. eexists. split; [reflexivity|].
  rewrite Hu, Ho. done.
Qed.

Lemma chunk_values cs : values_bytes (map (mkField TagXRfcData) cs) = zlen (concat cs).
Proof.
  induction cs as [|c cs IH]; [done|]. cbn [map concat]. change (mkField TagXRfcData c :: map (mkField TagXRfcData) cs)
    with ([mkField TagXRfcData c] ++ map (mkField TagXRfcData) cs). rewrite values_app, IH, zlen_app.
  unfold values_bytes. cbn [map fold_right f_Value]. lia.
Qed.

Lemma xrfc_values_bounded ps fs m :
  xrfcResponseFields ps = Ok fs -> values_bytes fs <= m -> Forall (fun p => zlen (nv_Value p) <= m) ps.
Proof.
  revert fs. induction ps as [|p ps IH]; intros fs H Hm; [constructor|]. cbn [xrfcResponseFields] in H. destruct (_ =? 0); [done|].
  destruct (chunk_fields_ok (nv_Value p)) as (cs & Ecs & Hcs & _). rewrite Ecs in H. cbn [mbind outcome_bind] in H.
  ok_step H as more Hr. apply Ok_inj in H. subst fs.
  change (mkField TagXRfcParameter [] :: map (mkField TagXRfcData) cs ++ mkField TagXRfcParameter [] :: more)
    with ([mkField TagXRfcParameter []] ++ map (mkField TagXRfcData) cs ++ [mkField TagXRfcParameter []] ++ more) in Hm.
  rewrite !values_app, chunk_values, Hcs in Hm. change (values_bytes [mkField TagXRfcParameter []]) with 0 in Hm.
  pose proof (values_nonneg more). pose proof (zlen_nonneg (nv_Value p)). constructor; [lia|]. apply (IH more); [done|lia].
Qed.

Lemma answer_grouped exports tables xrfcs es ts xs chain :
  readable_answer exports tables -> response_exports exports = Ok es -> response_tables tables = Ok ts ->
  xrfcResponseFields xrfcs = Ok xs ->
  EncodeFieldChain TagResponseStart (success_fields (es ++ ts ++ xs) ++ [mkField TagEnd []]) default_limits = Ok chain ->
  exists xps, map xp_Value xps = map nv_Value xrfcs /\
    decodeResult (success_fields (es ++ ts ++ xs) ++ [mkField TagEnd []])
    = Ok (mkResult [] (map (fun e => mkScalar (nv_Name e) (nv_Value e)) exports) (map client_table tables) xps).
Proof.
  intros [He Ht Hd] Hes Hts Hxs Hc. apply NoDup_app in Hd as (Hd1 & Hd2 & Hd3).
  assert (Forall answer_field (es ++ ts ++ xs)) as Ha.
  { rewrite !Forall_app. split_and!; [by eapply exports_answer|by eapply tables_answer|by eapply xrfcs_answer]. }
  set (fields := success_fields (es ++ ts ++ xs) ++ [mkField TagEnd []]) in *.
  assert (Forall field_ok fields) as Hf.
  { apply inner_split. constructor; [by apply inner_tag|]. eapply Forall_impl; [exact Ha|]. apply answer_inner. }
  destruct (encode_chain_inv _ _ _ _ Hf Hc) as (r & Er & Eb & [_ Hcount] & _ & Hm).
  unfold default_limits, resolveLimits in Er. injection Er as <-. cbn [maxFieldCount maxChainLength orInt MaxFieldCount MaxChainLength] in *.
  pose proof (values_in_chain TagResponseStart fields) as Hv. rewrite <- Eb in Hv.
  assert (values_bytes fields = 4 + values_bytes es + values_bytes ts + values_bytes xs) as Hvs.
  { unfold fields, success_fields. rewrite !values_app. change (values_bytes [mkField 0x0420 [x00; x00; x00; x00]]) with 4.
    change (values_bytes [mkField TagEnd []]) with 0. lia. }
  pose proof (values_nonneg es). pose proof (values_nonneg ts). pose proof (values_nonneg xs).
  destruct (reaches_xrfcs xrfcs xs Hxs) as (xps & Hxps & Hrx).
  { apply (xrfc_values_bounded xrfcs xs _ Hxs). lia. }
  exists xps. split; [done|]. unfold decodeResult, preflightResultBytes.
  destruct (Z.ltb_spec DefaultMaxFieldCount (zlen fields)); [lia|]. rewrite value_bytes_ok by lia. cbn [mbind outcome_bind].
  rewrite passes_loop.
  2: { unfold fields, success_fields. rewrite <- !app_assoc. apply passes_skip; [done|]. apply passes_others; [by eapply exports_no_table|].
       eapply passes_tables; [done|exact Hts|done|unfold defaultMaxResultTableDecodedBytes; lia|].
       intros b'. apply passes_others; [by eapply xrfcs_answer|]. apply passes_skip; [done|]. apply passes_nil. }
  cbn [mbind outcome_bind]. apply reaches_loop. unfold fields, success_fields. rewrite <- !app_assoc.
  eapply reaches_step; [reflexivity|].
  eapply reaches_exports; [done|exact Hes|done|by apply Forall_true; intros ? ?%not_elem_of_nil|].
  eapply reaches_tables; [done|exact Hts|done| |].
  { apply Forall_forall. intros t Hin Hn. rewrite app_nil_r in Hn. apply list_elem_of_In, (proj2 (in_rev _ _)), list_elem_of_In in Hn.
    apply (Hd2 _ Hn). apply list_elem_of_In, in_map, list_elem_of_In, Hin. }
  apply Hrx. eapply reaches_step; [reflexivity|]. apply reaches_nil.
Qed.

Lemma request_error_ok {A} (m : res A) a : as_request_error m = Ok a -> m = Ok a.
Proof. destruct m as [x|e|]; [done| |done]. by destruct e. Qed.

Lemma client_reads exports tables xrfcs p :
  EncodeCutFunctionResponse exports tables xrfcs = Ok p -> readable_answer exports tables ->
  exists d xps, DecodeFunctionResultFields p = Ok d /\ rf_Success d = true /\ rf_Status d = Some 0 /\
    map xp_Value xps = map nv_Value xrfcs /\
    decodeResult (rf_Fields d)
    = Ok (mkResult [] (map (fun e => mkScalar (nv_Name e) (nv_Value e)) exports) (map client_table tables) xps).
Proof.
  unfold EncodeCutFunctionResponse. intros H Hr. ok_step H as es Hes. ok_step H as ts Hts. ok_step H as xs Hxs.
  unfold close_response in H. ok_step H as chain Hc. apply request_error_ok in Hc. apply Ok_inj in H. subst p.
  assert (Forall answer_field (es ++ ts ++ xs)) as Ha.
  { rewrite !Forall_app. split_and!; [by eapply exports_answer|by eapply tables_answer|by eapply xrfcs_answer]. }
  change ([mkField 0x0420 [x00; x00; x00; x00]] ++ es ++ ts ++ xs) with (success_fields (es ++ ts ++ xs)) in Hc.
  destruct (success_decoded _ _ Ha Hc) as (d & Hd & Hs & Hst & Hf).
  destruct (answer_grouped _ _ _ _ _ _ _ Hr Hes Hts Hxs Hc) as (xps & Hxps & Hg).
  exists d, xps. split_and!; [exact Hd|done|done|done|]. rewrite Hf. exact Hg.
Qed.

(** A response the server encodes decodes on the client as a success whose scalars, tables
    and xRFC documents are the ones the server gave, in order. *)
Theorem client_reads_answer exports tables xrfcs p :
  EncodeCutFunctionResponse exports tables xrfcs = Ok p -> readable_answer exports tables ->
  exists d xps, DecodeFunctionResultFields p = Ok d /\ rf_Success d = true /\ rf_Status d = Some 0 /\
    map xp_Value xps = map nv_Value xrfcs /\
    decodeResult (rf_Fields d)
    = Ok (mkResult [] (map (fun e => mkScalar (nv_Name e) (nv_Value e)) exports) (map client_table tables) xps).
Proof. apply client_reads. Qed.

(** ** Exceptions *)
(** A key of the Basic Multilingual Plane, without NUL, not blank, of at most 1 MiB. *)
Record exception_key (key : bytes) : Prop := {
  ek_valid : ValidString key = true;
  ek_bmp : Forall (fun r => 0 < r <= 0xffff) (runes key);
  ek_text : trim_right_spaces key <> [];
  ek_short : 2 * zlen (runes key) <= DefaultMaxTextByteLength }.

Lemma bmp_units rs : Forall is_scalar rs -> Forall (fun r => 0 < r <= 0xffff) rs ->
  map (fun r => if 0xffff <? r then 0xfffd else r) rs = rs /\ utf16_encode rs = rs.
Proof.
  induction 1 as [|r rs Hr _ IH]; intros Hb; [done|]. apply Forall_cons in Hb as [Hb0 Hb]. destruct (IH Hb) as [E1 E2].
  cbn [map]. rewrite E1. change (utf16_encode (r :: rs)) with (utf16_encode_rune r ++ utf16_encode rs). rewrite E2.
  unfold utf16_encode_rune. rewrite (proj2 (is_scalarb_spec r) Hr).
  destruct (Z.ltb_spec 0xffff r); [lia|]. by destruct (Z.ltb_spec r 0x10000); [|lia].
Qed.

Lemma key_read key : exception_key key ->
  decodeStrictUTF16LE (encodeUTF16LE key) DefaultMaxTextByteLength = Ok (trim_right_spaces key).
Proof.
  intros [Hv Hb _ Hs]. destruct (valid_string_runes key Hv) as [Hk Hsc]. destruct (bmp_units _ Hsc Hb) as [E1 E2].
  unfold encodeUTF16LE. rewrite E1. rewrite <- E2 at 1. rewrite strict_text_roundtrip; [by rewrite Hk|done| |by rewrite E2].
  eapply Forall_impl; [exact Hb|]. cbn. lia.
Qed.

Lemma exception_read key p :
  EncodeCutFunctionExceptionResponse key = Ok p -> exception_key key ->
  exists d, DecodeFunctionResponse p = Ok d /\ fn_Success d = false /\ fn_Outcome d = OutcomeAbapException /\
    fn_HasException d = true /\ fn_ExceptionKey d = trim_right_spaces key.
Proof.
  intros H Hk. unfold EncodeCutFunctionExceptionResponse in H. destruct (bool_decide _); [done|].
  unfold close_response in H. ok_step H as chain Hc. apply request_error_ok in Hc. apply Ok_inj in H. subst p.
  unfold DecodeFunctionResponse. change cutResponsePrefix with cpicFunctionResponsePrefix.
  rewrite (response_fields [mkField 0x0401 (encodeUTF16LE key)] chain); [|by apply Forall_singleton, inner_tag|exact Hc].
  unfold decodeFunctionResponseFields, toRfcErrFields. cbn [app map f_Tag f_Value].
  destruct (decode_exception (encodeUTF16LE key) (trim_right_spaces key) ([TagProgram; 0x0667] ++ [TagXRfcParameter; TagXRfcData]) DefaultMaxFieldCount)
    as (env & He & Ho & Hx); [by apply key_read|by apply ek_text|unfold DefaultMaxFieldCount; lia|].
  match goal with |- context [Decode ?a ?b] => replace (Decode a b) with (Ok env : res Envelope) by (symmetry; exact He) end.
  cbn [mbind outcome_bind rf_Envelope rf_Success rf_Status rf_Fields]. eexists. split; [reflexivity|].
  cbn [fn_Outcome fn_HasException fn_ExceptionKey fn_Success]. rewrite Ho, Hx. done.
Qed.

(** An exception response of the server decodes on the client as an unsuccessful ABAP
    exception with the key of the exception. *)
Theorem client_reads_exception key p :
  EncodeCutFunctionExceptionResponse key = Ok p -> exception_key key ->
  exists d, DecodeFunctionResponse p = Ok d /\ fn_Success d = false /\ fn_Outcome d = OutcomeAbapException /\
    fn_HasException d = true /\ fn_ExceptionKey d = trim_right_spaces key.
Proof. apply exception_read. Qed.

(** ** A dispatched call *)
Lemma exception_encoded key : exception_key key -> exists p, EncodeCutFunctionExceptionResponse key = Ok p.
Proof.
  intros [Hv Hb Ht Hs]. unfold EncodeCutFunctionExceptionResponse.
  rewrite bool_decide_eq_false_2 by (intros ->; by apply Ht). unfold close_response.
  rewrite encode_chain_ok; [by eexists| |by vm_compute|].
  - apply inner_split. apply Forall_singleton. by apply inner_tag.
  - cbn [app chain_bytes]. rewrite !zlen_app, !field_record_length. cbn [f_Value].
    assert (zlen (encodeUTF16LE key) = 2 * zlen (runes key)) as ->.
    { unfold encodeUTF16LE, zlen. rewrite length_units_bytes, length_map. lia. }
    unfold field_header_bytes. cbn [f_Tag f_Value].
    assert (forall k u, zlen (be_split k u) = Z.of_nat k) as Hl by (intros; unfold zlen; by rewrite length_be_split).
    unfold DefaultMaxFieldChainLength, DefaultMaxTextByteLength in *.
    destruct (_ <=? CompactLengthMax); destruct (_ <=? CompactLengthMax); rewrite ?zlen_app, !Hl;
      change (zlen (@nil byte)) with 0; lia.
Qed.

(** How a call of the input fails: no handler, an exception, or another error. *)
Inductive fails (d : Dispatcher) (input : CutFunctionRequestInput) (k : bytes) : bytes -> Prop :=
| fails_unknown : d_handlers d (FunctionName input) = None -> fails d input k UnknownFunctionKey
| fails_raised h key : d_handlers d (FunctionName input) = Some h -> h (request_of input k) = Raised key -> key <> [] ->
    fails d input k key
| fails_other h : d_handlers d (FunctionName input) = Some h -> h (request_of input k) = Failed ->
    fails d input k SystemFailureKey
| fails_blank h : d_handlers d (FunctionName input) = Some h -> h (request_of input k) = Raised [] ->
    fails d input k SystemFailureKey.

Lemma dispatch_answers d input p h resp q :
  EncodeCutFunctionRequest input = Ok p -> readable input -> d_handlers d (FunctionName input) = Some h ->
  (forall k, kernel_release (KernelRelease input) = Ok k -> h (request_of input k) = Returned resp) ->
  EncodeCutFunctionResponse (rs_Exports resp) (rs_Tables resp) (rs_XrfcParameters resp) = Ok q ->
  readable_answer (rs_Exports resp) (rs_Tables resp) ->
  Dispatch d p = Ok q /\
  exists dec xps, DecodeFunctionResultFields q = Ok dec /\ rf_Success dec = true /\
    map xp_Value xps = map nv_Value (rs_XrfcParameters resp) /\
    decodeResult (rf_Fields dec)
    = Ok (mkResult [] (map (fun e => mkScalar (nv_Name e) (nv_Value e)) (rs_Exports resp)) (map client_table (rs_Tables resp)) xps).
Proof.
  intros He Hr Hh Hres Hq Ha. destruct (server_reads input p He Hr) as (k & Hk & Hd & _). split.
  - unfold Dispatch. rewrite Hd. cbn [mbind outcome_bind request_of r_FunctionName]. rewrite Hh.
    change (mkRequest _ _ _ _ _ _ _ _ _ _) with (request_of input k). by rewrite (Hres k Hk).
  - destruct (client_reads _ _ _ _ Hq Ha) as (dec & xps & H1 & H2 & _ & H3 & H4). by exists dec, xps.
Qed.

(** A call encoded by the client and given to the server's dispatcher runs the handler
    registered under the function name on the request the client built, and the answer the
    dispatcher returns decodes on the client to exactly the exports, tables and xRFC
    documents the handler returned. *)
Theorem dispatched_call d input p h resp q :
  EncodeCutFunctionRequest input = Ok p -> readable input -> d_handlers d (FunctionName input) = Some h ->
  (forall k, kernel_release (KernelRelease input) = Ok k -> h (request_of input k) = Returned resp) ->
  EncodeCutFunctionResponse (rs_Exports resp) (rs_Tables resp) (rs_XrfcParameters resp) = Ok q ->
  readable_answer (rs_Exports resp) (rs_Tables resp) ->
  Dispatch d p = Ok q /\
  exists dec xps, DecodeFunctionResultFields q = Ok dec /\ rf_Success dec = true /\
    map xp_Value xps = map nv_Value (rs_XrfcParameters resp) /\
    decodeResult (rf_Fields dec)
    = Ok (mkResult [] (map (fun e => mkScalar (nv_Name e) (nv_Value e)) (rs_Exports resp)) (map client_table (rs_Tables resp)) xps).
Proof. apply dispatch_answers. Qed.

(** A call to a function that has no handler, or whose handler raises an exception or fails,
    is answered with an exception response from which the client reads the key of that
    failure. *)
Theorem dispatched_failure d input p k key :
  EncodeCutFunctionRequest input = Ok p -> readable input -> kernel_release (KernelRelease input) = Ok k ->
  fails d input k key -> exception_key key ->
  exists q dec, Dispatch d p = Ok q /\ DecodeFunctionResponse q = Ok dec /\
    fn_Outcome dec = OutcomeAbapException /\ fn_ExceptionKey dec = trim_right_spaces key.
Proof.
  intros He Hr Hk Hf Hx. destruct (server_reads input p He Hr) as (k' & Hk' & Hd & _). rewrite Hk in Hk'. apply Ok_inj in Hk' as <-.
  destruct (exception_encoded key Hx) as [q Hq]. destruct (exception_read key q Hq Hx) as (dec & H1 & _ & H2 & _ & H3).
  exists q, dec. split_and!; [|done..]. unfold Dispatch. rewrite Hd. cbn [mbind outcome_bind request_of r_FunctionName].
  change (mkRequest _ _ _ _ _ _ _ _ _ _) with (request_of input k).
  destruct Hf as [Hn|h key Hh E Hne|h Hh E|h Hh E]; rewrite ?Hn, ?Hh, ?E; [done| |done|done].
  cbn [error_key]. by rewrite bool_decide_eq_false_2.
Qed.

(** ** The records of an answer *)
Lemma length_go_copy dst at_ src : 0 <= at_ <= zlen dst -> length (go_copy dst at_ src) = length dst.
Proof. intros H. unfold go_copy. rewrite !length_app, !length_take, length_drop. unfold zlen in H. lia. Qed.

Lemma lookup_go_copy dst at_ src i : 0 <= at_ <= zlen dst -> Z.of_nat i < at_ -> go_copy dst at_ src !! i = dst !! i.
Proof.
  intros H Hi. unfold go_copy. unfold zlen in H. rewrite lookup_app_l by (rewrite length_take; lia). apply lookup_take_lt. lia.
Qed.

(** Writing into a header keeps its length, and what lies in front of the place. *)
Definition header_like (final : bool) (h : bytes) : Prop :=
  length h = 80%nat /\ h !! 30%nat = Some (if final then x05 else x01).

Lemma header_copy final h at_ src : 30 < at_ <= 80 -> header_like final h -> header_like final (go_copy h at_ src).
Proof.
  intros Ha [H1 H2]. assert (0 <= at_ <= zlen h) as Hz by (unfold zlen; lia). split; [by rewrite length_go_copy|].
  rewrite lookup_go_copy; [done|done|lia].
Qed.

Lemma put_length n h at_ v : length h = 80%nat -> 0 <= at_ <= 80 -> length (put_be n h at_ v) = 80%nat.
Proof. intros H Ha. unfold put_be. rewrite length_go_copy; [done|]. unfold zlen. lia. Qed.

Lemma insert_length_80 i b (h : bytes) : length h = 80%nat -> length (<[i := b]> h) = 80%nat.
Proof. intros H. by rewrite length_insert. Qed.

Lemma answer_header_ok data convID uid fn final cc : header_like final (record_header data convID uid fn final cc).
Proof.
  unfold record_header. cbv zeta. set (h1 := put_be 4 (<[21%nat:=x02]> _) 22 1).
  assert (length h1 = 80%nat) as H1.
  { unfold h1. repeat first [apply put_length; [|lia] | apply insert_length_80]. reflexivity. }
  clearbody h1.
  set (h2 := if final then _ else _). assert (header_like final h2) as H2.
  { unfold h2. destruct final; (split; [by rewrite !length_insert, ?put_length|]);
      rewrite list_lookup_insert_ne by lia; apply list_lookup_insert_eq; rewrite ?put_length by (done || lia); lia. }
  clearbody h2. set (h3 := go_copy _ 68 _). assert (header_like final h3) as H3.
  { unfold h3, put_be. repeat (apply header_copy; [lia|]). done. }
  destruct (zlen cc =? 4); [apply header_copy; [lia|done]|done].
Qed.

Lemma answer_parts data convID uid fn final cc :
  drop appcHeaderLen (buildEclipseRecord data convID uid fn final cc) = data /\
  buildEclipseRecord data convID uid fn final cc !! 30%nat = Some (if final then x05 else x01).
Proof.
  destruct (answer_header_ok data convID uid fn final cc) as [H1 H2]. unfold buildEclipseRecord, appcHeaderLen. split.
  - by rewrite (drop_app_length' _ _ 80).
  - rewrite lookup_app_l by lia. done.
Qed.

(** The pieces of a message: all of the given size but the last, which is not empty. *)
Lemma slices_ok size fuel v :
  (0 < size)%nat -> (length v <= fuel)%nat ->
  concat (slices fuel size v) = v /\
  (v = [] \/ exists front last_, slices fuel size v = front ++ [last_] /\ Forall (fun p => length p = size) front /\
     (0 < length last_ <= size)%nat).
Proof.
  intros Hs. revert v. induction fuel as [|fuel IH]; intros v Hf; [destruct v; [by split; [|left]|cbn in Hf; lia]|].
  destruct (decide (v = [])) as [->|Hv]; [by split; [|left]|].
  assert (slices (S fuel) size v = take size v :: slices fuel size (drop size v)) as -> by by destruct v.
  assert (0 < length v)%nat as Hlv by (destruct v; [done|cbn; lia]).
  assert (length (drop size v) <= fuel)%nat as Hd by (rewrite length_drop; lia). destruct (IH (drop size v) Hd) as [Hc Hp].
  split; [cbn [concat]; by rewrite Hc, take_drop|]. right.
  destruct Hp as [E|(front & last_ & E & Hfr & Hl)].
  - exists [], (take size v). rewrite E. destruct fuel; (split; [done|]); (split; [constructor|]); rewrite length_take; lia.
  - exists (take size v :: front), last_. split; [by rewrite E|]. split; [|done]. constructor; [|done].
    rewrite length_take. assert (drop size v <> []) as Hne.
    { intros E'. rewrite E' in E. destruct fuel; cbn in E; by destruct front. }
    assert (length (drop size v) <> 0)%nat as Hl0 by (intros Hl0; apply Hne; by apply length_zero_iff_nil).
    rewrite length_drop in Hl0. lia.
Qed.

Lemma top_up_ok pieces front last_ :
  pieces = front ++ [last_] -> front <> [] -> Forall (fun p => length p = Z.to_nat maxRecordData) front ->
  (0 < length last_ <= Z.to_nat maxRecordData)%nat ->
  concat (top_up pieces) = concat pieces /\
  exists front' last', top_up pieces = front' ++ [last'] /\ Forall (fun p => zlen p <= maxRecordData) (top_up pieces) /\ 8 <= zlen last'.
Proof.
  intros -> Hne Hf Hl. assert (Z.to_nat maxRecordData = Z.to_nat 28000) as Em by done.
  destruct (exists_last Hne) as (fr & prev & ->). apply Forall_app in Hf as [Hf Hp].
  rewrite Forall_singleton in Hp. unfold top_up. rewrite !rev_app_distr. cbn [rev app].
  assert (Forall (fun p => zlen p <= maxRecordData) fr) as Hfr.
  { eapply Forall_impl; [exact Hf|]. intros p E. cbn in E. unfold zlen. rewrite E. unfold maxRecordData. lia. }
  destruct (Z.ltb_spec (zlen last_) 8) as [Hs|Hs].
  - rewrite rev_involutive. set (k := (length prev - (8 - length last_))%nat). unfold zlen in Hs. split.
    + rewrite !concat_app. cbn [concat]. rewrite !app_nil_r, <- !app_assoc, (app_assoc (take k prev)), take_drop. done.
    + exists (fr ++ [take k prev]), (drop k prev ++ last_). split; [by rewrite <- app_assoc|]. split.
      * apply Forall_app. split; [done|]. repeat apply Forall_cons_2; [| |apply Forall_nil_2];
          unfold zlen, maxRecordData in *; rewrite ?length_app, ?length_take, ?length_drop; unfold k; lia.
      * unfold zlen, maxRecordData in *. rewrite length_app, length_drop. unfold k. lia.
  - rewrite <- app_assoc. split; [done|]. exists (fr ++ [prev]), last_. split; [by rewrite <- app_assoc|]. split; [|done].
    apply Forall_app. split; [done|]. repeat apply Forall_cons_2; [| |apply Forall_nil_2]; unfold zlen, maxRecordData in *; lia.
Qed.

(** The flags of the records: continued, and at the end final. *)
Lemma numbered first pieces convID uid cc :
  map (drop appcHeaderLen) (number_records first pieces convID uid cc) = pieces /\
  map (lookup 30%nat) (number_records first pieces convID uid cc)
  = match pieces with [] => [] | _ => replicate (length pieces - 1) (Some x01) ++ [Some x05] end.
Proof.
  revert first. induction pieces as [|p pieces IH]; intros first; [done|]. cbn [number_records map].
  destruct (IH false) as [-> E2]. rewrite E2. destruct (answer_parts p convID uid (if first then appcFSapSend else appcFReceive)
    match pieces with [] => true | _ => false end cc) as [-> ->].
  split; [done|]. destruct pieces as [|q pieces]; [done|]. cbn [length]. by rewrite !Nat.sub_succ, !Nat.sub_0_r.
Qed.

(** The records an answer is cut into carry exactly its bytes, each at most the record
    limit, only the last one is marked final, and it holds at least eight bytes when the
    answer has as many. *)
Theorem answer_records cut convID uid cc :
  let records := eclipseRecords cut convID uid cc in
  concat (map (drop appcHeaderLen) records) = cut /\
  Forall (fun r => zlen (drop appcHeaderLen r) <= maxRecordData) records /\
  map (lookup 30%nat) records = replicate (length records - 1) (Some x01) ++ [Some x05] /\
  (8 <= zlen cut -> exists r, last records = Some r /\ 8 <= zlen (drop appcHeaderLen r)).
Proof.
  cbv zeta. unfold eclipseRecords. destruct (Z.leb_spec (zlen cut) maxRecordData) as [Hs|Hl].
  - destruct (answer_parts cut convID uid appcFSapSend true cc) as [E1 E2]. cbn [map concat length Nat.sub replicate app].
    rewrite E1, E2, app_nil_r. split_and!; [done|by apply Forall_singleton; rewrite E1|done|]. intros H8.
    eexists. split; [reflexivity|]. by rewrite E1.
  - destruct (slices_ok (Z.to_nat maxRecordData) (length cut) cut ltac:(unfold maxRecordData; lia) ltac:(lia)) as [Hc Hp].
    destruct Hp as [->|(front & last_ & Ep & Hf & Hlast)]; [by vm_compute in Hl|].
    assert (front <> []) as Hne.
    { intros ->. rewrite Ep in Hc. cbn in Hc. rewrite app_nil_r in Hc. subst last_. unfold zlen, maxRecordData in *. lia. }
    destruct (top_up_ok _ front last_ Ep Hne Hf Hlast) as (Hcc & front' & last' & Et & Hall & H8). rewrite Hc in Hcc.
    set (pieces := top_up _) in *. destruct (numbered true pieces convID uid cc) as [N1 N2].
    assert (length (number_records true pieces convID uid cc) = length pieces) as Hlen by (rewrite <- N1 at 2; by rewrite length_map).
    rewrite N1, N2, Hlen. split_and!; [done| |by rewrite Et; destruct front'|].
    + assert (Forall (fun p => zlen p <= maxRecordData) (map (drop appcHeaderLen) (number_records true pieces convID uid cc))) as Hm
        by by rewrite N1.
      clear -Hm. induction (number_records _ _ _ _ _) as [|r rs IH]; [constructor|]. cbn [map] in Hm.
      apply Forall_cons in Hm as [? ?]. constructor; auto.
    + intros _. rewrite Et in N1 at 2. destruct (number_records true pieces convID uid cc) as [|r0 rs]; [by destruct front'|].
      destruct (exists_last (l := r0 :: rs)) as (init & r & Einit); [done|]. rewrite Einit in N1 |- *. exists r.
      split; [apply last_snoc|]. rewrite map_app in N1. apply app_inj_tail in N1 as [_ ->]. done.
Qed.

(** ** A compact parameter *)
(** The document of the compact fields of an answer, put together and inflated. *)
Definition compact_payload (fs : list Field) : bytes := concat (map f_Value (filter (fun f => f_Tag f = tagCompactResponse) fs)).

Lemma payload_slices vs : compact_payload (map (mkField tagCompactResponse) vs) = concat vs.
Proof.
  unfold compact_payload. induction vs as [|v vs IH]; [done|]. cbn [map]. rewrite filter_cons_True by done. cbn [map concat]. by rewrite IH.
Qed.

(** For any compressor that the inflater inverts, the compact export fields are within the
    chunk length and their payload inflates to the document. *)
Theorem compact_roundtrip deflate_bytes doc :
  (forall d, inflate (deflate_bytes d) = Ok d) ->
  inflate (compact_payload (compact_fields deflate_bytes (Some doc))) = Ok doc /\
  Forall (fun f => zlen (f_Value f) <= compactChunkLength) (compact_fields deflate_bytes (Some doc)).
Proof.
  intros Hd. unfold compact_fields. set (v := deflate_bytes doc).
  destruct (slices_ok (Z.to_nat compactChunkLength) (length v) v ltac:(unfold compactChunkLength; lia) ltac:(lia)) as [Hc Hp]. split.
  - assert (compact_payload ([mkField tagCompactFlag [x01; x01]] ++ map (mkField tagCompactResponse) (slices (length v) (Z.to_nat compactChunkLength) v)
      ++ [mkField tagCompactEnd []]) = v) as ->; [|apply Hd].
    unfold compact_payload. rewrite !filter_app, !map_app, !concat_app. fold (compact_payload (map (mkField tagCompactResponse) (slices (length v) (Z.to_nat compactChunkLength) v))).
    rewrite payload_slices, Hc. cbn. by rewrite app_nil_r.
  - apply Forall_app. split; [apply Forall_singleton; by vm_compute|]. apply Forall_app. split; [|apply Forall_singleton; by vm_compute].
    apply Forall_map. destruct Hp as [->|(front & last_ & -> & Hf & Hl)]; [constructor|]. apply Forall_app. split.
    + eapply Forall_impl; [exact Hf|]. intros p E. cbn in *. unfold zlen, compactChunkLength in *. lia.
    + apply Forall_singleton. cbn. unfold zlen, compactChunkLength in *. lia.
Qed.

(** ** Instances *)
Definition sample_exports : list NamedValue := [mkNamedValue (lit "ECHOTEXT") [x68; x00]].
Definition sample_tables : list STable := [mkSTable (lit "ROWS") 2 [[x01; x02]] []].
Definition sample_response : Response :=
  mkResponse sample_exports sample_tables [mkNamedValue (lit "X") (lit "<X></X>")] None [] None.

Lemma sample_answer : readable_answer sample_exports sample_tables.
Proof.
  split.
  - apply Forall_singleton. apply ascii_param_name; [discriminate|reflexivity|discriminate].
  - apply Forall_singleton. split; [apply ascii_param_name; [discriminate|reflexivity|discriminate]|by vm_compute|by right|by vm_compute].
  - apply (bool_decide_unpack _). vm_compute. reflexivity.
Defined.

Lemma client_reads_answer_witness :
  exists p d r, EncodeCutFunctionResponse sample_exports sample_tables [] = Ok p /\ DecodeFunctionResultFields p = Ok d /\
    decodeResult (rf_Fields d) = Ok r /\ res_Scalars r = [mkScalar (lit "ECHOTEXT") [x68; x00]].
Proof.
  destruct (EncodeCutFunctionResponse sample_exports sample_tables []) as [p| |] eqn:E; [|vm_compute in E; discriminate..].
  destruct (client_reads_answer _ _ _ _ E sample_answer) as (d & xps & H1 & _ & _ & _ & H2).
  exists p, d. eexists. split; [reflexivity|]. split; [exact H1|]. split; [exact H2|reflexivity].
Defined.

Lemma raised_key : exception_key (lit "NOT_FOUND").
Proof.
  split; [vm_compute; reflexivity| |vm_compute; discriminate|vm_compute; discriminate].
  vm_compute (runes _). repeat apply Forall_cons_2; try apply Forall_nil_2; lia.
Defined.

Lemma client_reads_exception_witness :
  exists p d, EncodeCutFunctionExceptionResponse (lit "NOT_FOUND") = Ok p /\ DecodeFunctionResponse p = Ok d /\
    fn_ExceptionKey d = lit "NOT_FOUND".
Proof.
  destruct (EncodeCutFunctionExceptionResponse (lit "NOT_FOUND")) as [p| |] eqn:E; [|vm_compute in E; discriminate..].
  destruct (client_reads_exception _ _ E raised_key) as (d & H1 & _ & _ & _ & H2).
  exists p, d. split; [reflexivity|]. split; [exact H1|]. rewrite H2. reflexivity.
Defined.

(** A server with one function, which answers, and raises for another name of its parameter. *)
Definition sample_dispatcher : Dispatcher := Handle NewDispatcher (lit "STFC_CONNECTION") (fun _ => Returned sample_response).

Lemma dispatched_call_witness :
  exists p q, EncodeCutFunctionRequest sample_request = Ok p /\ Dispatch sample_dispatcher p = Ok q.
Proof.
  destruct (EncodeCutFunctionRequest sample_request) as [p| |] eqn:E; [|vm_compute in E; discriminate..].
  destruct (EncodeCutFunctionResponse (rs_Exports sample_response) (rs_Tables sample_response) (rs_XrfcParameters sample_response))
    as [q| |] eqn:Eq; [|vm_compute in Eq; discriminate..].
  exists p, q. split; [reflexivity|].
  apply (dispatched_call sample_dispatcher sample_request p (fun _ => Returned sample_response) sample_response q E sample_readable).
  - reflexivity.
  - reflexivity.
  - exact Eq.
  - exact sample_answer.
Defined.

Lemma dispatched_failure_witness :
  exists p q dec, EncodeCutFunctionRequest sample_request = Ok p /\ Dispatch NewDispatcher p = Ok q /\
    DecodeFunctionResponse q = Ok dec /\ fn_ExceptionKey dec = UnknownFunctionKey.
Proof.
  destruct (EncodeCutFunctionRequest sample_request) as [p| |] eqn:E; [|vm_compute in E; discriminate..].
  destruct (dispatched_failure NewDispatcher sample_request p (lit "754") UnknownFunctionKey E sample_readable) as (q & dec & H1 & H2 & _ & H3).
  - vm_compute. reflexivity.
  - apply fails_unknown. reflexivity.
  - split; [vm_compute; reflexivity| |vm_compute; discriminate|vm_compute; discriminate].
    vm_compute (runes _). repeat apply Forall_cons_2; try apply Forall_nil_2; lia.
  - exists p, q, dec. split; [reflexivity|]. split; [exact H1|]. split; [exact H2|]. rewrite H3. reflexivity.
Defined.

(** The compressor that stores. *)
Lemma compact_roundtrip_witness :
  inflate (compact_payload (compact_fields (fun d => stored_stream (slices (length d) (Z.to_nat 65535) d)) (Some (lit "<doc/>"))))
  = Ok (lit "<doc/>").
Proof.
  apply (compact_roundtrip (fun d => stored_stream (slices (length d) (Z.to_nat 65535) d)) (lit "<doc/>")).
  intros d. destruct (slices_ok (Z.to_nat 65535) (length d) d ltac:(lia) ltac:(lia)) as [Hc Hp]. rewrite inflate_stored; [by rewrite Hc|].
  destruct Hp as [->|(front & last_ & -> & Hf & Hl)]; [constructor|]. apply Forall_app. split.
  - eapply Forall_impl; [exact Hf|]. intros p E. cbn in E. unfold zlen. lia.
  - apply Forall_singleton. unfold zlen. lia.
Defined.
