(* ===== verification/Metadata.v ===== *)
(** Package [metadata], the decoders of the two classic metadata calls:
    internal/metadata/structure_definition.go (RFC_GET_STRUCTURE_DEFINITION) and
    internal/metadata/function_interface.go (RFC_GET_FUNCTION_INTERFACE).

    The closures [readChar] and [readInt] of [DecodeRfcFieldsRow] keep the first error of the
    row and do nothing afterwards: they are a sequence of reads in the error monad.

    The theorems: a row is read from its stable prefix; what is accepted as a structure
    definition satisfies the checks of package [structure], so the codec accepts it; the
    codec panics on rows of an accepted definition when a field ends beyond the largest
    int32, and on none when no field does; a function interface
    holds the rows of its table, parameters and exceptions apart, in order. *)
From stdpp Require Import base list numbers strings gmap.
From Stdlib Require Import ZArith Lia Strings.Byte.
From S2P Require Import Prelude Errors Text UnicodeScalar Wire Rfcerr Cpic CpicFunction ClassicRfc Structure ServerRequest ServerResponse.

Open Scope Z_scope.

Abbreviation FunintParameter := ClassicRfc.FunintParameter.

Definition errStructureDefinition : error := EMetadata ErrStructureDefinition.
Definition errFunctionInterface : error := EMetadata ErrFunctionInterface.

(** ** RFC_GET_STRUCTURE_DEFINITION *)
Definition RfcFieldsUnicodeRowLength : Z := 138.
Definition maxRfcStructureFields : Z := 20000.

Definition BuildRfcGetStructureDefinitionRequest (structureName : bytes) : res bytes :=
  tabname ← EncodeAbapChar structureName 30;
  EncodeCutFunctionRequest
    (mkCutFunctionRequestInput (lit "RFC_GET_STRUCTURE_DEFINITION") [lit "TABLENGTH"; lit "FIELDS"]
       [mkNamedValue (lit "TABNAME") tabname] [] [] [] None).

Definition readChar (n chars : Z) : M Reader.t bytes :=
  b ← Reader.ReadBytes n "field"; lift (DecodeAbapChar b (Some chars)).
Definition readInt : M Reader.t Z := Reader.ReadInt32LE "field".

Definition read_fields_row : M Reader.t RfcStructureField :=
  tableName ← readChar 60 30;
  fieldName ← readChar 60 30;
  position ← readInt;
  offset ← readInt;
  internalLength ← readInt;
  decimals ← readInt;
  exid ← readChar 2 1;
  mret (mkSField tableName fieldName position offset internalLength decimals exid).

Definition DecodeRfcFieldsRow (value : bytes) : res RfcStructureField :=
  if zlen value <? RfcFieldsUnicodeRowLength then Err errStructureDefinition
  else
    prefix ← go_slice value 0 RfcFieldsUnicodeRowLength;
    field ← run read_fields_row (Reader.NewReader prefix "RFC_FIELDS row");
    if bool_decide (Structure.TableName field = []) || bool_decide (Structure.FieldName field = []) then Err errStructureDefinition
    else if (Structure.Position field <? 1) || (Structure.Offset field <? 0) || (Structure.InternalLength field <? 0) || (Structure.Decimals field <? 0)
    then Err errStructureDefinition
    else Ok field.

(** The check of the announced number of rows, before anything is decoded. *)
Fixpoint check_row_counts (fields : list Cpic.Field) : res unit :=
  match fields with
  | [] => Ok tt
  | f :: rest =>
      (if negb (f_Tag f =? TagTableName) then Ok tt
       else
         match DecodeAbapChar (f_Value f) None with
         | Ok name =>
             if negb (bytes_eqb name (lit "FIELDS")) then Ok tt
             else
               match rest with
               | h :: _ =>
                   if negb (f_Tag h =? TagTableHeader) then Ok tt
                   else
                     header ← DecodeRfcTableHeader (f_Value h);
                     guard (maxRfcStructureFields <? RowCount header) errStructureDefinition
               | [] => Ok tt
               end
         | Err _ => Ok tt
         | Panic => Panic
         end);;
      check_row_counts rest
  end.

Fixpoint requiredStructScalar (scalars : list Scalar) (name : bytes) : res bytes :=
  match scalars with
  | [] => Err errStructureDefinition
  | s :: scalars => if bytes_eqb (sc_Name s) name then Ok (sc_Value s) else requiredStructScalar scalars name
  end.

(** The last table of that name. *)
Definition table_named (tables : list RTable) (name : bytes) : option RTable :=
  last (filter (fun t => rt_Name t = name) tables).

Fixpoint definition_rows (structureName : bytes) (byteLength : Z) (rows : list bytes) (index : Z) (names : gset bytes) (previousEnd : Z)
    : res (list RfcStructureField) :=
  match rows with
  | [] => Ok []
  | row :: rows =>
      f ← DecodeRfcFieldsRow row;
      let field := mkSField (Structure.TableName f) (Structure.FieldName f) (int32 (index + 1)) (Structure.Offset f)
                     (Structure.InternalLength f) (Structure.Decimals f) (Structure.Exid f) in
      if negb (bytes_eqb (Structure.TableName field) structureName) then Err errStructureDefinition
      else if bool_decide (Structure.FieldName field ∈ names) then Err errStructureDefinition
      else if Structure.Offset field <? previousEnd then Err errStructureDefinition
      else
        let end_ := int32 (Structure.Offset field + Structure.InternalLength field) in
        if byteLength <? end_ then Err errStructureDefinition
        else
          fields ← definition_rows structureName byteLength rows (index + 1) ({[Structure.FieldName field]} ∪ names) end_;
          Ok (field :: fields)
  end.

Definition DecodeRfcStructureDefinitionResult (structureName : bytes) (fields : list Cpic.Field) : res RfcStructureDefinition :=
  check_row_counts fields;;
  result ← decodeResult fields;
  lengthValue ← requiredStructScalar (res_Scalars result) (lit "TABLENGTH");
  if negb (zlen lengthValue =? 4) then Err errStructureDefinition
  else
    u ← le_uint 4 lengthValue;
    let byteLength := int32 u in
    if byteLength <? 0 then Err errStructureDefinition
    else
      match table_named (res_Tables result) (lit "FIELDS") with
      | None => Err errStructureDefinition
      | Some fieldTable =>
          if rt_RowByteLength fieldTable <? RfcFieldsUnicodeRowLength then Err errStructureDefinition
          else
            decoded ← definition_rows structureName byteLength (rt_Rows fieldTable) 0 ∅ 0;
            Ok (mkSDef structureName byteLength decoded)
      end.

(** The first row that belongs to another structure names it. *)
Fixpoint foreign_row (queried : bytes) (rows : list bytes) : res bytes :=
  match rows with
  | [] => Ok []
  | row :: rows =>
      f ← DecodeRfcFieldsRow row;
      if negb (bool_decide (Structure.TableName f = [])) && negb (bytes_eqb (Structure.TableName f) queried) then Ok (Structure.TableName f)
      else foreign_row queried rows
  end.

Fixpoint foreign_table (queried : bytes) (tables : list RTable) : res bytes :=
  match tables with
  | [] => Ok []
  | t :: tables =>
      if negb (bytes_eqb (rt_Name t) (lit "FIELDS")) then foreign_table queried tables
      else
        name ← foreign_row queried (rt_Rows t);
        if bool_decide (name = []) then foreign_table queried tables else Ok name
  end.

Definition RowStructureName (queried : bytes) (fields : list Cpic.Field) : res bytes :=
  result ← decodeResult fields; foreign_table queried (res_Tables result).

(** ** RFC_GET_FUNCTION_INTERFACE *)
Definition functionInterfaceOutputs : list bytes :=
  [lit "REMOTE_BASXML_SUPPORTED"; lit "REMOTE_CALL"; lit "UPDATE_TASK"; lit "PARAMS"; lit "RESUMABLE_EXCEPTIONS"].

Record RfcFunctionInterface : Type := mkFunctionInterface {
  fi_Name : bytes;
  RemoteBasxmlSupported : bool;
  RemoteCall : bytes;
  UpdateTask : bool;
  Parameters : list FunintParameter;
  Exceptions : list bytes;
  ResumableExceptionRowCount : Z }.

Definition BuildRfcGetFunctionInterfaceRequest (functionName : bytes) : res bytes :=
  funcname ← EncodeAbapChar functionName 30;
  x ← EncodeAbapChar (lit "X") 1;
  EncodeCutFunctionRequest
    (mkCutFunctionRequestInput (lit "RFC_GET_FUNCTION_INTERFACE") functionInterfaceOutputs
       [mkNamedValue (lit "FUNCNAME") funcname; mkNamedValue (lit "NONE_UNICODE_LENGTH") x] [] [] [] None).

Fixpoint requiredScalar (scalars : list Scalar) (name : bytes) : res bytes :=
  match scalars with
  | [] => Err errFunctionInterface
  | s :: scalars => if bytes_eqb (sc_Name s) name then Ok (sc_Value s) else requiredScalar scalars name
  end.

Definition decodeFlag (value : bytes) : res bool :=
  decoded ← DecodeAbapChar value (Some 1);
  if negb (bool_decide (decoded = [])) && negb (bytes_eqb decoded (lit "X")) then Err errFunctionInterface
  else Ok (bytes_eqb decoded (lit "X")).

Fixpoint interface_rows (rows : list bytes) (parameters : list FunintParameter) (exceptions : list bytes)
    : res (list FunintParameter * list bytes) :=
  match rows with
  | [] => Ok (parameters, exceptions)
  | row :: rows =>
      p ← DecodeFunintRow row;
      if bytes_eqb (ParameterClass p) (lit "X") then interface_rows rows parameters (exceptions ++ [ParameterName p])
      else interface_rows rows (parameters ++ [p]) exceptions
  end.

Definition DecodeRfcFunctionInterfaceResult (functionName : bytes) (fields : list Cpic.Field) : res RfcFunctionInterface :=
  result ← decodeResult fields;
  match table_named (res_Tables result) (lit "PARAMS") with
  | None => Err errFunctionInterface
  | Some params =>
      if rt_RowByteLength params <? RfcFunintUnicodeRowLength then Err errFunctionInterface
      else
        match table_named (res_Tables result) (lit "RESUMABLE_EXCEPTIONS") with
        | None => Err errFunctionInterface
        | Some resumable =>
            pe ← interface_rows (rt_Rows params) [] [];
            let '(parameters, exceptions) := pe in
            basxml ← requiredScalar (res_Scalars result) (lit "REMOTE_BASXML_SUPPORTED");
            remoteBasxml ← decodeFlag basxml;
            remoteCallVal ← requiredScalar (res_Scalars result) (lit "REMOTE_CALL");
            remoteCall ← DecodeAbapChar remoteCallVal (Some 1);
            updateTaskVal ← requiredScalar (res_Scalars result) (lit "UPDATE_TASK");
            updateTask ← decodeFlag updateTaskVal;
            Ok (mkFunctionInterface functionName remoteBasxml remoteCall updateTask parameters exceptions (zlen (rt_Rows resumable)))
        end
  end.

(** ** Rows *)

(** The columns of the stable prefix of a row. *)
Record row_columns (prefix t1 t2 i1 i2 i3 i4 x : bytes) : Prop := {
  rc_prefix : prefix = t1 ++ t2 ++ i1 ++ i2 ++ i3 ++ i4 ++ x;
  rc_names : zlen t1 = 60 /\ zlen t2 = 60 /\ zlen x = 2;
  rc_ints : length i1 = 4%nat /\ length i2 = 4%nat /\ length i3 = 4%nat /\ length i4 = 4%nat }.

Lemma row_cut prefix : zlen prefix = 138 -> exists t1 t2 i1 i2 i3 i4 x, row_columns prefix t1 t2 i1 i2 i3 i4 x.
Proof.
  intros H. unfold zlen in H. destruct (cut_prefix 60 prefix) as (t1 & r1 & -> & H1); [lia|]. rewrite length_app in H.
  destruct (cut_prefix 60 r1) as (t2 & r2 & -> & H2); [lia|]. rewrite length_app in H. destruct (cut_prefix 4 r2) as (i1 & r3 & -> & H3); [lia|].
  rewrite length_app in H. destruct (cut_prefix 4 r3) as (i2 & r4 & -> & H4); [lia|]. rewrite length_app in H.
  destruct (cut_prefix 4 r4) as (i3 & r5 & -> & H5); [lia|]. rewrite length_app in H. destruct (cut_prefix 4 r5) as (i4 & x & -> & H6); [lia|].
  rewrite length_app in H. exists t1, t2, i1, i2, i3, i4, x. split; [done|unfold zlen; lia|done].
Qed.

Lemma read_char_at ctx pre b rest n chars :
  zlen b = n -> readChar n chars (Reader.at_ ctx pre (b ++ rest))
  = match DecodeAbapChar b (Some chars) with
    | Ok s => (Ok s, Reader.at_ ctx (pre ++ b) rest)
    | Err e => (Err e, Reader.at_ ctx (pre ++ b) rest)
    | Panic => (Panic, Reader.at_ ctx (pre ++ b) rest)
    end.
Proof. intros H. unfold readChar. munfold. rewrite ReadBytes_at by done. by destruct (DecodeAbapChar b (Some chars)). Qed.

Lemma read_int_at ctx pre i rest :
  length i = 4%nat -> readInt (Reader.at_ ctx pre (i ++ rest)) = (Ok (int32 (le_combine i)), Reader.at_ ctx (pre ++ i) rest).
Proof. intros H. unfold readInt, Reader.ReadInt32LE. munfold. by rewrite ReadUint32LE_at. Qed.

(** The row that the columns spell. *)
Definition columns_field (t1 t2 i1 i2 i3 i4 x : bytes) : res RfcStructureField :=
  tn ← DecodeAbapChar t1 (Some 30); fn ← DecodeAbapChar t2 (Some 30); ex ← DecodeAbapChar x (Some 1);
  Ok (mkSField tn fn (int32 (le_combine i1)) (int32 (le_combine i2)) (int32 (le_combine i3)) (int32 (le_combine i4)) ex).

Lemma read_row prefix t1 t2 i1 i2 i3 i4 x :
  row_columns prefix t1 t2 i1 i2 i3 i4 x ->
  run read_fields_row (Reader.NewReader prefix "RFC_FIELDS row") = columns_field t1 t2 i1 i2 i3 i4 x.
Proof.
  intros [-> (H1 & H2 & H3) (K1 & K2 & K3 & K4)]. change (Reader.NewReader ?d ?c) with (Reader.at_ c [] d).
  unfold run, read_fields_row, columns_field. unfold mbind at 1, stm_bind at 1. rewrite read_char_at by done.
  destruct (DecodeAbapChar t1 (Some 30)) as [tn| |]; [rewrite ok_bind|done..].
  unfold mbind at 1, stm_bind at 1. rewrite read_char_at by done. destruct (DecodeAbapChar t2 (Some 30)) as [fn| |]; [rewrite ok_bind|done..].
  do 4 (unfold mbind at 1, stm_bind at 1; rewrite read_int_at by done). unfold mbind at 1, stm_bind at 1.
  rewrite <- (app_nil_r x) at 1. rewrite read_char_at by done. by destruct (DecodeAbapChar x (Some 1)).
Qed.

(** The checks of a row. *)
Definition row_checked (r : res RfcStructureField) : res RfcStructureField :=
  field ← r;
  if bool_decide (Structure.TableName field = []) || bool_decide (Structure.FieldName field = []) then Err errStructureDefinition
  else if (Structure.Position field <? 1) || (Structure.Offset field <? 0) || (Structure.InternalLength field <? 0) || (Structure.Decimals field <? 0)
  then Err errStructureDefinition
  else Ok field.

Lemma decode_row prefix more t1 t2 i1 i2 i3 i4 x :
  row_columns prefix t1 t2 i1 i2 i3 i4 x ->
  DecodeRfcFieldsRow (prefix ++ more) = row_checked (columns_field t1 t2 i1 i2 i3 i4 x).
Proof.
  intros H. pose proof (read_row _ _ _ _ _ _ _ _ H) as Hr. destruct H as [Hp (H1 & H2 & H3) (K1 & K2 & K3 & K4)].
  assert (zlen prefix = 138) as Hz by (rewrite Hp, !zlen_app; unfold zlen in *; lia). unfold DecodeRfcFieldsRow, RfcFieldsUnicodeRowLength.
  pose proof (zlen_nonneg more). rewrite (proj2 (Z.ltb_ge _ 138)) by (rewrite zlen_app; lia).
  rewrite (go_slice_mid [] prefix more) by (done || (rewrite Hz; done)). rewrite ok_bind, Hr. reflexivity.
Qed.

Lemma row_total v : total (DecodeRfcFieldsRow v).
Proof.
  destruct (Z.ltb_spec (zlen v) 138) as [Hs|Hl].
  { unfold DecodeRfcFieldsRow, RfcFieldsUnicodeRowLength. by rewrite (proj2 (Z.ltb_lt _ _) Hs). }
  destruct (cut_prefix 138 v) as (p & more & -> & Hp); [unfold zlen in Hl; lia|].
  destruct (row_cut p) as (t1 & t2 & i1 & i2 & i3 & i4 & x & Hc); [unfold zlen; lia|]. rewrite (decode_row _ _ _ _ _ _ _ _ _ Hc).
  unfold row_checked, columns_field. rewrite !bind_assoc. apply total_bind; [apply char_total|]. intros tn _. rewrite !bind_assoc.
  apply total_bind; [apply char_total|]. intros fn _. rewrite !bind_assoc. apply total_bind; [apply char_total|]. intros ex _. rewrite ok_bind.
  destruct (_ || _); [done|]. by destruct (_ || _).
Qed.

Lemma row_ok v f :
  DecodeRfcFieldsRow v = Ok f ->
  Structure.FieldName f <> [] /\ 0 <= Structure.Offset f /\ 0 <= Structure.InternalLength f /\ 0 <= Structure.Decimals f.
Proof.
  unfold DecodeRfcFieldsRow. destruct (_ <? _); [done|]. intros H. ok_step H as p Hp. ok_step H as g Hg.
  destruct (bool_decide (Structure.TableName g = [])); [done|]. cbn [orb] in H. case_bool_decide as Hn; [done|].
  destruct (_ <? 1); [done|]. cbn [orb] in H. destruct (Z.ltb_spec (Structure.Offset g) 0); [done|]. cbn [orb] in H.
  destruct (Z.ltb_spec (Structure.InternalLength g) 0); [done|]. cbn [orb] in H. destruct (Z.ltb_spec (Structure.Decimals g) 0); [done|].
  apply Ok_inj in H. by subst g.
Qed.

(** A row as a server writes it. *)
Definition fields_row (f : RfcStructureField) : res bytes :=
  t1 ← EncodeAbapChar (Structure.TableName f) 30;
  t2 ← EncodeAbapChar (Structure.FieldName f) 30;
  x ← EncodeAbapChar (Structure.Exid f) 1;
  Ok (t1 ++ t2 ++ le_split 4 (Structure.Position f) ++ le_split 4 (Structure.Offset f) ++ le_split 4 (Structure.InternalLength f)
        ++ le_split 4 (Structure.Decimals f) ++ x).

(** A field of a row: names and a type without trailing blanks, numbers in range. *)
Record row_field (f : RfcStructureField) : Prop := {
  rf_names : Structure.TableName f <> [] /\ Structure.FieldName f <> [];
  rf_blanks : Forall (fun s => last s <> Some x20) [Structure.TableName f; Structure.FieldName f; Structure.Exid f];
  rf_position : 1 <= Structure.Position f < 2 ^ 31;
  rf_numbers : Forall (fun n => 0 <= n < 2 ^ 31) [Structure.Offset f; Structure.InternalLength f; Structure.Decimals f] }.

Lemma le_int32 n : 0 <= n < 2 ^ 31 -> int32 (le_combine (le_split 4 n)) = n.
Proof. intros H. rewrite le_combine_split. change (256 ^ Z.of_nat 4) with (2 ^ 32). rewrite Z.mod_small by lia. apply int32_small. unfold is_i32. lia. Qed.

(** A row of RFC_FIELDS written by columns is read back as its field. *)
Theorem fields_row_read f row more :
  row_field f -> fields_row f = Ok row -> zlen row = RfcFieldsUnicodeRowLength /\ DecodeRfcFieldsRow (row ++ more) = Ok f.
Proof.
  intros [[N1 N2] Hb Hp Hn] H. unfold fields_row in H. ok_step H as t1 H1. ok_step H as t2 H2. ok_step H as x H3. apply Ok_inj in H. subst row.
  rewrite !Forall_cons in Hb. destruct Hb as (B1 & B2 & B3 & _). rewrite !Forall_cons in Hn. destruct Hn as (M1 & M2 & M3 & _).
  destruct (abap_char_read _ _ _ H1) as (Z1 & _ & R1 & _). destruct (abap_char_read _ _ _ H2) as (Z2 & _ & R2 & _). destruct (abap_char_read _ _ _ H3) as (Z3 & _ & R3 & _).
  split; [rewrite !zlen_app, !zlen_le_split; unfold RfcFieldsUnicodeRowLength; lia|].
  erewrite decode_row; [|split; [reflexivity|split_and!; [exact Z1|exact Z2|exact Z3]|rewrite !length_le_split; done]].
  unfold columns_field. rewrite (R1 B1), (R2 B2), (R3 B3), !ok_bind, !le_int32 by lia. unfold row_checked. rewrite ok_bind.
  cbn [Structure.TableName Structure.FieldName Structure.Position Structure.Offset Structure.InternalLength Structure.Decimals].
  rewrite !bool_decide_eq_false_2 by done. rewrite !(proj2 (Z.ltb_ge _ _)) by lia. cbn [orb]. by destruct f.
Qed.

(** ** Structure definitions *)
Lemma row_counts_total fields : total (check_row_counts fields).
Proof.
  induction fields as [|f rest IH]; [done|]. cbn [check_row_counts]. apply total_bind; [|intros _ _; exact IH].
  destruct (negb _); [done|]. pose proof (char_total (f_Value f) None) as [Hc _]. destruct (DecodeAbapChar (f_Value f) None) as [name|e|]; [|done|done].
  destruct (negb _); [done|]. destruct rest as [|h rest]; [done|]. destruct (negb _); [done|].
  apply total_bind; [apply header_total|]. intros hd _. unfold guard. by destruct (_ <? _).
Qed.

Lemma scalar_total scalars name : total (requiredStructScalar scalars name).
Proof. induction scalars as [|s l IH]; [done|]. cbn. by destruct (bytes_eqb _ _). Qed.

Lemma definition_rows_total n bl rows i names prev : total (definition_rows n bl rows i names prev).
Proof.
  revert i names prev. induction rows as [|r rows IH]; intros i names prev; [done|]. cbn [definition_rows]. apply total_bind; [apply row_total|].
  intros f _. cbv zeta. destruct (negb _); [done|]. case_bool_decide; [done|]. destruct (_ <? prev); [done|]. destruct (_ <? _); [done|].
  apply total_bind; [apply IH|]. intros; done.
Qed.

(** The decoder of a structure definition never panics on any list of fields. *)
Theorem structure_definition_total name fields : total (DecodeRfcStructureDefinitionResult name fields).
Proof.
  unfold DecodeRfcStructureDefinitionResult. apply total_bind; [apply row_counts_total|]. intros _ _.
  apply total_bind; [apply decode_result_total|]. intros result _. apply total_bind; [apply scalar_total|]. intros v _.
  destruct (Z.eqb_spec (zlen v) 4) as [Hv|]; [|done]. cbn [negb]. apply total_bind; [by apply le_uint_total|]. intros u _. cbv zeta.
  destruct (_ <? 0); [done|]. destruct (table_named _ _); [|done]. destruct (_ <? _); [done|].
  apply total_bind; [apply definition_rows_total|]. intros; done.
Qed.

(** The rows that the metadata accepts are the fields that the structure codec accepts. *)
Lemma rows_snapshot def rows i names prev fs :
  definition_rows (Structure.Name def) (Structure.ByteLength def) rows i names prev = Ok fs -> snapshot_fields def fs i names prev = Ok fs.
Proof.
  revert i names prev fs. induction rows as [|r rows IH]; intros i names prev fs H; cbn [definition_rows] in H.
  { apply Ok_inj in H. by subst fs. }
  ok_step H as f Hf. apply row_ok in Hf as (Hn & Ho & Hl & Hd). cbv zeta in H.
  set (g := mkSField _ _ _ _ _ _ _) in H. destruct (bytes_eqb (Structure.TableName g) (Structure.Name def)) eqn:Et; [|done]. cbn [negb] in H.
  case_bool_decide as Hin; [done|]. destruct (Z.ltb_spec (Structure.Offset g) prev); [done|].
  destruct (Z.ltb_spec (Structure.ByteLength def) (int32 (Structure.Offset g + Structure.InternalLength g))); [done|].
  ok_step H as rest Hr. apply Ok_inj in H. subst fs. cbn [snapshot_fields]. rewrite Et, (bool_decide_eq_false_2 _ Hin).
  assert (bytes_eqb (Structure.FieldName g) [] = false) as -> by (unfold bytes_eqb; by rewrite bool_decide_eq_false_2).
  cbn [Structure.Position g negb orb]. rewrite Z.eqb_refl. cbn [negb orb]. rewrite (proj2 (Z.ltb_ge (Structure.Offset g) prev)) by done.
  rewrite (proj2 (Z.ltb_ge (Structure.InternalLength g) 0)), (proj2 (Z.ltb_ge (Structure.Decimals g) 0)) by done. cbn [orb]. cbv zeta. unfold field_end.
  rewrite (proj2 (Z.ltb_ge _ _)) by done. rewrite (IH _ _ _ _ Hr), ok_bind. done.
Qed.

(** A definition that the metadata decoder accepts, named and within the codec's two size
    limits, is accepted unchanged by the structure codec's SnapshotDefinition: what one
    component produces meets the precondition of the other. *)
Theorem definition_fits_codec name fields def :
  DecodeRfcStructureDefinitionResult name fields = Ok def ->
  Structure.Name def = name /\
  (name <> [] -> Structure.ByteLength def <= maxClassicStructureByteLength -> zlen (Structure.Fields def) <= maxClassicStructureFields ->
   SnapshotDefinition def [] = Ok def).
Proof.
  unfold DecodeRfcStructureDefinitionResult. intros H. ok_step H as u Hu. ok_step H as result Hres. ok_step H as v Hv.
  destruct (negb _); [done|]. ok_step H as n Hn. cbv zeta in H. destruct (Z.ltb_spec (int32 n) 0) as [|Hbl]; [done|].
  destruct (table_named _ _) as [t|]; [|done]. destruct (_ <? _); [done|]. ok_step H as fs Hfs. apply Ok_inj in H. subst def. split; [done|].
  cbn [Structure.ByteLength Structure.Fields]. intros Hne Hmax Hcount. unfold SnapshotDefinition.
  cbn [Structure.Name Structure.ByteLength Structure.Fields]. rewrite bytes_eqb_refl. cbn [negb]. rewrite orb_false_r.
  assert (bytes_eqb name [] = false) as -> by (unfold bytes_eqb; by rewrite bool_decide_eq_false_2).
  rewrite (proj2 (Z.ltb_ge (int32 n) 0)), (proj2 (Z.ltb_ge _ (int32 n))), (proj2 (Z.ltb_ge _ (zlen fs))) by done.
  by rewrite (rows_snapshot (mkSDef name (int32 n) fs) _ _ _ _ _ Hfs), ok_bind.
Qed.

(** ** A response that makes the client panic *)

(** One field that ends beyond the range of [int32], in a structure of four bytes. *)
Definition hostile_row : bytes :=
  match fields_row (mkSField (lit "T") (lit "A") 1 (2 ^ 31 - 2) (2 ^ 31 - 2) 0 (lit "X")) with Ok r => r | _ => [] end.

Definition hostile_response : res bytes :=
  EncodeCutFunctionResponse [mkNamedValue (lit "TABLENGTH") (le_split 4 4)] [mkSTable (lit "FIELDS") 138 [hostile_row] []] [].

Lemma read_int_range r v r' : readInt r = (Ok v, r') -> - 2 ^ 31 <= v < 2 ^ 31.
Proof.
  unfold readInt, Reader.ReadInt32LE. intros H. apply bind_inv in H as (u & r1 & _ & H). injection H as <- _. apply int32_range.
Qed.

(** The columns of a row are 32-bit numbers. *)
Lemma row_numbers v f : DecodeRfcFieldsRow v = Ok f -> Structure.Offset f < 2 ^ 31 /\ Structure.InternalLength f < 2 ^ 31.
Proof.
  unfold DecodeRfcFieldsRow. destruct (_ <? _); [done|]. intros H. ok_step H as p Hp. ok_step H as g Hg.
  destruct (_ || _); [done|]. destruct (_ || _); [done|]. apply Ok_inj in H. subst g. unfold run in Hg.
  destruct (read_fields_row _) as [o r] eqn:E. cbn in Hg. subst o. unfold read_fields_row in E.
  do 3 (apply bind_inv in E as (? & ? & _ & E)). apply bind_inv in E as (off & ? & Ho%read_int_range & E).
  apply bind_inv in E as (len & ? & Hl%read_int_range & E). do 2 (apply bind_inv in E as (? & ? & _ & E)). injection E as <- _. cbn. lia.
Qed.

Lemma definition_numbers n bl rows i names prev fs :
  definition_rows n bl rows i names prev = Ok fs ->
  Forall (fun f => 0 <= Structure.InternalLength f /\ Structure.Offset f < 2 ^ 31 /\ Structure.InternalLength f < 2 ^ 31) fs.
Proof.
  revert i names prev fs. induction rows as [|r rows IH]; intros i names prev fs H; cbn [definition_rows] in H; [apply Ok_inj in H; by subst fs|].
  ok_step H as f Hf. pose proof (row_ok _ _ Hf) as (_ & Ho & Hl & _). apply row_numbers in Hf as [Ho2 Hl2]. cbv zeta in H.
  destruct (negb _); [done|]. case_bool_decide; [done|]. destruct (_ <? prev); [done|]. destruct (_ <? _); [done|].
  ok_step H as rest Hr. apply Ok_inj in H. subst fs. constructor; [done|by eapply IH].
Qed.

(** A field whose end wraps around cannot be sliced from any row. *)
Lemma wrapped_panics b f :
  0 <= Structure.InternalLength f -> Structure.Offset f < 2 ^ 31 -> Structure.InternalLength f < 2 ^ 31 ->
  2 ^ 31 <= Structure.Offset f + Structure.InternalLength f -> readValue b f = Panic.
Proof.
  intros H0 H1 H2 H3. unfold readValue, field_end. assert (int32 (Structure.Offset f + Structure.InternalLength f) < 0) as Hn.
  { unfold int32. rewrite (Z.mod_eq _ (2 ^ 32)) by lia. assert ((Structure.Offset f + Structure.InternalLength f + 2 ^ 31) / 2 ^ 32 = 1) as ->; [|lia].
    symmetry. apply Z.div_unique with (Structure.Offset f + Structure.InternalLength f + 2 ^ 31 - 2 ^ 32); lia. }
  unfold go_slice. assert ((Structure.Offset f <? 0) || (int32 (Structure.Offset f + Structure.InternalLength f) <? Structure.Offset f) = true) as E.
  { apply orb_true_iff. rewrite !Z.ltb_lt. lia. }
  match goal with |- context [if ?c then Panic else _] => assert (c = true) as -> end; [|done].
  apply orb_true_iff in E as [E|E]; rewrite E; by rewrite ?orb_true_r.
Qed.

Lemma decode_fields_panics b pre f post m :
  Forall (fun g => is_Ok (readValue b g)) pre -> readValue b f = Panic -> decode_fields b (pre ++ f :: post) m = Panic.
Proof.
  intros Hp Hf. revert m. induction Hp as [|g pre [v Hv] _ IH]; intros m; cbn [app decode_fields]; [by rewrite Hf|]. by rewrite Hv, ok_bind.
Qed.

(** C39: The codec's safety on a definition from the server is exactly a matter of the
    32-bit ends of its fields. If they all fit, no row makes Decode panic. If the definition
    passes the checks of the codec (of its widths and types, and of the ends as 32-bit sums)
    but the end of some field does not fit, Decode panics on every row of the announced
    length whose earlier fields can be read, in particular on every such row when it is the
    first field. *)
Theorem definition_panics_by_overflow name fields def b :
  DecodeRfcStructureDefinitionResult name fields = Ok def ->
  (ends_fit def -> total (Structure.Decode def b)) /\
  (forall pre f post, ValidateCodec def [] = Ok def -> assertFixed def = Ok tt -> zlen b = Structure.ByteLength def ->
    Structure.Fields def = pre ++ f :: post -> Forall (fun g => is_Ok (readValue b g)) pre ->
    2 ^ 31 <= Structure.Offset f + Structure.InternalLength f -> Structure.Decode def b = Panic).
Proof.
  intros H. split; [apply fitting_decodes|]. intros pre f post Hv Hx Hb Hf Hpre Hend.
  unfold DecodeRfcStructureDefinitionResult in H. ok_step H as u Hu. ok_step H as result Hres. ok_step H as v Hsc.
  destruct (negb _); [done|]. ok_step H as n Hn. cbv zeta in H. destruct (_ <? 0); [done|].
  destruct (table_named _ _) as [t|]; [|done]. destruct (_ <? _); [done|]. ok_step H as fs Hfs. apply Ok_inj in H. subst def.
  cbn [Structure.Fields Structure.ByteLength] in *. subst fs. apply definition_numbers in Hfs. apply Forall_app in Hfs as [_ Hfs].
  apply Forall_cons in Hfs as [(H0 & H1 & H2) _]. unfold Structure.Decode. rewrite Hv, ok_bind, Hx, ok_bind. cbn [Structure.ByteLength Structure.Fields].
  rewrite Hb, Z.eqb_refl. cbn [negb]. apply decode_fields_panics; [done|]. by apply wrapped_panics.
Qed.

(** The response as the client reads it. *)
Definition hostile_fields : list Cpic.Field :=
  match hostile_response with Ok p => match DecodeFunctionResultFields p with Ok d => rf_Fields d | _ => [] end | _ => [] end.

Definition hostile_definition : RfcStructureDefinition :=
  mkSDef (lit "T") 4 [mkSField (lit "T") (lit "A") 1 (2 ^ 31 - 2) (2 ^ 31 - 2) 0 (lit "X")].

Lemma definition_panics_by_overflow_witness :
  DecodeRfcStructureDefinitionResult (lit "T") hostile_fields = Ok hostile_definition /\ Structure.Decode hostile_definition (zeros 4) = Panic.
Proof.
  assert (DecodeRfcStructureDefinitionResult (lit "T") hostile_fields = Ok hostile_definition) as H by (vm_compute; reflexivity).
  split; [exact H|]. destruct (definition_panics_by_overflow (lit "T") hostile_fields hostile_definition (zeros 4) H) as [_ Hp].
  apply (Hp [] (mkSField (lit "T") (lit "A") 1 (2 ^ 31 - 2) (2 ^ 31 - 2) 0 (lit "X")) []); [vm_compute; reflexivity|vm_compute; reflexivity|reflexivity|reflexivity|constructor|].
  vm_compute. discriminate.
Defined.

(** ** Function interfaces *)
Lemma interface_rows_inv rows ps es ps' es' :
  interface_rows rows ps es = Ok (ps', es') ->
  exists all, mapM DecodeFunintRow rows = Ok all /\
    ps' = ps ++ filter (fun p => ParameterClass p <> lit "X") all /\
    es' = es ++ map ParameterName (filter (fun p => ParameterClass p = lit "X") all).
Proof.
  revert ps es. induction rows as [|r rows IH]; intros ps es H; cbn [interface_rows] in H.
  { apply Ok_inj in H. injection H as <- <-. exists []. cbn. by rewrite !app_nil_r. }
  ok_step H as p Hp. unfold bytes_eqb in H. destruct (bool_decide_reflect (ParameterClass p = lit "X")) as [Hx|Hx];
    destruct (IH _ _ H) as (all & Hall & -> & ->); exists (p :: all); (split; [cbn; rewrite Hp; cbn; by rewrite Hall|]); cbn [map].
  - rewrite (filter_cons_False _ p), (filter_cons_True _ p) by (done || (intros Hc; by apply Hc)). cbn [map]. by rewrite <- app_assoc.
  - rewrite (filter_cons_True _ p), (filter_cons_False _ p) by done. by rewrite <- app_assoc.
Qed.

Lemma required_total scalars name : total (requiredScalar scalars name).
Proof. induction scalars as [|s l IH]; [done|]. cbn. by destruct (bytes_eqb _ _). Qed.

Lemma flag_total v : total (decodeFlag v).
Proof. unfold decodeFlag. apply total_bind; [apply char_total|]. intros d _. by destruct (_ && _). Qed.

Lemma text_total prefix off chars : 0 <= off -> 0 <= chars -> off + chars * 2 <= zlen prefix -> total (funint_text prefix off chars).
Proof. intros. unfold funint_text. apply total_bind; [apply total_slice; lia|]. intros. apply char_total. Qed.

Lemma funint_int_total prefix off : 0 <= off -> off + 4 <= zlen prefix -> total (funint_int prefix off).
Proof.
  intros. unfold funint_int. rewrite go_slice_ok, ok_bind by lia. apply total_bind; [|intros; done]. apply le_uint_total.
  unfold zlen in *. rewrite length_take, length_drop. lia.
Qed.

Lemma funint_total v : total (DecodeFunintRow v).
Proof.
  unfold DecodeFunintRow, RfcFunintUnicodeRowLength. destruct (Z.ltb_spec (zlen v) 402); [done|]. rewrite go_slice_ok, ok_bind by lia.
  set (p := take _ _). assert (zlen p = 402) as Hz by (unfold p, zlen in *; rewrite length_take, length_drop; lia).
  do 5 (apply total_bind; [apply text_total; lia|]; intros ? _). do 4 (apply total_bind; [apply funint_int_total; lia|]; intros ? _).
  do 3 (apply total_bind; [apply text_total; lia|]; intros ? _). by destruct (_ && _).
Qed.

Lemma interface_rows_total rows ps es : total (interface_rows rows ps es).
Proof.
  revert ps es. induction rows as [|r rows IH]; intros ps es; [done|]. cbn [interface_rows]. apply total_bind; [apply funint_total|].
  intros p _. destruct (bytes_eqb _ _); apply IH.
Qed.

(** An accepted function interface holds exactly the rows of PARAMS in order, the exceptions
    apart from the parameters. *)
Theorem function_interface_sound name fields :
  total (DecodeRfcFunctionInterfaceResult name fields) /\
  forall fi, DecodeRfcFunctionInterfaceResult name fields = Ok fi ->
    exists result params resumable all, decodeResult fields = Ok result /\
      table_named (res_Tables result) (lit "PARAMS") = Some params /\
      table_named (res_Tables result) (lit "RESUMABLE_EXCEPTIONS") = Some resumable /\
      mapM DecodeFunintRow (rt_Rows params) = Ok all /\ fi_Name fi = name /\
      Parameters fi = filter (fun p => ParameterClass p <> lit "X") all /\
      Exceptions fi = map ParameterName (filter (fun p => ParameterClass p = lit "X") all) /\
      ResumableExceptionRowCount fi = zlen (rt_Rows resumable).
Proof.
  split.
  - unfold DecodeRfcFunctionInterfaceResult. apply total_bind; [apply decode_result_total|]. intros result _.
    destruct (table_named _ _) as [params|]; [|done]. destruct (_ <? _); [done|]. destruct (table_named _ _) as [resumable|]; [|done].
    apply total_bind; [apply interface_rows_total|]. intros [ps es] _. repeat (apply total_bind; [first [apply required_total|apply flag_total|apply char_total]|]; intros ? _).
    done.
  - intros fi H. unfold DecodeRfcFunctionInterfaceResult in H. ok_step H as result Hres. destruct (table_named _ (lit "PARAMS")) as [params|] eqn:Ep; [|done].
    destruct (_ <? _); [done|]. destruct (table_named _ (lit "RESUMABLE_EXCEPTIONS")) as [resumable|] eqn:Er; [|done].
    ok_step H as pe Hpe. destruct pe as [ps es]. apply interface_rows_inv in Hpe as (all & Hall & -> & ->).
    ok_step H as b1 Hb1. ok_step H as b2 Hb2. ok_step H as b3 Hb3. ok_step H as b4 Hb4. ok_step H as b5 Hb5. ok_step H as b6 Hb6.
    apply Ok_inj in H. subst fi. by exists result, params, resumable, all.
Qed.

(** ** Instances *)
Definition sample_field : RfcStructureField := mkSField (lit "T") (lit "A") 1 0 4 0 (lit "I").

Lemma fields_row_read_witness :
  exists row, fields_row sample_field = Ok row /\ zlen row = RfcFieldsUnicodeRowLength /\ DecodeRfcFieldsRow (row ++ [x00; x00]) = Ok sample_field.
Proof.
  destruct (fields_row sample_field) as [row|e|] eqn:E; [|vm_compute in E; discriminate..]. exists row. split; [reflexivity|].
  apply (fields_row_read sample_field row [x00; x00]); [|exact E]. split; cbn; [done|by repeat constructor|lia|repeat constructor; lia].
Defined.

Definition sample_fields : list Cpic.Field :=
  match (row ← fields_row sample_field;
         p ← EncodeCutFunctionResponse [mkNamedValue (lit "TABLENGTH") (le_split 4 4)] [mkSTable (lit "FIELDS") 138 [row] []] [];
         d ← DecodeFunctionResultFields p; Ok (rf_Fields d)) with Ok fs => fs | _ => [] end.

Lemma definition_fits_codec_witness :
  exists def, DecodeRfcStructureDefinitionResult (lit "T") sample_fields = Ok def /\ Structure.Name def = lit "T" /\
  (lit "T" <> [] -> Structure.ByteLength def <= maxClassicStructureByteLength -> zlen (Structure.Fields def) <= maxClassicStructureFields ->
   SnapshotDefinition def [] = Ok def).
Proof.
  assert (match DecodeRfcStructureDefinitionResult (lit "T") sample_fields with Ok _ => true | _ => false end = true) as Hok by (vm_compute; reflexivity).
  destruct (DecodeRfcStructureDefinitionResult (lit "T") sample_fields) as [def|e|] eqn:E; [|discriminate Hok..].
  exists def. split; [reflexivity|]. exact (definition_fits_codec _ _ _ E).
Defined.
