(* ===== verification/Ddif.v ===== *)
(** Package [metadata], internal/metadata/ddif.go: the DDIC lookup DDIF_FIELDINFO_GET, its
    request, the stable prefix of a DFIES row, the geometry of X030L and the normalisation of
    a response into a structure definition.

    The theorems: the decoder is total; a NUMC column of [n] characters is a number below
    [10 ^ n], so the [int32] conversions and the sum of offset and length are exact; and what
    is accepted is a definition that makes neither direction of the structure codec panic,
    which fails for the older lookup of file Metadata. *)
From stdpp Require Import base list numbers strings gmap.
From Stdlib Require Import ZArith Lia Strings.Byte.
From S2P Require Import Prelude Errors Text UnicodeScalar Wire Rfcerr Cpic CpicFunction ClassicRfc Structure ServerRequest ServerResponse Metadata.

Open Scope Z_scope.

Definition errDdif : error := EMetadata ErrDdif.

Definition dfiesMinimumUnicodeRowLength : Z := 1074.
Definition x030lMinimumUnicodeLength : Z := 249.
Definition maxDdicStructureFields : Z := 9999.

(** [[\x00-\x1f\x7f]] is [is_control]. *)
Definition ddifMetadataName (v : bytes) : res bytes :=
  if (zlen v <? 1) || (30 <? zlen (runes v)) || existsb is_control v then Err errDdif else Ok v.

(** [^[\x20-\x7e]$] *)
Definition sapLanguage (v : bytes) : res bytes :=
  match v with
  | [c] => if is_printable c then Ok v else Err errDdif
  | _ => Err errDdif
  end.

Definition BuildDdIfFieldInfoGetRequest (structureName language : bytes) : res bytes :=
  let language := if bytes_eqb language [] then lit "E" else language in
  name ← ddifMetadataName structureName;
  langu ← sapLanguage language;
  tabname ← EncodeAbapChar name 30;
  languVal ← EncodeAbapChar langu 1;
  allTypes ← EncodeAbapChar (lit "X") 1;
  EncodeCutFunctionRequest
    (mkCutFunctionRequestInput (lit "DDIF_FIELDINFO_GET") [lit "DDOBJTYPE"; lit "X030L_WA"; lit "DFIES_TAB"]
       [mkNamedValue (lit "TABNAME") tabname; mkNamedValue (lit "LANGU") languVal; mkNamedValue (lit "ALL_TYPES") allTypes;
        mkNamedValue (lit "UCLEN") [x02]] [] [] [] None).

Fixpoint ddifRequiredScalar (scalars : list Scalar) (name : bytes) : res bytes :=
  match scalars with
  | [] => Err errDdif
  | s :: scalars => if bytes_eqb (sc_Name s) name then Ok (sc_Value s) else ddifRequiredScalar scalars name
  end.

Definition fieldText (row : bytes) (offset byteLength characterLength : Z) : res bytes :=
  v ← go_slice row offset (offset + byteLength); DecodeAbapChar v (Some characterLength).

Definition numcDigits (s : bytes) : bool := negb (bytes_eqb s []) && forallb is_digit s.

(** [strconv.Atoi] fails beyond the largest [int]. *)
Definition numc (row : bytes) (offset byteLength : Z) : res Z :=
  v ← fieldText row offset byteLength (byteLength / 2);
  if negb (numcDigits v) then Err errDdif
  else if 2 ^ 63 - 1 <? dec_value v then Err errDdif
  else Ok (dec_value v).

Definition DecodeDdIfDfiesRow (value_ : bytes) : res (RfcStructureField * bytes) :=
  if (zlen value_ <? dfiesMinimumUnicodeRowLength) || negb (Z.land (zlen value_) 1 =? 0) then Err errDdif
  else
    row ← go_slice value_ 0 dfiesMinimumUnicodeRowLength;
    tableName ← fieldText row 0 60 30;
    fieldName ← fieldText row 60 60 30;
    position ← numc row 122 8;
    offset ← numc row 130 12;
    internalLength ← numc row 334 12;
    decimals ← numc row 358 12;
    exid ← fieldText row 378 2 1;
    componentType ← fieldText row 1072 2 1;
    if (zlen tableName =? 0) || (zlen fieldName =? 0) || negb (zlen exid =? 1) then Err errDdif
    else if position <? 1 then Err errDdif
    else Ok (mkSField tableName fieldName (int32 position) (int32 offset) (int32 internalLength) (int32 decimals) exid, componentType).

(** The byte length and the number of fields. *)
Definition x030lGeometry (value_ : bytes) (structureName : bytes) : res (Z * Z) :=
  if zlen value_ <? x030lMinimumUnicodeLength then Err errDdif
  else
    returnedName ← fieldText value_ 0 60 30;
    if negb (bytes_eqb returnedName structureName) then Err errDdif
    else
      at162 ← go_from value_ 162;
      fieldCount ← be_uint 2 at162;
      at164 ← go_from value_ 164;
      byteLength ← be_uint 4 at164;
      tableType ← fieldText value_ 172 2 1;
      unicodeCharacterBytes ← go_index value_ 248;
      if negb (b2z unicodeCharacterBytes =? 2) then Err errDdif
      else if maxDdicStructureFields <? fieldCount then Err errDdif
      else if bytes_eqb tableType (lit "L") then Err errDdif
      else Ok (byteLength, fieldCount).

Fixpoint dfies_rows (name : bytes) (byteLength : Z) (rows : list bytes) (index : Z) (names : gset bytes) (previousEnd : Z)
    : res (list RfcStructureField) :=
  match rows with
  | [] => Ok []
  | row :: rows =>
      '(field, componentType) ← DecodeDdIfDfiesRow row;
      if negb (bytes_eqb (Structure.TableName field) name) then Err errDdif
      else if negb (Structure.Position field =? index + 1) then Err errDdif
      else if negb (bytes_eqb componentType []) && negb (bytes_eqb componentType (lit "E")) then Err errDdif
      else if bool_decide (Structure.FieldName field ∈ names) then Err errDdif
      else if Structure.Offset field <? previousEnd then Err errDdif
      else
        let end_ := int32 (Structure.Offset field + Structure.InternalLength field) in
        if byteLength <? end_ then Err errDdif
        else
          fields ← dfies_rows name byteLength rows (index + 1) ({[Structure.FieldName field]} ∪ names) end_;
          Ok (field :: fields)
  end.

Definition DecodeDdIfFieldInfoGetResult (structureName : bytes) (fields : list Cpic.Field) : res RfcStructureDefinition :=
  name ← ddifMetadataName structureName;
  result ← decodeResult fields;
  objTypeVal ← ddifRequiredScalar (res_Scalars result) (lit "DDOBJTYPE");
  objectKind ← DecodeAbapChar objTypeVal None;
  if zlen objectKind =? 0 then Err errDdif
  else if bytes_eqb objectKind (lit "DTEL") || bytes_eqb objectKind (lit "TTYP") then Err errDdif
  else
    x030l ← ddifRequiredScalar (res_Scalars result) (lit "X030L_WA");
    '(byteLength, fieldCount) ← x030lGeometry x030l name;
    match table_named (res_Tables result) (lit "DFIES_TAB") with
    | None => Err errDdif
    | Some table =>
        if maxDdicStructureFields <? zlen (rt_Rows table) then Err errDdif
        else if negb (fieldCount =? zlen (rt_Rows table)) then Err errDdif
        else
          normalized ← dfies_rows name byteLength (rt_Rows table) 0 ∅ 0;
          ValidateCodec (mkSDef name (int32 byteLength) normalized) name
    end.

(** ** NUMC columns *)
Lemma utf16_decode_length us : (length (utf16_decode us) <= length us)%nat.
Proof.
  assert (H : forall n us, (length us <= n)%nat -> (length (utf16_decode us) <= length us)%nat); [|by apply (H (length us))].
  clear us. induction n as [|n IH]; intros [|u us] Hn; cbn in *; try lia.
  destruct (is_high u); [|destruct (is_low u); cbn; specialize (IH us); lia].
  destruct us as [|v us]; [cbn; lia|]. destruct (is_low v).
  - cbn in *. specialize (IH us). lia.
  - specialize (IH (v :: us)). cbn [length] in *. lia.
Qed.

Lemma bytes_units_length b : (2 * length (bytes_units b) <= length b)%nat.
Proof.
  assert (H : forall n b, (length b <= n)%nat -> (2 * length (bytes_units b) <= length b)%nat); [|by apply (H (length b))].
  clear b. induction n as [|n IH]; intros [|lo [|hi b]] Hn; cbn in *; try lia. specialize (IH b). lia.
Qed.

(** A rune is one byte below 0x80, or starts with a byte from 0x80 on. *)
Lemma encode_rune_first r : (exists c, EncodeRune r = [c]) \/ (exists c l, EncodeRune r = c :: l /\ 0x80 <= b2z c).
Proof.
  unfold EncodeRune. set (r' := if is_scalarb r then r else RuneError).
  assert (Hr : 0 <= r' <= MaxRune).
  { subst r'. destruct (is_scalarb r) eqn:E; [|done]. unfold is_scalarb, in_range, MaxRune in *. lia. }
  unfold MaxRune in Hr. destruct (Z.ltb_spec r' 0x80); [left; by eexists|]. right.
  assert (Hc : forall lo z k, 0xc0 <= lo -> lo <= 0xf0 -> 0 <= z / k < 16 \/ (lo = 0xc0 /\ 0 <= z / k < 32) -> 0x80 <= b2z (z2b (lo + z / k))).
  { intros lo z k H1 H2 H3. rewrite b2z_z2b. rewrite Z.mod_small; lia. }
  destruct (Z.ltb_spec r' 0x800); [|destruct (Z.ltb_spec r' 0x10000)]; eexists _, _; (split; [reflexivity|]); apply Hc; try lia.
  - right. split; [done|]. split; [apply Z.div_pos; lia|]. apply Z.div_lt_upper_bound; lia.
  - left. split; [apply Z.div_pos; lia|]. apply Z.div_lt_upper_bound; lia.
  - left. split; [apply Z.div_pos; lia|]. apply Z.div_lt_upper_bound; lia.
Qed.

(** A run of bytes below 0x80 at the start of a string has at most one byte per character. *)
Lemma ascii_prefix_length p q rs :
  utf8_string rs = p ++ q -> Forall (fun b => b2z b < 0x80) p -> (length p <= length rs)%nat.
Proof.
  revert p. induction rs as [|r rs IH]; intros p H Hp.
  - change (utf8_string []) with (@nil byte) in H. symmetry in H. apply app_eq_nil in H as [-> _]. done.
  - change (utf8_string (r :: rs)) with (EncodeRune r ++ utf8_string rs) in H. destruct p as [|b p]; [cbn; lia|].
    apply Forall_cons in Hp as [Hb Hp].
    destruct (encode_rune_first r) as [[c E]|(c & l & E & Hc)]; rewrite E in H; cbn in H; injection H as -> H; [|lia].
    cbn. apply le_n_S. by apply IH.
Qed.

Lemma trim_spaces_prefix s : exists q, s = trim_right_spaces s ++ q.
Proof.
  unfold trim_right_spaces. destruct (span (fun b => bool_decide (b = x20)) (rev s)) as [p r] eqn:E.
  apply span_inv in E as (E & _). exists (rev p). cbn. by rewrite <- rev_app_distr, <- E, rev_involutive.
Qed.

(** A column of [n] characters has at most [n] digits. *)
Lemma digits_length v n s :
  DecodeAbapChar v (Some n) = Ok s -> forallb is_digit s = true -> zlen s <= n.
Proof.
  unfold DecodeAbapChar, abapCharacterBytes. intros H Hd. ok_step H as d Hx. apply Ok_inj in H. subst s.
  destruct (negb _); [done|]. ok_step Hx as u Hu. ok_step Hx as u' Hu'. apply Ok_inj in Hx. subst d.
  ok_step Hu as u2 Hu2. unfold guard in Hu. destruct (Z.eqb_spec (zlen v) (n * 2)) as [Hz|]; [|done].
  destruct (trim_spaces_prefix (utf16leDecode v)) as [q Hq]. unfold utf16leDecode in Hq at 1.
  apply ascii_prefix_length in Hq.
  - pose proof (utf16_decode_length (bytes_units v)). pose proof (bytes_units_length v). unfold zlen in *. lia.
  - rewrite forallb_forall in Hd. apply Forall_forall. intros b Hb%list_elem_of_In. specialize (Hd b Hb).
    unfold is_digit, in_range in Hd. lia.
Qed.

Lemma numc_range row offset n z : 0 <= n -> numc row offset (2 * n) = Ok z -> 0 <= z < 10 ^ n.
Proof.
  intros Hn H. unfold numc in H. ok_step H as v Hv. destruct (numcDigits v) eqn:Ed; [|done]. cbn [negb] in H.
  destruct (_ <? _); [done|]. apply Ok_inj in H. subst z. unfold fieldText in Hv. ok_step Hv as s Hs.
  unfold numcDigits in Ed. apply andb_true_iff in Ed as [_ Ed]. rewrite Z.mul_comm, Z.div_mul in Hv by lia.
  pose proof (digits_length s n v Hv Ed) as Hl.
  assert (Had : all_digits v). { rewrite forallb_forall in Ed. apply Forall_forall. intros b Hb%list_elem_of_In. by apply Ed. }
  pose proof (dec_value_range v Had). pose proof (Z.pow_le_mono_r 10 (zlen v) n). lia.
Qed.

Lemma field_text_total row offset byteLength n : 0 <= offset -> 0 <= byteLength -> offset + byteLength <= zlen row -> total (fieldText row offset byteLength n).
Proof. intros. unfold fieldText. apply total_bind; [apply total_slice; lia|]. intros. apply char_total. Qed.

Lemma numc_total row offset byteLength : 0 <= offset -> 0 <= byteLength -> offset + byteLength <= zlen row -> total (numc row offset byteLength).
Proof.
  intros. unfold numc. apply total_bind; [by apply field_text_total|]. intros v _. destruct (negb _); [done|]. by destruct (_ <? _).
Qed.

Lemma dfies_row_total v : total (DecodeDdIfDfiesRow v).
Proof.
  unfold DecodeDdIfDfiesRow, dfiesMinimumUnicodeRowLength. destruct (Z.ltb_spec (zlen v) 1074); [done|]. cbn [orb]. destruct (negb _); [done|].
  rewrite go_slice_ok, ok_bind by lia. set (p := take _ _). assert (zlen p = 1074) as Hz by (unfold p, zlen in *; rewrite length_take, length_drop; lia).
  do 2 (apply total_bind; [apply field_text_total; lia|]; intros ? _). do 4 (apply total_bind; [apply numc_total; lia|]; intros ? _).
  do 2 (apply total_bind; [apply field_text_total; lia|]; intros ? _). destruct (_ || _); [done|]. by destruct (_ <? _).
Qed.

(** The columns of a row are small numbers: no conversion changes them. *)
Lemma dfies_row_range v f ct :
  DecodeDdIfDfiesRow v = Ok (f, ct) ->
  0 <= Structure.Offset f < 10 ^ 6 /\ 0 <= Structure.InternalLength f < 10 ^ 6 /\ 0 <= Structure.Decimals f < 10 ^ 6 /\ 1 <= Structure.Position f < 10 ^ 4.
Proof.
  unfold DecodeDdIfDfiesRow. destruct (_ || _); [done|]. intros H. ok_step H as row Hrow. ok_step H as t Ht. ok_step H as n Hn.
  ok_step H as pos Hpos. ok_step H as off Hoff. ok_step H as len Hlen. ok_step H as dec Hdec. ok_step H as ex Hex. ok_step H as c Hc.
  destruct (_ || _); [done|]. destruct (Z.ltb_spec pos 1); [done|]. apply Ok_inj in H. injection H as <- <-. cbn.
  apply (numc_range row 122 4) in Hpos; [|lia]. apply (numc_range row 130 6) in Hoff; [|lia].
  apply (numc_range row 334 6) in Hlen; [|lia]. apply (numc_range row 358 6) in Hdec; [|lia].
  rewrite !int32_small by (unfold is_i32; lia). lia.
Qed.

Lemma dfies_rows_total name bl rows i names prev : total (dfies_rows name bl rows i names prev).
Proof.
  revert i names prev. induction rows as [|r rows IH]; intros i names prev; [done|]. cbn [dfies_rows]. apply total_bind; [apply dfies_row_total|].
  intros [f ct] _. cbv zeta. destruct (negb _); [done|]. destruct (negb _); [done|]. destruct (_ && _); [done|]. case_bool_decide; [done|].
  destruct (_ <? prev); [done|]. destruct (_ <? _); [done|]. apply total_bind; [apply IH|]. intros; done.
Qed.

Lemma dfies_rows_fit name bl rows i names prev fs :
  dfies_rows name bl rows i names prev = Ok fs -> Forall (fun f => Structure.Offset f + Structure.InternalLength f < 2 ^ 31) fs /\ length fs = length rows.
Proof.
  revert i names prev fs. induction rows as [|r rows IH]; intros i names prev fs H; cbn [dfies_rows] in H.
  { apply Ok_inj in H. subst fs. split; [constructor|done]. }
  ok_step H as fc Hf. destruct fc as [f ct]. apply dfies_row_range in Hf as (Ho & Hl & _). destruct (negb _); [done|]. destruct (negb _); [done|].
  destruct (_ && _); [done|]. case_bool_decide; [done|]. destruct (_ <? prev); [done|]. cbv zeta in H. destruct (_ <? _); [done|].
  ok_step H as rest Hr. apply Ok_inj in H. subst fs. apply IH in Hr as [HF Hlen]. split; [constructor; [lia|done]|cbn; lia].
Qed.

Lemma ddif_name_total v : total (ddifMetadataName v).
Proof. unfold ddifMetadataName. by destruct (_ || _). Qed.

Lemma ddif_scalar_total scalars name : total (ddifRequiredScalar scalars name).
Proof. induction scalars as [|s l IH]; [done|]. cbn. by destruct (bytes_eqb _ _). Qed.

Lemma x030l_total v name : total (x030lGeometry v name).
Proof.
  unfold x030lGeometry, x030lMinimumUnicodeLength. destruct (Z.ltb_spec (zlen v) 249); [done|].
  apply total_bind; [apply field_text_total; lia|]. intros n _. destruct (negb _); [done|].
  apply total_bind; [apply total_from; lia|]. intros a Ha. apply from_length in Ha.
  apply total_bind; [unfold be_uint; destruct (Nat.ltb_spec (length a) 2); [unfold zlen in *; lia|done]|]. intros fc _.
  apply total_bind; [apply total_from; lia|]. intros b Hb. apply from_length in Hb.
  apply total_bind; [unfold be_uint; destruct (Nat.ltb_spec (length b) 4); [unfold zlen in *; lia|done]|]. intros bl _.
  apply total_bind; [apply field_text_total; lia|]. intros tt0 _. apply total_bind; [apply index_total; lia|]. intros u _.
  destruct (negb _); [done|]. destruct (_ <? _); [done|]. by destruct (bytes_eqb _ _).
Qed.

(** C26: The decoder of a DDIF_FIELDINFO_GET answer neither panics nor loops, and a
    definition it accepts is one the structure codec can use: no row makes Decode panic,
    whatever the server announced. *)
Theorem ddif_definition_safe name fields :
  total (DecodeDdIfFieldInfoGetResult name fields) /\
  forall def, DecodeDdIfFieldInfoGetResult name fields = Ok def ->
    Structure.Name def = name /\ accepted def /\ zlen (Structure.Fields def) <= maxDdicStructureFields /\ forall b, total (Decode def b).
Proof.
  split.
  - unfold DecodeDdIfFieldInfoGetResult. apply total_bind; [apply ddif_name_total|]. intros n _.
    apply total_bind; [apply decode_result_total|]. intros result _. apply total_bind; [apply ddif_scalar_total|]. intros ov _.
    apply total_bind; [apply char_total|]. intros k _. destruct (_ =? 0); [done|]. destruct (_ || _); [done|].
    apply total_bind; [apply ddif_scalar_total|]. intros x _. apply total_bind; [apply x030l_total|]. intros [bl fc] _.
    destruct (table_named _ _); [|done]. destruct (_ <? _); [done|]. destruct (negb _); [done|].
    apply total_bind; [apply dfies_rows_total|]. intros. apply validate_total.
  - intros def H. unfold DecodeDdIfFieldInfoGetResult in H. ok_step H as n Hn. unfold ddifMetadataName in Hn.
    destruct (_ || _) in Hn; [done|]. apply Ok_inj in Hn. subst n. ok_step H as result Hres. ok_step H as ov Hov. ok_step H as k Hk.
    destruct (_ =? 0); [done|]. destruct (_ || _); [done|]. ok_step H as x Hx. ok_step H as geo Hgeo. destruct geo as [bl fc].
    destruct (table_named _ _) as [t|]; [|done]. destruct (Z.ltb_spec maxDdicStructureFields (zlen (rt_Rows t))); [done|]. destruct (negb _); [done|].
    ok_step H as fs Hfs. apply dfies_rows_fit in Hfs as [Hfit Hlen].
    assert (Hef : ends_fit (mkSDef name (int32 bl) fs)) by exact Hfit.
    destruct (validate_accepted _ _ _ Hef H) as [-> Hacc]. split; [done|]. split; [done|]. split; [cbn; unfold zlen in *; lia|].
    intros b. by apply fitting_decodes.
Qed.

(** ** Instances *)
Definition put_text (row : bytes) (offset characters : Z) (s : string) : bytes :=
  match EncodeAbapChar (lit s) characters with Ok b => go_copy row offset b | _ => row end.

Definition sample_dfies : bytes :=
  let row := zeros 1074 in
  let row := put_text row 0 30 "T" in
  let row := put_text row 60 30 "A" in
  let row := put_text row 122 4 "0001" in
  let row := put_text row 130 6 "000000" in
  let row := put_text row 334 6 "000004" in
  let row := put_text row 358 6 "000000" in
  let row := put_text row 378 1 "I" in
  put_text row 1072 1 "E".

Definition sample_x030l : bytes :=
  let v := put_text (zeros 250) 0 30 "T" in
  let v := go_copy v 162 (be_split 2 1) in
  let v := go_copy v 164 (be_split 4 4) in
  let v := put_text v 172 1 "J" in
  go_copy v 248 [x02].

Definition sample_ddif_fields : list Cpic.Field :=
  match (kind ← EncodeAbapChar (lit "INTTAB") 8;
         p ← EncodeCutFunctionResponse [mkNamedValue (lit "DDOBJTYPE") kind; mkNamedValue (lit "X030L_WA") sample_x030l]
               [mkSTable (lit "DFIES_TAB") 1074 [sample_dfies] []] [];
         d ← DecodeFunctionResultFields p; Ok (rf_Fields d)) with Ok fs => fs | _ => [] end.

Lemma ddif_definition_safe_witness :
  exists def, DecodeDdIfFieldInfoGetResult (lit "T") sample_ddif_fields = Ok def /\ accepted def /\ zlen (Structure.Fields def) = 1.
Proof.
  assert (H : match DecodeDdIfFieldInfoGetResult (lit "T") sample_ddif_fields with
              | Ok def => zlen (Structure.Fields def) =? 1 | _ => false end = true) by (vm_compute; reflexivity).
  destruct (DecodeDdIfFieldInfoGetResult (lit "T") sample_ddif_fields) as [def| |] eqn:E; [|discriminate H..].
  exists def. split; [reflexivity|]. split; [|by apply Z.eqb_eq].
  exact (proj1 (proj2 (proj2 (ddif_definition_safe (lit "T") sample_ddif_fields) def E))).
Defined.
