(* ===== verification/GraphComponents.v ===== *)
(** The graph algorithms of the metadata normaliser (src/internal/metadata/recursive.go,
    [graphComponents]): Kosaraju's two passes with their explicit stacks, the cyclic
    components, the condensation, its reachable part and the depth of the type nesting.

    The nodes are the indices [0 .. n-1] of the slice of types and [adjacency] lists the
    targets of each node, as in the code.  A loop over an explicit stack takes fuel and
    returns [None] without it; the fuel the callers pass is proved to be enough.  The code
    ranges over Go maps of components in places; it sorts what it reads, or only collects a
    set, so the order does not matter, and the maps are finite sets here. *)
From stdpp Require Import base list numbers option gmap sets sorting relations.
From Stdlib Require Import ZArith Lia.
From S2P Require Import Prelude.

Open Scope nat_scope.

(** ** The code *)

(** One frame of the stack of the first pass; the top of a stack is the head of a list. *)
Record frame : Type := mkFrame { f_node : nat; f_next : nat }.

(** [reverse[to] = append(reverse[to], from)] for every edge, in the order of the edges. *)
Definition reverse_of (adjacency : list (list nat)) : list (list nat) :=
  foldl (fun reverse '(from, targets) =>
    foldl (fun r to => alter (fun l => l ++ [from]) to r) reverse targets)
    (replicate (length adjacency) []) (zip (seq 0 (length adjacency)) adjacency).

Section Passes.
Context (adjacency : list (list nat)).

(** [adjacency[u]], for a node in range. *)
Definition neighbors (u : nat) : list nat := adjacency !!! u.

(** [neighbors[f.next]] while [f.next < len(neighbors)]. *)
Definition next_target (f : frame) : option nat := neighbors (f_node f) !! f_next f.

(** The loop of the first pass: advance the frame at the top, enter a new node or finish. *)
Fixpoint finish_loop (fuel : nat) (stack : list frame) (visited : list bool) (finish : list nat)
  : option (list bool * list nat) :=
  match stack with
  | [] => Some (visited, finish)
  | f :: rest =>
      match fuel with
      | O => None
      | S fuel =>
          match next_target f with
          | Some target =>
              let stack := mkFrame (f_node f) (S (f_next f)) :: rest in
              if (visited !!! target : bool) then finish_loop fuel stack visited finish
              else finish_loop fuel (mkFrame target 0 :: stack) (<[target := true]> visited) finish
          | None => finish_loop fuel rest visited (finish ++ [f_node f])
          end
      end
  end.

Definition pass_fuel : nat := length adjacency + sum_list (length <$> adjacency).

Fixpoint finish_from (starts : list nat) (visited : list bool) (finish : list nat)
  : option (list bool * list nat) :=
  match starts with
  | [] => Some (visited, finish)
  | start :: starts =>
      if (visited !!! start : bool) then finish_from starts visited finish
      else '(visited, finish) ← finish_loop pass_fuel [mkFrame start 0] (<[start := true]> visited) finish;
           finish_from starts visited finish
  end.

(** The first pass: the nodes in the order in which they finish. *)
Definition finish_order : option (list nat) :=
  snd <$> finish_from (seq 0 (length adjacency)) (replicate (length adjacency) false) [].

(** The inner loop of the second pass over the sources of one node. *)
Fixpoint assign_sources (component : Z) (sources : list nat) (stack : list nat) (componentByNode : list Z)
  : list nat * list Z :=
  match sources with
  | [] => (stack, componentByNode)
  | source :: sources =>
      if ((componentByNode !!! source : Z) =? -1)%Z
      then assign_sources component sources (source :: stack) (<[source := component]> componentByNode)
      else assign_sources component sources stack componentByNode
  end.

Fixpoint assign_loop (fuel : nat) (component : Z) (stack : list nat) (componentByNode : list Z) (members : list nat)
  : option (list Z * list nat) :=
  match stack with
  | [] => Some (componentByNode, members)
  | node :: stack =>
      match fuel with
      | O => None
      | S fuel =>
          let '(stack, componentByNode) :=
            assign_sources component (reverse_of adjacency !!! node) stack componentByNode in
          assign_loop fuel component stack componentByNode (members ++ [node])
      end
  end.

(** [sort.Ints] *)
Definition sort_ints (l : list nat) : list nat := merge_sort Nat.le l.

(** The second pass, over the finishing order from its end. *)
Fixpoint assign_from (order : list nat) (componentByNode : list Z) (nodesByComponent : list (list nat))
  : option (list Z * list (list nat)) :=
  match order with
  | [] => Some (componentByNode, nodesByComponent)
  | start :: order =>
      if ((componentByNode !!! start : Z) =? -1)%Z then
        let component := Z.of_nat (length nodesByComponent) in
        '(componentByNode, members) ←
          assign_loop (length adjacency) component [start] (<[start := component]> componentByNode) [];
        assign_from order componentByNode (nodesByComponent ++ [sort_ints members])
      else assign_from order componentByNode nodesByComponent
  end.

Definition strong_components : option (list Z * list (list nat)) :=
  finish ← finish_order;
  assign_from (rev finish) (replicate (length adjacency) (-1)%Z) [].

(** [cyclicComponents]: the components of several nodes and the self-loops. *)
Definition cyclicb (members : list nat) : bool :=
  (1 <? length members) ||
  match members with
  | m :: _ => bool_decide (m ∈ neighbors m)
  | [] => false
  end.

Definition cyclic_components (nodesByComponent : list (list nat)) : list bool :=
  cyclicb <$> nodesByComponent.
End Passes.

(** ** The condensation and its depth *)
Section Depth.
Context (adjacency : list (list nat)) (componentByNode : list Z) (nodesByComponent : list (list nat)).

Definition component_of (node : nat) : nat := Z.to_nat (componentByNode !!! node).

(** [componentAdjacency], a set of targets per component. *)
Definition component_adjacency : list (gset nat) :=
  foldl (fun ca '(from, targets) =>
    foldl (fun ca to =>
      if component_of from =? component_of to then ca
      else alter (fun s => {[component_of to]} ∪ s) (component_of from) ca) ca targets)
    (replicate (length nodesByComponent) ∅) (zip (seq 0 (length adjacency)) adjacency).

(** [rootComponents] of the indices of the roots. *)
Definition root_components (roots : list nat) : list nat :=
  match roots with
  | [] => seq 0 (length nodesByComponent)
  | _ => component_of <$> roots
  end.
End Depth.

Section Kahn.
Context (ca : list (gset nat)).

(** The components reachable from the stack. *)
Fixpoint reach_loop (fuel : nat) (stack : list nat) (reachable : gset nat) : option (gset nat) :=
  match stack with
  | [] => Some reachable
  | c :: stack =>
      match fuel with
      | O => None
      | S fuel =>
          if decide (c ∈ reachable) then reach_loop fuel stack reachable
          else reach_loop fuel (rev (elements (ca !!! c : gset nat)) ++ stack) ({[c]} ∪ reachable)
      end
  end.

Definition reach_fuel (roots : list nat) : nat := length roots + sum_list (size <$> ca).

Definition reachable_components (roots : list nat) : option (gset nat) :=
  reach_loop (reach_fuel roots) (rev roots) ∅.

(** [indegree]: the edges inside the reachable part. *)
Definition indegrees (reachable : gset nat) : list Z :=
  foldl (fun d source =>
    foldl (fun d target => if decide (target ∈ reachable) then alter Z.succ target d else d)
      d (elements (ca !!! source : gset nat)))
    (replicate (length ca) 0%Z) (elements reachable).

Definition initial_queue (reachable : gset nat) (indegree : list Z) : list nat :=
  sort_ints (filter (fun c => indegree !!! c = 0%Z) (elements reachable)).

(** [if depth[root] < 1 { depth[root] = 1 }] for every root. *)
Definition initial_depth (roots : list nat) : list nat :=
  foldl (fun depth root => if (depth !!! root : nat) <? 1 then <[root := 1]> depth else depth)
    (replicate (length ca) 0) roots.

(** The body of the loop over the targets of one source. *)
Fixpoint relax (reachable : gset nat) (source : nat) (targets : list nat) (queue : list nat) (indegree : list Z) (depth : list nat)
  : list nat * list Z * list nat :=
  match targets with
  | [] => (queue, indegree, depth)
  | target :: targets =>
      if decide (target ∈ reachable) then
        let depth := if (depth !!! target : nat) <? S (depth !!! source) then <[target := S (depth !!! source)]> depth else depth in
        let indegree := alter Z.pred target indegree in
        relax reachable source targets (if ((indegree !!! target : Z) =? 0)%Z then queue ++ [target] else queue) indegree depth
      else relax reachable source targets queue indegree depth
  end.

(** The loop over the queue; [queue] is the part from the cursor on. *)
Fixpoint depth_loop (fuel : nat) (reachable : gset nat) (queue : list nat) (indegree : list Z) (depth : list nat) (maximumDepth : nat)
  : option nat :=
  match queue with
  | [] => Some maximumDepth
  | source :: queue =>
      match fuel with
      | O => None
      | S fuel =>
          let depth := if (depth !!! source : nat) =? 0 then <[source := 1]> depth else depth in
          let maximumDepth := if maximumDepth <? (depth !!! source : nat) then depth !!! source else maximumDepth in
          let '(queue, indegree, depth) :=
            relax reachable source (sort_ints (elements (ca !!! source : gset nat))) queue indegree depth in
          depth_loop fuel reachable queue indegree depth maximumDepth
      end
  end.

Definition maximum_depth (roots : list nat) : option nat :=
  reachable ← reachable_components roots;
  let indegree := indegrees reachable in
  depth_loop (length ca) reachable (initial_queue reachable indegree) indegree (initial_depth roots) 0.
End Kahn.

(** The result of [graphComponents]; [cyclicComponents] is the Go map as a list of flags. *)
Record components : Type := mkComponents {
  componentByNode : list Z;
  nodesByComponent : list (list nat);
  cyclicComponents : list bool;
  maximumDepth : nat
}.

(** The body of [graphComponents] on the adjacency and the indices of the roots. *)
Definition analyse (adjacency : list (list nat)) (roots : list nat) : option components :=
  '(comp, groups) ← strong_components adjacency;
  m ← maximum_depth (component_adjacency adjacency comp groups) (root_components comp groups roots);
  Some (mkComponents comp groups (cyclic_components adjacency groups) m).

(** Two concrete runs: a chain into a cycle, and a self-loop. *)
Example finish_order_run : finish_order [[1]; [2]; [1; 3]; []] = Some [3; 2; 1; 0].
Proof. reflexivity. Qed.
Example strong_components_run :
  strong_components [[1]; [2]; [1; 3]; []] = Some ([0%Z; 1%Z; 1%Z; 2%Z], [[0]; [1; 2]; [3]]).
Proof. reflexivity. Qed.
Example cyclic_components_run : cyclic_components [[1]; [2]; [1; 3]; []] [[0]; [1; 2]; [3]] = [false; true; false].
Proof. reflexivity. Qed.

Example maximum_depth_run : maximum_depth [{[1; 2]}; {[2]}; ∅] [0; 1] = Some 3.
Proof. vm_compute. reflexivity. Qed.

(** ** The graph the passes are about *)
Section Graph.
Context (adjacency : list (list nat)).

Definition edge (u v : nat) : Prop := v ∈ neighbors adjacency u.

(** Reachability, and the relation of strong connection the components should be. *)
Definition reach : relation nat := rtc edge.
Definition mutual (u v : nat) : Prop := reach u v /\ reach v u.

#[global] Instance reach_preorder : PreOrder reach.
Proof. apply _. Qed.

#[global] Instance mutual_equivalence : Equivalence mutual.
Proof.
  split.
  - intros u. split; reflexivity.
  - intros u v [H1 H2]. by split.
  - intros u v w [H1 H2] [H3 H4]. split; [by transitivity v|by transitivity v].
Qed.

(** Every target is a node. *)
Definition bounded_graph : Prop := Forall (Forall (fun v => v < length adjacency)) adjacency.

(** [w] finishes with or after [y]. *)
Definition later (l : list nat) (y w : nat) : Prop := exists l1 l2, l = l1 ++ y :: l2 /\ w ∈ y :: l2.

Lemma edge_reach u v : edge u v -> reach u v.
Proof. apply rtc_once. Qed.

Lemma neighbors_out u : length adjacency <= u -> neighbors adjacency u = [].
Proof. intros H. unfold neighbors. rewrite list_lookup_total_alt, lookup_ge_None_2 by done. done. Qed.

Context (Hbounded : bounded_graph).

Lemma edge_bounded u v : edge u v -> u < length adjacency /\ v < length adjacency.
Proof.
  intros He. assert (Hu : u < length adjacency).
  { destruct (decide (u < length adjacency)) as [|Hu]; [done|]. unfold edge in He.
    rewrite neighbors_out in He by lia. by apply not_elem_of_nil in He. }
  split; [done|]. unfold bounded_graph in Hbounded. rewrite Forall_forall in Hbounded.
  unfold edge, neighbors in He. rewrite list_lookup_total_alt in He.
  destruct (lookup_lt_is_Some_2 adjacency u Hu) as [l Hl]. rewrite Hl in He.
  specialize (Hbounded l (list_elem_of_lookup_2 _ _ _ Hl)). rewrite Forall_forall in Hbounded. by apply Hbounded.
Qed.

Lemma later_app l y w l' : later l y w -> later (l ++ l') y w.
Proof.
  intros (l1 & l2 & -> & Hw). exists l1, (l2 ++ l'). rewrite <- app_assoc. split; [done|].
  rewrite app_comm_cons. apply elem_of_app. by left.
Qed.

Lemma later_last l y w : y ∈ l ++ [w] -> later (l ++ [w]) y w.
Proof.
  intros (l1 & l2 & E)%list_elem_of_split. exists l1, l2. split; [done|].
  destruct l2 as [|z l2 IHl] using rev_ind; [|clear IHl].
  - apply (app_inj_tail l l1) in E as [? ->]. by left.
  - rewrite app_comm_cons, app_assoc in E. apply app_inj_tail in E as [? ->].
    right. apply elem_of_app. right. by left.
Qed.

(** *** The first pass

    The nodes on the stack are the open ones; each reaches those above it.  A finished node
    is either strongly connected to an open node, or all it reaches has finished and
    something strongly connected to it finished last among those. *)
Record finish_inv (stack : list frame) (visited : list bool) (finish : list nat) : Prop := {
  fi_length : length visited = length adjacency;
  fi_nodup : NoDup ((f_node <$> stack) ++ finish);
  fi_visited : forall i, visited !! i = Some true <-> i ∈ (f_node <$> stack) ++ finish;
  fi_chain : StronglySorted (fun g h => reach h g) (f_node <$> stack);
  fi_next : Forall (fun f => forall v, v ∈ take (f_next f) (neighbors adjacency (f_node f)) -> visited !! v = Some true) stack;
  fi_closed : forall u v, u ∈ finish -> edge u v -> visited !! v = Some true;
  fi_order : forall u y, u ∈ finish -> reach u y ->
    (exists h, h ∈ f_node <$> stack /\ mutual u h) \/
    (y ∈ finish /\ exists w, mutual w u /\ later finish y w)
}.

Lemma visited_insert (visited : list bool) t i :
  t < length visited -> (<[t := true]> visited !! i = Some true <-> i = t \/ visited !! i = Some true).
Proof.
  intros Ht. destruct (decide (i = t)) as [->|Hne].
  - rewrite list_lookup_insert_eq by done. naive_solver.
  - rewrite list_lookup_insert_ne by done. split; [by right|]. by intros [?|?].
Qed.

(** A frame moves to its next target. *)
Lemma finish_inv_advance pre f rest visited finish t :
  finish_inv (pre ++ f :: rest) visited finish -> next_target adjacency f = Some t -> visited !! t = Some true ->
  finish_inv (pre ++ mkFrame (f_node f) (S (f_next f)) :: rest) visited finish.
Proof.
  intros [] Hn Hv. rewrite fmap_app in *. split; rewrite ?fmap_app; try done.
  apply Forall_app in fi_next0 as [Hpre [Hf Hrest]%Forall_cons]. apply Forall_app. split; [done|].
  apply Forall_cons. split; [|done].
  cbn [f_node f_next]. intros v Hin. unfold next_target in Hn.
  rewrite (take_S_r _ _ t) in Hin by done. apply elem_of_app in Hin as [Hin|Hin%list_elem_of_singleton]; [auto|by subst].
Qed.

(** A new node is entered. *)
Lemma finish_inv_push stack visited finish t :
  finish_inv stack visited finish -> t < length adjacency -> visited !! t <> Some true ->
  (forall h, h ∈ f_node <$> stack -> reach h t) ->
  finish_inv (mkFrame t 0 :: stack) (<[t := true]> visited) finish.
Proof.
  intros [] Ht Hv Hr. rewrite fi_visited0 in Hv. split.
  - by rewrite length_insert.
  - cbn. apply NoDup_cons. done.
  - intros i. rewrite visited_insert by lia. rewrite fi_visited0. cbn. by rewrite elem_of_cons.
  - cbn. constructor; [done|]. rewrite Forall_forall. apply Hr.
  - apply Forall_cons. split; [intros v Hin; by apply not_elem_of_nil in Hin|].
    eapply Forall_impl; [exact fi_next0|]. intros f Hf v Hin. apply visited_insert; [lia|]. right. by apply Hf.
  - intros u v Hu He. apply visited_insert; [lia|]. right. eauto.
  - intros u y Hu Hy. destruct (fi_order0 u y Hu Hy) as [(h & Hh & Hm)|H]; [|by right].
    left. exists h. split; [by right|done].
Qed.

(** What the node that finishes reaches is finished too, or an open node below it. *)
Lemma finished_reach f rest visited finish y :
  finish_inv (f :: rest) visited finish -> next_target adjacency f = None -> reach (f_node f) y ->
  (exists h, h ∈ f_node <$> rest /\ reach (f_node f) h) \/ y ∈ finish ++ [f_node f].
Proof.
  intros [] Hn. revert y. refine (rtc_ind_r _ _ _ _); [right; apply elem_of_app; right; by left|].
  intros y' y Hy' He IH.
  destruct IH as [IH|IH]; [by left|].
  assert (Hv : visited !! y = Some true).
  { apply elem_of_app in IH as [IH|IH%list_elem_of_singleton]; [by eauto|]. subst y'.
    apply Forall_cons in fi_next0 as [Hf _]. apply Hf. unfold next_target in Hn.
    apply lookup_ge_None_1 in Hn. rewrite take_ge by done. exact He. }
  apply fi_visited0 in Hv. cbn in Hv. apply elem_of_cons in Hv as [->|[Hv|Hv]%elem_of_app].
  - right. apply elem_of_app. right. by left.
  - left. exists y. split; [done|]. eapply rtc_r; eauto.
  - right. apply elem_of_app. by left.
Qed.

(** The node at the top finishes. *)
Lemma finish_inv_pop f rest visited finish :
  finish_inv (f :: rest) visited finish -> next_target adjacency f = None ->
  finish_inv rest visited (finish ++ [f_node f]).
Proof.
  intros Hinv Hn. pose proof (fun y => finished_reach f rest visited finish y Hinv Hn) as Hreach.
  destruct Hinv. cbn in fi_nodup0, fi_visited0, fi_chain0, fi_order0.
  apply StronglySorted_inv in fi_chain0 as [Hsorted Hchain]. rewrite Forall_forall in Hchain.
  assert (Htop : forall y, reach (f_node f) y ->
    (exists h, h ∈ f_node <$> rest /\ mutual (f_node f) h) \/ y ∈ finish ++ [f_node f]).
  { intros y Hy. destruct (Hreach y Hy) as [(h & Hh & Hr)|]; [|by right].
    left. exists h. split; [done|]. split; [done|]. by apply Hchain. }
  apply Forall_cons in fi_next0 as [Hf Hrest].
  split; try done.
  - rewrite app_assoc, (Permutation_app_comm _ [f_node f]). done.
  - intros i. rewrite fi_visited0, !elem_of_app, elem_of_cons, elem_of_app, list_elem_of_singleton. tauto.
  - intros u v [Hu|Hu%list_elem_of_singleton]%elem_of_app He; [by eauto|]. subst u. apply Hf.
    unfold next_target in Hn. apply lookup_ge_None_1 in Hn. rewrite take_ge by done. exact He.
  - intros u y Hu Hy.
    assert (Hself : mutual u (f_node f) ->
      (exists h, h ∈ f_node <$> rest /\ mutual u h) \/
      (y ∈ finish ++ [f_node f] /\ exists w, mutual w u /\ later (finish ++ [f_node f]) y w)).
    { intros Hm. destruct (Htop y) as [(h & Hh & Hm')|Hin].
      - transitivity u; [apply Hm|done].
      - left. exists h. split; [done|]. by transitivity (f_node f).
      - right. split; [done|]. exists (f_node f). split; [by symmetry|]. by apply later_last. }
    apply elem_of_app in Hu as [Hu|Hu%list_elem_of_singleton]; [|subst u; by apply Hself].
    destruct (fi_order0 u y Hu Hy) as [(h & [->|Hh]%elem_of_cons & Hm)|(Hin & w & Hw & Hl)].
    + by apply Hself.
    + left. eauto.
    + right. split; [apply elem_of_app; by left|]. exists w. split; [done|]. by apply later_app.
Qed.

(** The fuel: every frame and every node not yet entered costs one step per edge and one to
    finish. *)
Definition frame_cost (f : frame) : nat := S (length (neighbors adjacency (f_node f)) - f_next f).
Definition stack_cost (stack : list frame) : nat := foldr (fun f cost => frame_cost f + cost) 0 stack.
Definition fresh_cost (visited : list bool) (adj : list (list nat)) : nat :=
  sum_list (zip_with (fun (b : bool) l => if b then 0 else S (length l)) visited adj).

Lemma fresh_cost_insert visited adj t l :
  visited !! t = Some false -> adj !! t = Some l ->
  fresh_cost visited adj = fresh_cost (<[t := true]> visited) adj + S (length l).
Proof.
  unfold fresh_cost. revert adj t. induction visited as [|b visited IH]; intros [|a adj] [|t] Hv Ha; simplify_eq/=.
  - lia.
  - rewrite (IH adj t Hv Ha). lia.
Qed.

Lemma fresh_cost_le visited adj : fresh_cost visited adj <= length adj + sum_list (length <$> adj).
Proof.
  unfold fresh_cost. revert adj. induction visited as [|b visited IH]; intros [|a adj]; cbn; try lia.
  specialize (IH adj). destruct b; lia.
Qed.

Lemma visited_total (visited : list bool) t :
  t < length visited -> visited !! t = Some (visited !!! t).
Proof. apply list_lookup_lookup_total_lt. Qed.

Lemma neighbors_lookup t : t < length adjacency -> adjacency !! t = Some (neighbors adjacency t).
Proof. apply list_lookup_lookup_total_lt. Qed.

Lemma next_target_edge f t : next_target adjacency f = Some t -> edge (f_node f) t /\ f_next f < length (neighbors adjacency (f_node f)).
Proof.
  intros Hn. split; [|by eapply lookup_lt_Some]. by eapply list_elem_of_lookup_2.
Qed.

(** Entering a target of the frame at the top. *)
Lemma finish_inv_enter f rest visited finish t :
  finish_inv (f :: rest) visited finish -> next_target adjacency f = Some t -> visited !! t <> Some true ->
  finish_inv (mkFrame t 0 :: mkFrame (f_node f) (S (f_next f)) :: rest) (<[t := true]> visited) finish.
Proof.
  intros Hinv Hn Hv. destruct (next_target_edge f t Hn) as [He _]. destruct (edge_bounded _ _ He) as [_ Ht].
  apply (finish_inv_advance [mkFrame t 0] f rest _ _ t); [|done|].
  - apply finish_inv_push; [done..|]. intros h. cbn. pose proof (fi_chain _ _ _ Hinv) as Hc. cbn in Hc.
    apply StronglySorted_inv in Hc as [_ Hc]. rewrite Forall_forall in Hc.
    intros [->|Hh]%elem_of_cons; [by apply edge_reach|]. transitivity (f_node f); [by apply Hc|by apply edge_reach].
  - apply visited_insert; [rewrite (fi_length _ _ _ Hinv); done|by left].
Qed.

Lemma finish_loop_runs fuel stack visited finish :
  finish_inv stack visited finish -> stack_cost stack + fresh_cost visited adjacency <= fuel ->
  exists visited' finish', finish_loop adjacency fuel stack visited finish = Some (visited', finish') /\
    finish_inv [] visited' finish' /\ (forall i, visited !! i = Some true -> visited' !! i = Some true).
Proof.
  revert stack visited finish. induction fuel as [|fuel IH]; intros [|f rest] visited finish Hinv Hfuel;
    [by eexists _, _| cbn in Hfuel; unfold frame_cost in Hfuel; lia |by eexists _, _|].
  cbn [finish_loop]. cbn [stack_cost foldr] in Hfuel. fold (stack_cost rest) in Hfuel.
  destruct (next_target adjacency f) as [t|] eqn:En.
  - destruct (next_target_edge f t En) as [He Hlt]. destruct (edge_bounded _ _ He) as [_ Ht].
    pose proof (visited_total visited t) as Hvt. rewrite (fi_length _ _ _ Hinv) in Hvt. specialize (Hvt Ht).
    unfold frame_cost in Hfuel. destruct (visited !!! t) eqn:Ev.
    + apply IH; [by eapply (finish_inv_advance [])|].
      cbn [stack_cost foldr]. fold (stack_cost rest). unfold frame_cost. cbn [f_node f_next]. lia.
    + destruct (IH (mkFrame t 0 :: mkFrame (f_node f) (S (f_next f)) :: rest) (<[t := true]> visited) finish) as (v' & f' & Hr & Hi & Hm).
      * apply finish_inv_enter; [done..|]. by rewrite Hvt.
      * rewrite (fresh_cost_insert visited adjacency t _ Hvt (neighbors_lookup t Ht)) in Hfuel.
        cbn [stack_cost foldr]. fold (stack_cost rest). unfold frame_cost. cbn [f_node f_next]. lia.
      * exists v', f'. split; [done|]. split; [done|]. intros i Hi'. apply Hm, visited_insert; [by rewrite (fi_length _ _ _ Hinv)|by right].
  - apply IH; [by apply finish_inv_pop|]. unfold frame_cost in Hfuel. lia.
Qed.

Lemma finish_inv_start visited finish start :
  finish_inv [] visited finish -> start < length adjacency -> visited !! start <> Some true ->
  finish_inv [mkFrame start 0] (<[start := true]> visited) finish.
Proof. intros Hinv Hs Hv. apply finish_inv_push; [done..|]. intros h Hh. by apply not_elem_of_nil in Hh. Qed.

Lemma finish_from_runs starts visited finish :
  finish_inv [] visited finish -> Forall (fun s => s < length adjacency) starts ->
  exists visited' finish', finish_from adjacency starts visited finish = Some (visited', finish') /\
    finish_inv [] visited' finish' /\
    (forall i, visited !! i = Some true \/ i ∈ starts -> visited' !! i = Some true).
Proof.
  revert visited finish. induction starts as [|s starts IH]; intros visited finish Hinv Hs.
  { eexists _, _. split; [done|]. split; [done|]. intros i [|H]; [done|by apply not_elem_of_nil in H]. }
  apply Forall_cons in Hs as [Hs Hss]. cbn [finish_from].
  pose proof (visited_total visited s) as Hvs. rewrite (fi_length _ _ _ Hinv) in Hvs. specialize (Hvs Hs).
  destruct (visited !!! s) eqn:Ev.
  - destruct (IH visited finish Hinv Hss) as (v' & f' & Hr & Hi & Hm). exists v', f'. split; [done|]. split; [done|].
    intros i [|[->|]%elem_of_cons]; eauto.
  - destruct (finish_loop_runs (pass_fuel adjacency) [mkFrame s 0] (<[s := true]> visited) finish) as (v1 & f1 & -> & Hi1 & Hm1).
    + apply finish_inv_start; [done..|]. by rewrite Hvs.
    + pose proof (fresh_cost_le visited adjacency) as Hle.
      rewrite (fresh_cost_insert visited adjacency s _ Hvs (neighbors_lookup s Hs)) in Hle.
      cbn [stack_cost foldr]. unfold frame_cost, pass_fuel. cbn [f_node f_next]. lia.
    + destruct (IH v1 f1 Hi1 Hss) as (v' & f' & Hr & Hi & Hm). exists v', f'. split; [done|]. split; [done|].
      assert (Hlt : s < length visited) by (rewrite (fi_length _ _ _ Hinv); done).
      intros i [Hin|[->|]%elem_of_cons]; [|apply Hm; left; apply Hm1..|apply Hm; by right].
      * apply Hm. left. apply Hm1, visited_insert; [done|by right].
      * apply visited_insert; [done|by left].
Qed.

(** What the first pass leaves: every node once, and among the nodes strongly connected to
    [u] one that finishes with or after everything [u] reaches. *)
Record finish_spec (finish : list nat) : Prop := {
  fs_nodup : NoDup finish;
  fs_nodes : forall i, i ∈ finish <-> i < length adjacency;
  fs_order : forall u y, u ∈ finish -> reach u y -> y ∈ finish /\ exists w, mutual w u /\ later finish y w
}.

Lemma finish_inv_nil : finish_inv [] (replicate (length adjacency) false) [].
Proof.
  split; cbn.
  - apply length_replicate.
  - constructor.
  - intros i. split; [by intros [? _]%lookup_replicate_1|by intros ?%not_elem_of_nil].
  - constructor.
  - constructor.
  - by intros u v ?%not_elem_of_nil.
  - by intros u y ?%not_elem_of_nil.
Qed.

Lemma finish_order_spec : exists finish, finish_order adjacency = Some finish /\ finish_spec finish.
Proof.
  destruct (finish_from_runs (seq 0 (length adjacency)) (replicate (length adjacency) false) []) as (v & f & Hr & Hi & Hm).
  - apply finish_inv_nil.
  - apply Forall_forall. intros s Hs%elem_of_seq. lia.
  - unfold finish_order. rewrite Hr. exists f. split; [done|]. destruct Hi. split.
    + done.
    + intros i. split.
      * intros Hin. apply fi_visited0 in Hin. apply lookup_lt_Some in Hin. lia.
      * intros Hlt. apply fi_visited0, Hm. right. apply elem_of_seq. lia.
    + intros u y Hu Hy. destruct (fi_order0 u y Hu Hy) as [(h & Hh & _)|H]; [by apply not_elem_of_nil in Hh|done].
Qed.

(** *** The reversed edges *)
Lemma append_sources (from : nat) targets (r : list (list nat)) v s :
  v < length r ->
  let r' := foldl (fun r to => alter (fun l => l ++ [from]) to r) r targets in
  length r' = length r /\ (s ∈ r' !!! v <-> s ∈ r !!! v \/ (s = from /\ v ∈ targets)).
Proof.
  revert r. induction targets as [|t targets IH]; intros r Hv; cbn.
  - split; [done|]. rewrite elem_of_nil. tauto.
  - destruct (IH (alter (fun l => l ++ [from]) t r)) as [Hl Hs]; [by rewrite length_alter|].
    rewrite length_alter in Hl. split; [done|]. rewrite Hs, elem_of_cons, !list_lookup_total_alt, list_lookup_alter.
    destruct (lookup_lt_is_Some_2 r v Hv) as [l Hlk]. case_decide; subst.
    + rewrite Hlk. cbn. rewrite elem_of_app, list_elem_of_singleton. tauto.
    + rewrite Hlk. cbn. naive_solver.
Qed.

Lemma append_edges (rows : list (nat * list nat)) (r : list (list nat)) v s :
  v < length r ->
  let r' := foldl (fun reverse '(from, targets) =>
    foldl (fun r to => alter (fun l => l ++ [from]) to r) reverse targets) r rows in
  length r' = length r /\ (s ∈ r' !!! v <-> s ∈ r !!! v \/ exists targets, (s, targets) ∈ rows /\ v ∈ targets).
Proof.
  revert r. induction rows as [|[from targets] rows IH]; intros r Hv; cbn.
  - split; [done|]. split; [by left|]. by intros [|(t & ?%not_elem_of_nil & _)].
  - destruct (append_sources from targets r v s Hv) as [Hl1 Hs1].
    destruct (IH (foldl (fun r to => alter (fun l => l ++ [from]) to r) r targets)) as [Hl2 Hs2]; [lia|].
    split; [lia|]. rewrite Hs2, Hs1. setoid_rewrite elem_of_cons. split.
    + intros [[|[-> Hin]]|(t & Ht & Hin)]; [by left|right; exists targets; auto|right; exists t; auto].
    + intros [|(t & [[= -> ->]|Ht] & Hin)]; [by left; left|left; right; auto|right; exists t; auto].
Qed.

Lemma elem_of_reversed v s : v < length adjacency -> s ∈ reverse_of adjacency !!! v <-> edge s v.
Proof.
  intros Hv. unfold reverse_of.
  destruct (append_edges (zip (seq 0 (length adjacency)) adjacency) (replicate (length adjacency) []) v s) as [_ ->];
    [by rewrite length_replicate|].
  rewrite lookup_total_replicate_2 by done. split.
  - intros [?%not_elem_of_nil|(t & Hin & Ht)]; [done|].
    apply list_elem_of_lookup_1 in Hin as [i Hi]. apply lookup_zip_Some in Hi as [Hi1 Hi2].
    apply lookup_seq in Hi1 as [-> Hlt]. unfold edge, neighbors. cbn in Ht. by rewrite (list_lookup_total_correct _ _ _ Hi2).
  - intros He. right. exists (neighbors adjacency s). split; [|done].
    destruct (edge_bounded _ _ He) as [Hs _]. apply (list_elem_of_lookup_2 _ s).
    apply lookup_zip_Some. split; [apply lookup_seq; lia|]. by apply neighbors_lookup.
Qed.

(** *** One round of the second pass

    [old] is the assignment before the round, [start] its first node. *)
Definition assigned (comp : list Z) (i : nat) : Prop := exists z, comp !! i = Some z /\ z <> (-1)%Z.

Record assign_core (old : list Z) (component : Z) (start : nat) (pending : list nat) (comp : list Z) : Prop := {
  ac_length : length comp = length adjacency;
  ac_nodup : NoDup pending;
  ac_comp : forall i, comp !! i = Some component <-> i ∈ pending;
  ac_new : forall i, i ∈ pending -> old !! i = Some (-1)%Z /\ reach i start;
  ac_rest : forall i, i ∉ pending -> comp !! i = old !! i
}.

Lemma assign_core_permutation old component start p1 p2 comp :
  p1 ≡ₚ p2 -> assign_core old component start p1 comp -> assign_core old component start p2 comp.
Proof.
  intros Hp []. split; [done|by rewrite <- Hp|..]; intros i.
  - rewrite <- Hp. done.
  - rewrite <- Hp. apply ac_new0.
  - rewrite <- Hp. apply ac_rest0.
Qed.

Lemma assigned_mono old component start p comp i :
  component <> (-1)%Z -> assign_core old component start p comp -> assigned old i -> assigned comp i.
Proof.
  intros Hc [] (z & Hz & Hne). destruct (decide (i ∈ p)) as [Hin|Hin].
  - exists component. split; [by apply ac_comp0|done].
  - exists z. by rewrite ac_rest0.
Qed.

Lemma assign_sources_core old component start node sources stack comp members :
  component <> (-1)%Z -> length old = length adjacency -> (forall s, s ∈ sources -> edge s node) -> reach node start ->
  assign_core old component start (stack ++ members) comp ->
  let '(stack', comp') := assign_sources component sources stack comp in
  assign_core old component start (stack' ++ members) comp' /\
  (forall s, s ∈ sources \/ assigned comp s -> assigned comp' s).
Proof.
  intros Hc Hold Hs Hn. revert stack comp. induction sources as [|s sources IH]; intros stack comp Hcore; cbn [assign_sources].
  { split; [done|]. by intros s [?%not_elem_of_nil|]. }
  assert (He : edge s node) by (apply Hs; by left). destruct (edge_bounded _ _ He) as [Hlt _].
  pose proof (list_lookup_lookup_total_lt comp s ltac:(rewrite (ac_length _ _ _ _ _ Hcore); done)) as Hlk.
  specialize (IH ltac:(intros; apply Hs; by right)). destruct (Z.eqb_spec (comp !!! s) (-1)) as [Heq|Hne].
  - assert (Hnew : s ∉ stack ++ members).
    { intros Hin. apply (ac_comp _ _ _ _ _ Hcore) in Hin. congruence. }
    assert (Hins : forall i, <[s:=component]> comp !! i = if decide (i = s) then Some component else comp !! i).
    { intros i. case_decide; [subst; apply list_lookup_insert_eq; rewrite (ac_length _ _ _ _ _ Hcore); done|].
      by apply list_lookup_insert_ne. }
    specialize (IH (s :: stack) (<[s:=component]> comp)).
    destruct (assign_sources component sources (s :: stack) (<[s:=component]> comp)) as [stack' comp'].
    destruct IH as [Hcore' Has].
    { destruct Hcore. cbn. split.
      - by rewrite length_insert.
      - by apply NoDup_cons.
      - intros i. rewrite Hins, elem_of_cons. case_decide; subst; [naive_solver|]. rewrite ac_comp0. naive_solver.
      - intros i [->|Hin]%elem_of_cons; [|by apply ac_new0].
        split; [rewrite <- (ac_rest0 s Hnew); congruence|]. transitivity node; [by apply edge_reach|done].
      - intros i [Hi1 Hi2]%not_elem_of_cons. rewrite Hins, decide_False by done. by apply ac_rest0. }
    split; [done|]. intros i [[->|Hi]%elem_of_cons|(z & Hz & Hz1)]; apply Has; [|by left|].
    + right. exists component. rewrite Hins, decide_True by done. done.
    + right. destruct (decide (i = s)) as [->|Hi]; [congruence|]. exists z. by rewrite Hins, decide_False.
  - specialize (IH stack comp Hcore). destruct (assign_sources component sources stack comp) as [stack' comp'].
    destruct IH as [Hcore' Has]. split; [done|].
    intros i [[->|Hi]%elem_of_cons|Hi]; apply Has; [|by left|by right]. right. by exists (comp !!! s).
Qed.

Lemma assign_core_bound old component start pending comp :
  assign_core old component start pending comp -> length pending <= length adjacency.
Proof.
  intros []. rewrite <- (length_seq (length adjacency) 0). apply submseteq_length, NoDup_submseteq; [done|].
  intros i Hi. apply ac_comp0, lookup_lt_Some in Hi. apply elem_of_seq. lia.
Qed.

(** The sources of every member are assigned. *)
Definition members_closed (comp : list Z) (members : list nat) : Prop :=
  forall i s, i ∈ members -> edge s i -> assigned comp s.

Lemma assign_sources_stack component sources stack comp :
  exists extra, fst (assign_sources component sources stack comp) = extra ++ stack.
Proof.
  revert stack comp. induction sources as [|s sources IH]; intros stack comp; cbn [assign_sources]; [by exists []|].
  case_match; [|apply IH]. destruct (IH (s :: stack) (<[s := component]> comp)) as [extra ->].
  exists (extra ++ [s]). by rewrite <- app_assoc.
Qed.

Lemma assign_loop_runs fuel old component start stack comp members :
  component <> (-1)%Z -> length old = length adjacency ->
  assign_core old component start (stack ++ members) comp -> members_closed comp members ->
  length adjacency <= fuel + length members ->
  exists comp' members', assign_loop adjacency fuel component stack comp members = Some (comp', members') /\
    assign_core old component start members' comp' /\ members_closed comp' members' /\
    (forall i, i ∈ stack ++ members -> i ∈ members').
Proof.
  intros Hc Hold. revert stack comp members.
  induction fuel as [|fuel IH]; intros [|node stack] comp members Hcore Hclosed Hfuel;
    [by eexists _, _| |by eexists _, _|].
  { apply assign_core_bound in Hcore. rewrite length_app in Hcore. cbn in *. lia. }
  cbn [assign_loop].
  assert (Hnode : node ∈ (node :: stack) ++ members) by (by left).
  pose proof Hnode as Hnode'. apply (ac_comp _ _ _ _ _ Hcore) in Hnode'. apply lookup_lt_Some in Hnode'.
  rewrite (ac_length _ _ _ _ _ Hcore) in Hnode'. apply (ac_new _ _ _ _ _ Hcore) in Hnode as [_ Hreach].
  pose proof (assign_sources_core old component start node (reverse_of adjacency !!! node) stack comp (members ++ [node])
    Hc Hold (fun s => proj1 (elem_of_reversed node s Hnode')) Hreach) as Hstep.
  destruct (assign_sources component (reverse_of adjacency !!! node) stack comp) as [stack' comp'] eqn:Es.
  destruct Hstep as [Hcore' Has].
  { eapply assign_core_permutation; [|exact Hcore]. rewrite app_assoc. apply Permutation_cons_append. }
  destruct (IH stack' comp' (members ++ [node])) as (comp2 & members2 & Hr & Hcore2 & Hclosed2 & Hin2).
  - done.
  - intros i s [Hi|Hi%list_elem_of_singleton]%elem_of_app He; apply Has.
    + right. by eapply Hclosed.
    + left. subst i. by apply elem_of_reversed.
  - rewrite length_app. cbn. lia.
  - exists comp2, members2. split; [done|]. split; [done|]. split; [done|].
    intros i Hi. apply Hin2. cbn in Hi. rewrite !elem_of_app, list_elem_of_singleton.
    apply elem_of_cons in Hi as [->|[Hi|Hi]%elem_of_app]; [by right; right| |by right; left].
    left. destruct (assign_sources_stack component (reverse_of adjacency !!! node) stack comp) as [extra Hextra].
    rewrite Es in Hextra. cbn in Hextra. rewrite Hextra. apply elem_of_app. by right.
Qed.

Lemma assign_core_start old groups start :
  length old = length adjacency -> old !! start = Some (-1)%Z ->
  (forall i z, old !! i = Some z -> (z = -1 \/ 0 <= z < groups)%Z) -> (0 <= groups)%Z ->
  assign_core old groups start [start] (<[start := groups]> old).
Proof.
  intros Hlen Hs Hrange Hg. assert (Hlt : start < length old) by (by eapply lookup_lt_Some). split.
  - by rewrite length_insert.
  - apply NoDup_singleton.
  - intros i. rewrite list_elem_of_singleton. destruct (decide (i = start)) as [->|Hne].
    + by rewrite list_lookup_insert_eq.
    + rewrite list_lookup_insert_ne by done. split; [|done]. intros Hi. destruct (Hrange i _ Hi); lia.
  - intros i Hi%list_elem_of_singleton. subst. split; [done|]. reflexivity.
  - intros i Hi. rewrite list_elem_of_singleton in Hi. by apply list_lookup_insert_ne.
Qed.

(** *** The partition *)
Record part_inv (comp : list Z) (groups : list (list nat)) : Prop := {
  pi_length : length comp = length adjacency;
  pi_range : forall i z, comp !! i = Some z -> (z = -1 \/ 0 <= z < Z.of_nat (length groups))%Z;
  pi_class : forall i j z, comp !! i = Some z -> z <> (-1)%Z -> (comp !! j = Some z <-> mutual i j);
  pi_groups : forall c g, groups !! c = Some g ->
    Sorted Nat.le g /\ NoDup g /\ g <> [] /\ (forall i, i ∈ g <-> comp !! i = Some (Z.of_nat c));
  pi_topo : forall u v z, edge u v -> comp !! v = Some z -> z <> (-1)%Z ->
    exists z', comp !! u = Some z' /\ (-1 < z' <= z)%Z
}.

Lemma sort_ints_elem l i : i ∈ sort_ints l <-> i ∈ l.
Proof. unfold sort_ints. by rewrite merge_sort_Permutation. Qed.

Lemma sort_ints_NoDup l : NoDup (sort_ints l) <-> NoDup l.
Proof. unfold sort_ints. by rewrite merge_sort_Permutation. Qed.

(** The members of a round are the nodes strongly connected to its start, if every node that
    reaches the start and is not assigned yet is. *)
Lemma round_members comp groups start comp' members :
  part_inv comp groups -> comp !! start = Some (-1)%Z ->
  (forall u, reach u start -> comp !! u = Some (-1)%Z -> mutual start u) ->
  assign_core comp (Z.of_nat (length groups)) start members comp' -> members_closed comp' members -> start ∈ members ->
  forall i, i ∈ members <-> mutual start i.
Proof.
  intros Hpart Hs Hfirst Hcore Hclosed Hin i. split.
  { intros [Hi Hr]%(ac_new _ _ _ _ _ Hcore). by apply Hfirst. }
  intros [Hsi His]. revert Hsi. refine (rtc_ind_l (R := edge) (fun x => reach start x -> x ∈ members) start _ _ i His); [done|].
  intros x y Hxy Hys IH Hsx.
  assert (Hx : assigned comp' x) by (eapply Hclosed; [apply IH; by eapply rtc_r|done]).
  destruct (decide (x ∈ members)) as [|Hnot]; [done|]. destruct Hx as (z & Hz & Hz1).
  rewrite (ac_rest _ _ _ _ _ Hcore x Hnot) in Hz.
  assert (Hm : comp !! start = Some z).
  { apply (pi_class _ _ Hpart x start z Hz Hz1). split; [|done]. eapply rtc_l; eauto. }
  congruence.
Qed.

Lemma part_inv_round comp groups start comp' members :
  part_inv comp groups -> comp !! start = Some (-1)%Z ->
  (forall u, reach u start -> comp !! u = Some (-1)%Z -> mutual start u) ->
  assign_core comp (Z.of_nat (length groups)) start members comp' -> members_closed comp' members -> start ∈ members ->
  part_inv comp' (groups ++ [sort_ints members]).
Proof.
  intros Hpart Hs Hfirst Hcore Hclosed Hin.
  pose proof (round_members comp groups start comp' members Hpart Hs Hfirst Hcore Hclosed Hin) as Hmem.
  pose proof (ac_comp _ _ _ _ _ Hcore) as Hcomp. pose proof (ac_rest _ _ _ _ _ Hcore) as Hrest.
  assert (Hold : forall i z, comp !! i = Some z -> z <> (-1)%Z -> i ∉ members).
  { intros i z Hz Hne Hi. apply (ac_new _ _ _ _ _ Hcore) in Hi as [Hi _]. congruence. }
  assert (Hlow : forall i z, i ∉ members -> comp' !! i = Some z -> z <> (-1)%Z -> (0 <= z < Z.of_nat (length groups))%Z).
  { intros i z Hi Hz Hne. rewrite (Hrest i Hi) in Hz. by destruct (pi_range _ _ Hpart i z Hz). }
  split.
  - apply Hcore.
  - intros i z Hz. rewrite length_app. cbn. destruct (decide (i ∈ members)) as [Hi|Hi].
    + apply Hcomp in Hi. simplify_eq. lia.
    + destruct (decide (z = -1)%Z) as [|Hne]; [by left|]. specialize (Hlow i z Hi Hz Hne). lia.
  - intros i j z Hz Hne. destruct (decide (i ∈ members)) as [Hi|Hi].
    + pose proof Hi as Hi'. apply Hcomp in Hi'. simplify_eq. rewrite Hcomp, Hmem. apply Hmem in Hi.
      split; intros H; [by rewrite <- Hi|by rewrite Hi].
    + pose proof (Hlow i z Hi Hz Hne). rewrite (Hrest i Hi) in Hz. rewrite <- (pi_class _ _ Hpart i j z Hz Hne). split.
      * intros Hj. rewrite <- Hrest; [done|]. intros Hjm. apply Hcomp in Hjm. simplify_eq. lia.
      * intros Hj. rewrite Hrest; [done|]. by eapply Hold.
  - intros c g Hg. apply lookup_app_Some in Hg as [Hg|[Hc Hg]].
    + destruct (pi_groups _ _ Hpart c g Hg) as (H1 & H2 & H3 & H4). split; [done|]. split; [done|]. split; [done|].
      apply lookup_lt_Some in Hg. intros i. rewrite H4. split; intros Hi.
      * rewrite Hrest; [done|]. eapply Hold; [done|lia].
      * rewrite <- Hrest; [done|]. intros Him. apply Hcomp in Him. simplify_eq. lia.
    + apply list_lookup_singleton_Some in Hg as [Hc0 <-].
      split; [apply Sorted_merge_sort, _|]. rewrite sort_ints_NoDup. split; [apply Hcore|]. split.
      * intros E. by rewrite <- sort_ints_elem, E, elem_of_nil in Hin.
      * intros i. rewrite sort_ints_elem, <- Hcomp. by replace (Z.of_nat c) with (Z.of_nat (length groups)) by lia.
  - intros u v z He Hz Hne. destruct (decide (v ∈ members)) as [Hv|Hv].
    + pose proof Hv as Hv'. apply Hcomp in Hv'. simplify_eq. destruct (Hclosed v u Hv He) as (z' & Hz' & Hz1).
      exists z'. split; [done|]. destruct (decide (u ∈ members)) as [Hu|Hu].
      * apply Hcomp in Hu. simplify_eq. lia.
      * specialize (Hlow u z' Hu Hz' Hz1). lia.
    + rewrite (Hrest v Hv) in Hz. destruct (pi_topo _ _ Hpart u v z He Hz Hne) as (z' & Hz' & Hr).
      exists z'. split; [|done]. rewrite Hrest; [done|]. eapply Hold; [done|lia].
Qed.

Lemma NoDup_split_unique (a b c d : list nat) x :
  NoDup (a ++ x :: b) -> c ++ x :: d = a ++ x :: b -> a = c /\ b = d.
Proof.
  revert c. induction a as [|y a IH]; intros [|z c] Hnd E; cbn in *; simplify_eq; [done|..].
  - apply NoDup_cons in Hnd as [Hx _]. exfalso. apply Hx, elem_of_app. right. by left.
  - apply NoDup_cons in Hnd as [Hx _]. exfalso. apply Hx, elem_of_app. right. by left.
  - apply NoDup_cons in Hnd as [_ Hnd]. destruct (IH c Hnd) as [-> ->]; done.
Qed.

Lemma rev_alt_elem (l : list nat) i : i ∈ l <-> i ∈ rev l.
Proof. by rewrite <- Permutation_rev. Qed.

(** The start of a round is the first of the nodes strongly connected to any node that
    reaches it. *)
Lemma round_first finish processed start order comp groups u :
  finish_spec finish -> rev finish = processed ++ start :: order -> part_inv comp groups ->
  (forall i, i ∈ processed -> assigned comp i) ->
  reach u start -> comp !! u = Some (-1)%Z -> mutual start u.
Proof.
  intros Hfin Hrev Hpart Hproc Hr Hu.
  assert (Hin : u ∈ finish).
  { apply (fs_nodes _ Hfin). apply lookup_lt_Some in Hu. by rewrite (pi_length _ _ Hpart) in Hu. }
  destruct (fs_order _ Hfin u start Hin Hr) as (_ & w & Hw & l1 & l2 & Hl & Hwl).
  apply elem_of_cons in Hwl as [->|Hwl]; [done|]. exfalso.
  assert (Hsplit : processed = rev l2 /\ order = rev l1).
  { pose proof (fs_nodup _ Hfin) as Hnd. rewrite (Permutation_rev finish), Hrev in Hnd.
    rewrite Hl, rev_app_distr in Hrev. cbn in Hrev. rewrite <- app_assoc in Hrev. cbn in Hrev.
    by apply (NoDup_split_unique _ _ _ _ start). }
  destruct Hsplit as [-> _]. destruct (Hproc w) as (z & Hz & Hne); [by rewrite <- rev_alt_elem|].
  apply (pi_class _ _ Hpart w u z Hz Hne) in Hw. congruence.
Qed.

(** The whole second pass: [order] is what is left of the finishing order, from its end. *)
Lemma assign_from_runs finish processed order comp groups :
  finish_spec finish -> rev finish = processed ++ order -> part_inv comp groups ->
  (forall i, i ∈ processed -> assigned comp i) ->
  exists comp' groups', assign_from adjacency order comp groups = Some (comp', groups') /\
    part_inv comp' groups' /\ (forall i, i < length adjacency -> assigned comp' i).
Proof.
  intros Hfin. revert processed comp groups. induction order as [|start order IH]; intros processed comp groups Hrev Hpart Hproc.
  { exists comp, groups. split; [done|]. split; [done|]. intros i Hi. apply Hproc. rewrite app_nil_r in Hrev.
    rewrite <- Hrev, <- rev_alt_elem. by apply (fs_nodes _ Hfin). }
  cbn [assign_from].
  assert (Hs : start < length adjacency).
  { apply (fs_nodes _ Hfin), rev_alt_elem. rewrite Hrev. apply elem_of_app. right. by left. }
  pose proof (list_lookup_lookup_total_lt comp start ltac:(rewrite (pi_length _ _ Hpart); done)) as Hlk.
  assert (Hrev' : rev finish = (processed ++ [start]) ++ order) by (by rewrite <- app_assoc).
  destruct (Z.eqb_spec (comp !!! start) (-1)) as [E|E].
  - rewrite E in Hlk. set (c := Z.of_nat (length groups)).
    destruct (assign_loop_runs (length adjacency) comp c start [start] (<[start := c]> comp) []) as (comp2 & members & Hr & Hcore & Hclosed & Hin).
    + lia.
    + apply Hpart.
    + apply assign_core_start; [apply Hpart|done|apply Hpart|lia].
    + by intros i s ?%not_elem_of_nil.
    + lia.
    + rewrite Hr. cbn. apply (IH (processed ++ [start])); [done| |].
      * eapply part_inv_round; [done..| |done|done|apply Hin; by left]. intros u. by eapply round_first.
      * intros i [Hi|Hi%list_elem_of_singleton]%elem_of_app.
        -- eapply assigned_mono; [|done|by apply Hproc]. lia.
        -- subst i. exists c. split; [|lia]. apply (ac_comp _ _ _ _ _ Hcore), Hin. by left.
  - apply (IH (processed ++ [start])); [done|done|]. intros i [Hi|Hi%list_elem_of_singleton]%elem_of_app; [by apply Hproc|].
    subst i. by exists (comp !!! start).
Qed.
(** What the two passes compute: the partition of the nodes into the classes of strong
    connection, numbered along the edges. *)
Record components_spec (comp : list Z) (groups : list (list nat)) : Prop := {
  cs_length : length comp = length adjacency;
  cs_number : forall i, i < length adjacency -> exists c, c < length groups /\ comp !! i = Some (Z.of_nat c);
  cs_class : forall i j, i < length adjacency -> j < length adjacency -> (comp !! i = comp !! j <-> mutual i j);
  cs_groups : forall c g, groups !! c = Some g ->
    Sorted Nat.le g /\ NoDup g /\ g <> [] /\ (forall i, i ∈ g <-> comp !! i = Some (Z.of_nat c));
  cs_topo : forall u v cu cv, edge u v -> comp !! u = Some (Z.of_nat cu) -> comp !! v = Some (Z.of_nat cv) -> cu <= cv
}.

Lemma strong_components_spec :
  exists comp groups, strong_components adjacency = Some (comp, groups) /\ components_spec comp groups.
Proof.
  unfold strong_components. destruct finish_order_spec as (finish & -> & Hfin). cbn [mbind option_bind].
  destruct (assign_from_runs finish [] (rev finish) (replicate (length adjacency) (-1)%Z) []) as (comp & groups & Hr & Hpart & Has);
    [done|done| |by intros i ?%not_elem_of_nil|].
  { split; try done.
    - apply length_replicate.
    - intros i z [-> _]%lookup_replicate_1. by left.
    - by intros i j z [-> _]%lookup_replicate_1.
    - by intros u v z _ [-> _]%lookup_replicate_1. }
  exists comp, groups. split; [done|]. split.
  - apply Hpart.
  - intros i Hi. destruct (Has i Hi) as (z & Hz & Hne). destruct (pi_range _ _ Hpart i z Hz) as [|Hz2]; [done|].
    exists (Z.to_nat z). rewrite Z2Nat.id by lia. split; [lia|done].
  - intros i j Hi Hj. destruct (Has i Hi) as (z & Hz & Hne). rewrite <- (pi_class _ _ Hpart i j z Hz Hne), Hz. done.
  - apply Hpart.
  - intros u v cu cv He Hu Hv. destruct (pi_topo _ _ Hpart u v _ He Hv) as (z & Hz & Hr'); [lia|]. simplify_eq. lia.
Qed.

Lemma tc_rtc_l' u v : tc edge u v -> exists w, edge u w /\ reach w v.
Proof. intros [x y He|x y z He Ht]; [exists y; split; [done|reflexivity]|]. exists y. split; [done|by apply tc_rtc]. Qed.

Lemma reach_bounded u v : reach u v -> u <> v -> u < length adjacency /\ v < length adjacency.
Proof.
  intros Hr Hne. split.
  - destruct (rtc_inv _ _ Hr) as [|(w & He & _)]; [done|]. by apply edge_bounded in He as [? _].
  - destruct (rtc_inv_r _ _ Hr) as [|(w & _ & He)]; [done|]. by apply edge_bounded in He as [_ ?].
Qed.

(** The members of a component are the nodes strongly connected to any of them. *)
Lemma group_mutual comp groups c g i j :
  components_spec comp groups -> groups !! c = Some g -> i ∈ g -> j ∈ g <-> mutual i j.
Proof.
  intros Hspec Hg Hi. destruct (cs_groups _ _ Hspec c g Hg) as (_ & _ & _ & Hin).
  assert (Hlen : forall k, k ∈ g -> k < length adjacency).
  { intros k Hk%Hin%lookup_lt_Some. by rewrite (cs_length _ _ Hspec) in Hk. }
  split.
  - intros Hj. apply (cs_class _ _ Hspec); [by apply Hlen..|]. apply Hin in Hi, Hj. congruence.
  - intros Hm. destruct (decide (i = j)) as [<-|Hne]; [done|]. apply Hin.
    destruct (reach_bounded i j) as [_ Hj]; [apply Hm|done|].
    apply (cs_class _ _ Hspec) in Hm; [|by apply Hlen|done]. rewrite <- Hm. by apply Hin.
Qed.

(** A component is reported cyclic exactly when its members lie on a cycle. *)
Lemma cyclicb_spec comp groups c g i :
  components_spec comp groups -> groups !! c = Some g -> i ∈ g -> cyclicb adjacency g = true <-> tc edge i i.
Proof.
  intros Hspec Hg Hi. destruct (cs_groups _ _ Hspec c g Hg) as (_ & Hnd & _ & _).
  assert (Hmut : forall j, j ∈ g <-> mutual i j) by (intros j; by eapply group_mutual).
  unfold cyclicb. rewrite orb_true_iff, Nat.ltb_lt. split.
  - assert (Hother : forall j, j ∈ g -> j <> i -> tc edge i i).
    { intros j [H1 H2]%Hmut Hne. apply rtc_tc in H1 as [|H1]; [done|]. apply rtc_tc in H2 as [|H2]; [done|].
      by transitivity j. }
    intros [Hl|He].
    + destruct g as [|x [|y g]]; cbn in Hl; [lia..|]. apply NoDup_cons in Hnd as [Hx _].
      destruct (decide (x = i)) as [->|]; [|by apply (Hother x); [left|]].
      apply (Hother y); [right; by left|]. intros ->. apply Hx. by left.
    + destruct g as [|m g]; [done|]. apply bool_decide_eq_true in He.
      destruct (decide (m = i)) as [->|]; [by apply tc_once|]. by apply (Hother m); [left|].
  - intros Hc. destruct (tc_rtc_l' _ _ Hc) as (k & He & Hr).
    assert (Hk : k ∈ g) by (apply Hmut; split; [by apply edge_reach|done]).
    destruct g as [|x [|y g]]; [by apply not_elem_of_nil in Hi| |left; cbn; lia].
    apply list_elem_of_singleton in Hi, Hk. subst. right. by apply bool_decide_eq_true.
Qed.
End Graph.

(** ** The depth of the condensation *)
Section DepthSpec.
Context (ca : list (gset nat)) (roots : list nat).

Definition cedge (c d : nat) : Prop := d ∈ (ca !!! c : gset nat).

(** A chain of [k] components that starts in a root and ends in [c]. *)
Inductive chain : nat -> nat -> Prop :=
| chain_root c : c ∈ roots -> chain 1 c
| chain_step k c d : chain k c -> cedge c d -> chain (S k) d.

(** The numbering the second pass gives: edges go upwards. *)
Context (Hup : forall c d, cedge c d -> c < d /\ d < length ca).
Context (Hroots : forall c, c ∈ roots -> c < length ca).

Definition from_root (c : nat) : Prop := exists k, chain k c.

Lemma from_root_bounded c : from_root c -> c < length ca.
Proof. intros [k [c' Hc|k' c' d _ He]]; [by apply Hroots|by apply Hup in He as [_ ?]]. Qed.

(** *** Reachability *)
Definition open_cost (reachable : gset nat) (l : list nat) : nat :=
  sum_list_with (fun c => if decide (c ∈ reachable) then 0 else size (ca !!! c : gset nat)) l.

Lemma member_other (reachable : gset nat) c x (w : nat) :
  c <> x -> (if decide (x ∈ {[c]} ∪ reachable) then 0 else w) = (if decide (x ∈ reachable) then 0 else w).
Proof.
  intros Hne. assert (H : x ∈ {[c]} ∪ reachable <-> x ∈ reachable) by (rewrite elem_of_union, elem_of_singleton; naive_solver).
  by rewrite (decide_ext (x ∈ {[c]} ∪ reachable) (x ∈ reachable)).
Qed.

Lemma open_cost_skip reachable c l : c ∉ l -> open_cost ({[c]} ∪ reachable) l = open_cost reachable l.
Proof.
  unfold open_cost. induction l as [|x l IH]; [done|]. intros [Hx Hl]%not_elem_of_cons. cbn. rewrite IH by done.
  f_equal. by rewrite (member_other reachable c x).
Qed.

Lemma open_cost_add reachable c l :
  NoDup l -> c ∈ l -> c ∉ reachable ->
  open_cost reachable l = open_cost ({[c]} ∪ reachable) l + size (ca !!! c : gset nat).
Proof.
  intros Hnd Hin Hc. induction l as [|x l IH]; [by apply not_elem_of_nil in Hin|].
  apply NoDup_cons in Hnd as [Hx Hnd]. cbn. fold (open_cost reachable l) (open_cost ({[c]} ∪ reachable) l).
  apply elem_of_cons in Hin as [->|Hin].
  - rewrite open_cost_skip by done. rewrite decide_False, decide_True by set_solver. lia.
  - rewrite (IH Hnd Hin). assert (c <> x) by (by intros ->).
    rewrite (member_other reachable c x) by done. lia.
Qed.

Lemma open_cost_all : open_cost ∅ (seq 0 (length ca)) = sum_list (size <$> ca).
Proof.
  unfold open_cost. assert (H : forall (l : list (gset nat)) k, (forall i s, l !! i = Some s -> ca !!! (k + i) = s) ->
    sum_list_with (fun c => if decide (c ∈ (∅ : gset nat)) then 0 else size (ca !!! c : gset nat)) (seq k (length l)) = sum_list (size <$> l)).
  { induction l as [|s l IH]; intros k Hl; [done|]. cbn. rewrite IH.
    - rewrite decide_False by set_solver. rewrite <- (Nat.add_0_r k) at 1. by rewrite (Hl 0 s).
    - intros i s' Hi. replace (S k + i) with (k + S i) by lia. by apply Hl. }
  apply (H ca 0). intros i s Hi. cbn. by apply list_lookup_total_correct.
Qed.

Record reach_inv (stack : list nat) (reachable : gset nat) : Prop := {
  ri_sound : forall c, c ∈ stack \/ c ∈ reachable -> from_root c;
  ri_roots : forall c, c ∈ roots -> c ∈ stack \/ c ∈ reachable;
  ri_closed : forall c d, c ∈ reachable -> cedge c d -> d ∈ stack \/ d ∈ reachable
}.

Lemma reach_loop_runs fuel stack reachable :
  reach_inv stack reachable -> length stack + open_cost reachable (seq 0 (length ca)) <= fuel ->
  exists r, reach_loop ca fuel stack reachable = Some r /\ forall c, c ∈ r <-> from_root c.
Proof.
  revert stack reachable. induction fuel as [|fuel IH]; intros [|c stack] reachable [Hs Hr Hc] Hfuel; cbn in Hfuel; [|lia| |].
  1,2: eexists; split; [done|]; intros c; split; [by intros; apply Hs; right|];
    intros [k Hk]; induction Hk as [c Hc'|k c d Hk IHk He]; [destruct (Hr c Hc') as [H|H]|destruct (Hc c d IHk He) as [H|H]];
    first [done|by apply not_elem_of_nil in H].
  cbn [reach_loop]. destruct (decide (c ∈ reachable)) as [Hin|Hin].
  - apply IH; [|lia]. split.
    + intros d [Hd|Hd]; apply Hs; [left; by right|by right].
    + intros d Hd. destruct (Hr d Hd) as [[->|H]%elem_of_cons|H]; auto.
    + intros d e Hd He. destruct (Hc d e Hd He) as [[->|H]%elem_of_cons|H]; auto.
  - assert (Hroot : from_root c) by (apply Hs; left; by left).
    apply IH.
    + split.
      * intros d. rewrite elem_of_app, <- rev_alt_elem, elem_of_elements, elem_of_union, elem_of_singleton.
        intros [[Hd|Hd]|[->|Hd]]; [|apply Hs; left; by right|done|apply Hs; by right].
        destruct Hroot as [k Hk]. exists (S k). by eapply chain_step.
      * intros d Hd. rewrite elem_of_app, elem_of_union, elem_of_singleton. destruct (Hr d Hd) as [[->|H]%elem_of_cons|H]; auto.
      * intros d e. rewrite elem_of_app, <- rev_alt_elem, elem_of_elements, !elem_of_union, !elem_of_singleton.
        intros [->|Hd] He; [by left; left|]. destruct (Hc d e Hd He) as [[->|H]%elem_of_cons|H]; auto.
    + rewrite (open_cost_add reachable c) in Hfuel; [|apply NoDup_seq| |done].
      * rewrite length_app, length_rev. unfold size, set_size in Hfuel. cbn in Hfuel. lia.
      * apply elem_of_seq. apply from_root_bounded in Hroot. lia.
Qed.

Lemma reachable_components_spec :
  exists r, reachable_components ca roots = Some r /\ forall c, c ∈ r <-> from_root c.
Proof.
  apply reach_loop_runs.
  - split.
    + intros c [Hc|Hc]; [|set_solver]. exists 1. constructor. by rewrite rev_alt_elem.
    + intros c Hc. left. by rewrite <- rev_alt_elem.
    + set_solver.
  - rewrite open_cost_all, length_rev. unfold reach_fuel. lia.
Qed.

(** *** Kahn's loop *)
Context (reachable : gset nat) (Hreach : forall c, c ∈ reachable <-> from_root c).

Lemma total_alter {A} `{Inhabited A} (f : A -> A) (l : list A) i t :
  t < length l -> alter f i l !!! t = if decide (i = t) then f (l !!! t) else l !!! t.
Proof.
  intros Ht. destruct (lookup_lt_is_Some_2 l t Ht) as [x Hx]. rewrite !list_lookup_total_alt, list_lookup_alter.
  case_decide; subst; by rewrite Hx.
Qed.

Lemma total_insert {A} `{Inhabited A} (l : list A) i x t :
  t < length l -> <[i := x]> l !!! t = if decide (i = t) then x else l !!! t.
Proof.
  intros Ht. case_decide; subst; [by rewrite list_lookup_total_insert_eq|by rewrite list_lookup_total_insert_ne].
Qed.

Lemma filter_ext_elem {A} (P Q : A -> Prop) `{forall x, Decision (P x), forall x, Decision (Q x)} (l : list A) :
  (forall x, x ∈ l -> P x <-> Q x) -> filter P l = filter Q l.
Proof.
  induction l as [|x l IH]; intros Hl; [done|]. rewrite !filter_cons, IH by (intros; apply Hl; by right).
  by rewrite (decide_ext (P x) (Q x)) by (apply Hl; by left).
Qed.

(** The predecessors that are not processed yet. *)
Definition undone (done : list nat) (t : nat) : list nat :=
  filter (fun s => (s ∉ done) /\ t ∈ (ca !!! s : gset nat)) (elements reachable).

Lemma elem_of_undone done t s : s ∈ undone done t <-> (s ∉ done) /\ cedge s t /\ s ∈ reachable.
Proof. unfold undone. rewrite list_elem_of_filter, elem_of_elements. unfold cedge. tauto. Qed.

Lemma undone_step done s t :
  s ∈ reachable -> s ∉ done ->
  length (undone done t) = length (undone (done ++ [s]) t) + (if decide (t ∈ (ca !!! s : gset nat)) then 1 else 0).
Proof.
  intros Hs Hd. unfold undone. apply elem_of_elements in Hs. pose proof (NoDup_elements reachable) as Hnd.
  induction (elements reachable) as [|x l IH]; [by apply not_elem_of_nil in Hs|].
  apply NoDup_cons in Hnd as [Hx Hnd]. rewrite !filter_cons.
  destruct (decide (x = s)) as [->|Hne].
  - assert (Hf : filter (fun s0 => (s0 ∉ done) /\ t ∈ (ca !!! s0 : gset nat)) l =
                 filter (fun s0 => (s0 ∉ done ++ [s]) /\ t ∈ (ca !!! s0 : gset nat)) l).
    { apply filter_ext_elem. intros y Hy. rewrite elem_of_app, list_elem_of_singleton.
      assert (y <> s) by (by intros ->). tauto. }
    rewrite Hf. rewrite (decide_False (P := (s ∉ done ++ [s]) /\ _)) by (rewrite elem_of_app, list_elem_of_singleton; tauto).
    destruct (decide (t ∈ (ca !!! s : gset nat))) as [Ht|Ht].
    + rewrite decide_True by done. cbn. lia.
    + rewrite decide_False by tauto. lia.
  - apply elem_of_cons in Hs as [Hs|Hs]; [done|]. specialize (IH Hs Hnd).
    rewrite (decide_ext (x ∉ done ++ [s] /\ t ∈ (ca !!! x : gset nat)) (x ∉ done /\ t ∈ (ca !!! x : gset nat)))
      by (rewrite elem_of_app, list_elem_of_singleton; tauto).
    destruct (decide (x ∉ done /\ t ∈ (ca !!! x : gset nat))); cbn; lia.
Qed.

Lemma relax_spec source targets queue indegree depth D :
  NoDup targets -> source ∉ targets -> source < length depth -> depth !!! source = D ->
  (forall t, t ∈ targets -> t < length ca) -> length indegree = length ca -> length depth = length ca ->
  let '(queue', indegree', depth') := relax reachable source targets queue indegree depth in
  length indegree' = length ca /\ length depth' = length ca /\
  queue' = queue ++ filter (fun t => t ∈ reachable /\ indegree !!! t = 1%Z) targets /\
  forall t, t < length ca ->
    indegree' !!! t = (indegree !!! t - (if decide (t ∈ targets /\ t ∈ reachable) then 1 else 0))%Z /\
    depth' !!! t = if decide (t ∈ targets /\ t ∈ reachable) then Nat.max (depth !!! t) (S D) else depth !!! t.
Proof.
  revert queue indegree depth. induction targets as [|x targets IH]; intros queue indegree depth Hnd Hs Hsl HD Hb Hli Hld; cbn [relax].
  { rewrite app_nil_r. do 3 (split; [done|]). intros t Ht. rewrite !decide_False by (intros [H _]; by apply not_elem_of_nil in H).
    split; [lia|done]. }
  apply NoDup_cons in Hnd as [Hx Hnd]. apply not_elem_of_cons in Hs as [Hsx Hs].
  assert (Hxl : x < length ca) by (apply Hb; by left). specialize (fun q i d => IH q i d Hnd Hs).
  rewrite filter_cons. destruct (decide (x ∈ reachable)) as [Hr|Hr].
  - set (depth1 := if (depth !!! x : nat) <? S (depth !!! source) then <[x := S (depth !!! source)]> depth else depth).
    assert (Hd1 : length depth1 = length ca /\ forall t, t < length ca -> depth1 !!! t = if decide (x = t) then Nat.max (depth !!! t) (S D) else depth !!! t).
    { subst depth1. destruct (Nat.ltb_spec (depth !!! x) (S (depth !!! source))) as [Hlt|Hlt].
      - split; [by rewrite length_insert|]. intros t Ht. rewrite total_insert by lia. case_decide; [subst; lia|done].
      - split; [done|]. intros t Ht. case_decide; [subst; lia|done]. }
    destruct Hd1 as [Hd1l Hd1].
    set (queue1 := if ((alter Z.pred x indegree !!! x : Z) =? 0)%Z then queue ++ [x] else queue).
    specialize (IH queue1 (alter Z.pred x indegree) depth1).
    destruct (relax reachable source targets queue1 (alter Z.pred x indegree) depth1) as [[queue' indegree'] depth'].
    destruct IH as (H1 & H2 & Hq & Ht); [lia| |by intros; apply Hb; right|by rewrite length_alter|done|].
    { rewrite Hd1, decide_False by (congruence || lia). done. }
    split; [done|]. split; [done|]. split.
    + rewrite Hq. assert (Hf : filter (fun t => t ∈ reachable /\ alter Z.pred x indegree !!! t = 1%Z) targets =
        filter (fun t => t ∈ reachable /\ indegree !!! t = 1%Z) targets).
      { apply filter_ext_elem. intros y Hy.
        rewrite total_alter by (rewrite Hli; apply Hb; by right). rewrite decide_False by (intros ->; done). done. }
      rewrite Hf. subst queue1. rewrite total_alter, decide_True by (lia || done).
      destruct (Z.eqb_spec (Z.pred (indegree !!! x)) 0) as [E|E].
      * rewrite decide_True by (split; [done|lia]). by rewrite <- app_assoc.
      * rewrite decide_False by (intros [_ H]; lia). done.
    + intros t Htl. destruct (Ht t Htl) as [-> ->]. rewrite total_alter, Hd1 by lia.
      destruct (decide (x = t)) as [<-|Hne].
      * rewrite !(decide_False (P := x ∈ targets /\ _)) by tauto. rewrite !decide_True by (split; [by left|done]). split; [lia|done].
      * rewrite !(decide_ext (t ∈ x :: targets /\ t ∈ reachable) (t ∈ targets /\ t ∈ reachable))
          by (rewrite elem_of_cons; naive_solver). done.
  - specialize (IH queue indegree depth Hsl HD ltac:(intros; apply Hb; by right) Hli Hld).
    destruct (relax reachable source targets queue indegree depth) as [[queue' indegree'] depth'].
    destruct IH as (H1 & H2 & Hq & Ht). split; [done|]. split; [done|]. split.
    + rewrite decide_False by tauto. done.
    + intros t Htl. rewrite !(decide_ext (t ∈ x :: targets /\ t ∈ reachable) (t ∈ targets /\ t ∈ reachable))
        by (rewrite elem_of_cons; naive_solver). by apply Ht.
Qed.

Record kahn_inv (done queue : list nat) (indegree : list Z) (depth : list nat) (m : nat) : Prop := {
  ki_indegree_length : length indegree = length ca;
  ki_depth_length : length depth = length ca;
  ki_nodup : NoDup (done ++ queue);
  ki_indegree : forall t, t ∈ reachable -> indegree !!! t = Z.of_nat (length (undone done t));
  ki_ready : forall t, t ∈ done ++ queue <-> t ∈ reachable /\ undone done t = [];
  ki_sound : forall t, t < length ca -> depth !!! t = 0 \/ chain (depth !!! t) t;
  ki_roots : forall t, t ∈ roots -> 1 <= depth !!! t;
  ki_relaxed : forall s t, s ∈ done -> cedge s t -> S (depth !!! s) <= depth !!! t;
  ki_complete : forall s k, s ∈ done -> chain k s -> k <= depth !!! s;
  ki_max : forall s, s ∈ done -> depth !!! s <= m;
  ki_max_chain : m = 0 \/ exists c, chain m c
}.

Lemma chain_from_root k c : chain k c -> c ∈ reachable.
Proof. intros H. apply Hreach. by exists k. Qed.

(** A queued component: its predecessors are done, and its depth is that of its longest chain. *)
Lemma ready_depth done source queue indegree depth m k :
  kahn_inv done (source :: queue) indegree depth m -> chain k source -> k <= depth !!! source.
Proof.
  intros [] Hk. destruct (proj1 (ki_ready0 source)) as [_ Hun]; [apply elem_of_app; right; by left|].
  destruct Hk as [c Hc|k c d Hk He]; [by apply ki_roots0|].
  assert (Hd : c ∈ done).
  { destruct (decide (c ∈ done)) as [|Hd]; [done|]. exfalso. apply (not_elem_of_nil c). rewrite <- Hun.
    apply elem_of_undone. split; [done|]. split; [done|]. by eapply chain_from_root. }
  pose proof (ki_complete0 c k Hd Hk). pose proof (ki_relaxed0 c d Hd He). lia.
Qed.

(** A ready component has no predecessor that is still queued or waiting. *)
Lemma no_late_edge done queue indegree depth m s t :
  kahn_inv done queue indegree depth m -> s ∈ reachable -> s ∉ done -> t ∈ done ++ queue -> ~ cedge s t.
Proof.
  intros [] Hs Hd [_ Hun]%ki_ready0 He. apply (not_elem_of_nil s). rewrite <- Hun. by apply elem_of_undone.
Qed.

Lemma undone_nil_step done s t :
  s ∈ reachable -> s ∉ done -> undone (done ++ [s]) t = [] <->
  undone done t = [] \/ (cedge s t /\ length (undone done t) = 1).
Proof.
  intros Hs Hd. pose proof (undone_step done s t Hs Hd) as H. rewrite <- !length_zero_iff_nil.
  unfold cedge. destruct (decide (t ∈ (ca !!! s : gset nat))) as [Ht|Ht].
  - split; [right; split; [done|lia]|]. intros [H0|[_ H1]]; lia.
  - split; [left; lia|]. intros [H0|[H1 _]]; [lia|done].
Qed.

(** What one round of the loop does to the state. *)
Record stepped (done : list nat) (source : nat) (queue : list nat) (indegree : list Z) (depth : list nat)
    (added : list nat) (indegree' : list Z) (depth' : list nat) : Prop := {
  st_indegree_length : length indegree' = length ca;
  st_depth_length : length depth' = length ca;
  st_reachable : source ∈ reachable;
  st_fresh : source ∉ done;
  st_positive : 1 <= depth !!! source;
  st_chain : chain (depth !!! source) source;
  st_nodup : NoDup added;
  st_added : forall t, t ∈ added <-> cedge source t /\ indegree !!! t = 1%Z;
  st_indegree : forall t, t < length ca ->
    indegree' !!! t = (indegree !!! t - (if decide (t ∈ (ca !!! source : gset nat)) then 1 else 0))%Z;
  st_depth : forall t, t < length ca ->
    depth' !!! t = if decide (t ∈ (ca !!! source : gset nat)) then Nat.max (depth !!! t) (S (depth !!! source)) else depth !!! t
}.

Lemma relax_steps done source queue indegree depth m :
  kahn_inv done (source :: queue) indegree depth m ->
  exists added indegree' depth',
    relax reachable source (sort_ints (elements (ca !!! source : gset nat))) queue indegree depth = (queue ++ added, indegree', depth') /\
    stepped done source queue indegree depth added indegree' depth'.
Proof.
  intros Hinv. pose proof Hinv as [Hil Hdl Hnd _ Hready Hsound _ _ _ _ _].
  assert (Hsq : source ∈ done ++ source :: queue) by (apply elem_of_app; right; by left).
  destruct (proj1 (Hready source) Hsq) as [Hsr Hun]. pose proof (proj1 (Hreach source) Hsr) as [k Hk].
  pose proof (from_root_bounded source (ex_intro _ k Hk)) as Hsl.
  assert (HD : 1 <= depth !!! source). { pose proof (ready_depth _ _ _ _ _ _ k Hinv Hk). destruct Hk; lia. }
  assert (Hchain : chain (depth !!! source) source) by (destruct (Hsound source Hsl); [lia|done]).
  assert (Hts : forall t, t ∈ sort_ints (elements (ca !!! source : gset nat)) <-> cedge source t).
  { intros t. by rewrite sort_ints_elem, elem_of_elements. }
  assert (Htr : forall t, cedge source t -> t ∈ reachable) by (intros t He; eapply chain_from_root; by eapply chain_step).
  assert (Hif : forall (A : Type) (x y : A) t, (if decide (t ∈ sort_ints (elements (ca !!! source : gset nat)) /\ t ∈ reachable) then x else y) =
    if decide (t ∈ (ca !!! source : gset nat)) then x else y).
  { intros A x y t. apply decide_ext. rewrite Hts. split; [by intros []|]. intros He. split; [done|by apply Htr]. }
  pose proof (relax_spec source (sort_ints (elements (ca !!! source : gset nat))) queue indegree depth (depth !!! source)
    ltac:(apply sort_ints_NoDup, NoDup_elements) ltac:(intros He%Hts%Hup; lia) ltac:(lia) eq_refl
    ltac:(intros t He%Hts%Hup; lia) Hil Hdl) as Hrelax.
  destruct (relax reachable source (sort_ints (elements (ca !!! source : gset nat))) queue indegree depth) as [[queue' indegree'] depth'].
  destruct Hrelax as (H1 & H2 & -> & Ht). eexists _, indegree', depth'. split; [done|]. split; try done.
  - intros Hd. apply NoDup_app in Hnd as (_ & Hnd & _). apply (Hnd source Hd). by left.
  - apply NoDup_filter, sort_ints_NoDup, NoDup_elements.
  - intros t. rewrite list_elem_of_filter, Hts. split; [tauto|]. intros [He Hi]. split; [|done]. split; [by apply Htr|done].
  - intros t Htl. destruct (Ht t Htl) as [-> _]. by rewrite Hif.
  - intros t Htl. destruct (Ht t Htl) as [_ ->]. by rewrite Hif.
Qed.

(** The ready components after the round. *)
Lemma stepped_ready done source queue indegree depth added indegree' depth' m t :
  kahn_inv done (source :: queue) indegree depth m ->
  stepped done source queue indegree depth added indegree' depth' ->
  t ∈ (done ++ [source]) ++ queue ++ added <-> t ∈ reachable /\ undone (done ++ [source]) t = [].
Proof.
  intros [_ _ _ Hdeg Hready _ _ _ _ _ _] [_ _ Hsr Hf _ Hchain _ Hadd _ _].
  rewrite (undone_nil_step done source t Hsr Hf).
  assert (Hsplit : t ∈ (done ++ [source]) ++ queue ++ added <-> t ∈ done ++ source :: queue \/ t ∈ added).
  { rewrite !elem_of_app, list_elem_of_singleton, elem_of_cons. tauto. }
  rewrite Hsplit, Hready, Hadd. split.
  - intros [[Hr Hu]|[He Hi]]; [by split; [|left]|].
    assert (Hr : t ∈ reachable) by (eapply chain_from_root; by eapply chain_step).
    split; [done|]. right. split; [done|]. rewrite Hdeg in Hi by done. lia.
  - intros [Hr [Hu|[He Hl]]]; [by left|]. right. split; [done|]. rewrite Hdeg by done. lia.
Qed.

Lemma stepped_nodup done source queue indegree depth added indegree' depth' m :
  kahn_inv done (source :: queue) indegree depth m ->
  stepped done source queue indegree depth added indegree' depth' ->
  NoDup ((done ++ [source]) ++ queue ++ added).
Proof.
  intros [_ _ Hnd Hdeg Hready _ _ _ _ _ _] [_ _ Hsr Hf _ Hchain Hna Hadd _ _].
  replace ((done ++ [source]) ++ queue ++ added) with ((done ++ source :: queue) ++ added) by (by rewrite <- !app_assoc).
  apply NoDup_app. split; [done|]. split; [|done]. intros t [Hr Hu]%Hready [_ Hi]%Hadd.
  rewrite Hdeg, Hu in Hi by done. done.
Qed.

Lemma kahn_inv_step done source queue indegree depth m added indegree' depth' :
  kahn_inv done (source :: queue) indegree depth m ->
  stepped done source queue indegree depth added indegree' depth' ->
  kahn_inv (done ++ [source]) (queue ++ added) indegree' depth' (Nat.max m (depth !!! source)).
Proof.
  intros Hinv Hst. pose proof Hinv as [Hil Hdl _ Hdeg Hready Hsound Hroots' Hrel Hcom Hmax Hmc].
  pose proof Hst as [H1 H2 Hsr Hf HD Hchain _ _ Hi Hd].
  assert (Hrb : forall t, t ∈ reachable -> t < length ca) by (intros t Ht; by apply from_root_bounded, Hreach).
  assert (Hkeep : forall s, s ∈ done ++ [source] -> depth' !!! s = depth !!! s).
  { intros s Hs. assert (Hs' : s ∈ done ++ source :: queue) by (rewrite elem_of_app, list_elem_of_singleton in Hs; rewrite elem_of_app, elem_of_cons; tauto).
    rewrite Hd, decide_False; [done|by eapply no_late_edge|]. by apply Hrb, Hready. }
  assert (Hgrow : forall t, t < length ca -> depth !!! t <= depth' !!! t) by (intros t Ht; rewrite (Hd t Ht); case_decide; lia).
  split; [done|done|by eapply stepped_nodup| |intros t; by eapply stepped_ready|..].
  - intros t Ht. rewrite Hi, Hdeg by auto. rewrite (undone_step done source t Hsr Hf). case_decide; lia.
  - intros t Ht. rewrite Hd by done. case_decide as Hc; [|by apply Hsound].
    destruct (Nat.max_spec (depth !!! t) (S (depth !!! source))) as [[_ ->]|[Hle ->]].
    + right. by eapply chain_step.
    + by apply Hsound.
  - intros t Ht. transitivity (depth !!! t); [by apply Hroots'|]. by apply Hgrow, Hroots.
  - intros s t Hs He. rewrite (Hkeep s Hs). destruct (Hup s t He) as [_ Htl].
    apply elem_of_app in Hs as [Hs|Hs%list_elem_of_singleton].
    + transitivity (depth !!! t); [by apply Hrel|by apply Hgrow].
    + subst s. rewrite Hd, decide_True by done. lia.
  - intros s k Hs Hk. rewrite (Hkeep s Hs). apply elem_of_app in Hs as [Hs|Hs%list_elem_of_singleton]; [by apply Hcom|].
    subst s. by eapply ready_depth.
  - intros s Hs. rewrite (Hkeep s Hs). apply elem_of_app in Hs as [Hs|Hs%list_elem_of_singleton].
    + specialize (Hmax s Hs). lia.
    + subst s. lia.
  - right. destruct (Nat.max_spec m (depth !!! source)) as [[_ ->]|[Hle ->]]; [by exists source|].
    destruct Hmc as [->|Hmc]; [lia|done].
Qed.

(** With an empty queue everything reachable is done. *)
Lemma kahn_inv_all done indegree depth m c :
  kahn_inv done [] indegree depth m -> c ∈ reachable -> c ∈ done.
Proof.
  intros [_ _ _ _ Hready _ _ _ _ _ _]. setoid_rewrite app_nil_r in Hready.
  induction c as [c IH] using lt_wf_ind. intros Hc. apply Hready. split; [done|].
  destruct (undone done c) as [|s l] eqn:E; [done|]. exfalso.
  assert (Hs : s ∈ undone done c) by (rewrite E; by left). apply elem_of_undone in Hs as (Hd & He & Hr).
  apply Hd, IH; [by apply Hup in He as [? _]|done].
Qed.

Definition depth_spec (m : nat) : Prop :=
  (forall k c, chain k c -> k <= m) /\ (m = 0 \/ exists c, chain m c).

Lemma kahn_done_bound done queue indegree depth m :
  kahn_inv done queue indegree depth m -> length (done ++ queue) <= length ca.
Proof.
  intros [_ _ Hnd _ Hready _ _ _ _ _ _]. rewrite <- (length_seq (length ca) 0).
  apply submseteq_length, NoDup_submseteq; [done|]. intros t [Ht _]%Hready.
  apply elem_of_seq. apply Hreach, from_root_bounded in Ht. lia.
Qed.

Lemma depth_loop_runs fuel done queue indegree depth m :
  kahn_inv done queue indegree depth m -> length ca <= fuel + length done ->
  exists m', depth_loop ca fuel reachable queue indegree depth m = Some m' /\ depth_spec m'.
Proof.
  revert done queue indegree depth m. induction fuel as [|fuel IH]; intros done [|source queue] indegree depth m Hinv Hfuel.
  1,3: exists m; split; [done|]; split; [|apply Hinv]; intros k c Hk;
    (assert (Hc : c ∈ done) by (eapply kahn_inv_all; [done|by eapply chain_from_root]));
    pose proof (ki_complete _ _ _ _ _ Hinv c k Hc Hk); pose proof (ki_max _ _ _ _ _ Hinv c Hc); lia.
  - apply kahn_done_bound in Hinv. rewrite length_app in Hinv. cbn in *. lia.
  - destruct (relax_steps _ _ _ _ _ _ Hinv) as (added & indegree' & depth' & Hrx & Hst). cbn [depth_loop].
    pose proof (st_positive _ _ _ _ _ _ _ _ Hst) as HD.
    replace ((depth !!! source : nat) =? 0) with false by (symmetry; apply Nat.eqb_neq; lia). rewrite Hrx.
    replace (if m <? (depth !!! source : nat) then depth !!! source else m) with (Nat.max m (depth !!! source))
      by (destruct (Nat.ltb_spec m (depth !!! source)); lia).
    eapply (IH (done ++ [source])); [by eapply kahn_inv_step|]. rewrite length_app. cbn. lia.
Qed.

(** The state the loop starts in. *)
Lemma count_targets targets (d : list Z) t :
  NoDup targets -> t ∈ reachable -> t < length d ->
  let d' := foldl (fun d target => if decide (target ∈ reachable) then alter Z.succ target d else d) d targets in
  length d' = length d /\ d' !!! t = (d !!! t + (if decide (t ∈ targets) then 1 else 0))%Z.
Proof.
  intros Hnd Ht. revert d. induction targets as [|x targets IH]; intros d Hd; cbn.
  { split; [done|]. rewrite decide_False by (by intros ?%not_elem_of_nil). lia. }
  apply NoDup_cons in Hnd as [Hx Hnd].
  destruct (IH Hnd (if decide (x ∈ reachable) then alter Z.succ x d else d)) as [Hl Hv].
  { destruct (decide (x ∈ reachable)); [by rewrite length_alter|done]. }
  split; [rewrite Hl; destruct (decide (x ∈ reachable)); [by rewrite length_alter|done]|]. rewrite Hv. clear Hv Hl IH.
  destruct (decide (x = t)) as [->|Hne].
  - rewrite (decide_True (P := t ∈ reachable)) by done. rewrite total_alter, decide_True by done.
    rewrite decide_False by done. rewrite decide_True by (by left). lia.
  - rewrite (decide_ext (t ∈ x :: targets) (t ∈ targets)) by (rewrite elem_of_cons; naive_solver).
    destruct (decide (x ∈ reachable)); [|done]. by rewrite total_alter, decide_False.
Qed.

Lemma count_sources sources (d : list Z) t :
  t ∈ reachable -> t < length d ->
  let d' := foldl (fun d source =>
    foldl (fun d target => if decide (target ∈ reachable) then alter Z.succ target d else d)
      d (elements (ca !!! source : gset nat))) d sources in
  length d' = length d /\
  d' !!! t = (d !!! t + Z.of_nat (length (filter (fun s => (s ∉ []) /\ t ∈ (ca !!! s : gset nat)) sources)))%Z.
Proof.
  intros Ht. revert d. induction sources as [|s sources IH]; intros d Hd; cbn [foldl]; [split; [done|cbn; lia]|].
  destruct (count_targets (elements (ca !!! s : gset nat)) d t) as [Hl1 Hv1]; [apply NoDup_elements|done|done|].
  destruct (IH (foldl (fun d target => if decide (target ∈ reachable) then alter Z.succ target d else d) d (elements (ca !!! s : gset nat)))) as [Hl Hv]; [lia|].
  split; [lia|]. rewrite Hv, Hv1, filter_cons.
  rewrite (decide_ext (t ∈ elements (ca !!! s : gset nat)) ((s ∉ []) /\ t ∈ (ca !!! s : gset nat)))
    by (rewrite elem_of_elements, elem_of_nil; tauto).
  clear. case_decide; cbn; lia.
Qed.

Lemma indegrees_spec t : t ∈ reachable ->
  length (indegrees ca reachable) = length ca /\ indegrees ca reachable !!! t = Z.of_nat (length (undone [] t)).
Proof.
  intros Ht. assert (Hl : t < length ca) by (by apply from_root_bounded, Hreach). unfold indegrees.
  destruct (count_sources (elements reachable) (replicate (length ca) 0%Z) t) as [H1 H2]; [done|by rewrite length_replicate|].
  rewrite length_replicate in H1. split; [done|]. rewrite H2, lookup_total_replicate_2 by done. unfold undone. lia.
Qed.

Lemma initial_depth_spec (l : list nat) (d : list nat) :
  (forall r, r ∈ l -> r ∈ roots) -> length d = length ca ->
  (forall t, t < length ca -> d !!! t = 0 \/ (d !!! t = 1 /\ t ∈ roots)) ->
  let d' := foldl (fun depth root => if (depth !!! root : nat) <? 1 then <[root := 1]> depth else depth) d l in
  length d' = length ca /\ (forall t, t < length ca -> d' !!! t = 0 \/ (d' !!! t = 1 /\ t ∈ roots)) /\
  (forall t, t < length ca -> t ∈ l \/ 1 <= d !!! t -> 1 <= d' !!! t).
Proof.
  revert d. induction l as [|r l IH]; intros d Hl Hd Hv; cbn.
  { split; [done|]. split; [done|]. by intros t _ [?%not_elem_of_nil|]. }
  assert (Hr : r < length ca) by (apply Hroots, Hl; by left).
  set (d1 := if (d !!! r : nat) <? 1 then <[r := 1]> d else d).
  assert (Hd1 : forall t, t < length ca -> d1 !!! t = if decide (r = t) then Nat.max 1 (d !!! t) else d !!! t).
  { intros t Ht. subst d1. destruct (Nat.ltb_spec (d !!! r) 1) as [H|H].
    - rewrite total_insert by lia. case_decide; [subst; lia|done].
    - case_decide; [subst; lia|done]. }
  destruct (IH d1) as (H1 & H2 & H3).
  - intros x Hx. apply Hl. by right.
  - subst d1. case_match; [by rewrite length_insert|done].
  - intros t Ht. rewrite Hd1 by done. case_decide; [subst|by apply Hv].
    destruct (Hv t Ht) as [->|[-> Hin]]; right; (split; [done|]); [apply Hl; by left|done].
  - split; [done|]. split; [done|]. intros t Ht Hin. apply H3; [done|]. rewrite Hd1 by done.
    destruct Hin as [[->|Hin]%elem_of_cons|Hin]; [right; rewrite decide_True by done; lia|by left|right; case_decide; lia].
Qed.

Lemma kahn_inv_initial :
  kahn_inv [] (initial_queue reachable (indegrees ca reachable)) (indegrees ca reachable) (initial_depth ca roots) 0.
Proof.
  destruct (initial_depth_spec roots (replicate (length ca) 0)) as (H1 & H2 & H3);
    [done|by rewrite length_replicate|intros t Ht; left; by rewrite lookup_total_replicate_2|].
  fold (initial_depth ca roots) in H1, H2, H3.
  assert (Hrb : forall t, t ∈ reachable -> t < length ca) by (intros t Ht; by apply from_root_bounded, Hreach).
  split; cbn [app].
  - destruct (decide (reachable = ∅)) as [->|Hne].
    + unfold indegrees. rewrite elements_empty. apply length_replicate.
    + apply set_choose_L in Hne as [t Ht]. by apply (indegrees_spec t).
  - done.
  - apply sort_ints_NoDup, NoDup_filter, NoDup_elements.
  - intros t Ht. by apply indegrees_spec.
  - intros t. unfold initial_queue. rewrite sort_ints_elem, list_elem_of_filter, elem_of_elements, <- length_zero_iff_nil.
    split; intros [Ha Hb]; [rewrite (proj2 (indegrees_spec t Hb)) in Ha|rewrite (proj2 (indegrees_spec t Ha))]; split; (done || lia).
  - intros t Ht. destruct (H2 t Ht) as [->|[-> Hin]]; [by left|right; by constructor].
  - intros t Ht. apply H3; [by apply Hroots|by left].
  - by intros s t ?%not_elem_of_nil.
  - by intros s t ?%not_elem_of_nil.
  - by intros s ?%not_elem_of_nil.
  - by left.
Qed.
End DepthSpec.

(** The depth is the length of the longest chain of components from a root. *)
Lemma maximum_depth_spec ca roots :
  (forall c d, cedge ca c d -> c < d /\ d < length ca) -> (forall c, c ∈ roots -> c < length ca) ->
  exists m, maximum_depth ca roots = Some m /\ depth_spec ca roots m.
Proof.
  intros Hup Hroots. unfold maximum_depth.
  destruct (reachable_components_spec ca roots Hup Hroots) as (r & -> & Hr). cbn [mbind option_bind].
  eapply (depth_loop_runs ca roots Hup Hroots r Hr _ []); [by apply kahn_inv_initial|cbn; lia].
Qed.

(** ** The condensation *)
Section Condensation.
Context (adjacency : list (list nat)) (Hbounded : bounded_graph adjacency).
Context (comp : list Z) (groups : list (list nat)) (Hspec : components_spec adjacency comp groups).

Notation co := (component_of comp).

Lemma component_of_lookup i : i < length adjacency -> comp !! i = Some (Z.of_nat (co i)) /\ co i < length groups.
Proof.
  intros Hi. destruct (cs_number _ _ _ Hspec i Hi) as (c & Hc & Hlk). unfold component_of.
  rewrite (list_lookup_total_correct _ _ _ Hlk), Nat2Z.id. done.
Qed.

Lemma component_of_mutual i j :
  i < length adjacency -> j < length adjacency -> co i = co j <-> mutual adjacency i j.
Proof.
  intros Hi Hj. rewrite <- (cs_class _ _ _ Hspec i j Hi Hj).
  rewrite (proj1 (component_of_lookup i Hi)), (proj1 (component_of_lookup j Hj)).
  split; [by intros ->|]. intros [= H]. by apply Nat2Z.inj.
Qed.

Lemma add_targets from targets (ca : list (gset nat)) c d :
  c < length ca ->
  let ca' := foldl (fun ca to => if co from =? co to then ca else alter (fun s => {[co to]} ∪ s) (co from) ca) ca targets in
  length ca' = length ca /\
  (d ∈ (ca' !!! c : gset nat) <-> d ∈ (ca !!! c : gset nat) \/ (c = co from /\ c <> d /\ exists to, to ∈ targets /\ co to = d)).
Proof.
  revert ca. induction targets as [|t targets IH]; intros ca Hc; cbn.
  { split; [done|]. split; [by left|]. by intros [|(_ & _ & to & ?%not_elem_of_nil & _)]. }
  setoid_rewrite elem_of_cons. destruct (Nat.eqb_spec (co from) (co t)) as [E|E].
  - destruct (IH ca Hc) as [Hl Hd]. split; [done|]. rewrite Hd. split.
    + intros [|(? & ? & to & ? & ?)]; [by left|]. right. eauto 10.
    + intros [|(-> & ? & to & [->|?] & ?)]; [by left|congruence|]. right. eauto 10.
  - destruct (IH (alter (fun s => {[co t]} ∪ s) (co from) ca)) as [Hl Hd]; [by rewrite length_alter|].
    rewrite length_alter in Hl. split; [done|]. rewrite Hd, total_alter by done. case_decide as Hcf.
    + rewrite elem_of_union, elem_of_singleton. split.
      * intros [[->|]|(? & ? & to & ? & ?)]; [right; rewrite <- Hcf; eauto 10|by left|right; eauto 10].
      * intros [|(? & ? & to & [->|?] & ?)]; [by left; right|left; left; done|right; eauto 10].
    + split.
      * intros [|(? & ? & to & ? & ?)]; [by left|congruence].
      * intros [|(? & ? & to & ? & ?)]; [by left|congruence].
Qed.

Lemma add_rows (rows : list (nat * list nat)) (ca : list (gset nat)) c d :
  c < length ca ->
  let ca' := foldl (fun ca '(from, targets) =>
    foldl (fun ca to => if co from =? co to then ca else alter (fun s => {[co to]} ∪ s) (co from) ca) ca targets) ca rows in
  length ca' = length ca /\
  (d ∈ (ca' !!! c : gset nat) <-> d ∈ (ca !!! c : gset nat) \/
    (c <> d /\ exists from targets to, (from, targets) ∈ rows /\ to ∈ targets /\ co from = c /\ co to = d)).
Proof.
  revert ca. induction rows as [|[from targets] rows IH]; intros ca Hc; cbn.
  { split; [done|]. split; [by left|]. by intros [|(_ & f & ts & to & ?%not_elem_of_nil & _)]. }
  destruct (add_targets from targets ca c d Hc) as [Hl1 Hd1].
  edestruct IH as [Hl Hd]; [|split; [rewrite Hl; apply Hl1|]]; [lia|]. rewrite Hd, Hd1. setoid_rewrite elem_of_cons. split.
  - intros [[|(-> & ? & to & ? & ?)]|(? & f & ts & to & ? & ? & ? & ?)]; [by left|right|right].
    + split; [done|]. exists from, targets, to. auto.
    + split; [done|]. exists f, ts, to. auto.
  - intros [|(? & f & ts & to & [[= -> ->]|?] & ? & ? & ?)]; [by left; left|left; right|right].
    + split; [done|]. split; [done|]. by exists to.
    + split; [done|]. exists f, ts, to. auto.
Qed.

Lemma zip_seq_elem (l : list (list nat)) i x : (i, x) ∈ zip (seq 0 (length l)) l <-> l !! i = Some x.
Proof.
  split.
  - intros [k Hk]%list_elem_of_lookup_1. apply lookup_zip_Some in Hk as [[-> Hlt]%lookup_seq H2]. done.
  - intros Hi. apply (list_elem_of_lookup_2 _ i), lookup_zip_Some. split; [|done].
    apply lookup_seq. apply lookup_lt_Some in Hi. lia.
Qed.

Lemma component_adjacency_length : length (component_adjacency adjacency comp groups) = length groups.
Proof.
  unfold component_adjacency. rewrite <- (length_replicate (length groups) (∅ : gset nat)) at 2.
  generalize (replicate (length groups) (∅ : gset nat)), (zip (seq 0 (length adjacency)) adjacency).
  intros ca rows. revert ca. induction rows as [|[from targets] rows IH]; intros ca; [done|]. cbn. rewrite IH. clear IH.
  revert ca. induction targets as [|t targets IH]; intros ca; [done|]. cbn. rewrite IH. case_match; [done|apply length_alter].
Qed.

(** The edges of the condensation are the edges between different components. *)
Lemma cedge_spec c d :
  cedge (component_adjacency adjacency comp groups) c d <->
  c <> d /\ exists u v, edge adjacency u v /\ co u = c /\ co v = d.
Proof.
  unfold cedge. destruct (decide (c < length groups)) as [Hc|Hc].
  - unfold component_adjacency.
    destruct (add_rows (zip (seq 0 (length adjacency)) adjacency) (replicate (length groups) ∅) c d) as [_ ->];
      [by rewrite length_replicate|].
    rewrite lookup_total_replicate_2 by done. setoid_rewrite zip_seq_elem. split.
    + intros [?%not_elem_of_empty|(Hne & u & targets & v & Hu & Hv & Hcu & Hcv)]; [done|]. split; [done|].
      exists u, v. split; [|done]. unfold edge, neighbors. by rewrite (list_lookup_total_correct _ _ _ Hu).
    + intros (Hne & u & v & He & Hcu & Hcv). right. split; [done|]. exists u, (neighbors adjacency u), v.
      destruct (edge_bounded adjacency Hbounded _ _ He) as [Hu _]. split; [by apply neighbors_lookup|]. done.
  - rewrite list_lookup_total_alt, lookup_ge_None_2 by (rewrite component_adjacency_length; lia). split.
    + by intros ?%not_elem_of_empty.
    + intros (_ & u & v & He & Hcu & _). destruct (edge_bounded adjacency Hbounded _ _ He) as [Hu _].
      apply component_of_lookup in Hu as [_ Hu]. lia.
Qed.

Lemma cedge_up c d :
  cedge (component_adjacency adjacency comp groups) c d -> c < d /\ d < length (component_adjacency adjacency comp groups).
Proof.
  intros (Hne & u & v & He & <- & <-)%cedge_spec. rewrite component_adjacency_length.
  destruct (edge_bounded adjacency Hbounded _ _ He) as [Hu Hv].
  destruct (component_of_lookup u Hu) as [Hcu _]. destruct (component_of_lookup v Hv) as [Hcv Hlt].
  pose proof (cs_topo _ _ _ Hspec u v _ _ He Hcu Hcv). lia.
Qed.

Lemma root_components_bounded roots c :
  Forall (fun r => r < length adjacency) roots -> c ∈ root_components comp groups roots ->
  c < length (component_adjacency adjacency comp groups).
Proof.
  rewrite component_adjacency_length. intros Hr. destruct roots as [|r roots]; cbn [root_components].
  - intros Hc%elem_of_seq. lia.
  - intros (i & -> & Hi)%list_elem_of_fmap. rewrite Forall_forall in Hr. by apply component_of_lookup, Hr.
Qed.

(** *** The depth in terms of the graph

    A nesting of [k] levels below a root: each level is a node in another component than the
    level above. *)
Inductive nesting (roots : list nat) : nat -> nat -> Prop :=
| nesting_root r u : r ∈ roots -> mutual adjacency r u -> nesting roots 1 u
| nesting_step k u v w : nesting roots k u -> edge adjacency u v -> ~ mutual adjacency u v -> mutual adjacency v w ->
    nesting roots (S k) w.

Lemma nesting_bounded roots k u :
  Forall (fun r => r < length adjacency) roots -> nesting roots k u -> u < length adjacency.
Proof.
  intros Hr [r u' Hin [Hm _]|k' u' v w _ He _ [Hm _]].
  - rewrite Forall_forall in Hr. destruct (decide (r = u')) as [<-|Hne]; [by apply Hr|].
    by apply (reach_bounded adjacency Hbounded r u').
  - destruct (decide (v = w)) as [<-|Hne]; [by apply (edge_bounded adjacency Hbounded u' v)|].
    by apply (reach_bounded adjacency Hbounded v w).
Qed.

Lemma chain_nesting roots k c :
  roots <> [] -> Forall (fun r => r < length adjacency) roots ->
  chain (component_adjacency adjacency comp groups) (root_components comp groups roots) k c <->
  exists u, u < length adjacency /\ co u = c /\ nesting roots k u.
Proof.
  intros Hne Hr. assert (Hrc : root_components comp groups roots = co <$> roots) by (by destruct roots).
  rewrite Hrc. split.
  - intros Hch. induction Hch as [c Hc|k c d Hch IH He].
    + apply list_elem_of_fmap in Hc as (r & -> & Hin). rewrite Forall_forall in Hr. exists r. split; [by apply Hr|].
      split; [done|]. eapply nesting_root; [done|reflexivity].
    + destruct IH as (u & Hu & Hcu & Hn). apply cedge_spec in He as (Hcd & a & b & He & Ha & Hb).
      destruct (edge_bounded adjacency Hbounded _ _ He) as [Hal Hbl].
      exists b. split; [done|]. split; [done|].
      eapply (nesting_step roots k a b b); [|done| |reflexivity].
      * assert (Hm : mutual adjacency u a) by (apply component_of_mutual; congruence).
        destruct Hn as [r u Hin Hm'|k u' v w Hn He' Hnm Hm'].
        -- eapply nesting_root; [done|]. by transitivity u.
        -- eapply nesting_step; [done..|]. by transitivity w.
      * intros Hm. apply component_of_mutual in Hm; [congruence|done|done].
  - intros (u & Hu & <- & Hn). induction Hn as [r u Hin Hm|k u v w Hn IH He Hnm Hm].
    + assert (Hrl : r < length adjacency) by (rewrite Forall_forall in Hr; by apply Hr).
      apply component_of_mutual in Hm as <-; [|done|done]. apply chain_root. by apply list_elem_of_fmap_2.
    + destruct (edge_bounded adjacency Hbounded _ _ He) as [Hul Hvl].
      apply component_of_mutual in Hm as <-; [|done|done].
      eapply chain_step; [by apply IH|]. apply cedge_spec. split.
      * intros E. by apply Hnm, component_of_mutual.
      * by exists u, v.
Qed.
End Condensation.

(** What [graphComponents] computes, for a graph whose edges are in range: the partition into
    strongly connected components, the nodes on a cycle, and the deepest nesting. *)
Record analysis (adjacency : list (list nat)) (roots : list nat) (r : components) : Prop := {
  an_length : length (componentByNode r) = length adjacency;
  an_flags : length (cyclicComponents r) = length (nodesByComponent r);
  an_class : forall i j, i < length adjacency -> j < length adjacency ->
    (componentByNode r !!! i = componentByNode r !!! j <-> mutual adjacency i j);
  an_cyclic : forall i, i < length adjacency ->
    (cyclicComponents r !!! Z.to_nat (componentByNode r !!! i) = true <-> tc (edge adjacency) i i);
  an_groups : forall i, i < length adjacency -> exists g,
    nodesByComponent r !! Z.to_nat (componentByNode r !!! i) = Some g /\ Sorted Nat.le g /\ NoDup g /\
    forall j, j ∈ g <-> mutual adjacency i j;
  an_group_nodes : forall c g, nodesByComponent r !! c = Some g ->
    exists i, i < length adjacency /\ i ∈ g /\ c = Z.to_nat (componentByNode r !!! i);
  an_depth : roots <> [] ->
    (forall k u, nesting adjacency roots k u -> k <= maximumDepth r) /\ exists u, nesting adjacency roots (maximumDepth r) u
}.

Lemma analyse_spec adjacency roots :
  bounded_graph adjacency -> Forall (fun r => r < length adjacency) roots ->
  exists r, analyse adjacency roots = Some r /\ analysis adjacency roots r.
Proof.
  intros Hb Hr. unfold analyse. destruct (strong_components_spec adjacency Hb) as (comp & groups & -> & Hspec).
  cbn [mbind option_bind].
  destruct (maximum_depth_spec (component_adjacency adjacency comp groups) (root_components comp groups roots)) as (m & -> & Hmax & Hm).
  { intros c d. by apply cedge_up. }
  { intros c. by apply root_components_bounded. }
  cbn [mbind option_bind]. eexists. split; [done|].
  pose proof (component_of_lookup adjacency comp groups Hspec) as Hco. unfold component_of in Hco.
  assert (Hgrp : forall i, i < length adjacency -> exists g, groups !! Z.to_nat (comp !!! i) = Some g /\ i ∈ g).
  { intros i Hi. destruct (Hco i Hi) as [Hlk Hlt]. destruct (lookup_lt_is_Some_2 groups _ Hlt) as [g Hg]. exists g.
    split; [done|]. by apply (cs_groups _ _ _ Hspec _ _ Hg). }
  split; cbn [componentByNode nodesByComponent cyclicComponents maximumDepth].
  - apply Hspec.
  - apply length_fmap.
  - intros i j Hi Hj. rewrite <- (cs_class _ _ _ Hspec i j Hi Hj).
    rewrite !(list_lookup_lookup_total_lt comp) by (rewrite (cs_length _ _ _ Hspec); done). split; [by intros ->|by intros [= ->]].
  - intros i Hi. destruct (Hgrp i Hi) as (g & Hg & Hin).
    rewrite <- (cyclicb_spec adjacency Hb comp groups _ g i Hspec Hg Hin).
    unfold cyclic_components. by rewrite list_lookup_total_alt, list_lookup_fmap, Hg.
  - intros i Hi. destruct (Hgrp i Hi) as (g & Hg & Hin). exists g. split; [done|].
    destruct (cs_groups _ _ _ Hspec _ _ Hg) as (Hs & Hnd & _). split; [done|]. split; [done|].
    intros j. by eapply group_mutual.
  - intros c g Hg. destruct (cs_groups _ _ _ Hspec c g Hg) as (_ & _ & Hne & Hin).
    destruct g as [|i g]; [done|]. assert (Hi : comp !! i = Some (Z.of_nat c)) by (apply Hin; by left).
    exists i. rewrite (list_lookup_total_correct _ _ _ Hi), Nat2Z.id. split; [|by split; [left|]].
    rewrite <- (cs_length _ _ _ Hspec). by eapply lookup_lt_Some.
  - intros Hne. split.
    + intros k u Hn. eapply Hmax, chain_nesting; [done..|]. exists u. split; [|done]. by eapply nesting_bounded.
    + destruct Hm as [->|[c Hc]].
      * destruct roots as [|r0 roots]; [done|]. exfalso.
        assert (H1 : 1 <= 0); [|lia]. eapply Hmax, chain_root. by left.
      * apply chain_nesting in Hc as (u & _ & _ & Hn); [by exists u|done..].
Qed.
