(* ===== verification/RecursiveMetadata.v ===== *)
(** Package [metadata], internal/metadata/recursive.go: the normaliser of the type closure
    RFC_METADATA_GET returns, into a bounded graph of types that may be cyclic.

    [reject] panics with a [*RecursiveMetadataError] that [Normalize] recovers: it is the
    error of the monad here, with its code and without its path.  The budget is the state of
    the row readers.  A Go map is a [gmap], a map to [bool] a [gset].  [int] is 64 bits wide:
    [safeEnd] wraps.  The strings that name a kind are the constructors of [kind] and
    [param_kind].

    The theorems: [Normalize] is total; what it accepts is closed under its references,
    reachable from its roots and within its limits; the flag of a reference says exactly
    whether the type refers back; the depth is the deepest nesting; and the geometry of the
    fields is checked exactly up to the wrap of [int]. *)
From stdpp Require Import base list numbers strings gmap sets relations sorting pretty.
From Stdlib Require Import ZArith Lia Strings.Byte.
From S2P Require Import Prelude Errors Text GraphComponents.

Open Scope Z_scope.

(** ** Data *)
Record Limits : Type := mkLimits {
  MaxRows : Z; MaxNodes : Z; MaxEdges : Z; MaxDepth : Z; MaxProperties : Z; MaxBytes : Z
}.

Definition defaultLimits : Limits := mkLimits 20000 4096 20000 64 400000 (8 * 1024 * 1024).
Definition absoluteLimits : Limits := mkLimits 100000 20000 100000 256 2000000 (32 * 1024 * 1024).

Record Options : Type := mkOptions { opt_Limits : option Limits; opt_RootTypeNames : list bytes }.

(** "scalar", "structure", "table" *)
Inductive kind : Type := KScalar | KStructure | KTable.
#[global] Instance kind_eqdec : EqDecision kind.
Proof. solve_decision. Defined.

(** The kinds of a parameter's reference, "scalar-table" included. *)
Inductive param_kind : Type := PScalar | PStructure | PTable | PScalarTable | PException.
#[global] Instance param_kind_eqdec : EqDecision param_kind.
Proof. solve_decision. Defined.

Record Reference : Type := mkReference {
  ref_Kind : kind; ref_InternalType : bytes; ref_TargetType : bytes; ref_Cyclic : bool
}.

Record MetadataField : Type := mkMetadataField {
  mf_Name : bytes; mf_Position : Z; mf_ComponentType : bytes; mf_AssociatedType : bytes; mf_DataType : bytes;
  mf_InternalType : bytes; mf_Description : bytes; mf_Decimals : Z;
  mf_NucOffset : Z; mf_UcOffset : Z; mf_NucLength : Z; mf_UcLength : Z; mf_Reference : Reference
}.

Record TypeNode : Type := mkTypeNode {
  tn_Name : bytes; tn_Kind : kind; tn_NucLength : Z; tn_UcLength : Z; tn_Timestamp : bytes; tn_Fields : list MetadataField
}.

Record FunctionIdentity : Type := mkIdentity { fid_Name : bytes; fid_RemoteBasxmlSupported : bool; fid_GenerationToken : bytes }.

Record ParameterReference : Type := mkParameterReference {
  pr_Kind : param_kind; pr_InternalType : bytes; pr_TargetType : bytes; pr_Cyclic : bool;
  pr_HasScalarLine : bool; pr_ScalarLineInternalType : bytes
}.

Record MetadataParameter : Type := mkMetadataParameter {
  mp_FunctionName : bytes; mp_Name : bytes; mp_ParameterClass : bytes; mp_Position : Z; mp_AssociatedType : bytes;
  mp_FieldPath : bytes; mp_InternalType : bytes; mp_InternalLength : Z; mp_Decimals : Z; mp_DefaultValue : bytes;
  mp_ParameterText : bytes; mp_Optional : bool; mp_Reference : ParameterReference
}.

Record Cycle : Type := mkCycle { cyc_ID : bytes; cyc_TypeNames : list bytes }.

Record Statistics : Type := mkStatistics {
  st_RowCount : Z; st_NodeCount : Z; st_EdgeCount : Z; st_PropertyCount : Z; st_ByteCount : Z; st_MaximumDepth : Z
}.

Record Graph : Type := mkGraph {
  g_Version : Z;
  g_FunctionIdentity : option FunctionIdentity;
  g_Nodes : gmap bytes TypeNode;
  g_Parameters : list MetadataParameter;
  g_RootTypeNames : list bytes;
  g_Cycles : list Cycle;
  g_Limits : Limits;
  g_Statistics : Statistics
}.

(** The rows of the call, as wire strings. *)
Record FunctionRow : Type := mkFunctionRow { fr_FunctionName : bytes; fr_BasxmlSupported : bytes; fr_UDat : bytes; fr_UTime : bytes }.

Record TypeRowInput : Type := mkTypeRowInput {
  ti_TypeName : bytes; ti_FieldName : bytes; ti_CompType : bytes; ti_FieldType : bytes; ti_DataType : bytes;
  ti_TabLength : bytes; ti_TabLengthUC : bytes; ti_Description : bytes; ti_Decimals : bytes;
  ti_IntType : bytes; ti_Offset : bytes; ti_OffsetUC : bytes; ti_IntLen : bytes; ti_IntLenUC : bytes; ti_Timestamp : bytes
}.

Record IndirectRowInput : Type := mkIndirectRowInput { ii_TabName : bytes; ii_FieldName : bytes; ii_FieldType : bytes }.

Record ParameterRowInput : Type := mkParameterRowInput {
  pi_FuncName : bytes; pi_ParamClass : bytes; pi_Parameter : bytes; pi_TabName : bytes; pi_FieldName : bytes; pi_Exid : bytes;
  pi_Position : bytes; pi_Offset : bytes; pi_IntLength : bytes; pi_Decimals : bytes; pi_Default : bytes; pi_ParamText : bytes;
  pi_Optional : bytes
}.

(** A nil pointer to a table is [None]. *)
Record Input : Type := mkInput {
  in_FunctionNames : option (list FunctionRow);
  in_DataTypesCont : list TypeRowInput;
  in_IndirectTypes : list IndirectRowInput;
  in_Parameters : option (list ParameterRowInput)
}.

(** ** The budget and the text fields *)
Definition reject {A} (code : string) : res A := Err (EMetadata (RecursiveMetadataError code)).

Record budget : Type := mkBudget { b_limits : Limits; b_rows : Z; b_properties : Z; b_bytes : Z }.

Definition addRows (count : Z) : M budget unit := fun b =>
  let b := mkBudget (b_limits b) (b_rows b + count) (b_properties b) (b_bytes b) in
  (if MaxRows (b_limits b) <? b_rows b then reject "ROW_LIMIT" else Ok tt, b).
Definition addProperties (count : Z) : M budget unit := fun b =>
  let b := mkBudget (b_limits b) (b_rows b) (b_properties b + count) (b_bytes b) in
  (if MaxProperties (b_limits b) <? b_properties b then reject "PROPERTY_LIMIT" else Ok tt, b).
Definition addBytes (count : Z) : M budget unit := fun b =>
  let b := mkBudget (b_limits b) (b_rows b) (b_properties b) (b_bytes b + count) in
  (if MaxBytes (b_limits b) <? b_bytes b then reject "BYTE_LIMIT" else Ok tt, b).

Definition codeUnitLen (s : bytes) : Z := zlen (utf16_encode (runes s)).

Definition controlOrHigh (s : bytes) (asciiOnly : bool) : bool :=
  existsb (fun b => (b2z b <? 0x20) || (b2z b =? 0x7f)) s || (asciiOnly && existsb (fun b => 0x7e <? b2z b) s).

Definition isEmpty (s : bytes) : bool := zlen s =? 0.

Definition text (value : bytes) (maximum : Z) (allowEmpty ascii : bool) : M budget bytes :=
  if (maximum <? codeUnitLen value) || (negb allowEmpty && isEmpty value) || controlOrHigh value ascii
  then lift (reject "INVALID_TEXT")
  else _ ← addBytes (zlen value); mret value.

(** [^\d+$], [^\d{14}$], [^\d{8}$], [^\d{6}$], [^[IECXT]$] *)
Definition numericPattern (s : bytes) : bool := negb (isEmpty s) && forallb is_digit s.
Definition digitsPattern (n : Z) (s : bytes) : bool := (zlen s =? n) && forallb is_digit s.
Definition paramClassP (s : bytes) : bool :=
  existsb (bytes_eqb s) [lit "I"; lit "E"; lit "C"; lit "X"; lit "T"].

(** [strconv.Atoi] fails beyond the largest [int]. *)
Definition integer (value : bytes) : M budget Z :=
  if numericPattern value then
    _ ← addBytes (zlen value);
    if 2 ^ 63 - 1 <? dec_value value then lift (reject "INVALID_INTEGER") else mret (dec_value value)
  else lift (reject "INVALID_INTEGER").

Definition flag (value : bytes) : M budget bool :=
  v ← text value 1 true true;
  if negb (isEmpty v) && negb (bytes_eqb v (lit "X")) then lift (reject "INVALID_FLAG")
  else mret (bytes_eqb v (lit "X")).

Definition metadataName (value : bytes) (allowEmpty : bool) : M budget bytes := text value 30 allowEmpty true.

Definition limit_ok (v abs : Z) : bool := (0 <=? v) && (v <=? abs).

Definition resolveLimits (o : option Limits) : res Limits :=
  match o with
  | None => Ok defaultLimits
  | Some l =>
      if limit_ok (MaxRows l) (MaxRows absoluteLimits) && limit_ok (MaxNodes l) (MaxNodes absoluteLimits) &&
         limit_ok (MaxEdges l) (MaxEdges absoluteLimits) && limit_ok (MaxDepth l) (MaxDepth absoluteLimits) &&
         limit_ok (MaxProperties l) (MaxProperties absoluteLimits) && limit_ok (MaxBytes l) (MaxBytes absoluteLimits)
      then Ok l else reject "INVALID_LIMIT"
  end.

(** ** The rows *)
Record typeRow : Type := mkTypeRow {
  tr_typeName : bytes; tr_fieldName : bytes; tr_componentType : bytes; tr_associatedType : bytes; tr_dataType : bytes;
  tr_nucTotalLength : Z; tr_ucTotalLength : Z; tr_description : bytes; tr_decimals : Z; tr_internalType : bytes;
  tr_nucOffset : Z; tr_ucOffset : Z; tr_nucLength : Z; tr_ucLength : Z; tr_timestamp : bytes
}.

Record indirectRow : Type := mkIndirectRow { ir_tableName : bytes; ir_fieldPath : bytes; ir_targetType : bytes }.

Record parameterRow : Type := mkParameterRow {
  row_functionName : bytes; row_parameterClass : bytes; row_parameterName : bytes; row_tableName : bytes;
  row_fieldPath : bytes; row_internalType : bytes; row_position : Z; row_internalLength : Z; row_decimals : Z;
  row_defaultValue : bytes; row_parameterText : bytes; row_optional : bool
}.

Definition snapshotFunctionIdentity (rows : option (list FunctionRow)) : M budget (option FunctionIdentity) :=
  match rows with
  | None => mret None
  | Some values =>
      _ ← addRows (zlen values);
      match values with
      | [] => mret None
      | [row] =>
          _ ← addProperties 4;
          date ← text (fr_UDat row) 8 false true;
          tm ← text (fr_UTime row) 6 false true;
          if negb (digitsPattern 8 date) then lift (reject "INVALID_DATE")
          else if negb (digitsPattern 6 tm) then lift (reject "INVALID_TIME")
          else
            name ← metadataName (fr_FunctionName row) false;
            basxml ← flag (fr_BasxmlSupported row);
            mret (Some (mkIdentity name basxml (lit "function:" ++ date ++ lit ":" ++ tm)))
      | _ => lift (reject "MULTIPLE_FUNCTION_IDENTITIES")
      end
  end.

Definition snapshotTypeRow (row : TypeRowInput) : M budget typeRow :=
  _ ← addProperties 15;
  timestamp ← text (ti_Timestamp row) 14 false true;
  if negb (digitsPattern 14 timestamp) then lift (reject "INVALID_TIMESTAMP")
  else
    typeName ← metadataName (ti_TypeName row) false;
    fieldName ← metadataName (ti_FieldName row) true;
    componentType ← text (ti_CompType row) 1 true true;
    associatedType ← metadataName (ti_FieldType row) true;
    dataType ← text (ti_DataType row) 8 false true;
    nucTotalLength ← integer (ti_TabLength row);
    ucTotalLength ← integer (ti_TabLengthUC row);
    description ← text (ti_Description row) 60 true false;
    decimals ← integer (ti_Decimals row);
    internalType ← text (ti_IntType row) 1 false true;
    nucOffset ← integer (ti_Offset row);
    ucOffset ← integer (ti_OffsetUC row);
    nucLength ← integer (ti_IntLen row);
    ucLength ← integer (ti_IntLenUC row);
    mret (mkTypeRow typeName fieldName componentType associatedType dataType nucTotalLength ucTotalLength
      description decimals internalType nucOffset ucOffset nucLength ucLength timestamp).

(** The loop over a table. *)
Fixpoint each {A B} (f : A -> M budget B) (rows : list A) : M budget (list B) :=
  match rows with
  | [] => mret []
  | row :: rows => r ← f row; rs ← each f rows; mret (r :: rs)
  end.

Definition snapshotTypeRows (rows : list TypeRowInput) : M budget (list typeRow) :=
  _ ← addRows (zlen rows); each snapshotTypeRow rows.

Definition snapshotIndirectRow (row : IndirectRowInput) : M budget indirectRow :=
  _ ← addProperties 3;
  tableName ← metadataName (ii_TabName row) false;
  fieldPath ← metadataName (ii_FieldName row) false;
  targetType ← metadataName (ii_FieldType row) false;
  mret (mkIndirectRow tableName fieldPath targetType).

Definition snapshotIndirectRows (rows : list IndirectRowInput) : M budget (list indirectRow) :=
  _ ← addRows (zlen rows); each snapshotIndirectRow rows.

Definition snapshotParameterRow (row : ParameterRowInput) : M budget parameterRow :=
  _ ← addProperties 13;
  parameterClass ← text (pi_ParamClass row) 1 false true;
  if negb (paramClassP parameterClass) then lift (reject "INVALID_PARAMETER_CLASS")
  else
    internalType ← text (pi_Exid row) 1 true true;
    if negb (bytes_eqb parameterClass (lit "X")) && isEmpty internalType then lift (reject "INVALID_TEXT")
    else
      _ ← integer (pi_Offset row);
      defaultValue ← text (pi_Default row) 21 true false;
      parameterText ← text (pi_ParamText row) 79 true false;
      position ← integer (pi_Position row);
      functionName ← metadataName (pi_FuncName row) false;
      parameterName ← metadataName (pi_Parameter row) false;
      tableName ← metadataName (pi_TabName row) true;
      fieldPath ← metadataName (pi_FieldName row) true;
      internalLength ← integer (pi_IntLength row);
      decimals ← integer (pi_Decimals row);
      optional ← flag (pi_Optional row);
      mret (mkParameterRow functionName parameterClass parameterName tableName fieldPath internalType position
        internalLength decimals defaultValue parameterText optional).

Definition snapshotParameterRows (rows : option (list ParameterRowInput)) : M budget (list parameterRow) :=
  match rows with
  | None => mret []
  | Some values => _ ← addRows (zlen values); each snapshotParameterRow values
  end.

Definition validateFunctionIdentity (identity : option FunctionIdentity) (identityWasProvided : bool) (parameters : list parameterRow)
  : res unit :=
  let names : gset bytes := list_to_set (map row_functionName parameters) in
  if (1 <? size names)%nat then reject "MULTIPLE_FUNCTIONS"
  else match identity with
       | None => if identityWasProvided && (0 <? size names)%nat then reject "MISSING_FUNCTION_IDENTITY" else Ok tt
       | Some id =>
           if (size names =? 1)%nat && negb (bool_decide (fid_Name id ∈ names)) then reject "FOREIGN_FUNCTION_REFERENCE"
           else Ok tt
       end.

(** ** The types *)
Record provReference : Type := mkProvReference { pref_kind : kind; pref_internalType : bytes; pref_targetType : bytes }.

Record provField : Type := mkProvField {
  pf_name : bytes; pf_position : Z; pf_componentType : bytes; pf_associatedType : bytes; pf_dataType : bytes;
  pf_internalType : bytes; pf_description : bytes; pf_decimals : Z;
  pf_nucOffset : Z; pf_ucOffset : Z; pf_nucLength : Z; pf_ucLength : Z; pf_reference : provReference
}.

Record provNode : Type := mkProvNode {
  pn_name : bytes; pn_kind : kind; pn_nucLength : Z; pn_ucLength : Z; pn_timestamp : bytes; pn_fields : list provField
}.

Definition classifyReference (internalType associatedType : bytes) : res provReference :=
  if bytes_eqb internalType (lit "u") || bytes_eqb internalType (lit "v") || bytes_eqb internalType (lit "h") then
    if isEmpty associatedType then reject "MISSING_ASSOCIATED_TYPE"
    else Ok (mkProvReference (if bytes_eqb internalType (lit "h") then KTable else KStructure) internalType associatedType)
  else Ok (mkProvReference KScalar internalType []).

Definition safeEnd (offset length : Z) : Z := int64 (offset + length).

(** The rows of one type are consecutive.  The last group is the first of [grouped]. *)
Fixpoint group_rows (rows : list typeRow) (closed : gset bytes) (grouped : list (bytes * list typeRow))
  : res (list (bytes * list typeRow)) :=
  match rows with
  | [] => Ok (rev grouped)
  | row :: rows =>
      match grouped with
      | (name, rs) :: earlier =>
          if bytes_eqb name (tr_typeName row) then group_rows rows closed ((name, rs ++ [row]) :: earlier)
          else
            let closed := {[name]} ∪ closed in
            if bool_decide (tr_typeName row ∈ closed) then reject "NONCONTIGUOUS_TYPE"
            else group_rows rows closed ((tr_typeName row, [row]) :: grouped)
      | [] => group_rows rows closed [(tr_typeName row, [row])]
      end
  end.

Definition is_scalar_ref (r : provReference) : bool := bool_decide (pref_kind r = KScalar).

(** The loop over the fields of one type; [fieldEdges] counts the references of all types. *)
Fixpoint field_rows (first : typeRow) (nucTotal ucTotal : Z) (rows : list typeRow) (fieldIndex : Z) (names : gset bytes)
    (previousNucEnd previousUcEnd : Z) (fields : list provField) (fieldEdges : Z) : res (list provField * Z) :=
  match rows with
  | [] => Ok (fields, fieldEdges)
  | row :: rows =>
      if negb (tr_nucTotalLength row =? tr_nucTotalLength first) || negb (tr_ucTotalLength row =? tr_ucTotalLength first)
      then reject "INCONSISTENT_TOTAL_LENGTH"
      else if negb (bytes_eqb (tr_timestamp row) (tr_timestamp first)) then reject "INCONSISTENT_TIMESTAMP"
      else if bool_decide (tr_fieldName row ∈ names) then reject "DUPLICATE_FIELD"
      else
        let nucEnd := safeEnd (tr_nucOffset row) (tr_nucLength row) in
        let ucEnd := safeEnd (tr_ucOffset row) (tr_ucLength row) in
        if (tr_nucOffset row <? previousNucEnd) || (tr_ucOffset row <? previousUcEnd) || (nucTotal <? nucEnd) || (ucTotal <? ucEnd)
        then reject "INVALID_GEOMETRY"
        else
          reference ← classifyReference (tr_internalType row) (tr_associatedType row);
          field_rows first nucTotal ucTotal rows (fieldIndex + 1) ({[tr_fieldName row]} ∪ names) nucEnd ucEnd
            (fields ++ [mkProvField (tr_fieldName row) (fieldIndex + 1) (tr_componentType row) (tr_associatedType row)
              (tr_dataType row) (tr_internalType row) (tr_description row) (tr_decimals row)
              (tr_nucOffset row) (tr_ucOffset row) (tr_nucLength row) (tr_ucLength row) reference])
            (if is_scalar_ref reference then fieldEdges else fieldEdges + 1)
  end.

(** One type of the second loop. *)
Definition build_node (limits : Limits) (g : bytes * list typeRow) (fieldEdges : Z) : res (provNode * Z) :=
  first ← go_index (snd g) 0;
  let blankCount := length (filter (fun r => isEmpty (tr_fieldName r) = true) (snd g)) in
  let anonymous := (0 <? blankCount)%nat in
  if anonymous && (negb (zlen (snd g) =? 1) || negb (blankCount =? 1)%nat) then reject "INVALID_TABLE_SHAPE"
  else
    anonymousScalar ←
      (if anonymous then
         r ← classifyReference (tr_internalType first) (tr_associatedType first);
         Ok (is_scalar_ref r)
       else Ok false);
    let nucTotal := if anonymousScalar && (tr_nucTotalLength first =? 0)
                    then safeEnd (tr_nucOffset first) (tr_nucLength first) else tr_nucTotalLength first in
    let ucTotal := if anonymousScalar && (tr_ucTotalLength first =? 0)
                   then safeEnd (tr_ucOffset first) (tr_ucLength first) else tr_ucTotalLength first in
    '(fields, fieldEdges) ← field_rows first nucTotal ucTotal (snd g) 0 ∅ 0 0 [] fieldEdges;
    if MaxEdges limits <? fieldEdges then reject "EDGE_LIMIT"
    else
      k ← (if anonymous then f ← go_index fields 0; Ok (if is_scalar_ref (pf_reference f) then KScalar else KTable)
           else Ok KStructure);
      Ok (mkProvNode (fst g) k nucTotal ucTotal (tr_timestamp first) fields, fieldEdges).

Fixpoint build_groups (limits : Limits) (groups : list (bytes * list typeRow)) (fieldEdges : Z) (nodes : list provNode)
  : res (list provNode) :=
  match groups with
  | [] => Ok nodes
  | g :: groups =>
      '(node, fieldEdges) ← build_node limits g fieldEdges;
      build_groups limits groups fieldEdges (nodes ++ [node])
  end.

Definition buildNodes (rows : list typeRow) (limits : Limits) : res (list provNode) :=
  grouped ← group_rows rows ∅ [];
  if MaxNodes limits <? zlen grouped then reject "NODE_LIMIT"
  else build_groups limits grouped 0 [].

(** [row.tableName + "\x00" + row.fieldPath] *)
Definition path_key (tableName fieldPath : bytes) : bytes := tableName ++ [x00] ++ fieldPath.
Definition has_dash (s : bytes) : bool := bool_decide (x2d ∈ s).

Fixpoint indirect_targets (rows : list indirectRow) (targets : gmap bytes bytes) (ambiguous : gset bytes)
  : gmap bytes bytes * gset bytes :=
  match rows with
  | [] => (targets, ambiguous)
  | row :: rows =>
      let key := path_key (ir_tableName row) (ir_fieldPath row) in
      match targets !! key with
      | Some _ => indirect_targets rows targets ({[key]} ∪ ambiguous)
      | None => indirect_targets rows (<[key := ir_targetType row]> targets) ambiguous
      end
  end.

(** The types a parameter of internal type h requires to be tables. *)
Definition required_table (targets : gmap bytes bytes) (ambiguous : gset bytes) (p : parameterRow) : option bytes :=
  if negb (bytes_eqb (row_internalType p) (lit "h")) then None
  else if has_dash (row_fieldPath p) then
    let key := path_key (row_tableName p) (row_fieldPath p) in
    match targets !! key with
    | Some target => if bool_decide (key ∈ ambiguous) then None else Some target
    | None => None
    end
  else if isEmpty (row_fieldPath p) && negb (isEmpty (row_tableName p)) then Some (row_tableName p)
  else None.

Definition table_targets (nodes : list provNode) : list bytes :=
  map pref_targetType (filter (fun r => pref_kind r = KTable) (map pf_reference (concat (map pn_fields nodes)))).

Definition refineTableNodeKinds (nodes : list provNode) (parameters : list parameterRow) (indirectRows : list indirectRow)
  : list provNode :=
  let '(targets, ambiguous) := indirect_targets indirectRows ∅ ∅ in
  let requiredTables : gset bytes :=
    list_to_set (table_targets nodes ++ omap (required_table targets ambiguous) parameters) in
  map (fun node =>
    if bool_decide (pn_kind node = KScalar) && bool_decide (pn_name node ∈ requiredTables)
    then mkProvNode (pn_name node) KTable (pn_nucLength node) (pn_ucLength node) (pn_timestamp node) (pn_fields node)
    else node) nodes.

(** [byName]: a later node of the same name would win. *)
Definition by_name (nodes : list provNode) : gmap bytes provNode :=
  foldl (fun m n => <[pn_name n := n]> m) ∅ nodes.

Definition check_target (byName : gmap bytes provNode) (field : provField) : res unit :=
  let ref := pf_reference field in
  if is_scalar_ref ref then Ok tt
  else match byName !! pref_targetType ref with
       | None => reject "FOREIGN_TYPE_REFERENCE"
       | Some target => if bool_decide (pn_kind target = pref_kind ref) then Ok tt else reject "REFERENCE_KIND_MISMATCH"
       end.

Fixpoint check_all {A} (f : A -> res unit) (l : list A) : res unit :=
  match l with
  | [] => Ok tt
  | a :: l => _ ← f a; check_all f l
  end.

Definition validateNodeTargets (nodes : list provNode) : res unit :=
  check_all (fun node => check_all (check_target (by_name nodes)) (pn_fields node)) nodes.

(** ** The parameters *)
Record provParamRef : Type := mkProvParamRef { ppr_kind : param_kind; ppr_internalType : bytes; ppr_targetType : bytes }.

Record provParameter : Type := mkProvParameter {
  pp_functionName : bytes; pp_name : bytes; pp_parameterClass : bytes; pp_position : Z; pp_associatedType : bytes;
  pp_fieldPath : bytes; pp_internalType : bytes; pp_internalLength : Z; pp_decimals : Z; pp_defaultValue : bytes;
  pp_parameterText : bytes; pp_optional : bool; pp_reference : provParamRef
}.

Fixpoint indirectMap (rows : list indirectRow) (out : gmap bytes indirectRow) : res (gmap bytes indirectRow) :=
  match rows with
  | [] => Ok out
  | row :: rows =>
      if negb (has_dash (ir_fieldPath row)) then reject "INVALID_INDIRECT_PATH"
      else
        let key := path_key (ir_tableName row) (ir_fieldPath row) in
        match out !! key with
        | Some _ => reject "DUPLICATE_INDIRECT_TYPE"
        | None => indirectMap rows (<[key := row]> out)
        end
  end.

(** [strings.Split(s, "-")] *)
Fixpoint split_dash (s : bytes) : list bytes :=
  match s with
  | [] => [[]]
  | c :: s =>
      if bool_decide (c = x2d) then [] :: split_dash s
      else match split_dash s with
           | seg :: segs => (c :: seg) :: segs
           | [] => [[c]]
           end
  end.

Section Parameters.
Context (byName : gmap bytes provNode) (fieldsByNode : gmap bytes (gmap bytes provField)) (indirect : gmap bytes indirectRow)
  (limits : Limits).

Definition lookup_field (node segment : bytes) : option provField := default ∅ (fieldsByNode !! node) !! segment.

Fixpoint resolve_segments (current : provNode) (segments : list bytes) : res provReference :=
  match segments with
  | [] => Ok (mkProvReference KScalar [] [])
  | segment :: segments =>
      if isEmpty segment then reject "INVALID_FIELD_PATH"
      else match lookup_field (pn_name current) segment with
           | None => reject "FOREIGN_FIELD_REFERENCE"
           | Some field =>
               let reference := pf_reference field in
               match segments with
               | [] => Ok reference
               | _ =>
                   if bool_decide (pref_kind reference <> KStructure) then reject "INVALID_FIELD_PATH"
                   else match byName !! pref_targetType reference with
                        | Some target =>
                            if bool_decide (pn_kind target = KStructure) then resolve_segments target segments
                            else reject "FOREIGN_TYPE_REFERENCE"
                        | None => reject "FOREIGN_TYPE_REFERENCE"
                        end
               end
           end
  end.

Definition resolveFieldPath (node : provNode) (fieldPath : bytes) : res provReference :=
  resolve_segments node (split_dash fieldPath).

(** What the loop over the parameters changes. *)
Record pstate : Type := mkPState { ps_consumed : gset bytes; ps_roots : list bytes; ps_edges : Z }.

Definition addRoot (name : bytes) : M pstate unit := fun s =>
  (Ok tt, if bool_decide (name ∈ ps_roots s) then s else mkPState (ps_consumed s) (ps_roots s ++ [name]) (ps_edges s)).
Definition consume (key : bytes) : M pstate unit := fun s =>
  (Ok tt, mkPState ({[key]} ∪ ps_consumed s) (ps_roots s) (ps_edges s)).
Definition countEdge : M pstate unit := fun s => (Ok tt, mkPState (ps_consumed s) (ps_roots s) (ps_edges s + 1)).
Definition checkEdges : M pstate unit := fun s =>
  (if MaxEdges limits <? ps_edges s then reject "EDGE_LIMIT" else Ok tt, s).

(** [if cond { reject(code) }] *)
Definition unless (c : bool) (code : string) : M pstate unit := if c then mret tt else lift (reject code).
Definition found {A} (o : option A) (code : string) : M pstate A :=
  match o with Some a => mret a | None => lift (reject code) end.

(** The indirect row of a path with a dash. *)
Definition mapped_row (row : parameterRow) : M pstate indirectRow :=
  let key := path_key (row_tableName row) (row_fieldPath row) in
  mapping ← found (indirect !! key) "MISSING_INDIRECT_TYPE";
  _ ← consume key;
  mret mapping.

Definition mappedTarget (row : parameterRow) : M pstate (option provNode) :=
  if negb (has_dash (row_fieldPath row)) then mret None
  else
    _ ← unless (negb (isEmpty (row_tableName row))) "MISSING_ASSOCIATED_TYPE";
    mapping ← mapped_row row;
    target ← found (byName !! ir_targetType mapping) "FOREIGN_TYPE_REFERENCE";
    _ ← addRoot (ir_targetType mapping);
    mret (Some target).

Definition directFieldReference (row : parameterRow) : M pstate (option provReference) :=
  if isEmpty (row_fieldPath row) || has_dash (row_fieldPath row) then mret None
  else
    _ ← unless (negb (isEmpty (row_tableName row))) "MISSING_ASSOCIATED_TYPE";
    owner ← found (byName !! row_tableName row) "FOREIGN_TYPE_REFERENCE";
    _ ← addRoot (row_tableName row);
    r ← lift (resolveFieldPath owner (row_fieldPath row));
    mret (Some r).

Definition scalarLeaf (n : provNode) : bool :=
  match pn_fields n with
  | [f] => isEmpty (pf_name f) && is_scalar_ref (pf_reference f)
  | _ => false
  end.

(** [hasMapped && !scalarLeaf(mapped)] and [hasDirect && direct.kind != "scalar"]. *)
Definition leaf_ok (mapped : option provNode) : bool := match mapped with Some n => scalarLeaf n | None => true end.
Definition direct_ok (direct : option provReference) : bool := match direct with Some r => is_scalar_ref r | None => true end.
Definition is_none {A} (o : option A) : bool := match o with Some _ => false | None => true end.

(** The type a parameter without a path names itself, if the graph has it. *)
Definition namedTarget (row : parameterRow) (mapped : option provNode) (direct : option provReference) : option provNode :=
  if is_none mapped && is_none direct && isEmpty (row_fieldPath row) && negb (isEmpty (row_tableName row))
  then byName !! row_tableName row else None.

Definition scalarTableReference (row : parameterRow) : M pstate provParamRef :=
  mapped ← mappedTarget row;
  direct ← directFieldReference row;
  _ ← unless (leaf_ok mapped) "REFERENCE_KIND_MISMATCH";
  _ ← unless (direct_ok direct) "REFERENCE_KIND_MISMATCH";
  _ ← match namedTarget row mapped direct with
      | Some named => _ ← unless (scalarLeaf named) "REFERENCE_KIND_MISMATCH"; addRoot (row_tableName row)
      | None => mret tt
      end;
  _ ← countEdge;
  _ ← checkEdges;
  mret (mkProvParamRef PScalarTable (row_internalType row) []).

Definition scalarReference (row : parameterRow) : M pstate provParamRef :=
  mapped ← mappedTarget row;
  direct ← directFieldReference row;
  _ ← match mapped with
      | Some n => _ ← unless (scalarLeaf n) "REFERENCE_KIND_MISMATCH"; countEdge
      | None => mret tt
      end;
  _ ← match direct with
      | Some r => _ ← unless (is_scalar_ref r) "REFERENCE_KIND_MISMATCH"; countEdge
      | None => mret tt
      end;
  _ ← match namedTarget row mapped direct with
      | Some named =>
          _ ← unless (scalarLeaf named) "REFERENCE_KIND_MISMATCH"; _ ← addRoot (row_tableName row); countEdge
      | None => mret tt
      end;
  _ ← checkEdges;
  mret (mkProvParamRef PScalar (row_internalType row) []).

(** The type a structure or table parameter refers to. *)
Definition targetName (row : parameterRow) : M pstate bytes :=
  if has_dash (row_fieldPath row) then
    mapping ← mapped_row row; mret (ir_targetType mapping)
  else if negb (isEmpty (row_fieldPath row)) then
    owner ← found (byName !! row_tableName row) "FOREIGN_TYPE_REFERENCE";
    resolved ← lift (resolveFieldPath owner (row_fieldPath row));
    _ ← unless (negb (is_scalar_ref resolved)) "REFERENCE_KIND_MISMATCH";
    mret (pref_targetType resolved)
  else mret (row_tableName row).

Definition typeReference (row : parameterRow) (isTable isStructure : bool) : M pstate provParamRef :=
  _ ← unless (negb (isEmpty (row_tableName row))) "MISSING_ASSOCIATED_TYPE";
  targetType ← targetName row;
  target ← found (byName !! targetType) "FOREIGN_TYPE_REFERENCE";
  _ ← unless (negb (isStructure && negb (bool_decide (pn_kind target = KStructure)))) "REFERENCE_KIND_MISMATCH";
  _ ← unless (negb (bytes_eqb (row_internalType row) (lit "h") && negb (bool_decide (pn_kind target = KTable)))) "REFERENCE_KIND_MISMATCH";
  _ ← countEdge;
  _ ← checkEdges;
  _ ← addRoot targetType;
  mret (mkProvParamRef (if isTable then PTable else PStructure) (row_internalType row) targetType).

Definition parameterReference (row : parameterRow) : M pstate provParamRef :=
  if bytes_eqb (row_parameterClass row) (lit "X") then mret (mkProvParamRef PException [] [])
  else
    let isT := bytes_eqb (row_parameterClass row) (lit "T") in
    let isU := bytes_eqb (row_internalType row) (lit "u") in
    let isV := bytes_eqb (row_internalType row) (lit "v") in
    let isH := bytes_eqb (row_internalType row) (lit "h") in
    let scalarTable := isT && negb isU && negb isV && negb isH in
    let isTable := negb scalarTable && (isT || isH) in
    let isStructure := negb isTable && negb scalarTable && (isU || isV) in
    if scalarTable then scalarTableReference row
    else if negb isTable && negb isStructure then scalarReference row
    else typeReference row isTable isStructure.

Definition provisionalParameter (row : parameterRow) : M pstate provParameter :=
  reference ← parameterReference row;
  mret (mkProvParameter (row_functionName row) (row_parameterName row) (row_parameterClass row) (row_position row)
    (row_tableName row) (row_fieldPath row) (row_internalType row) (row_internalLength row) (row_decimals row)
    (row_defaultValue row) (row_parameterText row) (row_optional row) reference).

Fixpoint parameter_loop (rows : list parameterRow) (parameters : gset bytes) : M pstate (list provParameter) :=
  match rows with
  | [] => mret []
  | row :: rows =>
      let key := path_key (row_functionName row) (row_parameterName row) in
      _ ← unless (negb (bool_decide (key ∈ parameters))) "DUPLICATE_PARAMETER";
      p ← provisionalParameter row;
      ps ← parameter_loop rows ({[key]} ∪ parameters);
      mret (p :: ps)
  end.
End Parameters.

Definition fields_by_node (nodes : list provNode) : gmap bytes (gmap bytes provField) :=
  foldl (fun m n => <[pn_name n := foldl (fun fm f => <[pf_name f := f]> fm) ∅ (pn_fields n)]> m) ∅ nodes.

(** The references among the fields of the nodes. *)
Definition node_edges (nodes : list provNode) : Z :=
  zlen (filter (fun f => is_scalar_ref (pf_reference f) = false) (concat (map pn_fields nodes))).

Definition provisionalParameters (rows : list parameterRow) (indirectRows : list indirectRow) (nodes : list provNode) (limits : Limits)
  : res (list provParameter * list bytes * Z) :=
  indirect ← indirectMap indirectRows ∅;
  match parameter_loop (by_name nodes) (fields_by_node nodes) indirect limits rows ∅ (mkPState ∅ [] (node_edges nodes)) with
  | (Ok result, s) =>
      _ ← check_all (fun row =>
            if bool_decide (path_key (ir_tableName row) (ir_fieldPath row) ∈ ps_consumed s) then Ok tt
            else reject "FOREIGN_INDIRECT_TYPE") indirectRows;
      Ok (result, ps_roots s, ps_edges s)
  | (Err e, _) => Err e
  | (Panic, _) => Panic
  end.

(** ** The graph *)
Definition index_by_name (nodes : list provNode) : gmap bytes nat :=
  foldl (fun m '(i, n) => <[pn_name n := i]> m) ∅ (zip (seq 0 (length nodes)) nodes).

(** A name that is missing reads as the index 0. *)
Definition index_of (nodes : list provNode) (name : bytes) : nat := default 0%nat (index_by_name nodes !! name).

Definition field_targets (fields : list provField) : list bytes :=
  map (fun f => pref_targetType (pf_reference f)) (filter (fun f => is_scalar_ref (pf_reference f) = false) fields).

Definition adjacency_of (nodes : list provNode) : list (list nat) :=
  map (fun n => map (index_of nodes) (field_targets (pn_fields n))) nodes.

Definition graphComponents (nodes : list provNode) (roots : list bytes) (maxDepth : Z) : res components :=
  match analyse (adjacency_of nodes) (map (index_of nodes) roots) with
  | None => Err EFuel
  | Some comp => if maxDepth <? Z.of_nat (maximumDepth comp) then reject "DEPTH_LIMIT" else Ok comp
  end.

Definition node_component (comp : components) (i : nat) : Z := componentByNode comp !!! i.
Definition is_cyclic (comp : components) (component : Z) : bool := cyclicComponents comp !!! Z.to_nat component.

Definition final_reference (nodes : list provNode) (comp : components) (nodeIndex : nat) (r : provReference) : Reference :=
  if is_scalar_ref r then mkReference KScalar (pref_internalType r) [] false
  else
    let component := node_component comp nodeIndex in
    mkReference (pref_kind r) [] (pref_targetType r)
      ((component =? node_component comp (index_of nodes (pref_targetType r))) && is_cyclic comp component).

Definition final_field (nodes : list provNode) (comp : components) (nodeIndex : nat) (f : provField) : MetadataField :=
  mkMetadataField (pf_name f) (pf_position f) (pf_componentType f) (pf_associatedType f) (pf_dataType f) (pf_internalType f)
    (pf_description f) (pf_decimals f) (pf_nucOffset f) (pf_ucOffset f) (pf_nucLength f) (pf_ucLength f)
    (final_reference nodes comp nodeIndex (pf_reference f)).

Definition final_node (nodes : list provNode) (comp : components) (i : nat) (n : provNode) : TypeNode :=
  mkTypeNode (pn_name n) (pn_kind n) (pn_nucLength n) (pn_ucLength n) (pn_timestamp n) (map (final_field nodes comp i) (pn_fields n)).

Definition finalNodes (nodes : list provNode) (comp : components) : gmap bytes TypeNode :=
  foldl (fun m '(i, n) => <[pn_name n := final_node nodes comp i n]> m) ∅ (zip (seq 0 (length nodes)) nodes).

Definition final_param_reference (nodes : list provNode) (comp : components) (r : provParamRef) : ParameterReference :=
  match ppr_kind r with
  | PException => mkParameterReference PException [] [] false false []
  | PScalarTable => mkParameterReference PTable [] [] false true (ppr_internalType r)
  | PScalar => mkParameterReference PScalar (ppr_internalType r) [] false false []
  | k => mkParameterReference k [] (ppr_targetType r)
           (is_cyclic comp (node_component comp (index_of nodes (ppr_targetType r)))) false []
  end.

Definition finalParameters (values : list provParameter) (nodes : list provNode) (comp : components) : list MetadataParameter :=
  map (fun p => mkMetadataParameter (pp_functionName p) (pp_name p) (pp_parameterClass p) (pp_position p) (pp_associatedType p)
    (pp_fieldPath p) (pp_internalType p) (pp_internalLength p) (pp_decimals p) (pp_defaultValue p) (pp_parameterText p)
    (pp_optional p) (final_param_reference nodes comp (pp_reference p))) values.

Fixpoint cycle_loop (nodes : list provNode) (groups : list (list nat * bool)) (result : list Cycle) : res (list Cycle) :=
  match groups with
  | [] => Ok result
  | (members, cyclic) :: groups =>
      if cyclic then
        typeNames ← mapM (fun i => n ← go_index nodes (Z.of_nat i); Ok (pn_name n)) members;
        cycle_loop nodes groups (result ++ [mkCycle (lit "cycle:" ++ lit (pretty (zlen result))) typeNames])
      else cycle_loop nodes groups result
  end.

Definition finalCycles (nodes : list provNode) (comp : components) : res (list Cycle) :=
  cycle_loop nodes (zip (nodesByComponent comp) (cyclicComponents comp)) [].

(** The types reachable from the roots, by name; [None] without fuel. *)
Fixpoint reach_types (provByName : gmap bytes provNode) (fuel : nat) (stack : list bytes) (reachable : gset bytes) : option (gset bytes) :=
  match stack with
  | [] => Some reachable
  | name :: stack =>
      match fuel with
      | O => None
      | S fuel =>
          if decide (name ∈ reachable) then reach_types provByName fuel stack reachable
          else
            let targets := match provByName !! name with Some n => field_targets (pn_fields n) | None => [] end in
            reach_types provByName fuel (rev targets ++ stack) ({[name]} ∪ reachable)
      end
  end.

Definition reach_types_fuel (nodes : list provNode) (roots : list bytes) : nat :=
  length roots + sum_list_with (fun n => length (field_targets (pn_fields n))) nodes.

(** The roots: those the caller names, then those of the parameters; without any, all types. *)
Fixpoint add_named_roots (nodeNames : gset bytes) (names : list bytes) (roots : list bytes) : res (list bytes) :=
  match names with
  | [] => Ok roots
  | name :: names =>
      if negb (bool_decide (name ∈ nodeNames)) then reject "FOREIGN_ROOT"
      else add_named_roots nodeNames names (if bool_decide (name ∈ roots) then roots else roots ++ [name])
  end.

Definition add_param_roots (names : list bytes) (roots : list bytes) : list bytes :=
  foldl (fun roots name => if bool_decide (name ∈ roots) then roots else roots ++ [name]) roots names.

Definition all_roots (nodes : list provNode) (named params : list bytes) : res (list bytes) :=
  roots ← add_named_roots (list_to_set (map pn_name nodes)) named [];
  let roots := add_param_roots params roots in
  Ok (match roots with [] => map pn_name nodes | _ => roots end).

(** The rows of the four tables, under one budget. *)
Record Snapshot : Type := mkSnapshot {
  sn_identity : option FunctionIdentity; sn_types : list typeRow; sn_indirect : list indirectRow; sn_parameters : list parameterRow
}.

Definition topKey (name : bytes) (present : bool) : M budget Z :=
  if present then _ ← addBytes (zlen name); mret 1 else mret 0.

Definition snapshot (input : Input) : M budget Snapshot :=
  k1 ← topKey (lit "FUNCTIONNAMES") (negb (is_none (in_FunctionNames input)));
  k2 ← topKey (lit "DATATYPESCONT") true;
  k3 ← topKey (lit "INDIRECTTYPES") true;
  k4 ← topKey (lit "PARAMETERS") (negb (is_none (in_Parameters input)));
  _ ← addProperties (k1 + k2 + k3 + k4);
  functionIdentity ← snapshotFunctionIdentity (in_FunctionNames input);
  typeRows ← snapshotTypeRows (in_DataTypesCont input);
  indirectRows ← snapshotIndirectRows (in_IndirectTypes input);
  parameterRows ← snapshotParameterRows (in_Parameters input);
  mret (mkSnapshot functionIdentity typeRows indirectRows parameterRows).

(** What [Normalize] does with the rows and the budget they used. *)
Definition normalize_rows (limits : Limits) (rootTypeNames : list bytes) (identityWasProvided : bool) (sn : Snapshot) (b : budget)
  : res Graph :=
  _ ← validateFunctionIdentity (sn_identity sn) identityWasProvided (sn_parameters sn);
  built ← buildNodes (sn_types sn) limits;
  let nodes := refineTableNodeKinds built (sn_parameters sn) (sn_indirect sn) in
  _ ← validateNodeTargets nodes;
  '(paramValues, paramRoots, totalEdges) ← provisionalParameters (sn_parameters sn) (sn_indirect sn) nodes limits;
  roots ← all_roots nodes rootTypeNames paramRoots;
  comp ← graphComponents nodes roots (MaxDepth limits);
  match reach_types (by_name nodes) (reach_types_fuel nodes roots) (rev roots) ∅ with
  | None => Err EFuel
  | Some reachable =>
      if negb (size reachable =? length nodes)%nat then reject "FOREIGN_TYPE_NODE"
      else
        cycles ← finalCycles nodes comp;
        let final := finalNodes nodes comp in
        Ok (mkGraph 1 (sn_identity sn) final (finalParameters paramValues nodes comp) roots cycles limits
          (mkStatistics (b_rows b) (Z.of_nat (size final)) totalEdges (b_properties b) (b_bytes b) (Z.of_nat (maximumDepth comp))))
  end.

Definition Normalize (input : Input) (opts : option Options) : res Graph :=
  limits ← resolveLimits (match opts with Some o => opt_Limits o | None => None end);
  let rootTypeNames := match opts with Some o => opt_RootTypeNames o | None => [] end in
  match snapshot input (mkBudget limits 0 0 0) with
  | (Ok sn, b) => normalize_rows limits rootTypeNames (negb (is_none (in_FunctionNames input))) sn b
  | (Err e, _) => Err e
  | (Panic, _) => Panic
  end.

(** A run: a structure that contains itself through a table. *)
Definition sample_row (ty fd ft dt it off len total : string) : TypeRowInput :=
  mkTypeRowInput (lit ty) (lit fd) (lit "E") (lit ft) (lit dt) (lit total) (lit total) [] (lit "0") (lit it)
    (lit off) (lit off) (lit len) (lit len) (lit "20240101000000").

Definition sample_input : Input :=
  mkInput None
    [sample_row "NODE" "KEY" "" "INT4" "I" "0" "4" "12"; sample_row "NODE" "SUBS" "NODE_TAB" "TTYP" "h" "4" "8" "12";
     sample_row "NODE_TAB" "" "NODE" "STRU" "u" "0" "12" "12"]
    [] None.

Example normalize_run :
  match Normalize sample_input None with
  | Ok g => map_to_list (tn_Kind <$> g_Nodes g) = [(lit "NODE", KStructure); (lit "NODE_TAB", KTable)] /\
            g_Cycles g = [mkCycle (lit "cycle:0") [lit "NODE"; lit "NODE_TAB"]] /\ st_MaximumDepth (g_Statistics g) = 1
  | _ => False
  end.
Proof. vm_compute. auto. Qed.

(** ** Maps filled in a loop *)
Section FoldInsert.
Context {A B : Type} (key : A -> bytes) (val : A -> B).

Definition fill (m : gmap bytes B) (l : list A) : gmap bytes B := foldl (fun m a => <[key a := val a]> m) m l.

Lemma lookup_fill m l x v :
  NoDup (map key l) ->
  fill m l !! x = Some v <-> (exists a, a ∈ l /\ key a = x /\ val a = v) \/ (m !! x = Some v /\ forall a, a ∈ l -> key a <> x).
Proof.
  unfold fill. revert m. induction l as [|a l IH]; intros m Hnd; cbn.
  { split; [intros H; right; split; [done|by intros a ?%not_elem_of_nil]|]. by intros [(a & ?%not_elem_of_nil & _)|[H _]]. }
  cbn in Hnd. apply NoDup_cons in Hnd as [Ha Hnd]. rewrite (IH _ Hnd). setoid_rewrite elem_of_cons. split.
  - intros [(b & Hb & Hk & Hv)|[Hm Hne]]; [left; by exists b; auto|].
    destruct (decide (key a = x)) as [<-|Hax].
    + rewrite lookup_insert_eq in Hm. simplify_eq. left. exists a. auto.
    + rewrite lookup_insert_ne in Hm by done. right. split; [done|]. intros b [->|Hb]; [done|by apply Hne].
  - intros [(b & [->|Hb] & Hk & Hv)|[Hm Hne]].
    + right. subst. rewrite lookup_insert_eq. split; [done|]. intros b Hb E. apply Ha. rewrite <- E. by apply list_elem_of_In, in_map, list_elem_of_In.
    + left. by exists b.
    + right. rewrite lookup_insert_ne by (apply Hne; by left). split; [done|]. intros b Hb. apply Hne. by right.
Qed.

Lemma lookup_fill_empty l x v :
  NoDup (map key l) -> fill ∅ l !! x = Some v <-> exists a, a ∈ l /\ key a = x /\ val a = v.
Proof.
  intros Hnd. rewrite lookup_fill by done. split; [|by left].
  intros [H|[H _]]; [done|]. by rewrite lookup_empty in H.
Qed.
End FoldInsert.

Lemma map_snd_zip_seq {A} (l : list A) k : map snd (zip (seq k (length l)) l) = l.
Proof. revert k. induction l as [|a l IH]; intros k; cbn; [done|]. by rewrite IH. Qed.

Lemma elem_of_zip_seq {A} (l : list A) i a : (i, a) ∈ zip (seq 0 (length l)) l <-> l !! i = Some a.
Proof.
  split.
  - intros [k Hk]%list_elem_of_lookup_1. apply lookup_zip_Some in Hk as [[-> _]%lookup_seq H2]. done.
  - intros Hi. apply (list_elem_of_lookup_2 _ i), lookup_zip_Some. split; [|done].
    apply lookup_seq. apply lookup_lt_Some in Hi. lia.
Qed.

Lemma tc_first {A} (R : relation A) x y : tc R x y -> exists z, R x z /\ rtc R z y.
Proof. intros [a b H|a b c H H']; [by exists b|]. exists b. split; [done|by apply tc_rtc]. Qed.

(** ** Names and indices *)
Definition names (nodes : list provNode) : list bytes := map pn_name nodes.

Section Named.
Context (nodes : list provNode) (Hnames : NoDup (names nodes)).

Lemma by_name_spec x n : by_name nodes !! x = Some n <-> n ∈ nodes /\ pn_name n = x.
Proof.
  assert (by_name nodes = fill pn_name (fun n => n) ∅ nodes) as -> by done. rewrite lookup_fill_empty by done. split.
  - by intros (a & Ha & Hk & ->).
  - intros [H1 H2]. by exists n.
Qed.

Lemma by_name_is_Some x : is_Some (by_name nodes !! x) <-> x ∈ names nodes.
Proof.
  split.
  - intros [n [Hn <-]%by_name_spec]. by apply list_elem_of_In, in_map, list_elem_of_In.
  - intros Hx%list_elem_of_In. apply in_map_iff in Hx as (n & <- & Hn%list_elem_of_In). exists n. by apply by_name_spec.
Qed.

Lemma zip_names : NoDup (map (fun p => pn_name (snd p)) (zip (seq 0 (length nodes)) nodes)).
Proof. rewrite <- map_map, map_snd_zip_seq. done. Qed.

Lemma index_by_name_spec x i : index_by_name nodes !! x = Some i <-> exists n, nodes !! i = Some n /\ pn_name n = x.
Proof.
  unfold index_by_name.
  assert (E : forall l (m : gmap bytes nat), foldl (fun m '(i, n) => <[pn_name n := i]> m) m l = fill (fun p => pn_name (snd p)) fst m l).
  { intros l. induction l as [|[j n] l IH]; intros m; [done|]. apply IH. }
  rewrite E, lookup_fill_empty by apply zip_names. split.
  - intros ([j n] & Hin & Hk & Hv). cbn in *. subst. exists n. by rewrite elem_of_zip_seq in Hin.
  - intros (n & Hn & Hk). exists (i, n). split; [by apply elem_of_zip_seq|done].
Qed.

Lemma index_of_lookup i n : nodes !! i = Some n -> index_of nodes (pn_name n) = i.
Proof.
  intros Hi. unfold index_of.
  assert (index_by_name nodes !! pn_name n = Some i) as ->; [|done]. apply index_by_name_spec. by exists n.
Qed.

Lemma index_of_name x : x ∈ names nodes -> exists n, nodes !! index_of nodes x = Some n /\ pn_name n = x.
Proof.
  intros Hx%list_elem_of_In. apply in_map_iff in Hx as (n & <- & [i Hi]%list_elem_of_In%list_elem_of_lookup_1).
  exists n. by rewrite (index_of_lookup i n Hi).
Qed.

Lemma index_of_bounded x : x ∈ names nodes -> (index_of nodes x < length nodes)%nat.
Proof. intros (n & Hn & _)%index_of_name. by eapply lookup_lt_Some. Qed.

Lemma final_nodes_spec comp x t :
  finalNodes nodes comp !! x = Some t <-> exists i n, nodes !! i = Some n /\ pn_name n = x /\ t = final_node nodes comp i n.
Proof.
  unfold finalNodes.
  assert (E : forall l (m : gmap bytes TypeNode), foldl (fun m '(i, n) => <[pn_name n := final_node nodes comp i n]> m) m l =
    fill (fun p => pn_name (snd p)) (fun p => final_node nodes comp (fst p) (snd p)) m l).
  { intros l. induction l as [|[j n] l IH]; intros m; [done|]. apply IH. }
  rewrite E, lookup_fill_empty by apply zip_names. split.
  - intros ([i n] & Hin%elem_of_zip_seq & Hk & Hv). by exists i, n.
  - intros (i & n & Hn & Hk & ->). exists (i, n). split; [by apply elem_of_zip_seq|done].
Qed.

Lemma final_nodes_size comp : size (finalNodes nodes comp) = length nodes.
Proof.
  rewrite <- size_dom. assert (dom (finalNodes nodes comp) = list_to_set (names nodes)) as ->.
  { apply set_eq. intros x. rewrite elem_of_dom, elem_of_list_to_set. split.
    - intros [t (i & n & Hn & <- & _)%final_nodes_spec]. apply list_elem_of_In, in_map, list_elem_of_In. by eapply list_elem_of_lookup_2.
    - intros (n & Hn & Hx)%index_of_name. eexists. apply final_nodes_spec. eauto. }
  rewrite size_list_to_set by done. unfold names. by rewrite length_map.
Qed.

(** *** References by name and edges by index *)
Definition refers (a b : bytes) : Prop := exists n, n ∈ nodes /\ pn_name n = a /\ b ∈ field_targets (pn_fields n).

(** What [validateNodeTargets] ensures. *)
Definition closed_targets : Prop := forall n x, n ∈ nodes -> x ∈ field_targets (pn_fields n) -> x ∈ names nodes.

Lemma adjacency_length : length (adjacency_of nodes) = length nodes.
Proof. apply length_map. Qed.

Lemma name_elem i n : nodes !! i = Some n -> pn_name n ∈ names nodes.
Proof. intros Hi. apply list_elem_of_In, in_map, list_elem_of_In. by eapply list_elem_of_lookup_2. Qed.

Lemma name_lookup_inj i j n m : nodes !! i = Some n -> nodes !! j = Some m -> pn_name n = pn_name m -> i = j.
Proof. intros Hi Hj E. rewrite <- (index_of_lookup i n Hi), <- (index_of_lookup j m Hj). by rewrite E. Qed.

Lemma neighbors_of i n : nodes !! i = Some n -> neighbors (adjacency_of nodes) i = map (index_of nodes) (field_targets (pn_fields n)).
Proof. intros Hi. unfold neighbors, adjacency_of. rewrite list_lookup_total_alt. change (map ?f ?l) with (f <$> l). rewrite list_lookup_fmap, Hi. done. Qed.

Lemma refers_lookup i n b : nodes !! i = Some n -> refers (pn_name n) b <-> b ∈ field_targets (pn_fields n).
Proof.
  intros Hi. split.
  - intros (m & [j Hj]%list_elem_of_lookup_1 & E & Hb). assert (i = j) as -> by (by eapply name_lookup_inj). simplify_eq. done.
  - intros Hb. exists n. split; [by eapply list_elem_of_lookup_2|done].
Qed.

Context (Hclosed : closed_targets).

Lemma refers_names a b : refers a b -> a ∈ names nodes /\ b ∈ names nodes.
Proof.
  intros (n & Hn & <- & Hb). split; [|exact (Hclosed n b Hn Hb)]. apply list_elem_of_In, in_map. by apply list_elem_of_In.
Qed.

Lemma edge_refers i j n m :
  nodes !! i = Some n -> nodes !! j = Some m -> edge (adjacency_of nodes) i j <-> refers (pn_name n) (pn_name m).
Proof.
  intros Hi Hj. unfold edge. rewrite (neighbors_of i n Hi), (refers_lookup i n _ Hi), list_elem_of_In, in_map_iff. split.
  - intros (t & Ht & Hin%list_elem_of_In). destruct (index_of_name t) as (m' & Hm' & <-).
    { exact (Hclosed n t (list_elem_of_lookup_2 _ _ _ Hi) Hin). }
    rewrite Ht in Hm'. by simplify_eq.
  - intros Hin. exists (pn_name m). rewrite (index_of_lookup j m Hj). split; [done|by apply list_elem_of_In].
Qed.

Lemma adjacency_bounded : bounded_graph (adjacency_of nodes).
Proof.
  unfold bounded_graph. rewrite adjacency_length. apply Forall_forall. intros l Hl%list_elem_of_In.
  apply in_map_iff in Hl as (n & <- & Hn%list_elem_of_In). apply Forall_forall. intros v Hv%list_elem_of_In.
  apply in_map_iff in Hv as (t & <- & Ht%list_elem_of_In). apply index_of_bounded. by eapply Hclosed.
Qed.

Lemma reach_refers i j n m :
  nodes !! i = Some n -> nodes !! j = Some m -> reach (adjacency_of nodes) i j <-> rtc refers (pn_name n) (pn_name m).
Proof.
  intros Hi Hj. split.
  - intros Hr. revert n Hi. induction Hr as [i|i k j' He Hr IH]; intros n Hi; [by simplify_eq|].
    destruct (edge_bounded _ adjacency_bounded _ _ He) as [_ Hk]. rewrite adjacency_length in Hk.
    destruct (lookup_lt_is_Some_2 nodes k Hk) as [l Hl]. eapply rtc_l; [by apply (edge_refers i k n l Hi Hl)|by apply IH].
  - intros Hr. remember (pn_name n) as a eqn:Ea. remember (pn_name m) as b eqn:Eb.
    revert i n Hi Ea. induction Hr as [a|a c b Hac Hcb IH]; intros i n Hi Ea; subst.
    + assert (i = j) as -> by (by eapply name_lookup_inj). reflexivity.
    + destruct (index_of_name c) as (l & Hl & Hc); [by apply refers_names in Hac as [_ ?]|]. subst c.
      eapply rtc_l; [by apply (edge_refers i _ n l Hi Hl)|]. by eapply IH.
Qed.

Lemma tc_refers i n :
  nodes !! i = Some n -> tc (edge (adjacency_of nodes)) i i <-> tc refers (pn_name n) (pn_name n).
Proof.
  intros Hi. split.
  - intros (k & He & Hr)%tc_rtc_l'. destruct (edge_bounded _ adjacency_bounded _ _ He) as [_ Hk].
    rewrite adjacency_length in Hk. destruct (lookup_lt_is_Some_2 nodes k Hk) as [l Hl].
    eapply tc_rtc_r; [apply tc_once; by eapply (edge_refers i k)|]. by apply (reach_refers k i l n Hl Hi).
  - intros Ht. assert (exists c, refers (pn_name n) c /\ rtc refers c (pn_name n)) as (c & Hc & Hr).
    { by apply tc_first. }
    destruct (index_of_name c) as (l & Hl & <-); [by apply refers_names in Hc as [_ ?]|].
    eapply tc_rtc_r; [apply tc_once; by apply (edge_refers i _ n l Hi Hl)|]. by apply (reach_refers _ i l n Hl Hi).
Qed.

(** *** The flags *)
Context (roots : list bytes) (comp : components) (Han : analysis (adjacency_of nodes) (map (index_of nodes) roots) comp).

Lemma cyclic_flag_exact i n r :
  nodes !! i = Some n -> is_scalar_ref r = false -> pref_targetType r ∈ field_targets (pn_fields n) ->
  ref_Cyclic (final_reference nodes comp i r) = true <-> rtc refers (pref_targetType r) (pn_name n).
Proof.
  intros Hi Hs Hin. unfold final_reference. rewrite Hs. cbn [ref_Cyclic].
  assert (Ht : pref_targetType r ∈ names nodes) by (exact (Hclosed n _ (list_elem_of_lookup_2 _ _ _ Hi) Hin)).
  destruct (index_of_name _ Ht) as (m & Hm & Hmn). set (j := index_of nodes (pref_targetType r)) in *.
  assert (Hij : edge (adjacency_of nodes) i j).
  { eapply edge_refers; [done..|]. rewrite Hmn. by eapply refers_lookup. }
  assert (Hil : (i < length (adjacency_of nodes))%nat) by (rewrite adjacency_length; by eapply lookup_lt_Some).
  assert (Hjl : (j < length (adjacency_of nodes))%nat) by (rewrite adjacency_length; by eapply lookup_lt_Some).
  rewrite <- Hmn, <- (reach_refers j i m n Hm Hi), andb_true_iff, Z.eqb_eq. unfold node_component, is_cyclic.
  rewrite (an_class _ _ _ Han i j Hil Hjl), (an_cyclic _ _ _ Han i Hil). split.
  - intros [[_ H] _]. done.
  - intros Hji. split; [split; [by apply rtc_once|done]|]. eapply tc_rtc_r; [by apply tc_once|done].
Qed.

Lemma param_flag_exact r :
  ppr_kind r = PStructure \/ ppr_kind r = PTable -> ppr_targetType r ∈ names nodes ->
  pr_Cyclic (final_param_reference nodes comp r) = true <-> tc refers (ppr_targetType r) (ppr_targetType r).
Proof.
  intros Hk (m & Hm & Hmn)%index_of_name.
  assert (Hjl : (index_of nodes (ppr_targetType r) < length (adjacency_of nodes))%nat) by (rewrite adjacency_length; by eapply lookup_lt_Some).
  pose proof (tc_refers _ m Hm) as Ht. rewrite Hmn in Ht. rewrite <- Ht, <- (an_cyclic _ _ _ Han _ Hjl).
  unfold final_param_reference, is_cyclic, node_component. by destruct Hk as [-> | ->].
Qed.
End Named.

(** ** The types the roots reach *)
Lemma rtc_closed {A} (R : relation A) (P : A -> Prop) x y :
  P x -> (forall y z, P y -> R y z -> P z) -> rtc R x y -> P y.
Proof. intros Hx HP Hr. induction Hr as [|x z y Hxz Hzy IH]; [done|]. apply IH. by eapply HP. Qed.

Section ReachTypes.
Context (nodes : list provNode) (Hnames : NoDup (names nodes)) (roots : list bytes).

Definition open_targets (reachable : gset bytes) (l : list provNode) : nat :=
  sum_list_with (fun n => if decide (pn_name n ∈ reachable) then 0%nat else length (field_targets (pn_fields n))) l.

Lemma open_targets_skip reachable x l : x ∉ names l -> open_targets ({[x]} ∪ reachable) l = open_targets reachable l.
Proof.
  unfold open_targets. induction l as [|n l IH]; [done|]. intros [Hx Hl]%not_elem_of_cons. cbn. rewrite IH by done. f_equal.
  rewrite (decide_ext (pn_name n ∈ {[x]} ∪ reachable) (pn_name n ∈ reachable)); [done|].
  rewrite elem_of_union, elem_of_singleton. split; [intros [E|]; [by symmetry in E|done]|by right].
Qed.

Lemma open_targets_add reachable n l :
  NoDup (names l) -> n ∈ l -> pn_name n ∉ reachable ->
  open_targets reachable l = (open_targets ({[pn_name n]} ∪ reachable) l + length (field_targets (pn_fields n)))%nat.
Proof.
  intros Hnd Hin Hn. induction l as [|m l IH]; [by apply not_elem_of_nil in Hin|].
  cbn in Hnd. apply NoDup_cons in Hnd as [Hm Hnd]. cbn.
  fold (open_targets reachable l) (open_targets ({[pn_name n]} ∪ reachable) l).
  apply elem_of_cons in Hin as [->|Hin].
  - rewrite open_targets_skip by done. rewrite decide_False, decide_True by set_solver. lia.
  - rewrite (IH Hnd Hin). assert (pn_name m <> pn_name n).
    { intros E. apply Hm. rewrite E. by apply list_elem_of_In, in_map, list_elem_of_In. }
    rewrite (decide_ext (pn_name m ∈ {[pn_name n]} ∪ reachable) (pn_name m ∈ reachable)); [lia|].
    rewrite elem_of_union, elem_of_singleton. split; [by intros [E|]|by right].
Qed.

Definition from_roots (x : bytes) : Prop := exists r, r ∈ roots /\ rtc (refers nodes) r x.

Record types_inv (stack : list bytes) (reachable : gset bytes) : Prop := {
  ti_sound : forall x, x ∈ stack \/ x ∈ reachable -> from_roots x;
  ti_roots : forall x, x ∈ roots -> x ∈ stack \/ x ∈ reachable;
  ti_closed : forall x y, x ∈ reachable -> refers nodes x y -> y ∈ stack \/ y ∈ reachable
}.

Lemma targets_refers x y :
  y ∈ (match by_name nodes !! x with Some n => field_targets (pn_fields n) | None => [] end) <-> refers nodes x y.
Proof.
  split.
  - destruct (by_name nodes !! x) as [n|] eqn:E; [|by intros ?%not_elem_of_nil].
    apply by_name_spec in E as [Hn <-]; [|done]. intros Hy. by exists n.
  - intros (n & Hn & <- & Hy). assert (by_name nodes !! pn_name n = Some n) as -> by (by apply by_name_spec). done.
Qed.

Lemma types_inv_visit x stack reachable :
  types_inv (x :: stack) reachable ->
  types_inv (rev (match by_name nodes !! x with Some n => field_targets (pn_fields n) | None => [] end) ++ stack) ({[x]} ∪ reachable).
Proof.
  intros [Hs Hr Hc]. assert (Hx : from_roots x) by (apply Hs; left; by left). split.
  - intros y. rewrite elem_of_app, <- Permutation_rev, targets_refers, elem_of_union, elem_of_singleton.
    intros [[Hy|Hy]|[->|Hy]]; [|apply Hs; left; by right|done|apply Hs; by right].
    destruct Hx as (r & Hin & Hrx). exists r. split; [done|]. by eapply rtc_r.
  - intros y Hy. rewrite elem_of_app, elem_of_union, elem_of_singleton. destruct (Hr y Hy) as [[->|H]%elem_of_cons|H]; auto.
  - intros y z. rewrite elem_of_app, <- Permutation_rev, targets_refers, !elem_of_union, !elem_of_singleton.
    intros [->|Hy] Hz; [by left; left|]. destruct (Hc y z Hy Hz) as [[->|H]%elem_of_cons|H]; auto.
Qed.

Lemma reach_types_runs fuel stack reachable :
  types_inv stack reachable -> (length stack + open_targets reachable nodes <= fuel)%nat ->
  exists r, reach_types (by_name nodes) fuel stack reachable = Some r /\ forall x, x ∈ r <-> from_roots x.
Proof.
  assert (Hend : forall reachable, types_inv [] reachable -> forall x, x ∈ reachable <-> from_roots x).
  { intros reach [Hs Hr Hc] x. split; [by intros; apply Hs; right|]. intros (r & Hin & Hrx).
    refine (rtc_closed (refers nodes) (fun x => x ∈ reach) r x _ _ Hrx); [destruct (Hr r Hin) as [H|H]|intros y z Hy Hyz; destruct (Hc y z Hy Hyz) as [H|H]];
      first [done|by apply not_elem_of_nil in H]. }
  revert stack reachable. induction fuel as [|fuel IH]; intros [|x stack] reachable Hinv Hfuel; cbn in Hfuel;
    [by eexists; split; [|by apply Hend]|lia|by eexists; split; [|by apply Hend]|].
  cbn [reach_types]. destruct (decide (x ∈ reachable)) as [Hin|Hin].
  - apply IH; [|lia]. destruct Hinv as [Hs Hr Hc]. split.
    + intros y [Hy|Hy]; apply Hs; [left; by right|by right].
    + intros y Hy. destruct (Hr y Hy) as [[->|H]%elem_of_cons|H]; auto.
    + intros y z Hy Hz. destruct (Hc y z Hy Hz) as [[->|H]%elem_of_cons|H]; auto.
  - apply IH; [by apply types_inv_visit|]. rewrite length_app, length_rev.
    destruct (by_name nodes !! x) as [n|] eqn:E.
    + apply by_name_spec in E as [Hn <-]; [|done]. rewrite (open_targets_add reachable n nodes Hnames Hn Hin) in Hfuel. lia.
    + rewrite open_targets_skip; [cbn; lia|]. intros Hx. apply by_name_is_Some in Hx as [n Hn]; [congruence|done].
Qed.

Lemma open_targets_none : open_targets ∅ nodes = sum_list_with (fun n => length (field_targets (pn_fields n))) nodes.
Proof. unfold open_targets. induction nodes as [|n l IH]; [done|]. cbn. rewrite IH; [done|]. cbn in Hnames. by apply NoDup_cons in Hnames as [_ ?]. Qed.

Lemma reach_types_spec :
  exists r, reach_types (by_name nodes) (reach_types_fuel nodes roots) (rev roots) ∅ = Some r /\ forall x, x ∈ r <-> from_roots x.
Proof.
  apply reach_types_runs.
  - split.
    + intros x [Hx|Hx]; [|set_solver]. exists x. split; [by rewrite (Permutation_rev roots)|reflexivity].
    + intros x Hx. left. by rewrite <- (Permutation_rev roots).
    + set_solver.
  - rewrite open_targets_none, length_rev. unfold reach_types_fuel. lia.
Qed.

(** All types are reached exactly when there are as many reached names as types. *)
Lemma all_reached (r : gset bytes) :
  (forall x, x ∈ r <-> from_roots x) -> closed_targets nodes -> (forall x, x ∈ roots -> x ∈ names nodes) ->
  size r = length nodes -> forall x, x ∈ names nodes -> from_roots x.
Proof.
  intros Hr Hclosed Hroots Hsize x Hx. apply Hr.
  assert (Hsub : r ⊆ list_to_set (names nodes)).
  { intros y (r0 & Hr0 & Hy)%Hr. apply elem_of_list_to_set. 
    refine (rtc_closed (refers nodes) (fun y => y ∈ names nodes) r0 y _ _ Hy); [by apply Hroots|].
    intros a b _ Hab. by apply refers_names in Hab as [_ ?]. }
  assert (r = list_to_set (names nodes)) as ->; [|by apply elem_of_list_to_set].
  apply set_eq, set_subseteq_antisymm; [done|]. intros y Hy.
  destruct (decide (y ∈ r)) as [|Hny]; [done|]. exfalso.
  assert (Hlt : (size r < size (list_to_set (names nodes) : gset bytes))%nat) by (apply subset_size; split; [done|]; intros H; by apply Hny, H).
  rewrite size_list_to_set in Hlt by done. unfold names in Hlt. rewrite length_map in Hlt. lia.
Qed.
End ReachTypes.

(** ** Rejections

    Everything below returns a value or a [RecursiveMetadataError]: no panic but the one
    [Normalize] recovers, and no other error. *)
Definition is_reject (e : error) : Prop := exists code, e = EMetadata (RecursiveMetadataError code).

Definition settles {A} (m : res A) (P : A -> Prop) : Prop :=
  match m with Ok a => P a | Err e => is_reject e | Panic => False end.

Lemma settles_ok {A} (a : A) (P : A -> Prop) : P a -> settles (Ok a) P.
Proof. done. Qed.
Lemma settles_reject {A} code (P : A -> Prop) : settles (reject code) P.
Proof. by exists code. Qed.
Lemma settles_bind {A B} (m : res A) (k : A -> res B) (Q : A -> Prop) (P : B -> Prop) :
  settles m Q -> (forall a, m = Ok a -> Q a -> settles (k a) P) -> settles (m ≫= k) P.
Proof. intros Hm Hk. destruct m as [a|e|]; [by apply Hk|done|done]. Qed.
Lemma settles_impl {A} (m : res A) (P Q : A -> Prop) : settles m P -> (forall a, P a -> Q a) -> settles m Q.
Proof. intros Hm HPQ. destruct m; [by apply HPQ|done|done]. Qed.

(** The same with a state: a triple of a precondition, a computation and what holds of its
    result and of the state after it. *)
Definition triple {S A} (P : S -> Prop) (m : M S A) (Q : A -> S -> Prop) : Prop :=
  forall s, P s -> match m s with (Ok a, s') => Q a s' | (Err e, _) => is_reject e | (Panic, _) => False end.

Lemma triple_ret {S A} (a : A) (Q : A -> S -> Prop) : triple (Q a) (mret a) Q.
Proof. by intros s Hs. Qed.
Lemma triple_reject {S A} (P : S -> Prop) code (Q : A -> S -> Prop) : triple P (lift (reject code)) Q.
Proof. intros s _. by exists code. Qed.
Lemma triple_bind {S A B} (P : S -> Prop) (m : M S A) (k : A -> M S B) (R : A -> S -> Prop) (Q : B -> S -> Prop) :
  triple P m R -> (forall a, triple (R a) (k a) Q) -> triple P (m ≫= k) Q.
Proof.
  intros Hm Hk s Hs. specialize (Hm s Hs). unfold mbind, stm_bind. destruct (m s) as [[a|e|] s']; [|done|done].
  by apply Hk.
Qed.
Lemma triple_conseq {S A} (P P' : S -> Prop) (m : M S A) (Q Q' : A -> S -> Prop) :
  triple P m Q -> (forall s, P' s -> P s) -> (forall a s, Q a s -> Q' a s) -> triple P' m Q'.
Proof. intros Hm HP HQ s Hs. specialize (Hm s (HP s Hs)). destruct (m s) as [[a|e|] s']; auto. Qed.
Lemma triple_lift {S A} (P : S -> Prop) (m : res A) (Q : A -> Prop) :
  settles m Q -> triple P (lift m) (fun a s => P s /\ Q a).
Proof. intros Hm s Hs. unfold lift. by destruct m. Qed.

(** *** The budget *)
Section Budget.
Context (limits : Limits).

(** Every counter is within its limit. *)
Definition within (b : budget) : Prop :=
  b_limits b = limits /\ 0 <= b_rows b <= MaxRows limits /\ 0 <= b_properties b <= MaxProperties limits /\
  0 <= b_bytes b <= MaxBytes limits.

Definition bounded {A} (m : M budget A) (P : A -> Prop) : Prop := triple within m (fun a b => within b /\ P a).

Lemma bounded_bind {A B} (m : M budget A) (k : A -> M budget B) (Q : A -> Prop) (P : B -> Prop) :
  bounded m Q -> (forall a, Q a -> bounded (k a) P) -> bounded (m ≫= k) P.
Proof. intros Hm Hk. eapply triple_bind; [exact Hm|]. intros a s [Hs Ha]. by apply (Hk a Ha). Qed.

Lemma bounded_ret {A} (a : A) (P : A -> Prop) : P a -> bounded (mret a) P.
Proof. by intros Ha s Hs. Qed.

Lemma bounded_reject {A} code (P : A -> Prop) : bounded (lift (reject code)) P.
Proof. apply triple_reject. Qed.

Lemma bounded_rows {A} (l : list A) : bounded (addRows (zlen l)) (fun _ => True).
Proof.
  intros b (Hl & Hr & Hp & Hb). unfold addRows. cbn. rewrite Hl. destruct (Z.ltb_spec (MaxRows limits) (b_rows b + zlen l)); [by eexists|].
  unfold within. cbn. unfold zlen in *. repeat split; (done || lia).
Qed.
Lemma bounded_properties n : 0 <= n -> bounded (addProperties n) (fun _ => True).
Proof.
  intros Hn b (Hl & Hr & Hp & Hb). unfold addProperties. cbn. rewrite Hl. destruct (Z.ltb_spec (MaxProperties limits) (b_properties b + n)); [by eexists|].
  unfold within. cbn. repeat split; (done || lia).
Qed.
Lemma bounded_bytes (l : bytes) : bounded (addBytes (zlen l)) (fun _ => True).
Proof.
  intros b (Hl & Hr & Hp & Hb). unfold addBytes. cbn. rewrite Hl. destruct (Z.ltb_spec (MaxBytes limits) (b_bytes b + zlen l)); [by eexists|].
  unfold within. cbn. unfold zlen in *. repeat split; (done || lia).
Qed.

Lemma bounded_text v maximum allowEmpty ascii :
  bounded (text v maximum allowEmpty ascii) (fun r => allowEmpty = false -> r <> []).
Proof.
  unfold text. destruct ((_ || _) || _) eqn:E; [apply bounded_reject|]. eapply bounded_bind; [apply bounded_bytes|]. intros _ _.
  apply bounded_ret. intros -> ->. rewrite !orb_false_iff in E. by destruct E as [[_ E] _].
Qed.

Lemma bounded_name v allowEmpty : bounded (metadataName v allowEmpty) (fun r => allowEmpty = false -> r <> []).
Proof. apply bounded_text. Qed.

Lemma dec_value_nonneg s : forallb is_digit s = true -> 0 <= dec_value s.
Proof.
  unfold dec_value. assert (H : forall l acc, 0 <= acc -> forallb is_digit l = true -> 0 <= fold_left (fun acc b => acc * 10 + digit_value b) l acc).
  { intros l. induction l as [|b l IH]; intros acc Ha Hl; [done|]. cbn in *. apply andb_true_iff in Hl as [Hb Hl].
    apply IH; [|done]. unfold is_digit, in_range in Hb. apply andb_true_iff in Hb as [Hb _]. apply Z.leb_le in Hb.
    unfold digit_value. lia. }
  by apply H.
Qed.

(** [integer] reads a number an [int] can hold. *)
Definition is_int (z : Z) : Prop := 0 <= z < 2 ^ 63.

Lemma bounded_integer v : bounded (integer v) is_int.
Proof.
  unfold integer. destruct (numericPattern v) eqn:En; [|apply bounded_reject].
  eapply bounded_bind; [apply bounded_bytes|]. intros _ _. destruct (Z.ltb_spec (2 ^ 63 - 1) (dec_value v)); [apply bounded_reject|].
  apply bounded_ret. unfold numericPattern in En. apply andb_true_iff in En as [_ Hd]. pose proof (dec_value_nonneg v Hd).
  unfold is_int. lia.
Qed.

Lemma bounded_flag v : bounded (flag v) (fun _ => True).
Proof.
  unfold flag. eapply bounded_bind; [apply bounded_text|]. intros x _. case_match; [apply bounded_reject|by apply bounded_ret].
Qed.

Lemma bounded_each {A B} (f : A -> M budget B) (P : B -> Prop) l :
  (forall a, bounded (f a) P) -> bounded (each f l) (Forall P).
Proof.
  intros Hf. induction l as [|a l IH]; cbn [each]; [by apply bounded_ret|].
  eapply bounded_bind; [apply Hf|]. intros b Hb. eapply bounded_bind; [apply IH|]. intros bs Hbs. apply bounded_ret. by constructor.
Qed.
End Budget.

Create HintDb budget.
#[export] Hint Resolve bounded_rows bounded_properties bounded_bytes bounded_text bounded_name bounded_integer bounded_flag bounded_reject : budget.

(** Run through the reads of a row. *)
Ltac reads :=
  repeat (first
    [ eapply bounded_bind; [solve [eauto with budget | apply bounded_properties; lia]|]; intros ? ?
    | case_match
    | solve [eauto with budget] ]).

(** The numbers of a row fit an [int]. *)
Record row_ints (r : typeRow) : Prop := {
  ri_nucTotal : is_int (tr_nucTotalLength r); ri_ucTotal : is_int (tr_ucTotalLength r);
  ri_nucOffset : is_int (tr_nucOffset r); ri_ucOffset : is_int (tr_ucOffset r);
  ri_nucLength : is_int (tr_nucLength r); ri_ucLength : is_int (tr_ucLength r)
}.

Lemma bounded_type_row limits row : bounded limits (snapshotTypeRow row) row_ints.
Proof. unfold snapshotTypeRow. reads. apply bounded_ret. by split. Qed.

Lemma bounded_indirect_row limits row : bounded limits (snapshotIndirectRow row) (fun _ => True).
Proof. unfold snapshotIndirectRow. reads. by apply bounded_ret. Qed.

Lemma bounded_parameter_row limits row : bounded limits (snapshotParameterRow row) (fun r => row_parameterName r <> []).
Proof. unfold snapshotParameterRow. reads. apply bounded_ret. cbn. auto. Qed.

Lemma bounded_identity limits rows : bounded limits (snapshotFunctionIdentity rows) (fun _ => True).
Proof. unfold snapshotFunctionIdentity. destruct rows as [values|]; [|by apply bounded_ret]. reads; by apply bounded_ret. Qed.

Lemma bounded_topKey limits name present : bounded limits (topKey name present) (fun n => 0 <= n).
Proof. unfold topKey. reads; by apply bounded_ret. Qed.

Lemma bounded_snapshot limits input :
  bounded limits (snapshot input) (fun sn => Forall row_ints (sn_types sn) /\ Forall (fun r => row_parameterName r <> []) (sn_parameters sn)).
Proof.
  unfold snapshot. do 4 (eapply bounded_bind; [apply bounded_topKey|]; intros ? ?).
  cbn beta in *. eapply bounded_bind; [apply bounded_properties; lia|]. intros _ _. eapply bounded_bind; [apply bounded_identity|]. intros id _.
  eapply bounded_bind; [unfold snapshotTypeRows; eapply bounded_bind; [apply bounded_rows|]; intros _ _; apply bounded_each; intros r; apply bounded_type_row|].
  intros ts Hts. eapply bounded_bind; [unfold snapshotIndirectRows; eapply bounded_bind; [apply bounded_rows|]; intros _ _; apply bounded_each; intros r; apply bounded_indirect_row|].
  intros irs _. eapply bounded_bind.
  { unfold snapshotParameterRows. destruct (in_Parameters input); [|by apply (bounded_ret _ _ (Forall (fun r => row_parameterName r <> [])))].
    eapply bounded_bind; [apply bounded_rows|]. intros _ _. apply bounded_each. intros r. apply bounded_parameter_row. }
  intros ps Hps. by apply bounded_ret.
Qed.

(** ** The types that are built *)
Lemma settles_classify it at_ : settles (classifyReference it at_) (fun _ => True).
Proof. unfold classifyReference. repeat case_match; first [apply settles_reject|done]. Qed.

(** The groups: consecutive rows of one type, no type twice, the rows in their order. *)
Record grouping (closed : gset bytes) (grouped : list (bytes * list typeRow)) : Prop := {
  gr_nodup : NoDup (map fst grouped);
  gr_closed : forall x, x ∈ closed <-> x ∈ map fst (tail grouped);
  gr_rows : Forall (fun g => snd g <> [] /\ Forall (fun r => tr_typeName r = fst g) (snd g)) grouped
}.

Lemma group_rows_settles rows closed grouped :
  grouping closed grouped ->
  settles (group_rows rows closed grouped) (fun gs => NoDup (map fst gs) /\
    Forall (fun g => snd g <> [] /\ Forall (fun r => tr_typeName r = fst g) (snd g)) gs /\
    concat (map snd gs) = concat (map snd (rev grouped)) ++ rows).
Proof.
  revert closed grouped. induction rows as [|row rows IH]; intros closed grouped [Hnd Hcl Hr]; cbn [group_rows].
  { split; [rewrite map_rev; by rewrite <- Permutation_rev|]. rewrite app_nil_r. split; [|done]. by apply Forall_rev. }
  destruct grouped as [|[name rs] earlier].
  { eapply settles_impl; [apply IH; split; cbn|].
    - apply NoDup_singleton.
    - done.
    - repeat constructor. done.
    - cbn. tauto. }
  cbn in Hnd. apply NoDup_cons in Hnd as [Hname Hnd]. apply Forall_cons in Hr as [[Hne Hrs] Hr].
  unfold bytes_eqb. destruct (bool_decide_reflect (name = tr_typeName row)) as [E|E].
  - eapply settles_impl; [apply IH; split; cbn; [by apply NoDup_cons|done|]|].
    + constructor; [|done]. cbn. split; [by destruct rs|]. apply Forall_app. split; [done|]. by constructor.
    + intros gs (H1 & H2 & ->). split; [done|]. split; [done|]. cbn. rewrite !map_app, !concat_app. cbn.
      by rewrite !app_nil_r, <- !app_assoc.
  - case_bool_decide as Hc; [apply settles_reject|]. rewrite elem_of_union, elem_of_singleton, Hcl in Hc. cbn in Hc.
    eapply settles_impl; [apply IH; split; cbn|].
    + apply NoDup_cons. split; [|by apply NoDup_cons]. intros [?|?]%elem_of_cons; apply Hc; [by left|by right].
    + intros x. rewrite elem_of_union, elem_of_singleton, Hcl, elem_of_cons. done.
    + constructor; [|by constructor]. cbn. split; [done|]. by constructor.
    + intros gs (H1 & H2 & ->). split; [done|]. split; [done|]. cbn. rewrite !map_app, !concat_app. cbn.
      by rewrite !app_nil_r, <- !app_assoc.
Qed.

(** The fields in their order, each at or after the end of the one before it and ending
    within the type; the ends as [safeEnd] computes them. *)
Fixpoint geometry (nucTotal ucTotal nuc uc : Z) (fields : list provField) : Prop :=
  match fields with
  | [] => True
  | f :: fields =>
      let nucEnd := safeEnd (pf_nucOffset f) (pf_nucLength f) in
      let ucEnd := safeEnd (pf_ucOffset f) (pf_ucLength f) in
      nuc <= pf_nucOffset f /\ uc <= pf_ucOffset f /\ nucEnd <= nucTotal /\ ucEnd <= ucTotal /\
      geometry nucTotal ucTotal nucEnd ucEnd fields
  end.

Record field_ints (f : provField) : Prop := {
  fi_nucOffset : is_int (pf_nucOffset f); fi_ucOffset : is_int (pf_ucOffset f);
  fi_nucLength : is_int (pf_nucLength f); fi_ucLength : is_int (pf_ucLength f)
}.

Definition ref_count (fields : list provField) : Z := zlen (filter (fun f => is_scalar_ref (pf_reference f) = false) fields).

Lemma ref_count_app a b : ref_count (a ++ b) = ref_count a + ref_count b.
Proof. unfold ref_count, zlen. rewrite filter_app, length_app. lia. Qed.

Lemma ref_count_one f : ref_count [f] = if is_scalar_ref (pf_reference f) then 0 else 1.
Proof. unfold ref_count. rewrite filter_cons. by destruct (is_scalar_ref (pf_reference f)). Qed.

(** What the loop appends for the rows that are left. *)
Record appended (nucTotal ucTotal nuc uc : Z) (seen : gset bytes) (rows : list typeRow) (new : list provField) : Prop := {
  ap_length : length new = length rows;
  ap_geometry : geometry nucTotal ucTotal nuc uc new;
  ap_names : NoDup (map pf_name new) /\ forall f, f ∈ new -> pf_name f ∉ seen;
  ap_ints : Forall field_ints new
}.

Lemma field_rows_settles first nucTotal ucTotal rows index seen nuc uc fields edges :
  Forall row_ints rows ->
  settles (field_rows first nucTotal ucTotal rows index seen nuc uc fields edges) (fun '(fields', edges') =>
    exists new, fields' = fields ++ new /\ edges' = edges + ref_count new /\ appended nucTotal ucTotal nuc uc seen rows new).
Proof.
  revert index seen nuc uc fields edges. induction rows as [|row rows IH]; intros index seen nuc uc fields edges Hints; cbn [field_rows].
  { exists []. rewrite app_nil_r. split; [done|]. split; [by rewrite Z.add_0_r|]. split; [done|done| |done].
    split; [constructor|]. by intros f ?%not_elem_of_nil. }
  apply Forall_cons in Hints as [Hrow Hints]. case_match; [apply settles_reject|]. case_match; [apply settles_reject|].
  case_bool_decide as Hseen; [apply settles_reject|].
  destruct ((tr_nucOffset row <? nuc) || (tr_ucOffset row <? uc) || (nucTotal <? safeEnd (tr_nucOffset row) (tr_nucLength row)) ||
    (ucTotal <? safeEnd (tr_ucOffset row) (tr_ucLength row))) eqn:Eg; [apply settles_reject|].
  rewrite !orb_false_iff, !Z.ltb_ge in Eg. destruct Eg as [[[G1 G2] G3] G4].
  eapply settles_bind; [apply settles_classify|]. intros reference _ _.
  set (f := mkProvField _ _ _ _ _ _ _ _ _ _ _ _ _).
  eapply settles_impl; [by apply IH|]. intros [fields' edges'] (new & -> & -> & [Hl Hg [Hnd Hnew] Hi]).
  exists (f :: new). split; [by rewrite <- app_assoc|]. split.
  { change (f :: new) with ([f] ++ new). rewrite ref_count_app, ref_count_one. subst f. cbn [pf_reference]. destruct (is_scalar_ref reference); lia. }
  split.
  - cbn. lia.
  - cbn. done.
  - split.
    + cbn. apply NoDup_cons. split; [|done]. intros Hin%list_elem_of_In. apply in_map_iff in Hin as (f' & Hf' & Hin%list_elem_of_In).
      apply (Hnew f' Hin). rewrite Hf'. set_solver.
    + intros f' [->|Hin]%elem_of_cons; [done|]. specialize (Hnew f' Hin). set_solver.
  - constructor; [|done]. destruct Hrow. by split.
Qed.

Record node_built (n : provNode) : Prop := {
  nb_geometry : geometry (pn_nucLength n) (pn_ucLength n) 0 0 (pn_fields n);
  nb_names : NoDup (map pf_name (pn_fields n));
  nb_ints : Forall field_ints (pn_fields n)
}.

Lemma build_node_settles limits g edges :
  snd g <> [] -> Forall row_ints (snd g) ->
  settles (build_node limits g edges) (fun '(n, edges') =>
    pn_name n = fst g /\ node_built n /\ edges' = edges + ref_count (pn_fields n) /\ edges' <= MaxEdges limits).
Proof.
  intros Hne Hints. unfold build_node. destruct (snd g) as [|first rows] eqn:Eg; [done|].
  change (go_index (first :: rows) 0) with (Ok first : res typeRow). cbn [mbind outcome_bind]. unfold mbind, outcome_bind.
  case_match; [apply settles_reject|].
  apply (settles_bind _ _ (fun _ => True)).
  { case_match; [|done]. eapply settles_bind; [apply settles_classify|]. done. }
  intros anonymousScalar _ _. eapply settles_bind; [by apply field_rows_settles|].
  intros [fields edges'] _ (new & -> & -> & [Hl Hg [Hnd _] Hi]). cbn [app]. destruct (Z.ltb_spec (MaxEdges limits) (edges + ref_count new)); [apply settles_reject|].
  destruct new as [|f new]; [done|].
  apply (settles_bind _ _ (fun _ => True)); [by destruct (0 <? _)%nat|]. intros k _ _. cbn. split; [done|]. split; [by split|]. done.
Qed.

Lemma ref_count_nodes nodes n : ref_count (concat (map pn_fields (nodes ++ [n]))) = ref_count (concat (map pn_fields nodes)) + ref_count (pn_fields n).
Proof. rewrite map_app, concat_app, ref_count_app. cbn. by rewrite app_nil_r. Qed.

Lemma build_groups_settles limits groups nodes edges :
  Forall (fun g => snd g <> [] /\ Forall row_ints (snd g)) groups -> Forall node_built nodes ->
  edges = node_edges nodes -> edges <= MaxEdges limits ->
  settles (build_groups limits groups edges nodes) (fun nodes' =>
    names nodes' = names nodes ++ map fst groups /\ Forall node_built nodes' /\ node_edges nodes' <= MaxEdges limits).
Proof.
  revert nodes edges. induction groups as [|g groups IH]; intros nodes edges Hg Hn He Hm; cbn [build_groups].
  { rewrite app_nil_r. split; [done|]. split; [done|]. lia. }
  apply Forall_cons in Hg as [[Hg1 Hg2] Hg]. eapply settles_bind; [by apply build_node_settles|].
  intros [n edges'] _ (Hname & Hb & Hed & Hle). eapply settles_impl; [apply IH; [done| | |done]|].
  - apply Forall_app. split; [done|]. by constructor.
  - rewrite Hed, He. symmetry. apply ref_count_nodes.
  - intros nodes' (H1 & H2 & H3). split; [|done]. rewrite H1. unfold names. rewrite map_app, <- app_assoc. cbn. by rewrite Hname.
Qed.

(** The types as [buildNodes] leaves them. *)
Record built (limits : Limits) (nodes : list provNode) : Prop := {
  bu_names : NoDup (names nodes);
  bu_nodes : Forall node_built nodes;
  bu_count : zlen nodes <= MaxNodes limits;
  bu_edges : node_edges nodes <= MaxEdges limits
}.

Lemma build_nodes_settles limits rows :
  Forall row_ints rows -> 0 <= MaxEdges limits -> settles (buildNodes rows limits) (built limits).
Proof.
  intros Hints Hm. unfold buildNodes. eapply settles_bind.
  { apply (group_rows_settles rows ∅ []). split; [apply NoDup_nil_2| |constructor].
    intros x. split; [by intros ?%not_elem_of_empty|by intros ?%not_elem_of_nil]. }
  intros grouped _ (Hnd & Hg & Hrows). destruct (Z.ltb_spec (MaxNodes limits) (zlen grouped)); [apply settles_reject|].
  eapply settles_impl; [apply build_groups_settles; [|constructor|done|done]|].
  - cbn in Hrows. rewrite <- Hrows in Hints. clear Hnd H Hrows. induction grouped as [|g grouped IH]; [constructor|].
    cbn in Hints. apply Forall_app in Hints as [H1 H2]. apply Forall_cons in Hg as [[Hg1 _] Hg]. constructor; [done|by apply IH].
  - intros nodes (Hn & Hb & He). cbn in Hn. split; [by rewrite Hn|done| |done].
    assert (length nodes = length grouped) as Hl by (pose proof (f_equal length Hn) as E; unfold names in E; by rewrite !length_map in E).
    unfold zlen in *. rewrite Hl. done.
Qed.

(** [refineTableNodeKinds] only turns scalars into tables. *)
Definition same_shape (n m : provNode) : Prop :=
  pn_name n = pn_name m /\ pn_fields n = pn_fields m /\ pn_nucLength n = pn_nucLength m /\ pn_ucLength n = pn_ucLength m.

Lemma refine_shape nodes parameters indirect : Forall2 same_shape nodes (refineTableNodeKinds nodes parameters indirect).
Proof.
  unfold refineTableNodeKinds. destruct (indirect_targets indirect ∅ ∅) as [targets ambiguous].
  generalize (list_to_set (table_targets nodes ++ omap (required_table targets ambiguous) parameters) : gset bytes). intros req.
  induction nodes as [|n nodes IH]; cbn; constructor; [|done]. by case_match.
Qed.

Lemma refine_built limits nodes parameters indirect :
  built limits nodes -> built limits (refineTableNodeKinds nodes parameters indirect).
Proof.
  pose proof (refine_shape nodes parameters indirect) as Hs. set (nodes' := refineTableNodeKinds nodes parameters indirect) in *.
  assert (Hn : names nodes' = names nodes /\ concat (map pn_fields nodes') = concat (map pn_fields nodes) /\ length nodes' = length nodes).
  { induction Hs as [|n m l l' (E1 & E2 & _) Hs IH]; [done|]. destruct IH as (H1 & H2 & H3).
    unfold names in *. cbn. rewrite H1, H2, H3, E1, E2. done. }
  destruct Hn as (Hn & Hf & Hl). intros []. split.
  - by rewrite Hn.
  - clear -bu_nodes0 Hs. induction Hs as [|n m l l' (E1 & E2 & E3 & E4) Hs IH]; [constructor|].
    apply Forall_cons in bu_nodes0 as [[] H]. constructor; [|by apply IH]. split; rewrite <- ?E2, <- ?E3, <- ?E4; done.
  - unfold zlen. by rewrite Hl.
  - unfold node_edges. by rewrite Hf.
Qed.

Lemma check_all_settles {A} (f : A -> res unit) (P : A -> Prop) l :
  (forall a, settles (f a) (fun _ => P a)) -> settles (check_all f l) (fun _ => Forall P l).
Proof.
  intros Hf. induction l as [|a l IH]; cbn [check_all]; [by constructor|].
  eapply settles_bind; [apply Hf|]. intros u _ Ha. eapply settles_impl; [exact IH|]. intros u' Hl. by constructor.
Qed.

(** A reference names a type of the graph, of its own kind. *)
Definition target_ok (nodes : list provNode) (f : provField) : Prop :=
  is_scalar_ref (pf_reference f) = false ->
  exists t, t ∈ nodes /\ pn_name t = pref_targetType (pf_reference f) /\ pn_kind t = pref_kind (pf_reference f).

Lemma validate_settles nodes :
  NoDup (names nodes) -> settles (validateNodeTargets nodes) (fun _ => Forall (fun n => Forall (target_ok nodes) (pn_fields n)) nodes).
Proof.
  intros Hnd. apply check_all_settles. intros n. apply check_all_settles. intros f. unfold check_target, target_ok.
  destruct (is_scalar_ref (pf_reference f)); [done|]. destruct (by_name nodes !! _) as [t|] eqn:E; [|apply settles_reject].
  apply by_name_spec in E as [Ht Hn]; [|done]. case_bool_decide as Hk; [|apply settles_reject]. intros _. by exists t.
Qed.

Lemma elem_of_field_targets fields x :
  x ∈ field_targets fields <-> exists f, f ∈ fields /\ is_scalar_ref (pf_reference f) = false /\ pref_targetType (pf_reference f) = x.
Proof.
  unfold field_targets. rewrite list_elem_of_In, in_map_iff. setoid_rewrite <- list_elem_of_In. setoid_rewrite list_elem_of_filter.
  split; [intros (f & <- & H1 & H2)|intros (f & H1 & H2 & <-)]; by exists f.
Qed.

Lemma targets_closed nodes : Forall (fun n => Forall (target_ok nodes) (pn_fields n)) nodes -> closed_targets nodes.
Proof.
  intros Hv n x Hn (f & Hf & Hs & <-)%elem_of_field_targets. rewrite Forall_forall in Hv. specialize (Hv n Hn).
  rewrite Forall_forall in Hv. destruct (Hv f Hf Hs) as (t & Ht & <- & _). by apply list_elem_of_In, in_map, list_elem_of_In.
Qed.

(** ** The parameters *)
Section ParameterLoop.
Context (nodes : list provNode) (Hnames : NoDup (names nodes)) (fbn : gmap bytes (gmap bytes provField))
  (indirect : gmap bytes indirectRow) (limits : Limits).

Notation byName := (by_name nodes).

Lemma ret_triple {A} (P : pstate -> Prop) (a : A) : triple P (mret a) (fun _ => P).
Proof. by intros s Hs. Qed.

(** The roots are types of the graph. *)
Definition rooted (s : pstate) : Prop := forall x, x ∈ ps_roots s -> x ∈ names nodes.

Lemma unless_triple (P : pstate -> Prop) c code : triple P (unless c code) (fun _ s => P s /\ c = true).
Proof. unfold unless. destruct c; [by intros s Hs|apply triple_reject]. Qed.
Lemma found_triple {A} (P : pstate -> Prop) (o : option A) code : triple P (found o code) (fun a s => P s /\ o = Some a).
Proof. unfold found. destruct o; [by intros s Hs|apply triple_reject]. Qed.
Lemma root_triple x : x ∈ names nodes -> triple rooted (addRoot x) (fun _ => rooted).
Proof.
  intros Hx s Hs. unfold addRoot. case_bool_decide; [done|]. intros y [Hy|Hy%list_elem_of_singleton]%elem_of_app; [by apply Hs|by subst].
Qed.
Lemma consume_triple key : triple rooted (consume key) (fun _ => rooted).
Proof. by intros s Hs. Qed.
Lemma count_triple : triple rooted countEdge (fun _ => rooted).
Proof. by intros s Hs. Qed.
Lemma check_triple : triple rooted (checkEdges limits) (fun _ s => rooted s /\ ps_edges s <= MaxEdges limits).
Proof. intros s Hs. unfold checkEdges. destruct (Z.ltb_spec (MaxEdges limits) (ps_edges s)); [by eexists|done]. Qed.

Lemma found_name x n : byName !! x = Some n -> x ∈ names nodes.
Proof. intros E. by apply by_name_is_Some; [|exists n]. Qed.

Lemma resolve_settles node segments : settles (resolve_segments byName fbn node segments) (fun _ => True).
Proof.
  revert node. induction segments as [|seg segments IH]; intros node; cbn [resolve_segments]; [done|].
  case_match; [apply settles_reject|]. destruct (lookup_field _ _ _) as [f|]; [|apply settles_reject].
  destruct segments as [|seg' segments]; [done|]. case_bool_decide; [apply settles_reject|].
  destruct (byName !! _) as [t|]; [|apply settles_reject]. case_bool_decide; [apply IH|apply settles_reject].
Qed.

(** A step whose result only carries facts. *)
Lemma triple_step {A B} (P : pstate -> Prop) (m : M pstate A) (k : A -> M pstate B) (F : A -> Prop) (Q : B -> pstate -> Prop) :
  triple P m (fun a s => P s /\ F a) -> (forall a, F a -> triple P (k a) Q) -> triple P (m ≫= k) Q.
Proof. intros Hm Hk. eapply triple_bind; [exact Hm|]. intros a s [Hs Ha]. by apply (Hk a Ha). Qed.

Lemma triple_seq {A B} (P : pstate -> Prop) (m : M pstate A) (k : A -> M pstate B) (Q : B -> pstate -> Prop) :
  triple P m (fun _ => P) -> (forall a, triple P (k a) Q) -> triple P (m ≫= k) Q.
Proof. intros Hm Hk. by eapply triple_bind. Qed.

Lemma mapped_row_triple row : triple rooted (mapped_row indirect row) (fun _ => rooted).
Proof.
  unfold mapped_row. eapply triple_step; [apply found_triple|]. intros m _. apply triple_seq; [apply consume_triple|].
  intros _. apply ret_triple.
Qed.

Lemma mapped_triple row : triple rooted (mappedTarget byName indirect row) (fun _ => rooted).
Proof.
  unfold mappedTarget. case_match; [apply ret_triple|]. eapply triple_step; [apply unless_triple|]. intros _ _.
  apply triple_seq; [apply mapped_row_triple|]. intros m. eapply triple_step; [apply found_triple|]. intros t Ht.
  apply triple_seq; [apply root_triple; exact (found_name _ _ Ht)|]. intros _. apply ret_triple.
Qed.

Lemma direct_triple row : triple rooted (directFieldReference byName fbn row) (fun _ => rooted).
Proof.
  unfold directFieldReference. case_match; [apply ret_triple|]. eapply triple_step; [apply unless_triple|]. intros _ _.
  eapply triple_step; [apply found_triple|]. intros t Ht. apply triple_seq; [apply root_triple; exact (found_name _ _ Ht)|]. intros _.
  eapply triple_step; [apply triple_lift, resolve_settles|]. intros r _. apply ret_triple.
Qed.

Lemma named_target_name row mapped direct n : namedTarget byName row mapped direct = Some n -> row_tableName row ∈ names nodes.
Proof. unfold namedTarget. case_match; [apply found_name|done]. Qed.

(** The reference of a parameter names a type of the graph, if it names one. *)
Definition param_ok (r : provParamRef) : Prop :=
  ppr_kind r = PStructure \/ ppr_kind r = PTable -> ppr_targetType r ∈ names nodes.

Definition counted (s : pstate) : Prop := rooted s /\ ps_edges s <= MaxEdges limits.

Lemma scalar_table_triple row : triple rooted (scalarTableReference byName fbn indirect limits row) (fun r s => counted s /\ param_ok r).
Proof.
  unfold scalarTableReference. apply triple_seq; [apply mapped_triple|]. intros mapped.
  apply triple_seq; [apply direct_triple|]. intros direct.
  do 2 (eapply triple_step; [apply unless_triple|]; intros _ _).
  apply triple_seq.
  { destruct (namedTarget _ _ _ _) as [n|] eqn:En; [|apply ret_triple].
    eapply triple_step; [apply unless_triple|]. intros _ _. apply root_triple. by eapply named_target_name. }
  intros _. apply triple_seq; [apply count_triple|]. intros _. eapply triple_bind; [apply check_triple|].
  intros _ s Hs. split; [exact Hs|]. by intros [|].
Qed.

Lemma scalar_triple row : triple rooted (scalarReference byName fbn indirect limits row) (fun r s => counted s /\ param_ok r).
Proof.
  unfold scalarReference. apply triple_seq; [apply mapped_triple|]. intros mapped.
  apply triple_seq; [apply direct_triple|]. intros direct.
  apply triple_seq. { destruct mapped; [|apply ret_triple]. eapply triple_step; [apply unless_triple|]. intros _ _. apply count_triple. }
  intros _. apply triple_seq. { destruct direct; [|apply ret_triple]. eapply triple_step; [apply unless_triple|]. intros _ _. apply count_triple. }
  intros _. apply triple_seq.
  { destruct (namedTarget _ _ _ _) as [n|] eqn:En; [|apply ret_triple].
    eapply triple_step; [apply unless_triple|]. intros _ _. apply triple_seq; [apply root_triple; by eapply named_target_name|]. intros _. apply count_triple. }
  intros _. eapply triple_bind; [apply check_triple|]. intros _ s Hs. split; [exact Hs|]. by intros [|].
Qed.

Lemma target_name_triple row : triple rooted (targetName byName fbn indirect row) (fun _ => rooted).
Proof.
  unfold targetName. case_match; [|case_match].
  - apply triple_seq; [apply mapped_row_triple|]. intros m. apply ret_triple.
  - eapply triple_step; [apply found_triple|]. intros t Ht. eapply triple_step; [apply triple_lift, resolve_settles|]. intros r _.
    eapply triple_step; [apply unless_triple|]. intros _ _. apply ret_triple.
  - apply ret_triple.
Qed.

Lemma type_triple row isTable isStructure :
  triple rooted (typeReference byName fbn indirect limits row isTable isStructure) (fun r s => counted s /\ param_ok r).
Proof.
  unfold typeReference. eapply triple_step; [apply unless_triple|]. intros _ _.
  apply triple_seq; [apply target_name_triple|]. intros target. eapply triple_step; [apply found_triple|]. intros t Ht.
  do 2 (eapply triple_step; [apply unless_triple|]; intros _ _).
  apply triple_seq; [apply count_triple|]. intros _. eapply triple_bind; [apply check_triple|]. intros u. cbn beta.
  assert (Hin : target ∈ names nodes) by (exact (found_name _ _ Ht)).
  apply (triple_bind _ _ _ (fun _ => counted)).
  - intros s [Hs He]. pose proof (root_triple target Hin s Hs) as Hr. unfold addRoot in *. cbn in *. split; [done|].
    by case_bool_decide.
  - intros u' s Hs. split; [exact Hs|]. by intros _.
Qed.

Lemma reference_triple row : triple counted (parameterReference byName fbn indirect limits row) (fun r s => counted s /\ param_ok r).
Proof.
  unfold parameterReference. case_match; [intros s Hs; split; [exact Hs|by intros [|]]|].
  case_match; [|case_match]; (eapply triple_conseq; [first [apply scalar_table_triple|apply scalar_triple|apply type_triple]|by intros s []|done]).
Qed.

Lemma loop_triple rows seen :
  triple counted (parameter_loop byName fbn indirect limits rows seen) (fun ps s => counted s /\ Forall (fun p => param_ok (pp_reference p)) ps).
Proof.
  revert seen. induction rows as [|row rows IH]; intros seen; cbn [parameter_loop]; [intros s Hs; by split|].
  eapply triple_step; [apply unless_triple|]. intros _ _.
  eapply (triple_step _ _ _ (fun p => param_ok (pp_reference p))).
  { unfold provisionalParameter. eapply triple_step; [apply reference_triple|]. intros r Hr s Hs. by split. }
  intros p Hp. eapply triple_step; [apply IH|]. intros ps Hps s Hs. split; [exact Hs|]. by constructor.
Qed.
End ParameterLoop.

Lemma indirect_map_settles rows out : settles (indirectMap rows out) (fun _ => True).
Proof.
  revert out. induction rows as [|row rows IH]; intros out; cbn [indirectMap]; [done|].
  case_match; [apply settles_reject|]. case_match; [apply settles_reject|apply IH].
Qed.

(** What the parameters of an accepted graph satisfy. *)
Lemma parameters_settles rows irs nodes limits :
  NoDup (names nodes) -> node_edges nodes <= MaxEdges limits ->
  settles (provisionalParameters rows irs nodes limits) (fun '(ps, roots, edges) =>
    (forall x, x ∈ roots -> x ∈ names nodes) /\ edges <= MaxEdges limits /\ Forall (fun p => param_ok nodes (pp_reference p)) ps).
Proof.
  intros Hnd He. unfold provisionalParameters. eapply settles_bind; [apply indirect_map_settles|]. intros indirect _ _.
  pose proof (loop_triple nodes Hnd (fields_by_node nodes) indirect limits rows ∅ (mkPState ∅ [] (node_edges nodes))) as Hl.
  destruct (parameter_loop _ _ _ _ _ _ _) as [[ps|e|] s].
  - destruct Hl as [[Hr Hc] Hp]; [split; [by intros x ?%not_elem_of_nil|done]|].
    eapply (settles_bind _ _ (fun _ => True)); [|by intros u _ _].
    eapply settles_impl; [apply (check_all_settles _ (fun _ => True)); intros row; case_match; [done|apply settles_reject]|done].
  - apply Hl. split; [by intros x ?%not_elem_of_nil|done].
  - apply Hl. split; [by intros x ?%not_elem_of_nil|done].
Qed.

(** ** What [Normalize] accepts *)
Lemma named_roots_settles (nn : gset bytes) named roots :
  (forall x, x ∈ roots -> x ∈ nn) ->
  settles (add_named_roots nn named roots) (fun roots' => forall x, x ∈ roots' -> x ∈ nn).
Proof.
  revert roots. induction named as [|x named IH]; intros roots Hr; cbn [add_named_roots]; [done|].
  case_bool_decide as Hx; cbn [negb]; [|apply settles_reject]. apply IH. case_bool_decide; [done|].
  intros y [Hy|Hy%list_elem_of_singleton]%elem_of_app; [by apply Hr|by subst].
Qed.

Lemma param_roots_elem params roots x : x ∈ add_param_roots params roots <-> x ∈ roots \/ x ∈ params.
Proof.
  unfold add_param_roots. revert roots. induction params as [|p params IH]; intros roots; cbn.
  { rewrite elem_of_nil. tauto. }
  rewrite IH, elem_of_cons. case_bool_decide; [naive_solver|]. rewrite elem_of_app, list_elem_of_singleton. tauto.
Qed.

Lemma all_roots_settles nodes named params :
  (forall x, x ∈ params -> x ∈ names nodes) ->
  settles (all_roots nodes named params) (fun roots => (forall x, x ∈ roots -> x ∈ names nodes) /\ (nodes <> [] -> roots <> [])).
Proof.
  intros Hp. unfold all_roots. eapply settles_bind; [apply named_roots_settles; by intros x ?%not_elem_of_nil|].
  intros roots _ Hr.
  assert (Hall : forall x, x ∈ add_param_roots params roots -> x ∈ names nodes).
  { intros x [Hx|Hx]%param_roots_elem; [apply Hr, elem_of_list_to_set in Hx; done|by apply Hp]. }
  destruct (add_param_roots params roots) as [|r rs]; cbn; [|by split].
  split; [done|]. by destruct nodes.
Qed.

Lemma mapM_names nodes members :
  Forall (fun i => (i < length nodes)%nat) members ->
  exists l, mapM (fun i => n ← go_index nodes (Z.of_nat i); Ok (pn_name n)) members = (Ok l : res (list bytes)) /\
    Forall2 (fun i x => exists n, nodes !! i = Some n /\ pn_name n = x) members l.
Proof.
  induction members as [|i members IH]; intros Hm; [by exists []; split; [|constructor]|].
  apply Forall_cons in Hm as [Hi Hm]. destruct (IH Hm) as (l & Hl & Hf). destruct (lookup_lt_is_Some_2 nodes i Hi) as [n Hn].
  exists (pn_name n :: l). split; [|constructor; [by exists n|done]].
  assert (Hgo : go_index nodes (Z.of_nat i) = (Ok n : res provNode)).
  { unfold go_index. destruct (Z.ltb_spec (Z.of_nat i) 0); [lia|]. by rewrite Nat2Z.id, Hn. }
  cbn [mapM]. rewrite Hgo, ok_bind, ok_bind, Hl. done.
Qed.

(** The names of the members of a cyclic component. *)
Definition lists_members (nodes : list provNode) (group : list nat * bool) (c : Cycle) : Prop :=
  Forall2 (fun i x => exists n, nodes !! i = Some n /\ pn_name n = x) (fst group) (cyc_TypeNames c).

Lemma cycle_loop_settles nodes groups result :
  Forall (fun g => Forall (fun i => (i < length nodes)%nat) (fst g)) groups ->
  settles (cycle_loop nodes groups result) (fun cs => exists new, cs = result ++ new /\
    Forall2 (lists_members nodes) (filter (fun g => snd g = true) groups) new).
Proof.
  revert result. induction groups as [|[members cyclic] groups IH]; intros result Hg; cbn [cycle_loop].
  { exists []. by rewrite app_nil_r. }
  apply Forall_cons in Hg as [Hm Hg]. rewrite filter_cons. destruct cyclic.
  - destruct (mapM_names nodes members Hm) as (l & -> & Hl). unfold mbind at 1, outcome_bind at 1.
    eapply settles_impl; [by apply IH|]. intros cs (new & -> & Hnew). eexists. rewrite <- app_assoc. split; [done|]. by constructor.
  - by apply IH.
Qed.

Lemma analysis_groups_bounded nodes roots comp :
  analysis (adjacency_of nodes) roots comp -> bounded_graph (adjacency_of nodes) ->
  Forall (fun g => Forall (fun i => (i < length nodes)%nat) (fst g)) (zip (nodesByComponent comp) (cyclicComponents comp)).
Proof.
  intros Han Hb. apply Forall_forall. intros [g c] Hin. cbn.
  apply list_elem_of_lookup_1 in Hin as [k Hk]. apply lookup_zip_Some in Hk as [Hk _].
  destruct (an_group_nodes _ _ _ Han k g Hk) as (i & Hi & Hig & ->).
  destruct (an_groups _ _ _ Han i Hi) as (g' & Hg' & _ & _ & Hmut). simplify_eq. apply Forall_forall. intros j Hj%Hmut.
  rewrite <- (adjacency_length nodes). destruct (decide (i = j)) as [<-|Hne]; [done|].
  by apply (reach_bounded _ Hb i j); [apply Hj|].
Qed.

(** The provisional types, parameters and roots behind an accepted graph. *)
Record normalized (limits : Limits) (g : Graph) (nodes : list provNode) (values : list provParameter) (comp : components) : Prop := {
  no_built : built limits nodes;
  no_targets : Forall (fun n => Forall (target_ok nodes) (pn_fields n)) nodes;
  no_params : Forall (fun p => param_ok nodes (pp_reference p)) values;
  no_roots : forall x, x ∈ g_RootTypeNames g -> x ∈ names nodes;
  no_rooted : nodes <> [] -> g_RootTypeNames g <> [];
  no_analysis : analysis (adjacency_of nodes) (map (index_of nodes) (g_RootTypeNames g)) comp;
  no_reached : forall x, x ∈ names nodes -> from_roots nodes (g_RootTypeNames g) x;
  no_final : g_Nodes g = finalNodes nodes comp;
  no_parameters : g_Parameters g = finalParameters values nodes comp;
  no_cycles : Forall2 (lists_members nodes) (filter (fun g => snd g = true) (zip (nodesByComponent comp) (cyclicComponents comp))) (g_Cycles g);
  no_limits : g_Limits g = limits;
  no_node_count : st_NodeCount (g_Statistics g) = zlen nodes;
  no_edge_count : st_EdgeCount (g_Statistics g) <= MaxEdges limits;
  no_provisional : exists rows irs roots, provisionalParameters rows irs nodes limits = Ok (values, roots, st_EdgeCount (g_Statistics g));
  no_depth : st_MaximumDepth (g_Statistics g) = Z.of_nat (maximumDepth comp);
  no_depth_limit : Z.of_nat (maximumDepth comp) <= MaxDepth limits
}.

Lemma identity_settles id provided ps : settles (validateFunctionIdentity id provided ps) (fun _ => True).
Proof. unfold validateFunctionIdentity. repeat case_match; first [apply settles_reject|done]. Qed.

Lemma components_settles nodes roots maxDepth :
  NoDup (names nodes) -> closed_targets nodes -> (forall x, x ∈ roots -> x ∈ names nodes) ->
  settles (graphComponents nodes roots maxDepth) (fun comp =>
    analysis (adjacency_of nodes) (map (index_of nodes) roots) comp /\ Z.of_nat (maximumDepth comp) <= maxDepth).
Proof.
  intros Hnd Hc Hr. unfold graphComponents.
  destruct (analyse_spec (adjacency_of nodes) (map (index_of nodes) roots)) as (comp & -> & Han).
  - by apply adjacency_bounded.
  - rewrite adjacency_length. apply Forall_forall. intros i Hi%list_elem_of_In. apply in_map_iff in Hi as (x & <- & Hx%list_elem_of_In).
    apply index_of_bounded; [done|]. by apply Hr.
  - destruct (Z.ltb_spec maxDepth (Z.of_nat (maximumDepth comp))); [apply settles_reject|]. by split.
Qed.

Lemma normalize_rows_settles limits named provided sn b :
  Forall row_ints (sn_types sn) -> 0 <= MaxEdges limits ->
  settles (normalize_rows limits named provided sn b) (fun g =>
    (exists nodes values comp, normalized limits g nodes values comp) /\
    st_RowCount (g_Statistics g) = b_rows b /\ st_PropertyCount (g_Statistics g) = b_properties b /\ st_ByteCount (g_Statistics g) = b_bytes b).
Proof.
  intros Hints He. unfold normalize_rows. eapply settles_bind; [apply identity_settles|]. intros _ _ _.
  eapply settles_bind; [by apply build_nodes_settles|]. intros bnodes _ Hb.
  apply (refine_built limits bnodes (sn_parameters sn) (sn_indirect sn)) in Hb. cbv zeta.
  set (nodes := refineTableNodeKinds bnodes (sn_parameters sn) (sn_indirect sn)) in *.
  eapply settles_bind; [apply validate_settles, Hb|]. intros u _ Ht. pose proof (targets_closed nodes Ht) as Hc.
  eapply settles_bind; [apply parameters_settles; [apply Hb|apply Hb]|]. intros [[values proots] edges] Hprov (Hpr & Hed & Hps).
  eapply settles_bind; [by apply all_roots_settles|]. intros roots _ [Hr Hne].
  eapply settles_bind; [apply components_settles; [apply Hb|done|done]|]. intros comp _ [Han Hd].
  destruct (reach_types_spec nodes (bu_names _ _ Hb) roots) as (r & -> & Hreach).
  destruct (Nat.eqb_spec (size r) (length nodes)) as [Hs|]; [|apply settles_reject]. cbn [negb].
  eapply settles_bind.
  { apply cycle_loop_settles. eapply analysis_groups_bounded; [done|]. apply adjacency_bounded; [apply Hb|done]. }
  intros cs _ (new & Ecs & Hcs). cbn in Ecs. subst cs. split; [|done]. exists nodes, values, comp.
  split; cbn; try done.
  - eapply all_reached; [apply Hb|done..].
  - rewrite final_nodes_size by apply Hb. done.
  - eauto.
Qed.

Lemma normalize_settles input opts :
  settles (Normalize input opts) (fun g => exists limits nodes values comp,
    resolveLimits (match opts with Some o => opt_Limits o | None => None end) = Ok limits /\ normalized limits g nodes values comp /\
    st_RowCount (g_Statistics g) <= MaxRows limits /\ st_PropertyCount (g_Statistics g) <= MaxProperties limits /\
    st_ByteCount (g_Statistics g) <= MaxBytes limits /\
    exists sn b, snapshot input (mkBudget limits 0 0 0) = (Ok sn, b) /\ st_RowCount (g_Statistics g) = b_rows b /\
      st_PropertyCount (g_Statistics g) = b_properties b /\ st_ByteCount (g_Statistics g) = b_bytes b).
Proof.
  unfold Normalize. set (o := match opts with Some o => opt_Limits o | None => None end).
  assert (Hlim : settles (resolveLimits o) (fun l => 0 <= MaxRows l /\ 0 <= MaxEdges l /\ 0 <= MaxProperties l /\ 0 <= MaxBytes l)).
  { unfold resolveLimits. destruct o as [l|]; [|done].
    case_match eqn:E; [|apply settles_reject]. unfold limit_ok in E. rewrite !andb_true_iff, !Z.leb_le in E. cbn. lia. }
  eapply settles_bind; [exact Hlim|]. intros limits El (H1 & H2 & H3 & H4).
  pose proof (bounded_snapshot limits input (mkBudget limits 0 0 0)) as Hs.
  destruct (snapshot input (mkBudget limits 0 0 0)) as [[sn|e|] b] eqn:Esn; [|apply Hs; unfold within; cbn; repeat split; (done || lia)..].
  destruct Hs as [(Hl & Hr & Hp & Hb) [Hints _]]; [unfold within; cbn; repeat split; (done || lia)|].
  eapply settles_impl; [by apply normalize_rows_settles|]. intros g ((nodes & values & comp & Hn) & Er & Ep & Eb).
  exists limits, nodes, values, comp. split; [done|]. split; [done|]. split; [lia|]. split; [lia|]. split; [lia|]. by exists sn, b.
Qed.

Lemma tc_mono {A} (R S : relation A) x y : (forall x y, R x y -> S x y) -> tc R x y -> tc S x y.
Proof. intros H Ht. induction Ht as [x y Hr|x y z Hr _ IH]; [by apply tc_once, H|]. by eapply tc_l; [apply H|]. Qed.

(** [a] has a field that refers to [b]. *)
Definition refers_to (g : Graph) (a b : bytes) : Prop :=
  exists t f, g_Nodes g !! a = Some t /\ f ∈ tn_Fields t /\ ref_Kind (mf_Reference f) <> KScalar /\ ref_TargetType (mf_Reference f) = b.

(** A nesting of [k] levels below a root: each level is a type that cannot lead back to the
    level above; types on one cycle are one level. *)
Definition same_level (g : Graph) (a b : bytes) : Prop := rtc (refers_to g) a b /\ rtc (refers_to g) b a.

Inductive type_nesting (g : Graph) : nat -> bytes -> Prop :=
| tn_root r x : r ∈ g_RootTypeNames g -> same_level g r x -> type_nesting g 1 x
| tn_step k x y z : type_nesting g k x -> refers_to g x y -> ~ rtc (refers_to g) y x -> same_level g y z -> type_nesting g (S k) z.

Section Accepted.
Context (limits : Limits) (g : Graph) (nodes : list provNode) (values : list provParameter) (comp : components).
Context (Hno : normalized limits g nodes values comp).

Lemma node_names : NoDup (names nodes).
Proof. apply (bu_names limits), Hno. Qed.
Lemma node_targets : closed_targets nodes.
Proof. apply targets_closed, Hno. Qed.

Lemma accepted_node a t :
  g_Nodes g !! a = Some t <-> exists i n, nodes !! i = Some n /\ pn_name n = a /\ t = final_node nodes comp i n.
Proof. rewrite (no_final _ _ _ _ _ Hno). apply final_nodes_spec, node_names. Qed.

Lemma scalar_kind r : is_scalar_ref r = true <-> pref_kind r = KScalar.
Proof. unfold is_scalar_ref. by rewrite bool_decide_eq_true. Qed.

Lemma final_kind i r : ref_Kind (final_reference nodes comp i r) = pref_kind r.
Proof. unfold final_reference. destruct (is_scalar_ref r) eqn:E; [|done]. by apply scalar_kind in E. Qed.

Lemma final_target i r : pref_kind r <> KScalar -> ref_TargetType (final_reference nodes comp i r) = pref_targetType r.
Proof. intros Hk. unfold final_reference. destruct (is_scalar_ref r) eqn:E; [|done]. by apply scalar_kind in E. Qed.

Lemma not_scalar r : pref_kind r <> KScalar <-> is_scalar_ref r = false.
Proof. rewrite <- scalar_kind. by destruct (is_scalar_ref r). Qed.

(** A field of a type of the graph comes from a field of the provisional type. *)
Lemma accepted_field i n f :
  f ∈ tn_Fields (final_node nodes comp i n) <-> exists pf, pf ∈ pn_fields n /\ f = final_field nodes comp i pf.
Proof. cbn. rewrite list_elem_of_In, in_map_iff. setoid_rewrite <- list_elem_of_In. naive_solver. Qed.

Lemma refers_to_refers a b : refers_to g a b <-> refers nodes a b.
Proof.
  split.
  - intros (t & f & (i & n & Hn & Hname & ->)%accepted_node & (pf & Hpf & ->)%accepted_field & Hk & <-). cbn in *.
    rewrite final_kind in Hk. rewrite final_target by done. exists n. split; [by eapply list_elem_of_lookup_2|]. split; [done|].
    apply elem_of_field_targets. exists pf. by rewrite <- not_scalar.
  - intros (n & [i Hi]%list_elem_of_lookup_1 & Hname & (pf & Hpf & Hs & <-)%elem_of_field_targets).
    exists (final_node nodes comp i n), (final_field nodes comp i pf). split; [apply accepted_node; eauto|].
    split; [apply accepted_field; eauto|]. cbn. rewrite final_kind. apply not_scalar in Hs. split; [done|by apply final_target].
Qed.

Lemma rtc_refers_to a b : rtc (refers_to g) a b <-> rtc (refers nodes) a b.
Proof. split; apply rtc_subrel; intros x y; apply refers_to_refers. Qed.

Lemma tc_refers_to a b : tc (refers_to g) a b <-> tc (refers nodes) a b.
Proof. split; apply tc_mono; intros x y; apply refers_to_refers. Qed.

Lemma node_lookup x : x ∈ names nodes <-> is_Some (g_Nodes g !! x).
Proof.
  split.
  - intros (n & Hn & Hx)%index_of_name; [|apply node_names]. eexists. apply accepted_node. eauto.
  - intros [t (i & n & Hn & <- & _)%accepted_node]. by eapply name_elem.
Qed.

Lemma accepted_parameter p :
  p ∈ g_Parameters g -> exists v, v ∈ values /\ mp_Reference p = final_param_reference nodes comp (pp_reference v).
Proof.
  rewrite (no_parameters _ _ _ _ _ Hno). unfold finalParameters. intros Hp%list_elem_of_In.
  apply in_map_iff in Hp as (v & <- & Hv%list_elem_of_In). by exists v.
Qed.

(** The references of fields and of parameters lead to types of the graph. *)
Lemma reference_target a t f :
  g_Nodes g !! a = Some t -> f ∈ tn_Fields t -> ref_Kind (mf_Reference f) <> KScalar ->
  exists t', g_Nodes g !! ref_TargetType (mf_Reference f) = Some t' /\ tn_Kind t' = ref_Kind (mf_Reference f).
Proof.
  intros (i & n & Hn & Hname & ->)%accepted_node (pf & Hpf & ->)%accepted_field Hk. cbn in *. rewrite final_kind in Hk |- *.
  rewrite final_target by done. pose proof (no_targets _ _ _ _ _ Hno) as Ht. rewrite Forall_forall in Ht.
  specialize (Ht n (list_elem_of_lookup_2 _ _ _ Hn)). rewrite Forall_forall in Ht.
  destruct (Ht pf Hpf) as (m & [j Hj]%list_elem_of_lookup_1 & Hm & Hkm); [by apply not_scalar|].
  exists (final_node nodes comp j m). split; [apply accepted_node; eauto|done].
Qed.

Lemma parameter_target p :
  p ∈ g_Parameters g -> pr_TargetType (mp_Reference p) <> [] -> is_Some (g_Nodes g !! pr_TargetType (mp_Reference p)).
Proof.
  intros (v & Hv & ->)%accepted_parameter. pose proof (no_params _ _ _ _ _ Hno) as Hp. rewrite Forall_forall in Hp.
  specialize (Hp v Hv). unfold param_ok in Hp. unfold final_param_reference.
  destruct (ppr_kind (pp_reference v)); cbn; intros Hne; try done; apply node_lookup; auto.
Qed.

Lemma names_lookup x : x ∈ names nodes -> exists i n, nodes !! i = Some n /\ pn_name n = x /\ (i < length (adjacency_of nodes))%nat.
Proof.
  intros (n & Hn & Hx)%index_of_name; [|apply node_names]. exists (index_of nodes x), n.
  rewrite adjacency_length. split; [done|]. split; [done|]. by eapply lookup_lt_Some.
Qed.

Lemma mutual_names i j n m :
  nodes !! i = Some n -> nodes !! j = Some m ->
  mutual (adjacency_of nodes) i j <-> rtc (refers_to g) (pn_name n) (pn_name m) /\ rtc (refers_to g) (pn_name m) (pn_name n).
Proof.
  intros Hi Hj. unfold mutual. rewrite !rtc_refers_to.
  rewrite (reach_refers nodes node_names node_targets i j n m Hi Hj), (reach_refers nodes node_names node_targets j i m n Hj Hi). done.
Qed.

(** *** The cycles *)
Lemma cycle_group c :
  c ∈ g_Cycles g -> exists k members, nodesByComponent comp !! k = Some members /\ cyclicComponents comp !! k = Some true /\
    lists_members nodes (members, true) c.
Proof.
  intros Hc. apply list_elem_of_lookup_1 in Hc as [q Hq].
  destruct (Forall2_lookup_r _ _ _ _ _ (no_cycles _ _ _ _ _ Hno) Hq) as ([members b] & Hg & Hl).
  apply list_elem_of_lookup_2, list_elem_of_filter in Hg as [Hb Hg]. cbn in Hb. subst b.
  apply list_elem_of_lookup_1 in Hg as [k [H1 H2]%lookup_zip_Some]. by exists k, members.
Qed.

Lemma cycle_name members c x :
  lists_members nodes (members, true) c ->
  x ∈ cyc_TypeNames c <-> exists i n, i ∈ members /\ nodes !! i = Some n /\ pn_name n = x.
Proof.
  unfold lists_members. cbn. intros Hl. split.
  - intros [q Hq]%list_elem_of_lookup_1. destruct (Forall2_lookup_r _ _ _ _ _ Hl Hq) as (i & Hi & n & Hn & Hx).
    exists i, n. split; [by eapply list_elem_of_lookup_2|done].
  - intros (i & n & [q Hq]%list_elem_of_lookup_1 & Hn & <-). destruct (Forall2_lookup_l _ _ _ _ _ Hl Hq) as (x & Hx & n' & Hn' & <-).
    simplify_eq. by eapply list_elem_of_lookup_2.
Qed.

(** The members of the group at a component's number. *)
Lemma group_members k members i j :
  nodesByComponent comp !! k = Some members -> i ∈ members ->
  (i < length (adjacency_of nodes))%nat /\ k = Z.to_nat (componentByNode comp !!! i) /\ (j ∈ members <-> mutual (adjacency_of nodes) i j).
Proof.
  intros Hk Hi. pose proof (no_analysis _ _ _ _ _ Hno) as Han.
  destruct (an_group_nodes _ _ _ Han k members Hk) as (i0 & Hi0 & Hin0 & Ek).
  destruct (an_groups _ _ _ Han i0 Hi0) as (g' & Hg' & _ & _ & Hmut). rewrite <- Ek in Hg'. simplify_eq.
  apply Hmut in Hi as Hm.
  assert (Hil : (i < length (adjacency_of nodes))%nat).
  { destruct (decide (i0 = i)) as [<-|Hne]; [done|].
    destruct (reach_bounded _ (adjacency_bounded nodes node_names node_targets) i0 i) as [_ ?]; [apply Hm|done|done]. }
  split; [done|]. split; [by rewrite <- (proj2 (an_class _ _ _ Han i0 i Hi0 Hil) Hm)|].
  rewrite Hmut. split; intros H; [by rewrite <- Hm|by rewrite Hm].
Qed.

Lemma cycle_strong c x y :
  c ∈ g_Cycles g -> x ∈ cyc_TypeNames c ->
  tc (refers_to g) x x /\ (y ∈ cyc_TypeNames c <-> rtc (refers_to g) x y /\ rtc (refers_to g) y x).
Proof.
  intros (k & members & Hk & Hf & Hl)%cycle_group Hx. apply (cycle_name members c x Hl) in Hx as (i & n & Hi & Hn & <-).
  pose proof (fun j => group_members k members i j Hk Hi) as Hgm. destruct (Hgm i) as (Hil & Ek & _).
  pose proof (no_analysis _ _ _ _ _ Hno) as Han. split.
  - apply tc_refers_to, (tc_refers nodes node_names node_targets i n Hn), (an_cyclic _ _ _ Han i Hil).
    rewrite <- Ek. by apply list_lookup_total_correct.
  - rewrite (cycle_name members c y Hl). split.
    + intros (j & m & Hj & Hm & <-). apply (mutual_names i j n m Hn Hm). by apply Hgm.
    + intros Hy. assert (Hyn : y ∈ names nodes).
      { destruct Hy as [Hy _]. apply rtc_refers_to in Hy.
        refine (rtc_closed (refers nodes) (fun z => z ∈ names nodes) (pn_name n) y _ _ Hy); [by eapply name_elem|].
        intros a b _ Hab. by apply (refers_names nodes node_targets) in Hab as [_ ?]. }
      apply names_lookup in Hyn as (j & m & Hm & <- & _). exists j, m. split; [|done]. apply Hgm. by apply (mutual_names i j n m Hn Hm).
Qed.

Lemma on_cycle_listed x : tc (refers_to g) x x -> exists c, c ∈ g_Cycles g /\ x ∈ cyc_TypeNames c.
Proof.
  intros Hx%tc_refers_to. pose proof (no_analysis _ _ _ _ _ Hno) as Han.
  assert (Hxn : x ∈ names nodes) by (apply tc_first in Hx as (y & Hy & _); by apply (refers_names nodes node_targets) in Hy as [? _]).
  apply names_lookup in Hxn as (i & n & Hn & <- & Hil).
  apply (tc_refers nodes node_names node_targets i n Hn), (an_cyclic _ _ _ Han i Hil) in Hx.
  destruct (an_groups _ _ _ Han i Hil) as (members & Hk & _ & _ & Hmut). set (k := Z.to_nat (componentByNode comp !!! i)) in *.
  assert (Hf : cyclicComponents comp !! k = Some true).
  { rewrite <- Hx. apply list_lookup_lookup_total_lt. rewrite (an_flags _ _ _ Han). by eapply lookup_lt_Some. }
  assert (Hin : (members, true) ∈ filter (fun g => snd g = true) (zip (nodesByComponent comp) (cyclicComponents comp))).
  { apply list_elem_of_filter. split; [done|]. apply (list_elem_of_lookup_2 _ k), lookup_zip_Some. done. }
  apply list_elem_of_lookup_1 in Hin as [q Hq].
  destruct (Forall2_lookup_l _ _ _ _ _ (no_cycles _ _ _ _ _ Hno) Hq) as (c & Hc & Hl). exists c.
  split; [by eapply list_elem_of_lookup_2|]. apply (cycle_name members c _ Hl). exists i, n. split; [|done].
  apply Hmut. reflexivity.
Qed.

(** *** The depth *)
Lemma nesting_types k i n :
  nodes !! i = Some n -> nesting (adjacency_of nodes) (map (index_of nodes) (g_RootTypeNames g)) k i -> type_nesting g k (pn_name n).
Proof.
  intros Hi Hk. revert n Hi. induction Hk as [r u Hr Hm|k u v w Hk IH He Hnm Hm]; intros n Hi.
  - apply list_elem_of_In, in_map_iff in Hr as (x & <- & Hx%list_elem_of_In).
    destruct (index_of_name nodes node_names x) as (m & Hm' & <-); [by apply (no_roots _ _ _ _ _ Hno)|].
    eapply tn_root; [done|]. by eapply mutual_names.
  - destruct (edge_bounded _ (adjacency_bounded nodes node_names node_targets) _ _ He) as [Hu Hv]. rewrite adjacency_length in Hu, Hv.
    destruct (lookup_lt_is_Some_2 nodes u Hu) as [a Ha]. destruct (lookup_lt_is_Some_2 nodes v Hv) as [b Hb].
    eapply (tn_step g k (pn_name a) (pn_name b)); [by apply IH| | |by eapply mutual_names].
    + apply refers_to_refers. by apply (edge_refers nodes node_names node_targets u v a b Ha Hb).
    + intros Hba. apply Hnm. split; [by apply rtc_once|].
      by apply (reach_refers nodes node_names node_targets v u b a Hb Ha), rtc_refers_to.
Qed.

Lemma types_nesting k x :
  type_nesting g k x ->
  exists i n, nodes !! i = Some n /\ pn_name n = x /\ nesting (adjacency_of nodes) (map (index_of nodes) (g_RootTypeNames g)) k i.
Proof.
  assert (Hreach : forall a b, a ∈ names nodes -> rtc (refers_to g) a b -> b ∈ names nodes).
  { intros a b Ha Hab%rtc_refers_to. refine (rtc_closed (refers nodes) (fun z => z ∈ names nodes) a b _ _ Hab); [done|].
    intros c d _ Hcd. by apply (refers_names nodes node_targets) in Hcd as [_ ?]. }
  intros Hk. induction Hk as [r x Hr Hm|k x y z Hk IH Hxy Hnot Hm].
  - assert (Hrn : r ∈ names nodes) by (by apply (no_roots _ _ _ _ _ Hno)).
    destruct (names_lookup x) as (i & n & Hi & <- & _); [by apply (Hreach r), Hm|].
    destruct (index_of_name nodes node_names r Hrn) as (m & Hm' & Er). exists i, n. split; [done|]. split; [done|].
    eapply nesting_root; [|by eapply mutual_names; [done..|rewrite Er]].
    apply list_elem_of_In, in_map_iff. exists r. split; [done|by apply list_elem_of_In].
  - destruct IH as (i & n & Hi & <- & Hn). apply refers_to_refers in Hxy.
    assert (Hyn : y ∈ names nodes) by (by apply (refers_names nodes node_targets) in Hxy as [_ ?]).
    destruct (names_lookup z) as (l & o & Hl & <- & _); [by apply (Hreach y), Hm|].
    destruct (names_lookup y Hyn) as (j & m & Hj & <- & _). exists l, o. split; [done|]. split; [done|].
    eapply (nesting_step _ _ k i j l); [done|by apply (edge_refers nodes node_names node_targets i j n m Hi Hj)| |by eapply mutual_names].
    intros [_ Hji]. apply Hnot, rtc_refers_to. by apply (reach_refers nodes node_names node_targets j i m n Hj Hi).
Qed.

Lemma accepted_depth :
  g_Nodes g <> ∅ ->
  (forall k x, type_nesting g k x -> Z.of_nat k <= st_MaximumDepth (g_Statistics g)) /\
  exists x, type_nesting g (Z.to_nat (st_MaximumDepth (g_Statistics g))) x.
Proof.
  intros Hne. rewrite (no_depth _ _ _ _ _ Hno), Nat2Z.id.
  assert (Hnodes : nodes <> []).
  { intros ->. apply Hne. rewrite (no_final _ _ _ _ _ Hno). done. }
  assert (Hroots : map (index_of nodes) (g_RootTypeNames g) <> []).
  { intros E%map_eq_nil. by apply (no_rooted _ _ _ _ _ Hno). }
  destruct (an_depth _ _ _ (no_analysis _ _ _ _ _ Hno) Hroots) as [Hmax [u Hu]]. split.
  - intros k x (i & n & _ & _ & Hk)%types_nesting. apply Hmax in Hk. lia.
  - assert (Hul : (u < length nodes)%nat).
    { rewrite <- (adjacency_length nodes). eapply nesting_bounded; [by apply adjacency_bounded; [apply node_names|apply node_targets]| |done].
      rewrite adjacency_length. apply Forall_forall. intros i Hi%list_elem_of_In. apply in_map_iff in Hi as (x & <- & Hx%list_elem_of_In).
      apply index_of_bounded; [apply node_names|]. by apply (no_roots _ _ _ _ _ Hno). }
    destruct (lookup_lt_is_Some_2 nodes u Hul) as [n Hn]. exists (pn_name n). by eapply nesting_types.
Qed.

(** *** The geometry *)
Lemma geometry_ordered nucTotal ucTotal nuc uc fields :
  geometry nucTotal ucTotal nuc uc fields -> Forall field_ints fields ->
  Forall (fun f => pf_nucOffset f + pf_nucLength f < 2 ^ 63 /\ pf_ucOffset f + pf_ucLength f < 2 ^ 63) fields ->
  Forall (fun f => nuc <= pf_nucOffset f /\ uc <= pf_ucOffset f /\
                   pf_nucOffset f + pf_nucLength f <= nucTotal /\ pf_ucOffset f + pf_ucLength f <= ucTotal) fields /\
  StronglySorted (fun f f' => pf_nucOffset f + pf_nucLength f <= pf_nucOffset f' /\ pf_ucOffset f + pf_ucLength f <= pf_ucOffset f') fields.
Proof.
  revert nuc uc. induction fields as [|f fields IH]; intros nuc uc Hg Hi Hw; [split; constructor|].
  apply Forall_cons in Hi as [[Hi1 Hi2 Hi3 Hi4] Hi]. apply Forall_cons in Hw as [[Hw1 Hw2] Hw]. cbn [geometry] in Hg.
  unfold is_int in *. assert (Hs : forall a b, 0 <= a -> 0 <= b -> a + b < 2 ^ 63 -> safeEnd a b = a + b).
  { intros a b Ha Hb Hab. unfold safeEnd, int64. rewrite Z.mod_small; lia. }
  rewrite !Hs in Hg by lia. destruct Hg as (G1 & G2 & G3 & G4 & G5). destruct (IH _ _ G5 Hi Hw) as [HF HS]. split.
  - constructor; [done|]. eapply Forall_impl; [exact HF|]. cbn. intros f' H. lia.
  - constructor; [done|]. eapply Forall_impl; [exact HF|]. cbn. intros f' H. lia.
Qed.

Lemma accepted_geometry a t :
  g_Nodes g !! a = Some t ->
  Forall (fun f => mf_NucOffset f + mf_NucLength f < 2 ^ 63 /\ mf_UcOffset f + mf_UcLength f < 2 ^ 63) (tn_Fields t) ->
  Forall (fun f => mf_NucOffset f + mf_NucLength f <= tn_NucLength t /\ mf_UcOffset f + mf_UcLength f <= tn_UcLength t) (tn_Fields t) /\
  StronglySorted (fun f f' => mf_NucOffset f + mf_NucLength f <= mf_NucOffset f' /\ mf_UcOffset f + mf_UcLength f <= mf_UcOffset f') (tn_Fields t).
Proof.
  intros (i & n & Hn & _ & ->)%accepted_node. cbn [tn_Fields final_node tn_NucLength tn_UcLength]. intros Hw.
  pose proof (bu_nodes _ _ (no_built _ _ _ _ _ Hno)) as Hb. rewrite Forall_forall in Hb.
  destruct (Hb n (list_elem_of_lookup_2 _ _ _ Hn)) as [Hg _ Hi].
  destruct (geometry_ordered _ _ _ _ _ Hg Hi) as [HF HS].
  { rewrite Forall_map in Hw. eapply Forall_impl; [exact Hw|]. done. }
  split.
  - rewrite Forall_map. eapply Forall_impl; [exact HF|]. cbn. lia.
  - clear -HS. induction HS as [|f l HS IH HF]; cbn; constructor; [done|]. rewrite Forall_map. eapply Forall_impl; [exact HF|]. done.
Qed.
End Accepted.

(** The types of the graph are those its roots lead to. *)
Lemma types_reached limits g nodes values comp a :
  normalized limits g nodes values comp -> is_Some (g_Nodes g !! a) <-> exists r, r ∈ g_RootTypeNames g /\ rtc (refers_to g) r a.
Proof.
  intros Hno. rewrite <- (node_lookup _ _ _ _ _ Hno a). split.
  - intros (r & Hin & Hra)%(no_reached _ _ _ _ _ Hno). exists r. split; [done|]. by apply (rtc_refers_to _ _ _ _ _ Hno).
  - intros (r & Hin & Hra%(rtc_refers_to _ _ _ _ _ Hno)).
    refine (rtc_closed (refers nodes) (fun x => x ∈ names nodes) r a _ _ Hra); [by apply (no_roots _ _ _ _ _ Hno)|].
    intros x y _ Hxy. by apply (refers_names nodes (node_targets _ _ _ _ _ Hno)) in Hxy as [_ ?].
Qed.

(** ** The theorems *)
Lemma settles_inv {A} (m : res A) (P : A -> Prop) a : settles m P -> m = Ok a -> P a.
Proof. by intros H ->. Qed.

(** Normalising metadata ends on every input, with a graph or an error of the normaliser,
    and never panics. *)
Theorem normalize_total input opts :
  match Normalize input opts with
  | Ok _ => True
  | Err e => exists code, e = EMetadata (RecursiveMetadataError code)
  | Panic => False
  end.
Proof. pose proof (normalize_settles input opts) as H. by destruct (Normalize input opts). Qed.

(** C12: In an accepted metadata graph a field is flagged cyclic exactly when its type leads
    back to the type it is a field of, a parameter exactly when its type can reach itself,
    and the listed cycles are exactly the maximal groups of types that reach one another and
    lie on a cycle: the two explicit-stack passes compute strong connectivity. *)
Theorem cycles_exact input opts g :
  Normalize input opts = Ok g ->
  (forall a t f, g_Nodes g !! a = Some t -> f ∈ tn_Fields t -> ref_Kind (mf_Reference f) <> KScalar ->
    (ref_Cyclic (mf_Reference f) = true <-> rtc (refers_to g) (ref_TargetType (mf_Reference f)) a)) /\
  (forall p, p ∈ g_Parameters g -> pr_TargetType (mp_Reference p) <> [] ->
    (pr_Cyclic (mp_Reference p) = true <-> tc (refers_to g) (pr_TargetType (mp_Reference p)) (pr_TargetType (mp_Reference p)))) /\
  (forall x, (exists c, c ∈ g_Cycles g /\ x ∈ cyc_TypeNames c) <-> tc (refers_to g) x x) /\
  (forall c x y, c ∈ g_Cycles g -> x ∈ cyc_TypeNames c -> (y ∈ cyc_TypeNames c <-> same_level g x y)).
Proof.
  intros H. destruct (settles_inv _ _ _ (normalize_settles input opts) H) as (limits & nodes & values & comp & _ & Hno & _).
  pose proof (node_names _ _ _ _ _ Hno) as Hnd. pose proof (node_targets _ _ _ _ _ Hno) as Hct.
  split; [|split; [|split]].
  - intros a t f (i & n & Hn & <- & ->)%(accepted_node _ _ _ _ _ Hno) (pf & Hpf & ->)%(accepted_field nodes comp) Hk. cbn in *.
    rewrite final_kind in Hk. rewrite final_target, (rtc_refers_to _ _ _ _ _ Hno) by done. apply not_scalar in Hk.
    eapply cyclic_flag_exact; [done..|apply Hno|done|done|]. apply elem_of_field_targets. by exists pf.
  - intros p (v & Hv & ->)%(accepted_parameter _ _ _ _ _ Hno). pose proof (no_params _ _ _ _ _ Hno) as Hp. rewrite Forall_forall in Hp.
    specialize (Hp v Hv). intros Hne. rewrite (tc_refers_to _ _ _ _ _ Hno).
    destruct (ppr_kind (pp_reference v)) eqn:Ek; unfold final_param_reference in Hne |- *; rewrite Ek in Hne |- *; cbn in Hne |- *; try done;
      (pose proof (param_flag_exact nodes Hnd Hct _ comp (no_analysis _ _ _ _ _ Hno) (pp_reference v)) as Hx;
       unfold final_param_reference in Hx; rewrite Ek in Hx; cbn in Hx; apply Hx; [auto|apply Hp; auto]).
  - intros x. split; [|by eapply on_cycle_listed].
    intros (c & Hc & Hx). by apply (cycle_strong _ _ _ _ _ Hno c x x Hc Hx).
  - intros c x y Hc Hx. by apply (cycle_strong _ _ _ _ _ Hno c x y Hc Hx).
Qed.

(** C24: The reported depth of an accepted graph is the length of the deepest chain of
    distinct levels of types below a root, where types on a common cycle count as one level,
    and it is within the limit. *)
Theorem depth_exact input opts g :
  Normalize input opts = Ok g -> g_Nodes g <> ∅ ->
  (forall k x, type_nesting g k x -> Z.of_nat k <= st_MaximumDepth (g_Statistics g) <= MaxDepth (g_Limits g)) /\
  exists x, type_nesting g (Z.to_nat (st_MaximumDepth (g_Statistics g))) x.
Proof.
  intros H Hne. destruct (settles_inv _ _ _ (normalize_settles input opts) H) as (limits & nodes & values & comp & _ & Hno & _).
  destruct (accepted_depth _ _ _ _ _ Hno Hne) as [Hmax Hex]. split; [|done]. intros k x Hk. split; [by apply (Hmax k x)|].
  rewrite (no_depth _ _ _ _ _ Hno), (no_limits _ _ _ _ _ Hno). apply Hno.
Qed.

(** In an accepted type the fields follow one another without overlapping and end within the
    type, in both character widths, provided no end of a field wraps around the 64-bit
    integers. *)
Theorem fields_laid_out input opts g a t :
  Normalize input opts = Ok g -> g_Nodes g !! a = Some t ->
  Forall (fun f => mf_NucOffset f + mf_NucLength f < 2 ^ 63 /\ mf_UcOffset f + mf_UcLength f < 2 ^ 63) (tn_Fields t) ->
  Forall (fun f => mf_NucOffset f + mf_NucLength f <= tn_NucLength t /\ mf_UcOffset f + mf_UcLength f <= tn_UcLength t) (tn_Fields t) /\
  StronglySorted (fun f f' => mf_NucOffset f + mf_NucLength f <= mf_NucOffset f' /\ mf_UcOffset f + mf_UcLength f <= mf_UcOffset f') (tn_Fields t).
Proof.
  intros H Ht. destruct (settles_inv _ _ _ (normalize_settles input opts) H) as (limits & nodes & values & comp & _ & Hno & _).
  by eapply accepted_geometry.
Qed.

(** A type of four bytes with a field at the largest [int]. *)
Definition hostile_type : Input :=
  mkInput None [sample_row "T" "A" "" "CHAR" "C" "9223372036854775807" "4" "4"] [] None.

(** The end of a field is added in 64 bits without a check: a field at the largest offset is
    accepted in a type of four bytes. *)
Theorem geometry_wraps :
  exists g t f, Normalize hostile_type None = Ok g /\ g_Nodes g !! lit "T" = Some t /\ f ∈ tn_Fields t /\
    tn_NucLength t = 4 /\ mf_NucOffset f = 2 ^ 63 - 1 /\ mf_NucLength f = 4.
Proof.
  assert (H : match Normalize hostile_type None with
              | Ok g => match g_Nodes g !! lit "T" with
                        | Some t => match tn_Fields t with
                                    | f :: _ => (tn_NucLength t =? 4) && (mf_NucOffset f =? 2 ^ 63 - 1) && (mf_NucLength f =? 4)
                                    | [] => false end
                        | None => false end
              | _ => false end = true) by (vm_compute; reflexivity).
  destruct (Normalize hostile_type None) as [g| |]; [|discriminate H..].
  destruct (g_Nodes g !! lit "T") as [t|] eqn:Et; [|discriminate H]. destruct (tn_Fields t) as [|f fs] eqn:Ef; [discriminate H|].
  exists g, t, f. rewrite !andb_true_iff, !Z.eqb_eq in H. destruct H as [[H1 H2] H3]. rewrite Ef.
  split; [reflexivity|]. split; [exact Et|]. split; [by left|]. auto.
Qed.

(** ** Instances *)
Lemma sample_accepted :
  exists g t, Normalize sample_input None = Ok g /\ g_Nodes g !! lit "NODE" = Some t /\ st_MaximumDepth (g_Statistics g) = 1 /\
    Forall (fun f => mf_NucOffset f + mf_NucLength f < 2 ^ 63 /\ mf_UcOffset f + mf_UcLength f < 2 ^ 63) (tn_Fields t).
Proof.
  assert (H : match Normalize sample_input None with
              | Ok g => match g_Nodes g !! lit "NODE" with
                        | Some t => (st_MaximumDepth (g_Statistics g) =? 1) &&
                            forallb (fun f => (mf_NucOffset f + mf_NucLength f <? 2 ^ 63) && (mf_UcOffset f + mf_UcLength f <? 2 ^ 63)) (tn_Fields t)
                        | None => false end
              | _ => false end = true) by (vm_compute; reflexivity).
  destruct (Normalize sample_input None) as [g| |]; [|discriminate H..]. destruct (g_Nodes g !! lit "NODE") as [t|] eqn:Et; [|discriminate H].
  exists g, t. apply andb_true_iff in H as [H1 H2]. split; [reflexivity|]. split; [exact Et|]. split; [by apply Z.eqb_eq|].
  rewrite forallb_forall in H2. apply Forall_forall. intros f Hf%list_elem_of_In. specialize (H2 f Hf).
  by rewrite andb_true_iff, !Z.ltb_lt in H2.
Qed.

Lemma cycles_exact_witness :
  exists g, Normalize sample_input None = Ok g /\ forall x, (exists c, c ∈ g_Cycles g /\ x ∈ cyc_TypeNames c) <-> tc (refers_to g) x x.
Proof.
  destruct sample_accepted as (g & t & E & _). exists g. split; [exact E|].
  exact (proj1 (proj2 (proj2 (cycles_exact sample_input None g E)))).
Defined.

Lemma depth_exact_witness : exists g, Normalize sample_input None = Ok g /\ exists x, type_nesting g 1 x.
Proof.
  destruct sample_accepted as (g & t & E & Et & Hd & _). exists g. split; [exact E|].
  assert (Hne : g_Nodes g <> ∅) by (intros H; rewrite H, lookup_empty in Et; discriminate).
  destruct (depth_exact sample_input None g E Hne) as [_ Hx]. by rewrite Hd in Hx.
Defined.

Lemma fields_laid_out_witness :
  exists g t, Normalize sample_input None = Ok g /\ g_Nodes g !! lit "NODE" = Some t /\
    Forall (fun f => mf_NucOffset f + mf_NucLength f <= tn_NucLength t /\ mf_UcOffset f + mf_UcLength f <= tn_UcLength t) (tn_Fields t).
Proof.
  destruct sample_accepted as (g & t & E & Et & _ & Hw). exists g, t. split; [exact E|]. split; [exact Et|].
  apply (fields_laid_out sample_input None g (lit "NODE") t E Et Hw).
Defined.
