(* ===== verification/RecursiveCounts.v ===== *)
(** Package [metadata], internal/metadata/recursive.go: what the statistics of an accepted
    graph count, and the limits they are held against.

    The readers of the rows charge a budget; [costs] is what a reader charges when it
    succeeds.  The parameters count edges; [adds] is what a step adds.

    The theorem: the statistics are the numbers of rows, columns, bytes, types and references
    of the input and of the graph, and each is within the limit the caller set. *)
From stdpp Require Import base list numbers strings gmap sets relations.
From Stdlib Require Import ZArith Lia Strings.Byte.
From S2P Require Import Prelude Errors Text GraphComponents RecursiveMetadata.

Open Scope Z_scope.

(** ** The columns of the input *)
Definition type_columns (r : TypeRowInput) : list bytes :=
  [ti_TypeName r; ti_FieldName r; ti_CompType r; ti_FieldType r; ti_DataType r; ti_TabLength r; ti_TabLengthUC r; ti_Description r; ti_Decimals r;
   ti_IntType r; ti_Offset r; ti_OffsetUC r; ti_IntLen r; ti_IntLenUC r; ti_Timestamp r].
Definition indirect_columns (r : IndirectRowInput) : list bytes := [ii_TabName r; ii_FieldName r; ii_FieldType r].
Definition parameter_row_columns (r : ParameterRowInput) : list bytes :=
  [pi_FuncName r; pi_ParamClass r; pi_Parameter r; pi_TabName r; pi_FieldName r; pi_Exid r; pi_Position r; pi_Offset r; pi_IntLength r; pi_Decimals r;
   pi_Default r; pi_ParamText r; pi_Optional r].
Definition function_columns (r : FunctionRow) : list bytes := [fr_FunctionName r; fr_BasxmlSupported r; fr_UDat r; fr_UTime r].

Definition rows_of {A} (o : option (list A)) : list A := match o with Some l => l | None => [] end.

(** The names of the tables that are there, and all columns of their rows. *)
Definition table_names (input : Input) : list bytes :=
  match in_FunctionNames input with Some _ => [lit "FUNCTIONNAMES"] | None => [] end ++ [lit "DATATYPESCONT"; lit "INDIRECTTYPES"] ++
  match in_Parameters input with Some _ => [lit "PARAMETERS"] | None => [] end.

Definition all_columns (input : Input) : list bytes :=
  (rows_of (in_FunctionNames input) ≫= function_columns) ++ (in_DataTypesCont input ≫= type_columns) ++
  (in_IndirectTypes input ≫= indirect_columns) ++ (rows_of (in_Parameters input) ≫= parameter_row_columns).

Definition input_rows (input : Input) : Z :=
  zlen (rows_of (in_FunctionNames input)) + zlen (in_DataTypesCont input) + zlen (in_IndirectTypes input) + zlen (rows_of (in_Parameters input)).

Definition text_bytes (l : list bytes) : Z := zlen (concat l).

Lemma text_bytes_app a b : text_bytes (a ++ b) = text_bytes a + text_bytes b.
Proof. unfold text_bytes. by rewrite concat_app, zlen_app. Qed.

Lemma text_bytes_cons a l : text_bytes (a :: l) = zlen a + text_bytes l.
Proof. unfold text_bytes. cbn [concat]. by rewrite zlen_app. Qed.

(** ** What the readers charge *)
Definition costs {A} (m : M budget A) (r p b : Z) : Prop :=
  forall s a s', m s = (Ok a, s') -> s' = mkBudget (b_limits s) (b_rows s + r) (b_properties s + p) (b_bytes s + b).

Lemma costs_eq {A} (m : M budget A) r p b r' p' b' : costs m r p b -> r = r' -> p = p' -> b = b' -> costs m r' p' b'.
Proof. by intros H -> -> ->. Qed.

Lemma costs_ret {A} (a : A) : costs (mret a) 0 0 0.
Proof. intros s x s' [= _ <-]. destruct s. cbn. by rewrite !Z.add_0_r. Qed.

Lemma costs_bind {A B} (m : M budget A) (k : A -> M budget B) r p b r' p' b' :
  costs m r p b -> (forall a, costs (k a) r' p' b') -> costs (m ≫= k) (r + r') (p + p') (b + b').
Proof. intros Hm Hk s x s' (a & s1 & ->%Hm & ->%Hk)%bind_inv. cbn. by rewrite !Z.add_assoc. Qed.

Lemma costs_guard {A} (c : bool) code (m : M budget A) r p b : costs m r p b -> costs (if c then lift (reject code) else m) r p b.
Proof. intros H. destruct c; [|done]. intros s a s' E. discriminate E. Qed.

Lemma costs_ensure {A} (c : bool) code (m : M budget A) r p b : costs m r p b -> costs (if c then m else lift (reject code)) r p b.
Proof. intros H. destruct c; [done|]. intros s a s' E. discriminate E. Qed.

Lemma costs_rows n : costs (addRows n) n 0 0.
Proof. intros s a s'. unfold addRows. cbn. intros [= _ <-]. by rewrite !Z.add_0_r. Qed.
Lemma costs_properties n : costs (addProperties n) 0 n 0.
Proof. intros s a s'. unfold addProperties. cbn. intros [= _ <-]. by rewrite !Z.add_0_r. Qed.
Lemma costs_bytes n : costs (addBytes n) 0 0 n.
Proof. intros s a s'. unfold addBytes. cbn. intros [= _ <-]. by rewrite !Z.add_0_r. Qed.

Lemma costs_then {A B} (m : M budget A) (k : A -> M budget B) r p b : costs m r p b -> (forall a, costs (k a) 0 0 0) -> costs (m ≫= k) r p b.
Proof. intros Hm Hk. eapply costs_eq; [by eapply costs_bind|lia..]. Qed.

Lemma costs_text v maximum allowEmpty ascii : costs (text v maximum allowEmpty ascii) 0 0 (zlen v).
Proof. unfold text. apply costs_guard, costs_then; [apply costs_bytes|intros; apply costs_ret]. Qed.
Lemma costs_name v allowEmpty : costs (metadataName v allowEmpty) 0 0 (zlen v).
Proof. apply costs_text. Qed.
Lemma costs_integer v : costs (integer v) 0 0 (zlen v).
Proof. unfold integer. apply costs_ensure, costs_then; [apply costs_bytes|intros; apply costs_guard, costs_ret]. Qed.
Lemma costs_flag v : costs (flag v) 0 0 (zlen v).
Proof. unfold flag. apply costs_then; [apply costs_text|intros; apply costs_guard, costs_ret]. Qed.

Create HintDb costs.
#[export] Hint Resolve costs_text costs_name costs_integer costs_flag costs_properties costs_rows : costs.

(** Add up the reads of a row. *)
Ltac charge :=
  eapply costs_eq;
  [repeat first [apply costs_ret | apply costs_guard | eapply costs_bind; [solve [eauto with costs]|intros ?]]
  |done|done|unfold type_columns, indirect_columns, parameter_row_columns, function_columns; rewrite ?text_bytes_cons; change (text_bytes []) with 0; lia].

Lemma costs_type_row r : costs (snapshotTypeRow r) 0 15 (text_bytes (type_columns r)).
Proof. unfold snapshotTypeRow. charge. Qed.
Lemma costs_indirect_row r : costs (snapshotIndirectRow r) 0 3 (text_bytes (indirect_columns r)).
Proof. unfold snapshotIndirectRow. charge. Qed.
Lemma costs_parameter_row r : costs (snapshotParameterRow r) 0 13 (text_bytes (parameter_row_columns r)).
Proof. unfold snapshotParameterRow. charge. Qed.

Lemma costs_each {A B} (f : A -> M budget B) (columns : A -> list bytes) (n : Z) (rows : list A) :
  (forall a, costs (f a) 0 n (text_bytes (columns a))) -> (forall a, zlen (columns a) = n) ->
  costs (each f rows) 0 (zlen (rows ≫= columns)) (text_bytes (rows ≫= columns)).
Proof.
  intros Hf Hn. induction rows as [|a rows IH]; cbn [each]; [apply costs_ret|].
  eapply costs_eq; [eapply costs_bind; [apply Hf|intros ?]; eapply costs_then; [exact IH|intros; apply costs_ret]|done| |].
  - change ((a :: rows) ≫= columns) with (columns a ++ (rows ≫= columns)). rewrite zlen_app, Hn. done.
  - change ((a :: rows) ≫= columns) with (columns a ++ (rows ≫= columns)). by rewrite text_bytes_app.
Qed.

Lemma costs_types rows : costs (snapshotTypeRows rows) (zlen rows) (zlen (rows ≫= type_columns)) (text_bytes (rows ≫= type_columns)).
Proof.
  unfold snapshotTypeRows. eapply costs_eq; [eapply costs_bind; [apply costs_rows|intros ?; apply (costs_each _ type_columns 15); [apply costs_type_row|done]]|apply Z.add_0_r|apply Z.add_0_l|apply Z.add_0_l].
Qed.
Lemma costs_indirects rows : costs (snapshotIndirectRows rows) (zlen rows) (zlen (rows ≫= indirect_columns)) (text_bytes (rows ≫= indirect_columns)).
Proof.
  unfold snapshotIndirectRows. eapply costs_eq; [eapply costs_bind; [apply costs_rows|intros ?; apply (costs_each _ indirect_columns 3); [apply costs_indirect_row|done]]|apply Z.add_0_r|apply Z.add_0_l|apply Z.add_0_l].
Qed.
Lemma costs_parameters rows :
  costs (snapshotParameterRows rows) (zlen (rows_of rows)) (zlen (rows_of rows ≫= parameter_row_columns)) (text_bytes (rows_of rows ≫= parameter_row_columns)).
Proof.
  unfold snapshotParameterRows. destruct rows as [rows|]; [|apply costs_ret]. cbn [rows_of].
  eapply costs_eq; [eapply costs_bind; [apply costs_rows|intros ?; apply (costs_each _ parameter_row_columns 13); [apply costs_parameter_row|done]]|apply Z.add_0_r|apply Z.add_0_l|apply Z.add_0_l].
Qed.
Lemma costs_identity rows :
  costs (snapshotFunctionIdentity rows) (zlen (rows_of rows)) (zlen (rows_of rows ≫= function_columns)) (text_bytes (rows_of rows ≫= function_columns)).
Proof.
  unfold snapshotFunctionIdentity. destruct rows as [rows|]; [|apply costs_ret]. cbn [rows_of].
  destruct rows as [|row [|row2 rows]].
  - eapply costs_eq; [eapply costs_bind; [apply costs_rows|intros ?; apply costs_ret]|done..].
  - eapply costs_eq;
      [repeat first [apply costs_ret | apply costs_guard | eapply costs_bind; [solve [eauto with costs]|intros ?]]|done|done|].
    change ([row] ≫= function_columns) with (function_columns row). unfold function_columns. rewrite !text_bytes_cons. change (text_bytes []) with 0. lia.
  - intros s a s' (u & s1 & _ & H)%bind_inv. discriminate H.
Qed.

Lemma top_key_charge name present s k s' :
  topKey name present s = (Ok k, s') -> k = (if present then 1 else 0) /\
  s' = mkBudget (b_limits s) (b_rows s) (b_properties s) (b_bytes s + (if present then zlen name else 0)).
Proof.
  unfold topKey. destruct present.
  - intros (u & s1 & E%costs_bytes & H)%bind_inv. injection H as <- <-. split; [done|]. rewrite E. by rewrite !Z.add_0_r.
  - intros [= <- <-]. split; [done|]. destruct s. cbn. by rewrite Z.add_0_r.
Qed.

(** What the whole input charges. *)
Lemma snapshot_charge limits input sn b :
  snapshot input (mkBudget limits 0 0 0) = (Ok sn, b) ->
  b_rows b = input_rows input /\ b_properties b = zlen (table_names input) + zlen (all_columns input) /\
  b_bytes b = text_bytes (table_names input ++ all_columns input).
Proof.
  unfold snapshot. intros H. apply bind_inv in H as (k1 & s1 & [-> ->]%top_key_charge & H). apply bind_inv in H as (k2 & s2 & [-> ->]%top_key_charge & H).
  apply bind_inv in H as (k3 & s3 & [-> ->]%top_key_charge & H). apply bind_inv in H as (k4 & s4 & [-> ->]%top_key_charge & H).
  apply bind_inv in H as (u & s5 & ->%costs_properties & H). apply bind_inv in H as (id & s6 & ->%costs_identity & H).
  apply bind_inv in H as (ts & s7 & ->%costs_types & H). apply bind_inv in H as (irs & s8 & ->%costs_indirects & H).
  apply bind_inv in H as (ps & s9 & ->%costs_parameters & H). injection H as _ <-. cbn [b_rows b_properties b_bytes b_limits].
  unfold input_rows, table_names, all_columns. rewrite !text_bytes_app, !zlen_app, !text_bytes_cons. change (text_bytes []) with 0.
  destruct (in_FunctionNames input), (in_Parameters input); cbn [is_none negb]; rewrite ?text_bytes_cons; change (text_bytes []) with 0; unfold zlen; cbn [length]; split_and!; lia.
Qed.

(** ** The edges *)

(** The references a type has, and the one a parameter has: a table or structure its type, a
    scalar the field it is like or the type of that name, if there is one. *)
Definition type_edges (t : TypeNode) : Z := zlen (filter (fun f => ref_Kind (mf_Reference f) <> KScalar) (tn_Fields t)).

Definition parameter_edges (g : Graph) (p : MetadataParameter) : Z :=
  match pr_Kind (mp_Reference p) with
  | PException => 0
  | PScalar =>
      if negb (isEmpty (mp_FieldPath p)) then 1
      else if negb (isEmpty (mp_AssociatedType p)) && bool_decide (is_Some (g_Nodes g !! mp_AssociatedType p)) then 1 else 0
  | _ => 1
  end.

Definition sumZ_with {A} (f : A -> Z) (l : list A) : Z := foldr (fun a n => f a + n) 0 l.

Lemma sumZ_with_permutation {A} (f : A -> Z) l l' : l ≡ₚ l' -> sumZ_with f l = sumZ_with f l'.
Proof. unfold sumZ_with. induction 1; cbn in *; lia. Qed.

Lemma sumZ_with_ext {A B} (f : A -> Z) (h : B -> A) (k : B -> Z) l : (forall b, b ∈ l -> f (h b) = k b) -> sumZ_with f (map h l) = sumZ_with k l.
Proof. unfold sumZ_with. induction l as [|b l IH]; intros H; cbn; [done|]. rewrite H by left. rewrite IH; [done|]. intros b' Hb. apply H. by right. Qed.

(** What a step over the parameters adds to the edges. *)
Definition adds {A} (m : M pstate A) (n : Z) : Prop := forall s a s', m s = (Ok a, s') -> ps_edges s' = ps_edges s + n.

Lemma adds_ret {A} (a : A) : adds (mret a) 0.
Proof. intros s x s' [= _ <-]. lia. Qed.
Lemma adds_lift {A} (m : res A) : adds (lift m) 0.
Proof. intros s x s' H. unfold lift in H. injection H as _ <-. lia. Qed.
Lemma adds_bind {A B} (m : M pstate A) (k : A -> M pstate B) n n' : adds m n -> (forall a, adds (k a) n') -> adds (m ≫= k) (n + n').
Proof. intros Hm Hk s x s' (a & s1 & H1%Hm & H2%Hk)%bind_inv. lia. Qed.
Lemma adds_skip {A B} (m : M pstate A) (k : A -> M pstate B) n : adds m 0 -> (forall a, adds (k a) n) -> adds (m ≫= k) n.
Proof. intros Hm Hk s x s' (a & s1 & H1%Hm & H2%Hk)%bind_inv. lia. Qed.
Lemma adds_unless c code : adds (unless c code) 0.
Proof. unfold unless. destruct c; [apply adds_ret|apply adds_lift]. Qed.
Lemma adds_found {A} (o : option A) code : adds (found o code) 0.
Proof. unfold found. destruct o; [apply adds_ret|apply adds_lift]. Qed.
Lemma adds_root x : adds (addRoot x) 0.
Proof. intros s a s' [= _ <-]. case_bool_decide; cbn; lia. Qed.
Lemma adds_consume key : adds (consume key) 0.
Proof. intros s a s' [= _ <-]. cbn. lia. Qed.
Lemma adds_count : adds countEdge 1.
Proof. intros s a s' [= _ <-]. done. Qed.
Lemma adds_check limits : adds (checkEdges limits) 0.
Proof. intros s a s' H. unfold checkEdges in H. injection H as _ <-. lia. Qed.

#[export] Hint Resolve adds_ret adds_lift adds_unless adds_found adds_root adds_consume adds_check : costs.

Ltac skip := repeat (eapply adds_skip; [solve [eauto with costs]|intros ?]).

Section Edges.
Context (byName : gmap bytes provNode) (fbn : gmap bytes (gmap bytes provField)) (indirect : gmap bytes indirectRow) (limits : Limits).

Lemma adds_mapped_row row : adds (mapped_row indirect row) 0.
Proof. unfold mapped_row. skip. apply adds_ret. Qed.
Lemma adds_mapped row : adds (mappedTarget byName indirect row) 0.
Proof. unfold mappedTarget. destruct (negb _); [apply adds_ret|]. skip. eapply adds_skip; [apply adds_mapped_row|intros ?]. skip. apply adds_ret. Qed.
Lemma adds_direct row : adds (directFieldReference byName fbn row) 0.
Proof. unfold directFieldReference. destruct (_ || _); [apply adds_ret|]. skip. apply adds_ret. Qed.

Lemma mapped_some row s o s' : mappedTarget byName indirect row s = (Ok o, s') -> is_none o = negb (has_dash (row_fieldPath row)).
Proof.
  unfold mappedTarget. destruct (has_dash _); cbn [negb]; [|by intros [= <- _]].
  intros (u & s1 & _ & H)%bind_inv. apply bind_inv in H as (m & s2 & _ & H). apply bind_inv in H as (t & s3 & _ & H).
  apply bind_inv in H as (u' & s4 & _ & H). by injection H as <- _.
Qed.
Lemma direct_some row s o s' :
  directFieldReference byName fbn row s = (Ok o, s') -> is_none o = isEmpty (row_fieldPath row) || has_dash (row_fieldPath row).
Proof.
  unfold directFieldReference. destruct (_ || _); [by intros [= <- _]|].
  intros (u & s1 & _ & H)%bind_inv. apply bind_inv in H as (m & s2 & _ & H). apply bind_inv in H as (t & s3 & _ & H).
  apply bind_inv in H as (r & s4 & _ & H). by injection H as <- _.
Qed.

Lemma empty_no_dash p : isEmpty p = true -> has_dash p = false.
Proof. unfold isEmpty. by destruct p. Qed.

(** The edges of a scalar parameter. *)
Definition scalar_edges (row : parameterRow) : Z :=
  if negb (isEmpty (row_fieldPath row)) then 1
  else if negb (isEmpty (row_tableName row)) && bool_decide (is_Some (byName !! row_tableName row)) then 1 else 0.

Lemma scalar_reference_edges row : adds (scalarReference byName fbn indirect limits row) (scalar_edges row).
Proof.
  intros s a s'. unfold scalarReference. intros (mapped & s1 & Hm & H)%bind_inv. pose proof (adds_mapped _ _ _ _ Hm) as E1. apply mapped_some in Hm.
  apply bind_inv in H as (direct & s2 & Hd & H). pose proof (adds_direct _ _ _ _ Hd) as E2. apply direct_some in Hd.
  apply bind_inv in H as (u1 & s3 & H1 & H). apply bind_inv in H as (u2 & s4 & H2 & H). apply bind_inv in H as (u3 & s5 & H3 & H).
  apply bind_inv in H as (u4 & s6 & E6%adds_check & H). injection H as _ <-.
  assert (ps_edges s3 = ps_edges s2 + (if is_none mapped then 0 else 1)) as E3.
  { destruct mapped; cbn [is_none]; [|by injection H1 as _ <-; lia]. apply bind_inv in H1 as (v & s0 & ?%adds_unless & ?%adds_count). lia. }
  assert (ps_edges s4 = ps_edges s3 + (if is_none direct then 0 else 1)) as E4.
  { destruct direct; cbn [is_none]; [|by injection H2 as _ <-; lia]. apply bind_inv in H2 as (v & s0 & ?%adds_unless & ?%adds_count). lia. }
  assert (ps_edges s5 = ps_edges s4 + (if is_none (namedTarget byName row mapped direct) then 0 else 1)) as E5.
  { destruct (namedTarget _ _ _ _); cbn [is_none]; [|by injection H3 as _ <-; lia]. apply bind_inv in H3 as (v & s0 & ?%adds_unless & H3).
    apply bind_inv in H3 as (v' & s0' & ?%adds_root & ?%adds_count). lia. }
  unfold namedTarget in E5. rewrite Hm, Hd in *. unfold scalar_edges. destruct (isEmpty (row_fieldPath row)) eqn:Ep.
  - rewrite (empty_no_dash _ Ep) in *. cbn [negb orb andb] in *. destruct (isEmpty (row_tableName row)); cbn [negb andb] in *; [cbn in E5; lia|].
    destruct (byName !! row_tableName row) as [n|]; cbn [is_none] in E5; [rewrite bool_decide_eq_true_2 by done; lia|rewrite bool_decide_eq_false_2 by (by intros [? ?]); lia].
  - destruct (has_dash (row_fieldPath row)); cbn [negb orb andb] in *; cbn in E5; lia.
Qed.

(** The edges of a parameter, by the kind of its reference. *)
Definition reference_edges (row : parameterRow) (k : param_kind) : Z :=
  match k with PException => 0 | PScalar => scalar_edges row | _ => 1 end.

Lemma parameter_reference_edges row s r s' :
  parameterReference byName fbn indirect limits row s = (Ok r, s') -> ps_edges s' = ps_edges s + reference_edges row (ppr_kind r).
Proof.
  unfold parameterReference. destruct (bytes_eqb _ (lit "X")); [intros [= <- <-]; cbn; lia|]. cbv zeta.
  match goal with |- (if ?c then _ else _) _ = _ -> _ => destruct c end; [|match goal with |- (if ?c then _ else _) _ = _ -> _ => destruct c end].
  - intros H. assert (ppr_kind r = PScalarTable) as ->.
    { unfold scalarTableReference in H. do 7 (apply bind_inv in H as (? & ? & _ & H)). by injection H as <- _. }
    cbn. revert H. apply (adds_skip (A := option provNode)); [apply adds_mapped|intros mapped]. apply adds_skip; [apply adds_direct|intros direct]. skip.
    eapply adds_skip; [destruct (namedTarget _ _ _ _); [eapply adds_skip; [apply adds_unless|intros; apply adds_root]|apply adds_ret]|intros ?].
    eapply (adds_bind _ _ 1 0); [apply adds_count|intros ?]. skip. apply adds_ret.
  - intros H. assert (ppr_kind r = PScalar) as ->.
    { unfold scalarReference in H. do 6 (apply bind_inv in H as (? & ? & _ & H)). by injection H as <- _. }
    exact (scalar_reference_edges _ _ _ _ H).
  - intros H. assert (reference_edges row (ppr_kind r) = 1) as ->.
    { unfold typeReference in H. do 8 (apply bind_inv in H as (? & ? & _ & H)). injection H as <- _. cbn. by case_match. }
    revert H. unfold typeReference. eapply adds_skip; [apply adds_unless|intros ?].
    eapply adds_skip; [unfold targetName; case_match; [|case_match]; [eapply adds_skip; [apply adds_mapped_row|intros; apply adds_ret]|skip; apply adds_ret|apply adds_ret]|intros ?].
    skip. eapply (adds_bind _ _ 1 0); [apply adds_count|intros ?]. skip. apply adds_ret.
Qed.

Definition provisional_edges (p : provParameter) : Z :=
  match ppr_kind (pp_reference p) with
  | PException => 0
  | PScalar =>
      if negb (isEmpty (pp_fieldPath p)) then 1
      else if negb (isEmpty (pp_associatedType p)) && bool_decide (is_Some (byName !! pp_associatedType p)) then 1 else 0
  | _ => 1
  end.

Lemma loop_edges rows seen s ps s' :
  parameter_loop byName fbn indirect limits rows seen s = (Ok ps, s') -> ps_edges s' = ps_edges s + sumZ_with provisional_edges ps.
Proof.
  revert seen s ps s'. induction rows as [|row rows IH]; intros seen s ps s'; cbn [parameter_loop]; [intros [= <- <-]; cbn; lia|].
  intros (u & s1 & H1%adds_unless & H)%bind_inv. apply bind_inv in H as (p & s2 & Hp & H). apply bind_inv in H as (ps' & s3 & H3%IH & H).
  injection H as <- <-. unfold provisionalParameter in Hp. apply bind_inv in Hp as (r & s4 & H4%parameter_reference_edges & Hp). injection Hp as <- <-.
  cbn [sumZ_with foldr]. fold (sumZ_with provisional_edges ps'). rewrite H3, H4, H1. unfold provisional_edges at 2, reference_edges, scalar_edges. cbn. lia.
Qed.
End Edges.

Lemma provisional_edge_count rows irs nodes limits values roots edges :
  provisionalParameters rows irs nodes limits = Ok (values, roots, edges) ->
  edges = node_edges nodes + sumZ_with (provisional_edges (by_name nodes)) values.
Proof.
  unfold provisionalParameters. intros H. ok_step H as ind Hi.
  destruct (parameter_loop _ _ _ _ _ _ _) as [[ps|e|] s] eqn:E; [|done..]. apply loop_edges in E. ok_step H as u Hu. apply Ok_inj in H. injection H as <- _ <-. done.
Qed.

Section Counts.
Context (limits : Limits) (g : Graph) (nodes : list provNode) (values : list provParameter) (comp : components).
Context (Hno : normalized limits g nodes values comp).

(** The types of the graph are those of the provisional list. *)
Lemma nodes_permutation : map_to_list (g_Nodes g) ≡ₚ map (fun p => (pn_name p.2, final_node nodes comp p.1 p.2)) (zip (seq 0 (length nodes)) nodes).
Proof.
  apply NoDup_Permutation; [apply NoDup_map_to_list| |].
  - apply (NoDup_fmap_1 fst). change (fst <$> ?l) with (map fst l). rewrite map_map. cbn [fst].
    rewrite <- (map_map snd pn_name), map_snd_zip_seq. apply (node_names _ _ _ _ _ Hno).
  - intros [x t]. rewrite elem_of_map_to_list, (accepted_node _ _ _ _ _ Hno), list_elem_of_In, in_map_iff. split.
    + intros (i & n & Hn & <- & ->). exists (i, n). split; [done|]. apply list_elem_of_In. by apply elem_of_zip_seq.
    + intros ([i n] & E & Hin%list_elem_of_In). injection E as <- <-. exists i, n. split; [by apply elem_of_zip_seq|done].
Qed.

Lemma final_type_edges i n : type_edges (final_node nodes comp i n) = ref_count (pn_fields n).
Proof.
  unfold type_edges, ref_count. cbn [tn_Fields final_node]. unfold zlen. f_equal. induction (pn_fields n) as [|f fs IH]; [done|]. cbn [map].
  rewrite !filter_cons. cbn [mf_Reference final_field]. rewrite (final_kind nodes comp). destruct (decide (is_scalar_ref (pf_reference f) = false)) as [E|E].
  - rewrite decide_True by (by apply not_scalar). cbn. by rewrite IH.
  - rewrite decide_False by (by rewrite not_scalar). exact IH.
Qed.

Lemma graph_type_edges : sumZ_with (fun p => type_edges p.2) (map_to_list (g_Nodes g)) = node_edges nodes.
Proof.
  rewrite (sumZ_with_permutation _ _ _ nodes_permutation).
  rewrite (sumZ_with_ext _ _ (fun p => ref_count (pn_fields p.2))) by (intros [i n] _; apply final_type_edges).
  rewrite <- (sumZ_with_ext (fun n => ref_count (pn_fields n)) snd _) by done. rewrite map_snd_zip_seq. unfold node_edges.
  change (zlen (filter _ ?l)) with (ref_count l). clear Hno. induction nodes as [|n l IH]; [done|]. cbn [map concat]. rewrite ref_count_app. cbn. by rewrite <- IH.
Qed.

Lemma graph_parameter_edges : sumZ_with (parameter_edges g) (g_Parameters g) = sumZ_with (provisional_edges (by_name nodes)) values.
Proof.
  rewrite (no_parameters _ _ _ _ _ Hno). unfold finalParameters. apply sumZ_with_ext. intros p _. unfold parameter_edges, provisional_edges.
  cbn [mp_Reference mp_FieldPath mp_AssociatedType]. unfold final_param_reference.
  assert (bool_decide (is_Some (g_Nodes g !! pp_associatedType p)) = bool_decide (is_Some (by_name nodes !! pp_associatedType p))) as E.
  { apply bool_decide_ext. rewrite <- (node_lookup _ _ _ _ _ Hno). symmetry. apply by_name_is_Some, (node_names _ _ _ _ _ Hno). }
  destruct (ppr_kind (pp_reference p)); cbn [pr_Kind]; try done. by rewrite E.
Qed.

Lemma edge_count : st_EdgeCount (g_Statistics g) = sumZ_with (fun p => type_edges p.2) (map_to_list (g_Nodes g)) + sumZ_with (parameter_edges g) (g_Parameters g).
Proof. destruct (no_provisional _ _ _ _ _ Hno) as (rows & irs & roots & H). apply provisional_edge_count in H. by rewrite H, graph_type_edges, graph_parameter_edges. Qed.
End Counts.

(** The statistics of a graph count its input and its types and references. *)
Record counts (input : Input) (g : Graph) : Prop := {
  ct_rows : st_RowCount (g_Statistics g) = input_rows input;
  ct_properties : st_PropertyCount (g_Statistics g) = zlen (table_names input) + zlen (all_columns input);
  ct_bytes : st_ByteCount (g_Statistics g) = text_bytes (table_names input ++ all_columns input);
  ct_nodes : st_NodeCount (g_Statistics g) = Z.of_nat (size (g_Nodes g));
  ct_edges : st_EdgeCount (g_Statistics g) = sumZ_with (fun p => type_edges p.2) (map_to_list (g_Nodes g)) + sumZ_with (parameter_edges g) (g_Parameters g) }.

(** The limits of the caller, or the defaults without any; none beyond the absolute ones. *)
Definition caller_limits (opts : option Options) : option Limits := match opts with Some o => opt_Limits o | None => None end.

(** C25: An accepted metadata graph is closed (every reference of a field or parameter names
    a type of the graph, of the kind the field says) and has exactly the types reachable
    from its roots. Its statistics are the numbers of rows, of columns and tables and of
    their bytes in the input, and of types and references in the graph; with the depth they
    are within the limits, which are those of the caller or else the defaults. *)
Theorem normalize_sound input opts g :
  Normalize input opts = Ok g ->
  (forall a t f, g_Nodes g !! a = Some t -> f ∈ tn_Fields t -> ref_Kind (mf_Reference f) <> KScalar ->
    exists t', g_Nodes g !! ref_TargetType (mf_Reference f) = Some t' /\ tn_Kind t' = ref_Kind (mf_Reference f)) /\
  (forall p, p ∈ g_Parameters g -> pr_TargetType (mp_Reference p) <> [] -> is_Some (g_Nodes g !! pr_TargetType (mp_Reference p))) /\
  (forall a, is_Some (g_Nodes g !! a) <-> exists r, r ∈ g_RootTypeNames g /\ rtc (refers_to g) r a) /\
  counts input g /\ g_Limits g = default defaultLimits (caller_limits opts) /\
  st_RowCount (g_Statistics g) <= MaxRows (g_Limits g) /\ st_NodeCount (g_Statistics g) <= MaxNodes (g_Limits g) /\
  st_EdgeCount (g_Statistics g) <= MaxEdges (g_Limits g) /\ st_MaximumDepth (g_Statistics g) <= MaxDepth (g_Limits g) /\
  st_PropertyCount (g_Statistics g) <= MaxProperties (g_Limits g) /\ st_ByteCount (g_Statistics g) <= MaxBytes (g_Limits g).
Proof.
  intros H. destruct (settles_inv _ _ _ (normalize_settles input opts) H) as (limits & nodes & values & comp & Hl & Hno & Hr & Hp & Hb & sn & b & Hsn & Er & Ep & Eb).
  split; [intros; by eapply reference_target|]. split; [intros; by eapply parameter_target|]. split; [intros a; exact (types_reached _ _ _ _ _ a Hno)|].
  destruct (snapshot_charge _ _ _ _ Hsn) as (Cr & Cp & Cb). rewrite <- Er in Cr. rewrite <- Ep in Cp. rewrite <- Eb in Cb.
  pose proof (no_node_count _ _ _ _ _ Hno) as Hn. split; [split; [done..| |by eapply edge_count]|].
  { rewrite Hn, (no_final _ _ _ _ _ Hno), final_nodes_size by (by eapply node_names). done. }
  rewrite (no_limits _ _ _ _ _ Hno), Hn, (no_depth _ _ _ _ _ Hno). split.
  { unfold resolveLimits in Hl. fold (caller_limits opts) in Hl. destruct (caller_limits opts) as [l|]; cbn; [|by apply Ok_inj in Hl].
    destruct (_ && _) in Hl; [by apply Ok_inj in Hl|done]. }
  split; [done|]. split; [apply (no_built _ _ _ _ _ Hno)|]. split; [apply Hno|]. split; [apply Hno|]. done.
Qed.

Lemma normalize_sound_witness :
  exists g, Normalize sample_input None = Ok g /\ counts sample_input g /\ g_Limits g = defaultLimits.
Proof.
  destruct sample_accepted as (g & t & E & _). exists g. split; [exact E|].
  destruct (normalize_sound sample_input None g E) as (_ & _ & _ & Hc & Hl & _). split; [exact Hc|exact Hl].
Defined.
