(* ===== verification/ParameterIndex.v ===== *)
(** Package [metadata], internal/metadata/parameter_index.go: the lookup over the parameters
    of one metadata graph, with its cache per namespace and its work counters.

    [any] is the type parameter [V] of the cached values.  The namespaces are maps the index
    alone reaches, so a map of maps holds them.

    The theorems: the index is created exactly for the graphs that name their function, keep
    their row budget and have distinct, non-empty parameter names; it finds exactly the
    parameters of the graph; every graph [Normalize] accepts for a function can be indexed;
    the cache returns what was stored last. *)
From stdpp Require Import base list numbers strings gmap sets.
From Stdlib Require Import ZArith Lia Strings.Byte.
From S2P Require Import Prelude Errors Text GraphComponents RecursiveMetadata.

Open Scope Z_scope.

Definition absoluteMaxParameterCount : Z := 100000.
Definition errParameterIndex : error := EMetadata ErrParameterIndex.

Record ParameterIndexWork : Type := mkWork {
  BroadClassificationNodeVisits : Z;
  BroadClassificationFieldVisits : Z;
  BroadValidationNodeVisits : Z;
  BroadValidationFieldVisits : Z;
  StrictDescriptorNodeVisits : Z
}.

Inductive WorkKind : Type :=
| BroadClassificationNode
| BroadClassificationField
| BroadValidationNode
| BroadValidationField
| StrictDescriptorNode.

Section Index.
Context {V : Type}.

Record ParameterIndex : Type := mkIndex {
  FunctionName : bytes;
  ParameterCount : Z;
  parameters : gmap bytes MetadataParameter;
  cacheable : bool;
  caches : gmap bytes (gmap bytes V);
  work : ParameterIndexWork
}.

(** The loop over the parameters of the graph. *)
Fixpoint index_parameters (ps : list MetadataParameter) (parameters : gmap bytes MetadataParameter)
  : res (gmap bytes MetadataParameter) :=
  match ps with
  | [] => Ok parameters
  | p :: ps =>
      if isEmpty (mp_Name p) then Err errParameterIndex
      else match parameters !! mp_Name p with
           | Some _ => Err errParameterIndex
           | None => index_parameters ps (<[mp_Name p := p]> parameters)
           end
  end.

Definition CreateParameterIndex (graph : Graph) : res ParameterIndex :=
  if negb (g_Version graph =? 1) then Err errParameterIndex
  else match g_FunctionIdentity graph with
       | None => Err errParameterIndex
       | Some identity =>
           if isEmpty (fid_Name identity) then Err errParameterIndex
           else
             let declaredMaximum := MaxRows (g_Limits graph) in
             if (declaredMaximum <? 0) || (absoluteMaxParameterCount <? declaredMaximum) then Err errParameterIndex
             else if declaredMaximum <? zlen (g_Parameters graph) then Err errParameterIndex
             else
               ps ← index_parameters (g_Parameters graph) ∅;
               Ok (mkIndex (fid_Name identity) (zlen (g_Parameters graph)) ps true ∅ (mkWork 0 0 0 0 0))
       end.

(** The method [Parameter]. *)
Definition lookupParameter (idx : ParameterIndex) (name : bytes) : option MetadataParameter := parameters idx !! name.

Definition CacheGet (idx : ParameterIndex) (namespace key : bytes) : option V :=
  if negb (cacheable idx) then None
  else match caches idx !! namespace with
       | None => None
       | Some ns => ns !! key
       end.

Definition with_caches (idx : ParameterIndex) (c : gmap bytes (gmap bytes V)) : ParameterIndex :=
  mkIndex (FunctionName idx) (ParameterCount idx) (parameters idx) (cacheable idx) c (work idx).

(** The index after the call, and the value it returns. *)
Definition CacheSet (idx : ParameterIndex) (namespace key : bytes) (value : V) : V * ParameterIndex :=
  if negb (cacheable idx) then (value, idx)
  else (value, with_caches idx (<[namespace := <[key := value]> (default ∅ (caches idx !! namespace))]> (caches idx))).

Definition RecordWork (idx : ParameterIndex) (kind : WorkKind) : ParameterIndex :=
  let w := work idx in
  mkIndex (FunctionName idx) (ParameterCount idx) (parameters idx) (cacheable idx) (caches idx)
    (match kind with
     | BroadClassificationNode => mkWork (int64 (BroadClassificationNodeVisits w + 1)) (BroadClassificationFieldVisits w)
         (BroadValidationNodeVisits w) (BroadValidationFieldVisits w) (StrictDescriptorNodeVisits w)
     | BroadClassificationField => mkWork (BroadClassificationNodeVisits w) (int64 (BroadClassificationFieldVisits w + 1))
         (BroadValidationNodeVisits w) (BroadValidationFieldVisits w) (StrictDescriptorNodeVisits w)
     | BroadValidationNode => mkWork (BroadClassificationNodeVisits w) (BroadClassificationFieldVisits w)
         (int64 (BroadValidationNodeVisits w + 1)) (BroadValidationFieldVisits w) (StrictDescriptorNodeVisits w)
     | BroadValidationField => mkWork (BroadClassificationNodeVisits w) (BroadClassificationFieldVisits w)
         (BroadValidationNodeVisits w) (int64 (BroadValidationFieldVisits w + 1)) (StrictDescriptorNodeVisits w)
     | StrictDescriptorNode => mkWork (BroadClassificationNodeVisits w) (BroadClassificationFieldVisits w)
         (BroadValidationNodeVisits w) (BroadValidationFieldVisits w) (int64 (StrictDescriptorNodeVisits w + 1))
     end).

Definition Diagnostics (idx : ParameterIndex) : ParameterIndexWork := work idx.

(** ** The index *)
Definition param_names (ps : list MetadataParameter) : list bytes := map mp_Name ps.

Lemma is_empty_nil s : isEmpty s = true <-> s = [].
Proof. unfold isEmpty, zlen. destruct s; cbn; [done|]. split; [|done]. intros H%Z.eqb_eq. lia. Qed.

(** The loop accepts exactly the lists of new, distinct, non-empty names. *)
Lemma index_parameters_ok ps m :
  NoDup (param_names ps) -> [] ∉ param_names ps -> (forall p, p ∈ ps -> m !! mp_Name p = None) ->
  index_parameters ps m = Ok (fill mp_Name (fun p => p) m ps).
Proof.
  revert m. induction ps as [|p ps IH]; intros m Hnd Hne Hm; [done|]. cbn in Hnd, Hne. apply NoDup_cons in Hnd as [Hp Hnd].
  apply not_elem_of_cons in Hne as [Hpe Hne]. cbn [index_parameters].
  destruct (isEmpty (mp_Name p)) eqn:E; [by apply is_empty_nil in E|]. rewrite (Hm p) by (by left).
  rewrite IH; [done|done|done|]. intros q Hq. rewrite lookup_insert_ne; [apply Hm; by right|].
  intros Eq. apply Hp. rewrite Eq. by apply list_elem_of_In, in_map, list_elem_of_In.
Qed.

Lemma index_parameters_inv ps m r :
  index_parameters ps m = Ok r ->
  NoDup (param_names ps) /\ ([] ∉ param_names ps) /\ (forall p, p ∈ ps -> m !! mp_Name p = None).
Proof.
  revert m. induction ps as [|p ps IH]; intros m H; cbn [index_parameters] in H.
  { split; [apply NoDup_nil_2|]. split; [apply not_elem_of_nil|]. by intros p ?%not_elem_of_nil. }
  destruct (isEmpty (mp_Name p)) eqn:E; [done|]. destruct (m !! mp_Name p) eqn:Em; [done|].
  destruct (IH _ H) as (Hnd & Hne & Hm). cbn.
  assert (Hp : mp_Name p ∉ param_names ps).
  { intros Hin%list_elem_of_In. apply in_map_iff in Hin as (q & Eq & Hq%list_elem_of_In). specialize (Hm q Hq).
    by rewrite Eq, lookup_insert_eq in Hm. }
  split; [by apply NoDup_cons|]. split.
  - apply not_elem_of_cons. split; [|done]. intros En. symmetry in En. apply is_empty_nil in En. congruence.
  - intros q [->|Hq]%elem_of_cons; [done|]. specialize (Hm q Hq). apply lookup_insert_None in Hm. by destruct Hm.
Qed.

(** The graphs that can be indexed. *)
Definition indexable (graph : Graph) : Prop :=
  g_Version graph = 1 /\ (exists id, g_FunctionIdentity graph = Some id /\ fid_Name id <> []) /\
  0 <= MaxRows (g_Limits graph) <= absoluteMaxParameterCount /\ zlen (g_Parameters graph) <= MaxRows (g_Limits graph) /\
  NoDup (param_names (g_Parameters graph)) /\ [] ∉ param_names (g_Parameters graph).

Lemma create_ok graph :
  indexable graph ->
  exists idx, CreateParameterIndex graph = Ok idx /\ ParameterCount idx = zlen (g_Parameters graph) /\
    forall name p, lookupParameter idx name = Some p <-> p ∈ g_Parameters graph /\ mp_Name p = name.
Proof.
  intros (Hv & (id & Hid & Hne) & Hr & Hc & Hnd & He). unfold CreateParameterIndex. rewrite Hv, Hid. cbn [Z.eqb Pos.eqb negb].
  destruct (isEmpty (fid_Name id)) eqn:Ei; [by apply is_empty_nil in Ei|].
  destruct (Z.ltb_spec (MaxRows (g_Limits graph)) 0); [lia|]. destruct (Z.ltb_spec absoluteMaxParameterCount (MaxRows (g_Limits graph))); [lia|].
  destruct (Z.ltb_spec (MaxRows (g_Limits graph)) (zlen (g_Parameters graph))); [lia|]. cbn [orb].
  rewrite index_parameters_ok by (done || (intros; apply lookup_empty)). rewrite ok_bind. eexists. split; [done|]. split; [done|].
  intros name p. unfold lookupParameter. cbn. rewrite lookup_fill_empty by done. split.
  - by intros (q & Hq & Hk & ->).
  - intros [Hp Hn]. by exists p.
Qed.

Lemma create_inv graph idx : CreateParameterIndex graph = Ok idx -> indexable graph.
Proof.
  unfold CreateParameterIndex. destruct (Z.eqb_spec (g_Version graph) 1) as [Hv|]; [|done]. cbn [negb].
  destruct (g_FunctionIdentity graph) as [id|] eqn:Hid; [|done]. destruct (isEmpty (fid_Name id)) eqn:Ei; [done|].
  destruct (Z.ltb_spec (MaxRows (g_Limits graph)) 0); [done|]. destruct (Z.ltb_spec absoluteMaxParameterCount (MaxRows (g_Limits graph))); [done|].
  destruct (Z.ltb_spec (MaxRows (g_Limits graph)) (zlen (g_Parameters graph))); [done|]. cbn [orb]. intros Hc. ok_step Hc as ps Hps.
  apply index_parameters_inv in Hps as (Hnd & Hne & _). split; [done|]. split; [|by split; [lia|]].
  exists id. split; [done|]. intros E. apply is_empty_nil in E. congruence.
Qed.

(** The cache of one index: [CacheSet] returns its value and changes one entry. *)
Lemma cache_set_get idx ns key v :
  cacheable idx = true ->
  fst (CacheSet idx ns key v) = v /\
  forall ns' key', CacheGet (snd (CacheSet idx ns key v)) ns' key' = if decide (ns' = ns /\ key' = key) then Some v else CacheGet idx ns' key'.
Proof.
  intros Hc. unfold CacheSet, CacheGet. rewrite Hc. split; [done|]. intros ns' key'. cbn. rewrite Hc. cbn.
  destruct (decide (ns' = ns)) as [->|Hns].
  - rewrite lookup_insert_eq. destruct (decide (key' = key)) as [->|Hk].
    + rewrite decide_True by done. apply lookup_insert_eq.
    + rewrite decide_False by tauto. rewrite lookup_insert_ne by done. by destruct (caches idx !! ns).
  - rewrite decide_False by tauto. by rewrite lookup_insert_ne.
Qed.

(** A parameter index is built exactly for the graphs with a named function and distinct
    named parameters, a lookup returns exactly the parameter of that name, and a cached
    value is returned for its namespace and key only. *)
Theorem parameter_index_exact graph :
  (indexable graph <-> exists idx, CreateParameterIndex graph = Ok idx) /\
  (forall idx, CreateParameterIndex graph = Ok idx ->
    (forall name p, lookupParameter idx name = Some p <-> p ∈ g_Parameters graph /\ mp_Name p = name) /\
    (forall ns key v, fst (CacheSet idx ns key v) = v /\
      forall ns' key', CacheGet (snd (CacheSet idx ns key v)) ns' key' = if decide (ns' = ns /\ key' = key) then Some v else None)).
Proof.
  split.
  - split; [intros (idx & H & _)%create_ok; by exists idx|]. intros [idx H]. by eapply create_inv.
  - intros idx H. pose proof (create_inv _ _ H) as Hi. destruct (create_ok graph Hi) as (idx' & H' & _ & Hl).
    rewrite H in H'. apply Ok_inj in H'. subst idx'. split; [done|].
    assert (Hc : cacheable idx = true /\ caches idx = ∅).
    { unfold CreateParameterIndex in H. repeat case_match; try done. ok_step H as ps Hps. apply Ok_inj in H. by subst idx. }
    destruct Hc as [Hc He]. intros ns key v. destruct (cache_set_get idx ns key v Hc) as [H1 H2]. split; [done|].
    intros ns' key'. rewrite H2. case_decide; [done|]. unfold CacheGet. by rewrite Hc, He, lookup_empty.
Qed.
End Index.
Arguments ParameterIndex V : clear implicits.

(** ** Every accepted graph of a function can be indexed *)
(** The row readers leave the count of rows to the tables. *)
Definition keeps_rows {A} (m : M budget A) : Prop := forall b, b_rows (snd (m b)) = b_rows b.

Lemma keeps_ret {A} (a : A) : keeps_rows (mret a).
Proof. done. Qed.
Lemma keeps_reject {A} code : keeps_rows (lift (reject code) : M budget A).
Proof. done. Qed.
Lemma keeps_bind_rows {A B} (m : M budget A) (k : A -> M budget B) :
  keeps_rows m -> (forall a, keeps_rows (k a)) -> keeps_rows (m ≫= k).
Proof.
  intros Hm Hk b. specialize (Hm b). unfold mbind, stm_bind. destruct (m b) as [[a|e|] b']; cbn in *; [|done|done].
  by rewrite (Hk a b').
Qed.
Lemma keeps_bytes n : keeps_rows (addBytes n).
Proof. done. Qed.
Lemma keeps_properties n : keeps_rows (addProperties n).
Proof. done. Qed.
Lemma keeps_text v n a b : keeps_rows (text v n a b).
Proof. unfold text. case_match; [apply keeps_reject|]. apply keeps_bind_rows; [apply keeps_bytes|]. intros. apply keeps_ret. Qed.
Lemma keeps_name v a : keeps_rows (metadataName v a).
Proof. apply keeps_text. Qed.
Lemma keeps_integer v : keeps_rows (integer v).
Proof. unfold integer. case_match; [|apply keeps_reject]. apply keeps_bind_rows; [apply keeps_bytes|]. intros. by case_match. Qed.
Lemma keeps_flag v : keeps_rows (flag v).
Proof. unfold flag. apply keeps_bind_rows; [apply keeps_text|]. intros. by case_match. Qed.

Lemma keeps_parameter_row row : keeps_rows (snapshotParameterRow row).
Proof.
  unfold snapshotParameterRow.
  repeat first [apply keeps_ret|apply keeps_reject|case_match
    |apply keeps_bind_rows; [first [apply keeps_properties|apply keeps_text|apply keeps_name|apply keeps_integer|apply keeps_flag]|]; intros].
Qed.

Lemma keeps_each {A B} (f : A -> M budget B) l : (forall a, keeps_rows (f a)) -> keeps_rows (each f l).
Proof.
  intros Hf. induction l as [|a l IH]; [apply keeps_ret|]. cbn [each]. apply keeps_bind_rows; [apply Hf|]. intros b.
  apply keeps_bind_rows; [apply IH|]. intros. apply keeps_ret.
Qed.

Lemma bind_state_inv {S A B} (m : M S A) (k : A -> M S B) s b s' :
  (m ≫= k) s = (Ok b, s') -> exists a s1, m s = (Ok a, s1) /\ k a s1 = (Ok b, s').
Proof. unfold mbind, stm_bind. destruct (m s) as [[a|e|] s1]; [|done|done]. intros H. by exists a, s1. Qed.

(** The rows of the parameters are counted. *)
Lemma snapshot_parameter_count limits input sn b :
  snapshot input (mkBudget limits 0 0 0) = (Ok sn, b) -> within limits (mkBudget limits 0 0 0) -> zlen (sn_parameters sn) <= b_rows b.
Proof.
  intros H Hw. unfold snapshot in H.
  assert (Hstep : forall A B (m : M budget A) (k : A -> M budget B) P b0 r b1, bounded limits m P -> within limits b0 ->
    (m ≫= k) b0 = (Ok r, b1) -> exists a b2, within limits b2 /\ P a /\ k a b2 = (Ok r, b1)).
  { intros A B m k P b0 r b1 Hm Hb (a & b2 & Ha & Hk)%bind_state_inv. specialize (Hm b0 Hb). rewrite Ha in Hm.
    destruct Hm as [Hb2 Hp]. by exists a, b2. }
  do 4 (eapply Hstep in H as (? & ? & ? & ? & H); [|apply bounded_topKey|done]). cbn beta in *.
  eapply Hstep in H as (? & ? & ? & _ & H); [|apply bounded_properties; lia|done].
  eapply Hstep in H as (? & ? & ? & _ & H); [|apply bounded_identity|done].
  eapply Hstep in H as (? & ? & ? & _ & H); [|unfold snapshotTypeRows; eapply bounded_bind; [apply bounded_rows|]; intros _ _; apply bounded_each; intros r; apply bounded_type_row|done].
  eapply Hstep in H as (? & b3 & Hb3 & _ & H); [|unfold snapshotIndirectRows; eapply bounded_bind; [apply bounded_rows|]; intros _ _; apply bounded_each; intros r; apply bounded_indirect_row|done].
  apply bind_state_inv in H as (ps & b4 & Hps & H). injection H as <- <-. cbn [sn_parameters]. destruct Hb3 as (_ & Hr & _).
  unfold snapshotParameterRows in Hps. destruct (in_Parameters input) as [values|]; [|injection Hps as <- <-; unfold zlen; cbn; lia].
  apply bind_state_inv in Hps as (u & b5 & Hu & Hps).
  pose proof (keeps_each snapshotParameterRow values keeps_parameter_row b5) as Hk. rewrite Hps in Hk. cbn in Hk. rewrite Hk.
  assert (Hl : length ps = length values).
  { clear -Hps. revert ps b5 Hps. induction values as [|v values IH]; intros ps b5 Hps; [by injection Hps as <- <-|].
    cbn [each] in Hps. apply bind_state_inv in Hps as (r & b6 & _ & Hps). apply bind_state_inv in Hps as (rs & b7 & Hrs & Hps).
    injection Hps as <- <-. cbn. f_equal. by eapply IH. }
  unfold addRows in Hu. injection Hu as Hu <-. cbn. unfold zlen. rewrite Hl. destruct Hr as [Hr _]. lia.
Qed.

(** The function, class and name of a parameter, of its row and of its input. *)
Definition param_key (p : MetadataParameter) : bytes * bytes * bytes := (mp_FunctionName p, mp_ParameterClass p, mp_Name p).
Definition row_key (r : parameterRow) : bytes * bytes * bytes := (row_functionName r, row_parameterClass r, row_parameterName r).
Definition input_key (q : ParameterRowInput) : bytes * bytes * bytes := (pi_FuncName q, pi_ParamClass q, pi_Parameter q).

(** The loop keeps the rows, whose names are distinct within a function. *)
Lemma parameter_loop_names bn fbn indirect limits rows seen s ps s' :
  parameter_loop bn fbn indirect limits rows seen s = (Ok ps, s') ->
  map (fun p => (pp_functionName p, pp_parameterClass p, pp_name p)) ps = map row_key rows /\
  NoDup (map (fun r => path_key (row_functionName r) (row_parameterName r)) rows) /\
  forall r, r ∈ rows -> path_key (row_functionName r) (row_parameterName r) ∉ seen.
Proof.
  revert seen s ps. induction rows as [|row rows IH]; intros seen s ps H; cbn [parameter_loop] in H.
  { injection H as <- <-. split; [done|]. split; [apply NoDup_nil_2|]. by intros r ?%not_elem_of_nil. }
  apply bind_state_inv in H as (u & s1 & Hu & H). apply bind_state_inv in H as (p & s2 & Hp & H).
  apply bind_state_inv in H as (ps' & s3 & Hps & H). injection H as <- <-.
  destruct (IH _ _ _ Hps) as (Hn & Hnd & Hseen). unfold unless in Hu. case_bool_decide as Hin; [done|].
  unfold provisionalParameter in Hp. apply bind_state_inv in Hp as (ref & s4 & _ & Hp). injection Hp as <- <-.
  cbn. split; [by rewrite Hn|]. split.
  - apply NoDup_cons. split; [|done]. intros Hk%list_elem_of_In. apply in_map_iff in Hk as (r & Er & Hr%list_elem_of_In).
    apply (Hseen r Hr). rewrite Er. set_solver.
  - intros r [->|Hr]%elem_of_cons; [done|]. specialize (Hseen r Hr). set_solver.
Qed.

(** One function: the names of the parameters are distinct. *)
Lemma one_function (id : FunctionIdentity) provided rows r1 r2 :
  validateFunctionIdentity (Some id) provided rows = Ok tt -> r1 ∈ rows -> r2 ∈ rows -> row_functionName r1 = row_functionName r2.
Proof.
  unfold validateFunctionIdentity. destruct (Nat.ltb_spec 1 (size (list_to_set (map row_functionName rows) : gset bytes))) as [|Hs]; [done|].
  intros _ H1 H2. set (names := list_to_set (map row_functionName rows) : gset bytes) in *.
  assert (Hin : forall r, r ∈ rows -> row_functionName r ∈ names).
  { intros r Hr. apply elem_of_list_to_set. by apply list_elem_of_In, in_map, list_elem_of_In. }
  destruct (decide (row_functionName r1 = row_functionName r2)) as [|Hne]; [done|]. exfalso.
  assert (H2' : ({[row_functionName r1; row_functionName r2]} : gset bytes) ⊆ names) by (pose proof (Hin r1 H1); pose proof (Hin r2 H2); set_solver).
  apply subseteq_size in H2'. rewrite size_union, !size_singleton in H2' by set_solver. lia.
Qed.

Lemma names_distinct rows :
  (forall r1 r2, r1 ∈ rows -> r2 ∈ rows -> row_functionName r1 = row_functionName r2) ->
  NoDup (map (fun r => path_key (row_functionName r) (row_parameterName r)) rows) -> NoDup (map row_parameterName rows).
Proof.
  induction rows as [|r rows IH]; intros Hf Hnd; [apply NoDup_nil_2|]. cbn in *. apply NoDup_cons in Hnd as [Hr Hnd].
  apply NoDup_cons. split; [|apply IH; [intros; apply Hf; by right|done]].
  intros Hin%list_elem_of_In. apply in_map_iff in Hin as (q & Eq & Hq%list_elem_of_In). apply Hr.
  apply list_elem_of_In, in_map_iff. exists q. split; [|by apply list_elem_of_In]. rewrite Eq. f_equal.
  apply Hf; [by right|by left].
Qed.

(** What an accepted graph keeps of the rows it was made from. *)
Record made_from (input : Input) (g : Graph) (limits : Limits) (sn : Snapshot) (b : budget) : Prop := {
  mk_limits : 0 <= MaxRows limits <= absoluteMaxParameterCount /\ within limits (mkBudget limits 0 0 0);
  mk_snapshot : snapshot input (mkBudget limits 0 0 0) = (Ok sn, b);
  mk_graph : g_Version g = 1 /\ g_Limits g = limits /\ g_FunctionIdentity g = sn_identity sn;
  mk_identity : validateFunctionIdentity (sn_identity sn) (negb (is_none (in_FunctionNames input))) (sn_parameters sn) = Ok tt;
  mk_parameters : map param_key (g_Parameters g) = map row_key (sn_parameters sn);
  mk_distinct : NoDup (map (fun r => path_key (row_functionName r) (row_parameterName r)) (sn_parameters sn)) }.

Lemma normalize_made input opts g : Normalize input opts = Ok g -> exists limits sn b, made_from input g limits sn b.
Proof.
  intros H. unfold Normalize in H. ok_step H as limits Hlim.
  assert (Hl : 0 <= MaxRows limits <= absoluteMaxParameterCount /\ within limits (mkBudget limits 0 0 0)).
  { revert Hlim. unfold resolveLimits, limit_ok, within, absoluteMaxParameterCount. cbn.
    destruct (match opts with Some o => opt_Limits o | None => None end) as [l|]; [|intros <-%Ok_inj; done].
    destruct (_ && _) eqn:E; [|done]. intros <-%Ok_inj. rewrite !andb_true_iff, !Z.leb_le in E. cbn. intuition lia. }
  destruct (snapshot input (mkBudget limits 0 0 0)) as [[sn|e|] b] eqn:Esn; [|done|done]. exists limits, sn, b.
  unfold normalize_rows in H. ok_step H as u Hu. ok_step H as built Hb. cbv zeta in H. ok_step H as u' Hv. ok_step H as pr Hpr.
  destruct pr as [[values proots] edges]. ok_step H as roots Hr. ok_step H as comp Hc.
  destruct (reach_types _ _ _ _) as [r|]; [|done]. case_match; [done|]. ok_step H as cs Hcs. apply Ok_inj in H. subst g.
  unfold provisionalParameters in Hpr. ok_step Hpr as indirect Hi.
  destruct (parameter_loop _ _ _ _ _ _ _) as [[ps|e|] s] eqn:El; [|done|done]. ok_step Hpr as u'' Hch. apply Ok_inj in Hpr. injection Hpr as <- <- <-.
  destruct (parameter_loop_names _ _ _ _ _ _ _ _ _ El) as (Hpn & Hnd & _). destruct u.
  split; cbn; try done. rewrite <- Hpn. unfold finalParameters. by rewrite map_map.
Qed.

Lemma made_indexable input g limits sn b id :
  made_from input g limits sn b -> g_FunctionIdentity g = Some id -> fid_Name id <> [] -> indexable g.
Proof.
  intros [[Hl Hw] Esn (Hv & Hlim & Hgi) Hu Hp Hnd] Hid Hne. pose proof (bounded_snapshot limits input _ Hw) as Hs. rewrite Esn in Hs.
  pose proof (snapshot_parameter_count limits input sn b Esn Hw) as Hcount. destruct Hs as [(_ & Hrows & _) [_ Hnames]].
  assert (Hmap : param_names (g_Parameters g) = map row_parameterName (sn_parameters sn)).
  { apply (f_equal (map snd)) in Hp. by rewrite !map_map in Hp. }
  assert (Hlen : zlen (g_Parameters g) = zlen (sn_parameters sn)).
  { apply (f_equal length) in Hp. rewrite !length_map in Hp. unfold zlen. congruence. }
  split; [done|]. split; [by exists id|]. rewrite Hlim, Hlen, Hmap. split; [lia|]. split; [lia|]. split.
  - apply names_distinct; [|done]. intros r1 r2. rewrite <- Hgi, Hid in Hu. by eapply one_function.
  - intros Hin%list_elem_of_In. apply in_map_iff in Hin as (r1 & Er & Hr1%list_elem_of_In). rewrite Forall_forall in Hnames. by apply (Hnames r1).
Qed.

(** Every graph the normaliser accepts for a named function can be indexed, and the index
    finds exactly its parameters by name: what one component produces meets the precondition
    of the other. *)
Theorem normalized_indexable (V : Type) input opts g id :
  Normalize input opts = Ok g -> g_FunctionIdentity g = Some id -> fid_Name id <> [] ->
  exists idx : ParameterIndex V, CreateParameterIndex g = Ok idx /\ ParameterCount idx = zlen (g_Parameters g) /\
    forall name p, lookupParameter idx name = Some p <-> p ∈ g_Parameters g /\ mp_Name p = name.
Proof. intros (limits & sn & b & H)%normalize_made Hid Hne. apply create_ok. by eapply made_indexable. Qed.

(** The readers return the texts they are given, so the rows are those of the input. *)
Lemma text_inv v n e a b s b' : text v n e a b = (Ok s, b') -> s = v.
Proof. unfold text. destruct (_ || _); [done|]. intros (u & b1 & _ & H)%bind_state_inv. by injection H as <- <-. Qed.

Lemma parameter_row_key q b r b' : snapshotParameterRow q b = (Ok r, b') -> row_key r = input_key q.
Proof.
  unfold snapshotParameterRow. intros (u & b0 & _ & H)%bind_state_inv. apply bind_state_inv in H as (pc & b1 & Hpc%text_inv & H).
  destruct (negb _) in H; [done|]. apply bind_state_inv in H as (it & b2 & _ & H). destruct (_ && _) in H; [done|]. apply bind_state_inv in H as (o & b3 & _ & H).
  apply bind_state_inv in H as (d & b4 & _ & H). apply bind_state_inv in H as (pt & b5 & _ & H). apply bind_state_inv in H as (po & b6 & _ & H).
  apply bind_state_inv in H as (fn & b7 & Hfn%text_inv & H). apply bind_state_inv in H as (pn & b8 & Hpn%text_inv & H).
  do 5 (apply bind_state_inv in H as (? & ? & _ & H)). injection H as <- <-. unfold row_key, input_key. cbn. by rewrite Hpc, Hfn, Hpn.
Qed.

Lemma snapshot_parameter_keys input b sn b' :
  snapshot input b = (Ok sn, b') -> map row_key (sn_parameters sn) = map input_key (default [] (in_Parameters input)).
Proof.
  unfold snapshot. intros H. do 8 (apply bind_state_inv in H as (? & ? & _ & H)). apply bind_state_inv in H as (ps & b4 & Hps & H). injection H as <- <-.
  cbn [sn_parameters]. unfold snapshotParameterRows in Hps. destruct (in_Parameters input) as [values|]; cbn; [|by injection Hps as <- <-].
  apply bind_state_inv in Hps as (u & b5 & _ & Hps). clear -Hps. revert ps b5 Hps.
  induction values as [|v values IH]; intros ps b5 Hps; [by injection Hps as <- <-|].
  cbn [each] in Hps. apply bind_state_inv in Hps as (r & b6 & Hr%parameter_row_key & Hps). apply bind_state_inv in Hps as (rs & b7 & Hrs & Hps).
  injection Hps as <- <-. cbn. rewrite Hr. f_equal. by eapply IH.
Qed.

(** The rows of a graph with a function belong to it. *)
Lemma identity_rows_named id provided rows r : validateFunctionIdentity (Some id) provided rows = Ok tt -> r ∈ rows -> row_functionName r = fid_Name id.
Proof.
  intros Hv Hr. pose proof (one_function id provided rows) as Hone. unfold validateFunctionIdentity in Hv.
  set (names := list_to_set (map row_functionName rows) : gset bytes) in *.
  assert (Hin : row_functionName r ∈ names) by (apply elem_of_list_to_set, list_elem_of_In, in_map, list_elem_of_In; done).
  destruct (Nat.ltb_spec 1 (size names)); [done|].
  assert (Hs : size names = 1%nat). { destruct (size names) as [|n] eqn:E; [apply size_empty_inv in E; set_solver|lia]. }
  rewrite Hs in Hv. cbn [Nat.eqb andb] in Hv. destruct (bool_decide (fid_Name id ∈ names)) eqn:E; [|done]. apply bool_decide_eq_true in E.
  apply size_1_elem_of in Hs as [x Hx]. clearbody names. rewrite Hx in Hin, E. apply elem_of_singleton in Hin, E. congruence.
Qed.

(** The parameters of an accepted graph of a function are the rows of the input, all of that function. *)
Lemma normalize_parameters input opts g id :
  Normalize input opts = Ok g -> g_FunctionIdentity g = Some id ->
  map param_key (g_Parameters g) = map input_key (default [] (in_Parameters input)) /\
  Forall (fun q => pi_FuncName q = fid_Name id) (default [] (in_Parameters input)).
Proof.
  intros (limits & sn & b & [_ Esn (_ & _ & Hgi) Hu Hp _])%normalize_made Hid. apply snapshot_parameter_keys in Esn. split; [congruence|].
  rewrite <- Hgi, Hid in Hu. apply Forall_forall. intros q Hq.
  assert (Hin : input_key q ∈ map row_key (sn_parameters sn)) by (rewrite Esn; by apply list_elem_of_In, in_map, list_elem_of_In).
  apply list_elem_of_In, in_map_iff in Hin as (r & Er & Hr%list_elem_of_In). apply (identity_rows_named _ _ _ _ Hu) in Hr.
  injection Er as Er _ _. congruence.
Qed.

(** ** Instances *)
Definition sample_function : Input :=
  mkInput (Some [mkFunctionRow (lit "RFC_PING") [] (lit "20240101") (lit "120000")]) [] []
    (Some [mkParameterRowInput (lit "RFC_PING") (lit "I") (lit "TEXT") [] [] (lit "C") (lit "1") (lit "0") (lit "10") (lit "0") [] [] (lit "X")]).

Lemma normalized_indexable_witness :
  exists g (idx : ParameterIndex unit), Normalize sample_function None = Ok g /\ CreateParameterIndex g = Ok idx /\ ParameterCount idx = zlen (g_Parameters g).
Proof.
  assert (H : match Normalize sample_function None with
              | Ok g => match g_FunctionIdentity g with Some id => negb (isEmpty (fid_Name id)) | None => false end
              | _ => false end = true) by (vm_compute; reflexivity).
  destruct (Normalize sample_function None) as [g| |] eqn:E; [|discriminate H..].
  destruct (g_FunctionIdentity g) as [id|] eqn:Ei; [|discriminate H].
  assert (Hne : fid_Name id <> []) by (intros En; rewrite En in H; discriminate H).
  destruct (normalized_indexable unit sample_function None g id E Ei Hne) as (idx & H1 & H2 & _). exists g, idx. auto.
Defined.
