(* ===== verification/MetadataGet.v ===== *)
(** Package [metadata], internal/metadata/metadata_get.go: the lookup RFC_METADATA_GET that
    returns functions with all their types, its timestamp variant, the hard-coded interface
    of both, and the normalisation of their answers.

    A row of a table is a Go [map[string]any]: a [gmap] to the dynamic values [any] of file
    Structure; the input and output of a call are maps to an [entry], a table of rows or any
    other value.  A nil entry, which a lookup of a missing key gives, is no value of a type
    switch.  All failures of the file are [ErrMetadataGet], but for the code the fallback
    reports.  The variables of the package are computed when it is initialised:
    [mustStructure] panics, so they are results.

    The theorems: the package initialises and its two interfaces describe their tables; a
    request row encodes with these descriptions; every normaliser is total; a timestamp batch
    is accepted exactly when it has one outcome for each name asked for; a structure read from
    rows of the bootstrap codec fits its codec; a recursive answer is the one asked for, agrees
    with the flat one, and can be indexed. *)
From stdpp Require Import base list numbers strings gmap sets pretty.
From Stdlib Require Import ZArith Lia Strings.Byte.
From S2P Require Import Prelude Errors Text ClassicRfc Structure Metadata Ddif GraphComponents RecursiveMetadata ParameterIndex.

Open Scope Z_scope.

Definition errMetadataGet : error := EMetadata ErrMetadataGet.

Definition maxMetadataRows : Z := 100000.
Definition maxRecursiveMetadataRows : Z := 20000.
Definition maxStructureFields : Z := 9999.
Definition maxTimestampNamesPerKind : Z := 512.
Definition remoteDdicResolutionErr : string := "REMOTE_DDIC_RESOLUTION_ERRORS".

(** [^[\x20-\x7e]{1,30}$] and [^[A-Z0-9_]{1,30}$] *)
Definition metadataNamePattern (v : bytes) : bool := (1 <=? zlen v) && (zlen v <=? 30) && forallb is_printable v.
Definition is_exception_char (b : byte) : bool := in_range 0x41 0x5a (b2z b) || is_digit b || (b2z b =? 0x5f).
Definition exceptionPattern (v : bytes) : bool := (1 <=? zlen v) && (zlen v <=? 30) && forallb is_exception_char v.

Definition mgMetadataName (v : bytes) : res bytes := if metadataNamePattern v then Ok v else Err errMetadataGet.

Definition mgLanguage (v : bytes) : res bytes :=
  match v with
  | [c] => if is_printable c then Ok v else Err errMetadataGet
  | _ => Err errMetadataGet
  end.

(** ** The hard-coded interface *)
Definition bootstrapParameter (name class tableName exid : string) (internalLength : Z) (optional : bool) : FunintParameter :=
  let exid := if bytes_eqb (lit exid) [] then (if bytes_eqb (lit class) (lit "T") then lit "u" else lit "C") else lit exid in
  mkFunintParameter (lit class) (lit name) (lit tableName) [] exid 0 0 (int32 internalLength) 0 [] [] optional.

Definition bootstrapField (table name : bytes) (position offset internalLength : Z) (exid : bytes) (decimals : Z) : RfcStructureField :=
  mkSField table name (int32 position) (int32 offset) (int32 internalLength) (int32 decimals) exid.

(** A returned error becomes a panic. *)
Definition mustStructure (name : bytes) (byteLength : Z) (fields : list RfcStructureField) : res RfcStructureDefinition :=
  match ValidateCodec (mkSDef name (int32 byteLength) fields) name with
  | Ok def => Ok def
  | _ => Panic
  end.

Definition f (table name : string) (pos off ln : Z) (exid : string) : RfcStructureField :=
  bootstrapField (lit table) (lit name) pos off ln (lit exid) 0.

(** The elements of a slice literal, evaluated in order. *)
Fixpoint each_of {A} (ms : list (res A)) : res (list A) :=
  match ms with
  | [] => Ok []
  | m :: ms => a ← m; l ← each_of ms; Ok (a :: l)
  end.

Definition bootstrapStructures : res (list RfcStructureDefinition) := each_of [
  mustStructure (lit "RFCFUNCTIONNAME") 90 [
    f "RFCFUNCTIONNAME" "FUNCTIONNAME" 1 0 60 "C";
    f "RFCFUNCTIONNAME" "BASXML_SUPPORTED" 2 60 2 "C";
    f "RFCFUNCTIONNAME" "UDAT" 3 62 16 "D";
    f "RFCFUNCTIONNAME" "UTIME" 4 78 12 "T"];
  mustStructure (lit "RFC_MD_DDIC_NAME") 120 [
    f "RFC_MD_DDIC_NAME" "TABNAME" 1 0 60 "C";
    f "RFC_MD_DDIC_NAME" "FIELDNAME" 2 60 60 "C"];
  mustStructure (lit "RFC_METADATA_PARAMS") 464 [
    f "RFC_METADATA_PARAMS" "FUNCNAME" 1 0 60 "C";
    f "RFC_METADATA_PARAMS" "PARAMCLASS" 2 60 2 "C";
    f "RFC_METADATA_PARAMS" "PARAMETER" 3 62 60 "C";
    f "RFC_METADATA_PARAMS" "TABNAME" 4 122 60 "C";
    f "RFC_METADATA_PARAMS" "FIELDNAME" 5 182 60 "C";
    f "RFC_METADATA_PARAMS" "EXID" 6 242 2 "C";
    f "RFC_METADATA_PARAMS" "POSITION" 7 244 4 "I";
    f "RFC_METADATA_PARAMS" "OFFSET" 8 248 4 "I";
    f "RFC_METADATA_PARAMS" "INTLENGTH" 9 252 4 "I";
    f "RFC_METADATA_PARAMS" "DECIMALS" 10 256 4 "I";
    f "RFC_METADATA_PARAMS" "DEFAULT" 11 260 42 "C";
    f "RFC_METADATA_PARAMS" "PARAMTEXT" 12 302 158 "C";
    f "RFC_METADATA_PARAMS" "OPTIONAL" 13 460 2 "C"];
  mustStructure (lit "RFC_METADATA_DDIC") 424 [
    f "RFC_METADATA_DDIC" "TYPENAME" 1 0 60 "C";
    f "RFC_METADATA_DDIC" "FIELDNAME" 2 60 60 "C";
    f "RFC_METADATA_DDIC" "COMPTYPE" 3 120 2 "C";
    f "RFC_METADATA_DDIC" "FIELDTYPE" 4 122 60 "C";
    f "RFC_METADATA_DDIC" "DATATYPE" 5 182 8 "C";
    f "RFC_METADATA_DDIC" "TABLENGTH" 6 190 12 "N";
    f "RFC_METADATA_DDIC" "TABLENGTH_UC" 7 202 12 "N";
    f "RFC_METADATA_DDIC" "DESCRIPTION" 8 214 120 "C";
    f "RFC_METADATA_DDIC" "DECIMALS" 9 334 12 "N";
    f "RFC_METADATA_DDIC" "INTTYPE" 10 346 2 "C";
    f "RFC_METADATA_DDIC" "OFFSET" 11 348 12 "N";
    f "RFC_METADATA_DDIC" "OFFSET_UC" 12 360 12 "N";
    f "RFC_METADATA_DDIC" "INTLEN" 13 372 12 "N";
    f "RFC_METADATA_DDIC" "INTLEN_UC" 14 384 12 "N";
    f "RFC_METADATA_DDIC" "TIMESTAMP" 15 396 28 "C"];
  mustStructure (lit "RFC_METADATA_DDIC_INDIRECT") 180 [
    f "RFC_METADATA_DDIC_INDIRECT" "TABNAME" 1 0 60 "C";
    f "RFC_METADATA_DDIC_INDIRECT" "FIELDNAME" 2 60 60 "C";
    f "RFC_METADATA_DDIC_INDIRECT" "FIELDTYPE" 3 120 60 "C"];
  mustStructure (lit "RFC_FUNC_ERROR") 630 [
    f "RFC_FUNC_ERROR" "FUNCNAME" 1 0 60 "C";
    f "RFC_FUNC_ERROR" "EXCEPTION" 2 60 60 "C";
    f "RFC_FUNC_ERROR" "EXCEPTION_TEXT" 3 120 510 "C"];
  mustStructure (lit "RFC_DD_ERROR") 690 [
    f "RFC_DD_ERROR" "TABNAME" 1 0 60 "C";
    f "RFC_DD_ERROR" "FIELDNAME" 2 60 60 "C";
    f "RFC_DD_ERROR" "EXCEPTION" 3 120 60 "C";
    f "RFC_DD_ERROR" "EXCEPTION_TEXT" 4 180 510 "C"]].

Definition bootstrapMetadata : RfcFunctionInterface :=
  mkFunctionInterface (lit "RFC_METADATA_GET") false (lit "R") false
    [bootstrapParameter "DEEP" "I" "" "" 1 true;
     bootstrapParameter "LANGUAGE" "I" "" "" 1 true;
     bootstrapParameter "GET_CLIENT_DEP_FIELDS" "I" "" "" 1 true;
     bootstrapParameter "GET_TIMESTAMPS" "I" "" "" 1 true;
     bootstrapParameter "FUNCTIONNAMES" "T" "RFCFUNCTIONNAME" "" 0 false;
     bootstrapParameter "DATATYPES" "T" "RFC_MD_DDIC_NAME" "" 0 false;
     bootstrapParameter "KNOWN_DATATYPES" "T" "RFC_MD_DDIC_NAME" "" 0 false;
     bootstrapParameter "PARAMETERS" "T" "RFC_METADATA_PARAMS" "" 0 false;
     bootstrapParameter "DATATYPESCONT" "T" "RFC_METADATA_DDIC" "" 0 false;
     bootstrapParameter "INDIRECTTYPES" "T" "RFC_METADATA_DDIC_INDIRECT" "" 0 false;
     bootstrapParameter "FUNC_ERRORS" "T" "RFC_FUNC_ERROR" "" 0 true;
     bootstrapParameter "DD_ERRORS" "T" "RFC_DD_ERROR" "" 0 true]
    [lit "INVALID_MODE"; lit "INTERNAL_ERROR"] 0.

Record RfcMetadataGetBootstrap : Type := mkBootstrap {
  bs_Metadata : RfcFunctionInterface; bs_Structures : gmap bytes RfcStructureDefinition
}.

Definition structureMap (defs : list RfcStructureDefinition) : gmap bytes RfcStructureDefinition :=
  foldl (fun m d => <[Structure.Name d := d]> m) ∅ defs.

Definition RfcMetadataGetBootstrapValue : res RfcMetadataGetBootstrap :=
  defs ← bootstrapStructures; Ok (mkBootstrap bootstrapMetadata (structureMap defs)).

Definition is_error_structure (d : RfcStructureDefinition) : bool :=
  bytes_eqb (Structure.Name d) (lit "RFC_FUNC_ERROR") || bytes_eqb (Structure.Name d) (lit "RFC_DD_ERROR").

Definition filterErrorStructures : res (list RfcStructureDefinition) :=
  defs ← bootstrapStructures; Ok (filter (fun d => is_error_structure d = true) defs).

Definition timestampBootstrapStructures : res (list RfcStructureDefinition) :=
  own ← each_of [
    mustStructure (lit "RFC_METADATA_FUNC_TIMESTAMP") 88 [
      f "RFC_METADATA_FUNC_TIMESTAMP" "FUNCNAME" 1 0 60 "C";
      f "RFC_METADATA_FUNC_TIMESTAMP" "UDAT" 2 60 16 "D";
      f "RFC_METADATA_FUNC_TIMESTAMP" "UTIME" 3 76 12 "T"];
    mustStructure (lit "RFC_METADATA_DDIC_TIMESTAMP") 88 [
      f "RFC_METADATA_DDIC_TIMESTAMP" "TYPENAME" 1 0 60 "C";
      f "RFC_METADATA_DDIC_TIMESTAMP" "TIMESTAMP" 2 60 28 "C"]];
  errs ← filterErrorStructures;
  Ok (own ++ errs).

Definition timestampBootstrapMetadata : RfcFunctionInterface :=
  mkFunctionInterface (lit "RFC_METADATA_GET_TIMESTAMP") false (lit "R") false
    [bootstrapParameter "FUNCTION_TIMESTAMPS" "T" "RFC_METADATA_FUNC_TIMESTAMP" "" 0 false;
     bootstrapParameter "DDIC_TIMESTAMPS" "T" "RFC_METADATA_DDIC_TIMESTAMP" "" 0 false;
     bootstrapParameter "FUNC_ERRORS" "T" "RFC_FUNC_ERROR" "" 0 true;
     bootstrapParameter "DD_ERRORS" "T" "RFC_DD_ERROR" "" 0 true]
    [] 0.

Definition RfcMetadataGetTimestampBootstrapValue : res RfcMetadataGetBootstrap :=
  defs ← timestampBootstrapStructures; Ok (mkBootstrap timestampBootstrapMetadata (structureMap defs)).

(** ** Requests *)
Abbreviation row := (gmap bytes any).

Inductive entry : Type :=
| ETable (rows : list row)
| EValue (v : any).

Abbreviation table_map := (gmap bytes entry).

Definition text_entry (s : string) : entry := EValue (VString (lit s)).

Definition baseInput (language : bytes) : table_map :=
  list_to_map [(lit "DEEP", text_entry "X"); (lit "LANGUAGE", EValue (VString language)); (lit "GET_TIMESTAMPS", text_entry "X");
    (lit "FUNCTIONNAMES", ETable []); (lit "DATATYPES", ETable []); (lit "KNOWN_DATATYPES", ETable []); (lit "PARAMETERS", ETable []);
    (lit "DATATYPESCONT", ETable []); (lit "INDIRECTTYPES", ETable []); (lit "FUNC_ERRORS", ETable []); (lit "DD_ERRORS", ETable [])].

(** The input with one row in one table, of the two lookups by name. *)
Definition default_language (language : bytes) : bytes := if bytes_eqb language [] then lit "E" else language.

Definition CreateFunctionInvocation (functionName language : bytes) : res table_map :=
  let language := default_language language in
  name ← mgMetadataName functionName;
  lang ← mgLanguage language;
  Ok (<[lit "FUNCTIONNAMES" := ETable [{[lit "FUNCTIONNAME" := VString name]}]]> (baseInput lang)).

Definition CreateStructureInvocation (structureName language : bytes) : res table_map :=
  let language := default_language language in
  name ← mgMetadataName structureName;
  lang ← mgLanguage language;
  Ok (<[lit "DATATYPES" := ETable [{[lit "TABNAME" := VString name]}]]> (baseInput lang)).

Fixpoint requested_loop (value : list bytes) (names : list bytes) (seen : gset bytes) : res (list bytes) :=
  match value with
  | [] => Ok names
  | raw :: value =>
      name ← mgMetadataName raw;
      if bool_decide (name ∈ seen) then Err errMetadataGet
      else requested_loop value (names ++ [name]) ({[name]} ∪ seen)
  end.

Definition requestedMetadataNames (value : list bytes) : res (list bytes) :=
  if maxTimestampNamesPerKind <? zlen value then Err errMetadataGet else requested_loop value [] ∅.

Record RfcMetadataGetTimestampInvocation : Type := mkTimestampInvocation {
  ti_Input : table_map; ti_FunctionNames : list bytes; ti_StructureNames : list bytes
}.

Definition CreateTimestampInvocation (functionNames structureNames : list bytes) : res RfcMetadataGetTimestampInvocation :=
  functions ← requestedMetadataNames functionNames;
  structures ← requestedMetadataNames structureNames;
  let funcRows := map (fun n => {[lit "FUNCNAME" := VString n]} : row) functions in
  let ddicRows := map (fun n => {[lit "TYPENAME" := VString n]} : row) structures in
  Ok (mkTimestampInvocation
        (list_to_map [(lit "FUNCTION_TIMESTAMPS", ETable funcRows); (lit "DDIC_TIMESTAMPS", ETable ddicRows);
                      (lit "FUNC_ERRORS", ETable []); (lit "DD_ERRORS", ETable [])])
        functions structures).

(** ** Columns of an answer *)
Definition mgRows (output : table_map) (name : string) (maximum : Z) : res (list row) :=
  match output !! lit name with
  | None => Err errMetadataGet
  | Some (ETable source) => if maximum <? zlen source then Err errMetadataGet else Ok source
  | Some (EValue _) => Err errMetadataGet
  end.

Definition mgText (r : row) (name : string) (maximum : Z) : res bytes :=
  match r !! lit name with
  | Some (VString s) => if (maximum <? zlen (runes s)) || existsb is_control s then Err errMetadataGet else Ok s
  | _ => Err errMetadataGet
  end.

(** [^\d+$] *)
Definition digitsOnly (s : bytes) : bool := numcDigits s.

Definition mgInt (r : row) (name : string) : res Z :=
  match r !! lit name with
  | Some (VInt (KInt | KInt32 | KInt64) n) => if 0 <=? n then Ok n else Err errMetadataGet
  | Some (VString s) =>
      if digitsOnly s && (dec_value s <=? 2 ^ 63 - 1) then Ok (dec_value s) else Err errMetadataGet
  | _ => Err errMetadataGet
  end.

Definition mgFlag (value : bytes) : res bool :=
  if negb (bytes_eqb value []) && negb (bytes_eqb value (lit "X")) then Err errMetadataGet
  else Ok (bytes_eqb value (lit "X")).

Definition mgFixedDigits (r : row) (name : string) (length : Z) : res bytes :=
  v ← mgText r name length;
  if negb (zlen v =? length) || negb (digitsOnly v) then Err errMetadataGet else Ok v.

Definition anyToString (v : option any) : bytes :=
  match v with
  | Some (VString n) => n
  | Some (VInt (KInt | KInt32 | KInt64) n) => lit (pretty n)
  | _ => []
  end.

Fixpoint matching_rows (rows : list row) (keyName : string) (objectName : bytes) : res bytes :=
  match rows with
  | [] => Ok []
  | r :: rows =>
      key ← mgText r keyName 30;
      if negb (bytes_eqb key objectName) then matching_rows rows keyName objectName
      else
        exception ← mgText r "EXCEPTION" 30;
        if negb (exceptionPattern exception) then Err errMetadataGet else Ok exception
  end.

Definition matchingError (output : table_map) (tableName keyName : string) (objectName : bytes) : res bytes :=
  errRows ← mgRows output tableName maxMetadataRows;
  matching_rows errRows keyName objectName.

(** ** The flat function descriptor *)
Record RfcMetadataGetFunctionResult : Type := mkFunctionResult { fn_Value : RfcFunctionInterface; fn_GenerationToken : bytes }.

Definition normalizedFunctionInternalLength (exid : bytes) (v : Z) : res Z :=
  if existsb (bytes_eqb exid) [lit "C"; lit "N"; lit "D"; lit "T"] then
    if negb (Z.land v 1 =? 0) then Err errMetadataGet else Ok (Z.quot v 2)
  else Ok v.

(** The last matching row and the number of matches; the nil map before the first. *)
Fixpoint identity_rows (name : bytes) (rows : list row) (identity : row) (matches : Z) : res (row * Z) :=
  match rows with
  | [] => Ok (identity, matches)
  | r :: rows =>
      fn ← mgText r "FUNCTIONNAME" 30;
      if bytes_eqb fn name then identity_rows name rows r (matches + 1) else identity_rows name rows identity matches
  end.

(** The columns of a parameter that is not an exception. *)
Definition parameter_columns (r : row) (parameterClass parameterName : bytes) (position : Z) : res FunintParameter :=
  exid ← mgText r "EXID" 1;
  tabName ← mgText r "TABNAME" 30;
  fieldName ← mgText r "FIELDNAME" 30;
  offset ← mgInt r "OFFSET";
  intLenRaw ← mgInt r "INTLENGTH";
  internalLength ← normalizedFunctionInternalLength exid intLenRaw;
  decimals ← mgInt r "DECIMALS";
  defaultValue ← mgText r "DEFAULT" 21;
  parameterText ← mgText r "PARAMTEXT" 79;
  optionalText ← mgText r "OPTIONAL" 1;
  optional ← mgFlag optionalText;
  Ok (mkFunintParameter parameterClass parameterName tabName fieldName exid (int32 position) (int32 offset) (int32 internalLength)
        (int32 decimals) defaultValue parameterText optional).

Fixpoint parameter_rows (name : bytes) (rows : list row) (parameters : list FunintParameter) (exceptions : list bytes) (names : gset bytes)
    : res (list FunintParameter * list bytes) :=
  match rows with
  | [] => Ok (parameters, exceptions)
  | r :: rows =>
      funcName ← mgText r "FUNCNAME" 30;
      if negb (bytes_eqb funcName name) then parameter_rows name rows parameters exceptions names
      else
        parameterClass ← mgText r "PARAMCLASS" 1;
        if negb (paramClassP parameterClass) then Err errMetadataGet
        else
          paramNameRaw ← mgText r "PARAMETER" 30;
          parameterName ← mgMetadataName paramNameRaw;
          if bool_decide (parameterName ∈ names) then Err errMetadataGet
          else
            position ← mgInt r "POSITION";
            let names := {[parameterName]} ∪ names in
            if bytes_eqb parameterClass (lit "X") then parameter_rows name rows parameters (exceptions ++ [parameterName]) names
            else
              p ← parameter_columns r parameterClass parameterName position;
              parameter_rows name rows (parameters ++ [p]) exceptions names
  end.

Definition function_token (date tm : bytes) : bytes := lit "function:" ++ date ++ lit ":" ++ tm.
Definition structure_token (timestamp : bytes) : bytes := lit "structure:" ++ timestamp.

Definition NormalizeFunctionResult (functionName : bytes) (output : table_map) : res RfcMetadataGetFunctionResult :=
  name ← mgMetadataName functionName;
  failure ← matchingError output "FUNC_ERRORS" "FUNCNAME" name;
  if negb (bytes_eqb failure []) then Err errMetadataGet
  else
    functionRows ← mgRows output "FUNCTIONNAMES" maxMetadataRows;
    '(identity, matches) ← identity_rows name functionRows ∅ 0;
    if negb (matches =? 1) then Err errMetadataGet
    else
      basxmlText ← mgText identity "BASXML_SUPPORTED" 1;
      basxml ← mgFlag basxmlText;
      parameterRows ← mgRows output "PARAMETERS" maxMetadataRows;
      '(parameters, exceptions) ← parameter_rows name parameterRows [] [] ∅;
      date ← mgFixedDigits identity "UDAT" 8;
      tm ← mgFixedDigits identity "UTIME" 6;
      Ok (mkFunctionResult (mkFunctionInterface name basxml (lit "R") false parameters exceptions 0) (function_token date tm)).

(** The zero value is returned beside an error. *)
Definition NormalizeFunction (functionName : bytes) (output : table_map) : res RfcFunctionInterface :=
  r ← NormalizeFunctionResult functionName output; Ok (fn_Value r).

(** ** The type closure *)
Definition table_of (output : table_map) (name : string) : res (list row) :=
  match output !! lit name with
  | Some (ETable src) => Ok src
  | _ => Err errMetadataGet
  end.

Fixpoint budget_loop (output : table_map) (tables : list string) (total : Z) : res unit :=
  match tables with
  | [] => Ok tt
  | name :: tables =>
      src ← table_of output name;
      let total := total + zlen src in
      if maxRecursiveMetadataRows <? total then Err errMetadataGet else budget_loop output tables total
  end.

Definition assertRecursiveMetadataRowBudget (output : table_map) : res unit :=
  budget_loop output ["FUNCTIONNAMES"; "DATATYPESCONT"; "INDIRECTTYPES"; "PARAMETERS"]%string 0.

Definition column (r : row) (name : string) : bytes := anyToString (r !! lit name).

Definition function_row (r : row) : FunctionRow :=
  mkFunctionRow (column r "FUNCTIONNAME") (column r "BASXML_SUPPORTED") (column r "UDAT") (column r "UTIME").

Definition type_row (r : row) : TypeRowInput :=
  mkTypeRowInput (column r "TYPENAME") (column r "FIELDNAME") (column r "COMPTYPE") (column r "FIELDTYPE") (column r "DATATYPE")
    (column r "TABLENGTH") (column r "TABLENGTH_UC") (column r "DESCRIPTION") (column r "DECIMALS") (column r "INTTYPE")
    (column r "OFFSET") (column r "OFFSET_UC") (column r "INTLEN") (column r "INTLEN_UC") (column r "TIMESTAMP").

Definition indirect_row (r : row) : IndirectRowInput :=
  mkIndirectRowInput (column r "TABNAME") (column r "FIELDNAME") (column r "FIELDTYPE").

Definition param_row (r : row) : ParameterRowInput :=
  mkParameterRowInput (column r "FUNCNAME") (column r "PARAMCLASS") (column r "PARAMETER") (column r "TABNAME") (column r "FIELDNAME")
    (column r "EXID") (column r "POSITION") (column r "OFFSET") (column r "INTLENGTH") (column r "DECIMALS") (column r "DEFAULT")
    (column r "PARAMTEXT") (column r "OPTIONAL").

Definition toRecursiveInput (output : table_map) : res Input :=
  fnRows ← table_of output "FUNCTIONNAMES";
  typeRows ← table_of output "DATATYPESCONT";
  indirectRows ← table_of output "INDIRECTTYPES";
  paramRows ← table_of output "PARAMETERS";
  Ok (mkInput (Some (map function_row fnRows)) (map type_row typeRows) (map indirect_row indirectRows) (Some (map param_row paramRows))).

(** The value of a call whose error is ignored: the zero value beside an error. *)
Definition ignore_err {A} (zero : A) (m : res A) : A := match m with Ok a => a | _ => zero end.
Definition text_or (r : row) (name : string) (maximum : Z) : bytes := ignore_err [] (mgText r name maximum).
Definition int_or (r : row) (name : string) : Z := ignore_err 0 (mgInt r name).

Definition utclong : bytes := lit "UTCLONG".

(** The number of relevant elements, [None] when one of them is not as required. *)
Fixpoint count_all {A} (relevant ok : A -> bool) (l : list A) (matches : Z) : option Z :=
  match l with
  | [] => Some matches
  | a :: l =>
      if negb (relevant a) then count_all relevant ok l matches
      else if ok a then count_all relevant ok l (matches + 1) else None
  end.

Definition utclong_parameter (p : FunintParameter) : bool :=
  negb (negb (bytes_eqb (ParameterClass p) (lit "C")) || negb (bytes_eqb (ClassicRfc.FieldName p) []) ||
        negb (bytes_eqb (ClassicRfc.Exid p) (lit "p")) || negb (ClassicRfc.InternalLength p =? 8) ||
        negb (ClassicRfc.Decimals p =? 0) || Optional p).

Definition utclong_row (functionName : bytes) (p : row) : bool :=
  negb (negb (bytes_eqb (text_or p "FUNCNAME" 30) functionName) || negb (bytes_eqb (text_or p "PARAMCLASS" 1) (lit "C")) ||
        negb (bytes_eqb (text_or p "FIELDNAME" 30) []) || negb (bytes_eqb (text_or p "EXID" 1) (lit "p")) ||
        negb (int_or p "INTLENGTH" =? 8) || negb (int_or p "DECIMALS" =? 0) || negb (bytes_eqb (text_or p "OPTIONAL" 1) [])).

(** A positive count. *)
Definition some_match (o : option Z) : bool := match o with Some n => negb (n =? 0) | None => false end.

Definition isCompleteUtclongScalarFallback (output : table_map) (descriptor : RfcFunctionInterface) (ddicErrors : list row) : bool :=
  match ddicErrors with
  | [e] =>
      if negb (bytes_eqb (text_or e "TABNAME" 30) utclong) || negb (bytes_eqb (text_or e "FIELDNAME" 30) []) ||
         negb (bytes_eqb (text_or e "EXCEPTION" 30) (lit "NOT_FOUND")) then false
      else if negb (some_match (count_all (fun p => bytes_eqb (ClassicRfc.TableName p) utclong) utclong_parameter (Parameters descriptor) 0))
      then false
      else
        match mgRows output "PARAMETERS" maxMetadataRows with
        | Ok parameterRows =>
            if negb (some_match (count_all (fun p => bytes_eqb (text_or p "TABNAME" 30) utclong) (utclong_row (fi_Name descriptor)) parameterRows 0))
            then false
            else
              let typeRows := ignore_err [] (mgRows output "DATATYPESCONT" maxMetadataRows) in
              let indirectRows := ignore_err [] (mgRows output "INDIRECTTYPES" maxMetadataRows) in
              if existsb (fun r => existsb (fun n => bytes_eqb (text_or r n 30) utclong) ["TYPENAME"; "FIELDTYPE"; "DATATYPE"]%string) typeRows
              then false
              else
                negb (existsb (fun r => bytes_eqb (text_or r "TABNAME" 30) utclong || bytes_eqb (text_or r "FIELDTYPE" 30) utclong) indirectRows)
        | _ => false
        end
  | _ => false
  end.

Record RfcMetadataGetRecursiveFunctionResult : Type := mkRecursiveResult { rec_Value : Graph; rec_GenerationToken : bytes }.

Definition NormalizeRecursiveFunctionResult (functionName : bytes) (output : table_map) : res RfcMetadataGetRecursiveFunctionResult :=
  name ← mgMetadataName functionName;
  _ ← assertRecursiveMetadataRowBudget output;
  flat ← NormalizeFunctionResult name output;
  functionErrors ← mgRows output "FUNC_ERRORS" maxMetadataRows;
  if negb (zlen functionErrors =? 0) then Err errMetadataGet
  else
    ddicErrors ← mgRows output "DD_ERRORS" maxMetadataRows;
    if negb (zlen ddicErrors =? 0) && negb (isCompleteUtclongScalarFallback output (fn_Value flat) ddicErrors)
    then reject remoteDdicResolutionErr
    else
      recursiveInput ← toRecursiveInput output;
      graph ← Normalize recursiveInput None;
      match g_FunctionIdentity graph with
      | None => Err errMetadataGet
      | Some identity =>
          if negb (bytes_eqb (fid_Name identity) name) then Err errMetadataGet
          else if negb (bytes_eqb (fid_GenerationToken identity) (fn_GenerationToken flat)) then Err errMetadataGet
          else Ok (mkRecursiveResult graph (fn_GenerationToken flat))
      end.

(** ** Structures *)
Record RfcMetadataGetStructureResult : Type := mkStructureResult { st_Value : RfcStructureDefinition; st_GenerationToken : bytes }.

Fixpoint rows_named (name : bytes) (rows matches : list row) : res (list row) :=
  match rows with
  | [] => Ok matches
  | r :: rows =>
      tn ← mgText r "TYPENAME" 30;
      rows_named name rows (if bytes_eqb tn name then matches ++ [r] else matches)
  end.

(** The variables of the loop over the rows of a structure. *)
Record layout_state : Type := mkLayoutState {
  ls_fields : list RfcStructureField; ls_names : gset bytes; ls_byteLength : Z; ls_timestamp : bytes; ls_previousEnd : Z
}.

(** One row; [end] is an [int]. *)
Definition structure_row (name : bytes) (index : Z) (r : row) (s : layout_state) : res layout_state :=
  candidateByteLength ← mgInt r "TABLENGTH_UC";
  if negb (ls_byteLength s =? -1) && negb (candidateByteLength =? ls_byteLength s) then Err errMetadataGet
  else
    candidateTimestamp ← mgFixedDigits r "TIMESTAMP" 14;
    if negb (bytes_eqb (ls_timestamp s) []) && negb (bytes_eqb candidateTimestamp (ls_timestamp s)) then Err errMetadataGet
    else
      fnRaw ← mgText r "FIELDNAME" 30;
      fieldName ← mgMetadataName fnRaw;
      if bool_decide (fieldName ∈ ls_names s) then Err errMetadataGet
      else
        componentType ← mgText r "COMPTYPE" 1;
        exid ← mgText r "INTTYPE" 1;
        if (negb (bytes_eqb componentType []) && negb (bytes_eqb componentType (lit "E"))) ||
           bytes_eqb exid (lit "u") || bytes_eqb exid (lit "h") || bytes_eqb exid (lit "v") then Err errMetadataGet
        else
          offset ← mgInt r "OFFSET_UC";
          internalLength ← mgInt r "INTLEN_UC";
          let end_ := int64 (offset + internalLength) in
          if (offset <? ls_previousEnd s) || (candidateByteLength <? end_) then Err errMetadataGet
          else
            decimals ← mgInt r "DECIMALS";
            Ok (mkLayoutState (ls_fields s ++ [bootstrapField name fieldName (index + 1) offset internalLength exid decimals])
                  ({[fieldName]} ∪ ls_names s) candidateByteLength candidateTimestamp end_).

Fixpoint structure_rows (name : bytes) (rows : list row) (index : Z) (s : layout_state) : res layout_state :=
  match rows with
  | [] => Ok s
  | r :: rows => s ← structure_row name index r s; structure_rows name rows (index + 1) s
  end.

Definition NormalizeStructureResult (structureName : bytes) (output : table_map) : res RfcMetadataGetStructureResult :=
  name ← mgMetadataName structureName;
  failure ← matchingError output "DD_ERRORS" "TABNAME" name;
  if negb (bytes_eqb failure []) then Err errMetadataGet
  else
    typeRows ← mgRows output "DATATYPESCONT" maxMetadataRows;
    matches ← rows_named name typeRows [];
    if zlen matches =? 0 then Err errMetadataGet
    else if maxStructureFields <? zlen matches then Err errMetadataGet
    else
      s ← structure_rows name matches 0 (mkLayoutState [] ∅ (-1) [] 0);
      descriptor ← ValidateCodec (mkSDef name (int32 (ls_byteLength s)) (ls_fields s)) name;
      Ok (mkStructureResult descriptor (structure_token (ls_timestamp s))).

Definition NormalizeStructure (structureName : bytes) (output : table_map) : res RfcStructureDefinition :=
  r ← NormalizeStructureResult structureName output; Ok (st_Value r).

(** ** Timestamps *)
Record RfcFunctionMetadataTimestamp : Type := mkFunctionTimestamp { ft_FunctionName : bytes; ft_Date : bytes; ft_Time : bytes; ft_Token : bytes }.
Record RfcStructureMetadataTimestamp : Type := mkStructureTimestamp { stt_StructureName : bytes; stt_Timestamp : bytes; stt_Token : bytes }.

Record RfcMetadataTimestampBatch : Type := mkBatch {
  tb_Functions : gmap bytes RfcFunctionMetadataTimestamp; tb_Structures : gmap bytes RfcStructureMetadataTimestamp;
  tb_FunctionErrors : gmap bytes bytes; tb_StructureErrors : gmap bytes bytes
}.

(** The key of a row: requested and without an outcome. *)
Definition fresh_key (requested outcomes : gset bytes) (r : row) (keyName : string) : res bytes :=
  raw ← mgText r keyName 30;
  name ← mgMetadataName raw;
  if negb (bool_decide (name ∈ requested)) then Err errMetadataGet
  else if bool_decide (name ∈ outcomes) then Err errMetadataGet
  else Ok name.

(** The three loops of the file: the key of a row, then its outcome. *)
Fixpoint outcome_rows {V : Type} (requested : gset bytes) (keyName : string) (outcome : row -> bytes -> res V) (rows : list row)
    (outcomes : gset bytes) (out : gmap bytes V) : res (gset bytes * gmap bytes V) :=
  match rows with
  | [] => Ok (outcomes, out)
  | r :: rows =>
      name ← fresh_key requested outcomes r keyName;
      v ← outcome r name;
      outcome_rows requested keyName outcome rows ({[name]} ∪ outcomes) (<[name := v]> out)
  end.

Definition function_timestamp (r : row) (functionName : bytes) : res RfcFunctionMetadataTimestamp :=
  date ← mgFixedDigits r "UDAT" 8;
  tm ← mgFixedDigits r "UTIME" 6;
  Ok (mkFunctionTimestamp functionName date tm (function_token date tm)).

Definition structure_timestamp (r : row) (structureName : bytes) : res RfcStructureMetadataTimestamp :=
  timestamp ← mgFixedDigits r "TIMESTAMP" 14;
  Ok (mkStructureTimestamp structureName timestamp (structure_token timestamp)).

Definition error_outcome (r : row) (objectName : bytes) : res bytes :=
  exception ← mgText r "EXCEPTION" 30;
  if negb (exceptionPattern exception) then Err errMetadataGet else Ok exception.

(** The outcomes are updated in place in the source: the new set is the first result. *)
Definition timestampErrorRows (output : table_map) (tableName keyName : string) (requested outcomes : gset bytes)
    : res (gset bytes * gmap bytes bytes) :=
  errRows ← mgRows output tableName (Z.of_nat (size requested));
  outcome_rows requested keyName error_outcome errRows outcomes ∅.

Fixpoint all_answered (names : list bytes) (outcomes : gset bytes) : res unit :=
  match names with
  | [] => Ok tt
  | name :: names => if negb (bool_decide (name ∈ outcomes)) then Err errMetadataGet else all_answered names outcomes
  end.

Definition setOf (names : list bytes) : gset bytes := list_to_set names.

Definition NormalizeTimestamps (functionNames structureNames : list bytes) (output : table_map) : res RfcMetadataTimestampBatch :=
  requestedFunctions ← requestedMetadataNames functionNames;
  requestedStructures ← requestedMetadataNames structureNames;
  let functionSet := setOf requestedFunctions in
  let structureSet := setOf requestedStructures in
  funcRows ← mgRows output "FUNCTION_TIMESTAMPS" (zlen requestedFunctions);
  '(functionOutcomes, functions) ← outcome_rows functionSet "FUNCNAME" function_timestamp funcRows ∅ ∅;
  structureRows ← mgRows output "DDIC_TIMESTAMPS" (zlen requestedStructures);
  '(structureOutcomes, structures) ← outcome_rows structureSet "TYPENAME" structure_timestamp structureRows ∅ ∅;
  '(functionOutcomes, functionErrors) ← timestampErrorRows output "FUNC_ERRORS" "FUNCNAME" functionSet functionOutcomes;
  '(structureOutcomes, structureErrors) ← timestampErrorRows output "DD_ERRORS" "TABNAME" structureSet structureOutcomes;
  _ ← all_answered requestedFunctions functionOutcomes;
  _ ← all_answered requestedStructures structureOutcomes;
  Ok (mkBatch functions structures functionErrors structureErrors).

(** ** Runs *)
Definition txt (s : string) : any := VString (lit s).
Definition cols (l : list (string * any)) : row := list_to_map (map (fun '(k, v) => (lit k, v)) l).
Definition tables (l : list (string * list row)) : table_map := list_to_map (map (fun '(k, v) => (lit k, ETable v)) l).

Definition ping_output : table_map := tables
  [("FUNC_ERRORS", []); ("DD_ERRORS", []); ("DATATYPESCONT", []); ("INDIRECTTYPES", []);
   ("FUNCTIONNAMES", [cols [("FUNCTIONNAME", txt "RFC_PING"); ("BASXML_SUPPORTED", txt ""); ("UDAT", txt "20240101"); ("UTIME", txt "120000")]]);
   ("PARAMETERS", [cols [("FUNCNAME", txt "RFC_PING"); ("PARAMCLASS", txt "I"); ("PARAMETER", txt "TEXT"); ("TABNAME", txt ""); ("FIELDNAME", txt "");
      ("EXID", txt "C"); ("POSITION", VInt KInt32 1); ("OFFSET", VInt KInt32 0); ("INTLENGTH", VInt KInt32 20); ("DECIMALS", VInt KInt32 0);
      ("DEFAULT", txt ""); ("PARAMTEXT", txt ""); ("OPTIONAL", txt "X")]])]%string.

Example recursive_run :
  match NormalizeRecursiveFunctionResult (lit "RFC_PING") ping_output with
  | Ok r => rec_GenerationToken r = lit "function:20240101:120000" /\ map mp_Name (g_Parameters (rec_Value r)) = [lit "TEXT"]
  | _ => False
  end.
Proof. vm_compute. auto. Qed.

Example flat_run :
  match NormalizeFunctionResult (lit "RFC_PING") ping_output with
  | Ok r => map ClassicRfc.InternalLength (Parameters (fn_Value r)) = [10]
  | _ => False
  end.
Proof. vm_compute. auto. Qed.

Definition bootstrap_ok : bool :=
  match RfcMetadataGetBootstrapValue, RfcMetadataGetTimestampBootstrapValue with Ok _, Ok _ => true | _, _ => false end.

Example bootstrap_run : bootstrap_ok = true.
Proof. vm_compute. auto. Qed.

(** ** Every operation ends *)
Create HintDb mg.

Lemma mg_name_total v : total (mgMetadataName v).
Proof. unfold mgMetadataName. by destruct (metadataNamePattern v). Qed.
Lemma mg_rows_total o n m : total (mgRows o n m).
Proof. unfold mgRows. destruct (o !! _) as [[rows|v]|]; [|done|done]. by destruct (_ <? _). Qed.
Lemma mg_text_total r n m : total (mgText r n m).
Proof. unfold mgText. destruct (r !! _) as [[s| | | |]|]; try done. by destruct (_ || _). Qed.
Lemma mg_int_total r n : total (mgInt r n).
Proof.
  unfold mgInt. destruct (r !! _) as [[s| | |k z|]|]; try done; [by destruct (_ && _)|].
  destruct k; try done; by destruct (0 <=? z).
Qed.
Lemma mg_flag_total v : total (mgFlag v).
Proof. unfold mgFlag. by destruct (_ && _). Qed.
#[local] Hint Resolve mg_name_total mg_rows_total mg_text_total mg_int_total mg_flag_total validate_total total_ok : mg.

Lemma mg_digits_total r n l : total (mgFixedDigits r n l).
Proof. unfold mgFixedDigits. apply total_bind; [auto with mg|]. intros v _. by destruct (_ || _). Qed.
#[local] Hint Resolve mg_digits_total : mg.

(** One bind or one test of a body. *)
Ltac mg_step :=
  match goal with
  | |- total (_ ≫= _) => apply total_bind; [by auto with mg|]; intros ? ?
  | |- total (if ?c then _ else _) => destruct c
  | |- total (match ?x with (_, _) => _ end) => destruct x
  | _ => by auto with mg
  end.

Lemma matching_rows_total rows k n : total (matching_rows rows k n).
Proof. induction rows as [|r rows IH]; [done|]. cbn [matching_rows]. repeat (mg_step || exact IH || done). Qed.
#[local] Hint Resolve matching_rows_total : mg.
Lemma matching_error_total o t k n : total (matchingError o t k n).
Proof. unfold matchingError. repeat mg_step. Qed.
Lemma identity_rows_total n rows i m : total (identity_rows n rows i m).
Proof. revert i m. induction rows as [|r rows IH]; intros i m; [done|]. cbn [identity_rows]. repeat (mg_step || apply IH). Qed.
Lemma mg_length_total e v : total (normalizedFunctionInternalLength e v).
Proof. unfold normalizedFunctionInternalLength. by repeat mg_step. Qed.
#[local] Hint Resolve matching_error_total identity_rows_total mg_length_total : mg.
Lemma parameter_columns_total r c n p : total (parameter_columns r c n p).
Proof. unfold parameter_columns. by repeat mg_step. Qed.
#[local] Hint Resolve parameter_columns_total : mg.
Lemma parameter_rows_total n rows ps xs names : total (parameter_rows n rows ps xs names).
Proof.
  revert ps xs names. induction rows as [|r rows IH]; intros ps xs names; [done|]. cbn [parameter_rows].
  repeat (mg_step || apply IH || done).
Qed.
#[local] Hint Resolve parameter_rows_total : mg.
Lemma function_result_total n o : total (NormalizeFunctionResult n o).
Proof. unfold NormalizeFunctionResult. by repeat mg_step. Qed.
Lemma table_of_total o n : total (table_of o n).
Proof. unfold table_of. by destruct (o !! _) as [[|]|]. Qed.
#[local] Hint Resolve function_result_total table_of_total : mg.
Lemma budget_loop_total o ts t : total (budget_loop o ts t).
Proof. revert t. induction ts as [|n ts IH]; intros t; [done|]. cbn [budget_loop]. cbv zeta. repeat (mg_step || apply IH || done). Qed.
Lemma recursive_input_total o : total (toRecursiveInput o).
Proof. unfold toRecursiveInput. by repeat mg_step. Qed.
Lemma normalize_ends i o : total (Normalize i o).
Proof.
  pose proof (normalize_total i o) as H. destruct (Normalize i o) as [g|e|]; [done| |done]. by destruct H as [code ->].
Qed.
#[local] Hint Resolve budget_loop_total recursive_input_total normalize_ends : mg.
Lemma recursive_result_total n o : total (NormalizeRecursiveFunctionResult n o).
Proof.
  unfold NormalizeRecursiveFunctionResult, assertRecursiveMetadataRowBudget. repeat mg_step; try done.
  destruct (g_FunctionIdentity _); [|done]. by repeat mg_step.
Qed.
Lemma rows_named_total n rows acc : total (rows_named n rows acc).
Proof. revert acc. induction rows as [|r rows IH]; intros acc; [done|]. cbn [rows_named]. repeat (mg_step || apply IH). Qed.
Lemma structure_row_total n i r s : total (structure_row n i r s).
Proof. unfold structure_row. cbv zeta. repeat (mg_step || done). Qed.
#[local] Hint Resolve rows_named_total structure_row_total : mg.
Lemma structure_rows_total n rows i s : total (structure_rows n rows i s).
Proof. revert i s. induction rows as [|r rows IH]; intros i s; [done|]. cbn [structure_rows]. repeat (mg_step || apply IH). Qed.
#[local] Hint Resolve structure_rows_total : mg.
Lemma structure_result_total n o : total (NormalizeStructureResult n o).
Proof. unfold NormalizeStructureResult. by repeat mg_step. Qed.

Lemma requested_loop_total v names seen : total (requested_loop v names seen).
Proof. revert names seen. induction v as [|r v IH]; intros names seen; [done|]. cbn [requested_loop]. repeat (mg_step || apply IH || done). Qed.
Lemma requested_total v : total (requestedMetadataNames v).
Proof. unfold requestedMetadataNames. destruct (_ <? _); [done|]. apply requested_loop_total. Qed.
Lemma outcome_rows_total {V : Type} (req : gset bytes) (k : string) (oc : row -> bytes -> res V) (rows : list row) (outs : gset bytes) (m : gmap bytes V) :
  (forall r n, total (oc r n)) -> total (outcome_rows req k oc rows outs m).
Proof.
  intros Ho. revert outs m. induction rows as [|r rows IH]; intros outs m; [done|]. cbn [outcome_rows]. unfold fresh_key.
  apply total_bind; [repeat (mg_step || done)|]. intros n _. apply total_bind; [apply Ho|]. intros v _. apply IH.
Qed.
Lemma all_answered_total names outs : total (all_answered names outs).
Proof. induction names as [|n names IH]; [done|]. cbn [all_answered]. by destruct (negb _). Qed.
Lemma timestamps_total fs ss o : total (NormalizeTimestamps fs ss o).
Proof.
  unfold NormalizeTimestamps, timestampErrorRows. cbv zeta.
  repeat first [mg_step | apply requested_total | apply all_answered_total | done
    | apply total_bind; [|intros ? ?] | apply outcome_rows_total; intros; unfold function_timestamp, structure_timestamp, error_outcome; by repeat mg_step].
Qed.

(** The normalisers end on every answer, with a value or an error, and never panic. *)
Theorem metadata_get_total name fs ss output :
  total (NormalizeFunctionResult name output) /\ total (NormalizeRecursiveFunctionResult name output) /\
  total (NormalizeStructureResult name output) /\ total (NormalizeTimestamps fs ss output).
Proof. split; [apply function_result_total|]. split; [apply recursive_result_total|]. split; [apply structure_result_total|apply timestamps_total]. Qed.

(** ** Timestamp batches *)
(** The names a batch may ask for. *)
Record good_request (names : list bytes) : Prop := {
  gr_count : zlen names <= maxTimestampNamesPerKind;
  gr_distinct : NoDup names;
  gr_names : Forall (fun n => metadataNamePattern n = true) names }.

(** The rows of a table and the outcome each of them states for its key. *)
Section Outcomes.
Context {V : Type} (keyName : string) (outcome : row -> bytes -> res V).

Definition states (r : row) (kv : bytes * V) : Prop :=
  mgText r keyName 30 = Ok (fst kv) /\ metadataNamePattern (fst kv) = true /\ outcome r (fst kv) = Ok (snd kv).

Definition stated (output : table_map) (tableName : string) (l : list (bytes * V)) : Prop :=
  exists rows, output !! lit tableName = Some (ETable rows) /\ Forall2 states rows l.

Lemma fresh_key_ok (requested outcomes : gset bytes) (r : row) (k : bytes) :
  fresh_key requested outcomes r keyName = Ok k <->
  mgText r keyName 30 = Ok k /\ metadataNamePattern k = true /\ k ∈ requested /\ k ∉ outcomes.
Proof.
  unfold fresh_key, mgMetadataName. split.
  - intros H. ok_step H as raw Hr. destruct (metadataNamePattern raw) eqn:Ep; [|done]. rewrite ok_bind in H.
    destruct (bool_decide (raw ∈ requested)) eqn:E1; [|done]. cbn [negb] in H. destruct (bool_decide (raw ∈ outcomes)) eqn:E2; [done|].
    apply Ok_inj in H. subst raw. apply bool_decide_eq_true in E1. apply bool_decide_eq_false in E2. done.
  - intros (-> & Hp & H1 & H2). rewrite ok_bind, Hp, ok_bind, bool_decide_eq_true_2 by done. cbn [negb]. by rewrite bool_decide_eq_false_2.
Qed.

(** The loop accepts exactly the rows that state an outcome for distinct open names. *)
Lemma outcome_rows_ok (requested : gset bytes) (rows : list row) (outcomes : gset bytes) (m : gmap bytes V) (outs' : gset bytes) (m' : gmap bytes V) :
  outcome_rows requested keyName outcome rows outcomes m = Ok (outs', m') <->
  exists l, Forall2 states rows l /\ NoDup (map fst l) /\ (forall k, k ∈ map fst l -> k ∈ requested /\ k ∉ outcomes) /\
    outs' = list_to_set (map fst l) ∪ outcomes /\ m' = foldl (fun m kv => <[fst kv := snd kv]> m) m l.
Proof.
  revert outcomes m. induction rows as [|r rows IH]; intros outcomes m; cbn [outcome_rows].
  { split.
    - intros H. apply Ok_inj in H. injection H as <- <-. exists []. split; [constructor|]. split; [apply NoDup_nil_2|]. split; [by intros k ?%not_elem_of_nil|].
      split; [cbn; set_solver|done].
    - intros (l & Hl & _ & _ & -> & ->). apply Forall2_nil_inv_l in Hl as ->. cbn. do 2 f_equal. set_solver. }
  split.
  - intros H. ok_step H as k Hk. apply fresh_key_ok in Hk as (Ht & Hp & Hq & Ho). ok_step H as v Hv. apply IH in H as (l & Hl & Hnd & Hs & -> & ->).
    exists ((k, v) :: l). split; [by constructor|]. split.
    { cbn. apply NoDup_cons. split; [|done]. intros Hin. apply Hs in Hin. set_solver. }
    split; [|split; [cbn; set_solver|done]]. cbn. intros x [->|Hx]%elem_of_cons; [done|]. apply Hs in Hx. set_solver.
  - intros (l & Hl & Hnd & Hs & -> & ->). destruct l as [|[k v] l]; [by apply Forall2_nil_inv_r in Hl|]. apply Forall2_cons in Hl as [(Ht & Hp & Hv) Hl].
    cbn in *. apply NoDup_cons in Hnd as [Hk Hnd]. destruct (Hs k) as [H1 H2]; [by left|].
    rewrite (proj2 (fresh_key_ok requested outcomes r k)), ok_bind, Hv, ok_bind by done. apply IH. exists l. split; [done|]. split; [done|].
    split; [|split; [set_solver|done]]. intros x Hx. destruct (Hs x) as [H3 H4]; [by right|]. split; [done|]. intros [->%elem_of_singleton|]%elem_of_union; done.
Qed.

Lemma fold_insert_map (m : gmap bytes V) (l : list (bytes * V)) :
  NoDup (map fst l) -> (forall k, k ∈ map fst l -> m !! k = None) -> foldl (fun m kv => <[fst kv := snd kv]> m) m l = list_to_map l ∪ m.
Proof.
  revert m. induction l as [|[k v] l IH]; intros m Hnd Hm; cbn in *; [by rewrite map_empty_union|]. apply NoDup_cons in Hnd as [Hk Hnd].
  rewrite IH; [|done|].
  - rewrite <- insert_union_r by (apply not_elem_of_list_to_map_1; done). by rewrite insert_union_l.
  - intros x Hx. rewrite lookup_insert_ne by (intros ->; done). apply Hm. by right.
Qed.

(** The rows of a table that is read into a fresh map. *)
Lemma outcome_table (requested : gset bytes) (output : table_map) (tableName : string) (maximum : Z) (outcomes outs' : gset bytes)
    (m' : gmap bytes V) :
  (rows ← mgRows output tableName maximum; outcome_rows requested keyName outcome rows outcomes ∅) = Ok (outs', m') <->
  exists l, stated output tableName l /\ zlen l <= maximum /\ NoDup (map fst l) /\ (forall k, k ∈ map fst l -> k ∈ requested /\ k ∉ outcomes) /\
    outs' = list_to_set (map fst l) ∪ outcomes /\ m' = list_to_map l.
Proof.
  unfold mgRows, stated. split.
  - intros H. ok_step H as rows Hr. destruct (output !! _) as [[src|v]|]; [|done|done]. destruct (Z.ltb_spec maximum (zlen src)); [done|]. apply Ok_inj in Hr. subst src.
    apply outcome_rows_ok in H as (l & Hl & Hnd & Hs & -> & ->). exists l. split; [by exists rows|].
    split; [apply Forall2_length in Hl; unfold zlen in *; lia|]. do 3 (split; [done|]). rewrite fold_insert_map by (done || (intros; apply lookup_empty)). apply map_union_empty.
  - intros (l & (rows & -> & Hl) & Hm & Hnd & Hs & -> & ->). destruct (Z.ltb_spec maximum (zlen rows)) as [Hlt|_].
    { apply Forall2_length in Hl. unfold zlen in *. lia. }
    rewrite ok_bind. apply outcome_rows_ok. exists l. do 4 (split; [done|]). rewrite fold_insert_map by (done || (intros; apply lookup_empty)). by rewrite map_union_empty.
Qed.
End Outcomes.

Lemma requested_loop_ok (value names : list bytes) (seen : gset bytes) (out : list bytes) :
  requested_loop value names seen = Ok out <->
  out = names ++ value /\ NoDup value /\ Forall (fun n => metadataNamePattern n = true) value /\ forall n, n ∈ value -> n ∉ seen.
Proof.
  revert names seen. induction value as [|raw value IH]; intros names seen; cbn [requested_loop].
  { rewrite app_nil_r. split; [intros ->%Ok_inj; split; [done|]; split; [apply NoDup_nil_2|]; split; [constructor|by intros n ?%not_elem_of_nil]|by intros (-> & _)]. }
  unfold mgMetadataName. split.
  - intros H. destruct (metadataNamePattern raw) eqn:Ep; [|done]. rewrite ok_bind in H. destruct (bool_decide (raw ∈ seen)) eqn:E; [done|].
    apply bool_decide_eq_false in E. apply IH in H as (-> & Hnd & Hp & Hs). split; [by rewrite <- app_assoc|]. split.
    { apply NoDup_cons. split; [|done]. intros Hin. apply Hs in Hin. set_solver. }
    split; [by constructor|]. intros n [->|Hn]%elem_of_cons; [done|]. apply Hs in Hn. set_solver.
  - intros (-> & Hnd & Hp & Hs). apply NoDup_cons in Hnd as [Hr Hnd]. apply Forall_cons in Hp as [Hp Hps]. rewrite Hp, ok_bind.
    rewrite bool_decide_eq_false_2 by (apply Hs; by left). apply IH. split; [by rewrite <- app_assoc|]. do 2 (split; [done|]).
    intros n Hn. assert (n ∉ seen) by (apply Hs; by right). set_solver.
Qed.

Lemma requested_ok value names : requestedMetadataNames value = Ok names <-> names = value /\ good_request value.
Proof.
  unfold requestedMetadataNames. destruct (Z.ltb_spec maxTimestampNamesPerKind (zlen value)).
  - split; [done|]. intros [_ [Hc _ _]]. lia.
  - rewrite requested_loop_ok. cbn. split.
    + intros (-> & Hnd & Hp & _). split; [done|]. by split.
    + intros [-> [_ Hnd Hp]]. split; [done|]. split; [done|]. split; [done|]. intros n _. apply not_elem_of_empty.
Qed.

Lemma all_answered_ok (names : list bytes) (outcomes : gset bytes) : all_answered names outcomes = Ok tt <-> forall n, n ∈ names -> n ∈ outcomes.
Proof.
  induction names as [|n names IH]; cbn [all_answered]; [split; [by intros _ n ?%not_elem_of_nil|done]|].
  destruct (bool_decide (n ∈ outcomes)) eqn:E; cbn [negb].
  - apply bool_decide_eq_true in E. rewrite IH. split; [intros H x [->|Hx]%elem_of_cons; [done|by apply H]|intros H x Hx; apply H; by right].
  - apply bool_decide_eq_false in E. split; [done|]. intros H. exfalso. apply E, H. by left.
Qed.

(** What two tables answer together is the request, when each key is requested and open. *)
Lemma outcomes_permutation (request a b : list bytes) :
  NoDup request -> NoDup a -> NoDup b -> (forall k, k ∈ a -> k ∈ request) -> (forall k, k ∈ b -> k ∈ request /\ k ∉ a) ->
  (forall n, n ∈ request -> n ∈ b ++ a) -> a ++ b ≡ₚ request.
Proof.
  intros Hr Ha Hb Hina Hinb Hall. apply NoDup_Permutation; [|done|].
  - apply NoDup_app. split; [done|]. split; [|done]. intros x Hx Hx'. by apply Hinb in Hx' as [_ ?].
  - intros x. split; [intros [Hx|Hx]%elem_of_app; [by apply Hina|by apply Hinb]|]. intros Hx. apply Hall in Hx. set_solver.
Qed.

(** One kind of object: the timestamps, then the errors, then that nothing is missing. *)
Definition batch_of {V : Type} (names : list bytes) (output : table_map) (tableName keyName : string) (outcome : row -> bytes -> res V)
    (errorTable errorKey : string) (values : gmap bytes V) (errors : gmap bytes bytes) : Prop :=
  good_request names /\ exists (l : list (bytes * V)) (e : list (bytes * bytes)),
    stated keyName outcome output tableName l /\ stated errorKey error_outcome output errorTable e /\
    map fst l ++ map fst e ≡ₚ names /\ values = list_to_map l /\ errors = list_to_map e.

Lemma batch_ok {V : Type} (names : list bytes) (output : table_map) (tableName keyName : string) (outcome : row -> bytes -> res V)
    (errorTable errorKey : string) (values : gmap bytes V) (errors : gmap bytes bytes) :
  good_request names ->
  (batch_of names output tableName keyName outcome errorTable errorKey values errors <->
   exists outs1 outs2 : gset bytes,
     (rows ← mgRows output tableName (zlen names); outcome_rows (setOf names) keyName outcome rows ∅ ∅) = Ok (outs1, values) /\
     timestampErrorRows output errorTable errorKey (setOf names) outs1 = Ok (outs2, errors) /\ all_answered names outs2 = Ok tt).
Proof.
  intros Hg. pose proof (gr_distinct _ Hg) as Hnd. unfold timestampErrorRows, batch_of, setOf. rewrite size_list_to_set by done. change (Z.of_nat (length names)) with (zlen names).
  split.
  - intros (_ & l & e & Hl & He & Hp & -> & ->). assert (Hnd' := Hnd). rewrite <- Hp in Hnd'. apply NoDup_app in Hnd' as (Hl1 & Hd & He1).
    assert (Hlen : zlen l + zlen e = zlen names). { apply Permutation_length in Hp. rewrite length_app, !length_map in Hp. unfold zlen. lia. }
    exists (list_to_set (map fst l)), (list_to_set (map fst e) ∪ list_to_set (map fst l)). split.
    { apply outcome_table. exists l. split; [done|]. split; [unfold zlen in *; lia|]. split; [done|]. split; [|split; [set_solver|done]].
      intros k Hk. split; [|set_solver]. apply elem_of_list_to_set. rewrite <- Hp. apply elem_of_app. by left. }
    split.
    { apply outcome_table. exists e. split; [done|]. split; [unfold zlen in *; lia|]. split; [done|]. split; [|done].
      intros k Hk. split; [apply elem_of_list_to_set; rewrite <- Hp; apply elem_of_app; by right|]. intros Hin%elem_of_list_to_set. by apply (Hd k). }
    apply all_answered_ok. intros n. rewrite <- Hp. set_solver.
  - intros (outs1 & outs2 & H1 & H2 & H3). split; [done|]. apply outcome_table in H1 as (l & Hl & _ & Hl1 & Hs & -> & ->).
    apply outcome_table in H2 as (e & He & _ & He1 & Hse & -> & ->). exists l, e. do 2 (split; [done|]). split; [|done].
    rewrite all_answered_ok in H3. apply outcomes_permutation; try done.
    + intros k Hk. apply Hs in Hk as [Hk _]. by apply elem_of_list_to_set in Hk.
    + intros k Hk. apply Hse in Hk as [Hk Hn]. split; [by apply elem_of_list_to_set in Hk|set_solver].
    + intros n Hn. apply H3 in Hn. set_solver.
Qed.

(** C21: A timestamp batch is accepted exactly when the names asked for are well formed,
    distinct and at most 512 of a kind, and the rows of the timestamp table and of the error
    table of each kind together state exactly one outcome for each of these names, in any
    order; the batch then maps each name to its outcome. *)
Theorem timestamps_exact (functionNames structureNames : list bytes) (output : table_map) (batch : RfcMetadataTimestampBatch) :
  NormalizeTimestamps functionNames structureNames output = Ok batch <->
  batch_of functionNames output "FUNCTION_TIMESTAMPS" "FUNCNAME" function_timestamp "FUNC_ERRORS" "FUNCNAME" (tb_Functions batch) (tb_FunctionErrors batch) /\
  batch_of structureNames output "DDIC_TIMESTAMPS" "TYPENAME" structure_timestamp "DD_ERRORS" "TABNAME" (tb_Structures batch) (tb_StructureErrors batch).
Proof.
  unfold NormalizeTimestamps. split.
  - intros H. ok_step H as fs Hfs. apply requested_ok in Hfs as [-> Hgf]. ok_step H as ss Hss. apply requested_ok in Hss as [-> Hgs]. cbv zeta in H.
    ok_step H as fr Hfr. ok_step H as p1 Hp1. destruct p1 as [o1 m1]. ok_step H as sr Hsr. ok_step H as p2 Hp2. destruct p2 as [o2 m2].
    ok_step H as p3 Hp3. destruct p3 as [o3 m3]. ok_step H as p4 Hp4. destruct p4 as [o4 m4]. ok_step H as u1 Hu1. ok_step H as u2 Hu2.
    destruct u1, u2. apply Ok_inj in H. subst batch. cbn. split; apply batch_ok; try done.
    + exists o1, o3. split; [by rewrite Hfr, ok_bind|done].
    + exists o2, o4. split; [by rewrite Hsr, ok_bind|done].
  - intros [Hf Hs]. pose proof (proj1 Hf) as Hgf. pose proof (proj1 Hs) as Hgs.
    apply batch_ok in Hf as (o1 & o3 & H1 & H3 & H5); [|done]. apply batch_ok in Hs as (o2 & o4 & H2 & H4 & H6); [|done].
    rewrite (proj2 (requested_ok functionNames functionNames)), ok_bind, (proj2 (requested_ok structureNames structureNames)), ok_bind by done. cbv zeta.
    ok_step H1 as fr Hfr. ok_step H2 as sr Hsr. rewrite Hfr, ok_bind, H1, ok_bind, Hsr, ok_bind, H2, ok_bind, H3, ok_bind, H4, ok_bind, H5, ok_bind, H6, ok_bind.
    by destruct batch.
Qed.

Definition stamp_output : table_map := tables
  [("FUNCTION_TIMESTAMPS", [cols [("FUNCNAME", txt "RFC_PING"); ("UDAT", txt "20240101"); ("UTIME", txt "120000")]]); ("DDIC_TIMESTAMPS", []);
   ("FUNC_ERRORS", [cols [("FUNCNAME", txt "NO_SUCH"); ("EXCEPTION", txt "NOT_FOUND")]]); ("DD_ERRORS", [])]%string.

Example stamps_run :
  match NormalizeTimestamps [lit "NO_SUCH"; lit "RFC_PING"] [] stamp_output with
  | Ok b => map_to_list (ft_Token <$> tb_Functions b) = [(lit "RFC_PING", lit "function:20240101:120000")] /\
            map_to_list (tb_FunctionErrors b) = [(lit "NO_SUCH", lit "NOT_FOUND")]
  | _ => False
  end.
Proof. vm_compute. auto. Qed.

(** ** The bootstrap codec *)
(** A structure of the hard-coded interface. *)
Definition bootstrap_def (name : string) : option RfcStructureDefinition :=
  match RfcMetadataGetBootstrapValue with Ok b => bs_Structures b !! lit name | _ => None end.

(** A row of the table of types that the bootstrap codec has read. *)
Definition ddic_row (r : row) : Prop :=
  exists def b, bootstrap_def "RFC_METADATA_DDIC" = Some def /\ Decode def b = Ok r.

(** The columns of numbers are NUMC fields of six characters. *)
Definition numc6 (def : RfcStructureDefinition) (c : string) : bool :=
  existsb (fun f => bytes_eqb (Structure.FieldName f) (lit c) && bytes_eqb (Structure.Exid f) (lit "N") && (Structure.InternalLength f =? 12)) (Structure.Fields def).

Definition number_columns : list string := ["TABLENGTH_UC"; "OFFSET_UC"; "INTLEN_UC"; "DECIMALS"]%string.

Lemma ddic_columns def : bootstrap_def "RFC_METADATA_DDIC" = Some def -> forallb (numc6 def) number_columns = true.
Proof.
  intros E. assert (H : match bootstrap_def "RFC_METADATA_DDIC" with Some d => forallb (numc6 d) number_columns | None => false end = true)
    by (vm_compute; reflexivity). by rewrite E in H.
Qed.

Lemma decode_lookup def b out : Decode def b = Ok out -> Forall (fun f => exists v, out !! Structure.FieldName f = Some v /\ readValue b f = Ok v) (Structure.Fields def).
Proof.
  unfold Decode. intros H. ok_step H as d Hd. destruct (validate_fields _ _ _ Hd) as [-> Hn]. ok_step H as u Hu.
  destruct (negb _); [done|]. pose proof (decode_fields_read _ _ _ _ H) as Hr.
  destruct (decode_fields_all b (Structure.Fields def) ∅ Hn Hr) as (out' & Ho & _ & _ & Hall). rewrite H in Ho. apply Ok_inj in Ho. by subst out'.
Qed.

(** A number read by the bootstrap codec has at most six digits. *)
Lemma ddic_number r c z : ddic_row r -> mgInt r c = Ok z -> c ∈ number_columns -> 0 <= z < 10 ^ 6.
Proof.
  intros (def & b & Hdef & Hd) H Hc. pose proof (ddic_columns def Hdef) as Hcols. rewrite forallb_forall in Hcols.
  specialize (Hcols c (proj1 (list_elem_of_In _ _) Hc)). unfold numc6 in Hcols. apply existsb_exists in Hcols as (fd & Hin & E).
  apply andb_true_iff in E as [E El%Z.eqb_eq]. apply andb_true_iff in E as [En%bytes_eqb_eq Ex%bytes_eqb_eq].
  apply decode_lookup in Hd. rewrite Forall_forall in Hd. destruct (Hd fd (proj2 (list_elem_of_In _ _) Hin)) as (v & Hv & Hr).
  rewrite En in Hv. unfold readValue, read_segment, characterLength in Hr. rewrite Ex, El in Hr. change (exid_of (lit "N")) with XNum in Hr. cbv iota in Hr.
  ok_step Hr as seg Hs. ok_step Hr as n Hn. ok_step Hr as s Hs'. apply Ok_inj in Hr. subst v. change (Ok (E := error) 6 = Ok n) in Hn. apply Ok_inj in Hn. subst n.
  unfold mgInt in H. rewrite Hv in H. destruct (digitsOnly s) eqn:Ed; [|done]. cbn [andb] in H. destruct (_ <=? _); [|done]. apply Ok_inj in H. subst z.
  unfold digitsOnly, numcDigits in Ed. apply andb_true_iff in Ed as [_ Ed]. pose proof (digits_length seg 6 s Hs' Ed) as Hl.
  assert (Had : all_digits s). { rewrite forallb_forall in Ed. apply Forall_forall. intros x Hx%list_elem_of_In. by apply Ed. }
  pose proof (dec_value_range s Had). pose proof (Z.pow_le_mono_r 10 (zlen s) 6). lia.
Qed.

(** ** A structure is what its rows say *)
Definition of_type (name : bytes) (r : row) : bool :=
  match mgText r "TYPENAME" 30 with Ok tn => bytes_eqb tn name | _ => false end.

(** A row and the field it describes, in a type of this length and timestamp. *)
Record describes (byteLength : Z) (timestamp : bytes) (r : row) (fd : RfcStructureField) : Prop := {
  ds_length : mgInt r "TABLENGTH_UC" = Ok byteLength;
  ds_timestamp : mgFixedDigits r "TIMESTAMP" 14 = Ok timestamp;
  ds_name : mgText r "FIELDNAME" 30 = Ok (Structure.FieldName fd);
  ds_exid : mgText r "INTTYPE" 1 = Ok (Structure.Exid fd);
  ds_offset : mgInt r "OFFSET_UC" = Ok (Structure.Offset fd);
  ds_width : mgInt r "INTLEN_UC" = Ok (Structure.InternalLength fd);
  ds_decimals : mgInt r "DECIMALS" = Ok (Structure.Decimals fd) }.

Lemma rows_named_filter name rows acc out :
  rows_named name rows acc = Ok out -> out = acc ++ filter (fun r => of_type name r = true) rows.
Proof.
  revert acc. induction rows as [|r rows IH]; intros acc H; cbn [rows_named] in H; [apply Ok_inj in H; by rewrite app_nil_r|].
  ok_step H as tn Ht. apply IH in H as ->. rewrite filter_cons.
  assert (Eo : of_type name r = bytes_eqb tn name) by (unfold of_type; by rewrite Ht).
  destruct (bytes_eqb tn name); [rewrite decide_True by done; by rewrite <- app_assoc|by rewrite decide_False by congruence].
Qed.

(** One row of the bootstrap codec adds the field it describes; no conversion changes a number. *)
Lemma structure_row_describes name index r s s' :
  ddic_row r -> structure_row name index r s = Ok s' ->
  exists fd, ls_fields s' = ls_fields s ++ [fd] /\ describes (ls_byteLength s') (ls_timestamp s') r fd /\
    Structure.Offset fd + Structure.InternalLength fd < 2 ^ 31 /\ 0 <= ls_byteLength s' < 10 ^ 6 /\ ls_timestamp s' <> [] /\
    (ls_byteLength s = -1 \/ ls_byteLength s' = ls_byteLength s) /\ (ls_timestamp s = [] \/ ls_timestamp s' = ls_timestamp s).
Proof.
  intros Hd H. unfold structure_row in H. ok_step H as bl Hbl. destruct (negb _ && _) eqn:E1 in H; [done|].
  ok_step H as ts Hts. destruct (negb _ && _) eqn:E2 in H; [done|]. ok_step H as raw Hraw. ok_step H as fn Hfn.
  unfold mgMetadataName in Hfn. destruct (metadataNamePattern raw); [|done]. apply Ok_inj in Hfn. subst raw.
  destruct (bool_decide _); [done|]. ok_step H as ct Hct. ok_step H as ex Hex. destruct (_ || _) in H; [done|].
  ok_step H as off Hoff. ok_step H as len Hlen. cbv zeta in H. destruct (_ || _) in H; [done|]. ok_step H as dec Hdec. apply Ok_inj in H. subst s'.
  pose proof (ddic_number r _ _ Hd Hbl ltac:(unfold number_columns; set_solver)) as Rbl. pose proof (ddic_number r _ _ Hd Hoff ltac:(unfold number_columns; set_solver)) as Roff.
  pose proof (ddic_number r _ _ Hd Hlen ltac:(unfold number_columns; set_solver)) as Rlen. pose proof (ddic_number r _ _ Hd Hdec ltac:(unfold number_columns; set_solver)) as Rdec.
  eexists. split; [reflexivity|]. cbn. rewrite !int32_small by (unfold is_i32; lia). split; [by split; cbn; rewrite ?int32_small by (unfold is_i32; lia)|].
  split; [lia|]. split; [lia|]. split.
  { intros ->. unfold mgFixedDigits in Hts. ok_step Hts as v Hv. destruct (_ || _) eqn:E in Hts; [done|]. apply Ok_inj in Hts. subst v. done. }
  split.
  - destruct (Z.eqb_spec (ls_byteLength s) (-1)); [by left|right]. cbn in E1. by apply negb_false_iff, Z.eqb_eq in E1.
  - destruct (bytes_eqb (ls_timestamp s) []) eqn:E; [left; by apply bytes_eqb_eq|right]. cbn in E2. by apply negb_false_iff, bytes_eqb_eq in E2.
Qed.

Lemma structure_rows_describe name rows index s s' :
  Forall ddic_row rows -> structure_rows name rows index s = Ok s' ->
  (ls_byteLength s = -1 /\ ls_timestamp s = [] \/ 0 <= ls_byteLength s < 10 ^ 6 /\ ls_timestamp s <> []) ->
  exists new, ls_fields s' = ls_fields s ++ new /\ Forall2 (describes (ls_byteLength s') (ls_timestamp s')) rows new /\
    Forall (fun fd => Structure.Offset fd + Structure.InternalLength fd < 2 ^ 31) new /\
    (rows = [] \/ 0 <= ls_byteLength s' < 10 ^ 6) /\
    (ls_timestamp s = [] \/ ls_byteLength s' = ls_byteLength s /\ ls_timestamp s' = ls_timestamp s).
Proof.
  intros Hr. revert index s. induction Hr as [|r rows Hr _ IH]; intros index s H Hs; cbn [structure_rows] in H.
  { apply Ok_inj in H. subst s'. exists []. rewrite app_nil_r. split; [done|]. split; [constructor|]. split; [constructor|]. split; [by left|by right]. }
  ok_step H as s1 H1. destruct (structure_row_describes _ _ _ _ _ Hr H1) as (fd & Ef & Hd & Hfit & Hbl & Hts & Hb & Ht).
  destruct (IH _ _ H) as (new & En & HF & Hfits & Hbl' & Hkeep); [by right|]. destruct Hkeep as [|[Eb Et]]; [done|].
  exists (fd :: new). split; [by rewrite En, Ef, <- app_assoc|]. split; [constructor; [by rewrite Eb, Et|done]|]. split; [by constructor|].
  split; [right; by rewrite Eb|]. destruct Hs as [[_ ->]|[Hs1 Hs2]]; [by left|]. right. destruct Hb as [|Hb]; [lia|]. destruct Ht as [|Ht]; [done|]. by rewrite Eb, Et.
Qed.

(** C22: From type rows read by the codec of the hard-coded interface, an accepted structure
    has exactly the fields its rows describe, in order, with their offsets, lengths and
    decimals unchanged by the conversions to int32, the length and timestamp all rows agree
    on, and is a definition with which no row makes the structure codec panic. *)
Theorem structure_result_exact name output rows r :
  output !! lit "DATATYPESCONT" = Some (ETable rows) -> Forall ddic_row rows -> NormalizeStructureResult name output = Ok r ->
  Structure.Name (st_Value r) = name /\ accepted (st_Value r) /\ (forall b, total (Decode (st_Value r) b)) /\
  exists timestamp, st_GenerationToken r = structure_token timestamp /\
    Forall2 (describes (Structure.ByteLength (st_Value r)) timestamp) (filter (fun row => of_type name row = true) rows) (Structure.Fields (st_Value r)).
Proof.
  intros Ho Hr H. unfold NormalizeStructureResult in H. ok_step H as n Hn. unfold mgMetadataName in Hn. destruct (metadataNamePattern name); [|done].
  apply Ok_inj in Hn. subst n. ok_step H as fl Hfl. destruct (negb _); [done|]. ok_step H as trs Htr. unfold mgRows in Htr. rewrite Ho in Htr.
  destruct (_ <? _) in Htr; [done|]. apply Ok_inj in Htr. subst trs. ok_step H as ms Hms. apply rows_named_filter in Hms. cbn [app] in Hms. subst ms.
  destruct (Z.eqb_spec (zlen (filter (fun row => of_type name row = true) rows)) 0) as [|Hne]; [done|]. destruct (_ <? _); [done|].
  ok_step H as s Hs. ok_step H as def Hdef. apply Ok_inj in H. subst r. cbn [st_Value st_GenerationToken].
  assert (HFr : Forall ddic_row (filter (fun row => of_type name row = true) rows)).
  { apply Forall_forall. intros x [_ Hx]%list_elem_of_filter. rewrite Forall_forall in Hr. by apply Hr. }
  destruct (structure_rows_describe _ _ _ _ _ HFr Hs (or_introl (conj eq_refl eq_refl))) as (new & Ef & HF & Hfit & [Hnil|Hbl] & _).
  { by rewrite Hnil in Hne. }
  cbn in Ef. rewrite int32_small in Hdef by (unfold is_i32; lia). rewrite Ef in Hdef.
  assert (Hef : ends_fit (mkSDef name (ls_byteLength s) new)) by exact Hfit.
  destruct (validate_accepted _ _ _ Hef Hdef) as [-> Hacc]. split; [done|]. split; [done|]. split; [intros b; by apply fitting_decodes|].
  by exists (ls_timestamp s).
Qed.

Definition ddic_sample : option row :=
  match bootstrap_def "RFC_METADATA_DDIC" with
  | Some def =>
      match Encode def (cols [("TYPENAME", txt "T"); ("FIELDNAME", txt "A"); ("COMPTYPE", txt "E"); ("DATATYPE", txt "INT4"); ("INTTYPE", txt "I");
          ("TABLENGTH_UC", txt "4"); ("OFFSET_UC", txt "0"); ("INTLEN_UC", txt "4"); ("TIMESTAMP", txt "20240101120000")]%string) with
      | Ok b => match Decode def b with Ok r => Some r | _ => None end
      | _ => None
      end
  | None => None
  end.

Lemma ddic_sample_read r : ddic_sample = Some r -> ddic_row r.
Proof.
  unfold ddic_sample. destruct (bootstrap_def _) as [def|] eqn:E; [|done]. destruct (Encode _ _) as [b| |]; [|done..].
  destruct (Decode def b) as [r'| |] eqn:Ed; [|done..]. intros H. injection H as ->. exists def, b. split; [exact E|exact Ed].
Qed.

Lemma Forall_singleton_2 {A} (P : A -> Prop) x : P x -> Forall P [x].
Proof. intros. by constructor. Qed.

Definition one_type (r : row) : table_map := tables [("DATATYPESCONT", [r]); ("DD_ERRORS", [])]%string.

Lemma one_type_rows r : one_type r !! lit "DATATYPESCONT" = Some (ETable [r]).
Proof. vm_compute. reflexivity. Qed.

Lemma structure_result_exact_witness :
  exists r0 r, ddic_row r0 /\ NormalizeStructureResult (lit "T") (one_type r0) = Ok r /\ accepted (st_Value r).
Proof.
  assert (H : match ddic_sample with
              | Some r0 => match NormalizeStructureResult (lit "T") (one_type r0) with Ok _ => true | _ => false end
              | None => false end = true) by (vm_compute; reflexivity).
  destruct ddic_sample as [r0|] eqn:E; [|discriminate H]. exists r0.
  destruct (NormalizeStructureResult (lit "T") (one_type r0)) as [r| |] eqn:En; [|discriminate H..].
  exists r. split; [exact (ddic_sample_read r0 E)|]. split; [reflexivity|].
  exact (proj1 (proj2 (structure_result_exact (lit "T") (one_type r0) [r0] r (one_type_rows r0) (Forall_singleton_2 ddic_row r0 (ddic_sample_read r0 E)) En))).
Defined.

(** ** The flat and the recursive view of a function *)
Definition is_exception (class : bytes) : bool := bytes_eqb class (lit "X").
Definition flat_key (p : FunintParameter) : bytes * bytes := (ParameterClass p, ParameterName p).
Definition row_class_name (r : row) : bytes * bytes := (column r "PARAMCLASS", column r "PARAMETER").

Lemma text_column r name maximum s : mgText r name maximum = Ok s -> column r name = s.
Proof. unfold mgText, column. destruct (r !! _) as [[t| | | |]|]; try done. destruct (_ || _); [done|]. by intros <-%Ok_inj. Qed.

Lemma parameter_columns_key r c n p q : parameter_columns r c n p = Ok q -> flat_key q = (c, n).
Proof. unfold parameter_columns. intros H. repeat (let a := fresh in let Ha := fresh in ok_step H as a Ha). apply Ok_inj in H. by subst q. Qed.

(** The rows of one function are its parameters and its exceptions, each in order. *)
Lemma parameter_rows_split (name : bytes) (rows : list row) (ps : list FunintParameter) (xs : list bytes) (names : gset bytes)
    (ps' : list FunintParameter) (xs' : list bytes) :
  parameter_rows name rows ps xs names = Ok (ps', xs') -> Forall (fun r => column r "FUNCNAME" = name) rows ->
  map flat_key ps' = map flat_key ps ++ map row_class_name (filter (fun r => is_exception (column r "PARAMCLASS") = false) rows) /\
  xs' = xs ++ map (fun r => column r "PARAMETER") (filter (fun r => is_exception (column r "PARAMCLASS") = true) rows).
Proof.
  intros H HF. revert ps xs names H. induction HF as [|r rows Hr _ IH]; intros ps xs names H; cbn [parameter_rows] in H.
  { apply Ok_inj in H. injection H as <- <-. cbn. by rewrite !app_nil_r. }
  ok_step H as fn Hfn. apply text_column in Hfn. rewrite <- Hfn, Hr, bytes_eqb_refl in H. cbn [negb] in H.
  ok_step H as pc Hpc. apply text_column in Hpc. destruct (negb _); [done|]. ok_step H as raw Hraw. apply text_column in Hraw.
  ok_step H as pn Hpn. unfold mgMetadataName in Hpn. destruct (metadataNamePattern raw); [|done]. apply Ok_inj in Hpn. subst raw.
  destruct (bool_decide _); [done|]. ok_step H as pos Hpos. cbv zeta in H. rewrite !filter_cons. change (bytes_eqb pc (lit "X")) with (is_exception pc) in H.
  destruct (is_exception pc) eqn:Ex.
  - apply IH in H as [H1 H2]. rewrite decide_False by congruence. rewrite decide_True by congruence. split; [done|].
    rewrite H2, <- app_assoc. cbn. by rewrite Hpn.
  - ok_step H as p Hp. apply parameter_columns_key in Hp. apply IH in H as [H1 H2]. rewrite decide_True by congruence. rewrite decide_False by congruence.
    split; [|done]. rewrite H1, map_app, <- app_assoc. cbn. rewrite Hp. do 2 f_equal. unfold row_class_name. by rewrite Hpc, Hpn.
Qed.

(** The parameters of a graph, as those of a flat descriptor. *)
Definition graph_parameters (g : Graph) : list (bytes * bytes) :=
  map (fun p => (mp_ParameterClass p, mp_Name p)) (filter (fun p => is_exception (mp_ParameterClass p) = false) (g_Parameters g)).
Definition graph_exceptions (g : Graph) : list bytes :=
  map mp_Name (filter (fun p => is_exception (mp_ParameterClass p) = true) (g_Parameters g)).

Lemma graph_rows g rows (name : bytes) :
  map param_key (g_Parameters g) = map input_key (map param_row rows) ->
  graph_parameters g = map row_class_name (filter (fun r => is_exception (column r "PARAMCLASS") = false) rows) /\
  graph_exceptions g = map (fun r => column r "PARAMETER") (filter (fun r => is_exception (column r "PARAMCLASS") = true) rows).
Proof.
  unfold graph_parameters, graph_exceptions. generalize (g_Parameters g) as ps. revert rows.
  intros rows ps. revert rows. induction ps as [|p ps IH]; intros [|r rows] H; try done. cbn [map] in H. injection H as Hf Hc Hn H.
  destruct (IH rows H) as [H1 H2]. rewrite !filter_cons, Hc. cbn. destruct (is_exception (column r "PARAMCLASS")) eqn:E.
  - rewrite !(decide_False (P := true = false)), !(decide_True (P := true = true)) by done. cbn. rewrite H1, H2. by rewrite Hn.
  - rewrite !(decide_True (P := false = false)), !(decide_False (P := false = true)) by done. cbn. rewrite H1, H2. unfold row_class_name at 2. by rewrite Hc, Hn.
Qed.

(** C23: An accepted recursive answer is about the function asked for and has the generation
    token of the flat descriptor of the same answer; its parameters and exceptions are those
    of the flat descriptor, in order, and it can be indexed. *)
Theorem recursive_agrees functionName output r :
  NormalizeRecursiveFunctionResult functionName output = Ok r ->
  exists flat id, NormalizeFunctionResult functionName output = Ok flat /\ g_FunctionIdentity (rec_Value r) = Some id /\
    fid_Name id = functionName /\ rec_GenerationToken r = fn_GenerationToken flat /\ fid_GenerationToken id = fn_GenerationToken flat /\
    graph_parameters (rec_Value r) = map flat_key (Parameters (fn_Value flat)) /\ graph_exceptions (rec_Value r) = Exceptions (fn_Value flat) /\
    exists idx : ParameterIndex unit, CreateParameterIndex (rec_Value r) = Ok idx.
Proof.
  intros H. unfold NormalizeRecursiveFunctionResult in H. ok_step H as name Hname. unfold mgMetadataName in Hname.
  destruct (metadataNamePattern functionName) eqn:Ep; [|done]. apply Ok_inj in Hname. subst name. ok_step H as u Hu. ok_step H as flat Hflat. ok_step H as fe Hfe.
  destruct (negb _); [done|]. ok_step H as de Hde. destruct (_ && _); [done|]. ok_step H as input Hin. ok_step H as g Hg.
  destruct (g_FunctionIdentity g) as [id|] eqn:Eid; [|done]. destruct (bytes_eqb (fid_Name id) functionName) eqn:E1; [|done]. apply bytes_eqb_eq in E1.
  destruct (bytes_eqb (fid_GenerationToken id) (fn_GenerationToken flat)) eqn:E2; [|done]. apply bytes_eqb_eq in E2. apply Ok_inj in H. subst r.
  cbn [rec_Value rec_GenerationToken]. exists flat, id. split; [done|]. split; [done|]. split; [done|]. split; [done|]. split; [done|].
  destruct (normalize_parameters _ _ _ _ Hg Eid) as [Hkeys Hall].
  assert (Hidx : indexable g).
  { destruct (normalize_made _ _ _ Hg) as (limits & sn & b & Hm). eapply made_indexable; [exact Hm|exact Eid|]. rewrite E1. intros ->. done. }
  unfold toRecursiveInput in Hin. ok_step Hin as fr Hfr. ok_step Hin as tr Htr. ok_step Hin as ir Hir. ok_step Hin as pr Hpr. apply Ok_inj in Hin. subst input. cbn in Hkeys, Hall.
  unfold NormalizeFunctionResult in Hflat. rewrite E1 in Hall. clear Hu. ok_step Hflat as n Hn. unfold mgMetadataName in Hn. rewrite Ep in Hn. apply Ok_inj in Hn. subst n.
  ok_step Hflat as fl Hfl. destruct (negb _) in Hflat; [done|]. ok_step Hflat as frs Hfrs. ok_step Hflat as im Him. destruct im as [identity matches].
  destruct (negb _) in Hflat; [done|]. ok_step Hflat as bt Hbt. ok_step Hflat as bf Hbf. ok_step Hflat as prs Hprs. ok_step Hflat as pe Hpe. destruct pe as [ps xs].
  ok_step Hflat as date Hdate. ok_step Hflat as tm Htm. apply Ok_inj in Hflat. subst flat. cbn.
  assert (prs = pr) as ->.
  { unfold mgRows in Hprs. unfold table_of in Hpr. destruct (output !! _) as [[src|]|]; [|done|done]. destruct (_ <? _); [done|]. congruence. }
  apply parameter_rows_split in Hpe as [Hps Hxs].
  - destruct (graph_rows g pr functionName Hkeys) as [Hgp Hgx]. split; [by rewrite Hgp, Hps|]. split; [by rewrite Hgx, Hxs|].
    destruct (create_ok (V := unit) g Hidx) as (idx & Hidx' & _). by exists idx.
  - rewrite Forall_forall in Hall. apply Forall_forall. intros x Hx. apply (Hall (param_row x)). by apply list_elem_of_In, in_map, list_elem_of_In.
Qed.

Lemma recursive_agrees_witness :
  exists r flat, NormalizeRecursiveFunctionResult (lit "RFC_PING") ping_output = Ok r /\
    NormalizeFunctionResult (lit "RFC_PING") ping_output = Ok flat /\ graph_parameters (rec_Value r) = map flat_key (Parameters (fn_Value flat)).
Proof.
  assert (H : match NormalizeRecursiveFunctionResult (lit "RFC_PING") ping_output with Ok _ => true | _ => false end = true) by (vm_compute; reflexivity).
  destruct (NormalizeRecursiveFunctionResult (lit "RFC_PING") ping_output) as [r| |] eqn:E; [|discriminate H..].
  destruct (recursive_agrees (lit "RFC_PING") ping_output r E) as (flat & id & Hf & _ & _ & _ & _ & Hp & _).
  exists r, flat. split; [reflexivity|]. split; [exact Hf|exact Hp].
Defined.

(** ** The hard-coded interfaces *)
(** Every table of an interface has its structure, which the codec accepts. *)
Definition table_described (bs : RfcMetadataGetBootstrap) (p : FunintParameter) : bool :=
  negb (bytes_eqb (ParameterClass p) (lit "T")) ||
  match bs_Structures bs !! ClassicRfc.TableName p with
  | Some def => bytes_eqb (Structure.Name def) (ClassicRfc.TableName p) && bool_decide (ends_fit def) &&
                match ValidateCodec def (Structure.Name def) with Ok _ => true | _ => false end
  | None => false
  end.

Lemma table_described_ok bs p :
  table_described bs p = true -> ParameterClass p = lit "T" ->
  exists def, bs_Structures bs !! ClassicRfc.TableName p = Some def /\ Structure.Name def = ClassicRfc.TableName p /\ accepted def /\
    forall b, total (Decode def b).
Proof.
  unfold table_described. intros H Hc. rewrite Hc, bytes_eqb_refl in H. cbn [negb orb] in H.
  destruct (bs_Structures bs !! _) as [def|]; [|done]. apply andb_true_iff in H as [H Hv]. apply andb_true_iff in H as [Hn%bytes_eqb_eq Hf%bool_decide_eq_true].
  destruct (ValidateCodec def (Structure.Name def)) as [d| |] eqn:E; [|done..]. exists def. split; [done|]. split; [done|].
  destruct (validate_accepted _ _ _ Hf E) as [_ Hacc]. split; [done|]. intros b. by apply fitting_decodes.
Qed.

(** The package initialises without a panic, and every table parameter of its two hard-coded
    interfaces has a structure of its name with which the codec never panics. *)
Theorem bootstrap_describes :
  exists b t, RfcMetadataGetBootstrapValue = Ok b /\ RfcMetadataGetTimestampBootstrapValue = Ok t /\
    forall bs p, bs ∈ [b; t] -> p ∈ Parameters (bs_Metadata bs) -> ParameterClass p = lit "T" ->
      exists def, bs_Structures bs !! ClassicRfc.TableName p = Some def /\ Structure.Name def = ClassicRfc.TableName p /\ accepted def /\
        forall row, total (Decode def row).
Proof.
  assert (H : match RfcMetadataGetBootstrapValue, RfcMetadataGetTimestampBootstrapValue with
              | Ok b, Ok t => forallb (table_described b) (Parameters (bs_Metadata b)) && forallb (table_described t) (Parameters (bs_Metadata t))
              | _, _ => false end = true) by (vm_compute; reflexivity).
  destruct RfcMetadataGetBootstrapValue as [b| |]; [|done..]. destruct RfcMetadataGetTimestampBootstrapValue as [t| |]; [|done..].
  exists b, t. split; [done|]. split; [done|]. apply andb_true_iff in H as [Hb Ht]. rewrite forallb_forall in Hb, Ht.
  intros bs p Hbs Hp%list_elem_of_In. apply table_described_ok. apply elem_of_cons in Hbs as [->|[->|[]%not_elem_of_nil]%elem_of_cons]; auto.
Qed.
