(* ===== verification/ClientSession.v ===== *)
(** Package [client], internal/client/session.go: the direct CPIC session up to the
    exchange of one request and its reply, over any transport with the interface of
    [Transport].

    Modelled: the checks of [Open], the gateway and APPC handshake, [sendRequest],
    [sendData], [writeDataPlan], [receiveMessage], [exchange] and [Close].  The host name,
    the user name and the two random session identifiers are arguments.  The logon and the
    calls on top of [exchange] are in [ClientCalls].

    The theorems: a session that opens is ready; writing any plan to a peer that
    acknowledges each barrier sends exactly the encoded steps and waits for the response;
    receiving a reply ends after a bounded number of records and returns the reassembled
    message; and a compact request is exchanged for its reply. *)
From stdpp Require Import base list numbers strings.
From Stdlib Require Import ZArith Lia Strings.Byte.
From S2P Require Import Prelude Errors Wire Appc AppcRecords AppcFragmentation AppcConversation.
From S2P Require Import Ni Transport Gateway Rfcpro Cpic.

Open Scope Z_scope.

(** ** The session *)
Definition errSession : error := EClient ErrSession.

(** [programNamePattern] and [servicePattern]. *)
Definition programNamePattern (s : bytes) : bool :=
  (1 <=? zlen s) && (zlen s <=? 64) && forallb printable_byte s.
Definition servicePattern (s : bytes) : bool :=
  (zlen s =? 7) && bytes_eqb (take 5 s) (lit "sapdp") && forallb Gateway.is_digit (drop 5 s).

Definition short (s : bytes) (n : Z) : bytes := if n <? zlen s then take (Z.to_nat n) s else s.

(** What the session takes from the operating system and the random source. *)
Record Environment : Type := mkEnvironment {
  env_hostname : bytes;
  env_username : bytes;
  env_rootID : bytes;
  env_connectionID : bytes;
}.

Record SessionOptions : Type := mkSessionOptions {
  so_Host : bytes;
  so_ApplicationServerHost : bytes;
  so_ApplicationServerService : bytes;
  so_ProgramName : bytes;
  so_LocalAddress : bytes;
}.

Section Session.
Context {Tr : Type} {TT : Transport Tr}.

Record Session : Type := mkSession {
  s_transport : Tr;
  s_setup : ClientSetupState;
  s_conversationID : bytes;
  s_connectionIndex : Z;
  s_localAddress : bytes;
  s_destination : bytes;
  s_programName : bytes;
  s_cpicSessionID : bytes;
  s_service : bytes;
  s_authenticated : bool;
  s_closed : bool;
}.

Definition set_transport (v : Tr) (s : Session) : Session :=
  mkSession v (s_setup s) (s_conversationID s) (s_connectionIndex s) (s_localAddress s)
    (s_destination s) (s_programName s) (s_cpicSessionID s) (s_service s) (s_authenticated s) (s_closed s).
Definition set_setup (v : ClientSetupState) (s : Session) : Session :=
  mkSession (s_transport s) v (s_conversationID s) (s_connectionIndex s) (s_localAddress s)
    (s_destination s) (s_programName s) (s_cpicSessionID s) (s_service s) (s_authenticated s) (s_closed s).
Definition set_conversation (id : bytes) (index : Z) (s : Session) : Session :=
  mkSession (s_transport s) (s_setup s) id index (s_localAddress s)
    (s_destination s) (s_programName s) (s_cpicSessionID s) (s_service s) (s_authenticated s) (s_closed s).
Definition set_closed (v : bool) (s : Session) : Session :=
  mkSession (s_transport s) (s_setup s) (s_conversationID s) (s_connectionIndex s) (s_localAddress s)
    (s_destination s) (s_programName s) (s_cpicSessionID s) (s_service s) (s_authenticated s) v.

(** A call on a component of the session. *)
Definition on_transport {A} (m : M Tr A) : M Session A := fun s =>
  let '(r, tr) := m (s_transport s) in (r, set_transport tr s).
Definition on_setup {A} (m : M ClientSetupState A) : M Session A := fun s =>
  let '(r, st) := m (s_setup s) in (r, set_setup st s).

(** The header overrides the session uses. *)
Definition control_header (conv : bytes) (info2 info3 info4 info : option Z) : RecordHeaderInput :=
  mkRecordHeaderInput None None None None None info2 None None info3 None info4 None None info None
    None None (Some conv).

Definition mustPartnerParams (localAddress : bytes) : res bytes :=
  match EncodePartnerLogicalUnitParameters (mkPartnerLogicalUnitParameters localAddress (zeros 16)) with
  | Ok b => Ok b
  | _ => Panic
  end.

(** 1. Gateway GW_NORMAL_CLIENT. *)
Definition handshake_gateway (env : Environment) : M Session unit :=
  s ← get;
  gwReq ← lift (Gateway.EncodeNormalClient
    (Gateway.mkNormalClientRecord (s_localAddress s) (short (s_programName s) 9) (lit "1100") 6
       (short (env_hostname env) 8) (short (s_programName s) 8) [] 6
       (Z.lor (Z.lor (Z.lor (Z.lor (Z.lor Gateway.AcceptInfoErrorInfo Gateway.AcceptInfoPing)
          Gateway.AcceptInfoConnectionExtended) Gateway.AcceptInfoCodePage)
          Gateway.AcceptInfoExtendedInitOptions) Gateway.AcceptInfoDistributedTrace)
       (-1) 0 0));
  on_transport (Send gwReq);;
  gwReplyBytes ← on_transport Receive;
  gw ← lift (Gateway.DecodeNormalClient gwReplyBytes);
  lift (guard (negb (Gateway.ReturnCode gw =? 0)) errSession);;
  lift (guard (negb (Gateway.AppcHeaderVersion gw =? 6)) errSession);;
  lift (guard (Z.land (Gateway.AcceptInfo gw) Gateway.AcceptInfoExtendedInitOptions =? 0) errSession);;
  lift (guard ((Z.land (Gateway.AcceptInfo gw) Gateway.AcceptInfoCodePage =? 0)
               || negb (bytes_eqb (Gateway.CodePage gw) (lit "4103"))) errSession).

(** 2. APPC Initialize. *)
Definition handshake_initialize (env : Environment) : M Session unit :=
  s ← get;
  put (set_setup ClientSetup.NewClientSetupStateMachine s);;
  initParams ← lift (EncodeInitializeParameters
    (mkInitializeParameters (lit "NWRFC")
       (mkExtendedInitializeOptions 1 (env_rootID env) (env_connectionID env) 1 (-2) (-2) 2 0 0
          (zeros 16) (s_localAddress s) (short (env_username env) 12) (zeros 4) (s_service s))));
  initialize ← lift (EncodeControlRecord
    (mkControlRecordInput
       (control_header (replicate 8 x20) (Some 1) (Some 0xc0) (Some 4) (Some 5)) FuncInitialize
       (Some (mkExtendedInfo (lit "NWRFC") (short (s_localAddress s) 8) (s_service s) 0x49 1 0 0xffff))
       None initParams));
  on_setup (ClientSetup.Sent FuncInitialize true);;
  on_transport (Send initialize);;
  initReply ← on_transport Receive;
  on_setup (ClientSetup.Received initReply);;
  initHeader ← lift (DecodeHeader initReply);
  lift (guard (zlen initReply <? RecordHeaderLength) errSession);;
  initInfo ← lift (b ← go_slice initReply CommonHeaderLength RecordHeaderLength; DecodeExtendedInfo b);
  s ← get;
  put (set_conversation (h_ConversationID initHeader) (ei_ConnectionIndex initInfo) s).

(** 3. APPC SetPartnerLuName, which has no reply. *)
Definition handshake_partner : M Session unit :=
  on_setup (ClientSetup.Sent FuncSetPartnerLuName true);;
  s ← get;
  params ← lift (mustPartnerParams (s_localAddress s));
  setPartner ← lift (EncodeControlRecord
    (mkControlRecordInput
       (control_header (s_conversationID s) (Some 1) None None (Some 4)) FuncSetPartnerLuName None
       (Some (mkPartnerLogicalUnitInfoInput (s_localAddress s) (zeros 16) 0xffff (s_connectionIndex s)))
       params));
  on_transport (Send setPartner).

(** 4. APPC Allocate, with one reply. *)
Definition handshake_allocate : M Session unit :=
  on_setup (ClientSetup.Sent FuncAllocate true);;
  s ← get;
  allocate ← lift (EncodeControlRecord
    (mkControlRecordInput
       (control_header (s_conversationID s) None None None (Some 1)) FuncAllocate
       (Some (mkExtendedInfo [] [] [] 0 0 0xffff (s_connectionIndex s))) None []));
  on_transport (Send allocate);;
  allocReply ← on_transport Receive;
  on_setup (ClientSetup.Received allocReply);;
  mret tt.

Definition handshake (env : Environment) : M Session unit :=
  handshake_gateway env;;
  handshake_initialize env;;
  handshake_partner;;
  handshake_allocate.

(** [Open] on an established transport. *)
Definition Open (env : Environment) (opts : SessionOptions) (tr : Tr) : res Session :=
  let programName := if zlen (so_ProgramName opts) =? 0 then lit "open-rfc" else so_ProgramName opts in
  if negb (programNamePattern programName) then Err errSession
  else if negb (servicePattern (so_ApplicationServerService opts)) then Err errSession
  else
    let localAddress := if zlen (so_LocalAddress opts) =? 0 then lit "127.0.0.1" else so_LocalAddress opts in
    let destination := if zlen (so_ApplicationServerHost opts) =? 0 then so_Host opts
                       else so_ApplicationServerHost opts in
    let s := mkSession tr StateNew [] 0 localAddress destination programName []
               (so_ApplicationServerService opts) false false in
    match handshake env s with
    | (Ok _, s) => Ok s
    | (Err e, _) => Err e
    | (Panic, _) => Panic
    end.

(** ** Sending *)
Definition data_code_final (fc : Function_) : bool := (fc =? FuncSapSend) || (fc =? FuncReceive).

Definition write_fragment (fragment : OutgoingDataFragment) : M Session unit :=
  record ← lift (EncodeOutgoingDataFragment fragment);
  on_setup (ClientSetup.Sent (of_FunctionCode fragment) (data_code_final (of_FunctionCode fragment)));;
  on_transport (Send record);;
  if of_FunctionCode fragment =? FuncSendData then
    ack ← on_transport Receive;
    lift (DecodeSynchronousSendAcknowledgement ack);;
    on_setup (ClientSetup.Received ack);;
    mret tt
  else mret tt.

Fixpoint write_fragments (plan : list OutgoingDataFragment) : M Session unit :=
  match plan with
  | [] => mret tt
  | fragment :: plan => write_fragment fragment;; write_fragments plan
  end.

Definition writeDataPlan (plan : list OutgoingDataFragment) : M Session unit :=
  if zlen plan =? 0 then fail errSession else write_fragments plan.

Definition sendData (appData : bytes) (finalSap : option bytes) : M Session bool :=
  s ← get;
  if s_closed s then fail errSession
  else
    plan ← lift (PlanOutgoingDataFragments
      (mkOutgoingDataPlanInput
         (mkRecordHeaderInput None None None None None None None None None None None None None None None
            None None (Some (s_conversationID s)))
         appData finalSap 0xffff (s_connectionIndex s))
      (mkOutgoingDataPlannerOptions None None StreamingDisabled));
    writeDataPlan plan;;
    mret (match plan with f :: _ => of_FunctionCode f =? FuncAsyncSendData | [] => false end).

Definition sendRequest (request : bytes) : M Session bool :=
  framing ← lift (InspectRequestAppcFraming request);
  finalSap ← lift (if negb (rf_FinalSapParameterLength framing =? 0)
                   then Some <$> go_from request (rf_ApplicationDataLength framing) else Ok None);
  appData ← lift (go_slice request 0 (rf_ApplicationDataLength framing));
  sendData appData finalSap.

(** ** Receiving *)

(** The end of [receiveMessage]: the checks on the one message and the state after it. *)
Definition deliver (disposition : ReceiveDisposition) (decoder : ConversationDecoder.t) (message : Message)
    : M Session bytes :=
  lift (ConversationDecoder.Finish decoder);;
  s ← get;
  if negb (zlen (m_ConversationID message) =? 8)
     || negb (bytes_eqb (m_ConversationID message) (s_conversationID s))
     || negb (m_CommunicationIndex message =? 0)
     || negb (m_ConnectionIndex message =? s_connectionIndex s)
  then fail errSession
  else
    match disposition with
    | DispositionNormalDeallocation => put (set_closed true s)
    | DispositionAccepted => on_setup ClientSetup.ResponseComplete
    end;;
    mret (m_Data message).

(** The loop of [receiveMessage]; [decoder] is nil before the first record.  Every round
    but the last adds a fragment to the decoder, so its fragment limit bounds the loop. *)
Fixpoint receive_loop (fuel : nat) (allowInitialReceive : bool) (decoder : option ConversationDecoder.t)
    : M Session bytes :=
  match fuel with
  | O => fail EFuel
  | S fuel =>
      payload ← on_transport Receive;
      disposition ← on_setup (ClientSetup.Received payload);
      decoder ← lift (match decoder with
                      | Some d => Ok d
                      | None => ConversationDecoder.NewConversationDecoder
                                  (mkConversationDecoderOptions None None allowInitialReceive true)
                      end);
      let '(pushed, decoder) :=
        match disposition with
        | DispositionNormalDeallocation => ConversationDecoder.PushTerminalDeallocation payload decoder
        | DispositionAccepted => ConversationDecoder.Push payload decoder
        end in
      messages ← lift pushed;
      match messages with
      | [] => receive_loop fuel allowInitialReceive (Some decoder)
      | [message] => deliver disposition decoder message
      | _ => fail errSession
      end
  end.

Definition receive_fuel : nat := S (S (Z.to_nat DefaultMaxMessageFragments)).

Definition receiveMessage (allowInitialReceive : bool) : M Session bytes :=
  receive_loop receive_fuel allowInitialReceive None.

Definition exchange (request : bytes) : M Session bytes :=
  async ← sendRequest request;
  receiveMessage async.

Definition Close : M Session unit :=
  s ← get;
  put (set_closed true s);;
  on_transport CloseTransport.
End Session.
Arguments Session : clear implicits.

(** ** Parts of the session an operation leaves alone *)
Section Keeps.
Context {Tr : Type} {TT : Transport Tr}.
Implicit Types s : Session Tr.

(** [m] leaves the part [f] of the session alone. *)
Definition keeps {X A} (f : Session Tr -> X) (m : M (Session Tr) A) s : Prop := f (snd (m s)) = f s.

Lemma keeps_bind {X A B} (f : Session Tr -> X) (m : M (Session Tr) A) (k : A -> M (Session Tr) B) s :
  keeps f m s -> (forall a s1, m s = (Ok a, s1) -> keeps f (k a) s1) -> keeps f (m ≫= k) s.
Proof.
  unfold keeps. intros Hm Hk. unfold mbind, stm_bind. destruct (m s) as [[a| |] s1] eqn:E; [|exact Hm..].
  etrans; [exact (Hk a s1 eq_refl)|exact Hm].
Qed.

Lemma keeps_get {X B} (f : Session Tr -> X) (k : Session Tr -> M (Session Tr) B) s :
  keeps f (k s) s -> keeps f (get ≫= k) s.
Proof. intros H. apply keeps_bind; [done|]. intros a s1 [= <- <-]. exact H. Qed.

Lemma keeps_lift {X A} (f : Session Tr -> X) (m : res A) s : keeps f (lift m) s.
Proof. done. Qed.

Lemma keeps_on_transport {X A} (f : Session Tr -> X) (m : M Tr A) s :
  (forall tr s, f (set_transport tr s) = f s) -> keeps f (on_transport m) s.
Proof. intros Hf. unfold keeps, on_transport. destruct (m (s_transport s)). apply Hf. Qed.

Lemma keeps_on_setup {X A} (f : Session Tr -> X) (m : M ClientSetupState A) s :
  (forall st s, f (set_setup st s) = f s) -> keeps f (on_setup m) s.
Proof. intros Hf. unfold keeps, on_setup. destruct (m (s_setup s)). apply Hf. Qed.

Lemma keeps_put {X} (f : Session Tr -> X) v s : f v = f s -> keeps f (put v) s.
Proof. done. Qed.
End Keeps.

Ltac keeps_one := first [apply keeps_lift | by apply keeps_on_transport | by apply keeps_on_setup | by apply keeps_put | done].
Ltac keeps_steps :=
  lazymatch goal with
  | |- keeps _ (get ≫= _) _ => apply keeps_get; keeps_steps
  | |- keeps _ (_ ≫= _) _ => apply keeps_bind; [keeps_one|intros ? ? _; keeps_steps]
  | |- _ => keeps_one
  end.

(** ** The handshake *)
Section Handshake.
Context {Tr : Type} {TT : Transport Tr}.
Implicit Types s : Session Tr.

Lemma on_transport_inv {A} (m : M Tr A) s a s' :
  on_transport m s = (Ok a, s') -> exists tr, s' = set_transport tr s.
Proof. unfold on_transport. destruct (m (s_transport s)) as [r tr]. intros [= _ <-]. by exists tr. Qed.

Lemma on_setup_inv {A} (m : M ClientSetupState A) s a s' :
  on_setup m s = (Ok a, s') -> exists st, m (s_setup s) = (Ok a, st) /\ s' = set_setup st s.
Proof. unfold on_setup. destruct (m (s_setup s)) as [r st]. intros [= -> <-]. by exists st. Qed.

Lemma lift_inv {A} (m : res A) s a s' : lift m s = (Ok a, s') -> m = Ok a /\ s' = s.
Proof. unfold lift. by intros [= -> ->]. Qed.

Lemma sent_ok fc final st st' :
  ClientSetup.Sent fc final st = (Ok tt, st') ->
  st' = ClientSetup.sent_next st fc final /\ ClientSetup.sent_allowed st fc = true.
Proof. destruct (sent_cases st fc final) as [[e ->]|[-> H]]; [discriminate|]. by intros [= <-]. Qed.

Lemma received_ok payload st d st' :
  ClientSetup.Received payload st = (Ok d, st') ->
  exists h, DecodeHeader payload = Ok h /\
    ((d = DispositionNormalDeallocation /\ st = StateResponsePending /\ st' = StateClosed) \/
     (d = DispositionAccepted /\ st' = ClientSetup.received_next st /\
      ClientSetup.received_allowed st (h_FunctionCode h) = true)).
Proof.
  destruct (received_cases st payload) as [[e ->]|(h & Eh & [[-> Hs]|[-> Ha]])]; [discriminate| |];
    intros [= <- <-]; exists h; (split; [done|]); [left|right]; done.
Qed.

(** The conversation identifier the session keeps. *)
Definition has_conversation s : Prop := zlen (s_conversationID s) = 8.

Lemma initialize_conversation env s s' :
  handshake_initialize env s = (Ok tt, s') -> has_conversation s'.
Proof.
  unfold handshake_initialize. intros H.
  do 6 (apply bind_inv in H as (? & ? & _ & H)).
  apply bind_inv in H as (reply & ? & _ & H). apply bind_inv in H as (? & ? & _ & H).
  apply bind_inv in H as (hd & s1 & Hh & H). apply lift_inv in Hh as [Hh ->].
  do 3 (apply bind_inv in H as (? & ? & _ & H)). unfold put in H. injection H as <-.
  apply decode_header_ok in Hh as ([_ _ Hc] & _). exact Hc.
Qed.

Lemma partner_keeps s s' : handshake_partner s = (Ok tt, s') -> has_conversation s -> has_conversation s'.
Proof.
  unfold handshake_partner. intros H Hc.
  apply bind_inv in H as (? & s1 & H1 & H). apply on_setup_inv in H1 as (st & _ & ->).
  apply bind_inv in H as (sx & s2 & H2 & H). unfold get in H2. injection H2 as <- <-.
  apply bind_inv in H as (? & ? & H3 & H). apply lift_inv in H3 as [_ ->].
  apply bind_inv in H as (? & ? & H4 & H). apply lift_inv in H4 as [_ ->].
  apply on_transport_inv in H as (tr & ->). exact Hc.
Qed.

Lemma allocate_ready s s' :
  handshake_allocate s = (Ok tt, s') ->
  s_setup s' = StateReady /\ (has_conversation s -> has_conversation s').
Proof.
  unfold handshake_allocate. intros H.
  apply bind_inv in H as ([] & s1 & H1 & H). apply on_setup_inv in H1 as (st & Hs & ->).
  apply sent_ok in Hs as [-> _].
  apply bind_inv in H as (sx & s2 & H2 & H). unfold get in H2. injection H2 as <- <-.
  apply bind_inv in H as (? & ? & H3 & H). apply lift_inv in H3 as [_ ->].
  apply bind_inv in H as ([] & s3 & H4 & H). apply on_transport_inv in H4 as (tr1 & ->).
  apply bind_inv in H as (reply & s4 & H5 & H). apply on_transport_inv in H5 as (tr2 & ->).
  apply bind_inv in H as (d & s5 & H6 & H). apply on_setup_inv in H6 as (st & Hr & ->).
  unfold mret, stm_ret in H. injection H as <-. split; [|done].
  apply received_ok in Hr as (h & _ & [(_ & Hst & _)|(_ & -> & _)]); [discriminate|reflexivity].
Qed.

(** What the handshake leaves alone. *)
Definition frame_of s : bytes * bytes * bytes * bytes * bool * bool :=
  (s_localAddress s, s_destination s, s_programName s, s_service s, s_authenticated s, s_closed s).

Lemma handshake_keeps env s : keeps frame_of (handshake env) s.
Proof.
  unfold handshake. apply keeps_bind; [unfold handshake_gateway; keeps_steps|]. intros _ s1 _.
  apply keeps_bind; [unfold handshake_initialize; keeps_steps|]. intros _ s2 _.
  apply keeps_bind; [unfold handshake_partner; keeps_steps|]. intros _ s3 _. unfold handshake_allocate. keeps_steps.
Qed.

(** The addresses and names [Open] fills in. *)
Definition or_default (value fallback : bytes) : bytes := if zlen value =? 0 then fallback else value.

(** A session that Open returns is ready to send, not closed, has an eight-byte conversation
    identifier, keeps the given addresses and names or their documented defaults, and its
    program name and service are valid. *)
Theorem open_ready env opts (tr : Tr) s :
  Open env opts tr = Ok s ->
  s_setup s = StateReady /\ zlen (s_conversationID s) = 8 /\
  frame_of s = (or_default (so_LocalAddress opts) (lit "127.0.0.1"),
                or_default (so_ApplicationServerHost opts) (so_Host opts),
                or_default (so_ProgramName opts) (lit "open-rfc"), so_ApplicationServerService opts, false, false) /\
  programNamePattern (s_programName s) = true /\ servicePattern (s_service s) = true.
Proof.
  unfold Open. fold (or_default (so_ProgramName opts) (lit "open-rfc")).
  destruct (programNamePattern _) eqn:Ep; [|discriminate]. destruct (servicePattern _) eqn:Ev; [|discriminate].
  cbn [negb]. set (s0 := mkSession _ _ _ _ _ _ _ _ _ _ _). pose proof (handshake_keeps env s0) as Hk. unfold keeps in Hk.
  destruct (handshake env s0) as [[[]| |] s1] eqn:E; try discriminate. intros [= <-]. cbn [snd] in Hk.
  assert (s_setup s1 = StateReady /\ zlen (s_conversationID s1) = 8) as [H1 H2].
  { unfold handshake in E.
    apply bind_inv in E as (? & sa & _ & E). apply bind_inv in E as ([] & sb & Hi & E).
    apply bind_inv in E as ([] & sc & Hp & E). apply initialize_conversation in Hi.
    pose proof (partner_keeps _ _ Hp Hi) as Hc. apply allocate_ready in E as [H1 H2]. split; [done|]. by apply H2. }
  split_and!; [exact H1|exact H2|exact Hk|..]; injection Hk as _ _ E1 E2 _ _; [by rewrite E1|by rewrite E2].
Qed.
End Handshake.

(** ** Writing a plan *)
Section Sending.
Context {Tr : Type} {TT : Transport Tr} {TS : TransportSpec Tr}.
Implicit Types s : Session Tr.

(** The session after a step: another setup state, and the transport moved on. *)
Definition moved s (st : ClientSetupState) (tr : Tr) : Session Tr := set_setup st (set_transport tr s).

Lemma on_setup_ok {A} (m : M ClientSetupState A) s a st :
  m (s_setup s) = (Ok a, st) -> on_setup m s = (Ok a, set_setup st s).
Proof. unfold on_setup. by intros ->. Qed.

Lemma on_transport_ok {A} (m : M Tr A) s a tr :
  m (s_transport s) = (Ok a, tr) -> on_transport m s = (Ok a, set_transport tr s).
Proof. unfold on_transport. by intros ->. Qed.

(** A step without a barrier. *)
Lemma write_plain s f rec st :
  tr_ok (s_transport s) -> EncodeOutgoingDataFragment f = Ok rec -> zlen rec <= MaxUint32 ->
  ClientSetup.Sent (of_FunctionCode f) (data_code_final (of_FunctionCode f)) (s_setup s) = (Ok tt, st) ->
  of_FunctionCode f <> FuncSendData ->
  exists tr, write_fragment f s = (Ok tt, moved s st tr) /\ tr_ok tr /\
    inbox tr = inbox (s_transport s) /\ outbox tr = outbox (s_transport s) ++ [rec].
Proof.
  intros Hok He Hl Hst Hne. destruct (send_spec rec (s_transport s) Hok Hl) as (tr & Es & Hok' & Hi & Ho).
  exists tr. split_and!; try done. unfold write_fragment.
  rewrite (bind_ok _ _ s rec s) by (unfold lift; by rewrite He).
  rewrite (bind_ok _ _ _ _ _ (on_setup_ok _ _ _ _ Hst)).
  rewrite (bind_ok _ _ _ tt (moved s st tr)) by (by apply (on_transport_ok (Send rec) (set_setup st s))).
  by rewrite (proj2 (Z.eqb_neq _ _) Hne).
Qed.

(** The acknowledgement of a barrier. *)
Lemma ack_received ack a :
  DecodeSynchronousSendAcknowledgement ack = Ok a ->
  ClientSetup.Received ack StateSendBarrierPending = (Ok DispositionAccepted, StateSendContinuation).
Proof.
  intros H. pose proof H as H80. unfold DecodeSynchronousSendAcknowledgement in H80.
  destruct (Z.eqb_spec (zlen ack) RecordHeaderLength) as [Hl|]; [|discriminate]. clear H80.
  destruct (decode_ack_sound ack a H) as (conv & xi & _ & He & _). apply encode_ack_eq in He as [Hc ->].
  unfold ClientSetup.Received. rewrite Hl, Z.ltb_irrefl. rewrite decode_header_bytes; [reflexivity|].
  apply record_header_ok; [unfold is_u8, FuncSendData; lia| |lia|exact Hc].
  split; repeat apply Forall_cons_2; try apply Forall_nil_2; intros v [= <-]; unfold is_u8; lia.
Qed.

(** A barrier and its acknowledgement. *)
Lemma write_barrier s f rec ack a rest :
  tr_ok (s_transport s) -> EncodeOutgoingDataFragment f = Ok rec -> zlen rec <= MaxUint32 ->
  s_setup s = StateSendContinuation -> of_FunctionCode f = FuncSendData ->
  inbox (s_transport s) = ack :: rest -> DecodeSynchronousSendAcknowledgement ack = Ok a ->
  exists tr, write_fragment f s = (Ok tt, moved s StateSendContinuation tr) /\ tr_ok tr /\
    inbox tr = rest /\ outbox tr = outbox (s_transport s) ++ [rec].
Proof.
  intros Hok He Hl Hst Hfc Hin Ha. destruct (send_spec rec (s_transport s) Hok Hl) as (tr1 & Es & Hok1 & Hi1 & Ho1).
  rewrite Hin in Hi1. destruct (receive_spec tr1 ack rest Hok1 Hi1) as (tr2 & Er & Hok2 & Hi2 & Ho2).
  exists tr2. split_and!; try done; [|congruence]. unfold write_fragment.
  rewrite (bind_ok _ _ s rec s) by (unfold lift; by rewrite He). rewrite Hfc.
  rewrite (bind_ok _ _ s tt (set_setup StateSendBarrierPending s)) by (apply on_setup_ok; by rewrite Hst).
  rewrite (bind_ok _ _ _ tt (moved s StateSendBarrierPending tr1))
    by (by apply (on_transport_ok (Send rec) (set_setup StateSendBarrierPending s))).
  change (FuncSendData =? FuncSendData) with true. cbv iota.
  rewrite (bind_ok _ _ _ ack (moved s StateSendBarrierPending tr2))
    by (by apply (on_transport_ok Receive (moved s StateSendBarrierPending tr1))).
  rewrite (bind_ok _ _ _ a (moved s StateSendBarrierPending tr2)) by (unfold lift; by rewrite Ha).
  rewrite (bind_ok _ _ _ DispositionAccepted (moved s StateSendContinuation tr2)); [done|].
  apply (on_setup_ok _ (moved s StateSendBarrierPending tr2)). by eapply ack_received.
Qed.

(** How many acknowledgements a plan waits for. *)
Definition barrier_count (frs : list OutgoingDataFragment) : nat :=
  length (filter (fun f => of_FunctionCode f = FuncSendData) frs).

Definition acknowledged (acks : list bytes) : Prop :=
  Forall (fun ack => exists a, DecodeSynchronousSendAcknowledgement ack = Ok a) acks.

Lemma step_record_length input n conv sap i op :
  plan_shape input n sap -> zlen conv = 8 -> 0 <= i < n -> zlen op = 32 ->
  zlen (step_record (planned input n conv sap i) op) <= MaxUint32.
Proof.
  intros Hs Hc Hi Hop. destruct (planned_slice_len _ _ _ _ Hs Hi) as (H1 & _ & _).
  assert (zlen sap <= 8) by (inversion Hs; subst; [lia|done]).
  unfold step_record. rewrite !zlen_app, header_bytes_length by exact Hc. rewrite Hop.
  change (of_FinalSapParameters (planned input n conv sap i)) with sap. unfold planned. cbn [of_ApplicationData].
  unfold MaxUint32. lia.
Qed.

(** The steps of a streamed plan from the second on. *)
Lemma write_stream input n conv s k i acks rest :
  plan_shape input n [] -> 3 <= n -> zlen conv = 8 ->
  zlen (op_ApplicationData input) <= MaxOutgoingMessageLength ->
  1 <= i -> i + Z.of_nat (S k) = n ->
  tr_ok (s_transport s) -> s_setup s = StateSendContinuation ->
  inbox (s_transport s) = acks ++ rest -> acknowledged acks ->
  length acks = barrier_count (map (planned input n conv []) (seqZ i (Z.of_nat (S k)))) ->
  exists recs tr,
    mapM EncodeOutgoingDataFragment (map (planned input n conv []) (seqZ i (Z.of_nat (S k)))) = Ok recs /\
    write_fragments (map (planned input n conv []) (seqZ i (Z.of_nat (S k)))) s
    = (Ok tt, moved s StateResponsePending tr) /\
    tr_ok tr /\ inbox tr = rest /\ outbox tr = outbox (s_transport s) ++ recs.
Proof.
  intros Hs Hn Hc HL. revert s i acks. induction k as [|k IH]; intros s i acks Hi Hik Hok Hst Hin Hack Hlen.
  all: rewrite (seqZ_cons i) by lia; cbn [map mapM write_fragments].
  all: destruct (planned_encodes input n conv [] i Hs Hc ltac:(lia) HL) as (op & Hop & He).
  all: pose proof (step_record_length input n conv [] i op Hs Hc ltac:(lia) Hop) as Hlr.
  all: set (f := planned input n conv [] i) in *; set (rec := step_record f op) in *.
  all: assert (of_FunctionCode f = fs_functionCode (outgoingFragmentSemantics i n)) as Ef by done.
  all: rewrite semantics_cases in Ef by lia; destruct (Z.eqb_spec n 1) as [|_]; [lia|].
  - destruct (Z.eqb_spec i (n - 1)); [|lia]. cbn [fs_functionCode] in Ef.
    change (Z.pred (Z.of_nat 1)) with 0. rewrite (seqZ_nil (Z.succ i)) by lia. cbn [map mapM].
    destruct (write_plain s f rec StateResponsePending) as (tr & Ew & Hok' & Hi' & Ho'); try done.
    { rewrite Ef, Hst. reflexivity. } { rewrite Ef. discriminate. }
    assert (acks = []) as ->.
    { apply length_zero_iff_nil. rewrite Hlen, (seqZ_cons i), (seqZ_nil (Z.succ i)) by lia.
      cbn [map]. fold f. unfold barrier_count. rewrite filter_cons_False by (rewrite Ef; discriminate). done. }
    cbn [app] in Hin. exists [rec], tr. rewrite He. cbn [mbind outcome_bind]. split_and!; try done; [|congruence].
    by rewrite (bind_ok _ _ _ _ _ Ew).
  - assert (Z.pred (Z.of_nat (S (S k))) = Z.of_nat (S k)) as -> by lia.
    destruct (Z.eqb_spec i (n - 1)); [lia|]. rewrite (seqZ_cons i) in Hlen by lia. cbn [map] in Hlen. fold f in Hlen.
    assert (Z.pred (Z.of_nat (S (S k))) = Z.of_nat (S k)) as Hpred by lia. rewrite Hpred in Hlen.
    unfold barrier_count in Hlen. destruct (sync_index i); cbn [fs_functionCode] in Ef.
    + rewrite filter_cons_True in Hlen by exact Ef. destruct acks as [|ack acks]; [discriminate|].
      apply Forall_cons in Hack as [[a Ha] Hack]. cbn [length] in Hlen. injection Hlen as Hlen.
      destruct (write_barrier s f rec ack a (acks ++ rest)) as (tr & Ew & Hok' & Hi' & Ho'); try done.
      destruct (IH (moved s StateSendContinuation tr) (Z.succ i) acks) as (recs & tr' & Em & Ew' & Hok2 & Hi2 & Ho2);
        try done; try lia.
      exists (rec :: recs), tr'. rewrite He. cbn [mbind outcome_bind]. rewrite Em. split_and!; try done.
      * by rewrite (bind_ok _ _ _ _ _ Ew), Ew'.
      * rewrite Ho2. cbn [s_transport moved set_setup set_transport]. by rewrite Ho', <- app_assoc.
    + rewrite filter_cons_False in Hlen by (rewrite Ef; discriminate).
      destruct (write_plain s f rec StateSendContinuation) as (tr & Ew & Hok' & Hi' & Ho'); try done.
      { rewrite Ef, Hst. reflexivity. } { rewrite Ef. discriminate. }
      destruct (IH (moved s StateSendContinuation tr) (Z.succ i) acks) as (recs & tr' & Em & Ew' & Hok2 & Hi2 & Ho2);
        try done; try lia; [cbn; congruence|].
      exists (rec :: recs), tr'. rewrite He. cbn [mbind outcome_bind]. rewrite Em. split_and!; try done.
      * by rewrite (bind_ok _ _ _ _ _ Ew), Ew'.
      * rewrite Ho2. cbn [s_transport moved set_setup set_transport]. by rewrite Ho', <- app_assoc.
Qed.

Lemma write_plan input options frs s acks rest :
  PlanOutgoingDataFragments input options = Ok frs ->
  tr_ok (s_transport s) -> s_setup s = StateReady ->
  inbox (s_transport s) = acks ++ rest -> acknowledged acks -> length acks = barrier_count frs ->
  exists recs tr,
    mapM EncodeOutgoingDataFragment frs = Ok recs /\
    writeDataPlan frs s = (Ok tt, moved s StateResponsePending tr) /\
    tr_ok tr /\ inbox tr = rest /\ outbox tr = outbox (s_transport s) ++ recs.
Proof.
  intros (n & sap & Hs & Hc & HL & ->)%plan_inv Hok Hst Hin Hack Hlen.
  pose proof (plan_shape_covers _ _ _ Hs) as [Hn _]. set (conv := plan_conversation input) in *.
  unfold writeDataPlan. destruct (Z.eqb_spec (zlen (map (planned input n conv sap) (seqZ 0 n))) 0) as [Hz|_].
  { exfalso. unfold zlen in Hz. rewrite length_map, length_seqZ in Hz. lia. }
  destruct (planned_encodes input n conv sap 0 Hs Hc ltac:(lia) HL) as (op & Hop & He).
  pose proof (step_record_length input n conv sap 0 op Hs Hc ltac:(lia) Hop) as Hlr.
  rewrite (seqZ_cons 0) in Hlen |- * by lia. cbn [map mapM write_fragments] in Hlen |- *.
  set (f := planned input n conv sap 0) in *. set (rec := step_record f op) in *.
  assert (of_FunctionCode f = fs_functionCode (outgoingFragmentSemantics 0 n)) as Ef by done.
  rewrite semantics_cases in Ef by lia.
  inversion Hs as [sap' E H8 Hv Hle|n' E Hlt Hb Hn3]; subst.
  - cbn [Z.eqb Pos.eqb fs_functionCode] in Ef.
    destruct (write_plain s f rec StateResponsePending) as (tr & Ew & Hok' & Hi' & Ho'); try done.
    { rewrite Ef, Hst. reflexivity. }
    change (seqZ (Z.succ 0) (Z.pred 1)) with (@nil Z) in *. cbn [map mapM write_fragments] in *.
    unfold barrier_count in Hlen. rewrite filter_cons_False in Hlen by (rewrite Ef; discriminate).
    destruct acks as [|? ?]; [|discriminate]. cbn [app] in Hin.
    exists [rec], tr. rewrite He. cbn [mbind outcome_bind]. split_and!; try done; [|congruence].
    by rewrite (bind_ok _ _ _ _ _ Ew).
  - destruct (Z.eqb_spec n 1); [lia|]. destruct (Z.eqb_spec 0 (n - 1)); [lia|].
    change (sync_index 0) with false in Ef. cbn [fs_functionCode] in Ef.
    destruct (write_plain s f rec StateSendContinuation) as (tr & Ew & Hok' & Hi' & Ho'); try done.
    { rewrite Ef, Hst. reflexivity. } { rewrite Ef. discriminate. }
    unfold barrier_count in Hlen. rewrite filter_cons_False in Hlen by (rewrite Ef; discriminate).
    assert (Z.pred n = Z.of_nat (S (Z.to_nat (n - 2)))) as Hp by lia. rewrite Hp in *.
    destruct (write_stream input n conv (moved s StateSendContinuation tr) (Z.to_nat (n - 2)) 1 acks rest)
      as (recs & tr' & Em & Ew' & Hok2 & Hi2 & Ho2); try done; try lia; [cbn; congruence|].
    exists (rec :: recs), tr'. change (Z.succ 0) with 1. rewrite He. cbn [mbind outcome_bind]. rewrite Em.
    split_and!; try done.
    + by rewrite (bind_ok _ _ _ _ _ Ew), Ew'.
    + rewrite Ho2. cbn [s_transport moved set_setup set_transport]. by rewrite Ho', <- app_assoc.
Qed.

(** Writing any plan to a peer that acknowledges each synchronous step sends the encoded
    steps in order and nothing else, consumes exactly the acknowledgements, and leaves the
    session waiting for the response. *)
Theorem write_plan_delivers input options frs s acks rest :
  PlanOutgoingDataFragments input options = Ok frs ->
  tr_ok (s_transport s) -> s_setup s = StateReady ->
  inbox (s_transport s) = acks ++ rest -> acknowledged acks -> length acks = barrier_count frs ->
  exists recs tr,
    mapM EncodeOutgoingDataFragment frs = Ok recs /\
    writeDataPlan frs s = (Ok tt, moved s StateResponsePending tr) /\
    tr_ok tr /\ inbox tr = rest /\ outbox tr = outbox (s_transport s) ++ recs.
Proof. apply write_plan. Qed.
End Sending.

(** ** Receiving a reply *)
Section Receiving.
Import ConversationDecoder.

(** An accepted data record that completes no message adds one fragment. *)
Lemma push_adds_fragment payload (d d' : t) h :
  Push payload d = (Ok [], d') -> DecodeHeader payload = Ok h ->
  ((h_FunctionCode h =? FuncSapSend) || (h_FunctionCode h =? FuncReceive)) = true ->
  FragmentCount d' = FragmentCount d + 1 /\ maxFragments d' = maxFragments d /\
  FragmentCount d' <= maxFragments d.
Proof.
  unfold Push, push. munfold. intros H Eh Hd. rewrite Eh, Hd in H. cbn [negb] in H.
  destruct (check_return_codes h false) as [[]| |]; try discriminate.
  destruct (if RecordHeaderLength <=? zlen payload then _ else _) as [[]| |]; try discriminate.
  destruct (DecodeDataFragment payload) as [f| |]; try discriminate.
  destruct (go_slice payload _ _) as [ob| |]; try discriminate.
  destruct (DecodeIncomingDataOperationInfo ob) as [op| |]; try discriminate.
  destruct (_ && _); [discriminate|].
  assert (forall d0, pending d0 = None -> push_first h f op d0 = (Ok [], d') ->
    FragmentCount d' = FragmentCount d0 + 1 /\ maxFragments d' = maxFragments d0 /\ FragmentCount d' <= maxFragments d0) as Hfirst.
  { intros d0 Hp. unfold push_first. munfold. destruct (checkLimits d0 _ 1) as [[]| |] eqn:El; try discriminate.
    apply check_limits_inv in El as [(_ & _ & El)|[??]]; [|discriminate].
    destruct (df_IsFinal f); [discriminate|]. intros [= <-]. unfold FragmentCount at 2. rewrite Hp. cbn. lia. }
  destruct (pending d) as [p|] eqn:Hp.
  - destruct (h_FunctionCode h =? FuncSapSend); [discriminate|]. revert H. unfold push_next. munfold.
    destruct (matchPending p h op) as [[]| |]; try discriminate.
    destruct (checkLimits d _ _) as [[]| |] eqn:El; try discriminate.
    apply check_limits_inv in El as [(_ & _ & El)|[??]]; [|discriminate].
    destruct (df_IsFinal f); [discriminate|]. cbn [negb]. intros [= <-]. unfold FragmentCount at 2. rewrite Hp. cbn. lia.
  - destruct (h_FunctionCode h =? FuncSapSend); [by apply Hfirst|].
    destruct (allowInitialReceive d); [by apply Hfirst|discriminate].
Qed.

(** Terminal data always completes a message. *)
Lemma push_terminal_some payload (d d' : t) : PushTerminalDeallocation payload d <> (Ok [], d').
Proof.
  unfold PushTerminalDeallocation, push. munfold. destruct (DecodeHeader payload) as [h| |]; try discriminate.
  destruct (check_return_codes h true) as [[]| |]; try discriminate.
  destruct (negb _); [destruct (pending d); discriminate|].
  destruct (if RecordHeaderLength <=? zlen payload then _ else _) as [[]| |]; try discriminate.
  destruct (DecodeDataFragment payload) as [f| |]; try discriminate.
  destruct (go_slice payload _ _) as [ob| |]; try discriminate.
  destruct (DecodeIncomingDataOperationInfo ob) as [op| |]; try discriminate.
  destruct (_ && _); [discriminate|]. unfold push_terminal. munfold. destruct (_ =? 0); [discriminate|].
  destruct (pending d) as [p|].
  - destruct (negb _); [discriminate|]. destruct (matchPending p h op) as [[]| |]; try discriminate.
    destruct (checkLimits d _ _) as [[]| |]; discriminate.
  - destruct (_ && _); [discriminate|]. destruct (checkLimits d _ _) as [[]| |]; discriminate.
Qed.

(** The errors of the appc layer are its own. *)
Definition appc_only {A} (r : res A) : Prop := forall e, r = Err e -> exists a, e = EAppc a.

Lemma decode_header_appc payload : appc_only (DecodeHeader payload).
Proof.
  intros e. destruct (decode_header_spec payload) as [-> _].
  destruct (_ <? _); [intros [= <-]; eauto|]. destruct (_ =? _); [discriminate|intros [= <-]; eauto].
Qed.

Lemma check_limits_appc (d : t) a b : appc_only (checkLimits d a b).
Proof. intros e. unfold checkLimits. case_tests; intros [= <-]; eauto. Qed.

Lemma match_pending_appc p h op : appc_only (matchPending p h op).
Proof.
  intros e. unfold matchPending. destruct (negb (bytes_eqb _ _)); [intros [= <-]; eauto|].
  destruct (negb (_ =? _)); [intros [= <-]; eauto|]. destruct (_ || _); intros [= <-]; eauto.
Qed.

Lemma data_fragment_appc payload : appc_only (DecodeDataFragment payload).
Proof.
  intros e. unfold DecodeDataFragment. destruct (_ <? _) eqn:El; [intros [= <-]; eauto|].
  pose proof (decode_header_appc payload). destruct (DecodeHeader payload) as [h| |]; [|cbn; intros [= <-]; eauto|done].
  cbn [mbind outcome_bind]. destruct (_ && _); [intros [= <-]; eauto|].
  unfold go_from, go_slice. destruct (_ || _); discriminate.
Qed.

Lemma incoming_op_appc l : appc_only (DecodeIncomingDataOperationInfo l).
Proof.
  intros e. destruct (Z.eqb_spec (zlen l) 32) as [H|H]; [by rewrite incoming_op_eq|].
  unfold DecodeIncomingDataOperationInfo. rewrite (proj2 (Z.eqb_neq _ _) H). intros [= <-]. eauto.
Qed.

Lemma return_codes_appc h term : appc_only (check_return_codes h term).
Proof.
  intros e. unfold check_return_codes, guard. destruct term; [destruct (_ || _); intros [= <-]; eauto|].
  destruct (_ && _); [intros [= <-]; eauto|]. destruct (_ || _); intros [= <-]; eauto.
Qed.

(** A step whose error is the layer's own. *)
Ltac appc_step H := let Ha := fresh in pose proof H as Ha;
  match type of Ha with appc_only ?r => destruct r as [?|?|]; [|intros ? [= <-]; by apply Ha|done] end.

Lemma push_first_appc h f op (d : t) : appc_only (fst (push_first h f op d)).
Proof.
  unfold push_first. munfold. appc_step (check_limits_appc d (zlen (df_Data f)) 1). by destruct (df_IsFinal f).
Qed.

Lemma push_next_appc p h f op (d : t) : appc_only (fst (push_next p h f op d)).
Proof.
  unfold push_next. munfold. appc_step (match_pending_appc p h op).
  appc_step (check_limits_appc d (p_byteLength p + zlen (df_Data f)) (p_fragmentCount p + 1)). by destruct (df_IsFinal f).
Qed.

Lemma push_terminal_appc h data op (d : t) : appc_only (fst (push_terminal h data op d)).
Proof.
  unfold push_terminal. munfold. destruct (_ =? 0); [intros ? [= <-]; eauto|]. destruct (pending d) as [p|].
  - destruct (negb _); [intros ? [= <-]; eauto|]. appc_step (match_pending_appc p h op).
    by appc_step (check_limits_appc d (p_byteLength p + zlen data) (p_fragmentCount p + 1)).
  - destruct (_ && _); [intros ? [= <-]; eauto|]. by appc_step (check_limits_appc d (zlen data) 1).
Qed.

Lemma push_appc payload term (d : t) : appc_only (fst (push payload term d)).
Proof.
  unfold push. munfold. appc_step (decode_header_appc payload). rename a into h.
  appc_step (return_codes_appc h term). destruct (negb _).
  { destruct (pending d); [intros ? [= <-]; eauto|]. destruct term; [intros ? [= <-]; eauto|done]. }
  destruct (if RecordHeaderLength <=? zlen payload then _ else _) as [[]|e|] eqn:El; [| |done].
  2: { intros ? [= <-]. revert El. destruct (_ <=? _); [apply check_limits_appc|discriminate]. }
  appc_step (data_fragment_appc payload). unfold go_slice at 1. destruct (_ || _); [done|].
  match goal with |- context [DecodeIncomingDataOperationInfo ?l] => appc_step (incoming_op_appc l) end.
  destruct (_ && _); [intros ? [= <-]; eauto|]. destruct term; [apply push_terminal_appc|].
  destruct (pending d) as [p|]; destruct (_ =? FuncSapSend); try (intros ? [= <-]; by eauto);
    [apply push_next_appc|apply push_first_appc|].
  destruct (allowInitialReceive d); [apply push_first_appc|]. intros ? [= <-]. eauto.
Qed.

Lemma received_appc payload st : appc_only (fst (ClientSetup.Received payload st)).
Proof.
  unfold ClientSetup.Received. munfold. destruct (_ <? _); [intros ? [= <-]; eauto|].
  pose proof (decode_header_appc payload) as Hh. destruct (DecodeHeader payload) as [h|e|]; [|(intros ? [= <-]; by apply Hh)|done].
  destruct (_ && (_ || _)); [done|]. destruct (_ || _); [intros ? [= <-]; eauto|].
  destruct (negb _); [intros ? [= <-]; eauto|done].
Qed.
End Receiving.

(** ** The end of the receive loop *)
Section Termination.
Import ConversationDecoder.
Context {Tr : Type} {TT : Transport Tr}.
Implicit Types s : Session Tr.

(** The transport's own calls end: [live] is an invariant under which they do. *)
Context (live : Tr -> Prop).
Hypothesis receive_ends : forall tr, live tr -> fst (Receive tr) <> Err EFuel /\ live (snd (Receive tr)).

Definition counted (decoder : option t) : Z := match decoder with Some d => FragmentCount d | None => 0 end.

(** How many records the loop may still take. *)
Definition rounds (st : ClientSetupState) (decoder : option t) : nat :=
  match st with
  | StateResponsePending => S (Z.to_nat (DefaultMaxMessageFragments - counted decoder))
  | StateInitializePending | StateAllocatePending | StateSendBarrierPending => 2
  | _ => 1
  end.

(** While a reply is awaited the decoder has the default limit and is within it. *)
Definition loop_inv (st : ClientSetupState) (decoder : option t) : Prop :=
  st = StateResponsePending ->
  match decoder with
  | Some d => maxFragments d = DefaultMaxMessageFragments /\ FragmentCount d <= DefaultMaxMessageFragments
  | None => True
  end.

Lemma rounds_drop st h payload allow decoder d d' :
  DecodeHeader payload = Ok h -> ClientSetup.received_allowed st (h_FunctionCode h) = true ->
  (match decoder with
   | Some d => Ok d
   | None => NewConversationDecoder (mkConversationDecoderOptions None None allow true)
   end) = Ok d ->
  loop_inv st decoder -> Push payload d = (Ok [], d') ->
  (S (rounds (ClientSetup.received_next st) (Some d')) <= rounds st decoder)%nat /\
  loop_inv (ClientSetup.received_next st) (Some d').
Proof.
  intros Eh Ha Ed Hinv Hp. destruct st; try discriminate Ha; try (split; [cbn; lia|discriminate]).
  assert (((h_FunctionCode h =? FuncSapSend) || (h_FunctionCode h =? FuncReceive)) = true) as Hd by exact Ha.
  assert (maxFragments d = DefaultMaxMessageFragments /\ FragmentCount d = counted decoder) as [Hm Hc].
  { destruct decoder as [d0|]; [injection Ed as <-; by split; [apply Hinv|]|].
    revert Ed. vm_compute. by intros [= <-]. }
  destruct (push_adds_fragment payload d d' h Hp Eh Hd) as (H1 & H2 & H3).
  cbn [ClientSetup.received_next]. split; [|intros _; split; congruence].
  cbn [rounds counted]. rewrite Hm in *. lia.
Qed.

Lemma new_decoder_default allow :
  exists d, NewConversationDecoder (mkConversationDecoderOptions None None allow true) = Ok d.
Proof. by eexists. Qed.

Lemma finish_appc (d : t) : appc_only (Finish d).
Proof. intros e. unfold Finish. destruct (pending d); [intros [= <-]; eauto|discriminate]. Qed.

Lemma response_complete_appc st : appc_only (fst (ClientSetup.ResponseComplete st)).
Proof.
  destruct (response_complete_cases st) as [[_ ->]|[e H]]; [done|]. rewrite H. revert H.
  unfold ClientSetup.ResponseComplete. munfold. destruct (negb _); intros [= <-] ? [= <-]; eauto.
Qed.

Lemma appc_ends {A} (r : res A) : appc_only r -> r <> Err EFuel.
Proof. intros H ->. by destruct (H _ eq_refl). Qed.

Lemma deliver_ends disposition d message s : fst (deliver disposition d message s) <> Err EFuel.
Proof.
  unfold deliver. munfold. pose proof (appc_ends _ (finish_appc d)) as Hf.
  destruct (Finish d) as [[]|e|]; [|intros [= ->]; by apply Hf|done].
  destruct (_ || _); [done|]. destruct disposition; [|done].
  unfold on_setup. pose proof (appc_ends _ (response_complete_appc (s_setup s))) as Hr.
  destruct (ClientSetup.ResponseComplete (s_setup s)) as [[[]|e|] st]; [done| |done].
  intros [= ->]. by apply Hr.
Qed.

Lemma receive_loop_ends allow fuel k decoder s :
  live (s_transport s) -> loop_inv (s_setup s) decoder -> (rounds (s_setup s) decoder <= fuel)%nat ->
  fst (receive_loop fuel allow decoder s) <> Err EFuel /\
  receive_loop (fuel + k) allow decoder s = receive_loop fuel allow decoder s.
Proof.
  revert decoder s. induction fuel as [|fuel IH]; intros decoder s Hlive Hinv Hr.
  { destruct (s_setup s); cbn in Hr; lia. }
  cbn [Nat.add receive_loop]. unfold mbind, stm_bind, lift, on_transport.
  destruct (receive_ends _ Hlive) as [He Hl]. destruct (Receive (s_transport s)) as [[payload|e|] tr];
    [|split; [intros [= ->]; by apply He|done]|done]. cbn [snd] in Hl.
  unfold on_setup. change (s_setup (set_transport tr s)) with (s_setup s).
  pose proof (appc_ends _ (received_appc payload (s_setup s))) as Hre.
  destruct (received_cases (s_setup s) payload) as [[e Er]|(h & Eh & Hcase)].
  { rewrite Er in Hre |- *. split; [intros [= ->]; by apply Hre|done]. }
  destruct (match decoder with Some _ => _ | None => _ end) as [d|e|] eqn:Ed.
  2-3: by destruct decoder as [d0|]; [discriminate|destruct (new_decoder_default allow) as [? E]; rewrite E in Ed].
  destruct Hcase as [[-> Hst]|[-> Ha]].
  - pose proof (push_terminal_some payload d) as Hs. pose proof (appc_ends _ (push_appc payload true d)) as Hpa.
    unfold PushTerminalDeallocation in *. destruct (push payload true d) as [[ms|e|] d'];
      [|split; [intros [= ->]; by apply Hpa|done]|done].
    destruct ms as [|m [|m2 ms]]; [by destruct (Hs d')| |done].
    split; [apply (deliver_ends DispositionNormalDeallocation d' m)|done].
  - pose proof (appc_ends _ (push_appc payload false d)) as Hpa.
    pose proof (rounds_drop (s_setup s) h payload allow decoder d) as Hd. unfold Push in *.
    destruct (push payload false d) as [[ms|e|] d'] eqn:Ep; [|split; [intros [= ->]; by apply Hpa|done]|done].
    destruct ms as [|m [|m2 ms]]; [|split; [apply (deliver_ends DispositionAccepted d' m)|done]|done].
    destruct (Hd d' Eh Ha Ed Hinv eq_refl) as [Hlt Hinv']. apply IH; [exact Hl|exact Hinv'|]. cbn. lia.
Qed.
End Termination.

(** C29: Receiving a message ends: whenever the transport's own calls end, the receive loop
    finishes within the bound of receive_fuel records, and a larger bound gives the same
    result. *)
Theorem receive_terminates {Tr} `{Transport Tr} (live : Tr -> Prop) async (s : Session Tr) fuel :
  (forall tr, live tr -> fst (Receive tr) <> Err EFuel /\ live (snd (Receive tr))) ->
  live (s_transport s) -> (receive_fuel <= fuel)%nat ->
  fst (receiveMessage async s) <> Err EFuel /\ receive_loop fuel async None s = receiveMessage async s.
Proof.
  intros Hlive Hs Hf. unfold receiveMessage. replace fuel with (receive_fuel + (fuel - receive_fuel))%nat by lia.
  apply (receive_loop_ends live Hlive); [exact Hs|done|].
  destruct (s_setup s); cbn [rounds counted]; unfold receive_fuel; lia.
Qed.

(** ** The reply *)

(** [recs] carry [chunks]: F_SAP_SEND first, F_RECEIVE after it, the last one final, each
    with the length of its data. *)
Inductive replies (h : RecordHeaderInput) (xi : Z) : bool -> list bytes -> list bytes -> Prop :=
| replies_last (first : bool) r c :
    arrives h 0 xi r (if first then FuncSapSend else FuncReceive) c true (zlen c) ->
    replies h xi first [c] [r]
| replies_more (first : bool) r c cs rs :
    arrives h 0 xi r (if first then FuncSapSend else FuncReceive) c false (zlen c) ->
    replies h xi false cs rs -> replies h xi first (c :: cs) (r :: rs).

Section Reply.
Import ConversationDecoder.
Context {Tr : Type} {TT : Transport Tr} {TS : TransportSpec Tr}.
Implicit Types s : Session Tr.

Lemma arrival_received h ci xi r fc data final n :
  (fc = FuncSapSend \/ fc = FuncReceive) -> arrives h ci xi r fc data final n ->
  ClientSetup.Received r StateResponsePending = (Ok DispositionAccepted, StateResponsePending).
Proof.
  intros Hfc [(hd & Eh & Ef & Ea & Es & _) Hl _ _]. unfold ClientSetup.Received.
  destruct (Z.ltb_spec (zlen r) RecordHeaderLength); [pose proof (zlen_nonneg data); unfold RecordHeaderLength in *; lia|].
  rewrite Eh. munfold. rewrite Ea, Es, Ef. by destruct Hfc as [-> | ->].
Qed.

Definition first_function (done : list bytes) : Function_ :=
  match done with [] => FuncSapSend | _ => FuncReceive end.

(** One round: the record is taken from the transport and given to the decoder. *)
Lemma receive_round fuel allow h xi s d done c final r rest decoder :
  tr_ok (s_transport s) -> s_setup s = StateResponsePending -> inbox (s_transport s) = r :: rest ->
  arrives h 0 xi r (first_function done) c final (zlen c) ->
  zlen (concat (done ++ [c])) <= maxMessageLength d -> zlen (done ++ [c]) <= maxFragments d ->
  match decoder with
  | Some d => Ok d
  | None => NewConversationDecoder (mkConversationDecoderOptions None None allow true)
  end = Ok (state_of h 0 xi d done) ->
  exists tr, tr_ok tr /\ inbox tr = rest /\ outbox tr = outbox (s_transport s) /\
    receive_loop (S fuel) allow decoder s
    = if final
      then deliver DispositionAccepted (state_of h 0 xi d []) (message_of h 0 xi (done ++ [c]))
             (moved s StateResponsePending tr)
      else receive_loop fuel allow (Some (state_of h 0 xi d (done ++ [c]))) (moved s StateResponsePending tr).
Proof.
  intros Hok Hst Hin Ha Hl Hc Hd. destruct (receive_spec _ _ _ Hok Hin) as (tr & Er & Hok' & Hi & Ho).
  exists tr. split_and!; try done. cbn [receive_loop].
  rewrite (bind_ok _ _ _ _ _ (on_transport_ok Receive s r tr Er)).
  rewrite (bind_ok _ _ _ DispositionAccepted (moved s StateResponsePending tr)).
  2: { apply (on_setup_ok _ (set_transport tr s)). cbn [s_setup set_transport]. rewrite Hst.
       eapply arrival_received; [|exact Ha]. destruct done; cbn; auto. }
  rewrite (bind_ok _ _ _ (state_of h 0 xi d done) (moved s StateResponsePending tr)) by (unfold lift; by rewrite Hd).
  assert (validateIncomingDataOperationInfo d = true -> zlen c = zlen c) as Hv by done.
  rewrite (push_arrival h 0 xi d done c final r (zlen c) Hv Ha Hl Hc). by destruct final.
Qed.

Lemma deliver_ok h xi s d chunks :
  conversation h = s_conversationID s -> zlen (s_conversationID s) = 8 -> xi = s_connectionIndex s ->
  s_setup s = StateResponsePending ->
  deliver DispositionAccepted (state_of h 0 xi d []) (message_of h 0 xi chunks) s
  = (Ok (concat chunks), set_setup StateReady s).
Proof.
  intros Hc H8 Hx Hst. unfold deliver. munfold. cbn [Finish state_of pending set_pending message_of
    m_ConversationID m_CommunicationIndex m_ConnectionIndex m_Data].
  rewrite Hc, H8, Hx, bytes_eqb_refl, !Z.eqb_refl. cbn [negb orb]. unfold on_setup. by rewrite Hst.
Qed.

Lemma receive_replies allow h xi cs rs first :
  replies h xi first cs rs ->
  forall fuel s d done decoder rest,
  first = (match done with [] => true | _ => false end) -> (length rs <= fuel)%nat ->
  tr_ok (s_transport s) -> s_setup s = StateResponsePending -> inbox (s_transport s) = rs ++ rest ->
  zlen (concat (done ++ cs)) <= maxMessageLength d -> zlen (done ++ cs) <= maxFragments d ->
  match decoder with
  | Some d => Ok d
  | None => NewConversationDecoder (mkConversationDecoderOptions None None allow true)
  end = Ok (state_of h 0 xi d done) ->
  conversation h = s_conversationID s -> zlen (s_conversationID s) = 8 -> xi = s_connectionIndex s ->
  exists tr, tr_ok tr /\ inbox tr = rest /\ outbox tr = outbox (s_transport s) /\
    receive_loop fuel allow decoder s = (Ok (concat (done ++ cs)), moved s StateReady tr).
Proof.
  induction 1 as [first r c Ha|first r c cs rs Ha _ IH];
    intros fuel s d done decoder rest -> Hf Hok Hst Hin Hl Hc Hd E1 E2 E3;
    (destruct fuel as [|fuel]; [cbn in Hf; lia|]); cbn [app] in Hin.
  - destruct (receive_round fuel allow h xi s d done c true r rest decoder) as (tr & H1 & H2 & H3 & ->); try done.
    { by destruct done. }
    exists tr. split_and!; try done. rewrite (deliver_ok h xi (moved s StateResponsePending tr)) by done. done.
  - rewrite cons_middle, app_assoc in Hl, Hc |- *.
    destruct (receive_round fuel allow h xi s d done c false r (rs ++ rest) decoder) as (tr & H1 & H2 & H3 & ->); try done.
    { by destruct done. }
    { rewrite concat_app, zlen_app in Hl. pose proof (zlen_nonneg (concat cs)). lia. }
    { rewrite zlen_app in Hc. pose proof (zlen_nonneg cs). lia. }
    destruct (IH fuel (moved s StateResponsePending tr) d (done ++ [c]) (Some (state_of h 0 xi d (done ++ [c]))) rest)
      as (tr' & H4 & H5 & H6 & ->); try done.
    { by destruct done. } { cbn in Hf. lia. }
    exists tr'. split_and!; try done. cbn [s_transport moved set_setup set_transport] in H6. congruence.
Qed.

Lemma receive_all_replies allow h s chunks recs rest :
  replies h (s_connectionIndex s) true chunks recs ->
  conversation h = s_conversationID s -> zlen (s_conversationID s) = 8 ->
  zlen (concat chunks) <= DefaultMaxMessageLength -> zlen chunks <= DefaultMaxMessageFragments ->
  tr_ok (s_transport s) -> s_setup s = StateResponsePending -> inbox (s_transport s) = recs ++ rest ->
  exists tr, tr_ok tr /\ inbox tr = rest /\ outbox tr = outbox (s_transport s) /\
    receiveMessage allow s = (Ok (concat chunks), moved s StateReady tr).
Proof.
  intros Hr E1 E2 Hl Hc Hok Hst Hin. destruct (new_decoder_default allow) as [d Hd].
  assert (length recs = length chunks) as Hlen by (clear -Hr; induction Hr; cbn; congruence).
  assert (state_of h 0 (s_connectionIndex s) d [] = d /\ maxMessageLength d = DefaultMaxMessageLength /\
          maxFragments d = DefaultMaxMessageFragments) as (Es & Em & Ef).
  { revert Hd. vm_compute. by intros [= <-]. }
  apply (receive_replies allow h (s_connectionIndex s) chunks recs true Hr receive_fuel s d [] None rest);
    rewrite ?Es, ?Em, ?Ef; try done.
  unfold zlen in Hc. unfold receive_fuel. lia.
Qed.

(** When the peer's records carry the chunks of a reply of this conversation and connection,
    receiveMessage returns their concatenation, leaves the session ready and leaves later
    records in the transport. *)
Theorem receive_delivers_reply allow h s chunks recs rest :
  replies h (s_connectionIndex s) true chunks recs ->
  conversation h = s_conversationID s -> zlen (s_conversationID s) = 8 ->
  zlen (concat chunks) <= DefaultMaxMessageLength -> zlen chunks <= DefaultMaxMessageFragments ->
  tr_ok (s_transport s) -> s_setup s = StateResponsePending -> inbox (s_transport s) = recs ++ rest ->
  exists tr, tr_ok tr /\ inbox tr = rest /\ outbox tr = outbox (s_transport s) /\
    receiveMessage allow s = (Ok (concat chunks), moved s StateReady tr).
Proof. apply receive_all_replies. Qed.
End Reply.

(** ** One request and its reply *)

(** A compact request: the body ends with the end tag, and the eight bytes of final SAP
    parameters declare the length of the body. *)
Definition final_parameters (body tail : bytes) : bytes := be_split 2 0 ++ be_split 2 (zlen body) ++ tail.
Definition compact_request (body tail : bytes) : bytes := body ++ final_parameters body tail.

Record compact_body (body tail : bytes) : Prop := {
  cb_length : 2 <= zlen body <= MaxApplicationDataFragmentLength;
  cb_end : exists front, body = front ++ [xff; xff];
  cb_tail : zlen tail = 4;
}.

Section Exchange.
Context (body tail : bytes).
Hypothesis Hbody : compact_body body tail.

Lemma final_parameters_length : zlen (final_parameters body tail) = 8.
Proof. unfold final_parameters. rewrite !zlen_app, (cb_tail _ _ Hbody). unfold zlen. by rewrite !length_be_split. Qed.

Lemma compact_framing :
  InspectRequestAppcFraming (compact_request body tail)
  = Ok (mkRequestAppcFraming "compact" (zlen body) 8).
Proof.
  destruct (cb_end _ _ Hbody) as [front Ef]. destruct (cb_length _ _ Hbody) as [H2 Hmax].
  destruct (split_2 (zlen body)) as (a & b & Es & Ec); [unfold is_u16, MaxApplicationDataFragmentLength in *; lia|].
  assert (zlen body = zlen front + 2) as Hl by (rewrite Ef, zlen_app; done).
  replace (compact_request body tail) with (front ++ xff :: xff :: x00 :: x00 :: a :: b :: tail).
  - rewrite Hl in *. apply compact_inspected; [exact (cb_tail _ _ Hbody)|done|done].
  - unfold compact_request, final_parameters. rewrite Es. rewrite Ef. change (be_split 2 0) with [x00; x00].
    by rewrite <- app_assoc.
Qed.

Lemma final_parameters_valid : validateFinalSapParameters (final_parameters body tail) (zlen body) = Ok tt.
Proof.
  destruct (cb_length _ _ Hbody) as [H2 Hmax]. unfold MaxApplicationDataFragmentLength in Hmax.
  unfold validateFinalSapParameters. rewrite final_parameters_length. unfold final_parameters.
  destruct (split_2 (zlen body)) as (a & b & -> & Ec); [unfold is_u16; lia|].
  pose proof (cb_tail _ _ Hbody) as Ht. change (be_split 2 0) with [x00; x00].
  destruct tail as [|t1 [|t2 [|t3 [|t4 [|]]]]]; try (unfold zlen in Ht; cbn in Ht; lia).
  rewrite <- Ec. cbv beta iota zeta.
  transitivity (if negb (be_combine [a; b] =? be_combine [a; b]) then Err (EAppc APPC_ErrRange) : res unit else Ok tt);
    [reflexivity|]. by rewrite Z.eqb_refl.
Qed.

Context {Tr : Type} {TT : Transport Tr} {TS : TransportSpec Tr}.
Implicit Types s : Session Tr.

(** What [sendData] plans for a compact request. *)
Definition request_input s : OutgoingDataPlanInput :=
  mkOutgoingDataPlanInput
    (mkRecordHeaderInput None None None None None None None None None None None None None None None
       None None (Some (s_conversationID s)))
    body (Some (final_parameters body tail)) 0xffff (s_connectionIndex s).

Lemma request_plan s :
  zlen (s_conversationID s) = 8 ->
  plan_shape (request_input s) 1 (final_parameters body tail) /\
  PlanOutgoingDataFragments (request_input s) (mkOutgoingDataPlannerOptions None None StreamingDisabled)
  = Ok [planned (request_input s) 1 (s_conversationID s) (final_parameters body tail) 0].
Proof.
  intros H8. destruct (cb_length _ _ Hbody) as [H2 Hmax].
  assert (plan_shape (request_input s) 1 (final_parameters body tail)) as Hs.
  { apply compact_plan; [done|exact final_parameters_length|exact final_parameters_valid|exact Hmax]. }
  split; [exact Hs|].
  eapply (plan_complete (request_input s) (mkOutgoingDataPlannerOptions None None StreamingDisabled)
            DefaultMaxOutgoingMessageLength DefaultMaxMessageFragments StreamingDisabled 1);
    [reflexivity| |exact Hs|vm_compute; discriminate|discriminate|exact H8].
  cbn [op_ApplicationData request_input]. etrans; [exact Hmax|vm_compute; discriminate].
Qed.

Lemma send_compact s :
  zlen (s_conversationID s) = 8 -> s_closed s = false -> tr_ok (s_transport s) -> s_setup s = StateReady ->
  exists record tr,
    sendRequest (compact_request body tail) s = (Ok false, moved s StateResponsePending tr) /\
    drop 80 record = compact_request body tail /\
    tr_ok tr /\ inbox tr = inbox (s_transport s) /\ outbox tr = outbox (s_transport s) ++ [record].
Proof.
  intros H8 Hcl Hok Hst. destruct (request_plan s H8) as [Hs Hp].
  destruct (write_plan _ _ _ s [] (inbox (s_transport s)) Hp Hok Hst) as (recs & tr & Em & Ew & Hok' & Hi & Ho);
    [done|by apply Forall_nil|done|].
  destruct (cb_length _ _ Hbody) as [H2 Hmax]. unfold MaxApplicationDataFragmentLength in Hmax.
  destruct (planned_encodes (request_input s) 1 (s_conversationID s) (final_parameters body tail) 0 Hs H8
              ltac:(lia)) as (op & Hop & He).
  { etrans; [exact Hmax|vm_compute; discriminate]. }
  cbn [mapM] in Em. rewrite He in Em. cbn [mbind outcome_bind mret outcome_ret] in Em. apply Ok_inj in Em as <-.
  eexists _, tr. split_and!; [|..|exact Ho]; try done.
  - unfold sendRequest. rewrite compact_framing.
    rewrite (bind_ok _ _ s (mkRequestAppcFraming "compact" (zlen body) 8) s) by done.
    cbn [rf_FinalSapParameterLength rf_ApplicationDataLength Z.eqb negb].
    rewrite (bind_ok _ _ s (Some (final_parameters body tail)) s).
    2: { unfold lift, go_from. rewrite <- (app_nil_r (compact_request body tail)) at 1. unfold compact_request at 1.
         rewrite <- app_assoc. rewrite go_slice_mid; [done|done|]. unfold compact_request. by rewrite zlen_app. }
    rewrite (bind_ok _ _ s body s).
    2: { unfold lift. change (compact_request body tail) with ([] ++ body ++ final_parameters body tail).
         by rewrite go_slice_mid. }
    unfold sendData. rewrite (bind_ok _ _ s s s) by done. rewrite Hcl.
    fold (request_input s). rewrite Hp. erewrite bind_ok by reflexivity. by rewrite (bind_ok _ _ _ _ _ Ew).
  - set (f := planned _ _ _ _ 0) in *. unfold step_record. rewrite app_assoc, drop_app_length'.
    + unfold compact_request. f_equal. unfold f, planned. cbn [of_ApplicationData op_ApplicationData request_input].
      change (Z.to_nat (0 * 28000)) with 0%nat. rewrite drop_0. apply take_ge. unfold zlen in Hmax. lia.
    + pose proof (header_bytes_length (record_header (of_FunctionCode f) (headerInput f) (of_SapParameterLength f)) H8) as Hh.
      rewrite length_app. unfold zlen in Hop, Hh. lia.
Qed.

Lemma exchange_ok s h chunks recs rest :
  zlen (s_conversationID s) = 8 -> s_closed s = false -> s_setup s = StateReady -> tr_ok (s_transport s) ->
  replies h (s_connectionIndex s) true chunks recs -> conversation h = s_conversationID s ->
  zlen (concat chunks) <= DefaultMaxMessageLength -> zlen chunks <= DefaultMaxMessageFragments ->
  inbox (s_transport s) = recs ++ rest ->
  exists record tr,
    exchange (compact_request body tail) s = (Ok (concat chunks), moved s StateReady tr) /\
    drop 80 record = compact_request body tail /\
    tr_ok tr /\ inbox tr = rest /\ outbox tr = outbox (s_transport s) ++ [record].
Proof.
  intros H8 Hcl Hst Hok Hr Hc Hl Hn Hin.
  destruct (send_compact s H8 Hcl Hok Hst) as (record & tr1 & Es & Hd & Hok1 & Hi1 & Ho1). rewrite Hin in Hi1.
  destruct (receive_all_replies false h (moved s StateResponsePending tr1) chunks recs rest)
    as (tr2 & Hok2 & Hi2 & Ho2 & Er); try done.
  exists record, tr2. split_and!; try done; [|cbn in Ho2; congruence].
  unfold exchange. by rewrite (bind_ok _ _ _ _ _ Es), Er.
Qed.

(** C2: On a ready session whose peer answers with records that carry the chunks of a reply,
    exchanging a compact request of at most 28,000 bytes sends exactly one record, whose
    data is the request, and returns the concatenation of the chunks; the session is ready
    again and what the peer sent after the reply is still to be received. *)
Theorem exchange_roundtrip s h chunks recs rest :
  zlen (s_conversationID s) = 8 -> s_closed s = false -> s_setup s = StateReady -> tr_ok (s_transport s) ->
  replies h (s_connectionIndex s) true chunks recs -> conversation h = s_conversationID s ->
  zlen (concat chunks) <= DefaultMaxMessageLength -> zlen chunks <= DefaultMaxMessageFragments ->
  inbox (s_transport s) = recs ++ rest ->
  exists record tr,
    exchange (compact_request body tail) s = (Ok (concat chunks), moved s StateReady tr) /\
    drop 80 record = compact_request body tail /\
    tr_ok tr /\ inbox tr = rest /\ outbox tr = outbox (s_transport s) ++ [record].
Proof. apply exchange_ok. Qed.
End Exchange.

(** ** Instances of the theorems of the session *)

(** The header of the sample peer, and one of its data records. *)
Definition peer_header : RecordHeaderInput :=
  mkRecordHeaderInput None None None None None None None None None None None None None None None
    None None (Some (lit "12345678")).

Definition peer_record (fc : Function_) (data : bytes) (final : bool) : bytes :=
  match encodeRecord fc (set_vector (if final then 4 else 0) peer_header)
          (zeros 10 ++ be_split 2 (zlen data) ++ zeros 18 ++ be_split 2 5) 0 [data] "reply" with
  | Ok r => r
  | _ => []
  end.

Definition peer_reply : list bytes := Eval vm_compute in
  [peer_record FuncSapSend (lit "part one, ") false; peer_record FuncReceive (lit "part two") true].

Definition peer_session (st : ClientSetupState) (incoming : list bytes) : Session Script :=
  mkSession (mkScript incoming []) st (lit "12345678") 5 (lit "127.0.0.1") (lit "host")
    (lit "open-rfc") [] (lit "sapdp00") false false.

Lemma peer_replies : replies peer_header 5 true [lit "part one, "; lit "part two"] peer_reply.
Proof.
  apply replies_more; [|apply replies_last]; split;
    first [eexists; split; [vm_compute; reflexivity|]; split_and!; vm_compute; reflexivity
          |vm_compute; reflexivity
          |eexists; split; vm_compute; reflexivity].
Qed.

Lemma receive_delivers_reply_witness :
  exists tr, receiveMessage false (peer_session StateResponsePending peer_reply)
    = (Ok (lit "part one, part two"), moved (peer_session StateResponsePending peer_reply) StateReady tr).
Proof.
  destruct (receive_delivers_reply false peer_header (peer_session StateResponsePending peer_reply)
    [lit "part one, "; lit "part two"] peer_reply [] peer_replies eq_refl eq_refl
    ltac:(vm_compute; discriminate) ltac:(vm_compute; discriminate) I eq_refl
    ltac:(symmetry; apply app_nil_r)) as (tr & _ & _ & _ & H).
  exists tr. exact H.
Defined.

Lemma receive_terminates_witness :
  fst (receiveMessage true (peer_session StateResponsePending [])) <> Err EFuel.
Proof.
  apply (receive_terminates (fun _ => True) true (peer_session StateResponsePending []) receive_fuel).
  - intros [[|p ps] out] _; split; done.
  - done.
  - done.
Defined.

Definition peer_request_body : bytes := lit "a request" ++ [xff; xff].

Lemma peer_request_compact : compact_body peer_request_body (zeros 4).
Proof. split; [vm_compute; split; discriminate|by eexists|reflexivity]. Qed.

Lemma exchange_roundtrip_witness :
  exists tr, exchange (compact_request peer_request_body (zeros 4)) (peer_session StateReady peer_reply)
    = (Ok (lit "part one, part two"), moved (peer_session StateReady peer_reply) StateReady tr).
Proof.
  destruct (exchange_roundtrip peer_request_body (zeros 4) peer_request_compact (peer_session StateReady peer_reply)
    peer_header [lit "part one, "; lit "part two"] peer_reply [] eq_refl eq_refl eq_refl ltac:(exact I) peer_replies eq_refl
    ltac:(vm_compute; discriminate) ltac:(vm_compute; discriminate)
    ltac:(symmetry; apply app_nil_r)) as (record & tr & H & _).
  exists tr. exact H.
Defined.

(** A full fragment, a rest and the closing record: no barrier among the first twenty-one. *)
Lemma write_plan_delivers_witness :
  exists recs tr,
    writeDataPlan (map (planned sample_plan_input 3 (zeros 8) []) (seqZ 0 3)) (peer_session StateReady [])
    = (Ok tt, moved (peer_session StateReady []) StateResponsePending tr) /\ sc_out tr = recs /\ sc_in tr = [].
Proof.
  destruct (write_plan_delivers sample_plan_input sample_plan_options
    (map (planned sample_plan_input 3 (zeros 8) []) (seqZ 0 3)) (peer_session StateReady []) [] [])
    as (recs & tr & _ & H & _ & Hi & Ho).
  - apply (plan_complete sample_plan_input sample_plan_options DefaultMaxOutgoingMessageLength
      DefaultMaxMessageFragments StreamingEnabled 3 []);
      [reflexivity| |apply streamed_plan; [reflexivity|..]|vm_compute; discriminate|reflexivity|reflexivity];
      unfold zlen, sample_plan_input, sample_message; cbn [op_ApplicationData]; rewrite ?length_replicate;
      unfold DefaultMaxOutgoingMessageLength; lia.
  - done.
  - done.
  - done.
  - by apply Forall_nil.
  - reflexivity.
  - exists recs, tr. split; [exact H|]. split; [exact Ho|exact Hi].
Defined.

(** The replies of a gateway that accepts the session. *)
Definition peer_handshake : list bytes := Eval vm_compute in
  map (fun m : res bytes => match m with Ok b => b | _ => [] end)
    [Gateway.EncodeNormalClient
       (Gateway.mkNormalClientRecord (lit "127.0.0.1") (lit "sapdp00") (lit "4103") 6 (lit "lu") (lit "tp") [] 6
          0x7f (-1) 0 0);
     EncodeControlRecord
       (mkControlRecordInput peer_header FuncInitialize (Some (mkExtendedInfo (lit "NWRFC") [] [] 0 0 0 5)) None []);
     EncodeControlRecord
       (mkControlRecordInput peer_header FuncAllocate (Some (mkExtendedInfo [] [] [] 0 0 0 5)) None [])].

Definition peer_environment : Environment :=
  mkEnvironment (lit "workstation") (lit "user") (lit "0123456789ABCDEF") (lit "FEDCBA9876543210").
Definition peer_options : SessionOptions :=
  mkSessionOptions (lit "host") [] (lit "sapdp00") [] [].

Lemma open_ready_witness :
  exists s, Open peer_environment peer_options (mkScript peer_handshake []) = Ok s /\
    s_setup s = StateReady /\ zlen (s_conversationID s) = 8 /\ zlen (sc_out (s_transport s)) = 4.
Proof.
  destruct (Open peer_environment peer_options (mkScript peer_handshake [])) as [s| |] eqn:E;
    [|vm_compute in E; discriminate..].
  exists s. split; [reflexivity|]. destruct (open_ready _ _ _ _ E) as (H1 & H2 & _).
  split; [exact H1|]. split; [exact H2|]. vm_compute in E. injection E as <-. reflexivity.
Defined.
