(* ===== verification/ClientCalls.v ===== *)
(** Package [client], internal/client/session.go, on top of [exchange]: the initial logon,
    the calls, server-initiated callbacks and the smoke-test call.

    The random session identifier, the seed of the password scrambler and the host name are
    arguments.  A callback handler is a computation with a state of its own, beside the
    session.  The environment variable that prints the logon response is left out.

    The loop that serves callbacks ends when the server stops calling back, so its bound is
    an argument; without a handler the first round is the last one.

    The theorems: a logon authenticates the session exactly when the server's response says
    so; no call touches the connection before that; a call to a function of the server's
    dispatcher returns what its handler returned, through both codecs and the records of
    both sides; and callbacks are answered in order, each before anything further is read,
    until the response arrives. *)
From stdpp Require Import base list numbers strings.
From Stdlib Require Import ZArith Lia Strings.Byte.
From S2P Require Import Prelude Errors Wire Appc AppcRecords AppcFragmentation AppcConversation.
From S2P Require Import Text Transport Rfcpro Rfcerr Cpic CpicFunction CpicLogon ClassicRfc ServerRequest ServerResponse ClientSession.

Open Scope Z_scope.

Record LogonOptions : Type := mkLogonOptions {
  lo_Client : bytes;
  lo_User : bytes;
  lo_Password : bytes;
  lo_Ticket : bytes;
  lo_Language : bytes;
  lo_PartnerHostName : bytes;
  lo_KernelRelease : bytes;
}.

Record CallResult : Type := mkCallResult {
  cr_Success : bool;
  cr_Fields : list Cpic.Field;
  cr_Envelope : Envelope;
}.

Definition call_result (decoded : DecodedFunctionResultFields) : CallResult :=
  mkCallResult (rf_Success decoded) (rf_Fields decoded) (rf_Envelope decoded).

Definition CallbackHandler (H : Type) : Type := bytes -> M H bytes.

(** The first four bytes are those of a request. *)
Definition isCallbackRequest (data : bytes) : bool :=
  match data with
  | a :: b :: c :: d :: _ => bool_decide (a = x05) && bool_decide (b = x02) && bool_decide (c = x00) && bool_decide (d = x00)
  | _ => false
  end.

(** Why an unsuccessful logon failed. *)
Definition refusal (decoded : DecodedInitialLogonResponse) : logon_refusal :=
  let by_status := match lr_Status decoded with Some status => RefusedWithStatus status | None => Refused end in
  match lr_Rejection decoded with
  | Some rejection => match rj_Text rejection with [] => by_status | text => RefusedWithText text end
  | None => by_status
  end.

Section Calls.
Context {Tr : Type} {TT : Transport Tr}.

Definition set_authenticated (sessionID : bytes) (s : Session Tr) : Session Tr :=
  mkSession (s_transport s) (s_setup s) (s_conversationID s) (s_connectionIndex s) (s_localAddress s)
    (s_destination s) (s_programName s) sessionID (s_service s) true (s_closed s).

(** The request of [LogonAndPing], with its defaults. *)
Definition logon_input (hostname : bytes) (opts : LogonOptions) (sessionID : bytes) (s : Session Tr)
    : InitialLogonRequestInput :=
  mkLogonInput (lo_Client opts) (lo_User opts) (lo_Password opts) (lo_Ticket opts)
    (CpicLogon.or_default (lo_Language opts) (lit "E")) (s_localAddress s) []
    (CpicLogon.or_default (lo_PartnerHostName opts) hostname) (s_destination s) (s_programName s) (lit "RFCPING")
    (lo_KernelRelease opts) (Some sessionID) None None.

Definition LogonAndPing (hostname : bytes) (seed random : res bytes) (opts : LogonOptions) : M (Session Tr) unit :=
  s ← get;
  if s_authenticated s then fail errSession
  else
    sessionID ← lift random;
    req ← lift (EncodeInitialLogonRequest seed random (logon_input hostname opts sessionID s));
    response ← exchange req;
    match DecodeInitialLogonResponse response with
    | Panic => lift Panic
    | Err _ => fail errSession
    | Ok decoded =>
        if negb (lr_Success decoded) then fail (EClient (ErrLogonRefused (refusal decoded)))
        else
          s ← get;
          put (set_authenticated sessionID s)
    end.

(** [CutFunctionRequestInput] as [Call] fills it. *)
Definition call_input (functionName : bytes) (imports : list NamedValue) (requestedOutputs : list bytes)
    : CutFunctionRequestInput :=
  mkCutFunctionRequestInput functionName requestedOutputs imports [] [] [] None.

Definition Call (functionName : bytes) (imports : list NamedValue) (requestedOutputs : list bytes)
    : M (Session Tr) CallResult :=
  s ← get;
  if negb (s_authenticated s) then fail errSession
  else
    req ← lift (EncodeCutFunctionRequest (call_input functionName imports requestedOutputs));
    response ← exchange req;
    decoded ← lift (DecodeFunctionResultFields response);
    mret (call_result decoded).

(** A computation of the session, or of the handler, in the state that holds both. *)
Definition on_session {H A} (m : M (Session Tr) A) : M (Session Tr * H) A := fun st =>
  let '(r, s) := m (fst st) in (r, (s, snd st)).
Definition on_handler {H A} (m : M H A) : M (Session Tr * H) A := fun st =>
  let '(r, h) := m (snd st) in (r, (fst st, h)).

Fixpoint call_loop {H} (fuel : nat) (onCallback : option (CallbackHandler H)) (async : bool)
    : M (Session Tr * H) CallResult :=
  match fuel with
  | O => fail EFuel
  | S fuel =>
      data ← on_session (receiveMessage async);
      if isCallbackRequest data then
        match onCallback with
        | None => fail errSession
        | Some handler =>
            resp ← on_handler (handler data);
            async ← on_session (sendRequest resp);
            call_loop fuel onCallback async
        end
      else
        decoded ← lift (DecodeFunctionResultFields data);
        mret (call_result decoded)
  end.

Definition CallWithCallbacks {H} (fuel : nat) (request : bytes) (onCallback : option (CallbackHandler H))
    : M (Session Tr * H) CallResult :=
  st ← get;
  if negb (s_authenticated (fst st)) then fail errSession
  else
    async ← on_session (sendRequest request);
    call_loop fuel onCallback async.

(** [CallRaw] passes no handler: one round of the loop. *)
Definition CallRaw (request : bytes) : M (Session Tr) CallResult := fun s =>
  if negb (s_authenticated s) then (Err errSession, s)
  else
    let '(r, (s, _)) := CallWithCallbacks 1 request (None : option (CallbackHandler unit)) (s, tt) in
    (r, s).

(** The two texts of STFC_CONNECTION, from the scalars in order. *)
Fixpoint echo_texts (scalars : list Scalar) (echo resp : bytes) : res (bytes * bytes) :=
  match scalars with
  | [] => Ok (echo, resp)
  | scalar :: scalars =>
      if bytes_eqb (sc_Name scalar) (lit "ECHOTEXT") then
        echo ← DecodeAbapChar (sc_Value scalar) None; echo_texts scalars echo resp
      else if bytes_eqb (sc_Name scalar) (lit "RESPTEXT") then
        resp ← DecodeAbapChar (sc_Value scalar) None; echo_texts scalars echo resp
      else echo_texts scalars echo resp
  end.

Definition CallSTFCConnection (requtext : bytes) : M (Session Tr) (bytes * bytes) :=
  value ← lift (EncodeAbapChar requtext 255);
  result ← Call (lit "STFC_CONNECTION") [mkNamedValue (lit "REQUTEXT") value] [lit "ECHOTEXT"; lit "RESPTEXT"];
  classic ← lift (decodeResult (cr_Fields result));
  lift (echo_texts (res_Scalars classic) [] []).

Definition Authenticated (s : Session Tr) : bool := s_authenticated s.
End Calls.

(** ** The server's records as the client receives them *)

(** What the client's decoder finds in the header of a record built for an answer. *)
Definition answer_header (convID : bytes) : RecordHeaderInput :=
  mkRecordHeaderInput None None None None None None None None None None None (Some 1) None None None
    None None (Some convID).

Lemma short_length_bytes v : is_u16 v -> exists a b, be_split 4 v = [x00; x00; a; b] /\ be_combine [a; b] = v.
Proof.
  intros Hv. destruct (split_2 v Hv) as (a & b & E & Hc). exists a, b. split; [|exact Hc].
  rewrite <- Hc. change (be_combine [a; b]) with (be_combine [x00; x00; a; b]). apply (be_split_combine [x00; x00; a; b]).
Qed.

Lemma uid_bytes v : exists a b, be_split 2 v = [a; b].
Proof. pose proof (length_be_split 2 v). destruct (be_split 2 v) as [|a [|b [|]]]; try discriminate. by exists a, b. Qed.

(** A record made of a header, the operation info and its data. *)
Lemma arrives_parts h ci xi hd op data fc final n header :
  length hd = 48%nat -> length op = 32%nat ->
  run decode_header_fields (Reader.NewReader hd "APPC common header") = Ok header ->
  h_FunctionCode header = fc -> h_AppcReturnCode header = 0 -> h_SapReturnCode header = 0 ->
  h_ConversationID header = conversation h -> h_SequenceNumber header = sequence h ->
  negb (Z.land (h_Vector header) VectorEndOfMessage =? 0) = final ->
  DecodeIncomingDataOperationInfo op = Ok (mkIncomingDataOperationInfo n ci xi) ->
  arrives h ci xi ((hd ++ op) ++ data) fc data final n.
Proof.
  intros Hh Ho Hr E1 E2 E3 E4 E5 E6 Hi.
  assert (zlen hd = 48 /\ zlen op = 32) as [Zh Zo] by (unfold zlen; lia). rewrite <- app_assoc. split.
  - exists header. split_and!; try done. unfold DecodeHeader, CommonHeaderLength. rewrite !zlen_app.
    pose proof (zlen_nonneg data). destruct (Z.ltb_spec (zlen hd + (zlen op + zlen data)) 48); [lia|].
    rewrite (go_slice_mid [] hd (op ++ data)) by (done || lia). exact Hr.
  - rewrite !zlen_app. lia.
  - unfold RecordHeaderLength. rewrite app_assoc. apply go_from_app. rewrite zlen_app. lia.
  - exists op. split; [|exact Hi]. apply go_slice_mid; [done|unfold RecordHeaderLength; lia].
Qed.

(** One record of an answer arrives with its data, whatever the user identifier. *)
Lemma built_record_arrives data convID uid xi (first final : bool) :
  zlen convID = 8 -> zlen data <= maxRecordData -> is_u16 xi ->
  arrives (answer_header convID) 0 xi
    (buildEclipseRecord data convID uid (if first then appcFSapSend else appcFReceive) final ([x00; x00] ++ be_split 2 xi))
    (if first then FuncSapSend else FuncReceive) data final (zlen data).
Proof.
  intros H8 Hd Hx. pose proof (zlen_nonneg data) as H0. unfold maxRecordData in Hd.
  destruct (short_length_bytes (zlen data)) as (l0 & l1 & El & Hl); [unfold is_u16; lia|]. destruct (uid_bytes uid) as (u0 & u1 & Eu).
  destruct (split_2 xi Hx) as (y0 & y1 & Ey & Hy).
  destruct convID as [|c0 [|c1 [|c2 [|c3 [|c4 [|c5 [|c6 [|c7 [|]]]]]]]]]; try (unfold zlen in H8; cbn in H8; lia).
  unfold buildEclipseRecord, ServerResponse.record_header, put_be. rewrite Eu, Ey.
  replace (uint32 (zlen data)) with (zlen data) by (unfold uint32; rewrite Z.mod_small; lia). rewrite El.
  rewrite <- Hl, <- Hy. clear.
  match goal with |- arrives _ _ _ (?l ++ _) _ _ _ _ => rewrite <- (take_drop 48 l) end.
  destruct first, final; (eapply arrives_parts;
    [vm_compute; reflexivity|vm_compute; reflexivity|vm_compute; reflexivity|reflexivity|reflexivity|reflexivity|reflexivity
    |reflexivity|reflexivity|vm_compute; reflexivity]).
Qed.

Lemma top_up_length pieces : length (top_up pieces) = length pieces.
Proof.
  unfold top_up. destruct (rev pieces) as [|last_ [|prev front]] eqn:E; [done..|].
  destruct (_ <? _); [|done]. rewrite <- (length_rev pieces), E, length_app, length_rev. cbn [length]. lia.
Qed.

(** The pieces an answer is cut into. *)
Lemma answer_pieces cut convID uid cc :
  zlen cut <= DefaultMaxMessageLength ->
  exists pieces, pieces <> [] /\ concat pieces = cut /\ Forall (fun p => zlen p <= maxRecordData) pieces /\
    zlen pieces <= DefaultMaxMessageFragments /\ eclipseRecords cut convID uid cc = number_records true pieces convID uid cc.
Proof.
  intros Hmax. unfold eclipseRecords. destruct (Z.leb_spec (zlen cut) maxRecordData) as [Hs|Hl].
  { exists [cut]. cbn [concat number_records]. rewrite app_nil_r. split_and!; try done. by apply Forall_singleton. }
  destruct (slices_ok (Z.to_nat maxRecordData) (length cut) cut ltac:(unfold maxRecordData; lia) ltac:(lia)) as [Hc Hp].
  set (ps := slices (length cut) (Z.to_nat maxRecordData) cut) in *.
  destruct Hp as [->|(front & last_ & Ep & Hf & Hlast)]; [by vm_compute in Hl|].
  assert (front <> []) as Hne.
  { intros ->. rewrite Ep in Hc. cbn in Hc. rewrite app_nil_r in Hc. subst last_. unfold zlen, maxRecordData in *. lia. }
  destruct (top_up_ok _ front last_ Ep Hne Hf Hlast) as (Hcc & front' & last' & Et & Hall & _).
  exists (top_up ps). split; [by rewrite Et; destruct front'|]. split; [by rewrite Hcc|]. split; [done|]. split; [|done].
  unfold zlen. rewrite top_up_length, Ep, length_app.
  assert (length (concat front) = length front * Z.to_nat maxRecordData)%nat as Hfl.
  { clear -Hf. induction Hf as [|p front Hp _ IH]; [done|]. cbn [concat length]. rewrite length_app, IH, Hp. lia. }
  assert (length cut = length (concat front) + length last_)%nat as Hlen.
  { rewrite <- Hc, Ep, concat_app, length_app. cbn [concat]. by rewrite app_nil_r. }
  unfold zlen, DefaultMaxMessageLength, DefaultMaxMessageFragments, maxRecordData in *. cbn [length]. lia.
Qed.

Lemma numbered_replies convID uid xi pieces first :
  zlen convID = 8 -> is_u16 xi -> pieces <> [] -> Forall (fun p => zlen p <= maxRecordData) pieces ->
  replies (answer_header convID) xi first pieces (number_records first pieces convID uid ([x00; x00] ++ be_split 2 xi)).
Proof.
  intros H8 Hx. revert first. induction pieces as [|p pieces IH]; intros first Hne Hf; [done|].
  apply Forall_cons in Hf as [Hp Hf]. cbn [number_records]. destruct pieces as [|q pieces].
  - apply replies_last. by apply built_record_arrives.
  - apply replies_more; [by apply built_record_arrives|]. by apply IH.
Qed.

(** The records of an answer reach the client as the chunks of a reply of its conversation. *)
Lemma answer_replies cut convID uid callerInfo xi :
  zlen convID = 8 -> is_u16 xi -> zlen callerInfo = 4 -> drop 2 callerInfo = be_split 2 xi ->
  zlen cut <= DefaultMaxMessageLength ->
  exists chunks, concat chunks = cut /\ zlen chunks <= DefaultMaxMessageFragments /\
    replies (answer_header convID) xi true chunks (responseRecords cut convID uid callerInfo).
Proof.
  intros H8 Hx H4 Hi Hmax. unfold responseRecords. rewrite H4, Hi. cbn [Z.eqb Pos.eqb].
  destruct (answer_pieces cut convID uid ([x00; x00] ++ be_split 2 xi) Hmax) as (ps & Hne & Hc & Hf & Hn & ->).
  exists ps. split_and!; try done. by apply numbered_replies.
Qed.

(** ** Requests of one record *)
Lemma compact_parts front max :
  zlen front + 2 <= MaxApplicationDataFragmentLength ->
  let body := front ++ [xff; xff] in
  compact_body body (be_split 4 max) /\
  compact_request body (be_split 4 max)
  = front ++ be_split 2 TagEnd ++ be_split 2 0 ++ be_split 2 (zlen front + 2) ++ be_split 4 max.
Proof.
  intros Hl. cbv zeta. pose proof (zlen_nonneg front). split.
  - split; [rewrite zlen_app; change (zlen [xff; xff]) with 2; lia|by eexists|]. by rewrite zlen_be_split.
  - unfold compact_request, final_parameters. rewrite zlen_app, <- app_assoc. done.
Qed.

Lemma cut_request_compact input p :
  EncodeCutFunctionRequest input = Ok p -> zlen p <= MaxApplicationDataFragmentLength ->
  exists body tail, compact_body body tail /\ p = compact_request body tail.
Proof.
  unfold EncodeCutFunctionRequest. intros H Hl. ok_step H as k Hk. cbv zeta in H. ok_step H as u Hu. ok_step H as fs Hfs.
  destruct (inner_split fs (cut_fields_inner _ _ _ Hfs)) as (_ & Hf & _). apply (close_packet_inv _ _ _ _ _ Hf) in H.
  set (chain := chain_bytes _ _) in *. unfold packetTrailer in H. set (n := _ + zlen chain) in H.
  assert (n + 2 <= zlen p) as Hn.
  { rewrite H, !zlen_app. fold n. pose proof (zlen_nonneg chain). unfold n. destruct (_ <? _); [change (zlen [xff; xff]) with 2|rewrite !zlen_app, !zlen_be_split]; lia. }
  destruct (Z.ltb_spec MaxApplicationDataFragmentLength (n + 2)); [lia|].
  destruct (compact_parts (cpicCutFunctionRequestPrefix ++ chain) (checkedMaximumRfcPacketSize (MaximumRfcPacketSize input))) as [H1 H2];
    [rewrite zlen_app; fold n; lia|].
  eexists _, _. split; [exact H1|]. rewrite H2, H, zlen_app. fold n. rewrite <- app_assoc. do 5 f_equal.
  unfold uint16. rewrite Z.mod_small; [done|]. unfold n. pose proof (zlen_nonneg chain). pose proof (zlen_nonneg cpicCutFunctionRequestPrefix).
  unfold MaxApplicationDataFragmentLength, n in *. lia.
Qed.

Lemma logon_compact seed session input p :
  gives seed 4 -> gives session 16 -> option_u32 (li_PasswordSeed input) ->
  EncodeInitialLogonRequest seed session input = Ok p -> zlen p <= MaxApplicationDataFragmentLength ->
  exists body tail, compact_body body tail /\ p = compact_request body tail.
Proof.
  intros Hseed Hses Hu (fs & Hf & H)%encode_logon_inv Hl.
  destruct (logon_fields_inv _ _ _ _ Hseed Hses Hu Hf) as (pw & sid & _ & _ & _ & ->).
  destruct (H (proj1 (proj2 (inner_split _ (sent_inner _ pw sid input))))) as (_ & _ & ->). clear H Hf.
  set (fs := _ ++ [mkField TagEnd []]) in *. unfold logon_packet in *. cbv zeta in *. set (chain := chain_bytes TagStart fs) in *.
  rewrite !zlen_app, !zlen_be_split in Hl. change (zlen initialSignature) with 12 in Hl. change (zlen initialPrefix) with 6 in Hl.
  set (m := checkedMaximumRfcPacketSize _) in *.
  destruct (compact_parts (initialSignature ++ initialPrefix ++ chain) m) as [H1 H2];
    [rewrite !zlen_app; change (zlen initialSignature) with 12; change (zlen initialPrefix) with 6; lia|].
  eexists _, _. split; [exact H1|]. rewrite H2, !zlen_app, <- !app_assoc.
  change (zlen initialSignature) with 12. change (zlen initialPrefix) with 6. do 7 f_equal. lia.
Qed.

(** ** A call through both ends *)

(** A session that can exchange messages. *)
Record ready {Tr} `{TransportSpec Tr} (s : Session Tr) : Prop := {
  rd_conversation : zlen (s_conversationID s) = 8;
  rd_open : s_closed s = false;
  rd_setup : s_setup s = StateReady;
  rd_transport : tr_ok (s_transport s);
  rd_index : is_u16 (s_connectionIndex s);
}.

(** The peer's next records carry [data] in the conversation of the session. *)
Definition arriving {Tr} (s : Session Tr) (recs : list bytes) (data : bytes) : Prop :=
  exists h chunks, replies h (s_connectionIndex s) true chunks recs /\ conversation h = s_conversationID s /\
    concat chunks = data /\ zlen data <= DefaultMaxMessageLength /\ zlen chunks <= DefaultMaxMessageFragments.

Section Ends.
Context {Tr : Type} {TT : Transport Tr} {TS : TransportSpec Tr}.
Implicit Types s : Session Tr.

Lemma exchange_answered s body tail recs data rest :
  ready s -> compact_body body tail -> arriving s recs data -> inbox (s_transport s) = recs ++ rest ->
  exists record tr,
    exchange (compact_request body tail) s = (Ok data, moved s StateReady tr) /\
    drop 80 record = compact_request body tail /\
    tr_ok tr /\ inbox tr = rest /\ outbox tr = outbox (s_transport s) ++ [record].
Proof.
  intros [H1 H2 H3 H4 H5] Hb (h & chunks & Hr & Hc & <- & Hl & Hn) Hi.
  exact (exchange_ok body tail Hb s h chunks recs rest H1 H2 H3 H4 Hr Hc Hl Hn Hi).
Qed.

Lemma answer_arriving s q uid callerInfo :
  ready s -> zlen q <= DefaultMaxMessageLength -> zlen callerInfo = 4 ->
  drop 2 callerInfo = be_split 2 (s_connectionIndex s) ->
  arriving s (responseRecords q (s_conversationID s) uid callerInfo) q.
Proof.
  intros [H1 _ _ _ H5] Hq H4 Hd.
  destruct (answer_replies q (s_conversationID s) uid callerInfo (s_connectionIndex s) H1 H5 H4 Hd Hq) as (chunks & Hc & Hn & Hr).
  by exists (answer_header (s_conversationID s)), chunks.
Qed.

Lemma call_answered s name imports outputs p recs data rest :
  ready s -> s_authenticated s = true -> EncodeCutFunctionRequest (call_input name imports outputs) = Ok p ->
  zlen p <= MaxApplicationDataFragmentLength -> arriving s recs data -> inbox (s_transport s) = recs ++ rest ->
  exists record tr,
    Call name imports outputs s = (call_result <$> DecodeFunctionResultFields data, moved s StateReady tr) /\
    drop 80 record = p /\ tr_ok tr /\ inbox tr = rest /\ outbox tr = outbox (s_transport s) ++ [record].
Proof.
  intros Hs Ha Hp Hl Hd Hi. destruct (cut_request_compact _ _ Hp Hl) as (body & tail & Hb & ->).
  destruct (exchange_answered s body tail recs data rest Hs Hb Hd Hi) as (record & tr & Ex & H).
  exists record, tr. split; [|exact H]. unfold Call. rewrite (bind_ok _ _ s s s) by done. rewrite Ha. cbn [negb].
  rewrite Hp. rewrite (bind_ok _ _ s (compact_request body tail) s) by done. rewrite (bind_ok _ _ _ _ _ Ex).
  by destruct (DecodeFunctionResultFields data).
Qed.

(** C1: A call of a function that the server's dispatcher has a handler for, on an
    authenticated session whose peer answers with the server's records: the one record sent
    holds the request, the dispatcher runs the handler on what the caller passed, and the
    call returns a success that decodes to exactly the exports, tables and documents the
    handler returned; the session is ready for the next call. *)
Theorem remote_call s d name imports outputs p h resp q uid callerInfo rest :
  ready s -> s_authenticated s = true ->
  EncodeCutFunctionRequest (call_input name imports outputs) = Ok p -> zlen p <= MaxApplicationDataFragmentLength ->
  readable (call_input name imports outputs) -> d_handlers d name = Some h ->
  h (request_of (call_input name imports outputs) (lit "754")) = Returned resp ->
  EncodeCutFunctionResponse (rs_Exports resp) (rs_Tables resp) (rs_XrfcParameters resp) = Ok q ->
  readable_answer (rs_Exports resp) (rs_Tables resp) -> zlen q <= DefaultMaxMessageLength ->
  zlen callerInfo = 4 -> drop 2 callerInfo = be_split 2 (s_connectionIndex s) ->
  inbox (s_transport s) = responseRecords q (s_conversationID s) uid callerInfo ++ rest ->
  Dispatch d p = Ok q /\
  exists record tr result xps,
    Call name imports outputs s = (Ok result, moved s StateReady tr) /\ ready (moved s StateReady tr) /\
    outbox tr = outbox (s_transport s) ++ [record] /\ drop 80 record = p /\ inbox tr = rest /\
    cr_Success result = true /\ map xp_Value xps = map nv_Value (rs_XrfcParameters resp) /\
    decodeResult (cr_Fields result)
    = Ok (mkResult [] (map (fun e => mkScalar (nv_Name e) (nv_Value e)) (rs_Exports resp)) (map client_table (rs_Tables resp)) xps).
Proof.
  intros Hs Ha Hp Hl Hr Hh Hres Hq Hra Hm H4 Hd Hi.
  destruct (dispatch_answers d _ p h resp q Hp Hr Hh) as [Hdis (dec & xps & E1 & E2 & E3 & E4)]; try done.
  { cbn [KernelRelease call_input]. by intros k [= <-]. }
  split; [exact Hdis|].
  destruct (call_answered s name imports outputs p _ q rest Hs Ha Hp Hl (answer_arriving s q uid callerInfo Hs Hm H4 Hd) Hi)
    as (record & tr & Ec & Hrec & Hok & Hin & Hout).
  exists record, tr, (call_result dec), xps. rewrite E1 in Ec. split; [exact Ec|]. split; [by destruct Hs|]. by split_and!.
Qed.
End Ends.

(** ** The logon *)
Section Logon.
Context {Tr : Type} {TT : Transport Tr} {TS : TransportSpec Tr}.
Implicit Types s : Session Tr.

(** C6: A logon on a ready session sends exactly the logon message and marks the session
    authenticated, with its session identifier, exactly when the response the peer answers
    with decodes as a success; a refusal is reported with the server's text or status, a
    malformed response as a session error, and both leave the session unauthenticated. *)
Theorem logon_authenticates s hostname seed sid opts p recs data rest :
  ready s -> s_authenticated s = false -> gives seed 4 -> zlen sid = 16 ->
  EncodeInitialLogonRequest seed (Ok sid) (logon_input hostname opts sid s) = Ok p ->
  zlen p <= MaxApplicationDataFragmentLength ->
  arriving s recs data -> inbox (s_transport s) = recs ++ rest ->
  exists record tr,
    drop 80 record = p /\ outbox tr = outbox (s_transport s) ++ [record] /\ inbox tr = rest /\ tr_ok tr /\
    LogonAndPing hostname seed (Ok sid) opts s
    = match DecodeInitialLogonResponse data with
      | Ok decoded =>
          if lr_Success decoded then (Ok tt, set_authenticated sid (moved s StateReady tr))
          else (Err (EClient (ErrLogonRefused (refusal decoded))), moved s StateReady tr)
      | _ => (Err errSession, moved s StateReady tr)
      end.
Proof.
  intros Hs Ha Hseed Hsid Hp Hl Hd Hi.
  destruct (logon_compact seed (Ok sid) (logon_input hostname opts sid s) p Hseed ltac:(by exists sid) I Hp Hl) as (body & tail & Hb & ->).
  destruct (exchange_answered s body tail recs data rest Hs Hb Hd Hi) as (record & tr & Ex & Hrec & Hok & Hin & Hout).
  exists record, tr. split_and!; try done. unfold LogonAndPing. rewrite (bind_ok _ _ s s s) by done. rewrite Ha.
  rewrite (bind_ok _ _ s sid s) by done. rewrite Hp, (bind_ok _ _ s (compact_request body tail) s) by done.
  rewrite (bind_ok _ _ _ _ _ Ex). pose proof (logon_response_total data) as [Ht _].
  destruct (DecodeInitialLogonResponse data) as [r| |]; [|done|done]. by destruct (lr_Success r).
Qed.
End Logon.

(** ** Callbacks *)

(** The messages a session can send: compact ones, each in one record. *)
Definition sendable (request : bytes) : Prop := exists body tail, request = compact_request body tail /\ compact_body body tail.

(** The last ten bytes of a message. *)
Lemma last_ten (data : bytes) :
  10 <= zlen data -> exists (front : bytes) b1 b2 b3 b4 b5 b6 (tail : bytes), data = front ++ b1 :: b2 :: b3 :: b4 :: b5 :: b6 :: tail /\ zlen tail = 4.
Proof.
  unfold zlen. intros Hl. pose proof (length_drop data (length data - 10)) as Ht. pose proof (take_drop (length data - 10) data) as E.
  destruct (drop _ data) as [|b1 [|b2 [|b3 [|b4 [|b5 [|b6 tail]]]]]]; cbn [length] in Ht; try lia.
  exists (take (length data - 10) data), b1, b2, b3, b4, b5, b6, tail. split; [done|lia].
Qed.

Lemma two_bytes a b v : be_combine [a; b] = v -> [a; b] = be_split 2 v.
Proof. intros <-. symmetry. apply (be_split_combine [a; b]). Qed.

Lemma compact_trailer_inv data : 10 <= zlen data -> compact_trailer data = Ok true -> sendable data.
Proof.
  intros (front & b1 & b2 & b3 & b4 & b5 & b6 & tail & -> & Ht)%last_ten. unfold compact_trailer.
  set (data := front ++ _). assert (zlen data = zlen (front ++ [b1; b2]) + 8) as El by (unfold data, zlen in *; rewrite !length_app; cbn [length]; lia).
  assert (uint16_from_end data 10 = Ok (be_combine [b1; b2])) as -> by (apply uint16_suffix; unfold zlen in *; cbn [length]; lia).
  assert (uint16_from_end data 8 = Ok (be_combine [b3; b4])) as ->.
  { unfold data. change (b1 :: b2 :: ?l) with ([b1; b2] ++ l). rewrite app_assoc. apply uint16_suffix. unfold zlen in *; cbn [length]; lia. }
  assert (uint16_from_end data 6 = Ok (be_combine [b5; b6])) as ->.
  { unfold data. change (b1 :: b2 :: b3 :: b4 :: ?l) with ([b1; b2; b3; b4] ++ l). rewrite app_assoc. apply uint16_suffix. lia. }
  cbn [mbind outcome_bind]. rewrite El. replace (zlen (front ++ [b1; b2]) + 8 - 8) with (zlen (front ++ [b1; b2])) by lia. unfold and_then.
  destruct (Z.eqb_spec (be_combine [b1; b2]) TagEnd) as [E1%two_bytes|]; [|discriminate]. destruct (Z.eqb_spec (be_combine [b3; b4]) 0) as [E2%two_bytes|]; [|discriminate].
  destruct (Z.eqb_spec (be_combine [b5; b6]) (zlen (front ++ [b1; b2]))) as [E3%two_bytes|]; [|discriminate].
  intros E4%Ok_inj%Z.leb_le. exists (front ++ [b1; b2]), tail. split.
  - unfold data, compact_request, final_parameters. rewrite <- E2, <- E3. by rewrite <- !app_assoc.
  - split; [split; [|exact E4]|exists front; by rewrite E1|exact Ht]. rewrite zlen_app. pose proof (zlen_nonneg front). unfold zlen. cbn [length]. lia.
Qed.

Lemma framed_compact request framing :
  InspectRequestAppcFraming request = Ok framing -> rf_FinalSapParameterLength framing <> 0 -> sendable request.
Proof.
  unfold InspectRequestAppcFraming. intros E Hn. ok_step E as compact Ec. destruct compact.
  - unfold and_then in Ec. destruct (Z.leb_spec 10 (zlen request)); [|discriminate]. by apply compact_trailer_inv.
  - ok_step E as streamed Es. destruct streamed; [|discriminate]. by apply Ok_inj in E as <-.
Qed.

Lemma sent_compact {Tr} `{Transport Tr} request (s s' : Session Tr) async : sendRequest request s = (Ok async, s') -> sendable request.
Proof.
  unfold sendRequest. intros (framing & s1 & [E ->]%lift_inv & H1)%bind_inv. apply (framed_compact _ _ E).
  intros E0. rewrite E0 in H1. cbn [Z.eqb negb] in H1. apply bind_inv in H1 as (sap & s2 & [[= <-] ->]%lift_inv & H1).
  apply bind_inv in H1 as (app & s3 & [_ ->]%lift_inv & H1). unfold sendData in H1. apply bind_inv in H1 as (s4 & s5 & _ & H1).
  destruct (s_closed s4); [discriminate|]. apply bind_inv in H1 as (plan & s6 & [Hp _]%lift_inv & _).
  apply plan_sound in Hp as (n & sap & [_ _ (a & f & c & Hl & _ & _ & Hc)] & _). rewrite (Hc eq_refl) in Hl. discriminate.
Qed.

Section Callbacks.
Context {Tr : Type} {TT : Transport Tr} {TS : TransportSpec Tr} {H : Type}.
Context (handler : CallbackHandler H).
Implicit Types s : Session (Traced Tr).

(** The peer calls back any number of times before it answers.  A round is the records of
    one callback and the response of the handler; after the rounds come the records of the
    final answer, and what it says. *)
Inductive dialogue s : H -> list (list bytes * bytes) -> list bytes -> H -> bytes -> Prop :=
| dialogue_answer hs recs data :
    arriving s recs data -> isCallbackRequest data = false -> dialogue s hs [] recs hs data
| dialogue_callback hs hs1 hs2 recs data response rounds last final :
    arriving s recs data -> isCallbackRequest data = true ->
    handler data hs = (Ok response, hs1) -> sendable response ->
    dialogue s hs1 rounds last hs2 final ->
    dialogue s hs ((recs, response) :: rounds) last hs2 final.

(** What the transport sees of the rounds, the responses sent in [records]. *)
Definition served (rounds : list (list bytes * bytes)) (records : list bytes) : list event :=
  concat (zip_with (fun round record => map Got (fst round) ++ [Sent record]) rounds records).

Lemma request_logged s request :
  ready s -> sendable request ->
  exists record tr,
    sendRequest request s = (Ok false, moved s StateResponsePending tr) /\ drop 80 record = request /\ tr_ok tr /\
    inbox tr = inbox (s_transport s) /\ outbox tr = outbox (s_transport s) ++ [record] /\
    events tr = events (s_transport s) ++ [Sent record].
Proof.
  intros [H1 H2 H3 H4 _] (body & tail & -> & Hb).
  destruct (send_compact (TS := since_spec (s_transport s)) body tail Hb s H1 H2) as (record & tr & Es & Hrec & [Hok [d Hd]] & Hi & Ho);
    [split; [exact H4|exists []; apply since_refl]|exact H3|].
  exists record, tr. split_and!; try done. exact (since_sent _ _ _ _ Hd Hi Ho).
Qed.

Lemma receive_logged s async recs data rest :
  ready (moved s StateReady (s_transport s)) -> s_setup s = StateResponsePending ->
  arriving s recs data -> inbox (s_transport s) = recs ++ rest ->
  exists tr, tr_ok tr /\ inbox tr = rest /\ outbox tr = outbox (s_transport s) /\
    events tr = events (s_transport s) ++ map Got recs /\ receiveMessage async s = (Ok data, moved s StateReady tr).
Proof.
  intros [H1 _ _ H4 _] Hst (h & chunks & Hr & Hc & <- & Hl & Hn) Hi.
  destruct (receive_all_replies (TS := since_spec (s_transport s)) async h s chunks recs rest Hr Hc H1 Hl Hn) as (tr & [Hok [d Hd]] & Hi' & Ho & Er);
    [split; [exact H4|exists []; apply since_refl]|exact Hst|exact Hi|].
  exists tr. split_and!; try done. exact (since_got _ _ _ _ _ Hd Hi Hi' Ho).
Qed.

Lemma loop_serves s hs rounds last hs' final :
  dialogue s hs rounds last hs' final ->
  forall fuel async tr rest,
  ready s -> tr_ok tr -> inbox tr = concat (map fst rounds) ++ last ++ rest -> (length rounds < fuel)%nat ->
  exists records tr', map (drop 80) records = map snd rounds /\ events tr' = events tr ++ served rounds records ++ map Got last /\
    outbox tr' = outbox tr ++ records /\ inbox tr' = rest /\ tr_ok tr' /\
    call_loop fuel (Some handler) async (moved s StateResponsePending tr, hs)
    = (call_result <$> DecodeFunctionResultFields final, (moved s StateReady tr', hs')).
Proof.
  induction 1 as [hs recs data Hd Hc|hs hs1 hs2 recs data response rounds last final Hd Hc Hh Hb _ IH];
    intros fuel async tr rest Hs Hok Hi Hf; (destruct fuel as [|fuel]; [cbn in Hf; lia|]); cbn [call_loop].
  - destruct (receive_logged (moved s StateResponsePending tr) async recs data rest) as (tr' & Hok' & Hi' & Ho' & He' & Er); try done.
    { by destruct Hs. }
    exists [], tr'. split_and!; try done; [by rewrite app_nil_r|].
    rewrite (bind_ok _ _ _ data (moved s StateReady tr', hs)) by (unfold on_session; cbn [fst snd]; by rewrite Er).
    rewrite Hc. by destruct (DecodeFunctionResultFields data).
  - cbn [map fst concat] in Hi. rewrite <- app_assoc in Hi.
    destruct (receive_logged (moved s StateResponsePending tr) async recs data (concat (map fst rounds) ++ last ++ rest))
      as (tr1 & Hok1 & Hi1 & Ho1 & He1 & Er); try done. { by destruct Hs. }
    rewrite (bind_ok _ _ _ data (moved s StateReady tr1, hs)) by (unfold on_session; cbn [fst snd]; by rewrite Er).
    rewrite Hc. rewrite (bind_ok _ _ _ response (moved s StateReady tr1, hs1)) by (unfold on_handler; cbn [fst snd]; by rewrite Hh).
    destruct (request_logged (moved s StateReady tr1) response) as (record & tr2 & Es & Hrec & Hok2 & Hi2 & Ho2 & He2); [by destruct Hs|done|].
    rewrite (bind_ok _ _ _ false (moved s StateResponsePending tr2, hs1)) by (unfold on_session; cbn [fst snd]; by rewrite Es).
    destruct (IH fuel false tr2 rest) as (records & tr3 & Hm & He3 & Ho3 & Hi3 & Hok3 & El); try done.
    { by rewrite Hi2. } { cbn in Hf. lia. }
    exists (record :: records), tr3. rewrite El. cbn [s_transport moved set_setup set_transport] in *.
    split_and!; try done; [cbn; by rewrite Hm, Hrec| |by rewrite Ho3, Ho2, Ho1, <- app_assoc].
    rewrite He3, He2, He1. unfold served. cbn [zip_with concat fst]. by rewrite <- !app_assoc.
Qed.

(** C13: While a call waits for its answer, every callback of the server is handed to the
    handler and its response is sent back before anything further is read: in order, the
    transport sees the request sent, for each callback its records received and then the
    record of the handler's response sent, and at the end the records of the final answer
    received, and nothing else. The call returns the decoded final answer, for any bound
    above the number of callbacks. What the peer sends may come in several records; what the
    session sends fits one, and these are exactly the messages it can send. *)
Theorem callbacks_served s hs rounds last hs' final request fuel rest :
  ready s -> s_authenticated s = true -> sendable request -> dialogue s hs rounds last hs' final ->
  inbox (s_transport s) = concat (map fst rounds) ++ last ++ rest -> (length rounds < fuel)%nat ->
  (exists record records tr,
    drop 80 record = request /\ map (drop 80) records = map snd rounds /\
    events tr = events (s_transport s) ++ Sent record :: served rounds records ++ map Got last /\
    outbox tr = outbox (s_transport s) ++ record :: records /\ inbox tr = rest /\ tr_ok tr /\
    CallWithCallbacks fuel request (Some handler) (s, hs)
    = (call_result <$> DecodeFunctionResultFields final, (moved s StateReady tr, hs'))) /\
  (forall message, sendable message <-> exists async s', sendRequest message s = (Ok async, s')).
Proof.
  intros Hs Ha Hb Hd Hi Hf. split.
  - destruct (request_logged s request Hs Hb) as (record & tr1 & Es & Hrec & Hok1 & Hi1 & Ho1 & He1).
    destruct (loop_serves s hs rounds last hs' final Hd fuel false tr1 rest Hs Hok1) as (records & tr2 & Hm & He2 & Ho2 & Hi2 & Hok2 & El);
      [by rewrite Hi1|done|].
    exists record, records, tr2. split_and!; try done; [by rewrite He2, He1, <- app_assoc|by rewrite Ho2, Ho1, <- app_assoc|].
    unfold CallWithCallbacks. rewrite (bind_ok _ _ (s, hs) (s, hs) (s, hs)) by done. cbn [fst]. rewrite Ha. cbn [negb].
    rewrite (bind_ok _ _ _ false (moved s StateResponsePending tr1, hs)) by (unfold on_session; cbn [fst snd]; by rewrite Es).
    exact El.
  - intros message. split; [|intros (async & s' & E); exact (sent_compact _ _ _ _ E)].
    intros Hm. destruct (request_logged s message Hs Hm) as (record & tr & E & _). by eexists _, _.
Qed.
End Callbacks.

(** ** Only a logon authenticates *)
Section Gate.
Context {Tr : Type} {TT : Transport Tr}.
Implicit Types s : Session Tr.

Lemma write_fragment_auth f s : keeps s_authenticated (write_fragment f) s.
Proof. unfold write_fragment. do 3 (apply keeps_bind; [keeps_one|]; intros ? ? _). destruct (_ =? _); keeps_steps. Qed.

Lemma write_fragments_auth plan s : keeps s_authenticated (write_fragments plan) s.
Proof.
  revert s. induction plan as [|f plan IH]; intros s; cbn [write_fragments]; [done|].
  apply keeps_bind; [apply write_fragment_auth|]. intros _ s1 _. apply IH.
Qed.

Lemma send_data_auth appData finalSap s : keeps s_authenticated (sendData appData finalSap) s.
Proof.
  unfold sendData. apply keeps_get. destruct (s_closed s); [done|]. apply keeps_bind; [keeps_one|]. intros plan s1 _.
  apply keeps_bind; [|done]. unfold writeDataPlan. destruct (_ =? _); [done|apply write_fragments_auth].
Qed.

Lemma send_request_auth request s : keeps s_authenticated (sendRequest request) s.
Proof. unfold sendRequest. do 3 (apply keeps_bind; [keeps_one|]; intros ? ? _). apply send_data_auth. Qed.

Lemma deliver_auth disposition d message s : keeps s_authenticated (deliver disposition d message) s.
Proof.
  unfold deliver. apply keeps_bind; [keeps_one|]. intros _ s1 _. apply keeps_get. destruct (_ || _); [done|].
  apply keeps_bind; [|done]. destruct disposition; keeps_one.
Qed.

Lemma receive_loop_auth fuel allow d s : keeps s_authenticated (receive_loop fuel allow d) s.
Proof.
  revert d s. induction fuel as [|fuel IH]; intros d s; cbn [receive_loop]; [done|].
  apply keeps_bind; [keeps_one|]. intros payload s1 _. apply keeps_bind; [keeps_one|]. intros disposition s2 _.
  apply keeps_bind; [keeps_one|]. intros d1 s3 _.
  match goal with |- keeps _ (let '(_, _) := ?x in _) _ => destruct x as [pushed d2] end.
  apply keeps_bind; [keeps_one|]. intros messages s4 _. destruct messages as [|m [|]]; [apply IH|apply deliver_auth|done].
Qed.

Lemma exchange_auth request s : keeps s_authenticated (exchange request) s.
Proof.
  unfold exchange. apply keeps_bind; [apply send_request_auth|]. intros async s1 _. apply receive_loop_auth.
Qed.

Lemma call_auth name imports outputs s : keeps s_authenticated (Call name imports outputs) s.
Proof.
  unfold Call. apply keeps_get. destruct (negb _); [done|]. apply keeps_bind; [keeps_one|]. intros req s1 _.
  apply keeps_bind; [apply exchange_auth|]. intros r s2 _. keeps_steps.
Qed.

Lemma stfc_auth text s : keeps s_authenticated (CallSTFCConnection text) s.
Proof.
  unfold CallSTFCConnection. apply keeps_bind; [keeps_one|]. intros v s1 _. apply keeps_bind; [apply call_auth|].
  intros r s2 _. keeps_steps.
Qed.

Lemma close_auth s : keeps s_authenticated Close s.
Proof. unfold Close. keeps_steps. Qed.

(** The same for the state that holds the session and a handler. *)
Lemma loop_auth {H} fuel (onCallback : option (CallbackHandler H)) async st :
  s_authenticated (fst (snd (call_loop fuel onCallback async st))) = s_authenticated (fst st).
Proof.
  revert async st. induction fuel as [|fuel IH]; intros async [s h]; cbn [call_loop]; [done|].
  unfold mbind, stm_bind, on_session, on_handler. cbn [fst snd].
  pose proof (receive_loop_auth receive_fuel async None s : keeps s_authenticated (receiveMessage async) s) as Hr. unfold keeps in Hr.
  destruct (receiveMessage async s) as [[data| |] s1]; cbn [fst snd] in *; [|done..].
  destruct (isCallbackRequest data); [|unfold lift; by destruct (DecodeFunctionResultFields data)].
  destruct onCallback as [handler|]; cbn [fst snd]; [|done]. destruct (handler data h) as [[resp| |] h1]; cbn [fst snd]; [|done..].
  pose proof (send_request_auth resp s1) as Hs. unfold keeps in Hs.
  destruct (sendRequest resp s1) as [[a| |] s2]; cbn [fst snd] in *; [|congruence..]. rewrite IH. cbn. congruence.
Qed.

Lemma callbacks_auth {H} fuel request (onCallback : option (CallbackHandler H)) st :
  s_authenticated (fst (snd (CallWithCallbacks fuel request onCallback st))) = s_authenticated (fst st).
Proof.
  unfold CallWithCallbacks, mbind, stm_bind, get. destruct st as [s h]. cbn [fst]. destruct (negb _); [done|].
  unfold on_session at 1. cbn [fst snd]. pose proof (send_request_auth request s) as Hs. unfold keeps in Hs.
  destruct (sendRequest request s) as [[a| |] s1]; cbn [fst snd] in *; [|done..]. by rewrite loop_auth.
Qed.

Lemma logon_auth hostname seed random opts s :
  match LogonAndPing hostname seed random opts s with
  | (Ok _, s') => s_authenticated s = false /\ s_authenticated s' = true
  | (_, s') => s_authenticated s' = s_authenticated s
  end.
Proof.
  unfold LogonAndPing, mbind, stm_bind, get, lift, put, fail. destruct (s_authenticated s) eqn:Ea; [done|].
  destruct random as [sid| |]; [|done..]. destruct (EncodeInitialLogonRequest _ _ _) as [req| |]; [|done..].
  pose proof (exchange_auth req s) as He. unfold keeps in He.
  destruct (exchange req s) as [[response| |] s1]; cbn [snd] in He; [|congruence..].
  destruct (DecodeInitialLogonResponse response) as [r| |]; [|congruence..]. destruct (lr_Success r); [done|]. cbn. congruence.
Qed.

(** The operations of a session, and whether one returned without an error. *)
Inductive operation : Type :=
| OpLogon (hostname : bytes) (seed random : res bytes) (opts : LogonOptions)
| OpCall (functionName : bytes) (imports : list NamedValue) (requestedOutputs : list bytes)
| OpCallRaw (request : bytes)
| OpCallbacks (fuel : nat) (request : bytes) (onCallback : option (bytes -> res bytes))
| OpSTFC (requtext : bytes)
| OpClose.

Definition is_logon (o : operation) : bool := match o with OpLogon _ _ _ _ => true | _ => false end.
Definition is_call (o : operation) : bool := match o with OpLogon _ _ _ _ | OpClose => false | _ => true end.

Definition succeeded {A S} (r : res A * S) : bool * S :=
  (match fst r with Ok _ => true | _ => false end, snd r).

Definition perform (o : operation) (s : Session Tr) : bool * Session Tr :=
  match o with
  | OpLogon hostname seed random opts => succeeded (LogonAndPing hostname seed random opts s)
  | OpCall name imports outputs => succeeded (Call name imports outputs s)
  | OpCallRaw request => succeeded (CallRaw request s)
  | OpCallbacks fuel request f =>
      let handler := (fun (g : bytes -> res bytes) (data : bytes) (u : unit) => (g data, u)) <$> f in
      let '(ok, (s, _)) := succeeded (CallWithCallbacks fuel request handler (s, tt)) in (ok, s)
  | OpSTFC text => succeeded (CallSTFCConnection text s)
  | OpClose => succeeded (Close s)
  end.

Fixpoint perform_all (os : list operation) (s : Session Tr) : list bool * Session Tr :=
  match os with
  | [] => ([], s)
  | o :: os => let '(ok, s) := perform o s in let '(oks, s) := perform_all os s in (ok :: oks, s)
  end.

(** How many logons of a run succeeded. *)
Fixpoint logons (os : list operation) (oks : list bool) : nat :=
  match os, oks with
  | o :: os, ok :: oks => ((if is_logon o && ok then 1 else 0) + logons os oks)%nat
  | _, _ => 0%nat
  end.

Lemma perform_auth o s :
  let '(ok, s') := perform o s in
  if is_logon o && ok then s_authenticated s = false /\ s_authenticated s' = true
  else s_authenticated s' = s_authenticated s.
Proof.
  destruct o as [hostname seed random opts|name imports outputs|request|fuel request f|text|]; cbn [perform is_logon andb].
  - pose proof (logon_auth hostname seed random opts s) as H. destruct (LogonAndPing _ _ _ _ s) as [[[]| |] s']; exact H.
  - exact (call_auth name imports outputs s).
  - cbn. unfold CallRaw. destruct (negb _); [done|].
    pose proof (callbacks_auth 1 request (None : option (CallbackHandler unit)) (s, tt)) as H.
    destruct (CallWithCallbacks 1 request None (s, tt)) as [r [s' u]]. exact H.
  - set (handler := _ <$> f). pose proof (callbacks_auth fuel request handler (s, tt)) as H.
    destruct (CallWithCallbacks fuel request handler (s, tt)) as [r [s' u]]. exact H.
  - exact (stfc_auth text s).
  - exact (close_auth s).
Qed.

Lemma perform_gate o s : is_call o = true -> s_authenticated s = false -> perform o s = (false, s).
Proof.
  intros Ho Ha. destruct o as [hostname seed random opts|name imports outputs|request|fuel request f|text|]; try discriminate; cbn [perform].
  - unfold Call. munfold. by rewrite Ha.
  - unfold CallRaw. by rewrite Ha.
  - unfold CallWithCallbacks, mbind, stm_bind, get. cbn [fst]. by rewrite Ha.
  - unfold CallSTFCConnection, Call. munfold. destruct (EncodeAbapChar text 255); [|done..]. by rewrite Ha.
Qed.

(** C14: On every sequence of operations of a session that is not authenticated, the session
    is authenticated at the end exactly when one of the logons succeeded, no second logon
    ever succeeds, and as long as none has, every call fails and leaves the session and its
    connection as they were. *)
Theorem authentication_gate os s :
  s_authenticated s = false ->
  let '(oks, s') := perform_all os s in
  logons os oks = (if s_authenticated s' then 1 else 0)%nat /\
  (Forall (fun o => is_call o = true) os -> s' = s /\ Forall (eq false) oks).
Proof.
  intros Ha.
  assert (forall os s, let '(oks, s') := perform_all os s in
    (logons os oks + (if s_authenticated s then 1 else 0) = if s_authenticated s' then 1 else 0)%nat) as Hcount.
  { clear. intros os. induction os as [|o os IH]; intros s; cbn [perform_all]; [by destruct (s_authenticated s)|].
    pose proof (perform_auth o s) as H. destruct (perform o s) as [ok s1]. specialize (IH s1).
    destruct (perform_all os s1) as [oks s2]. cbn [logons]. destruct (is_logon o && ok).
    - destruct H as [H1 H2]. rewrite H2 in IH. rewrite H1. lia.
    - rewrite H in IH. lia. }
  assert (forall os, Forall (fun o => is_call o = true) os ->
    let '(oks, s') := perform_all os s in s' = s /\ Forall (eq false) oks) as Hgate.
  { clear Hcount. intros os' Hos. induction Hos as [|o os' Ho _ IH]; cbn [perform_all]; [by split|].
    rewrite (perform_gate o s Ho Ha). destruct (perform_all os' s) as [oks s2]. destruct IH as [-> IH]. split; [done|by constructor]. }
  specialize (Hcount os s). specialize (Hgate os). destruct (perform_all os s) as [oks s']. rewrite Ha, Nat.add_0_r in Hcount. by split.
Qed.
End Gate.

(** ** The smoke test *)
Section Smoke.
Context {Tr : Type} {TT : Transport Tr} {TS : TransportSpec Tr}.
Implicit Types s : Session Tr.

Definition stfc_input (value : bytes) : CutFunctionRequestInput :=
  call_input (lit "STFC_CONNECTION") [mkNamedValue (lit "REQUTEXT") value] [lit "ECHOTEXT"; lit "RESPTEXT"].

Lemma char_unsized b n t : DecodeAbapChar b (Some n) = Ok t -> DecodeAbapChar b None = Ok t.
Proof.
  unfold DecodeAbapChar, abapCharacterBytes. destruct (negb _); [done|]. intros H. ok_step H as v Hv. ok_step Hv as u Hu.
  rewrite ok_bind, Hv, ok_bind. exact H.
Qed.

(** The request of the smoke test always encodes, in one record. *)
Lemma stfc_encodes value : zlen value = 510 ->
  exists p, EncodeCutFunctionRequest (stfc_input value) = Ok p /\ zlen p <= MaxApplicationDataFragmentLength.
Proof.
  intros Hv. unfold EncodeCutFunctionRequest, stfc_input.
  change (kernel_release _) with (Ok (lit "754") : res bytes). rewrite ok_bind. cbv zeta.
  change (check_names _) with (Ok tt : res unit). rewrite ok_bind.
  destruct (cut_request_fields (lit "754") (call_input (lit "STFC_CONNECTION") [mkNamedValue (lit "REQUTEXT") value]
    [lit "ECHOTEXT"; lit "RESPTEXT"])) as [fs| |] eqn:Ef; [|exfalso; vm_compute in Ef; discriminate..].
  rewrite ok_bind. pose proof (cut_fields_inner _ _ _ Ef) as Hi.
  assert (zlen fs = 7 /\ Forall (fun f => zlen (f_Value f) <= 510) fs) as [Hn Hs].
  { assert (exists a b c d e f, fs = [a; b; c; d; e; f; mkField TagParameterValue value] /\
      Forall (fun f => zlen (f_Value f) <= 510) [a; b; c; d; e; f]) as (a & b & c & d & e & f & -> & H).
    { vm_compute in Ef. apply Ok_inj in Ef. subst fs. eexists _, _, _, _, _, _. split; [reflexivity|].
      repeat constructor; vm_compute; discriminate. }
    split; [done|]. change [a; b; c; d; e; f; mkField TagParameterValue value] with ([a; b; c; d; e; f] ++ [mkField TagParameterValue value]).
    apply Forall_app. split; [done|]. apply Forall_singleton. cbn [f_Value]. lia. }
  destruct (inner_split fs Hi) as (_ & Hf & _).
  assert (zlen (chain_bytes TagContextEnd (fs ++ [mkField TagEnd []])) <= 4128) as Hl.
  { etrans; [apply (chain_bytes_short 510); [by vm_compute|]|rewrite zlen_app, Hn; by vm_compute].
    apply Forall_app. split; [done|]. apply Forall_singleton. by vm_compute. }
  set (chain := chain_bytes _ _) in *. clear Ef.
  assert (EncodeFieldChain TagContextEnd (fs ++ [mkField TagEnd []]) default_limits = Ok chain) as Hc.
  { apply encode_chain_ok; [done|rewrite zlen_app, Hn; by vm_compute|]. unfold DefaultMaxFieldChainLength. fold chain. lia. }
  unfold close_packet. pose proof Hc as He. unfold EncodeFieldChain in He. ok_step He as n En. clear He. rewrite En, ok_bind, Hc, ok_bind.
  eexists. split; [reflexivity|]. rewrite !zlen_app. unfold packetTrailer. change (zlen cpicCutFunctionRequestPrefix) with 4.
  unfold MaxApplicationDataFragmentLength in *. destruct (_ <? _); [change (zlen [xff; xff]) with 2|rewrite !zlen_app, !zlen_be_split]; lia.
Qed.

Lemma echo_answer value rvalue :
  readable_answer [mkNamedValue (lit "ECHOTEXT") value; mkNamedValue (lit "RESPTEXT") rvalue] [].
Proof.
  split; [|done|apply (bool_decide_unpack _); vm_compute; reflexivity].
  repeat apply Forall_cons_2; try apply Forall_nil_2; (apply ascii_param_name; [discriminate|reflexivity|discriminate]).
Qed.

(** The smoke test against a server that answers with the value it received: for every text
    that fits in 255 characters, STFC_CONNECTION returns that text, trailing blanks apart,
    and the server's own text. *)
Theorem stfc_echoes s requtext resptext n value rvalue q uid callerInfo rest :
  ready s -> s_authenticated s = true ->
  EncodeAbapChar requtext 255 = Ok value -> EncodeAbapChar resptext n = Ok rvalue ->
  EncodeCutFunctionResponse [mkNamedValue (lit "ECHOTEXT") value; mkNamedValue (lit "RESPTEXT") rvalue] [] [] = Ok q ->
  zlen q <= DefaultMaxMessageLength ->
  zlen callerInfo = 4 -> drop 2 callerInfo = be_split 2 (s_connectionIndex s) ->
  inbox (s_transport s) = responseRecords q (s_conversationID s) uid callerInfo ++ rest ->
  exists tr,
    CallSTFCConnection requtext s = (Ok (trim_right_spaces requtext, trim_right_spaces resptext), moved s StateReady tr) /\
    inbox tr = rest.
Proof.
  intros Hs Ha Hv Hr Hq Hm H4 Hd Hi. destruct (abap_char_read requtext 255 value Hv) as (Hl & Hv1 & _).
  destruct (abap_char_read resptext n rvalue Hr) as (_ & Hr1 & _). apply char_unsized in Hv1, Hr1.
  destruct (stfc_encodes value Hl) as (p & Hp & Hpl). destruct (client_reads _ _ _ _ Hq (echo_answer value rvalue)) as (dec & xps & E1 & _ & _ & _ & E2).
  destruct (call_answered s (lit "STFC_CONNECTION") _ _ p _ q rest Hs Ha Hp Hpl (answer_arriving s q uid callerInfo Hs Hm H4 Hd) Hi)
    as (record & tr & Ec & _ & _ & Hin & _).
  exists tr. split; [|exact Hin]. unfold CallSTFCConnection. rewrite Hv. rewrite (bind_ok _ _ s value s) by done.
  rewrite E1 in Ec. rewrite (bind_ok _ _ _ _ _ Ec). unfold call_result. cbn [cr_Fields]. rewrite E2.
  rewrite (bind_ok _ _ _ (mkResult [] [mkScalar (lit "ECHOTEXT") value; mkScalar (lit "RESPTEXT") rvalue] [] xps) (moved s StateReady tr)) by done.
  unfold lift. cbn [res_Scalars echo_texts sc_Name sc_Value]. rewrite bytes_eqb_refl, Hv1, ok_bind.
  change (bytes_eqb (lit "RESPTEXT") (lit "ECHOTEXT")) with false. cbv iota. rewrite bytes_eqb_refl, Hr1, ok_bind. done.
Qed.
End Smoke.

(** ** Instances *)
Definition caller_session (incoming : list bytes) : Session Script :=
  set_authenticated (zeros 16) (peer_session StateReady incoming).

Lemma peer_ready incoming : ready (peer_session StateReady incoming).
Proof. by split. Qed.
Lemma caller_ready incoming : ready (caller_session incoming).
Proof. by split. Qed.

(** A server whose one function returns a text and a table of one row. *)
Definition echo_dispatcher : Dispatcher := Handle NewDispatcher (lit "STFC_CONNECTION") (fun _ => Returned sample_response).

Lemma remote_call_witness :
  exists p q incoming result s',
    EncodeCutFunctionRequest (stfc_input [x68; x00]) = Ok p /\ Dispatch echo_dispatcher p = Ok q /\
    Call (lit "STFC_CONNECTION") [mkNamedValue (lit "REQUTEXT") [x68; x00]] [lit "ECHOTEXT"; lit "RESPTEXT"] (caller_session incoming)
    = (Ok result, s') /\ cr_Success result = true.
Proof.
  destruct (EncodeCutFunctionRequest (stfc_input [x68; x00])) as [p| |] eqn:E; [|vm_compute in E; discriminate..].
  destruct (EncodeCutFunctionResponse (rs_Exports sample_response) (rs_Tables sample_response) (rs_XrfcParameters sample_response))
    as [q| |] eqn:Eq; [|vm_compute in Eq; discriminate..].
  set (incoming := responseRecords q (lit "12345678") 7 [x00; x01; x00; x05]).
  assert (zlen p <= MaxApplicationDataFragmentLength) as Hp by (vm_compute in E; apply Ok_inj in E; subst p; vm_compute; discriminate).
  assert (zlen q <= DefaultMaxMessageLength) as Hq by (vm_compute in Eq; apply Ok_inj in Eq; subst q; vm_compute; discriminate).
  assert (readable (stfc_input [x68; x00])) as Hr.
  { split; cbn; repeat apply Forall_cons_2; try apply Forall_nil_2;
      (apply ascii_plain_name; [reflexivity|discriminate]). }
  destruct (remote_call (caller_session incoming) echo_dispatcher (lit "STFC_CONNECTION") [mkNamedValue (lit "REQUTEXT") [x68; x00]]
    [lit "ECHOTEXT"; lit "RESPTEXT"] p (fun _ => Returned sample_response) sample_response q 7 [x00; x01; x00; x05] []
    (caller_ready incoming) eq_refl E Hp Hr eq_refl eq_refl Eq sample_answer Hq eq_refl eq_refl
    ltac:(symmetry; apply app_nil_r)) as [Hd (record & tr & result & xps & Hc & _ & _ & _ & _ & Hs & _)].
  exists p, q, incoming, result. eexists. split; [reflexivity|]. split; [exact Hd|]. split; [exact Hc|exact Hs].
Defined.

(** A message of the peer, in one record. *)
Definition one_record (data : bytes) : bytes :=
  buildEclipseRecord data (lit "12345678") 7 appcFSapSend true [x00; x00; x00; x05].

Lemma one_record_arriving {Tr} (s : Session Tr) data :
  s_conversationID s = lit "12345678" -> s_connectionIndex s = 5 -> zlen data <= maxRecordData ->
  arriving s [one_record data] data.
Proof.
  intros Hc Hx Hl. exists (answer_header (lit "12345678")), [data]. rewrite Hx. split_and!; try done.
  - apply replies_last. apply (built_record_arrives data (lit "12345678") 7 5 true true eq_refl Hl). by split.
  - cbn. apply app_nil_r.
  - etrans; [exact Hl|by vm_compute].
Qed.

Definition sample_credentials : LogonOptions :=
  mkLogonOptions (lit "001") (lit "USER") (lit "secret") [] [] [] [].

Lemma logon_authenticates_witness :
  exists incoming s',
    LogonAndPing (lit "workstation") (Ok [x01; x02; x03; x04]) (Ok (zeros 16)) sample_credentials (peer_session StateReady incoming)
    = (Ok tt, s') /\ s_authenticated s' = true.
Proof.
  set (recs := [one_record CpicLogon.sample_response]).
  destruct (EncodeInitialLogonRequest (Ok [x01; x02; x03; x04]) (Ok (zeros 16))
    (logon_input (lit "workstation") sample_credentials (zeros 16) (peer_session StateReady recs))) as [p| |] eqn:E;
    [|vm_compute in E; discriminate..].
  assert (zlen p <= MaxApplicationDataFragmentLength) as Hp by (vm_compute in E; apply Ok_inj in E; subst p; vm_compute; discriminate).
  destruct (logon_authenticates (peer_session StateReady recs) (lit "workstation") (Ok [x01; x02; x03; x04]) (zeros 16)
    sample_credentials p recs CpicLogon.sample_response [] (peer_ready recs) eq_refl source_4 eq_refl E Hp
    (one_record_arriving (peer_session StateReady recs) CpicLogon.sample_response eq_refl eq_refl ltac:(vm_compute; discriminate)) ltac:(symmetry; apply app_nil_r)) as (record & tr & _ & _ & _ & _ & H).
  exists recs. eexists. split; [rewrite H; vm_compute (DecodeInitialLogonResponse _); reflexivity|reflexivity].
Defined.

(** A peer that calls back once before it answers, and a handler that counts. *)
Definition counting_handler : CallbackHandler nat := fun _ n => (Ok (compact_request peer_request_body (zeros 4)), S n).
Definition callback_data : bytes := cpicCutFunctionRequestPrefix ++ lit "back".
Definition answer_data : bytes := Eval vm_compute in
  match EncodeCutFunctionResponse [] [] [] with Ok q => q | _ => [] end.

(** The session of the caller, with its transport watched. *)
Definition watched_session (incoming : list bytes) : Session (Traced Script) :=
  mkSession (mkTraced (mkScript incoming []) []) StateReady (lit "12345678") 5 (lit "127.0.0.1") (lit "host")
    (lit "open-rfc") (zeros 16) (lit "sapdp00") true false.

Lemma watched_ready incoming : ready (watched_session incoming).
Proof. by split. Qed.

Lemma peer_request_sendable : sendable (compact_request peer_request_body (zeros 4)).
Proof. exists peer_request_body, (zeros 4). split; [reflexivity|exact peer_request_compact]. Qed.

(** Request, callback, response and answer, in this order. *)
Lemma callbacks_served_witness :
  exists incoming result s' r1 r2,
    CallWithCallbacks 2 (compact_request peer_request_body (zeros 4)) (Some counting_handler) (watched_session incoming, 0%nat)
    = (Ok result, (s', 1%nat)) /\
    events (s_transport s') = [Sent r1; Got (one_record callback_data); Sent r2; Got (one_record answer_data)].
Proof.
  set (recs := [one_record callback_data; one_record answer_data]).
  set (rounds := [([one_record callback_data], compact_request peer_request_body (zeros 4))]).
  assert (dialogue counting_handler (watched_session recs) 0%nat rounds [one_record answer_data] 1%nat answer_data) as Hd.
  { apply (dialogue_callback _ _ 0%nat 1%nat 1%nat [one_record callback_data] callback_data);
      [apply one_record_arriving; [reflexivity|reflexivity|vm_compute; discriminate]|reflexivity|reflexivity|exact peer_request_sendable|].
    apply dialogue_answer; [apply one_record_arriving; [reflexivity|reflexivity|vm_compute; discriminate]|reflexivity]. }
  destruct (callbacks_served counting_handler (watched_session recs) 0%nat rounds [one_record answer_data] 1%nat answer_data
    (compact_request peer_request_body (zeros 4)) 2 [] (watched_ready recs) eq_refl peer_request_sendable Hd eq_refl ltac:(cbn; lia))
    as [(r1 & records & tr & _ & Hm & He & _ & _ & _ & Hr) _].
  destruct records as [|r2 [|]]; [discriminate Hm| |discriminate Hm].
  exists recs. eexists. eexists. exists r1, r2. rewrite Hr. split; [vm_compute (DecodeFunctionResultFields _); reflexivity|exact He].
Defined.

Lemma authentication_gate_witness :
  fst (perform_all [OpCallRaw (lit "x"); OpSTFC (lit "hello")] (peer_session StateReady [])) = [false; false].
Proof.
  pose proof (authentication_gate [OpCallRaw (lit "x"); OpSTFC (lit "hello")] (peer_session StateReady []) eq_refl) as H.
  destruct (perform_all _ _) as [oks s'] eqn:E. destruct H as [_ H]. destruct (H ltac:(by repeat constructor)) as [_ Hf].
  assert (length oks = 2%nat) as Hl by (cbn [perform_all] in E; vm_compute in E; injection E as <- _; reflexivity).
  destruct oks as [|a [|b [|]]]; try discriminate. inversion Hf as [|? ? <- Hf']. inversion Hf' as [|? ? <- _]. reflexivity.
Defined.

Lemma stfc_echoes_witness :
  exists incoming s', CallSTFCConnection (lit "hello") (caller_session incoming) = (Ok (lit "hello", lit "hi there"), s').
Proof.
  destruct (EncodeAbapChar (lit "hello") 255) as [v| |] eqn:Ev; [|vm_compute in Ev; discriminate..].
  destruct (EncodeAbapChar (lit "hi there") 20) as [r| |] eqn:Er; [|vm_compute in Er; discriminate..].
  destruct (EncodeCutFunctionResponse [mkNamedValue (lit "ECHOTEXT") v; mkNamedValue (lit "RESPTEXT") r] [] []) as [q| |] eqn:Eq;
    [|exfalso; vm_compute in Ev, Er; apply Ok_inj in Ev, Er; subst v r; vm_compute in Eq; discriminate..].
  set (incoming := responseRecords q (lit "12345678") 7 [x00; x01; x00; x05]).
  assert (zlen q <= DefaultMaxMessageLength) as Hq.
  { vm_compute in Ev, Er. apply Ok_inj in Ev, Er. subst v r. vm_compute in Eq. apply Ok_inj in Eq. subst q. vm_compute. discriminate. }
  destruct (stfc_echoes (caller_session incoming) (lit "hello") (lit "hi there") 20 v r q 7 [x00; x01; x00; x05] []
    (caller_ready incoming) eq_refl Ev Er Eq Hq eq_refl eq_refl ltac:(symmetry; apply app_nil_r)) as (tr & H & _).
  exists incoming. eexists. exact H.
Defined.
