(* ===== verification/Pool.v ===== *)
(** Package [pool], internal/pool/pool.go: the bounded resource pool.

    The pool is shared by goroutines that hold its mutex for short sections and run the
    factory, channel operations and [Close] outside of it.  The model keeps exactly that
    granularity: each section under the mutex is a function on the pool's state, and a
    step relation interleaves the sections with the actions outside the lock.  A
    goroutine is its program counter; the one-place channel a waiting [Acquire] makes is
    kept with the goroutine that made it ([Waiting], [Abandoning], [Draining]), and
    [p.waiters] lists the goroutines queued.

    The factory and the clock are the environment: [New] may fail or return a resource
    not seen before, [Validate] may accept or reject, contexts may end at any moment,
    and time is a number.  [Close] of one resource is recorded in [destroyed].

    The theorems: occupancy stays within [MaxSize] and slots are conserved; no wakeup is
    lost; a resource is in one place only; when the pool has been closed and every call
    has returned, every resource ever created has been closed, unless [Close] gave up
    waiting for the janitor; and the two behaviours the comments do not promise: that
    exception, and a lease granted after [Close]. *)
From stdpp Require Import base list numbers relations sorting.
From Stdlib Require Import ZArith Lia.
From S2P Require Import Prelude.

Open Scope Z_scope.

Module Pool.
Section Model.
Context {T : Type}.

(** [grant]: a resource, or a permit to create one in a reserved slot. *)
Inductive grant : Type :=
| GrantResource (r : T)
| GrantSlot.

(** How a call ends. *)
Inductive ending : Type :=
| ErrClosed
| ErrPoolExhausted
| ErrContext
| ErrFactory
| Returned.

(** Where a goroutine goes on after a section it calls. *)
Inductive cont : Type :=
| Retry
| Stop (e : ending)
| Tick.

(** A goroutine's program counter. *)
Inductive pc : Type :=
(* Acquire *)
| Acquiring
| Validating (r : T)
| Rejected (r : T)
| Creating
| Waiting (mail : option grant)
| Abandoning (mail : option grant) (cause : ending)
| Draining (mail : option grant) (cause : ending)
(* a lease *)
| Holding (r : T)
| Discarding (r : T)
(* about to run putBack, or the section that gives a slot back *)
| PuttingBack (r : T) (k : cont)
| SlotBack (k : cont)
(* closing resources outside the lock *)
| Destroying (rs : list T) (k : cont)
(* the janitor, between two ticks *)
| Janitor
(* Close, waiting for the janitor; and when its context ended first *)
| CloseWaiting (rs : list T)
| CloseAborted (rs : list T)
| Finished (e : ending).

Definition resume (k : cont) : pc :=
  match k with Retry => Acquiring | Stop e => Finished e | Tick => Janitor end.

Record t : Type := mk {
  maxSize : Z;
  hasJanitor : bool;
  idle : list (T * Z);
  leased : Z;
  freeSlots : Z;
  waiters : list nat;
  closed : bool;
  procs : list pc;
  created : list T;
  destroyed : list T;
}.

Definition set_idle v s := mk (maxSize s) (hasJanitor s) v (leased s) (freeSlots s) (waiters s) (closed s) (procs s) (created s) (destroyed s).
Definition set_leased v s := mk (maxSize s) (hasJanitor s) (idle s) v (freeSlots s) (waiters s) (closed s) (procs s) (created s) (destroyed s).
Definition set_freeSlots v s := mk (maxSize s) (hasJanitor s) (idle s) (leased s) v (waiters s) (closed s) (procs s) (created s) (destroyed s).
Definition set_waiters v s := mk (maxSize s) (hasJanitor s) (idle s) (leased s) (freeSlots s) v (closed s) (procs s) (created s) (destroyed s).
Definition set_closed v s := mk (maxSize s) (hasJanitor s) (idle s) (leased s) (freeSlots s) (waiters s) v (procs s) (created s) (destroyed s).
Definition set_procs v s := mk (maxSize s) (hasJanitor s) (idle s) (leased s) (freeSlots s) (waiters s) (closed s) v (created s) (destroyed s).
Definition set_created v s := mk (maxSize s) (hasJanitor s) (idle s) (leased s) (freeSlots s) (waiters s) (closed s) (procs s) v (destroyed s).
Definition set_destroyed v s := mk (maxSize s) (hasJanitor s) (idle s) (leased s) (freeSlots s) (waiters s) (closed s) (procs s) (created s) v.

(** Goroutine [i] goes on at [p]. *)
Definition goto (i : nat) (p : pc) (s : t) : t := set_procs (<[i := p]> (procs s)) s.

(** [New] *)
Definition DefaultMaxSize : Z := 8.

Definition New (MaxSize MaxIdleTime : Z) : t :=
  let maxSize := if MaxSize <=? 0 then DefaultMaxSize else MaxSize in
  let hasJanitor := 0 <? MaxIdleTime in
  mk maxSize hasJanitor [] 0 maxSize [] false (if hasJanitor then [Janitor] else []) [] [].

(** The last idle entry, and the rest. *)
Definition pop_idle (l : list (T * Z)) : option (list (T * Z) * (T * Z)) :=
  match rev l with [] => None | e :: r => Some (rev r, e) end.

(** [w <- g] on the waiter's empty one-place channel. *)
Definition receive_mail (g : grant) (p : pc) : pc :=
  match p with
  | Waiting None => Waiting (Some g)
  | Abandoning None c => Abandoning (Some g) c
  | p => p
  end.

Definition send (w : nat) (g : grant) (s : t) : t :=
  match procs s !! w with
  | Some p => goto w (receive_mail g p) s
  | None => s
  end.

(** [popWaiter() <- g] *)
Definition send_next (g : grant) (s : t) : t :=
  match waiters s with
  | [] => s
  | w :: ws => send w g (set_waiters ws s)
  end.

(** [grantAvailable]; the loop pops a waiter each round. *)
Fixpoint grant_loop (rounds : nat) (s : t) : t :=
  match rounds with
  | O => s
  | S rounds =>
      match waiters s with
      | [] => s
      | _ =>
          match pop_idle (idle s) with
          | Some (rest, e) =>
              grant_loop rounds (send_next (GrantResource (fst e)) (set_leased (leased s + 1) (set_idle rest s)))
          | None =>
              if 0 <? freeSlots s then
                grant_loop rounds
                  (send_next GrantSlot (set_leased (leased s + 1) (set_freeSlots (freeSlots s - 1) s)))
              else s
          end
      end
  end.

Definition grantAvailable (s : t) : t := grant_loop (length (waiters s)) s.

(** The section of [Acquire] under the mutex, for goroutine [i]. *)
Definition acquire_section (i : nat) (s : t) : t :=
  if closed s then goto i (Finished ErrClosed) s
  else match pop_idle (idle s) with
       | Some (rest, e) => goto i (Validating (fst e)) (set_leased (leased s + 1) (set_idle rest s))
       | None =>
           if 0 <? freeSlots s
           then goto i Creating (set_leased (leased s + 1) (set_freeSlots (freeSlots s - 1) s))
           else goto i (Waiting None) (set_waiters (waiters s ++ [i]) s)
       end.

(** [p.leased--; p.freeSlots++; p.grantAvailable()]: the section shared by [useIdle],
    [createLeased], [abandon] and [discard]. *)
Definition slot_back_section (i : nat) (next : pc) (s : t) : t :=
  grantAvailable (goto i next (set_freeSlots (freeSlots s + 1) (set_leased (leased s - 1) s))).

(** [removeWaiter]: the queue without the target, [None] when it is not queued. *)
Fixpoint removeWaiter (target : nat) (ws : list nat) : option (list nat) :=
  match ws with
  | [] => None
  | w :: ws => if Nat.eqb w target then Some ws else cons w <$> removeWaiter target ws
  end.

(** The section of [abandon]. *)
Definition abandon_section (i : nat) (mail : option grant) (cause : ending) (s : t) : t :=
  match removeWaiter i (waiters s) with
  | Some ws => goto i (Finished cause) (set_waiters ws s)
  | None => goto i (Draining mail cause) s
  end.

(** [putBack] *)
Definition put_back_section (i : nat) (r : T) (k : cont) (now : Z) (s : t) : t :=
  if closed s then goto i (Destroying [r] k) (set_leased (leased s - 1) s)
  else match waiters s with
       | _ :: _ => send_next (GrantResource r) (goto i (resume k) s)
       | [] => goto i (resume k) (set_idle (idle s ++ [(r, now)]) (set_leased (leased s - 1) s))
       end.

(** [evictExpired] *)
Definition evict_section (i : nat) (cutoff : Z) (s : t) : t :=
  let expired := filter (fun e => e.2 < cutoff) (idle s) in
  let kept := filter (fun e => ~ e.2 < cutoff) (idle s) in
  let s' := goto i (Destroying (map fst expired) Tick)
              (set_idle kept (set_freeSlots (freeSlots s + zlen expired) s)) in
  if bool_decide (expired = []) then s' else grantAvailable s'.

(** The section of [Close]. *)
Definition close_section (i : nat) (s : t) : t :=
  if closed s then goto i (Finished ErrClosed) s
  else goto i (CloseWaiting (map fst (idle s))) (set_idle [] (set_closed true s)).

(** [Stats] *)
Record Stats_ : Type := mkStats { st_MaxSize : Z; st_Idle : Z; st_Leased : Z; st_Open : Z }.
Definition Stats (s : t) : Stats_ :=
  mkStats (maxSize s) (zlen (idle s)) (leased s) (zlen (idle s) + leased s).

(** One action of one goroutine. *)
Inductive act (s : t) (i : nat) : pc -> t -> Prop :=
| act_ctx : act s i Acquiring (goto i (Finished ErrContext) s)
| act_acquire : act s i Acquiring (acquire_section i s)
| act_valid r : act s i (Validating r) (goto i (Holding r) s)
| act_invalid r : act s i (Validating r) (goto i (Rejected r) s)
| act_reject r :
    act s i (Rejected r) (goto i (SlotBack Retry) (set_destroyed (destroyed s ++ [r]) s))
| act_created r :
    r ∉ created s -> act s i Creating (goto i (Holding r) (set_created (created s ++ [r]) s))
| act_create_failed : act s i Creating (goto i (SlotBack (Stop ErrFactory)) s)
| act_slot_back k : act s i (SlotBack k) (slot_back_section i (resume k) s)
| act_granted r : act s i (Waiting (Some (GrantResource r))) (goto i (Validating r) s)
| act_granted_slot : act s i (Waiting (Some GrantSlot)) (goto i Creating s)
| act_wait_ctx m : act s i (Waiting m) (goto i (Abandoning m ErrPoolExhausted) s)
| act_wait_closed m : closed s = true -> act s i (Waiting m) (goto i (Abandoning m ErrClosed) s)
| act_abandon m c : act s i (Abandoning m c) (abandon_section i m c s)
| act_drain r c : act s i (Draining (Some (GrantResource r)) c) (goto i (PuttingBack r (Stop c)) s)
| act_drain_slot c : act s i (Draining (Some GrantSlot) c) (goto i (SlotBack (Stop c)) s)
| act_release r : act s i (Holding r) (goto i (PuttingBack r (Stop Returned)) s)
| act_discard r : act s i (Holding r) (goto i (Discarding r) s)
| act_put_back r k now : act s i (PuttingBack r k) (put_back_section i r k now s)
| act_discarded r : act s i (Discarding r) (slot_back_section i (Destroying [r] (Stop Returned)) s)
| act_destroy r rs k :
    act s i (Destroying (r :: rs) k) (goto i (Destroying rs k) (set_destroyed (destroyed s ++ [r]) s))
| act_destroyed k : act s i (Destroying [] k) (goto i (resume k) s)
| act_tick cutoff : act s i Janitor (evict_section i cutoff s)
| act_janitor_stop : closed s = true -> act s i Janitor (goto i (Finished Returned) s)
| act_close_ready rs :
    (hasJanitor s = true -> procs s !! 0%nat = Some (Finished Returned)) ->
    act s i (CloseWaiting rs) (goto i (Destroying rs (Stop Returned)) s)
| act_close_ctx rs : hasJanitor s = true -> act s i (CloseWaiting rs) (goto i (CloseAborted rs) s).

(** A step: a running goroutine acts, a call of [Acquire] starts, or a call of [Close]
    runs its section. *)
Inductive step (s : t) : t -> Prop :=
| step_act i p s' : procs s !! i = Some p -> act s i p s' -> step s s'
| step_acquire : step s (set_procs (procs s ++ [Acquiring]) s)
| step_close : step s (close_section (length (procs s)) (set_procs (procs s ++ [Finished Returned]) s)).

Definition reachable (MaxSize MaxIdleTime : Z) (s : t) : Prop := rtc step (New MaxSize MaxIdleTime) s.
End Model.
Arguments grant : clear implicits.
Arguments pc : clear implicits.
Arguments t : clear implicits.
End Pool.

Import Pool.

(** ** Lists with one element replaced *)
Section Replace.
Context {A : Type}.

Definition sumZ (f : A -> Z) (l : list A) : Z := foldr (fun x a => f x + a) 0 l.

Lemma sumZ_app f l1 l2 : sumZ f (l1 ++ l2) = sumZ f l1 + sumZ f l2.
Proof. unfold sumZ. induction l1; cbn; lia. Qed.

Lemma sumZ_cons f x l : sumZ f (x :: l) = f x + sumZ f l.
Proof. done. Qed.

Lemma insert_split (l : list A) i x y :
  l !! i = Some x -> l = take i l ++ x :: drop (S i) l /\ <[i := y]> l = take i l ++ y :: drop (S i) l.
Proof.
  intros H. split; [symmetry; by apply take_drop_middle|].
  apply insert_take_drop. by eapply lookup_lt_Some.
Qed.

Lemma sumZ_insert f (l : list A) i x y :
  l !! i = Some x -> sumZ f (<[i := y]> l) = sumZ f l - f x + f y.
Proof.
  intros H. destruct (insert_split l i x y H) as [E ->]. rewrite E at 3. rewrite !sumZ_app, !sumZ_cons. lia.
Qed.

Lemma sumZ_nonneg f (l : list A) : (forall x, 0 <= f x) -> 0 <= sumZ f l.
Proof. intros H. unfold sumZ. induction l as [|x l IH]; cbn; [lia|]. specialize (H x). lia. Qed.

Lemma concat_insert {B} (f : A -> list B) (l : list A) i x y :
  l !! i = Some x -> concat (map f (<[i := y]> l)) ++ f x ≡ₚ concat (map f l) ++ f y.
Proof.
  intros H. destruct (insert_split l i x y H) as [E ->]. rewrite E at 3. rewrite !map_app, !concat_app. cbn [map concat].
  solve_Permutation.
Qed.
End Replace.

(** ** The invariant *)
Section Invariant.
Context {T : Type}.
Implicit Types (s : t T) (p : pc T).

(** A goroutine counted in [leased]. *)
Definition mail_weight (m : option (grant T)) : Z := match m with Some _ => 1 | None => 0 end.
Definition weight p : Z :=
  match p with
  | Validating _ | Rejected _ | Creating | Holding _ | Discarding _ | PuttingBack _ _ | SlotBack _ => 1
  | Waiting m | Abandoning m _ | Draining m _ => mail_weight m
  | _ => 0
  end.

(** The resources in a goroutine's hands. *)
Definition mail_held (m : option (grant T)) : list T :=
  match m with Some (GrantResource r) => [r] | _ => [] end.
Definition held p : list T :=
  match p with
  | Validating r | Rejected r | Holding r | Discarding r | PuttingBack r _ => [r]
  | Waiting m | Abandoning m _ | Draining m _ => mail_held m
  | Destroying rs _ | CloseWaiting rs | CloseAborted rs => rs
  | _ => []
  end.

(** A goroutine whose channel is in the queue. *)
Definition queued p : bool :=
  match p with Waiting None | Abandoning None _ => true | _ => false end.

Definition lost p : bool := match p with Draining None _ => true | _ => false end.

Definition total s : Z := zlen (idle s) + leased s + freeSlots s.

(** Every place a resource can be. *)
Definition places s : list T := map fst (idle s) ++ concat (map held (procs s)) ++ destroyed s.

Record inv s : Prop := {
  i_leased : leased s = sumZ weight (procs s);
  i_slots : 0 <= freeSlots s;
  i_total : total s <= maxSize s;
  i_open : closed s = false -> total s = maxSize s;
  i_closed : closed s = true -> idle s = [];
  i_places : places s ≡ₚ created s;
  i_fresh : NoDup (created s);
  i_queue : NoDup (waiters s);
  i_queued w : w ∈ waiters s <-> exists p, procs s !! w = Some p /\ queued p = true;
  i_mail i p : procs s !! i = Some p -> lost p = false;
}.

(** No wakeup is lost: nothing is free while somebody is queued. *)
Definition awake s : Prop :=
  closed s = false -> waiters s <> [] -> idle s = [] /\ freeSlots s = 0.

Lemma weight_nonneg p : 0 <= weight p.
Proof. destruct p; cbn; try lia; destruct mail; cbn; lia. Qed.

(** One goroutine moves from [p] to [p'] while the counters change from [s] to [s1]. *)
Lemma inv_move s s1 i p p' :
  inv s -> procs s !! i = Some p -> procs s1 = procs s ->
  leased s1 = leased s - weight p + weight p' -> 0 <= freeSlots s1 ->
  total s1 <= maxSize s1 -> (closed s1 = false -> total s1 = maxSize s1) ->
  (closed s1 = true -> idle s1 = []) ->
  map fst (idle s1) ++ destroyed s1 ++ held p' ++ created s
    ≡ₚ created s1 ++ map fst (idle s) ++ destroyed s ++ held p ->
  NoDup (created s1) -> NoDup (waiters s1) ->
  (forall w, w ∈ waiters s1 <-> (w = i /\ queued p' = true) \/ (w <> i /\ w ∈ waiters s)) ->
  lost p' = false ->
  inv (goto i p' s1).
Proof.
  intros Hi Hp Ep El Hf Ht Ho Hc Hr Hn Hq Hw Hl. unfold goto. rewrite Ep.
  split; cbn [leased freeSlots maxSize closed idle created waiters procs set_procs]; try done.
  - rewrite (sumZ_insert weight _ _ _ _ Hp), El, (i_leased _ Hi). done.
  - unfold places. cbn [idle procs destroyed set_procs]. pose proof (i_places _ Hi) as Hpl. unfold places in Hpl.
    pose proof (concat_insert held (procs s) i p p' Hp) as Hci.
    apply (Permutation_app_inv_r (held p ++ created s)).
    transitivity (map fst (idle s1) ++ destroyed s1 ++ (concat (map held (<[i:=p']> (procs s))) ++ held p) ++ created s);
      [solve_Permutation|]. rewrite Hci.
    transitivity (concat (map held (procs s)) ++ (map fst (idle s1) ++ destroyed s1 ++ held p' ++ created s));
      [solve_Permutation|]. rewrite Hr, <- Hpl at 1. solve_Permutation.
  - intros w. rewrite Hw. setoid_rewrite list_lookup_insert_Some. split.
    + intros [[-> Hqp]|[Hne Hin]].
      * exists p'. split; [|done]. left. split_and!; try done. by eapply lookup_lt_Some.
      * apply (i_queued _ Hi) in Hin as (p0 & Hp0 & Hq0). exists p0. split; [|done]. right. by split; [intros ->|].
    + intros (p0 & [(-> & <- & _)|(Hne & Hp0)] & Hq0); [by left|]. right. split; [congruence|].
      apply (i_queued _ Hi). by exists p0.
  - intros j p0 [(-> & <- & _)|(_ & Hp0)]%list_lookup_insert_Some; [done|]. by eapply i_mail.
Qed.

Lemma not_queued_same s i p p' :
  inv s -> procs s !! i = Some p -> queued p = queued p' ->
  forall w, w ∈ waiters s <-> (w = i /\ queued p' = true) \/ (w <> i /\ w ∈ waiters s).
Proof.
  intros Hi Hp Hq w. destruct (decide (w = i)) as [->|Hne]; [|tauto].
  rewrite (i_queued _ Hi i), <- Hq. split.
  - intros (p0 & Hp0 & Hq0). left. split; [done|]. congruence.
  - intros [[_ Hqp]|[? _]]; [by exists p|done].
Qed.

(** A move that keeps the counters. *)
Lemma inv_goto s i p p' :
  inv s -> procs s !! i = Some p ->
  weight p = weight p' -> held p = held p' -> queued p = queued p' -> lost p' = false ->
  inv (goto i p' s).
Proof.
  intros Hi Hp Hw Hh Hq Hl. apply (inv_move s s i p p'); try done.
  1: lia. 1-4: by destruct Hi.
  - rewrite Hh. solve_Permutation.
  - by destruct Hi.
  - by destruct Hi.
  - by apply not_queued_same with (p := p).
Qed.

Lemma inv_spawn s p :
  inv s -> weight p = 0 -> held p = [] -> queued p = false -> lost p = false ->
  inv (set_procs (procs s ++ [p]) s).
Proof.
  intros Hi Hw Hh Hq Hl. split; cbn [leased freeSlots maxSize closed idle created waiters procs set_procs];
    try (by destruct Hi).
  - rewrite sumZ_app, sumZ_cons, (i_leased _ Hi), Hw. cbn. lia.
  - rewrite <- (i_places _ Hi). unfold places. cbn [idle procs destroyed set_procs].
    rewrite map_app, concat_app. cbn. by rewrite Hh, !app_nil_r.
  - intros w. rewrite (i_queued _ Hi). split.
    + intros (p0 & Hp0 & Hq0). exists p0. split; [|done]. by apply lookup_app_l_Some.
    + intros (p0 & [Hp0|[_ Hp0]]%lookup_app_Some & Hq0); [by exists p0|].
      apply list_lookup_singleton_Some in Hp0 as [_ <-]. congruence.
  - intros i p0 [Hp0|[_ Hp0]]%lookup_app_Some; [by eapply i_mail|].
    apply list_lookup_singleton_Some in Hp0 as [_ <-]. done.
Qed.

(** ** Handing out *)
Lemma pop_idle_Some (l : list (T * Z)) rest e : pop_idle l = Some (rest, e) -> l = rest ++ [e].
Proof.
  unfold pop_idle. destruct l as [|x l _] using rev_ind; [done|]. rewrite rev_app_distr. cbn.
  intros [= <- <-]. by rewrite rev_involutive.
Qed.

Lemma pop_idle_None (l : list (T * Z)) : pop_idle l = None -> l = [].
Proof.
  unfold pop_idle. destruct l as [|x l _] using rev_ind; [done|]. rewrite rev_app_distr. discriminate.
Qed.

Lemma receive_mail_spec g p :
  queued p = true ->
  weight p = 0 /\ weight (receive_mail g p) = 1 /\ held p = [] /\
  held (receive_mail g p) = mail_held (Some g) /\ queued (receive_mail g p) = false /\
  lost (receive_mail g p) = false.
Proof. destruct p as [| | | |[]|[]| | | | | | | | | |]; cbn; done. Qed.

(** Handing [g] to the first waiter, the counters going from [s] to [s1]. *)
Lemma send_next_inv s s1 w ws g :
  inv s -> waiters s = w :: ws -> procs s1 = procs s -> waiters s1 = waiters s ->
  leased s1 = leased s + 1 -> 0 <= freeSlots s1 ->
  total s1 <= maxSize s1 -> (closed s1 = false -> total s1 = maxSize s1) ->
  (closed s1 = true -> idle s1 = []) -> created s1 = created s -> destroyed s1 = destroyed s ->
  map fst (idle s1) ++ mail_held (Some g) ≡ₚ map fst (idle s) ->
  inv (send_next g s1) /\ waiters (send_next g s1) = ws /\ idle (send_next g s1) = idle s1 /\
  freeSlots (send_next g s1) = freeSlots s1 /\ closed (send_next g s1) = closed s1.
Proof.
  intros Hi Hw Ep Ew El Hf Ht Ho Hc Ecr Ed Hr.
  assert (w ∈ waiters s) as Hin by (rewrite Hw; left). apply (i_queued _ Hi) in Hin as (p & Hp & Hq).
  destruct (receive_mail_spec g p Hq) as (W0 & W1 & H0 & H1 & Q & L).
  unfold send_next. rewrite Ew, Hw. unfold send. cbn [procs set_waiters]. rewrite Ep, Hp. split_and!; try done.
  apply (inv_move s _ w p (receive_mail g p)); cbn [procs leased freeSlots maxSize closed idle created destroyed
    waiters set_waiters total]; try done.
  - lia.
  - rewrite H0, H1, Ecr, Ed, <- Hr, app_nil_r. solve_Permutation.
  - rewrite Ecr. by destruct Hi.
  - pose proof (i_queue _ Hi) as Hnd. rewrite Hw in Hnd. by apply NoDup_cons in Hnd as [_ ?].
  - intros v. rewrite Q, Hw, elem_of_cons. pose proof (i_queue _ Hi) as Hnd. rewrite Hw in Hnd.
    apply NoDup_cons in Hnd as [Hnin _]. split; [intros Hv; right; split; [by intros ->|by right]|].
    intros [[_ ?]|[Hne [?|?]]]; done.
Qed.

Lemma grant_idle s w ws rest e :
  inv s -> waiters s = w :: ws -> idle s = rest ++ [e] ->
  let s' := send_next (GrantResource (fst e)) (set_leased (leased s + 1) (set_idle rest s)) in
  inv s' /\ waiters s' = ws /\ idle s' = rest /\ freeSlots s' = freeSlots s /\ closed s' = closed s.
Proof.
  intros Hi Hw He. pose proof (i_total _ Hi) as Ht. pose proof (i_open _ Hi) as Ho.
  assert (zlen (idle s) = zlen rest + 1) as Hz by (rewrite He, zlen_app; done).
  unfold total in *. apply (send_next_inv s (set_leased (leased s + 1) (set_idle rest s)) w ws); cbn; try done; unfold total; cbn; try lia.
  - by destruct Hi.
  - intros Hcl. specialize (Ho Hcl). lia.
  - intros Hcl. apply (i_closed _ Hi) in Hcl. rewrite Hcl in He. by destruct rest.
  - rewrite He, map_app. done.
Qed.

Lemma grant_slot s w ws :
  inv s -> waiters s = w :: ws -> 0 < freeSlots s ->
  let s' := send_next GrantSlot (set_leased (leased s + 1) (set_freeSlots (freeSlots s - 1) s)) in
  inv s' /\ waiters s' = ws /\ idle s' = idle s /\ freeSlots s' = freeSlots s - 1 /\ closed s' = closed s.
Proof.
  intros Hi Hw Hf. pose proof (i_total _ Hi) as Ht. pose proof (i_open _ Hi) as Ho.
  unfold total in *. apply (send_next_inv s (set_leased (leased s + 1) (set_freeSlots (freeSlots s - 1) s)) w ws); cbn; try done; unfold total; cbn; try lia.
  - intros Hcl. specialize (Ho Hcl). lia.
  - by destruct Hi.
  - by rewrite app_nil_r.
Qed.

Lemma grant_loop_inv n s :
  inv s -> (length (waiters s) <= n)%nat -> inv (grant_loop n s) /\ awake (grant_loop n s).
Proof.
  revert s. induction n as [|n IH]; intros s Hi Hn; cbn [grant_loop].
  { split; [done|]. intros _ Hne. destruct (waiters s); [done|cbn in Hn; lia]. }
  destruct (waiters s) as [|w ws] eqn:Ew; [split; [done|]; intros _ Hne; by rewrite Ew in Hne|].
  destruct (pop_idle (idle s)) as [[rest e]|] eqn:Ep.
  - apply pop_idle_Some in Ep. destruct (grant_idle s w ws rest e Hi Ew Ep) as (Hi' & Ew' & _).
    apply IH; [done|]. rewrite Ew'. cbn in Hn. lia.
  - apply pop_idle_None in Ep. destruct (Z.ltb_spec 0 (freeSlots s)) as [Hf|Hf].
    + destruct (grant_slot s w ws Hi Ew Hf) as (Hi' & Ew' & _). apply IH; [done|]. rewrite Ew'. cbn in Hn. lia.
    + split; [done|]. intros _ _. split; [done|]. pose proof (i_slots _ Hi). lia.
Qed.

Lemma grantAvailable_inv s : inv s -> inv (grantAvailable s) /\ awake (grantAvailable s).
Proof. intros Hi. by apply grant_loop_inv. Qed.

(** ** The sections under the mutex *)
Definition good s : Prop := inv s /\ awake s.

(** A move that keeps what [awake] looks at. *)
Lemma good_goto s i p p' :
  good s -> procs s !! i = Some p ->
  weight p = weight p' -> held p = held p' -> queued p = queued p' -> lost p' = false ->
  good (goto i p' s).
Proof. intros [Hi Ha] ?????. split; [by eapply inv_goto|done]. Qed.

(** The side conditions of [inv_move] that are arithmetic or untouched. *)
Ltac settle Hi Ho :=
  cbn; try done; unfold total; cbn; try lia; try (by destruct Hi);
  try (let Hcl := fresh in intros Hcl; first [congruence|specialize (Ho Hcl); lia]).

Lemma acquire_good s i : good s -> procs s !! i = Some Acquiring -> good (acquire_section i s).
Proof.
  intros [Hi Ha] Hp. pose proof (i_total _ Hi) as Ht. pose proof (i_slots _ Hi).
  unfold acquire_section. destruct (closed s) eqn:Ec.
  { by apply good_goto with (p := Acquiring). }
  pose proof (i_open _ Hi) as Ho.
  destruct (pop_idle (idle s)) as [[rest e]|] eqn:Ep.
  - apply pop_idle_Some in Ep. assert (zlen (idle s) = zlen rest + 1) as Hz by (rewrite Ep, zlen_app; done).
    unfold total in *. split.
    + eapply (inv_move s _ i _ (Validating (fst e))); settle Hi Ho.
      * rewrite Ep, map_app. cbn. solve_Permutation.
      * exact (not_queued_same s i Acquiring (Validating (fst e)) Hi Hp eq_refl).
    + intros _ Hw. destruct (Ha Ec Hw) as [Hnil _]. rewrite Hnil in Ep. by destruct rest.
  - apply pop_idle_None in Ep. destruct (Z.ltb_spec 0 (freeSlots s)) as [Hf|Hf]; unfold total in *; split.
    + eapply (inv_move s _ i _ Creating); settle Hi Ho.
      * solve_Permutation.
      * exact (not_queued_same s i Acquiring Creating Hi Hp eq_refl).
    + intros _ Hw. destruct (Ha Ec Hw) as [_ Hz]. lia.
    + assert (i ∉ waiters s) as Hnin.
      { intros (p & Hp' & Hq)%(i_queued _ Hi). rewrite Hp in Hp'. injection Hp' as <-. discriminate. }
      eapply (inv_move s _ i _ (Waiting None)); settle Hi Ho.
      * solve_Permutation.
      * apply NoDup_app. split; [by destruct Hi|]. split; [|apply NoDup_singleton].
        intros w Hw ->%list_elem_of_singleton. done.
      * intros w. rewrite elem_of_app, list_elem_of_singleton.
        destruct (decide (w = i)) as [->|]; [tauto|]. tauto.
    + intros _ _. cbn. split; [done|lia].
Qed.

Lemma slot_back_good s i p next :
  good s -> procs s !! i = Some p -> weight p = 1 -> weight next = 0 -> held next = held p ->
  queued p = false -> queued next = false -> lost next = false -> good (slot_back_section i next s).
Proof.
  intros [Hi Ha] Hp W1 W0 Hh Q1 Q2 L. pose proof (i_total _ Hi) as Ht. pose proof (i_open _ Hi) as Ho.
  pose proof (i_slots _ Hi). unfold total in *. apply grantAvailable_inv.
  eapply (inv_move s _ i p next); settle Hi Ho.
  - rewrite Hh. solve_Permutation.
  - apply not_queued_same with (p := p); [done|done|congruence].
Qed.

Lemma remove_waiter_spec i ws :
  NoDup ws ->
  match removeWaiter i ws with
  | Some ws' => i ∈ ws /\ NoDup ws' /\ forall w, w ∈ ws' <-> w <> i /\ w ∈ ws
  | None => i ∉ ws
  end.
Proof.
  induction 1 as [|w ws Hnin Hnd IH]; cbn; [by apply not_elem_of_nil|].
  destruct (Nat.eqb_spec w i) as [->|Hne].
  - split_and!; [left|done|]. intros v. rewrite elem_of_cons. split; [|tauto].
    intros Hv. split; [by intros ->|by right].
  - destruct (removeWaiter i ws) as [ws'|]; cbn.
    + destruct IH as (Hin & Hnd' & Hiff). split_and!; [by right| |].
      * apply NoDup_cons. split; [|done]. rewrite Hiff. tauto.
      * intros v. rewrite !elem_of_cons, Hiff. destruct (decide (v = w)) as [->|]; tauto.
    + intros [?|?]%elem_of_cons; [congruence|done].
Qed.

Lemma abandon_good s i m c :
  good s -> procs s !! i = Some (Abandoning m c) -> good (abandon_section i m c s).
Proof.
  intros [Hi Ha] Hp. unfold abandon_section. pose proof (remove_waiter_spec i (waiters s) (i_queue _ Hi)) as Hr.
  destruct (removeWaiter i (waiters s)) as [ws|].
  - destruct Hr as (Hin & Hnd & Hiff).
    assert (m = None) as ->.
    { apply (i_queued _ Hi) in Hin as (p & Hp' & Hq). rewrite Hp in Hp'. injection Hp' as <-. by destruct m. }
    split.
    + eapply (inv_move s _ i _ (Finished c)); settle Hi Ho.
      * solve_Permutation.
      * intros w. rewrite Hiff. split; [by right|]. intros [[_ ?]|?]; done.
    + intros Hc Hw. cbn in *. apply Ha; [done|]. intros E. rewrite E in Hin. by apply elem_of_nil in Hin.
  - assert (exists g, m = Some g) as [g ->].
    { destruct m as [g|]; [by exists g|]. exfalso. apply Hr, (i_queued _ Hi). by eexists. }
    by apply good_goto with (p := Abandoning (Some g) c).
Qed.

Lemma put_back_good s i r k now :
  good s -> procs s !! i = Some (PuttingBack r k) -> good (put_back_section i r k now s).
Proof.
  intros [Hi Ha] Hp. pose proof (i_total _ Hi) as Ht. pose proof (i_open _ Hi) as Ho. pose proof (i_slots _ Hi).
  assert (weight (@resume T k) = 0 /\ held (@resume T k) = [] /\ queued (@resume T k) = false /\
          lost (@resume T k) = false) as (W & H0 & Q & L) by (by destruct k).
  unfold put_back_section, total in *. destruct (closed s) eqn:Ec.
  { split; [|intros Hcl; cbn in Hcl; congruence].
    eapply (inv_move s _ i _ (Destroying [r] k)); settle Hi Ho.
    - solve_Permutation.
    - exact (not_queued_same s i (PuttingBack r k) (Destroying [r] k) Hi Hp eq_refl). }
  set (s0 := goto i (resume k) (set_idle (idle s ++ [(r, now)]) (set_leased (leased s - 1) s))).
  assert (inv s0) as Hi0.
  { assert (zlen (idle s ++ [(r, now)]) = zlen (idle s) + 1) as Hz by apply zlen_app.
    eapply (inv_move s _ i _ (resume k)); settle Hi Ho.
    - rewrite map_app, H0. cbn. solve_Permutation.
    - apply not_queued_same with (p := PuttingBack r k); [done|done|by rewrite Q]. }
  destruct (waiters s) as [|w ws] eqn:Ew.
  - split; [exact Hi0|]. intros _ Hne. cbn in Hne. by rewrite Ew in Hne.
  - destruct (grant_idle s0 w ws (idle s) (r, now) Hi0 Ew eq_refl) as (Hi1 & Ew1 & Ed1 & Ef1 & Ec1).
    assert (send_next (GrantResource r) (goto i (resume k) s)
            = send_next (GrantResource (fst (r, now))) (set_leased (leased s0 + 1) (set_idle (idle s) s0))) as ->.
    { f_equal. subst s0. destruct s. unfold goto, set_procs, set_leased, set_idle. cbn. f_equal. lia. }
    split; [done|]. intros Hcl Hne. rewrite Ed1, Ef1. subst s0. cbn. apply Ha; [done|]. by rewrite Ew.
Qed.

Lemma evict_good s i cutoff : good s -> procs s !! i = Some Janitor -> good (evict_section i cutoff s).
Proof.
  intros [Hi Ha] Hp. pose proof (i_total _ Hi) as Ht. pose proof (i_open _ Hi) as Ho. pose proof (i_slots _ Hi).
  unfold evict_section, total in *. set (expired := filter _ (idle s)). set (kept := filter _ (idle s)).
  assert (idle s ≡ₚ expired ++ kept) as Hperm by (symmetry; apply filter_app_complement).
  assert (zlen (idle s) = zlen expired + zlen kept) as Hz
    by (rewrite <- zlen_app; unfold zlen; by rewrite Hperm).
  pose proof (zlen_nonneg expired).
  set (s' := goto i _ _). assert (inv s') as Hi'.
  { eapply (inv_move s _ i _ (Destroying (map fst expired) Tick)); settle Hi Ho.
    - intros Hcl. subst kept. by rewrite (i_closed _ Hi Hcl).
    - rewrite Hperm, map_app. solve_Permutation.
    - exact (not_queued_same s i Janitor (Destroying (map fst expired) Tick) Hi Hp eq_refl). }
  case_bool_decide as He; [|by apply grantAvailable_inv]. split; [done|].
  intros Hc Hw. cbn in *. destruct (Ha Hc Hw) as [Hn Hf]. rewrite He. split; [|change (zlen (@nil (T * Z))) with 0; lia].
  subst kept. by rewrite Hn.
Qed.

Lemma close_good s i : good s -> procs s !! i = Some (Finished Returned) -> good (close_section i s).
Proof.
  intros [Hi Ha] Hp. pose proof (i_total _ Hi) as Ht. pose proof (i_slots _ Hi).
  unfold close_section, total in *. destruct (closed s) eqn:Ec.
  { by apply good_goto with (p := Finished Returned). }
  split; [|intros Hcl; discriminate].
  pose proof (zlen_nonneg (idle s)). change (zlen (@nil (T * Z))) with 0.
  eapply (inv_move s _ i _ (CloseWaiting (map fst (idle s)))); settle Hi Ho.
  - change (zlen (@nil (T * Z))) with 0. lia.
  - solve_Permutation.
  - exact (not_queued_same s i (Finished Returned) (CloseWaiting (map fst (idle s))) Hi Hp eq_refl).
Qed.

(** ** Every step *)
Lemma destroy_good s i p p' r :
  good s -> procs s !! i = Some p -> weight p = weight p' -> held p = r :: held p' ->
  queued p = queued p' -> lost p' = false ->
  good (goto i p' (set_destroyed (destroyed s ++ [r]) s)).
Proof.
  intros [Hi Ha] Hp W H Q L. split; [|exact Ha]. pose proof (i_open _ Hi) as Ho.
  eapply (inv_move s _ i p p'); settle Hi Ho.
  - rewrite H. solve_Permutation.
  - exact (not_queued_same s i p p' Hi Hp Q).
Qed.

Lemma created_good s i r :
  good s -> procs s !! i = Some Creating -> r ∉ created s ->
  good (goto i (Holding r) (set_created (created s ++ [r]) s)).
Proof.
  intros [Hi Ha] Hp Hr. split; [|exact Ha]. pose proof (i_open _ Hi) as Ho.
  eapply (inv_move s _ i Creating (Holding r)); settle Hi Ho.
  - solve_Permutation.
  - apply NoDup_app. split; [by destruct Hi|]. split; [|apply NoDup_singleton].
    by intros x Hx ->%list_elem_of_singleton.
  - exact (not_queued_same s i Creating (Holding r) Hi Hp eq_refl).
Qed.

Lemma act_good s i p s' : good s -> procs s !! i = Some p -> act s i p s' -> good s'.
Proof.
  intros Hg Hp Ha. destruct Ha;
    try (eapply good_goto; [exact Hg|exact Hp|reflexivity|reflexivity|reflexivity|reflexivity]).
  - by apply acquire_good.
  - by eapply destroy_good.
  - by apply created_good.
  - eapply slot_back_good; try done; by destruct k.
  - by apply abandon_good.
  - by apply put_back_good.
  - by eapply slot_back_good.
  - by eapply destroy_good.
  - eapply good_goto; try done; by destruct k.
  - by apply evict_good.
Qed.

Lemma step_good s s' : good s -> step s s' -> good s'.
Proof.
  intros Hg [i p s1 Hp Ha| |].
  - by eapply act_good.
  - destruct Hg as [Hi Ha]. split; [by apply inv_spawn|exact Ha].
  - apply close_good.
    + destruct Hg as [Hi Ha]. split; [by apply inv_spawn|exact Ha].
    + cbn. by rewrite lookup_app_r, Nat.sub_diag by lia.
Qed.

Lemma new_good m d : good (New (T := T) m d).
Proof.
  assert (1 <= maxSize (New (T := T) m d)) as H1 by (unfold New, DefaultMaxSize; cbn; case_tests; lia).
  split; [|by intros _ Hw]. unfold New in *. cbn in H1.
  split; cbn; unfold total; cbn; try done; try (change (zlen (@nil (T * Z))) with 0; lia); try lia.
  - by destruct (0 <? d).
  - unfold places. cbn. by destruct (0 <? d).
  - apply NoDup_nil_2.
  - apply NoDup_nil_2.
  - intros w. split; [by intros ?%elem_of_nil|]. intros (p & Hp & Hq).
    destruct (0 <? d); [|done]. apply list_lookup_singleton_Some in Hp as [_ <-]. done.
  - intros i p Hp. destruct (0 <? d); [|done]. by apply list_lookup_singleton_Some in Hp as [_ <-].
Qed.

Lemma reachable_good m d s : reachable m d s -> good s.
Proof.
  intros H. assert (forall s0, good s0 -> rtc step s0 s -> good s) as Hall.
  { intros s0 Hg. induction 1; [done|]. eauto using step_good. }
  eapply Hall; [apply new_good|exact H].
Qed.

(** [MaxSize] is fixed. *)
Lemma send_next_max g s : maxSize (send_next g s) = maxSize s.
Proof. unfold send_next, send. destruct (waiters s); [done|]. cbn. by destruct (_ !! _). Qed.

Lemma grant_loop_max n s : maxSize (grant_loop n s) = maxSize s.
Proof.
  revert s. induction n as [|n IH]; intros s; cbn; [done|]. destruct (waiters s); [done|].
  destruct (pop_idle _) as [[rest e]|]; [by rewrite IH, send_next_max|].
  destruct (0 <? freeSlots s); [by rewrite IH, send_next_max|done].
Qed.

Lemma act_max s i p s' : act s i p s' -> maxSize s' = maxSize s.
Proof.
  intros []; try done.
  - unfold acquire_section. destruct (closed s); [done|]. destruct (pop_idle _) as [[]|]; [done|]. by case_tests.
  - unfold slot_back_section, grantAvailable. by rewrite grant_loop_max.
  - unfold abandon_section. by destruct (removeWaiter _ _).
  - unfold put_back_section. destruct (closed s); [done|]. destruct (waiters s); [done|by rewrite send_next_max].
  - unfold slot_back_section, grantAvailable. by rewrite grant_loop_max.
  - unfold evict_section. case_bool_decide; [done|]. unfold grantAvailable. by rewrite grant_loop_max.
Qed.

Lemma reachable_max m d s : reachable m d s -> maxSize s = if m <=? 0 then DefaultMaxSize else m.
Proof.
  intros H. change (maxSize s = maxSize (New (T := T) m d)). unfold reachable in H.
  induction H as [|s0 s1 s2 Hs _ IH]; [done|]. rewrite IH. destruct Hs as [i p s' Hp Ha| |]; [by eapply act_max|done|].
  unfold close_section. cbn. by destruct (closed s0).
Qed.

(** C8: In every reachable state of the pool, under any interleaving of its goroutines, the
    leased count is the number of slots goroutines hold, open resources never exceed
    MaxSize, and before Close open resources and free slots add up to MaxSize. *)
Theorem pool_occupancy m d s :
  reachable m d s ->
  st_MaxSize (Stats s) = (if m <=? 0 then DefaultMaxSize else m) /\
  0 <= st_Leased (Stats s) /\ st_Open (Stats s) <= st_MaxSize (Stats s) /\
  st_Leased (Stats s) = sumZ weight (procs s) /\
  (closed s = false -> st_Open (Stats s) + freeSlots s = st_MaxSize (Stats s)).
Proof.
  intros H. pose proof (reachable_max _ _ _ H) as Hm. apply reachable_good in H as [Hi _].
  pose proof (i_leased _ Hi) as Hl. pose proof (sumZ_nonneg weight (procs s) weight_nonneg) as Hn.
  pose proof (i_total _ Hi) as Ht. pose proof (i_open _ Hi) as Ho. pose proof (i_slots _ Hi) as Hs.
  unfold total in *. cbn. split_and!; [done|lia|lia|done|]. intros Hc. specialize (Ho Hc). lia.
Qed.

Lemma sumZ_pos {A} (f : A -> Z) l : 0 < sumZ f l -> exists i x, l !! i = Some x /\ 0 < f x.
Proof.
  induction l as [|x l IH]; [cbn; lia|]. rewrite sumZ_cons. intros H.
  destruct (Z.ltb_spec 0 (f x)); [by exists O, x|]. destruct IH as (i & y & Hy & Hf); [lia|]. by exists (S i), y.
Qed.

(** C9: While a waiter is queued in an open pool there is no idle resource and no free slot,
    all MaxSize slots are leased, and some goroutine that is not itself queued holds a slot
    it will give back: a waiter is never left behind by a lost wake-up. *)
Theorem pool_no_lost_wakeup m d s :
  reachable m d s -> closed s = false -> waiters s <> [] ->
  idle s = [] /\ freeSlots s = 0 /\ leased s = maxSize s /\
  exists i p, procs s !! i = Some p /\ 0 < weight p /\ i ∉ waiters s.
Proof.
  intros H Hc Hw. pose proof (reachable_max _ _ _ H) as Hm. apply reachable_good in H as [Hi Ha].
  destruct (Ha Hc Hw) as [He Hf]. pose proof (i_open _ Hi Hc) as Ho. unfold total in Ho.
  rewrite He, Hf in Ho. change (zlen (@nil (T * Z))) with 0 in Ho.
  assert (0 < maxSize s) as Hpos by (rewrite Hm; unfold DefaultMaxSize; case_tests; lia).
  split_and!; [done|done|lia|]. pose proof (i_leased _ Hi) as Hl.
  destruct (sumZ_pos weight (procs s)) as (i & p & Hp & Hwp); [lia|]. exists i, p. split_and!; [done|done|].
  intros (p' & Hp' & Hq)%(i_queued _ Hi). rewrite Hp in Hp'. injection Hp' as <-.
  by destruct p as [| | | |[]|[]| | | | | | | | | |].
Qed.

Lemma in_concat_held (l : list (pc T)) k p r :
  l !! k = Some p -> r ∈ held p -> r ∈ concat (map held l).
Proof.
  intros Hk Hp. apply list_elem_of_In, in_concat. exists (held p). split; [|by apply list_elem_of_In].
  apply in_map, list_elem_of_In. by eapply list_elem_of_lookup_2.
Qed.

(** A resource in somebody's hands is nowhere else. *)
Lemma held_elsewhere s i p r :
  inv s -> procs s !! i = Some p -> r ∈ held p ->
  (r ∉ destroyed s) /\ (r ∉ map fst (idle s)) /\ r ∈ created s /\ NoDup (destroyed s) /\
  NoDup (concat (map held (procs s))).
Proof.
  intros Hi Hp Hr. pose proof (i_places _ Hi) as Hpl. pose proof (i_fresh _ Hi) as Hn.
  rewrite <- Hpl in Hn. unfold places in Hn.
  apply NoDup_app in Hn as (Hn1 & Hd1 & Hn2). apply NoDup_app in Hn2 as (Hn2 & Hd2 & Hn3).
  pose proof (in_concat_held _ _ _ _ Hp Hr) as Hin.
  split_and!; [by apply Hd2|intros Hid; apply (Hd1 r Hid); by apply elem_of_app; left| |done|done].
  rewrite <- Hpl. unfold places. rewrite !elem_of_app. tauto.
Qed.

Lemma concat_held_apart (l : list (pc T)) i j pi pj r :
  NoDup (concat (map held l)) -> l !! i = Some pi -> l !! j = Some pj ->
  r ∈ held pi -> r ∈ held pj -> i = j.
Proof.
  intros Hn Hpi Hpj Hr Hrj. destruct (decide (i = j)) as [|Hne]; [done|]. exfalso.
  destruct (insert_split _ i pi pi Hpi) as [E _].
  rewrite E, map_app, concat_app in Hn. cbn [map concat] in Hn.
  apply NoDup_app in Hn as (_ & Hx & Hn). apply NoDup_app in Hn as (_ & Hy & _).
  destruct (decide (j < i)%nat).
  - apply (Hx r); [apply (in_concat_held _ j pj); [by rewrite lookup_take_lt|done]|]. apply elem_of_app. by left.
  - apply (Hy r); [done|]. apply (in_concat_held _ (j - S i)%nat pj); [|done].
    rewrite lookup_drop. by replace (S i + (j - S i))%nat with j by lia.
Qed.

(** C16: A resource that one goroutine holds is held by no other, is not idle and was not
    closed, and no resource is ever closed twice. *)
Theorem pool_exclusive m d s i p r :
  reachable m d s -> procs s !! i = Some p -> r ∈ held p ->
  (forall j p', procs s !! j = Some p' -> r ∈ held p' -> j = i) /\
  (r ∉ destroyed s) /\ (r ∉ map fst (idle s)) /\ NoDup (destroyed s).
Proof.
  intros [Hi _]%reachable_good Hp Hr. destruct (held_elsewhere s i p r Hi Hp Hr) as (H1 & H2 & _ & H3 & H4).
  split_and!; try done. intros j p' Hp' Hr'. by eapply concat_held_apart.
Qed.

(** C33: Once the pool is closed and every goroutine has finished (none of them a Close
    whose context ended first), every resource that was created was closed exactly once and
    nothing is leased. *)
Theorem pool_drained m d s :
  reachable m d s -> closed s = true -> Forall (fun p => exists e, p = Finished e) (procs s) ->
  destroyed s ≡ₚ created s /\ leased s = 0.
Proof.
  intros [Hi _]%reachable_good Hc Hf. rewrite <- (i_places _ Hi), (i_leased _ Hi). unfold places.
  rewrite (i_closed _ Hi Hc). clear -Hf. cbn. induction Hf as [|p l [e ->] _ IH]; [done|]. cbn. exact IH.
Qed.

(** ** [Close] that gives up waiting *)
Definition stands_at (i : nat) (p : pc T) s : Prop := procs s !! i = Some p.

(** A goroutine that does not wait for a grant. *)
Definition deaf (p : pc T) : Prop := forall g, receive_mail g p = p.

Lemma stands_goto i p j p' s : stands_at i p s -> j <> i -> stands_at i p (goto j p' s).
Proof. intros H Hne. unfold stands_at, goto. cbn. by rewrite list_lookup_insert_ne. Qed.

Lemma stands_send_next i p g s : deaf p -> stands_at i p s -> stands_at i p (send_next g s).
Proof.
  intros Hd H. unfold send_next, send. destruct (waiters s) as [|w ws]; [done|]. cbn.
  destruct (procs s !! w) as [q|] eqn:E; [|done]. destruct (decide (w = i)) as [->|]; [|by apply stands_goto].
  unfold stands_at in *. rewrite H in E. injection E as <-. rewrite Hd. cbn.
  apply list_lookup_insert_eq. by eapply lookup_lt_Some.
Qed.

Lemma stands_grant i p n s : deaf p -> stands_at i p s -> stands_at i p (grant_loop n s).
Proof.
  intros Hd. revert s. induction n as [|n IH]; intros s H; cbn; [done|]. destruct (waiters s); [done|].
  destruct (pop_idle _) as [[rest e]|]; [by apply IH, stands_send_next|].
  destruct (0 <? freeSlots s); [by apply IH, stands_send_next|done].
Qed.

(** Only its own actions move such a goroutine. *)
Lemma own_step i p s s' : deaf p -> stands_at i p s -> step s s' -> stands_at i p s' \/ act s i p s'.
Proof.
  intros Hd H Hs. destruct Hs as [j q s' Hp Ha| |].
  - destruct (decide (j = i)) as [->|Hne]; [right; unfold stands_at in H; rewrite H in Hp; by injection Hp as <-|]. left.
    destruct Ha; try (by apply stands_goto).
    + unfold acquire_section. destruct (closed s); [by apply stands_goto|].
      destruct (pop_idle _) as [[]|]; [by apply stands_goto|]. destruct (0 <? _); by apply stands_goto.
    + apply stands_grant; [done|]. by apply stands_goto.
    + unfold abandon_section. destruct (removeWaiter _ _); by apply stands_goto.
    + unfold put_back_section. destruct (closed s); [by apply stands_goto|].
      destruct (waiters s); [by apply stands_goto|]. apply stands_send_next; [done|]. by apply stands_goto.
    + apply stands_grant; [done|]. by apply stands_goto.
    + unfold evict_section. case_bool_decide; [by apply stands_goto|]. apply stands_grant; [done|]. by apply stands_goto.
  - left. unfold stands_at in *. cbn. by apply lookup_app_l_Some.
  - left. pose proof (lookup_lt_Some _ _ _ H). unfold close_section. cbn.
    destruct (closed s); (apply stands_goto; [unfold stands_at in *; cbn; by apply lookup_app_l_Some|lia]).
Qed.

(** The stations of a [Close] that has taken the resources [rs]. *)
Definition closer (rs : list T) (p : pc T) : Prop :=
  match p with
  | CloseWaiting rs' | CloseAborted rs' => rs' = rs
  | Destroying _ (Stop _) | Finished _ => True
  | _ => False
  end.

Lemma closer_deaf rs p : closer rs p -> deaf p.
Proof. by destruct p. Qed.

Lemma closer_step i rs s s' : (exists p, stands_at i p s /\ closer rs p) -> step s s' -> exists p, stands_at i p s' /\ closer rs p.
Proof.
  intros (p & Hp & Hc) Hs. destruct (own_step i p s s' (closer_deaf rs p Hc) Hp Hs) as [|Ha]; [by exists p|].
  pose proof (lookup_lt_Some _ _ _ Hp) as Hlt.
  assert (forall q s1, procs s1 = procs s -> stands_at i q (goto i q s1)) as Hgo.
  { intros q s1 E. unfold stands_at, goto. cbn. rewrite E. by apply list_lookup_insert_eq. }
  destruct Ha as [| | | | | | | | | | | | | | | | | | |r rs' k|k| | |rs' _|rs' _]; try done;
    try (destruct k as [|e|]; [done| |done]); (eexists; split; [by apply Hgo|exact Hc || done]).
Qed.

Lemma closer_steps i rs s s' : (exists p, stands_at i p s /\ closer rs p) -> rtc step s s' -> exists p, stands_at i p s' /\ closer rs p.
Proof. intros H Hs. induction Hs as [|x y z Hxy _ IH]; [done|]. apply IH. by eapply closer_step. Qed.

Lemma aborted_forever i rs s s' m d r :
  reachable m d s -> stands_at i (CloseAborted rs) s -> r ∈ rs -> rtc step s s' ->
  reachable m d s' /\ (r ∉ destroyed s') /\ r ∈ created s'.
Proof.
  intros Hr Ha Hin Hs. assert (stands_at i (CloseAborted rs) s') as Ha'.
  { induction Hs as [|s s1 s2 H1 _ IH]; [done|]. apply IH; [by eapply rtc_r|].
    destruct (own_step i (CloseAborted rs) s s1) as [|Hact]; [done..|inversion Hact]. }
  assert (reachable m d s') as Hr' by (unfold reachable in *; by etransitivity).
  split; [done|]. apply reachable_good in Hr' as [Hi _].
  destruct (held_elsewhere s' i _ r Hi Ha' Hin) as (H1 & _ & H2 & _). done.
Qed.

(** C40: A Close of an open pool whose context ends while it waits for the janitor leaves
    every resource that was idle when it was called open for ever: whatever ran between the
    call and its return, and whatever runs later (a second Close included), none of them is
    ever closed. *)
Theorem pool_close_leak m d s0 s s' rs r :
  reachable m d s0 -> closed s0 = false ->
  rtc step (close_section (length (procs s0)) (set_procs (procs s0 ++ [Finished Returned]) s0)) s ->
  procs s !! length (procs s0) = Some (CloseAborted rs) -> rtc step s s' ->
  r ∈ map fst (idle s0) -> r ∈ created s' /\ (r ∉ destroyed s').
Proof.
  intros Hr Hc Hs Ha Hs' Hin. set (i := length (procs s0)) in *. set (s1 := close_section i _) in *.
  assert (exists p, stands_at i p s1 /\ closer (map fst (idle s0)) p) as H1.
  { unfold s1, close_section. cbn [closed set_procs]. rewrite Hc. exists (CloseWaiting (map fst (idle s0))). split; [|done].
    unfold stands_at, goto. cbn. apply list_lookup_insert_eq. rewrite length_app. cbn. unfold i. lia. }
  destruct (closer_steps i _ _ _ H1 Hs) as (p & Hp & Hcl).
  unfold stands_at in Hp. rewrite Ha in Hp. injection Hp as <-. cbn in Hcl. subst rs.
  assert (reachable m d s) as Hrs.
  { unfold reachable in *. etransitivity; [exact Hr|]. eapply rtc_l; [apply step_close|exact Hs]. }
  destruct (aborted_forever i _ s s' m d r Hrs Ha Hin Hs') as (_ & H2 & H3). done.
Qed.
End Invariant.

(** ** Runs *)
Section Runs.
#[local] Abbreviation pool := (t nat).

(** Take a step and compute the state it leads to. *)
Ltac compute_state :=
  match goal with |- rtc _ ?a _ => let b := eval vm_compute in a in change a with b end.
Ltac call rule := eapply rtc_l; [rule|]; compute_state.
Ltac perform i rule := eapply rtc_l; [eapply (step_act _ i); [reflexivity|rule]|]; compute_state.

Definition one_leased : pool := mk 1 false [] 1 0 [] false [Holding 7%nat] [7%nat] [].

Lemma one_leased_reachable : reachable 1 0 one_leased.
Proof.
  unfold reachable.
  call ltac:(apply step_acquire). perform 0%nat ltac:(apply act_acquire).
  perform 0%nat ltac:(apply (act_created _ _ 7%nat); apply not_elem_of_nil).
  apply rtc_refl.
Qed.

Definition one_queued : pool := mk 1 false [] 1 0 [1%nat] false [Holding 7%nat; Waiting None] [7%nat] [].

Lemma one_queued_reachable : reachable 1 0 one_queued.
Proof.
  unfold reachable. etransitivity; [exact one_leased_reachable|]. call ltac:(apply step_acquire).
  perform 1%nat ltac:(apply act_acquire). apply rtc_refl.
Qed.

Lemma pool_occupancy_witness : st_Open (Stats one_queued) <= st_MaxSize (Stats one_queued).
Proof. apply (pool_occupancy 1 0 one_queued one_queued_reachable). Defined.

Lemma pool_no_lost_wakeup_witness : exists i p, procs one_queued !! i = Some p /\ 0 < weight p.
Proof.
  destruct (pool_no_lost_wakeup 1 0 one_queued one_queued_reachable eq_refl) as (_ & _ & _ & i & p & H & Hw & _);
    [discriminate|]. exists i, p. split; [exact H|exact Hw].
Defined.

Lemma pool_exclusive_witness : 7%nat ∉ destroyed one_queued.
Proof.
  apply (pool_exclusive 1 0 one_queued 0 (Holding 7%nat) 7%nat one_queued_reachable eq_refl). left.
Defined.

Definition all_closed : pool := mk 1 false [] 0 0 [] true [Finished Returned; Finished Returned] [7%nat] [7%nat].

Lemma all_closed_reachable : reachable 1 0 all_closed.
Proof.
  unfold reachable. etransitivity; [exact one_leased_reachable|].
  perform 0%nat ltac:(apply act_release).
  perform 0%nat ltac:(apply (act_put_back _ _ _ _ 0)).
  call ltac:(apply step_close).
  perform 1%nat ltac:(by apply act_close_ready).
  perform 1%nat ltac:(apply act_destroy).
  perform 1%nat ltac:(apply act_destroyed). apply rtc_refl.
Qed.

Lemma pool_drained_witness : destroyed all_closed ≡ₚ created all_closed /\ leased all_closed = 0.
Proof.
  apply (pool_drained 1 0 all_closed all_closed_reachable eq_refl).
  apply Forall_cons_2; [by exists Returned|]. apply Forall_cons_2; [by exists Returned|]. apply Forall_nil_2.
Defined.

(** One idle resource, and the state after a Close that gave up. *)
Definition one_idle : pool := mk 1 true [(7%nat, 0)] 0 0 [] false [Janitor; Finished Returned] [7%nat] [].
Definition given_up : pool := mk 1 true [] 0 0 [] true [Janitor; Finished Returned; CloseAborted [7%nat]] [7%nat] [].

Lemma one_idle_reachable : reachable 1 1 one_idle.
Proof.
  unfold reachable. call ltac:(apply step_acquire).
  perform 1%nat ltac:(apply act_acquire).
  perform 1%nat ltac:(apply (act_created _ _ 7%nat); apply not_elem_of_nil).
  perform 1%nat ltac:(apply act_release).
  perform 1%nat ltac:(apply (act_put_back _ _ _ _ 0)). apply rtc_refl.
Qed.

(** A second Close is called: the resource stays as it is. *)
Definition closed_again : pool := close_section 3 (set_procs (procs given_up ++ [Finished Returned]) given_up).

Lemma pool_close_leak_witness : closed closed_again = true /\ 7%nat ∈ created closed_again /\ (7%nat ∉ destroyed closed_again).
Proof.
  split; [reflexivity|]. apply (pool_close_leak 1 1 one_idle given_up closed_again [7%nat] 7%nat one_idle_reachable).
  - reflexivity.
  - compute_state. perform 2%nat ltac:(by apply act_close_ctx). apply rtc_refl.
  - reflexivity.
  - apply rtc_once. apply step_close.
  - left.
Defined.

(** A waiter queued when the pool is closed can still be given a lease: a discard after
    Close passes its slot to the queue. *)
Theorem pool_grant_after_close :
  exists s0 s1 : pool, reachable 1 0 s0 /\ closed s0 = true /\ procs s0 !! 1%nat = Some (Waiting None) /\
    rtc step s0 s1 /\ procs s1 !! 1%nat = Some (Holding 8%nat).
Proof.
  exists (mk 1 false [] 1 0 [1%nat] true [Holding 7%nat; Waiting None; CloseWaiting []] [7%nat] []).
  exists (mk 1 false [] 1 0 [] true [Destroying [7%nat] (Stop Returned); Holding 8%nat; CloseWaiting []]
            [7%nat; 8%nat] []).
  split_and!; try done.
  - unfold reachable; etransitivity; [exact one_queued_reachable|]. call ltac:(apply step_close). apply rtc_refl.
  - perform 0%nat ltac:(apply act_discard).
    perform 0%nat ltac:(apply act_discarded).
    perform 1%nat ltac:(apply act_granted_slot).
    perform 1%nat ltac:(apply (act_created _ _ 8%nat); cbn; intros ?%list_elem_of_singleton; discriminate).
    apply rtc_refl.
Qed.
End Runs.
