(* ===== verification/Lifecycle.v ===== *)
(** Package [lifecycle], internal/lifecycle/lifecycle.go: one RFC session shared by
    goroutines, and the factory with which a pool makes such sessions.

    The class [Session] is the interface of the same name; [client_session] shows that a
    session of package client has it.  Each method of [Managed] takes the mutex, tests
    [closed], may call the session, and releases the mutex on the way out, also when the
    session panics ([defer]).  The methods as such are functions on the state ([perform]);
    a step relation interleaves goroutines at the points where they lock, test, enter and
    leave the session, and unlock.

    A call on the session takes as long as it takes, and may never return; when it returns,
    its result, an error or a panic included, is what the method of the session gives.  A
    callback handler runs inside its call and may call a method of the same managed session,
    which waits for the mutex as any other goroutine does.

    The theorems: every interleaving equals one call after the other, with at most one call
    on the session at a time; the session is closed at most once and not called after it;
    and every interleaving of finitely many operations stops, either with all of them
    answered or, for good, with one goroutine inside a call that does not return or whose
    handler waits for the mutex of its own call, and all others before the lock. *)
From stdpp Require Import base list numbers strings relations.
From Stdlib Require Import ZArith Lia Strings.Byte.
From S2P Require Import Prelude Errors Cpic CpicFunction Transport ClientSession ClientCalls Pool.

(** ** The interface *)
Class Session (S : Type) : Type := {
  sess_Call : bytes -> list NamedValue -> list bytes -> M S CallResult;
  sess_CallRaw : bytes -> M S CallResult;
  sess_CallWithCallbacks : bytes -> option (bytes -> res bytes) -> M S CallResult;
  sess_Authenticated : S -> bool;
  sess_Close : M S unit;
}.

(** A session of package client, which serves at most [rounds] callbacks in one call. *)
#[export] Instance client_session {Tr} `{Transport Tr} (rounds : nat) : Session (ClientSession.Session Tr) := {
  sess_Call := ClientCalls.Call;
  sess_CallRaw := ClientCalls.CallRaw;
  sess_CallWithCallbacks request f := fun s =>
    let handler := (fun (g : bytes -> res bytes) (data : bytes) (u : unit) => (g data, u)) <$> f in
    let '(r, (s, _)) := ClientCalls.CallWithCallbacks (S rounds) request handler (s, tt) in (r, s);
  sess_Authenticated := ClientCalls.Authenticated;
  sess_Close := ClientSession.Close;
}.

Module Managed.
Section Managed.
Context {S : Type} {SS : Session S}.

Definition errClosed : error := ELifecycle LC_ErrClosed.
Definition PingFunction : bytes := lit "RFC_PING".

Record t : Type := mk {
  mu : bool;
  sess : S;
  closed : bool;
}.

Definition set_mu (v : bool) (m : t) : t := mk v (sess m) (closed m).
Definition set_sess (v : S) (m : t) : t := mk (mu m) v (closed m).
Definition set_closed (v : bool) (m : t) : t := mk (mu m) (sess m) v.

Definition Wrap (s : S) : t := mk false s false.

(** ** The methods, between lock and unlock *)
Definition on_sess {A} (call : M S A) : M t A := fun m =>
  let '(r, s) := call (sess m) in (r, set_sess s m).

Definition guarded {A} (call : M S A) : M t A := fun m =>
  if closed m then (Err errClosed, m) else on_sess call m.

Definition Call (functionName : bytes) (imports : list NamedValue) (requestedOutputs : list bytes) : M t CallResult :=
  guarded (sess_Call functionName imports requestedOutputs).
Definition CallRaw (request : bytes) : M t CallResult := guarded (sess_CallRaw request).
Definition CallWithCallbacks (request : bytes) (onCallback : option (bytes -> res bytes)) : M t CallResult :=
  guarded (sess_CallWithCallbacks request onCallback).
Definition Ping : M t unit := guarded (sess_Call PingFunction [] [];; mret tt).

Definition Authenticated (m : t) : bool := if closed m then false else sess_Authenticated (sess m).

Definition Close : M t unit := fun m =>
  if closed m then (Ok tt, m) else on_sess sess_Close (set_closed true m).

(** ** One request and its reply *)
Inductive request : Type :=
| RCall (functionName : bytes) (imports : list NamedValue) (requestedOutputs : list bytes)
| RCallRaw (req : bytes)
| RCallWithCallbacks (req : bytes) (onCallback : option (bytes -> res bytes))
| RPing
| RAuthenticated
| RClose.

Inductive reply : Type :=
| Result (r : res CallResult)
| Status (r : res unit)
| Answer (b : bool).

Definition is_close (r : request) : bool := match r with RClose => true | _ => false end.

Definition perform (r : request) (m : t) : reply * t :=
  match r with
  | RCall f i o => let '(a, m) := Call f i o m in (Result a, m)
  | RCallRaw q => let '(a, m) := CallRaw q m in (Result a, m)
  | RCallWithCallbacks q h => let '(a, m) := CallWithCallbacks q h m in (Result a, m)
  | RPing => let '(a, m) := Ping m in (Status a, m)
  | RAuthenticated => (Answer (Authenticated m), m)
  | RClose => let '(a, m) := Close m in (Status a, m)
  end.

Fixpoint perform_all (rs : list request) (m : t) : list reply * t :=
  match rs with
  | [] => ([], m)
  | r :: rs => let '(a, m) := perform r m in let '(l, m) := perform_all rs m in (a :: l, m)
  end.

(** ** The same methods, step by step *)

(** What a method returns when the session is closed, and what it does with the session
    when it is not. *)
Definition refused (r : request) : reply :=
  match r with
  | RCall _ _ _ | RCallRaw _ | RCallWithCallbacks _ _ => Result (Err errClosed)
  | RPing => Status (Err errClosed)
  | RAuthenticated => Answer false
  | RClose => Status (Ok tt)
  end.

Definition session_call (r : request) (s : S) : reply * S :=
  match r with
  | RCall f i o => let '(a, s) := sess_Call f i o s in (Result a, s)
  | RCallRaw q => let '(a, s) := sess_CallRaw q s in (Result a, s)
  | RCallWithCallbacks q h => let '(a, s) := sess_CallWithCallbacks q h s in (Result a, s)
  | RPing => let '(a, s) := (sess_Call PingFunction [] [];; mret tt) s in (Status a, s)
  | RAuthenticated => (Answer (sess_Authenticated s), s)
  | RClose => let '(a, s) := sess_Close s in (Status a, s)
  end.

(** A goroutine with the operations [rs] it has still to run: before the lock, holding it,
    inside the session, on its way out, for ever inside the session, and inside a handler
    that wants the lock for an operation of its own.  [out] are the calls whose handlers are
    running, the innermost first. *)
Inductive pc : Type :=
| Next (rs : list request)
| Locked (r : request) (out rs : list request)
| Calling (r : request) (out rs : list request)
| Returning (r : request) (a : reply) (out rs : list request)
| Hung (r : request) (out rs : list request)
| Waiting (r : request) (out rs : list request).

(** Where a goroutine is after an operation: back in the call whose handler made it. *)
Definition resume (out rs : list request) : pc :=
  match out with [] => Next rs | r :: out => Calling r out rs end.

(** [history]: the operations that have returned, with goroutine and reply, in order;
    [calls]: the calls on the session that have begun. *)
Record system : Type := mkSystem {
  man : t;
  procs : list pc;
  history : list (nat * request * reply);
  calls : list request;
}.

Definition goto (i : nat) (p : pc) (st : system) : list pc := <[i := p]> (procs st).

Inductive step : system -> system -> Prop :=
| step_lock st i r rs :
    procs st !! i = Some (Next (r :: rs)) -> mu (man st) = false ->
    step st (mkSystem (set_mu true (man st)) (goto i (Locked r [] rs) st) (history st) (calls st))
| step_refuse st i r out rs :
    procs st !! i = Some (Locked r out rs) -> closed (man st) = true ->
    step st (mkSystem (man st) (goto i (Returning r (refused r) out rs) st) (history st) (calls st))
| step_enter st i r out rs :
    procs st !! i = Some (Locked r out rs) -> closed (man st) = false ->
    step st (mkSystem (if is_close r then set_closed true (man st) else man st)
               (goto i (Calling r out rs) st) (history st) (calls st ++ [r]))
| step_return st i r out rs a s :
    procs st !! i = Some (Calling r out rs) -> session_call r (sess (man st)) = (a, s) ->
    step st (mkSystem (set_sess s (man st)) (goto i (Returning r a out rs) st) (history st) (calls st))
| step_unlock st i r a out rs :
    procs st !! i = Some (Returning r a out rs) ->
    step st (mkSystem (set_mu false (man st)) (goto i (resume out rs) st) (history st ++ [(i, r, a)]) (calls st))
| step_hang st i r out rs :
    procs st !! i = Some (Calling r out rs) ->
    step st (mkSystem (man st) (goto i (Hung r out rs) st) (history st) (calls st))
| step_reenter st i q h r out rs :
    procs st !! i = Some (Calling (RCallWithCallbacks q (Some h)) out rs) ->
    step st (mkSystem (man st) (goto i (Waiting r (RCallWithCallbacks q (Some h) :: out) rs) st) (history st) (calls st))
| step_relock st i r out rs :
    procs st !! i = Some (Waiting r out rs) -> mu (man st) = false ->
    step st (mkSystem (set_mu true (man st)) (goto i (Locked r out rs) st) (history st) (calls st)).

(** A wrapped session and the goroutines that use it. *)
Definition start (s : S) (programs : list (list request)) : system :=
  mkSystem (Wrap s) (map Next programs) [] [].
End Managed.
Arguments t : clear implicits.
Arguments system : clear implicits.
End Managed.

(** ** The pool of sessions *)
Record Factory (T : Type) : Type := mkFactory {
  New : res T;
  Validate : option (M T unit);
  CloseResource : option (M T unit);
}.
Arguments mkFactory {T}.
Arguments New {T}.
Arguments Validate {T}.
Arguments CloseResource {T}.

Record PoolOptions (S : Type) : Type := mkPoolOptions {
  po_Open : option (res (Managed.t S));
  po_MaxSize : Z;
  po_MaxIdleTime : Z;
  po_SkipHealthCheck : bool;
}.
Arguments po_Open {S}.
Arguments po_MaxSize {S}.
Arguments po_MaxIdleTime {S}.
Arguments po_SkipHealthCheck {S}.

(** [NewPool]: the factory and the pool over it.  [pool.New] itself cannot fail here, since
    the factory has a [New]. *)
Definition NewPool {S} `{Session S} (opts : PoolOptions S) : res (Factory (Managed.t S) * Pool.t (Managed.t S)) :=
  match po_Open opts with
  | None => Err (ELifecycle LC_ErrNilOpen)
  | Some open =>
      let factory := mkFactory open
        (if negb (po_SkipHealthCheck opts) then Some Managed.Ping else None) (Some Managed.Close) in
      Ok (factory, Pool.New (po_MaxSize opts) (po_MaxIdleTime opts))
  end.

(** ** Interleavings *)
Section Interleaving.
Import Managed.
Context {S : Type} {SS : Session S}.
Implicit Types (m : t S) (st : system S).

(** A method is the test and the call on the session. *)
Lemma perform_refused r m : closed m = true -> perform r m = (refused r, m).
Proof.
  intros H. destruct r; cbn [perform refused]; unfold Call, CallRaw, CallWithCallbacks, Ping, Authenticated, Close, guarded; by rewrite H.
Qed.

Lemma perform_entered r m :
  closed m = false ->
  perform r m = (fst (session_call r (sess m)), set_sess (snd (session_call r (sess m))) (if is_close r then set_closed true m else m)).
Proof.
  intros H. destruct m as [b s c]. cbn in H. subst c.
  destruct r as [f i o|q|q h| | |]; cbn [perform session_call is_close sess];
    unfold Call, CallRaw, CallWithCallbacks, Ping, Authenticated, Close, guarded, on_sess; cbn [closed sess set_closed].
  - by destruct (sess_Call f i o s).
  - by destruct (sess_CallRaw q s).
  - by destruct (sess_CallWithCallbacks q h s).
  - by destruct ((sess_Call PingFunction [] [];; mret tt) s).
  - done.
  - by destruct (sess_Close s).
Qed.

Lemma perform_all_app rs r m :
  perform_all (rs ++ [r]) m
  = (fst (perform_all rs m) ++ [fst (perform r (snd (perform_all rs m)))], snd (perform r (snd (perform_all rs m)))).
Proof.
  revert m. induction rs as [|x rs IH]; intros m; cbn [app perform_all fst snd]; [by destruct (perform r m)|].
  destruct (perform x m) as [a m1]. rewrite IH. by destruct (perform_all rs m1).
Qed.

Definition requests (h : list (nat * request * reply)) : list request := map (fun e => snd (fst e)) h.
Definition answers (h : list (nat * request * reply)) : list reply := map snd h.

Definition active (p : pc) : bool := match p with Next _ => false | _ => true end.

(** The steps, the moving goroutine [i] at the place [Hi]. *)
Ltac step_cases H :=
  destruct H as [st i r rs Hi Hl|st i r out rs Hi Hc|st i r out rs Hi Hc|st i r out rs a s Hi Hcall|st i r a out rs Hi|st i r out rs Hi
                |st i q h r out rs Hi|st i r out rs Hi Hl].

(** Where the goroutine that holds the lock stands, after the operations in [history] have
    led to the state [m] (its [mu] apart). *)
Definition stands (p : pc) m st : Prop :=
  match p with
  | Next _ => False
  | Locked _ out _ => out = [] /\ man st = set_mu true m
  | Calling r out _ | Hung r out _ => out = [] /\ closed m = false /\ man st = set_mu true (if is_close r then set_closed true m else m)
  | Returning r a out _ => out = [] /\ perform r m = (a, set_mu (mu m) (man st)) /\ mu (man st) = true
  | Waiting _ out _ => exists q h, out = [RCallWithCallbacks q (Some h)] /\ closed m = false /\ man st = set_mu true m
  end.

Record serial (s0 : S) st (m : t S) : Prop := {
  se_history : perform_all (requests (history st)) (Wrap s0) = (answers (history st), m);
  se_unlocked : mu m = false;
  se_free : mu (man st) = false -> man st = m /\ Forall (fun p => active p = false) (procs st);
  se_held : mu (man st) = true -> exists i p, procs st !! i = Some p /\ stands p m st /\
    forall j q, procs st !! j = Some q -> active q = true -> j = i;
}.

Lemma perform_mu r m : mu (snd (perform r m)) = mu m.
Proof.
  destruct (closed m) eqn:E; [by rewrite perform_refused|]. rewrite perform_entered by done. cbn. by destruct (is_close r).
Qed.

(** Moving one goroutine leaves the others alone. *)
Lemma only_active (ps : list (@pc)) i p q :
  ps !! i = Some p -> (forall j x, ps !! j = Some x -> active x = true -> j = i) ->
  forall j x, <[i := q]> ps !! j = Some x -> active x = true -> j = i.
Proof.
  intros Hi Ho j x Hj Hx. destruct (decide (i = j)) as [->|Hne]; [done|]. rewrite list_lookup_insert_ne in Hj by done. by apply (Ho j x).
Qed.

Lemma none_active ps i rs :
  (forall j x, ps !! j = Some x -> active x = true -> j = i) -> Forall (fun p => active p = false) (<[i := Next rs]> ps).
Proof.
  intros Ho. apply Forall_lookup. intros j x Hj. destruct (active x) eqn:E; [|done].
  destruct (decide (i = j)) as [->|Hne]; [|rewrite list_lookup_insert_ne in Hj by done; by rewrite (Ho j x Hj E) in Hne].
  apply list_lookup_insert_Some in Hj as [(_ & <- & _)|(? & _)]; [done|done].
Qed.

Lemma holder s0 st m i p :
  serial s0 st m -> procs st !! i = Some p -> active p = true ->
  mu (man st) = true /\ stands p m st /\ forall j q, procs st !! j = Some q -> active q = true -> j = i.
Proof.
  intros Hs Hi Ha. destruct (mu (man st)) eqn:Em.
  - destruct (se_held _ _ _ Hs Em) as (k & q & Hk & Hst & Ho). pose proof (Ho i p Hi Ha) as ->. rewrite Hi in Hk. by injection Hk as <-.
  - exfalso. destruct (se_free _ _ _ Hs Em) as [_ Hf]. rewrite Forall_lookup in Hf. specialize (Hf i p Hi). congruence.
Qed.

(** The goroutine [i] moves on while it keeps the lock. *)
Lemma serial_move s0 st m i p q man' calls' :
  serial s0 st m -> procs st !! i = Some p ->
  (forall j x, procs st !! j = Some x -> active x = true -> j = i) -> mu man' = true ->
  stands q m (mkSystem man' (goto i q st) (history st) calls') ->
  serial s0 (mkSystem man' (goto i q st) (history st) calls') m.
Proof.
  intros Hs Hi Ho Hm Hst. split; cbn [history man procs]; [exact (se_history _ _ _ Hs)|exact (se_unlocked _ _ _ Hs)|congruence|].
  intros _. exists i, q. split; [apply list_lookup_insert_eq; by eapply lookup_lt_Some|]. split; [done|]. by eapply only_active.
Qed.

Lemma serial_step s0 st st' m : serial s0 st m -> step st st' -> exists m', serial s0 st' m'.
Proof.
  intros Hs Hstep. pose proof (se_unlocked _ _ _ Hs) as Hmu.
  step_cases Hstep;
    [|destruct (holder _ _ _ _ _ Hs Hi eq_refl) as (Hm & Hst & Ho); cbn [stands] in Hst..].
  - exists m. destruct (se_free _ _ _ Hs Hl) as [Hm Hf]. eapply serial_move; try done; [|by cbn; rewrite Hm].
    intros j x Hj Hx. rewrite Forall_lookup in Hf. by rewrite (Hf j x Hj) in Hx.
  - exists m. destruct Hst as [-> Hst]. eapply serial_move; try done. cbn [stands man].
    rewrite Hst in *. cbn in Hc. rewrite perform_refused by done. by destruct m.
  - exists m. destruct Hst as [-> Hst].
    eapply serial_move; try done; cbn [stands man]; rewrite Hst in *; [by destruct (is_close r)|]. split; [done|]. split; [done|]. by destruct (is_close r).
  - exists m. destruct Hst as (-> & Hc & Hst). eapply serial_move; try done. cbn [stands man]. split; [done|]. split; [|done].
    rewrite perform_entered by done. rewrite Hst in Hcall |- *.
    assert (sess (set_mu true (if is_close r then set_closed true m else m)) = sess m) as E by by destruct (is_close r).
    rewrite E in Hcall. rewrite Hcall. destruct m as [b sm c]. cbn in *. subst b c. by destruct (is_close r).
  - destruct Hst as (-> & Hp & _). exists (set_mu (mu m) (man st)).
    rewrite Hmu in *. split; cbn [history man procs mu set_mu]; try done.
    + unfold requests, answers. rewrite !map_app. cbn [map fst snd].
      fold (requests (history st)) (answers (history st)). rewrite perform_all_app, (se_history _ _ _ Hs). cbn [fst snd]. by rewrite Hp.
    + intros _. split; [done|]. by apply none_active.
  - exists m. by eapply serial_move.
  - exists m. destruct Hst as (-> & Hst). eapply serial_move; try done. by exists q, h.
  - congruence.
Qed.

Lemma start_serial s0 programs : serial s0 (start s0 programs) (Wrap s0).
Proof.
  split; try done. intros _. split; [done|]. cbn. apply Forall_map. by apply Forall_true.
Qed.

Lemma reachable_serial s0 programs st : rtc step (start s0 programs) st -> exists m, serial s0 st m.
Proof.
  intros H. apply (rtc_ind_r (R := step) (fun st => exists m, serial s0 st m) (start s0 programs)); [by exists (Wrap s0); apply start_serial| |exact H].
  intros st1 st2 _ Hstep [m Hm]. by eapply serial_step.
Qed.

(** C5: In every interleaving of goroutines that share a managed session, at most one of
    them is between lock and unlock, and the operations that have returned are one
    sequential run of the methods: performed in the order of their returns they give exactly
    the replies the goroutines got, and, when the lock is free, the present session. *)
Theorem managed_serializes s0 programs st :
  rtc step (start s0 programs) st ->
  (forall i j p q, procs st !! i = Some p -> procs st !! j = Some q -> active p = true -> active q = true -> i = j) /\
  exists m, perform_all (requests (history st)) (Wrap s0) = (answers (history st), m) /\
    (mu (man st) = false -> man st = m).
Proof.
  intros [m Hs]%reachable_serial. split.
  - intros i j p q Hi Hj Hp Hq. destruct (holder _ _ _ _ _ Hs Hi Hp) as (_ & _ & Ho). symmetry. by apply (Ho j q).
  - exists m. split; [exact (se_history _ _ _ Hs)|]. intros Hm. by apply (se_free _ _ _ Hs Hm).
Qed.

(** ** The session after Close *)
(** C27: The calls made on the session end with its Close, if there is one: the session is
    closed at most once, nothing is called on it afterwards, and the managed session counts
    as closed exactly when that call has been made. *)
Theorem nothing_after_close s0 programs st :
  rtc step (start s0 programs) st ->
  exists before, Forall (fun r => is_close r = false) before /\
    calls st = before ++ (if closed (man st) then [RClose] else []).
Proof.
  intros H. apply (rtc_ind_r (R := step) (fun st => exists before, Forall (fun r => is_close r = false) before /\
    calls st = before ++ (if closed (man st) then [RClose] else [])) (start s0 programs)); [by exists []| |exact H].
  clear st H. intros st st' _ Hstep (before & Hb & Hcs).
  step_cases Hstep;
    cbn [man calls set_mu set_sess closed]; try (by exists before).
  rewrite Hc, app_nil_r in Hcs. rewrite Hcs. destruct (is_close r) eqn:Er.
  - exists before. split; [done|]. by destruct r.
  - exists (before ++ [r]). rewrite Hc, app_nil_r. split; [|done]. apply Forall_app. by repeat constructor.
Qed.

(** ** Every operation returns, or one is held up *)
(** The steps a goroutine has still to take. *)
Definition work (p : pc) : nat :=
  match p with
  | Next rs => 4 * length rs
  | Locked _ _ rs => 4 * length rs + 3
  | Calling _ _ rs => 4 * length rs + 2
  | Returning _ _ _ rs => 4 * length rs + 1
  | Hung _ _ rs | Waiting _ _ rs => 4 * length rs
  end.
Definition remaining st : nat := sum_list_with work (procs st).

Lemma sum_insert {A} (f : A -> nat) l i x y :
  l !! i = Some x -> (sum_list_with f (<[i := y]> l) + f x = sum_list_with f l + f y)%nat.
Proof.
  intros H. rewrite (insert_take_drop l i y) by by eapply lookup_lt_Some. rewrite <- (take_drop_middle l i x H) at 3.
  rewrite !sum_list_with_app. cbn. lia.
Qed.

(** A goroutine inside a handler never gets the lock, which its own call holds, and so no
    operation of a handler comes to its end. *)
Lemma waits_for_itself s0 st m i r out rs :
  serial s0 st m -> procs st !! i = Some (Waiting r out rs) -> mu (man st) = true.
Proof. intros Hs Hi. by destruct (holder _ _ _ _ _ Hs Hi eq_refl) as [? _]. Qed.

Lemma no_handler_returns s0 st m i r a out rs :
  serial s0 st m -> procs st !! i = Some (Returning r a out rs) -> out = [].
Proof. intros Hs Hi. by destruct (holder _ _ _ _ _ Hs Hi eq_refl) as (_ & [? _] & _). Qed.

Lemma step_works s0 st st' m : serial s0 st m -> step st st' -> (remaining st' < remaining st)%nat.
Proof.
  intros Hs H. unfold remaining.
  step_cases H;
    [..|by rewrite (waits_for_itself _ _ _ _ _ _ _ Hs Hi) in Hl]; try rewrite (no_handler_returns _ _ _ _ _ _ _ _ Hs Hi); cbn [procs]; unfold goto;
    match goal with |- context [<[?k := ?q]> ?l] => pose proof (sum_insert work l k _ q Hi) as E end; cbn [work resume length] in *; lia.
Qed.

Lemma steps_bounded s0 n st st' m : serial s0 st m -> nsteps step n st st' -> (n <= remaining st)%nat.
Proof.
  intros Hs H. revert m Hs. induction H as [st|n st1 st2 st3 Hstep _ IH]; intros m Hs; [lia|].
  pose proof (step_works _ _ _ _ Hs Hstep). destruct (serial_step _ _ _ _ Hs Hstep) as [m' Hs']. specialize (IH m' Hs'). lia.
Qed.

(** The operations goroutine [i] has finished, and those before it. *)
Definition returned (i : nat) (h : list (nat * request * reply)) : list request :=
  requests (filter (fun e => fst (fst e) = i) h).
Definition pending (p : pc) : list request :=
  match p with
  | Next rs => rs
  | Locked r _ rs | Calling r _ rs | Returning r _ _ rs | Hung r _ rs => r :: rs
  | Waiting _ out rs => out ++ rs
  end.

Definition in_order (programs : list (list request)) st : Prop :=
  length (procs st) = length programs /\
  forall i p, procs st !! i = Some p -> programs !! i = Some (returned i (history st) ++ pending p).

Lemma order_move programs st i p q man' calls' :
  in_order programs st -> procs st !! i = Some p -> pending q = pending p ->
  in_order programs (mkSystem man' (goto i q st) (history st) calls').
Proof.
  intros [Hl Ho] Hi Hq. split; cbn [procs history]; unfold goto; [by rewrite length_insert|]. intros j x Hj.
  apply list_lookup_insert_Some in Hj as [(<- & <- & _)|(_ & Hj)]; [rewrite Hq|]; by apply Ho.
Qed.

Lemma order_step s0 programs st st' m : serial s0 st m -> in_order programs st -> step st st' -> in_order programs st'.
Proof.
  intros Hs Ho Hstep.
  step_cases Hstep;
    try (by eapply order_move).
  - pose proof (no_handler_returns _ _ _ _ _ _ _ _ Hs Hi) as ->. destruct Ho as [Hl Ho]. split; cbn [procs history]; unfold goto; [by rewrite length_insert|].
    intros j x Hj. unfold returned, requests. rewrite filter_app, map_app. apply list_lookup_insert_Some in Hj as [(<- & <- & _)|(Hne & Hj)].
    + rewrite filter_cons_True by done. cbn [map filter fst snd pending resume]. rewrite <- app_assoc. exact (Ho i _ Hi).
    + rewrite filter_cons_False by done. cbn [map filter]. rewrite app_nil_r. exact (Ho j x Hj).
  - eapply order_move; [done..|]. destruct (holder _ _ _ _ _ Hs Hi eq_refl) as (_ & [-> _] & _). done.
  - by rewrite (waits_for_itself _ _ _ _ _ _ _ Hs Hi) in Hl.
Qed.

Lemma reachable_order s0 programs st : rtc step (start s0 programs) st -> in_order programs st.
Proof.
  intros H. apply (rtc_ind_r (R := step) (in_order programs) (start s0 programs)); [| |exact H].
  - split; [apply length_map|]. intros i p Hp. cbn in Hp. rewrite list_lookup_fmap in Hp.
    apply fmap_Some in Hp as (rs & Hrs & ->). exact Hrs.
  - intros st1 st2 [m Hs]%reachable_serial Hstep Ho. by eapply order_step.
Qed.

(** A goroutine that a call of the session, or its own handler, holds up. *)
Definition held_up (p : pc) : bool := match p with Hung _ _ _ | Waiting _ _ _ => true | _ => false end.

Lemma active_moves st i p : procs st !! i = Some p -> active p = true -> held_up p = false -> exists st', step st st'.
Proof.
  intros Hi Ha Hh. destruct p as [rs|r out rs|r out rs|r a out rs|r out rs|r out rs]; try done.
  - destruct (closed (man st)) eqn:E; eexists; [by eapply step_refuse|by eapply step_enter].
  - eexists. by eapply step_hang.
  - eexists. by eapply step_unlock.
Qed.

Lemma stuck_inv s0 st m :
  serial s0 st m -> (forall st', ~ step st st') ->
  (exists i p, procs st !! i = Some p /\ held_up p = true) \/ forall i p, procs st !! i = Some p -> p = Next [].
Proof.
  intros Hs Hn. destruct (mu (man st)) eqn:Em.
  - left. destruct (se_held _ _ _ Hs Em) as (i & p & Hi & Hst & _). exists i, p. split; [done|]. destruct (held_up p) eqn:Eh; [done|].
    destruct (active_moves st i p Hi) as [st' H]; [by destruct p|done|]. by destruct (Hn st').
  - right. intros i p Hi. destruct (se_free _ _ _ Hs Em) as [_ Hf]. rewrite Forall_lookup in Hf. specialize (Hf i p Hi).
    destruct p as [[|r rs]| | | | |]; try done. destruct (Hn _ (step_lock _ _ _ _ Hi Em)).
Qed.

Lemma held_up_stuck s0 st m j p :
  serial s0 st m -> procs st !! j = Some p -> held_up p = true -> forall st', ~ step st st'.
Proof.
  intros Hs Hj Hh st' Hstep. destruct (holder _ _ _ _ _ Hs Hj) as (Hm & _ & Ho); [by destruct p|].
  step_cases Hstep; try congruence; pose proof (Ho _ _ Hi eq_refl) as ->; rewrite Hj in Hi; by injection Hi as ->.
Qed.

Lemma finished_stuck st : (forall i p, procs st !! i = Some p -> p = Next []) -> forall st', ~ step st st'.
Proof. intros Hf st' Hstep. by step_cases Hstep; specialize (Hf _ _ Hi). Qed.

Lemma all_returned s0 programs st m :
  serial s0 st m -> in_order programs st ->
  (forall i p, procs st !! i = Some p -> p = Next []) <-> forall i rs, programs !! i = Some rs -> returned i (history st) = rs.
Proof.
  intros Hs [Hl Ho]. split.
  - intros Hf i rs Hi. destruct (lookup_lt_is_Some_2 (procs st) i) as [p Hp]; [rewrite Hl; by eapply lookup_lt_Some|].
    pose proof (Hf _ _ Hp) as ->. specialize (Ho i _ Hp). cbn [pending] in Ho. rewrite Hi, app_nil_r in Ho. by injection Ho as ->.
  - intros Hr i p Hp. pose proof (Hr _ _ (Ho i p Hp)) as E. assert (pending p = []) as Ep.
    { apply (app_inv_head (returned i (history st))). by rewrite app_nil_r. }
    destruct p as [rs|r out rs|r out rs|r a out rs|r out rs|r out rs]; try done; [by rewrite <- Ep|].
    destruct (holder _ _ _ _ _ Hs Hp eq_refl) as (_ & (q & h & -> & _) & _). done.
Qed.

(** C15: Whatever the scheduler does, from every reachable state only finitely many steps
    remain, at most four for each operation not yet begun. No step remains exactly when
    every goroutine has got a reply to every one of its operations, in its own order, or one
    goroutine is held up: inside a call of the session that does not return, or inside a
    callback handler that calls the session it serves. Such a handler does not get the lock,
    which its own call holds; then no other goroutine is past the lock, each has the replies
    to its operations up to there, and none gets another one. *)
Theorem every_operation_returns s0 programs st :
  rtc step (start s0 programs) st ->
  (forall n st', nsteps step n st st' -> (n <= remaining st)%nat) /\
  ((forall st', ~ step st st') <->
   (forall i rs, programs !! i = Some rs -> returned i (history st) = rs) \/ exists i p, procs st !! i = Some p /\ held_up p = true) /\
  (forall i p, procs st !! i = Some p -> held_up p = true ->
   mu (man st) = true /\
   forall j p', procs st !! j = Some p' -> j <> i -> exists rs, p' = Next rs /\ programs !! j = Some (returned j (history st) ++ rs)).
Proof.
  intros H. destruct (reachable_serial _ _ _ H) as [m Hs]. pose proof (reachable_order _ _ _ H) as Ho.
  split; [intros n st'; by eapply steps_bounded|]. split; [split|].
  - intros [Hh|Hf]%(stuck_inv _ _ _ Hs); [by right|]. left. by apply (all_returned _ _ _ _ Hs Ho).
  - intros [Hf|(i & p & Hi & Hh)]; [apply finished_stuck; by apply (all_returned _ _ _ _ Hs Ho)|by eapply held_up_stuck].
  - intros i p Hi Hh. destruct (holder _ _ _ _ _ Hs Hi) as (Hm & _ & Ha); [by destruct p|]. split; [done|]. intros j p' Hj Hne.
    destruct (active p') eqn:Ea; [by pose proof (Ha _ _ Hj Ea)|]. destruct p' as [rs| | | | |]; try done. exists rs. split; [done|].
    exact (proj2 Ho j _ Hj).
Qed.
End Interleaving.

(** ** Instances *)
Section Instances.
Import Managed.

(** Two goroutines: one asks whether the session is authenticated, one closes it. *)
Definition shared_session : ClientSession.Session Script := caller_session [].
#[local] Instance shared : Session (ClientSession.Session Script) := client_session 3.
Definition two_programs : list (list request) := [[RAuthenticated]; [RClose]].

(** The second one is first to get the lock. *)
Lemma close_first :
  exists st, rtc step (start shared_session two_programs) st /\
    history st = [(1%nat, RClose, Status (Ok tt)); (0%nat, RAuthenticated, Answer false)] /\
    calls st = [RClose] /\ closed (man st) = true /\ procs st = [Next []; Next []].
Proof.
  eexists. split.
  - eapply rtc_l; [apply (step_lock _ 1 RClose []); reflexivity|]. eapply rtc_l; [apply (step_enter _ 1 RClose [] []); reflexivity|].
    eapply rtc_l; [eapply (step_return _ 1 RClose [] []); reflexivity|]. eapply rtc_l; [eapply (step_unlock _ 1); reflexivity|].
    eapply rtc_l; [apply (step_lock _ 0 RAuthenticated []); reflexivity|].
    eapply rtc_l; [apply (step_refuse _ 0 RAuthenticated [] []); reflexivity|].
    eapply rtc_l; [eapply (step_unlock _ 0); reflexivity|]. apply rtc_refl.
  - split_and!; reflexivity.
Defined.

Lemma managed_serializes_witness :
  exists m, perform_all [RClose; RAuthenticated] (Wrap shared_session) = ([Status (Ok tt); Answer false], m).
Proof.
  destruct close_first as (st & Hr & Hh & _). destruct (managed_serializes _ _ _ Hr) as [_ (m & Hm & _)].
  rewrite Hh in Hm. exists m. exact Hm.
Defined.

Lemma nothing_after_close_witness :
  exists st before, rtc step (start shared_session two_programs) st /\ closed (man st) = true /\ calls st = before ++ [RClose].
Proof.
  destruct close_first as (st & Hr & _ & _ & Hc & _). destruct (nothing_after_close _ _ _ Hr) as (before & _ & Hb).
  exists st, before. split; [exact Hr|]. split; [exact Hc|]. rewrite Hc in Hb. exact Hb.
Defined.

(** A handler that asks whether its own session is authenticated, while another goroutine
    wants to close it. *)
Definition asking : request := RCallWithCallbacks (lit "request") (Some Ok).
Definition asking_programs : list (list request) := [[asking]; [RClose]].

Lemma handler_asks :
  exists st, rtc step (start shared_session asking_programs) st /\
    procs st = [Waiting RAuthenticated [asking] []; Next [RClose]].
Proof.
  eexists. split.
  - eapply rtc_l; [apply (step_lock _ 0 asking []); reflexivity|]. eapply rtc_l; [apply (step_enter _ 0 asking [] []); reflexivity|].
    eapply rtc_l; [apply (step_reenter _ 0 (lit "request") Ok RAuthenticated [] []); reflexivity|]. apply rtc_refl.
  - reflexivity.
Defined.

Lemma every_operation_returns_witness :
  (exists st, rtc step (start shared_session two_programs) st /\ returned 0 (history st) = [RAuthenticated] /\
    returned 1 (history st) = [RClose] /\ forall st', ~ step st st') /\
  (exists st, rtc step (start shared_session asking_programs) st /\ mu (man st) = true /\ forall st', ~ step st st').
Proof.
  split.
  - destruct close_first as (st & Hr & Hh & _). exists st. split; [exact Hr|]. rewrite Hh. split; [reflexivity|]. split; [reflexivity|].
    destruct (every_operation_returns _ _ _ Hr) as (_ & H & _). apply H. left. rewrite Hh. intros [|[|i]] rs E; try discriminate; by injection E as <-.
  - destruct handler_asks as (st & Hr & Hp). exists st. split; [exact Hr|]. destruct (every_operation_returns _ _ _ Hr) as (_ & H & Hs). split.
    + apply (Hs 0%nat (Waiting RAuthenticated [asking] [])); [by rewrite Hp|reflexivity].
    + apply H. right. exists 0%nat, (Waiting RAuthenticated [asking] []). split; [by rewrite Hp|reflexivity].
Defined.
End Instances.
