(* ===== verification/Lz4.v ===== *)
(** Package [fastser], internal/fastser/lz4.go: the LZ4 block decoder and the search for
    compressed blocks in a frame.

    The decoder walks its input with an index; the model walks with the rest of the
    input, [src[i:]], and recovers the index from its length.

    The theorems: the decoder never panics, always terminates, returns exactly the size
    asked for and has then consumed its whole input; every block written to the published
    format, overlapping matches included, decodes to its expansion; the blocks
    [FindCompressed] reports lie in the frame, in order and apart from one another. *)
From stdpp Require Import base list numbers strings.
From Stdlib Require Import ZArith Lia Strings.Byte.
From S2P Require Import Prelude Errors.

Open Scope Z_scope.

Definition maxDecompressed : Z := Z.shiftl 1 24.

Definition corrupt {A} : res A := Err (EFastser ErrCorruptBlock).

(** The 255-chain that extends a run length; [want] cuts a hostile chain short. *)
Fixpoint read_chain (rest : bytes) (n want : Z) : res (Z * bytes) :=
  match rest with
  | [] => corrupt
  | b :: rest =>
      let n := n + b2z b in
      if negb (b2z b =? 255) then Ok (n, rest)
      else if want <? n then corrupt
      else read_chain rest n want
  end.

(** The byte-at-a-time copy of a match: [dst = append(dst, dst[start+n])]. *)
Fixpoint copy_match (dst : bytes) (start : Z) (matchLen : nat) : res bytes :=
  match matchLen with
  | O => Ok dst
  | S m =>
      b ← go_index dst start;
      copy_match (dst ++ [b]) (start + 1) m
  end.

(** The loop of [DecompressBlock] at [src[i:] = rest]; every round takes at least the
    token from the input. *)
Fixpoint block_loop (fuel : nat) (rest dst : bytes) (want : Z) : res (bytes * bytes) :=
  match fuel with
  | O => Err EFuel
  | S fuel =>
      match rest with
      | [] => Ok (dst, [])
      | token :: rest =>
          let litLen := Z.shiftr (b2z token) 4 in
          '(litLen, rest) ← (if litLen =? 15 then read_chain rest litLen want else Ok (litLen, rest));
          if (zlen rest <? litLen) || (want <? zlen dst + litLen) then corrupt
          else
            let dst := dst ++ take (Z.to_nat litLen) rest in
            match drop (Z.to_nat litLen) rest with
            | [] => Ok (dst, [])
            | [_] => corrupt
            | o0 :: o1 :: rest =>
                let offset := Z.lor (b2z o0) (Z.shiftl (b2z o1) 8) in
                if (offset =? 0) || (zlen dst <? offset) then corrupt
                else
                  let matchLen := Z.land (b2z token) 0x0f in
                  '(matchLen, rest) ← (if matchLen =? 15 then read_chain rest matchLen want
                                       else Ok (matchLen, rest));
                  let matchLen := matchLen + 4 in
                  if want <? zlen dst + matchLen then corrupt
                  else
                    dst ← copy_match dst (zlen dst - offset) (Z.to_nat matchLen);
                    block_loop fuel rest dst want
            end
      end
  end.

Definition DecompressBlock (src : bytes) (want : Z) : res (bytes * Z) :=
  if (want <? 0) || (maxDecompressed <? want) then corrupt
  else
    '(dst, rest) ← block_loop (S (length src)) src [] want;
    if negb (zlen dst =? want) then corrupt
    else Ok (dst, zlen src - zlen rest).

Definition compressionHeaderLen : Z := 8.

Record Compressed : Type := mkCompressed {
  c_Offset : Z;
  c_CompressedSize : Z;
  c_UncompressedSize : Z;
  c_Data : bytes;
}.

(** Four bytes, least significant first, or-ed together. *)
Definition le32_at (payload : bytes) (off : Z) : res Z :=
  b0 ← go_index payload off;
  b1 ← go_index payload (off + 1);
  b2 ← go_index payload (off + 2);
  b3 ← go_index payload (off + 3);
  Ok (Z.lor (Z.lor (Z.lor (b2z b0) (Z.shiftl (b2z b1) 8)) (Z.shiftl (b2z b2) 16)) (Z.shiftl (b2z b3) 24)).

(** The block and where it ends; [None] is [ok=false]. *)
Definition DecodeCompressedAt (payload : bytes) (off : Z) : res (option (Compressed * Z)) :=
  if (off <? 0) || (zlen payload <? off + compressionHeaderLen) then Ok None
  else
    uncompressed ← le32_at payload off;
    compressed ← le32_at payload (off + 4);
    if (compressed <=? 0) || (uncompressed <=? 0) || (uncompressed <? compressed)
       || (maxDecompressed <? uncompressed)
    then Ok None
    else
      let start := off + compressionHeaderLen in
      if zlen payload <? start + compressed then Ok None
      else
        block ← go_slice payload start (start + compressed);
        match DecompressBlock block uncompressed with
        | Panic => Panic
        | Err _ => Ok None
        | Ok (data, used) =>
            if negb (used =? compressed) then Ok None
            else Ok (Some (mkCompressed off compressed uncompressed data, start + compressed))
        end.

Fixpoint find_loop (fuel : nat) (payload : bytes) (i : Z) : res (list Compressed) :=
  match fuel with
  | O => Err EFuel
  | S fuel =>
      if negb (i + compressionHeaderLen <? zlen payload) then Ok []
      else
        found ← DecodeCompressedAt payload i;
        match found with
        | None => find_loop fuel payload (i + 1)
        | Some (c, next) => cons c <$> find_loop fuel payload next
        end
  end.

Definition FindCompressed (payload : bytes) : res (list Compressed) :=
  find_loop (S (length payload)) payload 0.

(** ** The decoder is total and exact *)
Lemma read_chain_cases rest n want :
  (exists n' rest', read_chain rest n want = Ok (n', rest') /\ n <= n' /\ (length rest' < length rest)%nat) \/
  read_chain rest n want = corrupt.
Proof.
  revert n. induction rest as [|b rest IH]; intros n; cbn [read_chain]; [by right|].
  pose proof (b2z_range b). destruct (Z.eqb_spec (b2z b) 255); cbn [negb].
  - destruct (want <? n + b2z b); [by right|]. destruct (IH (n + b2z b)) as [(n' & r' & E & Hn & Hl)|E];
      [|by right]. left. exists n', r'. split_and!; [done|lia|cbn; lia].
  - left. exists (n + b2z b), rest. split_and!; [done|lia|cbn; lia].
Qed.

(** The bytes a match stands for: the last [offset] bytes of the output, repeated. *)
Definition match_bytes (dst : bytes) (offset n : nat) : bytes :=
  map (fun k => nth (length dst - offset + k mod offset) dst x00) (seq 0 n).

Lemma length_match_bytes dst offset n : length (match_bytes dst offset n) = n.
Proof. unfold match_bytes. by rewrite length_map, length_seq. Qed.

Lemma match_bytes_S dst offset n :
  match_bytes dst offset (S n)
  = match_bytes dst offset n ++ [nth (length dst - offset + n mod offset) dst x00].
Proof. unfold match_bytes. rewrite seq_S, map_app. done. Qed.

(** Where the copy reads: inside the output, or inside what it has just written. *)
Lemma match_source dst offset k :
  (1 <= offset <= length dst)%nat ->
  (dst ++ match_bytes dst offset k) !! (length dst - offset + k)%nat
  = Some (nth (length dst - offset + k mod offset) dst x00).
Proof.
  intros Ho. destruct (decide (k < offset)%nat) as [Hk|Hk].
  - rewrite Nat.mod_small by lia. rewrite lookup_app_l by lia.
    rewrite nth_lookup. destruct (lookup_lt_is_Some_2 dst (length dst - offset + k)) as [b ->]; [lia|]. done.
  - rewrite lookup_app_r by lia. unfold match_bytes.
    replace (length dst - offset + k - length dst)%nat with (k - offset)%nat by lia.
    rewrite list_lookup_fmap, lookup_seq_lt by lia. cbn. do 3 f_equal.
    rewrite <- (Nat.Div0.mod_add (k - offset) 1 offset). f_equal. lia.
Qed.

Lemma copy_match_from dst offset k n :
  (1 <= offset <= length dst)%nat ->
  copy_match (dst ++ match_bytes dst offset k) (zlen dst - Z.of_nat offset + Z.of_nat k) n
  = Ok (dst ++ match_bytes dst offset (k + n)).
Proof.
  intros Ho. revert k. induction n as [|n IH]; intros k; cbn [copy_match]; [by rewrite Nat.add_0_r|].
  unfold go_index. destruct (Z.ltb_spec (zlen dst - Z.of_nat offset + Z.of_nat k) 0); [unfold zlen in *; lia|].
  replace (Z.to_nat (zlen dst - Z.of_nat offset + Z.of_nat k)) with (length dst - offset + k)%nat
    by (unfold zlen; lia).
  rewrite match_source by done. cbn [mbind outcome_bind]. rewrite <- app_assoc, <- match_bytes_S.
  replace (zlen dst - Z.of_nat offset + Z.of_nat k + 1) with (zlen dst - Z.of_nat offset + Z.of_nat (S k)) by lia.
  rewrite IH. do 2 f_equal. f_equal. lia.
Qed.

Lemma copy_match_ok dst offset n :
  1 <= offset <= zlen dst ->
  copy_match dst (zlen dst - offset) n = Ok (dst ++ match_bytes dst (Z.to_nat offset) n).
Proof.
  intros Ho. pose proof (copy_match_from dst (Z.to_nat offset) 0 n) as H. unfold zlen in *.
  change (match_bytes dst (Z.to_nat offset) 0) with (@nil byte) in H. rewrite app_nil_r in H.
  rewrite Z2Nat.id, Z.add_0_r in H by lia. apply H. lia.
Qed.

Lemma offset_value o0 o1 : Z.lor (b2z o0) (Z.shiftl (b2z o1) 8) = b2z o1 * 256 + b2z o0.
Proof. rewrite Z.lor_comm. apply lor_shiftl8. Qed.

(** A run length, extended or not. *)
Lemma run_length_cases n rest want :
  let m := if n =? 15 then read_chain rest n want else Ok (n, rest) in
  m = corrupt \/ exists n' rest', m = Ok (n', rest') /\ n <= n' /\ (length rest' <= length rest)%nat.
Proof.
  cbv zeta. destruct (n =? 15); [|right; exists n, rest; split_and!; (done || lia)].
  destruct (read_chain_cases rest n want) as [(n' & r' & -> & ? & ?)| ->]; [right|by left].
  exists n', r'. split_and!; (done || lia).
Qed.

(** One round either fails or leaves less input, and never more than [want] output. *)
Lemma block_loop_total fuel rest dst want :
  (length rest < fuel)%nat -> zlen dst <= want ->
  block_loop fuel rest dst want = corrupt \/
  exists dst', block_loop fuel rest dst want = Ok (dst', []) /\ zlen dst' <= want.
Proof.
  revert rest dst. induction fuel as [|fuel IH]; intros rest dst Hf Hd; [lia|]. cbn [block_loop].
  destruct rest as [|token rest]; [right; by exists dst|]. cbn [length] in Hf.
  set (lit := Z.shiftr (b2z token) 4).
  destruct (run_length_cases lit rest want) as [-> |(n1 & r1 & -> & Hn1 & Hr1)]; [by left|].
  cbn [mbind outcome_bind].
  assert (0 <= lit) as Hlit by (subst lit; apply Z.shiftr_nonneg; pose proof (b2z_range token); lia).
  destruct (Z.ltb_spec (zlen r1) n1); [by left|]. destruct (Z.ltb_spec want (zlen dst + n1)); [by left|]. cbn [orb].
  assert (zlen (dst ++ take (Z.to_nat n1) r1) = zlen dst + n1) as Hz by len_lia.
  assert (length (drop (Z.to_nat n1) r1) <= length r1)%nat as Hdr by (rewrite length_drop; lia).
  destruct (drop (Z.to_nat n1) r1) as [|o0 [|o1 r2]]; [right; eexists; split; [done|lia]|by left|].
  cbn [length] in Hdr. set (d1 := dst ++ take (Z.to_nat n1) r1) in *.
  rewrite offset_value. pose proof (b2z_range o0). pose proof (b2z_range o1).
  destruct (Z.eqb_spec (b2z o1 * 256 + b2z o0) 0); [by left|].
  destruct (Z.ltb_spec (zlen d1) (b2z o1 * 256 + b2z o0)); [by left|]. cbn [orb].
  set (ml := Z.land (b2z token) 15).
  destruct (run_length_cases ml r2 want) as [-> |(n2 & r3 & -> & Hn2 & Hr3)]; [by left|].
  cbn [mbind outcome_bind]. destruct (Z.ltb_spec want (zlen d1 + (n2 + 4))); [by left|].
  rewrite copy_match_ok by lia. cbn [mbind outcome_bind].
  assert (0 <= ml) by (subst ml; apply Z.land_nonneg; lia).
  apply IH; [lia|]. rewrite zlen_app. unfold zlen at 2. rewrite length_match_bytes. lia.
Qed.

Lemma decompress_cases src want :
  DecompressBlock src want = corrupt \/
  exists out, DecompressBlock src want = Ok (out, zlen src) /\ zlen out = want /\ want <= maxDecompressed.
Proof.
  unfold DecompressBlock. destruct (Z.ltb_spec want 0); [by left|].
  destruct (Z.ltb_spec maxDecompressed want); [by left|]. cbn [orb].
  destruct (block_loop_total (S (length src)) src [] want) as [-> |(dst & -> & Hd)];
    [lia|change (zlen (@nil byte)) with 0; lia|by left|].
  cbn [mbind outcome_bind]. destruct (Z.eqb_spec (zlen dst) want); [|by left]. cbn [negb].
  right. exists dst. split_and!; [|done|done]. change (zlen (@nil byte)) with 0. by rewrite Z.sub_0_r.
Qed.

(** On any input DecompressBlock either reports a corrupt block or returns exactly the
    wanted number of bytes, within the limit, having consumed the whole input; it never
    panics. *)
Theorem decompress_exact src want :
  match DecompressBlock src want with
  | Ok (out, consumed) => zlen out = want /\ consumed = zlen src /\ want <= maxDecompressed
  | Err e => e = EFastser ErrCorruptBlock
  | Panic => False
  end.
Proof. destruct (decompress_cases src want) as [-> |(out & -> & H1 & H2)]; done. Qed.

(** ** The published format *)

(** A sequence: literals, then a match of [sq_length] bytes at distance [sq_offset]. *)
Record sequence : Type := mkSequence { sq_literals : bytes; sq_offset : Z; sq_length : Z }.

(** What a block stands for. *)
Fixpoint expand (dst : bytes) (sqs : list sequence) (final : bytes) : bytes :=
  match sqs with
  | [] => dst ++ final
  | q :: sqs =>
      let d := dst ++ sq_literals q in
      expand (d ++ match_bytes d (Z.to_nat (sq_offset q)) (Z.to_nat (sq_length q))) sqs final
  end.

Fixpoint valid_block (dst : bytes) (sqs : list sequence) : Prop :=
  match sqs with
  | [] => True
  | q :: sqs =>
      let d := dst ++ sq_literals q in
      1 <= sq_offset q <= zlen d /\ sq_offset q < 2 ^ 16 /\ 4 <= sq_length q /\
      valid_block (d ++ match_bytes d (Z.to_nat (sq_offset q)) (Z.to_nat (sq_length q))) sqs
  end.

(** The 255-chain of a run length of at least 15. *)
Definition chain (n : Z) : bytes :=
  if n <? 15 then [] else replicate (Z.to_nat ((n - 15) / 255)) xff ++ [z2b ((n - 15) mod 255)].

Definition token (lit ml : Z) : byte := z2b (Z.min lit 15 * 16 + Z.min ml 15).

Fixpoint encode_block (sqs : list sequence) (final : bytes) : bytes :=
  match sqs with
  | [] => token (zlen final) 0 :: chain (zlen final) ++ final
  | q :: sqs =>
      token (zlen (sq_literals q)) (sq_length q - 4) :: chain (zlen (sq_literals q)) ++ sq_literals q
      ++ [z2b (sq_offset q); z2b (sq_offset q / 256)] ++ chain (sq_length q - 4)
      ++ encode_block sqs final
  end.

Lemma read_chain_full q r rest n want :
  0 <= r < 255 -> n + 255 * Z.of_nat q <= want ->
  read_chain (replicate q xff ++ [z2b r] ++ rest) n want = Ok (n + 255 * Z.of_nat q + r, rest).
Proof.
  revert n. induction q as [|q IH]; intros n Hr Hn.
  - cbn [replicate app read_chain]. rewrite b2z_z2b_small by (unfold is_u8; lia).
    destruct (Z.eqb_spec r 255); [lia|]. cbn [negb]. do 2 f_equal. lia.
  - cbn [replicate app read_chain]. change (b2z xff) with 255. cbn [Z.eqb Pos.eqb negb].
    destruct (Z.ltb_spec want (n + 255)); [lia|]. rewrite IH by lia. do 2 f_equal. lia.
Qed.

(** Reading back the nibble and its chain. *)
Lemma read_run n rest want :
  0 <= n <= want ->
  (if Z.min n 15 =? 15 then read_chain (chain n ++ rest) (Z.min n 15) want
   else Ok (Z.min n 15, chain n ++ rest)) = Ok (n, rest).
Proof.
  intros Hn. unfold chain. destruct (Z.ltb_spec n 15).
  - rewrite Z.min_l by lia. destruct (Z.eqb_spec n 15); [lia|]. done.
  - rewrite Z.min_r by lia. cbn [Z.eqb Pos.eqb].
    pose proof (Z.div_mod (n - 15) 255 ltac:(lia)) as Hdm. pose proof (Z.mod_pos_bound (n - 15) 255 ltac:(lia)) as Hb.
    pose proof (Z.div_pos (n - 15) 255 ltac:(lia) ltac:(lia)) as Hp.
    rewrite <- app_assoc, read_chain_full by lia. do 2 f_equal. lia.
Qed.

Lemma token_nibbles lit ml :
  0 <= lit -> 0 <= ml ->
  Z.shiftr (b2z (token lit ml)) 4 = Z.min lit 15 /\ Z.land (b2z (token lit ml)) 0x0f = Z.min ml 15.
Proof.
  intros Hl Hm. unfold token. rewrite b2z_z2b_small by (unfold is_u8; lia). split.
  - rewrite Z.shiftr_div_pow2 by lia. change (2 ^ 4) with 16. rewrite Z.div_add_l by lia.
    rewrite (Z.div_small (Z.min ml 15)) by lia. lia.
  - assert (forall x, Z.land x 15 = x mod 16) as -> by (intros x; apply (Z.land_ones x 4); lia).
    rewrite Z.add_comm, Z.mod_add by lia. apply Z.mod_small. lia.
Qed.

Lemma expand_length dst sqs final : zlen dst <= zlen (expand dst sqs final).
Proof.
  revert dst. induction sqs as [|q sqs IH]; intros dst; cbn [expand]; [len_lia|].
  etransitivity; [|apply IH]. rewrite !zlen_app. pose proof (zlen_nonneg (sq_literals q)).
  match goal with |- context [zlen ?m] => match m with match_bytes _ _ _ => pose proof (zlen_nonneg m) end end. lia.
Qed.

Lemma block_loop_encode sqs final dst want fuel :
  valid_block dst sqs -> zlen (expand dst sqs final) <= want ->
  (length (encode_block sqs final) < fuel)%nat ->
  block_loop fuel (encode_block sqs final) dst want = Ok (expand dst sqs final, []).
Proof.
  revert dst fuel. induction sqs as [|q sqs IH]; intros dst fuel Hv Hw Hf;
    (destruct fuel as [|fuel]; [lia|]); cbn [encode_block block_loop].
  - destruct (token_nibbles (zlen final) 0 ltac:(apply zlen_nonneg) ltac:(lia)) as [-> _].
    cbn [expand] in Hw. rewrite zlen_app in Hw. pose proof (zlen_nonneg dst). pose proof (zlen_nonneg final).
    rewrite read_run by lia. cbn [mbind outcome_bind].
    destruct (Z.ltb_spec (zlen final) (zlen final)); [lia|]. destruct (Z.ltb_spec want (zlen dst + zlen final)); [lia|].
    cbn [orb]. rewrite to_nat_zlen, drop_ge, take_ge by lia. done.
  - cbn [valid_block] in Hv. destruct Hv as (Ho & Ho16 & Hm & Hv). cbn [expand] in Hw.
    set (d := dst ++ sq_literals q) in *. set (mb := match_bytes d _ _) in *.
    pose proof (expand_length (d ++ mb) sqs final) as He.
    assert (zlen (d ++ mb) = zlen dst + zlen (sq_literals q) + sq_length q) as Hz.
    { rewrite zlen_app. subst d. rewrite zlen_app. subst mb. unfold zlen at 3. rewrite length_match_bytes. lia. }
    pose proof (zlen_nonneg dst). pose proof (zlen_nonneg (sq_literals q)).
    destruct (token_nibbles (zlen (sq_literals q)) (sq_length q - 4)) as [-> ->]; [lia|lia|].
    rewrite read_run by lia. cbn [mbind outcome_bind].
    destruct (Z.ltb_spec (zlen (sq_literals q ++ [z2b (sq_offset q); z2b (sq_offset q / 256)]
      ++ chain (sq_length q - 4) ++ encode_block sqs final)) (zlen (sq_literals q))) as [Hx|_]; [rewrite zlen_app in Hx;
        match type of Hx with context [_ + zlen ?m] => pose proof (zlen_nonneg m) end; lia|].
    destruct (Z.ltb_spec want (zlen dst + zlen (sq_literals q))); [lia|]. cbn [orb].
    rewrite to_nat_zlen, drop_app_length, take_app_length. fold d. cbn [app].
    rewrite offset_value, !b2z_z2b.
    assert ((sq_offset q / 256) mod 256 * 256 + sq_offset q mod 256 = sq_offset q) as ->.
    { rewrite (Z.mod_small (sq_offset q / 256)) by (split; [apply Z.div_pos; lia|apply Z.div_lt_upper_bound; lia]).
      pose proof (Z.div_mod (sq_offset q) 256). lia. }
    destruct (Z.eqb_spec (sq_offset q) 0); [lia|]. destruct (Z.ltb_spec (zlen d) (sq_offset q)); [lia|]. cbn [orb].
    rewrite read_run by lia. cbn [mbind outcome_bind].
    assert (zlen d = zlen dst + zlen (sq_literals q)) as Hd by (subst d; apply zlen_app).
    destruct (Z.ltb_spec want (zlen d + (sq_length q - 4 + 4))); [lia|].
    rewrite copy_match_ok by lia. cbn [mbind outcome_bind].
    replace (sq_length q - 4 + 4) with (sq_length q) by lia. fold mb. cbn [expand]. fold d. fold mb.
    apply IH; [done|lia|]. cbn [encode_block length] in Hf. rewrite !length_app in Hf. lia.
Qed.

(** C35: Decompressing the LZ4 encoding of any valid list of sequences whose expansion is
    within the cap of 16 MiB gives that expansion, overlapping matches included, and
    consumes the block. *)
Theorem lz4_roundtrip sqs final :
  valid_block [] sqs -> zlen (expand [] sqs final) <= maxDecompressed ->
  DecompressBlock (encode_block sqs final) (zlen (expand [] sqs final))
  = Ok (expand [] sqs final, zlen (encode_block sqs final)).
Proof.
  intros Hv Hm. unfold DecompressBlock. pose proof (zlen_nonneg (expand [] sqs final)).
  destruct (Z.ltb_spec (zlen (expand [] sqs final)) 0); [lia|].
  destruct (Z.ltb_spec maxDecompressed (zlen (expand [] sqs final))); [lia|]. cbn [orb].
  rewrite block_loop_encode by (done || lia). cbn [mbind outcome_bind]. rewrite Z.eqb_refl. cbn [negb].
  change (zlen (@nil byte)) with 0. by rewrite Z.sub_0_r.
Qed.

(** A run of one byte: a match of 300 bytes at distance 1. *)
Lemma lz4_roundtrip_witness :
  DecompressBlock (encode_block [mkSequence (lit "a") 1 300] (lit "end")) 304
  = Ok (replicate 301 x61 ++ lit "end", zlen (encode_block [mkSequence (lit "a") 1 300] (lit "end"))).
Proof.
  apply (lz4_roundtrip [mkSequence (lit "a") 1 300] (lit "end")).
  - cbn. split_and!; (lia || done).
  - vm_compute. discriminate.
Defined.

(** ** Blocks in a frame *)
Lemma le32_at_ok payload off : 0 <= off -> off + 4 <= zlen payload -> exists v, le32_at payload off = Ok v.
Proof.
  intros H0 H1. unfold le32_at.
  destruct (go_index_ok (E := error) payload off) as [b0 ->]; [lia|].
  destruct (go_index_ok (E := error) payload (off + 1)) as [b1 ->]; [lia|].
  destruct (go_index_ok (E := error) payload (off + 2)) as [b2 ->]; [lia|].
  destruct (go_index_ok (E := error) payload (off + 3)) as [b3 ->]; [lia|]. by eexists.
Qed.

(** A located block: inside the frame, with the sizes it declares. *)
Record located (payload : bytes) (c : Compressed) (next : Z) : Prop := {
  lo_offset : 0 <= c_Offset c;
  lo_next : next = c_Offset c + compressionHeaderLen + c_CompressedSize c;
  lo_inside : next <= zlen payload;
  lo_size : 0 < c_CompressedSize c <= c_UncompressedSize c;
  lo_bound : c_UncompressedSize c <= maxDecompressed;
  lo_data : zlen (c_Data c) = c_UncompressedSize c;
  lo_block : exists block, go_slice (E := error) payload (c_Offset c + compressionHeaderLen) next = Ok block /\
    DecompressBlock block (c_UncompressedSize c) = Ok (c_Data c, c_CompressedSize c);
}.

Lemma decode_at_cases payload off :
  DecodeCompressedAt payload off = Ok None \/
  exists c next, DecodeCompressedAt payload off = Ok (Some (c, next)) /\ c_Offset c = off /\ located payload c next.
Proof.
  unfold DecodeCompressedAt, compressionHeaderLen. destruct (Z.ltb_spec off 0); [by left|].
  destruct (Z.ltb_spec (zlen payload) (off + 8)); [by left|]. cbn [orb].
  destruct (le32_at_ok payload off) as [u ->]; [lia|lia|].
  destruct (le32_at_ok payload (off + 4)) as [n ->]; [lia|lia|]. cbn [mbind outcome_bind].
  destruct (Z.leb_spec n 0); [by left|]. destruct (Z.leb_spec u 0); [by left|].
  destruct (Z.ltb_spec u n); [by left|]. destruct (Z.ltb_spec maxDecompressed u); [by left|]. cbn [orb].
  destruct (Z.ltb_spec (zlen payload) (off + 8 + n)); [by left|].
  rewrite go_slice_ok by lia. cbn [mbind outcome_bind]. set (block := take _ _).
  assert (zlen block = n) as Hb by (subst block; len_lia).
  destruct (decompress_cases block u) as [-> |(out & E & Ho & _)]; [by left|]. rewrite E, Hb, Z.eqb_refl.
  cbn [negb]. right. eexists _, _. split; [done|]. split; [done|].
  split; cbn; unfold compressionHeaderLen; try lia.
  exists block. split; [by apply go_slice_ok; lia|]. by rewrite E, Hb.
Qed.

(** Blocks one after the other, none before [from]. *)
Fixpoint apart (payload : bytes) (from : Z) (cs : list Compressed) : Prop :=
  match cs with
  | [] => True
  | c :: cs => from <= c_Offset c /\ exists next, located payload c next /\ apart payload next cs
  end.

Lemma apart_weaken payload a b cs : a <= b -> apart payload b cs -> apart payload a cs.
Proof. intros H. destruct cs as [|c cs]; [done|]. intros [Hc Hr]. split; [lia|done]. Qed.

Lemma find_loop_apart fuel payload i :
  Z.max 0 (zlen payload - i) < Z.of_nat fuel ->
  exists cs, find_loop fuel payload i = Ok cs /\ apart payload i cs.
Proof.
  revert i. induction fuel as [|fuel IH]; intros i Hf; [lia|]. cbn [find_loop].
  destruct (Z.ltb_spec (i + compressionHeaderLen) (zlen payload)) as [Hx|Hx]; cbn [negb]; [|by exists []].
  unfold compressionHeaderLen in Hx. destruct (decode_at_cases payload i) as [-> |(c & next & -> & Hc & Hl)];
    cbn [mbind outcome_bind].
  - destruct (IH (i + 1)) as (cs & -> & Ha); [lia|]. exists cs. split; [done|]. eapply apart_weaken; [|exact Ha]. lia.
  - assert (i < next) as Hn by (destruct Hl; unfold compressionHeaderLen in *; lia).
    destruct (IH next) as (cs & -> & Ha); [lia|]. exists (c :: cs). split; [done|]. split; [lia|]. by exists next.
Qed.

(** Scanning any payload for compressed blocks ends without an error, and every block it
    reports lies inside the payload, decompresses to the reported data, and starts after the
    one before it has ended. *)
Theorem find_compressed_sound payload :
  exists cs, FindCompressed payload = Ok cs /\ apart payload 0 cs.
Proof. apply find_loop_apart. unfold zlen. lia. Qed.

(** ** A block behind its header is located *)
Lemma lor_shiftl_add a x k : 0 <= k -> 0 <= a < 2 ^ k -> Z.lor a (Z.shiftl x k) = a + x * 2 ^ k.
Proof.
  intros Hk Ha. assert (Z.land a (Z.shiftl x k) = 0) as Hl.
  { apply Z.bits_inj'. intros i Hi. rewrite Z.land_spec, Z.bits_0. destruct (Z.ltb_spec i k).
    - rewrite (Z.shiftl_spec_low x) by lia. apply andb_false_r.
    - assert (Z.testbit a i = false) as ->; [|done].
      rewrite <- (Z.mod_small a (2 ^ k)) by lia. apply Z.mod_pow2_bits_high. lia. }
  rewrite <- Z.lxor_lor, <- Z.add_nocarry_lxor, Z.shiftl_mul_pow2 by done. done.
Qed.

Lemma le32_value b0 b1 b2 b3 :
  Z.lor (Z.lor (Z.lor (b2z b0) (Z.shiftl (b2z b1) 8)) (Z.shiftl (b2z b2) 16)) (Z.shiftl (b2z b3) 24)
  = le_combine [b0; b1; b2; b3].
Proof.
  pose proof (b2z_range b0). pose proof (b2z_range b1). pose proof (b2z_range b2). pose proof (b2z_range b3).
  rewrite (lor_shiftl_add (b2z b0)), (lor_shiftl_add _ (b2z b2)), (lor_shiftl_add _ (b2z b3)) by lia.
  unfold le_combine, be_combine. cbn [rev app fold_left]. lia.
Qed.

Lemma le32_at_mid pre v post :
  0 <= v < 2 ^ 32 -> le32_at (pre ++ le_split 4 v ++ post) (zlen pre) = Ok v.
Proof.
  intros Hv. pose proof (length_le_split 4 v) as Hl. pose proof (le_combine_split 4 v) as Hc.
  destruct (le_split 4 v) as [|b0 [|b1 [|b2 [|b3 [|]]]]]; try discriminate.
  rewrite Z.mod_small in Hc by (change (256 ^ Z.of_nat 4) with (2 ^ 32); lia).
  unfold le32_at. cbn [app]. rewrite (go_index_mid pre b0 _ (zlen pre)) by done.
  rewrite (app_assoc pre [b0] (b1 :: b2 :: b3 :: post) : pre ++ b0 :: b1 :: b2 :: b3 :: post = _).
  rewrite (go_index_mid (pre ++ [b0]) b1 _ (zlen pre + 1)) by len_lia. rewrite <- app_assoc. cbn [app].
  rewrite (app_assoc pre [b0; b1] (b2 :: b3 :: post) : pre ++ b0 :: b1 :: b2 :: b3 :: post = _).
  rewrite (go_index_mid (pre ++ [b0; b1]) b2 _ (zlen pre + 2)) by len_lia. rewrite <- app_assoc. cbn [app].
  rewrite (app_assoc pre [b0; b1; b2] (b3 :: post) : pre ++ b0 :: b1 :: b2 :: b3 :: post = _).
  rewrite (go_index_mid (pre ++ [b0; b1; b2]) b3 _ (zlen pre + 3)) by len_lia.
  cbn [mbind outcome_bind]. by rewrite le32_value, Hc.
Qed.

(** A compressed block behind its two length fields is found at its offset, with its data
    and the offset after it. *)
Theorem compressed_block_located pre post block out :
  DecompressBlock block (zlen out) = Ok (out, zlen block) -> 0 < zlen block <= zlen out ->
  DecodeCompressedAt (pre ++ le_split 4 (zlen out) ++ le_split 4 (zlen block) ++ block ++ post) (zlen pre)
  = Ok (Some (mkCompressed (zlen pre) (zlen block) (zlen out) out, zlen pre + 8 + zlen block)).
Proof.
  intros E Hs. pose proof (zlen_nonneg pre). pose proof (zlen_nonneg post).
  assert (zlen out <= maxDecompressed) as Hm.
  { destruct (decompress_cases block (zlen out)) as [Ec|(o & _ & _ & Hle)]; [rewrite E in Ec; discriminate|done]. }
  assert (maxDecompressed = 16777216) as Hmax by reflexivity.
  set (payload := pre ++ _). assert (zlen payload = zlen pre + 8 + zlen block + zlen post) as Hp
    by (subst payload; rewrite !zlen_app; unfold zlen; rewrite !length_le_split; lia).
  assert (forall v, length (le_split 4 v) = 4%nat) as H4 by (intros; apply length_le_split).
  unfold DecodeCompressedAt, compressionHeaderLen.
  destruct (Z.ltb_spec (zlen pre) 0); [lia|]. destruct (Z.ltb_spec (zlen payload) (zlen pre + 8)); [lia|]. cbn [orb].
  assert (le32_at payload (zlen pre) = Ok (zlen out)) as -> by (apply le32_at_mid; lia).
  assert (le32_at payload (zlen pre + 4) = Ok (zlen block)) as ->.
  { subst payload. rewrite app_assoc.
    replace (zlen pre + 4) with (zlen (pre ++ le_split 4 (zlen out))) by (rewrite zlen_app; unfold zlen; rewrite H4; lia).
    apply le32_at_mid. lia. }
  cbn [mbind outcome_bind]. destruct (Z.leb_spec (zlen block) 0); [lia|]. destruct (Z.leb_spec (zlen out) 0); [lia|].
  destruct (Z.ltb_spec (zlen out) (zlen block)); [lia|]. destruct (Z.ltb_spec maxDecompressed (zlen out)); [lia|].
  cbn [orb]. destruct (Z.ltb_spec (zlen payload) (zlen pre + 8 + zlen block)); [lia|].
  assert (go_slice (E := error) payload (zlen pre + 8) (zlen pre + 8 + zlen block) = Ok block) as ->.
  { subst payload. rewrite !app_assoc, <- (app_assoc _ block post). apply go_slice_mid;
      rewrite !zlen_app; unfold zlen; rewrite !H4; lia. }
  cbn [mbind outcome_bind]. rewrite E, Z.eqb_refl. done.
Qed.

Lemma compressed_block_located_witness :
  let out := replicate 301 x61 ++ lit "end" in
  let block := encode_block [mkSequence (lit "a") 1 300] (lit "end") in
  DecodeCompressedAt (lit "xy" ++ le_split 4 (zlen out) ++ le_split 4 (zlen block) ++ block ++ lit "z") 2
  = Ok (Some (mkCompressed 2 (zlen block) (zlen out) out, 2 + 8 + zlen block)).
Proof.
  intros out block. apply (compressed_block_located (lit "xy") (lit "z") block out).
  - vm_compute. reflexivity.
  - vm_compute. split; [reflexivity|discriminate].
Defined.
