(* ===== verification/Fastser.v ===== *)
(** Package [fastser], the rest of it: internal/fastser/record.go, fields.go, container.go and
    fastser.go, the record grammar of the fast serialization.

    Each decoder takes the payload and an offset and reports [ok = false] instead of an
    error; the outcome is therefore [res (option _)], where [Panic] would be an index out of
    range.

    The theorems: a record that is encoded is decoded at its place and, but for STRING, a
    decoded record is the encoding of its tag and value; the record stream is read exactly
    and stopped where no record starts; every decoder returns on every payload; and what
    the searches report lies in the payload, in order and apart. *)
From stdpp Require Import base list numbers strings.
From Stdlib Require Import ZArith Lia Strings.Byte.
From S2P Require Import Prelude Errors Text.

Open Scope Z_scope.

(** ** Records *)
Definition TagPadded : byte := x30.
Definition TagChar : byte := x43.
Definition TagEnd : byte := x45.
Definition TagInt4 : byte := x4e.
Definition TagDescriptor : byte := x50.
Definition TagString : byte := x53.

Definition charTag : byte := x43.
Definition charFlag : byte := x80.
Definition stringLengthFlag : Z := 0xC000.
Definition typeDescriptorPrefix : bytes := lit "\TYPE=".

Inductive framing : Type := framingLen1 | framingLen1Flag | framingLen2BE | framingFixed4 | framingNone | framingString.
#[global] Instance framing_eqdec : EqDecision framing.
Proof. solve_decision. Defined.

Definition tagFraming (tag : byte) : option framing :=
  if bool_decide (tag = TagDescriptor) then Some framingLen1
  else if bool_decide (tag = TagChar) then Some framingLen1Flag
  else if bool_decide (tag = TagPadded) then Some framingLen2BE
  else if bool_decide (tag = TagInt4) then Some framingFixed4
  else if bool_decide (tag = TagEnd) then Some framingNone
  else if bool_decide (tag = TagString) then Some framingString
  else None.

Record Record_ : Type := mkRecord { Offset : Z; Tag : byte; Value : bytes }.

Definition has_prefix (s prefix : bytes) : bool := bytes_eqb (take (length prefix) s) prefix.

Definition IsTypeDescriptor (r : Record_) : bool := bool_decide (Tag r = TagDescriptor) && has_prefix (Value r) typeDescriptorPrefix.

(** The name, empty when the record is no descriptor. *)
Definition TypeName (r : Record_) : res (bytes * bool) :=
  if negb (IsTypeDescriptor r) then Ok ([], false)
  else name ← go_from (Value r) (zlen typeDescriptorPrefix); Ok (name, true).

(** The header of a record: where its value starts and how long it is. *)
Definition record_header (payload : bytes) (off : Z) (f : framing) : res (option (Z * Z)) :=
  match f with
  | framingNone => Ok None
  | framingFixed4 => Ok (Some (off + 1, 4))
  | framingLen1 =>
      if zlen payload <=? off + 1 then Ok None
      else n ← go_index payload (off + 1); Ok (Some (off + 2, b2z n))
  | framingLen1Flag =>
      if zlen payload <=? off + 2 then Ok None
      else
        flag ← go_index payload (off + 2);
        if negb (bool_decide (flag = charFlag)) then Ok None
        else n ← go_index payload (off + 1); Ok (Some (off + 3, b2z n))
  | framingLen2BE =>
      if zlen payload <=? off + 2 then Ok None
      else
        hi ← go_index payload (off + 1);
        lo ← go_index payload (off + 2);
        Ok (Some (off + 3, Z.lor (Z.shiftl (b2z hi) 8) (b2z lo)))
  | framingString =>
      if zlen payload <=? off + 4 then Ok None
      else
        b1 ← go_index payload (off + 1);
        b2 ← go_index payload (off + 2);
        b3 ← go_index payload (off + 3);
        b4 ← go_index payload (off + 4);
        let flagged := Z.lor (b2z b1) (Z.shiftl (b2z b2) 8) in
        let plain := Z.lor (b2z b3) (Z.shiftl (b2z b4) 8) in
        if negb (flagged =? Z.lor plain stringLengthFlag) then Ok None else Ok (Some (off + 5, plain))
  end.

Definition decodeRecordAt (payload : bytes) (off : Z) : res (option (Record_ * Z)) :=
  if zlen payload <=? off then Ok None
  else
    tag ← go_index payload off;
    match tagFraming tag with
    | None => Ok None
    | Some framingNone => Ok (Some (mkRecord off tag [], off + 1))
    | Some f =>
        header ← record_header payload off f;
        match header with
        | None => Ok None
        | Some (start, length) =>
            if (length =? 0) || (zlen payload <? start + length) then Ok None
            else v ← go_slice payload start (start + length); Ok (Some (mkRecord off tag v, start + length))
        end
    end.

(** The loop of [DecodeRecordsFrom]; every round moves on. *)
Fixpoint records_loop (fuel : nat) (payload : bytes) (off : Z) (recs : list Record_) : res (list Record_ * Z) :=
  match fuel with
  | O => Err EFuel
  | S fuel =>
      if off <? zlen payload then
        r ← decodeRecordAt payload off;
        match r with
        | None => Ok (recs, off)
        | Some (rec, after) => records_loop fuel payload after (recs ++ [rec])
        end
      else Ok (recs, off)
  end.

Definition DecodeRecordsFrom (payload : bytes) (off : Z) : res (list Record_ * Z) :=
  records_loop (S (length payload)) payload off [].

Definition DecodeRecords (payload : bytes) : res (list Record_ * Z) := DecodeRecordsFrom payload 0.

Definition descriptorAt (payload : bytes) (off : Z) : res (option (Record_ * Z)) :=
  r ← decodeRecordAt payload off;
  match r with
  | Some (rec, next) => if IsTypeDescriptor rec then Ok (Some (rec, next)) else Ok None
  | None => Ok None
  end.

Fixpoint find_descriptors (fuel : nat) (payload : bytes) (i : Z) (out : list Record_) : res (list Record_) :=
  match fuel with
  | O => Err EFuel
  | S fuel =>
      if i + zlen typeDescriptorPrefix + 2 <=? zlen payload then
        r ← descriptorAt payload i;
        find_descriptors fuel payload (i + 1) (match r with Some (rec, _) => out ++ [rec] | None => out end)
      else Ok out
  end.

Definition FindTypeDescriptors (payload : bytes) : res (list Record_) := find_descriptors (S (length payload)) payload 0 [].

(** The record an encoder of a tag writes, with the flag it returns beside it. *)
Definition EncodeRecord (tag : byte) (value : bytes) : bytes * bool :=
  match tagFraming tag with
  | None => ([], false)
  | Some framingNone => ([tag], zlen value =? 0)
  | Some framingFixed4 => if negb (zlen value =? 4) then ([], false) else (tag :: value, true)
  | Some framingLen1 =>
      if (zlen value =? 0) || (0xff <? zlen value) then ([], false) else (tag :: z2b (zlen value) :: value, true)
  | Some framingLen1Flag =>
      if (zlen value =? 0) || (0xff <? zlen value) then ([], false) else (tag :: z2b (zlen value) :: charFlag :: value, true)
  | Some framingLen2BE =>
      if (zlen value =? 0) || (0xffff <? zlen value) then ([], false)
      else (tag :: z2b (Z.shiftr (zlen value) 8) :: z2b (zlen value) :: value, true)
  | Some framingString => ([], false)
  end.

(** ** Typed fields *)
Record TypedField : Type := mkTypedField { tf_TypeName : bytes; FieldName : bytes; tf_Value : option Record_ }.

Definition maxMetadataGap : Z := 64.

(** Whether a record within the gap is taken as the value. *)
Definition is_value (payload : bytes) (rec : Record_) (next : Z) : res bool :=
  if bool_decide (Tag rec = TagChar) || bool_decide (Tag rec = TagString) then Ok true
  else if bool_decide (Tag rec = TagInt4) then
    if next <? zlen payload then b ← go_index payload next; Ok (bool_decide (b = TagEnd)) else Ok false
  else Ok false.

Fixpoint value_loop (fuel : nat) (payload : bytes) (j limit : Z) : res (option Record_) :=
  match fuel with
  | O => Err EFuel
  | S fuel =>
      if j <? limit then
        r ← decodeRecordAt payload j;
        match r with
        | None => value_loop fuel payload (j + 1) limit
        | Some (rec, next) =>
            v ← is_value payload rec next;
            if (v : bool) then Ok (Some rec) else value_loop fuel payload (j + 1) limit
        end
      else Ok None
  end.

Fixpoint typed_loop (fuel : nat) (payload : bytes) (i : Z) (out : list TypedField) : res (list TypedField) :=
  match fuel with
  | O => Err EFuel
  | S fuel =>
      if i <? zlen payload then
        d ← descriptorAt payload i;
        match d with
        | None => typed_loop fuel payload (i + 1) out
        | Some (desc, after) =>
            '(name, _) ← TypeName desc;
            let limit := Z.min (after + maxMetadataGap) (zlen payload) in
            v ← value_loop (S (length payload)) payload after limit;
            typed_loop fuel payload (after - 1 + 1) (out ++ [mkTypedField name [] v])
        end
      else Ok out
  end.

Definition DecodeTypedFields (payload : bytes) : res (list TypedField) := typed_loop (S (length payload)) payload 0 [].

(** ** Parameters *)
Definition TypeChar : byte := x06.
Definition TypeRaw : byte := x17.
Definition widthParameterised (t : byte) : bool := bool_decide (t = TypeChar) || bool_decide (t = TypeRaw).
Definition parameterHeader : byte := x44.

Record Field : Type := mkField { TypeCode : byte; Width : Z; HasWidth : bool; f_Name : bytes }.
Record Parameter_ : Type := mkParameter { p_TypeName : bytes; p_Fields : list Field; p_Offset : Z }.

Definition Generated (p : Parameter_) : bool := has_prefix (p_TypeName p) (lit "%_T").

Definition name_char (c : byte) : bool :=
  in_range 0x41 0x5a (b2z c) || in_range 0x30 0x39 (b2z c) || bool_decide (c = x5f) || bool_decide (c = x2f).
Definition isPlainName (b : bytes) : bool := negb (bool_decide (b = [])) && forallb name_char b.

(** The width of a field, if its code has one, and the offset behind it. *)
Definition field_width (payload : bytes) (i : Z) (code : byte) : res (option (Z * bool * Z)) :=
  if widthParameterised code then
    if zlen payload <=? i + 1 then Ok None
    else
      lo ← go_index payload i;
      hi ← go_index payload (i + 1);
      Ok (Some (Z.lor (b2z lo) (Z.shiftl (b2z hi) 8), true, i + 2))
  else Ok (Some (0, false, i)).

Fixpoint fields_loop (n : nat) (payload : bytes) (i : Z) (fields : list Field) : res (option (list Field * Z)) :=
  match n with
  | O => Ok (Some (fields, i))
  | S n =>
      if zlen payload <=? i then Ok None
      else
        code ← go_index payload i;
        w ← field_width payload (i + 1) code;
        match w with
        | None => Ok None
        | Some (width, has, i) =>
            if zlen payload <=? i then Ok None
            else
              nl ← go_index payload i;
              let nameLen := b2z nl in
              let i := i + 1 in
              if (nameLen =? 0) || (zlen payload <? i + nameLen) then Ok None
              else
                raw ← go_slice payload i (i + nameLen);
                if negb (isPlainName raw) then Ok None
                else fields_loop n payload (i + nameLen) (fields ++ [mkField code width has raw])
        end
  end.

Definition DecodeParameter (payload : bytes) (off : Z) : res (option (Parameter_ * Z)) :=
  if zlen payload <=? off + 1 then Ok None
  else
    h ← go_index payload off;
    if negb (bool_decide (h = parameterHeader)) then Ok None
    else
      count ← go_index payload (off + 1);
      d ← decodeRecordAt payload (off + 2);
      match d with
      | None => Ok None
      | Some (desc, after) =>
          if negb (IsTypeDescriptor desc) then Ok None
          else
            '(name, _) ← TypeName desc;
            fs ← fields_loop (Z.to_nat (b2z count)) payload after [];
            match fs with
            | None => Ok None
            | Some (fields, i) =>
                if negb (zlen fields =? b2z count) then Ok None else Ok (Some (mkParameter name fields off, i))
            end
      end.

Fixpoint parameters_loop (fuel : nat) (payload : bytes) (i : Z) (out : list Parameter_) : res (list Parameter_) :=
  match fuel with
  | O => Err EFuel
  | S fuel =>
      if i + 2 <? zlen payload then
        p ← DecodeParameter payload i;
        match p with
        | None => parameters_loop fuel payload (i + 1) out
        | Some (p, next) => parameters_loop fuel payload next (out ++ [p])
        end
      else Ok out
  end.

Definition DecodeParameters (payload : bytes) : res (list Parameter_) := parameters_loop (S (length payload)) payload 0 [].

(** ** Containers *)
Definition ItemFastSerParams : Z := 0x5001.

Record Item : Type := mkItem { ID : Z; Data : bytes; it_Offset : Z }.

(** [uint16(b[i])<<8 | uint16(b[i+1])] *)
Definition word_at (b : bytes) (i : Z) : res Z :=
  hi ← go_index b i; lo ← go_index b (i + 1); Ok (Z.lor (Z.shiftl (b2z hi) 8) (b2z lo)).

Definition DecodeItemAt (payload : bytes) (off : Z) : res (option (Item * Z)) :=
  if zlen payload <? off + 4 then Ok None
  else
    id ← word_at payload off;
    length ← word_at payload (off + 2);
    let end_ := off + 4 + length in
    if zlen payload <? end_ + 2 then Ok None
    else
      closing ← word_at payload end_;
      if negb (closing =? id) then Ok None
      else data ← go_slice payload (off + 4) end_; Ok (Some (mkItem id data off, end_ + 2)).

Fixpoint items_loop (fuel : nat) (payload : bytes) (off : Z) (items : list Item) : res (list Item * Z) :=
  match fuel with
  | O => Err EFuel
  | S fuel =>
      if off <? zlen payload then
        r ← DecodeItemAt payload off;
        match r with
        | None => Ok (items, off)
        | Some (it, after) => items_loop fuel payload after (items ++ [it])
        end
      else Ok (items, off)
  end.

Definition DecodeItems (payload : bytes) (off : Z) : res (list Item * Z) := items_loop (S (length payload)) payload off [].

Fixpoint find_items (fuel : nat) (payload : bytes) (i : Z) (out : list Item) : res (list Item) :=
  match fuel with
  | O => Err EFuel
  | S fuel =>
      if i + 6 <=? zlen payload then
        r ← DecodeItemAt payload i;
        match r with
        | None => find_items fuel payload (i + 1) out
        | Some (it, next) => find_items fuel payload next (out ++ [it])
        end
      else Ok out
  end.

Definition FindItems (payload : bytes) : res (list Item) := find_items (S (length payload)) payload 0 [].

(** ** Character fields *)
Record CharField : Type := mkCharField { cf_Value : bytes }.

(** The value of a character field at [i], if one is there. *)
Definition char_field_at (payload : bytes) (i : Z) : res (option (bytes * Z)) :=
  t ← go_index payload i;
  flag ← go_index payload (i + 2);
  if bool_decide (t = charTag) && bool_decide (flag = charFlag) then
    nb ← go_index payload (i + 1);
    let n := b2z nb in
    if (0 <? n) && (i + 3 + n <=? zlen payload) then v ← go_slice payload (i + 3) (i + 3 + n); Ok (Some (v, i + 3 + n))
    else Ok None
  else Ok None.

Fixpoint char_loop (fuel : nat) (payload : bytes) (i : Z) (out : list CharField) : res (list CharField) :=
  match fuel with
  | O => Err EFuel
  | S fuel =>
      if i + 3 <=? zlen payload then
        c ← char_field_at payload i;
        match c with
        | Some (v, next) => char_loop fuel payload next (out ++ [mkCharField v])
        | None => char_loop fuel payload (i + 1) out
        end
      else Ok out
  end.

Definition DecodeCharFields (payload : bytes) : res (list CharField) := char_loop (S (length payload)) payload 0 [].

Definition EncodeCharField (value : bytes) : bytes :=
  let value := if 0xff <? zlen value then take 255 value else value in
  charTag :: z2b (zlen value) :: charFlag :: value.

(** ** Places in a payload *)
Lemma index_shift {A} (pre l : list A) off k : off = zlen pre + k -> 0 <= k -> go_index (pre ++ l) off = (go_index l k : res A).
Proof.
  intros -> Hk. pose proof (zlen_nonneg pre). unfold go_index. destruct (Z.ltb_spec (zlen pre + k) 0); [lia|]. destruct (Z.ltb_spec k 0); [lia|].
  rewrite lookup_app_r by (unfold zlen; lia). replace (Z.to_nat (zlen pre + k) - length pre)%nat with (Z.to_nat k) by (unfold zlen; lia). done.
Qed.

Lemma slice_shift {A} (pre l : list A) a b x y :
  a = zlen pre + x -> b = zlen pre + y -> 0 <= x -> go_slice (pre ++ l) a b = (go_slice l x y : res (list A)).
Proof.
  intros -> -> Hx. pose proof (zlen_nonneg pre). unfold go_slice. rewrite zlen_app.
  replace (zlen pre + x <? 0) with (x <? 0) by (destruct (Z.ltb_spec x 0), (Z.ltb_spec (zlen pre + x) 0); lia).
  replace (zlen pre + y <? zlen pre + x) with (y <? x) by (destruct (Z.ltb_spec y x), (Z.ltb_spec (zlen pre + y) (zlen pre + x)); lia).
  replace (zlen pre + zlen l <? zlen pre + y) with (zlen l <? y) by (destruct (Z.ltb_spec (zlen l) y), (Z.ltb_spec (zlen pre + zlen l) (zlen pre + y)); lia).
  destruct (_ || _); [done|]. replace (zlen pre + y - (zlen pre + x)) with (y - x) by lia. rewrite drop_app_ge by (unfold zlen; lia).
  by replace (Z.to_nat (zlen pre + x) - length pre)%nat with (Z.to_nat x) by (unfold zlen; lia).
Qed.

Lemma leb_shift a b c : (a + b <=? a + c) = (b <=? c).
Proof. destruct (Z.leb_spec b c), (Z.leb_spec (a + b) (a + c)); lia. Qed.
Lemma ltb_shift a b c : (a + b <? a + c) = (b <? c).
Proof. destruct (Z.ltb_spec b c), (Z.ltb_spec (a + b) (a + c)); lia. Qed.

Definition shift_header (k : Z) (h : option (Z * Z)) : option (Z * Z) := match h with Some (s, n) => Some (k + s, n) | None => None end.
Definition shift_record (k : Z) (r : option (Record_ * Z)) : option (Record_ * Z) :=
  match r with Some (rec, n) => Some (mkRecord (k + Offset rec) (Tag rec) (Value rec), k + n) | None => None end.

Lemma header_shift pre l f : record_header (pre ++ l) (zlen pre) f = (shift_header (zlen pre) <$> record_header l 0 f).
Proof.
  unfold record_header. rewrite zlen_app, !leb_shift, !Z.add_0_l.
  rewrite !(index_shift pre l _ _ eq_refl) by lia. destruct f; cbn [fmap outcome_fmap shift_header]; try done;
    destruct (_ <=? _); try done; repeat (match goal with |- context [go_index l ?i] => destruct (go_index l i); try done; rewrite ?ok_bind end);
    try (destruct (negb _)); try done.
Qed.

Lemma header_bounds l off f s n : record_header l off f = Ok (Some (s, n)) -> off < s /\ 0 <= n.
Proof.
  unfold record_header. intros H. assert (forall a b, 0 <= Z.lor (Z.shiftl (b2z a) 8) (b2z b)) as Hw.
  { intros a b. pose proof (b2z_range a). pose proof (b2z_range b). apply Z.lor_nonneg. rewrite Z.shiftl_nonneg. lia. }
  destruct f; try done; try (destruct (_ <=? _) in H; [done|]); repeat (let x := fresh in let E := fresh in ok_step H as x E);
    try (destruct (negb _) in H; [done|]); try (ok_step H as b Eb); apply Ok_inj in H; simplify_eq;
    (split; [lia|]); try apply Hw; try apply b2z_range; try (rewrite Z.lor_comm; apply Hw); lia.
Qed.

Lemma decode_shift pre l : decodeRecordAt (pre ++ l) (zlen pre) = (shift_record (zlen pre) <$> decodeRecordAt l 0).
Proof.
  unfold decodeRecordAt. rewrite zlen_app. rewrite <- (Z.add_0_r (zlen pre)) at 2. rewrite leb_shift.
  destruct (zlen l <=? 0); [done|]. rewrite (index_shift pre l (zlen pre) 0) by lia. destruct (go_index l 0) as [t|e|]; try done. rewrite !ok_bind.
  destruct (tagFraming t) as [f|]; [|done]. rewrite header_shift.
  destruct f; try (cbn; by rewrite Z.add_0_r);
  (destruct (record_header l 0 _) as [[[s n]|]|e|] eqn:Eh; cbn [fmap outcome_fmap shift_header mbind outcome_bind]; try done;
   apply header_bounds in Eh; rewrite <- !Z.add_assoc, ltb_shift; destruct (_ || _) eqn:Eo; [done|];
   rewrite (slice_shift pre l _ _ s (s + n)) by lia; destruct (go_slice l s (s + n)); cbn; rewrite ?Z.add_0_r; done).
Qed.

(** ** The grammar of a record *)
(** The bytes of a record: what [EncodeRecord] writes, and the STRING form it does not. *)
Definition record_bytes (tag : byte) (value : bytes) : option bytes :=
  match tagFraming tag with
  | Some framingString =>
      let n := zlen value in
      let flagged := Z.lor n stringLengthFlag in
      if (n =? 0) || (0xffff <? n) then None
      else Some (tag :: z2b flagged :: z2b (Z.shiftr flagged 8) :: z2b n :: z2b (Z.shiftr n 8) :: value)
  | _ => match EncodeRecord tag value with (b, true) => Some b | _ => None end
  end.

Definition word (hi lo : byte) : Z := b2z hi * 256 + b2z lo.

Lemma word_be hi lo : Z.lor (Z.shiftl (b2z hi) 8) (b2z lo) = word hi lo.
Proof. apply lor_shiftl8. Qed.
Lemma word_le lo hi : Z.lor (b2z lo) (Z.shiftl (b2z hi) 8) = word hi lo.
Proof. rewrite Z.lor_comm. apply lor_shiftl8. Qed.

Lemma word_split hi lo : z2b (word hi lo) = lo /\ z2b (Z.shiftr (word hi lo) 8) = hi /\ 0 <= word hi lo < 65536.
Proof.
  pose proof (b2z_range hi). pose proof (b2z_range lo). unfold word. rewrite Z.shiftr_div_pow2 by lia. change (2 ^ 8) with 256.
  split_and!; [apply b2z_inj; rewrite b2z_z2b; Z.div_mod_to_equations; lia|apply b2z_inj; rewrite b2z_z2b; Z.div_mod_to_equations; lia|lia..].
Qed.

Lemma word_of n : 0 <= n < 65536 -> word (z2b (Z.shiftr n 8)) (z2b n) = n.
Proof. intros H. unfold word. rewrite !b2z_z2b, Z.shiftr_div_pow2 by lia. change (2 ^ 8) with 256. Z.div_mod_to_equations; lia. Qed.

Lemma flagged_small n : 0 <= n < 65536 -> 0 <= Z.lor n stringLengthFlag < 65536.
Proof.
  intros H. unfold stringLengthFlag. split; [apply Z.lor_nonneg; lia|].
  replace (Z.lor n 0xC000) with (Z.lor n 0xC000 mod 2 ^ 16); [apply Z.mod_pos_bound; lia|].
  rewrite <- Z.land_ones, Z.land_lor_distr_l, Z.land_ones, (Z.mod_small n) by lia. done.
Qed.

Lemma at_1 {A} (t a : A) l : go_index (t :: a :: l) (0 + 1) = (Ok a : res A).
Proof. done. Qed.
Lemma at_2 {A} (t a b : A) l : go_index (t :: a :: b :: l) (0 + 2) = (Ok b : res A).
Proof. done. Qed.
Lemma at_3 {A} (t a b c : A) l : go_index (t :: a :: b :: c :: l) (0 + 3) = (Ok c : res A).
Proof. done. Qed.
Lemma at_4 {A} (t a b c d : A) l : go_index (t :: a :: b :: c :: d :: l) (0 + 4) = (Ok d : res A).
Proof. done. Qed.

Ltac header_index := cbn [app]; rewrite ?at_1, ?at_2, ?at_3, ?at_4; rewrite ?ok_bind.

(** A header at the front of a payload. *)
Lemma value_at t hdr v post f s n :
  tagFraming t = Some f -> f <> framingNone -> record_header (t :: hdr ++ v ++ post) 0 f = Ok (Some (s, n)) ->
  s = 1 + zlen hdr -> n = zlen v -> n <> 0 ->
  decodeRecordAt (t :: hdr ++ v ++ post) 0 = Ok (Some (mkRecord 0 t v, 1 + zlen hdr + zlen v)).
Proof.
  intros Ht Hf Hh -> -> Hn. unfold decodeRecordAt. rewrite (proj2 (Z.leb_gt _ _)) by len_lia. change (go_index (t :: hdr ++ v ++ post) 0) with (Ok t : res byte).
  rewrite ok_bind, Ht, Hh. destruct f; try done; rewrite ok_bind; rewrite (proj2 (Z.eqb_neq _ _)) by done; cbn [orb];
    (rewrite (proj2 (Z.ltb_ge _ _)) by len_lia); rewrite (go_slice_mid (t :: hdr) v post) by len_lia; done.
Qed.

Lemma decode_encoded t v b post : record_bytes t v = Some b -> decodeRecordAt (b ++ post) 0 = Ok (Some (mkRecord 0 t v, zlen b)).
Proof.
  unfold record_bytes, EncodeRecord. destruct (tagFraming t) as [f|] eqn:Ef; [|done]. cbv zeta. destruct f.
  - destruct (_ || _) eqn:Eo; [done|]. apply orb_false_iff in Eo as [E1%Z.eqb_neq E2%Z.ltb_ge]. intros [= <-]. pose proof (zlen_nonneg v).
    change ((t :: z2b (zlen v) :: v) ++ post) with (t :: [z2b (zlen v)] ++ v ++ post). rewrite (value_at t _ v post framingLen1 2 (zlen v)); try done; [do 4 f_equal; len_lia|].
    unfold record_header. rewrite (proj2 (Z.leb_gt _ _)) by len_lia. header_index. rewrite b2z_z2b, Z.mod_small by lia. done.
  - destruct (_ || _) eqn:Eo; [done|]. apply orb_false_iff in Eo as [E1%Z.eqb_neq E2%Z.ltb_ge]. intros [= <-]. pose proof (zlen_nonneg v).
    change ((t :: z2b (zlen v) :: charFlag :: v) ++ post) with (t :: [z2b (zlen v); charFlag] ++ v ++ post).
    rewrite (value_at t _ v post framingLen1Flag 3 (zlen v)); try done; [do 4 f_equal; len_lia|].
    unfold record_header. rewrite (proj2 (Z.leb_gt _ _)) by len_lia. header_index. rewrite b2z_z2b, Z.mod_small by lia. done.
  - destruct (_ || _) eqn:Eo; [done|]. apply orb_false_iff in Eo as [E1%Z.eqb_neq E2%Z.ltb_ge]. intros [= <-]. pose proof (zlen_nonneg v).
    change ((t :: z2b (Z.shiftr (zlen v) 8) :: z2b (zlen v) :: v) ++ post) with (t :: [z2b (Z.shiftr (zlen v) 8); z2b (zlen v)] ++ v ++ post).
    rewrite (value_at t _ v post framingLen2BE 3 (zlen v)); try done; [do 4 f_equal; len_lia|].
    unfold record_header. rewrite (proj2 (Z.leb_gt _ _)) by len_lia. header_index. rewrite word_be, word_of by lia. done.
  - destruct (Z.eqb_spec (zlen v) 4) as [E|]; [|done]. intros [= <-]. cbn [negb]. change ((t :: v) ++ post) with (t :: [] ++ v ++ post).
    rewrite (value_at t _ v post framingFixed4 1 4); try done; [do 4 f_equal; len_lia].
  - destruct (Z.eqb_spec (zlen v) 0) as [E|]; [|done]. intros [= <-]. destruct v; [|exfalso; len_lia].
    unfold decodeRecordAt. rewrite (proj2 (Z.leb_gt _ _)) by len_lia. cbn [app]. change (go_index (t :: post) 0) with (Ok t : res byte). by rewrite ok_bind, Ef.
  - destruct (_ || _) eqn:Eo; [done|]. apply orb_false_iff in Eo as [E1%Z.eqb_neq E2%Z.ltb_ge]. intros [= <-]. pose proof (zlen_nonneg v).
    set (fl := Z.lor (zlen v) stringLengthFlag). pose proof (flagged_small (zlen v) ltac:(lia)) as Hfl. fold fl in Hfl.
    change ((t :: z2b fl :: z2b (Z.shiftr fl 8) :: z2b (zlen v) :: z2b (Z.shiftr (zlen v) 8) :: v) ++ post)
      with (t :: [z2b fl; z2b (Z.shiftr fl 8); z2b (zlen v); z2b (Z.shiftr (zlen v) 8)] ++ v ++ post).
    rewrite (value_at t _ v post framingString 5 (zlen v)); try done; [do 4 f_equal; len_lia|].
    unfold record_header. rewrite (proj2 (Z.leb_gt _ _)) by len_lia. header_index. rewrite !word_le, !word_of by lia.
    unfold fl. rewrite Z.eqb_refl. done.
Qed.

(** The value behind a header. *)
Lemma value_cut t hdr r f s n rec next :
  tagFraming t = Some f -> f <> framingNone -> record_header (t :: hdr ++ r) 0 f = Ok (Some (s, n)) -> s = 1 + zlen hdr ->
  decodeRecordAt (t :: hdr ++ r) 0 = Ok (Some (rec, next)) ->
  exists v post, r = v ++ post /\ zlen v = n /\ n <> 0 /\ rec = mkRecord 0 t v /\ next = 1 + zlen hdr + n.
Proof.
  intros Ht Hf Hh -> H. unfold decodeRecordAt in H. rewrite (proj2 (Z.leb_gt _ _)) in H by len_lia.
  change (go_index (t :: hdr ++ r) 0) with (Ok t : res byte) in H. rewrite ok_bind, Ht, Hh in H. pose proof (header_bounds _ _ _ _ _ Hh) as [_ Hn].
  assert ((if (n =? 0) || (zlen (t :: hdr ++ r) <? 1 + zlen hdr + n) then Ok None
    else v ← go_slice (t :: hdr ++ r) (1 + zlen hdr) (1 + zlen hdr + n); Ok (Some (mkRecord 0 t v, 1 + zlen hdr + n))) = (Ok (Some (rec, next)) : res _)) as H'
    by (destruct f; done). clear H. destruct (Z.eqb_spec n 0); [done|]. cbn [orb] in H'. destruct (Z.ltb_spec (zlen (t :: hdr ++ r)) (1 + zlen hdr + n)) as [|Hle]; [done|].
  assert (zlen (t :: hdr ++ r) = 1 + zlen hdr + zlen r) as Hz by len_lia.
  destruct (cut_prefix (Z.to_nat n) r) as (v & post & -> & Hv); [unfold zlen in *; lia|]. exists v, post.
  assert (zlen v = n) as Hvn by (unfold zlen; lia). rewrite (go_slice_mid (t :: hdr) v post) in H' by len_lia. by simplify_eq/=.
Qed.

Lemma header_present t r f rec next :
  tagFraming t = Some f -> f <> framingNone -> decodeRecordAt (t :: r) 0 = Ok (Some (rec, next)) ->
  exists s n, record_header (t :: r) 0 f = Ok (Some (s, n)).
Proof.
  intros Ef Hf H. unfold decodeRecordAt in H. rewrite (proj2 (Z.leb_gt _ _)) in H by len_lia.
  change (go_index (t :: r) 0) with (Ok t : res byte) in H. rewrite ok_bind, Ef in H.
  destruct f; try done; ok_step H as h Hh; destruct h as [[s n]|]; try done; by exists s, n.
Qed.

(** The bytes of a framing with a value, from its header and its value. *)
Lemma front_framed t hdr r f s n rec next :
  tagFraming t = Some f -> f <> framingNone -> record_header (t :: hdr ++ r) 0 f = Ok (Some (s, n)) -> s = 1 + zlen hdr ->
  decodeRecordAt (t :: hdr ++ r) 0 = Ok (Some (rec, next)) ->
  (forall v, zlen v = n -> n <> 0 -> record_bytes t v = Some (t :: hdr ++ v)) ->
  exists b post, t :: hdr ++ r = b ++ post /\ record_bytes (Tag rec) (Value rec) = Some b /\ next = zlen b /\ Offset rec = 0.
Proof.
  intros Ht Hf Hh Hs H He. destruct (value_cut _ _ _ _ _ _ _ _ Ht Hf Hh Hs H) as (v & post & -> & Hv & Hn & -> & ->).
  exists (t :: hdr ++ v), post. split_and!; [by rewrite app_assoc|by apply He|len_lia|done].
Qed.

Lemma decode_front rest rec next :
  decodeRecordAt rest 0 = Ok (Some (rec, next)) ->
  exists b post, rest = b ++ post /\ record_bytes (Tag rec) (Value rec) = Some b /\ next = zlen b /\ Offset rec = 0.
Proof.
  destruct rest as [|t r]; [done|]. intros H. destruct (tagFraming t) as [f|] eqn:Ef.
  2: { unfold decodeRecordAt in H. rewrite (proj2 (Z.leb_gt _ _)) in H by len_lia. change (go_index (t :: r) 0) with (Ok t : res byte) in H. by rewrite ok_bind, Ef in H. }
  destruct (decide (f = framingNone)) as [->|Hf].
  { unfold decodeRecordAt in H. rewrite (proj2 (Z.leb_gt _ _)) in H by len_lia. change (go_index (t :: r) 0) with (Ok t : res byte) in H. rewrite ok_bind, Ef in H.
    simplify_eq. exists [t], r. unfold record_bytes, EncodeRecord. cbn [Tag Value]. by rewrite Ef. }
  destruct (header_present _ _ _ _ _ Ef Hf H) as (s & n & Hh). pose proof Hh as Hr. unfold record_header in Hr.
  destruct f; try done.
  - destruct (Z.leb_spec (zlen (t :: r)) (0 + 1)) as [|Hl]; [done|]. destruct r as [|b1 r]; [exfalso; len_lia|]. rewrite at_1, ok_bind in Hr. simplify_eq.
    apply (front_framed t [b1] r _ _ _ rec next Ef Hf Hh eq_refl H). intros v Hv Hn. unfold record_bytes, EncodeRecord. rewrite Ef, Hv.
    pose proof (b2z_range b1). rewrite (proj2 (Z.eqb_neq _ _)), (proj2 (Z.ltb_ge _ _)), z2b_b2z by lia. done.
  - destruct (Z.leb_spec (zlen (t :: r)) (0 + 2)) as [|Hl]; [done|]. destruct r as [|b1 [|b2 r]]; [exfalso; len_lia..|]. rewrite at_1, at_2, !ok_bind in Hr.
    destruct (bool_decide_reflect (b2 = charFlag)) as [->|]; [|done]. cbn [negb] in Hr. simplify_eq.
    apply (front_framed t [b1; charFlag] r _ _ _ rec next Ef Hf Hh eq_refl H). intros v Hv Hn. unfold record_bytes, EncodeRecord. rewrite Ef, Hv.
    pose proof (b2z_range b1). rewrite (proj2 (Z.eqb_neq _ _)), (proj2 (Z.ltb_ge _ _)), z2b_b2z by lia. done.
  - destruct (Z.leb_spec (zlen (t :: r)) (0 + 2)) as [|Hl]; [done|]. destruct r as [|b1 [|b2 r]]; [exfalso; len_lia..|]. rewrite at_1, at_2, !ok_bind, word_be in Hr.
    simplify_eq. destruct (word_split b1 b2) as (W1 & W2 & W3).
    apply (front_framed t [b1; b2] r _ _ _ rec next Ef Hf Hh eq_refl H). intros v Hv Hn. unfold record_bytes, EncodeRecord. rewrite Ef, Hv.
    rewrite (proj2 (Z.eqb_neq _ _)), (proj2 (Z.ltb_ge _ _)), W1, W2 by lia. done.
  - simplify_eq. apply (front_framed t [] r _ _ _ rec next Ef Hf Hh eq_refl H). intros v Hv Hn. unfold record_bytes, EncodeRecord. by rewrite Ef, Hv.
  - destruct (Z.leb_spec (zlen (t :: r)) (0 + 4)) as [|Hl]; [done|]. destruct r as [|b1 [|b2 [|b3 [|b4 r]]]]; [exfalso; len_lia..|].
    rewrite at_1, at_2, at_3, at_4, !ok_bind, !word_le in Hr. cbv zeta in Hr. destruct (Z.eqb_spec (word b2 b1) (Z.lor (word b4 b3) stringLengthFlag)) as [E|]; [|done].
    cbn [negb] in Hr. simplify_eq. destruct (word_split b4 b3) as (W1 & W2 & W3). destruct (word_split b2 b1) as (W4 & W5 & W6).
    apply (front_framed t [b1; b2; b3; b4] r _ _ _ rec next Ef Hf Hh eq_refl H). intros v Hv Hn. unfold record_bytes. rewrite Ef. cbv zeta. rewrite Hv, <- E.
    rewrite (proj2 (Z.eqb_neq _ _)), (proj2 (Z.ltb_ge _ _)), W1, W2, W4, W5 by lia. done.
Qed.

(** A record at a place: its bytes are there. *)
Definition record_at (payload : bytes) (off : Z) (rec : Record_) (next : Z) : Prop :=
  exists pre b post, payload = pre ++ b ++ post /\ zlen pre = off /\ record_bytes (Tag rec) (Value rec) = Some b /\
    Offset rec = off /\ next = off + zlen b.

Lemma decode_exact payload off rec next :
  0 <= off -> decodeRecordAt payload off = Ok (Some (rec, next)) <-> record_at payload off rec next.
Proof.
  intros Hoff. split.
  - intros H. destruct (Z.leb_spec (zlen payload) off) as [Hle|Hlt].
    { unfold decodeRecordAt in H. by rewrite (proj2 (Z.leb_le _ _) Hle) in H. }
    destruct (cut_prefix (Z.to_nat off) payload) as (pre & rest & -> & Hp); [unfold zlen in Hlt; lia|].
    assert (off = zlen pre) as -> by (unfold zlen; lia). rewrite decode_shift in H.
    destruct (decodeRecordAt rest 0) as [[[rec0 n0]|]|e|] eqn:E; try done. cbn in H. simplify_eq.
    apply decode_front in E as (b & post & -> & Hb & -> & Ho). exists pre, b, post. cbn [Tag Value Offset]. rewrite Ho, Z.add_0_r. done.
  - intros (pre & b & post & -> & <- & Hb & Ho & ->). rewrite decode_shift, (decode_encoded _ _ _ post Hb). cbn. rewrite Z.add_0_r.
    destruct rec as [o t v]. cbn in *. by subst o.
Qed.

Lemma record_bytes_nonempty t v b : record_bytes t v = Some b -> 0 < zlen b.
Proof.
  unfold record_bytes, EncodeRecord. destruct (tagFraming t) as [[]|]; cbv zeta; repeat case_match; intros; simplify_eq; len_lia.
Qed.

Lemma record_at_bounds payload off rec next : record_at payload off rec next -> off < next <= zlen payload.
Proof.
  intros (pre & b & post & -> & <- & Hb & _ & ->). apply record_bytes_nonempty in Hb. rewrite !zlen_app. pose proof (zlen_nonneg post). lia.
Qed.

(** A computation that always returns a value: no decoder of this package has an error. *)
Definition returns {A} (m : res A) (P : A -> Prop) : Prop := exists a, m = Ok a /\ P a.

Lemma returns_ok {A} (a : A) (P : A -> Prop) : P a -> returns (Ok a) P.
Proof. by exists a. Qed.

Lemma returns_bind {A B} (m : res A) (k : A -> res B) (Q : A -> Prop) (P : B -> Prop) :
  returns m Q -> (forall a, Q a -> m = Ok a -> returns (k a) P) -> returns (m ≫= k) P.
Proof. intros (a & -> & Ha) Hk. rewrite ok_bind. by apply Hk. Qed.

Lemma returns_index {A} (l : list A) i : 0 <= i < zlen l -> returns (go_index l i) (fun _ => True).
Proof. intros H. destruct (go_index_ok (E := error) l i H) as [x ->]. by exists x. Qed.

Lemma returns_slice {A} (l : list A) a b : 0 <= a <= b -> b <= zlen l -> returns (go_slice l a b) (fun v => zlen v = b - a).
Proof. intros H1 H2. rewrite go_slice_ok by done. eexists. split; [done|]. len_lia. Qed.

Ltac returns_steps :=
  repeat match goal with
  | |- returns (if ?a <=? ?b then _ else _) _ => destruct (Z.leb_spec a b)
  | |- returns (if ?a <? ?b then _ else _) _ => destruct (Z.ltb_spec a b)
  | |- returns (if (?a =? ?b) || (?c <? ?d) then _ else _) _ => destruct (Z.eqb_spec a b); cbn [orb]; [|destruct (Z.ltb_spec c d)]
  | |- returns (if ?c then _ else _) _ => destruct c eqn:?
  | |- returns (go_index _ _ ≫= _) _ => eapply returns_bind; [apply returns_index; lia|]; intros ? _ _
  | |- returns (Ok _ ≫= _) _ => rewrite ok_bind
  end; cbv zeta.

Lemma header_returns payload off f : 0 <= off -> returns (record_header payload off f) (fun _ => True).
Proof. intros H. unfold record_header. destruct f; returns_steps; returns_steps; by apply returns_ok. Qed.

Lemma decode_record_ok payload off : 0 <= off -> is_Ok (decodeRecordAt payload off).
Proof.
  intros H. enough (returns (decodeRecordAt payload off) (fun _ => True)) as (a & Ha & _) by by exists a.
  unfold decodeRecordAt. destruct (Z.leb_spec (zlen payload) off); [by apply returns_ok|].
  eapply returns_bind; [apply returns_index; lia|]. intros t _ _.
  assert (forall f, returns (header ← record_header payload off f; match header with None => Ok None | Some (start, length) =>
    if (length =? 0) || (zlen payload <? start + length) then Ok None
    else v ← go_slice payload start (start + length); Ok (Some (mkRecord off t v, start + length)) end) (fun _ => True)) as Hf.
  { intros f. eapply returns_bind; [by apply header_returns|]. intros [[s n]|] _ Hh; [|by apply returns_ok]. apply header_bounds in Hh. returns_steps; try by apply returns_ok.
    eapply returns_bind; [apply returns_slice; lia|]. intros v _ _. by apply returns_ok. }
  destruct (tagFraming t) as [[]|]; try (by apply returns_ok); apply Hf.
Qed.

(** [decodeRecordAt] with what it promises. *)
Lemma returns_record payload off :
  0 <= off -> returns (decodeRecordAt payload off) (fun r => match r with Some (rec, next) => record_at payload off rec next | None => True end).
Proof.
  intros H. destruct (decode_record_ok payload off H) as [r E]. exists r. split; [done|]. destruct r as [[rec next]|]; [|done]. by apply decode_exact.
Qed.

(** decodeRecordAt always returns, and reports a record exactly when the bytes at the offset
    are the grammar's form of its tag and value; EncodeRecord writes that form for every tag
    but STRING. *)
Theorem record_exact payload off :
  0 <= off ->
  is_Ok (decodeRecordAt payload off) /\
  (forall rec next, decodeRecordAt payload off = Ok (Some (rec, next)) <-> record_at payload off rec next) /\
  forall tag value b, EncodeRecord tag value = (b, true) <-> tag <> TagString /\ record_bytes tag value = Some b.
Proof.
  intros H. split; [by apply decode_record_ok|]. split; [intros; by apply decode_exact|]. intros tag value b. unfold record_bytes.
  destruct (tagFraming tag) as [f|] eqn:Ef; [|unfold EncodeRecord; rewrite Ef; split; [done|by intros [_ ?]]].
  assert (f = framingString <-> tag = TagString) as Hs.
  { split; [|intros ->; by vm_compute in Ef; simplify_eq]. intros ->. unfold tagFraming in Ef. repeat case_bool_decide; done. }
  destruct (decide (f = framingString)) as [->|Hn].
  - unfold EncodeRecord. rewrite Ef. split; [done|]. intros [Hx _]. exfalso. by apply Hx, Hs.
  - assert (match f with framingString => False | _ => True end) by by destruct f. 
    assert (tag <> TagString) as Ht by (intros E; by apply Hn, Hs).
    destruct f; try done; destruct (EncodeRecord tag value) as [b' []]; (split; [intros; by simplify_eq|intros [_ ?]; by simplify_eq]).
Qed.

(** ** The record stream *)
(** Records one after another from [off] to [next]. *)
Inductive stream (payload : bytes) : Z -> list Record_ -> Z -> Prop :=
| stream_nil off : stream payload off [] off
| stream_cons off rec after recs next :
    record_at payload off rec after -> stream payload after recs next -> stream payload off (rec :: recs) next.

(** A scan's fuel is enough while there is payload left. *)
Definition enough (fuel : nat) (payload : bytes) (off : Z) : Prop := 0 <= off /\ zlen payload - off < Z.of_nat fuel /\ (0 < fuel)%nat.

Lemma enough_start payload off : 0 <= off -> enough (S (length payload)) payload off.
Proof. unfold enough, zlen. lia. Qed.

Lemma enough_next fuel payload off next : enough (S fuel) payload off -> off < next <= zlen payload -> enough fuel payload next.
Proof. unfold enough. lia. Qed.

Lemma records_loop_ok fuel payload off recs :
  enough fuel payload off ->
  exists more next, records_loop fuel payload off recs = Ok (recs ++ more, next) /\ stream payload off more next /\
    (zlen payload <= next \/ decodeRecordAt payload next = Ok None).
Proof.
  revert off recs. induction fuel as [|fuel IH]; intros off recs Hf; [destruct Hf as (_ & _ & ?); lia|]. cbn [records_loop].
  destruct (Z.ltb_spec off (zlen payload)) as [Hlt|Hge].
  2: { exists [], off. rewrite app_nil_r. split_and!; [done|constructor|by left]. }
  destruct (returns_record payload off) as ([[rec after]|] & E & Hr); [apply Hf| |]; rewrite E, ok_bind.
  - destruct (IH after (recs ++ [rec])) as (more & next & -> & Hs & Hn); [apply (enough_next _ _ off); [done|]; by eapply record_at_bounds|].
    exists (rec :: more), next. rewrite <- app_assoc. split_and!; [done|by eapply stream_cons|done].
  - exists [], off. rewrite app_nil_r. split_and!; [done|constructor|by right].
Qed.

(** Where a stream ends: at the end of the payload or before a byte that starts no record. *)
Definition ends_at (payload : bytes) (next : Z) : Prop := next = zlen payload \/ decodeRecordAt payload next = Ok None.

Lemma stream_unique payload off recs next recs' next' :
  0 <= off -> stream payload off recs next -> ends_at payload next -> stream payload off recs' next' -> ends_at payload next' ->
  recs' = recs /\ next' = next.
Proof.
  intros H0 Hs He Hs' He'. revert recs' next' Hs' He' H0 He. induction Hs as [off|off rec after recs next Hr _ IH]; intros recs' next' Hs' He' H0 He.
  - destruct Hs' as [|off rec' after' recs' next' Hr' _]; [done|]. exfalso. pose proof Hr' as Hb%record_at_bounds. destruct He as [->|He]; [lia|].
    apply decode_exact in Hr'; [|done]. congruence.
  - pose proof Hr as Hb%record_at_bounds. destruct Hs' as [off|off rec' after' recs' next' Hr' Hs'].
    + exfalso. destruct He' as [->|He']; [lia|]. apply decode_exact in Hr; [|done]. congruence.
    + apply decode_exact in Hr, Hr'; try done. rewrite Hr in Hr'. simplify_eq. destruct (IH recs' next' Hs' He' ltac:(lia) He) as [-> ->]. done.
Qed.

(** DecodeRecords returns the one stream of adjacent records from the start of the payload
    that ends at its end or before a byte that starts no record, with the bytes it covers. *)
Theorem records_exact payload :
  exists recs next, DecodeRecords payload = Ok (recs, next) /\ stream payload 0 recs next /\ ends_at payload next /\
    forall recs' next', stream payload 0 recs' next' -> ends_at payload next' -> recs' = recs /\ next' = next.
Proof.
  destruct (records_loop_ok (S (length payload)) payload 0 [] (enough_start payload 0 ltac:(lia))) as (recs & next & E & Hs & Hn).
  assert (forall off recs next, stream payload off recs next -> 0 <= off <= zlen payload -> next <= zlen payload) as Hb.
  { induction 1 as [off|off rec after recs' next' Hr _ IH]; [lia|]. intros Ho. apply record_at_bounds in Hr. apply IH. lia. }
  pose proof (zlen_nonneg payload) as Hz. specialize (Hb 0 recs next Hs ltac:(lia)).
  assert (ends_at payload next) as Hend by (destruct Hn; [left; lia|by right]).
  exists recs, next. split_and!; [exact E|done|done|]. intros recs' next' Hs' He'. by apply (stream_unique payload 0).
Qed.

(** ** Containers *)
Ltac flat_lists := repeat (rewrite <- ?app_assoc; cbn [app]); reflexivity.

Definition item_bytes (it : Item) : bytes := be_split 2 (ID it) ++ be_split 2 (zlen (Data it)) ++ Data it ++ be_split 2 (ID it).

Record item_at (payload : bytes) (off : Z) (it : Item) (next : Z) : Prop := {
  ia_place : exists pre post, payload = pre ++ item_bytes it ++ post /\ zlen pre = off;
  ia_offset : it_Offset it = off;
  ia_next : next = off + zlen (item_bytes it);
  ia_id : is_u16 (ID it);
  ia_length : is_u16 (zlen (Data it)) }.

Lemma split_word hi lo : be_split 2 (word hi lo) = [hi; lo].
Proof. replace (word hi lo) with (be_combine [hi; lo]) by (unfold word; cbn; lia). apply be_split_2. Qed.

Lemma word_at_front pre hi lo l off : off = zlen pre -> word_at (pre ++ hi :: lo :: l) off = Ok (word hi lo).
Proof.
  intros ->. unfold word_at. rewrite (go_index_mid pre hi (lo :: l) (zlen pre)), ok_bind by done. replace (pre ++ hi :: lo :: l) with ((pre ++ [hi]) ++ lo :: l) by flat_lists.
  rewrite go_index_mid by len_lia. by rewrite ok_bind, word_be.
Qed.

Lemma item_length it : zlen (item_bytes it) = 6 + zlen (Data it).
Proof. unfold item_bytes, zlen. rewrite !length_app, !length_be_split. lia. Qed.

Lemma word_front v : is_u16 v -> exists hi lo, be_split 2 v = [hi; lo] /\ word hi lo = v.
Proof.
  intros Hv. exists (z2b (Z.shiftr v 8)), (z2b v). rewrite word_of by (unfold is_u16 in Hv; lia). split; [|done].
  rewrite <- split_word. by rewrite word_of by (unfold is_u16 in Hv; lia).
Qed.

Lemma item_decoded payload off it next : item_at payload off it next -> DecodeItemAt payload off = Ok (Some (it, next)).
Proof.
  intros [(pre & post & -> & <-) Ho -> Hid Hl]. unfold DecodeItemAt. pose proof (item_length it) as Hz. rewrite !zlen_app.
  replace (zlen pre + zlen (item_bytes it)) with (zlen pre + 4 + zlen (Data it) + 2) by lia. set (L := zlen (item_bytes it)) in *. clearbody L.
  pose proof (zlen_nonneg (Data it)). pose proof (zlen_nonneg post). destruct (Z.ltb_spec (zlen pre + (L + zlen post)) (zlen pre + 4)); [lia|].
  unfold item_bytes. destruct (word_front _ Hid) as (i1 & i0 & Ei & Wi). destruct (word_front _ Hl) as (n1 & n0 & En & Wn). rewrite Ei, En. cbn [app].
  rewrite (word_at_front pre i1 i0 _ (zlen pre) eq_refl), ok_bind, Wi.
  replace (pre ++ i1 :: i0 :: n1 :: n0 :: (Data it ++ [i1; i0]) ++ post) with ((pre ++ [i1; i0]) ++ n1 :: n0 :: (Data it ++ [i1; i0]) ++ post) by flat_lists.
  rewrite (word_at_front (pre ++ [i1; i0])), ok_bind, Wn by (rewrite zlen_app; done). cbv zeta.
  destruct (Z.ltb_spec (zlen pre + (L + zlen post)) (zlen pre + 4 + zlen (Data it) + 2)); [lia|].
  replace ((pre ++ [i1; i0]) ++ n1 :: n0 :: (Data it ++ [i1; i0]) ++ post) with ((pre ++ [i1; i0; n1; n0] ++ Data it) ++ i1 :: i0 :: post)
    by flat_lists.
  rewrite word_at_front, ok_bind, Wi by (rewrite !zlen_app; change (zlen [i1; i0; n1; n0]) with 4; lia). rewrite Z.eqb_refl. cbn [negb].
  rewrite (app_assoc pre), <- (app_assoc (pre ++ [i1; i0; n1; n0])). rewrite go_slice_mid by (rewrite zlen_app; change (zlen [i1; i0; n1; n0]) with 4; lia).
  rewrite ok_bind. rewrite <- Ho. by destruct it.
Qed.

Lemma item_found payload off it next : 0 <= off -> DecodeItemAt payload off = Ok (Some (it, next)) -> item_at payload off it next.
Proof.
  intros H0 H. unfold DecodeItemAt in H. destruct (Z.ltb_spec (zlen payload) (off + 4)) as [|Hl]; [done|].
  destruct (cut_prefix (Z.to_nat off) payload) as (pre & r & -> & Hp); [unfold zlen in Hl; lia|]. assert (off = zlen pre) as -> by (unfold zlen; lia).
  rewrite zlen_app in Hl. destruct r as [|i1 [|i0 [|n1 [|n0 r]]]]; [exfalso; len_lia..|].
  rewrite (word_at_front pre i1 i0 (n1 :: n0 :: r) (zlen pre) eq_refl), ok_bind in H.
  replace (pre ++ i1 :: i0 :: n1 :: n0 :: r) with ((pre ++ [i1; i0]) ++ n1 :: n0 :: r) in H by flat_lists.
  rewrite (word_at_front (pre ++ [i1; i0]) n1 n0 r), ok_bind in H by (rewrite zlen_app; done). cbv zeta in H. destruct (word_split n1 n0) as (_ & _ & Hn).
  match type of H with (if ?a <? ?b then _ else _) = _ => destruct (Z.ltb_spec a b) as [|Hle]; [done|] end.
  destruct (cut_prefix (Z.to_nat (word n1 n0)) r) as (d & r' & -> & Hd); [rewrite zlen_app in Hle; unfold zlen in *; rewrite ?length_app in *; cbn [length] in *; lia|].
  assert (zlen d = word n1 n0) as Hzd by (unfold zlen; lia). destruct r' as [|c1 [|c0 post]]; [exfalso; len_lia..|].
  replace ((pre ++ [i1; i0]) ++ n1 :: n0 :: d ++ c1 :: c0 :: post) with ((pre ++ [i1; i0; n1; n0] ++ d) ++ c1 :: c0 :: post) in H
    by flat_lists.
  rewrite word_at_front, ok_bind in H by (rewrite !zlen_app; change (zlen [i1; i0; n1; n0]) with 4; lia).
  destruct (Z.eqb_spec (word c1 c0) (word i1 i0)) as [Ec|]; [|done]. cbn [negb] in H.
  rewrite (app_assoc pre), <- (app_assoc (pre ++ [i1; i0; n1; n0])) in H.
  rewrite go_slice_mid in H by (rewrite zlen_app; change (zlen [i1; i0; n1; n0]) with 4; lia). rewrite ok_bind in H. simplify_eq.
  assert ([c1; c0] = [i1; i0]) as Ec' by by rewrite <- !split_word, Ec.
  split; cbn [ID Data it_Offset].
  - exists pre, post. unfold item_bytes. cbn [ID Data]. rewrite Hzd, !split_word. injection Ec' as -> ->. split; [|done]. cbn [app]. by rewrite <- app_assoc.
  - done.
  - rewrite item_length. cbn [Data]. lia.
  - destruct (word_split i1 i0) as (_ & _ & Hi). unfold is_u16. lia.
  - rewrite Hzd. unfold is_u16. lia.
Qed.

Lemma item_returns payload off :
  0 <= off -> returns (DecodeItemAt payload off) (fun r => match r with Some (it, next) => item_at payload off it next | None => True end).
Proof.
  intros H. assert (returns (DecodeItemAt payload off) (fun _ => True)) as (r & E & _).
  { unfold DecodeItemAt. assert (forall i, 0 <= i -> i + 2 <= zlen payload -> returns (word_at payload i) (fun v => 0 <= v)) as Hw.
    { intros i H1 H2. unfold word_at. returns_steps. apply returns_ok. rewrite word_be. by apply word_split. }
    destruct (Z.ltb_spec (zlen payload) (off + 4)); [by apply returns_ok|]. eapply returns_bind; [apply Hw; lia|]. intros id _ _.
    eapply returns_bind; [apply Hw; lia|]. intros n Hn _. cbv zeta in *. cbv beta in Hn. returns_steps; [by apply returns_ok|].
    eapply returns_bind; [apply Hw; lia|]. intros c _ _. destruct (negb _); [by apply returns_ok|].
    eapply returns_bind; [apply returns_slice; lia|]. intros d _ _. by apply returns_ok. }
  exists r. split; [done|]. destruct r as [[it next]|]; [|done]. by apply item_found.
Qed.

(** Items in order, each behind the one before. *)
Fixpoint apart (payload : bytes) (from : Z) (items : list Item) : Prop :=
  match items with
  | [] => True
  | it :: items => from <= it_Offset it /\ exists next, item_at payload (it_Offset it) it next /\ apart payload next items
  end.

Lemma item_bounds payload off it next : item_at payload off it next -> off < next <= zlen payload.
Proof.
  intros [(pre & post & -> & <-) _ -> _ _]. rewrite item_length, !zlen_app, item_length. pose proof (zlen_nonneg (Data it)). pose proof (zlen_nonneg post). lia.
Qed.

Lemma find_items_ok fuel payload i out :
  enough fuel payload i -> exists more, find_items fuel payload i out = Ok (out ++ more) /\ forall from, from <= i -> apart payload from more.
Proof.
  revert i out. induction fuel as [|fuel IH]; intros i out Hf; [destruct Hf as (_ & _ & ?); lia|]. cbn [find_items].
  destruct (Z.leb_spec (i + 6) (zlen payload)) as [Hle|]; [|exists []; by rewrite app_nil_r].
  destruct (item_returns payload i) as ([[it next]|] & E & Hr); [apply Hf| |]; rewrite E, ok_bind.
  - pose proof (item_bounds _ _ _ _ Hr) as Hb. destruct (IH next (out ++ [it])) as (more & -> & Ha); [by apply (enough_next _ _ i)|].
    exists (it :: more). rewrite <- app_assoc. split; [done|]. intros from Hfrom. cbn [apart]. rewrite (ia_offset _ _ _ _ Hr). split; [done|].
    exists next. split; [done|]. apply Ha. lia.
  - destruct (IH (i + 1) out) as (more & -> & Ha); [apply (enough_next _ _ i); [done|lia]|]. exists more. split; [done|]. intros from Hfrom. apply Ha. lia.
Qed.

(** An item is decoded exactly where its framed bytes are, and FindItems returns items that
    lie in the payload, in order and apart from one another. *)
Theorem items_found payload :
  (forall off it next, 0 <= off -> DecodeItemAt payload off = Ok (Some (it, next)) <-> item_at payload off it next) /\
  exists items, FindItems payload = Ok items /\ apart payload 0 items.
Proof.
  split; [intros off it next H; split; [by apply item_found|apply item_decoded]|].
  destruct (find_items_ok (S (length payload)) payload 0 [] (enough_start payload 0 ltac:(lia))) as (items & E & Ha). exists items. split; [exact E|]. by apply Ha.
Qed.

(** ** The other decoders *)
Lemma returns_impl {A} (m : res A) (P Q : A -> Prop) : returns m P -> (forall a, P a -> Q a) -> returns m Q.
Proof. intros (a & E & H) Hi. exists a. auto. Qed.

Lemma descriptor_returns payload off :
  0 <= off -> returns (descriptorAt payload off)
    (fun r => match r with Some (rec, next) => record_at payload off rec next /\ IsTypeDescriptor rec = true | None => True end).
Proof.
  intros H. unfold descriptorAt. eapply returns_bind; [by apply returns_record|]. intros [[rec next]|] Hr _; [|by apply returns_ok].
  destruct (IsTypeDescriptor rec) eqn:E; [|by apply returns_ok]. by apply returns_ok.
Qed.

(** A descriptor names a type: the rest of its value. *)
Lemma type_name_returns rec :
  IsTypeDescriptor rec = true -> returns (TypeName rec) (fun '(name, ok) => ok = true /\ Value rec = typeDescriptorPrefix ++ name).
Proof.
  intros H. unfold TypeName. rewrite H. cbn [negb]. unfold IsTypeDescriptor in H. apply andb_true_iff in H as [_ H]. unfold has_prefix in H.
  apply bytes_eqb_eq in H. rewrite <- (take_drop (length typeDescriptorPrefix) (Value rec)), H.
  rewrite go_from_app, ok_bind by done. by apply returns_ok.
Qed.

Lemma find_descriptors_returns fuel payload i out : enough fuel payload i -> returns (find_descriptors fuel payload i out) (fun _ => True).
Proof.
  revert i out. induction fuel as [|fuel IH]; intros i out Hf; [destruct Hf as (_ & _ & ?); lia|]. cbn [find_descriptors].
  change (zlen typeDescriptorPrefix) with 6. destruct (Z.leb_spec (i + 6 + 2) (zlen payload)); [|by apply returns_ok].
  eapply returns_bind; [apply descriptor_returns, Hf|]. intros r _ _. apply IH, (enough_next _ _ i); [done|lia].
Qed.

Lemma is_value_returns payload off rec next : record_at payload off rec next -> returns (is_value payload rec next) (fun _ => True).
Proof.
  intros H. unfold is_value. pose proof H as Hb%record_at_bounds. destruct H as (pre & b & post & -> & <- & _). pose proof (zlen_nonneg pre).
  destruct (_ || _); [by apply returns_ok|]. destruct (bool_decide _); [|by apply returns_ok]. returns_steps; by apply returns_ok.
Qed.

Lemma value_loop_returns fuel payload j limit :
  enough fuel payload j -> limit <= zlen payload ->
  returns (value_loop fuel payload j limit) (fun v => match v with Some rec => exists off next, j <= off < limit /\ record_at payload off rec next | None => True end).
Proof.
  revert j. induction fuel as [|fuel IH]; intros j Hf Hl; [destruct Hf as (_ & _ & ?); lia|]. cbn [value_loop].
  destruct (Z.ltb_spec j limit) as [Hlt|]; [|by apply returns_ok].
  assert (returns (value_loop fuel payload (j + 1) limit) (fun v => match v with Some rec => exists off next, j <= off < limit /\ record_at payload off rec next | None => True end)) as Hn.
  { eapply returns_impl; [apply IH; [apply (enough_next _ _ j); [done|lia]|done]|]. intros [rec|]; [|done]. intros (off & next & ? & ?). exists off, next. split; [lia|done]. }
  eapply returns_bind; [apply returns_record, Hf|]. intros [[rec next]|] Hr _; [|done]. eapply returns_bind; [by eapply is_value_returns|]. intros [] _ _; [|done].
  apply returns_ok. exists j, next. split; [lia|done].
Qed.

Lemma typed_loop_returns fuel payload i out : enough fuel payload i -> returns (typed_loop fuel payload i out) (fun _ => True).
Proof.
  revert i out. induction fuel as [|fuel IH]; intros i out Hf; [destruct Hf as (_ & _ & ?); lia|]. cbn [typed_loop].
  destruct (Z.ltb_spec i (zlen payload)) as [Hlt|]; [|by apply returns_ok]. eapply returns_bind; [apply descriptor_returns, Hf|].
  intros [[desc after]|] Hd _; [|apply IH, (enough_next _ _ i); [done|lia]]. destruct Hd as [Hr Hd]. apply record_at_bounds in Hr.
  eapply returns_bind; [by apply type_name_returns|]. intros [name ok] _ _. cbv zeta.
  eapply returns_bind; [apply value_loop_returns; [apply enough_start; destruct Hf; lia|lia]|]. intros v _ _.
  apply IH, (enough_next _ _ i); [done|lia].
Qed.

Definition plain_field (f : Field) : Prop := isPlainName (f_Name f) = true /\ HasWidth f = widthParameterised (TypeCode f).

Lemma fields_loop_returns n payload i fields :
  0 <= i <= zlen payload -> Forall plain_field fields ->
  returns (fields_loop n payload i fields) (fun r => match r with
    | Some (fs, next) => i <= next <= zlen payload /\ Forall plain_field fs /\ length fs = (length fields + n)%nat | None => True end).
Proof.
  revert i fields. induction n as [|n IH]; intros i fields Hi Hp; cbn [fields_loop].
  { apply returns_ok. split_and!; [lia|lia|done|lia]. }
  destruct (Z.leb_spec (zlen payload) i); [by apply returns_ok|]. eapply returns_bind; [apply returns_index; lia|]. intros code _ _.
  assert (returns (field_width payload (i + 1) code) (fun w => match w with Some (_, has, j) => has = widthParameterised code /\ i + 1 <= j | None => True end)) as Hw.
  { unfold field_width. destruct (widthParameterised code) eqn:Ew; [|apply returns_ok; split; [done|lia]]. returns_steps; [by apply returns_ok|].
    apply returns_ok. split; [done|lia]. }
  eapply returns_bind; [exact Hw|]. intros [[[width has] j]|] Hj _; [|by apply returns_ok]. destruct Hj as [-> Hj].
  destruct (Z.leb_spec (zlen payload) j); [by apply returns_ok|]. eapply returns_bind; [apply returns_index; lia|]. intros nl _ _. cbv zeta.
  pose proof (b2z_range nl). destruct (Z.eqb_spec (b2z nl) 0); [by apply returns_ok|]. cbn [orb]. destruct (Z.ltb_spec (zlen payload) (j + 1 + b2z nl)); [by apply returns_ok|].
  eapply returns_bind; [apply returns_slice; lia|]. intros raw _ _. destruct (isPlainName raw) eqn:Er; cbn [negb]; [|by apply returns_ok].
  eapply returns_impl; [apply IH; [lia|]; apply Forall_app; split; [done|]; by apply Forall_singleton|].
  intros [[fs next]|]; [|done]. intros (Hn & Hfs & Hlen). rewrite length_app in Hlen. cbn [length] in Hlen. split_and!; [lia|lia|done|lia].
Qed.

(** What a decoded parameter is. *)
Definition parameter_at (payload : bytes) (off : Z) (p : Parameter_) (next : Z) : Prop :=
  off < next <= zlen payload /\ p_Offset p = off /\ go_index payload off = (Ok parameterHeader : res byte) /\
  (exists c, go_index payload (off + 1) = (Ok c : res byte) /\ zlen (p_Fields p) = b2z c) /\
  Forall plain_field (p_Fields p) /\
  exists desc after, record_at payload (off + 2) desc after /\ Value desc = typeDescriptorPrefix ++ p_TypeName p.

Lemma parameter_returns payload off :
  0 <= off -> returns (DecodeParameter payload off) (fun r => match r with Some (p, next) => parameter_at payload off p next | None => True end).
Proof.
  intros H0. unfold DecodeParameter. destruct (Z.leb_spec (zlen payload) (off + 1)); [by apply returns_ok|].
  eapply returns_bind; [apply returns_index; lia|]. intros h _ Eh. destruct (bool_decide_reflect (h = parameterHeader)) as [->|]; cbn [negb]; [|by apply returns_ok].
  eapply returns_bind; [apply returns_index; lia|]. intros c _ Ec. eapply returns_bind; [apply returns_record; lia|].
  intros [[desc after]|] Hr _; [|by apply returns_ok]. destruct (IsTypeDescriptor desc) eqn:Ed; cbn [negb]; [|by apply returns_ok].
  pose proof (record_at_bounds _ _ _ _ Hr) as Hb.
  eapply returns_bind; [by apply type_name_returns|]. intros [name ok] [_ Hname] _.
  eapply returns_bind; [apply (fields_loop_returns (Z.to_nat (b2z c)) payload after []); [lia|constructor]|].
  intros [[fs next]|] Hfs _; [|by apply returns_ok]. destruct Hfs as (Hn & Hp & Hl). cbn [length] in Hl.
  destruct (Z.eqb_spec (zlen fs) (b2z c)) as [E|]; cbn [negb]; [|by apply returns_ok]. apply returns_ok.
  unfold parameter_at. cbn [p_Offset p_Fields p_TypeName]. split_and!; try done; try lia; [by exists c|by exists desc, after].
Qed.

Lemma parameters_loop_returns fuel payload i out :
  enough fuel payload i -> Forall (fun p => exists off next, parameter_at payload off p next) out ->
  returns (parameters_loop fuel payload i out) (fun ps => Forall (fun p => exists off next, parameter_at payload off p next) ps).
Proof.
  revert i out. induction fuel as [|fuel IH]; intros i out Hf Ho; [destruct Hf as (_ & _ & ?); lia|]. cbn [parameters_loop].
  destruct (Z.ltb_spec (i + 2) (zlen payload)); [|by apply returns_ok]. eapply returns_bind; [apply parameter_returns, Hf|].
  intros [[p next]|] Hp _; [|apply IH; [apply (enough_next _ _ i); [done|lia]|done]].
  apply IH; [apply (enough_next _ _ i); [done|apply Hp]|]. apply Forall_app. split; [done|]. apply Forall_singleton. by exists i, next.
Qed.

Lemma items_loop_returns fuel payload off items : enough fuel payload off -> returns (items_loop fuel payload off items) (fun _ => True).
Proof.
  revert off items. induction fuel as [|fuel IH]; intros off items Hf; [destruct Hf as (_ & _ & ?); lia|]. cbn [items_loop].
  destruct (Z.ltb_spec off (zlen payload)); [|by apply returns_ok]. eapply returns_bind; [apply item_returns, Hf|].
  intros [[it next]|] Hi _; [|by apply returns_ok]. apply IH, (enough_next _ _ off); [done|by eapply item_bounds].
Qed.

Lemma char_loop_returns fuel payload i out : enough fuel payload i -> returns (char_loop fuel payload i out) (fun _ => True).
Proof.
  revert i out. induction fuel as [|fuel IH]; intros i out Hf; [destruct Hf as (_ & _ & ?); lia|]. cbn [char_loop].
  destruct (Z.leb_spec (i + 3) (zlen payload)); [|by apply returns_ok]. pose proof Hf as [Hi _].
  assert (returns (char_field_at payload i) (fun r => match r with Some (_, next) => i < next <= zlen payload | None => True end)) as Hc.
  { unfold char_field_at. returns_steps; try by apply returns_ok. apply andb_true_iff in Heqb0 as [E1 E2]. 
    eapply returns_bind; [apply returns_slice; lia|]. intros v _ _. apply returns_ok. lia. }
  eapply returns_bind; [exact Hc|]. intros [[v next]|] Hn _; apply IH, (enough_next _ _ i); (done || lia).
Qed.

(** Every search of the package returns on every payload, and a decoded parameter has a
    header, a descriptor with its type name and exactly as many plainly named fields as its
    count byte says. *)
Theorem fastser_returns payload :
  is_Ok (FindTypeDescriptors payload) /\ is_Ok (DecodeTypedFields payload) /\ is_Ok (DecodeCharFields payload) /\
  (forall off, 0 <= off -> is_Ok (DecodeItems payload off)) /\
  exists ps, DecodeParameters payload = Ok ps /\ Forall (fun p => exists off next, parameter_at payload off p next) ps.
Proof.
  assert (forall A (m : res A), returns m (fun _ => True) -> is_Ok m) as Hok by (intros A m (a & E & _); by exists a).
  pose proof (enough_start payload 0 ltac:(lia)) as H0. split_and!.
  - by apply Hok, find_descriptors_returns.
  - by apply Hok, typed_loop_returns.
  - by apply Hok, char_loop_returns.
  - intros off H. by apply Hok, items_loop_returns, enough_start.
  - by apply parameters_loop_returns.
Qed.

(** A character field is read back, cut to 255 bytes. *)
Theorem char_field_roundtrip v :
  v <> [] -> DecodeCharFields (EncodeCharField v) = Ok [mkCharField (take 255 v)].
Proof.
  intros Hv. unfold EncodeCharField. cbv zeta. set (w := if 0xff <? zlen v then take 255 v else v).
  assert (w = take 255 v) as Hw by (unfold w; destruct (Z.ltb_spec 0xff (zlen v)); [done|]; rewrite take_ge; [done|unfold zlen in *; lia]).
  assert (0 < zlen w <= 255) as Hl by (rewrite Hw; destruct v; [done|]; len_lia). rewrite <- Hw. clearbody w. clear Hw Hv v.
  assert (char_field_at (charTag :: z2b (zlen w) :: charFlag :: w) 0 = Ok (Some (w, 3 + zlen w))) as Hc.
  { unfold char_field_at. rewrite at_1, at_2. change (go_index (charTag :: z2b (zlen w) :: charFlag :: w) 0) with (Ok charTag : res byte). rewrite !ok_bind.
    rewrite !bool_decide_eq_true_2 by done. cbn [andb]. rewrite b2z_z2b, Z.mod_small by lia.
    rewrite (proj2 (Z.ltb_lt _ _)), (proj2 (Z.leb_le _ _)) by len_lia. cbn [andb].
    replace (charTag :: z2b (zlen w) :: charFlag :: w) with ([charTag; z2b (zlen w); charFlag] ++ w ++ []) by by rewrite app_nil_r.
    by rewrite go_slice_mid by (unfold zlen; cbn; lia). }
  unfold DecodeCharFields. cbn [length]. cbn [char_loop]. rewrite (proj2 (Z.leb_le _ _)) by len_lia. rewrite Hc, ok_bind.
  rewrite (proj2 (Z.leb_gt _ _)) by len_lia. done.
Qed.

(** ** Instances *)
Lemma record_exact_witness :
  decodeRecordAt (lit "xP" ++ [x07] ++ lit "\TYPE=I" ++ [x03]) 1 = Ok (Some (mkRecord 1 TagDescriptor (lit "\TYPE=I"), 10)) /\
  record_at (lit "xP" ++ [x07] ++ lit "\TYPE=I" ++ [x03]) 1 (mkRecord 1 TagDescriptor (lit "\TYPE=I")) 10.
Proof.
  destruct (record_exact (lit "xP" ++ [x07] ++ lit "\TYPE=I" ++ [x03]) 1 ltac:(lia)) as (_ & H & _).
  split; [vm_compute; reflexivity|]. apply H. vm_compute. reflexivity.
Defined.

Lemma char_field_roundtrip_witness : DecodeCharFields (EncodeCharField (lit "AB")) = Ok [mkCharField (lit "AB")].
Proof. apply (char_field_roundtrip (lit "AB")). discriminate. Defined.
